(* ===== verification/_CoqProject ===== *)
-Q . S2P
Prelude.v
GoStrings.v
Utf8.v
Path.v
GoVal.v
Rounding.v
Text.v
Event.v
Processor.v
Filters.v
Tags.v
Group.v
Control.v
Convert.v
TextProc.v
Prom.v
Otlp.v
OtlpLife.v
Messages.v
Outputs.v
Tls.v
Target.v
Subscribe.v
Stream.v
Targets.v
GnmiServer.v
Formats.v
OutMsg.v
Workers.v
Tcp.v
Udp.v
Nats.v
Jetstream.v
Kafka.v
Inputs.v
NatsInput.v
KafkaInput.v
JetstreamInput.v
ClickhouseRows.v
Clickhouse.v
InfluxPoints.v
Influx.v
PromWrite.v
PromWriteLife.v
Defaults.v
Loaders.v
Retry.v
Api.v
Requests.v
AppCluster.v
Placement.v
Rebalance.v
Manager.v
Reconcile.v
Follower.v
Leader.v
Spread.v
Election.v
Pipeline.v
