(* ===== verification/Prelude.v ===== *)
(** * gnmic: a verification development

    gnmic is a gNMI client and telemetry collector. A target (a network device)
    is connected over gRPC; subscriptions stream notifications from it; a
    notification becomes events, which pass through processors and end in
    outputs. The collector keeps its configuration in a store that an API and
    loaders change, and several collectors form a cluster: a leader elected
    through a lock service assigns the targets to the members. This library
    models the logic of these parts in Rocq, from the Go code under src/pkg, and
    proves what makes each of them correct. Where the code does not do what it
    means to, the theorem or example says what it does.

    ** The parts, and where they are

    The language and its library. Prelude.v (this file): results of Go code
    ([go]: a value, an error, a panic), folds of fallible steps, Go maps that may
    be nil ([gomap]), the order of [range] as a parameter ([MapOrder]), the
    relation of all runs of a loop that writes to the map it ranges over
    ([range_run]), list and sum lemmas. GoStrings.v and Utf8.v: strings as
    bytes, package strings, UTF-8 decoding and its round trip. GoVal.v: dynamic
    values ([any]), integers at their width, IEEE floats, Atoi, FNV-1a. Rounding.v:
    what the rounding of a product does to a comparison. Text.v: case mapping, trimming, splitting,
    strconv, host and port.

    Paths and messages. Path.v: api/path/path.go, xpath text to gNMI paths and
    back. Messages.v: api/gnmi_msgs.go, requests and responses built from
    options. Subscribe.v: utils/gnmi.go, subscribe requests of subscription
    configurations. Requests.v: config/config.go, set.go, gnmi_ext.go, get and
    set requests from flags, files and templates.

    Events. Event.v: formatters/event.go, notifications to events, events to
    generic maps and back. Processor.v: formatters/processors.go and
    condition.go, the interface of processors ([EventProcessor],
    [SafeProcessor]) and jq conditions. Filters.v, Tags.v, Group.v, Control.v,
    Convert.v, TextProc.v: one section per processor package (event_allow, event_drop,
    event_delete, event_keep; event_add_tag, event_extract_tags, event_to_tag,
    event_value_tag, event_value_tag_v2; event_merge, event_group_by,
    event_override_ts; event_combine, event_trigger, event_rate_limit;
    event_convert, event_duration_convert, event_time_epoch,
    event_ieeefloat32; event_data_convert, event_date_string, event_strings).
    Pipeline.v: how processors are made by name and run in
    order (formatters/processors.go, outputs/output.go); it is proved against
    the interface of Processor.v, which the processor files discharge.

    Outputs. Prom.v: outputs/prometheus_output, metric names, labels, values
    and the table of the scrape output with the keys of its series. Otlp.v and OtlpLife.v:
    outputs/otlp_output, the conversion of events, the validity of a request,
    retries, and the life of transports under updates. Outputs.v:
    collector/managers/outputs and inputs, one section over the interface
    [ComponentImpl], with the handler of an event as separate steps where the
    code releases the lock of the manager; Api.v interleaves them with a request. Formats.v: formatters/formats.go, json.go, flat.go and
    msg.go, the formats of a message. OutMsg.v: outputs/output.go, what outputs
    do with a message before they send it. Workers.v: the goroutines that the
    tcp, udp, nats, jetstream and kafka outputs share (channels, contexts, wait
    groups, restarts and drains) as one step relation; Tcp.v, Udp.v, Nats.v,
    Jetstream.v and Kafka.v: each of these outputs, its configuration, Init and
    Update over that relation, subjects, topics and keys. ClickhouseRows.v and
    Clickhouse.v: outputs/clickhouse_output, the table it creates and the rows
    of an event; its channel, workers and batches as a step relation.
    InfluxPoints.v and Influx.v: outputs/influxdb_output, the points of an event;
    its worker, health check, client and cache as step relations.
    PromWrite.v and PromWriteLife.v: outputs/prometheus_output's remote write,
    its requests, their headers, chunks and retries; its workers, writers and
    channel of series as a step relation.

    Inputs. Inputs.v: what the nats, jetstream and kafka inputs share, over the
    interface [InputConfig] of their configurations: the life of their workers
    under updates as a step relation, and what is done with a decoded payload.
    NatsInput.v, KafkaInput.v and JetstreamInput.v: each of them; their subjects
    and keys are read back against Nats.v, Kafka.v and Jetstream.v.

    Targets. Tls.v: api/utils/tls.go, with certificate reload. Target.v:
    api/types/target.go, target configurations. Defaults.v:
    config/targets.go, the targets of the configuration, with defaults and
    environment variables. Stream.v: api/target/subscribe.go,
    the loop of a subscription and the table of streams. Targets.v:
    collector/managers/targets, every handler of the targets manager as a
    function on its state. Retry.v: one target's retry loop interleaved with
    the threads that start and stop it. Loaders.v: pkg/loaders and the receivers
    of their operations (app/loaders.go, collector/managers/targets/loader.go).
    Api.v: collector/api/server, the handlers that change the configuration.
    GnmiServer.v: gnmiserver, collector/api/gnmi and utils/gnmi_notifications.go,
    the gNMI server that answers Get, Set and Subscribe.

    The cluster. Placement.v: placement.go, quotas and the choice of a member.
    Rebalance.v: rebalance.go, the plan. Manager.v: cluster_manager.go and
    assigner.go, the leader's operations as computations over a history of
    calls. Reconcile.v: what a reconciliation decides. Follower.v:
    collector/api/server/assignment.go, a member's side. Leader.v and Spread.v:
    the leader's requests delivered to the members, end to end. Election.v:
    election.go, the goroutines of the leader election as a step relation.
    AppCluster.v: the cluster of the application, which has its own code
    (app/clustering.go, app/api.go).

    ** How the model follows the code

    A function of the code is a function here, with the code's name where Rocq
    allows it; a field of a struct is a field of a record. An operation on
    shared state takes the state and gives the new one; goroutines that share
    state are step relations or event sequences over it (Retry.v, Election.v,
    OtlpLife.v, Stream.v, Loaders.v, Tls.v, Workers.v, Inputs.v,
    Clickhouse.v, Influx.v, PromWriteLife.v), whose steps are what one goroutine
    does between two points where another may run. Integers have their width
    where overflow can be reached; times and durations are nanoseconds, bounded
    where the code multiplies them. Maps are finite maps; a loop over a map is
    proved for every order. Logging, metrics of the program itself and tracing
    are left out.

    Code outside src/ is a parameter: type classes such as [RegexpPkg], [Gojq],
    [EventEnv], [ValueEnv], [GnmiEnums], [TlsLib], [FmtEnv], [UnicodeCase],
    [FloatConv], [RequestEnv], [UnitsPkg], [TimeFormat], [ServerEnv], [FormatEnv],
    [Templates], and arguments that give the answers of the
    network, the lock service, the disk and the clock. Theorems that assume
    something of a parameter have a witness with a concrete one.

    ** What the theorems show

    - Round trips: paths and their text (Path.v), events and generic maps
      (Event.v), meta data through the subjects and keys of message buses
      (NatsInput.v, KafkaInput.v, JetstreamInput.v); the shape of every path the parser accepts; units of durations
      (Convert.v).
    - Functional specifications, on every branch: events of a notification,
      processors, requests built from configurations, labels and series,
      export requests, handlers of the API.
    - Equivalence with a reference: the selector trie of event-keep, hash-keyed
      grouping, the validity of an export request, equality of configurations,
      the goroutines that run a loader's actions.
    - Safety: no pipeline of the modelled processors fails or panics, under the
      conditions that event_date_string and event_strings need; no batch on a closed transport and no
      worker on a closed client while [Close] and [Update] do not overlap; a
      processor in use is not deleted while no configuration that names it is
      being applied; no channel of the election is closed twice. What happens
      when such an overlap occurs is a theorem too (Api.v, Influx.v).
    - Refinement, end to end: reconciliation, draining and rebalancing leave
      every live member with its quota and lose no target; a loader and the
      application's table of targets follow the file.
    - Invariants and liveness: at most one retry loop, and the three ways in which
      a Failed target is not retried; every certificate in use is one that
      X509KeyPair made of what a load read, torn or not; the newest metric of a
      series is kept while no two keys collide; the workers of an output are
      current after an update, and every message it accepted is with a worker,
      in a channel or dropped by a drain; and the runs in which a node, a loader, a
      retry, a stream or an update of an output is stuck.
    - Termination: the loops that lengthen labels, sanitise flags, convert
      consul entries and plan a rebalancing; the loop that hands a target to a
      member, when the members show their locks in time.

    ** Fuel

    [Rebalance.donor_loop] and [Prom]'s label resolution take fuel, and a theorem
    gives how much is enough; the retry loop of Otlp.v is bounded by its
    configuration; [Requests]' sanitising loop takes the length of its argument;
    [Loaders.services_loop] counts passes, one is enough whenever the code
    returns; [AppCluster.dispatch_loop] counts choices and looks at a lock, and
    [dispatch_ends] says when how many are enough; [Pipeline.procN] nests processors to a depth that making one
    decreases. Everything else is structural.

    ** Not modelled

    Commands and their flags (pkg/cmd), printing, prompts and completion; the
    gRPC and HTTP transports, the clients of kafka, nats, influxdb,
    clickhouse, redis, consul, kubernetes and docker, whose code is calls of
    their libraries; the outputs that only hand bytes on (file,
    asciigraph, snmp); the proxy, which forwards to parts modelled here; the processors that run programs of another
    language (starlark, jq, plugin); generated code, tests and examples. The
    manifest lists each of them with the reason. *)

From Stdlib Require Export ZArith Lia.
From stdpp Require Export base tactics option list gmap strings fin_maps sorting.

#[global] Open Scope Z_scope.

(** ** Results of Go code

    A call returns a value, returns a non-nil [error], or panics (a nil map
    written to, an index out of range, a nil pointer dereferenced). *)

Inductive go (E A : Type) : Type :=
| Ok (a : A)
| Err (e : E)
| Panic.
Arguments Ok {E A} a.
Arguments Err {E A} e.
Arguments Panic {E A}.

#[export] Instance go_ret {E} : MRet (go E) := fun A a => Ok a.
#[export] Instance go_bind {E} : MBind (go E) := fun A B f m =>
  match m with Ok a => f a | Err e => Err e | Panic => Panic end.
#[export] Instance go_fmap {E} : FMap (go E) := fun A B f m =>
  match m with Ok a => Ok (f a) | Err e => Err e | Panic => Panic end.

Definition is_ok {E A} (m : go E A) : bool :=
  match m with Ok _ => true | _ => false end.

Lemma is_ok_some {E A} (m : go E A) : is_ok m = true -> exists a, m = Ok a.
Proof. destruct m as [a| |]; [by exists a|done..]. Defined.

(** A loop whose body may fail: [for _, x := range l { s, err = f(s, x) }]. *)
Fixpoint foldM {E S A} (f : S -> A -> go E S) (l : list A) (s : S) : go E S :=
  match l with
  | [] => Ok s
  | x :: l => s' ← f s x; foldM f l s'
  end.

(** A loop that appends one result per element and stops at the first error. *)
Fixpoint mapE {E A B} (f : A -> go E B) (l : list A) : go E (list B) :=
  match l with
  | [] => Ok []
  | x :: l => y ← f x; ys ← mapE f l; Ok (y :: ys)
  end.

Section go_lemmas.
Context {E : Type}.

Lemma bind_ok {A B} (f : A -> go E B) (m : go E A) b :
  (m ≫= f) = Ok b <-> exists a, m = Ok a /\ f a = Ok b.
Proof. destruct m; cbn; (split; [intros Hm | intros (? & [=] & ?); congruence]); by eauto. Qed.

Lemma foldM_app {S A} (f : S -> A -> go E S) l1 l2 s :
  foldM f (l1 ++ l2) s = (s' ← foldM f l1 s; foldM f l2 s').
Proof.
  revert s; induction l1 as [|x l1 IH]; intros s; cbn; [done|].
  destruct (f s x); cbn; auto.
Qed.

Lemma foldM_pure {S A} (f : S -> A -> go E S) (g : S -> A -> S) l s :
  (forall s x, f s x = Ok (g s x)) -> foldM f l s = Ok (foldl g s l).
Proof.
  intros Hf; revert s; induction l as [|x l IH]; intros s; cbn; [done|].
  rewrite Hf; cbn; apply IH.
Qed.
End go_lemmas.

(** Invert every [_ = Ok _] built from binds in the context. *)
Ltac go_inv :=
  repeat match goal with
  | H : (_ ≫= _) = Ok _ |- _ => apply bind_ok in H as (? & ? & ?)
  | H : Ok _ = Ok _ |- _ => injection H as H; subst
  | H : Ok _ = Err _ |- _ => discriminate H
  | H : Err _ = Ok _ |- _ => discriminate H
  | H : Panic = Ok _ |- _ => discriminate H
  end.

Section mapE_lemmas.
Context {E : Type}.

Lemma mapE_ok {A B} (f : A -> go E B) l ys :
  mapE f l = Ok ys <-> Forall2 (fun x y => f x = Ok y) l ys.
Proof.
  revert ys; induction l as [|x l IH]; intros ys; cbn.
  - split; [by intros [= <-]; constructor | by inversion 1].
  - rewrite bind_ok; setoid_rewrite bind_ok; setoid_rewrite IH. split.
    + intros (y & ? & ys' & ? & [= <-]); by constructor.
    + inversion 1; subst; eauto 6.
Qed.

(** The error returned is the one of the first element that fails. *)
Lemma mapE_app_err {A B} (f : A -> go E B) l1 x l2 ys e :
  mapE f l1 = Ok ys -> f x = Err e -> mapE f (l1 ++ x :: l2) = Err e.
Proof.
  revert ys; induction l1 as [|a l1 IH]; intros ys Hl Hx; cbn in *; [by rewrite Hx|].
  go_inv. rewrite H, IH with (ys := x1); done.
Qed.

Lemma mapE_total {A B} (f : A -> go E B) (g : A -> B) l :
  (forall x, x ∈ l -> f x = Ok (g x)) -> mapE f l = Ok (g <$> l).
Proof.
  induction l as [|x l IH]; intros Hf; cbn; [done|].
  rewrite Hf by left; cbn. by rewrite IH by (intros; apply Hf; by right).
Qed.
Lemma mapE_no_panic {A B} (f : A -> go E B) l : (forall x, x ∈ l -> f x <> Panic) -> mapE f l <> Panic.
Proof.
  induction l as [|x l IH]; intros Hf; cbn; [done|].
  specialize (Hf x ltac:(left)) as Hx. destruct (f x); cbn; [|done|done].
  specialize (IH ltac:(intros; apply Hf; by right)). by destruct (mapE f l).
Qed.

End mapE_lemmas.

(** ** Go maps

    A Go map variable is nil or a reference to a table. Reading a nil map
    gives nothing, deleting from it is a no-op, writing to it panics. *)

Abbreviation gomap V := (option (gmap string V)).

Definition gm_get {V} (m : gomap V) (k : string) : option V := m ≫= fun t => t !! k.
Definition gm_set {E V} (k : string) (v : V) (m : gomap V) : go E (gomap V) :=
  match m with None => Panic | Some t => Ok (Some (<[k := v]> t)) end.
Definition gm_del {V} (k : string) (m : gomap V) : gomap V := delete k <$> m.
Definition gm_tab {V} (m : gomap V) : gmap string V := default ∅ m.
Definition gm_len {V} (m : gomap V) : nat := size (gm_tab m).

Lemma gm_get_tab {V} (m : gomap V) k : gm_get m k = gm_tab m !! k.
Proof. by destruct m. Qed.

(** The order in which [range] visits a map is up to the runtime. An
    instance of [MapOrder] is one choice of the runtime; every theorem that
    says a loop is deterministic is proved for all of them. *)
Class MapOrder : Type := {
  range : forall {K} `{Countable K} {V}, gmap K V -> list (K * V);
  range_perm : forall {K} `{Countable K} {V} (m : gmap K V), range m ≡ₚ map_to_list m
}.

(** The order of stdpp's [map_to_list], and its reverse: the two runtimes the
    witnesses use. *)
Definition order_fwd : MapOrder :=
  {| range K _ _ V m := map_to_list m; range_perm K _ _ V m := Permutation_refl _ |}.
Lemma order_bwd_perm {K} `{Countable K} {V} (m : gmap K V) :
  reverse (map_to_list m) ≡ₚ map_to_list m.
Proof. apply reverse_Permutation. Qed.
Definition order_bwd : MapOrder :=
  {| range K _ _ V m := reverse (map_to_list m); range_perm K _ _ V m := order_bwd_perm m |}.

Section range_lemmas.
Context `{MapOrder} {K} `{Countable K} {V : Type}.
Implicit Types m : gmap K V.

Lemma elem_of_range m k v : (k, v) ∈ range m <-> m !! k = Some v.
Proof. rewrite range_perm. apply elem_of_map_to_list. Qed.

Lemma NoDup_range_fst m : NoDup ((range m).*1).
Proof. rewrite range_perm. apply NoDup_fst_map_to_list. Qed.

Lemma range_list_to_map m : list_to_map (range m) = m.
Proof.
  rewrite <-(list_to_map_to_list m) at 2. apply list_to_map_proper.
  - apply NoDup_range_fst.
  - apply range_perm.
Qed.

Lemma length_range m : length (range m) = size m.
Proof. rewrite range_perm. apply length_map_to_list. Qed.

Lemma range_empty : range (∅ : gmap K V) = [].
Proof. apply Permutation_nil_r. rewrite range_perm. by rewrite map_to_list_empty. Qed.
End range_lemmas.




(** Filling a table entry by entry, for entries with distinct keys. *)
Lemma foldl_insert_list_to_map {K} `{Countable K} {V} (l : list (K * V)) (m : gmap K V) :
  NoDup l.*1 ->
  foldl (fun acc kv => <[kv.1 := kv.2]> acc) m l = list_to_map l ∪ m.
Proof.
  revert m; induction l as [|[k v] l IH]; intros m; cbn.
  - intros _. by rewrite (left_id_L ∅ (∪)).
  - rewrite NoDup_cons. intros [Hk Hl]. rewrite IH by done.
    rewrite <-insert_union_r, <-insert_union_l; [done|].
    by apply not_elem_of_list_to_map.
Qed.

(** Pairing every key of a map with its value gives its entries. *)
Lemma keys_entries_perm {K} `{Countable K} {V} (d : V) (m : gmap K V) (ks : list K) :
  ks ≡ₚ (map_to_list m).*1 -> (fun k => (k, default d (m !! k))) <$> ks ≡ₚ map_to_list m.
Proof.
  intros ->. rewrite <-list_fmap_compose. apply Permutation_refl'.
  etrans; [|apply list_fmap_id]. apply list_fmap_ext.
  intros i [k v] Hi%list_elem_of_lookup_2%elem_of_map_to_list. cbn. by rewrite Hi.
Qed.

(** A boolean test of every value of a map. *)
Lemma map_fold_andb {V} (f : V -> bool) (m : gmap string V) :
  map_fold (fun _ v b => f v && b) true m = true <-> map_Forall (fun _ v => f v = true) m.
Proof.
  induction m as [|k v m Hk Hfr IH] using map_first_key_ind.
  - rewrite map_fold_empty. split; [intros _; apply map_Forall_empty | done].
  - rewrite map_fold_insert_first_key by done. rewrite andb_true_iff, IH.
    by rewrite map_Forall_insert.
Qed.

(** Two folds over the entries of a map agree when the steps commute. *)
Lemma foldl_perm_comm {A B} `{EqDecision B} (f : A -> B -> A) (l1 l2 : list B) (a : A) :
  (forall a x y, x ∈ l1 -> y ∈ l1 -> x <> y -> f (f a x) y = f (f a y) x) ->
  l1 ≡ₚ l2 -> foldl f a l1 = foldl f a l2.
Proof.
  intros Hc Hp. revert a Hc. induction Hp as [|x l1 l2 Hp IH|x y l|l1 l2 l3 H1 IH1 H2 IH2]; intros a Hc; cbn.
  - done.
  - apply IH. intros; apply Hc; by try right.
  - destruct (decide (x = y)) as [->|]; [done|]. f_equal.
    apply Hc; [left|right; left|]; done.
  - rewrite IH1 by done. apply IH2. intros; apply Hc; by rewrite ?H1.
Qed.

(** ** Sorted strings: [sort.Strings] and [slices.Sort] *)
Definition sort_strings (l : list string) : list string := merge_sort String.le l.

Lemma sort_strings_perm l : sort_strings l ≡ₚ l.
Proof. apply merge_sort_Permutation. Qed.

Lemma sort_strings_sorted l : Sorted String.le (sort_strings l).
Proof. apply Sorted_merge_sort; apply _. Qed.

(** The sorted keys of a map do not depend on the order the runtime visits it. *)
Lemma sort_strings_det l1 l2 : l1 ≡ₚ l2 -> sort_strings l1 = sort_strings l2.
Proof.
  intros Hp. apply (Sorted_unique String.le); [apply sort_strings_sorted..|].
  by rewrite !sort_strings_perm.
Qed.

(** ** Shared tactics *)

(** Case split on every boolean comparison of integers in the goal, closing the
    impossible cases by [lia]. *)
Ltac zcases :=
  repeat match goal with
  | |- context [ (?a =? ?b)%Z ] => destruct (Z.eqb_spec a b); try lia
  | |- context [ (?a <=? ?b)%Z ] => destruct (Z.leb_spec a b); try lia
  | |- context [ (?a <? ?b)%Z ] => destruct (Z.ltb_spec a b); try lia
  end; cbn [andb orb negb].

(** [len(l) == 0]. *)
Definition nilb {A} (l : list A) : bool := match l with [] => true | _ => false end.

Lemma foldl_ext {A B} (f g : A -> B -> A) (l : list B) (a : A) :
  (forall a x, f a x = g a x) -> foldl f a l = foldl g a l.
Proof. intros Hfg. revert a; induction l as [|x l IH]; intros a; cbn; [done|]. by rewrite Hfg, IH. Qed.

(** ** Ranging over a map the body writes to

    [for k, v := range m] with a body that may add entries to [m]: an entry
    present at the start and not removed is visited exactly once, with the
    value it has when it is reached; an entry the body adds is visited or not,
    as the runtime likes. [must] are the keys present at the start, [seen] the
    ones visited. Bodies that delete an entry and add it back are outside this
    relation. *)
Section go_range.
Context {S V : Type} (get : S -> gmap string V) (body : S -> string * V -> S).

Inductive go_range (must : gset string) : gset string -> S -> S -> Prop :=
| range_stop seen s : must ⊆ seen -> go_range must seen s s
| range_skip seen s s' k :
    k ∈ must -> k ∉ seen -> get s !! k = None ->
    go_range must ({[k]} ∪ seen) s s' -> go_range must seen s s'
| range_visit seen s s' k v :
    k ∉ seen -> get s !! k = Some v ->
    go_range must ({[k]} ∪ seen) (body s (k, v)) s' -> go_range must seen s s'.

(** Every outcome of the loop. *)
Definition range_run (s s' : S) : Prop := go_range (dom (get s)) ∅ s s'.

(** The outcome when no added entry is visited. *)
Definition visit (s : S) (k : string) : S :=
  match get s !! k with Some v => body s (k, v) | None => s end.
Definition for_range `{MapOrder} (s : S) : S := foldl visit s (range (get s)).*1.

Lemma for_range_run `{MapOrder} s : range_run s (for_range s).
Proof.
  unfold range_run, for_range.
  assert (Hks : forall k, k ∈ dom (get s) <-> k ∈ (range (get s)).*1).
  { intros k. rewrite elem_of_dom, list_elem_of_fmap. split.
    - intros [v Hv]. exists (k, v). by rewrite elem_of_range.
    - intros ([k' v] & -> & Hv%elem_of_range). eauto. }
  pose proof (NoDup_range_fst (get s)) as Hnd. revert Hks Hnd.
  generalize (dom (get s)) as must, (range (get s)).*1 as ks. intros must ks Hks Hnd.
  assert (forall k, k ∈ must -> k ∈ ks \/ k ∈ (∅ : gset string)) as Hm by (intros k ?%Hks; auto).
  assert (forall k, k ∈ ks -> k ∈ must /\ k ∉ (∅ : gset string)) as Hs.
  { intros k Hk. split; [by apply Hks|set_solver]. }
  clear Hks. revert Hm Hs. generalize (∅ : gset string) as seen. revert s.
  induction ks as [|k ks IH]; intros s seen Hm Hs; cbn [foldl].
  - apply range_stop. intros k Hk. destruct (Hm k Hk) as [?%elem_of_nil|]; done.
  - apply NoDup_cons in Hnd as [Hk Hnd].
    assert (go_range must ({[k]} ∪ seen) (visit s k) (foldl visit (visit s k) ks)) as Hgo.
    { apply IH; [done| |].
      - intros k' Hk'. destruct (Hm k' Hk') as [[->|]%elem_of_cons|]; set_solver.
      - intros k' Hk'. destruct (Hs k') as [? ?]; [by right|]. split; [done|].
        intros [->%elem_of_singleton|]%elem_of_union; done. }
    destruct (Hs k) as [? ?]; [by left|].
    destruct (get s !! k) as [v|] eqn:Hv.
    + assert (visit s k = body s (k, v)) as Hvs by (unfold visit; by rewrite Hv). rewrite Hvs in *.
      by apply (range_visit _ _ _ _ k v).
    + assert (visit s k = s) as Hvs by (unfold visit; by rewrite Hv). rewrite Hvs in *.
      by apply (range_skip _ _ _ _ k).
Qed.

(** Rule induction for loop invariants. *)
Lemma range_run_inv (P : S -> Prop) s s' :
  P s -> (forall s k v, P s -> get s !! k = Some v -> P (body s (k, v))) -> range_run s s' -> P s'.
Proof.
  intros Hs Hb Hr. unfold range_run in Hr. revert Hr. generalize (dom (get s)) as must.
  generalize (∅ : gset string) as seen. intros seen must Hr. induction Hr; eauto.
Qed.
End go_range.

(** ** Loops over distinct keys *)

Lemma foldl_pair {A B C} (f : A -> C -> A) (g : B -> C -> B) (h : A * B -> C -> A * B) l a b :
  (forall a b c, h (a, b) c = (f a c, g b c)) -> foldl h (a, b) l = (foldl f a l, foldl g b l).
Proof.
  intros Hh. revert a b; induction l as [|c l IH]; intros a b; cbn; [done|]. by rewrite Hh, IH.
Qed.

(** Setting the entries a test selects, while ranging over another map. *)
Lemma foldl_set_where `{MapOrder} {V W} (sel : string -> V -> bool) (f : V -> W)
    (m : gmap string V) (t : gmap string W) k :
  foldl (fun t kv => if sel kv.1 kv.2 then <[kv.1 := f kv.2]> t else t) t (range m) !! k =
  match m !! k with Some v => if sel k v then Some (f v) else t !! k | None => t !! k end.
Proof.
  pose proof (range_list_to_map m) as Hm. pose proof (NoDup_range_fst m) as Hnd.
  rewrite <-Hm at 2. clear Hm. revert t Hnd.
  induction (range m) as [|[i v] l IH]; intros t Hnd; cbn [foldl list_to_map foldr]; [by rewrite lookup_empty|].
  cbn in Hnd. apply NoDup_cons in Hnd as [Hi Hnd]. rewrite IH by done. cbn [fst snd uncurry].
  destruct (decide (i = k)) as [->|Hne].
  - rewrite lookup_insert_eq. apply not_elem_of_list_to_map in Hi. cbn in *. rewrite Hi.
    destruct (sel k v); [by rewrite lookup_insert_eq|done].
  - rewrite lookup_insert_ne by done. destruct (list_to_map l !! k) as [w|].
    + destruct (sel k w); [done|]. destruct (sel i v); [by rewrite lookup_insert_ne|done].
    + destruct (sel i v); [by rewrite lookup_insert_ne|done].
Qed.

(** Filtering by a boolean test. *)
Lemma filter_bool_cons {A} (f : A -> bool) x (l : list A) :
  filter (fun x => f x) (x :: l) = if f x then x :: filter (fun x => f x) l else filter (fun x => f x) l.
Proof. rewrite filter_cons. case_decide as Hf; destruct (f x); done || by destruct Hf. Qed.

Lemma Forall_filter {A} (P Q : A -> Prop) `{!forall x, Decision (Q x)} l : Forall P l -> Forall P (filter Q l).
Proof.
  rewrite !Forall_forall. intros HP x [_ Hx]%list_elem_of_filter. by apply HP.
Qed.

Lemma filter_none {A} (P : A -> Prop) `{!forall x, Decision (P x)} l :
  Forall (fun x => ~ P x) l -> filter P l = [].
Proof. induction 1 as [|x l Hx Hl IH]; [done|]. by rewrite filter_cons, decide_False. Qed.

Lemma filter_sublist_mono {A} (P : A -> Prop) `{!forall x, Decision (P x)} l1 l2 :
  sublist l1 l2 -> sublist (filter P l1) (filter P l2).
Proof.
  induction 1 as [|x l1 l2 Hs IH|x l1 l2 Hs IH]; [done|..]; rewrite !filter_cons || rewrite filter_cons;
    case_decide; done || by constructor.
Qed.

(** ** Sums of integers over lists and maps *)
Definition zsum (l : list Z) : Z := foldr Z.add 0 l.

Lemma zsum_app l1 l2 : zsum (l1 ++ l2) = zsum l1 + zsum l2.
Proof. unfold zsum. induction l1 as [|x l1 IH]; cbn in *; lia. Qed.

#[export] Instance zsum_perm : Proper (Permutation ==> eq) zsum.
Proof. unfold zsum. intros l1 l2 Hp. induction Hp; cbn in *; lia. Qed.

Lemma zsum_le l : Forall (fun x => 0 <= x) l -> 0 <= zsum l.
Proof. unfold zsum. induction 1; cbn in *; lia. Qed.

Lemma zsum_cons x l : zsum (x :: l) = x + zsum l.
Proof. done. Qed.

Lemma zsum_elem_le l x : Forall (fun x => 0 <= x) l -> x ∈ l -> x <= zsum l.
Proof.
  intros Hl Hx. apply list_elem_of_split in Hx as (l1 & l2 & ->). rewrite zsum_app, zsum_cons.
  apply Forall_app in Hl as [H1 [Hx H2]%Forall_cons]. pose proof (zsum_le _ H1). pose proof (zsum_le _ H2). lia.
Qed.

Definition gsum {K} `{Countable K} (m : gmap K Z) : Z := zsum (map_to_list m).*2.

Lemma gsum_list_to_map {K} `{Countable K} (l : list (K * Z)) :
  NoDup l.*1 -> gsum (list_to_map l) = zsum l.*2.
Proof. intros Hnd. unfold gsum. by rewrite map_to_list_to_map. Qed.

Lemma zsum_pos {A} (f : A -> Z) (l : list A) : 0 < zsum (f <$> l) -> exists x, x ∈ l /\ 0 < f x.
Proof.
  induction l as [|x l IH]; [done|]. rewrite fmap_cons, zsum_cons. intros Hs.
  destruct (Z.lt_ge_cases 0 (f x)); [exists x; split; [by left|done]|].
  destruct IH as (y & ? & ?); [lia|]. exists y. split; [by right|done].
Qed.

(** Two sums that differ at one place. *)
Lemma zsum_upd {A} (f g : A -> Z) (l : list A) x :
  NoDup l -> x ∈ l -> (forall y, y <> x -> f y = g y) -> zsum (f <$> l) - f x = zsum (g <$> l) - g x.
Proof.
  intros Hnd Hx Hfg. induction Hnd as [|y l Hy Hl IH]; [by apply elem_of_nil in Hx|].
  rewrite !fmap_cons, !zsum_cons. apply elem_of_cons in Hx as [->|Hx].
  - rewrite (list_fmap_ext f g l); [lia|]. intros i z Hz%list_elem_of_lookup_2. apply Hfg. by intros ->.
  - rewrite (Hfg y) by (intros ->; done). specialize (IH Hx). lia.
Qed.

Lemma zsum_mono {A} (f g : A -> Z) (l : list A) : (forall x, x ∈ l -> f x <= g x) -> zsum (f <$> l) <= zsum (g <$> l).
Proof.
  induction l as [|x l IH]; intros Hfg; [done|]. rewrite !fmap_cons, !zsum_cons.
  pose proof (Hfg x ltac:(by left)). specialize (IH ltac:(intros; apply Hfg; by right)). lia.
Qed.

(** Sums that are equal although each term is at most the other's. *)
Lemma zsum_tight {A} (f g : A -> Z) (l : list A) x :
  (forall y, y ∈ l -> f y <= g y) -> zsum (f <$> l) = zsum (g <$> l) -> x ∈ l -> f x = g x.
Proof.
  intros Hfg Hs Hx. apply list_elem_of_split in Hx as (l1 & l2 & ->).
  rewrite !fmap_app, !zsum_app, !fmap_cons, !zsum_cons in Hs.
  pose proof (zsum_mono f g l1 ltac:(intros; apply Hfg; set_solver)).
  pose proof (zsum_mono f g l2 ltac:(intros; apply Hfg; set_solver)).
  pose proof (Hfg x ltac:(set_solver)). lia.
Qed.

Lemma zsum_minus {A} (f g : A -> Z) (l : list A) :
  zsum ((fun x => f x - g x) <$> l) = zsum (f <$> l) - zsum (g <$> l).
Proof. induction l as [|x l IH]; [done|]. rewrite !fmap_cons, !zsum_cons, IH. lia. Qed.

Lemma mapE_cons {E A B} (f : A -> go E B) x l : mapE f (x :: l) = (y ← f x; ys ← mapE f l; Ok (y :: ys)).
Proof. done. Qed.

Lemma mapE_app {E A B} (f : A -> go E B) l1 l2 : mapE f (l1 ++ l2) = (a ← mapE f l1; b ← mapE f l2; Ok (a ++ b)).
Proof.
  induction l1 as [|x l1 IH]; cbn [app]; [cbn; by destruct (mapE f l2)|]. rewrite !mapE_cons, IH.
  destruct (f x); cbn; [|done..]. destruct (mapE f l1); cbn; [|done..]. by destruct (mapE f l2).
Qed.

Lemma filter_all {A} (P : A -> Prop) `{!forall x, Decision (P x)} l : Forall P l -> filter P l = l.
Proof. induction 1 as [|x l Hx Hl IH]; [done|]. by rewrite filter_cons, decide_True, IH. Qed.

Lemma range_singleton `{MapOrder} {V} (k : string) (v : V) : range ({[k := v]} : gmap string V) = [(k, v)].
Proof. apply Permutation_singleton_r. rewrite range_perm. by rewrite map_to_list_singleton. Qed.
