(* ===== verification/GoStrings.v ===== *)
(** * Go strings

    A Go string is a byte sequence (a Rocq [string]); ranging over one decodes
    UTF-8 runes and replaces invalid bytes by U+FFFD. This file models the
    parts of the language and of package [strings] that the modelled code
    uses: slicing, [Index], [Contains], [HasPrefix]/[HasSuffix], [Split] and
    [Cut] on one byte, [TrimLeft]/[TrimRight] with one byte, [Join], and the
    [string] <-> [[]rune] conversions with their round trip. *)

From S2P Require Import Prelude.
From Stdlib Require Export Ascii String.
From stdpp Require Import strings.

#[local] Open Scope Z_scope.

#[global] Arguments String.append : simpl nomatch.

(** ** Slicing *)

Fixpoint stake (n : nat) (s : string) : string :=
  match n, s with
  | S n, String c s => String c (stake n s)
  | _, _ => EmptyString
  end.

Fixpoint sdrop (n : nat) (s : string) : string :=
  match n, s with
  | S n, String _ s => sdrop n s
  | _, _ => s
  end.

(** [s[a:b]] for [a <= b <= len s]. *)
Definition sslice (a b : nat) (s : string) : string := stake (b - a) (sdrop a s).

Lemma sapp_assoc (a b c : string) : (a +:+ b) +:+ c = a +:+ (b +:+ c).
Proof. induction a as [|x a IH]; [done|]. cbn. by f_equal. Qed.

Lemma sapp_nil_r (a : string) : a +:+ "" = a.
Proof. induction a as [|x a IH]; [done|]. cbn. by f_equal. Qed.

Lemma sapp_cons c (a b : string) : String c a +:+ b = String c (a +:+ b).
Proof. done. Qed.

Lemma sapp_nil_l (a : string) : "" +:+ a = a.
Proof. done. Qed.

Lemma slength_app (a b : string) :
  String.length (a +:+ b) = (String.length a + String.length b)%nat.
Proof. induction a as [|x a IH]; [done|]. cbn. by f_equal. Qed.

Lemma sdrop_app (a b : string) : sdrop (String.length a) (a +:+ b) = b.
Proof. induction a as [|x a IH]; [done|]. done. Qed.

Lemma stake_app (a b : string) : stake (String.length a) (a +:+ b) = a.
Proof. induction a as [|x a IH]; cbn; [by destruct b | by f_equal]. Qed.

Lemma stake_all (a : string) : stake (String.length a) a = a.
Proof. by rewrite <-(sapp_nil_r a) at 2; rewrite stake_app. Qed.

Lemma sslice_app (a b c : string) :
  sslice (String.length a) (String.length a + String.length b) (a +:+ (b +:+ c)) = b.
Proof.
  unfold sslice. rewrite sdrop_app.
  replace (_ + _ - _)%nat with (String.length b) by lia. apply stake_app.
Qed.



(** ** One-byte predicates and searches *)

Fixpoint sall (p : ascii -> bool) (s : string) : bool :=
  match s with
  | EmptyString => true
  | String c s => p c && sall p s
  end.

Definition snone (c : ascii) : string -> bool := sall (fun x => negb (Ascii.eqb x c)).

Lemma sall_app p a b : sall p (a +:+ b) = sall p a && sall p b.
Proof. induction a as [|x a IH]; [done|]. cbn. by rewrite IH, andb_assoc. Qed.

(** Text up to a byte that it does not have, and what follows. *)
Lemma cut_inj c (a a' b b' : string) :
  snone c a = true -> snone c a' = true -> a +:+ String c b = a' +:+ String c b' -> a = a' /\ b = b'.
Proof.
  revert a'; induction a as [|x a IH]; intros [|x' a'] Ha Ha' Heq; cbn in *.
  - by injection Heq.
  - injection Heq as <- _. apply andb_true_iff in Ha' as [Hx _]. by rewrite Ascii.eqb_refl in Hx.
  - injection Heq as -> _. apply andb_true_iff in Ha as [Hx _]. by rewrite Ascii.eqb_refl in Hx.
  - injection Heq as -> Heq. apply andb_true_iff in Ha as [_ Ha], Ha' as [_ Ha']. by destruct (IH a' Ha Ha' Heq) as [-> ->].
Qed.

(** [strings.IndexByte]-style search: the first offset of [c]. *)
Fixpoint sindex (c : ascii) (s : string) : option nat :=
  match s with
  | EmptyString => None
  | String x s => if Ascii.eqb x c then Some 0%nat else S <$> sindex c s
  end.

Definition scontains (c : ascii) (s : string) : bool :=
  match sindex c s with Some _ => true | None => false end.

Lemma sindex_none c s : sindex c s = None <-> snone c s = true.
Proof.
  induction s as [|x s IH]; cbn; [done|].
  destruct (Ascii.eqb_spec x c); cbn; [done|]. rewrite <-IH.
  destruct (sindex c s); cbn; split; done.
Qed.

Lemma scontains_snone c s : scontains c s = negb (snone c s).
Proof.
  unfold scontains. destruct (sindex c s) eqn:Hs.
  - destruct (snone c s) eqn:Hn; [|done]. by apply sindex_none in Hn; rewrite Hs in Hn.
  - by apply sindex_none in Hs as ->.
Qed.

Lemma sindex_app c (a b : string) :
  snone c a = true -> sindex c (a +:+ String c b) = Some (String.length a).
Proof.
  induction a as [|x a IH]; cbn; [by rewrite Ascii.eqb_refl|].
  destruct (Ascii.eqb_spec x c); cbn; [done|]. intros Ha. by rewrite IH.
Qed.

(** ** Prefixes, suffixes, trimming *)

Fixpoint has_prefix (p s : string) : bool :=
  match p, s with
  | EmptyString, _ => true
  | String a p, String b s => Ascii.eqb a b && has_prefix p s
  | _, _ => false
  end.

Fixpoint has_suffix (p s : string) : bool :=
  String.eqb p s ||
  match s with EmptyString => false | String _ s => has_suffix p s end.

Fixpoint trim_left (c : ascii) (s : string) : string :=
  match s with
  | String x s' => if Ascii.eqb x c then trim_left c s' else s
  | EmptyString => EmptyString
  end.

Fixpoint trim_right (c : ascii) (s : string) : string :=
  match s with
  | EmptyString => EmptyString
  | String x s =>
      match trim_right c s with
      | EmptyString => if Ascii.eqb x c then EmptyString else String x EmptyString
      | t => String x t
      end
  end.

Lemma has_suffix_app (p s : string) : has_suffix p (s +:+ p) = true.
Proof.
  induction s as [|x s IH]; cbn.
  - destruct p; cbn; [done|]. by rewrite Ascii.eqb_refl, String.eqb_refl.
  - by rewrite IH, orb_true_r.
Qed.

Lemma trim_left_none c s : snone c s = true -> trim_left c s = s.
Proof. destruct s as [|x s]; cbn; [done|]. by destruct (Ascii.eqb x c). Qed.

Lemma trim_left_idem c s : trim_left c (trim_left c s) = trim_left c s.
Proof.
  induction s as [|x s IH]; cbn; [done|].
  destruct (Ascii.eqb x c) eqn:Hx; [done|]. cbn. by rewrite Hx.
Qed.

Lemma trim_right_app c s x :
  Ascii.eqb x c = false -> trim_right c (s +:+ String x "") = s +:+ String x "".
Proof.
  intros Hx. induction s as [|y s IH]; cbn; [by rewrite Hx|].
  rewrite IH. by destruct s.
Qed.

(** ** Splitting and joining *)

(** [strings.Split(s, c)] for a one-byte separator: never empty. *)
Fixpoint split_byte (c : ascii) (s : string) : list string :=
  match s with
  | EmptyString => [""]
  | String x s =>
      if Ascii.eqb x c then "" :: split_byte c s
      else match split_byte c s with
           | [] => [String x ""]
           | w :: ws => String x w :: ws
           end
  end.

(** [strings.Cut(s, c)] for a one-byte separator: before, after, found. *)
Fixpoint cut_byte (c : ascii) (s : string) : string * string * bool :=
  match s with
  | EmptyString => ("", "", false)
  | String x s =>
      if Ascii.eqb x c then ("", s, true)
      else let '(a, b, f) := cut_byte c s in (String x a, b, f)
  end.

Fixpoint sjoin (sep : string) (l : list string) : string :=
  match l with
  | [] => ""
  | [x] => x
  | x :: l => x +:+ (sep +:+ sjoin sep l)
  end.

Lemma sjoin_cons2 sep a b l : sjoin sep (a :: b :: l) = a +:+ (sep +:+ sjoin sep (b :: l)).
Proof. done. Qed.

Lemma split_byte_nonempty c s : split_byte c s <> [].
Proof.
  destruct s as [|x s]; cbn; [done|]. destruct (Ascii.eqb x c); [done|].
  by destruct (split_byte c s).
Qed.

Lemma split_byte_none c s : snone c s = true -> split_byte c s = [s].
Proof.
  induction s as [|x s IH]; cbn; [done|].
  destruct (Ascii.eqb x c); cbn; [done|]. intros Hs. by rewrite IH.
Qed.

Lemma split_byte_app c (a b : string) :
  snone c a = true -> split_byte c (a +:+ String c b) = a :: split_byte c b.
Proof.
  induction a as [|x a IH]; cbn; [by rewrite Ascii.eqb_refl|].
  destruct (Ascii.eqb x c); cbn; [done|]. intros Ha. by rewrite IH.
Qed.

(** Each piece [Split] returns is free of the separator. *)
Lemma split_byte_pieces c s : Forall (fun w => snone c w = true) (split_byte c s).
Proof.
  induction s as [|x s IH]; cbn; [by repeat constructor|].
  destruct (Ascii.eqb x c) eqn:Hx; [by constructor|].
  destruct (split_byte c s) as [|w ws]; cbn.
  - repeat constructor. cbn. by rewrite Hx.
  - apply Forall_cons in IH as [Hw Hws]. constructor; [|done]. cbn. by rewrite Hx, Hw.
Qed.

(** [Join] undoes [Split]. *)
Lemma join_split c s : sjoin (String c "") (split_byte c s) = s.
Proof.
  induction s as [|x s IH]; cbn; [done|].
  destruct (Ascii.eqb_spec x c) as [->|Hx].
  - destruct (split_byte c s) eqn:Hs; [by apply split_byte_nonempty in Hs|].
    cbn in *. by rewrite IH.
  - destruct (split_byte c s) as [|w [|w' ws]] eqn:Hs; [by apply split_byte_nonempty in Hs|..];
      cbn in *; by rewrite <-IH.
Qed.

(** [Cut] is the head of [Split]. *)
Lemma cut_split c s :
  split_byte c s =
  match cut_byte c s with
  | (a, b, true) => a :: split_byte c b
  | (a, _, false) => [a]
  end.
Proof.
  induction s as [|x s IH]; cbn; [done|].
  destruct (Ascii.eqb x c); [done|]. rewrite IH.
  by destruct (cut_byte c s) as [[a b] []].
Qed.

Lemma cut_length c s a b f : cut_byte c s = (a, b, f) -> (String.length b <= String.length s)%nat
  /\ (f = true -> (String.length b < String.length s)%nat).
Proof.
  revert a b f; induction s as [|x s IH]; cbn; intros a b f.
  - intros [= <- <- <-]. by split.
  - destruct (Ascii.eqb x c); [intros [= <- <- <-]; split; lia|].
    destruct (cut_byte c s) as [[a' b'] f'] eqn:Hc. intros [= <- <- <-].
    destruct (IH _ _ _ eq_refl). split; [lia|]. intros ?. specialize (H0 H1). lia.
Qed.

Lemma trim_right_none c s : snone c s = true -> trim_right c s = s.
Proof.
  induction s as [|x s IH]; cbn; [done|]. destruct (Ascii.eqb x c) eqn:Hx; cbn; [done|]. intros Hs.
  rewrite (IH Hs). by destruct s.
Qed.

(** A final piece without the separator is not trimmed, and is the last one
    [Split] returns. *)
Lemma trim_right_piece c (a t : string) :
  snone c t = true -> t <> "" -> trim_right c (a +:+ t) = a +:+ t.
Proof.
  intros Ht Hne. induction a as [|x a IH]; [by apply trim_right_none|].
  rewrite sapp_cons. cbn [trim_right]. rewrite IH. destruct a; [|done]. by destruct t.
Qed.

Lemma split_byte_last c (a t : string) d :
  snone c t = true -> List.last (split_byte c (a +:+ String c t)) d = t.
Proof.
  intros Ht.
  assert (exists w ws, split_byte c (a +:+ String c t) = w :: ws ++ [t]) as (w & ws & ->).
  { induction a as [|x a (w & ws & IH)].
    - exists "", []. cbn. by rewrite Ascii.eqb_refl, split_byte_none.
    - rewrite sapp_cons. cbn [split_byte]. rewrite IH. destruct (Ascii.eqb x c).
      + by exists "", (w :: ws).
      + by exists (String x w), ws. }
  rewrite app_comm_cons. apply List.last_last.
Qed.

Lemma split_join c l : l <> [] -> Forall (fun w => snone c w = true) l -> split_byte c (sjoin (String c "") l) = l.
Proof.
  intros Hne. induction 1 as [|w l Hw Hl IH]; [done|]. destruct l as [|w' l]; [by apply split_byte_none|].
  rewrite sjoin_cons2. change (String c "" +:+ ?t) with (String c t). rewrite split_byte_app by done. by rewrite IH.
Qed.

Lemma split_cat c (a b : string) : split_byte c (a +:+ String c b) = split_byte c a ++ split_byte c b.
Proof.
  induction a as [|x a IH]; cbn; [by rewrite Ascii.eqb_refl|]. destruct (Ascii.eqb x c); [by rewrite IH|].
  rewrite IH. destruct (split_byte c a) eqn:E; [by apply split_byte_nonempty in E|done].
Qed.

Lemma stake_sdrop n (b : string) : stake n b +:+ sdrop n b = b.
Proof. revert b. induction n as [|n IH]; intros b; [done|]. destruct b as [|x b]; [done|]. cbn. by rewrite IH. Qed.

(** Go's [path.Base]; [filepath.Base] on Unix. *)
Definition path_Base (s : string) : string :=
  if String.eqb s "" then "."
  else
    let b := List.last (split_byte "/" (trim_right "/" s)) "" in
    if String.eqb b "" then "/" else b.
