(* ===== verification/Utf8.v ===== *)
(** * UTF-8: ranging over a Go string

    [for i, r := range s] yields the byte offset and the rune of every UTF-8
    sequence of [s]; a byte that starts no valid sequence yields U+FFFD with
    width 1. [string(rs)] encodes a [[]rune] back. The round trip
    [runes_of (encode rs)] is what lets the path parser, which works on runes
    and slices by byte offset, be related to the printed string. *)

From S2P Require Import Prelude GoStrings.
From stdpp Require Import strings.

#[local] Open Scope Z_scope.

Definition byte_z (c : ascii) : Z := Z.of_N (N_of_ascii c).
Definition z_byte (z : Z) : ascii := ascii_of_N (Z.to_N z).

Lemma byte_z_byte z : 0 <= z < 256 -> byte_z (z_byte z) = z.
Proof. intros. unfold byte_z, z_byte. rewrite N_ascii_embedding by lia. lia. Qed.

Lemma z_byte_z c : z_byte (byte_z c) = c.
Proof. unfold byte_z, z_byte. rewrite N2Z.id. apply ascii_N_embedding. Qed.

Lemma byte_z_range c : 0 <= byte_z c < 256.
Proof. unfold byte_z. pose proof (N_ascii_bounded c). lia. Qed.

Lemma byte_z_inj a b : byte_z a = byte_z b -> a = b.
Proof. intros H. by rewrite <-(z_byte_z a), H, z_byte_z. Qed.

Lemma eqb_byte_z a b : Ascii.eqb a b = (byte_z a =? byte_z b).
Proof.
  destruct (Ascii.eqb_spec a b) as [->|H]; [by rewrite Z.eqb_refl|].
  destruct (Z.eqb_spec (byte_z a) (byte_z b)); [|done]. by apply byte_z_inj in e.
Qed.

Definition rune_error : Z := 65533.

(** [utf8.ValidRune]: a code point that is not a surrogate. *)
Definition valid_rune (r : Z) : bool :=
  (0 <=? r) && (r <? 55296) || (57343 <? r) && (r <=? 1114111).

(** [utf8.AppendRune]. *)
Definition encode_rune (r : Z) : string :=
  let r := if valid_rune r then r else rune_error in
  let b z := z_byte z in
  if r <=? 127 then String (b r) ""
  else if r <=? 2047 then
    String (b (192 + r / 64)) (String (b (128 + r mod 64)) "")
  else if r <=? 65535 then
    String (b (224 + r / 4096)) (String (b (128 + r / 64 mod 64))
      (String (b (128 + r mod 64)) ""))
  else
    String (b (240 + r / 262144)) (String (b (128 + r / 4096 mod 64))
      (String (b (128 + r / 64 mod 64)) (String (b (128 + r mod 64)) ""))).

Definition cont (lo hi b : Z) : bool := (lo <=? b) && (b <=? hi).

(** [utf8.DecodeRuneInString]: the first rune of a non-empty string and its
    width, with the accept ranges of the second byte. *)
Definition decode_rune (s : string) : option (Z * nat) :=
  match s with
  | EmptyString => None
  | String c0 s1 =>
      let b0 := byte_z c0 in
      let bad := Some (rune_error, 1%nat) in
      if b0 <? 128 then Some (b0, 1%nat)
      else match s1 with
      | EmptyString => bad
      | String c1 s2 =>
          let b1 := byte_z c1 in
          if (194 <=? b0) && (b0 <=? 223) then
            if cont 128 191 b1 then Some ((b0 - 192) * 64 + (b1 - 128), 2%nat) else bad
          else match s2 with
          | EmptyString => bad
          | String c2 s3 =>
              let b2 := byte_z c2 in
              if (224 <=? b0) && (b0 <=? 239) then
                let lo := if b0 =? 224 then 160 else 128 in
                let hi := if b0 =? 237 then 159 else 191 in
                if cont lo hi b1 && cont 128 191 b2
                then Some ((b0 - 224) * 4096 + (b1 - 128) * 64 + (b2 - 128), 3%nat) else bad
              else match s3 with
              | EmptyString => bad
              | String c3 _ =>
                  let b3 := byte_z c3 in
                  if (240 <=? b0) && (b0 <=? 244) then
                    let lo := if b0 =? 240 then 144 else 128 in
                    let hi := if b0 =? 244 then 143 else 191 in
                    if cont lo hi b1 && cont 128 191 b2 && cont 128 191 b3
                    then Some ((b0 - 240) * 262144 + (b1 - 128) * 4096
                               + (b2 - 128) * 64 + (b3 - 128), 4%nat) else bad
                  else bad
              end
          end
      end
  end.

(** The (offset, rune) pairs of [range s], [off] being the offset of [s]. *)
Fixpoint runes_from (fuel off : nat) (s : string) : list (nat * Z) :=
  match fuel with
  | O => []
  | S fuel =>
      match decode_rune s with
      | None => []
      | Some (r, w) => (off, r) :: runes_from fuel (off + w) (sdrop w s)
      end
  end.

(** A string of [n] bytes has at most [n] runes, so its length is enough fuel. *)
Definition range_string (s : string) : list (nat * Z) := runes_from (String.length s) 0 s.
Definition runes_of (s : string) : list Z := (range_string s).*2.

(** [string(rs)]. *)
Fixpoint encode (rs : list Z) : string :=
  match rs with
  | [] => ""
  | r :: rs => encode_rune r +:+ encode rs
  end.

(** The pairs [range] yields for an encoded rune list. *)
Fixpoint offsets (off : nat) (rs : list Z) : list (nat * Z) :=
  match rs with
  | [] => []
  | r :: rs => (off, r) :: offsets (off + String.length (encode_rune r)) rs
  end.

(** Valid rune lists, by their boolean test. *)
Definition valid_runes (rs : list Z) : bool := forallb valid_rune rs.

Lemma valid_rune_spec r :
  valid_rune r = true <-> 0 <= r < 55296 \/ 57343 < r <= 1114111.
Proof. unfold valid_rune. zcases; split; lia. Qed.

Lemma sdrop_0 s : sdrop 0 s = s.
Proof. by destruct s. Qed.

Section decode.
Variable s : string.
#[local] Notation "a ~~ b" := (String (z_byte a) b) (at level 60, right associativity).

Lemma decode1 b0 : 0 <= b0 <= 127 -> decode_rune (b0 ~~ s) = Some (b0, 1%nat).
Proof. intros. cbn. rewrite byte_z_byte by lia. by zcases. Qed.

Lemma decode2 b0 b1 :
  194 <= b0 <= 223 -> 128 <= b1 <= 191 ->
  decode_rune (b0 ~~ b1 ~~ s) = Some ((b0 - 192) * 64 + (b1 - 128), 2%nat).
Proof. intros. cbn. rewrite !byte_z_byte by lia. unfold cont. by zcases. Qed.

Lemma decode3 b0 b1 b2 :
  224 <= b0 <= 239 -> 128 <= b1 <= 191 -> 128 <= b2 <= 191 ->
  (b0 = 224 -> 160 <= b1) -> (b0 = 237 -> b1 <= 159) ->
  decode_rune (b0 ~~ b1 ~~ b2 ~~ s)
  = Some ((b0 - 224) * 4096 + (b1 - 128) * 64 + (b2 - 128), 3%nat).
Proof. intros. cbn. rewrite !byte_z_byte by lia. unfold cont. by zcases. Qed.

Lemma decode4 b0 b1 b2 b3 :
  240 <= b0 <= 244 -> 128 <= b1 <= 191 -> 128 <= b2 <= 191 -> 128 <= b3 <= 191 ->
  (b0 = 240 -> 144 <= b1) -> (b0 = 244 -> b1 <= 143) ->
  decode_rune (b0 ~~ b1 ~~ b2 ~~ b3 ~~ s)
  = Some ((b0 - 240) * 262144 + (b1 - 128) * 4096 + (b2 - 128) * 64 + (b3 - 128), 4%nat).
Proof. intros. cbn. rewrite !byte_z_byte by lia. unfold cont. by zcases. Qed.
End decode.

(** The base-64 digits of a rune. *)
Lemma digits64 r :
  0 <= r mod 64 < 64 /\ r = r / 64 * 64 + r mod 64.
Proof. split; [apply Z.mod_pos_bound; lia | rewrite (Z.mul_comm (r / 64)); apply Z_div_mod_eq_full]. Qed.

Lemma decode_encode_rune r s :
  valid_rune r = true ->
  decode_rune (encode_rune r +:+ s) = Some (r, String.length (encode_rune r)).
Proof.
  intros Hv. unfold encode_rune. rewrite Hv. apply valid_rune_spec in Hv.
  assert (r / 4096 = r / 64 / 64) as E1 by (rewrite Z.div_div by lia; done).
  assert (r / 262144 = r / 64 / 64 / 64) as E2 by (rewrite !Z.div_div by lia; done).
  rewrite E1, E2.
  destruct (digits64 r) as [B0 D0]. set (q := r / 64) in *. set (m := r mod 64) in *.
  destruct (digits64 q) as [B1 D1]. set (q1 := q / 64) in *. set (m1 := q mod 64) in *.
  destruct (digits64 q1) as [B2 D2]. set (q2 := q1 / 64) in *. set (m2 := q1 mod 64) in *.
  clearbody m q m1 q1 m2 q2. clear E1 E2.
  destruct (Z.leb_spec r 127); [|destruct (Z.leb_spec r 2047); [|destruct (Z.leb_spec r 65535)]];
    cbn [String.append String.length].
  - rewrite decode1 by lia. done.
  - rewrite decode2 by lia. f_equal; f_equal; lia.
  - rewrite decode3 by lia. f_equal; f_equal; lia.
  - rewrite decode4 by lia. f_equal; f_equal; lia.
Qed.

Lemma encode_rune_length r : (1 <= String.length (encode_rune r))%nat.
Proof. unfold encode_rune. repeat case_match; cbn; lia. Qed.

Lemma encode_app a b : encode (a ++ b) = encode a +:+ encode b.
Proof. induction a as [|r a IH]; cbn; [done|]. by rewrite IH, sapp_assoc. Qed.

Lemma runes_from_encode rs fuel off :
  valid_runes rs = true -> (String.length (encode rs) <= fuel)%nat ->
  runes_from fuel off (encode rs) = offsets off rs.
Proof.
  revert fuel off; induction rs as [|r rs IH]; intros fuel off Hv Hf; cbn in *.
  - by destruct fuel.
  - apply andb_true_iff in Hv as [Hr Hrs]. rewrite slength_app in Hf.
    pose proof (encode_rune_length r).
    destruct fuel as [|fuel]; [lia|]. cbn.
    rewrite decode_encode_rune by done. f_equal.
    rewrite sdrop_app. apply IH; [done|lia].
Qed.

Lemma range_string_encode rs :
  valid_runes rs = true -> range_string (encode rs) = offsets 0 rs.
Proof. intros. by apply runes_from_encode. Qed.

Lemma offsets_snd off rs : (offsets off rs).*2 = rs.
Proof. revert off; induction rs as [|r rs IH]; intros off; cbn; [done|]. by rewrite IH. Qed.

Lemma runes_of_encode rs : valid_runes rs = true -> runes_of (encode rs) = rs.
Proof. intros. unfold runes_of. by rewrite range_string_encode, offsets_snd. Qed.

Lemma offsets_app off a b :
  offsets off (a ++ b) = offsets off a ++ offsets (off + String.length (encode a)) b.
Proof.
  revert off; induction a as [|r a IH]; intros off; cbn; [by rewrite Nat.add_0_r|].
  by rewrite IH, slength_app, Nat.add_assoc.
Qed.

Lemma valid_runes_app a b : valid_runes (a ++ b) = valid_runes a && valid_runes b.
Proof. apply forallb_app. Qed.

(** An ASCII rune is its own byte. *)
Lemma encode_ascii r : 0 <= r <= 127 -> encode_rune r = String (z_byte r) "".
Proof.
  intros. unfold encode_rune.
  assert (valid_rune r = true) as -> by (apply valid_rune_spec; lia). by zcases.
Qed.

Lemma high_byte_ne b c : byte_z c <= 127 -> 128 <= b < 256 -> (byte_z (z_byte b) =? byte_z c) = false.
Proof. intros. rewrite byte_z_byte by lia. apply Z.eqb_neq. lia. Qed.

(** A byte below 128 occurs in an encoding only as that rune. *)
Lemma snone_encode c rs :
  byte_z c <= 127 -> valid_runes rs = true ->
  snone c (encode rs) = forallb (fun r => negb (r =? byte_z c)) rs.
Proof.
  intros Hc. unfold snone. pose proof (byte_z_range c) as Hr.
  induction rs as [|r rs IH]; cbn; [done|]. intros [Hv Hrs]%andb_true_iff.
  rewrite sall_app, IH by done. f_equal. unfold encode_rune. rewrite Hv.
  apply valid_rune_spec in Hv.
  destruct (Z.leb_spec r 127); [|destruct (Z.leb_spec r 2047); [|destruct (Z.leb_spec r 65535)]];
    unfold sall; rewrite !eqb_byte_z, ?andb_true_r.
  - by rewrite byte_z_byte by lia.
  - rewrite high_byte_ne by (try lia; Z.to_euclidean_division_equations; lia).
    rewrite high_byte_ne by (try lia; Z.to_euclidean_division_equations; lia).
    destruct (Z.eqb_spec r (byte_z c)); [lia|done].
  - do 3 rewrite high_byte_ne by (try lia; Z.to_euclidean_division_equations; lia).
    destruct (Z.eqb_spec r (byte_z c)); [lia|done].
  - do 4 rewrite high_byte_ne by (try lia; Z.to_euclidean_division_equations; lia).
    destruct (Z.eqb_spec r (byte_z c)); [lia|done].
Qed.

Lemma decode_rune_valid s r w : decode_rune s = Some (r, w) -> valid_rune r = true.
Proof.
  assert (He : valid_rune rune_error = true) by by vm_compute.
  destruct s as [|c0 s1]; cbn [decode_rune]; [done|]. pose proof (byte_z_range c0).
  destruct (Z.ltb_spec (byte_z c0) 128); [intros [= <- <-]; apply valid_rune_spec; lia|].
  destruct s1 as [|c1 s2]; [by intros [= <- <-]|]. pose proof (byte_z_range c1).
  destruct (_ && _) eqn:E2.
  { destruct (cont _ _ _) eqn:Ec; [|by intros [= <- <-]]. intros [= <- <-]. apply valid_rune_spec. unfold cont in Ec. lia. }
  clear E2. destruct s2 as [|c2 s3]; [by intros [= <- <-]|]. pose proof (byte_z_range c2). destruct (_ && _) eqn:E3.
  { destruct (cont _ _ _ && _) eqn:Ec; [|by intros [= <- <-]]. intros [= <- <-]. apply valid_rune_spec. unfold cont in Ec.
    destruct (Z.eqb_spec (byte_z c0) 224), (Z.eqb_spec (byte_z c0) 237); lia. }
  clear E3. destruct s3 as [|c3 s4]; [by intros [= <- <-]|]. pose proof (byte_z_range c3). destruct (_ && _) eqn:E4; [|by intros [= <- <-]].
  destruct (cont _ _ _ && _ && _) eqn:Ec; [|by intros [= <- <-]]. intros [= <- <-]. apply valid_rune_spec. unfold cont in Ec.
  destruct (Z.eqb_spec (byte_z c0) 240), (Z.eqb_spec (byte_z c0) 244); lia.
Qed.

(** The runes of any string are code points. *)
Lemma runes_of_valid s : valid_runes (runes_of s) = true.
Proof.
  unfold runes_of, range_string. generalize (String.length s) at 1. intros fuel. generalize 0%nat. revert s.
  induction fuel as [|fuel IH]; intros s off; [done|]. cbn [runes_from]. destruct (decode_rune s) as [[r w]|] eqn:E; [|done].
  cbn. rewrite (decode_rune_valid _ _ _ E). apply IH.
Qed.

(** A concrete text (with two-, three- and four-byte runes) and the
    replacement of an invalid byte. *)
Example runes_text : runes_of (encode [97; 233; 8364; 128512]) = [97; 233; 8364; 128512].
Proof. reflexivity. Qed.
Example runes_bad : runes_of (String (z_byte 255) "a") = [65533; 97].
Proof. reflexivity. Qed.
