(* ===== verification/Path.v ===== *)
(** * gNMI paths and their xpath strings (pkg/api/path/path.go)

    [ParsePath] turns an xpath such as [origin:/a/b[k=v]/c] into a gNMI path,
    [GnmiPathToXPath] prints one. The parser works in two passes: a rune
    automaton replaces the separators that are outside a key by NUL
    ([toPathElems]), then each piece is cut into a name and its keys
    ([toPathElem], [parseXPathKeys]). The main results are the round trip on
    well-formed paths and the shape of every path the parser accepts. *)

From S2P Require Import Prelude GoStrings Utf8.
From stdpp Require Import strings.

#[local] Open Scope Z_scope.

(** ** Data: the gnmi protobuf messages the package uses *)

Record PathElem := mkPathElem { pe_Name : string; pe_Key : gomap string }.
Record GPath := mkGPath { p_Origin : string; p_Elem : list PathElem; p_Target : string }.

Definition emptyPath : GPath := mkGPath "" [] "".

Inductive path_error := errMalformedXPath | errMalformedXPathKey | errEmptyPathElemName.

(** The runes and bytes the parser looks for. *)
Definition c_nul : ascii := ascii_of_nat 0.
Definition c_slash : ascii := "/".
Definition c_colon : ascii := ":".
Definition c_eq : ascii := "=".
Definition c_bslash : ascii := "\".
Definition c_open : ascii := "[".
Definition c_close : ascii := "]".
Definition r_nul : Z := 0.
Definition r_slash : Z := 47.
Definition r_eq : Z := 61.
Definition r_open : Z := 91.
Definition r_bslash : Z := 92.
Definition r_close : Z := 93.

(** ** Parsing *)

(** [escapedBracketsReplacer.Replace]. *)
Fixpoint unescape (s : string) : string :=
  match s with
  | String a (String b s' as t) =>
      if Ascii.eqb a c_bslash && (Ascii.eqb b c_open || Ascii.eqb b c_close)
      then String b (unescape s') else String a (unescape t)
  | _ => s
  end.

(** The loop of [parseXPathKeys] over the (offset, rune) pairs of [s]. *)
Fixpoint pk_loop (s : string) (rs : list (nat * Z)) (inKey : bool) (start : nat)
    (prevRune : Z) (kvs : gmap string string) : go path_error (gmap string string) :=
  match rs with
  | [] => if inKey then Err errMalformedXPathKey else Ok kvs
  | (i, r) :: rs =>
      if r =? r_open then
        if prevRune =? r_bslash then pk_loop s rs inKey start r kvs
        else if inKey then Err errMalformedXPathKey
        else pk_loop s rs true (i + 1) r kvs
      else if r =? r_close then
        if prevRune =? r_bslash then pk_loop s rs inKey start r kvs
        else if negb inKey then Err errMalformedXPathKey
        else
          let body := sslice start i s in
          match sindex c_eq body with
          | None => Err errMalformedXPathKey
          | Some eq =>
              let k := stake eq body in
              let v := sdrop (eq + 1) body in
              if String.eqb k "" || String.eqb v "" then Err errMalformedXPathKey
              else pk_loop s rs false start r (<[unescape k := unescape v]> kvs)
          end
      else if negb inKey then Err errMalformedXPathKey
      else pk_loop s rs inKey start r kvs
  end.

Definition parseXPathKeys (s : string) : go path_error (gomap string) :=
  if String.eqb s "" then Ok None
  else Some <$> pk_loop s (range_string s) false 0 0 ∅.

(** The offset of the first unescaped opening bracket. *)
Fixpoint find_open (rs : list (nat * Z)) (prevC : Z) : option nat :=
  match rs with
  | [] => None
  | (i, r) :: rs =>
      if (r =? r_open) && negb (prevC =? r_bslash) then Some i else find_open rs r
  end.

Definition toPathElem (s : string) : go path_error PathElem :=
  match find_open (range_string s) 0 with
  | Some O => Err errEmptyPathElemName
  | Some idx =>
      kvs ← parseXPathKeys (sdrop idx s);
      let s := stake idx s in
      if String.eqb s "" then Err errEmptyPathElemName else Ok (mkPathElem s kvs)
  | None => if String.eqb s "" then Err errEmptyPathElemName else Ok (mkPathElem s None)
  end.

(** The first pass of [toPathElems]: what is left of [buffer] after the runes
    [rs], in the state ([inKey], [prevC]). *)
Fixpoint scan (rs : list Z) (inKey : bool) (prevC : Z) : go path_error (list Z) :=
  match rs with
  | [] => if inKey then Err errMalformedXPath else Ok []
  | r :: rs =>
      if r =? r_open then
        if inKey && negb (prevC =? r_bslash) then Err errMalformedXPath
        else cons r <$> scan rs (inKey || negb (prevC =? r_bslash)) r
      else if r =? r_close then
        if negb inKey && negb (prevC =? r_bslash) then Err errMalformedXPath
        else cons r <$> scan rs (inKey && (prevC =? r_bslash)) r
      else if (r =? r_slash) && negb inKey then cons r_nul <$> scan rs inKey r
      else cons r <$> scan rs inKey r
  end.

Definition toPathElems (p : string) : go path_error (list PathElem) :=
  let p := if has_suffix "/" p then p else p +:+ "/" in
  buffer ← scan (runes_of p) false 0;
  let stringElems := split_byte c_nul (encode buffer) in
  mapE toPathElem (filter (fun s => s <> "") stringElems).

(** The test [ParsePath] makes for an origin: [p] starts with [origin:/] or is
    [origin:], with no slash in the origin. *)
Definition has_origin (p : string) : option nat :=
  match sindex c_colon p with
  | Some idx =>
      if negb (has_prefix "/" p) && negb (scontains c_slash (stake idx p)) &&
         (has_prefix "/" (sdrop (idx + 1) p) || String.eqb (sdrop (idx + 1) p) "")
      then Some idx else None
  | None => None
  end.

Definition ParsePath (p : string) : go path_error GPath :=
  if String.eqb p "" then Ok emptyPath
  else
    let '(origin, p) :=
      match has_origin p with
      | Some idx => (stake idx p, sdrop (idx + 1) p)
      | None => ("", p)
      end in
    pes ← toPathElems p;
    Ok (mkGPath origin pes "").

(** [nil] is returned when there is neither a prefix nor a target. *)
Definition CreatePrefix (prefix target : string) : go path_error (option GPath) :=
  if (String.length prefix + String.length target =? 0)%nat then Ok None
  else
    p ← ParsePath prefix;
    Ok (Some (if String.eqb target "" then p
              else mkGPath (p_Origin p) (p_Elem p) target)).

(** [GetElem] of a nil path is nil. *)
Definition getElem (p : option GPath) : list PathElem := from_option p_Elem [] p.

Definition PathElems (pf p : option GPath) : list PathElem := getElem pf ++ getElem p.

(** ** Printing *)

Definition writeKey (k v : string) : string := "[" +:+ (k +:+ ("=" +:+ (v +:+ "]"))).

Section print.
Context `{MapOrder}.

Definition writeKeys (m : gmap string string) (keys : list string) : string :=
  foldr (fun k s => writeKey k (default "" (m !! k)) +:+ s) "" keys.

(** The keys of an element: one key is printed as it is found, several are
    sorted. *)
Definition elemKeys (m : gmap string string) : string :=
  match size m with
  | O => ""
  | S O => writeKeys m (range m).*1
  | _ => writeKeys m (sort_strings (range m).*1)
  end.

Definition elemXPath (noKeys : bool) (pe : PathElem) : string :=
  pe_Name pe +:+ (if noKeys then "" else elemKeys (gm_tab (pe_Key pe))).

Definition GnmiPathToXPath (p : option GPath) (noKeys : bool) : string :=
  match p with
  | None => ""
  | Some p =>
      (if String.eqb (p_Origin p) "" then "" else p_Origin p +:+ ":/")
      +:+ sjoin "/" (elemXPath noKeys <$> p_Elem p)
  end.
End print.

Example parse_ex1 :
  ParsePath "oc:/a/b[k1=v/1][k2=x]/c"
  = Ok (mkGPath "oc" [mkPathElem "a" None;
        mkPathElem "b" (Some {["k1" := "v/1"; "k2" := "x"]}); mkPathElem "c" None] "").
Proof. by vm_compute. Qed.

(** ** Well-formed paths *)

(** A non-empty valid UTF-8 string none of whose runes is in [bad]. *)
Definition text_rs (bad : list Z) (rs : list Z) : bool :=
  valid_runes rs && bool_decide (rs <> []) && bool_decide (Forall (fun r => r ∉ bad) rs).
Definition text (bad : list Z) (s : string) : bool :=
  String.eqb s (encode (runes_of s)) && text_rs bad (runes_of s).

Definition name_bad : list Z := [r_nul; r_slash; r_open; r_close; r_bslash].
Definition key_bad : list Z := [r_nul; r_eq; r_open; r_close; r_bslash].
Definition value_bad : list Z := [r_nul; r_open; r_close; r_bslash].

(** An element whose name is plain text without separators and whose keys, if
    it has any, are plain text; slashes are allowed inside keys and values. *)
Definition wf_elem (pe : PathElem) : bool :=
  text name_bad (pe_Name pe) &&
  match pe_Key pe with
  | None => true
  | Some m => negb (bool_decide (m = ∅)) &&
      forallb (fun '(k, v) => text key_bad k && text value_bad v) (map_to_list m)
  end.

(** An origin is not empty and has no colon and no slash; a path without an
    origin must not print as one that has. *)
Definition wf_path `{MapOrder} (p : GPath) : bool :=
  forallb wf_elem (p_Elem p) && String.eqb (p_Target p) "" &&
  if String.eqb (p_Origin p) ""
  then match has_origin (GnmiPathToXPath (Some p) false) with None => true | Some _ => false end
  else snone c_colon (p_Origin p) && snone c_slash (p_Origin p).

(** ** The runes of a printed path *)

(** The runes of one key, of a list of keys, of an element. *)
Definition key_rs (kv : list Z * list Z) : list Z :=
  r_open :: kv.1 ++ r_eq :: kv.2 ++ [r_close].
Definition keys_rs (kvs : list (list Z * list Z)) : list Z := kvs ≫= key_rs.

Lemma text_spec (bad : list Z) s :
  text bad s = true ->
  exists rs, s = encode rs /\ valid_runes rs = true /\ rs <> [] /\ Forall (fun r => r ∉ bad) rs.
Proof.
  unfold text, text_rs. rewrite !andb_true_iff, !bool_decide_eq_true, String.eqb_eq.
  intros (Hs & (? & ?) & ?). by exists (runes_of s).
Qed.

Lemma Forall_not_elem_cons (bad : list Z) (b : Z) (rs : list Z) :
  Forall (fun r => r ∉ b :: bad) rs <-> Forall (fun r => r <> b) rs /\ Forall (fun r => r ∉ bad) rs.
Proof.
  rewrite <-Forall_and. apply Forall_proper; [|done].
  intros r. rewrite not_elem_of_cons. done.
Qed.

Lemma encode_cons_ascii r rs :
  0 <= r <= 127 -> encode (r :: rs) = String (z_byte r) (encode rs).
Proof. intros. cbn. by rewrite encode_ascii. Qed.

Lemma valid_runes_cons r rs : valid_runes (r :: rs) = valid_rune r && valid_runes rs.
Proof. done. Qed.

(** A text without the rune of [c] has no byte [c]. *)
Lemma snone_text c rs :
  byte_z c <= 127 -> valid_runes rs = true -> Forall (fun r => r <> byte_z c) rs ->
  snone c (encode rs) = true.
Proof.
  intros Hc Hv Hrs. rewrite snone_encode by done.
  apply forallb_forall. intros r Hr. apply list_elem_of_In in Hr.
  eapply Forall_forall in Hrs; [|done]. by apply negb_true_iff, Z.eqb_neq.
Qed.

(** ** The first pass on printed elements *)

Lemma last_cons_default {A} (x d : A) l : List.last (x :: l) d = List.last l x.
Proof.
  revert x d; induction l as [|y l IH]; intros x d; [done|].
  change (List.last (y :: l) d = List.last (y :: l) x). by rewrite !IH.
Qed.

(** Runes without brackets and separators are copied, whatever precedes them. *)
Lemma scan_plain rs rest inKey prev :
  Forall (fun r => r <> r_open) rs -> Forall (fun r => r <> r_close) rs ->
  (inKey = false -> Forall (fun r => r <> r_slash) rs) ->
  scan (rs ++ rest) inKey prev = app rs <$> scan rest inKey (List.last rs prev).
Proof.
  revert prev; induction rs as [|r rs IH]; intros prev Ho Hc Hs.
  - cbn. by destruct (scan rest inKey prev).
  - apply Forall_cons in Ho as [? Ho]. apply Forall_cons in Hc as [? Hc].
    rewrite <-app_comm_cons. cbn [scan].
    destruct (Z.eqb_spec r r_open); [done|]. destruct (Z.eqb_spec r r_close); [done|].
    assert ((r =? r_slash) && negb inKey = false) as ->.
    { destruct inKey; [by rewrite andb_false_r|].
      apply Forall_cons in Hs as [? _]; [|done]. by destruct (Z.eqb_spec r r_slash). }
    rewrite IH; [|done..|intros Hi; specialize (Hs Hi); by apply Forall_cons in Hs as [_ ?]].
    rewrite last_cons_default. by destruct (scan rest inKey _).
Qed.

Lemma last_not_bslash rs prev :
  prev <> r_bslash -> Forall (fun r => r <> r_bslash) rs -> List.last rs prev <> r_bslash.
Proof.
  revert prev; induction rs as [|r rs IH]; intros prev Hp Hrs; [done|].
  apply Forall_cons in Hrs as [Hr Hrs]. destruct rs as [|r' rs]; [done|]. by apply IH.
Qed.

(** One key, between a state outside a key and a state outside a key. *)
Lemma scan_key kv rest prev :
  Forall (fun r => r ∉ key_bad) kv.1 -> Forall (fun r => r ∉ value_bad) kv.2 ->
  prev <> r_bslash ->
  scan (key_rs kv ++ rest) false prev = app (key_rs kv) <$> scan rest false r_close.
Proof.
  destruct kv as [ks vs]; cbn [fst snd]. unfold key_bad, value_bad.
  rewrite !Forall_not_elem_cons. intros (? & ? & ? & ? & ? & _) (? & ? & ? & ? & _) Hp.
  unfold key_rs. cbn [fst snd]. rewrite <-app_comm_cons. cbn [scan]. cbn -[scan Z.eqb].
  destruct (Z.eqb_spec prev r_bslash); [done|]. cbn -[scan Z.eqb].
  rewrite <-app_assoc. rewrite scan_plain by (done || discriminate).
  cbn -[scan Z.eqb]. cbn [scan]. cbn -[scan].
  rewrite <-app_assoc. rewrite scan_plain by (done || discriminate).
  cbn [app scan]. change (r_close =? r_open) with false. change (r_close =? r_close) with true.
  cbn -[scan].
  assert (List.last vs r_eq <> r_bslash) as Hl by (by apply last_not_bslash).
  destruct (Z.eqb_spec (List.last vs r_eq) r_bslash); [done|]. cbn -[scan].
  destruct (scan rest false r_close); cbn; [|done..].
  repeat (rewrite <-app_assoc; cbn). done.
Qed.

Definition kv_ok (kv : list Z * list Z) : Prop :=
  (valid_runes kv.1 = true /\ kv.1 <> [] /\ Forall (fun r => r ∉ key_bad) kv.1) /\
  (valid_runes kv.2 = true /\ kv.2 <> [] /\ Forall (fun r => r ∉ value_bad) kv.2).

(** An element as runes: its name and its keys in printing order. *)
Record elem_rs := mkElemRs { er_name : list Z; er_keys : list (list Z * list Z) }.
Definition er_runes (e : elem_rs) : list Z := er_name e ++ keys_rs (er_keys e).
Definition er_ok (e : elem_rs) : Prop :=
  valid_runes (er_name e) = true /\ er_name e <> [] /\
  Forall (fun r => r ∉ name_bad) (er_name e) /\
  Forall kv_ok (er_keys e).

Lemma scan_keys kvs rest prev :
  Forall kv_ok kvs ->
  prev <> r_bslash ->
  exists prev', prev' <> r_bslash /\
  scan (keys_rs kvs ++ rest) false prev = app (keys_rs kvs) <$> scan rest false prev'.
Proof.
  revert prev; induction kvs as [|kv kvs IH]; intros prev Hk Hp.
  - exists prev. split; [done|]. cbn. by destruct (scan rest false prev).
  - apply Forall_cons in Hk as [((_ & _ & ?) & _ & _ & ?) Hk].
    destruct (IH r_close Hk) as (prev' & ? & Hs); [done|]. exists prev'; split; [done|].
    unfold keys_rs in *. cbn [mbind list_bind]. rewrite <-app_assoc, scan_key by done.
    rewrite Hs. destruct (scan rest false prev'); cbn; [|done..]. by rewrite app_assoc.
Qed.

Lemma scan_elem e rest prev :
  er_ok e -> exists prev', prev' <> r_bslash /\
  scan (er_runes e ++ rest) false prev = app (er_runes e) <$> scan rest false prev'.
Proof.
  intros (_ & Hne & Hn & Hk). unfold name_bad in Hn.
  rewrite !Forall_not_elem_cons in Hn. destruct Hn as (? & ? & ? & ? & ? & _).
  unfold er_runes. rewrite <-app_assoc, scan_plain by done.
  destruct (scan_keys (er_keys e) rest (List.last (er_name e) prev)) as (prev' & ? & ->); [done|..].
  { destruct (er_name e) as [|r rs]; [done|].
    rewrite last_cons_default. by apply Forall_cons in H3 as [? ?]; apply last_not_bslash. }
  exists prev'; split; [done|]. destruct (scan rest false prev'); cbn; [|done..].
  by rewrite app_assoc.
Qed.

(** The whole printed element list, each element followed by a slash. *)
Definition elems_rs (sep : Z) (es : list elem_rs) : list Z := es ≫= fun e => er_runes e ++ [sep].

Lemma scan_elems es prev :
  Forall er_ok es -> prev <> r_bslash ->
  scan (elems_rs r_slash es) false prev = Ok (elems_rs r_nul es).
Proof.
  revert prev; induction es as [|e es IH]; intros prev He Hp; [done|].
  apply Forall_cons in He as [He Hes]. unfold elems_rs in *. cbn [mbind list_bind].
  rewrite <-!app_assoc.
  match goal with |- context [scan (er_runes e ++ ?r) false prev] =>
    destruct (scan_elem e r prev) as (prev' & ? & ->); [done|] end.
  cbn -[list_bind]. by rewrite IH by done.
Qed.

(** ** The second pass: keys *)

Lemma unescape_eq a b s :
  unescape (String a (String b s)) =
  if Ascii.eqb a c_bslash && (Ascii.eqb b c_open || Ascii.eqb b c_close)
  then String b (unescape s) else String a (unescape (String b s)).
Proof. done. Qed.

Lemma unescape_plain s : snone c_bslash s = true -> unescape s = s.
Proof.
  enough (forall n s, (String.length s <= n)%nat -> snone c_bslash s = true -> unescape s = s) as H
    by (intros; by eapply H).
  clear s. induction n as [|n IH]; intros [|a [|b s]] Hn Hs; cbn in Hn; try done; [lia|].
  apply andb_true_iff in Hs as [Ha Hs].
  rewrite unescape_eq. apply negb_true_iff in Ha as ->. cbn [andb].
  f_equal. apply IH; [cbn; lia|done].
Qed.

Lemma encode_nonempty rs : rs <> [] -> String.eqb (encode rs) "" = false.
Proof.
  destruct rs as [|r rs]; [done|]. intros _. cbn. pose proof (encode_rune_length r).
  destruct (encode_rune r); [cbn in *; lia|done].
Qed.

Lemma pk_plain s rs tl off start prev m :
  Forall (fun r => r <> r_open) rs -> Forall (fun r => r <> r_close) rs ->
  pk_loop s (offsets off rs ++ tl) true start prev m
  = pk_loop s tl true start (List.last rs prev) m.
Proof.
  revert off prev; induction rs as [|r rs IH]; intros off prev Ho Hc; [done|].
  apply Forall_cons in Ho as [? Ho]. apply Forall_cons in Hc as [? Hc].
  cbn [offsets app pk_loop].
  destruct (Z.eqb_spec r r_open); [done|]. destruct (Z.eqb_spec r r_close); [done|].
  cbn [negb]. rewrite last_cons_default. by apply IH.
Qed.

Lemma pk_close s tl off i start prev m ks vs :
  kv_ok (ks, vs) -> prev <> r_bslash ->
  sslice start i s = encode (ks ++ r_eq :: vs) ->
  pk_loop s ((i, r_close) :: offsets off tl) true start prev m
  = pk_loop s (offsets off tl) false start r_close (<[encode ks := encode vs]> m).
Proof.
  intros [(Hvk & Hnk & Hk) (Hvv & Hnv & Hv)] Hp Hs. unfold key_bad, value_bad in *. cbn [fst snd] in *.
  rewrite !Forall_not_elem_cons in Hk; rewrite !Forall_not_elem_cons in Hv.
  destruct Hk as (_ & Hkeq & _ & _ & Hkb & _). destruct Hv as (_ & _ & _ & Hvb & _).
  cbn [pk_loop]. change (r_close =? r_open) with false. change (r_close =? r_close) with true.
  cbn [negb]. destruct (Z.eqb_spec prev r_bslash); [done|]. rewrite Hs.
  rewrite encode_app, encode_cons_ascii by done.
  change (z_byte r_eq) with c_eq. rewrite sindex_app by (by apply snone_text).
  rewrite stake_app.
  replace (sdrop _ _) with (encode vs); cycle 1.
  { rewrite <-(sapp_nil_l (encode vs)) at 2. change (String c_eq (_ +:+ ?x)) with (String c_eq "" +:+ x).
    rewrite <-sapp_assoc. replace (_ + 1)%nat with (String.length (encode ks +:+ String c_eq "")).
    - by rewrite sdrop_app.
    - by rewrite slength_app. }
  rewrite !encode_nonempty by done. cbn [orb].
  by rewrite !unescape_plain by (by apply snone_text).
Qed.

Lemma pk_key s pre post kv rest start prev m :
  kv_ok kv -> prev <> r_bslash ->
  s = pre +:+ (encode (key_rs kv) +:+ post) ->
  exists start',
  pk_loop s (offsets (String.length pre) (key_rs kv ++ rest)) false start prev m
  = pk_loop s (offsets (String.length (pre +:+ encode (key_rs kv))) rest) false start' r_close
      (<[encode kv.1 := encode kv.2]> m).
Proof.
  destruct kv as [ks vs]. intros Hkv Hp Hs. exists (String.length pre + 1)%nat.
  pose proof Hkv as [(Hvk & Hnk & Hk) (Hvv & Hnv & Hv)]. unfold key_bad, value_bad in *. cbn [fst snd] in *.
  rewrite !Forall_not_elem_cons in Hk; rewrite !Forall_not_elem_cons in Hv.
  destruct Hk as (_ & _ & Hko & Hkc & Hkb & _). destruct Hv as (_ & Hvo & Hvc & Hvb & _).
  assert (key_rs (ks, vs) = r_open :: (ks ++ r_eq :: vs) ++ [r_close]) as Ekr.
  { unfold key_rs. cbn. by rewrite <-app_assoc. }
  rewrite Ekr in *. set (body := ks ++ r_eq :: vs) in *.
  rewrite <-app_comm_cons, <-app_assoc. cbn [offsets pk_loop app].
  change (r_open =? r_open) with true. destruct (Z.eqb_spec prev r_bslash); [done|].
  change (String.length (encode_rune r_open)) with 1%nat.
  rewrite offsets_app, pk_plain.
  2-3: unfold body; rewrite Forall_app, Forall_cons; by repeat split.
  cbn [offsets app]. change (String.length (encode_rune r_close)) with 1%nat.
  rewrite (pk_close s rest _ _ _ _ m ks vs); [|done|..].
  - do 2 f_equal. rewrite encode_cons_ascii by done.
    rewrite encode_app, slength_app. cbn [String.length]. rewrite slength_app.
    change (String.length (encode [r_close])) with 1%nat. lia.
  - apply last_not_bslash; [done|]. unfold body. rewrite Forall_app, Forall_cons. by repeat split.
  - rewrite Hs, encode_cons_ascii, encode_app by done.
    change (String (z_byte r_open) ?x) with (String (z_byte r_open) "" +:+ x).
    rewrite !sapp_assoc, <-(sapp_assoc pre).
    replace (String.length pre + 1)%nat with (String.length (pre +:+ String (z_byte r_open) ""))
      by (by rewrite slength_app).
    apply sslice_app.
Qed.

Definition insert_kv (m : gmap string string) (kv : list Z * list Z) : gmap string string :=
  <[encode kv.1 := encode kv.2]> m.

Lemma pk_keys s pre kvs start prev m :
  Forall kv_ok kvs -> prev <> r_bslash -> s = pre +:+ encode (keys_rs kvs) ->
  pk_loop s (offsets (String.length pre) (keys_rs kvs)) false start prev m
  = Ok (foldl insert_kv m kvs).
Proof.
  revert pre start prev m; induction kvs as [|kv kvs IH]; intros pre start prev m Hk Hp Hs; [done|].
  apply Forall_cons in Hk as [Hkv Hk].
  assert (keys_rs (kv :: kvs) = key_rs kv ++ keys_rs kvs) as E by done. rewrite E in *.
  rewrite encode_app in Hs.
  edestruct (pk_key s pre (encode (keys_rs kvs)) kv (keys_rs kvs)) as [start' ->]; [done..|].
  rewrite (IH (pre +:+ encode (key_rs kv))); [done..|]. by rewrite Hs, sapp_assoc.
Qed.

Lemma find_open_plain rs tl off prev :
  Forall (fun r => r <> r_open) rs ->
  find_open (offsets off rs ++ tl) prev = find_open tl (List.last rs prev).
Proof.
  revert off prev; induction rs as [|r rs IH]; intros off prev Hr; [done|].
  apply Forall_cons in Hr as [? Hr]. cbn [offsets app find_open].
  destruct (Z.eqb_spec r r_open); [done|]. cbn [andb]. rewrite last_cons_default. by apply IH.
Qed.

(** The element an element's runes stand for. *)
Definition er_elem (e : elem_rs) : PathElem :=
  mkPathElem (encode (er_name e))
    (match er_keys e with [] => None | _ => Some (foldl insert_kv ∅ (er_keys e)) end).

Lemma valid_keys_rs kvs : Forall kv_ok kvs -> valid_runes (keys_rs kvs) = true.
Proof.
  induction 1 as [|[ks vs] kvs [(Hk & _) (Hv & _)] _ IH]; [done|].
  change (keys_rs _) with (key_rs (ks, vs) ++ keys_rs kvs).
  rewrite valid_runes_app, IH. unfold key_rs. cbn [fst snd] in *.
  rewrite valid_runes_cons, valid_runes_app, valid_runes_cons, valid_runes_app, Hk, Hv. done.
Qed.

Lemma valid_er_runes e : er_ok e -> valid_runes (er_runes e) = true.
Proof.
  intros (Hv & _ & _ & Hk). unfold er_runes. by rewrite valid_runes_app, Hv, valid_keys_rs.
Qed.

Lemma toPathElem_er e : er_ok e -> toPathElem (encode (er_runes e)) = Ok (er_elem e).
Proof.
  intros He. pose proof (valid_er_runes e He) as Hval. destruct He as (Hv & Hne & Hn & Hk).
  unfold toPathElem. rewrite range_string_encode by done.
  unfold er_runes in *. rewrite offsets_app.
  assert (Forall (fun r => r <> r_bslash) (er_name e)) as Hnb.
  { eapply Forall_impl; [exact Hn|]. cbn. intros r Hr ->. by apply Hr; unfold name_bad; set_solver. }
  rewrite find_open_plain.
  2: { eapply Forall_impl; [exact Hn|]. cbn. intros r Hr ->. by apply Hr; unfold name_bad; set_solver. }
  assert (List.last (er_name e) 0 <> r_bslash) as Hl by (by apply last_not_bslash).
  destruct (er_keys e) as [|kv kvs] eqn:Ekvs.
  - cbn -[encode]. rewrite app_nil_r, encode_nonempty by done. unfold er_elem. by rewrite Ekvs.
  - assert (keys_rs (kv :: kvs) = r_open :: (kv.1 ++ r_eq :: kv.2 ++ [r_close]) ++ keys_rs kvs) as Ek by done.
    rewrite Ek at 1. cbn [offsets find_open].
    change (r_open =? r_open) with true.
    destruct (Z.eqb_spec (List.last (er_name e) 0) r_bslash); [done|]. cbn [andb negb].
    rewrite Nat.add_0_l.
    destruct (String.length (encode (er_name e))) as [|n0] eqn:El.
    { pose proof (encode_nonempty _ Hne) as Hc. by destruct (encode (er_name e)). }
    rewrite <-El, <-?Ek, encode_app, sdrop_app, stake_app.
    unfold parseXPathKeys. rewrite (encode_nonempty (keys_rs _)) by (by rewrite Ek).
    rewrite range_string_encode by (by apply valid_keys_rs).
    rewrite (pk_keys _ "" (kv :: kvs)) by done. cbn -[encode foldl].
    rewrite encode_nonempty by done. unfold er_elem. by rewrite Ekvs.
Qed.

Lemma split_elems es :
  Forall er_ok es ->
  split_byte c_nul (encode (elems_rs r_nul es)) = ((fun e => encode (er_runes e)) <$> es) ++ [""].
Proof.
  induction 1 as [|e es He Hes IH]; [done|].
  unfold elems_rs in *. cbn [mbind list_bind]. rewrite <-app_assoc, encode_app.
  change (encode ([r_nul] ++ ?x)) with (String c_nul (encode x)).
  rewrite split_byte_app; [by rewrite IH|].
  apply snone_text; [done|by apply valid_er_runes|]. unfold er_runes.
  destruct He as (_ & _ & Hn & Hk). apply Forall_app; split.
  - eapply Forall_impl; [exact Hn|]. intros r Hr ->. by apply Hr; unfold name_bad; set_solver.
  - clear Hn. unfold keys_rs. induction Hk as [|[ks vs] kvs [(_ & _ & Hk) (_ & _ & Hv)] _ IH']; [constructor|].
    cbn [mbind list_bind] in *. apply Forall_app; split; [|done]. unfold key_rs. cbn [fst snd] in *.
    rewrite Forall_cons, Forall_app, Forall_cons, Forall_app. split_and!; [done|..]; try done.
    + eapply Forall_impl; [exact Hk|]. intros r Hr ->. by apply Hr; unfold key_bad; set_solver.
    + eapply Forall_impl; [exact Hv|]. intros r Hr ->. by apply Hr; unfold value_bad; set_solver.
    + by apply Forall_singleton.
Qed.

Lemma mapE_elems es :
  Forall er_ok es ->
  mapE toPathElem (filter (fun s => s <> "") (((fun e => encode (er_runes e)) <$> es) ++ [""]))
  = Ok (er_elem <$> es).
Proof.
  induction 1 as [|e es He Hes IH]; [done|]. cbn [fmap list_fmap app].
  rewrite filter_cons_True; cycle 1.
  { intros Heq. destruct He as (_ & Hne & _). pose proof (encode_nonempty (er_runes e)) as Hc.
    rewrite Heq in Hc. discriminate Hc. unfold er_runes. by destruct (er_name e). }
  cbn [mapE]. rewrite toPathElem_er by done. cbn [mbind go_bind]. by rewrite IH.
Qed.

(** ** Printed elements are encodings of elements as runes *)

Lemma encode_key kv : encode (key_rs kv) = writeKey (encode kv.1) (encode kv.2).
Proof.
  unfold key_rs, writeKey. rewrite encode_cons_ascii, encode_app, encode_cons_ascii, encode_app by done.
  done.
Qed.

Section print_lemmas.
Context `{MapOrder}.

Lemma writeKeys_rs m ks :
  Forall (fun k => text key_bad k = true /\ text value_bad (default "" (m !! k)) = true) ks ->
  exists kvs, Forall kv_ok kvs /\ writeKeys m ks = encode (keys_rs kvs) /\
    (fun kv => (encode kv.1, encode kv.2)) <$> kvs = (fun k => (k, default "" (m !! k))) <$> ks.
Proof.
  induction 1 as [|k ks [Hk Hv] _ (kvs & Hok & Hw & Hf)]; [by exists []|].
  apply text_spec in Hk as (krs & Ek & ? & ? & ?). apply text_spec in Hv as (vrs & Ev & ? & ? & ?).
  exists ((krs, vrs) :: kvs). split_and!.
  - by constructor.
  - change (keys_rs _) with (key_rs (krs, vrs) ++ keys_rs kvs).
    rewrite encode_app, encode_key, <-Hw. cbn [fst snd]. by rewrite <-Ek, <-Ev.
  - cbn [fmap list_fmap fst snd]. by rewrite <-Ek, <-Ev, Hf.
Qed.

(** The keys that are printed, in printing order. *)
Definition printed_keys (m : gmap string string) : list string :=
  match size m with
  | O => []
  | S O => (range m).*1
  | _ => sort_strings (range m).*1
  end.

Lemma elemKeys_printed m : elemKeys m = writeKeys m (printed_keys m).
Proof. unfold elemKeys, printed_keys. by destruct (size m) as [|[|n]]. Qed.

Lemma printed_keys_perm m : printed_keys m ≡ₚ (map_to_list m).*1.
Proof.
  unfold printed_keys. destruct (size m) as [|[|n]] eqn:E.
  - apply map_size_empty_inv in E as ->. by rewrite map_to_list_empty.
  - by rewrite range_perm.
  - by rewrite sort_strings_perm, range_perm.
Qed.

(** Printing does not depend on the order the runtime visits the keys. *)
Lemma printed_keys_sorted m : printed_keys m = sort_strings (map_to_list m).*1.
Proof.
  unfold printed_keys. destruct (size m) as [|[|n]] eqn:E.
  - apply map_size_empty_inv in E as ->. by rewrite map_to_list_empty.
  - assert (length (range m).*1 = 1%nat) as Hl by (by rewrite length_fmap, length_range).
    destruct ((range m).*1) as [|k [|]] eqn:Ek; [done| |done].
    assert (sort_strings [k] = [k]) as <- by done. apply sort_strings_det.
    by rewrite <-Ek, range_perm.
  - apply sort_strings_det. by rewrite range_perm.
Qed.

Lemma wf_elem_rs pe :
  wf_elem pe = true ->
  exists e, er_ok e /\ elemXPath false pe = encode (er_runes e) /\ er_elem e = pe.
Proof.
  destruct pe as [name key]. unfold wf_elem. cbn [pe_Name pe_Key].
  intros [(nrs & -> & Hv & Hne & Hn)%text_spec Hkey]%andb_true_iff.
  destruct key as [m|]; cycle 1.
  { exists (mkElemRs nrs []). split_and!.
    - by repeat split.
    - unfold elemXPath, er_runes. cbn [pe_Name pe_Key er_name er_keys]. rewrite app_nil_r.
      unfold elemKeys. cbn. by rewrite sapp_nil_r.
    - done. }
  apply andb_true_iff in Hkey as [Hm%negb_true_iff%bool_decide_eq_false Hkv].
  rewrite forallb_forall in Hkv.
  destruct (writeKeys_rs m (printed_keys m)) as (kvs & Hok & Hw & Hf).
  { apply Forall_forall. intros k Hk. rewrite printed_keys_perm in Hk.
    apply list_elem_of_fmap in Hk as ([k' v] & -> & Hk). cbn.
    pose proof (Hkv (k', v)) as Hkv'. rewrite list_elem_of_In in Hk. specialize (Hkv' Hk).
    rewrite <-list_elem_of_In in Hk. apply elem_of_map_to_list in Hk as ->.
    cbn. by apply andb_true_iff in Hkv'. }
  assert (foldl insert_kv ∅ kvs = m) as Hfold.
  { transitivity (foldl (fun acc kv => <[kv.1 := kv.2]> acc) (∅ : gmap string string)
      ((fun kv => (encode kv.1, encode kv.2)) <$> kvs)).
    { clear. generalize (∅ : gmap string string). by induction kvs as [|kv kvs IH]; cbn. }
    rewrite Hf. pose proof (keys_entries_perm "" m _ (printed_keys_perm m)) as Hp.
    assert (NoDup ((fun k => (k, default "" (m !! k))) <$> printed_keys m).*1) as Hnd
      by (rewrite Hp; apply NoDup_fst_map_to_list).
    rewrite foldl_insert_list_to_map by done.
    rewrite (right_id_L ∅ (∪)), (list_to_map_proper _ _ Hnd Hp). apply list_to_map_to_list. }
  exists (mkElemRs nrs kvs). split_and!.
  - by repeat split.
  - unfold elemXPath, er_runes. cbn [pe_Name pe_Key er_name er_keys gm_tab default id].
    rewrite elemKeys_printed, Hw, encode_app. done.
  - unfold er_elem. cbn [er_keys er_name]. destruct kvs as [|kv kvs].
    + by cbn in Hfold.
    + by rewrite Hfold.
Qed.
End print_lemmas.

Lemma has_suffix_last c (a b : string) :
  b <> "" -> snone c b = true -> has_suffix (String c "") (a +:+ b) = false.
Proof.
  intros Hb Hc. induction a as [|x a IH]; cbn [String.append has_suffix].
  - clear Hb. induction b as [|x b IH]; [done|]. cbn in Hc |- *.
    apply andb_true_iff in Hc as [Hx Hc]. apply negb_true_iff in Hx.
    rewrite Ascii.eqb_sym, Hx. cbn. by apply IH.
  - rewrite IH, orb_false_r. cbn. destruct (Ascii.eqb c x); [|done].
    destruct (a +:+ b) eqn:E; [|done]. destruct a; [by cbn in E; subst|done].
Qed.

Lemma list_snoc_dec {A} (l : list A) : l = [] \/ exists l' x, l = l' ++ [x].
Proof. induction l as [|x l _] using rev_ind; [by left | right; eauto]. Qed.

(** A printed element ends in something without a slash. *)
Lemma er_last e :
  er_ok e -> exists a b, encode (er_runes e) = a +:+ b /\ b <> "" /\ snone c_slash b = true.
Proof.
  intros (Hv & Hne & Hn & Hk). unfold er_runes.
  destruct (list_snoc_dec (er_keys e)) as [->|(kvs & kv & ->)].
  - exists "", (encode (er_name e)). cbn [keys_rs mbind list_bind]. rewrite app_nil_r.
    split_and!; [done|..].
    + intros Hc. pose proof (encode_nonempty _ Hne) as Hx. by rewrite Hc in Hx.
    + apply snone_text; [done..|]. eapply Forall_impl; [exact Hn|].
      intros r Hr ->. by apply Hr; unfold name_bad; set_solver.
  - exists (encode (er_name e ++ keys_rs kvs ++ r_open :: kv.1 ++ r_eq :: kv.2)), "]".
    split_and!; [|done..]. change "]" with (encode [r_close]).
    rewrite <-encode_app. f_equal. unfold keys_rs. rewrite bind_app, <-!app_assoc. cbn.
    unfold key_rs. rewrite app_nil_r. by rewrite <-!app_assoc.
Qed.

Lemma sjoin_elems es e0 :
  sjoin "/" ((fun e => encode (er_runes e)) <$> (es ++ [e0])) +:+ "/"
  = encode (elems_rs r_slash (es ++ [e0])).
Proof.
  induction es as [|e es IH].
  - cbn. unfold elems_rs. cbn. by rewrite app_nil_r, encode_app.
  - change (elems_rs r_slash ((e :: es) ++ [e0]))
      with ((er_runes e ++ [r_slash]) ++ elems_rs r_slash (es ++ [e0])).
    rewrite !encode_app, <-IH. cbn [app fmap list_fmap].
    assert (exists x l, (fun e => encode (er_runes e)) <$> (es ++ [e0]) = x :: l) as (x & l & ->).
    { destruct es; cbn; eauto. }
    by rewrite sjoin_cons2, !sapp_assoc.
Qed.

(** Parsing the printed elements, with or without a leading slash. *)
Lemma toPathElems_print (lead : bool) es :
  Forall er_ok es -> (es <> [] \/ lead = true) ->
  toPathElems ((if lead then "/" else "") +:+ sjoin "/" ((fun e => encode (er_runes e)) <$> es))
  = Ok (er_elem <$> es).
Proof.
  intros He Hne. destruct (list_snoc_dec es) as [->|(es' & e0 & ->)].
  { destruct lead; [by vm_compute|]. by destruct Hne. }
  unfold toPathElems.
  assert (exists a b, sjoin "/" ((fun e => encode (er_runes e)) <$> (es' ++ [e0])) = a +:+ b
    /\ b <> "" /\ snone c_slash b = true) as (a & b & Ej & Hb & Hs).
  { apply Forall_app in He as [_ [He _]%Forall_cons].
    destruct (er_last e0 He) as (a & b & Ee & Hb & Hs).
    clear Hne. induction es' as [|e es IH].
    - exists a, b. by cbn.
    - destruct IH as (a' & b' & Ej & Hb' & Hs').
      exists (encode (er_runes e) +:+ ("/" +:+ a')), b'. split_and!; [|done..].
      cbn [app fmap list_fmap].
      assert (exists x l, (fun e => encode (er_runes e)) <$> (es ++ [e0]) = x :: l) as (x & l & Ex).
      { destruct es; cbn; eauto. }
      rewrite Ex in *. by rewrite sjoin_cons2, Ej, !sapp_assoc. }
  rewrite Ej, <-sapp_assoc, has_suffix_last by done. rewrite (sapp_assoc _ a b), <-Ej, sapp_assoc, sjoin_elems.
  set (es := es' ++ [e0]) in *. clearbody es. clear Ej.
  assert (valid_runes (elems_rs r_slash es) = true) as Hval.
  { clear -He. induction He as [|e es He _ IH]; [done|].
    change (elems_rs _ _) with ((er_runes e ++ [r_slash]) ++ elems_rs r_slash es).
    by rewrite !valid_runes_app, valid_er_runes, IH. }
  destruct lead.
  - change ("/" +:+ encode ?x) with (encode (r_slash :: x)).
    rewrite runes_of_encode by (by rewrite valid_runes_cons).
    cbn [scan]. change (r_slash =? r_open) with false. change (r_slash =? r_close) with false.
    change (r_slash =? r_slash) with true. cbn [andb negb].
    rewrite scan_elems by done. cbn [fmap go_fmap mbind go_bind].
    change (encode (r_nul :: ?x)) with ("" +:+ String c_nul (encode x)).
    rewrite split_byte_app, split_elems by done. rewrite filter_cons_False by auto.
    by apply mapE_elems.
  - cbn [String.append]. rewrite runes_of_encode, scan_elems by done.
    cbn [mbind go_bind]. rewrite split_elems by done. by apply mapE_elems.
Qed.

Lemma wf_elems_rs `{MapOrder} l :
  forallb wf_elem l = true ->
  exists es, Forall er_ok es /\ elemXPath false <$> l = (fun e => encode (er_runes e)) <$> es
    /\ er_elem <$> es = l.
Proof.
  induction l as [|pe l IH]; [by exists []|]. cbn [forallb]. intros [Hpe Hl]%andb_true_iff.
  apply wf_elem_rs in Hpe as (e & He & Hx & Hee). destruct (IH Hl) as (es & Hes & Hxs & Hees).
  exists (e :: es). split_and!; [by constructor|..]; cbn; congruence.
Qed.

Lemma sdrop_S c s : sdrop (String.length s + 1) (s +:+ String c "") = "".
Proof.
  replace (_ + 1)%nat with (String.length (s +:+ String c "")) by (by rewrite slength_app).
  rewrite <-(sapp_nil_r (s +:+ String c "")) at 2. apply sdrop_app.
Qed.

Lemma has_origin_print o s :
  o <> "" -> snone c_colon o = true -> snone c_slash o = true ->
  has_origin (o +:+ String ":" (String "/" s)) = Some (String.length o).
Proof.
  intros Ho Hc Hs. unfold has_origin. change ":"%char with c_colon.
  rewrite sindex_app, stake_app by done.
  rewrite scontains_snone, Hs. destruct o as [|x o]; [done|].
  cbn in Hs. apply andb_true_iff in Hs as [Hx%negb_true_iff _]. 
  cbn [String.append has_prefix]. rewrite Ascii.eqb_sym in Hx. unfold c_slash in Hx. rewrite Hx. cbn [andb negb].
  change (String x ?y +:+ ?z) with (String x (y +:+ z)).
  replace (sdrop _ _) with (String "/" s); [done|].
  rewrite Nat.add_comm. cbn. clear. induction o; cbn; done.
Qed.

(** C1: parsing the xpath printed for a well-formed path gives the path back,
    origin, element names and every key included, for any valid UTF-8 names,
    keys and values and whatever order the runtime visits the keys in. *)
Theorem path_roundtrip `{MapOrder} (p : GPath) :
  wf_path p = true -> ParsePath (GnmiPathToXPath (Some p) false) = Ok p.
Proof.
  destruct p as [o l t]. unfold wf_path. cbn [p_Elem p_Target p_Origin].
  intros [[Hl ->%String.eqb_eq]%andb_true_iff Ho]%andb_true_iff.
  destruct (wf_elems_rs l Hl) as (es & Hes & Hx & <-).
  unfold GnmiPathToXPath, ParsePath in *. cbn [p_Elem p_Origin] in *. rewrite Hx in *.
  destruct (String.eqb_spec o "") as [->|Hne].
  - cbn [String.append] in *. destruct es as [|e es]; [done|].
    destruct (has_origin _); [done|].
    destruct (String.eqb_spec (sjoin "/" ((fun e0 => encode (er_runes e0)) <$> e :: es)) "") as [E|_].
    { exfalso. apply Forall_cons in Hes as [(_ & Hn & _) _].
      pose proof (encode_nonempty (er_runes e)) as Hc. cbn [fmap list_fmap] in E.
      destruct (encode (er_runes e)) eqn:Ee; [|by destruct es].
      discriminate Hc. unfold er_runes. by destruct (er_name e). }
    pose proof (toPathElems_print false (e :: es) Hes ltac:(by left)) as Hp.
    cbn [String.append] in Hp. by rewrite Hp.
  - apply andb_true_iff in Ho as [Hc Hs].
    rewrite sapp_assoc. change (":/" +:+ ?x) with (String ":" (String "/" x)).
    rewrite has_origin_print by done. rewrite stake_app.
    replace (sdrop _ _) with ("/" +:+ sjoin "/" ((fun e => encode (er_runes e)) <$> es)); cycle 1.
    { rewrite Nat.add_comm. clear. induction o; cbn; done. }
    destruct (String.eqb_spec (o +:+ String ":" (String "/" (sjoin "/" ((fun e => encode (er_runes e)) <$> es)))) "")
      as [E|_]; [by destruct o|].
    rewrite (toPathElems_print true) by auto. done.
Qed.

(** Witness: a path with an origin, two keys (one with a slash and a
    three-byte rune) and an element without keys. *)
Lemma path_roundtrip_witness :
  exists p, wf_path (H := order_bwd) p = true /\
    ParsePath (GnmiPathToXPath (H := order_bwd) (Some p) false) = Ok p.
Proof.
  exists (mkGPath "oc" [mkPathElem "interface" (Some {["name" := "ethernet-1/1"; "id" := encode [8364; 61]]});
                   mkPathElem "state" None] "").
  split; [by vm_compute|]. apply (path_roundtrip (H := order_bwd)). by vm_compute.
Defined.

(** ** What the parser accepts *)

Lemma sdrop_sdrop a b s : sdrop a (sdrop b s) = sdrop (b + a) s.
Proof. revert s; induction b as [|b IH]; intros [|c s]; cbn; try done; by destruct a. Qed.

Lemma runes_from_at fuel off s i r :
  (i, r) ∈ runes_from fuel off s ->
  exists w, (off <= i)%nat /\ decode_rune (sdrop (i - off) s) = Some (r, w).
Proof.
  revert off s; induction fuel as [|fuel IH]; intros off s; cbn; [by rewrite elem_of_nil|].
  destruct (decode_rune s) as [[r' w]|] eqn:Ed; [|by rewrite elem_of_nil].
  rewrite elem_of_cons. intros [[= -> ->]|Hin].
  - exists w. rewrite Nat.sub_diag. split; [lia|by destruct s].
  - apply IH in Hin as (w' & Hle & Hd). exists w'. split; [lia|].
    rewrite sdrop_sdrop in Hd. by replace (i - off)%nat with (w + (i - (off + w)))%nat by lia.
Qed.

Lemma find_open_in rs prev i : find_open rs prev = Some i -> (i, r_open) ∈ rs.
Proof.
  revert prev; induction rs as [|[j r] rs IH]; intros prev; cbn; [done|].
  destruct (Z.eqb_spec r r_open) as [->|]; cbn.
  - destruct (negb (prev =? r_bslash)); [intros [= ->]; left|]. intros Hf; right; eauto.
  - intros Hf; right; eauto.
Qed.

Lemma range_string_cons s r w :
  decode_rune s = Some (r, w) -> exists rs, range_string s = (0%nat, r) :: rs.
Proof. unfold range_string. destruct s; [done|]. cbn [String.length runes_from]. intros ->. eauto. Qed.

Lemma unescape_empty s : unescape s = "" -> s = "".
Proof. destruct s as [|a [|b s]]; [done..|]. rewrite unescape_eq. by case_match. Qed.

(** Every key and every value of an accepted key list is non-empty. *)
Definition keys_shape (m : gmap string string) : Prop := map_Forall (fun k v => k <> "" /\ v <> "") m.

Lemma pk_loop_shape s rs inKey start prev m m' :
  pk_loop s rs inKey start prev m = Ok m' -> keys_shape m ->
  keys_shape m' /\ (m <> ∅ \/ inKey = true -> m' <> ∅).
Proof.
  revert inKey start prev m; induction rs as [|[i r] rs IH]; intros inKey start prev m; cbn [pk_loop].
  - destruct inKey; [done|]. intros [= ->] Hm. split; [done|]. by intros [|].
  - destruct (r =? r_open).
    { destruct (prev =? r_bslash); [by eauto|]. destruct inKey; [done|].
      intros Hl Hm. destruct (IH _ _ _ _ Hl Hm) as [? Hne]. split; [done|]. intros _. apply Hne. by right. }
    destruct (r =? r_close); [|by destruct inKey; cbn; eauto].
    destruct (prev =? r_bslash); [by eauto|]. destruct inKey; cbn [negb]; [|done].
    destruct (sindex _ _) as [eq|]; [|done].
    destruct (String.eqb_spec (stake eq (sslice start i s)) ""); [done|].
    destruct (String.eqb_spec (sdrop (eq + 1) (sslice start i s)) ""); [done|]. cbn [orb].
    intros Hl Hm. destruct (IH _ _ _ _ Hl) as [? Hne].
    { apply map_Forall_insert_2; [|done]. split; intros E; by apply unescape_empty in E. }
    split; [done|]. intros _. apply Hne. left. apply insert_non_empty.
Qed.

(** Every element of a path the parser accepts has a name, and either no
    key map at all or a non-empty one whose keys and values are non-empty; the
    target is never set by parsing. *)
Theorem ParsePath_shape s p :
  ParsePath s = Ok p ->
  p_Target p = "" /\
  Forall (fun pe => pe_Name pe <> "" /\
    match pe_Key pe with None => True | Some m => m <> ∅ /\ keys_shape m end) (p_Elem p).
Proof.
  unfold ParsePath. destruct (String.eqb s ""); [intros [= <-]; split; [done|constructor]|].
  match goal with |- (let '(_, _) := ?x in _) = _ -> _ => destruct x as [o p'] end.
  intros (pes & Hp & [= <-])%bind_ok. split; [done|].
  cbn [p_Elem]. unfold toPathElems in Hp. apply bind_ok in Hp as (buf & _ & Hp).
  apply mapE_ok in Hp. induction Hp as [|w pe ws pes Hw _ IH]; constructor; [|done].
  revert Hw. unfold toPathElem. destruct (find_open _ _) as [[|idx]|] eqn:Ef; [done|..].
  - intros (kvs & Hk & Hw)%bind_ok. destruct (String.eqb_spec (stake (S idx) w) ""); [done|].
    injection Hw as <-. cbn [pe_Name pe_Key]. split; [done|]. revert Hk. unfold parseXPathKeys.
    destruct (String.eqb _ _); [by intros [= <-]|]. intros Hp.
    destruct (pk_loop _ _ _ _ _ _) as [m| |] eqn:Ep; try done. injection Hp as <-.
    apply find_open_in, runes_from_at in Ef as (w' & _ & Hd). rewrite Nat.sub_0_r in Hd.
    destruct (range_string_cons _ _ _ Hd) as (rs & Er). rewrite Er in Ep.
    cbn [pk_loop] in Ep. change (r_open =? r_open) with true in Ep.
    change (0 =? r_bslash) with false in Ep.
    destruct (pk_loop_shape _ _ _ _ _ _ _ Ep) as [? Hne]; [apply map_Forall_empty|].
    split; [apply Hne; by right|done].
  - destruct (String.eqb_spec w ""); [done|]. intros [= <-]. by split.
Qed.

Lemma ParsePath_shape_witness :
  exists p, ParsePath "a/b[k=v\]]" = Ok p /\ p_Target p = "" /\
  Forall (fun pe => pe_Name pe <> "" /\
    match pe_Key pe with None => True | Some m => m <> ∅ /\ keys_shape m end) (p_Elem p).
Proof.
  exists (mkGPath "" [mkPathElem "a" None; mkPathElem "b" (Some {["k" := "v]"]})] "").
  assert (ParsePath "a/b[k=v\]]"
    = Ok (mkGPath "" [mkPathElem "a" None; mkPathElem "b" (Some {["k" := "v]"]})] "")) as H by by vm_compute.
  split; [exact H|]. exact (ParsePath_shape _ _ H).
Defined.

(** The printed xpath does not depend on the order in which the runtime
    visits the keys of an element. *)
Theorem xpath_order_independent (o1 o2 : MapOrder) (p : option GPath) (noKeys : bool) :
  GnmiPathToXPath (H := o1) p noKeys = GnmiPathToXPath (H := o2) p noKeys.
Proof.
  destruct p as [p|]; [|done]. unfold GnmiPathToXPath. f_equal. f_equal.
  apply list_fmap_ext. intros _ pe _. unfold elemXPath. destruct noKeys; [done|].
  by rewrite !elemKeys_printed, !printed_keys_sorted.
Qed.

(** A key value that contains [:/] in the first element is taken for an
    origin: the path is refused although its printed form is unambiguous. *)
Lemma origin_found_in_key_value : forall o : MapOrder,
  let p := mkGPath "" [mkPathElem "server" (Some {["url" := "http:/x"]})] "" in
  GnmiPathToXPath (H := o) (Some p) false = "server[url=http:/x]" /\
  ParsePath "server[url=http:/x]" = Err errMalformedXPath.
Proof.
  intros o. cbn zeta. rewrite (xpath_order_independent o order_fwd). by split; vm_compute.
Qed.

(** [writeKey] does not escape what [parseXPathKeys] unescapes: a key value
    with a bracket is not parsed back. *)
Lemma bracket_value_not_reparsed : forall o : MapOrder,
  let p := mkGPath "" [mkPathElem "a" (Some {["k" := "x]"]})] "" in
  ParsePath "a[k=x\]]" = Ok p /\
  ParsePath (GnmiPathToXPath (H := o) (Some p) false) = Err errMalformedXPath.
Proof.
  intros o. cbn zeta. rewrite (xpath_order_independent o order_fwd). by split; vm_compute.
Qed.
