(* ===== verification/GoVal.v ===== *)
(** * Go values: [interface{}], machine integers, floats, hashes

    The dynamic values an event carries ([any]), the integer kinds at their
    width with wrap-around conversion, IEEE-754 values as [SpecFloat]'s
    [spec_float] (binary64 and binary32), decimal printing and [strconv.Atoi],
    and the FNV-1a hash. What the language leaves to the implementation (the
    result of converting a float that does not fit) is a parameter. *)

From S2P Require Import Prelude GoStrings Utf8.
From Stdlib Require Export SpecFloat.
From stdpp Require Import strings.
From stdpp Require Export pretty.

#[local] Open Scope Z_scope.

(** ** Integer kinds *)

Inductive int_kind :=
| KInt | KInt8 | KInt16 | KInt32 | KInt64
| KUint | KUint8 | KUint16 | KUint32 | KUint64 | KUintptr.

#[export] Instance int_kind_eq_dec : EqDecision int_kind.
Proof. solve_decision. Defined.

(** On the 64-bit platforms the program is built for. *)
Definition kind_bits (k : int_kind) : Z :=
  match k with
  | KInt8 | KUint8 => 8
  | KInt16 | KUint16 => 16
  | KInt32 | KUint32 => 32
  | KInt | KInt64 | KUint | KUint64 | KUintptr => 64
  end.

Definition kind_signed (k : int_kind) : bool :=
  match k with KInt | KInt8 | KInt16 | KInt32 | KInt64 => true | _ => false end.

Definition kind_min (k : int_kind) : Z := if kind_signed k then - 2 ^ (kind_bits k - 1) else 0.
Definition kind_max (k : int_kind) : Z :=
  if kind_signed k then 2 ^ (kind_bits k - 1) - 1 else 2 ^ kind_bits k - 1.

Definition in_kind (k : int_kind) (z : Z) : bool := (kind_min k <=? z) && (z <=? kind_max k).

(** Conversion to a kind, [T(z)]: reduction modulo [2^w]. *)
Definition wrap_u (w z : Z) : Z := z mod 2 ^ w.
Definition wrap_s (w z : Z) : Z := (z + 2 ^ (w - 1)) mod 2 ^ w - 2 ^ (w - 1).
Definition wrap (k : int_kind) (z : Z) : Z :=
  if kind_signed k then wrap_s (kind_bits k) z else wrap_u (kind_bits k) z.

Abbreviation int64 := (wrap KInt64).
Abbreviation uint64 := (wrap KUint64).

Lemma wrap_in k z : in_kind k (wrap k z) = true.
Proof.
  unfold in_kind, kind_min, kind_max, wrap, wrap_s, wrap_u. rewrite andb_true_iff, !Z.leb_le.
  destruct k; cbn [kind_signed kind_bits];
    match goal with |- context [?a mod ?b] => pose proof (Z.mod_pos_bound a b ltac:(lia)) end; lia.
Qed.

Lemma wrap_id k z : in_kind k z = true -> wrap k z = z.
Proof.
  unfold in_kind, kind_min, kind_max, wrap, wrap_s, wrap_u. rewrite andb_true_iff, !Z.leb_le.
  destruct k; cbn [kind_signed kind_bits]; intros; rewrite Z.mod_small by lia; lia.
Qed.

Lemma in_kind_spec k z : in_kind k z = true <-> kind_min k <= z <= kind_max k.
Proof. unfold in_kind. rewrite andb_true_iff, !Z.leb_le. done. Qed.

(** ** Floats *)

Definition f64_of_Z (z : Z) : spec_float := binary_normalize 53 1024 z 0 false.
Definition f32_of_Z (z : Z) : spec_float := binary_normalize 24 128 z 0 false.
Definition f64_mul (x y : spec_float) : spec_float := SFmul 53 1024 x y.
Definition f64_div (x y : spec_float) : spec_float := SFdiv 53 1024 x y.
Definition f64_lt (x y : spec_float) : bool := SFltb x y.
Definition f64_of_f32 (x : spec_float) : spec_float :=
  match x with
  | S754_finite s m e => binary_round 53 1024 s m e
  | _ => x
  end.

Definition is_nan (x : spec_float) : bool := match x with S754_nan => true | _ => false end.
Definition is_inf (x : spec_float) : bool := match x with S754_infinity _ => true | _ => false end.

(** Truncation toward zero of a finite float. *)
Definition f_trunc (x : spec_float) : option Z :=
  match x with
  | S754_zero _ => Some 0
  | S754_finite s m e =>
      let a := if 0 <=? e then Z.pos m * 2 ^ e else Z.pos m / 2 ^ (- e) in
      Some (if s then - a else a)
  | _ => None
  end.

(** The result of converting a float whose truncation does not fit is left to
    the implementation by the language: [conv_oor]. *)
Class FloatConv : Type := {
  conv_oor : int_kind -> spec_float -> Z;
  conv_oor_in : forall k f, in_kind k (conv_oor k f) = true
}.

(** The amd64 conversion to signed kinds, used by the witnesses. *)
Lemma kind_min_in k : in_kind k (kind_min k) = true.
Proof. by destruct k; vm_compute. Qed.
Definition conv_amd64 : FloatConv :=
  {| conv_oor k _ := kind_min k; conv_oor_in k _ := kind_min_in k |}.

Definition int_of_float `{FloatConv} (k : int_kind) (x : spec_float) : Z :=
  match f_trunc x with
  | Some z => if in_kind k z then z else conv_oor k x
  | None => conv_oor k x
  end.

Lemma int_of_float_in `{FloatConv} k x : in_kind k (int_of_float k x) = true.
Proof.
  unfold int_of_float. destruct (f_trunc x) as [z|]; [|apply conv_oor_in].
  destruct (in_kind k z) eqn:E; [done|apply conv_oor_in].
Qed.

(** [math.Pow10(n)] for [n >= 0]: infinite above 308. *)
Definition pow10 (n : Z) : spec_float :=
  if n <=? 308 then f64_of_Z (10 ^ n) else S754_infinity false.

(** [math.Float32frombits], [math.Float64frombits]: NaN payloads are dropped. *)
Definition f_frombits (mbits ebits bits : Z) : spec_float :=
  let s := Z.testbit bits (mbits + ebits) in
  let e := (bits / 2 ^ mbits) mod 2 ^ ebits in
  let m := bits mod 2 ^ mbits in
  let bias := 2 ^ (ebits - 1) - 1 in
  if e =? 2 ^ ebits - 1 then (if m =? 0 then S754_infinity s else S754_nan)
  else if e =? 0 then
    match m with Z.pos p => S754_finite s p (1 - bias - mbits) | _ => S754_zero s end
  else match m + 2 ^ mbits with
       | Z.pos p => S754_finite s p (e - bias - mbits)
       | _ => S754_zero s
       end.
Definition f32_frombits (bits : Z) : spec_float := f_frombits 23 8 bits.
Definition f64_frombits (bits : Z) : spec_float := f_frombits 52 11 bits.

(** [binary.BigEndian.Uint32] and [Uint64] of the first bytes of a slice. *)
Fixpoint be_value (acc : Z) (s : string) : Z :=
  match s with EmptyString => acc | String c s => be_value (acc * 256 + byte_z c) s end.

Example frombits_one : f32_frombits 1065353216 = S754_finite false 8388608 (-23).
Proof. reflexivity. Qed.
(** ** Dynamic values

    [A]-constructors are the dynamic types the modelled code distinguishes.
    Byte slices are byte strings; a nil slice or map is [None]; [AOther] is any
    other type (a protobuf message, a channel, ...), by its name. *)
Inductive any :=
| ANil
| ABool (b : bool)
| AStr (s : string)
| AInt (k : int_kind) (z : Z)
| AF64 (f : spec_float)
| AF32 (f : spec_float)
| ABytes (b : option string)
| ASlice (l : option (list any))
| AStrs (l : option (list string))
| AMap (m : option (gmap string any))
| AStrMap (m : option (gmap string string))
| ADecimal (digits precision : Z)
| AOther (t : string).

(** The type assertion [v.(string)]. *)
Definition as_string (v : any) : option string :=
  match v with AStr s => Some s | _ => None end.

(** ** Decimal text *)

(** [strconv.Itoa] and [strconv.FormatUint(_, 10)]. *)
Definition itoa (z : Z) : string := pretty z.
Definition format_bool (b : bool) : string := if b then "true" else "false".

Definition digit_val (c : ascii) : option Z :=
  let d := byte_z c - 48 in if (0 <=? d) && (d <=? 9) then Some d else None.

Fixpoint atoi_digits (acc : Z) (s : string) : option Z :=
  match s with
  | EmptyString => Some acc
  | String c s => d ← digit_val c; atoi_digits (acc * 10 + d) s
  end.

(** [strconv.Atoi]: an optional sign and at least one digit, in the range of
    [int]. *)
Definition atoi (s : string) : option Z :=
  let '(neg, body) :=
    match s with
    | String "+" t => (false, t)
    | String "-" t => (true, t)
    | _ => (false, s)
    end in
  if String.eqb body "" then None
  else
    n ← atoi_digits 0 body;
    let n := if neg : bool then - n else n in
    if in_kind KInt n then Some n else None.

Example atoi_ex : atoi "-42" = Some (-42) /\ atoi "+7" = Some 7 /\ atoi "4a" = None
  /\ atoi "9223372036854775808" = None.
Proof. by vm_compute. Qed.

(** ** FNV-1a, 64 bits ([hash/fnv.New64a]) *)

Definition fnv_offset : Z := 14695981039346656037.
Definition fnv_prime : Z := 1099511628211.

(** [h.Write(s)]. *)
Fixpoint fnv_write (h : Z) (s : string) : Z :=
  match s with
  | EmptyString => h
  | String c s => fnv_write (uint64 (Z.lxor h (byte_z c) * fnv_prime)) s
  end.
Definition fnv1a (s : string) : Z := fnv_write fnv_offset s.

Lemma fnv_write_app h a b : fnv_write h (a +:+ b) = fnv_write (fnv_write h a) b.
Proof. revert h; induction a as [|c a IH]; intros h; cbn -[wrap]; [done|]. apply IH. Qed.

(** The reference vectors of the FNV page for "" and "a". *)
Example fnv1a_a : fnv1a "" = 14695981039346656037 /\ fnv1a "a" = 12638187200555641996.
Proof. by vm_compute. Qed.

(** ** Induction on dynamic values *)

Fixpoint any_size (v : any) : nat :=
  match v with
  | ASlice (Some l) => S (sum_list (map any_size l))
  | AMap (Some m) => S (map_fold (fun _ v n => any_size v + n)%nat 0%nat m)
  | _ => 1%nat
  end.

Lemma any_size_slice (v : any) l : v ∈ l -> (any_size v < any_size (ASlice (Some l)))%nat.
Proof.
  cbn. induction 1 as [x l|x y l _ IH]; cbn; lia.
Qed.

Lemma any_size_map (v : any) (m : gmap string any) k :
  m !! k = Some v -> (any_size v < any_size (AMap (Some m)))%nat.
Proof.
  intros Hm. cbn. rewrite (map_fold_delete_L _ _ k v) by (done || (intros; lia)). lia.
Qed.

Lemma any_ind' (P : any -> Prop) :
  (forall v, (forall l, v <> ASlice (Some l)) -> (forall m, v <> AMap (Some m)) -> P v) ->
  (forall l, Forall P l -> P (ASlice (Some l))) ->
  (forall m, map_Forall (fun _ => P) m -> P (AMap (Some m))) ->
  forall v, P v.
Proof.
  intros Hb Hs Hm v. remember (any_size v) as n eqn:Hn.
  revert v Hn; induction n as [n IH] using lt_wf_ind; intros v ->.
  destruct v as [| | | | | |b|[l|]|l|[m|]|m|d p|t]; try (by apply Hb).
  - apply Hs, Forall_forall. intros v Hv. eapply IH; [|done]. by apply any_size_slice.
  - apply Hm. intros k v Hv. eapply IH; [|done]. by eapply any_size_map.
Qed.
