(* ===== verification/Rounding.v ===== *)
(** * Rounding of binary64 products

    The floats of the model are those of the Standard Library, whose operations
    compute; this file proves what the rounding of a product does to a
    comparison with a whole number: it never takes a product at or above the
    number below it, and takes one below it to it only when the two are half a
    unit of the last place apart ([aux_reaches], [aux_below]). The product of
    two floats is exact before it is rounded, and so is the float of an integer
    of 53 bits ([f64_of_Z_exact]). *)

From Stdlib Require Import ZArith Lia Zbool Floats.SpecFloat.
From S2P Require Import Prelude GoVal.

#[local] Open Scope Z_scope.

(** ** Values

    [below m e n]: the value m * 2^e is less than the integer n. *)
Definition below (m e n : Z) : bool := if 0 <=? e then m * 2 ^ e <? n else m <? n * 2 ^ (- e).

Lemma pow2_pos e : 0 <= e -> 0 < 2 ^ e.
Proof. intros. lia. Qed.

Lemma pow2_add a b : 0 <= a -> 0 <= b -> 2 ^ (a + b) = 2 ^ a * 2 ^ b.
Proof. intros. by apply Z.pow_add_r. Qed.

(** The same, scaled by a power that makes both sides integers. *)
Lemma below_scaled s m e n : 0 <= s -> 0 <= e + s -> below m e n = (m * 2 ^ (e + s) <? n * 2 ^ s).
Proof.
  intros Hs Hes. pose proof (pow2_pos s Hs). pose proof (pow2_pos (e + s) Hes). unfold below. destruct (Z.leb_spec 0 e) as [He|He].
  - rewrite (pow2_add e s) by lia. rewrite Z.mul_assoc.
    destruct (Z.ltb_spec (m * 2 ^ e) n), (Z.ltb_spec (m * 2 ^ e * 2 ^ s) (n * 2 ^ s)); try done; nia.
  - assert (Hp : 2 ^ s = 2 ^ (- e) * 2 ^ (e + s)) by (rewrite <-pow2_add by lia; f_equal; lia). rewrite Hp, Z.mul_assoc.
    destruct (Z.ltb_spec m (n * 2 ^ (- e))), (Z.ltb_spec (m * 2 ^ (e + s)) (n * 2 ^ (- e) * 2 ^ (e + s))); try done; nia.
Qed.

Lemma below_shift m e n j : 0 <= j -> below (m * 2 ^ j) (e - j) n = below m e n.
Proof.
  intros Hj. rewrite (below_scaled (Z.abs e + j)), (below_scaled (Z.abs e + j) m e) by lia.
  rewrite <-Z.mul_assoc, <-pow2_add by lia. do 3 f_equal. lia.
Qed.

(** Truncation is below the integer exactly when the value is. *)
Lemma trunc_below s m e :
  f_trunc (S754_finite s m e) = Some (if s then - (if 0 <=? e then Z.pos m * 2 ^ e else Z.pos m / 2 ^ (- e))
                                      else if 0 <=? e then Z.pos m * 2 ^ e else Z.pos m / 2 ^ (- e)) /\
  0 <= (if 0 <=? e then Z.pos m * 2 ^ e else Z.pos m / 2 ^ (- e)) /\
  forall n, ((if 0 <=? e then Z.pos m * 2 ^ e else Z.pos m / 2 ^ (- e)) <? n) = below (Z.pos m) e n.
Proof.
  split; [done|]. unfold below. destruct (Z.leb_spec 0 e) as [He|He].
  - pose proof (pow2_pos e He). split; [nia|done].
  - assert (Hp : 0 < 2 ^ (- e)) by (apply pow2_pos; lia). split; [apply Z.div_pos; lia|]. intros n.
    destruct (Z.ltb_spec (Z.pos m) (n * 2 ^ (- e))); destruct (Z.ltb_spec (Z.pos m / 2 ^ (- e)) n) as [Hd|Hd]; try done; exfalso.
    + assert (Z.pos m / 2 ^ (- e) < n) by (apply Z.div_lt_upper_bound; lia). lia.
    + assert (n * 2 ^ (- e) <= Z.pos m) by lia. assert (n <= Z.pos m / 2 ^ (- e)) by (apply Z.div_le_lower_bound; lia). lia.
Qed.

(** ** Digits and shifts *)

Lemma digits_bounds p : 2 ^ (Z.pos (digits2_pos p) - 1) <= Z.pos p < 2 ^ Z.pos (digits2_pos p).
Proof.
  induction p as [p IH|p IH|]; cbn [digits2_pos]; [| |by cbn];
    rewrite Pos2Z.inj_succ; replace (Z.succ (Z.pos (digits2_pos p)) - 1) with (Z.succ (Z.pos (digits2_pos p) - 1)) by lia;
    rewrite !Z.pow_succ_r by lia; lia.
Qed.

Lemma digits_le m d : 0 < m -> 0 <= d -> m < 2 ^ d -> Zdigits2 m <= d.
Proof.
  intros Hm Hd Hlt. destruct m as [|p|]; [lia| |lia]. cbn [Zdigits2]. destruct (digits_bounds p) as [Hl _].
  destruct (Z.le_gt_cases (Z.pos (digits2_pos p)) d); [done|]. assert (2 ^ d <= 2 ^ (Z.pos (digits2_pos p) - 1)) by (apply Z.pow_le_mono_r; lia). lia.
Qed.

Lemma digits_pow m : 0 < m -> 0 < Zdigits2 m /\ 2 ^ (Zdigits2 m - 1) <= m < 2 ^ Zdigits2 m.
Proof. destruct m as [|p|]; [lia| |lia]. intros _. cbn. split; [lia|apply digits_bounds]. Qed.

Lemma iter_pos_iter {A} (f : A -> A) n x : SpecFloat.iter_pos f n x = Pos.iter f x n.
Proof.
  revert x; induction n as [n IH|n IH|]; intros x; cbn; [| |done]; rewrite !IH; [|done].
  by rewrite <-!Pos.iter_swap.
Qed.

(** A record of a shift by [k]: the quotient, and a rounding bit that is set
    only when the remainder is half or more. *)
Definition shifted (m k : Z) (r : shr_record) : Prop :=
  shr_m r = m / 2 ^ k /\ (shr_r r = true -> 2 ^ k <= 2 * (m mod 2 ^ k)).

Lemma shr_1_shifted m k r : 0 <= m -> 0 <= k -> shifted m k r -> shifted m (k + 1) (shr_1 r).
Proof.
  intros Hm Hk [Hq _]. pose proof (pow2_pos k Hk) as Hp. destruct r as [q b s]. cbn in Hq.
  assert (Hq0 : 0 <= q) by (subst; by apply Z.div_pos).
  assert (Hs : shr_m (shr_1 (Build_shr_record q b s)) = q / 2 /\ (shr_r (shr_1 (Build_shr_record q b s)) = true -> q mod 2 = 1)).
  { destruct q as [|[p|p|]|p]; [done| | | |lia].
    - cbn [shr_1 shr_m shr_r]. split; [|intros _; rewrite Pos2Z.inj_xI; by rewrite Z.add_comm, Z.mul_comm, Z_mod_plus_full].
      rewrite Pos2Z.inj_xI, Z.add_comm, Z.mul_comm, Z.div_add by lia. done.
    - cbn [shr_1 shr_m shr_r]. split; [|done]. by rewrite Pos2Z.inj_xO, Z.mul_comm, Z.div_mul.
    - done. }
  destruct Hs as [Hs1 Hs2]. unfold shifted. rewrite pow2_add, Z.pow_1_r by lia. split.
  - rewrite Hs1, Hq. rewrite Z.div_div by lia. done.
  - intros Hr%Hs2. rewrite Hq in Hr. rewrite Z.rem_mul_r by lia. rewrite Hr.
    pose proof (Z.mod_pos_bound m (2 ^ k) Hp). lia.
Qed.

Lemma shr_shifted m e n : 0 < m -> shifted m (Z.max 0 n) (shr (shr_record_of_loc m loc_Exact) e n).1 /\ (shr (shr_record_of_loc m loc_Exact) e n).2 = e + Z.max 0 n.
Proof.
  intros Hm. assert (H0 : shifted m 0 (shr_record_of_loc m loc_Exact)) by (split; cbn; [by rewrite Z.div_1_r|done]).
  destruct n as [|p|p]; cbn [shr fst snd]; [split; [done|lia]| |split; [|lia]].
  2: { replace (Z.max 0 (Z.neg p)) with 0 by lia. done. }
  split; [|lia]. rewrite iter_pos_iter. replace (Z.max 0 (Z.pos p)) with (Z.pos p) by lia.
  induction p as [|p IH] using Pos.peano_ind; [by apply (shr_1_shifted m 0); [lia..|]|].
  rewrite Pos.iter_succ, Pos2Z.inj_succ, <-Z.add_1_r. apply shr_1_shifted; [lia..|done].
Qed.

Lemma shift_up m d : Z.pos (Pos.iter xO m d) = Z.pos m * 2 ^ Z.pos d.
Proof.
  induction d as [|d IH] using Pos.peano_ind; [cbn; lia|].
  rewrite Pos.iter_succ, Pos2Z.inj_succ, Z.pow_succ_r by lia. rewrite Pos2Z.inj_xO, IH. ring.
Qed.

(** ** Rounding *)

Abbreviation exp64 := (fexp 53 1024).
Abbreviation round64 := (binary_round_aux 53 1024).

(** A mantissa that fits is not changed. *)
Lemma aux_fits s p e : exp64 (Zdigits2 (Z.pos p) + e) <= e -> e <= 971 -> round64 s (Z.pos p) e loc_Exact = S754_finite s p e.
Proof.
  intros Hf He. unfold binary_round_aux, shr_fexp.
  assert (Hn : forall r n, n <= 0 -> shr r e n = (r, e)) by (intros r [|n|n] ?; [done|lia|done]).
  rewrite Hn by lia. cbn [shr_record_of_loc loc_of_shr_record shr_m shr_r shr_s round_nearest_even]. rewrite Hn by lia. cbn [shr_record_of_loc shr_m].
  replace (e <=? 1024 - 53) with true by (symmetry; apply Z.leb_le; lia). done.
Qed.

(** How far the mantissa is shifted. *)
Definition shift_of (m e : Z) : Z := Z.max 0 (exp64 (Zdigits2 m + e) - e).

Lemma shift_of_val m e : shift_of m e = Z.max 0 (Z.max (Zdigits2 m + e - 53) (-1074) - e).
Proof. done. Qed.

(** The quotient of a mantissa, or one more when the remainder is half or more. *)
Definition rounded (m k q : Z) : Prop := q = m / 2 ^ k \/ q = m / 2 ^ k + 1 /\ 2 ^ k <= 2 * (m mod 2 ^ k).

(** The exponent is one the format has for the mantissa. *)
Definition canonical (q e : Z) : Prop := 0 < q -> exp64 (Zdigits2 q + e) <= e.

Lemma rounded_canonical m e q : 0 < m -> rounded m (shift_of m e) q ->
  q = 2 ^ 53 \/ canonical q (e + shift_of m e).
Proof.
  intros Hm Hq. pose proof (shift_of_val m e) as Hk. set (k := shift_of m e) in *. clearbody k. unfold canonical, fexp, emin.
  destruct (Z.eq_dec k 0) as [Hk0|Hk0].
  - right. intros _. rewrite Hk0 in *. unfold rounded in Hq. rewrite Z.pow_0_r, Z.div_1_r, Z.mod_1_r in Hq.
    destruct Hq as [->|[_ ?]]; lia.
  - assert (Hlt : m / 2 ^ k < 2 ^ 53).
    { apply Z.div_lt_upper_bound; [apply pow2_pos; lia|]. rewrite <-pow2_add by lia.
      apply Z.lt_le_trans with (2 ^ Zdigits2 m); [by apply digits_pow|]. apply Z.pow_le_mono_r; lia. }
    assert (Hle : q <= 2 ^ 53) by (destruct Hq as [->|[-> _]]; lia).
    destruct (Z.eq_dec q (2 ^ 53)) as [|Hne]; [by left|right]. intros Hpos.
    pose proof (digits_le q 53 Hpos ltac:(lia) ltac:(lia)). lia.
Qed.

(** The second normalisation, of the rounded mantissa. *)
Definition settle (s : bool) (q e : Z) : spec_float :=
  let '(r, e) := shr_fexp 53 1024 q e loc_Exact in
  match shr_m r with
  | 0 => S754_zero s
  | Z.pos m => if e <=? 1024 - 53 then S754_finite s m e else S754_infinity s
  | _ => S754_nan
  end.

(** A truncation with a sign, and what it is below. *)
Definition truncates (f : spec_float) (s : bool) (q e : Z) : Prop :=
  exists a, f_trunc f = Some (if s then - a else a) /\ 0 <= a /\ forall n, 0 < n -> (a <? n) = below q e n.

Lemma truncates_finite s p e : truncates (S754_finite s p e) s (Z.pos p) e.
Proof. destruct (trunc_below s p e) as (Ht & Ha & Hb). eexists. split; [exact Ht|]. split; [done|]. intros n _. apply Hb. Qed.

Lemma truncates_zero s e : truncates (S754_zero s) s 0 e.
Proof.
  exists 0. split; [by destruct s|]. split; [done|]. intros n Hn.
  rewrite (below_scaled (Z.abs e)) by lia. pose proof (pow2_pos (Z.abs e) ltac:(lia)). rewrite Z.mul_0_l.
  destruct (Z.ltb_spec 0 n), (Z.ltb_spec 0 (n * 2 ^ Z.abs e)); try done; nia.
Qed.

Lemma settle_zero s e : settle s 0 e = S754_zero s.
Proof.
  unfold settle, shr_fexp. generalize (exp64 (Zdigits2 0 + e) - e). intros n. destruct n as [|p|p]; [done| |done]. cbn [shr].
  assert (shr_m (SpecFloat.iter_pos shr_1 p (shr_record_of_loc 0 loc_Exact)) = 0) as ->; [|done].
  rewrite iter_pos_iter. induction p as [|p IH] using Pos.peano_ind; [done|]. rewrite Pos.iter_succ.
  destruct (Pos.iter _ _ p) as [x b c]. cbn in IH. by subst.
Qed.

Lemma settle_canonical s p e : e <= 971 -> canonical (Z.pos p) e -> settle s (Z.pos p) e = S754_finite s p e.
Proof.
  intros He Hc. specialize (Hc ltac:(lia)). unfold settle, shr_fexp.
  assert (Hn : forall r n, n <= 0 -> shr r e n = (r, e)) by (intros r [|n|n] ?; [done|lia|done]). rewrite Hn by lia.
  cbn [shr_record_of_loc shr_m]. by replace (e <=? 1024 - 53) with true by (symmetry; apply Z.leb_le; lia).
Qed.

(** A carry is one more shift, which loses nothing. *)
Lemma settle_carry s e : -1074 <= e <= 900 -> truncates (settle s (2 ^ 53) e) s (2 ^ 53) e.
Proof.
  intros He. destruct (Z.le_gt_cases (exp64 (54 + e)) e) as [Hf|Hf].
  - change (2 ^ 53) with (Z.pos 9007199254740992). rewrite settle_canonical; [apply truncates_finite|lia|]. intros _. exact Hf.
  - assert (settle s (2 ^ 53) e = S754_finite s 4503599627370496 (e + 1)) as ->.
    { unfold settle, shr_fexp. change (Zdigits2 (2 ^ 53)) with 54.
      replace (exp64 (54 + e) - e) with 1 by (unfold fexp, emin in *; lia). cbn -[Z.add Z.leb Z.sub].
      by replace (e + 1 <=? 1024 - 53) with true by (symmetry; apply Z.leb_le; lia). }
    destruct (truncates_finite s 4503599627370496 (e + 1)) as (a & Ha & Hp & Hb). exists a. split; [done|]. split; [done|].
    intros n Hn. rewrite Hb by done. change (2 ^ 53) with (Z.pos 4503599627370496 * 2 ^ 1).
    rewrite <-(below_shift (Z.pos 4503599627370496) (e + 1) n 1) by lia. f_equal. lia.
Qed.

(** The result of rounding, as a value. *)
Lemma aux_spec s m e : 0 < m -> Zdigits2 m + e <= 900 ->
  exists q, rounded m (shift_of m e) q /\ truncates (round64 s m e loc_Exact) s q (e + shift_of m e).
Proof.
  intros Hm Hmax. destruct (shr_shifted m e (exp64 (Zdigits2 m + e) - e) Hm) as [[Hq Hr] He].
  change (Z.max 0 (exp64 (Zdigits2 m + e) - e)) with (shift_of m e) in *.
  assert (Hround : round64 s m e loc_Exact =
    settle s (round_nearest_even (shr_m (shr_fexp 53 1024 m e loc_Exact).1) (loc_of_shr_record (shr_fexp 53 1024 m e loc_Exact).1))
      (shr_fexp 53 1024 m e loc_Exact).2) by (unfold binary_round_aux, settle; by destruct (shr_fexp 53 1024 m e loc_Exact)).
  rewrite Hround. unfold shr_fexp at 3. rewrite He. unfold shr_fexp. destruct (shr _ e _) as [r e1]. cbn [fst snd] in *.
  set (q := round_nearest_even (shr_m r) (loc_of_shr_record r)).
  assert (Hqq : rounded m (shift_of m e) q).
  { unfold rounded, q. rewrite <-Hq. destruct r as [x [] []]; cbn in Hr |- *; [right|destruct (Z.even x); [by left|right]|by left|by left]; (split; [done|by apply Hr]). }
  clearbody q. exists q. split; [done|].
  assert (Hk : 0 <= shift_of m e) by (unfold shift_of; lia).
  assert (Hq0 : 0 <= q) by (assert (0 <= m / 2 ^ shift_of m e) by (apply Z.div_pos; [lia|by apply pow2_pos]); destruct Hqq as [->|[-> _]]; lia).
  assert (He1 : -1074 <= e + shift_of m e <= 900) by (rewrite shift_of_val; pose proof (digits_pow m Hm); lia).
  destruct (rounded_canonical m e q Hm Hqq) as [->|Hc]; [by apply settle_carry|].
  destruct q as [|p|p]; [rewrite settle_zero; apply truncates_zero| |lia].
  rewrite settle_canonical by (done || lia). apply truncates_finite.
Qed.

(** ** Comparing a rounded product with a whole number *)

(** Rounding does not take a value at or above a number below it. *)
Lemma rounded_reaches m e q n :
  0 < m -> 0 < n <= 2 ^ 53 -> rounded m (shift_of m e) q -> below m e n = false -> below q (e + shift_of m e) n = false.
Proof.
  intros Hm Hn Hq Hb. pose proof (shift_of_val m e) as Hk. set (k := shift_of m e) in *. clearbody k.
  assert (Hk0 : 0 <= k) by lia. pose proof (pow2_pos k Hk0) as Hp.
  assert (Hql : m / 2 ^ k <= q) by (destruct Hq as [->|[-> _]]; lia).
  assert (Hcase : k = 0 \/ e + k <= 0 \/ 0 < k /\ 0 < e + k) by lia. destruct Hcase as [-> |[Hek|[Hkp Hek]]].
  - rewrite Z.pow_0_r, Z.div_1_r in Hql. rewrite Z.add_0_r. rewrite (below_scaled (Z.abs e)) in Hb |- * by lia.
    apply Z.ltb_ge in Hb. apply Z.ltb_ge. pose proof (pow2_pos (e + Z.abs e) ltac:(lia)). nia.
  - rewrite (below_scaled (- e)) in Hb by lia. rewrite Z.add_opp_diag_r, Z.pow_0_r, Z.mul_1_r in Hb. apply Z.ltb_ge in Hb.
    rewrite (below_scaled (- (e + k))) by lia. rewrite Z.add_opp_diag_r, Z.pow_0_r, Z.mul_1_r. apply Z.ltb_ge.
    replace (- e) with (- (e + k) + k) in Hb by lia. rewrite pow2_add in Hb by lia.
    etransitivity; [|exact Hql]. apply Z.div_le_lower_bound; [done|]. lia.
  - assert (Hm2 : 2 ^ 52 <= m / 2 ^ k).
    { destruct (digits_pow m Hm) as (Hd & Hlo & _). apply Z.div_le_lower_bound; [done|].
      rewrite Z.mul_comm, <-pow2_add by lia. etransitivity; [|exact Hlo]. apply Z.pow_le_mono_r; lia. }
    unfold below. replace (0 <=? e + k) with true by (symmetry; apply Z.leb_le; lia). apply Z.ltb_ge.
    assert (2 <= 2 ^ (e + k)) by (change 2 with (2 ^ 1) at 1; apply Z.pow_le_mono_r; lia). nia.
Qed.

(** It takes a value below a number of 30 bits to it only from within half a
    unit of its last place, 2^-24. *)
Lemma rounded_below m e q n :
  0 < m -> 0 < n <= 2 ^ 30 -> rounded m (shift_of m e) q ->
  below (m * 2 ^ 24) e (n * 2 ^ 24 - 1) = true -> below q (e + shift_of m e) n = true.
Proof.
  intros Hm Hn Hq Hb. pose proof (shift_of_val m e) as Hk. set (k := shift_of m e) in *. clearbody k.
  assert (Hk0 : 0 <= k) by lia. pose proof (pow2_pos k Hk0) as Hp.
  assert (Hlt : m * 2 ^ 24 * 2 ^ (e + Z.abs e + Z.abs (e + k) + 24) < (n * 2 ^ 24 - 1) * 2 ^ (Z.abs e + Z.abs (e + k) + 24)).
  { rewrite (below_scaled (Z.abs e + Z.abs (e + k) + 24)) in Hb by lia. apply Z.ltb_lt in Hb.
    by replace (e + Z.abs e + Z.abs (e + k) + 24) with (e + (Z.abs e + Z.abs (e + k) + 24)) by lia. }
  set (t := Z.abs e + Z.abs (e + k) + 24) in *. replace (e + Z.abs e + Z.abs (e + k) + 24) with (e + t) in Hlt by lia.
  assert (Ht : 24 <= t /\ 24 <= e + k + t /\ 24 <= e + t) by lia. 
  rewrite (below_scaled t) by lia. apply Z.ltb_lt.
  destruct (Z.eq_dec k 0) as [Hkz|Hkz].
  { rewrite Hkz in *. unfold rounded in Hq. rewrite Z.pow_0_r, Z.div_1_r, Z.mod_1_r in Hq. destruct Hq as [->|[_ ?]]; [|lia].
    rewrite Z.add_0_r. pose proof (pow2_pos t ltac:(lia)). change (2 ^ 24) with 16777216 in *. lia. }
  assert (He : e + k <= -23).
  { destruct (digits_pow m Hm) as (Hd & Hlo & _).
    assert (Hdig : Zdigits2 m + e <= 30); [|lia]. destruct (Z.le_gt_cases (Zdigits2 m + e) 30) as [|Hgt]; [done|exfalso].
    assert (Hbig : 2 ^ (30 + t) <= m * 2 ^ (e + t)); [|rewrite (pow2_add 30 t) in Hbig by lia; change (2 ^ 24) with 16777216 in *; change (2 ^ 30) with 1073741824 in *; nia].
    transitivity (2 ^ (Zdigits2 m - 1) * 2 ^ (e + t)); [|pose proof (pow2_pos (e + t)); nia].
    rewrite <-pow2_add by lia. apply Z.pow_le_mono_r; lia. }
  (* everything in units of 2^-t *)
  assert (Hpow : 2 ^ (e + k + t) = 2 ^ k * 2 ^ (e + t)) by (rewrite <-pow2_add by lia; f_equal; lia).
  pose proof (pow2_pos (e + t) ltac:(lia)) as Hpt. rewrite Hpow, Z.mul_assoc.
  assert (Hdm : m = 2 ^ k * (m / 2 ^ k) + m mod 2 ^ k) by (apply Z.div_mod; lia).
  pose proof (Z.mod_pos_bound m (2 ^ k) Hp) as Hmod. destruct Hq as [->|[-> Hhalf]]; [nia|].
  (* the half that was added is at most 2^-24 *)
  assert (Hhu : 2 ^ 24 * (2 ^ k * 2 ^ (e + t)) <= 2 * 2 ^ t).
  { rewrite <-Hpow. rewrite <-pow2_add by lia. change 2 with (2 ^ 1) at 2. rewrite <-pow2_add by lia. apply Z.pow_le_mono_r; lia. }
  set (a := 2 ^ k) in *. set (b := 2 ^ (e + t)) in *. set (c := 2 ^ t) in *. set (x := m / a) in *. set (r := m mod a) in *. clearbody a b c x r.
  (* (x + 1) a b = m b + (a - r) b <= m b + a b / 2 *)
  assert ((x + 1) * a * b * 2 <= 2 * (m * b) + a * b) by nia.
  change (2 ^ 24) with 16777216 in *. lia.
Qed.

(** Rounding at most doubles. *)
Lemma rounded_double m e q n :
  0 < m -> rounded m (shift_of m e) q -> below m e n = true -> below q (e + shift_of m e) (2 * n) = true.
Proof.
  intros Hm Hq Hb. assert (Hk : 0 <= shift_of m e) by (unfold shift_of; lia). set (k := shift_of m e) in *. clearbody k.
  pose proof (pow2_pos k Hk) as Hp. rewrite (below_scaled (Z.abs e)) in Hb by lia. rewrite (below_scaled (Z.abs e)) by lia.
  apply Z.ltb_lt in Hb. apply Z.ltb_lt. replace (e + k + Z.abs e) with (k + (e + Z.abs e)) by lia. rewrite pow2_add by lia.
  pose proof (pow2_pos (e + Z.abs e) ltac:(lia)) as Hpe. assert (Hdm : m = 2 ^ k * (m / 2 ^ k) + m mod 2 ^ k) by (apply Z.div_mod; lia).
  pose proof (Z.mod_pos_bound m (2 ^ k) Hp) as Hmod. rewrite Z.mul_assoc.
  pose proof (Z.mod_le m (2 ^ k) ltac:(lia) Hp) as Hrm.
  assert (q * 2 ^ k <= 2 * m) as Hqm; [|nia]. destruct Hq as [->|[-> Hhalf]]; rewrite ?Z.mul_add_distr_r, Z.mul_comm in *; lia.
Qed.

(** ** Integers and their products *)

(** The float of an integer of at most 53 bits has its value. *)
Lemma f64_of_Z_exact z : 0 < z < 2 ^ 53 -> exists p e, f64_of_Z z = S754_finite false p e /\ e <= 0 /\ Z.pos p = z * 2 ^ (- e).
Proof.
  destruct z as [|p|p]; [lia| |lia]. intros [_ Hlt]. unfold f64_of_Z, binary_normalize, binary_round.
  assert (Hd : Z.pos (digits2_pos p) <= 53) by (apply (digits_le (Z.pos p) 53); lia).
  destruct (digits_bounds p) as [Hlo Hhi].
  set (D := Z.pos (digits2_pos p)) in *. assert (Hf : exp64 (D + 0) = D - 53) by (unfold fexp, emin; lia). rewrite Hf. unfold shl_align.
  assert (HD : 0 < D) by done. clearbody D.
  destruct (D - 53 - 0) as [|d|d] eqn:Ed; [| lia|].
  - rewrite aux_fits; [exists p, 0; split; [done|]; split; [lia|cbn; lia]| |lia]. assert (D = 53) by lia. subst D.
    pose proof (digits_le (Z.pos p) 53 ltac:(lia) ltac:(lia) Hlt). unfold fexp, emin. lia.
  - pose proof (shift_up p d) as Hup. replace (Z.pos d) with (53 - D) in Hup by lia.
    rewrite aux_fits; [exists (Pos.iter xO p d), (D - 53); split; [done|]; split; [lia|]; by replace (- (D - 53)) with (53 - D) by lia| |lia].
    pose proof (digits_le (Z.pos (Pos.iter xO p d)) 53 ltac:(lia) ltac:(lia)). unfold fexp, emin.
    assert (Z.pos (Pos.iter xO p d) < 2 ^ 53); [|lia]. rewrite Hup. replace 53 with (D + (53 - D)) at 2 by lia. rewrite pow2_add by lia.
    pose proof (pow2_pos (53 - D) ltac:(lia)). nia.
Qed.

Lemma f64_of_Z_neg z : 0 < z -> f64_of_Z (- z) = match f64_of_Z z with S754_finite _ p e => S754_finite true p e | S754_infinity _ => S754_infinity true | S754_zero _ => S754_zero true | S754_nan => S754_nan end.
Proof.
  destruct z as [|p|p]; [lia| |lia]. intros _. change (- Z.pos p) with (Z.neg p). unfold f64_of_Z, binary_normalize, binary_round.
  destruct (shl_align _ _ _) as [m e]. unfold binary_round_aux. destruct (shr_fexp _ _ _ e _) as [r e1]. destruct (shr_fexp _ _ _ e1 _) as [r2 e2].
  destruct (shr_m r2); [done| |done]. by destruct (e2 <=? _).
Qed.

(** The truncation of the product of an integer and a float, as the bounds it is
    below: exact comparisons, up to the last place. *)
Lemma product_trunc (s : bool) z l el :
  0 < z < 2 ^ 53 -> below (z * Z.pos l) el (2 ^ 62) = true ->
  exists a, f_trunc (f64_mul (f64_of_Z (if s then - z else z)) (S754_finite false l el)) = Some (if s then - a else a) /\ 0 <= a < 2 ^ 63 /\
    forall n, 0 < n <= 2 ^ 30 ->
      (below (z * Z.pos l) el n = false -> n <= a) /\ (below (z * Z.pos l * 2 ^ 24) el (n * 2 ^ 24 - 1) = true -> a < n).
Proof.
  intros Hz Hb. destruct (f64_of_Z_exact z Hz) as (p & e & He & Hle & Hp).
  assert (Hsame : forall x n, 0 <= x -> below (Z.pos p * Z.pos l * 2 ^ x) (e + el) n = below (z * Z.pos l * 2 ^ x) el n).
  { intros x n Hx. rewrite Hp. replace (z * 2 ^ (- e) * Z.pos l * 2 ^ x) with (z * Z.pos l * 2 ^ x * 2 ^ (- e)) by ring.
    replace (e + el) with (el - (- e)) by lia. apply below_shift. lia. }
  assert (Hsame0 : forall n, below (Z.pos p * Z.pos l) (e + el) n = below (z * Z.pos l) el n)
    by (intros n; specialize (Hsame 0 n ltac:(lia)); by rewrite Z.pow_0_r, !Z.mul_1_r in Hsame).
  assert (Hmul : f64_mul (f64_of_Z (if s then - z else z)) (S754_finite false l el) = round64 s (Z.pos p * Z.pos l) (e + el) loc_Exact).
  { destruct s; [rewrite f64_of_Z_neg by lia|]; rewrite He; done. }
  rewrite <-Hsame0 in Hb. set (m := Z.pos p * Z.pos l) in *. assert (Hm : 0 < m) by lia. clearbody m.
  destruct (aux_spec s m (e + el) Hm) as (q & Hq & a & Ha & Ha0 & Hab).
  { destruct (digits_pow m Hm) as (Hd & Hlo & _). destruct (Z.le_gt_cases (Zdigits2 m + (e + el)) 900) as [|Hgt]; [done|exfalso].
    rewrite (below_scaled (Z.abs (e + el))) in Hb by lia. apply Z.ltb_lt in Hb. set (t := e + el) in *. clearbody t.
    assert (Hbig : 2 ^ (62 + Z.abs t) <= m * 2 ^ (t + Z.abs t)); [|rewrite (pow2_add 62) in Hbig by lia; lia].
    transitivity (2 ^ (Zdigits2 m - 1) * 2 ^ (t + Z.abs t)); [|pose proof (pow2_pos (t + Z.abs t)); nia].
    rewrite <-pow2_add by lia. apply Z.pow_le_mono_r; lia. }
  rewrite Hmul. exists a. split; [done|]. split.
  - split; [done|]. apply (rounded_double _ _ _ _ Hm Hq) in Hb. rewrite <-Hab in Hb by lia. apply Z.ltb_lt in Hb. done.
  - intros n Hn. split; intros Hbn.
    + rewrite <-Hsame0 in Hbn. apply (rounded_reaches m (e + el) q n Hm ltac:(lia) Hq) in Hbn. rewrite <-Hab in Hbn by lia. by apply Z.ltb_ge in Hbn.
    + rewrite <-Hsame in Hbn by lia. apply (rounded_below m (e + el) q n Hm ltac:(lia) Hq) in Hbn. rewrite <-Hab in Hbn by lia. by apply Z.ltb_lt in Hbn.
Qed.
