(* ===== verification/Text.v ===== *)
(** * Text of the configuration: case mapping, trimming, splitting, [strconv]

    The parts of [strings], [bytes] and [strconv] that the request builders
    use. Case mapping is exact on ASCII; on the rest of Unicode it is the table
    of the [unicode] package, a parameter ([UnicodeCase]). *)

From S2P Require Import Prelude GoStrings Utf8 GoVal.
From stdpp Require Import strings.

#[local] Open Scope Z_scope.

(** ** Case *)

Class UnicodeCase : Type := { upper_table : Z -> Z; lower_table : Z -> Z }.
Definition case_ascii : UnicodeCase := {| upper_table r := r; lower_table r := r |}.

Section case.
Context `{UnicodeCase}.

(** [unicode.ToUpper], [unicode.ToLower]. *)
Definition rune_upper (r : Z) : Z :=
  if (97 <=? r) && (r <=? 122) then r - 32 else if r <=? 127 then r else upper_table r.
Definition rune_lower (r : Z) : Z :=
  if (65 <=? r) && (r <=? 90) then r + 32 else if r <=? 127 then r else lower_table r.

(** [strings.ToUpper], [strings.ToLower]. *)
Definition ToUpper (s : string) : string := encode (rune_upper <$> runes_of s).
Definition ToLower (s : string) : string := encode (rune_lower <$> runes_of s).
End case.

(** ** Trimming *)

(** [strings.ReplaceAll] of one byte by one byte. *)
Fixpoint replace_byte (a b : ascii) (s : string) : string :=
  match s with
  | EmptyString => ""
  | String c s => String (if Ascii.eqb c a then b else c) (replace_byte a b s)
  end.

(** [unicode.IsSpace]. *)
Definition is_space (r : Z) : bool :=
  existsb (Z.eqb r) [9; 10; 11; 12; 13; 32; 133; 160; 5760; 8232; 8233; 8239; 8287; 12288]
  || (8192 <=? r) && (r <=? 8202).

(** Offset of the first rune that is not a space; end of the last one. *)
Fixpoint first_non_space (len : nat) (rs : list (nat * Z)) : nat :=
  match rs with
  | [] => len
  | (i, r) :: rs => if is_space r then first_non_space len rs else i
  end.
Fixpoint last_non_space (len acc : nat) (rs : list (nat * Z)) : nat :=
  match rs with
  | [] => acc
  | (_, r) :: rs =>
      let next := match rs with (j, _) :: _ => j | [] => len end in
      last_non_space len (if is_space r then acc else next) rs
  end.
(** [strings.TrimSpace]. *)
Definition trim_space (s : string) : string :=
  let n := String.length s in
  let a := first_non_space n (range_string s) in
  sslice a (Nat.max a (last_non_space n 0 (range_string s))) s.

Example trim_space_ex : trim_space "  a b	 " = "a b" /\ trim_space " " = "" /\ trim_space "x" = "x".
Proof. by vm_compute. Qed.

(** [bytes.Trim] with a set of ASCII characters. *)
Definition in_set (set : list ascii) (c : ascii) : bool := existsb (Ascii.eqb c) set.
Fixpoint trim_set_left (set : list ascii) (s : string) : string :=
  match s with
  | EmptyString => ""
  | String c t => if in_set set c then trim_set_left set t else s
  end.
Fixpoint trim_set_right (set : list ascii) (s : string) : string :=
  match s with
  | EmptyString => ""
  | String c t =>
      match trim_set_right set t with
      | EmptyString => if in_set set c then "" else String c ""
      | t => String c t
      end
  end.
Definition bytes_Trim (set : list ascii) (s : string) : string := trim_set_right set (trim_set_left set s).

(** ** Splitting *)

(** The text before and after the first occurrence of [sep]. *)
Fixpoint cut_string (sep s : string) : option (string * string) :=
  if has_prefix sep s then Some ("", sdrop (String.length sep) s)
  else match s with
       | EmptyString => None
       | String c s => '(a, b) ← cut_string sep s; Some (String c a, b)
       end.
(** The first rune, for an empty separator. *)
Definition cut_rune (s : string) : option (string * string) :=
  match decode_rune s with
  | Some (_, w) => if String.eqb (sdrop w s) "" then None else Some (stake w s, sdrop w s)
  | None => None
  end.

(** [strings.SplitN(s, sep, 1+n)]; of the empty string with an empty separator
    it is the empty list. *)
Fixpoint splitn (n : nat) (sep s : string) : list string :=
  match n with
  | O => [s]
  | S n => match (if String.eqb sep "" then cut_rune s else cut_string sep s) with
           | Some (a, b) => a :: splitn n sep b
           | None => [s]
           end
  end.
Definition SplitN (s sep : string) (n : nat) : list string :=
  if String.eqb sep "" && String.eqb s "" then [] else splitn n sep s.

Example text_ex :
  trim_space " a b	" = "a b" /\ SplitN "/a:::json:::1:::2" ":::" 2 = ["/a"; "json"; "1:::2"]
  /\ ToUpper (H := case_ascii) "json_ietf" = "JSON_IETF" /\ replace_byte "-" "_" "on-change" = "on_change"
  /\ SplitN "abcd" "" 2 = ["a"; "b"; "cd"].
Proof. by vm_compute. Qed.

(** ** [strconv] *)

(** [strconv.ParseBool]. *)
Definition ParseBool (s : string) : option bool :=
  if existsb (String.eqb s) ["1"; "t"; "T"; "true"; "TRUE"; "True"] then Some true
  else if existsb (String.eqb s) ["0"; "f"; "F"; "false"; "FALSE"; "False"] then Some false
  else None.

(** [strconv.ParseInt(s, 10, w)]. *)
Definition ParseInt (w : Z) (s : string) : option Z :=
  let '(neg, body) :=
    match s with
    | String "+" t => (false, t)
    | String "-" t => (true, t)
    | _ => (false, s)
    end in
  if String.eqb body "" then None
  else
    n ← atoi_digits 0 body;
    let n := if neg : bool then - n else n in
    if (- 2 ^ (w - 1) <=? n) && (n <? 2 ^ (w - 1)) then Some n else None.

(** [strconv.ParseUint(s, 10, 64)]: no sign. *)
Definition ParseUint (s : string) : option Z :=
  if String.eqb s "" then None
  else n ← atoi_digits 0 s; if n <? 2 ^ 64 then Some n else None.

Example parse_ints : ParseInt 64 "-9223372036854775808" = Some (-9223372036854775808) /\ ParseUint "+1" = None
  /\ ParseInt 32 "2147483648" = None.
Proof. by vm_compute. Qed.

(** [strconv.Atoi] and [ParseInt] with 64 bits read the same integers. *)
Lemma ParseInt_atoi s : ParseInt 64 s = atoi s.
Proof.
  unfold ParseInt, atoi, in_kind. destruct (match s with "" => _ | String _ _ => _ end) as [neg body].
  destruct (String.eqb body ""); [done|]. destruct (atoi_digits 0 body) as [n|]; cbn -[Z.pow]; [|done].
  set (k := if neg then - n else n). change (kind_min KInt) with (- 2 ^ (64 - 1)).
  change (kind_max KInt) with (2 ^ (64 - 1) - 1).
  destruct (Z.leb_spec (- 2 ^ (64 - 1)) k); cbn [andb]; [|done].
  destruct (Z.ltb_spec k (2 ^ (64 - 1))), (Z.leb_spec k (2 ^ (64 - 1) - 1)); done || lia.
Qed.

(** A text of plain ASCII capitals is its own upper case. *)
Lemma ToUpper_fixed `{UnicodeCase} rs :
  valid_runes rs = true -> Forall (fun r => r <= 127 /\ ~ (97 <= r <= 122)) rs -> ToUpper (encode rs) = encode rs.
Proof.
  intros Hv Hrs. unfold ToUpper. rewrite runes_of_encode by done. f_equal.
  clear Hv. induction Hrs as [|r rs Hr _ IH]; cbn; [done|]. rewrite IH. f_equal.
  unfold rune_upper. zcases; done || lia.
Qed.

(** ** Case mapping and the replacement of dashes *)

Definition sub_dash (r : Z) : Z := if r =? 45 then 95 else r.
Abbreviation undash := (replace_byte "-" "_").

Lemma undash_app s t : undash (s +:+ t) = undash s +:+ undash t.
Proof. induction s as [|c s IH]; cbn; [done|]. by rewrite IH. Qed.

Lemma undash_length s : String.length (undash s) = String.length s.
Proof. induction s as [|c s IH]; cbn; [done|]. by rewrite IH. Qed.

Lemma undash_drop n s : sdrop n (undash s) = undash (sdrop n s).
Proof. revert s; induction n as [|n IH]; intros [|c s]; cbn; done || apply IH. Qed.

(** A byte outside ASCII is not a dash. *)
Lemma undash_high z s : 128 <= z < 256 -> undash (String (z_byte z) s) = String (z_byte z) (undash s).
Proof.
  intros Hz. cbn [replace_byte]. rewrite eqb_byte_z, byte_z_byte by lia.
  change (byte_z "-") with 45. by destruct (Z.eqb_spec z 45); [lia|].
Qed.

Lemma undash_rune r : undash (encode_rune r) = encode_rune (sub_dash r).
Proof.
  unfold sub_dash. destruct (Z.eqb_spec r 45) as [->|Hr]; [by vm_compute|].
  unfold encode_rune. set (q := if valid_rune r then r else rune_error).
  assert (0 <= q <= 1114111 /\ q <> 45) as [Hq Hd].
  { subst q. destruct (valid_rune r) eqn:Hv; [apply valid_rune_spec in Hv|cbv [rune_error]]; lia. }
  destruct (Z.leb_spec q 127).
  { cbn. rewrite eqb_byte_z, byte_z_byte by lia. change (byte_z "-") with 45. by destruct (Z.eqb_spec q 45). }
  repeat match goal with |- context [Z.leb ?a ?b] => destruct (Z.leb_spec a b) end;
    rewrite !undash_high; try done; Z.div_mod_to_equations; lia.
Qed.

Lemma undash_encode rs : undash (encode rs) = encode (sub_dash <$> rs).
Proof. induction rs as [|r rs IH]; cbn; [done|]. by rewrite undash_app, undash_rune, IH. Qed.

Lemma cont_sub lo hi z : 128 <= lo -> cont lo hi (sub_dash z) = cont lo hi z.
Proof. intros. unfold cont, sub_dash. zcases. Qed.

Lemma sub_high z : 128 <= z -> sub_dash z = z.
Proof. intros. unfold sub_dash. zcases. Qed.

Lemma cont_spec lo hi z : cont lo hi z = true <-> lo <= z <= hi.
Proof. unfold cont. rewrite andb_true_iff, !Z.leb_le. done. Qed.

Lemma byte_undash c s : undash (String c s) = String (z_byte (sub_dash (byte_z c))) (undash s).
Proof.
  cbn [replace_byte]. f_equal. rewrite eqb_byte_z. change (byte_z "-") with 45. unfold sub_dash.
  destruct (Z.eqb_spec (byte_z c) 45); [by vm_compute|]. by rewrite z_byte_z.
Qed.

Lemma decode_undash s :
  decode_rune (undash s) = (fun p => (sub_dash p.1, p.2)) <$> decode_rune s.
Proof.
  destruct s as [|c0 s]; [done|]. rewrite byte_undash. 
  assert (forall c, byte_z (z_byte (sub_dash (byte_z c))) = sub_dash (byte_z c)) as Hb.
  { intros c. apply byte_z_byte. pose proof (byte_z_range c). unfold sub_dash. zcases. }
  cbn [decode_rune]. rewrite Hb. destruct (Z.ltb_spec (byte_z c0) 128) as [H0|H0].
  { unfold sub_dash at 1. by destruct (Z.eqb_spec (byte_z c0) 45) as [->|]; [|destruct (Z.ltb_spec (byte_z c0) 128); [|lia]]. }
  rewrite (sub_high (byte_z c0)) by lia. destruct (Z.ltb_spec (byte_z c0) 128); [lia|].
  destruct s as [|c1 s]; [done|]. rewrite byte_undash, Hb, cont_sub by lia.
  destruct ((194 <=? byte_z c0) && (byte_z c0 <=? 223)) eqn:E2.
  { destruct (cont 128 191 (byte_z c1)) eqn:C1; [|done]. apply cont_spec in C1. apply andb_true_iff in E2 as [?%Z.leb_le _].
    unfold fmap, option_fmap, option_map, fst, snd. rewrite !sub_high by lia. done. }
  destruct s as [|c2 s]; [done|]. rewrite byte_undash, Hb. rewrite !cont_sub by (try case_match; lia).
  destruct ((224 <=? byte_z c0) && (byte_z c0 <=? 239)) eqn:E3.
  { destruct (cont _ _ (byte_z c1) && cont 128 191 (byte_z c2)) eqn:C; [|done].
    apply andb_true_iff in C as [C1%cont_spec C2%cont_spec]. apply andb_true_iff in E3 as [?%Z.leb_le _].
    assert (128 <= byte_z c1 /\ 128 <= (byte_z c0 - 224) * 4096 + (byte_z c1 - 128) * 64) as [? ?]
      by (revert C1; destruct (Z.eqb_spec (byte_z c0) 224); lia).
    unfold fmap, option_fmap, option_map, fst, snd. rewrite !sub_high by lia. done. }
  destruct s as [|c3 s]; [done|]. rewrite byte_undash, Hb. rewrite !cont_sub by (try case_match; lia).
  destruct ((240 <=? byte_z c0) && (byte_z c0 <=? 244)) eqn:E4; [|done].
  destruct (cont _ _ (byte_z c1) && cont 128 191 (byte_z c2) && cont 128 191 (byte_z c3)) eqn:C; [|done].
  apply andb_true_iff in C as [[C1%cont_spec C2%cont_spec]%andb_true_iff C3%cont_spec].
  apply andb_true_iff in E4 as [?%Z.leb_le _].
  assert (128 <= byte_z c1 /\ 128 <= (byte_z c0 - 240) * 262144 + (byte_z c1 - 128) * 4096) as [? ?]
    by (revert C1; destruct (Z.eqb_spec (byte_z c0) 240); lia).
  unfold fmap, option_fmap, option_map, fst, snd. rewrite !sub_high by lia. done.
Qed.

Lemma range_undash s : range_string (undash s) = (fun p => (p.1, sub_dash p.2)) <$> range_string s.
Proof.
  unfold range_string. rewrite undash_length. generalize (String.length s) as n, O as off.
  intros n; revert s; induction n as [|n IH]; intros s off; [done|]. cbn [runes_from].
  rewrite decode_undash. destruct (decode_rune s) as [[r w]|]; cbn; [|done]. by rewrite undash_drop, IH.
Qed.

Lemma runes_undash s : runes_of (undash s) = sub_dash <$> runes_of s.
Proof. unfold runes_of. rewrite range_undash, <-!list_fmap_compose. done. Qed.

(** No letter outside ASCII has the dash as its upper case. *)
Class UpperSpec `{UnicodeCase} : Prop := upper_dash : forall r, 127 < r -> upper_table r <> 45.

(** Dashes may be replaced before or after the letters are raised. *)
Lemma ToUpper_undash `{UpperSpec} s : ToUpper (undash s) = undash (ToUpper s).
Proof.
  unfold ToUpper. rewrite undash_encode, runes_undash, <-!list_fmap_compose. f_equal.
  apply list_fmap_ext. intros i r _. cbn. unfold rune_upper, sub_dash.
  pose proof (upper_dash r). destruct (Z.eqb_spec r 45) as [->|]; [done|].
  repeat match goal with |- context [Z.leb ?a ?b] => destruct (Z.leb_spec a b) end; cbn [andb];
    match goal with |- context [Z.eqb ?a 45] => destruct (Z.eqb_spec a 45); [lia|done] end.
Qed.

(** ** Addresses *)

(** [strings.LastIndexByte]. *)
Fixpoint last_index (c : ascii) (s : string) : option nat :=
  match s with
  | EmptyString => None
  | String x s => match last_index c s with
                  | Some i => Some (S i)
                  | None => if Ascii.eqb x c then Some 0%nat else None
                  end
  end.

(** [net.SplitHostPort]: host and port, [None] for an error. *)
Definition SplitHostPort (hostport : string) : option (string * string) :=
  i ← last_index ":" hostport;
  let port := sdrop (S i) hostport in
  match hostport with
  | String "[" rest =>
      e ← sindex "]" rest;
      if Nat.eqb (S (S e)) i && negb (scontains "[" rest) && negb (scontains "]" (sdrop (S e) rest))
      then Some (stake e rest, port) else None
  | _ =>
      let host := stake i hostport in
      if scontains ":" host || scontains "[" hostport || scontains "]" hostport then None else Some (host, port)
  end.

Example split_host : SplitHostPort "r1:57400" = Some ("r1", "57400") /\ SplitHostPort "[::1]:80" = Some ("::1", "80")
  /\ SplitHostPort "::1:80" = None /\ SplitHostPort "r1" = None /\ SplitHostPort "[::1]" = None /\ SplitHostPort ":80" = Some ("", "80").
Proof. by vm_compute. Qed.

(** [utils.GetHost] *)
Definition GetHost (hostport : string) : string :=
  match SplitHostPort hostport with Some (h, _) => h | None => hostport end.

(** [net.JoinHostPort] *)
Definition JoinHostPort (host port : string) : string :=
  if scontains ":" host then "[" +:+ host +:+ "]:" +:+ port else host +:+ ":" +:+ port.
