(* ===== verification/Event.v ===== *)
(** * Events (pkg/formatters/event.go, pkg/formatters/msg.go getValue)

    A gNMI notification becomes one event per update and one per delete: the
    path keys become tags, the value is flattened under the path name, the
    subscription's metadata is added, and the list goes through the configured
    event processors. [ToMap] and [EventFromMap] are the generic-map view that
    conditions and scripts use. JSON decoding and the flattener of nested JSON
    are code outside the repository: parameters ([EventEnv]). *)

From S2P Require Import Prelude GoStrings Utf8 Path GoVal.
From stdpp Require Import strings.

#[local] Open Scope Z_scope.

(** ** Data *)

Record EventMsg := mkEvent {
  ev_Name : string;
  ev_Timestamp : Z;
  ev_Tags : gomap string;
  ev_Values : gomap any;
  ev_Deletes : option (list string)
}.

(** [new(EventMsg)]. *)
Definition zeroEvent : EventMsg := mkEvent "" 0 None None None.

Definition with_tags (t : gomap string) (e : EventMsg) : EventMsg :=
  mkEvent (ev_Name e) (ev_Timestamp e) t (ev_Values e) (ev_Deletes e).
Definition with_values (v : gomap any) (e : EventMsg) : EventMsg :=
  mkEvent (ev_Name e) (ev_Timestamp e) (ev_Tags e) v (ev_Deletes e).
Definition with_ts (t : Z) (e : EventMsg) : EventMsg :=
  mkEvent (ev_Name e) t (ev_Tags e) (ev_Values e) (ev_Deletes e).

(** The gnmi messages the code reads. [NoVal] is a TypedValue whose oneof is
    not set. *)
Inductive TypedValue :=
| AsciiVal (s : string)
| BoolVal (b : bool)
| BytesVal (b : string)
| DecimalVal (digits precision : Z)
| FloatVal (f : spec_float)
| DoubleVal (f : spec_float)
| IntVal (z : Z)
| StringVal (s : string)
| UintVal (z : Z)
| LeaflistVal (l : list TypedValue)
| ProtoBytes (b : string)
| AnyVal (url : string)
| JsonIetfVal (b : string)
| JsonVal (b : string)
| NoVal.

Record Update := mkUpdate { upd_Path : option GPath; upd_Val : option TypedValue }.
Record Notification := mkNotification {
  n_Timestamp : Z;
  n_Prefix : option GPath;
  n_Update : list Update;
  n_Delete : list (option GPath)
}.
Inductive SubscribeResponse :=
| SR_Update (n : Notification)
| SR_Other.

Inductive event_error :=
| errJSON | errFlatten | errNameNotString | errTimestamp | errTags | errValues | errDeletes.

(** [json.Unmarshal] into an [interface{}] and the go-map-flattener library. *)
Class EventEnv : Type := {
  json_Unmarshal : string -> option any;
  Flatten : string -> gmap string any -> option (gmap string any)
}.

(** ** Tags of a path *)

(** The last piece of [strings.Split(name, ":")]. *)
Definition after_colon (name : string) : string :=
  List.last (split_byte c_colon name) "".

Section order.
Context `{MapOrder}.

(** The loop over the keys of one element. *)
Definition elemTags (name : string) (tags : gmap string string) (kv : string * string)
    : gmap string string :=
  let '(k, v) := kv in
  if String.eqb name "" then <[k := v]> tags
  else <[after_colon name +:+ ("_" +:+ k) := v]> tags.

Definition tagsOfElem (tags : gmap string string) (pe : PathElem) : gmap string string :=
  match pe_Key pe with
  | None => tags
  | Some m => foldl (elemTags (pe_Name pe)) tags (range m)
  end.

Definition pathName (p : GPath) : string :=
  (if String.eqb (p_Origin p) "" then "" else p_Origin p +:+ ":")
  +:+ foldr (fun pe s => (if String.eqb (pe_Name pe) "" then "" else "/" +:+ pe_Name pe) +:+ s)
        "" (p_Elem p).

Definition tagsFromGNMIPath (p : option GPath) : string * gomap string :=
  match p with
  | None => ("", None)
  | Some p =>
      let tags := foldl tagsOfElem ∅ (p_Elem p) in
      let tags := if String.eqb (p_Target p) "" then tags
                  else <["target" := p_Target p]> tags in
      (pathName p, Some tags)
  end.

(** The loop that adds the tags of an update's or delete's path to the prefix
    tags: a key already there with another value goes under a longer name. *)
Definition addPathTag (pathName : string) (tags : gmap string string) (kv : string * string)
    : gmap string string :=
  let '(k, v) := kv in
  match tags !! k with
  | Some vv => if String.eqb v vv then tags else <[pathName +:+ ("_" +:+ k) := v]> tags
  | None => <[k := v]> tags
  end.

Definition joinPath (prefix pathName : string) : string :=
  trim_right c_slash prefix +:+ ("/" +:+ trim_left c_slash pathName).

(** [addMetaTags]: writing to a nil tag map panics. *)
Definition addMetaTag (tags : gomap string) (kv : string * string) : go event_error (gomap string) :=
  let '(k, v) := kv in
  if String.eqb k "format" then Ok tags
  else match gm_get tags k with
       | Some _ => gm_set ("meta_" +:+ k) v tags
       | None => gm_set k v tags
       end.

Definition addMetaTags (e : EventMsg) (meta : gomap string) : go event_error EventMsg :=
  tags ← foldM addMetaTag (range (gm_tab meta)) (ev_Tags e);
  Ok (with_tags tags e).
End order.

(** ** Values *)

(** [normalizeEmptyRFC7951]: a null leaf is the presence of an empty leaf. *)
Fixpoint normalizeEmptyRFC7951 (v : any) : any :=
  match v with
  | ANil => ABool true
  | ASlice (Some [ANil]) => ABool true
  | ASlice (Some l) => ASlice (Some (map normalizeEmptyRFC7951 l))
  | AMap (Some m) => AMap (Some (normalizeEmptyRFC7951 <$> m))
  | _ => v
  end.

Section values.
Context `{EventEnv}.

Definition unmarshal (b : string) : go event_error any :=
  match json_Unmarshal b with Some v => Ok v | None => Err errJSON end.

(** [getValue]: the value of a scalar or of a leaf-list element. *)
Definition getValue (tv : option TypedValue) : go event_error any :=
  match tv with
  | None => Ok ANil
  | Some tv =>
      match tv with
      | AsciiVal s | StringVal s => Ok (AStr s)
      | BoolVal b => Ok (ABool b)
      | BytesVal b | ProtoBytes b => Ok (ABytes (Some b))
      | DecimalVal d p => Ok (ADecimal d p)
      | FloatVal f => Ok (AF32 f)
      | DoubleVal f => Ok (AF64 f)
      | IntVal z => Ok (AInt KInt64 z)
      | UintVal z => Ok (AInt KUint64 z)
      | LeaflistVal _ => Ok (AOther "*gnmi.ScalarArray")
      | AnyVal _ => Ok (AOther "*anypb.Any")
      | JsonIetfVal b | JsonVal b => if String.eqb b "" then Ok ANil else unmarshal b
      | NoVal => Ok ANil
      end
  end.

(** The JSON part of [getValueFlat]. *)
Definition jsonFlat (prefix b : string) : go event_error (gomap any) :=
  if String.eqb b "" then Ok (Some ∅)
  else
    value ← unmarshal b;
    match normalizeEmptyRFC7951 value with
    | AMap m =>
        match Flatten prefix (gm_tab m) with
        | Some values => Ok (Some values)
        | None => Err errFlatten
        end
    | value => Ok (Some {[prefix := value]})
    end.

Definition getValueFlat (prefix : string) (tv : option TypedValue) : go event_error (gomap any) :=
  match tv with
  | None => Ok None
  | Some tv =>
      let one v := Ok (Some {[prefix := v]}) in
      match tv with
      | AsciiVal s | StringVal s => one (AStr s)
      | BoolVal b => one (ABool b)
      | BytesVal b | ProtoBytes b => one (ABytes (Some b))
      | DecimalVal d p => one (AF64 (f64_div (f64_of_Z d) (pow10 p)))
      | FloatVal f => one (AF32 f)
      | DoubleVal f => one (AF64 f)
      | IntVal z => one (AInt KInt64 z)
      | UintVal z => one (AInt KUint64 z)
      | LeaflistVal l =>
          vs ← mapE (fun tv => getValue (Some tv)) l;
          one (ASlice (Some vs))
      | AnyVal _ => one (AOther "*anypb.Any")
      | JsonIetfVal b | JsonVal b => jsonFlat prefix b
      | NoVal => Ok (Some ∅)
      end
  end.
End values.

(** ** From notifications to events *)

Section events.
Context `{MapOrder} `{EventEnv}.

Definition eventTags (prefix : string) (p : option GPath) (tags : gomap string)
    : string * gmap string string :=
  let '(pathName, pTags) := tagsFromGNMIPath p in
  let pathName := joinPath prefix pathName in
  (pathName, foldl (addPathTag pathName) (gm_tab tags) (range (gm_tab pTags))).

Definition updateToEvent (name prefix : string) (ts : Z) (upd : Update) (tags : gomap string)
    : go event_error EventMsg :=
  let '(pathName, etags) := eventTags prefix (upd_Path upd) tags in
  values ← getValueFlat pathName (upd_Val upd);
  Ok (mkEvent name ts (Some etags) values None).

Definition deleteToEvent (name prefix : string) (ts : Z) (del : option GPath) (tags : gomap string)
    : EventMsg :=
  let '(pathName, etags) := eventTags prefix del tags in
  mkEvent name ts (Some etags) None (Some [pathName]).

(** The test [e != &EventMsg{}] compares a pointer with a new one and always
    holds: every event is kept. *)
Definition updatesToEvent (name prefix : string) (ts : Z) (upds : list Update)
    (tags meta : gomap string) : go event_error (list EventMsg) :=
  mapE (fun upd => e ← updateToEvent name prefix ts upd tags; addMetaTags e meta) upds.

Definition deletesToEvent (name prefix : string) (ts : Z) (dels : list (option GPath))
    (tags meta : gomap string) : go event_error (list EventMsg) :=
  mapE (fun del => addMetaTags (deleteToEvent name prefix ts del tags) meta) dels.

(** One call of each processor, in order. *)
Definition applyAll (eps : list (list (option EventMsg) -> go event_error (list (option EventMsg))))
    (evs : list (option EventMsg)) : go event_error (list (option EventMsg)) :=
  foldM (fun evs ep => ep evs) eps evs.

Definition notificationToEvents (name : string) (n : Notification) (meta : gomap string)
    : go event_error (list EventMsg) :=
  let '(namePrefix, prefixTags) := tagsFromGNMIPath (n_Prefix n) in
  uevs ← updatesToEvent name namePrefix (n_Timestamp n) (n_Update n) prefixTags meta;
  devs ← deletesToEvent name namePrefix (n_Timestamp n) (n_Delete n) prefixTags meta;
  Ok (uevs ++ devs).

Definition ResponseToEventMsgs (name : string) (rsp : option SubscribeResponse)
    (meta : gomap string) eps : go event_error (list (option EventMsg)) :=
  match rsp with
  | None | Some SR_Other => Ok []
  | Some (SR_Update n) =>
      evs ← notificationToEvents name n meta;
      applyAll eps (Some <$> evs)
  end.

Definition getNotifToEvents (meta : gomap string) (n : Notification)
    : go event_error (list EventMsg) :=
  let '(namePrefix, prefixTags) := tagsFromGNMIPath (n_Prefix n) in
  updatesToEvent "get-request" namePrefix (n_Timestamp n) (n_Update n) prefixTags meta.

Definition GetResponseToEventMsgs (rsp : option (list Notification)) (meta : gomap string) eps
    : go event_error (list (option EventMsg)) :=
  match rsp with
  | None => Ok []
  | Some ns =>
      evss ← mapE (getNotifToEvents meta) ns;
      applyAll eps (Some <$> concat evss)
  end.
End events.

(** ** The generic-map view *)

Definition non_empty_map {V} (m : gomap V) : option (gmap string V) :=
  match m with
  | Some t => if (size t =? 0)%nat then None else Some t
  | None => None
  end.

Definition set_if {V} (k : string) (o : option V) (m : gmap string V) : gmap string V :=
  match o with Some v => <[k := v]> m | None => m end.

Definition ToMap (e : option EventMsg) : gomap any :=
  match e with
  | None => None
  | Some e =>
      Some (
        set_if "deletes"
          (match ev_Deletes e with
           | Some (d :: ds) => Some (ASlice (Some (AStr <$> d :: ds)))
           | _ => None
           end) $
        set_if "values" ((fun v => AMap (Some v)) <$> non_empty_map (ev_Values e)) $
        set_if "tags" ((fun t => AMap (Some (AStr <$> t))) <$> non_empty_map (ev_Tags e)) $
        set_if "timestamp"
          (if ev_Timestamp e =? 0 then None else Some (AInt KInt64 (ev_Timestamp e))) $
        set_if "name" (if String.eqb (ev_Name e) "" then None else Some (AStr (ev_Name e))) ∅)
  end.

(** [num64]: signed kinds give an int64, unsigned kinds and float64 a uint64. *)
Definition num64 `{FloatConv} (v : any) : option (int_kind * Z) :=
  match v with
  | AInt k z => if kind_signed k then Some (KInt64, z) else Some (KUint64, z)
  | AF64 f => Some (KUint64, int_of_float KUint64 f)
  | _ => None
  end.

Definition EventFromMap `{FloatConv} (m : gomap any) : go event_error (option EventMsg) :=
  match m with
  | None => Ok None
  | Some m =>
      name ← match m !! "name" with
             | None => Ok ""
             | Some (AStr s) => Ok s
             | Some _ => Err errNameNotString
             end;
      ts ← match m !! "timestamp" with
           | None => Ok 0
           | Some v => match num64 v with
                       | None => Err errTimestamp
                       | Some (_, z) => Ok (int64 z)
                       end
           end;
      tags ← match m !! "tags" with
             | None => Ok None
             | Some (AStrMap t) => Ok t
             | Some (AMap t) => Ok (Some ((fun v => default "" (as_string v)) <$> gm_tab t))
             | Some _ => Err errTags
             end;
      values ← match m !! "values" with
               | None => Ok None
               | Some (AMap v) => Ok v
               | Some (AStrMap v) => Ok (Some (AStr <$> gm_tab v))
               | Some _ => Err errValues
               end;
      deletes ← match m !! "deletes" with
                | None => Ok None
                | Some (AStrs l) => Ok l
                | Some (ASlice l) =>
                    Ok (match omap as_string (default [] l) with [] => None | ds => Some ds end)
                | Some _ => Err errDeletes
                end;
      Ok (Some (mkEvent name ts tags values deletes))
  end.

(** ** Null leaves *)

Fixpoint no_nil (v : any) : bool :=
  match v with
  | ANil => false
  | ASlice (Some l) => forallb no_nil l
  | AMap (Some m) => map_fold (fun _ v b => no_nil v && b) true m
  | _ => true
  end.

Lemma no_nil_slice l : no_nil (ASlice (Some l)) = true <-> Forall (fun v => no_nil v = true) l.
Proof. cbn. rewrite forallb_forall, Forall_forall. by setoid_rewrite list_elem_of_In. Qed.

Lemma no_nil_map m : no_nil (AMap (Some m)) = true <-> map_Forall (fun _ v => no_nil v = true) m.
Proof. apply map_fold_andb. Qed.

Lemma normalize_slice l :
  normalizeEmptyRFC7951 (ASlice (Some l)) = ABool true \/
  normalizeEmptyRFC7951 (ASlice (Some l)) = ASlice (Some (normalizeEmptyRFC7951 <$> l)).
Proof. destruct l as [|[] [|]]; cbn; auto. Qed.

Lemma normalize_slice_no_nil l :
  no_nil (ASlice (Some l)) = true ->
  normalizeEmptyRFC7951 (ASlice (Some l)) = ASlice (Some (normalizeEmptyRFC7951 <$> l)).
Proof. by destruct l as [|[] [|]]. Qed.

(** Normalising a decoded JSON value leaves no null at any depth, and does
    not change a value that has none. *)
Theorem normalize_no_null (v : any) :
  no_nil (normalizeEmptyRFC7951 v) = true /\
  (no_nil v = true -> normalizeEmptyRFC7951 v = v).
Proof.
  induction v as [v Hs Hm|l IH|m IH] using any_ind'.
  - destruct v as [| | | | | |b|[l|]|l|[m|]|m|d p|t]; try done; naive_solver.
  - split.
    + destruct (normalize_slice l) as [->| ->]; [done|].
      apply no_nil_slice, Forall_fmap. eapply Forall_impl; [exact IH|]. by intros v [? _].
    + intros Hn. pose proof (proj1 (no_nil_slice l) Hn) as Hl.
      assert (normalizeEmptyRFC7951 <$> l = l) as El.
      { clear Hn. induction Hl as [|v l Hv Hl IHl]; [done|]. apply Forall_cons in IH as [[_ Hnv] IH].
        cbn. by rewrite Hnv, IHl. }
      rewrite normalize_slice_no_nil by done. by rewrite El.
  - split.
    + apply no_nil_map, map_Forall_fmap. intros k v Hv. by destruct (IH k v Hv).
    + intros Hn. cbn. do 2 f_equal. apply map_eq. intros k. rewrite lookup_fmap.
      destruct (m !! k) as [v|] eqn:E; [|done]. cbn. f_equal. apply (IH k v E).
      by apply (proj1 (no_nil_map m) Hn k).
Qed.

Lemma normalize_no_null_witness :
  let v := AMap (Some {["a" := ASlice (Some [ANil]); "b" := ANil; "c" := AStr "x"]}) in
  no_nil (normalizeEmptyRFC7951 v) = true /\
  normalizeEmptyRFC7951 (AStr "x") = AStr "x".
Proof.
  cbn zeta. split.
  - exact (proj1 (normalize_no_null _)).
  - apply (proj2 (normalize_no_null (AStr "x"))). reflexivity.
Defined.

(** ** Metadata *)

(** ** Metadata *)

Section meta.
Context `{MapOrder}.

(** What one metadata entry does to a tag table that is there. *)
Definition metaTag (tags : gmap string string) (kv : string * string) : gmap string string :=
  let '(k, v) := kv in
  if String.eqb k "format" then tags
  else match tags !! k with
       | Some _ => <["meta_" +:+ k := v]> tags
       | None => <[k := v]> tags
       end.

Lemma addMetaTag_some tags kv : addMetaTag (Some tags) kv = Ok (Some (metaTag tags kv)).
Proof.
  destruct kv as [k v]. unfold addMetaTag, metaTag. destruct (String.eqb k "format"); [done|].
  cbn [gm_get mbind option_bind gm_set]. by destruct (tags !! k).
Qed.

Lemma addMetaTags_some e tags meta :
  ev_Tags e = Some tags ->
  addMetaTags e meta = Ok (with_tags (Some (foldl metaTag tags (range (gm_tab meta)))) e).
Proof.
  intros He. unfold addMetaTags. rewrite He. generalize (range (gm_tab meta)). intros l. clear He.
  assert (forall tags, foldM addMetaTag l (Some tags) = Ok (Some (foldl metaTag tags l))) as Hf.
  { induction l as [|kv l IH]; intros t; [done|]. cbn [foldM foldl].
    rewrite addMetaTag_some. cbn [mbind go_bind]. apply IH. }
  by rewrite Hf.
Qed.

Lemma metaTag_keep tags kv q v :
  tags !! q = Some v -> has_prefix "meta_" q = false -> metaTag tags kv !! q = Some v.
Proof.
  destruct kv as [k w]. intros Hq Hp. unfold metaTag. case_match; [done|]. case_match.
  - destruct (decide ("meta_" +:+ k = q)) as [<-|]; [done|]. by rewrite lookup_insert_ne.
  - destruct (decide (k = q)) as [<-|]; [congruence|]. by rewrite lookup_insert_ne.
Qed.

Lemma metaTag_dom tags kv q : q ∈ dom tags -> q ∈ dom (metaTag tags kv).
Proof. destruct kv as [k w]. unfold metaTag. repeat case_match; rewrite ?dom_insert; set_solver. Qed.

Lemma metaTag_present tags kv : kv.1 <> "format" -> kv.1 ∈ dom (metaTag tags kv).
Proof.
  destruct kv as [k w]. cbn. intros Hf. unfold metaTag.
  destruct (String.eqb_spec k "format"); [done|]. case_match; rewrite dom_insert; [|set_solver].
  apply elem_of_union. right. apply elem_of_dom. by eexists.
Qed.

Lemma metaTag_new tags kv q :
  q ∈ dom (metaTag tags kv) -> q ∈ dom tags \/ q = kv.1 /\ q <> "format" \/ has_prefix "meta_" q = true.
Proof.
  destruct kv as [k w]. cbn. unfold metaTag. destruct (String.eqb_spec k "format"); [by left|].
  case_match; rewrite dom_insert, elem_of_union, elem_of_singleton.
  - intros [->|]; [|by left]. by right; right.
  - intros [->|]; [|by left]. right; left. done.
Qed.

Lemma foldl_metaTag_inv (P : gmap string string -> Prop) l tags :
  (forall t kv, kv ∈ l -> P t -> P (metaTag t kv)) -> P tags -> P (foldl metaTag tags l).
Proof.
  revert tags; induction l as [|kv l IH]; intros tags HP Ht; [done|]. cbn.
  apply IH; [intros; apply HP; by try right|]. apply HP; [left|done].
Qed.

(** Adding metadata to an event that has tags never panics and never
    changes an existing tag (other than one already named [meta_...]); every
    metadata key but [format] ends up as a tag, and no other name appears. *)
Theorem addMetaTags_spec (e : EventMsg) (tags : gmap string string) (meta : gomap string) :
  ev_Tags e = Some tags ->
  exists tags', addMetaTags e meta = Ok (with_tags (Some tags') e) /\
    (forall q v, tags !! q = Some v -> has_prefix "meta_" q = false -> tags' !! q = Some v) /\
    (forall q v, gm_get meta q = Some v -> q <> "format" -> q ∈ dom tags') /\
    (forall q, q ∈ dom tags' -> q ∈ dom tags \/ (is_Some (gm_get meta q) /\ q <> "format")
               \/ has_prefix "meta_" q = true).
Proof.
  intros He. eexists. split; [by apply addMetaTags_some|]. split_and!.
  - intros q v Hq Hp. apply (foldl_metaTag_inv (fun t => t !! q = Some v)); [|done].
    intros; by apply metaTag_keep.
  - intros q v Hq Hf. rewrite gm_get_tab in Hq. apply elem_of_range in Hq.
    apply list_elem_of_split in Hq as (l1 & l2 & El). rewrite El, foldl_app. cbn [foldl].
    apply (foldl_metaTag_inv (fun t => q ∈ dom t)); [intros; by apply metaTag_dom|].
    by apply (metaTag_present _ (q, v)).
  - intros q Hq. revert Hq. apply (foldl_metaTag_inv (fun t => q ∈ dom t -> _)); [|by left].
    intros t [k w] Hk IH Hq. apply metaTag_new in Hq as [Hq|[[-> Hf]|Hq]]; [by apply IH| |by auto].
    right; left. split; [|done]. rewrite gm_get_tab. apply elem_of_range in Hk. cbn. eauto.
Qed.
End meta.

Lemma addMetaTags_spec_witness :
  let e := mkEvent "sub" 1 (Some {["source" := "r1"]}) None None in
  exists tags', addMetaTags (H := order_bwd) e (Some {["source" := "x"; "format" := "event"]})
    = Ok (with_tags (Some tags') e) /\ tags' !! "source" = Some "r1".
Proof.
  cbn zeta.
  destruct (addMetaTags_spec (H := order_bwd) (mkEvent "sub" 1 (Some {["source" := "r1"]}) None None)
    {["source" := "r1"]} (Some {["source" := "x"; "format" := "event"]}) eq_refl) as (t & Ht & Hk & _).
  exists t. split; [exact Ht|]. apply Hk; reflexivity.
Defined.

(** ** Tags of updates and deletes *)

Section tags.
Context `{MapOrder}.

(** No tag name of the table [t] or of the path tags [p] is the long name the
    code would give to a clashing path tag. *)
Definition no_long_name (pathName : string) (t p : gmap string string) : Prop :=
  forall k k', k ∈ dom p -> k' ∈ dom t \/ k' ∈ dom p -> pathName +:+ ("_" +:+ k) <> k'.

(** What one path tag adds: nothing, itself, or itself under the long name. *)
Definition resolvedTag (pathName : string) (t : gmap string string) (kv : string * string)
    : option (string * string) :=
  match t !! kv.1 with
  | None => Some kv
  | Some w => if String.eqb kv.2 w then None else Some (pathName +:+ ("_" +:+ kv.1), kv.2)
  end.

Lemma addPathTag_resolved pn t kv :
  addPathTag pn t kv = match resolvedTag pn t kv with Some (k, v) => <[k := v]> t | None => t end.
Proof. destruct kv as [k v]. unfold addPathTag, resolvedTag. cbn. by repeat case_match. Qed.

(** The loop only depends on the table it started from: no entry it adds is
    read again. *)
Lemma addPathTags_resolved pn (t : gmap string string) l acc :
  NoDup l.*1 ->
  (forall kv, kv ∈ l -> acc !! kv.1 = t !! kv.1) ->
  (forall kv k', kv ∈ l -> k' ∈ l.*1 -> pn +:+ ("_" +:+ kv.1) <> k') ->
  foldl (addPathTag pn) acc l
  = foldl (fun a kv => <[kv.1 := kv.2]> a) acc (omap (resolvedTag pn t) l).
Proof.
  revert acc; induction l as [|[k v] l IH]; intros acc Hnd Hacc Hln; [done|].
  cbn [foldl fmap list_fmap fst] in *. apply NoDup_cons in Hnd as [Hk Hnd].
  assert (resolvedTag pn acc (k, v) = resolvedTag pn t (k, v)) as Er.
  { unfold resolvedTag. by rewrite (Hacc (k, v)) by left. }
  rewrite addPathTag_resolved, Er. cbn [omap list_omap].
  assert (forall a, (forall kv, kv ∈ l -> a !! kv.1 = acc !! kv.1) ->
    foldl (addPathTag pn) a l = foldl (fun a kv => <[kv.1 := kv.2]> a) a (omap (resolvedTag pn t) l)) as IH'.
  { intros a Ha. apply IH; [done| |].
    - intros kv Hkv. rewrite Ha by done. apply Hacc. by right.
    - intros kv k' Hkv Hk'. apply Hln; by right. }
  destruct (resolvedTag pn t (k, v)) as [[k1 v1]|] eqn:Ek; [|by apply IH'].
  apply IH'. intros [k2 v2] Hkv. cbn. apply lookup_insert_ne.
  assert (k2 ∈ l.*1) as Hk2 by (by apply (list_elem_of_fmap_2 fst _ (k2, v2))).
  unfold resolvedTag in Ek. cbn in Ek. destruct (t !! k) as [w|].
  - destruct (String.eqb v w); simplify_eq. eapply (Hln (k, _) k2); [left|by right].
  - simplify_eq. by intros ->.
Qed.

(** The name a path tag goes under. *)
Definition resolvedName (pn : string) (t : gmap string string) (k : string) : string :=
  match t !! k with None => k | Some _ => pn +:+ ("_" +:+ k) end.

Lemma resolvedTag_name pn t kv k v :
  resolvedTag pn t kv = Some (k, v) -> k = resolvedName pn t kv.1 /\ v = kv.2.
Proof.
  destruct kv as [k' v']. unfold resolvedTag, resolvedName. cbn. destruct (t !! k'); [|by intros [= -> ->]].
  case_match; [done|]. by intros [= <- <-].
Qed.

Lemma resolvedTags_NoDup pn t p l :
  no_long_name pn t p -> (forall k, k ∈ l.*1 -> k ∈ dom p) -> NoDup l.*1 ->
  NoDup (omap (resolvedTag pn t) l).*1.
Proof.
  intros Hln. induction l as [|[k v] l IH]; intros Hp Hnd; [constructor|]. cbn in *.
  apply NoDup_cons in Hnd as [Hk Hnd].
  assert (NoDup (omap (resolvedTag pn t) l).*1) as IH' by (apply IH; [intros; apply Hp; by right|done]).
  destruct (resolvedTag pn t (k, v)) as [[k1 v1]|] eqn:E; [|done].
  apply resolvedTag_name in E as [-> _]. cbn. apply NoDup_cons. split; [|done].
  intros ([k2 v2] & E2 & Hin)%list_elem_of_fmap. cbn in E2.
  apply list_elem_of_omap in Hin as ([k3 v3] & Hin & E).
  apply resolvedTag_name in E as [-> _]. cbn in E2.
  assert (k3 ∈ l.*1) as Hk3 by (by apply (list_elem_of_fmap_2 fst _ (k3, v3))).
  assert (k ∈ dom p) as Hkp by (apply Hp; left). assert (k3 ∈ dom p) as Hk3p by (apply Hp; by right).
  unfold resolvedName in E2. destruct (t !! k), (t !! k3).
  - apply (inj (String.append pn)), (inj (String.append "_")) in E2. by subst.
  - by apply (Hln k k3 Hkp); [right|].
  - by apply (Hln k3 k Hk3p); [right|].
  - by subst.
Qed.

Lemma addPathTags_union pn (t p : gmap string string) :
  no_long_name pn t p ->
  foldl (addPathTag pn) t (range p) = list_to_map (omap (resolvedTag pn t) (range p)) ∪ t
  /\ NoDup (omap (resolvedTag pn t) (range p)).*1.
Proof.
  intros Hln.
  assert (forall k, k ∈ (range p).*1 -> k ∈ dom p) as Hdom.
  { intros k ([k' v] & -> & Hk)%list_elem_of_fmap. apply elem_of_dom. apply elem_of_range in Hk. by eexists. }
  pose proof (NoDup_range_fst p) as Hnd.
  assert (NoDup (omap (resolvedTag pn t) (range p)).*1) as Hnd' by (by eapply resolvedTags_NoDup).
  split; [|done]. rewrite <-foldl_insert_list_to_map by done.
  apply addPathTags_resolved; [done|done|].
  intros [k v] k' Hk Hk'. apply Hln; [|by right; apply Hdom].
  apply Hdom. by apply (list_elem_of_fmap_2 fst _ (k, v)).
Qed.
End tags.

(** The keys of one element go under distinct tag names, so their order does
    not matter. *)
Lemma elemTags_comm name tags x y :
  x.1 <> y.1 -> elemTags name (elemTags name tags x) y = elemTags name (elemTags name tags y) x.
Proof.
  destruct x as [k v], y as [k' v']. cbn. intros Hne. destruct (String.eqb name ""); apply insert_insert_ne.
  - congruence.
  - intros E. apply (inj (String.append _)), (inj (String.append "_")) in E. congruence.
Qed.

Lemma tagsFromGNMIPath_order (o1 o2 : MapOrder) p :
  tagsFromGNMIPath (H := o1) p = tagsFromGNMIPath (H := o2) p.
Proof.
  destruct p as [[o l t]|]; [|done]. unfold tagsFromGNMIPath. cbn [p_Elem p_Target].
  assert (forall tags, foldl (tagsOfElem (H := o1)) tags l = foldl (tagsOfElem (H := o2)) tags l) as E;
    [|by rewrite E].
  induction l as [|[name [m|]] l IH]; intros tags; [done|..|apply IH].
  cbn [foldl]. rewrite IH. f_equal. unfold tagsOfElem. cbn [pe_Key pe_Name].
  apply foldl_perm_comm.
  - intros a [k v] [k' v'] Hx Hy Hne. apply elemTags_comm. cbn.
    apply elem_of_range in Hx, Hy. intros ->. congruence.
  - by rewrite !range_perm.
Qed.

(** The tags of an event keep every tag of the notification prefix; every
    key of the update's own path is there too, under its own name, or under
    the path-qualified name when the prefix has another value for it. *)
Theorem eventTags_spec (o : MapOrder) (prefix : string) (p : option GPath) (tags : gomap string)
    (pn : string) (t : gmap string string) :
  eventTags prefix p tags = (pn, t) ->
  no_long_name pn (gm_tab tags) (gm_tab (tagsFromGNMIPath p).2) ->
  (forall q v, gm_get tags q = Some v -> t !! q = Some v) /\
  (forall k v, gm_get (tagsFromGNMIPath p).2 k = Some v ->
     match gm_get tags k with
     | None => t !! k = Some v
     | Some w => if decide (v = w) then t !! k = Some v else t !! (pn +:+ ("_" +:+ k)) = Some v
     end).
Proof.
  unfold eventTags. destruct (tagsFromGNMIPath p) as [n pt] eqn:E. cbn [snd]. intros [= <- <-] Hln.
  set (t0 := gm_tab tags) in *. set (pm := gm_tab pt) in *.
  destruct (addPathTags_union _ _ _ Hln) as [-> Hnd]. set (L := omap _ _) in *.
  assert (forall q v, t0 !! q = Some v -> (list_to_map L ∪ t0) !! q = Some v) as Hkeep.
  { intros q v Hq. rewrite lookup_union_r; [done|]. apply not_elem_of_list_to_map_1.
    intros ([k w] & -> & Hk)%list_elem_of_fmap. apply list_elem_of_omap in Hk as ([k' v'] & Hk & Er).
    apply resolvedTag_name in Er as [-> ->]. apply elem_of_range in Hk. cbn in *. unfold resolvedName in Hq.
    destruct (t0 !! k') eqn:Et; [|congruence]. apply (Hln k' (joinPath prefix n +:+ "_" +:+ k')); [..|done].
    - apply elem_of_dom. by eexists.
    - left. apply elem_of_dom. by eexists. }
  split; intros k v; rewrite !gm_get_tab; [apply Hkeep|]. fold t0 pm. intros Hk.
  assert (forall k1, resolvedTag (joinPath prefix n) t0 (k, v) = Some (k1, v) ->
    (list_to_map L ∪ t0) !! k1 = Some v) as Hnew.
  { intros k1 Hr. apply lookup_union_Some_l, elem_of_list_to_map_1; [done|].
    apply list_elem_of_omap. exists (k, v). by rewrite elem_of_range. }
  unfold resolvedTag in Hnew. cbn [fst snd] in Hnew.
  destruct (t0 !! k) as [w|] eqn:Et; [|by apply Hnew].
  destruct (String.eqb_spec v w) as [->|]; case_decide; try done; [by apply Hkeep|by apply Hnew].
Qed.

Definition ex_prefix : GPath :=
  mkGPath "" [mkPathElem "interface" (Some {["name" := "e1"]})] "r1".
Definition ex_path : GPath :=
  mkGPath "" [mkPathElem "interface" (Some {["name" := "e2"]}); mkPathElem "sub" (Some {["id" := "0"]})] "".

Lemma eventTags_spec_witness :
  let tags := (tagsFromGNMIPath (H := order_bwd) (Some ex_prefix)).2 in
  exists pn t, eventTags (H := order_bwd) "/interface" (Some ex_path) tags = (pn, t) /\
    t !! "interface_name" = Some "e1" /\ t !! "target" = Some "r1" /\
    t !! "/interface/interface/sub_interface_name" = Some "e2" /\ t !! "sub_id" = Some "0".
Proof.
  cbn zeta. eexists _, _. split; [reflexivity|].
  assert (no_long_name "/interface/interface/sub" {["target" := "r1"; "interface_name" := "e1"]}
    {["interface_name" := "e2"; "sub_id" := "0"]}) as Hln.
  { intros k k' _ Hk' <-. rewrite !dom_insert_L, !dom_singleton_L in Hk'.
    destruct Hk' as [Hk'|Hk']; repeat (apply elem_of_union in Hk' as [Hk'|Hk']);
      apply elem_of_singleton in Hk'; discriminate. }
  destruct (eventTags_spec order_bwd "/interface" (Some ex_path)
    (tagsFromGNMIPath (H := order_bwd) (Some ex_prefix)).2 "/interface/interface/sub" _ eq_refl Hln) as [Hk Hn].
  split_and!.
  - apply Hk. reflexivity.
  - apply Hk. reflexivity.
  - exact (Hn "interface_name" "e2" eq_refl).
  - exact (Hn "sub_id" "0" eq_refl).
Defined.

Lemma eventTags_order (o1 o2 : MapOrder) prefix p tags :
  no_long_name (joinPath prefix (tagsFromGNMIPath (H := o1) p).1) (gm_tab tags)
    (gm_tab (tagsFromGNMIPath (H := o1) p).2) ->
  eventTags (H := o1) prefix p tags = eventTags (H := o2) prefix p tags.
Proof.
  unfold eventTags. rewrite (tagsFromGNMIPath_order o2 o1).
  destruct (tagsFromGNMIPath p) as [n pt]. cbn [fst snd]. intros Hln. f_equal.
  destruct (addPathTags_union (H := o1) _ _ _ Hln) as [-> Hnd].
  destruct (addPathTags_union (H := o2) _ _ _ Hln) as [-> Hnd'].
  f_equal. apply list_to_map_proper; [done|]. by rewrite !range_perm.
Qed.

(** ** The event list *)

Section event_list.
Context `{MapOrder} `{EventEnv}.

(** An event of notification [n]: its name, its time and the tags are there. *)
Definition event_of (name : string) (ts : Z) (e : EventMsg) : Prop :=
  ev_Name e = name /\ ev_Timestamp e = ts /\ is_Some (ev_Tags e).

Lemma addMetaTags_event name ts e e' meta :
  event_of name ts e -> addMetaTags e meta = Ok e' ->
  event_of name ts e' /\ ev_Values e' = ev_Values e /\ ev_Deletes e' = ev_Deletes e.
Proof.
  intros (? & ? & [t Ht]). rewrite (addMetaTags_some e t) by done. intros [= <-].
  by repeat split.
Qed.

Lemma addMetaTags_total name ts e meta :
  event_of name ts e -> exists e', addMetaTags e meta = Ok e'.
Proof. intros (_ & _ & [t Ht]). rewrite (addMetaTags_some e t) by done. eauto. Qed.

Lemma updateToEvent_event name prefix ts upd tags e :
  updateToEvent name prefix ts upd tags = Ok e ->
  event_of name ts e /\ ev_Deletes e = None /\
  getValueFlat (eventTags prefix (upd_Path upd) tags).1 (upd_Val upd) = Ok (ev_Values e).
Proof.
  unfold updateToEvent. destruct (eventTags _ _ _) as [pn t].
  intros (v & Hv & [= <-])%bind_ok. repeat split; [by eexists|done].
Qed.

Lemma deletesToEvent_total name prefix ts dels tags meta :
  exists evs, deletesToEvent name prefix ts dels tags meta = Ok evs /\
    Forall2 (fun del e => event_of name ts e /\ ev_Values e = None /\
      ev_Deletes e = Some [(eventTags prefix del tags).1]) dels evs.
Proof.
  unfold deletesToEvent. induction dels as [|del dels (evs & IH & HF)]; [by exists []|].
  assert (event_of name ts (deleteToEvent name prefix ts del tags)) as He.
  { unfold deleteToEvent. destruct (eventTags _ _ _). repeat split. by eexists. }
  destruct (addMetaTags_total _ _ _ meta He) as (e & Hm).
  exists (e :: evs). cbn. rewrite Hm. cbn. rewrite IH. split; [done|]. constructor; [|done].
  destruct (addMetaTags_event _ _ _ _ _ He Hm) as (? & Hv & Hd). split; [done|].
  rewrite Hv, Hd. unfold deleteToEvent. by destruct (eventTags _ _ _).
Qed.

(** C2: with no processors, a notification yields exactly one event per
    update followed by one per delete, in order, each carrying the
    subscription name, the notification's timestamp and a tag table; an
    update's event has the flattened value, a delete's event the deleted
    path. The only failures are those of decoding a value. *)
Theorem ResponseToEventMsgs_events (name : string) (n : Notification) (meta : gomap string) evs :
  ResponseToEventMsgs name (Some (SR_Update n)) meta [] = Ok evs ->
  exists uevs devs, evs = Some <$> (uevs ++ devs) /\
    Forall2 (fun upd e => event_of name (n_Timestamp n) e /\ ev_Deletes e = None /\
      let '(np, pt) := tagsFromGNMIPath (n_Prefix n) in
      getValueFlat (eventTags np (upd_Path upd) pt).1 (upd_Val upd) = Ok (ev_Values e))
      (n_Update n) uevs /\
    Forall2 (fun del e => event_of name (n_Timestamp n) e /\ ev_Values e = None /\
      let '(np, pt) := tagsFromGNMIPath (n_Prefix n) in
      ev_Deletes e = Some [(eventTags np del pt).1])
      (n_Delete n) devs.
Proof.
  unfold ResponseToEventMsgs, notificationToEvents. destruct (tagsFromGNMIPath (n_Prefix n)) as [np pt].
  intros (es & (uevs & Hu & (devs & Hd & [= <-])%bind_ok)%bind_ok & [= <-])%bind_ok.
  exists uevs, devs. split; [done|]. split.
  - apply mapE_ok in Hu. eapply Forall2_impl; [exact Hu|]. intros upd e (e0 & He & Hm)%bind_ok.
    apply updateToEvent_event in He as (He & Hdel & Hv).
    destruct (addMetaTags_event _ _ _ _ _ He Hm) as (? & -> & ->). done.
  - destruct (deletesToEvent_total name np (n_Timestamp n) (n_Delete n) pt meta) as (evs & E & HF).
    rewrite Hd in E. by injection E as <-.
Qed.

(** Every processor is called once, on what the one before it returned. *)
Lemma ResponseToEventMsgs_pipeline name n meta eps1 eps2 :
  ResponseToEventMsgs name (Some (SR_Update n)) meta (eps1 ++ eps2)
  = (evs ← ResponseToEventMsgs name (Some (SR_Update n)) meta eps1; applyAll eps2 evs).
Proof.
  unfold ResponseToEventMsgs, applyAll. destruct (notificationToEvents name n meta); cbn; [|done..].
  apply foldM_app.
Qed.
End event_list.

(** An environment for the witnesses: no JSON, a flattener that keeps the map. *)
Definition env_none : EventEnv := {| json_Unmarshal _ := None; Flatten _ m := Some m |}.

Lemma ResponseToEventMsgs_events_witness :
  let n := mkNotification 7 (Some ex_prefix)
    [mkUpdate (Some ex_path) (Some (UintVal 3))] [Some (mkGPath "" [mkPathElem "x" None] "")] in
  exists evs uevs devs, ResponseToEventMsgs (H := order_fwd) (H0 := env_none) "sub1" (Some (SR_Update n)) None [] = Ok evs
    /\ evs = Some <$> (uevs ++ devs) /\ length uevs = 1%nat /\ length devs = 1%nat.
Proof.
  cbn zeta. eexists.
  destruct (ResponseToEventMsgs_events (H := order_fwd) (H0 := env_none) "sub1"
    (mkNotification 7 (Some ex_prefix)
    [mkUpdate (Some ex_path) (Some (UintVal 3))] [Some (mkGPath "" [mkPathElem "x" None] "")]) None
    _ eq_refl) as (u & d & He & Hu & Hd).
  exists u, d. split; [reflexivity|]. split; [exact He|].
  split; [exact (eq_sym (Forall2_length _ _ _ Hu)) | exact (eq_sym (Forall2_length _ _ _ Hd))].
Defined.

(** ** The generic-map round trip *)

(** What an event looks like after the round trip: empty tables and an empty
    delete list come back as nil. *)
Definition canon_event (e : EventMsg) : EventMsg :=
  mkEvent (ev_Name e) (ev_Timestamp e) (non_empty_map (ev_Tags e)) (non_empty_map (ev_Values e))
    (match ev_Deletes e with Some [] => None | d => d end).

Lemma set_if_ne {V} k k' (o : option V) m : k <> k' -> set_if k o m !! k' = m !! k'.
Proof. intros. destruct o; cbn; [by rewrite lookup_insert_ne|done]. Qed.
Lemma set_if_eq {V} k (o : option V) (m : gmap string V) : m !! k = None -> set_if k o m !! k = o.
Proof. intros. destruct o; cbn; [by rewrite lookup_insert_eq|done]. Qed.

Lemma omap_as_string (l : list string) : omap as_string (AStr <$> l) = l.
Proof. induction l as [|s l IH]; [done|]. change (s :: omap as_string (AStr <$> l) = s :: l). by rewrite IH. Qed.

Lemma as_string_tab (t : gmap string string) : (fun v => default "" (as_string v)) <$> (AStr <$> t) = t.
Proof. rewrite <-map_fmap_compose. etrans; [|apply map_fmap_id]. by apply map_fmap_ext. Qed.

(** C11: converting an event to a generic map and back gives the event back, up
    to empty tables becoming nil, for any timestamp an int64 can hold. *)
Theorem event_map_roundtrip `{FloatConv} (e : EventMsg) :
  in_kind KInt64 (ev_Timestamp e) = true ->
  EventFromMap (ToMap (Some e)) = Ok (Some (canon_event e)).
Proof.
  destruct e as [name ts tags values dels]. cbn [ev_Timestamp]. intros Hts.
  unfold EventFromMap, ToMap. cbn [ev_Name ev_Timestamp ev_Tags ev_Values ev_Deletes].
  rewrite (set_if_ne "deletes" "name"), (set_if_ne "values" "name"), (set_if_ne "tags" "name"),
    (set_if_ne "timestamp" "name"), (set_if_ne "deletes" "timestamp"), (set_if_ne "values" "timestamp"),
    (set_if_ne "tags" "timestamp"), (set_if_ne "deletes" "tags"), (set_if_ne "values" "tags"),
    (set_if_ne "deletes" "values") by discriminate.
  rewrite (set_if_eq "name") by done.
  rewrite (set_if_eq "timestamp") by (by rewrite set_if_ne).
  rewrite (set_if_eq "tags") by (by rewrite !set_if_ne).
  rewrite (set_if_eq "values") by (by rewrite !set_if_ne).
  rewrite (set_if_eq "deletes") by (by rewrite !set_if_ne).
  unfold canon_event. cbn [ev_Name ev_Timestamp ev_Tags ev_Values ev_Deletes].
  replace (match (if String.eqb name "" then None else Some (AStr name)) with
    | Some (AStr s) => Ok s | Some _ => Err errNameNotString | None => Ok "" end)
    with (@Ok event_error string name) by (by destruct (String.eqb_spec name "") as [->|]).
  cbn [mbind go_bind].
  destruct (Z.eqb_spec ts 0) as [->|_]; cbn [num64 kind_signed mbind go_bind].
  2: rewrite (wrap_id KInt64 ts) by done.
  all: destruct (non_empty_map tags) as [t|]; cbn [fmap option_fmap option_map mbind go_bind gm_tab default id];
    rewrite ?as_string_tab;
    destruct (non_empty_map values) as [v|]; cbn [fmap option_fmap option_map mbind go_bind];
    destruct dels as [[|d ds]|]; cbn [mbind go_bind]; try done;
    change (default [] (Some ?l)) with l; by rewrite omap_as_string.
Qed.

Lemma event_map_roundtrip_witness :
  let e := mkEvent "sub" 42 (Some {["a" := "b"]}) (Some ∅) (Some ["/x"]) in
  in_kind KInt64 (ev_Timestamp e) = true /\
  EventFromMap (H := conv_amd64) (ToMap (Some e))
  = Ok (Some (mkEvent "sub" 42 (Some {["a" := "b"]}) None (Some ["/x"]))).
Proof.
  split; [reflexivity|].
  exact (event_map_roundtrip (H := conv_amd64)
    (mkEvent "sub" 42 (Some {["a" := "b"]}) (Some ∅) (Some ["/x"])) eq_refl).
Defined.
