(* ===== verification/Processor.v ===== *)
(** * The processor interface, conditions and shared loops

    What every event processor shares: the [EventProcessor] interface
    (pkg/formatters/processors.go) as a type class, compiled regular
    expressions, jq conditions (pkg/formatters/condition.go) and the in-place
    compaction loop. Regular-expression matching is a function of the compiled
    expression; compiling one, and parsing, compiling and running a jq query,
    are code outside the repository ([RegexpPkg], [Gojq]). Configurations are
    decoded by mapstructure ([Decode]). *)

From S2P Require Import Prelude GoStrings Utf8 Text GoVal Event.
From stdpp Require Import strings.

#[local] Open Scope Z_scope.

(** ** Interface *)

Abbreviation event := (option EventMsg).
Abbreviation events := (list event).

(** [Apply] may change the processor's own state; it returns the new list. *)
Class EventProcessor (P : Type) : Type := {
  Apply : P -> events -> go event_error (P * events) }.

(** A configured processor of any type, and a list of them run in order. *)
Inductive processor : Type :=
| Proc {P : Type} (ep : EventProcessor P) (p : P).

Definition runProc (pr : processor) (es : events) : go event_error (processor * events) :=
  match pr with
  | Proc ep p => '(p', es') ← Apply p es; Ok (Proc ep p', es')
  end.

Fixpoint runAll (prs : list processor) (es : events) : go event_error (list processor * events) :=
  match prs with
  | [] => Ok ([], es)
  | pr :: prs =>
      '(pr', es) ← runProc pr es;
      '(prs', es) ← runAll prs es;
      Ok (pr' :: prs', es)
  end.

(** An event as the pipeline passes it on: present, with a tag table. *)
Definition ok_event (e : event) : Prop :=
  match e with Some e => is_Some (ev_Tags e) | None => False end.

(** A processor whose state satisfies [inv] never fails or panics on such
    events, returns such events, and its new state satisfies [inv] too. *)
Class SafeProcessor {P} (ep : EventProcessor P) (inv : P -> Prop) : Prop := {
  safe_apply : forall p es, inv p -> Forall ok_event es ->
    exists p' es', Apply p es = Ok (p', es') /\ inv p' /\ Forall ok_event es' }.

(** A processor without state of its own. *)
Definition always {P} (_ : P) : Prop := True.

Lemma stateless_safe {P} (ep : EventProcessor P) :
  (forall p es, Forall ok_event es -> exists es', Apply p es = Ok (p, es') /\ Forall ok_event es') ->
  SafeProcessor ep always.
Proof. intros Hs. split. intros p es _ Hes. destruct (Hs p es Hes) as (es' & ? & ?). by exists p, es'. Qed.

Definition safe_proc (pr : processor) : Prop :=
  match pr with Proc ep p => exists inv, SafeProcessor ep inv /\ inv p end.

(** ** Configuration and initialisation *)

Inductive init_error :=
| errDecode | errJqParse | errJqCompile | errRegexp (s : string) | errConfig (msg : string)
| errPattern (field pattern : string)
| errSelectorRelative (s : string) | errSelectorEmptySegment (s : string).

(** [formatters.DecodeConfig] into a configuration of type [C]. *)
Class Decode (C : Type) : Type := { DecodeConfig : any -> option C }.

Definition decode {C} `{Decode C} (cfg : any) : go init_error C :=
  match DecodeConfig cfg with Some c => Ok c | None => Err errDecode end.

(** ** Regular expressions *)

Record Regexp := mkRegexp {
  re_String : string;
  MatchString : string -> bool;
  FindStringSubmatch : string -> list string;
  SubexpNames : list string;
  ReplaceAllString : string -> string -> string
}.

Class RegexpPkg : Type := { regexp_Compile : string -> option Regexp }.

Definition compile1 `{RegexpPkg} (s : string) : go init_error Regexp :=
  match regexp_Compile s with Some re => Ok re | None => Err (errRegexp s) end.

(** [compileRegex] and the loops of the [Init] methods: the first expression
    that does not compile is the error. *)
Definition compileRegex `{RegexpPkg} (l : list string) : go init_error (list Regexp) :=
  mapE compile1 l.

Lemma compileRegex_ok `{RegexpPkg} l res :
  compileRegex l = Ok res <-> Forall2 (fun s re => regexp_Compile s = Some re) l res.
Proof.
  unfold compileRegex. rewrite mapE_ok.
  split; intros Hl; (eapply Forall2_impl; [exact Hl|]); intros s re; unfold compile1; destruct (regexp_Compile s); congruence.
Qed.

(** Some expression of the list matches. *)
Definition matchesAny (s : string) (res : list Regexp) : bool :=
  existsb (fun re => MatchString re s) res.

(** Some expression of the list matches, for string values only. *)
Definition matchesString (v : any) (res : list Regexp) : bool :=
  match as_string v with Some s => matchesAny s res | None => false end.

(** The substring expressions the witnesses use: a literal, unanchored. *)
Fixpoint has_sub (p s : string) : bool :=
  has_prefix p s || match s with EmptyString => false | String _ s => has_sub p s end.
Definition lit_re (p : string) : Regexp :=
  mkRegexp p (has_sub p) (fun s => if has_sub p s then [p] else []) [""] (fun s _ => s).
Definition lit_pkg : RegexpPkg :=
  {| regexp_Compile s := if String.eqb s "(" then None else Some (lit_re s) |}.

(** ** Conditions (condition.go) *)

(** [base64.StdEncoding.EncodeToString]. *)
Definition b64_char (z : Z) : ascii :=
  z_byte (if z <? 26 then 65 + z else if z <? 52 then 71 + z else if z <? 62 then z - 4
          else if z =? 62 then 43 else 47).
Fixpoint base64 (s : string) : string :=
  match s with
  | EmptyString => ""
  | String a EmptyString =>
      let v := byte_z a * 16 in
      String (b64_char (v / 64)) (String (b64_char (v mod 64)) "==")
  | String a (String b EmptyString) =>
      let v := (byte_z a * 256 + byte_z b) * 4 in
      String (b64_char (v / 4096)) (String (b64_char (v / 64 mod 64))
        (String (b64_char (v mod 64)) "="))
  | String a (String b (String c s)) =>
      let v := byte_z a * 65536 + byte_z b * 256 + byte_z c in
      String (b64_char (v / 262144)) (String (b64_char (v / 4096 mod 64))
        (String (b64_char (v / 64 mod 64)) (String (b64_char (v mod 64)) (base64 s))))
  end.

Example base64_ex : base64 "foobar" = "Zm9vYmFy" /\ base64 "fo" = "Zm8=" /\ base64 "f" = "Zg==".
Proof. by vm_compute. Qed.

Inductive jq_result := JqErr | JqVal (v : any).

(** The gojq library, and the JSON round trip of a value it does not accept. *)
Class Gojq : Type := {
  jq_query : Type;
  jq_code : Type;
  jq_Parse : string -> option jq_query;
  jq_Compile : jq_query -> option jq_code;
  jq_Run : jq_code -> gomap any -> option jq_result;
  json_remarshal : any -> option any
}.

Inductive cond_error := errMarshal | errJqRun | errCondType.

Section condition.
Context `{Gojq}.

Definition cloneFallback (v : any) : go cond_error any :=
  match json_remarshal v with Some w => Ok w | None => Err errMarshal end.

Fixpoint cloneConditionValue (v : any) : go cond_error any :=
  match v with
  | ANil | ABool _ | AStr _ => Ok v
  | AInt k _ => match k with KUintptr => cloneFallback v | _ => Ok v end
  | AF64 f | AF32 f => if is_nan f || is_inf f then cloneFallback v else Ok v
  | ABytes None => Ok ANil
  | ABytes (Some b) => Ok (AStr (base64 b))
  | AMap None => Ok ANil
  | AMap (Some m) =>
      m' ← map_fold (fun k v acc =>
             acc ← acc; v' ← cloneConditionValue v; Ok (<[k := v']> acc)) (Ok ∅) m;
      Ok (AMap (Some m'))
  | AStrMap None => Ok ANil
  | AStrMap (Some m) => Ok (AMap (Some (AStr <$> m)))
  | ASlice None => Ok ANil
  | ASlice (Some l) =>
      l' ← mapE cloneConditionValue l; Ok (ASlice (Some l'))
  | AStrs None => Ok ANil
  | AStrs (Some l) => Ok (ASlice (Some (AStr <$> l)))
  | ADecimal _ _ | AOther _ => cloneFallback v
  end.

(** The assertion [cloned.(map[string]interface{})] panics on anything else. *)
Definition conditionInput (e : event) : go cond_error (gomap any) :=
  match ToMap e with
  | None => Ok None
  | Some m =>
      cloned ← cloneConditionValue (AMap (Some m));
      match cloned with AMap m' => Ok m' | _ => Panic end
  end.

Definition CheckCondition (code : option jq_code) (e : event) : go cond_error bool :=
  match code with
  | None => Ok true
  | Some code =>
      input ← conditionInput e;
      match jq_Run code input with
      | None => Ok false
      | Some JqErr => Err errJqRun
      | Some (JqVal (ABool b)) => Ok b
      | Some (JqVal _) => Err errCondType
      end
  end.

(** Parsing and compiling a condition in an [Init] method. *)
Definition initCondition (cond : string) : go init_error jq_code :=
  match jq_Parse cond with
  | None => Err errJqParse
  | Some q => match jq_Compile q with Some c => Ok c | None => Err errJqCompile end
  end.
End condition.

(** Nothing to parse: the gojq instance of the witnesses without conditions,
    and one whose programs are the names of tags that must be present. *)
Definition jq_tag : Gojq := {|
  jq_query := string;
  jq_code := string;
  jq_Parse s := Some s;
  jq_Compile s := Some s;
  jq_Run c m :=
    match gm_get m "tags" with
    | Some (AMap t) => Some (JqVal (ABool (bool_decide (is_Some (gm_get t c)))))
    | _ => Some JqErr
    end;
  json_remarshal v := None
|}.

(** ** What conditions see *)

(** The dynamic types gojq takes as input. *)
Fixpoint jq_native (v : any) : bool :=
  match v with
  | ANil | ABool _ | AStr _ => true
  | AInt k _ => match k with KUintptr => false | _ => true end
  | AF64 f | AF32 f => negb (is_nan f || is_inf f)
  | AMap (Some m) => map_fold (fun _ v b => jq_native v && b) true m
  | ASlice (Some l) => forallb jq_native l
  | _ => false
  end.

Lemma jq_native_map m : jq_native (AMap (Some m)) = true <-> map_Forall (fun _ v => jq_native v = true) m.
Proof. apply map_fold_andb. Qed.

Lemma jq_native_slice l : jq_native (ASlice (Some l)) = true <-> Forall (fun v => jq_native v = true) l.
Proof. cbn. rewrite forallb_forall, Forall_forall. by setoid_rewrite list_elem_of_In. Qed.

Section condition_lemmas.
Context `{Gojq}.

(** The map case of the copy, entry by entry. *)
Definition cloneMap (m : gmap string any) : go cond_error (gmap string any) :=
  map_fold (fun k v acc => acc ← acc; v' ← cloneConditionValue v; Ok (<[k := v']> acc)) (Ok ∅) m.

Lemma clone_map m :
  cloneConditionValue (AMap (Some m)) = (m' ← cloneMap m; Ok (AMap (Some m'))).
Proof. done. Qed.

Lemma cloneMap_ok m m' :
  cloneMap m = Ok m' ->
  forall k, match m !! k with
            | Some v => exists v', cloneConditionValue v = Ok v' /\ m' !! k = Some v'
            | None => m' !! k = None
            end.
Proof.
  unfold cloneMap. revert m'. induction m as [|i v m Hi Hfr IH] using map_first_key_ind; intros m'.
  - rewrite map_fold_empty. intros [= <-] k. by rewrite !lookup_empty.
  - rewrite map_fold_insert_first_key by done.
    intros (m1 & Hm & (v' & Hv & [= <-])%bind_ok)%bind_ok k.
    specialize (IH m1 Hm k). destruct (decide (i = k)) as [->|].
    + rewrite !lookup_insert_eq. eauto.
    + by rewrite !lookup_insert_ne.
Qed.

Lemma cloneMap_no_panic m :
  map_Forall (fun _ v => cloneConditionValue v <> Panic) m -> cloneMap m <> Panic.
Proof.
  unfold cloneMap. induction m as [|i v m Hi Hfr IH] using map_first_key_ind.
  - by rewrite map_fold_empty.
  - rewrite map_fold_insert_first_key by done. rewrite map_Forall_insert by done. intros [Hv Hm].
    destruct (map_fold _ _ m) eqn:E; cbn; [|done|by apply IH].
    by destruct (cloneConditionValue v).
Qed.

Lemma clone_no_panic v : cloneConditionValue v <> Panic.
Proof.
  assert (forall v, cloneFallback v <> Panic) as Hf.
  { intros w. unfold cloneFallback. by destruct (json_remarshal w). }
  induction v as [v Hs Hm|l IH|m IH] using any_ind'.
  - destruct v as [| | |[]|f|f|[b|]|[l|]|[l|]|[m|]|[m|]|d p|t]; cbn; try done; try apply Hf;
      try (by destruct (is_nan f || is_inf f); [apply Hf|]); naive_solver.
  - cbn. assert (mapE cloneConditionValue l <> Panic) by (apply mapE_no_panic; intros x Hx; by eapply Forall_forall in IH). by destruct (mapE cloneConditionValue l).
  - rewrite clone_map. pose proof (cloneMap_no_panic _ IH). by destruct (cloneMap m).
Qed.

(** The copy of an event that a condition runs on is made of types the
    query engine accepts only, at every depth, and building it never panics;
    when no value needs the JSON fallback it always succeeds. *)
Theorem conditionInput_native (e : event) :
  (forall v w, json_remarshal v = Some w -> jq_native w = true) ->
  conditionInput e <> Panic /\
  (forall m, conditionInput e = Ok (Some m) -> jq_native (AMap (Some m)) = true).
Proof.
  intros Hjson.
  assert (forall v w, cloneFallback v = Ok w -> jq_native w = true) as Hf.
  { intros v w. unfold cloneFallback. destruct (json_remarshal v) eqn:E; [|done]. intros [= <-]. eauto. }
  assert (forall v w, cloneConditionValue v = Ok w -> jq_native w = true) as Hn.
  { induction v as [v Hs Hm|l IH|m IH] using any_ind'; intros w.
    - destruct v as [| | |[]|f|f|[b|]|[l|]|[l|]|[m|]|[m|]|d p|t]; cbn; try (by intros [= <-]); try apply Hf;
        try (destruct (is_nan f || is_inf f) eqn:E; [apply Hf|intros [= <-]; cbn; by rewrite E]).
      + naive_solver.
      + intros [= <-]. apply jq_native_slice, Forall_fmap, Forall_forall. done.
      + naive_solver.
      + intros [= <-]. apply jq_native_map. intros k v. rewrite lookup_fmap.
        destruct (m !! k); cbn; [|done]. by intros [= <-].
    - cbn [cloneConditionValue]. intros (l' & Hl & [= <-])%bind_ok. apply jq_native_slice.
      apply mapE_ok in Hl. induction Hl as [|v w l l' Hv Hl IHl]; [constructor|].
      apply Forall_cons in IH as [Hv' IH]. constructor; auto.
    - rewrite clone_map. intros (m' & Hm & [= <-])%bind_ok. apply jq_native_map.
      intros k w Hw. pose proof (cloneMap_ok _ _ Hm k) as Hk. destruct (m !! k) as [v|] eqn:E; [|congruence].
      destruct Hk as (v' & Hv & Hk). simplify_eq. by apply (IH k v E). }
  unfold conditionInput. destruct (ToMap e) as [m|]; [|done].
  pose proof (clone_no_panic (AMap (Some m))) as Hp. rewrite clone_map in *.
  destruct (cloneMap m) as [m'| |] eqn:E; cbn in *; [|done..]. split; [done|].
  intros m1 [= <-]. apply (Hn (AMap (Some m)) (AMap (Some m'))). rewrite clone_map. by rewrite E.
Qed.
End condition_lemmas.

Lemma conditionInput_native_witness :
  let e := mkEvent "s" 1 (Some {["a" := "b"]}) (Some {["v" := ABytes (Some "foo"); "l" := AStrs (Some ["x"])]}) None in
  (forall v w, json_remarshal (Gojq := jq_tag) v = Some w -> jq_native w = true) /\
  conditionInput (H := jq_tag) (Some e) <> Panic.
Proof.
  cbn zeta. split; [discriminate|].
  refine (proj1 (conditionInput_native (H := jq_tag) _ _)). discriminate.
Defined.

(** ** In-place compaction

    [Apply] of the filters reads the slice and writes the kept elements back
    into it: [for _, e := range es { if keep(e) { es[i] = e; i++ } }], then
    clears the rest and returns [es[:i]]. [step] gives the element to keep, if
    any (event-keep changes the event it keeps). *)
Section compact.
Context {E : Type} (step : event -> go E (option event)).

(** [n] elements remain, from index [j]; [i] were kept. *)
Fixpoint compact_loop (n j i : nat) (arr : events) : go E (events * nat) :=
  match n with
  | O => Ok (arr, i)
  | S n =>
      match arr !! j with
      | None => Panic
      | Some e =>
          r ← step e;
          match r with
          | Some e' => compact_loop n (S j) (S i) (<[i := e']> arr)
          | None => compact_loop n (S j) i arr
          end
      end
  end.

(** The returned slice and the caller's backing array. *)
Definition compact (es : events) : go E (events * events) :=
  '(arr, i) ← compact_loop (length es) 0 0 es;
  let arr := take i arr ++ replicate (length es - i) None in
  Ok (take i arr, arr).

(** Reading never sees an element that was overwritten. *)
Lemma compact_loop_spec (f : event -> option event) kept mid rest :
  (forall e, e ∈ rest -> step e = Ok (f e)) ->
  exists tail, compact_loop (length rest) (length kept + length mid) (length kept) (kept ++ mid ++ rest)
  = Ok ((kept ++ omap f rest) ++ tail, (length kept + length (omap f rest))%nat).
Proof.
  revert kept mid; induction rest as [|e rest IH]; intros kept mid Hk; cbn [length compact_loop].
  - exists mid. cbn [omap list_omap]. rewrite !app_nil_r. by rewrite Nat.add_0_r.
  - rewrite (app_assoc kept mid), lookup_app_r by (rewrite length_app; lia).
    rewrite length_app, Nat.sub_diag. cbn [lookup list_lookup].
    rewrite Hk by left. cbn [mbind go_bind]. cbn [omap list_omap]. destruct (f e) as [e'|] eqn:Ef.
    + assert (exists mid', <[length kept := e']> ((kept ++ mid) ++ e :: rest) = (kept ++ [e']) ++ mid' ++ rest
        /\ length mid' = length mid) as (mid' & -> & Hlen).
      { rewrite <-app_assoc, (insert_app_r_alt kept _ (length kept)), Nat.sub_diag by lia.
        destruct mid as [|m mid]; cbn [app insert list_insert length].
        - exists []. split; [by rewrite <-app_assoc|done].
        - exists (mid ++ [e]). split; [by rewrite <-!app_assoc|rewrite length_app; cbn; lia]. }
      destruct (IH (kept ++ [e']) mid') as [tail Ht]; [intros; apply Hk; by right|].
      rewrite length_app, Hlen in Ht. cbn [length] in *. exists tail.
      replace (S (length kept + length mid)) with (length kept + 1 + length mid)%nat by lia.
      replace (S (length kept)) with (length kept + 1)%nat by lia.
      rewrite Ht, <-(app_assoc kept [e']). do 2 f_equal. cbn. lia.
    + destruct (IH kept (mid ++ [e])) as [tail Ht]; [intros; apply Hk; by right|].
      rewrite length_app in Ht. cbn [length] in *. exists tail.
      replace (S (length kept + length mid)) with (length kept + (length mid + 1))%nat by lia.
      rewrite <-(app_assoc mid [e]) in Ht. cbn [app] in Ht. by rewrite <-app_assoc, Ht.
Qed.

(** In-place compaction is [omap]; the freed tail of the caller's array is
    cleared. *)
Lemma compact_omap (f : event -> option event) es :
  (forall e, e ∈ es -> step e = Ok (f e)) ->
  compact es = Ok (omap f es, omap f es ++ replicate (length es - length (omap f es)) None).
Proof.
  intros Hk. unfold compact.
  destruct (compact_loop_spec f [] [] es Hk) as [tail Ht]. cbn in Ht. rewrite Ht. cbn [mbind go_bind].
  by rewrite !take_app_length.
Qed.
End compact.

(** ** Conditions never panic *)

Lemma CheckCondition_no_panic `{Gojq} code e : CheckCondition code e <> Panic.
Proof.
  destruct code as [c|]; cbn; [|done].
  destruct (conditionInput e) eqn:E; cbn.
  - destruct (jq_Run c a) as [[|[]]|]; done.
  - done.
  - exfalso. revert E. unfold conditionInput. destruct (ToMap e) as [m|]; [|done].
    pose proof (clone_no_panic (AMap (Some m))) as Hp. rewrite clone_map in *.
    by destruct (cloneMap m).
Qed.

(** A boolean of every element, in any order. *)
Lemma existsb_range `{MapOrder} {V} (f : string * V -> bool) (m : gmap string V) :
  existsb f (range m) = true <-> exists k v, m !! k = Some v /\ f (k, v) = true.
Proof.
  rewrite existsb_exists. split.
  - intros ([k v] & Hin%list_elem_of_In%elem_of_range & Hf). eauto.
  - intros (k & v & Hm & Hf). exists (k, v). split; [by apply list_elem_of_In, elem_of_range|done].
Qed.

Lemma existsb_range_order (o1 o2 : MapOrder) {V} (f : string * V -> bool) (m : gmap string V) :
  existsb f (range (MapOrder := o1) m) = existsb f (range (MapOrder := o2) m).
Proof. apply eq_true_iff_eq. by rewrite !existsb_range. Qed.

(** Deleting, while ranging over a map, the entries a test selects. *)
Definition delete_where {V} (del : string -> V -> bool) (m : gmap string V) (kv : string * V) : gmap string V :=
  if del kv.1 kv.2 then delete kv.1 m else m.

Lemma delete_where_filter `{MapOrder} {V} (del : string -> V -> bool) (m : gmap string V) :
  foldl (delete_where del) m (range m) = filter (fun kv => negb (del kv.1 kv.2)) m.
Proof.
  apply map_eq. intros k.
  assert (forall (l : list (string * V)) (acc : gmap string V),
    foldl (delete_where del) acc l !! k =
      if existsb (fun x => String.eqb x.1 k && del x.1 x.2) l then None else acc !! k) as Hl.
  { induction l as [|[i v] l IH]; intros acc; cbn; [done|]. rewrite IH. unfold delete_where; cbn.
    destruct (existsb _ l); [by rewrite orb_true_r|]. rewrite orb_false_r.
    destruct (del i v); [|by rewrite andb_false_r]. rewrite andb_true_r.
    destruct (String.eqb_spec i k) as [->|]; [apply lookup_delete_eq | by apply lookup_delete_ne]. }
  rewrite Hl. destruct (existsb _ (range m)) eqn:E.
  - symmetry. apply existsb_range in E as (i & v & Hm & Hd). cbn in Hd.
    apply andb_true_iff in Hd as [->%String.eqb_eq Hd].
    apply map_lookup_filter_None_2. right. intros w Hw. cbn in *. simplify_eq. rewrite Hd. cbn. tauto.
  - symmetry. destruct (m !! k) as [v|] eqn:Hk; [|apply map_lookup_filter_None_2; by left].
    apply map_lookup_filter_Some_2; [done|]. cbn. destruct (del k v) eqn:Hd; [|done].
    assert (existsb (fun x => String.eqb x.1 k && del x.1 x.2) (range m) = true); [|congruence].
    apply existsb_range. exists k, v. cbn. by rewrite String.eqb_refl, Hd.
Qed.
