(* ===== verification/Filters.v ===== *)
(** * Filtering processors: event-allow, event-drop, event-delete, event-keep

    [allow] and [drop] select whole events by a condition or by regular
    expressions over names and values; [deletep] and [keep] remove single
    values and tags. event-keep also selects values by absolute paths with
    wildcards, through a trie (event_keep/path_matcher.go). All of them range
    over Go maps; the theorems hold for every iteration order. *)

From S2P Require Import Prelude GoStrings Utf8 Path GoVal Text Event Processor.
From stdpp Require Import strings.

#[local] Open Scope Z_scope.

(** ** event-allow and event-drop *)

(** The configuration, and the processor [Init] makes of it. *)
Record filterConfig := mkFilterConfig {
  fc_Condition : string;
  fc_TagNames : list string;
  fc_ValueNames : list string;
  fc_Tags : list string;
  fc_Values : list string
}.
Record filter_proc `{Gojq} := mkFilter {
  f_Condition : string;
  f_tagNames : list Regexp;
  f_valueNames : list Regexp;
  f_tags : list Regexp;
  f_values : list Regexp;
  f_code : option jq_code
}.

Section allow_drop.
Context `{Gojq} `{MapOrder}.

(** The expressions compile in the order tag-names, tags, value-names, values;
    the condition is parsed and compiled even when it is empty. *)
Definition allow_Init `{RegexpPkg} `{Decode filterConfig} (cfg : any) : go init_error filter_proc :=
  c ← decode cfg;
  let cond := trim_space (fc_Condition c) in
  code ← initCondition cond;
  tagNames ← compileRegex (fc_TagNames c);
  tags ← compileRegex (fc_Tags c);
  valueNames ← compileRegex (fc_ValueNames c);
  values ← compileRegex (fc_Values c);
  Ok (mkFilter _ cond tagNames valueNames tags values (Some code)).

Definition drop_Init `{RegexpPkg} `{Decode filterConfig} (cfg : any) : go init_error filter_proc :=
  c ← decode cfg;
  let cond := trim_space (fc_Condition c) in
  code ← initCondition cond;
  tagNames ← compileRegex (fc_TagNames c);
  tags ← compileRegex (fc_Tags c);
  valueNames ← compileRegex (fc_ValueNames c);
  values ← compileRegex (fc_Values c);
  Ok (mkFilter _ cond tagNames valueNames tags values (Some code)).

(** The loops over the values and the tags of the event. *)
Definition filter_match (d : filter_proc) (e : EventMsg) : bool :=
  existsb (fun '(k, v) => matchesAny k (f_valueNames d) || matchesString v (f_values d))
    (range (gm_tab (ev_Values e)))
  || existsb (fun '(k, v) => matchesAny k (f_tagNames d) || matchesAny v (f_tags d))
       (range (gm_tab (ev_Tags e))).

Definition allow_allow (d : filter_proc) (e : event) : go event_error bool :=
  if negb (String.eqb (f_Condition d) "") then
    match CheckCondition (f_code d) e with
    | Ok b => Ok b
    | Err _ => Ok false
    | Panic => Panic
    end
  else match e with None => Panic | Some e => Ok (filter_match d e) end.

Definition allow_Apply (d : filter_proc) (es : events) : go event_error (events * events) :=
  compact (fun e => ok ← allow_allow d e; Ok (if ok : bool then Some e else None)) es.

Definition drop_drop (d : filter_proc) (e : event) : go event_error bool :=
  if negb (String.eqb (f_Condition d) "") then
    match CheckCondition (f_code d) e with
    | Ok b => Ok b
    | Err _ => Ok true
    | Panic => Panic
    end
  else match e with None => Panic | Some e => Ok (filter_match d e) end.

Definition drop_Apply (d : filter_proc) (es : events) : go event_error (events * events) :=
  compact (fun e => ok ← drop_drop d e; Ok (if negb ok then Some e else None)) es.

Definition allow_proc : EventProcessor filter_proc :=
  {| Apply d es := '(es, _) ← allow_Apply d es; Ok (d, es) |}.
Definition drop_proc : EventProcessor filter_proc :=
  {| Apply d es := '(es, _) ← drop_Apply d es; Ok (d, es) |}.
End allow_drop.

(** *** What they select *)

Definition some_match (s : string) (res : list Regexp) : Prop :=
  exists re, re ∈ res /\ MatchString re s = true.

Lemma matchesAny_spec s res : matchesAny s res = true <-> some_match s res.
Proof.
  unfold matchesAny, some_match. rewrite existsb_exists. by setoid_rewrite list_elem_of_In.
Qed.

Lemma matchesString_spec v res :
  matchesString v res = true <-> exists s, v = AStr s /\ some_match s res.
Proof.
  unfold matchesString. destruct (as_string v) as [s|] eqn:E.
  - rewrite matchesAny_spec. destruct v; cbn in E; try done. simplify_eq. naive_solver.
  - destruct v; cbn in *; naive_solver.
Qed.

(** An event the expressions select: one of its value names, string values,
    tag names or tag values matches. *)
Definition selected `{Gojq} (d : filter_proc) (e : EventMsg) : Prop :=
  (exists k v, gm_get (ev_Values e) k = Some v /\
     (some_match k (f_valueNames d) \/ exists s, v = AStr s /\ some_match s (f_values d)))
  \/ (exists k v, gm_get (ev_Tags e) k = Some v /\
     (some_match k (f_tagNames d) \/ some_match v (f_tags d))).

Lemma filter_match_spec `{Gojq} `{MapOrder} d e : filter_match d e = true <-> selected d e.
Proof.
  unfold filter_match, selected. rewrite orb_true_iff, !existsb_range.
  setoid_rewrite orb_true_iff. setoid_rewrite matchesAny_spec. setoid_rewrite matchesString_spec.
  by setoid_rewrite gm_get_tab.
Qed.

Lemma filter_match_order `{Gojq} (o1 o2 : MapOrder) d e :
  filter_match (H0 := o1) d e = filter_match (H0 := o2) d e.
Proof. apply eq_true_iff_eq. by rewrite !filter_match_spec. Qed.

(** The verdict on an event: [None] when its condition fails. *)
Definition verdict `{Gojq} (d : filter_proc) (e : EventMsg) : option bool :=
  if negb (String.eqb (f_Condition d) "") then
    match CheckCondition (f_code d) (Some e) with Ok b => Some b | _ => None end
  else Some (filter_match (H0 := order_fwd) d e).

Lemma allow_verdict `{Gojq} `{MapOrder} d e :
  allow_allow d (Some e) = Ok (bool_decide (verdict d e = Some true)).
Proof.
  unfold allow_allow, verdict. destruct (negb _).
  - pose proof (CheckCondition_no_panic (f_code d) (Some e)).
    by destruct (CheckCondition (f_code d) (Some e)) as [[]| |].
  - rewrite (filter_match_order _ order_fwd). by destruct (filter_match d e).
Qed.

Lemma drop_verdict `{Gojq} `{MapOrder} d e :
  drop_drop d (Some e) = Ok (bool_decide (verdict d e <> Some false)).
Proof.
  unfold drop_drop, verdict. destruct (negb _).
  - pose proof (CheckCondition_no_panic (f_code d) (Some e)).
    by destruct (CheckCondition (f_code d) (Some e)) as [[]| |].
  - rewrite (filter_match_order _ order_fwd). by destruct (filter_match d e).
Qed.

(** The sublist of present events with a given verdict. *)
Definition with_verdict `{Gojq} (d : filter_proc) (b : bool) (es : list EventMsg) : list EventMsg :=
  filter (fun e => verdict d e = Some b) es.

Lemma omap_filter {A} (P : A -> Prop) `{!forall x, Decision (P x)} (es : list A) :
  omap (fun e : option A => x ← e; if decide (P x) then Some (Some x) else None) (Some <$> es)
  = Some <$> filter P es.
Proof.
  induction es as [|e es IH]; [done|]. rewrite filter_cons.
  cbn [fmap list_fmap omap list_omap mbind option_bind]. case_decide; cbn [fmap list_fmap]; by rewrite IH.
Qed.

Definition verdict_is `{Gojq} (d : filter_proc) (b : bool) (e : event) : option event :=
  x ← e; if decide (verdict d x = Some b) then Some (Some x) else None.

Lemma allow_step `{Gojq} `{MapOrder} d e :
  (ok ← allow_allow d (Some e); Ok (if ok : bool then Some (Some e) else None))
  = Ok (E := event_error) (verdict_is d true (Some e)).
Proof. rewrite allow_verdict. cbn. by destruct (verdict d e) as [[]|]. Qed.

Lemma drop_step `{Gojq} `{MapOrder} d e :
  (ok ← drop_drop d (Some e); Ok (if negb ok then Some (Some e) else None))
  = Ok (E := event_error) (verdict_is d false (Some e)).
Proof. rewrite drop_verdict. cbn. by destruct (verdict d e) as [[]|]. Qed.

(** On present events, event-allow keeps exactly those with the verdict
    true and event-drop exactly those with the verdict false, in order, in any
    map iteration order; an event whose condition fails is kept by neither.
    Without a condition the verdict says whether an expression selects the
    event, so the two outputs partition the input. *)
Theorem allow_drop_partition `{Gojq} `{MapOrder} (d : filter_proc) (es : list EventMsg) :
  fst <$> allow_Apply d (Some <$> es) = Ok (Some <$> with_verdict d true es) /\
  fst <$> drop_Apply d (Some <$> es) = Ok (Some <$> with_verdict d false es) /\
  (f_Condition d = "" -> Forall (fun e => verdict d e = Some true <-> selected d e) es /\
     with_verdict d true es ++ with_verdict d false es ≡ₚ es).
Proof.
  split; [|split].
  - unfold allow_Apply, with_verdict. rewrite <-omap_filter.
    rewrite (compact_omap _ (verdict_is d true)); [done|].
    intros e (e' & -> & He)%list_elem_of_fmap. apply allow_step.
  - unfold drop_Apply, with_verdict. rewrite <-omap_filter.
    rewrite (compact_omap _ (verdict_is d false)); [done|].
    intros e (e' & -> & He)%list_elem_of_fmap. apply drop_step.
  - intros Hc. assert (forall e, verdict d e = Some (filter_match (H0 := order_fwd) d e)) as Hv.
    { intros e. unfold verdict. by rewrite Hc. }
    split.
    + apply Forall_forall. intros e _. rewrite Hv, <-(filter_match_spec (H0 := order_fwd)). split; congruence.
    + unfold with_verdict. induction es as [|e es IH]; [done|].
      rewrite !filter_cons, Hv. destruct (filter_match d e).
      * rewrite decide_True, decide_False by done. cbn. by rewrite IH.
      * rewrite decide_False, decide_True by done. rewrite <-Permutation_middle. by rewrite IH.
Qed.

Definition ex_event (t : string) (k : string) (v : any) : EventMsg :=
  mkEvent "sub" 7 (Some {["name" := t]}) (Some {[k := v]}) None.

Lemma allow_drop_partition_witness :
  let d := mkFilter jq_tag "" [lit_re "na"] [] [] [lit_re "up"] (Some "") in
  let e1 := ex_event "e0" "oper" (AStr "up") in
  let e2 := mkEvent "sub" 7 (Some ∅) (Some {["oper" := AStr "down"]}) None in
  f_Condition d = "" /\
  fst <$> allow_Apply (H0 := order_bwd) d [Some e1; Some e2] = Ok [Some e1] /\
  with_verdict d true [e1; e2] ++ with_verdict d false [e1; e2] ≡ₚ [e1; e2].
Proof.
  cbn zeta. split; [reflexivity|]. split; [vm_compute; reflexivity|].
  refine (proj2 (proj2 (proj2 (allow_drop_partition (H0 := order_bwd) _ _)) _)). reflexivity.
Defined.

Lemma omap_ok_event (f : event -> option event) es :
  Forall ok_event es -> (forall e e', ok_event e -> f e = Some e' -> ok_event e') ->
  Forall ok_event (omap f es).
Proof.
  intros Hes Hf. apply Forall_forall. intros e' (e & He & Hfe)%list_elem_of_omap.
  rewrite Forall_forall in Hes. eauto.
Qed.

Lemma verdict_is_ok `{Gojq} d b e e' : ok_event e -> verdict_is d b e = Some e' -> ok_event e'.
Proof.
  destruct e as [e|]; [|done]. unfold verdict_is; cbn. case_decide; [|done]. by intros ? [= <-].
Qed.

Lemma allow_safe `{Gojq} `{MapOrder} : SafeProcessor allow_proc always.
Proof.
  apply stateless_safe. intros d es Hes. cbn. unfold allow_Apply.
  rewrite (compact_omap _ (verdict_is d true)).
  - eexists. split; [done|]. apply omap_ok_event; [done|]. intros; by eapply verdict_is_ok.
  - intros [e|] He; [apply allow_step|]. rewrite Forall_forall in Hes. by apply Hes in He.
Qed.

Lemma drop_safe `{Gojq} `{MapOrder} : SafeProcessor drop_proc always.
Proof.
  apply stateless_safe. intros d es Hes. cbn. unfold drop_Apply.
  rewrite (compact_omap _ (verdict_is d false)).
  - eexists. split; [done|]. apply omap_ok_event; [done|]. intros; by eapply verdict_is_ok.
  - intros [e|] He; [apply drop_step|]. rewrite Forall_forall in Hes. by apply Hes in He.
Qed.

(** ** event-delete *)

Record deletepConfig := mkDeletepConfig {
  dc_Tags : list string; dc_Values : list string; dc_TagNames : list string; dc_ValueNames : list string
}.
Record deletep := mkDeletep {
  d_tags : list Regexp; d_values : list Regexp; d_tagNames : list Regexp; d_valueNames : list Regexp
}.

Definition delete_Init `{RegexpPkg} `{Decode deletepConfig} (cfg : any) : go init_error deletep :=
  c ← decode cfg;
  tags ← compileRegex (dc_Tags c);
  tagNames ← compileRegex (dc_TagNames c);
  values ← compileRegex (dc_Values c);
  valueNames ← compileRegex (dc_ValueNames c);
  Ok (mkDeletep tags values tagNames valueNames).

Section delete.
Context `{MapOrder}.

(** The two inner loops delete the entry once per expression that matches. *)
Definition deleteValue (d : deletep) (m : gmap string any) (kv : string * any) : gmap string any :=
  let '(k, v) := kv in
  let m := foldl (fun m re => if MatchString re k then delete k m else m) m (d_valueNames d) in
  foldl (fun m re => match as_string v with
                     | Some vs => if MatchString re vs then delete k m else m
                     | None => m
                     end) m (d_values d).
Definition deleteTag (d : deletep) (m : gmap string string) (kv : string * string) : gmap string string :=
  let '(k, v) := kv in
  let m := foldl (fun m re => if MatchString re k then delete k m else m) m (d_tagNames d) in
  foldl (fun m re => if MatchString re v then delete k m else m) m (d_tags d).

Definition delete_event (d : deletep) (e : event) : event :=
  e ← e;
  let e := with_values (vs ← ev_Values e; Some (foldl (deleteValue d) vs (range vs))) e in
  Some (with_tags (ts ← ev_Tags e; Some (foldl (deleteTag d) ts (range ts))) e).

Definition delete_Apply (d : deletep) (es : events) : events := delete_event d <$> es.
End delete.

Definition delete_proc `{MapOrder} : EventProcessor deletep :=
  {| Apply d es := Ok (d, delete_Apply d es) |}.

(** ** event-keep: the path matcher (path_matcher.go) *)

Inductive pathNode := mkPathNode {
  literals : gmap string pathNode;
  wildcard : option pathNode;
  terminal : bool
}.

Definition newPathNode : pathNode := mkPathNode ∅ None false.

(** The walk along the segments of one selector, creating the missing nodes,
    and the mark on the last one. [None]: an empty segment. *)
Fixpoint addSelector (segments : list string) (node : pathNode) : option pathNode :=
  match segments with
  | [] => Some (mkPathNode (literals node) (wildcard node) true)
  | segment :: segments =>
      if String.eqb segment "" then None
      else if String.eqb segment "*" then
        w ← addSelector segments (default newPathNode (wildcard node));
        Some (mkPathNode (literals node) (Some w) (terminal node))
      else
        child ← addSelector segments (default newPathNode (literals node !! segment));
        Some (mkPathNode (<[segment := child]> (literals node)) (wildcard node) (terminal node))
  end.

Definition compileSelector (root : pathNode) (selector : string) : go init_error pathNode :=
  match selector with
  | EmptyString => Err (errSelectorRelative selector)
  | String c rest =>
      if negb (Ascii.eqb c c_slash) then Err (errSelectorRelative selector)
      else match addSelector (split_byte c_slash rest) root with
           | Some root => Ok root
           | None => Err (errSelectorEmptySegment selector)
           end
  end.

Definition compilePathMatcher (selectors : list string) : go init_error (option pathNode) :=
  match selectors with
  | [] => Ok None
  | _ => Some <$> foldM compileSelector selectors newPathNode
  end.

(** [match] consumes one segment and the separator: [fuel] is more than the
    length of the value. *)
Fixpoint node_match (fuel : nat) (n : pathNode) (value : string) : bool :=
  match fuel with
  | O => false
  | S fuel =>
      let '(segment, remaining, more) := cut_byte c_slash value in
      let matchesRemaining n := if negb more then terminal n else node_match fuel n remaining in
      if String.eqb segment "" then false
      else match literals n !! segment with
           | Some child => matchesRemaining child
           | None => false
           end
           || match wildcard n with Some w => matchesRemaining w | None => false end
  end.

Definition pm_Match (m : option pathNode) (value : string) : bool :=
  match m with
  | None => false
  | Some root =>
      if (String.length value <? 2)%nat then false
      else match value with
           | String c rest => Ascii.eqb c c_slash && node_match (S (String.length rest)) root rest
           | EmptyString => false
           end
  end.

(** ** event-keep *)

Record keepConfig := mkKeepConfig {
  kc_Tags : list string; kc_Values : list string; kc_TagNames : list string;
  kc_ValueNames : list string; kc_ValueNamePaths : list string
}.
Record keep := mkKeep {
  k_tags : list Regexp; k_values : list Regexp; k_tagNames : list Regexp; k_valueNames : list Regexp;
  k_valueNamePaths : option pathNode
}.

Definition compilePatterns `{RegexpPkg} (field : string) (patterns : list string) : go init_error (list Regexp) :=
  mapE (fun pattern => match regexp_Compile pattern with
                       | Some re => Ok re
                       | None => Err (errPattern field pattern)
                       end) patterns.

Definition keep_Init `{RegexpPkg} `{Decode keepConfig} (cfg : any) : go init_error keep :=
  c ← decode cfg;
  tags ← compilePatterns "tags" (kc_Tags c);
  values ← compilePatterns "values" (kc_Values c);
  tagNames ← compilePatterns "tag-names" (kc_TagNames c);
  valueNames ← compilePatterns "value-names" (kc_ValueNames c);
  valueNamePaths ← compilePathMatcher (kc_ValueNamePaths c);
  Ok (mkKeep tags values tagNames valueNames valueNamePaths).

Section keep.
Context `{MapOrder}.

Definition filterValues (p : keep) : bool :=
  negb (nilb (k_valueNames p)) || negb (match k_valueNamePaths p with None => true | _ => false end)
  || negb (nilb (k_values p)).
Definition filterTags (p : keep) : bool := negb (nilb (k_tagNames p)) || negb (nilb (k_tags p)).

Definition keepValue (p : keep) (name : string) (value : any) : bool :=
  matchesAny name (k_valueNames p) || pm_Match (k_valueNamePaths p) name || matchesString value (k_values p).
Definition keepTag (p : keep) (name value : string) : bool :=
  matchesAny name (k_tagNames p) || matchesAny value (k_tags p).

Definition keep_event (p : keep) (e : EventMsg) : EventMsg :=
  let e := if filterValues p then
      with_values (m ← ev_Values e;
        Some (foldl (fun m '(k, v) => if keepValue p k v then m else delete k m) m (range m))) e
    else e in
  if filterTags p then
    with_tags (m ← ev_Tags e;
      Some (foldl (fun m '(k, v) => if keepTag p k v then m else delete k m) m (range m))) e
  else e.

(** Nothing left but a name and a timestamp. *)
Definition empty_event (e : EventMsg) : bool :=
  (gm_len (ev_Values e) =? 0)%nat && (gm_len (ev_Tags e) =? 0)%nat
  && (length (default [] (ev_Deletes e)) =? 0)%nat.

Definition keep_step (p : keep) (e : event) : go event_error (option event) :=
  match e with
  | None => Ok (Some None)
  | Some e => let e := keep_event p e in Ok (if empty_event e then None else Some (Some e))
  end.

Definition keep_Apply (p : keep) (es : events) : go event_error (events * events) :=
  if negb (filterValues p) && negb (filterTags p) then Ok (es, es)
  else compact (keep_step p) es.
End keep.

Definition keep_proc `{MapOrder} : EventProcessor keep :=
  {| Apply d es := '(es, _) ← keep_Apply d es; Ok (d, es) |}.

(** *** Deleting and keeping are complementary *)

Section delete_keep.
Context `{MapOrder}.

Lemma foldl_delete {A V} (f : A -> bool) k (m : gmap string V) l :
  foldl (fun m re => if f re then delete k m else m) m l = if existsb f l then delete k m else m.
Proof.
  revert m; induction l as [|a l IH]; intros m; cbn; [done|]. rewrite IH.
  destruct (f a), (existsb f l); cbn; try done. apply delete_delete_eq.
Qed.

Definition deletes_value (d : deletep) (k : string) (v : any) : bool :=
  matchesAny k (d_valueNames d) || matchesString v (d_values d).
Definition deletes_tag (d : deletep) (k v : string) : bool :=
  matchesAny k (d_tagNames d) || matchesAny v (d_tags d).

Lemma deleteValue_where d m kv : deleteValue d m kv = delete_where (deletes_value d) m kv.
Proof.
  destruct kv as [k v]. unfold deleteValue, delete_where, deletes_value, matchesString, matchesAny; cbn.
  rewrite (foldl_delete (fun re => MatchString re k)). destruct (as_string v) as [s|].
  - rewrite (foldl_delete (fun re => MatchString re s)).
    destruct (existsb _ (d_valueNames d)), (existsb _ (d_values d)); cbn; try done.
    apply delete_delete_eq.
  - rewrite orb_false_r. generalize (if existsb (fun re => MatchString re k) (d_valueNames d) then delete k m else m).
    intros m'. by induction (d_values d).
Qed.

Lemma deleteTag_where d m kv : deleteTag d m kv = delete_where (deletes_tag d) m kv.
Proof.
  destruct kv as [k v]. unfold deleteTag, delete_where, deletes_tag, matchesAny; cbn.
  rewrite (foldl_delete (fun re => MatchString re k)), (foldl_delete (fun re => MatchString re v)).
  destruct (existsb _ (d_tagNames d)), (existsb _ (d_tags d)); cbn; try done.
  apply delete_delete_eq.
Qed.

Lemma delete_values d e e1 :
  delete_event d (Some e) = Some e1 ->
  ev_Values e1 = filter (fun kv => negb (deletes_value d kv.1 kv.2)) <$> ev_Values e.
Proof.
  intros [= <-]. cbn. destruct (ev_Values e) as [m|]; cbn; [|done]. f_equal.
  rewrite <-delete_where_filter. apply foldl_ext. intros. apply deleteValue_where.
Qed.

Lemma delete_tags d e e1 :
  delete_event d (Some e) = Some e1 ->
  ev_Tags e1 = filter (fun kv => negb (deletes_tag d kv.1 kv.2)) <$> ev_Tags e.
Proof.
  intros [= <-]. cbn. destruct (ev_Tags e) as [m|]; cbn; [|done]. f_equal.
  rewrite <-delete_where_filter. apply foldl_ext. intros. apply deleteTag_where.
Qed.

Lemma keep_loop_filter {V} (f : string -> V -> bool) (m : gmap string V) :
  foldl (fun m '(k, v) => if f k v then m else delete k m) m (range m) = filter (fun kv => f kv.1 kv.2) m.
Proof.
  transitivity (foldl (delete_where (fun k v => negb (f k v))) m (range m)).
  - apply foldl_ext. intros m' [k v]. unfold delete_where; cbn. by destruct (f k v).
  - rewrite delete_where_filter. apply map_filter_ext. intros k v _. by rewrite negb_involutive.
Qed.

Lemma keep_values p e :
  ev_Values (keep_event p e) =
  if filterValues p then filter (fun kv => keepValue p kv.1 kv.2) <$> ev_Values e else ev_Values e.
Proof.
  unfold keep_event. destruct (filterTags p), (filterValues p); cbn; try done;
  (destruct (ev_Values e); cbn; [|done]); by rewrite keep_loop_filter.
Qed.

Lemma keep_tags p e :
  ev_Tags (keep_event p e) =
  if filterTags p then filter (fun kv => keepTag p kv.1 kv.2) <$> ev_Tags e else ev_Tags e.
Proof.
  unfold keep_event. destruct (filterTags p), (filterValues p); cbn; try done;
  (destruct (ev_Tags e); cbn; [|done]); by rewrite keep_loop_filter.
Qed.

(** [m] is the disjoint union of [m1] and [m2]. *)
Definition splits {V} (m m1 m2 : gomap V) : Prop :=
  gm_tab m1 ##ₘ gm_tab m2 /\ gm_tab m1 ∪ gm_tab m2 = gm_tab m.

Lemma filter_splits {V} (f g : string * V -> bool) (m : gomap V) :
  (forall kv, g kv = negb (f kv)) ->
  splits m ((filter (fun kv => f kv)) <$> m) ((filter (fun kv => g kv)) <$> m).
Proof.
  intros Hfg. unfold splits.
  destruct m as [m|]; cbn; [|split; [apply map_disjoint_empty_l | apply (left_id_L ∅ (∪))]].
  assert (filter (fun kv => g kv) m = filter (fun kv => ~ f kv) m) as ->.
  { apply map_filter_ext. intros k v _. rewrite Hfg. destruct (f (k, v)); cbn; naive_solver. }
  split; [apply map_disjoint_filter_complement | apply map_filter_union_complement].
Qed.

(** For the same expressions (some over values and some over tags, no
    paths), event-delete and event-keep split the fields of every event
    between them: each value and tag stays in exactly one of the two results,
    and name, timestamp and deletes are untouched. *)
Theorem delete_keep_complement (d : deletep) (p : keep) (e : EventMsg) :
  k_valueNames p = d_valueNames d -> k_values p = d_values d ->
  k_tagNames p = d_tagNames d -> k_tags p = d_tags d -> k_valueNamePaths p = None ->
  filterValues p = true -> filterTags p = true ->
  exists e1, delete_event d (Some e) = Some e1 /\
    splits (ev_Values e) (ev_Values (keep_event p e)) (ev_Values e1) /\
    splits (ev_Tags e) (ev_Tags (keep_event p e)) (ev_Tags e1) /\
    (ev_Name e1, ev_Timestamp e1, ev_Deletes e1) = (ev_Name e, ev_Timestamp e, ev_Deletes e) /\
    (ev_Name (keep_event p e), ev_Timestamp (keep_event p e), ev_Deletes (keep_event p e))
      = (ev_Name e, ev_Timestamp e, ev_Deletes e).
Proof.
  intros Hvn Hv Htn Ht Hp Hfv Hft.
  destruct (delete_event d (Some e)) as [e1|] eqn:He; [|done]. exists e1. split; [done|].
  rewrite (delete_values _ _ _ He), (delete_tags _ _ _ He), keep_values, keep_tags, Hfv, Hft.
  split; [|split; [|split]].
  - apply filter_splits. intros [k v]. unfold deletes_value, keepValue.
    rewrite Hvn, Hv, Hp; cbn. by rewrite orb_false_r.
  - apply filter_splits. intros [k v]. unfold deletes_tag, keepTag. by rewrite Htn, Ht.
  - by injection He as <-.
  - unfold keep_event. by rewrite Hfv, Hft.
Qed.
End delete_keep.

Lemma delete_keep_complement_witness :
  let d := mkDeletep [] [lit_re "up"] [lit_re "na"] [] in
  let p := mkKeep [] [lit_re "up"] [lit_re "na"] [] None in
  let e := mkEvent "s" 1 (Some {["name" := "e0"; "src" := "r1"]})
             (Some {["a" := AStr "up"; "b" := AInt KInt 3]}) None in
  exists e1, delete_event (H := order_fwd) d (Some e) = Some e1 /\
    ev_Values e1 = Some {["b" := AInt KInt 3]} /\
    splits (ev_Values e) (ev_Values (keep_event (H := order_fwd) p e)) (ev_Values e1).
Proof.
  cbn zeta.
  destruct (delete_keep_complement (H := order_fwd) (mkDeletep [] [lit_re "up"] [lit_re "na"] [])
    (mkKeep [] [lit_re "up"] [lit_re "na"] [] None)
    (mkEvent "s" 1 (Some {["name" := "e0"; "src" := "r1"]})
       (Some {["a" := AStr "up"; "b" := AInt KInt 3]}) None)
    eq_refl eq_refl eq_refl eq_refl eq_refl eq_refl eq_refl) as (e1 & He & Hs & _).
  exists e1. split; [exact He|]. split; [|exact Hs].
  vm_compute in He. injection He as <-. vm_compute. reflexivity.
Defined.

(** *** The path matcher accepts what a selector describes *)

(** One step of the walk, and the walk over the segments of a value. *)
Fixpoint accepts (segs : list string) (n : pathNode) : bool :=
  match segs with
  | [] => terminal n
  | s :: segs =>
      negb (String.eqb s "") &&
      (match literals n !! s with Some c => accepts segs c | None => false end
       || match wildcard n with Some w => accepts segs w | None => false end)
  end.

Lemma node_match_accepts fuel n value :
  (String.length value < fuel)%nat -> node_match fuel n value = accepts (split_byte c_slash value) n.
Proof.
  revert n value; induction fuel as [|fuel IH]; intros n value Hf; [lia|]. cbn [node_match].
  rewrite (cut_split c_slash value).
  destruct (cut_byte c_slash value) as [[s r] more] eqn:Hc. apply cut_length in Hc as [_ Hlen].
  destruct more; cbn [negb accepts].
  - destruct (String.eqb s ""); cbn; [done|]. specialize (Hlen eq_refl).
    destruct (literals n !! s), (wildcard n); by rewrite ?IH by lia.
  - by destruct (String.eqb s "").
Qed.

(** A selector's segment against a value's. *)
Definition seg_match (sel v : string) : bool :=
  negb (String.eqb v "") && (String.eqb sel "*" || String.eqb sel v).
Fixpoint segs_match (sel vs : list string) : bool :=
  match sel, vs with
  | [], [] => true
  | s :: sel, v :: vs => seg_match s v && segs_match sel vs
  | _, _ => false
  end.

Lemma accepts_new vs : accepts vs newPathNode = false.
Proof. destruct vs as [|v vs]; cbn; [done|]. rewrite lookup_empty. apply andb_false_r. Qed.

Lemma addSelector_accepts segs n n' vs :
  addSelector segs n = Some n' -> accepts vs n' = accepts vs n || segs_match segs vs.
Proof.
  revert n n' vs; induction segs as [|s segs IH]; intros n n' vs; cbn [addSelector].
  - intros [= <-]. destruct vs as [|v vs]; cbn; [by rewrite orb_true_r | by rewrite orb_false_r].
  - destruct (String.eqb_spec s "") as [|Hs]; [done|]. destruct (String.eqb_spec s "*") as [->|Hstar].
    + intros (w & Hw & [= <-])%bind_Some. destruct vs as [|v vs]; cbn; [by rewrite orb_false_r|].
      unfold seg_match. destruct (String.eqb_spec v ""); cbn; [done|]. rewrite (IH _ _ _ Hw).
      destruct (wildcard n); cbn; rewrite ?accepts_new; by rewrite ?orb_assoc.
    + intros (c & Hc & [= <-])%bind_Some. destruct vs as [|v vs]; cbn; [by rewrite orb_false_r|].
      unfold seg_match. destruct (String.eqb_spec v ""); cbn; [done|].
      rewrite (proj2 (String.eqb_neq s "*")) by done. cbn.
      destruct (String.eqb_spec s v) as [->|Hsv]; cbn.
      * rewrite lookup_insert_eq, (IH _ _ _ Hc).
        destruct (literals n !! v); cbn; rewrite ?accepts_new; cbn;
          destruct (segs_match segs vs); by rewrite ?orb_true_r, ?orb_false_r.
      * rewrite lookup_insert_ne by done. by rewrite orb_false_r.
Qed.

(** The segments of an absolute path; the walk starts after the slash. *)
Definition path_segs (s : string) : option (list string) :=
  match s with
  | String c rest => if Ascii.eqb c c_slash then Some (split_byte c_slash rest) else None
  | EmptyString => None
  end.
Definition path_selects (sel value : string) : bool :=
  match path_segs sel, path_segs value with
  | Some s, Some v => segs_match s v
  | _, _ => false
  end.

Lemma compileSelector_accepts root sel root' v vs :
  compileSelector root sel = Ok root' -> path_segs v = Some vs ->
  accepts vs root' = accepts vs root || path_selects sel v.
Proof.
  unfold compileSelector, path_selects. intros Hc Hv. rewrite Hv.
  destruct sel as [|c rest]; cbn in *; [done|].
  destruct (Ascii.eqb c c_slash); cbn in *; [|done].
  destruct (addSelector _ root) as [r|] eqn:Ha; [|done]. injection Hc as <-.
  by apply addSelector_accepts.
Qed.

Lemma foldM_selectors sels root root' v vs :
  foldM compileSelector sels root = Ok root' -> path_segs v = Some vs ->
  accepts vs root' = accepts vs root || existsb (fun sel => path_selects sel v) sels.
Proof.
  revert root; induction sels as [|s sels IH]; intros root; cbn.
  - intros [= <-] _. by rewrite orb_false_r.
  - intros (r & Hr & Hf)%bind_ok Hv. rewrite (IH _ Hf Hv), (compileSelector_accepts _ _ _ _ _ Hr Hv).
    by rewrite orb_assoc.
Qed.

(** A well-formed selector: absolute, without an empty segment. *)
Definition selector_ok (sel : string) : bool :=
  match path_segs sel with Some segs => forallb (fun s => negb (String.eqb s "")) segs | None => false end.

Lemma addSelector_total segs n :
  is_Some (addSelector segs n) <-> forallb (fun s => negb (String.eqb s "")) segs = true.
Proof.
  revert n; induction segs as [|s segs IH]; intros n; cbn [addSelector forallb]; [by split; eauto|].
  destruct (String.eqb s ""); cbn; [by split; [intros [? [=]]|]|].
  destruct (String.eqb s "*").
  - rewrite <-(IH (default newPathNode (wildcard n))).
    destruct (addSelector segs (default newPathNode (wildcard n))); cbn; split; intros [? [=]]; eauto.
  - rewrite <-(IH (default newPathNode (literals n !! s))).
    destruct (addSelector segs (default newPathNode (literals n !! s))); cbn; split; intros [? [=]]; eauto.
Qed.

Lemma compileSelector_total root sel : is_ok (compileSelector root sel) = selector_ok sel.
Proof.
  unfold compileSelector, selector_ok. destruct sel as [|c rest]; cbn; [done|].
  destruct (Ascii.eqb c c_slash); cbn; [|done].
  pose proof (addSelector_total (split_byte c_slash rest) root) as Ht.
  destruct (addSelector _ root); cbn; destruct (forallb _ _); try done.
  - by destruct Ht as [Ht _]; rewrite Ht.
  - by destruct (proj2 Ht eq_refl) as [? [=]].
Qed.

(** C12: a list of selectors compiles exactly when each is absolute and has no
    empty segment; the compiled matcher accepts a value name exactly when some
    selector describes it: the same number of segments, none of the value's
    empty, each equal to the selector's or facing a wildcard. *)
Theorem pathMatcher_spec (sels : list string) :
  is_ok (compilePathMatcher sels) = forallb selector_ok sels /\
  forall m, compilePathMatcher sels = Ok m ->
  forall v, pm_Match m v = existsb (fun sel => path_selects sel v) sels.
Proof.
  assert (forall l root, is_ok (foldM compileSelector l root) = forallb selector_ok l) as Htot.
  { induction l as [|s l IH]; intros root; cbn; [done|]. rewrite <-(compileSelector_total root).
    destruct (compileSelector root s); cbn; [apply IH|done..]. }
  assert (forall v, path_segs v = None -> existsb (fun sel => path_selects sel v) sels = false) as Hnone.
  { intros v Hv. induction sels as [|s l IH]; cbn; [done|]. unfold path_selects at 1. rewrite Hv, IH.
    by destruct (path_segs s). }
  split.
  - destruct sels as [|s l]; [done|]. rewrite <-(Htot _ newPathNode). cbn [compilePathMatcher].
    by destruct (foldM _ (s :: l) newPathNode).
  - intros m Hm v. destruct sels as [|s0 l]; [by injection Hm as <-|].
    cbn [compilePathMatcher] in Hm. destruct (foldM _ (s0 :: l) newPathNode) as [root| |] eqn:Hf; try done.
    injection Hm as <-. cbn [pm_Match].
    destruct (path_segs v) as [vs|] eqn:Hv.
    + rewrite <-(orb_false_l (existsb _ _)), <-(accepts_new vs), <-(foldM_selectors _ _ _ _ _ Hf Hv).
      destruct v as [|c rest]; [done|]. cbn in Hv. destruct (Ascii.eqb c c_slash) eqn:Hc; [|done].
      injection Hv as <-. destruct (String.length (String c rest) <? 2)%nat eqn:Hlen.
      * apply Nat.ltb_lt in Hlen. destruct rest; [done|cbn in Hlen; lia].
      * cbn [andb]. apply node_match_accepts. lia.
    + rewrite Hnone by done. destruct v as [|c rest]; [done|]. cbn in Hv |- *.
      destruct (Ascii.eqb c c_slash); [done|]. by destruct (String.length rest).
Qed.

Lemma pathMatcher_spec_witness :
  exists m, compilePathMatcher ["/interfaces/*/state"; "/system/name"] = Ok m /\
    pm_Match m "/interfaces/e0/state" = true /\ pm_Match m "/interfaces//state" = false /\
    pm_Match m "/system" = false.
Proof.
  eexists. split; [vm_compute; reflexivity|].
  split; [|split];
  (erewrite (proj2 (pathMatcher_spec ["/interfaces/*/state"; "/system/name"])); [|vm_compute; reflexivity];
   vm_compute; reflexivity).
Defined.

Lemma keep_safe `{MapOrder} : SafeProcessor keep_proc always.
Proof.
  apply stateless_safe. intros p es Hes. cbn. unfold keep_Apply.
  destruct (negb (filterValues p) && _); cbn; [by eexists|].
  rewrite (compact_omap _ (fun e => match e with
    | None => Some None
    | Some e => let e := keep_event p e in if empty_event e then None else Some (Some e) end)).
  - eexists. split; [done|]. apply omap_ok_event; [done|]. intros [e|] e' He; [|done]. cbn.
    destruct (empty_event _); [done|]. intros [= <-]. cbn. rewrite keep_tags.
    destruct (filterTags p); [|done]. by destruct He as [t ->]; cbn.
  - by intros [e|].
Qed.

Lemma delete_safe `{MapOrder} : SafeProcessor delete_proc always.
Proof.
  apply stateless_safe. intros d es Hes. cbn. eexists. split; [done|].
  apply Forall_fmap. eapply Forall_impl; [exact Hes|]. intros [e|] He; [|done]. cbn.
  by destruct He as [t ->]; cbn.
Qed.
