(* ===== verification/Tags.v ===== *)
(** * Tag processors: event-add-tag, event-extract-tags, event-to-tag,
      event-value-tag, event-value-tag-v2

    [addTag] adds configured tags to the events a condition or an expression
    selects; [extractTags] turns the named groups of a match into tags;
    [toTag] moves values to tags; [valueTag] copies the value of one event to
    the tags of the events whose tags include its own, within a batch (v1) or
    from then on (v2).

    The first two write to the tag map they range over: their loops are stated
    with [range_run], the relation of all outcomes the runtime allows, next to
    one executable outcome. Formatting of a value that is not a string, bool or
    integer is a parameter ([FmtEnv]). *)

From S2P Require Import Prelude GoStrings Utf8 Path GoVal Text Event Processor Filters.
From stdpp Require Import strings.

#[local] Open Scope Z_scope.

(** [fmt.Sprint] of one operand. *)
Class FmtEnv : Type := { fmt_other : any -> string }.
Definition Sprint `{FmtEnv} (v : any) : string :=
  match v with
  | AStr s => s
  | ABool b => format_bool b
  | AInt _ z => itoa z
  | ANil => "<nil>"
  | _ => fmt_other v
  end.
Definition fmt_none : FmtEnv := {| fmt_other _ := "?" |}.

(** ** event-add-tag *)

Record addTagConfig := mkAddTagConfig {
  ac_Condition : string;
  ac_Tags : list string; ac_Values : list string; ac_TagNames : list string;
  ac_ValueNames : list string; ac_Deletes : list string;
  ac_Overwrite : bool;
  ac_Add : gomap string
}.
Record addTag `{Gojq} := mkAddTag {
  a_Condition : string;
  a_tags : list Regexp; a_values : list Regexp; a_tagNames : list Regexp;
  a_valueNames : list Regexp; a_deletes : list Regexp;
  a_Overwrite : bool;
  a_Add : gomap string;
  a_code : option jq_code
}.

Section add_tag.
Context `{Gojq} `{MapOrder}.

Definition addTag_Init `{RegexpPkg} `{Decode addTagConfig} (cfg : any) : go init_error addTag :=
  c ← decode cfg;
  let cond := if String.eqb (ac_Condition c) "" then "" else trim_space (ac_Condition c) in
  code ← (if String.eqb (ac_Condition c) "" then Ok None else Some <$> initCondition cond);
  tags ← compileRegex (ac_Tags c);
  tagNames ← compileRegex (ac_TagNames c);
  values ← compileRegex (ac_Values c);
  valueNames ← compileRegex (ac_ValueNames c);
  deletes ← compileRegex (ac_Deletes c);
  Ok (mkAddTag _ cond tags values tagNames valueNames deletes (ac_Overwrite c) (ac_Add c) code).

(** [addTags]. *)
Definition addOneTag (p : addTag) (t : gmap string string) (kv : string * string) : gmap string string :=
  let '(nk, nv) := kv in
  if a_Overwrite p then <[nk := nv]> t
  else match t !! nk with Some _ => t | None => <[nk := nv]> t end.
Definition addTags (p : addTag) (e : EventMsg) : EventMsg :=
  with_tags (Some (foldl (addOneTag p) (gm_tab (ev_Tags e)) (range (gm_tab (a_Add p))))) e.

(** The bodies of the three loops. The second inner loop over a value's text
    leaves at the first expression, whether it matches or not. *)
Definition addTag_value (p : addTag) (e : EventMsg) (kv : string * any) : EventMsg :=
  let '(k, v) := kv in
  let e := if matchesAny k (a_valueNames p) then addTags p e else e in
  match a_values p, as_string v with
  | re :: _, Some vs => if MatchString re vs then addTags p e else e
  | _, _ => e
  end.
Definition addTag_tag (p : addTag) (e : EventMsg) (kv : string * string) : EventMsg :=
  let '(k, v) := kv in
  let e := if matchesAny k (a_tagNames p) then addTags p e else e in
  if matchesAny v (a_tags p) then addTags p e else e.
Definition addTag_delete (p : addTag) (e : EventMsg) (k : string) : EventMsg :=
  if matchesAny k (a_deletes p) then addTags p e else e.

Definition addTag_values (p : addTag) (e : EventMsg) : EventMsg :=
  foldl (addTag_value p) e (range (gm_tab (ev_Values e))).
Definition addTag_deletes (p : addTag) (e : EventMsg) : EventMsg :=
  foldl (addTag_delete p) e (default [] (ev_Deletes e)).

Definition ev_tag_tab (e : EventMsg) : gmap string string := gm_tab (ev_Tags e).

(** The loop over the tags, which [addTags] changes: one outcome, and all. A
    nil map that is replaced during the loop is still the one ranged over. *)
Definition addTag_tags (p : addTag) (e : EventMsg) : EventMsg :=
  match ev_Tags e with None => e | Some _ => for_range ev_tag_tab (addTag_tag p) e end.
Definition addTag_tags_run (p : addTag) (e e' : EventMsg) : Prop :=
  match ev_Tags e with None => e' = e | Some _ => range_run ev_tag_tab (addTag_tag p) e e' end.

Definition addTag_regex (p : addTag) (e : EventMsg) : EventMsg :=
  addTag_deletes p (addTag_tags p (addTag_values p e)).
Definition addTag_regex_run (p : addTag) (e e' : EventMsg) : Prop :=
  exists e1, addTag_tags_run p (addTag_values p e) e1 /\ e' = addTag_deletes p e1.

Definition addTag_event (p : addTag) (e : event) : go event_error event :=
  match e with
  | None => Ok None
  | Some e =>
      match a_code p with
      | Some code =>
          if negb (String.eqb (a_Condition p) "") then
            match CheckCondition (Some code) (Some e) with
            | Ok true => Ok (Some (addTags p e))
            | Ok false | Err _ => Ok (Some e)
            | Panic => Panic
            end
          else Ok (Some (addTag_regex p e))
      | None => Ok (Some (addTag_regex p e))
      end
  end.

Definition addTag_Apply (p : addTag) (es : events) : go event_error events := mapE (addTag_event p) es.
End add_tag.

Definition addTag_proc `{Gojq} `{MapOrder} : EventProcessor addTag :=
  {| Apply p es := es ← addTag_Apply p es; Ok (p, es) |}.

(** *** One pass, whatever the order *)

Section add_tag_lemmas.
Context `{Gojq} `{MapOrder}.
Implicit Types p : addTag.

(** What [addTags] does to the tags. *)
Lemma addTags_tab p e :
  ev_tag_tab (addTags p e) =
  if a_Overwrite p then gm_tab (a_Add p) ∪ ev_tag_tab e else ev_tag_tab e ∪ gm_tab (a_Add p).
Proof.
  unfold addTags, ev_tag_tab; cbn. destruct (a_Overwrite p) eqn:Ho.
  - rewrite <-(range_list_to_map (gm_tab (a_Add p))) at 2.
    rewrite <-foldl_insert_list_to_map by apply NoDup_range_fst.
    apply foldl_ext. intros t [k v]. cbn. by rewrite Ho.
  - rewrite <-(range_list_to_map (gm_tab (a_Add p))) at 2.
    pose proof (NoDup_range_fst (gm_tab (a_Add p))) as Hnd. revert Hnd.
    generalize (range (gm_tab (a_Add p))) as l, (gm_tab (ev_Tags e)) as t.
    induction l as [|[k v] l IH]; intros t Hnd; cbn; [by rewrite (right_id_L ∅ (∪))|].
    apply NoDup_cons in Hnd as [Hk Hnd]. rewrite IH by done. rewrite Ho.
    destruct (t !! k) eqn:Ht.
    + apply map_eq. intros i. rewrite !lookup_union. destruct (decide (i = k)) as [->|].
      * rewrite Ht. by rewrite !union_Some_l.
      * by rewrite lookup_insert_ne.
    + rewrite <-insert_union_l, insert_union_r by done. done.
Qed.

Lemma addTags_eq p e e' :
  ev_Name e = ev_Name e' -> ev_Timestamp e = ev_Timestamp e' -> ev_Values e = ev_Values e' ->
  ev_Deletes e = ev_Deletes e' -> ev_Tags e = ev_Tags e' -> e = e'.
Proof. destruct e, e'; cbn; congruence. Qed.

Lemma addTags_idem p e : addTags p (addTags p e) = addTags p e.
Proof.
  apply (addTags_eq p); try done. pose proof (addTags_tab p (addTags p e)) as Ht.
  unfold ev_tag_tab in Ht. cbn [addTags with_tags ev_Tags gm_tab default from_option id] in Ht |- *.
  f_equal. change (gm_tab (Some ?x)) with x in Ht. etrans; [exact Ht|].
  change (foldl (addOneTag p) (gm_tab (ev_Tags e)) (range (gm_tab (a_Add p)))) with (ev_tag_tab (addTags p e)).
  rewrite addTags_tab. destruct (a_Overwrite p).
  - rewrite (assoc_L (∪)). f_equal. apply map_union_idemp.
  - rewrite <-(assoc_L (∪)). f_equal. apply map_union_idemp.
Qed.

(** A loop whose body adds the tags when a test holds. *)
Lemma foldl_addTags {A} p (b : A -> bool) (l : list A) e :
  foldl (fun e x => if b x then addTags p e else e) e l = if existsb b l then addTags p e else e.
Proof.
  revert e; induction l as [|x l IH]; intros e; cbn; [done|]. rewrite IH.
  destruct (b x), (existsb b l); cbn; by rewrite ?addTags_idem.
Qed.

(** The test each loop makes of an entry. *)
Definition hit_value p (kv : string * any) : bool :=
  matchesAny kv.1 (a_valueNames p)
  || match a_values p, as_string kv.2 with re :: _, Some s => MatchString re s | _, _ => false end.
Definition hit_tag p (kv : string * string) : bool :=
  matchesAny kv.1 (a_tagNames p) || matchesAny kv.2 (a_tags p).

Lemma addTag_value_hit p e kv : addTag_value p e kv = if hit_value p kv then addTags p e else e.
Proof.
  destruct kv as [k v]. unfold addTag_value, hit_value; cbn.
  destruct (matchesAny k _), (a_values p) as [|re l], (as_string v) as [s|]; cbn; try done;
    destruct (MatchString re s); by rewrite ?addTags_idem.
Qed.

Lemma addTag_tag_hit p e kv : addTag_tag p e kv = if hit_tag p kv then addTags p e else e.
Proof.
  destruct kv as [k v]. unfold addTag_tag, hit_tag; cbn.
  destruct (matchesAny k _), (matchesAny v _); cbn; by rewrite ?addTags_idem.
Qed.

Definition hits p e : bool :=
  existsb (hit_value p) (range (gm_tab (ev_Values e)))
  || existsb (hit_tag p) (range (ev_tag_tab e))
  || existsb (fun k => matchesAny k (a_deletes p)) (default [] (ev_Deletes e)).

Lemma tags_run_hit p e e' :
  addTag_tags_run p e e' ->
  e' = if existsb (hit_tag p) (range (ev_tag_tab e)) then addTags p e else e.
Proof.
  unfold addTag_tags_run.
  destruct (ev_Tags e) as [t|] eqn:Ht.
  2: { intros ->. unfold ev_tag_tab. rewrite Ht. unfold gm_tab; cbn. by rewrite range_empty. }
  intros Hr. unfold range_run in Hr.
  assert (ev_tag_tab e = t) as Htab by (unfold ev_tag_tab; by rewrite Ht). rewrite Htab in *.
  assert (forall must seen s s', go_range ev_tag_tab (addTag_tag p) must seen s s' ->
    (s = addTags p e -> s' = addTags p e) /\
    (must = dom t -> s = e -> (forall k v, k ∈ seen -> t !! k = Some v -> hit_tag p (k, v) = false) ->
      s' = if existsb (hit_tag p) (range t) then addTags p e else e)) as Hg.
  { clear Hr. intros must seen s s' Hr. induction Hr as [seen s Hd|seen s s' k Hk Hs Hn _ [IH1 IH2]|seen s s' k v Hk Hv _ [IH1 IH2]].
    - split; [done|]. intros -> -> Hseen. destruct (existsb _ _) eqn:E; [|done].
      apply existsb_range in E as (k & v & Hk & Hh).
      rewrite (Hseen k v) in Hh; [done| |done]. apply Hd, elem_of_dom. eauto.
    - split; [done|]. intros -> -> Hseen. apply IH2; [done..|]. intros k' v' [->%elem_of_singleton|]%elem_of_union Hv.
      + congruence.
      + eauto.
    - rewrite addTag_tag_hit in IH1, IH2. split.
      + intros ->. apply IH1. by rewrite addTags_idem; destruct (hit_tag p (k, v)).
      + intros -> -> Hseen. destruct (hit_tag p (k, v)) eqn:Eh.
        * rewrite IH1 by done. rewrite (proj2 (existsb_range _ t)); [done|].
          exists k, v. split; [|done]. by rewrite Htab in Hv.
        * apply IH2; [done..|]. intros k' v' [->%elem_of_singleton|]%elem_of_union Hv'; [|eauto].
          rewrite Htab in Hv. congruence. }
  destruct (Hg _ _ _ _ Hr) as [_ Hg']. apply Hg'; [done..|set_solver].
Qed.

(** Event-add-tag without a condition: whatever the runtime does with the
    entries the loop over the tags adds to the map it ranges over, the event
    ends with the configured tags added once when some value, tag or delete
    hits, and unchanged otherwise. Added tags replace existing ones exactly
    when overwriting. *)
Theorem add_tag_deterministic p e :
  addTag_regex_run p e (addTag_regex p e) /\
  (forall e', addTag_regex_run p e e' -> e' = if hits p e then addTags p e else e) /\
  ev_tag_tab (addTags p e) =
    (if a_Overwrite p then gm_tab (a_Add p) ∪ ev_tag_tab e else ev_tag_tab e ∪ gm_tab (a_Add p)).
Proof.
  assert (addTag_values p e =
    if existsb (hit_value p) (range (gm_tab (ev_Values e))) then addTags p e else e) as Hv.
  { unfold addTag_values. rewrite <-foldl_addTags. apply foldl_ext. apply addTag_value_hit. }
  assert (forall e1, addTag_deletes p e1 =
    if existsb (fun k => matchesAny k (a_deletes p)) (default [] (ev_Deletes e1)) then addTags p e1 else e1) as Hd.
  { intros e1. unfold addTag_deletes. rewrite <-foldl_addTags. apply foldl_ext. done. }
  split; [|split].
  - exists (addTag_tags p (addTag_values p e)). split; [|done]. unfold addTag_tags_run, addTag_tags.
    destruct (ev_Tags _) eqn:E; [|done]. apply for_range_run.
  - intros e' (e1 & Ht%tags_run_hit & ->). rewrite Hd, Ht, Hv. unfold hits.
    destruct (existsb (hit_value p) _); cbn [orb].
    + destruct (existsb (hit_tag p) (range (ev_tag_tab (addTags p e)))); cbn [addTags with_tags ev_Deletes];
        rewrite ?addTags_idem; by destruct (existsb _ (default [] (ev_Deletes e))).
    + destruct (existsb (hit_tag p) (range (ev_tag_tab e))); cbn [orb addTags with_tags ev_Deletes];
        by destruct (existsb _ (default [] (ev_Deletes e))); rewrite ?addTags_idem.
  - apply addTags_tab.
Qed.

Lemma addTag_safe : SafeProcessor addTag_proc always.
Proof.
  apply stateless_safe. intros p es Hes. cbn. unfold addTag_Apply.
  assert (exists es', mapE (addTag_event p) es = Ok es' /\ Forall ok_event es') as (es' & -> & He); [|by eexists].
  induction Hes as [|e es He Hes (es' & IH & Hes')]; [by exists []|]. cbn. rewrite IH.
  destruct e as [e|]; [|done].
  assert (exists e', addTag_event p (Some e) = Ok (Some e') /\ ok_event (Some e')) as (e' & -> & He').
  { assert (ok_event (Some (addTag_regex p e))) as Hr.
    { pose proof (add_tag_deterministic p e) as (Hrun & Hdet & _). rewrite (Hdet _ Hrun).
      destruct (hits p e); [|done]. by eexists. }
    unfold addTag_event. destruct (a_code p) as [c|]; [|by eexists].
    destruct (negb _); [|by eexists].
    pose proof (CheckCondition_no_panic (Some c) (Some e)) as Hnp.
    destruct (CheckCondition (Some c) (Some e)) as [[]| |]; [| | |done]; (eexists; split; [done|]);
      [by eexists|done..]. }
  cbn. eexists. split; [done|]. by constructor.
Qed.
End add_tag_lemmas.

(** Only the first expression over values is tried: the second one of this
    configuration matches the value, and no tag is added. *)
Example add_tag_second_value_ignored :
  let p := mkAddTag jq_tag "" [] [lit_re "down"; lit_re "up"] [] [] [] false (Some {["x" := "1"]}) None in
  let e := mkEvent "s" 1 (Some ∅) (Some {["oper" := AStr "up"]}) None in
  matchesString (AStr "up") (a_values p) = true /\ addTag_regex (H0 := order_fwd) p e = e.
Proof. vm_compute. by split. Qed.

(** ** event-extract-tags *)

Record extractTagsConfig := mkExtractTagsConfig {
  xc_Tags : list string; xc_Values : list string; xc_TagNames : list string;
  xc_ValueNames : list string; xc_Overwrite : bool
}.
Record extractTags := mkExtractTags {
  x_tags : list Regexp; x_values : list Regexp; x_tagNames : list Regexp; x_valueNames : list Regexp;
  x_Overwrite : bool
}.

Definition extract_Init `{RegexpPkg} `{Decode extractTagsConfig} (cfg : any) : go init_error extractTags :=
  c ← decode cfg;
  tags ← compileRegex (xc_Tags c);
  tagNames ← compileRegex (xc_TagNames c);
  values ← compileRegex (xc_Values c);
  valueNames ← compileRegex (xc_ValueNames c);
  Ok (mkExtractTags tags values tagNames valueNames (xc_Overwrite c)).

(** One named group: [i], its name and [matches[i]]. Without overwriting, the
    test looks the extracted text up, not the name. *)
Definition extract_group (overwrite : bool) (t : gmap string string) (g : nat * (string * string))
    : gmap string string :=
  let '(i, (name, m)) := g in
  if negb (i =? 0)%nat && negb (String.eqb name "") then
    if overwrite then <[name := m]> t
    else match t !! m with Some _ => t | None => <[name := m]> t end
  else t.

Definition extract_addTags (p : extractTags) (e : EventMsg) (re : Regexp) (s : string) : EventMsg :=
  let t := gm_tab (ev_Tags e) in
  let matches := FindStringSubmatch re s in
  if negb (length matches =? length (SubexpNames re))%nat then with_tags (Some t) e
  else with_tags (Some (foldl (extract_group (x_Overwrite p)) t
                          (imap pair (zip (SubexpNames re) matches)))) e.

Definition extract_value (p : extractTags) (e : EventMsg) (kv : string * any) : EventMsg :=
  let '(k, v) := kv in
  let e := foldl (fun e re => extract_addTags p e re k) e (x_valueNames p) in
  foldl (fun e re => match as_string v with Some vs => extract_addTags p e re vs | None => e end) e (x_values p).
Definition extract_tag (p : extractTags) (e : EventMsg) (kv : string * string) : EventMsg :=
  let '(k, v) := kv in
  let e := foldl (fun e re => extract_addTags p e re k) e (x_tagNames p) in
  foldl (fun e re => extract_addTags p e re v) e (x_tags p).

Section extract.
Context `{MapOrder}.

Definition extract_values (p : extractTags) (e : EventMsg) : EventMsg :=
  foldl (extract_value p) e (range (gm_tab (ev_Values e))).

Definition extract_event (p : extractTags) (e : EventMsg) : EventMsg :=
  let e := extract_values p e in
  match ev_Tags e with None => e | Some _ => for_range ev_tag_tab (extract_tag p) e end.
Definition extract_event_run (p : extractTags) (e e' : EventMsg) : Prop :=
  let e := extract_values p e in
  match ev_Tags e with None => e' = e | Some _ => range_run ev_tag_tab (extract_tag p) e e' end.

Definition extract_Apply (p : extractTags) (es : events) : events := option_map (extract_event p) <$> es.

(** The names of the groups of the configured expressions. *)
Definition group_names (p : extractTags) : list string :=
  (x_valueNames p ++ x_values p ++ x_tagNames p ++ x_tags p) ≫= SubexpNames.

(** [e'] is [e] with tags whose names are non-empty group names set. *)
Definition extracted_from (p : extractTags) (e e' : EventMsg) : Prop :=
  (ev_Name e', ev_Timestamp e', ev_Values e', ev_Deletes e')
    = (ev_Name e, ev_Timestamp e, ev_Values e, ev_Deletes e) /\
  (is_Some (ev_Tags e) -> is_Some (ev_Tags e')) /\
  forall k, ev_tag_tab e' !! k = ev_tag_tab e !! k
    \/ (is_Some (ev_tag_tab e' !! k) /\ k ∈ group_names p /\ k <> "").

Lemma extracted_refl p e : extracted_from p e e.
Proof. repeat split; auto. Qed.

Lemma extracted_trans p e1 e2 e3 :
  extracted_from p e1 e2 -> extracted_from p e2 e3 -> extracted_from p e1 e3.
Proof.
  intros (H1 & T1 & K1) (H2 & T2 & K2). split; [congruence|]. split; [auto|].
  intros k. destruct (K2 k) as [->|]; auto.
Qed.

Lemma extract_group_lookup p o (names : list string) (l : list (nat * (string * string))) t k :
  (forall i name m, (i, (name, m)) ∈ l -> name ∈ group_names p) ->
  foldl (extract_group o) t l !! k = t !! k
  \/ (is_Some (foldl (extract_group o) t l !! k) /\ k ∈ group_names p /\ k <> "").
Proof.
  revert t; induction l as [|[i [name m]] l IH]; intros t Hn; cbn [foldl]; [by left|].
  destruct (IH (extract_group o t (i, (name, m)))) as [->|]; [intros; eapply Hn; by right| |by right].
  unfold extract_group. destruct (negb (i =? 0)%nat && negb (String.eqb name "")) eqn:E; [|by left].
  apply andb_true_iff in E as [_ Hne%negb_true_iff%String.eqb_neq].
  assert (name ∈ group_names p) by (eapply Hn; by left).
  assert (<[name := m]> t !! k = t !! k \/ is_Some (<[name := m]> t !! k) /\ k ∈ group_names p /\ k <> "") as Hk.
  { destruct (decide (name = k)) as [->|]; [right; rewrite lookup_insert_eq; eauto | left; by apply lookup_insert_ne]. }
  destruct o; [done|]. destruct (t !! m); [by left|done].
Qed.

Lemma extract_addTags_from p e re s :
  re ∈ x_valueNames p ++ x_values p ++ x_tagNames p ++ x_tags p -> extracted_from p e (extract_addTags p e re s).
Proof.
  intros Hre. unfold extract_addTags. destruct (negb _); (split; [done|]; split; [by eexists|]); intros k.
  - by left.
  - apply (extract_group_lookup p _ []). intros i name m (j & Hj)%list_elem_of_lookup_1.
    rewrite list_lookup_imap in Hj. destruct (zip _ _ !! j) as [[n' m']|] eqn:E; [|done].
    cbn in Hj. simplify_eq. apply list_elem_of_lookup_2 in E. apply elem_of_zip_l in E.
    unfold group_names. apply list_elem_of_bind. eauto.
Qed.

Lemma extract_fold_from {A} p (f : EventMsg -> A -> EventMsg) l e :
  (forall e x, x ∈ l -> extracted_from p e (f e x)) -> extracted_from p e (foldl f e l).
Proof.
  revert e; induction l as [|x l IH]; intros e Hf; cbn; [apply extracted_refl|].
  eapply extracted_trans; [apply Hf; by left|]. apply IH. intros; apply Hf; by right.
Qed.

Lemma extract_tag_from p e kv : extracted_from p e (extract_tag p e kv).
Proof.
  destruct kv as [k v]. unfold extract_tag.
  apply (extracted_trans p e (foldl (fun e re => extract_addTags p e re k) e (x_tagNames p)));
    apply extract_fold_from; intros e' re Hre; apply extract_addTags_from; rewrite !elem_of_app; auto.
Qed.

Lemma extract_value_from p e kv : extracted_from p e (extract_value p e kv).
Proof.
  destruct kv as [k v]. unfold extract_value.
  apply (extracted_trans p e (foldl (fun e re => extract_addTags p e re k) e (x_valueNames p)));
    apply extract_fold_from; intros e' re Hre.
  - apply extract_addTags_from. rewrite !elem_of_app; auto.
  - destruct (as_string v); [|apply extracted_refl]. apply extract_addTags_from. rewrite !elem_of_app; auto.
Qed.

(** Event-extract-tags, for every outcome of its loop over the tags it is
    adding to: name, time, values and deletes are untouched, no tag is removed,
    and a tag that is new or changed is named like a named group of one of the
    configured expressions. *)
Theorem extract_tags_frame p e :
  extract_event_run p e (extract_event p e) /\
  forall e', extract_event_run p e e' -> extracted_from p e e'.
Proof.
  split.
  - unfold extract_event_run, extract_event. destruct (ev_Tags _) eqn:E; [|done]. apply for_range_run.
  - unfold extract_event_run. intros e' Hr.
    assert (extracted_from p e (extract_values p e)) as Hv.
    { apply extract_fold_from. intros; apply extract_value_from. }
    destruct (ev_Tags (extract_values p e)); [|by subst].
    eapply (range_run_inv _ _ (extracted_from p e)); [exact Hv| |exact Hr].
    intros s k v Hs _. eapply extracted_trans; [exact Hs|apply extract_tag_from].
Qed.
End extract.

Definition extract_proc `{MapOrder} : EventProcessor extractTags :=
  {| Apply p es := Ok (p, extract_Apply p es) |}.

Lemma extract_safe `{MapOrder} : SafeProcessor extract_proc always.
Proof.
  apply stateless_safe. intros p es Hes. cbn. eexists. split; [done|]. apply Forall_fmap.
  eapply Forall_impl; [exact Hes|]. intros [e|]; [|done]. cbn. intros He.
  pose proof (extract_tags_frame p e) as [Hr Hf]. by apply (Hf _ Hr).
Qed.

(** A whole-text expression with one named group. *)
Definition group_re (name : string) : Regexp :=
  mkRegexp ("(?P<" +:+ name +:+ ">.*)") (fun _ => true) (fun s => [s; s]) [""; name] (fun s _ => s).

(** Without overwriting, an existing tag is replaced all the same... *)
Example extract_overwrites :
  let p := mkExtractTags [] [] [] [group_re "ifname"] false in
  let e := mkEvent "s" 1 (Some {["ifname" := "kept"]}) (Some {["oper" := AStr "up"]}) None in
  ev_Tags (extract_event (H := order_fwd) p e) = Some {["ifname" := "oper"]}.
Proof. by vm_compute. Qed.

(** ...and with expressions over tag names the result depends on whether the
    runtime visits the tag that was just added. *)
Example extract_two_outcomes :
  let p := mkExtractTags [] [] [group_re "x"] [] true in
  let e := mkEvent "s" 1 (Some {["a" := "1"]}) None None in
  extract_event_run (H := order_fwd) p e (with_tags (Some {["a" := "1"; "x" := "a"]}) e) /\
  extract_event_run (H := order_fwd) p e (with_tags (Some {["a" := "1"; "x" := "x"]}) e).
Proof.
  cbn zeta. unfold extract_event_run, extract_values. cbn [ev_Values gm_tab default from_option].
  rewrite range_empty. cbn [foldl ev_Tags]. unfold range_run. split.
  - eapply (range_visit _ _ _ _ _ _ "a" "1"); [set_solver|done|].
    replace (extract_tag _ _ _) with (with_tags (Some {["a" := "1"; "x" := "a"]}) (mkEvent "s" 1 (Some {["a" := "1"]}) None None)) by (by vm_compute).
    apply range_stop. intros k. cbn. rewrite dom_singleton_L. set_solver.
  - eapply (range_visit _ _ _ _ _ _ "a" "1"); [set_solver|done|].
    eapply (range_visit _ _ _ _ _ _ "x" "a"); [set_solver|by vm_compute|].
    replace (extract_tag _ (extract_tag _ _ _) _) with (with_tags (Some {["a" := "1"; "x" := "x"]}) (mkEvent "s" 1 (Some {["a" := "1"]}) None None)) by (by vm_compute).
    apply range_stop. intros k. cbn. rewrite dom_singleton_L. set_solver.
Qed.

(** ** event-to-tag *)

Record toTagConfig := mkToTagConfig { tc_Values : list string; tc_ValueNames : list string; tc_Keep : bool }.
Record toTag := mkToTag { t_valueNames : list Regexp; t_values : list Regexp; t_Keep : bool }.

Definition toTag_Init `{RegexpPkg} `{Decode toTagConfig} (cfg : any) : go init_error toTag :=
  c ← decode cfg;
  valueNames ← compileRegex (tc_ValueNames c);
  values ← compileRegex (tc_Values c);
  Ok (mkToTag valueNames values (tc_Keep c)).

Section to_tag.
Context `{FmtEnv} `{MapOrder}.

(** The tags and the values of the event; [toTag_move] is the body of both
    inner loops. *)
Abbreviation tags_values := (gmap string string * gmap string any)%type.

Definition toTag_move (p : toTag) (k s : string) (st : tags_values) : tags_values :=
  (<[k := s]> st.1, if t_Keep p then st.2 else delete k st.2).

Definition toTag_text (p : toTag) (k : string) (v : any) (st : tags_values) : tags_values :=
  foldl (fun st re => match as_string v with
                      | Some vs => if MatchString re vs then toTag_move p k vs st else st
                      | None => st
                      end) st (t_values p).

Definition toTag_value (p : toTag) (st : tags_values) (kv : string * any) : tags_values :=
  let '(k, v) := kv in
  toTag_text p k v
    (foldl (fun st re => if MatchString re k then
              toTag_move p k (match v with AStr s => s | _ => Sprint v end) st else st) st (t_valueNames p)).
Definition toTag_value2 (p : toTag) (st : tags_values) (kv : string * any) : tags_values :=
  let '(k, v) := kv in
  toTag_text p k v
    (foldl (fun st re => if MatchString re k then toTag_move p k (Sprint v) st else st) st (t_valueNames p)).

Definition toTag_with (body : tags_values -> string * any -> tags_values) (e : EventMsg) : EventMsg :=
  let vs := gm_tab (ev_Values e) in
  let '(t, vs') := foldl body (gm_tab (ev_Tags e), vs) (range vs) in
  with_tags (Some t) (with_values (_ ← ev_Values e; Some vs') e).

Definition toTag_Apply (p : toTag) (es : events) : events := option_map (toTag_with (toTag_value p)) <$> es.
Definition toTag_Apply2 (p : toTag) (es : events) : events := option_map (toTag_with (toTag_value2 p)) <$> es.

(** A value the expressions select. *)
Definition to_tag_sel (p : toTag) (k : string) (v : any) : bool :=
  matchesAny k (t_valueNames p) || matchesString v (t_values p).

Lemma toTag_move_fold {A} p k s (b : A -> bool) l st :
  foldl (fun st re => if b re then toTag_move p k s st else st) st l =
  if existsb b l then toTag_move p k s st else st.
Proof.
  revert st; induction l as [|a l IH]; intros st; cbn; [done|]. rewrite IH.
  destruct (b a), (existsb b l); cbn; try done. unfold toTag_move; cbn.
  rewrite insert_insert_eq. destruct (t_Keep p); [done|]. by rewrite delete_delete_eq.
Qed.

Lemma toTag_value2_eq p st kv : toTag_value2 p st kv = toTag_value p st kv.
Proof. destruct kv as [k v]. unfold toTag_value2, toTag_value. by destruct v. Qed.

Lemma toTag_value_move p st k v :
  toTag_value p st (k, v) = if to_tag_sel p k v then toTag_move p k (Sprint v) st else st.
Proof.
  unfold toTag_value, to_tag_sel, matchesString, matchesAny.
  replace (match v with AStr s => s | _ => Sprint v end) with (Sprint v) by (by destruct v).
  rewrite (toTag_move_fold p k (Sprint v) (fun re => MatchString re k)). unfold toTag_text.
  destruct (as_string v) as [s|] eqn:Es.
  - assert (Sprint v = s) as -> by (destruct v; cbn in *; congruence).
    rewrite (toTag_move_fold p k s (fun re => MatchString re s)).
    destruct (existsb _ (t_valueNames p)), (existsb _ (t_values p)); cbn; unfold toTag_move; cbn;
      destruct (t_Keep p); rewrite ?insert_insert_eq, ?delete_delete_eq; done.
  - rewrite orb_false_r. by induction (t_values p).
Qed.

Lemma toTag_value_sel p a b kv :
  toTag_value p (a, b) kv =
  ((fun t (kv : string * any) => if to_tag_sel p kv.1 kv.2 then <[kv.1 := Sprint kv.2]> t else t) a kv,
   (if t_Keep p then (fun m _ => m) else delete_where (to_tag_sel p)) b kv).
Proof.
  destruct kv as [k v]. rewrite toTag_value_move. unfold toTag_move, delete_where; cbn.
  destruct (to_tag_sel p k v) eqn:E, (t_Keep p); cbn [fst snd]; by rewrite ?E.
Qed.

(** Event-to-tag: a value whose name or text matches becomes a tag of
    the same name with its printed form, replacing one already there; all
    other tags are kept; the value leaves the event unless it is to be kept;
    all other values stay. The variant that prints every value gives the same
    events. *)
Theorem to_tag_spec p (e : EventMsg) :
  let e' := toTag_with (toTag_value p) e in
  toTag_Apply2 p [Some e] = toTag_Apply p [Some e] /\
  (forall k, gm_get (ev_Tags e') k =
     match gm_get (ev_Values e) k with
     | Some v => if to_tag_sel p k v then Some (Sprint v) else gm_get (ev_Tags e) k
     | None => gm_get (ev_Tags e) k
     end) /\
  (forall k, gm_get (ev_Values e') k =
     v ← gm_get (ev_Values e) k; if to_tag_sel p k v && negb (t_Keep p) then None else Some v).
Proof.
  cbn zeta. split.
  { unfold toTag_Apply, toTag_Apply2. cbn. unfold toTag_with.
    rewrite (foldl_ext (toTag_value2 p) (toTag_value p)); [done|]. apply toTag_value2_eq. }
  unfold toTag_with.
  rewrite (foldl_pair _ _ _ _ _ _ (toTag_value_sel p)). cbn [with_tags with_values ev_Tags ev_Values].
  split; intros k.
  - cbn. rewrite (foldl_set_where (to_tag_sel p) Sprint). by rewrite !gm_get_tab.
  - destruct (ev_Values e) as [vs|]; cbn; [|done].
    destruct (t_Keep p).
    + replace (foldl _ vs (range vs)) with vs; [|by induction (range vs)].
      destruct (vs !! k); cbn; [|done]. by rewrite andb_false_r.
    + rewrite delete_where_filter. destruct (vs !! k) as [v|] eqn:Hk; cbn.
      * rewrite andb_true_r. destruct (to_tag_sel p k v) eqn:Hs.
        -- apply map_lookup_filter_None_2. right. intros w Hw. cbn. simplify_eq. rewrite Hs. cbn. tauto.
        -- apply map_lookup_filter_Some_2; [done|]. cbn. by rewrite Hs.
      * apply map_lookup_filter_None_2. by left.
Qed.
End to_tag.

Definition toTag_proc `{FmtEnv} `{MapOrder} : EventProcessor toTag :=
  {| Apply p es := Ok (p, toTag_Apply p es) |}.

Lemma toTag_safe `{FmtEnv} `{MapOrder} : SafeProcessor toTag_proc always.
Proof.
  apply stateless_safe. intros p es Hes. cbn. eexists. split; [done|]. apply Forall_fmap.
  eapply Forall_impl; [exact Hes|]. intros [e|]; [|done]. intros _. cbn. unfold toTag_with.
  destruct (foldl _ _ _). by eexists.
Qed.

(** ** event-value-tag *)

Record valueTag := mkValueTag { vt_TagName : string; vt_ValueName : string; vt_Consume : bool }.

Definition valueTag_Init `{Decode valueTag} (cfg : any) : go init_error valueTag :=
  vt ← decode cfg;
  Ok (mkValueTag (if String.eqb (vt_TagName vt) "" then vt_ValueName vt else vt_TagName vt)
        (vt_ValueName vt) (vt_Consume vt)).

Record tagVal := mkTagVal { tv_tags : gmap string string; tv_value : any }.

Section value_tag.
Context `{FmtEnv} `{MapOrder}.

(** [compareTags]: every key of [a] is in [b] with the same value. *)
Definition compareTags (a b : gomap string) : bool :=
  if (gm_len b <? gm_len a)%nat then false
  else forallb (fun '(k, v) => match gm_get b k with Some vv => String.eqb v vv | None => false end)
         (range (gm_tab a)).

Definition buildApplyRules (vt : valueTag) (evs : events) : go event_error (list tagVal * events) :=
  foldM (fun '(toApply, out) ev =>
    match ev with
    | None => Panic
    | Some ev =>
        match gm_get (ev_Values ev) (vt_ValueName vt) with
        | Some v =>
            let ev' := if vt_Consume vt then with_values (gm_del (vt_ValueName vt) (ev_Values ev)) ev else ev in
            Ok (toApply ++ [mkTagVal (gm_tab (ev_Tags ev)) v], out ++ [Some ev'])
        | None => Ok (toApply, out ++ [Some ev])
        end
    end) evs ([], []).

Definition applyTagVal (vt : valueTag) (tv : tagVal) (ev : event) : go event_error event :=
  match ev with
  | None => Panic
  | Some ev =>
      if compareTags (Some (tv_tags tv)) (ev_Tags ev) then
        t ← gm_set (vt_TagName vt) (match tv_value tv with AStr s => s | v => Sprint v end) (ev_Tags ev);
        Ok (Some (with_tags t ev))
      else Ok (Some ev)
  end.

Definition valueTag_Apply (vt : valueTag) (evs : events) : go event_error events :=
  '(vts, evs) ← buildApplyRules vt evs;
  foldM (fun evs tv => mapE (applyTagVal vt tv) evs) vts evs.

Lemma compareTags_spec a b : compareTags a b = bool_decide (gm_tab a ⊆ gm_tab b).
Proof.
  unfold compareTags, gm_len. apply eq_true_iff_eq. rewrite bool_decide_eq_true.
  destruct (Nat.ltb_spec (size (gm_tab b)) (size (gm_tab a))) as [Hlt|Hge].
  - split; [done|]. intros Hs%map_subseteq_size. lia.
  - rewrite forallb_forall, map_subseteq_spec. split.
    + intros Hf k v Hk%elem_of_range%list_elem_of_In. apply Hf in Hk. cbn in Hk. rewrite gm_get_tab in Hk.
      destruct (gm_tab b !! k); [|done]. f_equal. symmetry. by apply String.eqb_eq.
    + intros Hs [k v] Hk%list_elem_of_In%elem_of_range. rewrite gm_get_tab, (Hs _ _ Hk).
      by apply String.eqb_refl.
Qed.

(** The rules of a batch: one for each event that has the value. *)
Definition ruleOf (vt : valueTag) (e : EventMsg) : option tagVal :=
  mkTagVal (gm_tab (ev_Tags e)) <$> gm_get (ev_Values e) (vt_ValueName vt).
Definition consumed (vt : valueTag) (e : EventMsg) : EventMsg :=
  if vt_Consume vt then with_values (gm_del (vt_ValueName vt) (ev_Values e)) e else e.

Lemma consumed_absent vt e : gm_get (ev_Values e) (vt_ValueName vt) = None -> consumed vt e = e.
Proof.
  unfold consumed. destruct (vt_Consume vt); [|done]. intros Hn. destruct e as [n ts t [m|] d]; cbn in *; [|done].
  unfold with_values, gm_del; cbn. by rewrite delete_id.
Qed.

Lemma buildApplyRules_ok vt es :
  buildApplyRules vt (Some <$> es) = Ok (omap (ruleOf vt) es, Some <$> (consumed vt <$> es)).
Proof.
  unfold buildApplyRules.
  assert (forall l r o, foldM (fun '(toApply, out) ev =>
    match ev with
    | None => Panic
    | Some ev =>
        match gm_get (ev_Values ev) (vt_ValueName vt) with
        | Some v =>
            let ev' := if vt_Consume vt then with_values (gm_del (vt_ValueName vt) (ev_Values ev)) ev else ev in
            Ok (toApply ++ [mkTagVal (gm_tab (ev_Tags ev)) v], out ++ [Some ev'])
        | None => Ok (toApply, out ++ [Some ev])
        end
    end) (Some <$> l) (r, o) =
    Ok (E := event_error) (r ++ omap (ruleOf vt) l, o ++ (Some <$> (consumed vt <$> l)))) as Hl; [|apply (Hl es [] [])].
  induction l as [|e l IH]; intros r o; cbn [fmap list_fmap foldM omap list_omap]; [by rewrite !app_nil_r|].
  unfold ruleOf at 1. destruct (gm_get (ev_Values e) (vt_ValueName vt)) as [v|] eqn:Ev; cbn [mbind go_bind fmap option_fmap option_map].
  - rewrite IH. by rewrite <-!app_assoc.
  - rewrite IH, (consumed_absent vt e) by done. by rewrite <-!app_assoc.
Qed.

(** The value of the last rule whose tags are all in [t]. *)
Definition last_rule (t : gmap string string) (rules : list tagVal) : option any :=
  foldl (fun acc r => if bool_decide (tv_tags r ⊆ t) then Some (tv_value r) else acc) None rules.
Definition tag_with (vt : valueTag) (v : option any) (t : gmap string string) : gmap string string :=
  match v with Some v => <[vt_TagName vt := Sprint v]> t | None => t end.

Lemma tag_with_sub vt v (t r : gmap string string) :
  r !! vt_TagName vt = None -> t !! vt_TagName vt = None -> r ⊆ tag_with vt v t <-> r ⊆ t.
Proof.
  intros Hr Ht. destruct v as [v|]; cbn; [|done]. rewrite !map_subseteq_spec. split; intros Hs k w Hk.
  - specialize (Hs k w Hk). destruct (decide (vt_TagName vt = k)) as [<-|]; [congruence|].
    by rewrite lookup_insert_ne in Hs.
  - destruct (decide (vt_TagName vt = k)) as [<-|]; [congruence|]. rewrite lookup_insert_ne by done. eauto.
Qed.

Lemma applyTagVal_ok vt r e t v :
  tv_tags r !! vt_TagName vt = None -> t !! vt_TagName vt = None ->
  applyTagVal vt r (Some (with_tags (Some (tag_with vt v t)) e)) =
  Ok (Some (with_tags (Some (tag_with vt (if bool_decide (tv_tags r ⊆ t) then Some (tv_value r) else v) t)) e)).
Proof.
  intros Hr Ht. cbn [applyTagVal]. rewrite compareTags_spec. cbn [gm_tab default from_option id with_tags ev_Tags].
  change (gm_tab (Some ?x)) with x.
  rewrite (bool_decide_ext _ (tv_tags r ⊆ t)) by (by apply tag_with_sub).
  case_bool_decide; [|done].
  replace (match tv_value r with AStr s => s | v => Sprint v end) with (Sprint (tv_value r)) by (by destruct (tv_value r)).
  destruct v; cbn; unfold with_tags; cbn; by rewrite ?insert_insert_eq.
Qed.

(** One rule after the other, on every event: [v0 e] is what [e] got so far. *)
Lemma applyRules_ok vt es rules (v0 : EventMsg -> option any) :
  Forall (fun e => gm_tab (ev_Tags e) !! vt_TagName vt = None) es ->
  Forall (fun r => tv_tags r !! vt_TagName vt = None) rules ->
  foldM (fun evs tv => mapE (applyTagVal vt tv) evs) rules
    ((fun e => Some (with_tags (Some (tag_with vt (v0 e) (gm_tab (ev_Tags e)))) (consumed vt e))) <$> es) =
  Ok ((fun e => Some (with_tags (Some (tag_with vt
         (foldl (fun acc r => if bool_decide (tv_tags r ⊆ gm_tab (ev_Tags e)) then Some (tv_value r) else acc)
            (v0 e) rules) (gm_tab (ev_Tags e)))) (consumed vt e))) <$> es).
Proof.
  intros Hes Hr. revert v0; induction Hr as [|r rules Hr0 Hr IH]; intros v0; cbn [foldM foldl]; [done|].
  set (v1 := fun e => if bool_decide (tv_tags r ⊆ gm_tab (ev_Tags e)) then Some (tv_value r) else v0 e).
  assert (mapE (applyTagVal vt r)
    ((fun e => Some (with_tags (Some (tag_with vt (v0 e) (gm_tab (ev_Tags e)))) (consumed vt e))) <$> es)
    = Ok ((fun e => Some (with_tags (Some (tag_with vt (v1 e) (gm_tab (ev_Tags e)))) (consumed vt e))) <$> es)) as ->.
  { apply mapE_ok. rewrite Forall2_fmap. apply Forall_Forall2_diag. eapply Forall_impl; [exact Hes|].
    intros e He. by apply applyTagVal_ok. }
  cbn [mbind go_bind]. apply (IH v1).
Qed.

(** Event-value-tag, on a batch of present events with tags, none of
    which has the new tag yet: an event gets the new tag exactly when its own
    tags include all tags of some event of the batch that has the value, and
    then it is the printed value of the last such event; the value is removed
    from the events that have it exactly when it is consumed; nothing else
    changes. *)
Theorem value_tag_last (vt : valueTag) (es : list EventMsg) :
  Forall (fun e => exists t, ev_Tags e = Some t /\ t !! vt_TagName vt = None) es ->
  valueTag_Apply vt (Some <$> es) =
  Ok ((fun e => Some (with_tags (Some (tag_with vt (last_rule (gm_tab (ev_Tags e)) (omap (ruleOf vt) es))
                                         (gm_tab (ev_Tags e)))) (consumed vt e))) <$> es).
Proof.
  intros Hes. unfold valueTag_Apply. rewrite buildApplyRules_ok. cbn [mbind go_bind].
  assert (Forall (fun e => gm_tab (ev_Tags e) !! vt_TagName vt = None) es) as Hnone.
  { eapply Forall_impl; [exact Hes|]. by intros e (t & -> & Ht). }
  assert (Some <$> (consumed vt <$> es) =
    (fun e => Some (with_tags (Some (tag_with vt None (gm_tab (ev_Tags e)))) (consumed vt e))) <$> es) as ->.
  { rewrite <-list_fmap_compose. apply list_fmap_ext. intros i e Hi%list_elem_of_lookup_2. cbn. f_equal.
    rewrite Forall_forall in Hes. destruct (Hes e Hi) as (t & Ht & _). rewrite Ht. cbn.
    unfold consumed, with_tags, with_values. destruct e as [n ts tg v d]; cbn in *. subst tg. by destruct (vt_Consume vt). }
  apply (applyRules_ok vt es _ (fun _ => None)); [done|].
  apply Forall_forall. intros r (e & He & Hr)%list_elem_of_omap. rewrite Forall_forall in Hnone.
  unfold ruleOf in Hr. destruct (gm_get _ _); [|done]. injection Hr as <-. by apply Hnone.
Qed.
End value_tag.

Lemma value_tag_last_witness :
  let vt := mkValueTag "role" "role-value" true in
  let es := [mkEvent "s" 1 (Some {["if" := "e0"]}) (Some {["role-value" := AStr "core"]}) None;
             mkEvent "s" 2 (Some {["if" := "e0"; "unit" := "1"]}) (Some {["c" := AInt KInt 5]}) None;
             mkEvent "s" 3 (Some {["if" := "e1"]}) (Some {["c" := AInt KInt 6]}) None] in
  Forall (fun e => exists t, ev_Tags e = Some t /\ t !! vt_TagName vt = None) es /\
  valueTag_Apply (H := fmt_none) (H0 := order_bwd) vt (Some <$> es) =
    Ok [Some (mkEvent "s" 1 (Some {["if" := "e0"; "role" := "core"]}) (Some ∅) None);
        Some (mkEvent "s" 2 (Some {["if" := "e0"; "unit" := "1"; "role" := "core"]}) (Some {["c" := AInt KInt 5]}) None);
        Some (mkEvent "s" 3 (Some {["if" := "e1"]}) (Some {["c" := AInt KInt 6]}) None)].
Proof.
  cbn zeta.
  assert (Forall (fun e => exists t, ev_Tags e = Some t /\ t !! "role" = None)
    [mkEvent "s" 1 (Some {["if" := "e0"]}) (Some {["role-value" := AStr "core"]}) None;
     mkEvent "s" 2 (Some {["if" := "e0"; "unit" := "1"]}) (Some {["c" := AInt KInt 5]}) None;
     mkEvent "s" 3 (Some {["if" := "e1"]}) (Some {["c" := AInt KInt 6]}) None]) as Hes.
  { repeat constructor; eexists; (split; [reflexivity|]); vm_compute; reflexivity. }
  split; [exact Hes|].
  rewrite (value_tag_last (H := fmt_none) (H0 := order_bwd) (mkValueTag "role" "role-value" true) _ Hes).
  vm_compute. reflexivity.
Defined.

(** An event without a tag map panics when an event of the batch has the value
    and no tags: its empty rule applies to everything. *)
Example value_tag_nil_tags :
  let e := mkEvent "s" 1 None (Some {["v" := AStr "x"]}) None in
  valueTag_Apply (H := fmt_none) (H0 := order_fwd) (mkValueTag "t" "v" false) [Some e] = Panic.
Proof. by vm_compute. Qed.

Definition valueTag_proc `{FmtEnv} `{MapOrder} : EventProcessor valueTag :=
  {| Apply p es := es ← valueTag_Apply p es; Ok (p, es) |}.

Lemma valueTag_safe `{FmtEnv} `{MapOrder} : SafeProcessor valueTag_proc always.
Proof.
  apply stateless_safe. intros vt es Hes. cbn.
  assert (exists l, es = Some <$> l /\ Forall (fun e => is_Some (ev_Tags e)) l) as (l & -> & Hl).
  { induction Hes as [|[e|] es He Hes (l & -> & Hl)]; [by exists []| |done].
    exists (e :: l). split; [done|by constructor]. }
  unfold valueTag_Apply. rewrite buildApplyRules_ok. cbn [mbind go_bind].
  assert (Forall ok_event (Some <$> (consumed vt <$> l))) as Hok.
  { rewrite <-list_fmap_compose. apply Forall_fmap. eapply Forall_impl; [exact Hl|]. intros e He. cbn.
    unfold consumed. by destruct (vt_Consume vt). }
  revert Hok. generalize (Some <$> (consumed vt <$> l)) as es. generalize (omap (ruleOf vt) l) as rules.
  induction rules as [|r rules IH]; intros es Hok; cbn [foldM].
  { eexists. by split. }
  assert (exists es', mapE (applyTagVal vt r) es = Ok es' /\ Forall ok_event es') as (es' & -> & Hok'); [|by apply IH].
  clear IH. induction Hok as [|e es He Hok (es' & IH & Hes')]; [by exists []|]. cbn. rewrite IH.
  destruct e as [e|]; [|done]. destruct He as [t Ht]. cbn. rewrite Ht.
  destruct (compareTags _ _); cbn.
  - eexists. split; [done|]. constructor; [by eexists|done].
  - eexists. split; [done|]. constructor; [by exists t|done].
Qed.

(** ** event-value-tag-v2 *)

Record rule := mkRule { r_TagName : string; r_ValueName : string; r_Consume : bool }.
Record applyRule := mkApplyRule { ar_tags : gmap string string; ar_value : any }.

(** One table of apply rules for each rule, keyed by a 64-bit hash. *)
Record valueTagV2 := mkValueTagV2 { v2_Rules : list rule; v2_applyRules : list (gmap Z applyRule) }.

Definition valueTagV2_Init `{Decode (list rule)} (cfg : any) : go init_error valueTagV2 :=
  rules ← decode cfg;
  let rules := (fun r => mkRule (if String.eqb (r_TagName r) "" then r_ValueName r else r_TagName r)
                           (r_ValueName r) (r_Consume r)) <$> rules in
  Ok (mkValueTagV2 rules (replicate (length rules) ∅)).

Section value_tag_v2.
Context `{FmtEnv} `{MapOrder}.

Definition includedIn (a b : gomap string) : bool :=
  if (gm_len b <? gm_len a)%nat then false
  else forallb (fun '(k, v) => match gm_get b k with Some bv => String.eqb v bv | None => false end)
         (range (gm_tab a)).

Definition applyRuleKey (m : gomap string) (r : rule) : Z :=
  let keys := sort_strings (range (gm_tab m)).*1 in
  foldl (fun h k => fnv_write (fnv_write (fnv_write (fnv_write h k) "=") (default "" (gm_get m k))) ";")
    (fnv_write (fnv_write fnv_offset (r_ValueName r)) "|") keys.

(** The event's own value becomes an apply rule. *)
Definition v2_store (r : rule) (table : gmap Z applyRule) (ev : EventMsg) : gmap Z applyRule * EventMsg :=
  match gm_get (ev_Values ev) (r_ValueName r) with
  | Some v =>
      (<[applyRuleKey (ev_Tags ev) r := mkApplyRule (gm_tab (ev_Tags ev)) v]> table,
       if r_Consume r then with_values (gm_del (r_ValueName r) (ev_Values ev)) ev else ev)
  | None => (table, ev)
  end.

Definition v2_applyOne (r : rule) (ev : EventMsg) (ar : applyRule) : go event_error EventMsg :=
  if includedIn (Some (ar_tags ar)) (ev_Tags ev) then
    t ← gm_set (r_TagName r) (match ar_value ar with AStr s => s | v => Sprint v end) (ev_Tags ev);
    Ok (with_tags t ev)
  else Ok ev.

Definition v2_rule (r : rule) (table : gmap Z applyRule) (ev : EventMsg)
    : go event_error (gmap Z applyRule * EventMsg) :=
  let '(table, ev) := v2_store r table ev in
  ev ← foldM (v2_applyOne r) (range table).*2 ev;
  Ok (table, ev).

(** The loop over the rules; [applyRules[i]] is in range when there is one
    table for each rule. *)
Fixpoint v2_rules (rules : list rule) (tables : list (gmap Z applyRule)) (ev : EventMsg)
    : go event_error (list (gmap Z applyRule) * EventMsg) :=
  match rules, tables with
  | [], _ => Ok (tables, ev)
  | r :: rules, table :: tables =>
      '(table, ev) ← v2_rule r table ev;
      '(tables, ev) ← v2_rules rules tables ev;
      Ok (table :: tables, ev)
  | _ :: _, [] => Panic
  end.

Definition valueTagV2_Apply (vt : valueTagV2) (evs : events) : go event_error (valueTagV2 * events) :=
  '(tables, out) ← foldM (fun '(tables, out) ev =>
      match ev with
      | None => Panic
      | Some ev =>
          '(tables, ev) ← v2_rules (v2_Rules vt) tables ev;
          Ok (tables, out ++ [Some ev])
      end) evs (v2_applyRules vt, []);
  Ok (mkValueTagV2 (v2_Rules vt) tables, out).

Lemma includedIn_spec a b : includedIn a b = bool_decide (gm_tab a ⊆ gm_tab b).
Proof. apply compareTags_spec. Qed.

(** One stored rule on an event whose tags are [t], perhaps with the new tag. *)
Lemma v2_applyOne_ok r ar e (t : gmap string string) (v : option any) :
  ar_tags ar !! r_TagName r = None -> t !! r_TagName r = None ->
  let tw v := tag_with (mkValueTag (r_TagName r) "" false) v t in
  v2_applyOne r (with_tags (Some (tw v)) e) ar =
  Ok (with_tags (Some (tw (if bool_decide (ar_tags ar ⊆ t) then Some (ar_value ar) else v))) e).
Proof.
  intros Har Ht tw. unfold v2_applyOne. rewrite includedIn_spec. cbn [gm_tab default from_option id with_tags ev_Tags].
  change (gm_tab (Some ?x)) with x.
  rewrite (bool_decide_ext _ (ar_tags ar ⊆ t)) by (by apply tag_with_sub).
  case_bool_decide; [|done].
  replace (match ar_value ar with AStr s => s | v => Sprint v end) with (Sprint (ar_value ar)) by (by destruct (ar_value ar)).
  subst tw. destruct v; cbn; unfold with_tags; cbn; by rewrite ?insert_insert_eq.
Qed.

(** The rules of a table one after the other. *)
Lemma v2_apply_loop r (ars : list applyRule) e (t : gmap string string) (v : option any) :
  Forall (fun ar => ar_tags ar !! r_TagName r = None) ars -> t !! r_TagName r = None ->
  let tw v := tag_with (mkValueTag (r_TagName r) "" false) v t in
  foldM (v2_applyOne r) ars (with_tags (Some (tw v)) e) =
  Ok (with_tags (Some (tw (foldl (fun acc ar => if bool_decide (ar_tags ar ⊆ t) then Some (ar_value ar) else acc) v ars))) e).
Proof.
  intros Hars Ht tw. revert v; induction Hars as [|ar ars Har Hars IH]; intros v; cbn [foldM foldl]; [done|].
  pose proof (v2_applyOne_ok r ar e t v Har Ht) as Ho. cbv zeta beta in Ho. subst tw. cbv beta in IH |- *.
  rewrite Ho. cbn [mbind go_bind]. apply IH.
Qed.

(** One rule of event-value-tag-v2 on an event with tags, when neither
    the event nor a stored rule has the new tag. The event's own value, if it
    has one, is stored under the key of its tags before rules are applied.
    The new tag is set exactly when the tags include those of some stored
    rule, to the printed value of such a rule; which one, when several with
    different values are included, is up to the map iteration order, and when
    all agree it is that value. *)
Theorem v2_rule_spec (r : rule) (table : gmap Z applyRule) (e : EventMsg) (t : gmap string string) :
  ev_Tags e = Some t -> t !! r_TagName r = None ->
  map_Forall (fun _ ar => ar_tags ar !! r_TagName r = None) table ->
  exists table' e', v2_rule r table e = Ok (table', e') /\
    table' = (match gm_get (ev_Values e) (r_ValueName r) with
              | Some v => <[applyRuleKey (Some t) r := mkApplyRule t v]> table
              | None => table
              end) /\
    ((exists k ar, table' !! k = Some ar /\ ar_tags ar ⊆ t /\
        ev_Tags e' = Some (<[r_TagName r := Sprint (ar_value ar)]> t))
     \/ ((forall k ar, table' !! k = Some ar -> ~ ar_tags ar ⊆ t) /\ ev_Tags e' = Some t)).
Proof.
  intros Ht Hn Htab. unfold v2_rule, v2_store. rewrite Ht.
  set (table' := match gm_get (ev_Values e) (r_ValueName r) with
              | Some v => <[applyRuleKey (Some t) r := mkApplyRule t v]> table
              | None => table end).
  assert (exists e0, ev_Tags e0 = Some t /\
    match gm_get (ev_Values e) (r_ValueName r) with
    | Some v => (<[applyRuleKey (Some t) r := mkApplyRule (gm_tab (Some t)) v]> table,
       if r_Consume r then with_values (gm_del (r_ValueName r) (ev_Values e)) e else e)
    | None => (table, e)
    end = (table', e0)) as (e0 & Ht0 & ->).
  { subst table'. destruct (gm_get _ _); [|by eexists]. eexists; split; [|done]. by destruct (r_Consume r). }
  assert (map_Forall (fun _ ar => ar_tags ar !! r_TagName r = None) table') as Htab'.
  { subst table'. destruct (gm_get _ _); [|done]. by apply map_Forall_insert_2. }
  replace e0 with (with_tags (Some t) e0) by (destruct e0; cbn in *; by subst).
  assert (Forall (fun ar => ar_tags ar !! r_TagName r = None) (range table').*2) as Hall.
  { apply Forall_fmap, Forall_forall. intros [k ar] Hk%elem_of_range. by apply (Htab' k). }
  rewrite (v2_apply_loop r _ e0 t None Hall Hn : foldM _ _ (with_tags (Some t) e0) = _). cbn [mbind go_bind].
  do 2 eexists. split; [done|]. split; [done|]. cbn [with_tags ev_Tags].
  assert (forall ars, match foldl (fun acc ar => if bool_decide (ar_tags ar ⊆ t) then Some (ar_value ar) else acc) None ars with
    | Some v => exists ar, ar ∈ ars /\ ar_tags ar ⊆ t /\ ar_value ar = v
    | None => forall ar, ar ∈ ars -> ~ ar_tags ar ⊆ t end) as Hlast.
  { intros ars. induction ars as [|ar ars IH] using rev_ind; [by intros ? ?%elem_of_nil|].
    rewrite foldl_snoc. case_bool_decide as Hb.
    - exists ar. split; [apply elem_of_app; right; by left|done].
    - destruct (foldl _ None ars) as [v|].
      + destruct IH as (ar' & ? & ?). exists ar'. split; [apply elem_of_app; by left|done].
      + intros ar' [?| ->%list_elem_of_singleton]%elem_of_app; [by apply IH|done]. }
  specialize (Hlast (range table').*2). destruct (foldl _ None _) as [v|].
  - left. destruct Hlast as (ar & ([k ar'] & -> & Hk%elem_of_range)%list_elem_of_fmap & Hsub & <-). eauto.
  - right. split; [|done]. intros k ar Hk. apply Hlast. apply list_elem_of_fmap.
    exists (k, ar). by rewrite elem_of_range.
Qed.
End value_tag_v2.

(** The key does not depend on the order in which the tags are visited. *)
Lemma applyRuleKey_order (o1 o2 : MapOrder) m r :
  applyRuleKey (H0 := o1) m r = applyRuleKey (H0 := o2) m r.
Proof.
  unfold applyRuleKey. f_equal. apply sort_strings_det. by rewrite !(range_perm (MapOrder := _)).
Qed.

Lemma v2_rule_spec_witness :
  let r := mkRule "role" "role-value" true in
  let e := mkEvent "s" 1 (Some {["if" := "e0"]}) (Some {["c" := AInt KInt 5]}) None in
  let table := {[ 7 := mkApplyRule {["if" := "e0"]} (AStr "core") ]} in
  exists table' e', v2_rule (H := fmt_none) (H0 := order_fwd) r table e = Ok (table', e') /\
    ev_Tags e' = Some {["if" := "e0"; "role" := "core"]}.
Proof.
  cbn zeta.
  destruct (v2_rule_spec (H := fmt_none) (H0 := order_fwd) (mkRule "role" "role-value" true)
    {[ 7 := mkApplyRule {["if" := "e0"]} (AStr "core") ]}
    (mkEvent "s" 1 (Some {["if" := "e0"]}) (Some {["c" := AInt KInt 5]}) None) {["if" := "e0"]})
    as (table' & e' & He & Htab & Hres).
  - reflexivity.
  - vm_compute. reflexivity.
  - apply map_Forall_singleton. vm_compute. reflexivity.
  - exists table', e'. split; [exact He|]. cbn in Htab. subst table'.
    destruct Hres as [(k & ar & Hk & _ & Ht)|[Hno _]].
    + apply lookup_singleton_Some in Hk as [_ <-]. rewrite Ht. vm_compute. reflexivity.
    + exfalso. apply (Hno 7 (mkApplyRule {["if" := "e0"]} (AStr "core"))).
      * apply lookup_singleton_eq.
      * reflexivity.
Defined.

(** Two stored rules include the tags of an event: the tag it gets depends on
    the map iteration order, and its own value may lose to an older one. *)
Example v2_two_outcomes :
  let vt := mkValueTagV2 [mkRule "role" "v" false] [∅] in
  let es := [Some (mkEvent "s" 1 (Some ∅) (Some {["v" := AStr "old"]}) None);
             Some (mkEvent "s" 2 (Some {["if" := "e0"]}) (Some {["v" := AStr "new"]}) None)] in
  snd <$> valueTagV2_Apply (H := fmt_none) (H0 := order_fwd) vt es
  <> snd <$> valueTagV2_Apply (H := fmt_none) (H0 := order_bwd) vt es.
Proof. vm_compute. discriminate. Qed.

Definition valueTagV2_proc `{FmtEnv} `{MapOrder} : EventProcessor valueTagV2 := {| Apply := valueTagV2_Apply |}.

(** One table for each rule. *)
Definition v2_inv (vt : valueTagV2) : Prop := length (v2_applyRules vt) = length (v2_Rules vt).

Lemma valueTagV2_Init_inv `{Decode (list rule)} cfg vt : valueTagV2_Init cfg = Ok vt -> v2_inv vt.
Proof.
  unfold valueTagV2_Init. intros (rules & _ & [= <-])%bind_ok. unfold v2_inv. cbn.
  by rewrite length_replicate.
Qed.

Section v2_safe.
Context `{FmtEnv} `{MapOrder}.

Lemma v2_applyOne_total r ars e :
  is_Some (ev_Tags e) -> exists e', foldM (v2_applyOne r) ars e = Ok e' /\ is_Some (ev_Tags e').
Proof.
  revert e; induction ars as [|ar ars IH]; intros e He; cbn; [by eexists|].
  assert (exists e1, v2_applyOne r e ar = Ok e1 /\ is_Some (ev_Tags e1)) as (e1 & -> & He1); [|by apply IH].
  unfold v2_applyOne. destruct (includedIn _ _); [|by eexists]. destruct He as [t ->]; cbn.
  eexists. split; [done|]. by eexists.
Qed.

Lemma v2_rules_total rules tables e :
  length tables = length rules -> is_Some (ev_Tags e) ->
  exists tables' e', v2_rules rules tables e = Ok (tables', e') /\ length tables' = length rules /\ is_Some (ev_Tags e').
Proof.
  revert tables e; induction rules as [|r rules IH]; intros [|table tables] e Hl He; cbn in Hl; try done.
  - by do 2 eexists.
  - cbn [v2_rules]. unfold v2_rule. destruct (v2_store r table e) as [table' e0] eqn:E.
    assert (is_Some (ev_Tags e0)) as He0.
    { unfold v2_store in E. destruct (gm_get _ _); injection E as <- <-; [|done]. by destruct (r_Consume r). }
    destruct (v2_applyOne_total r (range table').*2 e0 He0) as (e1 & -> & He1). cbn.
    destruct (IH tables e1) as (tables' & e' & -> & Hl' & He'); [lia|done|]. cbn.
    do 2 eexists. split; [done|]. cbn. split; [lia|done].
Qed.

Lemma valueTagV2_safe : SafeProcessor valueTagV2_proc v2_inv.
Proof.
  split. intros [rules tables] es Hinv Hes. unfold v2_inv in Hinv; cbn in Hinv. cbn.
  unfold valueTagV2_Apply; cbn [v2_Rules v2_applyRules].
  assert (forall out, Forall ok_event out -> exists tables' es',
    foldM (fun '(tables, out) ev =>
      match ev with
      | None => Panic
      | Some ev =>
          '(tables, ev) ← v2_rules rules tables ev;
          Ok (tables, out ++ [Some ev])
      end) es (tables, out) = Ok (tables', es') /\ length tables' = length rules /\ Forall ok_event es') as Hl.
  { revert tables Hinv. induction Hes as [|e es He Hes IH]; intros tables Hinv out Hout; cbn [foldM].
    - by do 2 eexists.
    - destruct e as [e|]; [|done].
      destruct (v2_rules_total rules tables e Hinv He) as (tables' & e' & -> & Hl & He').
      cbn [mbind go_bind]. apply IH; [done|]. apply Forall_app. split; [done|]. by repeat constructor. }
  destruct (Hl [] (Forall_nil_2 _)) as (tables' & es' & -> & Hlen & Hok). cbn. do 2 eexists. by split.
Qed.
End v2_safe.
