(* ===== verification/Group.v ===== *)
(** * Grouping processors: event-merge, event-group-by, event-override-ts

    [merge] folds the events of a batch into one, or into one for each
    timestamp; [groupBy] folds the events with the same values of some tags
    into one. event-group-by has two implementations, keyed by a 64-bit hash
    ([byTags]) and by the key itself ([byTagsOld]). Events are values here:
    the processors are given distinct events, as the pipeline does. *)

From S2P Require Import Prelude GoStrings Utf8 Path GoVal Event Processor Filters Tags.
From stdpp Require Import strings sorting.

#[local] Open Scope Z_scope.

(** ** event-merge *)

Record merge := mkMerge { m_Always : bool }.

Definition merge_Init `{Decode merge} (cfg : any) : go init_error merge := decode cfg.

(** [append(d1, d2...)]: nil when nothing was there and nothing is added. *)
Definition append_opt {A} (d1 d2 : option (list A)) : option (list A) :=
  match d1, default [] d2 with
  | None, [] => None
  | _, l => Some (default [] d1 ++ l)
  end.

Section merge.
Context `{MapOrder}.

(** [for n, t := range src { dst[n] = t }]. *)
Definition copy_into {V} (dst src : gmap string V) : gmap string V :=
  foldl (fun m kv => <[kv.1 := kv.2]> m) dst (range src).

Lemma copy_into_union {V} (dst src : gmap string V) : copy_into dst src = src ∪ dst.
Proof.
  unfold copy_into. rewrite foldl_insert_list_to_map by apply NoDup_range_fst.
  by rewrite range_list_to_map.
Qed.

Definition mergeEvents (e1 e2 : EventMsg) : EventMsg :=
  mkEvent (ev_Name e1)
    (if ev_Timestamp e1 <? ev_Timestamp e2 then ev_Timestamp e2 else ev_Timestamp e1)
    (Some (copy_into (gm_tab (ev_Tags e1)) (gm_tab (ev_Tags e2))))
    (Some (copy_into (gm_tab (ev_Values e1)) (gm_tab (ev_Values e2))))
    (append_opt (ev_Deletes e1) (ev_Deletes e2)).

(** With [Always], every later event goes into the first one, which must not
    be nil then. *)
Definition merge_always (e0 : event) (es : events) : go event_error event :=
  foldM (fun e0 e => match e, e0 with
                     | None, _ => Ok e0
                     | Some _, None => Panic
                     | Some e, Some e0 => Ok (Some (mergeEvents e0 e))
                     end) es e0.

(** One result for each timestamp, and where it is in the list. *)
Definition merge_ts_step (st : list EventMsg * gmap Z nat) (e : event) : list EventMsg * gmap Z nat :=
  let '(result, timestamps) := st in
  match e with
  | None => st
  | Some e =>
      match timestamps !! ev_Timestamp e with
      | Some idx => (alter (fun e0 => mergeEvents e0 e) idx result, timestamps)
      | None => (result ++ [e], <[ev_Timestamp e := length result]> timestamps)
      end
  end.

Definition merge_Apply (p : merge) (es : events) : go event_error events :=
  match es with
  | [] => Ok []
  | e0 :: rest =>
      if m_Always p then e ← merge_always e0 rest; Ok [e]
      else Ok (Some <$> (foldl merge_ts_step ([], ∅) es).1)
  end.

(** *** Merging by timestamp *)

(** The distinct elements of a list, in the order they first appear. *)
Definition first_seen (l : list Z) : list Z :=
  foldl (fun acc x => if decide (x ∈ acc) then acc else acc ++ [x]) [] l.

(** A non-empty list of events merged into its first. *)
Definition merge_all (l : list EventMsg) : EventMsg :=
  match l with [] => zeroEvent | e :: l => foldl mergeEvents e l end.

Definition at_ts (t : Z) (es : list EventMsg) : list EventMsg := filter (fun e => ev_Timestamp e = t) es.

Lemma merge_all_snoc l e : l <> [] -> merge_all (l ++ [e]) = mergeEvents (merge_all l) e.
Proof. destruct l; [done|]. intros _. cbn. apply foldl_snoc. Qed.

Lemma first_seen_snoc l x :
  first_seen (l ++ [x]) = if decide (x ∈ first_seen l) then first_seen l else first_seen l ++ [x].
Proof. unfold first_seen. by rewrite foldl_snoc. Qed.

Lemma elem_of_first_seen l x : x ∈ first_seen l <-> x ∈ l.
Proof.
  induction l as [|y l IH] using rev_ind; [done|]. rewrite first_seen_snoc.
  case_decide; rewrite !elem_of_app, !list_elem_of_singleton; naive_solver.
Qed.

Lemma NoDup_first_seen l : NoDup (first_seen l).
Proof.
  induction l as [|y l IH] using rev_ind; [constructor|]. rewrite first_seen_snoc.
  case_decide; [done|]. apply NoDup_app. split; [done|]. split; [|by apply NoDup_singleton].
  intros x Hx ->%list_elem_of_singleton. done.
Qed.

Lemma at_ts_snoc t es e :
  at_ts t (es ++ [e]) = if decide (ev_Timestamp e = t) then at_ts t es ++ [e] else at_ts t es.
Proof.
  unfold at_ts. rewrite filter_app, filter_cons, filter_nil. case_decide; [done|]. by rewrite app_nil_r.
Qed.

Lemma at_ts_nonempty t es : t ∈ ev_Timestamp <$> es -> at_ts t es <> [].
Proof.
  intros (e & -> & He)%list_elem_of_fmap Hn.
  assert (e ∈ at_ts (ev_Timestamp e) es) as Hin by (apply list_elem_of_filter; done).
  rewrite Hn in Hin. by apply elem_of_nil in Hin.
Qed.

Lemma at_ts_empty t es : t ∉ ev_Timestamp <$> es -> at_ts t es = [].
Proof.
  intros Hn. destruct (at_ts t es) as [|e l] eqn:E; [done|]. destruct Hn.
  assert (e ∈ at_ts t es) as [<- He]%list_elem_of_filter by (rewrite E; by left).
  apply list_elem_of_fmap. eauto.
Qed.

Lemma merge_ts_inv es :
  let st := foldl merge_ts_step ([], ∅) (Some <$> es) in
  st.1 = (fun t => merge_all (at_ts t es)) <$> first_seen (ev_Timestamp <$> es) /\
  (forall t i, st.2 !! t = Some i <-> first_seen (ev_Timestamp <$> es) !! i = Some t).
Proof.
  induction es as [|e es IH] using rev_ind; [by split|].
  cbn zeta in *. rewrite !fmap_app, foldl_app. cbn [fmap list_fmap foldl].
  destruct (foldl merge_ts_step _ _) as [result ts]. destruct IH as [IH1 IH2]. cbn [fst snd] in *.
  rewrite first_seen_snoc. set (seen := first_seen (ev_Timestamp <$> es)) in *. cbn [merge_ts_step].
  assert (forall t, t ∈ seen -> at_ts t es <> []) as Hne.
  { intros t Ht. apply at_ts_nonempty. by apply elem_of_first_seen. }
  destruct (ts !! ev_Timestamp e) as [i|] eqn:Hts; cbn [fst snd].
  - apply IH2 in Hts as Hi. rewrite decide_True by (by eapply list_elem_of_lookup_2).
    split; [|done]. rewrite IH1. apply list_eq. intros j.
    destruct (decide (i = j)) as [<-|Hij].
    + rewrite list_lookup_alter_eq, !list_lookup_fmap, Hi. cbn. rewrite at_ts_snoc, decide_True by done.
      f_equal. symmetry. apply merge_all_snoc, Hne. by eapply list_elem_of_lookup_2.
    + rewrite list_lookup_alter_ne by done. rewrite !list_lookup_fmap.
      destruct (seen !! j) as [t|] eqn:Hj; cbn; [|done]. rewrite at_ts_snoc, decide_False; [done|].
      intros <-. apply Hij. eapply NoDup_lookup; [apply NoDup_first_seen|done..].
  - assert (ev_Timestamp e ∉ seen) as Hnew.
    { intros [i Hi]%list_elem_of_lookup_1. apply IH2 in Hi. congruence. }
    rewrite decide_False by done. split.
    + rewrite fmap_app, IH1. cbn. f_equal.
      * apply list_fmap_ext. intros i t Hi%list_elem_of_lookup_2. rewrite at_ts_snoc, decide_False; [done|].
        by intros <-.
      * rewrite at_ts_snoc, decide_True, at_ts_empty; [done| |done].
        intros Hin. by apply Hnew, elem_of_first_seen.
    + intros t i. assert (length result = length seen) as Hlen by (rewrite IH1; apply length_fmap).
      rewrite Hlen, lookup_app_Some, list_lookup_singleton_Some, <-IH2.
      destruct (decide (ev_Timestamp e = t)) as [<-|Hne'].
      * rewrite lookup_insert_eq, Hts. split; [intros [= <-]; right; lia|].
        intros [[=]|(? & ? & _)]. f_equal. lia.
      * rewrite lookup_insert_ne by done. naive_solver.
Qed.

(** Merging by timestamp yields one event for each distinct timestamp of
    the present events, in the order the timestamps first appear: the first
    event with it, with all later ones with the same timestamp merged into it
    in order. Merging keeps the name and the timestamp, the later event's tags
    and values win, and deletes are appended. *)
Theorem merge_by_timestamp (p : merge) (es : list EventMsg) :
  m_Always p = false ->
  merge_Apply p (Some <$> es) =
    Ok ((fun t => Some (merge_all (at_ts t es))) <$> first_seen (ev_Timestamp <$> es)) /\
  forall e1 e2, let e := mergeEvents e1 e2 in
    ev_Name e = ev_Name e1 /\ ev_Timestamp e = Z.max (ev_Timestamp e1) (ev_Timestamp e2) /\
    gm_tab (ev_Tags e) = gm_tab (ev_Tags e2) ∪ gm_tab (ev_Tags e1) /\
    gm_tab (ev_Values e) = gm_tab (ev_Values e2) ∪ gm_tab (ev_Values e1) /\
    default [] (ev_Deletes e) = default [] (ev_Deletes e1) ++ default [] (ev_Deletes e2).
Proof.
  intros Ha. split.
  - pose proof (merge_ts_inv es) as [Hm _]. unfold merge_Apply. rewrite Ha.
    destruct es as [|e es]; [done|]. cbn [fmap list_fmap] in *. f_equal.
    change (Some e :: list_fmap EventMsg (option EventMsg) Some es) with (Some <$> e :: es).
    cbn [fmap list_fmap]. rewrite Hm. by rewrite <-list_fmap_compose.
  - intros e1 e2. cbn. rewrite !copy_into_union. split; [done|]. split; [zcases|].
    split; [done|]. split; [done|]. unfold append_opt.
    by destruct (ev_Deletes e1), (ev_Deletes e2) as [[|]|].
Qed.
End merge.

Definition merge_proc `{MapOrder} : EventProcessor merge :=
  {| Apply p es := es ← merge_Apply p es; Ok (p, es) |}.

Lemma merge_by_timestamp_witness :
  let es := [mkEvent "a" 5 (Some {["x" := "1"]}) None None;
             mkEvent "b" 6 None (Some {["v" := ABool true]}) None;
             mkEvent "c" 5 (Some {["x" := "2"; "y" := "3"]}) None (Some ["d"])] in
  m_Always (mkMerge false) = false /\
  merge_Apply (H := order_bwd) (mkMerge false) (Some <$> es) =
    Ok [Some (mkEvent "a" 5 (Some {["x" := "2"; "y" := "3"]}) (Some ∅) (Some ["d"]));
        Some (mkEvent "b" 6 None (Some {["v" := ABool true]}) None)].
Proof.
  cbn zeta. split; [reflexivity|].
  rewrite (proj1 (merge_by_timestamp (H := order_bwd) (mkMerge false) _ eq_refl)).
  vm_compute. reflexivity.
Defined.

(** Present events. *)
Lemma ok_events_present es :
  Forall ok_event es -> exists l, es = Some <$> l /\ Forall (fun e => is_Some (ev_Tags e)) l.
Proof.
  induction 1 as [|[e|] es He Hes (l & -> & Hl)]; [by exists []| |done].
  exists (e :: l). split; [done|by constructor].
Qed.

Lemma merge_safe `{MapOrder} : SafeProcessor merge_proc always.
Proof.
  apply stateless_safe. intros p es (l & -> & Hl)%ok_events_present. cbn.
  destruct (m_Always p) eqn:Ha.
  - unfold merge_Apply. rewrite Ha. destruct l as [|e l]; [by exists []|].
    apply Forall_cons in Hl as [He Hl]. cbn [fmap list_fmap].
    assert (exists e', merge_always (Some e) (Some <$> l) = Ok (Some e') /\ is_Some (ev_Tags e')) as (e' & Hm & He').
    { clear Ha. revert e He. induction l as [|x l IH]; intros e He; cbn; [by eexists|].
      apply Forall_cons in Hl as [_ Hl]. apply IH; [done|]. by eexists. }
    change (list_fmap EventMsg (option EventMsg) Some l) with (Some <$> l). rewrite Hm. cbn.
    eexists. split; [done|]. by repeat constructor.
  - rewrite (proj1 (merge_by_timestamp p l Ha)). cbn. eexists. split; [done|].
    apply Forall_fmap, Forall_forall. intros t Ht. rewrite elem_of_first_seen in Ht. cbn.
    apply at_ts_nonempty in Ht. rewrite Forall_forall in Hl.
    assert (forall e, e ∈ at_ts t l -> is_Some (ev_Tags e)) as Hat.
    { intros e [_ He]%list_elem_of_filter. by apply Hl. }
    destruct (at_ts t l) as [|e es] using rev_ind; [done|].
    destruct es as [|e0 es]; [apply Hat; by left|].
    rewrite merge_all_snoc by done. by eexists.
Qed.

(** ** event-group-by *)

Record groupBy := mkGroupBy { g_Tags : list string; g_ByName : bool }.

Definition groupBy_Init `{Decode groupBy} (cfg : any) : go init_error groupBy := decode cfg.

Section group_by.
Context `{MapOrder}.

(** The key bytes of an event, [None] when a tag is missing; the hash of the
    new implementation is fed the same bytes one by one. *)
Fixpoint groupKey (tags : gomap string) (keys : list string) : option string :=
  match keys with
  | [] => Some ""
  | k :: keys =>
      v ← gm_get tags k;
      rest ← groupKey tags keys;
      Some (k +:+ ("=" +:+ (v +:+ ("|" +:+ rest))))
  end.

Fixpoint keyHash (h : Z) (tags : gomap string) (keys : list string) : option Z :=
  match keys with
  | [] => Some h
  | k :: keys =>
      v ← gm_get tags k;
      keyHash (fnv_write (fnv_write (fnv_write (fnv_write h k) "=") v) "|") tags keys
  end.
Definition generateKeyAndCheck (tags : gomap string) (keys : list string) : option Z :=
  keyHash fnv_offset tags keys.

(** The three loops that add an event to its group. *)
Definition addToGroup (group e : EventMsg) : EventMsg :=
  mkEvent (ev_Name group) (ev_Timestamp group)
    (Some (copy_into (gm_tab (ev_Tags group)) (gm_tab (ev_Tags e))))
    (Some (copy_into (gm_tab (ev_Values group)) (gm_tab (ev_Values e))))
    (match ev_Deletes e with
     | None => ev_Deletes group
     | Some d => append_opt (ev_Deletes group) (Some d)
     end).

(** [e == nil || e.Tags == nil || (e.Values == nil && e.Deletes == nil)]. *)
Definition skipped (e : EventMsg) : bool :=
  match ev_Tags e with
  | None => true
  | Some _ => match ev_Values e, ev_Deletes e with None, None => true | _, _ => false end
  end.

Definition byTags_step (p : groupBy) (st : events * gmap Z EventMsg) (e : event) : events * gmap Z EventMsg :=
  let '(result, groups) := st in
  match e with
  | None => st
  | Some e =>
      if skipped e then st
      else match generateKeyAndCheck (ev_Tags e) (g_Tags p) with
           | None => (result ++ [Some e], groups)
           | Some skey =>
               let group := default (mkEvent (ev_Name e) (ev_Timestamp e) (Some ∅) (Some ∅) (Some []))
                              (groups !! skey) in
               (result, <[skey := addToGroup group e]> groups)
           end
  end.

Definition byTags (p : groupBy) (es : events) : events :=
  match g_Tags p with
  | [] => es
  | _ =>
      let '(result, groups) := foldl (byTags_step p) ([], ∅) es in
      result ++ (Some <$> (range groups).*2)
  end.

(** [byTagsOld]: groups keyed by the string, and their keys as they appear. *)
Definition byTagsOld_step (p : groupBy) (st : events * gmap string EventMsg * list string) (e : event)
    : events * gmap string EventMsg * list string :=
  let '(result, groups, keys) := st in
  match e with
  | None => st
  | Some e =>
      if skipped e then st
      else match groupKey (ev_Tags e) (g_Tags p) with
           | None => (result ++ [Some e], groups, keys)
           | Some skey =>
               let '(group, keys) := match groups !! skey with
                 | Some g => (g, keys)
                 | None => (mkEvent (ev_Name e) (ev_Timestamp e) (Some ∅) (Some ∅) None, keys ++ [skey])
                 end in
               (result, <[skey := addToGroup group e]> groups, keys)
           end
  end.

Definition byTagsOld (p : groupBy) (es : events) : events :=
  match g_Tags p with
  | [] => es
  | _ =>
      let '(result, groups, keys) := foldl (byTagsOld_step p) ([], ∅, []) es in
      result ++ ((fun k => groups !! k) <$> sort_strings keys)
  end.

(** [Apply]: with [ByName], the events of each name are grouped apart, in the
    order of the names. *)
Definition byName_step (st : gmap string events * list string) (e : event)
    : go event_error (gmap string events * list string) :=
  let '(groups, names) := st in
  match e with
  | None => Panic
  | Some ev =>
      let names := match groups !! ev_Name ev with None => names ++ [ev_Name ev] | Some _ => names end in
      Ok (<[ev_Name ev := default [] (groups !! ev_Name ev) ++ [e]]> groups, names)
  end.

Definition groupBy_Apply (p : groupBy) (es : events) : go event_error events :=
  if negb (g_ByName p) then Ok (byTags p es)
  else
    '(groups, names) ← foldM byName_step es (∅, []);
    Ok (sort_strings names ≫= fun n => byTags p (default [] (groups !! n))).

(** *** The two implementations agree *)

(** An event up to an empty delete list being nil or not. *)
Definition canon_deletes (e : EventMsg) : EventMsg :=
  mkEvent (ev_Name e) (ev_Timestamp e) (ev_Tags e) (ev_Values e)
    (match ev_Deletes e with Some [] => None | d => d end).

Lemma keyHash_key h tags keys :
  keyHash h tags keys = fnv_write h <$> groupKey tags keys.
Proof.
  revert h; induction keys as [|k keys IH]; intros h; [done|].
  cbn [keyHash groupKey]. destruct (gm_get tags k) as [v|]; cbn [mbind option_bind]; [|done]. rewrite IH.
  destruct (groupKey tags keys); cbn [mbind option_bind fmap option_fmap option_map]; [|done].
  by rewrite !fnv_write_app.
Qed.

Lemma generateKey_hash tags keys : generateKeyAndCheck tags keys = fnv1a <$> groupKey tags keys.
Proof. apply keyHash_key. Qed.

Lemma canon_addToGroup g1 g2 e :
  canon_deletes g1 = canon_deletes g2 -> canon_deletes (addToGroup g1 e) = canon_deletes (addToGroup g2 e).
Proof.
  destruct g1 as [n1 t1 tg1 v1 d1], g2 as [n2 t2 tg2 v2 d2]. unfold canon_deletes, addToGroup; cbn.
  intros [= -> -> -> -> Hd]. f_equal. unfold append_opt.
  destruct (ev_Deletes e) as [[|x l]|], d1 as [[|]|], d2 as [[|]|]; cbn in *; congruence.
Qed.

(** The groups of the two runs, for keys without a collision. *)
Definition no_collision (K : string -> Prop) : Prop :=
  forall s1 s2, K s1 -> K s2 -> fnv1a s1 = fnv1a s2 -> s1 = s2.

Record groups_agree (K : string -> Prop) (new : gmap Z EventMsg) (old : gmap string EventMsg) : Prop := {
  ga_lookup : forall s, K s -> canon_deletes <$> new !! fnv1a s = canon_deletes <$> old !! s;
  ga_new : forall h, is_Some (new !! h) -> exists s, K s /\ h = fnv1a s;
  ga_old : forall s, is_Some (old !! s) -> K s
}.

Lemma groups_agree_insert K new old s g g' :
  no_collision K -> groups_agree K new old -> K s -> canon_deletes g = canon_deletes g' ->
  groups_agree K (<[fnv1a s := g]> new) (<[s := g']> old).
Proof.
  intros Hnc [Hl Hn Ho] Hs Hg. split.
  - intros s' Hs'. destruct (decide (s = s')) as [<-|Hne].
    + rewrite !lookup_insert_eq. cbn. by rewrite Hg.
    + rewrite !lookup_insert_ne; [by apply Hl|done|]. intros Hh. by apply Hne, Hnc.
  - intros h [g0 [[<- _]|[_ Hh]]%lookup_insert_Some]; [by exists s|]. apply Hn. eauto.
  - intros s' [g0 [[<- _]|[_ Hh]]%lookup_insert_Some]; [done|]. apply Ho. eauto.
Qed.

Lemma groups_agree_values K new old (ks : list string) :
  no_collision K -> groups_agree K new old -> NoDup ks -> (forall s, s ∈ ks <-> is_Some (old !! s)) ->
  (canon_deletes <$> (map_to_list new).*2) ≡ₚ (canon_deletes <$> omap (fun k => old !! k) ks).
Proof.
  intros Hnc [Hl Hn Ho] Hks Hdom.
  assert ((map_to_list new).*1 ≡ₚ fnv1a <$> ks) as Hkeys.
  { apply NoDup_Permutation; [apply NoDup_fst_map_to_list| |].
    - apply NoDup_fmap_2_strong; [|done]. intros s1 s2 H1 H2. apply Hnc; apply Ho, Hdom; done.
    - intros h. split.
      + intros ([h' g] & -> & Hg%elem_of_map_to_list)%list_elem_of_fmap. cbn.
        destruct (Hn h') as (s & Hs & ->); [eauto|]. apply list_elem_of_fmap. exists s. split; [done|].
        apply Hdom. specialize (Hl s Hs). rewrite Hg in Hl. destruct (old !! s); [eauto|done].
      + intros (s & -> & Hs)%list_elem_of_fmap. apply Hdom in Hs as [g Hg].
        specialize (Hl s (Ho s (mk_is_Some _ _ Hg))). rewrite Hg in Hl.
        destruct (new !! fnv1a s) as [g'|] eqn:E; [|done]. apply list_elem_of_fmap.
        exists (fnv1a s, g'). by rewrite elem_of_map_to_list. }
  assert ((map_to_list new).*2 = omap (fun h => new !! h) (map_to_list new).*1) as ->.
  { assert (forall kv, kv ∈ map_to_list new -> new !! kv.1 = Some kv.2) as Hin.
    { intros [k v] Hk. by apply elem_of_map_to_list in Hk. }
    clear Hkeys. induction (map_to_list new) as [|[h g] l IH]; [done|]. cbn.
    pose proof (Hin (h, g) ltac:(by left)) as Hh. cbn in Hh. rewrite Hh. cbn. f_equal. apply IH. intros; apply Hin. by right. }
  rewrite Hkeys. clear Hkeys. apply Permutation_refl'.
  assert (forall s, s ∈ ks -> K s) as HK by (intros; by apply Ho, Hdom).
  clear Hks Hdom. induction ks as [|s ks IH]; [done|]. cbn.
  specialize (Hl s (HK s ltac:(by left))) as Hs.
  destruct (new !! fnv1a s), (old !! s); cbn [fmap option_fmap option_map] in Hs; try done.
  - apply (inj Some) in Hs. cbn [fmap list_fmap]. rewrite Hs. f_equal. apply IH. intros; apply HK; by right.
  - apply IH. intros; apply HK; by right.
Qed.

(** The string keys of the events of a batch that are grouped. *)
Definition batch_key (p : groupBy) (es : events) (s : string) : Prop :=
  exists e, Some e ∈ es /\ groupKey (ev_Tags e) (g_Tags p) = Some s.

Definition is_new_key (old : gmap string EventMsg) (ks : list string) : Prop :=
  NoDup ks /\ forall s, s ∈ ks <-> is_Some (old !! s).

Lemma byTags_run (K : string -> Prop) p es :
  no_collision K -> (forall s, batch_key p es s -> K s) ->
  let new := foldl (byTags_step p) ([], ∅) es in
  let old := foldl (byTagsOld_step p) ([], ∅, []) es in
  new.1 = old.1.1 /\ groups_agree K new.2 old.1.2 /\ is_new_key old.1.2 old.2.
Proof.
  intros Hnc HK. induction es as [|e es IH] using rev_ind.
  { cbn [foldl fst snd]. split; [done|]. split.
    - split; [by intros; rewrite !lookup_empty|intros h [? []%lookup_empty_Some]|intros s [? []%lookup_empty_Some]].
    - split; [constructor|]. intros s. rewrite lookup_empty. split; [by intros []%elem_of_nil|by intros [? [=]]]. }
  cbn zeta in *. rewrite !foldl_snoc.
  destruct IH as (Hr & Hg & Hk).
  { intros s (e0 & He0 & Hs). apply HK. exists e0. split; [apply elem_of_app; by left|done]. }
  destruct (foldl (byTags_step p) _ es) as [r1 g1], (foldl (byTagsOld_step p) _ es) as [[r2 g2] ks]. cbn in Hr, Hg, Hk.
  subst r2. destruct e as [e|]; cbn [byTags_step byTagsOld_step]; [|done].
  destruct (skipped e); [done|]. rewrite generateKey_hash.
  destruct (groupKey (ev_Tags e) (g_Tags p)) as [s|] eqn:Es; cbn [fmap option_fmap option_map]; [|done].
  assert (K s) as HKs.
  { apply HK. exists e. split; [apply elem_of_app; right; by left|done]. }
  pose proof (ga_lookup _ _ _ Hg s HKs) as Hl. destruct Hk as [Hnd Hdom].
  destruct (g2 !! s) as [g|] eqn:E2, (g1 !! fnv1a s) as [g'|] eqn:E1; cbn in Hl; try done; cbn [default from_option id fst snd].
  - injection Hl as Hl1 Hl2 Hl3 Hl4 Hl5. split; [done|]. split.
    + apply groups_agree_insert; [done..|]. apply canon_addToGroup. unfold canon_deletes. congruence.
    + split; [done|]. intros s'. rewrite Hdom. destruct (decide (s = s')) as [<-|].
      * rewrite lookup_insert_eq, E2. by split; eauto.
      * by rewrite lookup_insert_ne.
  - split; [done|]. split.
    + apply groups_agree_insert; [done..|]. by apply canon_addToGroup.
    + split.
      * apply NoDup_app. split; [done|]. split; [|by apply NoDup_singleton].
        intros s' Hs' ->%list_elem_of_singleton. apply Hdom in Hs' as [? ?]. congruence.
      * intros s'. rewrite elem_of_app, list_elem_of_singleton, Hdom. destruct (decide (s = s')) as [<-|].
        -- rewrite lookup_insert_eq. split; eauto.
        -- rewrite lookup_insert_ne by done. split; [by intros [|]|by left].
Qed.

(** When the 64-bit hash has no collision among the keys of a batch, the
    hash-keyed grouping yields the same events as the string-keyed one, up to
    their order and to an empty delete list being nil; the events that are not
    grouped come first, in order, in both. *)
Theorem byTags_equiv (p : groupBy) (es : events) :
  no_collision (batch_key p es) ->
  option_map canon_deletes <$> byTags p es ≡ₚ option_map canon_deletes <$> byTagsOld p es.
Proof.
  intros Hnc. unfold byTags, byTagsOld. destruct (g_Tags p) as [|t ts] eqn:Et; [done|].
  pose proof (byTags_run (batch_key p es) p es Hnc (fun s Hs => Hs)) as (Hr & Hg & Hnd & Hdom).
  destruct (foldl (byTags_step p) _ es) as [r1 g1], (foldl (byTagsOld_step p) _ es) as [[r2 g2] ks].
  cbn in Hr, Hg, Hnd, Hdom. subst r2. rewrite !fmap_app. f_equiv.
  pose proof (groups_agree_values _ _ _ ks Hnc Hg Hnd Hdom) as Hv.
  rewrite (range_perm g1), (sort_strings_perm ks).
  assert (option_map canon_deletes <$> ((fun k => g2 !! k) <$> ks)
    = Some <$> (canon_deletes <$> omap (fun k => g2 !! k) ks)) as ->.
  { clear Hv Hnd. assert (forall s, s ∈ ks -> is_Some (g2 !! s)) as Hs by (intros s; apply Hdom). clear Hdom.
    induction ks as [|s ks IH]; [done|]. cbn. destruct (Hs s) as [g Hgs]; [by left|]. rewrite Hgs. cbn.
    f_equal. apply IH. intros; apply Hs; by right. }
  rewrite <-Hv, <-!list_fmap_compose. done.
Qed.
End group_by.

Definition ex_group : events :=
  [Some (mkEvent "s" 1 (Some {["if" := "e0"]}) (Some {["in" := AInt KInt 1]}) None);
   Some (mkEvent "s" 2 (Some {["if" := "e1"]}) (Some {["in" := AInt KInt 2]}) None);
   Some (mkEvent "s" 3 (Some {["if" := "e0"; "x" := "1"]}) (Some {["out" := AInt KInt 3]}) (Some ["d"]));
   Some (mkEvent "s" 4 (Some {["z" := "1"]}) (Some ∅) None)].

Lemma byTags_equiv_witness :
  no_collision (batch_key (mkGroupBy ["if"] false) ex_group) /\
  option_map canon_deletes <$> byTags (H := order_bwd) (mkGroupBy ["if"] false) ex_group
    ≡ₚ option_map canon_deletes <$> byTagsOld (H := order_bwd) (mkGroupBy ["if"] false) ex_group.
Proof.
  assert (no_collision (batch_key (mkGroupBy ["if"] false) ex_group)) as Hnc.
  { assert (forall s, batch_key (mkGroupBy ["if"] false) ex_group s -> s = "if=e0|" \/ s = "if=e1|") as Hk.
    { intros s (e & He & Hs). unfold ex_group in He.
      repeat (apply elem_of_cons in He as [He|He]; [injection He as ->; vm_compute in Hs; try discriminate Hs;
        injection Hs as <-; auto|]). by apply elem_of_nil in He. }
    intros s1 s2 [->| ->]%Hk [->| ->]%Hk Hh; try reflexivity; vm_compute in Hh; discriminate Hh. }
  split; [exact Hnc|].
  rewrite (byTags_equiv (H := order_bwd) _ _ Hnc). reflexivity.
Defined.

Definition groupBy_proc `{MapOrder} : EventProcessor groupBy :=
  {| Apply p es := es ← groupBy_Apply p es; Ok (p, es) |}.

Section group_safe.
Context `{MapOrder}.

Lemma byTags_ok p es : Forall ok_event es -> Forall ok_event (byTags p es).
Proof.
  intros Hes. unfold byTags. destruct (g_Tags p) as [|t ts] eqn:Et; [done|].
  assert (forall st, Forall ok_event st.1 -> map_Forall (fun _ g => is_Some (ev_Tags g)) st.2 ->
    let st' := foldl (byTags_step p) st es in
    Forall ok_event st'.1 /\ map_Forall (fun _ g => is_Some (ev_Tags g)) st'.2) as Hl.
  { induction Hes as [|e es He Hes IH]; intros st H1 H2; cbn; [done|]. apply IH; clear IH.
    - destruct st as [r g], e as [e|]; cbn in *; [|done]. destruct (skipped e); [done|].
      destruct (generateKeyAndCheck _ _); [done|]. apply Forall_app. split; [done|]. by repeat constructor.
    - destruct st as [r g], e as [e|]; cbn in *; [|done]. destruct (skipped e); [done|].
      destruct (generateKeyAndCheck _ _); [|done]. apply map_Forall_insert_2; [by eexists|done]. }
  destruct (Hl ([], ∅)) as [H1 H2]; [constructor|apply map_Forall_empty|].
  destruct (foldl _ _ es) as [r g]. cbn in *. apply Forall_app. split; [done|].
  apply Forall_fmap, Forall_fmap, Forall_forall. intros [k e] Hk%elem_of_range. by apply (H2 k).
Qed.

Lemma groupBy_safe : SafeProcessor groupBy_proc always.
Proof.
  apply stateless_safe. intros p es Hes. cbn. unfold groupBy_Apply.
  destruct (negb (g_ByName p)); cbn; [eexists; split; [done|by apply byTags_ok]|].
  assert (forall st, map_Forall (fun _ g => Forall ok_event g) st.1 -> exists st',
    foldM byName_step es st = Ok st' /\ map_Forall (fun _ g => Forall ok_event g) st'.1) as Hl.
  { induction Hes as [|e es He Hes IH]; intros [g names] Hg; cbn; [by eexists|].
    destruct e as [e|]; [|done]. cbn. apply IH. cbn. apply map_Forall_insert_2; [|done].
    apply Forall_app. split; [|by repeat constructor].
    destruct (g !! ev_Name e) as [l|] eqn:E; cbn; [by apply (Hg _ _ E)|constructor]. }
  destruct (Hl (∅, [])) as ([g names] & -> & Hg); [apply map_Forall_empty|]. cbn.
  eexists. split; [done|]. apply Forall_bind, Forall_forall. intros n _. apply byTags_ok.
  destruct (g !! n) as [l|] eqn:E; cbn; [by apply (Hg _ _ E)|constructor].
Qed.
End group_safe.

(** ** event-override-ts *)

(** Readings of the wall clock, in nanoseconds, one for each call. *)
Class Clock : Type := { now : nat -> Z }.

Record overrideTS := mkOverrideTS { o_Precision : string; o_reads : nat }.

Definition override_Init `{Decode overrideTS} (cfg : any) : go init_error overrideTS :=
  o ← decode cfg;
  Ok (mkOverrideTS (if String.eqb (o_Precision o) "" then "ns" else o_Precision o) 0).

(** [now.Unix()] rounds down, the divisions of [UnixNano] toward zero. *)
Definition override_ts (precision : string) (nanos : Z) (e : EventMsg) : EventMsg :=
  if String.eqb precision "s" then with_ts (nanos / 1000000000) e
  else if String.eqb precision "ms" then with_ts (Z.quot nanos 1000000) e
  else if String.eqb precision "us" then with_ts (Z.quot nanos 1000) e
  else if String.eqb precision "ns" then with_ts nanos e
  else e.

Definition override_Apply `{Clock} (o : overrideTS) (es : events) : overrideTS * events :=
  foldl (fun '(o, out) e =>
    match e with
    | None => (o, out ++ [None])
    | Some e => (mkOverrideTS (o_Precision o) (S (o_reads o)),
                 out ++ [Some (override_ts (o_Precision o) (now (o_reads o)) e)])
    end) (o, []) es.

Definition override_proc `{Clock} : EventProcessor overrideTS := {| Apply o es := Ok (override_Apply o es) |}.

Lemma override_safe `{Clock} : SafeProcessor override_proc always.
Proof.
  split. intros o es _ Hes. cbn. unfold override_Apply.
  assert (forall o out, Forall ok_event out -> Forall ok_event (foldl (fun '(o, out) e =>
    match e with
    | None => (o, out ++ [None])
    | Some e => (mkOverrideTS (o_Precision o) (S (o_reads o)),
                 out ++ [Some (override_ts (o_Precision o) (now (o_reads o)) e)])
    end) (o, out) es).2) as Hl.
  { induction Hes as [|e es He Hes IH]; intros o' out Hout; [done|].
    destruct e as [e|]; [|done]. cbn [foldl]. apply IH. apply Forall_app. split; [done|].
    constructor; [|constructor]. unfold override_ts. by repeat case_match. }
  specialize (Hl o [] (Forall_nil_2 _)). destruct (foldl _ _ es) as [o' es']. by exists o', es'.
Qed.
