(* ===== verification/Control.v ===== *)
(** * Stateful processors: event-combine, event-trigger, event-rate-limit

    [combine] sends the events that satisfy a condition through each of its
    processors; [trigger] runs actions when enough events satisfy a condition
    within a window of time; [rateLimit] drops events with the same tags that
    follow each other too fast. The LRU cache, the SHA-256 hash and the actions
    are parameters; [sort.Slice], which is not stable, is any sorting
    permutation. Times are nanoseconds as unbounded integers. *)

From Stdlib Require Import Floats.SpecFloat.
From stdpp Require Import strings sorting.
From S2P Require Import Prelude GoStrings Utf8 Path GoVal Rounding Text Event Processor Filters Tags Group.

#[local] Open Scope Z_scope.

(** ** event-combine *)

Definition ts_le (e1 e2 : EventMsg) : Prop := ev_Timestamp e1 <= ev_Timestamp e2.
#[export] Instance ts_le_dec : RelDecision ts_le.
Proof. unfold RelDecision, ts_le. apply _. Defined.
#[export] Instance ts_le_total : Total ts_le.
Proof. intros e1 e2. unfold ts_le. lia. Qed.
#[export] Instance ts_le_trans : Transitive ts_le.
Proof. intros e1 e2 e3. unfold ts_le. lia. Qed.

(** [sort.Slice] by timestamp: sorted, a permutation, nothing about ties. *)
Class SortSlice : Type := {
  sort_by_ts : list EventMsg -> list EventMsg;
  sort_by_ts_perm : forall l, sort_by_ts l ≡ₚ l;
  sort_by_ts_sorted : forall l, Sorted ts_le (sort_by_ts l)
}.
Definition sort_stable : SortSlice := {|
  sort_by_ts := merge_sort ts_le;
  sort_by_ts_perm := merge_sort_Permutation ts_le;
  sort_by_ts_sorted := Sorted_merge_sort ts_le
|}.

(** One configured processor of the sequence, over any processor type. *)
Record procseq `{Gojq} (P : Type) := mkProcseq { ps_condition : option jq_code; ps_proc : P }.
Arguments mkProcseq {_ P}.
Arguments ps_condition {_ P}.
Arguments ps_proc {_ P}.

Record procseqConfig := mkProcseqConfig { psc_Condition : string; psc_Name : string }.

Section combine.
Context `{Gojq} `{SortSlice} {P : Type} (ep : EventProcessor P).

(** [Init]; [initProc] looks the definition of a processor up by name, and
    initialises it. *)
Definition combine_Init1 (initProc : string -> go init_error P) (c : option procseqConfig)
    : go init_error (procseq P) :=
  match c with
  | None => Err (errConfig "missing processor definition")
  | Some c =>
      if String.eqb (psc_Name c) "" then Err (errConfig "invalid processor definition: missing name")
      else
        code ← (if String.eqb (psc_Condition c) "" then Ok None
                else Some <$> initCondition (trim_space (psc_Condition c)));
        p ← initProc (psc_Name c);
        Ok (mkProcseq code p)
  end.
Definition combine_Init `{Decode (list (option procseqConfig))} (initProc : string -> go init_error P)
    (cfg : any) : go init_error (list (procseq P)) :=
  l ← decode cfg;
  if nilb l then Err (errConfig "missing processors definition") else mapE (combine_Init1 initProc) l.

(** The loop that separates the events a condition holds for; a condition that
    fails counts as false. *)
Definition combine_split (code : option jq_code) (es : events) : go event_error (events * events) :=
  foldM (fun '(inn, out) e =>
    match CheckCondition code e with
    | Ok true => Ok (inn ++ [e], out)
    | Ok false | Err _ => Ok (inn, out ++ [e])
    | Panic => Panic
    end) es ([], []).

(** Sorting dereferences every event when there are two or more. *)
Definition sort_events (es : events) : go event_error events :=
  if (1 <? length es)%nat then
    l ← mapE (fun e => match e with Some e => Ok e | None => Panic end) es;
    Ok (Some <$> sort_by_ts l)
  else Ok es.

Definition combine_step (st : list (procseq P) * events) (ps : procseq P)
    : go event_error (list (procseq P) * events) :=
  let '(done, es) := st in
  '(inn, out) ← combine_split (ps_condition ps) es;
  '(p', inn) ← Apply (EventProcessor := ep) (ps_proc ps) inn;
  es ← sort_events (inn ++ out);
  Ok (done ++ [mkProcseq (ps_condition ps) p'], es).

Definition combine_Apply (procs : list (procseq P)) (es : events) : go event_error (list (procseq P) * events) :=
  foldM combine_step procs ([], es).

(** The condition holds for an event: no condition, or it evaluates to true. *)
Definition included (code : option jq_code) (e : event) : bool :=
  match CheckCondition code e with Ok b => b | _ => false end.

Lemma combine_split_filter code es :
  combine_split code es =
  Ok (filter (fun e => included code e) es, filter (fun e => negb (included code e)) es).
Proof.
  unfold combine_split.
  assert (forall i o, foldM (fun '(inn, out) e =>
    match CheckCondition code e with
    | Ok true => Ok (inn ++ [e], out)
    | Ok false | Err _ => Ok (inn, out ++ [e])
    | Panic => Panic
    end) es (i, o) = Ok (E := event_error) (i ++ filter (fun e => included code e) es,
                        o ++ filter (fun e => negb (included code e)) es)) as Hl; [|apply (Hl [] [])].
  induction es as [|e es IH]; intros i o; cbn [foldM]; [by rewrite !filter_nil, !app_nil_r|].
  rewrite (filter_bool_cons (included code)), (filter_bool_cons (fun e => negb (included code e))).
  assert (included code e = match CheckCondition code e with Ok b => b | _ => false end) as Hi by done.
  rewrite Hi. pose proof (CheckCondition_no_panic code e) as Hnp.
  destruct (CheckCondition code e) as [[]| |]; cbn [negb mbind go_bind]; try done;
    rewrite IH; by rewrite <-!app_assoc.
Qed.

(** One stage of event-combine: exactly the events the condition holds
    for go through the processor, in order, the others are set aside
    untouched; the result is a permutation of both together, sorted by
    timestamp when it has two or more events. It panics only when the
    processor does or leaves a nil event among several. *)
Theorem combine_stage (ps : procseq P) (es : events) (p' : P) (res : list EventMsg) :
  Apply (ps_proc ps) (filter (fun e => included (ps_condition ps) e) es) = Ok (p', Some <$> res) ->
  Forall (fun e => is_Some e) es ->
  exists out, combine_step ([], es) ps = Ok ([mkProcseq (ps_condition ps) p'], Some <$> out) /\
    Some <$> out ≡ₚ (Some <$> res) ++ filter (fun e => negb (included (ps_condition ps) e)) es /\
    Sorted ts_le out.
Proof.
  intros Hp Hes. unfold combine_step. rewrite combine_split_filter. cbn [mbind go_bind].
  rewrite Hp. cbn [mbind go_bind app].
  assert (exists rest, filter (fun e => negb (included (ps_condition ps) e)) es = Some <$> rest) as (rest & Hrest).
  { clear Hp. induction Hes as [|e es He Hes (rest & IH)]; [by exists []|]. rewrite filter_cons, IH.
    destruct He as [e' ->]. case_decide; [by exists (e' :: rest)|by exists rest]. }
  rewrite Hrest, <-fmap_app. unfold sort_events. rewrite length_fmap.
  destruct (1 <? length (res ++ rest))%nat eqn:Hlen.
  - rewrite (proj2 (mapE_ok _ _ (res ++ rest))).
    2: { rewrite Forall2_fmap_l. apply Forall_Forall2_diag, Forall_forall. done. }
    cbn [mbind go_bind]. eexists. split; [done|]. split; [|apply sort_by_ts_sorted].
    by rewrite sort_by_ts_perm.
  - cbn [mbind go_bind]. eexists. split; [done|]. split; [done|].
    apply Nat.ltb_ge in Hlen. destruct (res ++ rest) as [|x [|y l]]; cbn in Hlen; [constructor|by repeat constructor|lia].
Qed.
End combine.

Definition combine_proc `{Gojq} `{SortSlice} {P} (ep : EventProcessor P) : EventProcessor (list (procseq P)) :=
  {| Apply := combine_Apply ep |}.

Section combine_safe.
Context `{Gojq} `{SortSlice} {P : Type} (ep : EventProcessor P) (inv : P -> Prop) `{!SafeProcessor ep inv}.

Lemma ok_event_some e : ok_event e -> is_Some e.
Proof. destruct e; by eauto. Qed.

Lemma sort_events_ok l : Forall ok_event l -> exists l', sort_events l = Ok l' /\ Forall ok_event l'.
Proof.
  intros Hall. unfold sort_events. destruct (1 <? length l)%nat; [|by eexists].
  assert (exists l', l = Some <$> l') as (l' & ->).
  { induction Hall as [|[e|] l He Hl (l' & ->)]; [by exists []|by exists (e :: l')|done]. }
  rewrite (proj2 (mapE_ok _ _ l')).
  2: { rewrite Forall2_fmap_l. apply Forall_Forall2_diag, Forall_forall. done. }
  cbn. eexists. split; [done|]. by rewrite sort_by_ts_perm.
Qed.

Lemma combine_step_safe dn es ps :
  inv (ps_proc ps) -> Forall ok_event es ->
  exists p' es', combine_step ep (dn, es) ps = Ok (dn ++ [mkProcseq (ps_condition ps) p'], es') /\
    inv p' /\ Forall ok_event es'.
Proof.
  intros Hps Hes. unfold combine_step. rewrite combine_split_filter. cbn [mbind go_bind].
  destruct (safe_apply (ps_proc ps) (filter (fun e => included (ps_condition ps) e) es) Hps)
    as (p' & es' & -> & Hp' & Hes'); [by apply Forall_filter|]. cbn [mbind go_bind].
  destruct (sort_events_ok (es' ++ filter (fun e => negb (included (ps_condition ps) e)) es))
    as (es2 & -> & Hes2).
  { apply Forall_app. split; [done|by apply Forall_filter]. }
  by exists p', es2.
Qed.

(** Combining safe processors is safe. *)
Lemma combine_safe : SafeProcessor (combine_proc ep) (Forall (fun ps => inv (ps_proc ps))).
Proof.
  split. intros procs es Hinv Hes. cbn. unfold combine_Apply.
  assert (forall done es, Forall (fun ps => inv (ps_proc ps)) done -> Forall ok_event es ->
    exists procs' es', foldM (combine_step ep) procs (done, es) = Ok (procs', es') /\
      Forall (fun ps => inv (ps_proc ps)) procs' /\ Forall ok_event es') as Hl; [|by apply Hl].
  clear Hes es. induction Hinv as [|ps procs Hps Hinv IH]; intros dn es Hdn Hes; [by do 2 eexists|].
  cbn [foldM]. destruct (combine_step_safe dn es ps Hps Hes) as (p' & es' & -> & Hp' & Hes').
  cbn [mbind go_bind]. apply IH; [|done]. apply Forall_app. split; [done|]. by repeat constructor.
Qed.
End combine_safe.

(** The witness runs event-drop on the events with a tag. *)
Lemma combine_stage_witness :
  let d := mkFilter jq_tag "" [] [lit_re "a"] [] [] (Some "") in
  let ps := mkProcseq (H := jq_tag) (Some "if") d in
  let e1 := mkEvent "s" 9 (Some {["if" := "e0"]}) (Some {["b" := AInt KInt 1]}) None in
  let e2 := mkEvent "s" 4 (Some ∅) (Some {["a" := AInt KInt 2]}) None in
  exists out, combine_step (H0 := sort_stable) (drop_proc (H0 := order_fwd)) ([], [Some e1; Some e2]) ps
    = Ok ([ps], Some <$> out) /\
    Some <$> out ≡ₚ [Some e1; Some e2] /\ Sorted ts_le out.
Proof.
  cbn zeta.
  destruct (combine_stage (H := jq_tag) (H0 := sort_stable) (drop_proc (H0 := order_fwd))
    (mkProcseq (H := jq_tag) (Some "if") (mkFilter jq_tag "" [] [lit_re "a"] [] [] (Some "")))
    [Some (mkEvent "s" 9 (Some {["if" := "e0"]}) (Some {["b" := AInt KInt 1]}) None);
     Some (mkEvent "s" 4 (Some ∅) (Some {["a" := AInt KInt 2]}) None)]
    (mkFilter jq_tag "" [] [lit_re "a"] [] [] (Some ""))
    [mkEvent "s" 9 (Some {["if" := "e0"]}) (Some {["b" := AInt KInt 1]}) None])
    as (out & Hstep & Hperm & Hsort).
  - vm_compute. reflexivity.
  - by repeat constructor.
  - exists out. split; [exact Hstep|]. split; [|exact Hsort]. rewrite Hperm. vm_compute. reflexivity.
Defined.

(** ** event-trigger *)

(** [defaultCondition], and a minute. *)
Definition defaultCondition : string := "any([true])".
Definition minute : Z := 60 * 1000000000.

(** [time.Time{}], before any time the code compares it to. *)
Definition zeroTime : Z := - 62135596800 * 1000000000.

(** An action of the registry; its environment holds the results so far. *)
Record Action := mkAction { NName : string; Run : event -> gmap string any -> gmap string any -> option any }.

Record trigger `{Gojq} := mkTrigger {
  tr_MinOccurrences : Z;
  tr_MaxOccurrences : Z;
  tr_Window : Z;
  tr_code : option jq_code;
  tr_actions : list Action;
  tr_vars : gmap string any;
  occurrencesTimes : list Z;
  lastTrigger : Z
}.
Record triggerConfig := mkTriggerConfig {
  tg_Condition : string; tg_MinOccurrences : Z; tg_MaxOccurrences : Z; tg_Window : Z;
  tg_Actions : list string; tg_Vars : gmap string any
}.

(** [setDefaults]. *)
Definition setDefaults (c : triggerConfig) : go init_error triggerConfig :=
  let cond := if String.eqb (tg_Condition c) "" then defaultCondition else tg_Condition c in
  let mn := if tg_MinOccurrences c <=? 0 then 1 else tg_MinOccurrences c in
  let mx := if tg_MaxOccurrences c <=? 0 then 1 else tg_MaxOccurrences c in
  if mx <? mn then Err (errConfig "max-occurrences cannot be lower than min-occurrences")
  else Ok (mkTriggerConfig cond mn mx (if tg_Window c <=? 0 then minute else tg_Window c)
             (tg_Actions c) (tg_Vars c)).

(** [evalOccurrencesWithinWindow]: the new state, and whether to trigger. *)
Definition evalOccurrencesWithinWindow `{Gojq} (p : trigger) (now : Z) : trigger * bool :=
  let occ := filter (fun t => now < t + tr_Window p) (occurrencesTimes p) ++ [now] in
  let occ := if tr_MaxOccurrences p <? Z.of_nat (length occ)
             then drop (length occ - Z.to_nat (tr_MaxOccurrences p) - 1) occ else occ in
  let n := Z.of_nat (length occ) in
  let p' last := mkTrigger _ (tr_MinOccurrences p) (tr_MaxOccurrences p) (tr_Window p) (tr_code p)
                   (tr_actions p) (tr_vars p) occ last in
  if (tr_MinOccurrences p <=? n) && (n <=? tr_MaxOccurrences p) then (p' now, true)
  else if (tr_MinOccurrences p <? n) && (lastTrigger p + tr_Window p <? now) then (p' now, true)
  else (p' (lastTrigger p), false).

(** [triggerActions]: in order, until one fails; the environment at the end. *)
Fixpoint triggerActions (acts : list Action) (e : event) (vars env : gmap string any) : gmap string any :=
  match acts with
  | [] => env
  | act :: acts =>
      match Run act e env vars with
      | None => env
      | Some res => triggerActions acts e vars (<[NName act := res]> env)
      end
  end.

(** [Apply] changes no event; its effects are the events whose actions run. *)
Definition trigger_step `{Gojq} (now : Z) (st : trigger * list event) (e : event) : trigger * list event :=
  let '(p, fired) := st in
  match e with
  | None => st
  | Some _ =>
      match CheckCondition (tr_code p) e with
      | Ok true =>
          let '(p, ok) := evalOccurrencesWithinWindow p now in
          (p, if ok : bool then fired ++ [e] else fired)
      | _ => st
      end
  end.
Definition trigger_Apply `{Gojq} (now : Z) (p : trigger) (es : events) : trigger * list event * events :=
  (foldl (trigger_step now) (p, []) es, es).

(** [Init] after decoding; looking an action up and initialising it is a
    parameter. *)
Definition trigger_Init `{Gojq} `{Decode triggerConfig} (initAction : string -> go init_error Action)
    (cfg : any) : go init_error trigger :=
  c ← decode cfg;
  c ← setDefaults c;
  code ← initCondition (trim_space (tg_Condition c));
  actions ← mapE initAction (tg_Actions c);
  Ok (mkTrigger _ (tg_MinOccurrences c) (tg_MaxOccurrences c) (tg_Window c) (Some code) actions (tg_Vars c)
        [] zeroTime).

(** *** How often it triggers *)

Section trigger.
Context `{Gojq}.

(** A run of occurrences at given times: the state and the times it
    triggered at. *)
Fixpoint trigger_run (p : trigger) (times : list Z) : trigger * list Z :=
  match times with
  | [] => (p, [])
  | now :: times =>
      let '(p, ok) := evalOccurrencesWithinWindow p now in
      let '(p, fired) := trigger_run p times in
      (p, if ok : bool then now :: fired else fired)
  end.

(** The bounds [setDefaults] establishes. *)
Definition trigger_ok (p : trigger) : Prop :=
  1 <= tr_MinOccurrences p <= tr_MaxOccurrences p /\ 0 < tr_Window p.

(** Every element is at most the ones after it. *)
Definition zsorted (l : list Z) : Prop := forall l1 x l2, l = l1 ++ x :: l2 -> Forall (fun y => y <= x) l1.

Lemma zsorted_suffix l1 l2 : zsorted (l1 ++ l2) -> zsorted l2.
Proof.
  intros Hs a x b ->. assert (Forall (fun y => y <= x) (l1 ++ a)) as [_ ?]%Forall_app; [|done].
  apply (Hs _ x b). by rewrite <-app_assoc.
Qed.

Lemma zsorted_prefix l1 l2 : zsorted (l1 ++ l2) -> zsorted l1.
Proof. intros Hs a x b ->. apply (Hs a x (b ++ l2)). by rewrite <-app_assoc. Qed.

Lemma zsorted_snoc l x : zsorted l -> Forall (fun y => y <= x) l -> zsorted (l ++ [x]).
Proof.
  intros Hs Hx l1 y l2 Heq. destruct l2 as [|z l2 _] using rev_ind.
  - apply app_inj_tail in Heq as [-> ->]. done.
  - rewrite app_comm_cons, app_assoc in Heq. apply app_inj_tail in Heq as [-> ->]. by apply (Hs _ _ l2).
Qed.

(** The times still in the window are a suffix. *)
Lemma window_suffix w now l :
  zsorted l -> exists a, l = a ++ filter (fun t => now < t + w) l /\ Forall (fun t => t + w <= now) a.
Proof.
  induction l as [|x l IH] using rev_ind; intros Hs; [by exists []|].
  destruct IH as (a & Ha & Hout); [by eapply zsorted_prefix|].
  rewrite filter_app, filter_cons, filter_nil. case_decide as Hx.
  - exists a. split; [|done]. by rewrite app_assoc, <-Ha.
  - exists (l ++ [x]). assert (Forall (fun t => t + w <= now) (l ++ [x])) as Hall.
    { apply Forall_app. split; [|constructor; [lia|done]]. pose proof (Hs l x [] eq_refl) as Hle.
      eapply Forall_impl; [exact Hle|]. cbn. lia. }
    split; [|done]. apply Forall_app in Hall as [Hall _].
    rewrite (filter_none _ l), !app_nil_r; [done|]. eapply Forall_impl; [exact Hall|]. cbn. lia.
Qed.

(** What the state knows about the past: [hist] are the occurrences so far,
    [fired] the times it triggered at. The stored times are a suffix of
    [hist]; the forgotten ones are out of the window, or more times than the
    maximum are stored. *)
Record trigger_past (p : trigger) (now : Z) (hist fired : list Z) : Prop := {
  tp_bound : Forall (fun t => t <= now) hist;
  tp_sub : sublist fired hist;
  tp_old : exists old, hist = old ++ occurrencesTimes p /\
    (Forall (fun t => t + tr_Window p <= now) old
     \/ tr_MaxOccurrences p < Z.of_nat (length (occurrencesTimes p)));
  tp_sorted : zsorted hist;
  tp_last : Forall (fun t => t <= lastTrigger p) fired
}.

Definition same_config (p p' : trigger) : Prop :=
  tr_MinOccurrences p' = tr_MinOccurrences p /\ tr_MaxOccurrences p' = tr_MaxOccurrences p /\
  tr_Window p' = tr_Window p.

(** The stored times after an occurrence. *)
Lemma stored_past p now0 now hist fired :
  trigger_past p now0 hist fired -> now0 <= now -> trigger_ok p ->
  let occ := filter (fun t => now < t + tr_Window p) (occurrencesTimes p) ++ [now] in
  let occ' := if tr_MaxOccurrences p <? Z.of_nat (length occ)
              then drop (length occ - Z.to_nat (tr_MaxOccurrences p) - 1) occ else occ in
  exists old, hist ++ [now] = old ++ occ' /\
    (Forall (fun t => t + tr_Window p <= now) old \/ tr_MaxOccurrences p < Z.of_nat (length occ')).
Proof.
  intros [Hb _ (old & Hh & Hold) Hs _] Hnow [Hmm Hw] occ occ'.
  assert (zsorted (occurrencesTimes p)) as Hocc by (rewrite Hh in Hs; by eapply zsorted_suffix).
  destruct (window_suffix (tr_Window p) now _ Hocc) as (a & Ha & Hout).
  set (b := filter (fun t => now < t + tr_Window p) (occurrencesTimes p)) in *.
  assert (hist ++ [now] = (old ++ a) ++ occ) as Hsplit.
  { unfold occ. rewrite Hh, Ha. by rewrite <-!app_assoc. }
  unfold occ'. destruct (Z.ltb_spec (tr_MaxOccurrences p) (Z.of_nat (length occ))) as [Hgt|Hle].
  - exists ((old ++ a) ++ take (length occ - Z.to_nat (tr_MaxOccurrences p) - 1) occ). split.
    + by rewrite <-app_assoc, take_drop.
    + right. rewrite length_drop. lia.
  - exists (old ++ a). split; [done|]. left. apply Forall_app. split; [|done].
    destruct Hold as [Hold|Hold]; [eapply Forall_impl; [exact Hold|]; cbn; lia|].
    rewrite Ha, length_app in Hold. unfold occ in Hle. rewrite length_app in Hle. cbn in Hle.
    destruct a as [|x a]; [cbn in Hold; lia|]. apply Forall_cons in Hout as [Hx _].
    rewrite Hh, Ha in Hs. specialize (Hs old x (a ++ b)).
    assert (Forall (fun y => y <= x) old) as Hle' by (by apply Hs).
    eapply Forall_impl; [exact Hle'|]. cbn. lia.
Qed.

Lemma in_window_le w now now' l :
  now <= now' -> (length (filter (fun t => (now' - w < t)%Z /\ (t <= now')%Z) l)
                  <= length (filter (fun t => (now < t + w)%Z) l))%nat.
Proof.
  intros Hn. induction l as [|x l IH]; [done|]. rewrite !filter_cons.
  repeat case_decide; cbn; lia.
Qed.

(** One occurrence: the past is kept up to date, and after a trigger at most
    the maximum number of triggers are in the window. *)
Lemma eval_past p now0 now hist fired p' ok :
  trigger_past p now0 hist fired -> now0 <= now -> trigger_ok p ->
  evalOccurrencesWithinWindow p now = (p', ok) ->
  let fired' := if ok : bool then fired ++ [now] else fired in
  trigger_past p' now (hist ++ [now]) fired' /\ same_config p p' /\
  (ok = true -> (length (filter (fun t => (now < t + tr_Window p)%Z) fired') <= Z.to_nat (tr_MaxOccurrences p))%nat).
Proof.
  intros Hp Hnow Hok Hev. pose proof (stored_past _ _ now _ _ Hp Hnow Hok) as (old & Hsplit & Hold).
  unfold evalOccurrencesWithinWindow in Hev. cbn zeta in Hsplit, Hold.
  set (occ := if tr_MaxOccurrences p <? _ then _ else _) in *.
  destruct Hp as [Hb Hsub _ Hs Hl]. destruct Hok as [Hmm Hw].
  assert (Forall (fun t => t <= now) (hist ++ [now])) as Hb'.
  { apply Forall_app. split; [|by repeat constructor]. eapply Forall_impl; [exact Hb|]. cbn. lia. }
  assert (zsorted (hist ++ [now])) as Hs'.
  { apply zsorted_snoc; [done|]. by apply Forall_app in Hb' as [? _]. }
  assert (sublist (fired ++ [now]) (hist ++ [now])) as Hsub' by (by apply sublist_app).
  assert (Forall (fun t => t <= now) (fired ++ [now])) as Hf'.
  { rewrite Forall_forall in Hb' |- *. intros t Ht. apply Hb'. by eapply elem_of_sublist. }
  destruct ((tr_MinOccurrences p <=? Z.of_nat (length occ)) && (Z.of_nat (length occ) <=? tr_MaxOccurrences p)) eqn:EA;
    [|destruct ((tr_MinOccurrences p <? Z.of_nat (length occ)) && (lastTrigger p + tr_Window p <? now)) eqn:EB];
    injection Hev as <- <-; cbn zeta.
  - apply andb_true_iff in EA as [_ EA%Z.leb_le]. split; [|split; [done|]].
    + split; cbn; [done|done|by exists old|done|done].
    + intros _. destruct Hold as [Hold|Hold]; [|lia].
      assert (length (filter (fun t => (now < t + tr_Window p)%Z) (fired ++ [now])) <= length occ)%nat; [|lia].
      etrans; [apply sublist_length, filter_sublist_mono, Hsub'|]. rewrite Hsplit, filter_app.
      rewrite (filter_none _ old); [apply sublist_length, sublist_filter|].
      eapply Forall_impl; [exact Hold|]. cbn. lia.
  - apply andb_true_iff in EB as [_ EB%Z.ltb_lt]. split; [|split; [done|]].
    + split; cbn; [done|done|by exists old|done|done].
    + intros _. rewrite filter_app, (filter_none _ fired); [|eapply Forall_impl; [exact Hl|]; cbn; lia].
      etrans; [apply sublist_length, sublist_filter|]. cbn. lia.
  - split; [|split; [done|done]]. split; cbn; [done|by apply sublist_inserts_r|by exists old|done|done].
Qed.

Definition window_bound (mx w : Z) (fired : list Z) : Prop :=
  forall t, (length (filter (fun f => (t - w < f)%Z /\ (f <= t)%Z) fired) <= Z.to_nat mx)%nat.

Lemma trigger_run_bound p now0 hist fired times :
  trigger_ok p -> trigger_past p now0 hist fired -> window_bound (tr_MaxOccurrences p) (tr_Window p) fired ->
  zsorted (now0 :: times) ->
  window_bound (tr_MaxOccurrences p) (tr_Window p) (fired ++ (trigger_run p times).2) /\
  (length (occurrencesTimes (trigger_run p times).1)
     <= Nat.max (length (occurrencesTimes p)) (S (Z.to_nat (tr_MaxOccurrences p))))%nat.
Proof.
  revert p now0 hist fired. induction times as [|now times IH]; intros p now0 hist fired Hok Hp Hbd Hs.
  { cbn. rewrite app_nil_r. split; [done|lia]. }
  assert (now0 <= now) as Hnow.
  { specialize (Hs [now0] now times eq_refl). by apply Forall_cons in Hs as [? _]. }
  cbn [trigger_run]. destruct (evalOccurrencesWithinWindow p now) as [p' ok] eqn:Hev.
  pose proof (eval_past _ _ _ _ _ _ _ Hp Hnow Hok Hev) as (Hp' & (Hmn & Hmx & Hw) & Hcount).
  assert (length (occurrencesTimes p') <= Nat.max (length (occurrencesTimes p)) (S (Z.to_nat (tr_MaxOccurrences p))))%nat as Hlen.
  { clear -Hev. unfold evalOccurrencesWithinWindow in Hev.
    set (occ := filter _ _ ++ [now]) in Hev.
    set (occ' := if (tr_MaxOccurrences p <? Z.of_nat (length occ))%Z
      then drop (length occ - Z.to_nat (tr_MaxOccurrences p) - 1) occ else occ) in Hev.
    assert (length occ' <= S (Z.to_nat (tr_MaxOccurrences p)))%nat as Hle.
    { unfold occ'. destruct (Z.ltb_spec (tr_MaxOccurrences p) (Z.of_nat (length occ))); [rewrite length_drop|]; lia. }
    clearbody occ'. repeat case_match; injection Hev as <- <-; cbn; lia. }
  assert (window_bound (tr_MaxOccurrences p') (tr_Window p') (if ok : bool then fired ++ [now] else fired)) as Hbd'.
  { rewrite Hmx, Hw. destruct ok; [|done]. intros t. destruct (decide (now <= t)).
    - etrans; [by apply (in_window_le _ now)|]. by apply Hcount.
    - rewrite filter_app, (filter_none _ [now]), app_nil_r by (repeat constructor; lia). apply Hbd. }
  assert (trigger_ok p') as Hok' by (unfold trigger_ok in *; by rewrite Hmn, Hmx, Hw).
  specialize (IH p' now (hist ++ [now]) _ Hok' Hp' Hbd').
  destruct (trigger_run p' times) as [p'' f]. cbn [fst snd] in *. rewrite Hmx, Hw in IH.
  destruct IH as [IH1 IH2]; [by apply (zsorted_suffix [now0])|]. split.
  - destruct ok; [|done]. by rewrite <-app_assoc in IH1.
  - lia.
Qed.

(** From a fresh trigger with valid bounds, on any sequence of
    occurrences in time order, every window of the configured length holds at
    most the maximum number of triggers, and at most one more than the maximum
    number of occurrence times is ever stored. *)
Theorem trigger_at_most_max p times :
  trigger_ok p -> occurrencesTimes p = [] -> zsorted times ->
  window_bound (tr_MaxOccurrences p) (tr_Window p) (trigger_run p times).2 /\
  (length (occurrencesTimes (trigger_run p times).1) <= S (Z.to_nat (tr_MaxOccurrences p)))%nat.
Proof.
  intros Hok Hocc Hs.
  assert (exists now0, zsorted (now0 :: times)) as (now0 & Hs0).
  { destruct times as [|t times].
    - exists 0. intros [|x l1] y l2 Heq; [constructor|]. injection Heq as <- Heq. by destruct l1.
    - exists t. intros [|x l1] y l2 Heq; [constructor|]. injection Heq as <- Heq.
      pose proof (Hs l1 y l2 Heq) as Hle. destruct l1 as [|z l1]; cbn in Heq; injection Heq as <- Heq.
      + by repeat constructor.
      + constructor; [|done]. by apply Forall_cons in Hle as [? _]. }
  assert (trigger_past p now0 [] []) as Hp.
  { split; [constructor|done|exists []; rewrite Hocc; by split; [|left]| |constructor].
    intros l1 x l2 Heq. by destruct l1. }
  pose proof (trigger_run_bound p now0 [] [] times Hok Hp) as Hr. cbn [app] in Hr.
  destruct Hr as [H1 H2]; [|done|].
  { intros t. cbn. lia. }
  split; [done|]. rewrite Hocc in H2. cbn in H2. lia.
Qed.
End trigger.

Lemma trigger_at_most_max_witness :
  let p := mkTrigger jq_tag 2 3 100 None [] ∅ [] zeroTime in
  trigger_ok p /\ (trigger_run p [10; 20; 30; 40; 50; 140; 145]).2 = [20; 30; 140; 145] /\
  window_bound 3 100 (trigger_run p [10; 20; 30; 40; 50; 140; 145]).2.
Proof.
  cbn zeta. split; [split; cbn; lia|]. split; [vm_compute; reflexivity|].
  refine (proj1 (trigger_at_most_max (H := jq_tag) (mkTrigger jq_tag 2 3 100 None [] ∅ [] zeroTime)
    [10; 20; 30; 40; 50; 140; 145] _ _ _)); [split; cbn; lia|reflexivity|].
  intros l1 x l2 Heq.
  repeat (destruct l1 as [|? l1]; [injection Heq as <- <-; repeat constructor; lia|injection Heq as <- Heq]).
  by destruct l1.
Defined.

Definition trigger_proc `{Gojq} `{Clock} : EventProcessor (trigger * nat) :=
  {| Apply '(p, reads) es := let '(p', _, es') := trigger_Apply (now reads) p es in Ok ((p', S reads), es') |}.

Lemma trigger_safe `{Gojq} `{Clock} : SafeProcessor trigger_proc always.
Proof.
  split. intros [p reads] es _ Hes. cbn. unfold trigger_Apply.
  destruct (foldl (trigger_step (now reads)) (p, []) es) as [p' f]. by do 2 eexists.
Qed.

(** ** event-rate-limit *)

(** The LRU library. [lru_tab] is what a cache holds: a lookup answers from it
    and does not change it, adding puts the entry in and may evict others. *)
Class LRU : Type := {
  lru : Type;
  lru_New : Z -> option lru;
  lru_Get : string -> lru -> option Z * lru;
  lru_Add : string -> Z -> lru -> lru;
  lru_tab : lru -> gmap string Z;
  lru_Get_tab : forall k c, (lru_Get k c).1 = lru_tab c !! k /\ lru_tab (lru_Get k c).2 = lru_tab c;
  lru_Add_tab : forall k v c, lru_tab (lru_Add k v c) !! k = Some v /\
    forall k' v', k' <> k -> lru_tab (lru_Add k v c) !! k' = Some v' -> lru_tab c !! k' = Some v'
}.
Class SHA256 : Type := { sha256_hex : string -> string }.

Definition oneSecond : Z := 1000000000.
Definition defaultCacheSize : Z := 1000.

Record rateLimitConfig := mkRateLimitConfig { rl_PerSecondLimit : spec_float; rl_CacheSize : Z }.
Record rateLimit `{LRU} := mkRateLimit { PerSecondLimit : spec_float; eventIndex : lru }.

Section rate_limit.
Context `{MapOrder} `{LRU} `{SHA256} `{FloatConv}.

Definition rateLimit_Init `{Decode rateLimitConfig} (cfg : any) : go init_error rateLimit :=
  c ← decode cfg;
  let size := if rl_CacheSize c <=? 0 then defaultCacheSize else rl_CacheSize c in
  if SFleb (rl_PerSecondLimit c) (f64_of_Z 0) then Err (errConfig "provided limit must be greater than 0")
  else match lru_New size with
       | Some cache => Ok (mkRateLimit _ (rl_PerSecondLimit c) cache)
       | None => Err (errConfig "failed to initialize cache")
       end.

(** The tags in key order, one on each line. *)
Definition hashEvent (e : EventMsg) : string :=
  let tagKeys := sort_strings (range (gm_tab (ev_Tags e))).*1 in
  sha256_hex (foldr (fun k s => k +:+ ("=" +:+ (default "" (gm_get (ev_Tags e) k) +:+ (String "010" s)))) "" tagKeys).

(** [int64(float64(e.Timestamp-ts) * o.PerSecondLimit) < oneSecond]. *)
Definition too_fast (limit : spec_float) (t ts : Z) : bool :=
  int_of_float KInt64 (f64_mul (f64_of_Z (wrap KInt64 (t - ts))) limit) <? oneSecond.

Definition rateLimit_step (st : rateLimit * list EventMsg) (e : event) : rateLimit * list EventMsg :=
  let '(o, validEs) := st in
  match e with
  | None => st
  | Some e =>
      let h := hashEvent e in
      let '(ts, cache) := lru_Get h (eventIndex o) in
      if match ts with
         | Some ts => negb (ev_Timestamp e =? ts) && too_fast (PerSecondLimit o) (ev_Timestamp e) ts
         | None => false
         end
      then (mkRateLimit _ (PerSecondLimit o) cache, validEs)
      else (mkRateLimit _ (PerSecondLimit o) (lru_Add h (ev_Timestamp e) cache), validEs ++ [e])
  end.

Definition rateLimit_Apply (o : rateLimit) (es : events) : rateLimit * events :=
  let '(o, validEs) := foldl rateLimit_step (o, []) es in (o, Some <$> validEs).

(** *** What the hash tells apart *)

(** The text that is hashed, and the tags it is the text of. *)
Definition tag_lines (e : EventMsg) : list (string * string) :=
  (fun k => (k, default "" (gm_get (ev_Tags e) k))) <$> sort_strings (range (gm_tab (ev_Tags e))).*1.
Definition text_of (l : list (string * string)) : string :=
  foldr (fun kv s => kv.1 +:+ ("=" +:+ (kv.2 +:+ (String "010" s)))) "" l.

Lemma hashEvent_text e : hashEvent e = sha256_hex (text_of (tag_lines e)).
Proof.
  unfold hashEvent, tag_lines, text_of. f_equal. by rewrite foldr_fmap.
Qed.

(** Names without an equals sign and values of one line: other tags can have
    the text of each other. *)
Definition plain_tags (e : EventMsg) : Prop :=
  map_Forall (fun k v => snone "=" k = true /\ snone "010" v = true) (gm_tab (ev_Tags e)).

Lemma text_of_inj l l' :
  Forall (fun kv => snone "=" kv.1 = true /\ snone "010" kv.2 = true) l ->
  Forall (fun kv => snone "=" kv.1 = true /\ snone "010" kv.2 = true) l' -> text_of l = text_of l' -> l = l'.
Proof.
  intros Hl. revert l'; induction Hl as [|[k v] l [Hk Hv] Hl IH]; intros l' Hl' Heq.
  - destruct Hl' as [|[k' v'] l' _ _]; [done|]. cbn in Heq. by destruct k'.
  - destruct Hl' as [|[k' v'] l' [Hk' Hv'] Hl']; cbn in Heq, Hk, Hv; [by destruct k|]. cbn in Hk', Hv'.
    apply cut_inj in Heq as [-> Heq]; [|done..]. apply cut_inj in Heq as [-> Heq]; [|done..]. f_equal. by apply IH.
Qed.

Lemma tag_lines_spec e k v : (k, v) ∈ tag_lines e <-> gm_tab (ev_Tags e) !! k = Some v.
Proof.
  unfold tag_lines. rewrite list_elem_of_fmap. setoid_rewrite sort_strings_perm. split.
  - intros (k' & [= -> ->] & ([k1 v1] & -> & Hr%elem_of_range)%list_elem_of_fmap). rewrite gm_get_tab. cbn. by rewrite Hr.
  - intros Hk. exists k. rewrite gm_get_tab, Hk. split; [done|]. apply list_elem_of_fmap. exists (k, v). split; [done|]. by apply elem_of_range.
Qed.

Lemma tag_lines_inj e e' :
  plain_tags e -> plain_tags e' -> text_of (tag_lines e) = text_of (tag_lines e') <-> gm_tab (ev_Tags e) = gm_tab (ev_Tags e').
Proof.
  intros Hp Hp'. assert (Hl : forall e, plain_tags e -> Forall (fun kv => snone "=" kv.1 = true /\ snone "010" kv.2 = true) (tag_lines e)).
  { intros e0 H0'. apply Forall_forall. intros [k v] Hk%tag_lines_spec. by apply (H0' k v). }
  split.
  - intros Heq%text_of_inj; [|by apply Hl..]. apply map_eq. intros k. apply option_eq. intros v. rewrite <-!tag_lines_spec. by rewrite Heq.
  - intros Heq. unfold tag_lines. setoid_rewrite gm_get_tab. by rewrite Heq.
Qed.

(** SHA-256 maps no two of the events' texts to the same hash. *)
Definition no_collision (es : list EventMsg) : Prop :=
  forall e e', e ∈ es -> e' ∈ es -> sha256_hex (text_of (tag_lines e)) = sha256_hex (text_of (tag_lines e')) ->
    text_of (tag_lines e) = text_of (tag_lines e').

Lemma same_hash es e e' :
  Forall plain_tags es -> no_collision es -> e ∈ es -> e' ∈ es ->
  hashEvent e = hashEvent e' <-> gm_tab (ev_Tags e) = gm_tab (ev_Tags e').
Proof.
  intros Hp Hc He He'. rewrite !hashEvent_text.
  rewrite <-tag_lines_inj by (eapply Forall_forall; [exact Hp|done]). split; [by apply Hc|by intros ->].
Qed.

(** *** What is too fast *)

(** The distances at which the comparison does not overflow: under 2^53
    nanoseconds, and a product with the limit under 2^62. *)
Definition in_range (l : positive) (el d : Z) : Prop := Z.abs d < 2 ^ 53 /\ below (Z.abs d * Z.pos l) el (2 ^ 62) = true.

Lemma too_fast_spec l el t ts :
  t <> ts -> in_range l el (t - ts) ->
  (t < ts -> too_fast (S754_finite false l el) t ts = true) /\
  (ts < t -> below ((t - ts) * Z.pos l) el oneSecond = false -> too_fast (S754_finite false l el) t ts = false) /\
  (ts < t -> below ((t - ts) * Z.pos l * 2 ^ 24) el (oneSecond * 2 ^ 24 - 1) = true -> too_fast (S754_finite false l el) t ts = true).
Proof.
  intros Hne [Hd Hb]. unfold too_fast. assert (Hw : wrap KInt64 (t - ts) = t - ts).
  { apply wrap_id, in_kind_spec. unfold kind_min, kind_max. cbn [kind_signed kind_bits]. lia. }
  rewrite Hw. set (d := t - ts) in *. assert (Hsig : d = if d <? 0 then - Z.abs d else Z.abs d) by (destruct (Z.ltb_spec d 0); lia).
  destruct (product_trunc (d <? 0) (Z.abs d) l el) as (a & Ha & Ha1 & Ha2); [lia|done|]. rewrite <-Hsig in Ha.
  unfold int_of_float. rewrite Ha.
  assert (Hin : in_kind KInt64 (if d <? 0 then - a else a) = true)
    by (apply in_kind_spec; unfold kind_min, kind_max; cbn [kind_signed kind_bits]; destruct (d <? 0); lia).
  rewrite Hin. specialize (Ha2 oneSecond ltac:(unfold oneSecond; lia)) as [Hge Hlt].
  split; [|split]; intros Hts; [|intros Hbe..].
  - replace (d <? 0) with true by (symmetry; apply Z.ltb_lt; lia). apply Z.ltb_lt. unfold oneSecond. lia.
  - replace (d <? 0) with false by (symmetry; apply Z.ltb_ge; lia). apply Z.ltb_ge. apply Hge. by replace (Z.abs d) with d by lia.
  - replace (d <? 0) with false by (symmetry; apply Z.ltb_ge; lia). apply Z.ltb_lt. apply Hlt. by replace (Z.abs d) with d by lia.
Qed.

(** *** A run *)

Definition rate_run (o : rateLimit) (es : list EventMsg) : rateLimit * list EventMsg := foldl rateLimit_step (o, []) (Some <$> es).

(** The time of the last accepted event with the tags of [e]. *)
Definition last_same (e : EventMsg) (acc : list EventMsg) : option Z :=
  foldl (fun last e' => if decide (gm_tab (ev_Tags e') = gm_tab (ev_Tags e)) then Some (ev_Timestamp e') else last) None acc.

(** What the cache holds comes from accepted events. *)
Definition cache_past (es : list EventMsg) (st : rateLimit * list EventMsg) : Prop :=
  (forall e ts, e ∈ es -> lru_tab (eventIndex st.1) !! hashEvent e = Some ts -> last_same e st.2 = Some ts) /\ st.2 ⊆ es.

Lemma last_same_snoc e acc e' :
  last_same e (acc ++ [e']) = if decide (gm_tab (ev_Tags e') = gm_tab (ev_Tags e)) then Some (ev_Timestamp e') else last_same e acc.
Proof. unfold last_same. by rewrite foldl_snoc. Qed.

Lemma rate_step_past es st e :
  Forall plain_tags es -> no_collision es -> e ∈ es -> cache_past es st ->
  cache_past es (rateLimit_step st (Some e)) /\ PerSecondLimit (rateLimit_step st (Some e)).1 = PerSecondLimit st.1.
Proof.
  intros Hp Hn He [Hc Hs]. destruct st as [o acc]. unfold rateLimit_step. destruct (lru_Get_tab (hashEvent e) (eventIndex o)) as [_ Ht].
  destruct (lru_Get (hashEvent e) (eventIndex o)) as [ts cache]. cbn in Ht, Hc, Hs.
  destruct (match ts with Some _ => _ | None => _ end); (split; [|done]); (split; cbn [fst snd eventIndex]; [|set_solver]); intros e' t He' Hk.
  - rewrite Ht in Hk. by apply Hc.
  - rewrite last_same_snoc. destruct (lru_Add_tab (hashEvent e) (ev_Timestamp e) cache) as [Hka Hko].
    case_decide as Hd.
    + apply (same_hash es) in Hd; [|done..]. rewrite <-Hd in Hk. congruence.
    + apply Hc; [done|]. rewrite <-Ht. apply (Hko (hashEvent e')); [|done]. intros Heq. apply Hd. by apply (same_hash es).
Qed.

Lemma rate_run_past o es es' :
  lru_tab (eventIndex o) = ∅ -> Forall plain_tags es -> no_collision es -> es' ⊆ es ->
  cache_past es (rate_run o es') /\ PerSecondLimit (rate_run o es').1 = PerSecondLimit o.
Proof.
  intros He Hp Hn. unfold rate_run. induction es' as [|e es' IH] using rev_ind; intros Hs.
  - split; [|done]. split; cbn; [|set_solver]. intros e ts _ Hk. by rewrite He, lookup_empty in Hk.
  - rewrite fmap_app, foldl_app. cbn [fmap list_fmap foldl]. destruct IH as [IH1 IH2]; [set_solver|].
    rewrite <-IH2. apply rate_step_past; [done..|set_solver|done].
Qed.

(** C10: an event that reaches a rate limiter after any events, starting with
    an empty cache. Tag names have no equals sign, tag values are of one line
    and SHA-256 has no collision among these events. Of the events that were
    let through before, only the last with exactly the same tags counts, and
    only while the cache has not evicted it: if there is none the event is let
    through, as it is when it has the same timestamp. Else, for distances below
    2^53 ns whose product with the limit is below 2^62: an older event is
    refused, one at a distance whose product with the limit is a second or more
    is let through, and one at a distance whose product is less than a second,
    by more than the 2^-24 ns the rounding of the product can add, is refused.
    An event that is let through is remembered under its tags, and one that is
    refused changes nothing. *)
Theorem rate_limit_spec (o : rateLimit) (l : positive) (el : Z) (es : list EventMsg) (e : EventMsg) :
  PerSecondLimit o = S754_finite false l el -> lru_tab (eventIndex o) = ∅ ->
  Forall plain_tags (es ++ [e]) -> no_collision (es ++ [e]) ->
  let '(o1, acc) := rate_run o es in
  let '(o2, acc2) := rateLimit_step (o1, acc) (Some e) in
  let t := ev_Timestamp e in
  match lru_tab (eventIndex o1) !! hashEvent e with
  | None => acc2 = acc ++ [e]
  | Some ts =>
      last_same e acc = Some ts /\ (t = ts -> acc2 = acc ++ [e]) /\
      (t <> ts -> in_range l el (t - ts) ->
        (t < ts -> acc2 = acc) /\
        (ts < t -> below ((t - ts) * Z.pos l) el oneSecond = false -> acc2 = acc ++ [e]) /\
        (ts < t -> below ((t - ts) * Z.pos l * 2 ^ 24) el (oneSecond * 2 ^ 24 - 1) = true -> acc2 = acc))
  end /\
  (acc2 = acc /\ lru_tab (eventIndex o2) = lru_tab (eventIndex o1) \/
   acc2 = acc ++ [e] /\ lru_tab (eventIndex o2) !! hashEvent e = Some t).
Proof.
  intros Hl He Hp Hn. pose proof (rate_run_past o (es ++ [e]) es He Hp Hn ltac:(set_solver)) as [Hpast Hlim].
  destruct (rate_run o es) as [o1 acc]. cbn in Hlim. destruct Hpast as [Hpast _]. cbn in Hpast. unfold rateLimit_step.
  destruct (lru_Get_tab (hashEvent e) (eventIndex o1)) as [Hg Ht]. destruct (lru_Get (hashEvent e) (eventIndex o1)) as [known cache].
  cbn in Hg, Ht. rewrite <-Hg. destruct (lru_Add_tab (hashEvent e) (ev_Timestamp e) cache) as [Hk _]. destruct known as [ts|]; [|cbn; by eauto].
  rewrite Hlim, Hl. specialize (Hpast e ts ltac:(set_solver) (eq_sym Hg)).
  destruct (Z.eqb_spec (ev_Timestamp e) ts) as [Heq|Hne]; cbn [negb andb].
  - split; [|right; done]. split; [done|]. split; [done|]. intros ?. done.
  - pose proof (fun Hr => too_fast_spec l el _ _ Hne Hr) as Hf.
    destruct (too_fast (S754_finite false l el) (ev_Timestamp e) ts); (split; [|by eauto]); (split; [done|]); (split; [done|]);
      intros _ Hr; destruct (Hf Hr) as (H1' & H2' & H3'); repeat split; intros; try done; exfalso; naive_solver.
Qed.
End rate_limit.

Definition rateLimit_proc `{MapOrder} `{LRU} `{SHA256} `{FloatConv} : EventProcessor rateLimit :=
  {| Apply o es := Ok (rateLimit_Apply o es) |}.

(** The cache and hash of the witness: one that forgets nothing, and text. *)
Lemma lru_map_get (k : string) (c : gmap string Z) : c !! k = c !! k /\ c = c.
Proof. done. Qed.
Lemma lru_map_add (k : string) (v : Z) (c : gmap string Z) :
  <[k := v]> c !! k = Some v /\
  forall k' v', k' <> k -> <[k := v]> c !! k' = Some v' -> c !! k' = Some v'.
Proof.
  split; [apply lookup_insert_eq|]. intros k' v' Hk. by rewrite lookup_insert_ne.
Qed.
Definition lru_map : LRU := {|
  lru := gmap string Z;
  lru_New n := Some ∅;
  lru_Get k c := (c !! k, c);
  lru_Add k v c := <[k := v]> c;
  lru_tab c := c;
  lru_Get_tab := lru_map_get;
  lru_Add_tab := lru_map_add
|}.
Definition sha_id : SHA256 := {| sha256_hex s := s |}.

(** Two events a second: the one 0.4s after the last accepted one is refused,
    the one 0.6s after it is accepted, and events with other tags, a tag more
    or one less, do not count. *)
Lemma rate_limit_spec_witness :
  let e t := mkEvent "s" t (Some {["if" := "e0"]}) None None in
  let f t := mkEvent "s" t (Some {["if" := "e1"]}) None None in
  let g t := mkEvent "s" t (Some {["if" := "e0"; "un" := "0"]}) None None in
  let o := mkRateLimit lru_map (f64_of_Z 2) ∅ in
  let step := rateLimit_step (H := order_fwd) (H0 := lru_map) (H1 := sha_id) (H2 := conv_amd64) in
  let run := rate_run (H := order_fwd) (H0 := lru_map) (H1 := sha_id) (H2 := conv_amd64) o in
  (run [e 0; f 300000000; e 400000000; g 500000000; e 600000000]).2 = [e 0; f 300000000; g 500000000; e 600000000] /\
  (step (run [e 0; f 300000000]) (Some (e 400000000))).2 = [e 0; f 300000000].
Proof.
  cbn zeta. split; [vm_compute; reflexivity|].
  pose proof (rate_limit_spec (H := order_fwd) (H0 := lru_map) (H1 := sha_id) (H2 := conv_amd64)
    (mkRateLimit lru_map (f64_of_Z 2) ∅) 4503599627370496 (-51)
    [mkEvent "s" 0 (Some {["if" := "e0"]}) None None; mkEvent "s" 300000000 (Some {["if" := "e1"]}) None None]
    (mkEvent "s" 400000000 (Some {["if" := "e0"]}) None None)) as Hs.
  destruct (rate_run _ _) as [o1 acc] eqn:Er. vm_compute in Er. injection Er as <- <-.
  destruct (rateLimit_step _ _) as [o2 acc2]. cbn [snd].
  destruct Hs as [Hs _]; [vm_compute; reflexivity|reflexivity| |intros ? ? _ _ Heq; exact Heq|].
  - refine (bool_decide_unpack _ _). vm_compute. exact Logic.I.
  - vm_compute in Hs. destruct Hs as (_ & _ & Hs). apply Hs; [discriminate|split; reflexivity|reflexivity|reflexivity].
Defined.

Lemma rateLimit_safe `{MapOrder} `{LRU} `{SHA256} `{FloatConv} : SafeProcessor rateLimit_proc always.
Proof.
  split. intros o es _ Hes. cbn. unfold rateLimit_Apply.
  assert (forall st, Forall (fun e => is_Some (ev_Tags e)) st.2 ->
    Forall (fun e => is_Some (ev_Tags e)) (foldl rateLimit_step st es).2) as Hl.
  { induction Hes as [|e es He Hes IH]; intros st Hst; [done|]. cbn [foldl]. apply IH.
    destruct st as [o' acc], e as [e|]; [|done]. unfold rateLimit_step.
    destruct (lru_Get _ _) as [ts cache]. destruct (match ts with Some _ => _ | None => _ end); [done|].
    apply Forall_app. by repeat constructor. }
  specialize (Hl (o, []) (Forall_nil_2 _)). destruct (foldl rateLimit_step (o, []) es) as [o' acc].
  do 2 eexists. split; [done|]. split; [done|]. by apply Forall_fmap.
Qed.
