(* ===== verification/Convert.v ===== *)
(** * Conversion processors: event-convert, event-duration-convert,
      event-time-epoch, event-ieeefloat32

    Each replaces the values whose names match an expression by a converted
    value, and leaves a value it cannot convert as it was. Integers have their
    Go widths; floats are binary64 and binary32 values. Parsing and printing
    floats and parsing dates are parameters. *)

From S2P Require Import Prelude GoStrings Utf8 Path GoVal Text Event Processor Filters Tags.
From Stdlib Require Import Floats.SpecFloat.
From stdpp Require Import strings pretty.

#[local] Open Scope Z_scope.

(** [strconv.ParseFloat(s, 64)] and [strconv.FormatFloat(f, 'f', -1, 64)]. *)
Class FloatText : Type := {
  ParseFloat : string -> option spec_float;
  FormatFloat : spec_float -> string
}.

Inductive conv_error := errAtoi | errParseFloat | errType | errParseTime | errBase64 | errShort | errUnits | errUnitText.

(** ** Replacing matching values *)

Section replace.
Context `{MapOrder}.

(** [for k, v := range e.Values { for _, re := range res { if re.MatchString(k)
    { ... e.Values[k] = f(v); break } } }], where [f] may fail. *)
Definition replace_value (res : list Regexp) (f : any -> go conv_error any) (m : gmap string any)
    (kv : string * any) : gmap string any :=
  let '(k, v) := kv in
  if matchesAny k res then match f v with Ok w => <[k := w]> m | _ => m end else m.
Definition replace_values (res : list Regexp) (f : any -> go conv_error any) (e : EventMsg) : EventMsg :=
  with_values (m ← ev_Values e; Some (foldl (replace_value res f) m (range m))) e.

Definition converted (res : list Regexp) (f : any -> go conv_error any) (k : string) (v : any) : any :=
  if matchesAny k res then match f v with Ok w => w | _ => v end else v.

Lemma replace_values_spec res f e k :
  gm_get (ev_Values (replace_values res f e)) k = converted res f k <$> gm_get (ev_Values e) k.
Proof.
  unfold replace_values; cbn. destruct (ev_Values e) as [m|]; cbn; [|done].
  rewrite (foldl_ext (replace_value res f)
    (fun t kv => if matchesAny kv.1 res && is_ok (f kv.2)
                 then <[kv.1 := match f kv.2 with Ok w => w | _ => kv.2 end]> t else t)).
  2: { intros t [i v]. cbn. destruct (matchesAny i res); cbn; [|done]. by destruct (f v). }
  rewrite (foldl_set_where (fun k v => matchesAny k res && is_ok (f v))
             (fun v => match f v with Ok w => w | _ => v end)).
  destruct (m !! k) as [v|] eqn:Hk; cbn; [|done]. unfold converted.
  destruct (matchesAny k res); cbn; [|done]. by destruct (f v).
Qed.

Lemma replace_values_rest res f e :
  (ev_Name (replace_values res f e), ev_Timestamp (replace_values res f e),
   ev_Tags (replace_values res f e), ev_Deletes (replace_values res f e))
  = (ev_Name e, ev_Timestamp e, ev_Tags e, ev_Deletes e).
Proof. done. Qed.
End replace.

(** ** event-convert *)

Record convertConfig := mkConvertConfig { cc_Values : list string; cc_Type : string }.
Record convert := mkConvert { c_values : list Regexp; c_Type : string }.

Definition convert_Init `{RegexpPkg} `{Decode convertConfig} (cfg : any) : go init_error convert :=
  c ← decode cfg;
  values ← compileRegex (cc_Values c);
  Ok (mkConvert values (cc_Type c)).

Section convert.
Context `{FloatConv} `{FloatText}.

Definition convertToInt (i : any) : go conv_error Z :=
  match i with
  | AStr s => match atoi s with Some iv => Ok iv | None => Err errAtoi end
  | AInt KUintptr _ => Err errType
  | AInt _ z => Ok (wrap KInt z)
  | AF64 f => Ok (int_of_float KInt f)
  | AF32 f => Ok (int_of_float KInt f)
  | _ => Err errType
  end.

Definition convertToUint (i : any) : go conv_error Z :=
  match i with
  | AStr s => match atoi s with Some iv => Ok (wrap KUint iv) | None => Err errAtoi end
  | AInt KUintptr _ => Err errType
  | AInt k z => if kind_signed k && (z <? 0) then Ok 0 else Ok (wrap KUint z)
  | AF32 f => if f64_lt f (f64_of_Z 0) then Ok 0 else Ok (int_of_float KUint f)
  | AF64 f => if f64_lt f (f64_of_Z 0) then Ok 0 else Ok (int_of_float KUint f)
  | _ => Err errType
  end.

(** A byte slice of four or eight bytes is a big-endian float; of any other
    length, zero. *)
Definition convertToFloat (i : any) : go conv_error spec_float :=
  match i with
  | ABytes b =>
      let b := default "" b in
      if (String.length b =? 4)%nat then Ok (f64_of_f32 (f32_frombits (be_value 0 b)))
      else if (String.length b =? 8)%nat then Ok (f64_frombits (be_value 0 b))
      else Ok (f64_of_Z 0)
  | AStr s => match ParseFloat s with Some f => Ok f | None => Err errParseFloat end
  | AInt KUintptr _ => Err errType
  | AInt _ z => Ok (f64_of_Z z)
  | AF64 f => Ok f
  | _ => Err errType
  end.

Definition convertToString (i : any) : go conv_error string :=
  match i with
  | AStr s => Ok s
  | AInt KUintptr _ => Err errType
  | AInt _ z => Ok (itoa z)
  | AF64 f => Ok (FormatFloat f)
  | ABool b => Ok (format_bool b)
  | _ => Err errType
  end.

(** The switch on the configured type; any other type leaves the value. *)
Definition convertValue (ty : string) (v : any) : go conv_error any :=
  if String.eqb ty "int" then AInt KInt <$> convertToInt v
  else if String.eqb ty "uint" then AInt KUint <$> convertToUint v
  else if String.eqb ty "string" then AStr <$> convertToString v
  else if String.eqb ty "float" then AF64 <$> convertToFloat v
  else Ok v.

Definition convert_Apply `{MapOrder} (c : convert) (es : events) : events :=
  option_map (replace_values (c_values c) (convertValue (c_Type c))) <$> es.
End convert.

(** *** Text and integers *)

Lemma atoi_digits_pretty (x : N) (s : string) (acc : Z) :
  acc = 0 -> atoi_digits acc (pretty_N_go x s) = atoi_digits (Z.of_N x) s.
Proof.
  intros ->. revert s. induction (N.lt_wf_0 x) as [x _ IH]; intros s.
  destruct (decide (x = 0%N)) as [->|Hx]; [by rewrite pretty_N_go_0|].
  rewrite pretty_N_go_step by lia. rewrite IH by (apply N.div_lt; lia). cbn [atoi_digits].
  assert (digit_val (pretty_N_char (x mod 10)) = Some (Z.of_N (x mod 10))) as ->.
  { assert (x mod 10 < 10)%N as Hlt by (apply N.mod_lt; lia). revert Hlt. generalize (x mod 10)%N as d. intros d Hd.
    assert (d = 0 \/ d = 1 \/ d = 2 \/ d = 3 \/ d = 4 \/ d = 5 \/ d = 6 \/ d = 7 \/ d = 8 \/ d = 9)%N as Hc by lia.
    by repeat (destruct Hc as [->|Hc]; [by vm_compute|]); subst. }
  cbn [mbind option_bind]. f_equal. rewrite N2Z.inj_div, N2Z.inj_mod.
  pose proof (Z.div_mod (Z.of_N x) 10). change (Z.of_N 10) with 10. lia.
Qed.

(** Printing then parsing an [int]. *)
Lemma pretty_N_digits (x : N) : x <> 0%N ->
  exists d s, pretty x = String d s /\ digit_val d <> None /\ atoi_digits 0 (pretty x) = Some (Z.of_N x).
Proof.
  intros Hx. unfold pretty, pretty_N. rewrite decide_False by done.
  pose proof (atoi_digits_pretty x "" 0 eq_refl) as Ha.
  change (atoi_digits (Z.of_N x) "") with (Some (Z.of_N x)) in Ha.
  destruct (pretty_N_go x "") as [|d s] eqn:E.
  - cbn in Ha. injection Ha as Ha. lia.
  - exists d, s. split; [done|]. split; [|done]. cbn in Ha. by destruct (digit_val d).
Qed.

Lemma digit_not_sign d : digit_val d <> None -> d <> "+"%char /\ d <> "-"%char.
Proof. intros Hd. split; intros ->; by vm_compute in Hd. Qed.

Lemma atoi_body d s :
  digit_val d <> None ->
  atoi (String d s) = (n ← atoi_digits 0 (String d s); if in_kind KInt n then Some n else None) /\
  atoi (String "-" (String d s)) = (n ← atoi_digits 0 (String d s); if in_kind KInt (- n) then Some (- n) else None).
Proof.
  intros Hd. destruct (digit_not_sign d Hd) as [Hp Hm]. unfold atoi. split; [|done].
  destruct d as [[] [] [] [] [] [] [] []]; done.
Qed.

Lemma atoi_itoa z : in_kind KInt z = true -> atoi (itoa z) = Some z.
Proof.
  intros Hz. unfold itoa. destruct z as [|p|p]; [done|..].
  - destruct (pretty_N_digits (Npos p) ltac:(done)) as (d & s & Hp & Hd & Ha).
    change (pretty (Z.pos p)) with (pretty (N.pos p)). rewrite Hp in Ha |- *. rewrite (proj1 (atoi_body d s Hd)), Ha.
    cbn [mbind option_bind]. change (Z.of_N (N.pos p)) with (Z.pos p). by rewrite Hz.
  - destruct (pretty_N_digits (Npos p) ltac:(done)) as (d & s & Hp & Hd & Ha).
    change (pretty (Z.neg p)) with (String "-" (pretty (N.pos p))). rewrite Hp in Ha |- *.
    rewrite (proj2 (atoi_body d s Hd)), Ha. cbn [mbind option_bind].
    change (- Z.of_N (N.pos p)) with (Z.neg p). by rewrite Hz.
Qed.

(** *** What event-convert does *)

Section convert_lemmas.
Context `{FloatConv} `{FloatText}.

Lemma convertToInt_in v z : convertToInt v = Ok z -> in_kind KInt z = true.
Proof.
  destruct v as [| |s|k n|f|f| | | | | | |]; cbn; try done.
  - destruct (atoi s) as [n|] eqn:Ea; [|done]. intros [= <-]. unfold atoi in Ea.
    repeat case_match; try done; apply bind_Some in Ea as (m & _ & Ea); repeat case_match; congruence.
  - destruct k; try done; intros [= <-]; apply (wrap_in KInt).
  - intros [= <-]. apply int_of_float_in.
  - intros [= <-]. apply int_of_float_in.
Qed.

(** Event-convert replaces exactly the values whose names match, by their
    converted form when it exists, in any map order. Conversions to int and
    uint yield values of their width; integers that fit convert to themselves,
    negative ones to the unsigned zero; and printing an integer and converting
    it back to int is the identity. *)
Theorem convert_spec `{MapOrder} (c : convert) (e : EventMsg) :
  (exists e', convert_Apply c [Some e] = [Some e'] /\
    forall k, gm_get (ev_Values e') k =
      converted (c_values c) (convertValue (c_Type c)) k <$> gm_get (ev_Values e) k) /\
  (forall v z, convertToInt v = Ok z -> in_kind KInt z = true) /\
  (forall k z, in_kind k z = true -> k <> KUintptr ->
     (in_kind KInt z = true -> convertToInt (AInt k z) = Ok z /\
        exists s, convertToString (AInt k z) = Ok s /\ convertToInt (AStr s) = Ok z) /\
     convertToUint (AInt k z) = Ok (Z.max 0 z)).
Proof.
  split; [|split].
  - eexists. split; [done|]. intros k. apply replace_values_spec.
  - apply convertToInt_in.
  - intros k z Hk Hu. split.
    + intros Hz. assert (convertToInt (AInt k z) = Ok z) as Hi.
      { unfold convertToInt. rewrite wrap_id by done. by destruct k. }
      split; [done|]. exists (itoa z). split; [by destruct k|]. cbn. by rewrite atoi_itoa.
    + assert (convertToUint (AInt k z) = if kind_signed k && (z <? 0) then Ok 0 else Ok (wrap KUint z)) as ->
        by (by destruct k).
      apply in_kind_spec in Hk. destruct (kind_signed k && (z <? 0)) eqn:Es.
      * apply andb_true_iff in Es as [_ Es%Z.ltb_lt]. f_equal. lia.
      * assert (0 <= z) as Hz0.
        { destruct (kind_signed k) eqn:Ek; cbn in Es; [by apply Z.ltb_ge in Es|]. unfold kind_min in Hk.
          rewrite Ek in Hk. lia. }
        rewrite wrap_id; [f_equal; lia|]. apply in_kind_spec. split; [cbn; lia|].
        etrans; [apply Hk|]. by destruct k.
Qed.

Definition float_text_none : FloatText := {| ParseFloat _ := None; FormatFloat _ := "" |}.

(** Text is not treated like numbers: a negative number in text wraps around
    where a negative integer becomes zero, and text beyond the signed range is
    refused although it is an unsigned integer. *)
Example convert_uint_text :
  convertToUint (H := conv_amd64) (AInt KInt (-1)) = Ok 0 /\
  convertToUint (H := conv_amd64) (AStr "-1") = Ok 18446744073709551615 /\
  convertToUint (H := conv_amd64) (AStr "18446744073709551615") = Err errAtoi.
Proof. by vm_compute. Qed.
End convert_lemmas.

Definition convert_proc `{FloatConv} `{FloatText} `{MapOrder} : EventProcessor convert :=
  {| Apply c es := Ok (c, convert_Apply c es) |}.

Lemma replace_values_ok `{MapOrder} f (es : events) :
  (forall e, ev_Tags (f e) = ev_Tags e) -> Forall ok_event es -> Forall ok_event (option_map f <$> es).
Proof.
  intros Hf Hes. apply Forall_fmap. eapply Forall_impl; [exact Hes|]. intros [e|]; [|done]. cbn. by rewrite Hf.
Qed.

Lemma convert_safe `{FloatConv} `{FloatText} `{MapOrder} : SafeProcessor convert_proc always.
Proof.
  apply stateless_safe. intros c es Hes. cbn. eexists. split; [done|]. by apply replace_values_ok.
Qed.

(** ** event-duration-convert *)

Record durationConfig := mkDurationConfig { duc_Values : list string; duc_Keep : bool }.
Record durationConvert := mkDurationConvert { du_values : list Regexp; du_Keep : bool }.

Definition duration_Init `{RegexpPkg} `{Decode durationConfig} (cfg : any) : go init_error durationConvert :=
  c ← decode cfg;
  values ← compileRegex (duc_Values c);
  Ok (mkDurationConvert values (duc_Keep c)).

(** [durationRegex]: at the start of the text, for each unit in turn an
    optional run of digits followed by its letter. Every group is optional, so
    it always matches, and what follows is ignored. *)
Definition is_digit (c : ascii) : bool := match digit_val c with Some _ => true | None => false end.

Fixpoint span_digits (s : string) : string * string :=
  match s with
  | String c s' => if is_digit c then let '(d, r) := span_digits s' in (String c d, r) else ("", s)
  | EmptyString => ("", "")
  end.

Definition dur_group (unit : ascii) (s : string) : string * string :=
  let '(d, rest) := span_digits s in
  match rest with
  | String c r => if negb (String.eqb d "") && Ascii.eqb c unit then (d, r) else ("", s)
  | EmptyString => ("", s)
  end.

Definition dur_units : list (string * ascii) :=
  [("weeks", "w"%char); ("days", "d"%char); ("hours", "h"%char); ("minutes", "m"%char); ("seconds", "s"%char)].

Fixpoint dur_match (units : list (string * ascii)) (s : string) : list (string * string) :=
  match units with
  | [] => []
  | (name, u) :: units => let '(d, rest) := dur_group u s in (name, d) :: dur_match units rest
  end.

Definition dur_seconds (name : string) : Z :=
  if String.eqb name "weeks" then 7 * 24 * 60 * 60
  else if String.eqb name "days" then 24 * 60 * 60
  else if String.eqb name "hours" then 60 * 60
  else if String.eqb name "minutes" then 60
  else if String.eqb name "seconds" then 1 else 0.

Section duration.
Context `{MapOrder}.

(** The loop over the named groups, a map. *)
Definition dur_add (r : Z) (kv : string * string) : go conv_error Z :=
  let '(k, v) := kv in
  if String.eqb v "" then Ok r
  else match atoi v with
       | Some i => Ok (int64 (r + i * dur_seconds k))
       | None => Err errAtoi
       end.

Definition parseStringDuration (s : string) : go conv_error Z :=
  foldM dur_add (range (list_to_map (dur_match dur_units s) : gmap string string)) 0.

Definition convertDuration `{FloatConv} (i : any) : go conv_error Z :=
  match i with
  | AStr s => match atoi s with None => parseStringDuration s | Some iv => Ok iv end
  | AInt KUintptr _ => Err errType
  | AInt _ z => Ok (int64 z)
  | AF64 f => Ok (int_of_float KInt64 f)
  | AF32 f => Ok (int_of_float KInt64 f)
  | _ => Err errType
  end.

(** New values are collected apart and added at the end. *)
Definition duration_value `{FloatConv} (c : durationConvert) (newValues : gmap string any) (kv : string * any)
    : gmap string any :=
  let '(k, v) := kv in
  if matchesAny k (du_values c) then
    match convertDuration v with
    | Ok dur => if du_Keep c then <[k +:+ "_seconds" := AInt KInt64 dur]> newValues
                else <[k := AInt KInt64 dur]> newValues
    | _ => newValues
    end
  else newValues.

Definition duration_event `{FloatConv} (c : durationConvert) (e : EventMsg) : EventMsg :=
  let newValues := foldl (duration_value c) ∅ (range (gm_tab (ev_Values e))) in
  with_values (m ← ev_Values e; Some (foldl (fun m kv => <[kv.1 := kv.2]> m) m (range newValues))) e.

Definition duration_Apply `{FloatConv} (c : durationConvert) (es : events) : events :=
  option_map (duration_event c) <$> es.

(** *** Durations in text *)

(** The value of one group; the empty text is an absent group. *)
Definition dur_part (kv : string * string) : option Z :=
  if String.eqb kv.2 "" then Some 0 else i ← atoi kv.2; Some (i * dur_seconds kv.1).

Fixpoint dur_sum (l : list (string * string)) : option Z :=
  match l with [] => Some 0 | kv :: l => a ← dur_part kv; b ← dur_sum l; Some (a + b) end.

Lemma wrap_add_l a b : int64 (int64 a + b) = int64 (a + b).
Proof.
  unfold wrap, wrap_s; cbn [kind_signed kind_bits]. f_equal.
  replace ((a + 2 ^ (64 - 1)) mod 2 ^ 64 - 2 ^ (64 - 1) + b + 2 ^ (64 - 1))
    with ((a + 2 ^ (64 - 1)) mod 2 ^ 64 + b) by lia.
  rewrite Zplus_mod_idemp_l. f_equal. lia.
Qed.

Lemma dur_add_part r kv :
  r = int64 r -> dur_add r kv = match dur_part kv with Some a => Ok (int64 (r + a)) | None => Err errAtoi end.
Proof.
  intros Hr. destruct kv as [k v]. unfold dur_add, dur_part; cbn [fst snd].
  destruct (String.eqb v ""); [by rewrite Z.add_0_r, <-Hr|]. by destruct (atoi v).
Qed.

Lemma dur_fold l r :
  r = int64 r ->
  foldM dur_add l r = match dur_sum l with Some t => Ok (int64 (r + t)) | None => Err errAtoi end.
Proof.
  revert r; induction l as [|kv l IH]; intros r Hr; cbn [foldM dur_sum]; [by rewrite Z.add_0_r, <-Hr|].
  rewrite dur_add_part by done. destruct (dur_part kv) as [a|]; cbn [mbind go_bind option_bind]; [|done].
  rewrite IH by (symmetry; apply wrap_id, wrap_in). destruct (dur_sum l); cbn [mbind option_bind]; [|done].
  by rewrite wrap_add_l, Z.add_assoc.
Qed.

Lemma dur_sum_perm l1 l2 : l1 ≡ₚ l2 -> dur_sum l1 = dur_sum l2.
Proof.
  induction 1 as [|x l1 l2 _ IH|x y l|l1 l2 l3 _ IH1 _ IH2]; cbn; [done| | |congruence].
  - by rewrite IH.
  - destruct (dur_part x), (dur_part y), (dur_sum l); cbn; try done. f_equal. lia.
Qed.

Lemma dur_match_names units s : (dur_match units s).*1 = units.*1.
Proof.
  revert s; induction units as [|[n u] units IH]; intros s; cbn; [done|].
  destruct (dur_group u s) as [d r]. cbn. by rewrite IH.
Qed.

Lemma parseStringDuration_sum s :
  parseStringDuration s =
  match dur_sum (dur_match dur_units s) with Some t => Ok (int64 t) | None => Err errAtoi end.
Proof.
  unfold parseStringDuration. rewrite dur_fold by (by vm_compute).
  rewrite (dur_sum_perm _ (dur_match dur_units s)); [done|].
  rewrite range_perm. apply map_to_list_to_map. rewrite dur_match_names.
  refine (bool_decide_unpack _ _). by vm_compute.
Qed.

(** Text of the form the expression describes: for each unit a number or
    nothing. *)
Definition render_part (u : ascii) (n : option N) : string :=
  match n with Some n => itoa (Z.of_N n) +:+ String u "" | None => "" end.
Fixpoint render_duration (units : list (string * ascii)) (ns : list (option N)) : string :=
  match units, ns with
  | (_, u) :: units, n :: ns => render_part u n +:+ render_duration units ns
  | _, _ => ""
  end.

Lemma atoi_digits_all acc s z : atoi_digits acc s = Some z -> sall is_digit s = true.
Proof.
  revert acc; induction s as [|c s IH]; intros acc; cbn; [done|]. unfold is_digit.
  destruct (digit_val c); [|done]. apply IH.
Qed.

Lemma itoa_digits n : sall is_digit (itoa (Z.of_N n)) = true /\ itoa (Z.of_N n) <> "".
Proof.
  destruct (decide (n = 0%N)) as [->|Hn]; [by vm_compute|].
  destruct (pretty_N_digits n Hn) as (d & s & Hp & _ & Ha).
  replace (itoa (Z.of_N n)) with (pretty n) by (by destruct n). split; [|by rewrite Hp].
  by eapply atoi_digits_all.
Qed.

Lemma span_digits_app a c b : sall is_digit a = true -> is_digit c = false -> span_digits (a +:+ String c b) = (a, String c b).
Proof.
  induction a as [|x a IH]; cbn; intros Ha Hc; [by rewrite Hc|].
  apply andb_true_iff in Ha as [-> Ha]. by rewrite IH.
Qed.

(** A number with its unit is taken by that unit's group and no other. *)
Lemma dur_group_part u u' n rest :
  is_digit u' = false ->
  dur_group u (itoa (Z.of_N n) +:+ (String u' rest)) =
  if Ascii.eqb u' u then (itoa (Z.of_N n), rest) else ("", itoa (Z.of_N n) +:+ (String u' rest)).
Proof.
  intros Hu. destruct (itoa_digits n) as [Hd Hne]. unfold dur_group. rewrite span_digits_app by done.
  rewrite (proj2 (String.eqb_neq _ _) Hne). cbn [negb andb]. done.
Qed.

Lemma dur_group_absent u units ns :
  Forall (fun nu => is_digit nu.2 = false /\ nu.2 <> u) units ->
  dur_group u (render_duration units ns) = ("", render_duration units ns).
Proof.
  revert ns; induction units as [|[name u'] units IH]; intros ns Hu; [done|].
  apply Forall_cons in Hu as [[Hd Hne] Hu]. destruct ns as [|[n|] ns]; cbn [render_duration render_part].
  - done.
  - rewrite sapp_assoc. cbn [String.append]. rewrite dur_group_part by done.
    by destruct (Ascii.eqb_spec u' u).
  - by apply IH.
Qed.

Lemma dur_match_render units ns :
  Forall (fun nu => is_digit nu.2 = false) units -> NoDup units.*2 -> length ns = length units ->
  dur_match units (render_duration units ns) =
  zip_with (fun nu n => (nu.1, match n with Some n => itoa (Z.of_N n) | None => "" end)) units ns.
Proof.
  revert ns; induction units as [|[name u] units IH]; intros ns Hd Hnd Hl; [done|].
  destruct ns as [|n ns]; [done|]. injection Hl as Hl. apply Forall_cons in Hd as [Hu Hd].
  cbn in Hnd, Hu. apply NoDup_cons in Hnd as [Hnu Hnd].
  assert (Forall (fun nu => is_digit nu.2 = false /\ nu.2 <> u) units) as Hall.
  { rewrite Forall_forall in Hd |- *. intros nu Hin. split; [by apply Hd|]. intros <-. apply Hnu.
    by apply list_elem_of_fmap_2. }
  cbn [render_duration dur_match zip_with]. destruct n as [n|]; cbn [render_part].
  - rewrite sapp_assoc. cbn [String.append]. rewrite dur_group_part by done.
    rewrite Ascii.eqb_refl. f_equal. by apply IH.
  - cbn [String.append]. rewrite dur_group_absent by done. f_equal. by apply IH.
Qed.

(** Event-duration-convert on text: weeks, days, hours, minutes and
    seconds, each given or left out, in this order, is the sum in seconds (in
    64 bits), whatever order the named groups are visited in. *)
Theorem duration_text (ns : list (option N)) :
  length ns = 5%nat ->
  Forall (fun n => match n with Some n => in_kind KInt (Z.of_N n) = true | None => True end) ns ->
  parseStringDuration (render_duration dur_units ns) =
  Ok (int64 (foldr Z.add 0 (zip_with (fun mult n => mult * Z.of_N (default 0%N n))
                              [604800; 86400; 3600; 60; 1] ns))).
Proof.
  intros Hl Hns. rewrite parseStringDuration_sum.
  rewrite dur_match_render; [|by repeat constructor|refine (bool_decide_unpack _ _); by vm_compute|done].
  assert (forall name n, match n with Some n => in_kind KInt (Z.of_N n) = true | None => True end ->
    dur_part (name, match n with Some n => itoa (Z.of_N n) | None => "" end)
    = Some (Z.of_N (default 0%N n) * dur_seconds name)) as Hpart.
  { intros name [n|] Hn; unfold dur_part; cbn [fst snd]; [|done].
    rewrite (proj2 (String.eqb_neq _ _) (proj2 (itoa_digits n))), atoi_itoa by done. done. }
  destruct ns as [|w [|d [|h [|m [|s [|? ?]]]]]]; try done.
  repeat (apply Forall_cons in Hns as [? Hns]).
  cbn [zip_with dur_units dur_sum fst]. rewrite !Hpart by done. cbn [mbind option_bind foldr].
  do 2 f_equal. change (dur_seconds "weeks") with 604800. change (dur_seconds "days") with 86400.
  change (dur_seconds "hours") with 3600. change (dur_seconds "minutes") with 60.
  change (dur_seconds "seconds") with 1. lia.
Qed.
End duration.

Lemma duration_text_witness :
  length [None; Some 1%N; Some 2%N; None; Some 3%N] = 5%nat /\
  render_duration dur_units [None; Some 1%N; Some 2%N; None; Some 3%N] = "1d2h3s" /\
  parseStringDuration (H := order_bwd) "1d2h3s" = Ok 93603.
Proof.
  split; [reflexivity|]. split; [vm_compute; reflexivity|].
  change "1d2h3s" with (render_duration dur_units [None; Some 1%N; Some 2%N; None; Some 3%N]).
  rewrite (duration_text (H := order_bwd)); [vm_compute; reflexivity|reflexivity|].
  repeat constructor.
Defined.

(** Text without any duration is accepted, as zero. *)
Example duration_junk : parseStringDuration (H := order_fwd) "unknown" = Ok 0.
Proof. by vm_compute. Qed.

Definition duration_proc `{FloatConv} `{MapOrder} : EventProcessor durationConvert :=
  {| Apply c es := Ok (c, duration_Apply c es) |}.
Lemma duration_safe `{FloatConv} `{MapOrder} : SafeProcessor duration_proc always.
Proof.
  apply stateless_safe. intros c es Hes. cbn. eexists. split; [done|]. by apply replace_values_ok.
Qed.

(** ** event-time-epoch *)

(** [time.Parse]: the instant, in nanoseconds since the epoch. *)
Class TimeParse : Type := { time_Parse : string -> string -> option Z }.

Definition RFC3339 : string := "2006-01-02T15:04:05Z07:00".

Record epochConfig := mkEpochConfig { epc_Values : list string; epc_Precision : string; epc_Format : string }.
Record epoch := mkEpoch { ep_values : list Regexp; ep_Precision : string; ep_Format : string }.

Definition epoch_Init `{RegexpPkg} `{Decode epochConfig} (cfg : any) : go init_error epoch :=
  c ← decode cfg;
  values ← compileRegex (epc_Values c);
  Ok (mkEpoch values (epc_Precision c) (if String.eqb (epc_Format c) "" then RFC3339 else epc_Format c)).

(** [td.Unix()], [td.UnixMilli()], [td.UnixMicro()], [td.UnixNano()]. *)
Definition epoch_ts (precision : string) (nanos : Z) : Z :=
  if existsb (String.eqb precision) ["s"; "sec"; "second"] then nanos / 1000000000
  else if existsb (String.eqb precision) ["ms"; "millisecond"] then nanos / 1000000
  else if existsb (String.eqb precision) ["us"; "microsecond"] then nanos / 1000
  else int64 nanos.

Definition epoch_value `{TimeParse} (d : epoch) (v : any) : go conv_error any :=
  match v with
  | AStr s =>
      match time_Parse (ep_Format d) s with
      | Some td => Ok (AInt KInt64 (epoch_ts (ep_Precision d) td))
      | None => Err errParseTime
      end
  | _ => Err errType
  end.

Definition epoch_Apply `{TimeParse} `{MapOrder} (d : epoch) (es : events) : events :=
  option_map (replace_values (ep_values d) (epoch_value d)) <$> es.

Definition epoch_proc `{TimeParse} `{MapOrder} : EventProcessor epoch :=
  {| Apply d es := Ok (d, epoch_Apply d es) |}.
Lemma epoch_safe `{TimeParse} `{MapOrder} : SafeProcessor epoch_proc always.
Proof.
  apply stateless_safe. intros d es Hes. cbn. eexists. split; [done|]. by apply replace_values_ok.
Qed.

(** ** event-ieeefloat32 *)

Record ieeeConfig := mkIeeeConfig { ic_Condition : string; ic_ValueNames : list string }.
Record ieeefloat32 `{Gojq} := mkIeee { i_Condition : string; i_valueNames : list Regexp; i_code : option jq_code }.

Definition ieee_Init `{Gojq} `{RegexpPkg} `{Decode ieeeConfig} (cfg : any) : go init_error ieeefloat32 :=
  c ← decode cfg;
  let cond := if String.eqb (ic_Condition c) "" then "" else trim_space (ic_Condition c) in
  code ← (if String.eqb (ic_Condition c) "" then Ok None else Some <$> initCondition cond);
  valueNames ← compileRegex (ic_ValueNames c);
  Ok (mkIeee _ cond valueNames code).

(** [base64.StdEncoding.DecodeString]: line ends are skipped, padding is
    required and ends the text. *)
Definition b64_val (c : ascii) : option Z :=
  let z := byte_z c in
  if (65 <=? z) && (z <=? 90) then Some (z - 65)
  else if (97 <=? z) && (z <=? 122) then Some (z - 71)
  else if (48 <=? z) && (z <=? 57) then Some (z + 4)
  else if z =? 43 then Some 62 else if z =? 47 then Some 63 else None.

Fixpoint b64_decode (s : string) : option string :=
  match s with
  | EmptyString => Some ""
  | String a (String b (String c (String d rest))) =>
      va ← b64_val a; vb ← b64_val b;
      let b1 := z_byte (va * 4 + vb / 16) in
      if Ascii.eqb c "=" then
        if Ascii.eqb d "=" && String.eqb rest "" then Some (String b1 "") else None
      else
        vc ← b64_val c;
        let b2 := z_byte (vb mod 16 * 16 + vc / 4) in
        if Ascii.eqb d "=" then (if String.eqb rest "" then Some (String b1 (String b2 "")) else None)
        else
          vd ← b64_val d;
          rest ← b64_decode rest;
          Some (String b1 (String b2 (String (z_byte (vc mod 4 * 64 + vd)) rest)))
  | _ => None
  end.

Fixpoint drop_newlines (s : string) : string :=
  match s with
  | EmptyString => ""
  | String c s => if (byte_z c =? 10) || (byte_z c =? 13) then drop_newlines s else String c (drop_newlines s)
  end.
Definition DecodeString (s : string) : option string := b64_decode (drop_newlines s).

(** [decodeBase64String]. *)
Definition decodeBase64String (e : any) : go conv_error spec_float :=
  data ← match e with
         | AStr b64 => match DecodeString b64 with Some d => Ok d | None => Err errBase64 end
         | ABytes b => Ok (default "" b)
         | _ => Err errType
         end;
  if (String.length data <? 4)%nat then Err errShort
  else Ok (f32_frombits (be_value 0 (stake 4 data))).

Definition ieee_event `{Gojq} `{MapOrder} (p : ieeefloat32) (e : EventMsg) : go event_error EventMsg :=
  let go_on := Ok (replace_values (i_valueNames p) (fun v => AF32 <$> decodeBase64String v) e) in
  match i_code p with
  | Some code =>
      if negb (String.eqb (i_Condition p) "") then
        match CheckCondition (Some code) (Some e) with
        | Ok true => go_on
        | Ok false | Err _ => Ok e
        | Panic => Panic
        end
      else go_on
  | None => go_on
  end.
Definition ieee_Apply `{Gojq} `{MapOrder} (p : ieeefloat32) (es : events) : go event_error events :=
  mapE (fun e => match e with Some e => Some <$> ieee_event p e | None => Ok None end) es.

(** *** Base64 *)

Lemma b64_val_char z : 0 <= z < 64 -> b64_val (b64_char z) = Some z /\ Ascii.eqb (b64_char z) "=" = false
  /\ (byte_z (b64_char z) =? 10) || (byte_z (b64_char z) =? 13) = false.
Proof.
  intros Hz. assert (z ∈ (fun n => Z.of_nat n) <$> seq 0 64) as Hin.
  { apply list_elem_of_fmap. exists (Z.to_nat z). split; [lia|]. apply elem_of_seq. lia. }
  clear Hz. revert z Hin. apply Forall_forall. cbn [seq fmap list_fmap].
  repeat (apply Forall_cons; split; [by vm_compute|]). apply Forall_nil_2.
Qed.

Lemma b64_char_val z : 0 <= z < 64 -> b64_val (b64_char z) = Some z.
Proof. intros Hz. apply (b64_val_char z Hz). Qed.
Lemma b64_char_noeq z : 0 <= z < 64 -> Ascii.eqb (b64_char z) "=" = false.
Proof. intros Hz. apply (b64_val_char z Hz). Qed.

Lemma b64_char_nonl z : 0 <= z < 64 -> forall s, drop_newlines (String (b64_char z) s) = String (b64_char z) (drop_newlines s).
Proof. intros Hz s. cbn [drop_newlines]. by destruct (b64_val_char z Hz) as (_ & _ & ->). Qed.

Lemma string_ind3 (Q : string -> Prop) :
  Q "" -> (forall a, Q (String a "")) -> (forall a b, Q (String a (String b ""))) ->
  (forall a b c s, Q s -> Q (String a (String b (String c s)))) -> forall s, Q s.
Proof.
  intros H0 H1 H2 H3 s. assert (Q s /\ (forall a, Q (String a s)) /\ (forall a b, Q (String a (String b s)))) as [? _]; [|done].
  induction s as [|c s (IH0 & IH1 & IH2)]; [done|]. split; [apply IH1|]. split; [intros a; apply IH2|]. intros a b. by apply H3.
Qed.

(** The range of every byte of the goal; bounds of sums of shifted bytes. *)
Ltac byte_ranges :=
  repeat match goal with
  | |- context [byte_z ?x] =>
      lazymatch goal with H : 0 <= byte_z x < 256 |- _ => fail | _ => pose proof (byte_z_range x) end
  end.
Ltac div_lia := Z.to_euclidean_division_equations; lia.

Lemma base64_nonl s : drop_newlines (base64 s) = base64 s.
Proof.
  induction s as [|a|a b|a b c s IH] using string_ind3; [done|..]; cbn [base64];
    byte_ranges;
    rewrite ?b64_char_nonl by div_lia; by rewrite ?IH.
Qed.

Lemma z_byte_eq z c : z = byte_z c -> z_byte z = c.
Proof. intros ->. apply z_byte_z. Qed.

Lemma b64_decode_encode s : b64_decode (base64 s) = Some s.
Proof.
  induction s as [|a|a b|a b c s IH] using string_ind3; [done|..]; cbn [base64]; cbv zeta;
    byte_ranges; cbn [b64_decode].
  - rewrite !b64_char_val by div_lia. cbn [mbind option_bind].
    cbn. do 2 f_equal. apply z_byte_eq. div_lia.
  - rewrite !b64_char_val by div_lia. cbn [mbind option_bind].
    rewrite b64_char_noeq by div_lia.
    cbn. f_equal. f_equal; [|f_equal]; apply z_byte_eq; div_lia.
  - rewrite !b64_char_val by div_lia. cbn [mbind option_bind].
    rewrite !b64_char_noeq by div_lia. rewrite IH.
    cbn [mbind option_bind]. f_equal.
    f_equal; [|f_equal; [|f_equal]]; apply z_byte_eq; div_lia.
Qed.

Lemma DecodeString_encode s : DecodeString (base64 s) = Some s.
Proof. unfold DecodeString. rewrite base64_nonl. apply b64_decode_encode. Qed.

(** Event-ieeefloat32 decodes what the standard base64 encoding of some
    bytes stands for: encoded and raw bytes give the same result, the
    big-endian binary32 float of the first four bytes when there are that many
    and an error otherwise. *)
Theorem ieee_decode (s : string) :
  DecodeString (base64 s) = Some s /\
  decodeBase64String (AStr (base64 s)) = decodeBase64String (ABytes (Some s)) /\
  decodeBase64String (ABytes (Some s)) =
    (if (String.length s <? 4)%nat then Err errShort else Ok (f32_frombits (be_value 0 (stake 4 s)))).
Proof.
  split; [apply DecodeString_encode|]. split; [|done]. unfold decodeBase64String. by rewrite DecodeString_encode.
Qed.

Example ieee_one : decodeBase64String (AStr "P4AAAA==") = Ok (S754_finite false 8388608 (-23)).
Proof. by vm_compute. Qed.

Definition ieee_proc `{Gojq} `{MapOrder} : EventProcessor ieeefloat32 :=
  {| Apply p es := es ← ieee_Apply p es; Ok (p, es) |}.
Lemma ieee_safe `{Gojq} `{MapOrder} : SafeProcessor ieee_proc always.
Proof.
  apply stateless_safe. intros p es Hes. cbn. unfold ieee_Apply.
  assert (exists es', mapE (fun e => match e with Some e => Some <$> ieee_event p e | None => Ok None end) es = Ok es'
    /\ Forall ok_event es') as (es' & -> & Hes'); [|by eexists].
  induction Hes as [|e es He Hes (es' & IH & Hes')]; [by exists []|]. cbn [mapE]. rewrite IH.
  destruct e as [e|]; [|done].
  assert (exists e', ieee_event p e = Ok e' /\ is_Some (ev_Tags e')) as (e' & -> & He').
  { unfold ieee_event. destruct (i_code p) as [c|]; [|by eexists]. destruct (negb _); [|by eexists].
    pose proof (CheckCondition_no_panic (Some c) (Some e)) as Hnp.
    destruct (CheckCondition (Some c) (Some e)) as [[]| |]; [..|done]; by eexists. }
  cbn. eexists. split; [done|]. by constructor.
Qed.
