(* ===== verification/TextProc.v ===== *)
(** * More conversions: event-data-convert, event-date-string, event-strings

    [dataConvert] converts values between units of data, whose numbers it reads
    from text with a regular expression; [dateString] prints timestamps;
    [stringsp] applies functions of package strings to names and values. The
    arithmetic of units, the formatting of dates and the casing of titles are
    libraries: parameters. *)

From stdpp Require Import strings.
From Stdlib Require Import Floats.SpecFloat.
From S2P Require Import Prelude GoStrings Utf8 Path GoVal Text Event Processor Filters Tags Convert.

#[local] Open Scope Z_scope.

(** ** event-data-convert *)

(** The units of github.com/bcicen/go-units the package names. *)
Inductive Unit :=
| Bit | KiloBit | MegaBit | GigaBit | TeraBit | ExaBit
| Byte | KiloByte | MegaByte | GigaByte | TeraByte | ExaByte | ZettaByte | YottaByte
| Kibibyte | Mebibyte | Gibibyte | Tebibyte | Exbibyte | Zebibyte | Yobibyte.
#[export] Instance unit_eq_dec : EqDecision Unit.
Proof. solve_decision. Defined.

(** [units.ConvertFloat(v, from, to)] and its [Float]. *)
Class UnitsPkg : Type := { ConvertFloat : spec_float -> Unit -> Unit -> option spec_float }.

Definition unit_symbols : list (string * Unit) :=
  [("b", Bit); ("kb", KiloBit); ("mb", MegaBit); ("gb", GigaBit); ("tb", TeraBit); ("eb", ExaBit);
   ("B", Byte); ("KB", KiloByte); ("MB", MegaByte); ("GB", GigaByte); ("TB", TeraByte); ("EB", ExaByte);
   ("ZB", ZettaByte); ("YB", YottaByte);
   ("KiB", Kibibyte); ("MiB", Mebibyte); ("GiB", Gibibyte); ("TiB", Tebibyte); ("EiB", Exbibyte);
   ("ZiB", Zebibyte); ("YiB", Yobibyte)].
Definition sToU (s : string) : Unit :=
  match List.find (fun kv => String.eqb kv.1 s) unit_symbols with Some kv => kv.2 | None => Byte end.

Definition unitFromName (k : string) : option Unit :=
  if has_suffix "_octets" k || has_suffix "_bytes" k || has_suffix "-octets" k || has_suffix "-bytes" k
  then Some Byte else None.

(** *** [stringUnitRegex]

    [([+-]?([0-9]*[.])?[0-9]+)\s?(\S+)], at the start of the text: every part
    takes what it can and gives back what a later part needs. *)
Definition re_space (c : ascii) : bool :=
  existsb (Ascii.eqb c) [" "; "009"; "010"; "012"; "013"]%char.
Fixpoint span_nonspace (s : string) : string * string :=
  match s with
  | String c s' => if re_space c then ("", s) else let '(u, r) := span_nonspace s' in (String c u, r)
  | EmptyString => ("", "")
  end.
(** [\s?(\S+)]: the last group and what is left. A space that is not followed
    by a unit cannot be the unit. *)
Definition unit_tail (s : string) : option (string * string) :=
  let s := match s with String c s' => if re_space c then s' else s | EmptyString => s end in
  let '(u, r) := span_nonspace s in if String.eqb u "" then None else Some (u, r).
(** [[0-9]+\s?(\S+)] on a run [d] of digits and the text [r] after it: when no
    unit follows, the last digit is the unit. *)
Definition digits_unit (d r : string) : option (string * string * string) :=
  match unit_tail r with
  | Some (u, rest) => if String.eqb d "" then None else Some (d, u, rest)
  | None =>
      let n := (String.length d - 1)%nat in
      if (n =? 0)%nat then None else Some (stake n d, sdrop n d, r)
  end.
Definition sign_of (s : string) : string * string :=
  match s with
  | String c s' => if Ascii.eqb c "+" || Ascii.eqb c "-" then (String c "", s') else ("", s)
  | EmptyString => ("", "")
  end.
(** The first and the last group, and the text after the match. *)
Definition string_unit (s : string) : option (string * string * string) :=
  let '(sg, s) := sign_of s in
  let '(d, r) := span_digits s in
  let plain := '(n, u, rest) ← digits_unit d r; Some (sg +:+ n, u, rest) in
  match r with
  | String "." r' =>
      let '(f, r'') := span_digits r' in
      match digits_unit f r'' with
      | Some (n, u, rest) => Some (sg +:+ (d +:+ String "." n), u, rest)
      | None => plain
      end
  | _ => plain
  end.

Record dataConfig := mkDataConfig {
  dcc_Values : list string; dcc_From : string; dcc_To : string; dcc_Keep : bool; dcc_Old : string; dcc_New : string }.
Record dataConvert := mkDataConvert {
  dc_From : string; dc_To : string; dc_Keep : bool; dc_New : string;
  dc_values : list Regexp; dc_renameRegex : option Regexp }.

Definition dataConvert_Init `{RegexpPkg} `{Decode dataConfig} (cfg : any) : go init_error dataConvert :=
  c ← decode cfg;
  values ← compileRegex (dcc_Values c);
  rename ← (if String.eqb (dcc_Old c) "" then Ok None else Some <$> compile1 (dcc_Old c));
  Ok (mkDataConvert (dcc_From c) (dcc_To c) (dcc_Keep c) (dcc_New c) values rename).

Section data_convert.
Context `{FloatText} `{UnitsPkg} `{MapOrder}.

Definition parseStringUnit (s : string) : go conv_error (spec_float * Unit) :=
  match string_unit s with
  | Some (n, u, "") => match ParseFloat n with Some f => Ok (f, sToU u) | None => Err errParseFloat end
  | _ => Err errUnitText
  end.

(** The cases of [convertData] on numbers; the others are errors. *)
Definition any_float (i : any) : option spec_float :=
  match i with
  | AInt KUintptr _ => None
  | AInt _ z => Some (f64_of_Z z)
  | AF64 f => Some f
  | AF32 f => Some (f64_of_f32 f)
  | _ => None
  end.
Definition convertNumber (c : dataConvert) (k : string) (i : any) (from : option Unit) : go conv_error spec_float :=
  let from := match from with Some u => Some u | None => if String.eqb (dc_From c) "" then unitFromName k else None end in
  let from := default (sToU (dc_From c)) from in
  match any_float i with
  | Some f => match ConvertFloat f from (sToU (dc_To c)) with Some g => Ok g | None => Err errUnits end
  | None => Err errType
  end.
(** Text is a number, in the unit configured, or a number and its unit. *)
Definition convertData (c : dataConvert) (k : string) (i : any) : go conv_error spec_float :=
  match i with
  | AStr s =>
      match atoi s with
      | Some iv => convertNumber c k (AInt KInt iv) None
      | None => '(v, u) ← parseStringUnit s; convertNumber c k (AF64 v) (Some u)
      end
  | _ => convertNumber c k i None
  end.

(** The name a converted value gets, and whether the old one is deleted. *)
Definition data_name (c : dataConvert) (k : string) : string :=
  match dc_renameRegex c with
  | Some re => ReplaceAllString re k (dc_New c)
  | None => if dc_Keep c then k +:+ String "_" (dc_To c) else k
  end.
Definition data_drops (c : dataConvert) : bool := match dc_renameRegex c with Some _ => negb (dc_Keep c) | None => false end.

Definition data_value (c : dataConvert) (st : gmap string any * gmap string any) (kv : string * any)
    : gmap string any * gmap string any :=
  let '(values, newValues) := st in
  if matchesAny kv.1 (dc_values c) then
    match convertData c kv.1 kv.2 with
    | Ok iv => (if data_drops c then delete kv.1 values else values, <[data_name c kv.1 := AF64 iv]> newValues)
    | _ => (values, newValues)
    end
  else (values, newValues).
Definition data_event (c : dataConvert) (e : EventMsg) : EventMsg :=
  match ev_Values e with
  | None => e
  | Some m =>
      let '(values, newValues) := foldl (data_value c) (m, ∅) (range m) in
      with_values (Some (foldl (fun m kv => <[kv.1 := kv.2]> m) values (range newValues))) e
  end.
Definition dataConvert_Apply (c : dataConvert) (es : events) : events := option_map (data_event c) <$> es.
End data_convert.

Definition dataConvert_proc `{FloatText} `{UnitsPkg} `{MapOrder} : EventProcessor dataConvert :=
  {| Apply c es := Ok (c, dataConvert_Apply c es) |}.

(** *** What the expression reads *)

#[local] Arguments re_space : simpl never.
#[local] Arguments is_digit : simpl never.

Definition head_not (p : ascii -> bool) (s : string) : Prop := match s with String c _ => p c = false | EmptyString => True end.

Lemma span_digits_all a b : sall is_digit a = true -> head_not is_digit b -> span_digits (a +:+ b) = (a, b).
Proof.
  intros Ha Hb. destruct b as [|c b]; [|by apply span_digits_app].
  rewrite sapp_nil_r. induction a as [|x a IH]; cbn in *; [done|]. apply andb_true_iff in Ha as [-> Ha]. by rewrite IH.
Qed.

Lemma span_nonspace_all u : sall (fun c => negb (re_space c)) u = true -> span_nonspace u = (u, "").
Proof.
  induction u as [|c u IH]; cbn; [done|]. intros [Hc%negb_true_iff Hu]%andb_true_iff. by rewrite Hc, IH.
Qed.

Lemma digit_not_space c : is_digit c = true -> re_space c = false.
Proof. by destruct c as [[] [] [] [] [] [] [] []]. Qed.

(** A separator: nothing or one blank. *)
Definition one_space (sp : string) : Prop := sp = "" \/ exists c, sp = String c "" /\ re_space c = true.

Lemma unit_tail_unit sp u :
  one_space sp -> u <> "" -> sall (fun c => negb (re_space c)) u = true -> unit_tail (sp +:+ u) = Some (u, "").
Proof.
  intros [->|(c & -> & Hc)] Hu Hall; unfold unit_tail.
  - rewrite sapp_nil_l. destruct u as [|c u]; [done|].
    assert (re_space c = false) as -> by (apply andb_true_iff in Hall as [Hc _]; by apply negb_true_iff). by rewrite span_nonspace_all.
  - cbn. rewrite Hc, span_nonspace_all by done. by destruct u.
Qed.

Lemma digits_unit_last d x : digits_unit (d +:+ String x "") "" = if String.eqb d "" then None else Some (d, String x "", "").
Proof.
  unfold digits_unit. cbn [unit_tail span_nonspace String.eqb]. rewrite slength_app. cbn [String.length].
  replace (String.length d + 1 - 1)%nat with (String.length d) by lia. rewrite stake_app, sdrop_app. by destruct d.
Qed.

(** The text of a number: a sign, digits, and a point with more digits. *)
Definition sign_text (sg : string) : Prop := sg = "" \/ sg = "+" \/ sg = "-".
Definition number_text (sg d : string) (f : option string) : string :=
  sg +:+ (d +:+ match f with Some f => String "." f | None => "" end).

Lemma sign_of_number sg s : sign_text sg -> head_not (fun c => Ascii.eqb c "+" || Ascii.eqb c "-") s -> sign_of (sg +:+ s) = (sg, s).
Proof. intros [->|[->| ->]] Hs; [|done..]. destruct s as [|c s]; cbn in *; [done|]. by rewrite Hs. Qed.

Lemma digit_no_sign d t : sall is_digit d = true -> d <> "" -> head_not (fun c => Ascii.eqb c "+" || Ascii.eqb c "-") (d +:+ t).
Proof. destruct d as [|c d]; [done|]. cbn. intros [Hc _]%andb_true_iff _. by destruct c as [[] [] [] [] [] [] [] []]. Qed.

Lemma head_not_app p a b : a <> "" -> head_not p a -> head_not p (a +:+ b).
Proof. by destruct a. Qed.

(** The texts of the two forms, and what the groups are. *)
Lemma string_unit_groups sg d f sp u :
  sign_text sg -> sall is_digit d = true -> d <> "" -> one_space sp ->
  match f with Some f => sall is_digit f = true /\ f <> "" | None => True end ->
  u <> "" -> sall (fun c => negb (re_space c)) u = true -> head_not (fun c => is_digit c || Ascii.eqb c ".") u ->
  string_unit (number_text sg d f +:+ (sp +:+ u)) = Some (number_text sg d f, u, "").
Proof.
  intros Hsg Hd Hdne Hsp Hf Hu Hns Hh.
  assert (Hhead : head_not (fun c => is_digit c || Ascii.eqb c ".") (sp +:+ u)).
  { destruct Hsp as [->|(c & -> & Hc)]; [done|]. cbn. by destruct c as [[] [] [] [] [] [] [] []]. }
  assert (Hhd : head_not is_digit (sp +:+ u)).
  { destruct (sp +:+ u); [done|]. cbn in *. by apply orb_false_iff in Hhead as [? _]. }
  unfold string_unit, number_text. rewrite !sapp_assoc, sign_of_number by (done || by apply digit_no_sign). cbn iota beta.
  destruct f as [f|].
  - destruct Hf as [Hf Hfne]. rewrite sapp_cons, span_digits_all by done. cbn iota beta.
    rewrite span_digits_all by done. unfold digits_unit. rewrite unit_tail_unit by done.
    rewrite (proj2 (String.eqb_neq _ _) Hfne). done.
  - rewrite sapp_nil_l, span_digits_all by done. cbn iota beta. unfold digits_unit. rewrite unit_tail_unit by done.
    rewrite (proj2 (String.eqb_neq _ _) Hdne). cbn. rewrite sapp_nil_r.
    destruct (sp +:+ u) as [|[[] [] [] [] [] [] [] []] s]; try done.
Qed.

(** Without a unit the end of the number is taken for one. *)
Lemma string_unit_cut sg d f x :
  sign_text sg -> sall is_digit d = true -> d <> "" -> sall is_digit f = true -> is_digit x = true ->
  string_unit (number_text sg d (Some (f +:+ String x ""))) =
  Some (if String.eqb f "" then (sg +:+ d, String "." (String x ""), "") else (number_text sg d (Some f), String x "", "")).
Proof.
  intros Hsg Hd Hdne Hf Hx. unfold string_unit, number_text. rewrite sign_of_number by (done || by apply digit_no_sign). cbn iota beta.
  rewrite span_digits_all by done. cbn iota beta.
  replace (f +:+ String x "") with ((f +:+ String x "") +:+ "") by apply sapp_nil_r.
  rewrite span_digits_all by (done || rewrite sall_app; cbn; by rewrite Hf, Hx). rewrite digits_unit_last.
  destruct (String.eqb_spec f "") as [->|Hfne]; [|done].
  unfold digits_unit, unit_tail. cbn. change (re_space ".") with false. cbn. rewrite (digit_not_space x Hx). cbn. by rewrite (proj2 (String.eqb_neq _ _) Hdne).
Qed.

(** *** What event-data-convert does *)

(** Entries some elements of a list give, with distinct keys. *)
Lemma foldl_omap_insert {A B} (g : A -> option (string * B)) (l : list A) (m : gmap string B) :
  foldl (fun m x => match g x with Some kv => <[kv.1 := kv.2]> m | None => m end) m l
  = foldl (fun m kv => <[kv.1 := kv.2]> m) m (omap g l).
Proof. revert m. induction l as [|x l IH]; intros m; cbn; [done|]. rewrite IH. by destruct (g x). Qed.

Lemma omap_keys_NoDup {A B} (g : A -> option (string * B)) (l : list A) :
  NoDup l -> (forall x y a b, x ∈ l -> y ∈ l -> g x = Some a -> g y = Some b -> a.1 = b.1 -> x = y) -> NoDup (omap g l).*1.
Proof.
  induction l as [|x l IH]; cbn; [constructor|]. intros [Hx Hl]%NoDup_cons Hinj.
  assert (NoDup (omap g l).*1) by (apply IH; [done|]; intros; eapply Hinj; eauto; by right).
  destruct (g x) as [a|] eqn:E; [|done]. cbn. apply NoDup_cons. split; [|done].
  intros (b & Hab & (y & Hy & Hb)%list_elem_of_omap)%list_elem_of_fmap. apply Hx.
  rewrite (Hinj x y a b); [done|left|by right|done..].
Qed.

Section data_convert_lemmas.
Context `{FloatText} `{UnitsPkg} `{MapOrder}.
Implicit Types c : dataConvert.

(** The value an entry is converted to, if it is. *)
Definition data_out c (kv : string * any) : option spec_float :=
  if matchesAny kv.1 (dc_values c) then match convertData c kv.1 kv.2 with Ok f => Some f | _ => None end else None.
Definition data_entry c (kv : string * any) : option (string * any) := (fun f => (data_name c kv.1, AF64 f)) <$> data_out c kv.

Lemma data_fold c m l : foldl (data_value c) (m, ∅) l =
  (foldl (fun m kv => if bool_decide (is_Some (data_out c kv)) && data_drops c then delete kv.1 m else m) m l,
   foldl (fun m kv => <[kv.1 := kv.2]> m) ∅ (omap (data_entry c) l)).
Proof.
  rewrite <-foldl_omap_insert. apply foldl_pair. intros a b kv. unfold data_value, data_entry, data_out.
  destruct (matchesAny _ _); [|done]. destruct (convertData _ _ _); [|done..].
  rewrite bool_decide_eq_true_2 by eauto. done.
Qed.

Lemma data_kept (drop : string * any -> bool) (l : list (string * any)) (m : gmap string any) k :
  foldl (fun m kv => if drop kv then delete kv.1 m else m) m l !! k =
  if existsb (fun kv => drop kv && String.eqb kv.1 k) l then None else m !! k.
Proof.
  revert m. induction l as [|[i v] l IH]; intros m; cbn; [done|]. rewrite IH. destruct (existsb _ l); [by rewrite orb_true_r|].
  rewrite orb_false_r. destruct (drop (i, v)); cbn; [|done].
  destruct (String.eqb_spec i k) as [->|Hne]; [apply lookup_delete_eq|by rewrite lookup_delete_ne].
Qed.

(** The new names of the entries converted are distinct. *)
Definition names_apart c (m : gmap string any) : Prop :=
  forall k1 k2 v1 v2, m !! k1 = Some v1 -> m !! k2 = Some v2 -> is_Some (data_out c (k1, v1)) -> is_Some (data_out c (k2, v2)) ->
  data_name c k1 = data_name c k2 -> k1 = k2.

(** What event-data-convert leaves under each name: the value converted to
    it, if one was; else what was there, unless it was converted and renamed
    without being kept. So it is in every order of the map when the new names
    are distinct. *)
Theorem data_convert_spec c e m k w :
  ev_Values e = Some m -> names_apart c m ->
  gm_get (ev_Values (data_event c e)) k = Some w <->
  (exists i v f, m !! i = Some v /\ data_out c (i, v) = Some f /\ k = data_name c i /\ w = AF64 f)
  \/ (forall i v, m !! i = Some v -> is_Some (data_out c (i, v)) -> data_name c i <> k)
     /\ m !! k = Some w /\ (data_drops c = true -> data_out c (k, w) = None).
Proof.
  intros Hm Hap. unfold data_event. rewrite Hm, data_fold. cbn [ev_Values with_values gm_get mbind option_bind].
  set (new := foldl _ ∅ (omap _ _)). set (kept := foldl _ m (range m)).
  rewrite foldl_insert_list_to_map, range_list_to_map by apply NoDup_range_fst.
  assert (Hnd : NoDup (omap (data_entry c) (range m)).*1).
  { apply omap_keys_NoDup; [eapply NoDup_fmap_1, NoDup_range_fst|].
    intros [k1 v1] [k2 v2] a b Hi1%elem_of_range Hi2%elem_of_range Ha Hb Hab. unfold data_entry in *.
    apply fmap_Some in Ha as (f1 & Hf1 & ->). apply fmap_Some in Hb as (f2 & Hf2 & ->). cbn in Hab.
    assert (k1 = k2) as -> by (eapply Hap; eauto). congruence. }
  assert (Hnew : forall w, new !! k = Some w <-> exists i v f, m !! i = Some v /\ data_out c (i, v) = Some f /\ k = data_name c i /\ w = AF64 f).
  { intros w'. unfold new. rewrite foldl_insert_list_to_map, (right_id_L ∅ (∪)) by done. rewrite <-elem_of_list_to_map by done.
    rewrite list_elem_of_omap. split.
    - intros ([i v] & Hi%elem_of_range & Ho). unfold data_entry in Ho. apply fmap_Some in Ho as (f & Hf & [= -> ->]). by exists i, v, f.
    - intros (i & v & f & Hi & Hf & -> & ->). exists (i, v). split; [by apply elem_of_range|]. unfold data_entry. by rewrite Hf. }
  assert (Hkept : forall w, kept !! k = Some w <-> m !! k = Some w /\ (data_drops c = true -> data_out c (k, w) = None)).
  { intros w'. unfold kept. rewrite data_kept. destruct (existsb _ _) eqn:Ex.
    - apply existsb_exists in Ex as ([i v] & Hin & Hd). apply list_elem_of_In, elem_of_range in Hin.
      cbn [fst] in Hd. apply andb_true_iff in Hd as [[Hd Hdr]%andb_true_iff ->%String.eqb_eq]. apply bool_decide_eq_true in Hd as [f Hf].
      split; [done|]. intros [Hk Hn]. cbn in *. rewrite Hin in Hk. injection Hk as ->. rewrite (Hn Hdr) in Hf. done.
    - split; [|by intros [? _]]. intros Hk. split; [done|]. intros Hdr. destruct (data_out c (k, w')) as [f|] eqn:Hf; [|done].
      assert (existsb (fun kv => bool_decide (is_Some (data_out c kv)) && data_drops c && String.eqb kv.1 k) (range m) = true) as He.
      { apply existsb_exists. exists (k, w'). split; [by apply list_elem_of_In, elem_of_range|].
        rewrite Hf, Hdr. cbn. by rewrite String.eqb_refl. }
      by rewrite Ex in He. }
  rewrite lookup_union_Some_raw, Hnew, Hkept. split; (intros [Ho|[Ho1 Ho2]]; [by left|right]); split; try done.
  - intros i v Hi [f Hf] <-. assert (new !! data_name c i = Some (AF64 f)) as E by (apply Hnew; by exists i, v, f). by rewrite E in Ho1.
  - destruct (new !! k) as [a|] eqn:E; [|done]. destruct (proj1 (Hnew a) eq_refl) as (i & v & f & Hi & Hf & -> & _). destruct (Ho1 i v Hi ltac:(eauto) eq_refl).
Qed.

(** The numbers event-data-convert reads from text that is not an integer.
    Followed by a unit, with at most one blank between, a number is converted
    from that unit. A fraction without a unit is not: its end is taken for the
    unit, which no unit has, so what is left of the number is a number of
    bytes, whatever unit is configured. *)
Theorem data_text c k sg d f x sp u :
  sign_text sg -> sall is_digit d = true -> d <> "" -> sall is_digit f = true -> is_digit x = true -> one_space sp ->
  u <> "" -> sall (fun a => negb (re_space a)) u = true -> head_not (fun a => is_digit a || Ascii.eqb a ".") u ->
  let n := number_text sg d (Some (f +:+ String x "")) in
  let cut := if String.eqb f "" then sg +:+ d else number_text sg d (Some f) in
  atoi (n +:+ (sp +:+ u)) = None -> atoi n = None ->
  convertData c k (AStr (n +:+ (sp +:+ u))) =
    (match ParseFloat n with Some v => convertNumber c k (AF64 v) (Some (sToU u)) | None => Err errParseFloat end)
  /\ convertData c k (AStr n) =
    (match ParseFloat cut with Some v => convertNumber c k (AF64 v) (Some Byte) | None => Err errParseFloat end).
Proof.
  intros Hsg Hd Hdne Hf Hx Hsp Hu Hns Hh n cut Ha1 Ha2.
  assert (Hfx : sall is_digit (f +:+ String x "") = true /\ f +:+ String x "" <> "").
  { rewrite sall_app, Hf. cbn. rewrite Hx. split; [done|by destruct f]. }
  unfold convertData. rewrite Ha1, Ha2. unfold parseStringUnit. split.
  - unfold n. rewrite string_unit_groups by done. by destruct (ParseFloat _).
  - unfold n. rewrite string_unit_cut by done.
    assert (Hb : sToU (String x "") = Byte /\ sToU (String "." (String x "")) = Byte).
    { clear -Hx. destruct x as [[] [] [] [] [] [] [] []]; try discriminate Hx; by vm_compute. }
    destruct Hb as [Hb1 Hb2]. unfold cut. destruct (String.eqb f ""); cbn iota beta; [rewrite Hb2|rewrite Hb1]; by destruct (ParseFloat _).
Qed.
End data_convert_lemmas.

(** *** A concrete cluster of units *)

(** Decimal units and whole numbers, for the witnesses. *)
Definition unit_scale (u : Unit) : Z :=
  match u with Byte => 1 | KiloByte => 1000 | MegaByte => 1000000 | _ => 1 end.
Definition decimal_units : UnitsPkg :=
  {| ConvertFloat f from to := Some (f64_div (f64_mul f (f64_of_Z (unit_scale from))) (f64_of_Z (unit_scale to))) |}.
Definition tenths_text : FloatText :=
  {| ParseFloat s := let '(d, r) := span_digits s in
       match r with
       | String "." f => n ← atoi (d +:+ f); if (String.length f =? 1)%nat then Some (f64_div (f64_of_Z n) (f64_of_Z 10)) else None
       | _ => f64_of_Z <$> atoi d
       end;
     FormatFloat _ := "" |}.
Definition to_bytes : dataConvert := mkDataConvert "KB" "B" false "" [lit_re "size"] None.

(** "2.5KB" is 2500 bytes; "2.5" is 2 bytes, although the unit configured for
    values without one is the kilobyte, as "2" shows. *)
Lemma data_text_witness :
  convertData (H := tenths_text) (H0 := decimal_units) to_bytes "size" (AStr "2.5KB") = Ok (f64_of_Z 2500) /\
  convertData (H := tenths_text) (H0 := decimal_units) to_bytes "size" (AStr "2.5") = Ok (f64_of_Z 2) /\
  convertData (H := tenths_text) (H0 := decimal_units) to_bytes "size" (AStr "2") = Ok (f64_of_Z 2000).
Proof.
  destruct (data_text (H := tenths_text) (H0 := decimal_units) to_bytes "size" "" "2" "" "5" "" "KB"
    (or_introl eq_refl) eq_refl ltac:(discriminate) eq_refl eq_refl (or_introl eq_refl) ltac:(discriminate) eq_refl eq_refl
    eq_refl eq_refl) as [E1 E2].
  split; [exact E1|]. split; [exact E2|]. vm_compute. reflexivity.
Defined.

Definition size_event : EventMsg :=
  {| ev_Name := "s"; ev_Timestamp := 0; ev_Tags := Some ∅; ev_Deletes := None;
     ev_Values := Some (<["size" := AStr "3KB"]> (<["other" := AStr "3KB"]> ∅)) |}.
Lemma data_convert_spec_witness :
  names_apart (H := tenths_text) (H0 := decimal_units) to_bytes (gm_tab (ev_Values size_event)) /\
  gm_get (ev_Values (data_event (H := tenths_text) (H0 := decimal_units) (H1 := order_fwd) to_bytes size_event)) "size"
    = Some (AF64 (f64_of_Z 3000)).
Proof.
  assert (Hap : names_apart (H := tenths_text) (H0 := decimal_units) to_bytes (gm_tab (ev_Values size_event))) by (intros k1 k2 v1 v2 _ _ _ _ Hk; exact Hk).
  split; [exact Hap|].
  apply (proj2 (data_convert_spec (H := tenths_text) (H0 := decimal_units) (H1 := order_fwd) to_bytes size_event
    (gm_tab (ev_Values size_event)) "size" (AF64 (f64_of_Z 3000)) eq_refl Hap)).
  left. exists "size", (AStr "3KB"), (f64_of_Z 3000). split; [reflexivity|]. split; [vm_compute; reflexivity|]. split; reflexivity.
Defined.

Lemma dataConvert_safe `{FloatText} `{UnitsPkg} `{MapOrder} : SafeProcessor dataConvert_proc always.
Proof.
  apply stateless_safe. intros c es Hes. cbn. eexists. split; [done|]. apply replace_values_ok; [|done].
  intros e. unfold data_event. destruct (ev_Values e); [|done]. by case_match.
Qed.

(** ** event-date-string *)

(** [time.Time]: seconds since year one as an [int64], nanoseconds, and whether
    it is in UTC, as the zero time is, or in the local zone. *)
Record Time := mkTime { t_ext : Z; t_nsec : Z; t_local : bool }.
Definition zero_time : Time := mkTime 0 0 false.
Definition unixToInternal : Z := (1969 * 365 + 1969 / 4 - 1969 / 100 + 1969 / 400) * 86400.
(** [time.Unix(sec, nsec)] *)
Definition time_Unix (sec nsec : Z) : Time := mkTime (int64 (sec + nsec / 1000000000 + unixToInternal)) (nsec mod 1000000000) true.

(** The zones of the system, and the text of a time in the zone ([None]: its
    own) and layout given. *)
Class TimeFormat : Type := {
  LoadLocation : string -> option string;
  time_Format : Time -> option string -> string -> string
}.
Definition RFC3339 : string := "2006-01-02T15:04:05Z07:00".

Record dateConfig := mkDateConfig { dsc_Tags : list string; dsc_Values : list string; dsc_Precision : string; dsc_Format : string; dsc_Location : string }.
Record dateString := mkDateString {
  ds_Precision : string; ds_Format : string; ds_tags : list Regexp; ds_values : list Regexp; ds_location : string }.

Definition dateString_Init `{RegexpPkg} `{Decode dateConfig} `{TimeFormat} (cfg : any) : go init_error dateString :=
  c ← decode cfg;
  values ← compileRegex (dsc_Values c);
  tags ← compileRegex (dsc_Tags c);
  loc ← (if String.eqb (dsc_Location c) "" then Ok "Local"
         else match LoadLocation (dsc_Location c) with Some l => Ok l | None => Err (errConfig "unknown time zone") end);
  Ok (mkDateString (dsc_Precision c) (dsc_Format c) tags values loc).

Section date_string.
Context `{FloatConv} `{TimeFormat} `{MapOrder}.

Definition date_int (i : any) : go conv_error Z :=
  match i with
  | AStr s => match atoi s with Some iv => Ok iv | None => Err errAtoi end
  | AInt KInt z => Ok z
  | AInt KUint z => Ok (wrap KInt z)
  | AF64 f => Ok (int_of_float KInt f)
  | _ => Err errType
  end.
(** What [strconv.Atoi] returns next to an error: zero, or the bound the number
    is beyond. *)
Definition atoi_value (s : string) : Z :=
  match atoi s with
  | Some z => z
  | None =>
      let '(neg, body) := match s with String "+" t => (false, t) | String "-" t => (true, t) | _ => (false, s) end in
      if String.eqb body "" || negb (sall is_digit body) then 0 else if neg : bool then kind_min KInt else kind_max KInt
  end.

Definition one_of (s : string) (l : list string) : bool := existsb (String.eqb s) l.
Definition time_of (d : dateString) (iv : Z) : Time :=
  let p := ds_Precision d in
  if one_of p ["s"; "sec"; "second"] then time_Unix iv 0
  else if one_of p ["ms"; "millisecond"] then time_Unix 0 (int64 (iv * 1000000))
  else if one_of p ["us"; "microsecond"] then time_Unix 0 (int64 (iv * 1000))
  else if one_of p ["ns"; "nanosecond"] then time_Unix 0 iv
  else zero_time.
(** The code stores the default format when it first needs it. *)
Definition layout (d : dateString) : string := if String.eqb (ds_Format d) "" then RFC3339 else ds_Format d.

Definition date_value (d : dateString) (v : any) : go conv_error any :=
  iv ← date_int v; Ok (AStr (time_Format (time_of d iv) (Some (ds_location d)) (layout d))).
(** The dates of tags go to the values, and in the zone of the time itself. *)
Definition date_tag (d : dateString) (values : gomap any) (kv : string * string) : go event_error (gomap any) :=
  if matchesAny kv.1 (ds_tags d) then
    gm_set kv.1 (AStr (time_Format (time_of d (atoi_value kv.2)) None (layout d))) values
  else Ok values.
Definition date_event (d : dateString) (e : event) : go event_error event :=
  match e with
  | None => Ok None
  | Some e =>
      let e := replace_values (ds_values d) (date_value d) e in
      values ← foldM (date_tag d) (range (gm_tab (ev_Tags e))) (ev_Values e);
      Ok (Some (with_values values e))
  end.
Definition dateString_Apply (d : dateString) (es : events) : go event_error events := mapE (date_event d) es.

(** *** What event-date-string does *)

Definition tag_date (d : dateString) (v : string) : any := AStr (time_Format (time_of d (atoi_value v)) None (layout d)).

Lemma date_tags_fold d l values :
  foldM (date_tag d) l values =
  match values with
  | Some m => Ok (Some (foldl (fun m kv => if matchesAny kv.1 (ds_tags d) then <[kv.1 := tag_date d kv.2]> m else m) m l))
  | None => if existsb (fun kv => matchesAny kv.1 (ds_tags d)) l then Panic else Ok None
  end.
Proof.
  revert values. induction l as [|kv l IH]; intros values; cbn; [by destruct values|].
  change (date_tag d values kv) with (if matchesAny kv.1 (ds_tags d) then gm_set (E := event_error) kv.1 (tag_date d kv.2) values else Ok values).
  destruct (matchesAny kv.1 (ds_tags d)).
  - destruct values; cbn; [|done]. by rewrite IH.
  - cbn. rewrite IH. by destruct values.
Qed.

(** What event-date-string does to an event. It panics exactly when the
    event has a tag that matches and no table of values, where the dates of
    tags go. Else a tag that matches gives a value of its name, over whatever
    value there was, and the tags stay; the values that match are dates when
    they are numbers. It is the same in every order of the maps. *)
Theorem date_string_spec d e :
  (date_event d (Some e) = Panic <->
     ev_Values e = None /\ exists k v, gm_get (ev_Tags e) k = Some v /\ matchesAny k (ds_tags d) = true) /\
  forall e', date_event d (Some e) = Ok (Some e') ->
    ev_Tags e' = ev_Tags e /\
    forall k, gm_get (ev_Values e') k =
      match gm_get (ev_Tags e) k with
      | Some v => if matchesAny k (ds_tags d) then Some (tag_date d v) else converted (ds_values d) (date_value d) k <$> gm_get (ev_Values e) k
      | None => converted (ds_values d) (date_value d) k <$> gm_get (ev_Values e) k
      end.
Proof.
  unfold date_event. rewrite date_tags_fold. set (e0 := replace_values _ _ e).
  assert (Ht : ev_Tags e0 = ev_Tags e) by done.
  assert (Hv : forall k, gm_get (ev_Values e0) k = converted (ds_values d) (date_value d) k <$> gm_get (ev_Values e) k)
    by (intros k; apply replace_values_spec).
  rewrite Ht. assert (Hn : ev_Values e0 = None <-> ev_Values e = None) by (unfold e0; cbn; by destruct (ev_Values e)).
  destruct (ev_Values e0) as [m|] eqn:Em.
  - cbn. split; [split; [done|intros [Hnil _]; by apply Hn in Hnil]|]. intros e' [= <-]. split; [done|]. intros k.
    cbn. rewrite (foldl_set_where (fun k _ => matchesAny k (ds_tags d)) (tag_date d)).
    specialize (Hv k). cbn in Hv. rewrite gm_get_tab. by rewrite Hv.
  - destruct (existsb _ _) eqn:Ex; cbn.
    + split; [|done]. split; [|done]. intros _. split; [by apply Hn|].
      apply existsb_exists in Ex as ([k v] & Hin%list_elem_of_In%elem_of_range & Hm). exists k, v. by rewrite gm_get_tab.
    + assert (Hno : forall k v, gm_get (ev_Tags e) k = Some v -> matchesAny k (ds_tags d) = false).
      { intros k v Hk. destruct (matchesAny k (ds_tags d)) eqn:Hm; [|done].
        assert (existsb (fun kv : string * string => matchesAny kv.1 (ds_tags d)) (range (gm_tab (ev_Tags e))) = true) as He.
        { apply existsb_exists. exists (k, v). split; [|done]. apply list_elem_of_In, elem_of_range. by rewrite <-gm_get_tab. }
        by rewrite Ex in He. }
      split; [split; [done|]|].
      * intros (_ & k & v & Hk & Hm). by rewrite (Hno k v Hk) in Hm.
      * intros e' [= <-]. split; [done|]. intros k. specialize (Hv k). cbn in *. rewrite <-Hv.
        destruct (gm_get (ev_Tags e) k) as [v|] eqn:Hk; [|done]. by rewrite (Hno k v Hk).
Qed.
End date_string.

Definition dateString_proc `{FloatConv} `{TimeFormat} `{MapOrder} : EventProcessor dateString :=
  {| Apply d es := es ← dateString_Apply d es; Ok (d, es) |}.

(** Without expressions for tags it never fails. *)
Lemma mapE_events_ok (f : event -> go event_error event) es :
  (forall e, ok_event e -> exists e', f e = Ok e' /\ ok_event e') -> Forall ok_event es ->
  exists es', mapE f es = Ok es' /\ Forall ok_event es'.
Proof.
  intros Hf Hes. induction Hes as [|e es He Hes (es' & IH & Hes')]; [by exists []|].
  destruct (Hf e He) as (e' & He1 & He2). exists (e' :: es'). split; [|by constructor]. cbn. rewrite He1. cbn. by rewrite IH.
Qed.

Lemma dateString_safe `{FloatConv} `{TimeFormat} `{MapOrder} : SafeProcessor dateString_proc (fun d => ds_tags d = []).
Proof.
  split. intros d es Ht Hes. destruct (mapE_events_ok (date_event d) es) as (es' & He & Hes'); [|done|].
  - intros [e|] Hok; [|done]. cbn [date_event]. rewrite date_tags_fold.
    assert (Hn : forall l : list (string * string), existsb (fun kv => matchesAny kv.1 (ds_tags d)) l = false)
      by (intros l; rewrite Ht; induction l as [|x l IHl]; [done|exact IHl]).
    rewrite Hn. destruct (ev_Values _); cbn; by eexists.
  - cbn. unfold dateString_Apply. rewrite He. cbn. by do 2 eexists.
Qed.

(** Without a precision, or with one it does not know, every date is that of
    the zero time. *)
Lemma date_precision d iv : Forall (fun p => ds_Precision d <> p) ["s"; "sec"; "second"; "ms"; "millisecond"; "us"; "microsecond"; "ns"; "nanosecond"] ->
  time_of d iv = zero_time.
Proof.
  intros Hp. unfold time_of, one_of.
  repeat (apply Forall_cons in Hp as [?%String.eqb_neq Hp]). cbn [existsb]. by repeat match goal with E : String.eqb _ _ = false |- _ => rewrite E; clear E end.
Qed.

(** ** event-strings *)

Definition TrimPrefix (prefix s : string) : string := if has_prefix prefix s then sdrop (String.length prefix) s else s.
Definition trim_suffix (suffix s : string) : string :=
  if has_suffix suffix s then stake (String.length s - String.length suffix) s else s.
(** [strings.Split]: the text has at most one piece more than bytes. *)
Definition Split (s sep : string) : list string := SplitN s sep (String.length s).

(** [cases.Title(language.English)], a library. *)
Class TitleCase : Type := { english_Title : string -> string }.

Record transformConfig := mkTransformConfig {
  t_ApplyOn : string; t_Keep : bool; t_Old : string; t_New : string; t_Prefix : string; t_Suffix : string;
  t_SplitOn : string; t_JoinWith : string; t_IgnoreFirst : Z; t_IgnoreLast : Z }.
Record transform := mkTransform { t_op : string; t_conf : transformConfig; t_replaceRegexp : option Regexp }.

Record stringsConfig := mkStringsConfig {
  sc_Tags : list string; sc_Values : list string; sc_TagNames : list string; sc_ValueNames : list string;
  sc_Transforms : list (gomap (option transformConfig)) }.
Record stringsp := mkStringsp {
  s_Transforms : list (gmap string transform);
  s_tags : list Regexp; s_values : list Regexp; s_tagKeys : list Regexp; s_valueKeys : list Regexp }.

Section strings_init.
Context `{RegexpPkg} `{Decode stringsConfig} `{MapOrder}.
(** One entry of a map of transforms; its pointer may be nil. *)
Definition init_transform (m : gmap string transform) (kv : string * option transformConfig) : go init_error (gmap string transform) :=
  match kv.2 with
  | None => Panic
  | Some t =>
      re ← (if String.eqb kv.1 "replace" then Some <$> compile1 (t_Old t) else Ok None);
      Ok (<[kv.1 := mkTransform kv.1 t re]> m)
  end.
Definition strings_Init (cfg : any) : go init_error stringsp :=
  c ← decode cfg;
  ts ← mapE (fun trans => foldM init_transform (range (gm_tab trans)) ∅) (sc_Transforms c);
  tags ← compileRegex (sc_Tags c);
  tagKeys ← compileRegex (sc_TagNames c);
  values ← compileRegex (sc_Values c);
  valueKeys ← compileRegex (sc_ValueNames c);
  Ok (mkStringsp ts tags values tagKeys valueKeys).
End strings_init.

Section strings.
Context `{UnicodeCase} `{TitleCase} `{MapOrder}.

(** The function applied to the name, or to the value when it is text. *)
Definition on_field (t : transformConfig) (f : string -> go event_error string) (k : string) (v : any) : go event_error (string * any) :=
  if String.eqb (t_ApplyOn t) "name" then k' ← f k; Ok (k', v)
  else if String.eqb (t_ApplyOn t) "value" then
    match v with AStr vs => w ← f vs; Ok (k, AStr w) | _ => Ok (k, v) end
  else Ok (k, v).

(** The bounds of [items[first : n-last]] are checked against the length and
    capacity, which are the same. *)
Definition split_text (t : transformConfig) (s : string) : go event_error string :=
  let items := Split s (t_SplitOn t) in
  let n := Z.of_nat (length items) in
  let first := t_IgnoreFirst t in let last := n - t_IgnoreLast t in
  if (n <=? first) || (n <=? t_IgnoreLast t) || (last <=? first) then Ok ""
  else if (first <? 0) || (n <? last) then Panic
  else Ok (sjoin (t_JoinWith t) (firstn (Z.to_nat (last - first)) (skipn (Z.to_nat first) items))).

Definition transform_apply (t : transform) (k : string) (v : any) : go event_error (string * any) :=
  let c := t_conf t in
  if String.eqb (t_op t) "replace" then
    on_field c (fun s => match t_replaceRegexp t with Some re => Ok (ReplaceAllString re s (t_New c)) | None => Panic end) k v
  else if String.eqb (t_op t) "trim-prefix" then on_field c (fun s => Ok (TrimPrefix (t_Prefix c) s)) k v
  else if String.eqb (t_op t) "trim-suffix" then on_field c (fun s => Ok (trim_suffix (t_Suffix c) s)) k v
  else if String.eqb (t_op t) "title" then on_field c (fun s => Ok (english_Title s)) k v
  else if String.eqb (t_op t) "to-lower" then on_field c (fun s => Ok (ToLower s)) k v
  else if String.eqb (t_op t) "to-upper" then on_field c (fun s => Ok (ToUpper s)) k v
  else if String.eqb (t_op t) "split" then on_field c (split_text c) k v
  else if String.eqb (t_op t) "path-base" then on_field c (fun s => Ok (path_Base s)) k v
  else Ok (k, v).

(** *** The table that is ranged over

    Its entries, and the names whose entry was removed or is a new one since
    the body started: what [range] makes of them is up to the runtime. *)
Record table (V : Type) := mkTable { tb_map : gmap string V; tb_dirty : gset string }.
#[global] Arguments mkTable {V}. #[global] Arguments tb_map {V}. #[global] Arguments tb_dirty {V}.
Definition tb_delete {V} (k : string) (t : table V) : table V :=
  mkTable (delete k (tb_map t)) (match tb_map t !! k with Some _ => {[k]} ∪ tb_dirty t | None => tb_dirty t end).
Definition tb_set {V} (k : string) (v : V) (t : table V) : table V :=
  mkTable (<[k := v]> (tb_map t)) (match tb_map t !! k with Some _ => tb_dirty t | None => {[k]} ∪ tb_dirty t end).

Definition transforms_of (s : stringsp) : list transform := mjoin ((fun m => (range m).*2) <$> s_Transforms s).

Definition value_step (st : table any * (string * any)) (t : transform) : go event_error (table any * (string * any)) :=
  let '(tb, (k, v)) := st in
  let tb := if t_Keep (t_conf t) then tb else tb_delete k tb in
  '(k, v) ← transform_apply t k v;
  Ok (tb_set k v tb, (k, v)).
Definition applyValueTransformations (s : stringsp) (kv : string * any) (tb : table any) : go event_error (table any) :=
  '(tb, _) ← foldM value_step (transforms_of s) (tb, kv); Ok tb.

Definition tag_step (st : table string * (string * string)) (t : transform) : go event_error (table string * (string * string)) :=
  let '(tb, (k, v)) := st in
  let tb := if t_Keep (t_conf t) then tb else tb_delete k tb in
  '(k, vi) ← transform_apply t k (AStr v);
  match as_string vi with
  | Some vs => Ok (tb_set k vs tb, (k, vs))
  | None => Ok (tb, (k, v))
  end.
Definition applyTagTransformations (s : stringsp) (kv : string * string) (tb : table string) : go event_error (table string) :=
  '(tb, _) ← foldM tag_step (transforms_of s) (tb, kv); Ok tb.

(** The bodies of the loops: the transforms once for each expression that
    matches, from the name and value the loop gave. *)
Definition value_hits (s : stringsp) (kv : string * any) : nat :=
  (length (List.filter (fun re => MatchString re kv.1) (s_valueKeys s))
   + match kv.2 with AStr vs => length (List.filter (fun re => MatchString re vs) (s_values s)) | _ => 0 end)%nat.
Definition tag_hits (s : stringsp) (kv : string * string) : nat :=
  (length (List.filter (fun re => MatchString re kv.1) (s_tagKeys s)) + length (List.filter (fun re => MatchString re kv.2) (s_tags s)))%nat.
Fixpoint times {A} (n : nat) (f : A -> go event_error A) (a : A) : go event_error A :=
  match n with O => Ok a | S n => a ← f a; times n f a end.
Definition strings_value (s : stringsp) (m : gmap string any) (kv : string * any) : go event_error (table any) :=
  times (value_hits s kv) (applyValueTransformations s kv) (mkTable m ∅).
Definition strings_tag (s : stringsp) (m : gmap string string) (kv : string * string) : go event_error (table string) :=
  times (tag_hits s kv) (applyTagTransformations s kv) (mkTable m ∅).

(** Every run of the loop. An entry of the start that stayed in place is
    visited once; one that is new, or was removed and is back, is or is not. *)
Inductive churn {V} (body : gmap string V -> string * V -> go event_error (table V))
    : gset string -> gset string -> gmap string V -> gmap string V -> Prop :=
| churn_stop maybe m : churn body ∅ maybe m m
| churn_visit todo maybe m k v tb m' :
    k ∈ todo ∪ maybe -> m !! k = Some v -> body m (k, v) = Ok tb ->
    churn body (todo ∖ ({[k]} ∪ tb_dirty tb)) ((maybe ∖ {[k]}) ∪ tb_dirty tb) (tb_map tb) m' ->
    churn body todo maybe m m'.
Definition churn_run {V} (body : gmap string V -> string * V -> go event_error (table V)) (m m' : gmap string V) : Prop :=
  churn body (dom m) ∅ m m'.

(** One run: every entry of the start that is still there when its turn comes. *)
Definition churn_for {V} (body : gmap string V -> string * V -> go event_error (table V)) (m : gmap string V) : go event_error (gmap string V) :=
  foldM (fun m k => match m !! k with Some v => tb_map <$> body m (k, v) | None => Ok m end) (range m).*1 m.

Definition strings_event (s : stringsp) (e : event) : go event_error event :=
  match e with
  | None => Ok None
  | Some e =>
      values ← (match ev_Values e with None => Ok None | Some m => Some <$> churn_for (strings_value s) m end);
      tags ← (match ev_Tags e with None => Ok None | Some m => Some <$> churn_for (strings_tag s) m end);
      Ok (Some (with_tags tags (with_values values e)))
  end.
Definition strings_Apply (s : stringsp) (es : events) : go event_error events := mapE (strings_event s) es.
End strings.

Definition strings_proc `{UnicodeCase} `{TitleCase} `{MapOrder} : EventProcessor stringsp :=
  {| Apply s es := es ← strings_Apply s es; Ok (s, es) |}.

(** *** The runs of a loop *)

(** What the marks say: an unmarked name is in the table exactly when it was. *)
Definition honest {V} (m : gmap string V) (t : table V) : Prop :=
  forall k, k ∉ tb_dirty t -> is_Some (tb_map t !! k) <-> is_Some (m !! k).

Lemma honest_delete {V} (m : gmap string V) t k : honest m t -> honest m (tb_delete k t).
Proof.
  intros Ht i Hi. unfold tb_delete in *. cbn in *. destruct (decide (k = i)) as [->|Hne].
  - destruct (tb_map t !! i) eqn:E; [set_solver|]. rewrite lookup_delete_eq, <-(Ht i Hi), E. done.
  - rewrite lookup_delete_ne by done. apply Ht. destruct (tb_map t !! k); set_solver.
Qed.
Lemma honest_set {V} (m : gmap string V) t k v : honest m t -> honest m (tb_set k v t).
Proof.
  intros Ht i Hi. unfold tb_set in *. cbn in *. destruct (decide (k = i)) as [->|Hne].
  - destruct (tb_map t !! i) eqn:E; [|set_solver]. rewrite lookup_insert_eq, <-(Ht i Hi), E. split; eauto.
  - rewrite lookup_insert_ne by done. apply Ht. destruct (tb_map t !! k); set_solver.
Qed.

Lemma foldM_keeps {E A B} (P : A -> Prop) (f : A -> B -> go E A) l a b :
  (forall a x b, P a -> f a x = Ok b -> P b) -> P a -> foldM f l a = Ok b -> P b.
Proof.
  intros Hf. revert a. induction l as [|x l IH]; intros a Ha; cbn; [by intros [= <-]|].
  intros (a1 & Ha1 & Hr)%bind_ok. eauto.
Qed.

Lemma times_keeps {A} (P : A -> Prop) n (f : A -> go event_error A) a b :
  (forall a b, P a -> f a = Ok b -> P b) -> P a -> times n f a = Ok b -> P b.
Proof.
  intros Hf. revert a. induction n as [|n IH]; intros a Ha; cbn; [by intros [= <-]|].
  intros (a1 & Ha1 & Hr)%bind_ok. eauto.
Qed.

Section runs.
Context `{MapOrder} {V : Type} (body : gmap string V -> string * V -> go event_error (table V)).
Hypothesis body_honest : forall m kv tb, body m kv = Ok tb -> honest m tb.

(** The run the code is given above is one of them. *)
Lemma churn_for_run m m' : churn_for body m = Ok m' -> churn_run body m m'.
Proof.
  unfold churn_for, churn_run. pose proof (NoDup_range_fst m) as Hnd.
  assert (Hks : forall k, k ∈ dom m <-> k ∈ (range m).*1).
  { intros k. rewrite elem_of_dom, list_elem_of_fmap. split.
    - intros [v Hv]. exists (k, v). by rewrite elem_of_range.
    - intros ([k' v] & -> & Hv%elem_of_range). eauto. }
  assert (Hin : forall k, k ∈ dom m -> is_Some (m !! k)) by (intros k; apply elem_of_dom).
  assert (Hsub : forall k, k ∈ (range m).*1 -> k ∈ dom m ∪ ∅ \/ m !! k = None) by (intros k Hk; left; apply Hks in Hk; set_solver).
  assert (Hsup : forall k, k ∈ dom m -> k ∈ (range m).*1) by (intros k; apply Hks).
  clear Hks. revert Hnd Hin Hsub Hsup. generalize (dom m) as todo, (∅ : gset string) as maybe, (range m).*1 as ks.
  intros todo maybe ks. revert m todo maybe. induction ks as [|k ks IH]; intros m todo maybe Hnd Hin Hsub Hsup; cbn.
  - intros [= <-]. assert (todo = ∅) as ->; [|constructor]. apply set_eq. intros k. split; [|set_solver].
    intros Hk%Hsup. by apply not_elem_of_nil in Hk.
  - apply NoDup_cons in Hnd as [Hk Hnd]. destruct (m !! k) as [v|] eqn:Hv; cbn.
    + destruct (body m (k, v)) as [tb| |] eqn:Hb; cbn; [intros Hr|done..].
      destruct (Hsub k ltac:(by left)) as [Hkin|]; [|congruence].
      refine (churn_visit _ _ _ _ _ _ _ _ Hkin Hv Hb _). apply IH; [done|..|done].
      * intros i Hi. apply (body_honest m (k, v) tb Hb i); [set_solver|]. apply Hin. set_solver.
      * intros i Hi. assert (i <> k) by (intros ->; done). destruct (decide (i ∈ tb_dirty tb)) as [|Hd]; [left; set_solver|].
        destruct (Hsub i ltac:(by right)) as [|Hnone]; [left; set_solver|]. right.
        destruct (tb_map tb !! i) eqn:E; [|done]. assert (is_Some (m !! i)) as [? ?] by (apply (body_honest _ _ _ Hb i Hd); eauto). congruence.
      * intros i Hi. pose proof (Hsup i ltac:(set_solver)) as Hc. apply elem_of_cons in Hc as [->|]; set_solver.
    + intros Hr. apply IH; [done|done| | |done].
      * intros i Hi. apply Hsub. by right.
      * intros i Hi. pose proof (Hsup i Hi) as Hc. apply elem_of_cons in Hc as [->|]; [|done]. destruct (Hin k Hi). congruence.
Qed.
End runs.

(** *** What event-strings does to values *)

Section strings_lemmas.
Context `{UnicodeCase} `{TitleCase} `{MapOrder}.
Implicit Types s : stringsp.

Lemma strings_value_honest s m kv tb : strings_value s m kv = Ok tb -> honest m tb.
Proof.
  apply times_keeps; [|done]. intros t t' Ht ([t1 kv1] & Hf & [= <-])%bind_ok.
  revert Hf. apply (foldM_keeps (fun st : table any * (string * any) => honest m st.1)); [|done].
  intros [a [k v]] x b Ha. cbn in *. intros ([k' v'] & _ & [= <-])%bind_ok. cbn. apply honest_set.
  destruct (t_Keep _); [done|by apply honest_delete].
Qed.

Lemma strings_tag_honest s m kv tb : strings_tag s m kv = Ok tb -> honest m tb.
Proof.
  apply times_keeps; [|done]. intros t t' Ht ([t1 kv1] & Hf & [= <-])%bind_ok.
  revert Hf. apply (foldM_keeps (fun st : table string * (string * string) => honest m st.1)); [|done].
  intros [a [k v]] x b Ha. cbn in *.
  assert (Hd : honest m (if t_Keep (t_conf x) then a else tb_delete k a)) by (destruct (t_Keep _); [done|by apply honest_delete]).
  intros ([k' v'] & _ & Hr)%bind_ok. destruct (as_string v'); injection Hr as <-; cbn; [by apply honest_set|done].
Qed.

(** Transforms that leave names alone. *)
Definition values_only s : Prop := Forall (fun t => t_ApplyOn (t_conf t) <> "name") (transforms_of s).
Definition all_kept s : Prop := Forall (fun t => t_Keep (t_conf t) = true) (transforms_of s).
Definition value_of (t : transform) (v : any) : any := match transform_apply t "" v with Ok (_, w) => w | _ => v end.
(** The transforms, one after the other. *)
Definition transformed s (v : any) : any := foldl (fun v t => value_of t v) v (transforms_of s).

Lemma transform_apply_value t k v :
  t_ApplyOn (t_conf t) <> "name" -> transform_apply t k v = ('(_, w) ← transform_apply t "" v; Ok (k, w)).
Proof.
  intros Ha%String.eqb_neq. unfold transform_apply, on_field. rewrite Ha.
  repeat case_match; try done. by destruct (split_text _ _).
Qed.

Lemma value_steps ts tb k v tb' k' v' :
  Forall (fun t => t_ApplyOn (t_conf t) <> "name") ts -> foldM value_step ts (tb, (k, v)) = Ok (tb', (k', v')) ->
  k' = k /\ v' = foldl (fun v t => value_of t v) v ts
  /\ tb_map tb' = (if nilb ts then tb_map tb else <[k := v']> (tb_map tb))
  /\ tb_dirty tb' ⊆ {[k]} ∪ tb_dirty tb
  /\ (Forall (fun t => t_Keep (t_conf t) = true) ts -> is_Some (tb_map tb !! k) -> tb_dirty tb' = tb_dirty tb).
Proof.
  intros Ha. revert tb v. induction ts as [|t ts IH]; intros tb v; cbn [foldM foldl nilb].
  { intros [= <- <- <-]. split_and!; [done..|set_solver|done]. }
  apply Forall_cons in Ha as [Ht Ha]. specialize (IH Ha). intros ([tb1 [k1 v1]] & Hs & Hr)%bind_ok. cbn in Hs.
  rewrite transform_apply_value in Hs by done. apply bind_ok in Hs as ([k2 v2] & Hs & [= <- <- <-]).
  apply bind_ok in Hs as ([k3 v3] & Hv & [= <- <-]).
  assert (value_of t v = v3) as -> by (unfold value_of; by rewrite Hv).
  destruct (IH _ _ Hr) as (-> & -> & Hm & Hd & Hk). set (w := foldl _ v3 ts) in *.
  assert (Hm1 : tb_map tb' = <[k := w]> (tb_map tb)).
  { rewrite Hm. cbn. destruct ts as [|t2 ts]; cbn [nilb].
    - subst w. cbn [foldl]. destruct (t_Keep (t_conf t)); [done|]. cbn. by rewrite insert_delete_eq.
    - rewrite insert_insert_eq. destruct (t_Keep (t_conf t)); [done|]. cbn. by rewrite insert_delete_eq. }
  split_and!; [done|done|exact Hm1| |].
  - etrans; [exact Hd|]. cbn. destruct (t_Keep (t_conf t)); cbn; repeat case_match; set_solver.
  - intros [Hkt Hks]%Forall_cons Hin. rewrite Hk; [|done|cbn; rewrite lookup_insert_eq; eauto].
    cbn. rewrite Hkt. destruct Hin as [x Hx]. by rewrite Hx.
Qed.

Lemma strings_value_map s m k v tb :
  values_only s -> m !! k = Some v -> strings_value s m (k, v) = Ok tb ->
  tb_map tb = (if (value_hits s (k, v) =? 0)%nat then m else <[k := transformed s v]> m)
  /\ tb_dirty tb ⊆ {[k]} /\ (all_kept s -> tb_dirty tb = ∅).
Proof.
  intros Ha Hk. unfold strings_value. generalize (value_hits s (k, v)) as n. intros n.
  assert (Hstep : forall t t', applyValueTransformations s (k, v) t = Ok t' ->
    tb_map t' = (if nilb (transforms_of s) then tb_map t else <[k := transformed s v]> (tb_map t))
    /\ tb_dirty t' ⊆ {[k]} ∪ tb_dirty t /\ (all_kept s -> is_Some (tb_map t !! k) -> tb_dirty t' = tb_dirty t)).
  { intros t t' ([t1 [k1 v1]] & Hf & [= <-])%bind_ok. apply value_steps in Hf as (_ & -> & Hm & Hd & Hkp); done. }
  set (P := fun t : table any => (tb_map t = m \/ tb_map t = <[k := transformed s v]> m) /\ tb_dirty t ⊆ {[k]} /\ (all_kept s -> tb_dirty t = ∅)).
  assert (Hin : forall t, P t -> is_Some (tb_map t !! k)).
  { intros t ([->| ->] & _); [rewrite Hk|rewrite lookup_insert_eq]; eauto. }
  assert (Hnil : nilb (transforms_of s) = true -> <[k := transformed s v]> m = m).
  { unfold transformed. destruct (transforms_of s); [intros _|done]. by apply insert_id. }
  assert (HP : forall t t', P t -> applyValueTransformations s (k, v) t = Ok t' -> P t' /\ tb_map t' = <[k := transformed s v]> m).
  { intros t t' HPt Hap. destruct (Hstep _ _ Hap) as (Hm & Hd & Hkp). pose proof (Hin t HPt) as Hsome. destruct HPt as (Hmt & Hdt & Hkt).
    assert (E : tb_map t' = <[k := transformed s v]> m).
    { rewrite Hm. destruct (nilb (transforms_of s)); [specialize (Hnil eq_refl); destruct Hmt as [->| ->]; congruence|].
      destruct Hmt as [->| ->]; [done|by rewrite insert_insert_eq]. }
    split; [|done]. split_and!; [by right|set_solver|]. intros Hall. rewrite (Hkp Hall Hsome). by apply Hkt. }
  intros Ht. destruct n as [|n]; cbn in Ht |- *; [injection Ht as <-; cbn; split_and!; [done|set_solver|done]|].
  apply bind_ok in Ht as (t1 & H1' & Ht).
  assert (HP0 : P (mkTable m ∅)) by (split_and!; [by left|set_solver|done]).
  destruct (HP _ _ HP0 H1') as [HP1 Em].
  assert (Q : P tb /\ tb_map tb = <[k := transformed s v]> m).
  { revert Ht. apply (times_keeps (fun t => P t /\ tb_map t = <[k := transformed s v]> m)); [|done]. intros a b [Hpa _]. by apply HP. }
  destruct Q as ((_ & Hd & Hkp) & ->). done.
Qed.

(** The values a run can leave where [v] was. *)
Lemma churn_values s todo maybe m m' :
  values_only s -> churn (strings_value s) todo maybe m m' ->
  forall k, match m !! k with
  | None => m' !! k = None
  | Some v => exists n, m' !! k = Some (Nat.iter n (transformed s) v)
      /\ (forall i, (i < n)%nat -> (0 < value_hits s (k, Nat.iter i (transformed s) v))%nat)
      /\ (k ∈ todo -> (0 < value_hits s (k, v))%nat -> (0 < n)%nat)
      /\ (k ∉ todo -> k ∉ maybe -> n = 0%nat)
      /\ (all_kept s -> maybe = ∅ -> (n <= 1)%nat)
  end.
Proof.
  intros Ha. induction 1 as [maybe m|todo maybe m k v tb m' Hkin Hk Hb Hr IH]; intros i.
  { destruct (m !! i) as [v|]; [|done]. exists 0%nat. split_and!; try done; lia || set_solver. }
  destruct (strings_value_map s m k v tb Ha Hk Hb) as (Hm & Hd & Hkp). specialize (IH i). rewrite Hm in IH.
  destruct (decide (i = k)) as [->|Hne].
  - rewrite Hk. destruct (Nat.eqb_spec (value_hits s (k, v)) 0) as [Hz|Hz].
    + rewrite Hk in IH. destruct IH as (n & Hn & Hhit & _ & Hout & Hle). exists n. split_and!; [done|done|lia| |].
      * set_solver.
      * intros Hall ->. specialize (Hle Hall). rewrite (Hkp Hall) in Hle. apply Hle. set_solver.
    + rewrite lookup_insert_eq in IH. destruct IH as (n & Hn & Hhit & _ & Hout & _). exists (S n). rewrite Nat.iter_succ_r. split_and!; [done| |lia| |].
      * intros [|j] Hj; [cbn; lia|]. rewrite Nat.iter_succ_r. apply Hhit. lia.
      * intros. set_solver.
      * intros Hall ->. rewrite (Hkp Hall) in Hout. rewrite Hout; [lia|set_solver..].
  - assert ((if (value_hits s (k, v) =? 0)%nat then m else <[k:=transformed s v]> m) !! i = m !! i) as E.
    { destruct (_ =? 0)%nat; [done|by rewrite lookup_insert_ne]. }
    rewrite E in IH. destruct (m !! i) as [w|]; [|done]. destruct IH as (n & Hn & Hhit & Hpos & Hout & Hle). exists n.
    split_and!; [done|done| | |].
    + intros Hi. apply Hpos. set_solver.
    + intros Hi1 Hi2. apply Hout; set_solver.
    + intros Hall ->. apply Hle; [done|]. rewrite (Hkp Hall). set_solver.
Qed.

(** What event-strings leaves of the values when its transforms leave the
    names alone, in every run of its loop. A value is transformed a number of
    times; at least once when the value or its name matches, and each time for
    a match. Once at most when the transforms keep the old entry; when they do
    not, the entry is removed and put back while the table is ranged over, and
    the loop may come to it again. *)
Theorem strings_values_spec s m m' k v :
  values_only s -> churn_run (strings_value s) m m' -> m !! k = Some v ->
  exists n, m' !! k = Some (Nat.iter n (transformed s) v)
    /\ (forall i, (i < n)%nat -> (0 < value_hits s (k, Nat.iter i (transformed s) v))%nat)
    /\ ((0 < value_hits s (k, v))%nat -> (0 < n)%nat)
    /\ (all_kept s -> (n <= 1)%nat).
Proof.
  intros Ha Hr Hk. pose proof (churn_values s _ _ m m' Ha Hr k) as Hc. rewrite Hk in Hc.
  destruct Hc as (n & Hn & Hhit & Hpos & _ & Hle). exists n. split_and!; [done|done| |by intros ?; apply Hle].
  apply Hpos. apply elem_of_dom. by exists v.
Qed.
End strings_lemmas.

(** *** Splitting *)

Lemma has_prefix_drop p s : has_prefix p s = true -> p +:+ sdrop (String.length p) s = s.
Proof.
  revert s. induction p as [|c p IH]; intros s; cbn; [intros _; apply sdrop_0|]. destruct s as [|d s]; [done|].
  intros [->%Ascii.eqb_eq Hp]%andb_true_iff. f_equal. by apply IH.
Qed.

Lemma cut_string_join sep s a b : cut_string sep s = Some (a, b) -> a +:+ (sep +:+ b) = s.
Proof.
  revert a b. induction s as [|c s IH]; intros a b; cbn [cut_string].
  - destruct (has_prefix sep "") eqn:Hp; [|done]. intros [= <- <-]. by apply has_prefix_drop.
  - destruct (has_prefix sep (String c s)) eqn:Hp.
    + intros [= <- <-]. by apply has_prefix_drop.
    + intros ([a' b'] & Hc & [= <- <-])%bind_Some. rewrite sapp_cons. f_equal. by apply IH.
Qed.

Lemma splitn_nonempty n sep s : splitn n sep s <> [].
Proof. destruct n; cbn; [done|]. by repeat case_match. Qed.

Lemma splitn_join n sep s : sjoin sep (splitn n sep s) = s.
Proof.
  revert s. induction n as [|n IH]; intros s; [done|]. cbn [splitn].
  destruct (if String.eqb sep "" then cut_rune s else cut_string sep s) as [[a b]|] eqn:E; [|done].
  destruct (splitn n sep b) as [|x l] eqn:El; [by apply splitn_nonempty in El|].
  rewrite sjoin_cons2, <-El, IH. destruct (String.eqb_spec sep "") as [->|].
  - unfold cut_rune in E. destruct (decode_rune s) as [[r w]|]; [|done]. destruct (String.eqb _ _); [done|].
    injection E as <- <-. rewrite sapp_nil_l. clear. revert s. induction w as [|w IH]; intros s; [by rewrite sdrop_0|].
    destruct s as [|c s]; [done|]. cbn. by rewrite <-(IH s) at 3.
  - by apply cut_string_join.
Qed.

(** The bounds of the slice the split transform takes. Numbers of items to
    ignore that are not negative never make it panic, whatever the text; and
    text split and joined with the same separator, with nothing ignored, is the
    text. *)
Theorem split_text_bounds t s :
  (0 <= t_IgnoreFirst t -> 0 <= t_IgnoreLast t -> exists r, split_text t s = Ok r) /\
  (t_IgnoreFirst t = 0 -> t_IgnoreLast t = 0 -> t_JoinWith t = t_SplitOn t -> split_text t s = Ok s).
Proof.
  unfold split_text. set (items := Split s (t_SplitOn t)). split.
  - intros Hf Hl. destruct (_ || _ || _); [eauto|]. zcases; eauto.
  - intros -> -> ->. destruct (decide (items = [])) as [E|Hne].
    + rewrite E. cbn. unfold items, Split, SplitN in E. destruct (String.eqb (t_SplitOn t) "" && String.eqb s "") eqn:Es.
      * apply andb_true_iff in Es as [_ ->%String.eqb_eq]. done.
      * by apply splitn_nonempty in E.
    + assert (0 < Z.of_nat (length items)) by (destruct items; [done|cbn; lia]).
      replace (_ || _ || _) with false by zcases. zcases. cbn. f_equal.
      rewrite Z.sub_0_r, Z.sub_0_r, Nat2Z.id, firstn_all. unfold items, Split, SplitN.
      destruct (String.eqb _ _ && String.eqb s "") eqn:Es; [|apply splitn_join].
      apply andb_true_iff in Es as [_ ->%String.eqb_eq]. done.
Qed.

(** A negative number is not refused, and panics. *)
Definition split_conf (first last : Z) : transformConfig := mkTransformConfig "value" false "" "" "" "" "/" "/" first last.
Example negative_ignore : split_text (split_conf (-1) 0) "a/b" = Panic /\ split_text (split_conf 0 (-1)) "a/b" = Panic
  /\ split_text (split_conf 1 1) "a/b/c" = Ok "b" /\ split_text (split_conf 2 2) "a/b/c" = Ok "".
Proof. by vm_compute. Qed.

(** *** When event-strings never panics *)

(** A replace transform has its expression, as [Init] leaves it, and a split
    ignores numbers of items that are not negative. *)
Definition transform_ok (t : transform) : Prop :=
  (t_op t = "replace" -> is_Some (t_replaceRegexp t)) /\
  (t_op t = "split" -> 0 <= t_IgnoreFirst (t_conf t) /\ 0 <= t_IgnoreLast (t_conf t)).
Definition strings_inv (s : stringsp) : Prop := Forall (map_Forall (fun _ => transform_ok)) (s_Transforms s).
(** The same of the configuration, whose transforms may be nil. *)
Definition splits_ok (c : stringsConfig) : Prop :=
  Forall (fun m => forall t, gm_get m "split" = Some (Some t) -> 0 <= t_IgnoreFirst t /\ 0 <= t_IgnoreLast t) (sc_Transforms c).

Section strings_safety.
Context `{UnicodeCase} `{TitleCase} `{MapOrder}.

Lemma transforms_ok s : strings_inv s -> Forall transform_ok (transforms_of s).
Proof.
  intros Hs. unfold transforms_of. apply Forall_forall. intros t (l & Ht & (m & -> & Hm)%list_elem_of_fmap)%list_elem_of_join.
  apply list_elem_of_fmap in Ht as ([k t'] & -> & Hk%elem_of_range).
  exact (proj1 (Forall_forall _ _) Hs m Hm k t' Hk).
Qed.

Lemma on_field_total t f k v : (forall s, exists r, f s = Ok r) -> exists k' v', on_field t f k v = Ok (k', v').
Proof.
  intros Hf. unfold on_field. destruct (String.eqb _ _); [destruct (Hf k) as [r ->]; cbn; eauto|].
  destruct (String.eqb _ _); [|eauto]. destruct v; eauto. destruct (Hf s) as [r ->]; cbn; eauto.
Qed.

Lemma transform_total t k v : transform_ok t -> exists k' v', transform_apply t k v = Ok (k', v').
Proof.
  intros [Hr Hs]. unfold transform_apply.
  repeat match goal with |- context [String.eqb (t_op t) ?o] =>
    destruct (String.eqb (t_op t) o) eqn:Hop; [apply String.eqb_eq in Hop; apply on_field_total; intros x|clear Hop] end; eauto.
  - destruct (Hr Hop) as [re ->]. eauto.
  - destruct (Hs Hop) as [H1' H2']. by apply (proj1 (split_text_bounds (t_conf t) x)).
Qed.

Lemma steps_total {S} (step : S -> transform -> go event_error S) ts st :
  (forall st t, transform_ok t -> exists st', step st t = Ok st') -> Forall transform_ok ts -> exists st', foldM step ts st = Ok st'.
Proof.
  intros Hs Hts. revert st; induction Hts as [|t ts Ht Hts IH]; intros st; cbn; [eauto|].
  destruct (Hs st t Ht) as [st' ->]. apply IH.
Qed.

Lemma times_total {A} n (f : A -> go event_error A) a : (forall a, exists b, f a = Ok b) -> exists b, times n f a = Ok b.
Proof. intros Hf. revert a; induction n as [|n IH]; intros a; cbn; [eauto|]. destruct (Hf a) as [b ->]. apply IH. Qed.

Lemma strings_value_total s m kv : strings_inv s -> exists tb, strings_value s m kv = Ok tb.
Proof.
  intros Hs. apply times_total. intros tb. unfold applyValueTransformations.
  destruct (steps_total value_step (transforms_of s) (tb, kv)) as [[tb' kv'] ->]; [|by apply transforms_ok|cbn; eauto].
  intros [tb0 [k v]] t Ht. unfold value_step. destruct (transform_total t k v Ht) as (k' & v' & ->). cbn. eauto.
Qed.

Lemma strings_tag_total s m kv : strings_inv s -> exists tb, strings_tag s m kv = Ok tb.
Proof.
  intros Hs. apply times_total. intros tb. unfold applyTagTransformations.
  destruct (steps_total tag_step (transforms_of s) (tb, kv)) as [[tb' kv'] ->]; [|by apply transforms_ok|cbn; eauto].
  intros [tb0 [k v]] t Ht. unfold tag_step. destruct (transform_total t k (AStr v) Ht) as (k' & v' & ->). cbn. destruct (as_string v'); eauto.
Qed.

Lemma churn_for_total {V} (body : gmap string V -> string * V -> go event_error (table V)) m :
  (forall m kv, exists tb, body m kv = Ok tb) -> exists m', churn_for body m = Ok m'.
Proof.
  intros Hb. unfold churn_for. generalize (range m).*1. intros l. revert m; induction l as [|k l IH]; intros m; cbn; [eauto|].
  destruct (m !! k) as [v|]; [|apply IH]. destruct (Hb m (k, v)) as [tb ->]. cbn. apply IH.
Qed.

(** Whatever entry a run of the loop comes to, in whatever order, the body does
    not panic on it. *)
Lemma strings_never_panics s :
  strings_inv s -> (forall m kv, exists tb, strings_value s m kv = Ok tb) /\ (forall m kv, exists tb, strings_tag s m kv = Ok tb).
Proof. intros Hs. split; intros m kv; [by apply strings_value_total|by apply strings_tag_total]. Qed.

Lemma strings_safe : SafeProcessor strings_proc strings_inv.
Proof.
  split. intros s es Hs Hes. destruct (mapE_events_ok (strings_event s) es) as (es' & He & Hes'); [|done|].
  - intros [e|] Hok; [|done]. destruct Hok as [tags Htags]. cbn [strings_event]. rewrite Htags.
    destruct (churn_for_total (strings_tag s) tags) as [tags' Ht']; [intros; by apply strings_tag_total|]. rewrite Ht'.
    destruct (ev_Values e) as [m|].
    + destruct (churn_for_total (strings_value s) m) as [m' Hm']; [intros; by apply strings_value_total|]. rewrite Hm'. cbn. eexists; split; [done|by eexists].
    + cbn. eexists; split; [done|by eexists].
  - cbn. unfold strings_Apply. rewrite He. cbn. by do 2 eexists.
Qed.
End strings_safety.

Lemma init_transform_ok `{RegexpPkg} m kv m' :
  init_transform m kv = Ok m' -> (forall t, kv.1 = "split" -> kv.2 = Some t -> 0 <= t_IgnoreFirst t /\ 0 <= t_IgnoreLast t) ->
  map_Forall (fun _ => transform_ok) m -> map_Forall (fun _ => transform_ok) m'.
Proof.
  unfold init_transform. destruct kv as [k [t|]]; cbn; [|done]. intros (re & Hre & [= <-])%bind_ok Hsp Hm.
  apply map_Forall_insert_2; [|done]. split; cbn.
  - intros ->. cbn in Hre. apply bind_ok in Hre as (r & _ & [= <-]). eauto.
  - intros ->. by apply Hsp.
Qed.

Lemma strings_Init_inv `{RegexpPkg} `{Decode stringsConfig} `{MapOrder} cfg c s :
  DecodeConfig cfg = Some c -> splits_ok c -> strings_Init cfg = Ok s -> strings_inv s.
Proof.
  intros Hd Hok. unfold strings_Init, decode. rewrite Hd. cbn [mbind go_bind].
  intros (ts & Hts & (tags & _ & (tks & _ & (vs & _ & (vks & _ & [= <-])%bind_ok)%bind_ok)%bind_ok)%bind_ok)%bind_ok.
  unfold strings_inv. cbn [s_Transforms]. apply mapE_ok in Hts. apply Forall_forall. intros m (i & Hi)%list_elem_of_lookup.
  destruct (Forall2_lookup_r _ _ _ _ _ Hts Hi) as (trans & Ht & Hf).
  pose proof (Forall_lookup_1 _ _ _ _ Hok Ht) as Hsp. cbn in Hsp.
  assert (Hr : forall kv, kv ∈ range (gm_tab trans) -> forall t, kv.1 = "split" -> kv.2 = Some t -> 0 <= t_IgnoreFirst t /\ 0 <= t_IgnoreLast t).
  { intros [k ot] Hk%elem_of_range t Hk' Ho. cbn in *. subst. apply Hsp. by rewrite gm_get_tab. }
  clear Hi Ht Hts. revert Hf Hr. generalize (range (gm_tab trans)). assert (He : map_Forall (fun _ => transform_ok) (∅ : gmap string transform)) by apply map_Forall_empty.
  revert He. generalize (∅ : gmap string transform). intros m0 Hm0 l. revert m0 Hm0; induction l as [|kv l IH]; intros m0 Hm0 Hf Hr; cbn in Hf; [by injection Hf as <-|].
  apply bind_ok in Hf as (m1 & Hi & Hf). eapply IH; [|exact Hf|].
  - eapply init_transform_ok; [exact Hi| |done]. apply Hr. left.
  - intros kv' Hkv. apply Hr. by right.
Qed.

(** *** Two runs of one loop *)

Definition title_none : TitleCase := {| english_Title s := s |}.
Definition trim_a (keep : bool) : stringsp :=
  mkStringsp [{["trim-prefix" := mkTransform "trim-prefix" (mkTransformConfig "value" keep "" "" "a" "" "" "" 0 0) None]}]
    [] [] [] [lit_re "x"].
Definition one_value (v : string) : gmap string any := {["x" := AStr v]}.
Abbreviation run_of s := (churn_run (strings_value (H := case_ascii) (H0 := title_none) (H1 := order_fwd) s)).

Lemma visit_x keep v w m' todo maybe :
  "x" ∈ todo ∪ maybe -> TrimPrefix "a" v = w ->
  churn (strings_value (H := case_ascii) (H0 := title_none) (H1 := order_fwd) (trim_a keep)) (todo ∖ {["x"]})
    (if keep then maybe ∖ {["x"]} else maybe ∪ {["x"]}) (one_value w) m' ->
  churn (strings_value (H := case_ascii) (H0 := title_none) (H1 := order_fwd) (trim_a keep)) todo maybe (one_value v) m'.
Proof.
  intros Hin <- Hr. eapply (churn_visit _ todo maybe (one_value v) "x" (AStr v)); [exact Hin|apply lookup_singleton_eq|by destruct keep|].
  assert (Hm : forall w, <["x" := AStr w]> (delete "x" (one_value v)) = one_value w) by (intros w; by rewrite insert_delete_eq; unfold one_value; rewrite insert_singleton_eq).
  assert (Hx : one_value v !! "x" = Some (AStr v)) by apply lookup_singleton_eq.
  destruct keep; cbn in Hr |- *; rewrite ?lookup_delete_eq, Hx.
  - replace ({["x"]} ∪ ∅) with ({["x"]} : gset string) by set_solver. rewrite (right_id_L ∅ (∪)).
    unfold one_value at 1. by rewrite insert_singleton_eq.
  - rewrite Hm. replace ({["x"]} ∪ ({["x"]} ∪ ({["x"]} ∪ ∅))) with ({["x"]} : gset string) by set_solver.
    replace (maybe ∖ {["x"]} ∪ ({["x"]} ∪ ({["x"]} ∪ ∅))) with (maybe ∪ {["x"]} : gset string); [done|].
    apply set_eq. intros k. destruct (decide (k = "x")); set_solver.
Qed.

(** The prefix is trimmed once or twice, as the runtime likes. *)
Example trimmed_once_or_twice :
  run_of (trim_a false) (one_value "aab") (one_value "ab") /\ run_of (trim_a false) (one_value "aab") (one_value "b").
Proof.
  unfold churn_run. assert (Hd : dom (one_value "aab") = {["x"]}) by apply dom_singleton_L. rewrite Hd.
  split; (refine (visit_x false "aab" "ab" _ _ _ _ eq_refl _); [set_solver|]);
    (replace ({["x"]} ∖ {["x"]}) with (∅ : gset string) by set_solver).
  - apply churn_stop.
  - refine (visit_x false "ab" "b" _ _ _ _ eq_refl _); [set_solver|].
    replace (∅ ∖ {["x"]}) with (∅ : gset string) by set_solver. apply churn_stop.
Qed.

Lemma strings_values_spec_witness :
  values_only (H1 := order_fwd) (trim_a true) /\ run_of (trim_a true) (one_value "aab") (one_value "ab") /\
  exists n, one_value "ab" !! "x" = Some (Nat.iter n (transformed (H := case_ascii) (H0 := title_none) (H1 := order_fwd) (trim_a true)) (AStr "aab"))
    /\ (n <= 1)%nat.
Proof.
  assert (Ha : values_only (H1 := order_fwd) (trim_a true)) by (refine (bool_decide_unpack _ _); vm_compute; exact I).
  assert (Hr : run_of (trim_a true) (one_value "aab") (one_value "ab")).
  { unfold churn_run. assert (Hd : dom (one_value "aab") = {["x"]}) by apply dom_singleton_L. rewrite Hd.
    refine (visit_x true "aab" "ab" _ _ _ _ eq_refl _); [set_solver|].
    replace ({["x"]} ∖ {["x"]}) with (∅ : gset string) by set_solver. apply churn_stop. }
  split; [exact Ha|]. split; [exact Hr|].
  destruct (strings_values_spec (H := case_ascii) (H0 := title_none) (H1 := order_fwd) (trim_a true) (one_value "aab") (one_value "ab") "x" (AStr "aab") Ha Hr
              (lookup_singleton_eq "x" (AStr "aab")))
    as (n & Hn & _ & _ & Hle).
  exists n. split; [exact Hn|]. apply Hle. refine (bool_decide_unpack _ _). vm_compute. exact I.
Defined.

(** ** Event-date-string on the events of a notification *)

Definition layout_only : TimeFormat := {| LoadLocation s := Some s; time_Format _ _ l := l |}.
Definition date_of_tag : dateString := mkDateString "s" "" [lit_re "up-since"] [] "Local".

(** The event of a delete has tags and no values: a tag that matches stops the
    program. *)
Example date_string_delete :
  let del := mkGPath "" [mkPathElem "session" (Some {["up-since" := "1700000000"]})] "" in
  exists evs, ResponseToEventMsgs (H := order_fwd) (H0 := env_none) "sub1" (Some (SR_Update (mkNotification 7 None [] [Some del]))) None [] = Ok evs
    /\ dateString_Apply (H := conv_amd64) (H0 := layout_only) (H1 := order_fwd) date_of_tag evs = Panic.
Proof. eexists. split; [vm_compute; reflexivity|vm_compute; reflexivity]. Qed.

Lemma date_string_spec_witness :
  exists e', date_event (H := conv_amd64) (H0 := layout_only) (H1 := order_fwd) date_of_tag
      (Some (with_tags (Some {["up-since" := "17"]}) size_event)) = Ok (Some e')
    /\ gm_get (ev_Values e') "up-since" = Some (AStr RFC3339) /\ gm_get (ev_Tags e') "up-since" = Some "17".
Proof.
  destruct (is_ok_some (date_event (H := conv_amd64) (H0 := layout_only) (H1 := order_fwd) date_of_tag
    (Some (with_tags (Some {["up-since" := "17"]}) size_event)))) as [[e'|] He]; [vm_compute; reflexivity| |vm_compute in He; discriminate He].
  exists e'. split; [exact He|].
  destruct (proj2 (date_string_spec (H := conv_amd64) (H0 := layout_only) (H1 := order_fwd) date_of_tag
    (with_tags (Some {["up-since" := "17"]}) size_event)) e' He) as [Ht Hv].
  split; [rewrite Hv; vm_compute; reflexivity|rewrite Ht; reflexivity].
Defined.
