(* ===== verification/Prom.v ===== *)
(** * Prometheus metrics of events (pkg/outputs/prometheus_output)

    [MetricBuilder] turns an event into metrics, for the scrape output, or into
    time series, for the remote-write output: names and labels made of paths,
    values made of the dynamic values of the event. The scrape output keeps the
    newest metric of every series until it expires. *)

From Stdlib Require Import Floats.SpecFloat.
From stdpp Require Import strings sorting.
From S2P Require Import Prelude GoStrings Utf8 Path GoVal Text Event Processor Filters Convert.

#[local] Open Scope Z_scope.

(** ** Names *)

(** The bytes of [a-zA-Z0-9_]. *)
Definition name_char (c : ascii) : bool :=
  let z := byte_z c in
  (97 <=? z) && (z <=? 122) || (65 <=? z) && (z <=? 90) || (48 <=? z) && (z <=? 57) || (z =? 95).

(** [MetricNameRegex.ReplaceAllString(s, "_")], where the expression is
    [^a-zA-Z0-9_]+: every run of other bytes becomes one underscore. *)
Fixpoint replace_runs (in_run : bool) (s : string) : string :=
  match s with
  | EmptyString => ""
  | String c s => if name_char c then String c (replace_runs false s)
                  else if in_run then replace_runs true s else String "_" (replace_runs true s)
  end.
Definition metric_text (s : string) : string := replace_runs false s.

Example metric_text_ex : metric_text "interfaces/interface[name=e1]/in-octets" = "interfaces_interface_name_e1_in_octets".
Proof. reflexivity. Qed.

(** ** Values *)

Record Label := mkLabel { lb_Name : string; lb_Value : string }.

(** Times are nanoseconds. *)
Record PromMetric := mkMetric {
  pm_Name : string; pm_Time : option Z; pm_AddedAt : Z; pm_labels : list Label; pm_value : spec_float
}.
Abbreviation Entries := (gmap Z PromMetric).

Section builder.
Context `{FloatText} `{MapOrder}.

(** [toFloat]; [None] is an error. *)
Definition toFloat (v : any) : option spec_float :=
  match v with
  | AF64 f => Some f
  | AF32 f => Some (f64_of_f32 f)
  | AInt KUintptr _ => None
  | AInt _ z => Some (f64_of_Z z)
  | ABool b => Some (f64_of_Z (if b then 1 else 0))
  | AStr s => ParseFloat s
  | ADecimal d p => Some (f64_div (f64_of_Z d) (pow10 p))
  | _ => None
  end.

(** ** Labels *)


(** The labels of the tags: the first tag with a name is kept. *)
Definition tag_label (st : list Label * gset string) (kv : string * string) : list Label * gset string :=
  let '(labels, added) := st in
  let name := metric_text (path_Base kv.1) in
  if bool_decide (name ∈ added) then st else (labels ++ [mkLabel name kv.2], {[name]} ∪ added).

Record tempLabel := mkTemp { tl_path : string; tl_name : string; tl_value : string; tl_suffix : nat }.

Definition path_elems (path : string) : list string := filter (fun e => e <> "") (split_byte "/" path).

Definition labelNameFromPath (path : string) (numElems : nat) : string :=
  let nonEmpty := path_elems path in
  let numElems := if (length nonEmpty <? numElems)%nat then length nonEmpty else numElems in
  metric_text (sjoin "_" (drop (length nonEmpty - numElems) nonEmpty)).

(** The values that are not numbers, as labels of their last path element. *)
Definition temp_label (kv : string * any) : option tempLabel :=
  match toFloat kv.2 with
  | Some _ => None
  | None => Some (mkTemp kv.1 (metric_text (path_Base kv.1))
                    (match kv.2 with AStr s => s | ABool b => format_bool b | _ => "" end) 1)
  end.

(** A label whose name another one has, or a tag. *)
Definition collides (added : gset string) (l : list tempLabel) (t : tempLabel) : bool :=
  (1 <? length (filter (fun u => tl_name u = tl_name t) l))%nat || bool_decide (tl_name t ∈ added).
(** One more path element. *)
Definition bump (t : tempLabel) : tempLabel :=
  mkTemp (tl_path t) (labelNameFromPath (tl_path t) (S (tl_suffix t))) (tl_value t) (S (tl_suffix t)).
Definition resolve_turn (added : gset string) (l : list tempLabel) : list tempLabel :=
  map (fun t => if collides added l t then bump t else t) l.
Definition turn_changes (added : gset string) (l : list tempLabel) : bool :=
  existsb (fun t => collides added l t && negb (String.eqb (tl_name (bump t)) (tl_name t))) l.

(** The loop that resolves the names; [None] when it runs out of fuel. *)
Fixpoint resolve (fuel : nat) (added : gset string) (l : list tempLabel) : option (list tempLabel) :=
  match fuel with
  | O => None
  | S fuel => if turn_changes added l then resolve fuel added (resolve_turn added l) else Some (resolve_turn added l)
  end.

(** Enough turns: a name changes at most once per path element, and once more. *)
Definition resolve_fuel (l : list tempLabel) : nat :=
  S (sum_list (map (fun t => Nat.max 1 (length (path_elems (tl_path t)))) l)).

(** Labels that still collide are dropped. *)
Definition keep_label (st : list Label * gset string) (t : tempLabel) : list Label * gset string :=
  let '(result, taken) := st in
  if bool_decide (tl_name t ∈ taken) then st else (result ++ [mkLabel (tl_name t) (tl_value t)], {[tl_name t]} ∪ taken).

Definition buildUniqueLabelsFromValues (values : gmap string any) (added : gset string) : list Label :=
  let temps := omap temp_label (range values) in
  (foldl keep_label ([], added) (default temps (resolve (resolve_fuel temps) added temps))).1.

Record MetricBuilder := mkBuilder {
  mb_Prefix : string; mb_AppendSubscriptionName : bool; mb_StringsAsLabels : bool;
  mb_OverrideTimestamps : bool; mb_ExportTimestamps : bool
}.

Definition GetLabels (m : MetricBuilder) (ev : EventMsg) : list Label :=
  let '(labels, added) := foldl tag_label ([], ∅) (range (gm_tab (ev_Tags ev))) in
  if mb_StringsAsLabels m then labels ++ buildUniqueLabelsFromValues (gm_tab (ev_Values ev)) added else labels.

Definition MetricName (m : MetricBuilder) (measName valueName : string) : string :=
  (if String.eqb (mb_Prefix m) "" then "" else metric_text (mb_Prefix m) +:+ "_")
  +:+ ((if mb_AppendSubscriptionName m then trim_right "_" (metric_text measName) +:+ "_" else "")
  +:+ trim_left "_" (metric_text valueName)).

(** ** Metrics *)


Definition metric_value (m : MetricBuilder) (v : any) : option spec_float :=
  match toFloat v with Some f => Some f | None => if mb_StringsAsLabels m then Some (f64_of_Z 1) else None end.

(** The event keeps the time it was given. *)
Definition MetricsFromEvent (m : MetricBuilder) (ev : EventMsg) (now : Z) : list PromMetric * EventMsg :=
  let labels := GetLabels m ev in
  let ts := if mb_OverrideTimestamps m && mb_ExportTimestamps m then now else ev_Timestamp ev in
  let pms := omap (fun kv : string * any => v ← metric_value m kv.2;
    Some (mkMetric (MetricName m (ev_Name ev) kv.1) (if mb_ExportTimestamps m then Some ts else None) now labels v))
    (range (gm_tab (ev_Values ev))) in
  (pms, match pms with [] => ev | _ => mkEvent (ev_Name ev) ts (ev_Tags ev) (ev_Values ev) (ev_Deletes ev) end).

Definition label_le (a b : Label) : Prop := String.le (lb_Name a) (lb_Name b).
#[local] Instance label_le_dec a b : Decision (label_le a b).
Proof. unfold label_le. apply _. Defined.
Definition sort_labels (l : list Label) : list Label := merge_sort label_le l.

(** [CalculateKey] *)
Definition label_text (l : Label) : string := lb_Name l +:+ (":" +:+ (lb_Value l +:+ ":")).
Definition key_text (p : PromMetric) : string :=
  pm_Name p +:+ match pm_labels p with
                | [] => ""
                | l => ":" +:+ sjoin "" (map label_text (sort_labels l))
                end.
Definition CalculateKey (p : PromMetric) : Z := fnv1a (key_text p).

(** [Write]: the timestamp in milliseconds. *)
Definition metric_timestamp (p : PromMetric) : option Z := (fun t => Z.quot t 1000000) <$> pm_Time p.

(** ** Time series *)

Record TimeSeries := mkSeries { ts_Name : string; ts_Labels : list Label; ts_Value : spec_float; ts_Timestamp : Z }.
Definition MetricNameLabel : string := "__name__".

Definition TimeSeriesFromEvent (m : MetricBuilder) (ev : EventMsg) : list TimeSeries :=
  let labels := GetLabels m ev in
  omap (fun kv : string * any => v ← metric_value m kv.2;
    let name := MetricName m (ev_Name ev) kv.1 in
    Some (mkSeries name (sort_labels (labels ++ [mkLabel MetricNameLabel name])) v (Z.quot (ev_Timestamp ev) 1000000)))
    (range (gm_tab (ev_Values ev))).

(** ** The metrics of the scrape output *)

(** One metric of an event ([workerHandleEvent]): comparing with a stored metric
    that has no time dereferences nil. *)
Definition store_metric (entries : Entries) (p : PromMetric) : go Empty_set Entries :=
  let k := CalculateKey p in
  match entries !! k, pm_Time p with
  | None, _ | _, None => Ok (<[k := p]> entries)
  | Some e, Some t =>
      match pm_Time e with
      | None => Panic
      | Some t' => Ok (if t' <? t then <[k := p]> entries else entries)
      end
  end.

(** The events of a message, at the times [now] of each. *)
Definition workerHandleEvent (m : MetricBuilder) (evs : list (EventMsg * Z)) (entries : Entries) : go Empty_set Entries :=
  foldM store_metric (concat (map (fun e => (MetricsFromEvent m e.1 e.2).1) evs)) entries.

(** Removing an entry or not; [Panic] again for a missing time. *)
Definition expired (exportTimestamps : bool) (expiry : Z) (e : PromMetric) : go Empty_set bool :=
  if exportTimestamps then match pm_Time e with None => Panic | Some t => Ok (t <? expiry) end
  else Ok (pm_AddedAt e <? expiry).

Definition expire_step (exportTimestamps : bool) (expiry : Z) (entries : Entries) (kv : Z * PromMetric) : go Empty_set Entries :=
  b ← expired exportTimestamps expiry kv.2; Ok (if b : bool then delete kv.1 entries else entries).
Definition expireMetrics (expiration : Z) (exportTimestamps : bool) (now : Z) (entries : Entries) : go Empty_set Entries :=
  if expiration <=? 0 then Ok entries
  else foldM (expire_step exportTimestamps (now - expiration)) (map_to_list entries) entries.
End builder.

(** * Lemmas *)

(** ** Names *)

Lemma metric_text_chars s : sall name_char (metric_text s) = true.
Proof.
  unfold metric_text. generalize false. induction s as [|c s IH]; intros b; cbn; [done|].
  destruct (name_char c) eqn:Hc; [cbn; by rewrite Hc, IH|]. destruct b; [apply IH|]. cbn. apply IH.
Qed.

Lemma replace_runs_cut b x c y : name_char c = true ->
  replace_runs b (x +:+ String c y) = replace_runs b x +:+ String c (metric_text y).
Proof.
  intros Hc. revert b; induction x as [|d x IH]; intros b; cbn; [by rewrite Hc|].
  destruct (name_char d); [by rewrite IH|]. destruct b; by rewrite IH.
Qed.
Lemma metric_text_cut x y : metric_text (x +:+ ("_" +:+ y)) = metric_text x +:+ ("_" +:+ metric_text y).
Proof. apply replace_runs_cut. reflexivity. Qed.

Lemma trim_left_chars p c s : sall p s = true -> sall p (trim_left c s) = true.
Proof. induction s as [|x s IH]; cbn; [done|]. intros [??]%andb_prop. destruct (Ascii.eqb x c); [by apply IH|]. cbn. by apply andb_true_intro. Qed.
Lemma trim_right_chars p c s : sall p s = true -> sall p (trim_right c s) = true.
Proof.
  induction s as [|x s IH]; cbn; [done|]. intros [Hx Hs]%andb_prop. specialize (IH Hs).
  destruct (trim_right c s) as [|y t]; [by destruct (Ascii.eqb x c); cbn; rewrite ?Hx|].
  cbn [sall]. by rewrite Hx.
Qed.

(** Metric names are over the alphabet: an empty name, or one that starts
    with a digit, is possible. *)
Lemma MetricName_chars m meas v : sall name_char (MetricName m meas v) = true.
Proof.
  unfold MetricName. rewrite !sall_app.
  assert (forall b s, sall name_char s = true -> sall name_char (if b : bool then "" else s +:+ "_") = true) as Hp.
  { intros [] s Hs; [done|]. by rewrite sall_app, Hs. }
  rewrite Hp by apply metric_text_chars.
  rewrite (trim_left_chars _ "_" _ (metric_text_chars v)), andb_true_r.
  destruct (mb_AppendSubscriptionName m); [|done].
  by rewrite sall_app, (trim_right_chars _ _ _ (metric_text_chars meas)).
Qed.

(** ** Paths and their elements *)

Lemma path_elems_ne p : Forall (fun e => e <> "") (path_elems p).
Proof. apply Forall_forall. intros e He. unfold path_elems in He. by apply list_elem_of_filter in He as [? _]. Qed.

Lemma trim_right_slashes s : exists t, s = trim_right "/" s +:+ t /\ sall (fun c => Ascii.eqb c "/") t = true.
Proof.
  induction s as [|x s (t & Hs & Ht)]; cbn; [by exists ""|].
  destruct (trim_right "/" s) as [|y r].
  - destruct (Ascii.eqb x "/") eqn:Hx; cbn in *; subst s.
    + exists (String x t). cbn. by rewrite Hx.
    + by exists t.
  - exists t. split; [|done]. cbn in *. by rewrite <-Hs.
Qed.

Lemma split_app_slash a t : sall (fun c => Ascii.eqb c "/") t = true ->
  exists n, split_byte "/" (a +:+ t) = split_byte "/" a ++ replicate n "".
Proof.
  intros Ht. induction a as [|x a (n & IH)].
  - induction t as [|x t IH]; [by exists 0%nat|]. cbn in Ht. apply andb_prop in Ht as [Hx Ht].
    destruct (IH Ht) as (n & Hn). exists (S n). cbn in *. by rewrite Hx, Hn.
  - exists n. rewrite sapp_cons. cbn [split_byte]. rewrite IH. destruct (Ascii.eqb x "/"); [done|].
    destruct (split_byte "/" a) eqn:Ha; [by apply split_byte_nonempty in Ha|done].
Qed.

Lemma trim_right_last s : trim_right "/" s <> "" -> List.last (split_byte "/" (trim_right "/" s)) "" <> "".
Proof.
  induction s as [|x s IH]; cbn; [done|].
  destruct (trim_right "/" s) as [|y r] eqn:Hr.
  - destruct (Ascii.eqb x "/") eqn:Hx; [done|]. cbn. by rewrite Hx.
  - intros _. specialize (IH ltac:(done)). cbn [split_byte] in *.
    destruct (Ascii.eqb x "/"); [|].
    + by destruct (Ascii.eqb y "/"); [|destruct (split_byte "/" r)].
    + destruct (Ascii.eqb y "/"); [destruct (split_byte "/" r) eqn:E; [by apply split_byte_nonempty in E|done]|].
      destruct (split_byte "/" r) as [|w [|w' ws]]; done.
Qed.

(** The base of a path is its last element. *)
Lemma path_Base_last p : path_elems p <> [] -> exists l, path_elems p = l ++ [path_Base p].
Proof.
  intros Hne. destruct (trim_right_slashes p) as (t & Hp & Ht).
  destruct (split_app_slash (trim_right "/" p) t Ht) as (n & Hn). rewrite <-Hp in Hn.
  assert (path_elems p = path_elems (trim_right "/" p)) as He.
  { unfold path_elems. rewrite Hn, filter_app. rewrite (filter_none _ (replicate n "")); [apply app_nil_r|].
    apply Forall_replicate. tauto. }
  destruct (decide (trim_right "/" p = "")) as [E|Hr].
  { rewrite He, E in Hne. by destruct Hne. }
  pose proof (trim_right_last p Hr) as Hl. unfold path_Base.
  destruct (String.eqb_spec p "") as [->|_]; [done|].
  destruct (String.eqb_spec (List.last (split_byte "/" (trim_right "/" p)) "") "") as [?|_]; [done|].
  pose proof (List.app_removelast_last "" (split_byte_nonempty "/" (trim_right "/" p))) as Hs.
  rewrite He. unfold path_elems. eexists. etransitivity; [apply (f_equal (filter _)), Hs|].
  rewrite filter_app. f_equal. by rewrite filter_cons_True by done.
Qed.

(** Two consecutive names of a path differ while elements are left. *)
Lemma labelName_grows p n : (1 <= n < length (path_elems p))%nat ->
  labelNameFromPath p (S n) <> labelNameFromPath p n.
Proof.
  intros Hn. unfold labelNameFromPath. cbv zeta. rewrite !(proj2 (Nat.ltb_ge _ _)) by lia.
  pose proof (path_elems_ne p) as Hne. revert Hn Hne. generalize (path_elems p). intros l Hn Hne.
  destruct (lookup_lt_is_Some_2 l (length l - S n)) as (e & He); [lia|].
  rewrite (drop_S _ _ _ He). replace (S (length l - S n)) with (length l - n)%nat by lia.
  assert (exists b r, drop (length l - n) l = b :: r) as (b & r & ->).
  { destruct (drop (length l - n) l) eqn:E; [|eauto]. apply (f_equal length) in E. rewrite length_drop in E. cbn in E. lia. }
  rewrite sjoin_cons2, metric_text_cut. intros H. apply (f_equal String.length) in H. rewrite !slength_app in H.
  cbn [String.length] in H. lia.
Qed.

(** ** Resolving label names *)

Section resolving.
Context `{FloatText} `{MapOrder}.
Implicit Types (t u : tempLabel) (l : list tempLabel) (added : gset string).

Lemma labelName_all p n : (length (path_elems p) <= n)%nat -> labelNameFromPath p n = labelNameFromPath p (length (path_elems p)).
Proof.
  intros Hn. unfold labelNameFromPath. cbv zeta. rewrite Nat.ltb_irrefl.
  destruct (Nat.ltb_spec (length (path_elems p)) n); [done|]. by replace n with (length (path_elems p)) by lia.
Qed.

(** A temporary label has the name of its path elements, as many as its
    suffix says; a path without elements starts with the name [_]. *)
Definition temp_ok t : Prop :=
  (1 <= tl_suffix t)%nat /\
  (tl_name t = labelNameFromPath (tl_path t) (tl_suffix t) \/ path_elems (tl_path t) = [] /\ tl_suffix t = 1%nat
   /\ tl_name t = metric_text (path_Base (tl_path t))).

Lemma temp_label_ok kv t : temp_label kv = Some t ->
  temp_ok t /\ tl_suffix t = 1%nat /\ tl_path t = kv.1.
Proof.
  unfold temp_label. destruct (toFloat kv.2); [done|]. intros [= <-]. split_and!; [|done..].
  unfold temp_ok. cbn [tl_suffix tl_name tl_path]. split; [lia|].
  destruct (decide (path_elems kv.1 = [])) as [|Hne]; [by right|left].
  destruct (path_Base_last _ Hne) as (l & Hl). unfold labelNameFromPath. cbv zeta. rewrite Hl, length_app. cbn [length].
  rewrite (proj2 (Nat.ltb_ge _ _)) by lia. replace (length l + 1 - 1)%nat with (length l) by lia. by rewrite drop_app_length.
Qed.

Lemma bump_ok t : temp_ok t -> temp_ok (bump t).
Proof. intros [? _]. split; cbn; [lia|by left]. Qed.

(** The changes a label has left. *)
Definition turns_left t : nat := (S (Nat.max 1 (length (path_elems (tl_path t)))) - tl_suffix t)%nat.
Definition budget l : nat := sum_list (map turns_left l).

Lemma bump_le t : (turns_left (bump t) <= turns_left t)%nat.
Proof. unfold turns_left, bump. cbn [tl_path tl_suffix]. lia. Qed.

Lemma bump_decreases t : temp_ok t -> tl_name (bump t) <> tl_name t -> (turns_left (bump t) < turns_left t)%nat.
Proof.
  intros [Hs Hn] Hc. unfold turns_left. cbn [bump tl_path tl_suffix tl_name] in *.
  destruct Hn as [Hn|(Hp & Hs1 & _)]; [|rewrite Hp, Hs1; cbn; lia]. rewrite Hn in Hc.
  destruct (decide (length (path_elems (tl_path t)) <= tl_suffix t)%nat); [|lia].
  by rewrite (labelName_all _ (S _)), (labelName_all _ (tl_suffix t)) in Hc by lia.
Qed.

Lemma turn_decreases added l : Forall temp_ok l -> turn_changes added l = true ->
  (budget (resolve_turn added l) < budget l)%nat.
Proof.
  unfold turn_changes, resolve_turn. generalize (collides added l) as c. intros c Hl. unfold budget.
  assert (forall l', Forall temp_ok l' ->
    sum_list (map turns_left (map (fun t => if c t then bump t else t) l')) <= sum_list (map turns_left l'))%nat as Hle.
  { induction 1 as [|t l' _ _ IH]; cbn; [lia|]. pose proof (bump_le t). destruct (c t); lia. }
  induction Hl as [|t l Ht Hl IH]; cbn; [done|]. intros [Hc|Hc]%orb_prop.
  - apply andb_prop in Hc as [-> Hn%negb_true_iff]. apply String.eqb_neq in Hn.
    pose proof (bump_decreases t Ht Hn). specialize (Hle l Hl). lia.
  - specialize (IH Hc). pose proof (bump_le t). destruct (c t); lia.
Qed.

Lemma turn_ok added l : Forall temp_ok l -> Forall temp_ok (resolve_turn added l).
Proof. intros Hl. apply Forall_map. eapply Forall_impl; [exact Hl|]. intros t Ht. cbn. destruct (collides _ _ _); [by apply bump_ok|done]. Qed.

(** Whether a label collides depends on the names only. *)
Lemma collides_names added l l' t t' : map tl_name l = map tl_name l' -> tl_name t = tl_name t' ->
  collides added l t = collides added l' t'.
Proof.
  intros Hl Ht. unfold collides. rewrite Ht. f_equal. f_equal.
  revert l' Hl; induction l as [|u l IH]; intros [|u' l'] Hl; try done. injection Hl as Hu Hl.
  rewrite !filter_cons, Hu. destruct (decide (tl_name u' = _)); cbn; by rewrite (IH l' Hl).
Qed.

Definition same_source t t' : Prop := tl_path t = tl_path t' /\ tl_value t = tl_value t'.

(** The labels after the loop: the names that still collide are those of whole paths. *)
Definition settled added l : Prop :=
  Forall temp_ok l /\ Forall (fun t => collides added l t = true ->
    tl_name t = labelNameFromPath (tl_path t) (length (path_elems (tl_path t)))) l.

Lemma last_turn added l : Forall temp_ok l -> turn_changes added l = false -> settled added (resolve_turn added l).
Proof.
  intros Hl Hc. split; [by apply turn_ok|].
  assert (forall t, t ∈ l -> collides added l t = true -> tl_name (bump t) = tl_name t) as Hsame.
  { intros t Ht Hct. unfold turn_changes in Hc. destruct (String.eqb_spec (tl_name (bump t)) (tl_name t)) as [|Hn]; [done|].
    enough (existsb (fun t => collides added l t && negb (String.eqb (tl_name (bump t)) (tl_name t))) l = true) by congruence.
    apply existsb_exists. exists t. split; [by apply list_elem_of_In|]. rewrite Hct. cbn [andb]. by apply negb_true_iff, String.eqb_neq. }
  assert (map tl_name (resolve_turn added l) = map tl_name l) as Hnames.
  { unfold resolve_turn. rewrite map_map. apply map_ext_in. intros t Ht%list_elem_of_In.
    destruct (collides added l t) eqn:E; [by apply Hsame|done]. }
  apply Forall_forall. intros t' Ht'. apply list_elem_of_In, in_map_iff in Ht' as (t & <- & Ht%list_elem_of_In).
  destruct (collides added l t) eqn:E.
  - intros _. specialize (Hsame t Ht E). rewrite Hsame. rewrite Forall_forall in Hl. destruct (Hl t Ht) as [Hs Hn].
    cbn [bump tl_path tl_name] in *. destruct Hn as [Hn|(Hp & Hs1 & _)].
    + rewrite Hn in Hsame |- *. destruct (decide (length (path_elems (tl_path t)) <= tl_suffix t)%nat); [by apply labelName_all|].
      by apply labelName_grows in Hsame; [|lia].
    + rewrite <-Hsame. apply labelName_all. rewrite Hp. cbn. lia.
  - rewrite (collides_names added _ l t t Hnames eq_refl), E. done.
Qed.

Lemma resolve_settles fuel added l : Forall temp_ok l -> (budget l < fuel)%nat ->
  exists l', resolve fuel added l = Some l' /\ Forall2 same_source l l' /\ settled added l'.
Proof.
  revert l; induction fuel as [|fuel IH]; intros l Hl Hf; [lia|].
  assert (Forall2 same_source l (resolve_turn added l)) as Hsrc.
  { unfold resolve_turn. apply Forall2_fmap_r, Forall_Forall2_diag, Forall_forall. intros t _. unfold compose. destruct (collides added l t); by split. }
  cbn [resolve]. destruct (turn_changes added l) eqn:Hc.
  - pose proof (turn_decreases added l Hl Hc).
    destruct (IH (resolve_turn added l)) as (l' & Hr & Hs & Hset); [by apply turn_ok|lia|].
    exists l'. split_and!; [done| |done]. clear -Hsrc Hs. revert l' Hs.
    induction Hsrc as [|t u l1 l2 Htu H12 IH]; intros l' Hs; inversion Hs as [|? v ? l3 Huv]; subst; constructor; [|by apply IH].
    destruct Htu, Huv. split; congruence.
  - eexists. split_and!; [done|done|]. by apply last_turn.
Qed.

Lemma resolve_temps (values : gmap string any) added :
  let temps := omap temp_label (range values) in
  exists l, resolve (resolve_fuel temps) added temps = Some l /\ Forall2 same_source temps l /\ settled added l.
Proof.
  intros temps.
  assert (Forall (fun t => temp_ok t /\ tl_suffix t = 1%nat) temps) as Ht.
  { apply Forall_forall. intros t (kv & _ & Hkv)%list_elem_of_omap. by apply temp_label_ok in Hkv as (? & ? & _). }
  apply resolve_settles; [by eapply Forall_impl; [exact Ht|intros ? []]|]. unfold resolve_fuel, budget.
  apply Nat.lt_succ_r, Nat.eq_le_incl. f_equal. apply map_ext_in. intros t Hin%list_elem_of_In. rewrite Forall_forall in Ht.
  destruct (Ht t Hin) as [_ Hs]. unfold turns_left. rewrite Hs. lia.
Qed.
End resolving.


(** ** Sets of labels without repeated names *)

(** The common shape of [tag_label] and [keep_label]. *)
Definition add_label (st : list Label * gset string) (lb : Label) : list Label * gset string :=
  if bool_decide (lb_Name lb ∈ st.2) then st else (st.1 ++ [lb], {[lb_Name lb]} ∪ st.2).

Definition of_tag (kv : string * string) : Label := mkLabel (metric_text (path_Base kv.1)) kv.2.
Definition of_temp (t : tempLabel) : Label := mkLabel (tl_name t) (tl_value t).

Lemma foldl_via {A B C} (f : C -> A -> C) (g : C -> B -> C) (h : A -> B) (l : list A) st :
  (forall st a, f st a = g st (h a)) -> foldl f st l = foldl g st (h <$> l).
Proof. intros Hf. revert st; induction l as [|a l IH]; intros st; cbn; [done|]. rewrite Hf. apply IH. Qed.
Lemma tag_labels_add l st : foldl tag_label st l = foldl add_label st (of_tag <$> l).
Proof. apply foldl_via. by intros [ls taken] kv. Qed.
Lemma keep_labels_add l st : foldl keep_label st l = foldl add_label st (of_temp <$> l).
Proof. apply foldl_via. by intros [ls taken] kv. Qed.

(** The taken names are those of the labels and those of [base], apart. *)
Definition label_set (base : gset string) (st : list Label * gset string) : Prop :=
  NoDup (lb_Name <$> st.1) /\ (forall n, n ∈ st.2 <-> n ∈ base \/ n ∈ lb_Name <$> st.1)
  /\ Forall (fun n => n ∉ base) (lb_Name <$> st.1).

Lemma add_label_set base st lb : label_set base st -> label_set base (add_label st lb).
Proof.
  intros (Hnd & Htk & Hd). unfold add_label. case_bool_decide as Hin; [done|]. rewrite Htk in Hin. split_and!; cbn [fst snd].
  - rewrite fmap_app. apply NoDup_app. split_and!; [done| |apply NoDup_singleton]. intros n Hn Hn'%list_elem_of_singleton.
    cbn in Hn'. subst. tauto.
  - intros n. rewrite elem_of_union, elem_of_singleton, Htk, fmap_app, elem_of_app. cbn. rewrite list_elem_of_singleton. tauto.
  - rewrite fmap_app. apply Forall_app. split; [done|]. repeat constructor. tauto.
Qed.

Lemma add_labels_set base l st : label_set base st -> label_set base (foldl add_label st l).
Proof. revert st; induction l as [|lb l IH]; intros st Hst; cbn; [done|]. apply IH. by apply add_label_set. Qed.

Lemma add_label_mono st lb : st.1 ⊆ (add_label st lb).1 /\ st.2 ⊆ (add_label st lb).2.
Proof. unfold add_label. case_bool_decide; cbn; [done|]. split; [by apply list_subseteq_app_l|set_solver]. Qed.
Lemma add_labels_mono l st : st.1 ⊆ (foldl add_label st l).1 /\ st.2 ⊆ (foldl add_label st l).2.
Proof.
  revert st; induction l as [|lb l IH]; intros st; cbn; [done|].
  destruct (add_label_mono st lb), (IH (add_label st lb)). split; by etransitivity.
Qed.

Lemma add_labels_taken l st lb : lb ∈ l -> lb_Name lb ∈ (foldl add_label st l).2.
Proof.
  revert st; induction l as [|u l IH]; intros st Hin; [by apply elem_of_nil in Hin|]. cbn.
  apply elem_of_cons in Hin as [<-|Hin]; [|by apply IH]. apply (add_labels_mono l). unfold add_label.
  case_bool_decide; cbn; [done|]. apply elem_of_union_l, elem_of_singleton_2. done.
Qed.

Lemma add_labels_from l st lb : lb ∈ (foldl add_label st l).1 -> lb ∈ st.1 \/ lb ∈ l.
Proof.
  revert st; induction l as [|u l IH]; intros st; cbn; [by left|]. intros [Hin|Hin]%IH; [|right; by constructor].
  unfold add_label in Hin. case_bool_decide; [by left|]. cbn in Hin.
  apply elem_of_app in Hin as [?|Hq%list_elem_of_singleton]; [by left|subst; right; constructor].
Qed.

(** A label whose name is new and used once is kept. *)
Lemma add_labels_unique l st lb : lb ∈ l -> lb_Name lb ∉ st.2 ->
  (length (filter (fun u => lb_Name u = lb_Name lb) l) <= 1)%nat -> lb ∈ (foldl add_label st l).1.
Proof.
  revert st; induction l as [|u l IH]; intros st Hin Hnew Hone; [by apply elem_of_nil in Hin|].
  cbn [foldl]. apply elem_of_cons in Hin as [<-|Hin].
  - apply (add_labels_mono l). unfold add_label. rewrite bool_decide_false by done. cbn.
    apply elem_of_app. right. by apply list_elem_of_singleton.
  - rewrite filter_cons in Hone. case_decide as Hu.
    + assert (lb ∈ filter (fun u => lb_Name u = lb_Name lb) l) as Hf by by apply list_elem_of_filter.
      destruct (filter _ l); [by apply elem_of_nil in Hf|cbn in Hone; lia].
    + apply IH; [done| |done]. unfold add_label. case_bool_decide; [done|]. cbn.
      rewrite elem_of_union, elem_of_singleton. intros [?|?]; [by apply Hu|done].
Qed.

(** ** The labels of an event *)

Section get_labels.
Context `{FloatText} `{MapOrder}.

(** The label value of a value that is not a number. *)
Definition text_of (v : any) : string := match v with AStr s => s | ABool b => format_bool b | _ => "" end.

Lemma tags_label_set tags : label_set ∅ (foldl tag_label ([], ∅) tags).
Proof.
  rewrite tag_labels_add. apply add_labels_set. split_and!; cbn; [constructor| |constructor].
  intros n. rewrite elem_of_empty, elem_of_nil. tauto.
Qed.

Lemma label_name_chars tags lb : lb ∈ (foldl tag_label ([], ∅) tags).1 -> sall name_char (lb_Name lb) = true.
Proof.
  rewrite tag_labels_add. intros [Hin|Hin]%add_labels_from; [by apply elem_of_nil in Hin|].
  apply list_elem_of_fmap in Hin as (kv & -> & _). apply metric_text_chars.
Qed.

Lemma tag_kept tags k v : (k, v) ∈ tags ->
  exists k' v', (k', v') ∈ tags /\ metric_text (path_Base k') = metric_text (path_Base k)
  /\ of_tag (k', v') ∈ (foldl tag_label ([], ∅) tags).1.
Proof.
  intros Hin. pose proof (tags_label_set tags) as (_ & Htk & _). rewrite tag_labels_add in *.
  assert (lb_Name (of_tag (k, v)) ∈ (foldl add_label ([], ∅) (of_tag <$> tags)).2) as Hn.
  { apply add_labels_taken. by apply list_elem_of_fmap_2. }
  apply Htk in Hn as [Hn|Hn]; [by apply elem_of_empty in Hn|]. apply list_elem_of_fmap in Hn as (lb & Hlb & Hin').
  pose proof Hin' as [Hn|Hn]%add_labels_from; [by apply elem_of_nil in Hn|].
  apply list_elem_of_fmap in Hn as ([k' v'] & -> & Hkv). exists k', v'. split_and!; [done| |done]. cbn in Hlb. by rewrite Hlb.
Qed.

Lemma temp_ok_chars t : temp_ok t -> sall name_char (tl_name t) = true.
Proof. intros [_ [->|(_ & _ & ->)]]; apply metric_text_chars. Qed.

Lemma temps_named l n : length (filter (fun u => lb_Name u = n) (of_temp <$> l)) = length (filter (fun u => tl_name u = n) l).
Proof.
  induction l as [|u l IH]; [done|]. cbn [fmap list_fmap]. rewrite !filter_cons. unfold of_temp at 1. cbn [lb_Name].
  destruct (decide (tl_name u = n)); cbn [length]; by rewrite IH.
Qed.

(** The labels made of values: new names, none twice, each value's label is
    there or its longest name is taken. *)
Lemma values_labels (values : gmap string any) (added : gset string) :
  let ls := buildUniqueLabelsFromValues values added in
  NoDup (lb_Name <$> ls) /\ Forall (fun lb => (lb_Name lb ∉ added) /\ sall name_char (lb_Name lb) = true) ls
  /\ forall k v, values !! k = Some v -> toFloat v = None ->
     (exists n, (n = metric_text (path_Base k) \/ exists i, n = labelNameFromPath k i) /\ mkLabel n (text_of v) ∈ ls)
     \/ (let n := labelNameFromPath k (length (path_elems k)) in n ∈ added \/ n ∈ lb_Name <$> ls).
Proof.
  cbv zeta. unfold buildUniqueLabelsFromValues. cbv zeta.
  destruct (resolve_temps values added) as (l & -> & Hsrc & Hok & Hset). cbn [default]. unfold default, from_option, id.
  rewrite keep_labels_add.
  assert (label_set added (foldl add_label ([], added) (of_temp <$> l))) as (Hnd & Htk & Hdj).
  { apply add_labels_set. split_and!; cbn; [constructor| |constructor]. intros n. rewrite elem_of_nil. tauto. }
  split_and!; [done| |].
  - rewrite Forall_forall in Hdj. apply Forall_forall. intros lb Hlb. split; [apply Hdj; by apply list_elem_of_fmap_2|].
    apply add_labels_from in Hlb as [Hlb|Hlb]; [by apply elem_of_nil in Hlb|].
    apply list_elem_of_fmap in Hlb as (t & -> & Ht). rewrite Forall_forall in Hok. by apply temp_ok_chars, Hok.
  - intros k v Hkv Hnum.
    assert (exists t0, t0 ∈ omap temp_label (range values) /\ tl_path t0 = k /\ tl_value t0 = text_of v) as (t0 & Ht0 & Hp & Hv).
    { eexists. split; [|split]; [apply list_elem_of_omap; exists (k, v); split; [by apply elem_of_range|]|..].
      - unfold temp_label. cbn [snd fst]. by rewrite Hnum. - done. - done. }
    apply list_elem_of_lookup in Ht0 as (i & Hi). destruct (Forall2_lookup_l _ _ _ _ _ Hsrc Hi) as (t & Hti & Hsp & Hsv).
    apply list_elem_of_lookup_2 in Hti. rewrite Forall_forall in Hok, Hset.
    rewrite Hp in Hsp. rewrite Hv in Hsv. specialize (Hset t Hti). rewrite <-Hsp in Hset.
    assert (of_temp t ∈ of_temp <$> l) as Hin by by apply list_elem_of_fmap_2.
    destruct (collides added l t) eqn:E.
    + right. rewrite <-Hset by done. apply Htk. by apply (add_labels_taken _ _ (of_temp t)).
    + left. exists (tl_name t). split; [destruct (Hok t Hti) as [_ [->|(_ & _ & ->)]]; rewrite <-Hsp; eauto|].
      rewrite Hsv. apply orb_false_elim in E as [E%Nat.ltb_ge Hna%bool_decide_eq_false].
      apply (add_labels_unique _ _ (of_temp t)); [done|done|]. etransitivity; [|exact E]. apply Nat.eq_le_incl.
      apply temps_named.
Qed.

Lemma GetLabels_lemma (m : MetricBuilder) (ev : EventMsg) :
  let ls := GetLabels m ev in
  NoDup (lb_Name <$> ls) /\ Forall (fun lb => sall name_char (lb_Name lb) = true) ls
  /\ (forall k v, gm_get (ev_Tags ev) k = Some v -> exists k' v', gm_get (ev_Tags ev) k' = Some v'
        /\ metric_text (path_Base k') = metric_text (path_Base k) /\ mkLabel (metric_text (path_Base k)) v' ∈ ls)
  /\ (mb_StringsAsLabels m = true -> forall k v, gm_get (ev_Values ev) k = Some v -> toFloat v = None ->
      (exists n, (n = metric_text (path_Base k) \/ exists i, n = labelNameFromPath k i) /\ mkLabel n (text_of v) ∈ ls)
      \/ labelNameFromPath k (length (path_elems k)) ∈ lb_Name <$> ls).
Proof.
  cbv zeta. unfold GetLabels. pose proof (tags_label_set (range (gm_tab (ev_Tags ev)))) as (Hnd & Htk & _).
  pose proof (label_name_chars (range (gm_tab (ev_Tags ev)))) as Hch. pose proof (tag_kept (range (gm_tab (ev_Tags ev)))) as Hkept.
  destruct (foldl tag_label _ _) as [labels added] eqn:E. cbn [fst snd] in *.
  assert (forall k v, gm_get (ev_Tags ev) k = Some v -> exists k' v', gm_get (ev_Tags ev) k' = Some v'
    /\ metric_text (path_Base k') = metric_text (path_Base k) /\ mkLabel (metric_text (path_Base k)) v' ∈ labels) as Htags.
  { intros k v Hkv. rewrite gm_get_tab in Hkv. apply elem_of_range in Hkv. destruct (Hkept _ _ Hkv) as (k' & v' & Hin & Hn & Hl).
    exists k', v'. rewrite gm_get_tab. split_and!; [by apply elem_of_range|done|]. by rewrite <-Hn. }
  destruct (mb_StringsAsLabels m); [|split_and!; [done|by apply Forall_forall|done|done]].
  destruct (values_labels (gm_tab (ev_Values ev)) added) as (Hnd' & Hnew & Hvals).
  revert Hnd' Hnew Hvals. generalize (buildUniqueLabelsFromValues (gm_tab (ev_Values ev)) added). intros vl Hnd' Hnew Hvals.
  rewrite fmap_app. split_and!.
  - apply NoDup_app. split_and!; [done| |done]. intros n Hn Hn'. apply list_elem_of_fmap in Hn' as (lb & -> & Hlb).
    rewrite Forall_forall in Hnew. destruct (Hnew lb Hlb) as [Hna _]. apply Hna, Htk. by right.
  - apply Forall_app. split; [by apply Forall_forall|]. by eapply Forall_impl; [exact Hnew|intros ? []].
  - intros k v Hkv. destruct (Htags k v Hkv) as (k' & v' & ? & ? & ?). exists k', v'. split_and!; [done|done|]. by apply elem_of_app; left.
  - intros _ k v Hkv Hnum. rewrite gm_get_tab in Hkv. destruct (Hvals k v Hkv Hnum) as [(n & Hn & Hin)|Hn].
    + left. exists n. split; [done|]. by apply elem_of_app; right.
    + right. apply elem_of_app. destruct Hn as [Hn|Hn]; [left|by right]. apply Htk in Hn as [Hn|Hn]; [by apply elem_of_empty in Hn|done].
Qed.
End get_labels.

(** ** Series and their keys

    A series is a name with a set of labels. *)
Definition same_series (p q : PromMetric) : Prop := pm_Name p = pm_Name q /\ pm_labels p ≡ₚ pm_labels q.

(** The names of a metric are over the alphabet and its labels distinct. *)
Definition well_named (p : PromMetric) : Prop :=
  sall name_char (pm_Name p) = true /\ Forall (fun lb => sall name_char (lb_Name lb) = true) (pm_labels p) /\ NoDup (lb_Name <$> pm_labels p).
(** No label value has a colon, which separates the parts of a key. *)
Definition plain_values (p : PromMetric) : Prop := Forall (fun lb => snone ":" (lb_Value lb) = true) (pm_labels p).

Lemma name_no_colon s : sall name_char s = true -> snone ":" s = true.
Proof.
  induction s as [|c s IH]; [done|]. cbn. intros [Hc Hs]%andb_true_iff. rewrite (IH Hs), andb_true_r.
  destruct (Ascii.eqb_spec c ":"); [|done]. by subst.
Qed.

#[local] Instance label_le_trans : Transitive label_le.
Proof. intros a b c. unfold label_le. apply transitivity. Qed.
#[local] Instance label_le_total : Total label_le.
Proof. intros a b. unfold label_le. apply total. apply _. Qed.

Lemma sort_labels_perm l : sort_labels l ≡ₚ l.
Proof. apply merge_sort_Permutation. Qed.

(** Sorted by names that are distinct, the labels are in one order. *)
Lemma sort_labels_det l l' : NoDup (lb_Name <$> l) -> l ≡ₚ l' -> sort_labels l = sort_labels l'.
Proof.
  intros Hnd Hp. unfold sort_labels. apply (Sorted_unique_strong label_le).
  - intros x y. rewrite !merge_sort_Permutation, <-Hp. intros Hx Hy Hxy Hyx.
    assert (lb_Name x = lb_Name y) as Hn by by apply (anti_symm String.le).
    apply list_elem_of_lookup in Hx as (i & Hi), Hy as (j & Hj).
    assert (i = j) as ->; [|congruence]. eapply NoDup_lookup; [exact Hnd|..]; rewrite list_lookup_fmap; [by rewrite Hi|]. by rewrite Hj, Hn.
  - apply (Sorted_merge_sort label_le).
  - apply (Sorted_merge_sort label_le).
  - by rewrite !merge_sort_Permutation.
Qed.

Lemma label_texts_inj l l' :
  Forall (fun lb => snone ":" (lb_Name lb) = true /\ snone ":" (lb_Value lb) = true) l ->
  Forall (fun lb => snone ":" (lb_Name lb) = true /\ snone ":" (lb_Value lb) = true) l' ->
  sjoin "" (map label_text l) = sjoin "" (map label_text l') -> l = l'.
Proof.
  assert (forall lb l, sjoin "" (map label_text (lb :: l)) = lb_Name lb +:+ String ":" (lb_Value lb +:+ String ":" (sjoin "" (map label_text l)))) as Hc.
  { intros lb l0. assert (forall a r, sjoin "" (a :: r) = a +:+ sjoin "" r) as Hj.
    { intros a [|b r]; [by rewrite sapp_nil_r|]. by rewrite sjoin_cons2, sapp_nil_l. }
    cbn [map]. rewrite Hj.
    change (label_text lb) with (lb_Name lb +:+ (":" +:+ (lb_Value lb +:+ ":"))).
    by rewrite !sapp_assoc, !sapp_cons, !sapp_nil_l. }
  intros Hl. revert l'; induction Hl as [|[k v] l [Hk Hv] Hl IH]; intros l' Hl' Heq.
  - destruct Hl' as [|[k' v'] l' _ _]; [done|]. rewrite Hc in Heq. cbn in Heq. by destruct k'.
  - destruct Hl' as [|[k' v'] l' [Hk' Hv'] Hl']; rewrite Hc in Heq; [by destruct k|]. rewrite Hc in Heq. cbn in Heq, Hk, Hv, Hk', Hv'.
    apply cut_inj in Heq as [-> Heq]; [|done..]. apply cut_inj in Heq as [-> Heq]; [|done..]. f_equal. by apply IH.
Qed.

(** The text of a key tells series apart. *)
Lemma key_text_series p q :
  well_named p -> well_named q -> plain_values p -> plain_values q -> key_text p = key_text q <-> same_series p q.
Proof.
  intros (Hp & Hpl & Hpn) (Hq & Hql & Hqn) Hpv Hqv. apply name_no_colon in Hp, Hq.
  assert (Hcol : forall p, Forall (fun lb => sall name_char (lb_Name lb) = true) (pm_labels p) -> plain_values p ->
    Forall (fun lb => snone ":" (lb_Name lb) = true /\ snone ":" (lb_Value lb) = true) (sort_labels (pm_labels p))).
  { intros x Hx Hv. unfold sort_labels. rewrite merge_sort_Permutation. apply Forall_and. split; [|exact Hv].
    eapply Forall_impl; [exact Hx|]. intros lb. apply name_no_colon. }
  unfold key_text. split.
  - intros Heq. destruct (pm_labels p) as [|a l] eqn:Ep, (pm_labels q) as [|b l'] eqn:Eq.
    + rewrite !sapp_nil_r in Heq. by split; rewrite ?Ep, ?Eq.
    + exfalso. rewrite sapp_nil_r in Heq. cbn in Heq. rewrite Heq in Hp. unfold snone in Hp. rewrite sall_app in Hp. by rewrite andb_false_r in Hp.
    + exfalso. rewrite sapp_nil_r in Heq. cbn in Heq. rewrite <-Heq in Hq. unfold snone in Hq. rewrite sall_app in Hq. by rewrite andb_false_r in Hq.
    + rewrite <-Ep, <-Eq in *. cbn [String.append] in Heq. apply cut_inj in Heq as [Hn Heq]; [|done..]. split; [done|].
      apply label_texts_inj in Heq; [|by apply Hcol..].
      etransitivity; [symmetry; apply sort_labels_perm|]. rewrite Heq. apply sort_labels_perm.
  - intros [Hn Hl]. rewrite Hn. f_equal. pose proof (sort_labels_det _ _ Hpn Hl) as Hs.
    destruct (pm_labels p) as [|a l] eqn:Ep, (pm_labels q) as [|b l'] eqn:Eq; [done|by apply Permutation_nil_l in Hl|by symmetry in Hl; apply Permutation_nil_l in Hl|].
    by rewrite Hs.
Qed.

(** FNV maps no two of the metrics' texts to the same key. *)
Definition no_key_collision (ps : list PromMetric) : Prop :=
  forall p q, p ∈ ps -> q ∈ ps -> fnv1a (key_text p) = fnv1a (key_text q) -> key_text p = key_text q.

Lemma key_series ps p q :
  Forall well_named ps -> Forall plain_values ps -> no_key_collision ps -> p ∈ ps -> q ∈ ps ->
  CalculateKey p = CalculateKey q <-> same_series p q.
Proof.
  rewrite !Forall_forall. intros Hw Hv Hc Hp Hq. rewrite <-key_text_series by auto. unfold CalculateKey. split; [by apply Hc|by intros ->].
Qed.

(** ** The stored metrics *)

Definition pm_time (p : PromMetric) : Z := default 0 (pm_Time p).
Definition timed (entries : Entries) : Prop := map_Forall (fun _ p => is_Some (pm_Time p)) entries.

(** The entry of every key is at least as new as [ps] with the key and the entry before. *)
Definition newest (ps : list PromMetric) (entries entries' : Entries) : Prop :=
  forall k, match entries' !! k with
       | None => entries !! k = None /\ Forall (fun p => CalculateKey p <> k) ps
       | Some e => (entries !! k = Some e \/ e ∈ ps /\ CalculateKey e = k)
           /\ (forall e0, entries !! k = Some e0 -> pm_time e0 <= pm_time e)
           /\ Forall (fun p => CalculateKey p = k -> pm_time p <= pm_time e) ps
       end.

Lemma store_timed entries p t : timed entries -> pm_Time p = Some t ->
  exists entries', store_metric entries p = Ok entries' /\ timed entries' /\ newest [p] entries entries'.
Proof.
  intros He Hp. unfold store_metric. rewrite Hp.
  assert (timed (<[CalculateKey p := p]> entries)) as Hin by by apply map_Forall_insert_2.
  destruct (entries !! CalculateKey p) as [e|] eqn:E.
  - destruct (map_Forall_lookup_1 _ _ _ _ He E) as [t' Ht']. rewrite Ht'.
    assert (pm_time p = t /\ pm_time e = t') as [Htp Hte] by by unfold pm_time; rewrite Hp, Ht'.
    destruct (Z.ltb_spec t' t); eexists; split_and!; [done|done| |done|done|]; intros k;
      (destruct (decide (CalculateKey p = k)) as [<-|Hk]; [rewrite ?lookup_insert_eq, ?E|rewrite ?lookup_insert_ne by done]).
    + split_and!; [by right; split; [constructor|]|intros e0 [= <-]; lia|repeat constructor; lia].
    + destruct (entries !! k); [|by repeat constructor]. split_and!; [by left|by intros ? [= ->]|by repeat constructor].
    + split_and!; [by left|by intros ? [= ->]|repeat constructor; lia].
    + destruct (entries !! k); [|by repeat constructor]. split_and!; [by left|by intros ? [= ->]|by repeat constructor].
  - eexists; split_and!; [done|done|]. intros k.
    destruct (decide (CalculateKey p = k)) as [<-|Hk]; [rewrite lookup_insert_eq|rewrite lookup_insert_ne by done].
    + split_and!; [by right; split; [constructor|]|by rewrite E|by repeat constructor].
    + destruct (entries !! k); [|by repeat constructor]. split_and!; [by left|by intros ? [= ->]|by repeat constructor].
Qed.

Lemma newest_cons p ps e0 e1 e2 : newest [p] e0 e1 -> newest ps e1 e2 -> newest (p :: ps) e0 e2.
Proof.
  intros H1 H2 k. specialize (H1 k). specialize (H2 k). destruct (e2 !! k) as [e|].
  - destruct H2 as (Hsrc & Hge & Hps). destruct (e1 !! k) as [e'|] eqn:E1.
    + destruct H1 as (Hsrc' & Hge' & Hp%List.Forall_inv). specialize (Hge e' eq_refl). split_and!.
      * destruct Hsrc as [[= <-]|[Hin Hk]]; [|right; split; [by constructor|done]].
        destruct Hsrc' as [?|[->%list_elem_of_singleton Hk]]; [by left|right; split; [constructor|done]].
      * intros e0' He0. specialize (Hge' _ He0). lia.
      * constructor; [|done]. intros Hk. specialize (Hp Hk). lia.
    + destruct H1 as [H10 Hp%List.Forall_inv]. split_and!.
      * destruct Hsrc as [?|[Hin Hk]]; [done|right; split; [by constructor|done]].
      * intros e0' He0. congruence.
      * by constructor.
  - destruct H2 as [H21 Hps]. rewrite H21 in H1. destruct H1 as [? ?%List.Forall_inv]. split; [done|by constructor].
Qed.

Lemma newest_refl e : newest [] e e.
Proof. intros k. destruct (e !! k); split_and!; try done; [by left|by intros ? [= ->]]. Qed.

Lemma store_all_timed ps entries : timed entries -> Forall (fun p => is_Some (pm_Time p)) ps ->
  exists entries', foldM store_metric ps entries = Ok entries' /\ timed entries' /\ newest ps entries entries'.
Proof.
  intros He Hps. revert entries He; induction Hps as [|p ps [t Ht] _ IH]; intros entries He; cbn [foldM].
  { eexists. split_and!; [done|done|apply newest_refl]. }
  destruct (store_timed entries p t He Ht) as (e1 & Hs & He1 & Hn). rewrite Hs.
  destruct (IH e1 He1) as (e2 & Hf & He2 & Hn2). exists e2. split_and!; [done|done|]. by eapply newest_cons.
Qed.

Lemma metrics_timed `{FloatText} `{MapOrder} m (evs : list (EventMsg * Z)) : mb_ExportTimestamps m = true ->
  Forall (fun p => is_Some (pm_Time p)) (concat (map (fun e => (MetricsFromEvent m e.1 e.2).1) evs)).
Proof.
  intros Hm. apply Forall_concat, Forall_map, Forall_forall. intros [ev now] _. unfold MetricsFromEvent. cbv zeta. cbn [fst].
  apply Forall_forall. intros p (kv & _ & Hp)%list_elem_of_omap. destruct (metric_value m kv.2); [|done].
  cbn in Hp. injection Hp as <-. cbn [pm_Time]. by rewrite Hm.
Qed.

Lemma metrics_well_named `{FloatText} `{MapOrder} m (evs : list (EventMsg * Z)) :
  Forall well_named (concat (map (fun e => (MetricsFromEvent m e.1 e.2).1) evs)).
Proof.
  apply Forall_concat, Forall_map, Forall_forall. intros [ev now] _. unfold MetricsFromEvent. cbv zeta. cbn [fst snd].
  apply Forall_forall. intros p (kv & _ & Hp)%list_elem_of_omap. destruct (metric_value m kv.2); [|done].
  cbn in Hp. injection Hp as <-. destruct (GetLabels_lemma m ev) as (Hnd & Hch & _).
  split; [apply MetricName_chars|]. by split.
Qed.

(** * Properties *)

(** The loop of [buildUniqueLabelsFromValues] that lengthens colliding label
    names ends for every set of values and of names already taken, whatever the
    order of the map; it returns the label of each value, and a name that still
    collides then is that of the whole path of its value. *)
Theorem label_names_resolve `{FloatText} `{MapOrder} (values : gmap string any) (added : gset string) :
  let temps := omap temp_label (range values) in
  exists l, resolve (resolve_fuel temps) added temps = Some l /\ Forall2 same_source temps l
    /\ Forall (fun t => collides added l t = true ->
         tl_name t = labelNameFromPath (tl_path t) (length (path_elems (tl_path t)))) l.
Proof. destruct (resolve_temps values added) as (l & ? & ? & _ & ?). by exists l. Qed.

(** C17: the labels of an event's metrics have distinct names over [a-zA-Z0-9_].
    Every tag has the label of its name, with the value of one of the tags that
    share the name. With [strings-as-labels] a value that is not a number is a
    label too, under a name made of the last elements of its path, unless the
    name made of its whole path is that of another label. *)
Theorem GetLabels_spec `{FloatText} `{MapOrder} (m : MetricBuilder) (ev : EventMsg) :
  let ls := GetLabels m ev in
  NoDup (lb_Name <$> ls) /\ Forall (fun lb => sall name_char (lb_Name lb) = true) ls
  /\ (forall k v, gm_get (ev_Tags ev) k = Some v -> exists k' v', gm_get (ev_Tags ev) k' = Some v'
        /\ metric_text (path_Base k') = metric_text (path_Base k) /\ mkLabel (metric_text (path_Base k)) v' ∈ ls)
  /\ (mb_StringsAsLabels m = true -> forall k v, gm_get (ev_Values ev) k = Some v -> toFloat v = None ->
      (exists n, (n = metric_text (path_Base k) \/ exists i, n = labelNameFromPath k i) /\ mkLabel n (text_of v) ∈ ls)
      \/ labelNameFromPath k (length (path_elems k)) ∈ lb_Name <$> ls).
Proof. apply GetLabels_lemma. Qed.

(** C18: with [export-timestamps] the scrape output keeps the newest metric of
    every series, a series being a name with a set of labels, starting with no
    entries and whatever events it handles, when no label value has a colon and
    FNV-1a has no collision among the metrics of these events. Handling them
    never fails. Every metric has an entry of its series, a metric of the
    series that is at least as new as it; every entry is one of the metrics,
    under its own key, and no two entries are of one series. *)
Theorem scrape_keeps_newest `{FloatText} `{MapOrder} (m : MetricBuilder) (evs : list (EventMsg * Z)) :
  let ps := concat (map (fun e => (MetricsFromEvent m e.1 e.2).1) evs) in
  mb_ExportTimestamps m = true -> Forall plain_values ps -> no_key_collision ps ->
  exists entries, workerHandleEvent m evs ∅ = Ok entries /\
    (forall p, p ∈ ps -> exists k e, entries !! k = Some e /\ same_series e p /\ pm_time p <= pm_time e) /\
    (forall k e, entries !! k = Some e -> e ∈ ps /\ k = CalculateKey e) /\
    (forall k k' e e', entries !! k = Some e -> entries !! k' = Some e' -> same_series e e' -> k = k').
Proof.
  intros ps Hm Hv Hc. destruct (store_all_timed ps ∅) as (entries & Hrun & _ & Hn); [apply map_Forall_empty|by apply metrics_timed|].
  pose proof (metrics_well_named m evs) as Hw. fold ps in Hw.
  assert (forall k e, entries !! k = Some e -> e ∈ ps /\ k = CalculateKey e) as Hin.
  { intros k e He. specialize (Hn k). rewrite He in Hn. destruct Hn as ([Ho|[? ?]] & _); [by rewrite lookup_empty in Ho|done]. }
  exists entries. split; [exact Hrun|]. split; [|split; [done|]].
  - intros p Hp. specialize (Hn (CalculateKey p)). destruct (entries !! CalculateKey p) as [e|] eqn:He.
    + exists (CalculateKey p), e. split; [done|]. destruct (Hin _ _ He) as [Hep Hk]. split; [by apply (key_series ps)|].
      destruct Hn as (_ & _ & Hall). rewrite Forall_forall in Hall. by apply Hall.
    + destruct Hn as [_ Hall]. rewrite Forall_forall in Hall. by destruct (Hall p Hp).
  - intros k k' e e' He He' Hs. destruct (Hin _ _ He) as [Hep ->], (Hin _ _ He') as [Hep' ->]. by apply (key_series ps).
Qed.

(** The same builder with [export-timestamps] set. *)
Definition with_export (b : bool) (m : MetricBuilder) : MetricBuilder :=
  mkBuilder (mb_Prefix m) (mb_AppendSubscriptionName m) (mb_StringsAsLabels m) (mb_OverrideTimestamps m) b.

Lemma head_key `{FloatText} `{MapOrder} (m : MetricBuilder) (ev : EventMsg) (now now' : Z) p ps :
  (MetricsFromEvent (with_export false m) ev now).1 = p :: ps ->
  pm_Time p = None /\ exists p' ps' t, (MetricsFromEvent (with_export true m) ev now').1 = p' :: ps'
    /\ pm_Time p' = Some t /\ CalculateKey p' = CalculateKey p.
Proof.
  unfold MetricsFromEvent. cbv zeta. cbn [fst mb_ExportTimestamps mb_OverrideTimestamps with_export].
  change (metric_value (with_export true m)) with (metric_value m). change (metric_value (with_export false m)) with (metric_value m).
  induction (range (gm_tab (ev_Values ev))) as [|kv l IH]; [done|]. cbn [omap list_omap].
  destruct (metric_value m kv.2) as [v|]; [|exact IH]. cbn [mbind option_bind].
  intros [= <- <-]. split; [done|]. eexists _, _, _. split; [reflexivity|split; reflexivity].
Qed.

(** Enabling [export-timestamps] on a running scrape output crashes it: when
    an event was stored without a time, the next metric of its first series
    compares its time with the missing one of the entry, and the process stops. *)
Theorem export_switch_panics `{FloatText} `{MapOrder} (m : MetricBuilder) (ev : EventMsg) (now now' : Z)
    (p : PromMetric) (ps : list PromMetric) (entries : Entries)
    (Hp : (MetricsFromEvent (with_export false m) ev now).1 = p :: ps) (He : entries !! CalculateKey p = Some p) :
  workerHandleEvent (with_export true m) [(ev, now')] entries = Panic.
Proof.
  destruct (head_key m ev now now' p ps Hp) as (Hnone & p' & ps' & t & Hps & Ht & Hk).
  unfold workerHandleEvent. cbn [map concat fst snd]. rewrite Hps. cbn [app foldM].
  assert (store_metric entries p' = Panic) as -> by (unfold store_metric; by rewrite Hk, He, Ht, Hnone). done.
Qed.

(** ** Concrete events *)

Section examples.
#[local] Existing Instance order_fwd.
#[local] Existing Instance float_text_none.

Definition port_event (t : Z) : EventMsg :=
  mkEvent "sub1" t (Some {[ "interface_name" := "e1" ]}) (Some {[ "/interfaces/interface/state/in-octets" := AInt KInt64 7 ]}) None.
Definition builder0 : MetricBuilder := mkBuilder "gnmic" true true false true.

(** Two strings that end with the same element get the names of their paths. *)
Example labels_lengthened :
  map (fun l => (lb_Name l, lb_Value l)) (buildUniqueLabelsFromValues {[ "/a/state/name" := AStr "x"; "/b/state/name" := AStr "y" ]} {[ "name" ]})
  ≡ₚ [("a_state_name", "x"); ("b_state_name", "y")].
Proof. vm_compute. repeat constructor. Qed.

(** Colons in a value make the keys of different series equal. *)
Example key_collision :
  let series labels := mkMetric "m" None 0 labels (f64_of_Z 1) in
  CalculateKey (series [mkLabel "a" "b:c:d"]) = CalculateKey (series [mkLabel "a" "b"; mkLabel "c" "d"]).
Proof. vm_compute. reflexivity. Qed.

(** A metric name that starts with a digit. *)
Example digit_name : MetricName (mkBuilder "" false true false false) "sub1" "/64bit/counter" = "64bit_counter".
Proof. reflexivity. Qed.

End examples.

(** Two metrics of one port, the older one handled last, and one of another. *)
Definition other_port (t : Z) : EventMsg :=
  mkEvent "sub1" t (Some {[ "interface_name" := "e2" ]}) (Some {[ "/interfaces/interface/state/in-octets" := AInt KInt64 9 ]}) None.
Definition three_events : list (EventMsg * Z) := [(port_event 5000000, 0); (other_port 2000000, 1); (port_event 3000000, 2)].

Lemma scrape_keeps_newest_witness :
  exists entries, @workerHandleEvent float_text_none order_fwd builder0 three_events ∅ = Ok entries /\ size entries = 2%nat /\
    forall p, p ∈ concat (map (fun e => (@MetricsFromEvent float_text_none order_fwd builder0 e.1 e.2).1) three_events) ->
      exists k e, entries !! k = Some e /\ same_series e p /\ pm_time p <= pm_time e.
Proof.
  destruct (@scrape_keeps_newest float_text_none order_fwd builder0 three_events) as (entries & Hrun & Hall & _).
  - reflexivity.
  - apply (bool_decide_unpack _). vm_compute. exact I.
  - set (ps := concat _). assert (Hd : Forall (fun p => Forall (fun q => fnv1a (key_text p) = fnv1a (key_text q) -> key_text p = key_text q) ps) ps)
      by (apply (bool_decide_unpack _); vm_compute; exact I).
    intros p q Hp Hq. rewrite Forall_forall in Hd. specialize (Hd p Hp). cbn beta in Hd. rewrite Forall_forall in Hd. by apply Hd.
  - exists entries. split; [exact Hrun|]. split; [|exact Hall]. clear Hall. vm_compute in Hrun. injection Hrun as <-. vm_compute. reflexivity.
Defined.

Definition stored_untimed : PromMetric :=
  List.hd (mkMetric "" None 0 [] (f64_of_Z 0)) (@MetricsFromEvent float_text_none order_fwd (with_export false builder0) (port_event 1) 9).1.

Lemma export_switch_panics_witness :
  let stored := {[ CalculateKey stored_untimed := stored_untimed ]} in
  @workerHandleEvent float_text_none order_fwd (with_export false builder0) [(port_event 1, 9)] ∅ = Ok stored
  /\ @workerHandleEvent float_text_none order_fwd (with_export true builder0) [(port_event 1, 10)] stored = Panic.
Proof.
  cbv zeta. split; [vm_compute; reflexivity|].
  apply (@export_switch_panics float_text_none order_fwd builder0 (port_event 1) 9 10 stored_untimed []); [vm_compute; reflexivity|].
  apply lookup_singleton_eq.
Defined.
