(* ===== verification/Otlp.v ===== *)
(** * The OTLP output (pkg/outputs/otlp_output)

    The conversion of events into an export request (otlp_converter.go), its
    validation, and the configuration and the retry policy of a batch
    (otlp_output.go, otlp_http.go). The transports themselves, gRPC and HTTP,
    are parameters: an attempt to export has an outcome. *)

From Stdlib Require Import Floats.SpecFloat.
From stdpp Require Import strings.
From S2P Require Import Prelude GoStrings Utf8 GoVal Text Event Processor Filters Convert.

#[local] Open Scope Z_scope.

(** ** Requests *)

(** Attribute values are strings. *)
Definition KeyValue : Type := string * string.

Inductive dp_value := AsInt (z : Z) | AsDouble (f : spec_float).
Record NumberDataPoint := mkDP { dp_Attributes : list KeyValue; dp_TimeUnixNano : Z; dp_Value : option dp_value }.

(** [None] is a nil pointer. *)
Inductive metric_data :=
| Metric_Gauge (points : option (list NumberDataPoint))
| Metric_Sum (points : option (list NumberDataPoint))
| Metric_Histogram | Metric_ExponentialHistogram | Metric_Summary.

Record Metric := mkOtlpMetric { m_Name : string; m_Data : option metric_data }.
Record ScopeMetrics := mkScope { sm_Scope : option string; sm_Metrics : list Metric }.
Record ResourceMetrics := mkRM { rm_Resource : option (list KeyValue); rm_ScopeMetrics : list ScopeMetrics }.
Definition request : Type := list ResourceMetrics.

(** ** Configuration *)

Record otlp_config := mkOtlpConfig {
  oc_Name : string; oc_Endpoint : string; oc_Protocol : string; oc_Timeout : Z;
  oc_BatchSize : Z; oc_Interval : Z; oc_BufferSize : Z; oc_Compression : string; oc_MaxRetries : Z;
  oc_MetricPrefix : string; oc_AppendSubscriptionName : bool; oc_StringsAsAttributes : bool;
  oc_StripLeadingUnderscore : bool; oc_ResourceTagKeys : list string; oc_CounterPatterns : list string;
  oc_ResourceAttributes : gmap string string; oc_NumWorkers : Z;
  oc_resourceTagSet : gset string; oc_counterRegexes : list Regexp
}.

Definition ms : Z := 1000000.
Definition second : Z := 1000 * ms.
Definition defaultTimeout : Z := 10 * second.
Definition defaultBatchSize : Z := 1000.
Definition defaultNumWorkers : Z := 1.
Definition defaultMaxRetries : Z := 3.
Definition maxRetryAfter : Z := 30 * second.

Definition or_default (x d : Z) : Z := if x =? 0 then d else x.
Definition str_default (x d : string) : string := if String.eqb x "" then d else x.

(** [uuid] is the fresh part of a generated name. *)
Definition setDefaultsFor (uuid : string) (c : otlp_config) : otlp_config :=
  let batch := or_default (oc_BatchSize c) defaultBatchSize in
  let protocol := str_default (oc_Protocol c) "grpc" in
  mkOtlpConfig (str_default (oc_Name c) ("gnmic-otlp-" +:+ uuid)) (oc_Endpoint c) protocol
    (or_default (oc_Timeout c) defaultTimeout) batch (or_default (oc_Interval c) (5 * second))
    (or_default (oc_BufferSize c) (wrap KInt (batch * 2)))
    (if String.eqb protocol "http" && String.eqb (oc_Compression c) "" then "gzip" else oc_Compression c)
    (or_default (oc_MaxRetries c) defaultMaxRetries)
    (oc_MetricPrefix c) (oc_AppendSubscriptionName c) (oc_StringsAsAttributes c) (oc_StripLeadingUnderscore c)
    (oc_ResourceTagKeys c) (oc_CounterPatterns c) (oc_ResourceAttributes c)
    (or_default (oc_NumWorkers c) defaultNumWorkers)
    (list_to_set (oc_ResourceTagKeys c)) (oc_counterRegexes c).

Inductive config_error :=
| errProtocol | errCompression | errEndpoint | errTimeout | errBatchSize | errInterval | errBufferSize
| errNumWorkers | errMaxRetries | errPattern.

Definition with_regexes (res : list Regexp) (c : otlp_config) : otlp_config :=
  mkOtlpConfig (oc_Name c) (oc_Endpoint c) (oc_Protocol c) (oc_Timeout c) (oc_BatchSize c) (oc_Interval c) (oc_BufferSize c)
    (oc_Compression c) (oc_MaxRetries c) (oc_MetricPrefix c) (oc_AppendSubscriptionName c) (oc_StringsAsAttributes c)
    (oc_StripLeadingUnderscore c) (oc_ResourceTagKeys c) (oc_CounterPatterns c) (oc_ResourceAttributes c) (oc_NumWorkers c)
    (oc_resourceTagSet c) res.

Definition compile_counter `{RegexpPkg} (p : string) : go config_error Regexp :=
  match regexp_Compile p with Some re => Ok re | None => Err errPattern end.

Definition validateConfig `{RegexpPkg} (c : otlp_config) : go config_error otlp_config :=
  if negb (String.eqb (oc_Protocol c) "grpc" || String.eqb (oc_Protocol c) "http") then Err errProtocol
  else if negb (String.eqb (oc_Compression c) "" || String.eqb (oc_Compression c) "none" || String.eqb (oc_Compression c) "gzip") then Err errCompression
  else if String.eqb (oc_Endpoint c) "" then Err errEndpoint
  else if oc_Timeout c <=? 0 then Err errTimeout
  else if oc_BatchSize c <=? 0 then Err errBatchSize
  else if oc_Interval c <=? 0 then Err errInterval
  else if oc_BufferSize c <=? 0 then Err errBufferSize
  else if oc_NumWorkers c <=? 0 then Err errNumWorkers
  else if oc_MaxRetries c <? 0 then Err errMaxRetries
  else res ← mapE compile_counter (oc_CounterPatterns c); Ok (with_regexes res c).

(** What an update has to restart ([None] is a nil configuration). *)
Definition channelNeedsSwap (old nw : option otlp_config) : bool :=
  match old, nw with Some o, Some n => negb (oc_BufferSize o =? oc_BufferSize n) | _, _ => true end.
Definition needsWorkerRestart (old nw : option otlp_config) : bool :=
  match old, nw with
  | Some o, Some n => negb (oc_NumWorkers o =? oc_NumWorkers n) || negb (oc_BatchSize o =? oc_BatchSize n)
                      || negb (oc_Interval o =? oc_Interval n)
  | _, _ => true
  end.

(** ** Conversion *)

Section converter.
Context `{FloatText} `{MapOrder}.
Implicit Types (c : otlp_config) (ev : EventMsg) (attrs : list KeyValue) (divergent : gset string).

Definition tag_or_empty ev (k : string) : string := default "" (gm_get (ev_Tags ev) k).

Definition resource_key ev : string :=
  let key := tag_or_empty ev "device" in
  let key := if String.eqb key "" then tag_or_empty ev "target" else key in
  let key := if String.eqb key "" then tag_or_empty ev "source" else key in
  if String.eqb key "" then "unknown" else key.

Definition add_to_group (groups : gmap string (list EventMsg)) ev : gmap string (list EventMsg) :=
  <[resource_key ev := default [] (groups !! resource_key ev) ++ [ev]]> groups.
Definition groupByResource (events : list EventMsg) : gmap string (list EventMsg) := foldl add_to_group ∅ events.

(** The value of a tag in a group, if an event has it, and whether another
    event has another one. *)
Fixpoint scan_tag (key : string) (chosen : option string) (evs : list EventMsg) : option string * bool :=
  match evs with
  | [] => (chosen, false)
  | ev :: evs =>
      match gm_get (ev_Tags ev) key, chosen with
      | None, _ => scan_tag key chosen evs
      | Some v, None => scan_tag key (Some v) evs
      | Some v, Some w => if String.eqb v w then scan_tag key chosen evs else (chosen, true)
      end
  end.

Definition promote (evs : list EventMsg) (st : list KeyValue * gset string) (key : string) : list KeyValue * gset string :=
  match scan_tag key None evs with
  | (None, _) => st
  | (Some v, false) => (st.1 ++ [(key, v)], st.2)
  | (Some _, true) => (st.1, {[key]} ∪ st.2)
  end.

Definition createResource c (groupedEvents : list EventMsg) : list KeyValue * gset string :=
  let '(attrs, divergent) := foldl (promote groupedEvents) ([], ∅) (oc_ResourceTagKeys c) in
  (attrs ++ range (oc_ResourceAttributes c), divergent).

Definition buildMetricName c ev (valueKey : string) : string :=
  let path := if oc_StripLeadingUnderscore c
              then match valueKey with String "/" t => t | _ => valueKey end else valueKey in
  replace_byte "-" "_"
    ((if String.eqb (oc_MetricPrefix c) "" then "" else oc_MetricPrefix c +:+ "_")
     +:+ ((if oc_AppendSubscriptionName c then ev_Name ev +:+ "_" else "") +:+ replace_byte "/" "_" path)).

Definition on_datapoint c divergent (key : string) : bool :=
  negb (bool_decide (key ∈ oc_resourceTagSet c) && negb (bool_decide (key ∈ divergent))).
Definition extractAttributesForMetric c divergent ev : list KeyValue :=
  filter (fun kv => on_datapoint c divergent kv.1 = true) (range (gm_tab (ev_Tags ev))).

Definition isCounter c (valueName : string) : bool := existsb (fun re => MatchString re valueName) (oc_counterRegexes c).

(** The number of a value; [None] is an unsupported type. *)
Definition number_of (v : any) : option dp_value :=
  match v with
  | AInt KInt z | AInt KInt32 z | AInt KInt64 z => Some (AsInt z)
  | AInt KUint z | AInt KUint32 z => Some (AsInt (int64 z))
  | AInt KUint64 z => Some (if 9223372036854775807 <? z then AsDouble (f64_of_Z z) else AsInt (int64 z))
  | AF32 f => Some (AsDouble (f64_of_f32 f))
  | AF64 f => Some (AsDouble f)
  | AStr s => AsDouble <$> ParseFloat s
  | ABool b => Some (AsInt (if b then 1 else 0))
  | _ => None
  end.

Definition createNumberDataPointWithValue ev attrs (value : any) : option NumberDataPoint :=
  x ← number_of value; Some (mkDP attrs (uint64 (ev_Timestamp ev)) (Some x)).

Definition createGaugeWithString ev attrs (strVal : string) : list NumberDataPoint :=
  [mkDP (attrs ++ [("value", strVal)]) (uint64 (ev_Timestamp ev)) (Some (AsDouble (f64_of_Z 1)))].

(** One value of an event: a metric, or nothing. *)
Definition value_metric c ev attrs (kv : string * any) : option Metric :=
  match kv.2 with
  | AStr s => if oc_StringsAsAttributes c
              then Some (mkOtlpMetric (buildMetricName c ev kv.1) (Some (Metric_Gauge (Some (createGaugeWithString ev attrs s)))))
              else None
  | v => dp ← createNumberDataPointWithValue ev attrs v;
         Some (mkOtlpMetric (buildMetricName c ev kv.1)
           (Some (if isCounter c kv.1 then Metric_Sum (Some [dp]) else Metric_Gauge (Some [dp]))))
  end.

Definition convertEventToMetrics c divergent ev : list Metric :=
  omap (value_metric c ev (extractAttributesForMetric c divergent ev)) (range (gm_tab (ev_Values ev))).

(** The metrics of one group; a group without metrics is left out. *)
Definition convert_group c (groupedEvents : list EventMsg) : option ResourceMetrics :=
  let '(resource, divergent) := createResource c groupedEvents in
  match concat (map (convertEventToMetrics c divergent) groupedEvents) with
  | [] => None
  | metrics => Some (mkRM (Some resource) [mkScope (Some "gNMIc") metrics])
  end.

Definition convertToOTLP c (events : list EventMsg) : request :=
  omap (fun g : string * list EventMsg => convert_group c g.2) (range (groupByResource events)).
End converter.

(** ** Validation *)

Inductive request_error :=
| errEmpty | errNoResource (i : nat) | errNoScopes (i : nat) | errNoScope (j : nat) | errNoMetrics (j : nat)
| errNoName (k : nat) | errNoData (k : nat) | errNilData (i j k : nat) | errNoPoints (i j k : nat)
| errZeroTime (i j k d : nat) | errNilValue (i j k d : nat).

(** A loop with its index that stops at the first error. *)
Fixpoint each {A} (f : nat -> A -> go request_error unit) (n : nat) (l : list A) : go request_error unit :=
  match l with
  | [] => Ok tt
  | x :: l => _ ← f n x; each f (S n) l
  end.

Definition validate_point (i j k d : nat) (p : NumberDataPoint) : go request_error unit :=
  if dp_TimeUnixNano p =? 0 then Err (errZeroTime i j k d)
  else match dp_Value p with None => Err (errNilValue i j k d) | Some _ => Ok tt end.

Definition validate_points (i j k : nat) (points : option (list NumberDataPoint)) : go request_error unit :=
  match points with
  | None => Err (errNilData i j k)
  | Some [] => Err (errNoPoints i j k)
  | Some l => each (validate_point i j k) 0 l
  end.

Definition validateMetricData (i j k : nat) (d : metric_data) : go request_error unit :=
  match d with
  | Metric_Gauge points | Metric_Sum points => validate_points i j k points
  | _ => Ok tt
  end.

Definition validate_metric (i j k : nat) (m : Metric) : go request_error unit :=
  if String.eqb (m_Name m) "" then Err (errNoName k)
  else match m_Data m with None => Err (errNoData k) | Some d => validateMetricData i j k d end.

Definition validate_scope (i j : nat) (sm : ScopeMetrics) : go request_error unit :=
  match sm_Scope sm, sm_Metrics sm with
  | None, _ => Err (errNoScope j)
  | Some _, [] => Err (errNoMetrics j)
  | Some _, ms => each (validate_metric i j) 0 ms
  end.

Definition validate_resource (i : nat) (rm : ResourceMetrics) : go request_error unit :=
  match rm_Resource rm, rm_ScopeMetrics rm with
  | None, _ => Err (errNoResource i)
  | Some _, [] => Err (errNoScopes i)
  | Some _, sms => each (validate_scope i) 0 sms
  end.

Definition validateRequest (req : request) : go request_error unit :=
  match req with [] => Err errEmpty | _ => each validate_resource 0 req end.

(** * Lemmas *)

Section converter_lemmas.
Context `{FloatText} `{MapOrder}.
Implicit Types (c : otlp_config) (ev : EventMsg).

Lemma groupByResource_lookup events k :
  groupByResource events !! k =
  match filter (fun ev => resource_key ev = k) events with [] => None | l => Some l end.
Proof.
  unfold groupByResource. induction events as [|ev events IH] using rev_ind; [apply lookup_empty|].
  rewrite foldl_snoc, filter_app, filter_cons. unfold add_to_group at 1.
  destruct (decide (resource_key ev = k)) as [<-|Hk].
  - rewrite lookup_insert_eq, IH. by destruct (filter _ events).
  - rewrite lookup_insert_ne, IH by done. cbn. by rewrite app_nil_r.
Qed.

Lemma elem_of_group events k l : groupByResource events !! k = Some l ->
  l = filter (fun ev => resource_key ev = k) events.
Proof. rewrite groupByResource_lookup. by destruct (filter _ events); intros [= <-]. Qed.

Lemma scan_tag_agrees key evs chosen r : scan_tag key chosen evs = (r, false) ->
  (forall ev, ev ∈ evs -> gm_get (ev_Tags ev) key = None \/ gm_get (ev_Tags ev) key = r) /\ (is_Some chosen -> r = chosen).
Proof.
  revert chosen; induction evs as [|ev evs IH]; intros chosen; cbn.
  - intros [= <-]. split; [|done]. intros ? Hin. by apply elem_of_nil in Hin.
  - destruct (gm_get (ev_Tags ev) key) as [v|] eqn:Hv.
    + assert (forall ch, ch = Some v -> scan_tag key ch evs = (r, false) ->
        (forall ev', ev' ∈ ev :: evs -> gm_get (ev_Tags ev') key = None \/ gm_get (ev_Tags ev') key = r) /\ r = ch) as Hgo.
      { intros ch -> Hs. destruct (IH _ Hs) as [Hall Hr]. specialize (Hr (mk_is_Some _ _ eq_refl)). split; [|done].
        intros ev' [->|Hin]%elem_of_cons; [right; congruence|by apply Hall]. }
      destruct chosen as [w|].
      * destruct (String.eqb_spec v w) as [<-|]; [|done]. intros Hs. by destruct (Hgo _ eq_refl Hs) as [? ->].
      * intros Hs. destruct (Hgo _ eq_refl Hs) as [? ->]. split; [done|by intros []].
    + intros Hs. destruct (IH _ Hs) as [Hall Hr]. split; [|done].
      intros ev' [->|Hin]%elem_of_cons; [by left|by apply Hall].
Qed.

Lemma scan_tag_none key evs b : scan_tag key None evs = (None, b) -> forall ev, ev ∈ evs -> gm_get (ev_Tags ev) key = None.
Proof.
  assert (forall evs w r b, scan_tag key (Some w) evs = (r, b) -> r = Some w) as Hsome.
  { clear. induction evs as [|ev evs IH]; intros w r b; cbn; [by intros [= <- <-]|].
    destruct (gm_get (ev_Tags ev) key) as [v|]; [destruct (String.eqb v w)|]; [apply IH|by intros [= <- <-]|apply IH]. }
  induction evs as [|ev evs IH]; cbn; intros Hs ev' Hin; [by apply elem_of_nil in Hin|].
  destruct (gm_get (ev_Tags ev) key) as [v|] eqn:Hv; [by apply Hsome in Hs|].
  apply elem_of_cons in Hin as [->|Hin]; [done|by apply IH].
Qed.

Lemma promote_attrs evs keys st kv : kv ∈ (foldl (promote evs) st keys).1 <->
  kv ∈ st.1 \/ kv.1 ∈ keys /\ scan_tag kv.1 None evs = (Some kv.2, false).
Proof.
  revert st; induction keys as [|key keys IH]; intros st; cbn [foldl]; [rewrite elem_of_nil; tauto|].
  rewrite IH, elem_of_cons. unfold promote at 1.
  destruct (scan_tag key None evs) as [[v|] []] eqn:Hs; cbn [fst]; rewrite ?elem_of_app, ?list_elem_of_singleton; destruct kv as [k w]; cbn;
    (split; [intros [?|[? ?]]|intros [?|[[->|?] ?]]]; try tauto); naive_solver congruence.
Qed.

Lemma promote_divergent evs keys st k : k ∈ (foldl (promote evs) st keys).2 <->
  k ∈ st.2 \/ k ∈ keys /\ exists v, scan_tag k None evs = (Some v, true).
Proof.
  revert st; induction keys as [|key keys IH]; intros st; cbn [foldl]; [rewrite elem_of_nil; naive_solver|].
  rewrite IH, elem_of_cons. unfold promote at 1.
  destruct (scan_tag key None evs) as [[v|] []] eqn:Hs; cbn [snd]; rewrite ?elem_of_union, ?elem_of_singleton; naive_solver congruence.
Qed.
End converter_lemmas.

Section converted.
Context `{FloatText} `{MapOrder}.
Implicit Types (c : otlp_config) (ev : EventMsg).

Definition rm_metrics (rm : ResourceMetrics) : list Metric := concat (map sm_Metrics (rm_ScopeMetrics rm)).
Definition rm_attrs (rm : ResourceMetrics) : list KeyValue := default [] (rm_Resource rm).

(** The points of a metric. *)
Definition points (m : Metric) : list NumberDataPoint :=
  match m_Data m with Some (Metric_Gauge (Some l)) | Some (Metric_Sum (Some l)) => l | _ => [] end.

(** The number exported for a value and the attribute it adds, if it is exported at all. *)
Definition exported c (v : any) : option (dp_value * list KeyValue) :=
  match v with
  | AStr s => if oc_StringsAsAttributes c then Some (AsDouble (f64_of_Z 1), [("value", s)]) else None
  | _ => x ← number_of v; Some (x, [])
  end.

(** [m] is the metric of the value [v] of [ev] at [k], next to the resource [res]. *)
Definition metric_of c ev (res : list KeyValue) (k : string) (v : any) (m : Metric) : Prop :=
  m_Name m = buildMetricName c ev k /\
  exists p x extra, exported c v = Some (x, extra) /\ points m = [p]
    /\ dp_TimeUnixNano p = uint64 (ev_Timestamp ev) /\ dp_Value p = Some x
    /\ (forall t tv, gm_get (ev_Tags ev) t = Some tv -> (t, tv) ∈ dp_Attributes p \/ (t, tv) ∈ res)
    /\ (forall t tv, (t, tv) ∈ dp_Attributes p -> gm_get (ev_Tags ev) t = Some tv \/ (t, tv) ∈ extra)
    /\ (forall t tv, (t, tv) ∈ res -> gm_get (ev_Tags ev) t = Some tv \/ gm_get (ev_Tags ev) t = None
                     \/ oc_ResourceAttributes c !! t = Some tv).

Lemma value_metric_points c ev attrs k v :
  match value_metric c ev attrs (k, v), exported c v with
  | None, None => True
  | Some m, Some (x, extra) => m_Name m = buildMetricName c ev k
      /\ points m = [mkDP (attrs ++ extra) (uint64 (ev_Timestamp ev)) (Some x)]
  | _, _ => False
  end.
Proof.
  unfold value_metric, exported, createNumberDataPointWithValue, createGaugeWithString, points. cbn [fst snd].
  assert (forall o : option dp_value, match (dp ← (x ← o; Some (mkDP attrs (uint64 (ev_Timestamp ev)) (Some x)));
         Some (mkOtlpMetric (buildMetricName c ev k) (Some (if isCounter c k then Metric_Sum (Some [dp]) else Metric_Gauge (Some [dp]))))),
      (x ← o; Some (x, [] : list KeyValue)) with
    | None, None => True
    | Some m, Some (x, extra) => m_Name m = buildMetricName c ev k
      /\ match m_Data m with Some (Metric_Gauge (Some l)) | Some (Metric_Sum (Some l)) => l | _ => [] end
         = [mkDP (attrs ++ extra) (uint64 (ev_Timestamp ev)) (Some x)]
    | _, _ => False end) as Hnum.
  { intros [x|]; cbn; [|done]. rewrite app_nil_r. by destruct (isCounter c k). }
  destruct v; try apply Hnum. destruct (oc_StringsAsAttributes c); done.
Qed.

Lemma createResource_spec c evs (keys_ok : oc_resourceTagSet c = list_to_set (oc_ResourceTagKeys c)) res divergent :
  createResource c evs = (res, divergent) -> forall ev, ev ∈ evs ->
  (forall t tv, gm_get (ev_Tags ev) t = Some tv -> on_datapoint c divergent t = true \/ (t, tv) ∈ res)
  /\ (forall t tv, (t, tv) ∈ res -> gm_get (ev_Tags ev) t = Some tv \/ gm_get (ev_Tags ev) t = None
                     \/ oc_ResourceAttributes c !! t = Some tv).
Proof.
  unfold createResource. pose proof (promote_attrs evs (oc_ResourceTagKeys c) ([], ∅)) as Ha.
  pose proof (promote_divergent evs (oc_ResourceTagKeys c) ([], ∅)) as Hd.
  destruct (foldl _ _ _) as [attrs dv]. cbn [fst snd] in *. intros [= <- <-] ev Hev. split.
  - intros t tv Ht. unfold on_datapoint. rewrite keys_ok. case_bool_decide as Hk; [|by left]. apply elem_of_list_to_set in Hk.
    cbn [andb]. rewrite negb_involutive. destruct (scan_tag t None evs) as [[v|] b] eqn:Hs.
    + destruct b; [left; apply bool_decide_eq_true, Hd; right; split; [done|by exists v]|].
      right. apply elem_of_app. left. apply Ha. right. cbn [fst snd]. split; [done|]. rewrite Hs.
      apply scan_tag_agrees in Hs as [Hall _]. destruct (Hall ev Hev) as [E|E]; congruence.
    + by rewrite (scan_tag_none _ _ _ Hs ev Hev) in Ht.
  - intros t tv Hin. apply elem_of_app in Hin as [Hin|Hin].
    + apply Ha in Hin as [Hin|[_ Hs]]; [by apply elem_of_nil in Hin|]. cbn [fst snd] in Hs.
      apply scan_tag_agrees in Hs as [Hall _]. destruct (Hall ev Hev); tauto.
    + apply elem_of_range in Hin. tauto.
Qed.

Lemma metric_of_event c evs res divergent ev k v m :
  oc_resourceTagSet c = list_to_set (oc_ResourceTagKeys c) ->
  createResource c evs = (res, divergent) -> ev ∈ evs ->
  value_metric c ev (extractAttributesForMetric c divergent ev) (k, v) = Some m -> metric_of c ev res k v m.
Proof.
  intros Hk Hr Hev Hm. pose proof (value_metric_points c ev (extractAttributesForMetric c divergent ev) k v) as Hp.
  rewrite Hm in Hp. destruct (exported c v) as [[x extra]|] eqn:Hx; [|done]. destruct Hp as [Hn Hp].
  destruct (createResource_spec c evs Hk res divergent Hr ev Hev) as [Htags Hres].
  split; [done|]. eexists _, x, extra. split; [done|]. split; [exact Hp|]. cbn [dp_TimeUnixNano dp_Value dp_Attributes].
  split_and!; [done|done| | |done].
  - intros t tv Ht. destruct (Htags t tv Ht) as [Hon|?]; [left|by right]. apply elem_of_app. left.
    unfold extractAttributesForMetric. apply list_elem_of_filter. split; [done|]. apply elem_of_range. by rewrite <-gm_get_tab.
  - intros t tv Hin. apply elem_of_app in Hin as [Hin|?]; [left|by right].
    unfold extractAttributesForMetric in Hin. apply list_elem_of_filter in Hin as [_ Hin]. apply elem_of_range in Hin. by rewrite gm_get_tab.
Qed.

Lemma convert_group_spec c evs rm : convert_group c evs = Some rm ->
  exists res divergent, createResource c evs = (res, divergent) /\ rm_Resource rm = Some res
    /\ rm_metrics rm = concat (map (convertEventToMetrics c divergent) evs) /\ rm_metrics rm <> []
    /\ rm_ScopeMetrics rm = [mkScope (Some "gNMIc") (rm_metrics rm)].
Proof.
  unfold convert_group. destruct (createResource c evs) as [res divergent]. exists res, divergent.
  destruct (concat _) as [|m ms]; [done|]. injection H1 as <-. unfold rm_metrics. cbn. rewrite app_nil_r. by split_and!.
Qed.

Lemma convertToOTLP_elem c events rm : rm ∈ convertToOTLP c events <->
  exists key, let evs := filter (fun ev => resource_key ev = key) events in evs <> [] /\ convert_group c evs = Some rm.
Proof.
  unfold convertToOTLP. rewrite list_elem_of_omap. split.
  - intros ([key evs] & Hin & Hg). apply elem_of_range in Hin. exists key. cbv zeta. rewrite <-(elem_of_group _ _ _ Hin). split; [|done].
    rewrite groupByResource_lookup in Hin. by destruct (filter _ events); [|injection Hin as <-].
  - intros (key & Hne & Hg). exists (key, filter (fun ev => resource_key ev = key) events). split; [|done].
    apply elem_of_range. rewrite groupByResource_lookup. by destruct (filter _ events).
Qed.

Lemma convert_lemma c events (keys_ok : oc_resourceTagSet c = list_to_set (oc_ResourceTagKeys c)) :
  (forall rm m, rm ∈ convertToOTLP c events -> m ∈ rm_metrics rm ->
     exists ev k v, ev ∈ events /\ gm_get (ev_Values ev) k = Some v /\ metric_of c ev (rm_attrs rm) k v m)
  /\ (forall ev k v, ev ∈ events -> gm_get (ev_Values ev) k = Some v -> is_Some (exported c v) ->
     exists rm m, rm ∈ convertToOTLP c events /\ m ∈ rm_metrics rm /\ metric_of c ev (rm_attrs rm) k v m).
Proof.
  split.
  - intros rm m Hrm Hm. apply convertToOTLP_elem in Hrm as (key & Hne & Hg).
    destruct (convert_group_spec _ _ _ Hg) as (res & divergent & Hr & Hres & Hms & _). rewrite Hms in Hm.
    apply list_elem_of_In, in_concat in Hm as (l & Hl & Hm). apply in_map_iff in Hl as (ev & <- & Hev).
    apply list_elem_of_In in Hev, Hm. unfold convertEventToMetrics in Hm. apply list_elem_of_omap in Hm as ([k v] & Hkv & Hm).
    apply elem_of_range in Hkv. exists ev, k, v. split_and!; [by apply list_elem_of_filter in Hev as []|by rewrite gm_get_tab|].
    unfold rm_attrs. rewrite Hres. by eapply metric_of_event.
  - intros ev k v Hev Hkv [[x extra] Hx]. set (evs := filter (fun e => resource_key e = resource_key ev) events).
    assert (ev ∈ evs) as Hin by by apply list_elem_of_filter.
    destruct (createResource c evs) as [res divergent] eqn:Hr.
    pose proof (value_metric_points c ev (extractAttributesForMetric c divergent ev) k v) as Hp. rewrite Hx in Hp.
    destruct (value_metric c ev _ (k, v)) as [m|] eqn:Hm; [|done].
    assert (m ∈ concat (map (convertEventToMetrics c divergent) evs)) as Hmin.
    { apply list_elem_of_In, in_concat. exists (convertEventToMetrics c divergent ev). split; [by apply in_map, list_elem_of_In|].
      apply list_elem_of_In, list_elem_of_omap. exists (k, v). split; [|done]. apply elem_of_range. by rewrite <-gm_get_tab. }
    destruct (convert_group c evs) as [rm|] eqn:Hg; [|unfold convert_group in Hg; rewrite Hr in Hg; destruct (concat _); [by apply elem_of_nil in Hmin|done]].
    destruct (convert_group_spec _ _ _ Hg) as (res' & divergent' & Hr' & Hres & Hms & _). rewrite Hr in Hr'. injection Hr' as <- <-.
    exists rm, m. split_and!.
    + apply convertToOTLP_elem. exists (resource_key ev). split; [|done]. intros E. fold evs in E. rewrite E in Hin. by apply elem_of_nil in Hin.
    + by rewrite Hms.
    + unfold rm_attrs. rewrite Hres. by eapply metric_of_event.
Qed.
End converted.

(** ** Which requests are valid *)

Lemma each_ok {A} (f : nat -> A -> go request_error unit) (P : A -> Prop) n l :
  (forall i x, f i x = Ok tt <-> P x) -> each f n l = Ok tt <-> Forall P l.
Proof.
  intros Hf. revert n; induction l as [|x l IH]; intros n; cbn [each]; [done|]. rewrite Forall_cons, <-(Hf n x), <-(IH (S n)).
  destruct (f n x) as [[]| |]; cbn; [tauto|split; [done|by intros []]..].
Qed.

(** What validation asks of a metric that has data points. *)
Definition valid_point (p : NumberDataPoint) : Prop := dp_TimeUnixNano p <> 0 /\ is_Some (dp_Value p).

Lemma validate_points_ok i j k l : validate_points i j k (Some l) = Ok tt <-> l <> [] /\ Forall valid_point l.
Proof.
  unfold validate_points. destruct l as [|p l]; [split; [done|by intros [? _]]|].
  rewrite (each_ok _ valid_point); [|intros d q; unfold validate_point, valid_point;
    destruct (Z.eqb_spec (dp_TimeUnixNano q) 0), (dp_Value q); split; try done; try tauto; by intros [? []]].
  split; [done|by intros []].
Qed.

Section valid.
Context `{FloatText} `{MapOrder}.
Implicit Types (c : otlp_config) (ev : EventMsg).

Lemma metric_of_valid c ev res k v m i j n : metric_of c ev res k v m ->
  m_Data m <> None -> (forall ps, m_Data m = Some (Metric_Gauge ps) \/ m_Data m = Some (Metric_Sum ps) -> ps <> None) ->
  validate_metric i j n m = Ok tt <-> buildMetricName c ev k <> "" /\ uint64 (ev_Timestamp ev) <> 0.
Proof.
  intros (Hn & p & x & extra & _ & Hp & Ht & Hv & _) Hd Hnil. unfold validate_metric, points in *. rewrite Hn.
  destruct (String.eqb_spec (buildMetricName c ev k) "") as [E|E]; [split; [done|tauto]|].
  assert (Forall valid_point [p] <-> uint64 (ev_Timestamp ev) <> 0) as Hvp.
  { rewrite <-Ht. split; [by intros [[]]%Forall_cons|]. intros ?. repeat constructor; [done|by rewrite Hv]. }
  destruct (m_Data m) as [[ps|ps| | |]|]; try done; (destruct ps as [ps|]; [|by destruct (Hnil None); auto]); subst ps;
    cbn [validateMetricData]; rewrite validate_points_ok, Hvp; split; [by intros [_ ?]|by intros [_ ?]|by intros [_ ?]|by intros [_ ?]].
Qed.

Lemma value_metric_data c ev attrs kv m : value_metric c ev attrs kv = Some m ->
  exists p, m_Data m = Some (Metric_Gauge (Some [p])) \/ m_Data m = Some (Metric_Sum (Some [p])).
Proof.
  unfold value_metric, createNumberDataPointWithValue, createGaugeWithString. destruct kv as [k v]. cbn [fst snd].
  destruct v; cbn; try done; try destruct (oc_StringsAsAttributes c); try done;
    repeat match goal with |- context [match ?x with _ => _ end] => destruct x; cbn; try done end; intros [= <-]; eauto.
Qed.

(** A metric of a converted request is valid when its event has a time and its name is not empty. *)
Lemma converted_metric c events rm m ev res k v i j n :
  rm ∈ convertToOTLP c events -> m ∈ rm_metrics rm -> metric_of c ev res k v m ->
  validate_metric i j n m = Ok tt <-> buildMetricName c ev k <> "" /\ uint64 (ev_Timestamp ev) <> 0.
Proof.
  intros Hrm Hm Hmo. apply convertToOTLP_elem in Hrm as (key & _ & Hg).
  destruct (convert_group_spec _ _ _ Hg) as (res' & dv & _ & _ & Hms & _).
  rewrite Hms in Hm. apply list_elem_of_In, in_concat in Hm as (l & Hl & Hm). apply in_map_iff in Hl as (ev' & <- & _).
  apply list_elem_of_In, list_elem_of_omap in Hm as (kv & _ & Hm). destruct (value_metric_data _ _ _ _ _ Hm) as (p & Hd).
  eapply metric_of_valid; [exact Hmo|by destruct Hd as [-> | ->]|]. intros ps. destruct Hd as [-> | ->]; by intros [[= <-]|[= <-]].
Qed.

Lemma validate_converted c events :
  validateRequest (convertToOTLP c events) = Ok tt <->
  convertToOTLP c events <> [] /\ forall rm m, rm ∈ convertToOTLP c events -> m ∈ rm_metrics rm -> validate_metric 0 0 0 m = Ok tt.
Proof.
  assert (forall i j n m, validate_metric i j n m = Ok tt <-> validate_metric 0 0 0 m = Ok tt) as Hidx.
  { intros i j n m. unfold validate_metric. destruct (String.eqb _ _); [done|]. destruct (m_Data m) as [d|]; [|done].
    destruct d as [[ps|]|[ps|]| | |]; cbn [validateMetricData]; rewrite ?validate_points_ok; done. }
  assert (forall rm, rm ∈ convertToOTLP c events -> forall i, validate_resource i rm = Ok tt <->
    forall m, m ∈ rm_metrics rm -> validate_metric 0 0 0 m = Ok tt) as Hrm.
  { intros rm Hin i. apply convertToOTLP_elem in Hin as (key & _ & Hg).
    destruct (convert_group_spec _ _ _ Hg) as (res & dv & _ & Hres & _ & Hne & Hsm). unfold validate_resource. rewrite Hres, Hsm.
    cbn [each]. unfold validate_scope. cbn [sm_Scope sm_Metrics]. destruct (rm_metrics rm) as [|m ms] eqn:E; [done|].
    rewrite <-Forall_forall, <-(each_ok (validate_metric i 0) (fun m => validate_metric 0 0 0 m = Ok tt) 0 (m :: ms)) by (intros; apply Hidx).
    destruct (each _ _ _) as [[]| |]; done. }
  unfold validateRequest. revert Hrm. destruct (convertToOTLP c events) as [|rm0 rms]; intros Hrm; [split; [done|by intros []]|].
  assert (forall n, each validate_resource n (rm0 :: rms) = Ok tt <->
    forall rm, rm ∈ rm0 :: rms -> forall m, m ∈ rm_metrics rm -> validate_metric 0 0 0 m = Ok tt) as ->.
  { generalize (rm0 :: rms) as l, Hrm. clear. induction l as [|rm l IH]; intros Hrm n; cbn [each].
    - split; [|done]. intros _ rm Hin. by apply elem_of_nil in Hin.
    - specialize (IH (fun r Hr => Hrm r (list_elem_of_further _ _ _ Hr)) (S n)).
      pose proof (Hrm rm (list_elem_of_here _ _) n) as Hr. destruct (validate_resource n rm) as [[]| |] eqn:E; cbn [mbind go_bind].
      + rewrite IH. split; [|intros Hall r Hin; apply Hall; by constructor].
        intros Hall r [->|Hin]%elem_of_cons; [by apply Hr|by apply Hall].
      + split; [done|]. intros Hall. apply Hr. intros m Hm. apply (Hall rm); [constructor|done].
      + split; [done|]. intros Hall. apply Hr. intros m Hm. apply (Hall rm); [constructor|done]. }
  split; [intros Hall; split; [done|intros rm m Hin; by apply Hall]|intros [_ Hall] rm Hin m; by apply Hall].
Qed.

Lemma validate_lemma c events (keys_ok : oc_resourceTagSet c = list_to_set (oc_ResourceTagKeys c)) :
  validateRequest (convertToOTLP c events) = Ok tt <->
  (exists ev k v, ev ∈ events /\ gm_get (ev_Values ev) k = Some v /\ is_Some (exported c v))
  /\ forall ev k v, ev ∈ events -> gm_get (ev_Values ev) k = Some v -> is_Some (exported c v) ->
       buildMetricName c ev k <> "" /\ uint64 (ev_Timestamp ev) <> 0.
Proof.
  rewrite validate_converted. destruct (convert_lemma c events keys_ok) as [Hsound Hcompl]. split.
  - intros [Hne Hall]. split.
    + destruct (convertToOTLP c events) as [|rm rms] eqn:E; [done|]. clear Hne Hall Hcompl.
      assert (rm ∈ convertToOTLP c events) as Hrm by (rewrite E; constructor).
      pose proof Hrm as (key & _ & Hg)%convertToOTLP_elem. destruct (convert_group_spec _ _ _ Hg) as (? & ? & _ & _ & _ & Hne & _).
      destruct (rm_metrics rm) as [|m ms] eqn:Em; [done|].
      destruct (Hsound rm m) as (ev & k & v & ? & ? & (_ & p & x1 & extra1 & Hx1 & _)); [constructor|rewrite Em; constructor|].
      exists ev, k, v. split_and!; [done|done|by eexists].
    + intros ev k v Hev Hkv Hx. destruct (Hcompl ev k v Hev Hkv Hx) as (rm & m & Hrm & Hm & Hmo).
      apply (converted_metric c events rm m ev (rm_attrs rm) k v 0 0 0); [done..|]. by apply (Hall rm).
  - intros [(ev & k & v & Hev & Hkv & Hx) Hall]. split.
    + destruct (Hcompl ev k v Hev Hkv Hx) as (rm & m & Hrm & _). intros E. rewrite E in Hrm. by apply elem_of_nil in Hrm.
    + intros rm m Hrm Hm. destruct (Hsound rm m Hrm Hm) as (ev' & k' & v' & Hev' & Hkv' & Hmo).
      apply (converted_metric c events rm m ev' (rm_attrs rm) k' v' 0 0 0); [done..|]. apply (Hall ev' k' v'); [done..|].
      destruct Hmo as (_ & p & x' & extra & Hx' & _). by eexists.
Qed.
End valid.

(** ** Delivery *)

(** What the collector, or the network, answers to one attempt. [rejected] is
    the count of a partial success, 0 without one; an HTTP reply has a status,
    the [Retry-After] header and a body that is empty, malformed or a response. *)
Inductive http_body := EmptyBody | Malformed | Response (rejected : Z).
Inductive reply :=
| GrpcError | GrpcOk (rejected : Z)
| HttpError | HttpReply (status : Z) (retry_after : string) (body : http_body).

Inductive send_error :=
| errNoClient | errInvalid (e : request_error) | errMarshal | errTransport
| errHttp (status retryAfter : Z) | errPartial (rejected : Z) | errUnsupported | errCancelled.

(** The outside of a batch: the answer and the time of each attempt, dates of
    headers, the random part of a backoff, cancellation during the sleep after
    an attempt, and whether the request can be marshalled (it cannot when a
    string is not UTF-8). *)
Class Collector : Type := {
  answer : nat -> reply;
  now_at : nat -> Z;
  http_date : string -> option Z;
  jitter : nat -> Z -> Z;
  cancelled : nat -> bool;
  marshals : request -> bool
}.
(** The documentation of [rand.Int64N]. *)
Class JitterSpec `{Collector} : Prop := jitter_range : forall i n, 0 < n -> 0 <= jitter i n < n.

Section delivery.
Context `{Collector}.

Definition isPermanentHTTPError (e : send_error) : bool :=
  match e with
  | errHttp s _ => negb ((s =? 429) || (s =? 502) || (s =? 503) || (s =? 504))
  | _ => false
  end.
Definition isPartialSuccessError (e : send_error) : bool := match e with errPartial _ => true | _ => false end.

(** [t.Sub(now)] saturates. *)
Definition sub_time (t now : Z) : Z := Z.max (kind_min KInt64) (Z.min (kind_max KInt64) (t - now)).

Definition parseRetryAfter (h : string) (now : Z) : Z :=
  let h := trim_space h in
  if String.eqb h "" then 0
  else
    let date := match http_date h with
                | Some t => let d := sub_time t now in if d <? 0 then 0 else d
                | None => 0
                end in
    match atoi h with
    | Some secs => if 0 <=? secs then int64 (secs * second) else date
    | None => date
    end.

Definition retryAfterFromError (e : send_error) : Z := match e with errHttp _ d => d | _ => 0 end.

Definition effectiveRetrySleep (protocol : string) (attempt : nat) (retryAfter maxSleep : Z) : Z :=
  let http := String.eqb protocol "http" in
  if http && (0 <? retryAfter) then Z.min retryAfter maxSleep
  else if negb http then int64 (int64 (Z.of_nat attempt + 1) * 100 * ms)
  else
    let base := int64 (2 ^ Z.min (Z.of_nat attempt) 30 * 100 * ms) in
    let base := if (base <=? 0) || (maxSleep <? base) then maxSleep else base in
    jitter attempt base.

Definition sendGRPC (r : reply) (client : bool) (req : request) : go send_error unit :=
  if negb client then Err errNoClient
  else match validateRequest req with
  | Ok _ => match r with
            | GrpcOk rejected => if 0 <? rejected then Err (errPartial rejected) else Ok tt
            | _ => Err errTransport
            end
  | Err e => Err (errInvalid e)
  | Panic => Panic
  end.

Definition sendHTTP (r : reply) (now : Z) (client : bool) (req : request) : go send_error unit :=
  if negb client then Err errNoClient
  else match validateRequest req with
  | Ok _ =>
      if negb (marshals req) then Err errMarshal
      else match r with
      | HttpReply status retry body =>
          if Z.quot status 100 =? 2 then
            match body with
            | Response rejected => if 0 <? rejected then Err (errPartial rejected) else Ok tt
            | _ => Ok tt
            end
          else Err (errHttp status (parseRetryAfter retry now))
      | _ => Err errTransport
      end
  | Err e => Err (errInvalid e)
  | Panic => Panic
  end.

(** One attempt of a batch. *)
Definition attempt_result (c : otlp_config) (grpc_client http_client : bool) (req : request) (attempt : nat) : go send_error unit :=
  if String.eqb (oc_Protocol c) "grpc" then sendGRPC (answer attempt) grpc_client req
  else if String.eqb (oc_Protocol c) "http" then sendHTTP (answer attempt) (now_at attempt) http_client req
  else Err errUnsupported.

(** A failure with the last error, nil when no attempt was made. *)
Inductive batch_end := Sent | Failed (e : option send_error).
Record batch_run := mkRun { br_end : batch_end; br_attempts : nat; br_sleeps : list Z }.

(** The loop, from [attempt] with [more] attempts to go after it; [sleeps] are those done. *)
Fixpoint send_loop (c : otlp_config) (result : nat -> go send_error unit) (more attempt : nat) (sleeps : list Z) : go send_error batch_run :=
  let stop e := Ok (mkRun (Failed (Some e)) (S attempt) sleeps) in
  match result attempt with
  | Panic => Panic
  | Ok _ => Ok (mkRun Sent (S attempt) sleeps)
  | Err e =>
      if isPartialSuccessError e then Ok (mkRun Sent (S attempt) sleeps)
      else if match e with errUnsupported => true | _ => false end || isPermanentHTTPError e then stop e
      else match more with
      | O => stop e
      | S more =>
          let sleep := effectiveRetrySleep (oc_Protocol c) attempt (retryAfterFromError e) maxRetryAfter in
          if cancelled attempt then Ok (mkRun (Failed (Some errCancelled)) (S attempt) (sleeps ++ [sleep]))
          else send_loop c result more (S attempt) (sleeps ++ [sleep])
      end
  end.

(** [None]: an empty batch is not sent. *)
Definition sendBatch `{FloatText} `{MapOrder} (c : otlp_config) (grpc_client http_client : bool) (events : list EventMsg)
    : option (go send_error batch_run) :=
  match events with
  | [] => None
  | _ => let req := convertToOTLP c events in
         Some (if oc_MaxRetries c <? 0 then Ok (mkRun (Failed None) 0 [])
               else send_loop c (attempt_result c grpc_client http_client req) (Z.to_nat (oc_MaxRetries c)) 0 [])
  end.
End delivery.

(** ** The retry loop *)

Lemma each_no_panic {A} (f : nat -> A -> go request_error unit) n l : (forall i x, f i x <> Panic) -> each f n l <> Panic.
Proof.
  intros Hf. revert n; induction l as [|x l IH]; intros n; cbn [each]; [done|]. specialize (Hf n x). specialize (IH (S n)).
  by destruct (f n x).
Qed.

Lemma validateRequest_no_panic req : validateRequest req <> Panic.
Proof.
  assert (forall i j k ps, validate_points i j k ps <> Panic) as Hps.
  { intros i j k [[|p ps]|]; cbn [validate_points]; [done| |done]. apply each_no_panic. intros d q. unfold validate_point.
    destruct (Z.eqb _ _); [done|]. by destruct (dp_Value q). }
  unfold validateRequest. destruct req as [|rm rms]; [done|]. apply each_no_panic. intros i r. unfold validate_resource.
  destruct (rm_Resource r); [|done]. destruct (rm_ScopeMetrics r) as [|sm sms]; [done|]. apply each_no_panic. intros j s.
  unfold validate_scope. destruct (sm_Scope s); [|done]. destruct (sm_Metrics s) as [|m ms]; [done|]. apply each_no_panic. intros k x.
  unfold validate_metric. destruct (String.eqb _ _); [done|]. destruct (m_Data x) as [[ps|ps| | |]|]; try done; apply Hps.
Qed.

Section retrying.
Context `{Collector}.
Implicit Types (c : otlp_config) (e : send_error).

(** The collector has the data: retrying would duplicate it. *)
Definition delivered (r : go send_error unit) : Prop := r = Ok tt \/ exists n, r = Err (errPartial n).
Definition is_final e : bool := match e with errUnsupported => true | _ => false end || isPermanentHTTPError e.
Definition retryable (r : go send_error unit) : Prop := exists e, r = Err e /\ isPartialSuccessError e = false /\ is_final e = false.

(** The end of a loop that may make the attempts before [bound]. *)
Definition run_ok (result : nat -> go send_error unit) (attempt bound : nat) (run : batch_run) : Prop :=
  (attempt < br_attempts run <= bound)%nat
  /\ (forall j, (attempt <= j)%nat -> (S j < br_attempts run)%nat -> retryable (result j) /\ cancelled j = false)
  /\ let last := result (pred (br_attempts run)) in
     match br_end run with
     | Sent => delivered last
     | Failed None => False
     | Failed (Some e) => ~ delivered last /\
         (last = Err e /\ (is_final e = true \/ br_attempts run = bound) \/ e = errCancelled /\ cancelled (pred (br_attempts run)) = true)
     end.

(** A run that ends at its first attempt. *)
Lemma run_stops result attempt bound b sleeps : (attempt < bound)%nat ->
  match b with
  | Sent => delivered (result attempt)
  | Failed None => False
  | Failed (Some e) => ~ delivered (result attempt) /\
      (result attempt = Err e /\ (is_final e = true \/ S attempt = bound) \/ e = errCancelled /\ cancelled attempt = true)
  end -> run_ok result attempt bound (mkRun b (S attempt) sleeps).
Proof. intros Hb Hend. unfold run_ok. cbn [br_attempts br_end pred]. split_and!; [lia|lia| |exact Hend]. intros j ? ?. lia. Qed.

Lemma send_loop_spec c result more attempt sleeps : (forall i, result i <> Panic) ->
  exists run, send_loop c result more attempt sleeps = Ok run /\ run_ok result attempt (S (attempt + more)) run.
Proof.
  intros Hnp. revert attempt sleeps; induction more as [|more IH]; intros attempt sleeps; cbn [send_loop]; specialize (Hnp attempt) as Hna.
  all: destruct (result attempt) as [[]|e|] eqn:Hr; [|fold (is_final e)|done].
  1, 3: eexists; split; [done|]; apply run_stops; [lia|by left].
  all: destruct (isPartialSuccessError e) eqn:Hp;
    [destruct e; try done; eexists; split; [done|]; apply run_stops; [lia|right; by eexists]|].
  all: assert (~ delivered (result attempt)) as Hnd by (rewrite Hr; intros [|[n [= ->]]]; done).
  all: destruct (is_final e) eqn:Hf; [eexists; split; [done|]; apply run_stops; [lia|]; split; [done|left; by auto]|].
  { eexists; split; [done|]. apply run_stops; [lia|]. split; [done|]. left. split; [done|]. right. lia. }
  destruct (cancelled attempt) eqn:Hc; [eexists; split; [done|]; apply run_stops; [lia|]; split; [done|by right]|].
  destruct (IH (S attempt) (sleeps ++ [effectiveRetrySleep (oc_Protocol c) attempt (retryAfterFromError e) maxRetryAfter]))
    as (run & Hrun & Hok). exists run. split; [exact Hrun|]. destruct Hok as (Hb & Hj & Hlast).
  replace (S attempt + more)%nat with (attempt + S more)%nat in * by lia. split_and!; [lia|lia| |exact Hlast].
  intros j Hle Hlt. destruct (decide (j = attempt)) as [->|]; [split; [by exists e|done]|apply Hj; lia].
Qed.

Lemma attempt_no_panic c g h req i : attempt_result c g h req i <> Panic.
Proof.
  unfold attempt_result, sendGRPC, sendHTTP. pose proof (validateRequest_no_panic req) as Hv.
  destruct (String.eqb _ _); [|destruct (String.eqb _ _); [|done]]; (destruct (negb _); [done|]); destruct (validateRequest req); try done.
  - destruct (answer i); try done. by destruct (_ <? _).
  - destruct (negb (marshals req)); [done|]. destruct (answer i) as [| | |s t b]; try done. destruct (_ =? _); [|done].
    destruct b; try done. by destruct (_ <? _).
Qed.

(** The sleeps of an HTTP batch are bounded whatever the collector answers. *)
Lemma http_sleep `{!JitterSpec} attempt retryAfter :
  0 <= effectiveRetrySleep "http" attempt retryAfter maxRetryAfter <= maxRetryAfter.
Proof.
  unfold effectiveRetrySleep. cbn [String.eqb Ascii.eqb Bool.eqb negb andb]. change (String.eqb "http" "http") with true. cbn [andb negb].
  unfold maxRetryAfter, second, ms in *. destruct (Z.ltb_spec 0 retryAfter); [lia|].
  set (base := int64 _). destruct (Z.leb_spec base 0); cbn [orb].
  - pose proof (jitter_range attempt (30 * (1000 * 1000000)) ltac:(lia)). lia.
  - destruct (Z.ltb_spec (30 * (1000 * 1000000)) base); [pose proof (jitter_range attempt (30 * (1000 * 1000000)) ltac:(lia)); lia|].
    pose proof (jitter_range attempt base ltac:(lia)). lia.
Qed.

Lemma send_loop_sleeps `{!JitterSpec} c result more attempt sleeps run : oc_Protocol c = "http" ->
  Forall (fun s => 0 <= s <= maxRetryAfter) sleeps -> send_loop c result more attempt sleeps = Ok run ->
  Forall (fun s => 0 <= s <= maxRetryAfter) (br_sleeps run).
Proof.
  intros Hp. revert attempt sleeps; induction more as [|more IH]; intros attempt sleeps Hs; cbn [send_loop].
  all: destruct (result attempt) as [|e|]; [intros [= <-]; exact Hs| |done].
  all: destruct (isPartialSuccessError e); [intros [= <-]; exact Hs|].
  all: destruct (_ || _); [intros [= <-]; exact Hs|].
  - intros [= <-]; exact Hs.
  - rewrite Hp. assert (forall d, Forall (fun s => 0 <= s <= maxRetryAfter) (sleeps ++ [effectiveRetrySleep "http" attempt d maxRetryAfter])) as Hs'.
    { intros d. apply Forall_app. split; [done|]. repeat constructor; apply http_sleep. }
    destruct (cancelled attempt); [intros [= <-]; apply Hs'|]. apply IH, Hs'.
Qed.

(** An error that is never final is retried to the end. *)
Lemma send_loop_fails c result more attempt sleeps e :
  (forall i, result i = Err e) -> (forall i, cancelled i = false) -> isPartialSuccessError e = false -> is_final e = false ->
  exists sl, send_loop c result more attempt sleeps = Ok (mkRun (Failed (Some e)) (S (attempt + more)) sl) /\ length sl = (length sleeps + more)%nat.
Proof.
  intros Hr Hc Hp Hf. revert attempt sleeps; induction more as [|more IH]; intros attempt sleeps; cbn [send_loop]; rewrite Hr, Hp; fold (is_final e); rewrite Hf.
  - exists sleeps. rewrite !Nat.add_0_r. done.
  - rewrite Hc. destruct (IH (S attempt) (sleeps ++ [effectiveRetrySleep (oc_Protocol c) attempt (retryAfterFromError e) maxRetryAfter])) as (sl & -> & Hl).
    exists sl. split; [do 2 f_equal; lia|]. rewrite Hl, length_app. cbn. lia.
Qed.
End retrying.

(** ** The worker *)

(** What a worker receives: an event, a tick of the interval, or the end,
    cancellation or the closing of the channel. *)
Inductive input := Event (ev : EventMsg) | Tick | Done.

(** The batches the worker sends, from a batch being filled. The flush at the
    end is the same call with a context of its own. *)
Fixpoint worker (c : otlp_config) (batch : list EventMsg) (inputs : list input) : list (list EventMsg) :=
  match inputs with
  | [] => []
  | Event ev :: inputs =>
      let batch := batch ++ [ev] in
      if oc_BatchSize c <=? Z.of_nat (length batch) then batch :: worker c [] inputs else worker c batch inputs
  | Tick :: inputs => match batch with [] => worker c [] inputs | _ => batch :: worker c [] inputs end
  | Done :: _ => match batch with [] => [] | _ => [batch] end
  end.

Fixpoint received (inputs : list input) : list EventMsg :=
  match inputs with
  | [] => []
  | Event ev :: inputs => ev :: received inputs
  | Tick :: inputs => received inputs
  | Done :: _ => []
  end.

Lemma worker_lemma c batch inputs : 0 < oc_BatchSize c -> Z.of_nat (length batch) < oc_BatchSize c -> Done ∈ inputs ->
  concat (worker c batch inputs) = batch ++ received inputs
  /\ Forall (fun b => 0 < Z.of_nat (length b) <= oc_BatchSize c) (worker c batch inputs).
Proof.
  intros Hpos. revert batch; induction inputs as [|[ev| |] inputs IH]; intros batch Hlen Hin; [by apply elem_of_nil in Hin|..].
  - apply elem_of_cons in Hin as [?|Hin]; [done|]. cbn [worker received]. cbv zeta. rewrite length_app in *. cbn [length].
    destruct (Z.leb_spec (oc_BatchSize c) (Z.of_nat (length batch + 1))).
    + destruct (IH [] ltac:(cbn; lia) Hin) as [Hc Hf]. cbn [concat]. rewrite Hc, <-app_assoc. split; [done|].
      constructor; [rewrite length_app; cbn; lia|done].
    + destruct (IH (batch ++ [ev])) as [Hc Hf]; [rewrite length_app; cbn; lia|done|]. rewrite Hc, <-app_assoc. by split.
  - apply elem_of_cons in Hin as [?|Hin]; [done|]. cbn [worker received]. destruct batch as [|b batch]; [by apply IH|].
    destruct (IH [] ltac:(cbn; lia) Hin) as [Hc Hf]. cbn [concat]. rewrite Hc. split; [done|]. constructor; [cbn in *; lia|done].
  - cbn [worker received]. destruct batch as [|b batch]; [split; [done|constructor]|]. cbn [concat]. rewrite !app_nil_r. split; [done|].
    repeat constructor; cbn in *; lia.
Qed.

(** What validation of the configuration guarantees. *)
Lemma validateConfig_ok `{RegexpPkg} c c' : validateConfig c = Ok c' ->
  (oc_Protocol c' = "grpc" \/ oc_Protocol c' = "http") /\ 0 < oc_Timeout c' /\ 0 < oc_BatchSize c' /\ 0 < oc_Interval c'
  /\ 0 < oc_BufferSize c' /\ 0 < oc_NumWorkers c' /\ 0 <= oc_MaxRetries c'
  /\ oc_ResourceTagKeys c' = oc_ResourceTagKeys c /\ oc_resourceTagSet c' = oc_resourceTagSet c.
Proof.
  unfold validateConfig. destruct (negb (_ || String.eqb (oc_Protocol c) "http")) eqn:Hp; [done|].
  destruct (negb (_ || String.eqb (oc_Compression c) "gzip")); [done|]. destruct (String.eqb (oc_Endpoint c) ""); [done|].
  destruct (Z.leb_spec (oc_Timeout c) 0); [done|]. destruct (Z.leb_spec (oc_BatchSize c) 0); [done|].
  destruct (Z.leb_spec (oc_Interval c) 0); [done|]. destruct (Z.leb_spec (oc_BufferSize c) 0); [done|].
  destruct (Z.leb_spec (oc_NumWorkers c) 0); [done|]. destruct (Z.ltb_spec (oc_MaxRetries c) 0); [done|].
  intros (res & _ & Hc)%bind_ok. injection Hc as <-. cbn [with_regexes oc_Protocol oc_Timeout oc_BatchSize oc_Interval oc_BufferSize
    oc_NumWorkers oc_MaxRetries oc_ResourceTagKeys oc_resourceTagSet]. split_and!; try done.
  apply negb_false_iff, orb_prop in Hp as [Hp|Hp]; apply String.eqb_eq in Hp; [by left|by right].
Qed.

(** * Properties *)

(** C19: converting events for the collector keeps every event, value and tag.
    Each metric of the request is that of a value of an event: its name, its
    number, its time, and all tags of the event, each on the data point or on
    the resource, with the event's own value; a tag of the resource never
    contradicts an event of the group unless it is a configured attribute. And
    each value that can be exported has such a metric. *)
Theorem otlp_keeps_events `{FloatText} `{MapOrder} (uuid : string) (c0 : otlp_config) (events : list EventMsg) :
  let c := setDefaultsFor uuid c0 in
  (forall rm m, rm ∈ convertToOTLP c events -> m ∈ rm_metrics rm ->
     exists ev k v, ev ∈ events /\ gm_get (ev_Values ev) k = Some v /\ metric_of c ev (rm_attrs rm) k v m)
  /\ (forall ev k v, ev ∈ events -> gm_get (ev_Values ev) k = Some v -> is_Some (exported c v) ->
     exists rm m, rm ∈ convertToOTLP c events /\ m ∈ rm_metrics rm /\ metric_of c ev (rm_attrs rm) k v m).
Proof. by apply convert_lemma. Qed.

(** The request of a batch passes validation exactly when some value of its
    events is exported and every exported value has a time other than 0 and a
    name: one event without a time makes the whole batch invalid. *)
Theorem otlp_request_valid `{FloatText} `{MapOrder} (uuid : string) (c0 : otlp_config) (events : list EventMsg) :
  let c := setDefaultsFor uuid c0 in
  validateRequest (convertToOTLP c events) = Ok tt <->
  (exists ev k v, ev ∈ events /\ gm_get (ev_Values ev) k = Some v /\ is_Some (exported c v))
  /\ forall ev k v, ev ∈ events -> gm_get (ev_Values ev) k = Some v -> is_Some (exported c v) ->
       buildMetricName c ev k <> "" /\ uint64 (ev_Timestamp ev) <> 0.
Proof. by apply validate_lemma. Qed.

(** C20: sending a batch ends within [max-retries] attempts after the first.
    It goes on only after an error that may be retried, so it never sends again
    what the collector took, also in part; it counts the batch as sent exactly
    when its last attempt was delivered, and otherwise stopped for a permanent
    error, for its last attempt, or because it was cancelled. Over HTTP no sleep
    between attempts exceeds [maxRetryAfter], whatever [Retry-After] says. *)
Theorem sendBatch_spec `{!Collector} `{!JitterSpec} `{RegexpPkg} `{FloatText} `{MapOrder} (c0 c : otlp_config) (g h : bool) (events : list EventMsg)
    (Hev : events <> []) (Hc : validateConfig c0 = Ok c) :
  exists run, sendBatch c g h events = Some (Ok run)
    /\ run_ok (attempt_result c g h (convertToOTLP c events)) 0 (S (Z.to_nat (oc_MaxRetries c))) run
    /\ (oc_Protocol c = "http" -> Forall (fun s => 0 <= s <= maxRetryAfter) (br_sleeps run)).
Proof.
  apply validateConfig_ok in Hc as (_ & _ & _ & _ & _ & _ & Hr & _).
  destruct (send_loop_spec c (attempt_result c g h (convertToOTLP c events)) (Z.to_nat (oc_MaxRetries c)) 0 [])
    as (run & Hrun & Hok); [intros i; apply attempt_no_panic|].
  exists run. unfold sendBatch. destruct events; [done|]. destruct (Z.ltb_spec (oc_MaxRetries c) 0); [lia|]. rewrite Hrun.
  split_and!; [done|done|]. intros Hp. by eapply send_loop_sleeps; [..|exact Hrun].
Qed.

(** A batch in which no value can be exported is never sent, and never
    dropped either: it fails validation, is retried [max-retries] times with a
    sleep before each, and is then counted as failed. *)
Theorem unexportable_batch_retried `{!Collector} `{FloatText} `{MapOrder} (uuid : string) (c0 : otlp_config) (h : bool) (events : list EventMsg)
    (Hev : events <> []) (Hp : oc_Protocol c0 = "grpc") (Hr : 0 <= oc_MaxRetries (setDefaultsFor uuid c0))
    (Hnone : forall ev k v, ev ∈ events -> gm_get (ev_Values ev) k = Some v -> exported (setDefaultsFor uuid c0) v = None)
    (Hc : forall i, cancelled i = false) :
  let retries := Z.to_nat (oc_MaxRetries (setDefaultsFor uuid c0)) in
  exists sleeps, sendBatch (setDefaultsFor uuid c0) true h events = Some (Ok (mkRun (Failed (Some (errInvalid errEmpty))) (S retries) sleeps))
    /\ length sleeps = retries.
Proof.
  cbv zeta. set (c := setDefaultsFor uuid c0) in *.
  assert (convertToOTLP c events = []) as Hempty.
  { destruct (convertToOTLP c events) as [|rm rms] eqn:E; [done|].
    assert (rm ∈ convertToOTLP c events) as Hrm by (rewrite E; constructor).
    pose proof Hrm as (key & _ & Hg)%convertToOTLP_elem. destruct (convert_group_spec _ _ _ Hg) as (? & ? & _ & _ & _ & Hne & _).
    destruct (rm_metrics rm) as [|m ms] eqn:Em; [done|].
    destruct (proj1 (convert_lemma c events eq_refl) rm m Hrm) as (ev & k & v & ? & ? & (_ & p & num & extra & Hx & _)); [rewrite Em; constructor|].
    by rewrite (Hnone ev k v) in Hx. }
  destruct (send_loop_fails c (attempt_result c true h []) (Z.to_nat (oc_MaxRetries c)) 0 [] (errInvalid errEmpty)) as (sl & Hs & Hl); [|done..|].
  { intros i. unfold attempt_result. assert (oc_Protocol c = "grpc") as -> by (unfold c, setDefaultsFor; cbn [oc_Protocol]; by rewrite Hp). done. }
  exists sl. split; [|exact Hl]. unfold sendBatch. destruct events; [done|]. destruct (Z.ltb_spec (oc_MaxRetries c) 0); [lia|].
  cbv zeta. by rewrite Hempty, Hs.
Qed.

(** A worker sends every event it received before the end exactly once, in
    order, in batches that are not empty and not larger than [batch-size]. *)
Theorem worker_batches `{RegexpPkg} (c0 c : otlp_config) (inputs : list input) (Hc : validateConfig c0 = Ok c) (Hd : Done ∈ inputs) :
  concat (worker c [] inputs) = received inputs
  /\ Forall (fun b => 0 < Z.of_nat (length b) <= oc_BatchSize c) (worker c [] inputs).
Proof. apply validateConfig_ok in Hc as (_ & _ & Hb & _). by apply (worker_lemma c []). Qed.

(** ** Concrete batches *)

(** A collector that is overloaded twice and then takes a part; the clock does not move. *)
Definition busy_collector : Collector :=
  {| answer i := match i with O => HttpReply 503 "" EmptyBody | S O => HttpReply 429 "7" EmptyBody | _ => HttpReply 200 "" (Response 2) end;
     now_at _ := 0; http_date _ := None; jitter _ _ := 0; cancelled _ := false; marshals _ := true |}.
Lemma busy_jitter : @JitterSpec busy_collector.
Proof. intros i n Hn. cbn. lia. Qed.

Definition otlp0 (protocol : string) (retries : Z) : otlp_config :=
  mkOtlpConfig "o" "collector:4318" protocol 0 2 0 0 "" retries "" false false true ["source"; "vendor"] [] ∅ 0 ∅ [].
Definition octets (source iface : string) (t : Z) (v : any) : EventMsg :=
  mkEvent "sub1" t (Some {[ "source" := source; "interface_name" := iface ]}) (Some {[ "/in-octets" := v ]}) None.

(** An event without a time makes the batch invalid. *)
Example zero_time_invalid :
  let c := setDefaultsFor "u" (otlp0 "http" 3) in
  @validateRequest (@convertToOTLP float_text_none order_fwd c [octets "r1" "e1" 5 (AInt KInt64 1); octets "r1" "e2" 0 (AInt KInt64 1)])
  = Err (errZeroTime 0 0 1 0).
Proof. vm_compute. reflexivity. Qed.

(** An [uint] beyond the signed range becomes negative, where an [uint64] becomes a double. *)
Example uint_wraps : @number_of float_text_none (AInt KUint (2 ^ 63)) = Some (AsInt (- 2 ^ 63)).
Proof. reflexivity. Qed.

(** A huge [Retry-After] overflows to a delay in the past and is ignored. *)
Example retry_after_overflows : @parseRetryAfter busy_collector "9223372037" 0 < 0.
Proof. vm_compute. reflexivity. Qed.

Lemma sendBatch_spec_witness :
  let c := setDefaultsFor "u" (otlp0 "http" 5) in
  let evs := [octets "r1" "e1" 5 (AInt KInt64 1)] in
  @sendBatch busy_collector float_text_none order_fwd c false true evs = Some (Ok (mkRun Sent 3 [0; 7 * second]))
  /\ exists run, @sendBatch busy_collector float_text_none order_fwd c false true evs = Some (Ok run)
    /\ @run_ok busy_collector (@attempt_result busy_collector c false true (@convertToOTLP float_text_none order_fwd c evs)) 0 (S (Z.to_nat (oc_MaxRetries c))) run
    /\ (oc_Protocol c = "http" -> Forall (fun s => 0 <= s <= maxRetryAfter) (br_sleeps run)).
Proof.
  cbv zeta. split; [vm_compute; reflexivity|].
  apply (@sendBatch_spec busy_collector busy_jitter lit_pkg float_text_none order_fwd (setDefaultsFor "u" (otlp0 "http" 5))); [discriminate|vm_compute; reflexivity].
Defined.

Lemma unexportable_batch_retried_witness :
  let evs := [octets "r1" "e1" 5 (AStr "up")] in
  exists sleeps, @sendBatch busy_collector float_text_none order_fwd (setDefaultsFor "u" (otlp0 "grpc" 2)) true false evs
      = Some (Ok (mkRun (Failed (Some (errInvalid errEmpty))) 3 sleeps)) /\ length sleeps = 2%nat.
Proof.
  cbv zeta.
  apply (@unexportable_batch_retried busy_collector float_text_none order_fwd "u" (otlp0 "grpc" 2) false [octets "r1" "e1" 5 (AStr "up")]);
    [discriminate|reflexivity|vm_compute; discriminate| |reflexivity].
  intros ev k v Hev Hv. apply list_elem_of_singleton in Hev. subst ev. cbn in Hv. apply lookup_singleton_Some in Hv as [_ <-]. reflexivity.
Defined.

Lemma worker_batches_witness :
  let e t := octets "r1" "e1" t (AInt KInt64 1) in
  let inputs := [Event (e 1); Event (e 2); Event (e 3); Tick; Tick; Event (e 4); Done; Event (e 5)] in
  let c := setDefaultsFor "u" (otlp0 "http" 5) in
  concat (worker c [] inputs) = [e 1; e 2; e 3; e 4] /\ concat (worker c [] inputs) = received inputs
  /\ Forall (fun b => 0 < Z.of_nat (length b) <= oc_BatchSize c) (worker c [] inputs).
Proof.
  cbv zeta. split; [reflexivity|].
  apply (@worker_batches lit_pkg (setDefaultsFor "u" (otlp0 "http" 5))); [vm_compute; reflexivity|]. apply list_elem_of_In. cbn. tauto.
Defined.
