(* ===== verification/OtlpLife.v ===== *)
(** * The transports of the OTLP output (pkg/outputs/otlp_output/otlp_output.go)

    Workers take the published state and use its transport while [Update]
    replaces it and [Close] ends the output. A step is what one goroutine does
    between two points where others may run: the pair of [Load] and
    [inFlight.Add] and the [Swap] are made under [stateMu], so each is one step.
    Transports are numbered in the order they are built. *)

From stdpp Require Import gmap sets list relations.
From S2P Require Import Prelude.

#[local] Open Scope nat_scope.

(** ** State *)

Record life := mkLife {
  l_state : option nat;          (** the transport of the published state; nil before Init and after Close *)
  l_busy : list nat;             (** the transport of each batch under way, as its WaitGroup counts it *)
  l_idle : nat;                  (** the workers between two batches *)
  l_cleaning : list nat;         (** transports whose last users are awaited *)
  l_closed : gset nat;
  l_next : nat;                  (** the next transport to build *)
  l_update : option (option nat) (** an [Update] under way, with the transport of the state it loaded *)
}.

(** After [Init] with its workers. *)
Definition life0 (workers : nat) : life := mkLife (Some 0) [] workers [] ∅ 1 None.

(** ** Operations *)

(** [sendBatch] takes the state ([None]: the state is nil, and it panics) and ends. *)
Definition take (s : life) : option life :=
  t ← l_state s;
  Some (mkLife (Some t) (t :: l_busy s) (pred (l_idle s)) (l_cleaning s) (l_closed s) (l_next s) (l_update s)).
Definition finish (i : nat) (s : life) : life :=
  mkLife (l_state s) (delete i (l_busy s)) (S (l_idle s)) (l_cleaning s) (l_closed s) (l_next s) (l_update s).
(** A worker whose context is cancelled returns. *)
Definition leave (s : life) : life :=
  mkLife (l_state s) (l_busy s) (pred (l_idle s)) (l_cleaning s) (l_closed s) (l_next s) (l_update s).

(** [Update]: [currState := o.state.Load()]; then, with a new transport or with
    that of [currState], the new state is published and [workers] more start. *)
Definition update_load (s : life) : life :=
  mkLife (l_state s) (l_busy s) (l_idle s) (l_cleaning s) (l_closed s) (l_next s) (Some (l_state s)).
Definition update_rebuild (workers : nat) (s : life) : life :=
  mkLife (Some (l_next s)) (l_busy s) (l_idle s + workers)
    (match l_state s with Some old => old :: l_cleaning s | None => l_cleaning s end) (l_closed s) (S (l_next s)) None.
Definition update_config (workers : nat) (s : life) : life :=
  match l_update s with
  | Some (Some t) => mkLife (Some t) (l_busy s) (l_idle s + workers) (l_cleaning s) (l_closed s) (l_next s) None
  | _ => s
  end.

(** The end of [inFlight.Wait()]: the transport is closed. *)
Definition cleanup (i t : nat) (s : life) : life :=
  mkLife (l_state s) (l_busy s) (l_idle s) (delete i (l_cleaning s)) ({[t]} ∪ l_closed s) (l_next s) (l_update s).

(** [Close], after [o.wg.Wait()]. *)
Definition close_swap (s : life) : life :=
  mkLife None (l_busy s) (l_idle s) (match l_state s with Some t => t :: l_cleaning s | None => l_cleaning s end)
    (l_closed s) (l_next s) (l_update s).

(** [overlap] allows [Close] while an [Update] is under way. *)
Inductive step (overlap : bool) : life -> life -> Prop :=
| step_take s s' : (0 < l_idle s) -> take s = Some s' -> step overlap s s'
| step_finish s i : i < length (l_busy s) -> step overlap s (finish i s)
| step_leave s : 0 < l_idle s -> step overlap s (leave s)
| step_load s : l_update s = None -> step overlap s (update_load s)
| step_rebuild s workers : is_Some (l_update s) -> step overlap s (update_rebuild workers s)
| step_config s workers t : l_update s = Some (Some t) -> step overlap s (update_config workers s)
| step_cleanup s i t : l_cleaning s !! i = Some t -> t ∉ l_busy s -> step overlap s (cleanup i t s)
| step_close s : l_idle s = 0 -> l_busy s = [] -> overlap = true \/ l_update s = None -> step overlap s (close_swap s).

Definition reachable (overlap : bool) (workers : nat) (s : life) : Prop := rtc (step overlap) (life0 workers) s.

(** ** Invariant *)

Record life_ok (s : life) : Prop := {
  ok_state : forall t, l_state s = Some t -> t < l_next s /\ (t ∉ l_cleaning s) /\ (t ∉ l_closed s);
  ok_cleaning : forall t, t ∈ l_cleaning s -> t < l_next s;
  ok_closed : forall t, t ∈ l_closed s -> t < l_next s;
  ok_busy : forall t, t ∈ l_busy s -> t ∉ l_closed s;
  ok_update : forall o, l_update s = Some o -> o = l_state s
}.

Lemma life0_ok workers : life_ok (life0 workers).
Proof.
  split; cbn; [intros t [= <-]; split_and!; [lia|by intros ?%elem_of_nil|by intros ?%elem_of_empty]|..].
  - intros t Ht. by apply elem_of_nil in Ht. - intros t Ht. by apply elem_of_empty in Ht.
  - intros t Ht. by apply elem_of_nil in Ht. - done.
Qed.

Lemma elem_of_delete {A} (l : list A) i x : x ∈ delete i l -> x ∈ l.
Proof. intros Hx. eapply elem_of_submseteq; [exact Hx|]. apply sublist_submseteq, sublist_delete. Qed.

Lemma step_ok s s' : life_ok s -> step false s s' -> life_ok s'.
Proof.
  intros [Hs Hcl Hc Hb Hu]. destruct 1 as [s s' Hi Ht|s i Hi|s Hi|s Hn|s w Hn|s w t Hn|s i t Hi Ht|s Hi Hbs Ho].
  - unfold take in Ht. destruct (l_state s) as [t|] eqn:E; [|done]. injection Ht as <-. split; cbn; [by rewrite <-E in *|done|done| |by rewrite <-E in *].
    intros t' [->|?]%elem_of_cons; [by destruct (Hs t eq_refl) as (_ & _ & ?)|by apply Hb].
  - split; cbn; [done..| |done]. intros t Ht%elem_of_delete. by apply Hb.
  - split; cbn; done.
  - split; cbn; [done..|]. by intros o [= <-].
  - split; cbn; [|..|done].
    + intros t [= <-]. split_and!; [lia| |intros Hin%Hc; lia]. destruct (l_state s) as [old|] eqn:E; [|intros Hin%Hcl; lia].
      intros [Hx|Hin%Hcl]%elem_of_cons; [destruct (Hs _ eq_refl)|]; lia.
    + intros t. destruct (l_state s) as [old|] eqn:E; [intros [->|Hin%Hcl]%elem_of_cons; [destruct (Hs _ eq_refl)|]; lia|intros Hin%Hcl; lia].
    + intros t Hin%Hc. lia.
    + done.
  - unfold update_config. rewrite Hn. apply Hu in Hn. split; cbn; [|done..]. intros t' [= <-]. by apply Hs.
  - apply list_elem_of_lookup_2 in Hi as Hin. split; cbn.
    + intros t' Ht'. destruct (Hs _ Ht') as (? & Hnc & ?). split_and!; [done|by intros ?%elem_of_delete|].
      intros [->%elem_of_singleton|?]%elem_of_union; done.
    + intros t' Ht'%elem_of_delete. by apply Hcl.
    + intros t' [->%elem_of_singleton|?]%elem_of_union; [by apply Hcl|by apply Hc].
    + intros t' Ht' [->%elem_of_singleton|?]%elem_of_union; [done|by apply (Hb t')].
    + done.
  - destruct Ho as [|Ho]; [done|]. split; cbn; [done| | | |by rewrite Ho].
    + intros t. destruct (l_state s) as [old|] eqn:E; [intros [->|Hin%Hcl]%elem_of_cons; [destruct (Hs _ eq_refl)|]; lia|by apply Hcl].
    + done.
    + done.
Qed.

(** * Properties *)

(** C21: no batch ever uses a transport that was closed, as long as [Close] does
    not run during an [Update]: whatever the interleaving of the workers, of
    reloads that share the transport or replace it, and of the clean-ups, the
    transport of every batch under way is open. *)
Theorem no_batch_on_closed_transport (workers : nat) (s : life) (t : nat)
    (Hs : reachable false workers s) (Ht : t ∈ l_busy s) : t ∉ l_closed s.
Proof.
  enough (life_ok s) as Hok by by apply (ok_busy s Hok).
  clear Ht. unfold reachable in Hs. remember (life0 workers) as s0 eqn:E. assert (life_ok s0) as H0 by (subst; apply life0_ok). clear E.
  induction Hs as [s|s0 s1 s2 Hstep _ IH]; [done|]. apply IH. by eapply step_ok.
Qed.

Lemma no_batch_on_closed_transport_witness :
  let s := mkLife (Some 1) [0] 0 [0] ∅ 2 None in
  reachable false 1 s /\ 0 ∈ l_busy s /\ 0 ∉ l_closed s.
Proof.
  cbv zeta. assert (reachable false 1 (mkLife (Some 1) [0] 0 [0] ∅ 2 None)) as Hr.
  { eapply rtc_l; [eapply step_take; [cbn; lia|reflexivity]|]. eapply rtc_l; [apply step_load; reflexivity|].
    eapply rtc_l; [apply (step_rebuild _ _ 0); by eexists|]. reflexivity. }
  split; [exact Hr|]. split; [constructor|]. apply (no_batch_on_closed_transport 1 _ 0 Hr). constructor.
Defined.

(** The outputs manager does call [Close], for a request to delete the
    output, during an [Update] of its event loop. Then an update that only
    changes the configuration can publish the state it had loaded, with the
    transport [Close] has closed, and start workers that send on it; an update
    with a new transport can publish it after [Close], with workers of its own. *)
Theorem close_during_update :
  (exists s, reachable true 1 s /\ l_busy s = [0] /\ 0 ∈ l_closed s)
  /\ exists s, reachable true 1 s /\ l_update s = None /\ l_cleaning s = [] /\ l_state s = Some 1 /\ 1 ∉ l_closed s.
Proof.
  assert (reachable true 1 (mkLife None [] 0 [] {[0]} 1 (Some (Some 0)))) as Hr.
  { eapply rtc_l; [apply step_load; reflexivity|]. eapply rtc_l; [apply step_leave; cbn; lia|].
    eapply rtc_l; [apply step_close; [reflexivity|reflexivity|by left]|].
    eapply rtc_l; [apply (step_cleanup _ _ 0 0); [reflexivity|apply not_elem_of_nil]|].
    unfold cleanup. cbn [l_closed close_swap leave update_load life0]. rewrite union_empty_r_L. reflexivity. }
  split.
  - exists (mkLife (Some 0) [0] 0 [] {[0]} 1 None). split; [|split; [reflexivity|cbn [l_closed]; by apply elem_of_singleton]].
    unfold reachable in *. etransitivity; [exact Hr|]. eapply rtc_l; [apply (step_config _ _ 1 0); reflexivity|].
    eapply rtc_l; [eapply step_take; [cbn; lia|reflexivity]|]. reflexivity.
  - exists (mkLife (Some 1) [] 1 [] {[0]} 2 None). split_and!; [|reflexivity..|cbn [l_closed]; by rewrite elem_of_singleton].
    unfold reachable in *. etransitivity; [exact Hr|]. eapply rtc_l; [apply (step_rebuild _ _ 1); by eexists|]. reflexivity.
Qed.
