(* ===== verification/Messages.v ===== *)
(** * gNMI messages and their options (pkg/api/gnmi_msgs.go)

    A request or response is built by applying a list of options to a new
    message. An option is a function of a [proto.Message]: it inspects the
    dynamic type of the message, changes it in place and may return an error;
    the changes it made before the error stay. The type of a message never
    changes, so messages are indexed by their [kind] and an option is a family
    of state changes, one per kind ([on]), with its behaviour on the nil
    message apart ([on_nil]): most options test for nil and return
    [ErrInvalidMsgType], some dereference it. A list the code replaces by an
    empty one when its length is 0 is the empty list in both cases.

    The enum tables of the gnmi package and the conversions of the JSON, scalar
    and float libraries are parameters ([GnmiEnums], [ValueEnv]). *)

From S2P Require Import Prelude GoStrings Utf8 Path GoVal Event Text.
From stdpp Require Import strings.

#[local] Open Scope Z_scope.
#[local] Arguments wrap : simpl never.

(** ** The messages *)

Record ModelData := mkModelData { md_Name : string; md_Organization : string; md_Version : string }.

Inductive extension :=
| Ext_CommitRequest (id : string) (rollback : Z)
| Ext_CommitConfirm (id : string)
| Ext_CommitCancel (id : string)
| Ext_CommitSetRollback (id : string) (rollback : Z)
| Ext_Depth (level : Z)
| Ext_HistorySnapshot (time : Z)
| Ext_HistoryRange (start stop : Z)
| Ext_Registered (id : Z) (msg : string).

Record CapabilityResponse := mkCapRsp {
  cr_SupportedModels : list ModelData; cr_SupportedEncodings : list Z; cr_GNMIVersion : string; cr_Extension : list extension }.
Record GetRequest := mkGetReq {
  gr_Prefix : option GPath; gr_Path : list GPath; gr_Type : Z; gr_Encoding : Z;
  gr_UseModels : list ModelData; gr_Extension : list extension }.
Record UpdateResult := mkUpdateResult { ur_Path : option GPath; ur_Op : Z }.
Record SetRequest := mkSetReq {
  sr_Prefix : option GPath; sr_Delete : list GPath; sr_Replace : list Update; sr_Update : list Update;
  sr_UnionReplace : list Update; sr_Extension : list extension }.
Record SetResponse := mkSetRsp {
  sp_Prefix : option GPath; sp_Response : list UpdateResult; sp_Timestamp : Z; sp_Extension : list extension }.
Record Subscription := mkSubscription {
  sn_Path : option GPath; sn_Mode : Z; sn_SampleInterval : Z; sn_SuppressRedundant : bool; sn_HeartbeatInterval : Z }.
Record SubscriptionList := mkSubList {
  sl_Prefix : option GPath; sl_Subscription : list Subscription; sl_Qos : option Z; sl_Mode : Z;
  sl_AllowAggregation : bool; sl_UseModels : list ModelData; sl_Encoding : Z; sl_UpdatesOnly : bool }.
(** The oneof of a subscribe request. *)
Inductive sub_request := Req_none | Req_Subscribe (l : option SubscriptionList) | Req_Poll.
Record SubscribeRequest := mkSubReq { sq_Request : sub_request; sq_Extension : list extension }.
Record NotificationMsg := mkNotif {
  nm_Timestamp : Z; nm_Prefix : option GPath; nm_Update : list Update; nm_Delete : list GPath; nm_Atomic : bool }.
Record GetResponse := mkGetRsp { gp_Notification : list NotificationMsg; gp_Extension : list extension }.
Inductive sub_response := Rsp_none | Rsp_Update (n : option NotificationMsg) | Rsp_Sync (b : bool).
Record SubscribeRsp := mkSubRsp { sp_Rsp : sub_response; sp_Ext : list extension }.

Inductive kind :=
| CapReq | CapRsp | GetReq | GetRsp | SetReq | SetRsp | SubReq | SubRsp | Notif | Upd | UpdRes | Subn
| Foreign (* any other message *).

Definition msg (k : kind) : Type :=
  match k with
  | CapReq => list extension | CapRsp => CapabilityResponse | GetReq => GetRequest | GetRsp => GetResponse
  | SetReq => SetRequest | SetRsp => SetResponse | SubReq => SubscribeRequest | SubRsp => SubscribeRsp
  | Notif => NotificationMsg | Upd => Update | UpdRes => UpdateResult | Subn => Subscription | Foreign => unit
  end.

(** [new(T)]. *)
Definition newSubList : SubscriptionList := mkSubList None [] None 0 false [] 0 false.
Definition newNotif : NotificationMsg := mkNotif 0 None [] [] false.
Definition newSubscription : Subscription := mkSubscription None 0 0 false 0.
Definition zero_msg (k : kind) : msg k :=
  match k with
  | CapReq => [] | CapRsp => mkCapRsp [] [] "" [] | GetReq => mkGetReq None [] 0 0 [] []
  | GetRsp => mkGetRsp [] [] | SetReq => mkSetReq None [] [] [] [] [] | SetRsp => mkSetRsp None [] 0 []
  | SubReq => mkSubReq Req_none [] | SubRsp => mkSubRsp Rsp_none [] | Notif => newNotif
  | Upd => mkUpdate None None | UpdRes => mkUpdateResult None 0 | Subn => newSubscription | Foreign => tt
  end.

(** ** Options *)

Inductive opt_error :=
| errInvalidMsgType (option : string)
| errInvalidValue (option : string)
| errValueJSON | errValueParse | errDecimal | errEncoding (e : string) | errScalar.

(** A call on a message: the message after it and the error, or a panic. *)
Inductive outcome (A : Type) := Ran (a : A) (e : option opt_error) | Crashed.
Arguments Ran {A} a e.
Arguments Crashed {A}.

Record GNMIOption := mkOption { on : forall k, msg k -> outcome (msg k); on_nil : outcome () }.

Definition done_with {A} (a : A) : outcome A := Ran a None.
Definition fail {A} (e : opt_error) (a : A) : outcome A := Ran a (Some e).

(** The option tests its argument for nil, or does not. *)
Definition checked (f : forall k, msg k -> outcome (msg k)) : GNMIOption :=
  mkOption f (Ran tt (Some (errInvalidMsgType ""))).
Definition unchecked (f : forall k, msg k -> outcome (msg k)) : GNMIOption := mkOption f Crashed.

Fixpoint apply {k} (m : msg k) (opts : list GNMIOption) : outcome (msg k) :=
  match opts with
  | [] => Ran m None
  | o :: opts =>
      match on o k m with
      | Ran m None => apply m opts
      | r => r
      end
  end.

(** [new(T)], the options, and the message when they all succeed. *)
Definition nested {A} (k : kind) (opts : list GNMIOption) (a : A) (add : msg k -> A) : outcome A :=
  match apply (zero_msg k) opts with
  | Ran m None => Ran (add m) None
  | Ran _ (Some e) => Ran a (Some e)
  | Crashed => Crashed
  end.

(** The constructors that return nil with the error. *)
Definition or_nil {A} (r : outcome A) : go opt_error A :=
  match r with Ran m None => Ok m | Ran _ (Some e) => Err e | Crashed => Panic end.

Definition NewCapabilitiesRequest (opts : list GNMIOption) : go opt_error (msg CapReq) :=
  or_nil (apply (zero_msg CapReq) opts).
Definition DefaultGNMIVersion : string := "0.7.0".
Definition NewCapabilitiesResponse (opts : list GNMIOption) : go opt_error CapabilityResponse :=
  m ← or_nil (apply (k := CapRsp) (zero_msg CapRsp) opts);
  Ok (if String.eqb (cr_GNMIVersion m) ""
      then mkCapRsp (cr_SupportedModels m) (cr_SupportedEncodings m) DefaultGNMIVersion (cr_Extension m) else m).
Definition NewGetRequest (opts : list GNMIOption) : go opt_error (msg GetReq) := or_nil (apply (zero_msg GetReq) opts).
Definition NewGetResponse (opts : list GNMIOption) : go opt_error (msg GetRsp) := or_nil (apply (zero_msg GetRsp) opts).
(** The message is returned with the error. *)
Definition NewSetRequest (opts : list GNMIOption) : outcome (msg SetReq) := apply (zero_msg SetReq) opts.
Definition NewSetResponse (opts : list GNMIOption) : go opt_error (msg SetRsp) := or_nil (apply (zero_msg SetRsp) opts).
Definition NewSubscribeRequest (opts : list GNMIOption) : outcome (msg SubReq) :=
  apply (k := SubReq) (mkSubReq (Req_Subscribe (Some newSubList)) []) opts.
Definition NewSubscribePollRequest (opts : list GNMIOption) : outcome (msg SubReq) :=
  apply (k := SubReq) (mkSubReq Req_Poll []) opts.
Definition NewSubscribeResponse (opts : list GNMIOption) : go opt_error (msg SubRsp) :=
  or_nil (apply (k := SubRsp) (mkSubRsp (Rsp_Update (Some newNotif)) []) opts).
Definition NewSubscribeSyncResponse (opts : list GNMIOption) : go opt_error (msg SubRsp) :=
  or_nil (apply (k := SubRsp) (mkSubRsp (Rsp_Sync true) []) opts).

Definition fmap_outcome {A B} (f : A -> B) (r : outcome A) : outcome B :=
  match r with Ran a e => Ran (f a) e | Crashed => Crashed end.

(** The [Subscribe] part of a subscribe request, created when it is nil;
    [other] is what the option returns for another oneof. *)
Definition on_list (other : option opt_error) (f : SubscriptionList -> outcome SubscriptionList)
    (m : SubscribeRequest) : outcome SubscribeRequest :=
  match sq_Request m with
  | Req_Subscribe l =>
      fmap_outcome (fun l => mkSubReq (Req_Subscribe (Some l)) (sq_Extension m)) (f (default newSubList l))
  | _ => Ran m other
  end.

(** A family of state changes from its cases; every other message gives [e]. *)
Abbreviation type_error name := (fail (errInvalidMsgType name)).

(** ** Capabilities *)

Definition opt_Version (v : string) : GNMIOption := checked (fun k =>
  match k return msg k -> outcome (msg k) with
  | CapRsp => fun m => done_with (mkCapRsp (cr_SupportedModels m) (cr_SupportedEncodings m) v (cr_Extension m))
  | _ => type_error "Version"
  end).

Class GnmiEnums : Type := {
  Encoding_value : string -> option Z;
  GetRequest_DataType_value : string -> option Z;
  SubscriptionList_Mode_value : string -> option Z;
  SubscriptionMode_value : string -> option Z;
  UpdateResult_Operation_value : string -> option Z
}.

(** The JSON encoder, the scalar conversion of the gnmi package and the parser
    of 32-bit floats. *)
Class ValueEnv : Type := {
  json_Marshal : any -> option string;
  json_Encode : any -> option string;
  json_Valid : string -> bool;
  FromScalar : any -> option TypedValue;
  ParseFloat32 : string -> option spec_float
}.

Section enum_options.
Context `{UnicodeCase} `{GnmiEnums}.

Definition add_encoding (m : CapabilityResponse) (encoding : string) : outcome CapabilityResponse :=
  match Encoding_value (ToUpper encoding) with
  | None => fail (errInvalidValue "SupportedEncoding") m
  | Some enc => done_with (mkCapRsp (cr_SupportedModels m) (cr_SupportedEncodings m ++ [enc]) (cr_GNMIVersion m) (cr_Extension m))
  end.
Fixpoint add_encodings (m : CapabilityResponse) (encodings : list string) : outcome CapabilityResponse :=
  match encodings with
  | [] => done_with m
  | e :: es => match add_encoding m e with Ran m None => add_encodings m es | r => r end
  end.
Definition opt_SupportedEncoding (encodings : list string) : GNMIOption := checked (fun k =>
  match k return msg k -> outcome (msg k) with
  | CapRsp => fun m => add_encodings m encodings
  | _ => type_error "SupportedEncoding"
  end).

Definition opt_SupportedModel (name org version : string) : GNMIOption := checked (fun k =>
  match k return msg k -> outcome (msg k) with
  | CapRsp => fun m => done_with
      (mkCapRsp (cr_SupportedModels m ++ [mkModelData name org version]) (cr_SupportedEncodings m) (cr_GNMIVersion m) (cr_Extension m))
  | _ => type_error "SupportedModel"
  end).

(** ** Extensions *)

(** A message that cannot carry an extension is left alone, without an error. *)
Definition opt_Extension (ext : extension) : GNMIOption := checked (fun k =>
  match k return msg k -> outcome (msg k) with
  | CapReq => fun m => done_with (m ++ [ext])
  | GetReq => fun m => done_with (mkGetReq (gr_Prefix m) (gr_Path m) (gr_Type m) (gr_Encoding m) (gr_UseModels m) (gr_Extension m ++ [ext]))
  | GetRsp => fun m => done_with (mkGetRsp (gp_Notification m) (gp_Extension m ++ [ext]))
  | SetReq => fun m => done_with
      (mkSetReq (sr_Prefix m) (sr_Delete m) (sr_Replace m) (sr_Update m) (sr_UnionReplace m) (sr_Extension m ++ [ext]))
  | SetRsp => fun m => done_with (mkSetRsp (sp_Prefix m) (sp_Response m) (sp_Timestamp m) (sp_Extension m ++ [ext]))
  | SubReq => fun m => done_with (mkSubReq (sq_Request m) (sq_Extension m ++ [ext]))
  | SubRsp => fun m => done_with (mkSubRsp (sp_Rsp m) (sp_Ext m ++ [ext]))
  | _ => done_with
  end).

(** An extension only some messages accept. *)
Definition extension_for (name : string) (ext : extension) (accepts : kind -> bool) : GNMIOption := checked (fun k =>
  if accepts k then on (opt_Extension ext) k else type_error name).

Definition is_SetReq (k : kind) : bool := match k with SetReq => true | _ => false end.
Definition is_SubReq (k : kind) : bool := match k with SubReq => true | _ => false end.
Definition is_GetReq_SubReq (k : kind) : bool := match k with GetReq | SubReq => true | _ => false end.

(** [durationpb.New(dur)] is represented by the duration. *)
Definition opt_Extension_CommitRequest (id : string) (dur : Z) : GNMIOption :=
  extension_for "Extension_CommitRequest" (Ext_CommitRequest id dur) is_SetReq.
Definition opt_Extension_CommitConfirm (id : string) : GNMIOption :=
  extension_for "Extension_CommitConfirm" (Ext_CommitConfirm id) is_SetReq.
Definition opt_Extension_CommitCancel (id : string) : GNMIOption :=
  extension_for "Extension_CommitCancel" (Ext_CommitCancel id) is_SetReq.
Definition opt_Extension_CommitSetRollbackDuration (id : string) (dur : Z) : GNMIOption :=
  extension_for "Extension_CommitSetRollbackDuration" (Ext_CommitSetRollback id dur) is_SetReq.
Definition opt_Extension_Depth (lvl : Z) : GNMIOption :=
  extension_for "Extension_Depth" (Ext_Depth lvl) is_GetReq_SubReq.
(** A time is its instant in nanoseconds; [UnixNano] is an int64. *)
Definition opt_Extension_HistorySnapshotTime (tm : Z) : GNMIOption :=
  extension_for "Extension_HistorySnapshotTime" (Ext_HistorySnapshot (int64 tm)) is_SubReq.
Definition opt_Extension_HistoryRange (start stop : Z) : GNMIOption :=
  extension_for "Extension_HistoryRange" (Ext_HistoryRange (int64 start) (int64 stop)) is_SubReq.

(** ** Prefix, target, path *)

(** The path the parser returns: nil with an error. *)
Definition parsed {A} (r : go path_error A) : option A * option opt_error :=
  match r with Ok a => (Some a, None) | _ => (None, Some (errInvalidValue "")) end.

Definition with_prefix (p : option GPath) (l : SubscriptionList) : SubscriptionList :=
  mkSubList p (sl_Subscription l) (sl_Qos l) (sl_Mode l) (sl_AllowAggregation l) (sl_UseModels l) (sl_Encoding l) (sl_UpdatesOnly l).

Definition opt_Prefix (prefix : string) : GNMIOption := checked (fun k =>
  let '(p, err) := parsed (CreatePrefix prefix "") in
  let p := mjoin p in
  match k return msg k -> outcome (msg k) with
  | GetReq => fun m => Ran (mkGetReq p (gr_Path m) (gr_Type m) (gr_Encoding m) (gr_UseModels m) (gr_Extension m)) err
  | SetReq => fun m => Ran (mkSetReq p (sr_Delete m) (sr_Replace m) (sr_Update m) (sr_UnionReplace m) (sr_Extension m)) err
  | SetRsp => fun m => Ran (mkSetRsp p (sp_Response m) (sp_Timestamp m) (sp_Extension m)) err
  | SubReq => on_list (Some (errInvalidMsgType "Prefix")) (fun l => Ran (with_prefix p l) err)
  | Notif => fun m => Ran (mkNotif (nm_Timestamp m) p (nm_Update m) (nm_Delete m) (nm_Atomic m)) err
  | _ => type_error "Prefix"
  end).

Definition set_target (target : string) (p : option GPath) : option GPath :=
  let p := default emptyPath p in Some (mkGPath (p_Origin p) (p_Elem p) target).
Definition opt_Target (target : string) : GNMIOption := checked (fun k =>
  if String.eqb target "" then done_with
  else
    match k return msg k -> outcome (msg k) with
    | GetReq => fun m => done_with
        (mkGetReq (set_target target (gr_Prefix m)) (gr_Path m) (gr_Type m) (gr_Encoding m) (gr_UseModels m) (gr_Extension m))
    | SetReq => fun m => done_with
        (mkSetReq (set_target target (sr_Prefix m)) (sr_Delete m) (sr_Replace m) (sr_Update m) (sr_UnionReplace m) (sr_Extension m))
    | SubReq => on_list (Some (errInvalidMsgType "Target"))
        (fun l => done_with (with_prefix (set_target target (sl_Prefix l)) l))
    | _ => type_error "Target"
    end).

Definition opt_Path (p : string) : GNMIOption := checked (fun k =>
  let '(gp, err) := parsed (ParsePath p) in
  match k return msg k -> outcome (msg k) with
  | GetReq => fun m =>
      match gp with
      | Some gp => Ran (mkGetReq (gr_Prefix m) (gr_Path m ++ [gp]) (gr_Type m) (gr_Encoding m) (gr_UseModels m) (gr_Extension m)) err
      | None => Ran m err
      end
  | Upd => fun m => Ran (mkUpdate gp (upd_Val m)) err
  | UpdRes => fun m => Ran (mkUpdateResult gp (ur_Op m)) err
  | Subn => fun m => Ran (mkSubscription gp (sn_Mode m) (sn_SampleInterval m) (sn_SuppressRedundant m) (sn_HeartbeatInterval m)) err
  | _ => type_error "Path"
  end).

(** ** Encoding, data type, models *)

Definition with_encoding (e : Z) (l : SubscriptionList) : SubscriptionList :=
  mkSubList (sl_Prefix l) (sl_Subscription l) (sl_Qos l) (sl_Mode l) (sl_AllowAggregation l) (sl_UseModels l) e (sl_UpdatesOnly l).
Definition set_encoding (name : string) (enc : Z) (k : kind) : msg k -> outcome (msg k) :=
  match k return msg k -> outcome (msg k) with
  | GetReq => fun m => done_with (mkGetReq (gr_Prefix m) (gr_Path m) (gr_Type m) enc (gr_UseModels m) (gr_Extension m))
  | SubReq => on_list None (fun l => done_with (with_encoding enc l))
  | _ => type_error name
  end.
Definition opt_Encoding (encoding : string) : GNMIOption := checked (fun k =>
  match Encoding_value (ToUpper encoding) with
  | None => fail (errInvalidValue "Encoding")
  | Some enc => set_encoding "Encoding" enc k
  end).
Definition opt_EncodingJSON := opt_Encoding "JSON".
Definition opt_EncodingBYTES := opt_Encoding "BYTES".
Definition opt_EncodingPROTO := opt_Encoding "PROTO".
Definition opt_EncodingASCII := opt_Encoding "ASCII".
Definition opt_EncodingJSON_IETF := opt_Encoding "JSON_IETF".
(** [gnmi.Encoding(enc)] of an int: 32 bits. *)
Definition opt_EncodingCustom (enc : Z) : GNMIOption := checked (set_encoding "EncodingCustom" (wrap KInt32 enc)).

Definition opt_DataType (datat : string) : GNMIOption := checked (fun k =>
  if String.eqb datat "" then done_with
  else
    match k return msg k -> outcome (msg k) with
    | GetReq => fun m =>
        match GetRequest_DataType_value (ToUpper datat) with
        | None => fail (errInvalidValue "DataType") m
        | Some dt => done_with (mkGetReq (gr_Prefix m) (gr_Path m) dt (gr_Encoding m) (gr_UseModels m) (gr_Extension m))
        end
    | _ => type_error "DataType"
    end).
Definition opt_DataTypeALL := opt_DataType "ALL".
Definition opt_DataTypeCONFIG := opt_DataType "CONFIG".
Definition opt_DataTypeSTATE := opt_DataType "STATE".
Definition opt_DataTypeOPERATIONAL := opt_DataType "OPERATIONAL".

Definition add_model (md : ModelData) (l : SubscriptionList) : SubscriptionList :=
  mkSubList (sl_Prefix l) (sl_Subscription l) (sl_Qos l) (sl_Mode l) (sl_AllowAggregation l) (sl_UseModels l ++ [md]) (sl_Encoding l) (sl_UpdatesOnly l).
Definition opt_UseModel (name org version : string) : GNMIOption := checked (fun k =>
  let md := mkModelData name org version in
  match k return msg k -> outcome (msg k) with
  | GetReq => fun m => done_with (mkGetReq (gr_Prefix m) (gr_Path m) (gr_Type m) (gr_Encoding m) (gr_UseModels m ++ [md]) (gr_Extension m))
  | SubReq => on_list None (fun l => done_with (add_model md l))
  | _ => type_error "UseModel"
  end).

(** ** Values *)

Inductive vdata :=
| VAny (v : any)
| VTyped (tv : option TypedValue)    (* [*gnmi.TypedValue] *)
| VOneof (tv : TypedValue).          (* a wrapper of the oneof, [*gnmi.TypedValue_IntVal] etc. *)

Definition encodingJSON : string := "json".
Definition encodingJSON_IETF : string := "json_ietf".
Definition value_trim : list ascii := [" "%char; "013"%char; "010"%char; "009"%char].

Context `{ValueEnv}.

Definition json_text (r : option string) : go opt_error string :=
  match r with Some b => Ok (bytes_Trim value_trim b) | None => Err errValueJSON end.

(** A string that is JSON is sent as it is, another as a JSON string. *)
Definition json_string (data : string) : go opt_error string :=
  json_text (if json_Valid data then Some data else json_Encode (AStr data)).

Definition or_parse {A} (f : A -> TypedValue) (r : option A) : go opt_error TypedValue :=
  match r with Some a => Ok (f a) | None => Err errValueParse end.

Definition value_string (data encoding : string) : go opt_error TypedValue :=
  let e := ToLower encoding in
  if String.eqb e "" || String.eqb e encodingJSON then JsonVal <$> json_string data
  else if String.eqb e encodingJSON_IETF then JsonIetfVal <$> json_string data
  else if String.eqb e "ascii" then Ok (AsciiVal data)
  else if String.eqb e "bool" then or_parse BoolVal (ParseBool data)
  else if String.eqb e "bytes" then Ok (BytesVal data)
  else if String.eqb e "decimal" then Err errDecimal
  else if String.eqb e "float" then or_parse FloatVal (ParseFloat32 data)
  else if String.eqb e "int" then or_parse IntVal (ParseInt 64 data)
  else if String.eqb e "uint" then or_parse UintVal (ParseUint data)
  else if String.eqb e "string" then Ok (StringVal data)
  else Err (errEncoding encoding).

Definition value_scalar (e : opt_error) (v : any) : go opt_error (option TypedValue) :=
  match FromScalar v with Some tv => Ok (Some tv) | None => Err e end.

Definition value (data : vdata) (encoding : string) : go opt_error (option TypedValue) :=
  let e := ToLower encoding in
  match data with
  | VAny (ASlice _ as v) | VAny (AStrs _ as v) =>
      if String.eqb e "" || String.eqb e encodingJSON then (fun b => Some (JsonVal b)) <$> json_text (json_Marshal v)
      else if String.eqb e encodingJSON_IETF then (fun b => Some (JsonIetfVal b)) <$> json_text (json_Marshal v)
      else value_scalar errScalar v
  | VAny (AMap _ as v) =>
      if String.eqb e "" || String.eqb e encodingJSON then (fun b => Some (JsonVal b)) <$> json_text (json_Encode v)
      else if String.eqb e encodingJSON_IETF then (fun b => Some (JsonIetfVal b)) <$> json_text (json_Encode v)
      else Err (errInvalidValue "value")
  | VAny (AStr s) => Some <$> value_string s encoding
  | VTyped tv => Ok tv
  | VOneof (DoubleVal f) => value_scalar (errInvalidValue "") (AOther "*gnmi.TypedValue_DoubleVal")
  | VOneof tv => Ok (Some tv)
  | VAny v => value_scalar (errInvalidValue "") v
  end.

Definition opt_Value (data : vdata) (encoding : string) : GNMIOption := checked (fun k =>
  match k return msg k -> outcome (msg k) with
  | Upd => fun m =>
      match value data encoding with
      | Ok tv => done_with (mkUpdate (upd_Path m) tv)
      | Err e => fail e (mkUpdate (upd_Path m) None)
      | Panic => Crashed
      end
  | _ => type_error "Value"
  end).

(** ** Set requests *)

Definition opt_Update (opts : list GNMIOption) : GNMIOption := checked (fun k =>
  match k return msg k -> outcome (msg k) with
  | SetReq => fun m => nested Upd opts m (fun upd =>
      mkSetReq (sr_Prefix m) (sr_Delete m) (sr_Replace m) (sr_Update m ++ [upd]) (sr_UnionReplace m) (sr_Extension m))
  | Notif => fun m => nested Upd opts m (fun upd =>
      mkNotif (nm_Timestamp m) (nm_Prefix m) (nm_Update m ++ [upd]) (nm_Delete m) (nm_Atomic m))
  | _ => type_error "Update"
  end).

Definition opt_Replace (opts : list GNMIOption) : GNMIOption := checked (fun k =>
  match k return msg k -> outcome (msg k) with
  | SetReq => fun m => nested Upd opts m (fun upd =>
      mkSetReq (sr_Prefix m) (sr_Delete m) (sr_Replace m ++ [upd]) (sr_Update m) (sr_UnionReplace m) (sr_Extension m))
  | _ => type_error "Replace"
  end).

Definition opt_UnionReplace (opts : list GNMIOption) : GNMIOption := checked (fun k =>
  match k return msg k -> outcome (msg k) with
  | SetReq => fun m => nested Upd opts m (fun upd =>
      mkSetReq (sr_Prefix m) (sr_Delete m) (sr_Replace m) (sr_Update m) (sr_UnionReplace m ++ [upd]) (sr_Extension m))
  | _ => type_error "UnionReplace"
  end).

Definition opt_Delete (p : string) : GNMIOption := checked (fun k =>
  let '(gp, err) := parsed (ParsePath p) in
  match k return msg k -> outcome (msg k) with
  | SetReq => fun m =>
      match gp with
      | Some gp => Ran (mkSetReq (sr_Prefix m) (sr_Delete m ++ [gp]) (sr_Replace m) (sr_Update m) (sr_UnionReplace m) (sr_Extension m)) err
      | None => Ran m err
      end
  | Notif => fun m =>
      match gp with
      | Some gp => Ran (mkNotif (nm_Timestamp m) (nm_Prefix m) (nm_Update m) (nm_Delete m ++ [gp]) (nm_Atomic m)) err
      | None => Ran m err
      end
  | _ => type_error "Delete"
  end).

(** ** Subscriptions *)

Definition with_mode (g : Z) (l : SubscriptionList) : SubscriptionList :=
  mkSubList (sl_Prefix l) (sl_Subscription l) (sl_Qos l) g (sl_AllowAggregation l) (sl_UseModels l) (sl_Encoding l) (sl_UpdatesOnly l).
Definition opt_SubscriptionListMode (mode : string) : GNMIOption := checked (fun k =>
  match k return msg k -> outcome (msg k) with
  | SubReq => on_list (Some (errInvalidMsgType "SubscriptionListMode")) (fun l =>
      match SubscriptionList_Mode_value (ToUpper mode) with
      | None => fail (errInvalidValue "SubscriptionListMode") l
      | Some g => done_with (with_mode g l)
      end)
  | _ => type_error "SubscriptionListMode"
  end).
Definition opt_SubscriptionListModeSTREAM := opt_SubscriptionListMode "STREAM".
Definition opt_SubscriptionListModeONCE := opt_SubscriptionListMode "ONCE".
Definition opt_SubscriptionListModePOLL := opt_SubscriptionListMode "POLL".

(** The options of a subscription list that do not test for nil. *)
Definition list_option (name : string) (f : SubscriptionList -> outcome SubscriptionList) : GNMIOption := unchecked (fun k =>
  match k return msg k -> outcome (msg k) with
  | SubReq => on_list (Some (errInvalidMsgType name)) f
  | _ => type_error name
  end).
Definition opt_Qos (qos : Z) : GNMIOption := list_option "Qos" (fun l => done_with
  (mkSubList (sl_Prefix l) (sl_Subscription l) (Some qos) (sl_Mode l) (sl_AllowAggregation l) (sl_UseModels l) (sl_Encoding l) (sl_UpdatesOnly l))).
Definition opt_AllowAggregation (b : bool) : GNMIOption := list_option "AllowAggregation" (fun l => done_with
  (mkSubList (sl_Prefix l) (sl_Subscription l) (sl_Qos l) (sl_Mode l) b (sl_UseModels l) (sl_Encoding l) (sl_UpdatesOnly l))).
Definition opt_UpdatesOnly (b : bool) : GNMIOption := list_option "UpdatesOnly" (fun l => done_with
  (mkSubList (sl_Prefix l) (sl_Subscription l) (sl_Qos l) (sl_Mode l) (sl_AllowAggregation l) (sl_UseModels l) (sl_Encoding l) b)).
Definition add_subscription (s : Subscription) (l : SubscriptionList) : SubscriptionList :=
  mkSubList (sl_Prefix l) (sl_Subscription l ++ [s]) (sl_Qos l) (sl_Mode l) (sl_AllowAggregation l) (sl_UseModels l) (sl_Encoding l) (sl_UpdatesOnly l).
Definition opt_Subscription (opts : list GNMIOption) : GNMIOption := list_option "Subscription" (fun l =>
  nested Subn opts l (fun s => add_subscription s l)).

Definition opt_SubscriptionMode (mode : string) : GNMIOption := checked (fun k =>
  match k return msg k -> outcome (msg k) with
  | Subn => fun m =>
      match SubscriptionMode_value (ToUpper (replace_byte "-" "_" mode)) with
      | None => fail (errInvalidValue "SubscriptionMode") m
      | Some g => done_with (mkSubscription (sn_Path m) g (sn_SampleInterval m) (sn_SuppressRedundant m) (sn_HeartbeatInterval m))
      end
  | _ => type_error "SubscriptionMode"
  end).
Definition opt_SubscriptionModeTARGET_DEFINED := opt_SubscriptionMode "TARGET_DEFINED".
Definition opt_SubscriptionModeON_CHANGE := opt_SubscriptionMode "ON_CHANGE".
Definition opt_SubscriptionModeSAMPLE := opt_SubscriptionMode "SAMPLE".

(** [uint64(d.Nanoseconds())]: a negative duration wraps around. *)
Definition opt_SampleInterval (d : Z) : GNMIOption := checked (fun k =>
  match k return msg k -> outcome (msg k) with
  | Subn => fun m => done_with (mkSubscription (sn_Path m) (sn_Mode m) (uint64 d) (sn_SuppressRedundant m) (sn_HeartbeatInterval m))
  | _ => type_error "SampleInterval"
  end).
Definition opt_HeartbeatInterval (d : Z) : GNMIOption := checked (fun k =>
  match k return msg k -> outcome (msg k) with
  | Subn => fun m => done_with (mkSubscription (sn_Path m) (sn_Mode m) (sn_SampleInterval m) (sn_SuppressRedundant m) (uint64 d))
  | _ => type_error "HeartbeatInterval"
  end).
Definition opt_SuppressRedundant (s : bool) : GNMIOption := checked (fun k =>
  match k return msg k -> outcome (msg k) with
  | Subn => fun m => done_with (mkSubscription (sn_Path m) (sn_Mode m) (sn_SampleInterval m) s (sn_HeartbeatInterval m))
  | _ => type_error "SuppressRedundant"
  end).

(** ** Notifications and set results *)

Definition opt_Notification (opts : list GNMIOption) : GNMIOption := checked (fun k =>
  match k return msg k -> outcome (msg k) with
  | GetRsp => fun m => nested Notif opts m (fun n => mkGetRsp (gp_Notification m ++ [n]) (gp_Extension m))
  | SubRsp => fun m =>
      match sp_Rsp m with
      | Rsp_Update _ => nested Notif opts m (fun n => mkSubRsp (Rsp_Update (Some n)) (sp_Ext m))
      | _ => done_with m
      end
  | _ => type_error "Notification"
  end).

Definition opt_Timestamp (t : Z) : GNMIOption := checked (fun k =>
  match k return msg k -> outcome (msg k) with
  | Notif => fun m => done_with (mkNotif t (nm_Prefix m) (nm_Update m) (nm_Delete m) (nm_Atomic m))
  | SetRsp => fun m => done_with (mkSetRsp (sp_Prefix m) (sp_Response m) t (sp_Extension m))
  | _ => type_error "Timestamp"
  end).
(** The clock is read when the option is made. *)
Definition opt_TimestampNow (now : Z) : GNMIOption := opt_Timestamp (int64 now).

Definition opt_Atomic (b : bool) : GNMIOption := unchecked (fun k =>
  match k return msg k -> outcome (msg k) with
  | Notif => fun m => done_with (mkNotif (nm_Timestamp m) (nm_Prefix m) (nm_Update m) (nm_Delete m) b)
  | _ => type_error "Atomic"
  end).

Definition opt_UpdateResult (opts : list GNMIOption) : GNMIOption := unchecked (fun k =>
  match k return msg k -> outcome (msg k) with
  | SetRsp => fun m => nested UpdRes opts m (fun r => mkSetRsp (sp_Prefix m) (sp_Response m ++ [r]) (sp_Timestamp m) (sp_Extension m))
  | _ => type_error "UpdateResult"
  end).

Definition opt_Operation (oper : string) : GNMIOption := checked (fun k =>
  match k return msg k -> outcome (msg k) with
  | UpdRes => fun m =>
      match UpdateResult_Operation_value (ToUpper oper) with
      | None => fail (errInvalidValue "Operation") m
      | Some o => done_with (mkUpdateResult (ur_Path m) o)
      end
  | _ => type_error "Operation"
  end).
Definition opt_OperationINVALID := opt_Operation "INVALID".
Definition opt_OperationDELETE := opt_Operation "DELETE".
Definition opt_OperationREPLACE := opt_Operation "REPLACE".
Definition opt_OperationUPDATE := opt_Operation "UPDATE".
End enum_options.

(** ** What every option guarantees *)

(** The options of the package, with the kinds of message each acts on. Nested
    options are again options of the package. *)
Section built.
Context `{UnicodeCase} `{GnmiEnums} `{ValueEnv}.

Definition only (ks : list kind) (k : kind) : bool :=
  existsb (fun k' => match k, k' with
    | CapReq, CapReq | CapRsp, CapRsp | GetReq, GetReq | GetRsp, GetRsp | SetReq, SetReq | SetRsp, SetRsp
    | SubReq, SubReq | SubRsp, SubRsp | Notif, Notif | Upd, Upd | UpdRes, UpdRes | Subn, Subn | Foreign, Foreign => true
    | _, _ => false end) ks.

Inductive built : (kind -> bool) -> GNMIOption -> Prop :=
| b_Version v : built (only [CapRsp]) (opt_Version v)
| b_SupportedEncoding es : built (only [CapRsp]) (opt_SupportedEncoding es)
| b_SupportedModel n o v : built (only [CapRsp]) (opt_SupportedModel n o v)
| b_Extension e : built (fun _ => true) (opt_Extension e)
| b_CommitRequest id d : built (only [SetReq]) (opt_Extension_CommitRequest id d)
| b_CommitConfirm id : built (only [SetReq]) (opt_Extension_CommitConfirm id)
| b_CommitCancel id : built (only [SetReq]) (opt_Extension_CommitCancel id)
| b_CommitSet id d : built (only [SetReq]) (opt_Extension_CommitSetRollbackDuration id d)
| b_Depth l : built (only [GetReq; SubReq]) (opt_Extension_Depth l)
| b_Snapshot t : built (only [SubReq]) (opt_Extension_HistorySnapshotTime t)
| b_Range a b : built (only [SubReq]) (opt_Extension_HistoryRange a b)
| b_Prefix p : built (only [GetReq; SetReq; SetRsp; SubReq; Notif]) (opt_Prefix p)
| b_Target t : t <> "" -> built (only [GetReq; SetReq; SubReq]) (opt_Target t)
| b_Target_none : built (fun _ => true) (opt_Target "")
| b_Path p : built (only [GetReq; Upd; UpdRes; Subn]) (opt_Path p)
| b_Encoding e : built (only [GetReq; SubReq]) (opt_Encoding e)
| b_EncodingCustom e : built (only [GetReq; SubReq]) (opt_EncodingCustom e)
| b_DataType d : d <> "" -> built (only [GetReq]) (opt_DataType d)
| b_DataType_none : built (fun _ => true) (opt_DataType "")
| b_UseModel n o v : built (only [GetReq; SubReq]) (opt_UseModel n o v)
| b_Update os : Forall (fun o => exists a, built a o) os -> built (only [SetReq; Notif]) (opt_Update os)
| b_Replace os : Forall (fun o => exists a, built a o) os -> built (only [SetReq]) (opt_Replace os)
| b_UnionReplace os : Forall (fun o => exists a, built a o) os -> built (only [SetReq]) (opt_UnionReplace os)
| b_Value d e : built (only [Upd]) (opt_Value d e)
| b_Delete p : built (only [SetReq; Notif]) (opt_Delete p)
| b_ListMode m : built (only [SubReq]) (opt_SubscriptionListMode m)
| b_Qos q : built (only [SubReq]) (opt_Qos q)
| b_Aggregation b : built (only [SubReq]) (opt_AllowAggregation b)
| b_UpdatesOnly b : built (only [SubReq]) (opt_UpdatesOnly b)
| b_Subscription os : Forall (fun o => exists a, built a o) os -> built (only [SubReq]) (opt_Subscription os)
| b_Mode m : built (only [Subn]) (opt_SubscriptionMode m)
| b_Sample d : built (only [Subn]) (opt_SampleInterval d)
| b_Heartbeat d : built (only [Subn]) (opt_HeartbeatInterval d)
| b_Suppress b : built (only [Subn]) (opt_SuppressRedundant b)
| b_Notification os : Forall (fun o => exists a, built a o) os -> built (only [GetRsp; SubRsp]) (opt_Notification os)
| b_Timestamp t : built (only [Notif; SetRsp]) (opt_Timestamp t)
| b_Atomic b : built (only [Notif]) (opt_Atomic b)
| b_UpdateResult os : Forall (fun o => exists a, built a o) os -> built (only [SetRsp]) (opt_UpdateResult os)
| b_Operation o : built (only [UpdRes]) (opt_Operation o).

(** An option does not panic on a message; an option leaves a message it does
    not act on as it is, and says so. *)
Definition total (o : GNMIOption) : Prop := forall k m, exists m' e, on o k m = Ran m' e.
Definition refuses (a : kind -> bool) (o : GNMIOption) : Prop :=
  forall k m, a k = false -> exists e, on o k m = Ran m (Some e).
(** The options that do not test for nil. *)
Inductive unguarded : GNMIOption -> Prop :=
| u_Qos q : unguarded (opt_Qos q) | u_Aggregation b : unguarded (opt_AllowAggregation b)
| u_UpdatesOnly b : unguarded (opt_UpdatesOnly b) | u_Subscription os : unguarded (opt_Subscription os)
| u_Atomic b : unguarded (opt_Atomic b) | u_UpdateResult os : unguarded (opt_UpdateResult os).

Lemma apply_total {k} (m : msg k) opts : Forall total opts -> exists m' e, apply m opts = Ran m' e.
Proof.
  revert m; induction opts as [|o os IH]; intros m Ho; cbn; [eauto|].
  apply Forall_cons in Ho as [Ho Hos]. destruct (Ho k m) as (m' & [e|] & ->); eauto.
Qed.

Lemma nested_total {A} k opts (a : A) add : Forall total opts -> exists a' e, nested k opts a add = Ran a' e.
Proof.
  intros Ho. unfold nested. destruct (apply_total (zero_msg k) opts Ho) as (m' & [e|] & ->); eauto.
Qed.

Lemma on_list_total other f m :
  (forall l, exists l' e, f l = Ran l' e) -> exists m' e, on_list other f m = Ran m' e.
Proof.
  intros Hf. unfold on_list. destruct (sq_Request m) as [|l|]; eauto.
  destruct (Hf (default newSubList l)) as (l' & e & ->). cbn. eauto.
Qed.

Lemma value_runs data e : value data e <> Panic.
Proof.
  unfold value, value_scalar, json_text, value_string, json_string, or_parse, json_text.
  destruct data as [[]| |[]]; cbn; repeat case_match; done.
Qed.

Lemma add_encodings_total es m : exists m' e, add_encodings m es = Ran m' e.
Proof.
  revert m; induction es as [|e es IH]; intros m; cbn; unfold done_with; [eauto|].
  unfold add_encoding. destruct (Encoding_value _); cbn; unfold fail; eauto.
Qed.

(** Run an option on a message of a known kind. *)
Ltac run_option :=
  cbn [on checked unchecked opt_Version opt_SupportedEncoding opt_SupportedModel opt_Extension opt_Extension_CommitRequest
    opt_Extension_CommitConfirm opt_Extension_CommitCancel opt_Extension_CommitSetRollbackDuration opt_Extension_Depth
    opt_Extension_HistorySnapshotTime opt_Extension_HistoryRange extension_for is_SetReq is_SubReq is_GetReq_SubReq
    opt_Prefix opt_Target opt_Path opt_Encoding set_encoding opt_EncodingCustom opt_DataType opt_UseModel opt_Update opt_Replace
    opt_UnionReplace opt_Value opt_Delete opt_SubscriptionListMode list_option opt_Qos opt_AllowAggregation opt_UpdatesOnly
    opt_Subscription opt_SubscriptionMode opt_SampleInterval opt_HeartbeatInterval opt_SuppressRedundant opt_Notification
    opt_Timestamp opt_Atomic opt_UpdateResult opt_Operation];
  unfold done_with, fail in *;
  repeat match goal with
  | |- exists _, _ => progress eauto
  | |- exists m' e, on_list _ _ _ = Ran m' e => apply on_list_total; intros ?
  | |- exists m' e, nested _ _ _ _ = Ran m' e => apply nested_total; auto
  | |- exists m' e, add_encodings _ _ = Ran m' e => apply add_encodings_total
  | H : value ?d ?e = Panic |- _ => by destruct (value_runs d e)
  | |- context [let '(_, _) := ?x in _] => destruct x
  | |- context [match ?x with _ => _ end] => destruct x eqn:?
  | |- context [if ?x then _ else _] => destruct x eqn:?
  end.

Lemma built_total a o : built a o -> total o.
Proof.
  revert a o. fix IH 3. intros a o Hb.
  assert (forall os, Forall (fun o => exists a, built a o) os -> Forall total os) as Hos.
  { fix IHs 2. intros os [|o' os' [a' Ho] Hos]; constructor; [exact (IH _ _ Ho)|exact (IHs _ Hos)]. }
  destruct Hb; intros kk mm; destruct kk; run_option.
Qed.

Lemma built_refuses a o : built a o -> refuses a o.
Proof.
  destruct 1; intros kk mm Hk; destruct kk; try discriminate Hk; run_option;
    match goal with Ht : String.eqb _ "" = true |- _ => by apply String.eqb_eq in Ht end.
Qed.

Lemma built_nil a o :
  built a o -> unguarded o /\ on_nil o = Crashed \/ on_nil o = Ran tt (Some (errInvalidMsgType "")).
Proof. destruct 1; ((by right) || (left; split; [constructor|done])). Qed.
End built.

(** An option of the package never panics on a message, nested options
    included; a message of a kind it does not act on is left as it is and an
    error is returned ([Extension], and [Target] and [DataType] of the empty
    string, accept every kind); on a nil message it returns
    [ErrInvalidMsgType], except for the six options that do not test for nil,
    which panic. *)
Theorem options_contract `{UnicodeCase} `{GnmiEnums} `{ValueEnv} a o :
  built a o ->
  total o /\ refuses a o /\
  (unguarded o /\ on_nil o = Crashed \/ on_nil o = Ran tt (Some (errInvalidMsgType ""))).
Proof. intros Ho. split_and!; [by eapply built_total | by apply built_refuses | by eapply built_nil]. Qed.

(** ** What a set request is made of

    The options that fill a set request, as data. *)
Section set_request.
Context `{UnicodeCase} `{GnmiEnums} `{ValueEnv}.

Inductive set_option :=
| SO_Prefix (p : string) | SO_Target (t : string) | SO_Delete (p : string)
| SO_Update (p : string) (d : vdata) (e : string) | SO_Replace (p : string) (d : vdata) (e : string)
| SO_UnionReplace (p : string) (d : vdata) (e : string) | SO_Extension (e : extension).

Definition option_of (s : set_option) : GNMIOption :=
  match s with
  | SO_Prefix p => opt_Prefix p
  | SO_Target t => opt_Target t
  | SO_Delete p => opt_Delete p
  | SO_Update p d e => opt_Update [opt_Path p; opt_Value d e]
  | SO_Replace p d e => opt_Replace [opt_Path p; opt_Value d e]
  | SO_UnionReplace p d e => opt_UnionReplace [opt_Path p; opt_Value d e]
  | SO_Extension e => opt_Extension e
  end.

(** A path with a value: the update, or the first error. *)
Definition update_of (p : string) (d : vdata) (e : string) : Update + opt_error :=
  match ParsePath p with
  | Ok gp => match value d e with Ok tv => inl (mkUpdate (Some gp) tv) | Err err => inr err | Panic => inr errScalar end
  | _ => inr (errInvalidValue "")
  end.
Definition error_of {A} (r : A + opt_error) : option opt_error := match r with inl _ => None | inr e => Some e end.
Definition result_of {A} (r : A + opt_error) : option A := match r with inl a => Some a | inr _ => None end.

(** The error of an option on a set request. *)
Definition so_error (s : set_option) : option opt_error :=
  match s with
  | SO_Prefix p => match CreatePrefix p "" with Ok _ => None | _ => Some (errInvalidValue "") end
  | SO_Delete p => match ParsePath p with Ok _ => None | _ => Some (errInvalidValue "") end
  | SO_Update p d e | SO_Replace p d e | SO_UnionReplace p d e => error_of (update_of p d e)
  | SO_Target _ | SO_Extension _ => None
  end.

Definition deletes_of (s : set_option) : option GPath :=
  match s with SO_Delete p => match ParsePath p with Ok gp => Some gp | _ => None end | _ => None end.
Definition updates_of (s : set_option) : option Update := match s with SO_Update p d e => result_of (update_of p d e) | _ => None end.
Definition replaces_of (s : set_option) : option Update := match s with SO_Replace p d e => result_of (update_of p d e) | _ => None end.
Definition unions_of (s : set_option) : option Update := match s with SO_UnionReplace p d e => result_of (update_of p d e) | _ => None end.
Definition extensions_of (s : set_option) : option extension := match s with SO_Extension e => Some e | _ => None end.
(** A prefix replaces the one before it, and one that does not parse removes it. *)
Definition prefix_of (p : option GPath) (s : set_option) : option GPath :=
  match s with
  | SO_Prefix x => match CreatePrefix x "" with Ok q => q | _ => None end
  | SO_Target t => if String.eqb t "" then p else Some (mkGPath (default "" (p_Origin <$> p)) (default [] (p_Elem <$> p)) t)
  | _ => p
  end.

(** The options that succeed before the first that fails, that one, and its
    error. *)
Fixpoint applied (l : list set_option) : list set_option :=
  match l with [] => [] | s :: l => match so_error s with None => s :: applied l | Some _ => [] end end.
Fixpoint reached (l : list set_option) : list set_option :=
  match l with [] => [] | s :: l => match so_error s with None => s :: reached l | Some _ => [s] end end.
Fixpoint first_error (l : list set_option) : option opt_error :=
  match l with [] => None | s :: l => match so_error s with None => first_error l | Some e => Some e end end.

Lemma nested_update {A} p d e (a : A) add :
  nested Upd [opt_Path p; opt_Value d e] a add =
  match update_of p d e with inl u => Ran (add u) None | inr err => Ran a (Some err) end.
Proof.
  unfold nested, update_of. cbn [apply on opt_Path opt_Value checked zero_msg]. destruct (ParsePath p); cbn; [|done..].
  pose proof (value_runs d e). destruct (value d e); done.
Qed.

Lemma set_target_default t p : set_target t p = Some (mkGPath (default "" (p_Origin <$> p)) (default [] (p_Elem <$> p)) t).
Proof. by destruct p. Qed.

(** One option on a set request. *)
Lemma on_set_request s m :
  on (option_of s) SetReq m =
  Ran (mkSetReq (prefix_of (sr_Prefix m) s) (sr_Delete m ++ option_list (deletes_of s)) (sr_Replace m ++ option_list (replaces_of s))
         (sr_Update m ++ option_list (updates_of s)) (sr_UnionReplace m ++ option_list (unions_of s)) (sr_Extension m ++ option_list (extensions_of s)))
      (so_error s).
Proof.
  destruct m as [p del rep upd uni ext]. destruct s as [x|x|x|x d e|x d e|x d e|x];
    cbn -[CreatePrefix ParsePath value apply nested]; rewrite ?app_nil_r.
  - destruct (CreatePrefix x ""); done.
  - destruct (String.eqb x ""); cbn; rewrite ?app_nil_r; [done|]. by rewrite set_target_default.
  - destruct (ParsePath x); cbn; rewrite ?app_nil_r; done.
  - rewrite nested_update. destruct (update_of x d e); cbn; rewrite ?app_nil_r; done.
  - rewrite nested_update. destruct (update_of x d e); cbn; rewrite ?app_nil_r; done.
  - rewrite nested_update. destruct (update_of x d e); cbn; rewrite ?app_nil_r; done.
  - done.
Qed.

(** Nothing is added by the option that fails. *)
Lemma failed_adds_nothing s e :
  so_error s = Some e -> deletes_of s = None /\ updates_of s = None /\ replaces_of s = None /\ unions_of s = None /\ extensions_of s = None.
Proof.
  destruct s as [x|x|x|x d ec|x d ec|x d ec|x]; cbn; try done; [by destruct (ParsePath x)|..];
    destruct (update_of x d ec); done.
Qed.

Lemma apply_set_options l m :
  exists m', apply (k := SetReq) m (option_of <$> l) = Ran m' (first_error l) /\
    sr_Delete m' = sr_Delete m ++ omap deletes_of (applied l) /\ sr_Update m' = sr_Update m ++ omap updates_of (applied l) /\
    sr_Replace m' = sr_Replace m ++ omap replaces_of (applied l) /\ sr_UnionReplace m' = sr_UnionReplace m ++ omap unions_of (applied l) /\
    sr_Extension m' = sr_Extension m ++ omap extensions_of (applied l) /\ sr_Prefix m' = foldl prefix_of (sr_Prefix m) (reached l).
Proof.
  revert m; induction l as [|s l IH]; intros m.
  { exists m. cbn. by rewrite !app_nil_r. }
  cbn [fmap list_fmap apply applied reached first_error]. rewrite on_set_request. destruct (so_error s) as [e|] eqn:He.
  - destruct (failed_adds_nothing s e He) as (-> & -> & -> & -> & ->). cbn. rewrite !app_nil_r. eexists. split; [done|]. cbn. done.
  - match goal with |- context [apply ?x _] => destruct (IH x) as (m' & Ha & Hd & Hu & Hr & Hn & Hx & Hp) end.
    exists m'. split; [exact Ha|]. rewrite Hd, Hu, Hr, Hn, Hx, Hp. cbn. rewrite <-!app_assoc.
    destruct (deletes_of s), (updates_of s), (replaces_of s), (unions_of s), (extensions_of s); done.
Qed.

(** C13: the set request made of any list of options: prefixes, targets, deletes,
    updates, replaces and union replaces of a path with a value, and extensions.
    It never panics. The options apply in order up to the first that fails,
    whose error is returned next to the message: a path or prefix that does not
    parse, or a value its encoding does not accept. The message holds the
    deletes, updates, replaces, union replaces and extensions of the options
    before it, each kind in its own list and in the order given. Its prefix is
    the last one given, with the last target given after it, and none when it
    is the prefix that did not parse. *)
Theorem NewSetRequest_spec (l : list set_option) :
  exists m, NewSetRequest (option_of <$> l) = Ran m (first_error l) /\
    sr_Delete m = omap deletes_of (applied l) /\ sr_Update m = omap updates_of (applied l) /\
    sr_Replace m = omap replaces_of (applied l) /\ sr_UnionReplace m = omap unions_of (applied l) /\
    sr_Extension m = omap extensions_of (applied l) /\ sr_Prefix m = foldl prefix_of None (reached l).
Proof. apply (apply_set_options l (zero_msg SetReq)). Qed.
End set_request.

(** ** Concrete tables for the witnesses *)

(** The enums of gnmi.proto. *)
Definition proto_enums : GnmiEnums := {|
  Encoding_value s := ({["JSON" := 0; "BYTES" := 1; "PROTO" := 2; "ASCII" := 3; "JSON_IETF" := 4]} : gmap string Z) !! s;
  GetRequest_DataType_value s := ({["ALL" := 0; "CONFIG" := 1; "STATE" := 2; "OPERATIONAL" := 3]} : gmap string Z) !! s;
  SubscriptionList_Mode_value s := ({["STREAM" := 0; "ONCE" := 1; "POLL" := 2]} : gmap string Z) !! s;
  SubscriptionMode_value s := ({["TARGET_DEFINED" := 0; "ON_CHANGE" := 1; "SAMPLE" := 2]} : gmap string Z) !! s;
  UpdateResult_Operation_value s := ({["INVALID" := 0; "DELETE" := 1; "REPLACE" := 2; "UPDATE" := 3]} : gmap string Z) !! s
|}.
(** An environment in which only JSON strings without quotes are encoded. *)
Definition plain_values : ValueEnv := {|
  json_Marshal _ := None; json_Encode v := match v with AStr s => Some (String "034" (s +:+ String "034" (String "010" ""))) | _ => None end;
  json_Valid _ := false; FromScalar _ := None; ParseFloat32 _ := None |}.

Example value_ex :
  value (H := case_ascii) (H1 := plain_values) (VAny (AStr "up")) "JSON_IETF" = Ok (Some (JsonIetfVal (String "034" ("up" +:+ String "034" ""))))
  /\ value (H := case_ascii) (H1 := plain_values) (VAny (AStr "-5")) "int" = Ok (Some (IntVal (-5)))
  /\ value (H := case_ascii) (H1 := plain_values) (VAny (AStr "-5")) "uint" = Err errValueParse
  /\ value (H := case_ascii) (H1 := plain_values) (VAny (AMap None)) "proto" = Err (errInvalidValue "value").
Proof. by vm_compute. Qed.

(** An update, a delete, a path that does not parse, and another update: the
    message has the first two, and the error is returned. *)
Example set_request_ex :
  let '(m, err) := match NewSetRequest (option_of (H := case_ascii) (H1 := plain_values) <$>
      [SO_Prefix "/a"; SO_Target "r1"; SO_Update "/b" (VAny (AStr "1")) "int"; SO_Delete "/c"; SO_Delete "/d["; SO_Update "/e" (VAny (AStr "2")) "int"])
    with Ran m e => (m, e) | Crashed => (zero_msg SetReq, None) end in
  (upd_Val <$> sr_Update m, length (sr_Delete m), p_Target <$> sr_Prefix m, err) = ([Some (IntVal 1)], 1%nat, Some "r1", Some (errInvalidValue "")).
Proof. by vm_compute. Qed.

Lemma options_contract_witness :
  built (H := case_ascii) (H0 := proto_enums) (H1 := plain_values) (only [SubReq]) (opt_Subscription [opt_Path "/a"]) /\
  total (opt_Subscription [opt_Path "/a"]).
Proof.
  assert (built (H := case_ascii) (H0 := proto_enums) (H1 := plain_values) (only [SubReq])
    (opt_Subscription [opt_Path "/a"])) as Hb.
  { constructor. constructor; [|constructor]. eexists. constructor. }
  split; [exact Hb|]. exact (proj1 (options_contract (H := case_ascii) (H0 := proto_enums) (H1 := plain_values) _ _ Hb)).
Defined.
