(* ===== verification/Outputs.v ===== *)
(** * The outputs manager and the inputs manager (pkg/collector/managers)

    Both managers start a component per configuration of their kind, follow its
    changes, publish its state and record which event processors it uses, so that
    a processor in use is not deleted; the outputs manager also hands messages to
    the outputs. They are the same code over two interfaces: [ComponentImpl] is
    what a component promises, the section [manager] is the common part, with the
    differences as arguments. *)

From stdpp Require Import strings.
From stdpp Require Import relations.
From S2P Require Import Prelude GoStrings Utf8 Path GoVal Text Event Messages.

#[local] Open Scope Z_scope.

Abbreviation config := (gmap string any).

(** What an output or an input is to its manager. An operation may fail with a
    message, and the component has a state then too. *)
Class ComponentImpl : Type := {
  impl : Type;
  factory : string -> bool;                          (** the type is known *)
  impl_start : string -> string -> config -> string + impl;  (** type, name *)
  impl_update : impl -> config -> option string * impl;
  impl_close : impl -> option string;
  impl_processor : impl -> string -> config -> option string * impl
}.

(** ** Processors in use *)

(** The names in [event-processors], a list of a decoded file or of JSON. *)
Definition extractProcessors (cfg : config) : list string :=
  match cfg !! "event-processors" with
  | Some (ASlice l) => omap as_string (default [] l)
  | Some (AStrs l) => default [] l
  | _ => []
  end.

Abbreviation usage := (gmap string (gset string)).

Definition trackProcessorsInUse (out : string) (procs : list string) (u : usage) : usage :=
  foldl (fun u p => <[p := {[out]} ∪ default ∅ (u !! p)]> u) u procs.

Definition untrack1 (out : string) (u : usage) (p : string) : usage :=
  match u !! p with
  | Some users => let users := users ∖ {[out]} in
                  if bool_decide (users = ∅) then delete p u else <[p := users]> u
  | None => u
  end.
Definition untrackProcessorsInUse (out : string) (procs : list string) (u : usage) : usage := foldl (untrack1 out) u procs.

Definition processor_in_use (u : usage) (p : string) : bool :=
  match u !! p with Some users => negb (bool_decide (users = ∅)) | None => false end.

(** ** The common manager *)

Inductive comp_state := SRunning | SStopped | SFailed (reason : string) | SStopping.
#[export] Instance comp_state_eq_dec : EqDecision comp_state.
Proof. solve_decision. Defined.

Section manager.
Context `{ComponentImpl}.

Record managed := mkManagedComp { mc_impl : impl; mc_Cfg : config }.

(** [cm_states]: the entries of the state store; [cm_configs]: those of the
    configuration store, of the kind the manager runs. *)
Record cmanager := mkCM {
  cm_comps : gmap string managed;
  cm_inUse : usage;
  cm_states : gmap string comp_state;
  cm_configs : gmap string config
}.

Definition set_comp_state (name : string) (s : comp_state) (m : cmanager) : cmanager :=
  mkCM (cm_comps m) (cm_inUse m) (<[name := s]> (cm_states m)) (cm_configs m).

Definition ProcessorInUse (m : cmanager) (p : string) : bool := processor_in_use (cm_inUse m) p.

(** The table and the records, under the lock of the manager. *)
Definition add_component (name : string) (i : impl) (cfg : config) (m : cmanager) : cmanager :=
  mkCM (<[name := mkManagedComp i cfg]> (cm_comps m)) (trackProcessorsInUse name (extractProcessors cfg) (cm_inUse m))
    (cm_states m) (cm_configs m).

Definition component_type (cfg : config) : string := default "" (cfg !! "type" ≫= as_string).

(** Creating a component up to its own start, which gives a component that
    already runs. [unknown] is the text for an unknown type; [clustering_ok]: the
    clustering configuration, which outputs read, could be read. *)
Definition start_component (unknown : string) (clustering_ok : bool) (name : string) (cfg : config) (m : cmanager) : cmanager + impl :=
  let typ := component_type cfg in
  if negb (factory typ) then inl (set_comp_state name (SFailed (unknown +:+ typ)) m)
  else if negb clustering_ok then inl m
  else match impl_start typ name cfg with
       | inl e => inl (set_comp_state name (SFailed e) m)
       | inr i => inr i
       end.
(** With nothing in between: the component is added, and its state is set once
    the lock is released. *)
Definition create_component (unknown : string) (clustering_ok : bool) (name : string) (cfg : config) (m : cmanager) : cmanager :=
  match start_component unknown clustering_ok name cfg m with
  | inl m => m
  | inr i => set_comp_state name SRunning (add_component name i cfg m)
  end.

(** The parts of an update of a component that runs, after its look-up under the
    lock of the manager: the component's own update, under the lock of the
    component only; the bookkeeping under the lock of the manager again; and the
    configuration of the component looked up. Each does what it does to that
    component, which a deletion may have taken out of the table. *)
Definition run_update (name : string) (old : managed) (cfg : config) (m : cmanager) : option string * cmanager :=
  let '(e, i) := impl_update (mc_impl old) cfg in
  (e, mkCM (alter (fun mc => mkManagedComp i (mc_Cfg mc)) name (cm_comps m)) (cm_inUse m) (cm_states m) (cm_configs m)).
Definition track_update (name : string) (old : managed) (cfg : config) (m : cmanager) : cmanager :=
  mkCM (cm_comps m)
    (trackProcessorsInUse name (extractProcessors cfg) (untrackProcessorsInUse name (extractProcessors (mc_Cfg old)) (cm_inUse m)))
    (cm_states m) (cm_configs m).
Definition set_Cfg (name : string) (cfg : config) (m : cmanager) : cmanager :=
  mkCM (alter (fun mc => mkManagedComp (mc_impl mc) cfg) name (cm_comps m)) (cm_inUse m) (cm_states m) (cm_configs m).

(** With nothing in between. *)
Definition update_component (unknown : string) (clustering_ok : bool) (name : string) (cfg : config) (m : cmanager) : cmanager :=
  match cm_comps m !! name with
  | None => create_component unknown clustering_ok name cfg m
  | Some old => match run_update name old cfg m with
                | (Some _, m) => m
                | (None, m) => set_Cfg name cfg (track_update name old cfg m)
                end
  end.

(** A component that cannot be closed keeps running, in state stopping; the
    state of a component that does not run is dropped, its configuration stays. *)
Definition stopped (name : string) (mc : managed) (m : cmanager) : cmanager :=
  mkCM (delete name (cm_comps m)) (untrackProcessorsInUse name (extractProcessors (mc_Cfg mc)) (cm_inUse m))
    (<[name := SStopped]> (cm_states m)) (cm_configs m).
Definition delete_component (name : string) (m : cmanager) : option string * cmanager :=
  match cm_comps m !! name with
  | None => (None, mkCM (cm_comps m) (cm_inUse m) (delete name (cm_states m)) (cm_configs m))
  | Some mc =>
      match impl_close (mc_impl mc) with
      | Some e => (Some e, set_comp_state name SStopping m)
      | None => let m := stopped name mc m in
                (None, mkCM (cm_comps m) (cm_inUse m) (delete name (cm_states m)) (delete name (cm_configs m)))
      end
  end.
(** [StopOutput]: the configuration and the state stay. *)
Definition StopOutput (name : string) (m : cmanager) : option string * cmanager :=
  match cm_comps m !! name with
  | None => (None, m)
  | Some mc => match impl_close (mc_impl mc) with
               | Some e => (Some e, set_comp_state name SStopping m)
               | None => (None, stopped name mc m)
               end
  end.

Definition update_processors (p : string) (cfg : config) (m : cmanager) : cmanager :=
  mkCM ((fun mc => mkManagedComp (impl_processor (mc_impl mc) p cfg).2 (mc_Cfg mc)) <$> cm_comps m) (cm_inUse m) (cm_states m) (cm_configs m).

(** [Stop]: every component is closed, and stays in the table. *)
Definition stop_all (m : cmanager) : cmanager :=
  mkCM (cm_comps m) (cm_inUse m) (((fun _ => SStopped) <$> cm_comps m) ∪ cm_states m) (cm_configs m).

(** One event of the store; [None]: its object is not a configuration. *)
Inductive comp_event :=
| EvCreate (name : string) (cfg : config) | EvUpdate (name : string) (cfg : config) | EvDelete (name : string) (cfg : option config)
| EvProcessor (name : string) (cfg : config) | EvInvalid.

Definition handle_comp_event (unknown : string) (clustering_ok : bool) (ev : comp_event) (m : cmanager) : cmanager :=
  match ev with
  | EvCreate name cfg => create_component unknown clustering_ok name cfg m
  | EvUpdate name cfg => update_component unknown clustering_ok name cfg m
  | EvDelete name (Some _) => (delete_component name m).2
  | EvProcessor name cfg => update_processors name cfg m
  | EvDelete _ None | EvInvalid => m
  end.

(** ** The two managers *)

Definition createOutput := create_component "unknown output type: ".
Definition updateOutput := update_component "unknown output type: ".
Definition DeleteOutput := delete_component.
Definition outputs_event := handle_comp_event "unknown output type: ".
Definition createInput := create_component "unknown input type: " true.
Definition updateInput := update_component "unknown input type: " true.
Definition DeleteInput := delete_component.
Definition inputs_event := handle_comp_event "unknown input type: " true.

(** ** Writing to outputs *)

Definition running (m : cmanager) (name : string) : bool := bool_decide (cm_states m !! name = Some SRunning).

(** The names of the outputs that get a message; no names at all in the message
    stand for all of them. *)
Definition getOutputsForTarget `{MapOrder} (outs : gset string) (m : cmanager) : list string :=
  filter (fun name => (bool_decide (outs = ∅) || bool_decide (name ∈ outs)) && running m name = true) (range (cm_comps m)).*1.

(** The calls of [write] for a message with events, or a response with its meta. *)
Inductive out_call {A : Type} := CWriteEvent (out : string) (ev : EventMsg) | CWrite (out : string) (rsp : A).
Arguments out_call : clear implicits.
Definition write `{MapOrder} {A} (outs : gset string) (events : list EventMsg) (rsp : A) (m : cmanager) : list (out_call A) :=
  concat (map (fun name => match events with
                           | [] => [CWrite name rsp]
                           | _ => map (CWriteEvent name) events
                           end) (getOutputsForTarget outs m)).
End manager.

(** ** The cache *)

(** What [WriteToCache] writes: the subscription and a copy of the response with
    a target; [None]: nothing is written. An update without a notification
    would be dereferenced. *)
Definition WriteToCache (meta : gomap string) (rsp : option SubscribeRsp) : go Empty_set (option (string * SubscribeRsp)) :=
  match rsp with
  | Some (mkSubRsp (Rsp_Update (Some n)) ext) =>
      let subName := default "" (gm_get meta "subscription-name") in
      let subName := if String.eqb subName "" then "default" else subName in
      let prefix := default (mkGPath "" [] "") (nm_Prefix n) in
      let target := if String.eqb (p_Target prefix) "" then GetHost (default "" (gm_get meta "source")) else p_Target prefix in
      Ok (if String.eqb target "" then None
          else Some (subName, mkSubRsp (Rsp_Update (Some (mkNotif (nm_Timestamp n) (Some (mkGPath (p_Origin prefix) (p_Elem prefix) target))
                                                            (nm_Update n) (nm_Delete n) (nm_Atomic n)))) ext))
  | Some (mkSubRsp (Rsp_Update None) _) => Panic
  | _ => Ok None
  end.

(** * Interleaving *)

(** The event loop is one goroutine, between whose steps the API may ask the
    outputs manager to delete or stop an output, ask whether a processor is in
    use, and change configurations. *)
Section interleaving.
Context `{ComponentImpl}.
Variable (unknown : string).

(** Where the event loop is: it waits for an event; it started a component that
    is not in the table yet; it added one whose state is not set; it looked up the
    component to update; the component updated itself; the records are changed. *)
Inductive event_loop :=
| Waiting
| Started (name : string) (cfg : config) (i : impl)
| Added (name : string)
| LookedUp (name : string) (old : managed) (cfg : config)
| Updated (name : string) (old : managed) (cfg : config)
| Tracked (name : string) (cfg : config).

Definition mstate : Type := cmanager * event_loop.

(** What a run tells of itself: the configurations that the loop took up, to
    create or to update a component, and those of updates that failed. *)
Inductive mlabel := Began (cfg : config) | Refused (cfg : config).

Inductive mstep : mstate -> list mlabel -> mstate -> Prop :=
| ms_start_fails m name cfg ok m' : start_component unknown ok name cfg m = inl m' -> mstep (m, Waiting) [Began cfg] (m', Waiting)
| ms_starts m name cfg ok i : start_component unknown ok name cfg m = inr i -> mstep (m, Waiting) [Began cfg] (m, Started name cfg i)
| ms_adds m name cfg i : mstep (m, Started name cfg i) [] (add_component name i cfg m, Added name)
| ms_runs m name : mstep (m, Added name) [] (set_comp_state name SRunning m, Waiting)
| ms_looks_up m name old cfg : cm_comps m !! name = Some old -> mstep (m, Waiting) [Began cfg] (m, LookedUp name old cfg)
| ms_update_fails m name old cfg e m' :
    run_update name old cfg m = (Some e, m') -> mstep (m, LookedUp name old cfg) [Refused cfg] (m', Waiting)
| ms_updates m name old cfg m' :
    run_update name old cfg m = (None, m') -> mstep (m, LookedUp name old cfg) [] (m', Updated name old cfg)
| ms_tracks m name old cfg : mstep (m, Updated name old cfg) [] (track_update name old cfg m, Tracked name cfg)
| ms_sets m name cfg : mstep (m, Tracked name cfg) [] (set_Cfg name cfg m, Waiting)
| ms_processor m p cfg : mstep (m, Waiting) [] (update_processors p cfg m, Waiting)
| ms_delete m u name : mstep (m, u) [] ((delete_component name m).2, u)
| ms_stop m u name : mstep (m, u) [] ((StopOutput name m).2, u)
| ms_configs m u configs : mstep (m, u) [] (mkCM (cm_comps m) (cm_inUse m) (cm_states m) configs, u).

Inductive mrun : mstate -> list mlabel -> mstate -> Prop :=
| mrun_refl s : mrun s [] s
| mrun_step s l s1 ls s2 : mrun s ls s1 -> mstep s1 l s2 -> mrun s (ls ++ l) s2.

Lemma mrun_trans s1 s2 s3 ls1 ls2 : mrun s1 ls1 s2 -> mrun s2 ls2 s3 -> mrun s1 (ls1 ++ ls2) s3.
Proof.
  intros H1 H2. induction H2 as [s|s l s' ls s2 _ IH Hs]; [by rewrite app_nil_r|]. rewrite app_assoc. by eapply mrun_step; [apply IH|].
Qed.

Definition cm0 : cmanager := mkCM ∅ ∅ ∅ ∅.
End interleaving.

(** What a component promises of the event processors it runs its events
    through: they are named in the configuration it was started or last updated
    with. An update that fails may leave it with those of the configuration that
    failed (several outputs put the new processors in place before the steps that
    can fail), and later updates may keep them. *)
Class ComponentUses `{ComponentImpl} : Type := {
  uses_procs : impl -> gset string;
  left_procs : impl -> gset string;                (** left from updates that failed *)
  uses_start t n cfg i : impl_start t n cfg = inr i -> forall p,
    (p ∈ uses_procs i -> p ∈ extractProcessors cfg) /\ p ∉ left_procs i;
  uses_update i cfg i' : impl_update i cfg = (None, i') -> forall p,
    (p ∈ uses_procs i' -> p ∈ extractProcessors cfg \/ p ∈ left_procs i) /\ (p ∈ left_procs i' -> p ∈ left_procs i);
  uses_refused i cfg e i' : impl_update i cfg = (Some e, i') -> forall p,
    (p ∈ uses_procs i' -> p ∈ uses_procs i \/ p ∈ extractProcessors cfg)
    /\ (p ∈ left_procs i' -> p ∈ left_procs i \/ p ∈ extractProcessors cfg);
  uses_processor i q cfg p :
    (p ∈ uses_procs (impl_processor i q cfg).2 -> p ∈ uses_procs i) /\ (p ∈ left_procs (impl_processor i q cfg).2 -> p ∈ left_procs i)
}.

(** * Lemmas *)

Definition uses (u : usage) (p o : string) : Prop := o ∈ default ∅ (u !! p).

Lemma uses_in_use u p : processor_in_use u p = true <-> exists o, uses u p o.
Proof.
  unfold processor_in_use, uses. destruct (u !! p) as [users|]; cbn; [|split; [done|intros [o Ho]; by apply elem_of_empty in Ho]].
  rewrite negb_true_iff, bool_decide_eq_false. split.
  - intros Hne. by apply set_choose_L in Hne.
  - intros [o Ho] ->. by apply elem_of_empty in Ho.
Qed.

Lemma uses_insert u p users q o : uses (<[p := users]> u) q o <-> (if decide (p = q) then o ∈ users else uses u q o).
Proof. unfold uses. destruct (decide (p = q)) as [->|Hp]; [by rewrite lookup_insert_eq|by rewrite lookup_insert_ne]. Qed.

Lemma uses_track out procs u p o : uses (trackProcessorsInUse out procs u) p o <-> uses u p o \/ o = out /\ p ∈ procs.
Proof.
  unfold trackProcessorsInUse. revert u; induction procs as [|q procs IH]; intros u; cbn [foldl]; [rewrite elem_of_nil; tauto|].
  rewrite IH, uses_insert, elem_of_cons. unfold uses. destruct (decide (q = p)) as [->|Hq]; [|naive_solver].
  rewrite elem_of_union, elem_of_singleton. tauto.
Qed.

Lemma uses_untrack1 out u q p o : uses (untrack1 out u q) p o <-> uses u p o /\ ~ (o = out /\ p = q).
Proof.
  unfold untrack1. destruct (u !! q) as [users|] eqn:Hq.
  - case_bool_decide as He.
    + unfold uses. destruct (decide (p = q)) as [->|Hp].
      * rewrite lookup_delete_eq, Hq. cbn. rewrite elem_of_empty. split; [done|]. intros [Ho Hn].
        assert (o ∈ users ∖ {[out]}) as Hin by (rewrite elem_of_difference, elem_of_singleton; tauto). rewrite He in Hin. by apply elem_of_empty in Hin.
      * rewrite lookup_delete_ne by done. tauto.
    + rewrite uses_insert. destruct (decide (q = p)) as [->|Hp]; [|naive_solver].
      unfold uses. rewrite Hq. cbn. rewrite elem_of_difference, elem_of_singleton. tauto.
  - split; [|tauto]. intros Hu. split; [done|]. intros [-> ->]. unfold uses in Hu. rewrite Hq in Hu. by apply elem_of_empty in Hu.
Qed.

Lemma uses_untrack out procs u p o : uses (untrackProcessorsInUse out procs u) p o <-> uses u p o /\ ~ (o = out /\ p ∈ procs).
Proof.
  unfold untrackProcessorsInUse. revert u; induction procs as [|q procs IH]; intros u; cbn [foldl]; [rewrite elem_of_nil; tauto|].
  rewrite IH, uses_untrack1, elem_of_cons. tauto.
Qed.

Lemma lookup_deleted `{ComponentImpl} m name o mc :
  cm_comps (delete_component name m).2 !! o = Some mc \/ cm_comps (StopOutput name m).2 !! o = Some mc -> cm_comps m !! o = Some mc.
Proof.
  unfold delete_component, StopOutput. destruct (cm_comps m !! name) as [mc0|] eqn:Hn; [|by intros [|]].
  destruct (impl_close _); cbn; [by intros [|]|]. intros [Hl|Hl]; by apply lookup_delete_Some in Hl as [_ ?].
Qed.

(** A deletion forgets what it records of the component deleted only. *)
Lemma uses_deleted `{ComponentImpl} m name o mc p :
  cm_comps (delete_component name m).2 !! o = Some mc -> uses (cm_inUse m) p o -> uses (cm_inUse (delete_component name m).2) p o.
Proof.
  unfold delete_component. destruct (cm_comps m !! name) as [mc0|]; [|done]. destruct (impl_close _); [done|].
  cbn. intros [Hne _]%lookup_delete_Some Hu. apply uses_untrack. split; [done|]. by intros [-> _].
Qed.
Lemma uses_stopped `{ComponentImpl} m name o mc p :
  cm_comps (StopOutput name m).2 !! o = Some mc -> uses (cm_inUse m) p o -> uses (cm_inUse (StopOutput name m).2) p o.
Proof.
  unfold StopOutput. destruct (cm_comps m !! name) as [mc0|]; [|done]. destruct (impl_close _); [done|].
  cbn. intros [Hne _]%lookup_delete_Some Hu. apply uses_untrack. split; [done|]. by intros [-> _].
Qed.

(** A start that fails changes states only. *)
Lemma start_fails_same `{ComponentImpl} unknown ok name cfg m m' : start_component unknown ok name cfg m = inl m' ->
  cm_comps m' = cm_comps m /\ cm_inUse m' = cm_inUse m.
Proof. unfold start_component. destruct (negb _); [by intros [= <-]|]. destruct (negb ok); [by intros [= <-]|]. destruct (impl_start _ _ _); [by intros [= <-]|done]. Qed.
Lemma starts_impl `{ComponentImpl} unknown ok name cfg m i : start_component unknown ok name cfg m = inr i ->
  impl_start (component_type cfg) name cfg = inr i.
Proof. unfold start_component. destruct (negb _); [done|]. destruct (negb ok); [done|]. by destruct (impl_start _ _ _) eqn:E; [|intros [= <-]]. Qed.

(** What an update by the component does to the table. *)
Lemma run_update_inv `{ComponentImpl} name old cfg m e m' : run_update name old cfg m = (e, m') ->
  cm_inUse m' = cm_inUse m /\ exists i, impl_update (mc_impl old) cfg = (e, i) /\
  forall o mc, cm_comps m' !! o = Some mc ->
    (o <> name /\ cm_comps m !! o = Some mc) \/ (o = name /\ mc_impl mc = i /\ exists mc0, cm_comps m !! o = Some mc0).
Proof.
  unfold run_update. destruct (impl_update _ _) as [e' i] eqn:E. intros [= -> <-]. split; [done|]. exists i. split; [done|].
  intros o mc. cbn [cm_comps]. destruct (decide (o = name)) as [->|Hne].
  - rewrite lookup_alter_eq. intros (mc0 & Hmc0 & ->)%fmap_Some. right. by eauto.
  - rewrite lookup_alter_ne by done. by left.
Qed.

Section invariant.
Context `{ComponentUses}.
Implicit Types (m : cmanager).

Definition refused_name (ls : list mlabel) (p : string) : Prop := exists cfg, Refused cfg ∈ ls /\ p ∈ extractProcessors cfg.
Lemma refused_app ls l p : refused_name ls p -> refused_name (ls ++ l) p.
Proof. intros (cfg & Hin & Hp). exists cfg. split; [|done]. apply elem_of_app. by left. Qed.

(** What covers the processors of a component: the records, or the configuration
    of an update that is not recorded yet. *)
Definition covered m (u : event_loop) (p o : string) : Prop :=
  match u with
  | Updated name _ cfg => if decide (name = o) then p ∈ extractProcessors cfg else uses (cm_inUse m) p o
  | _ => uses (cm_inUse m) p o
  end.

(** The component looked up is still in the table, or it was deleted. *)
Definition still (m : cmanager) (name : string) (old : managed) : Prop := forall mc, cm_comps m !! name = Some mc -> mc = old.

Definition loop_ok m (u : event_loop) : Prop :=
  match u with
  | Started _ cfg i => forall p, (p ∈ uses_procs i -> p ∈ extractProcessors cfg) /\ p ∉ left_procs i
  | LookedUp name old _ => still m name old
  | _ => True
  end.

Definition minv (ls : list mlabel) (s : mstate) : Prop :=
  (forall o mc p, cm_comps s.1 !! o = Some mc ->
     (p ∈ uses_procs (mc_impl mc) -> covered s.1 s.2 p o \/ refused_name ls p) /\ (p ∈ left_procs (mc_impl mc) -> refused_name ls p))
  /\ loop_ok s.1 s.2.

(** Taking components out of the table, with no record of the others lost. *)
Lemma minv_shrink ls m m' u : minv ls (m, u) ->
  (forall o mc, cm_comps m' !! o = Some mc -> cm_comps m !! o = Some mc) ->
  (forall o mc p, cm_comps m' !! o = Some mc -> uses (cm_inUse m) p o -> uses (cm_inUse m') p o) -> minv ls (m', u).
Proof.
  intros [Ha Hl] Hc Hu. split; cbn [fst snd] in *.
  - intros o mc p Hmc. destruct (Ha o mc p (Hc _ _ Hmc)) as [Huse Hleft]. split; [|done]. intros Hp.
    destruct (Huse Hp) as [Hcov|]; [left|by right]. unfold covered in *. destruct u; eauto. case_decide; eauto.
  - destruct u; cbn [loop_ok] in *; try done. intros mc Hmc. by apply Hl, Hc.
Qed.

Lemma minv_tracks ls m name old cfg : minv ls (m, Updated name old cfg) -> minv ls (track_update name old cfg m, Tracked name cfg).
Proof.
  intros [Ha _]. split; [|done]. intros o mc p Hmc. cbn in *. destruct (Ha o mc p Hmc) as [Huse Hleft].
  split; [|done]. intros Hp. destruct (Huse Hp) as [Hcov|]; [left|by right]. rewrite uses_track, uses_untrack. cbn in Hcov.
  case_decide as Hn; [right; by subst|]. left. split; [done|]. intros [-> _]. done.
Qed.

Lemma minv_adds ls m name cfg i : minv ls (m, Started name cfg i) -> minv ls (add_component name i cfg m, Added name).
Proof.
  intros [Ha Hl]. split; [|done]. cbn in *. intros o mc p. rewrite uses_track. destruct (decide (o = name)) as [->|Hne].
  - rewrite lookup_insert_eq. intros [= <-]. cbn. destruct (Hl p) as [Hlp Hr]. split; [|by intros ?%Hr]. intros Hp. left. right. auto.
  - rewrite lookup_insert_ne by done. intros Hmc. destruct (Ha o mc p Hmc) as [Huse Hleft]. split; [|done]. intros Hp.
    destruct (Huse Hp); [left; by left|by right].
Qed.

Lemma minv_refused ls m name old cfg e m' : minv ls (m, LookedUp name old cfg) -> run_update name old cfg m = (Some e, m') ->
  minv (ls ++ [Refused cfg]) (m', Waiting).
Proof.
  intros [Ha Hl] (Hu & i & Hi & Hc)%run_update_inv. split; [|done]. cbn in *. rewrite Hu. intros o mc p Hmc.
  assert (p ∈ extractProcessors cfg -> refused_name (ls ++ [Refused cfg]) p) as Hnew.
  { intros Hp. exists cfg. split; [|done]. apply elem_of_app. right. by apply list_elem_of_singleton. }
  destruct (Hc o mc Hmc) as [[Hne Hmc0]|(-> & -> & mc0 & Hmc0)].
  - destruct (Ha o mc p Hmc0) as [Huse Hleft]. split; [intros Hp; destruct (Huse Hp); [by left|right]|intros Hp]; by eauto using refused_app.
  - pose proof (Hl mc0 Hmc0) as ->. destruct (Ha name old p Hmc0) as [Huse Hleft]. destruct (uses_refused _ _ _ _ Hi p) as [H1 H2]. split.
    + intros [Hp|Hp]%H1; [|right; by apply Hnew]. destruct (Huse Hp); [by left|right; by apply refused_app].
    + intros [Hp|Hp]%H2; [by apply refused_app, Hleft|by apply Hnew].
Qed.

Lemma minv_updates ls m name old cfg m' : minv ls (m, LookedUp name old cfg) -> run_update name old cfg m = (None, m') ->
  minv ls (m', Updated name old cfg).
Proof.
  intros [Ha Hl] (Hu & i & Hi & Hc)%run_update_inv. split; [|done]. cbn in *. rewrite Hu. intros o mc p Hmc.
  destruct (Hc o mc Hmc) as [[Hne Hmc0]|(-> & -> & mc0 & Hmc0)].
  - destruct (Ha o mc p Hmc0) as [Huse Hleft]. split; [|done]. by rewrite decide_False.
  - pose proof (Hl mc0 Hmc0) as ->. destruct (Ha name old p Hmc0) as [_ Hleft]. destruct (uses_update _ _ _ Hi p) as [H1 H2].
    rewrite decide_True by done. split; [intros [Hp|Hp]%H1; [by left|right; auto]|auto].
Qed.

(** The same components up to the processors and the configurations they hold. *)
Lemma minv_map ls m m' u (f : managed -> managed) : minv ls (m, u) -> (forall name old cfg, u <> LookedUp name old cfg) ->
  cm_inUse m' = cm_inUse m -> (forall o mc, cm_comps m' !! o = Some mc -> exists mc0, cm_comps m !! o = Some mc0 /\ forall p,
    (p ∈ uses_procs (mc_impl mc) -> p ∈ uses_procs (mc_impl mc0)) /\ (p ∈ left_procs (mc_impl mc) -> p ∈ left_procs (mc_impl mc0))) ->
  minv ls (m', u).
Proof.
  intros [Ha Hl] Hnl Hu Hc. split; cbn [fst snd] in *.
  - intros o mc p (mc0 & Hmc0 & Hp)%Hc. destruct (Ha o mc0 p Hmc0) as [Huse Hleft]. destruct (Hp p) as [Hp1 Hp2].
    split; [intros Hin%Hp1%Huse|by intros Hin%Hp2%Hleft]. unfold covered in *. by rewrite Hu.
  - destruct u; cbn [loop_ok] in *; try done. by destruct (Hnl name old cfg).
Qed.

Lemma minv_processor ls m p cfg : minv ls (m, Waiting) -> minv ls (update_processors p cfg m, Waiting).
Proof.
  intros Hi. apply (minv_map ls m _ Waiting id Hi); [done|done|]. intros o mc. cbn. rewrite lookup_fmap.
  intros (mc0 & Hmc0 & ->)%fmap_Some. exists mc0. split; [done|]. intros q. cbn. apply uses_processor.
Qed.
Lemma minv_sets ls m name cfg : minv ls (m, Tracked name cfg) -> minv ls (set_Cfg name cfg m, Waiting).
Proof.
  intros Hi. apply (minv_map ls m _ Waiting id Hi); [done|done|]. intros o mc. cbn. destruct (decide (o = name)) as [->|Hne].
  - rewrite lookup_alter_eq. intros (mc0 & Hmc0 & ->)%fmap_Some. by exists mc0.
  - rewrite lookup_alter_ne by done. by exists mc.
Qed.

Lemma minv_step unknown ls s l s' : minv ls s -> mstep unknown s l s' -> minv (ls ++ l) s'.
Proof.
  intros Hi Hs. destruct Hs; rewrite ?app_nil_r; eauto using minv_adds, minv_refused, minv_updates, minv_tracks, minv_sets, minv_processor.
  - destruct Hi as [Ha _]. apply start_fails_same in H1 as [Hc Hu]. split; [|done]. cbn in *. rewrite Hc, Hu. intros o mc p Hmc.
    destruct (Ha o mc p Hmc) as [Huse Hleft]. split; [intros Hp; destruct (Huse Hp); [by left|right]|intros Hp]; by eauto using refused_app.
  - destruct Hi as [Ha _]. split; [|cbn; by eapply uses_start, starts_impl]. cbn in *. intros o mc p Hmc.
    destruct (Ha o mc p Hmc) as [Huse Hleft]. split; [intros Hp; destruct (Huse Hp); [by left|right]|intros Hp]; by eauto using refused_app.
  - destruct Hi as [Ha _]. split; [|cbn; intros mc Hmc; congruence]. cbn in *. intros o mc p Hmc.
    destruct (Ha o mc p Hmc) as [Huse Hleft]. split; [intros Hp; destruct (Huse Hp); [by left|right]|intros Hp]; by eauto using refused_app.
  - apply (minv_shrink ls m); [done| |]; intros o mc *; [intros Hc; apply (lookup_deleted m name); by left|apply uses_deleted].
  - apply (minv_shrink ls m); [done| |]; intros o mc *; [intros Hc; apply (lookup_deleted m name); by right|apply uses_stopped].
Qed.

Lemma run_minv unknown ls s : mrun unknown (cm0, Waiting) ls s -> minv ls s.
Proof.
  intros Hr. remember (cm0, Waiting) as s0 eqn:E. induction Hr as [s|s l s1 ls s2 _ IH Hs]; [subst; by split|].
  apply (minv_step unknown ls s1); [by apply IH|exact Hs].
Qed.

(** ** A processor that nothing names *)

Definition taken_up (u : event_loop) : option config :=
  match u with Started _ cfg _ | LookedUp _ _ cfg | Updated _ _ cfg => Some cfg | Waiting | Added _ | Tracked _ _ => None end.

(** No configuration in these steps names the processor. *)
Definition unnamed (p : string) (ls : list mlabel) : Prop := forall cfg, Began cfg ∈ ls \/ Refused cfg ∈ ls -> p ∉ extractProcessors cfg.

Definition unused (p : string) (s : mstate) : Prop :=
  (forall o mc, cm_comps s.1 !! o = Some mc -> (p ∉ uses_procs (mc_impl mc)) /\ (p ∉ left_procs (mc_impl mc)))
  /\ loop_ok s.1 s.2 /\ (forall cfg, taken_up s.2 = Some cfg -> p ∉ extractProcessors cfg).

(** What the answer of the manager means for the components that run. *)
Lemma not_in_use_unused p ls s : minv ls s -> ProcessorInUse s.1 p = false -> ~ refused_name ls p ->
  (forall cfg, taken_up s.2 = Some cfg -> p ∉ extractProcessors cfg) -> unused p s.
Proof.
  intros [Ha Hl] Hno Hr Hc. split_and!; [|done|done]. intros o mc Hmc. destruct (Ha o mc p Hmc) as [Huse Hleft].
  split; [|by intros ?%Hleft]. intros [Hcov|]%Huse; [|done]. apply not_true_iff_false in Hno. unfold ProcessorInUse in Hno.
  rewrite uses_in_use in Hno. unfold covered in Hcov. destruct s as [m u]; cbn in *. destruct u; try by destruct Hno; exists o.
  case_decide; [by eapply Hc|]. destruct Hno. by exists o.
Qed.

Lemma unused_step unknown p s l s' : unused p s -> unnamed p l -> mstep unknown s l s' -> unused p s'.
Proof.
  intros (Ha & Hl & Ht) Hn Hs. destruct Hs; cbn [fst snd taken_up loop_ok] in *.
  - apply start_fails_same in H1 as [Hc _]. split_and!; [|done|done]. cbn. rewrite Hc. done.
  - split_and!; [done|cbn; by eapply uses_start, starts_impl|]. intros c [= <-]. apply Hn. left. by apply list_elem_of_singleton.
  - split_and!; [|done|done]. intros o mc. cbn. intros [[<- <-]|[_ Hmc]]%lookup_insert_Some; [|by eauto]. cbn.
    destruct (Hl p) as [Hlp Hr]. split; [|done]. intros Hp%Hlp. by eapply Ht.
  - by split_and!.
  - split_and!; [done|cbn; intros mc Hmc; congruence|]. intros c [= <-]. apply Hn. left. by apply list_elem_of_singleton.
  - apply run_update_inv in H1 as (_ & i & Hi & Hc). split_and!; [|done|done]. intros o mc [[_ Hmc]|(-> & -> & mc0 & Hmc0)]%Hc; [by eauto|].
    pose proof (Hl mc0 Hmc0) as ->. destruct (Ha _ _ Hmc0) as [Hu0 Hl0]. destruct (uses_refused _ _ _ _ Hi p) as [G1 G2].
    split; [intros [|Hp]%G1|intros [|Hp]%G2]; try done; by eapply Ht.
  - apply run_update_inv in H1 as (_ & i & Hi & Hc). split_and!; [|done|exact Ht]. intros o mc [[_ Hmc]|(-> & -> & mc0 & Hmc0)]%Hc; [by eauto|].
    pose proof (Hl mc0 Hmc0) as ->. destruct (Ha _ _ Hmc0) as [Hu0 Hl0]. destruct (uses_update _ _ _ Hi p) as [G1 G2].
    split; [intros [Hp|]%G1|by intros ?%G2]; try done; by eapply Ht.
  - by split_and!.
  - split_and!; [|done|done]. intros o mc. cbn. destruct (decide (o = name)) as [->|Hne];
      [rewrite lookup_alter_eq; intros (mc0 & Hmc0 & ->)%fmap_Some; exact (Ha name mc0 Hmc0)|rewrite lookup_alter_ne by done; apply Ha].
  - split_and!; [|done|done]. intros o mc. cbn. rewrite lookup_fmap. intros (mc0 & Hmc0 & ->)%fmap_Some. cbn. destruct (Ha _ _ Hmc0) as [Hu0 Hl0].
    destruct (uses_processor (mc_impl mc0) p0 cfg p) as [G1 G2]. by split; [intros ?%G1|intros ?%G2].
  - split_and!; [|destruct u; try done; intros mc Hmc; apply Hl|done]; [intros o mc Hmc; apply (Ha o)|];
      apply (lookup_deleted m name); by left.
  - split_and!; [|destruct u; try done; intros mc Hmc; apply Hl|done]; [intros o mc Hmc; apply (Ha o)|];
      apply (lookup_deleted m name); by right.
  - by split_and!.
Qed.

Lemma unused_run unknown p s ls s' : mrun unknown s ls s' -> unnamed p ls -> unused p s -> unused p s'.
Proof.
  induction 1 as [s|s l s1 ls s2 _ IH Hs]; intros Hn Hs0; [done|].
  assert (unnamed p l /\ unnamed p ls) as [Hl Hls] by (split; intros cfg Hc; apply Hn; rewrite !elem_of_app; tauto).
  apply (unused_step unknown p s1 l s2); [by apply IH|exact Hl|exact Hs].
Qed.
End invariant.
#[global] Arguments unused {_ _}.

(** * Properties *)

(** A toy output: its state is the processors it uses; an update to a
    configuration without a type fails, with the new processors in place. *)
Definition toy_impl : ComponentImpl :=
  {| impl := list string; factory t := String.eqb t "file"; impl_start _ _ cfg := inr (extractProcessors cfg);
     impl_update i cfg := if String.eqb (component_type cfg) "" then (Some "type", extractProcessors cfg) else (None, extractProcessors cfg);
     impl_close _ := None; impl_processor i _ _ := (None, i) |}.
Definition file_cfg (procs : list string) : config := {[ "type" := AStr "file"; "event-processors" := ASlice (Some (AStr <$> procs)) ]}.
Definition toy_procs (i : @impl toy_impl) : gset string := list_to_set (i : list string).
Lemma toy_elem (l : list string) p : p ∈ toy_procs l -> p ∈ l.
Proof. apply elem_of_list_to_set. Qed.
#[export, refine] Instance toy_uses : @ComponentUses toy_impl := {| uses_procs := toy_procs; left_procs _ := ∅ |}.
Proof.
  - intros t n cfg i [= <-] p. split; [apply toy_elem|]. apply not_elem_of_empty.
  - intros i cfg i'. cbn. destruct (String.eqb _ _); [done|]. intros [= <-] p. split; [left; by apply toy_elem|done].
  - intros i cfg e i'. cbn. destruct (String.eqb _ _); [|done]. intros [= <- <-] p. split; [intros ?; right; by apply toy_elem|intros ?; by left].
  - intros i q cfg p. by split.
Defined.

(** A request that deletes an output while the event loop updates it makes
    the processors of the new configuration undeletable: the update records them
    for the output that is gone, and deleting that name again does not clear it. *)
Theorem deleted_output_pins_processor :
  exists m ls, @mrun toy_impl "" (cm0, Waiting) ls (m, Waiting) /\ cm_comps m = ∅ /\ @ProcessorInUse toy_impl m "p2" = true
    /\ forall names, @ProcessorInUse toy_impl (foldl (fun m n => (@delete_component toy_impl n m).2) m names) "p2" = true.
Proof.
  set (i1 := ["p1"] : @impl toy_impl). set (old := @mkManagedComp toy_impl i1 (file_cfg ["p1"])).
  set (m1 := @add_component toy_impl "o" i1 (file_cfg ["p1"]) cm0).
  set (m2 := @set_comp_state toy_impl "o" SRunning m1).
  set (m3 := (@run_update toy_impl "o" old (file_cfg ["p2"]) m2).2).
  set (m4 := (@delete_component toy_impl "o" m3).2).
  set (m5 := @track_update toy_impl "o" old (file_cfg ["p2"]) m4).
  set (m6 := @set_Cfg toy_impl "o" (file_cfg ["p2"]) m5).
  assert (cm_comps m6 = ∅) as Hempty by (vm_compute; reflexivity).
  assert (@ProcessorInUse toy_impl m6 "p2" = true) as Huse by (vm_compute; reflexivity).
  exists m6. eexists. split_and!; [|done|done|].
  - eapply mrun_step; [|apply ms_sets]. eapply mrun_step; [|apply ms_tracks]. eapply mrun_step; [|apply (ms_delete _ m3)].
    eapply mrun_step; [|apply (ms_updates _ m2); vm_compute; reflexivity].
    eapply mrun_step; [|apply (ms_looks_up _ m2); vm_compute; reflexivity]. eapply mrun_step; [|apply ms_runs].
    eapply mrun_step; [|apply ms_adds]. eapply mrun_step; [|apply (ms_starts _ cm0 "o" (file_cfg ["p1"]) true); vm_compute; reflexivity].
    apply mrun_refl.
  - intros names. revert Hempty Huse. generalize m6. clear. induction names as [|n names IH]; intros m He Hu; [done|]. cbn [foldl].
    assert (@delete_component toy_impl n m = (None, mkCM (cm_comps m) (cm_inUse m) (delete n (cm_states m)) (cm_configs m))) as ->.
    { unfold delete_component. by rewrite He, lookup_empty. }
    by apply IH.
Qed.
(** An output that is deleted and created again before the event loop handled
    the deletion loses its new configuration: the loop, handling the deletion,
    removes from the store whatever configuration the name has by then, and the
    output started for the creation runs without one. *)
Theorem recreated_output_loses_config `{ComponentImpl} (unknown name : string) (m : cmanager) (mc : managed) (old new : config) (i : impl)
    (Hc : cm_comps m !! name = Some mc) (Hcl : impl_close (mc_impl mc) = None) (Hnew : cm_configs m !! name = Some new)
    (Hf : factory (component_type new) = true) (Hs : impl_start (component_type new) name new = inr i) :
  let m' := handle_comp_event unknown true (EvCreate name new) (handle_comp_event unknown true (EvDelete name (Some old)) m) in
  cm_comps m' !! name = Some (mkManagedComp i new) /\ cm_states m' !! name = Some SRunning /\ cm_configs m' !! name = None.
Proof.
  cbv zeta. cbn [handle_comp_event]. unfold delete_component. rewrite Hc, Hcl. cbn [snd]. unfold create_component, start_component.
  cbv zeta. rewrite Hf, Hs. cbn. by rewrite !lookup_insert_eq, lookup_delete_eq.
Qed.

Lemma recreated_output_loses_config_witness :
  let c := file_cfg ["p1"] in
  let m := mkCM {[ "o" := @mkManagedComp toy_impl ["p1"] c ]} ∅ ∅ {[ "o" := c ]} in
  let m' := @handle_comp_event toy_impl "" true (EvCreate "o" c) (@handle_comp_event toy_impl "" true (EvDelete "o" (Some c)) m) in
  cm_comps m' !! "o" = Some (@mkManagedComp toy_impl ["p1"] c) /\ cm_states m' !! "o" = Some SRunning /\ cm_configs m' !! "o" = None.
Proof.
  cbv zeta. apply (@recreated_output_loses_config toy_impl "" "o" _ (@mkManagedComp toy_impl ["p1"] (file_cfg ["p1"])) (file_cfg ["p1"]) (file_cfg ["p1"]) ["p1"]);
    reflexivity.
Defined.

(** A deletion of an output that did not start answers without an error and keeps its configuration. *)
Example failed_output_not_deleted :
  let c : config := {[ "type" := AStr "fiel" ]} in
  let m := @handle_comp_event toy_impl "" true (EvCreate "o" c) (mkCM ∅ ∅ ∅ {[ "o" := c ]}) in
  cm_states m !! "o" = Some (SFailed "fiel") /\ (@DeleteOutput toy_impl "o" m).1 = None
  /\ cm_configs (@DeleteOutput toy_impl "o" m).2 !! "o" = Some c.
Proof. by vm_compute. Qed.
