(* ===== verification/Tls.v ===== *)
(** * TLS configurations (pkg/api/utils/tls.go)

    [NewTLSConfig] builds the TLS configuration of every client and server of
    the program. With hot reload, which is the default of target connections,
    the certificate comes from a [certReloader], which reads its two files again
    when they are newer than what it holds, and the server's certificate is
    checked by a callback against the roots of a [caReloader]. The disk changes
    between any two accesses, and the certificate and the key are read by two
    goroutines at once, so every access names the disk it sees ([pair_seen],
    [ca_seen]): nothing is assumed of these disks, so a pair torn between two
    generations, and a file caught while it is written, are among them. The
    parsing and the verification of certificates are those of the standard
    library ([TlsLib]). *)

From stdpp Require Import strings.
From S2P Require Import Prelude GoStrings.

#[local] Open Scope Z_scope.

(** ** The standard library *)

(** The empty key pair is the zero value of [tls.Certificate]. [rand_Int],
    [GenerateKey] and [CreateCertificate] fail or give what the PEM encoders
    turn into the two blocks. *)
Class TlsLib : Type := {
  key_pair : Type;
  empty_pair : key_pair;
  x509 : Type;
  X509KeyPair : string -> string -> option key_pair;
  pem_Decode : string -> option (string * string);
  ParseCertificate : string -> option x509;
  IsCA : x509 -> bool;
  chains : x509 -> list x509 -> list x509 -> bool;
  VerifyHostname : x509 -> string -> bool;
  filepath_Join : string -> string -> string;
  rand_Int : option Z;
  GenerateKey : option string;
  CreateCertificate : Z -> string -> option string;
  pem_Encode : string -> string -> string
}.

(** [pem.Decode]: the rest is what follows the block. *)
Class TlsLaws `{TlsLib} : Prop := pem_rest : forall s b rest, pem_Decode s = Some (b, rest) -> (String.length rest < String.length s)%nat.

(** A regular file with the number of bytes that one read gives. *)
Inductive entry := Dir (names : list (string * bool)) | File (content : string) (got : nat).

(** The modification time of a file is that of [d_mtime]; a path without one
    cannot be opened. *)
Record disk := mkDisk {
  d_mtime : string -> option Z;
  d_entry : string -> option entry;
  d_stdin : option string
}.

Section tls.
Context `{TlsLib}.

(** ** Reading files *)

Definition zeros (n : nat) : string := Nat.iter n (String "000") "".

(** [ReadLocalFile]: a buffer of the size the file has when it is opened, on
    [w], filled by one read of what the opened file holds then, which is the
    file of [w'] (of [w] when another file took its name since). *)
Definition ReadLocalFile (w w' : disk) (path : string) : option string :=
  if String.eqb path "-" then d_stdin w
  else match d_entry w path, d_entry w' path with
       | Some (File c _), Some (File c' got) =>
           let data := stake (String.length c) (stake got c') in
           Some (data +:+ zeros (String.length c - String.length data))
       | _, _ => None
       end.

(** [os.ReadFile], [os.ReadDir]. *)
Definition ReadFile (w : disk) (path : string) : option string :=
  match d_entry w path with Some (File c _) => Some c | _ => None end.

Inductive tls_error :=
| errClientAuth (mode : string) | errRead | errKeyPair | errStat (path : string) | errReadDir (path : string)
| errParse (path : string) | errNotCA (path : string) | errCipherSuite (name : string) | errKeyLog.

(** The PEM blocks of a file, one after the other; [fuel] is more than the
    length of the text. *)
Fixpoint load_blocks (fuel : nat) (path pem : string) (pool : list x509) : go tls_error (list x509) :=
  match fuel with
  | O => Ok pool
  | S fuel =>
      match pem_Decode pem with
      | None => Ok pool
      | Some (block, rest) =>
          match ParseCertificate block with
          | None => Err (errParse path)
          | Some c => if IsCA c then load_blocks fuel path rest (pool ++ [c]) else Err (errNotCA path)
          end
      end
  end.

Definition loadCACertificatesToPool (w : disk) (filePath : string) (certPool : list x509) : go tls_error (list x509) :=
  match ReadFile w filePath with
  | None => Err errRead
  | Some pem => load_blocks (S (String.length pem)) filePath pem certPool
  end.

(** What the loading of the roots sees: the disk of the stat, that of the
    directory, and that of each file when it is read. *)
Record ca_seen := mkCaSeen { ca_stat : disk; ca_dir : disk; ca_files : string -> disk }.

Definition LoadCACertificates (s : ca_seen) (caPath : string) : go tls_error (list x509) :=
  let load path := loadCACertificatesToPool (ca_files s path) path in
  match d_mtime (ca_stat s) caPath, d_entry (ca_stat s) caPath with
  | Some _, Some (Dir _) =>
      match d_entry (ca_dir s) caPath with
      | Some (Dir files) => foldM (fun pool f => if (f : string * bool).2 then Ok pool else load (filepath_Join caPath f.1) pool) files []
      | _ => Err (errReadDir caPath)
      end
  | Some _, Some (File _ _) => load caPath []
  | _, _ => Err (errStat caPath)
  end.

(** ** The certificate reloader *)

Record certReloader := mkCertReloader {
  cr_cert : option key_pair; cr_lastMtime : Z; cr_certFile : string; cr_keyFile : string
}.

(** What the two goroutines and the stats of one load see: each file when it is
    opened and when it is read, and the disks of the two stats that follow. *)
Record pair_seen := mkPairSeen { s_cert : disk * disk; s_key : disk * disk; s_certStat : disk; s_keyStat : disk }.

Definition load_pair (s : pair_seen) (certFile keyFile : string) : option key_pair :=
  certBytes ← ReadLocalFile (s_cert s).1 (s_cert s).2 certFile;
  keyBytes ← ReadLocalFile (s_key s).1 (s_key s).2 keyFile;
  X509KeyPair certBytes keyBytes.

(** [reload]; on an error the reloader is unchanged. *)
Definition reload (s : pair_seen) (r : certReloader) : option certReloader :=
  cert ← load_pair s (cr_certFile r) (cr_keyFile r);
  let t := default (cr_lastMtime r) (d_mtime (s_certStat s) (cr_certFile r)) in
  let t := match d_mtime (s_keyStat s) (cr_keyFile r) with Some k => if t <? k then k else t | None => t end in
  Some (mkCertReloader (Some cert) t (cr_certFile r) (cr_keyFile r)).

(** The time of a reloader that has loaded nothing is the zero time. *)
Definition newCertReloader (s : pair_seen) (certFile keyFile : string) : option certReloader :=
  reload s (mkCertReloader None 0 certFile keyFile).

(** [getCertificate] takes the time of the certificate on [w] and that of the
    key on [w'], and then may reload. *)
Definition getCertificate (w w' : disk) (s : pair_seen) (r : certReloader) : certReloader * option key_pair :=
  match d_mtime w (cr_certFile r), d_mtime w' (cr_keyFile r) with
  | Some c, Some k =>
      let latest := if c <? k then k else c in
      if match cr_cert r with Some _ => negb (cr_lastMtime r <? latest) | None => false end then (r, cr_cert r)
      else match reload s r with
           | Some r' => (r', cr_cert r')
           | None => (r, cr_cert r)
           end
  | _, _ => (r, cr_cert r)
  end.

(** ** The roots reloader *)

Record caReloader := mkCaReloader { ca_pool : list x509; ca_lastMtime : Z; ca_caPath : string }.

(** The time is taken on [w] before the roots are loaded; the pool is never
    nil, since [NewTLSConfig] loads it first. *)
Definition getPool (w : disk) (s : ca_seen) (r : caReloader) : caReloader * list x509 :=
  match d_mtime w (ca_caPath r) with
  | None => (r, ca_pool r)
  | Some t =>
      if negb (ca_lastMtime r <? t) then (r, ca_pool r)
      else match LoadCACertificates s (ca_caPath r) with
           | Ok pool => (mkCaReloader pool t (ca_caPath r), pool)
           | _ => (r, ca_pool r)
           end
  end.

(** [x509.Certificate.Verify]: the chain, and the name when there is one. *)
Definition Verify (c : x509) (roots intermediates : list x509) (DNSName : string) : bool :=
  chains c roots intermediates && (String.eqb DNSName "" || VerifyHostname c DNSName).

(** The part of a connection's state that the callback sees. [cs_ServerName] is
    the server name indication the client sent. *)
Record ConnectionState := mkConnectionState { cs_PeerCertificates : list x509; cs_ServerName : string }.

(** The callback of hot reload: the reloader after it, and whether the
    connection is accepted. *)
Definition VerifyConnection (w : disk) (s : ca_seen) (caR : caReloader) (cs : ConnectionState) : caReloader * bool :=
  match cs_PeerCertificates cs with
  | [] => (caR, false)
  | leaf :: intermediates =>
      let '(caR, roots) := getPool w s caR in
      (caR, Verify leaf roots intermediates (cs_ServerName cs))
  end.

(** ** Configurations *)

Inductive ClientAuthType := NoClientCert | RequestClientCert | RequireAnyClientCert | VerifyClientCertIfGiven | RequireAndVerifyClientCert.

(** [t_reloader] is what the two certificate callbacks share, [t_verify] what
    the connection callback uses; [None] is a nil callback. *)
Record tls_Config := mkTlsConfig {
  t_InsecureSkipVerify : bool;
  t_ClientAuth : ClientAuthType;
  t_reloader : option certReloader;
  t_Certificates : list key_pair;
  t_RootCAs : option (list x509);
  t_ClientCAs : option (list x509);
  t_verify : option caReloader;
  t_KeyLogWriter : bool;
  t_MinVersion : Z;
  t_MaxVersion : Z;
  t_ServerName : string;
  t_CipherSuites : list Z
}.

(** The errors of the random source, of the key and of the certificate are
    dropped: the result is then an empty pair without an error. *)
Definition SelfSignedCerts : go tls_error key_pair :=
  match rand_Int with
  | None => Ok empty_pair
  | Some serial =>
      match GenerateKey with
      | None => Ok empty_pair
      | Some priv =>
          match CreateCertificate serial priv with
          | None => Ok empty_pair
          | Some der =>
              match X509KeyPair (pem_Encode "CERTIFICATE" der) (pem_Encode "RSA PRIVATE KEY" priv) with
              | Some p => Ok p
              | None => Err errKeyPair
              end
          end
      end
  end.

Definition client_auth (ca clientAuth : string) : go tls_error ClientAuthType :=
  if String.eqb clientAuth "" then Ok (if String.eqb ca "" then NoClientCert else RequireAndVerifyClientCert)
  else if String.eqb clientAuth "request" then Ok RequestClientCert
  else if String.eqb clientAuth "require" then Ok RequireAnyClientCert
  else if String.eqb clientAuth "verify-if-given" then Ok VerifyClientCertIfGiven
  else if String.eqb clientAuth "require-verify" then Ok RequireAndVerifyClientCert
  else Err (errClientAuth clientAuth).

(** The pair of a configuration: a reloader, or certificates. *)
Definition own_certificate (s : pair_seen) (cert key : string) (genSelfSigned hotReload : bool)
    : go tls_error (option certReloader * list key_pair) :=
  if negb (String.eqb cert "") && negb (String.eqb key "") then
    if hotReload then match newCertReloader s cert key with Some r => Ok (Some r, []) | None => Err errKeyPair end
    else match load_pair s cert key with Some p => Ok (None, [p]) | None => Err errRead end
  else if genSelfSigned then p ← SelfSignedCerts; Ok (None, [p])
  else Ok (None, []).

(** The time of the roots is taken on [w], after they were loaded. *)
Definition NewTLSConfig (s : pair_seen) (sca : ca_seen) (w : disk) (ca cert key clientAuth : string) (skipVerify genSelfSigned hotReload : bool)
    : go tls_error (option tls_Config) :=
  if negb (skipVerify || negb (String.eqb ca "") || (negb (String.eqb cert "") && negb (String.eqb key ""))) then Ok None
  else
    auth ← client_auth ca clientAuth;
    '(reloader, certs) ← own_certificate s cert key genSelfSigned hotReload;
    if String.eqb ca "" then
      Ok (Some (mkTlsConfig skipVerify auth reloader certs None None None false 0 0 "" []))
    else
      certPool ← LoadCACertificates sca ca;
      if hotReload && negb skipVerify then
        let caR := mkCaReloader certPool (default 0 (d_mtime w ca)) ca in
        Ok (Some (mkTlsConfig true auth reloader certs (Some certPool) (Some certPool) (Some caR) false 0 0 "" []))
      else Ok (Some (mkTlsConfig skipVerify auth reloader certs (Some certPool) (Some certPool) None false 0 0 "" [])).

(** The client's side of a handshake: the library's own check of the server
    (against the name of the configuration, with the roots), unless it is
    skipped, then the callback. [sni]: the name indication of a server name. *)
Definition client_accepts (sni : string -> string) (w : disk) (s : ca_seen) (cfg : tls_Config) (peer : list x509) : bool :=
  match peer with
  | [] => false
  | leaf :: intermediates =>
      (t_InsecureSkipVerify cfg || Verify leaf (default [] (t_RootCAs cfg)) intermediates (t_ServerName cfg))
      && match t_verify cfg with
         | Some caR => (VerifyConnection w s caR (mkConnectionState peer (sni (t_ServerName cfg)))).2
         | None => true
         end
  end.
End tls.

(** ** Certificates over many handshakes *)

Section reloads.
Context `{TlsLib}.

(** What one handshake sees: the two times, and the load. *)
Abbreviation moment := (disk * disk * pair_seen)%type.

Fixpoint handshakes (ms : list moment) (r : certReloader) : certReloader * list (option key_pair) :=
  match ms with
  | [] => (r, [])
  | (w, w', s) :: ms =>
      let '(r, c) := getCertificate w w' s r in
      let '(r, cs) := handshakes ms r in
      (r, c :: cs)
  end.

(** The time of the newer file. *)
Definition newest (w w' : disk) (r : certReloader) : option Z :=
  c ← d_mtime w (cr_certFile r); k ← d_mtime w' (cr_keyFile r); Some (if c <? k then k else c).

Lemma reload_files s r r' : reload s r = Some r' -> cr_certFile r' = cr_certFile r /\ cr_keyFile r' = cr_keyFile r.
Proof. unfold reload. destruct (load_pair _ _ _); cbn; [|done]. by intros [= <-]. Qed.

Lemma reload_pair s r : cr_cert <$> reload s r = Some <$> load_pair s (cr_certFile r) (cr_keyFile r).
Proof. unfold reload. by destruct (load_pair _ _ _). Qed.

Lemma reload_time s r r' t : reload s r = Some r' -> newest (s_certStat s) (s_keyStat s) r = Some t -> cr_lastMtime r' = t.
Proof.
  unfold reload, newest. destruct (load_pair _ _ _); cbn; [|done]. intros [= <-]. cbn.
  destruct (d_mtime _ (cr_certFile r)); cbn; [|done]. destruct (d_mtime _ (cr_keyFile r)); cbn; [|done].
  by intros [= <-].
Qed.

(** One handshake of a reloader that holds [c]. *)
Lemma getCertificate_holds w w' s r c :
  cr_cert r = Some c ->
  let '(r', out) := getCertificate w w' s r in
  cr_cert r' = out /\ cr_certFile r' = cr_certFile r /\ cr_keyFile r' = cr_keyFile r
  /\ out = match newest w w' r with
           | Some t => if cr_lastMtime r <? t then match load_pair s (cr_certFile r) (cr_keyFile r) with Some p => Some p | None => Some c end
                       else Some c
           | None => Some c
           end.
Proof.
  intros Hc. unfold getCertificate, newest. rewrite Hc.
  destruct (d_mtime w (cr_certFile r)) as [a|]; cbn; [|done].
  destruct (d_mtime w' (cr_keyFile r)) as [b|]; cbn; [|done].
  destruct (cr_lastMtime r <? _); cbn; [|done].
  pose proof (reload_pair s r) as Hp. destruct (reload s r) as [r'|] eqn:E.
  - destruct (reload_files _ _ _ E) as [-> ->]. cbn in Hp. split_and!; [done..|].
    destruct (load_pair _ _ _); [|done]. by injection Hp.
  - destruct (load_pair _ _ _); [done|]. by rewrite Hc.
Qed.

(** The pair of what one load read: the bytes of the certificate file and those
    of the key file, from whatever disks the goroutines saw. *)
Definition pair_read (certFile keyFile : string) (s : pair_seen) (p : key_pair) : Prop :=
  exists cb kb, ReadLocalFile (s_cert s).1 (s_cert s).2 certFile = Some cb /\
    ReadLocalFile (s_key s).1 (s_key s).2 keyFile = Some kb /\ X509KeyPair cb kb = Some p.

Lemma load_pair_read s certFile keyFile p : load_pair s certFile keyFile = Some p <-> pair_read certFile keyFile s p.
Proof.
  unfold load_pair, pair_read. split.
  - destruct (ReadLocalFile _ _ certFile) as [cb|]; cbn; [|done]. destruct (ReadLocalFile _ _ keyFile) as [kb|]; cbn; [|done]. eauto.
  - by intros (cb & kb & -> & -> & Hp).
Qed.

Lemma handshakes_safe ms r c :
  cr_cert r = Some c ->
  Forall (fun out => exists p, out = Some p /\ (p = c \/ Exists (fun m : moment => pair_read (cr_certFile r) (cr_keyFile r) m.2 p) ms)) (handshakes ms r).2.
Proof.
  revert r c; induction ms as [|[[w w'] s] ms IH]; intros r c Hc; cbn; [constructor|].
  pose proof (getCertificate_holds w w' s r c Hc) as Hg.
  destruct (getCertificate w w' s r) as [r' out]. destruct Hg as (Hr & Hf & Hk & Hout).
  assert (exists p, out = Some p /\ (p = c \/ pair_read (cr_certFile r) (cr_keyFile r) s p)) as (p & -> & Hp).
  { rewrite Hout. destruct (newest w w' r) as [t|]; [|by eauto]. destruct (cr_lastMtime r <? t); [|by eauto].
    destruct (load_pair s _ _) as [p|] eqn:Hl; [|by eauto]. apply load_pair_read in Hl. eauto. }
  specialize (IH r' p Hr). destruct (handshakes ms r') as [r2 cs]. cbn in *. constructor.
  - exists p. split; [done|]. destruct Hp; [by left|right; by left].
  - eapply Forall_impl; [exact IH|]. intros o (q & -> & Hq). exists q. split; [done|].
    rewrite Hf, Hk in Hq. destruct Hq as [-> | Hq]; [|right; by right].
    destruct Hp; [by left|right; by left].
Qed.

Lemma handshakes_quiet ms r c :
  cr_cert r = Some c -> Forall (fun m : moment => forall t, newest m.1.1 m.1.2 r = Some t -> t <= cr_lastMtime r) ms ->
  handshakes ms r = (r, map (fun _ => Some c) ms).
Proof.
  intros Hc. induction 1 as [|[[w w'] s] ms Hm _ IH]; [done|]. cbn.
  assert (getCertificate w w' s r = (r, Some c)) as ->; [|by rewrite IH].
  unfold getCertificate, newest in *. cbn in Hm. destruct (d_mtime w (cr_certFile r)) as [a|]; [|by rewrite Hc].
  destruct (d_mtime w' (cr_keyFile r)) as [b|]; [|by rewrite Hc]. rewrite Hc. cbn in Hm. specialize (Hm _ eq_refl).
  destruct (Z.ltb_spec (cr_lastMtime r) (if a <? b then b else a)); [lia|done].
Qed.

Lemma handshakes_hold ms r c : cr_cert r = Some c ->
  exists c', cr_cert (handshakes ms r).1 = Some c' /\ cr_certFile (handshakes ms r).1 = cr_certFile r /\ cr_keyFile (handshakes ms r).1 = cr_keyFile r.
Proof.
  revert r c; induction ms as [|[[w w'] s] ms IH]; intros r c Hc; cbn; [eauto|].
  pose proof (getCertificate_holds w w' s r c Hc) as Hg.
  destruct (getCertificate w w' s r) as [r' out]. destruct Hg as (Hr & Hf & Hk & Hout).
  assert (exists p, out = Some p) as [p ->] by (rewrite Hout; repeat case_match; eauto).
  destruct (IH r' p Hr) as (c' & H1 & H2 & H3). destruct (handshakes ms r'); cbn in *. exists c'. split_and!; congruence.
Qed.
End reloads.

(** C15: Certificates survive whatever happens to their files. The certificate
    and the key are read by two goroutines, each from the disks it happens to
    see, so what a load reads may be torn between two pairs or be a part of a
    file. After a reloader was made, every handshake gets a certificate, and
    it is one that [X509KeyPair] made from the bytes the two goroutines of one
    load read, that of the first load, of an earlier handshake or of this one.
    A handshake that sees a newer file gets the pair its load reads when
    [X509KeyPair] accepts it, and when it does not, or a file cannot be read,
    the certificate that was held, with the next handshake trying again; one
    that sees no newer file, or cannot see the time of one, gets what was
    held. *)
Theorem certificates_reload `{TlsLib} s certFile keyFile r :
  newCertReloader s certFile keyFile = Some r ->
  (forall ms, Forall (fun out => exists p, out = Some p /\ Exists (fun s => pair_read certFile keyFile s p) (s :: ms.*2)) (handshakes ms r).2) /\
  (forall ms w w' s', let r1 := (handshakes ms r).1 in let '(r2, out) := getCertificate w w' s' r1 in
    match newest w w' r1 with
    | Some t =>
        (cr_lastMtime r1 < t -> forall p, pair_read certFile keyFile s' p -> out = Some p /\ cr_cert r2 = Some p) /\
        (cr_lastMtime r1 < t -> (forall p, ~ pair_read certFile keyFile s' p) -> r2 = r1 /\ out = cr_cert r1) /\
        (t <= cr_lastMtime r1 -> r2 = r1 /\ out = cr_cert r1)
    | None => r2 = r1 /\ out = cr_cert r1
    end).
Proof.
  intros Hr. destruct (reload_files _ _ _ Hr) as [Hf Hk]. cbn in Hf, Hk.
  pose proof (reload_pair s (mkCertReloader None 0 certFile keyFile)) as Hp. unfold newCertReloader in Hr.
  rewrite Hr in Hp. cbn in Hp. destruct (load_pair s certFile keyFile) as [c|] eqn:Hc; [|done]. injection Hp as Hp.
  apply load_pair_read in Hc. rewrite <-Hf, <-Hk in Hc |- *. split.
  - intros ms. eapply Forall_impl; [by apply handshakes_safe|]. intros out (p & -> & Hor). exists p. split; [done|].
    destruct Hor as [-> |He]; [by left|]. right. by apply Exists_fmap.
  - intros ms w w' s' r1. destruct (handshakes_hold ms r c Hp) as (c1 & Hc1 & Hf1 & Hk1). fold r1 in Hc1, Hf1, Hk1.
    rewrite <-Hf1, <-Hk1. pose proof (load_pair_read s' (cr_certFile r1) (cr_keyFile r1)) as Hl. unfold getCertificate, newest, reload. rewrite Hc1.
    destruct (d_mtime w (cr_certFile r1)) as [a|]; cbn; [|done]. destruct (d_mtime w' (cr_keyFile r1)) as [b|]; cbn; [|done].
    destruct (Z.ltb_spec (cr_lastMtime r1) (if a <? b then b else a)) as [Hlt|Hge]; cbn.
    + destruct (load_pair s' _ _) as [p|]; cbn; (split; [|split]).
      * intros _ q Hq%Hl. by injection Hq as <-.
      * intros _ Hno. destruct (Hno p). by apply Hl.
      * lia.
      * intros _ q Hq%Hl. done.
      * done.
      * lia.
    + split; [|split]; intros; try lia; done.
Qed.

(** A rotation that happens while the files are read is missed: when the
    times taken after a load are those of files that came later, every later
    handshake, as long as the files do not change again, gets the certificate
    that was read. *)
Theorem torn_rotation_kept `{TlsLib} s r0 r t ms :
  reload s r0 = Some r -> newest (s_certStat s) (s_keyStat s) r0 = Some t ->
  Forall (fun m => newest m.1.1 m.1.2 r0 = Some t) ms ->
  Forall (fun out => out = load_pair s (cr_certFile r0) (cr_keyFile r0)) (handshakes ms r).2.
Proof.
  intros Hr Ht Hms. pose proof (reload_time _ _ _ _ Hr Ht) as Hlast. destruct (reload_files _ _ _ Hr) as [Hf Hk].
  pose proof (reload_pair s r0) as Hp. rewrite Hr in Hp. cbn in Hp.
  destruct (load_pair s _ _) as [c|]; [|done]. injection Hp as Hp.
  rewrite (handshakes_quiet ms r c Hp); [by apply Forall_map, Forall_true|].
  eapply Forall_impl; [exact Hms|]. unfold newest. rewrite Hf, Hk. intros m Hm t'. cbn in *. rewrite Hm. intros [= <-]. lia.
Qed.

(** ** Hot reload and server names *)

Definition with_ServerName `{TlsLib} (name : string) (cfg : tls_Config) : tls_Config :=
  mkTlsConfig (t_InsecureSkipVerify cfg) (t_ClientAuth cfg) (t_reloader cfg) (t_Certificates cfg) (t_RootCAs cfg) (t_ClientCAs cfg)
    (t_verify cfg) (t_KeyLogWriter cfg) (t_MinVersion cfg) (t_MaxVersion cfg) name (t_CipherSuites cfg).

(** What a client with a CA checks of a server: without hot reload the
    chain and the name it connects to; with hot reload the chain against the
    roots of the moment and the server name indication instead of the name.
    An IP address has no indication, so for a target named by its address any
    certificate of the CA is accepted. *)
Theorem hot_reload_names `{TlsLib} s sca w ca cert key auth gen hot cfg sni v v' name leaf inter :
  NewTLSConfig s sca w ca cert key auth false gen hot = Ok (Some cfg) -> ca <> "" ->
  exists pool, LoadCACertificates sca ca = Ok pool /\
  client_accepts sni v v' (with_ServerName name cfg) (leaf :: inter)
  = if hot then Verify leaf (getPool v v' (mkCaReloader pool (default 0 (d_mtime w ca)) ca)).2 inter (sni name)
    else Verify leaf pool inter name.
Proof.
  intros Hn Hca. unfold NewTLSConfig in Hn. destruct (String.eqb_spec ca "") as [|_]; [done|]. cbn in Hn.
  apply bind_ok in Hn as (a & _ & Hn). apply bind_ok in Hn as ([rl certs] & _ & Hn). apply bind_ok in Hn as (pool & Hp & Hn).
  exists pool. split; [done|]. destruct hot; cbn in Hn; injection Hn as <-; cbn; [|by rewrite andb_true_r].
  by destruct (getPool _ _ _).
Qed.

(** The fuel of the PEM loop is enough: more makes no difference. *)
Lemma load_blocks_enough `{TlsLaws} path n : forall m pem pool,
  (String.length pem < n)%nat -> (String.length pem < m)%nat -> load_blocks n path pem pool = load_blocks m path pem pool.
Proof.
  induction n as [|n IH]; intros [|m] pem pool Hn Hm; [lia..|]. cbn.
  destruct (pem_Decode pem) as [[b rest]|] eqn:E; [|done]. apply pem_rest in E.
  destruct (ParseCertificate b) as [c|]; [|done]. destruct (IsCA c); [|done]. apply IH; lia.
Qed.

(** ** A concrete library *)

(** A file holds certificates that end in semicolons; a certificate is the name
    it is for. *)
Definition tls_toy : TlsLib := {|
  key_pair := string * string;
  empty_pair := ("", "");
  x509 := string;
  X509KeyPair c k := if String.eqb c k then Some (c, k) else None;
  pem_Decode s := match cut_byte ";" s with (b, rest, true) => Some (b, rest) | _ => None end;
  ParseCertificate b := Some b;
  IsCA b := String.eqb b "ca";
  chains _ roots _ := negb (nilb roots);
  VerifyHostname c n := String.eqb c n;
  filepath_Join d f := d +:+ ("/" +:+ f);
  rand_Int := Some 7;
  GenerateKey := Some "key";
  CreateCertificate _ k := Some k;
  pem_Encode _ b := b
|}.
#[local] Existing Instance tls_toy.
Definition toy_pair (a : string) : key_pair := (a, a).
Definition toy_roots : list x509 := ["ca"].
Definition toy_cert (a : string) : x509 := a.

Lemma toy_laws : TlsLaws.
Proof. intros s b rest. cbn. destruct (cut_byte ";" s) as [[b' rest'] []] eqn:E; [|done]. intros [= -> ->]. apply cut_length in E. destruct E as [_ E]. by apply E. Qed.

(** The pair [p] written at [t], with a CA file. *)
Definition ex_disk (t : Z) (p : string) : disk :=
  mkDisk (fun f => Some t) (fun f => Some (File (if String.eqb f "ca.pem" then "ca;" else p) 64)) None.

(** A load that sees one disk; and one whose goroutines see two. *)
Definition see (w : disk) : pair_seen := mkPairSeen (w, w) (w, w) w w.
Definition torn (w w' : disk) : pair_seen := mkPairSeen (w, w) (w', w') w' w'.
Definition see_ca (w : disk) : ca_seen := mkCaSeen w w (fun _ => w).

(** A rotation: a load torn between the old and the new pair, which the library
    refuses, and one of the new pair. *)
Lemma certificates_reload_witness :
  let ms := [(ex_disk 1 "old", ex_disk 2 "new", torn (ex_disk 1 "old") (ex_disk 2 "new")); (ex_disk 2 "new", ex_disk 2 "new", see (ex_disk 2 "new"))] in
  let r := mkCertReloader (Some (toy_pair "old")) 1 "c" "k" in
  (handshakes ms r).2 = [Some (toy_pair "old"); Some (toy_pair "new")] /\
  Forall (fun out => exists p, out = Some p /\ Exists (fun s => pair_read "c" "k" s p) (see (ex_disk 1 "old") :: ms.*2)) (handshakes ms r).2.
Proof.
  cbn zeta. split; [by vm_compute|].
  destruct (certificates_reload (see (ex_disk 1 "old")) "c" "k" (mkCertReloader (Some (toy_pair "old")) 1 "c" "k"))
    as (Hs & _); [by vm_compute|]. apply Hs.
Defined.

(** The files change between the read and the stat. *)
Lemma torn_rotation_kept_witness :
  let s := mkPairSeen (ex_disk 1 "old", ex_disk 1 "old") (ex_disk 1 "old", ex_disk 1 "old") (ex_disk 2 "new") (ex_disk 2 "new") in
  let m := (ex_disk 2 "new", ex_disk 2 "new", see (ex_disk 2 "new")) in
  load_pair (see (ex_disk 2 "new")) "c" "k" = Some (toy_pair "new") /\
  Forall (fun out => out = Some (toy_pair "old")) (handshakes [m; m] (mkCertReloader (Some (toy_pair "old")) 2 "c" "k")).2.
Proof.
  cbn zeta. split; [by vm_compute|].
  apply (torn_rotation_kept (mkPairSeen (ex_disk 1 "old", ex_disk 1 "old") (ex_disk 1 "old", ex_disk 1 "old") (ex_disk 2 "new") (ex_disk 2 "new"))
    (mkCertReloader None 0 "c" "k") (mkCertReloader (Some (toy_pair "old")) 2 "c" "k") 2
    [(ex_disk 2 "new", ex_disk 2 "new", see (ex_disk 2 "new")); (ex_disk 2 "new", ex_disk 2 "new", see (ex_disk 2 "new"))]);
    [by vm_compute|by vm_compute|repeat constructor].
Defined.

(** The certificate of another server of the CA, for a target named by its
    address: refused without hot reload, accepted with it. *)
Definition sni_of (name : string) : string := if String.eqb name "10.0.0.1" then "" else name.
Definition ex_config (hot : bool) : option tls_Config :=
  match NewTLSConfig (see (ex_disk 1 "p")) (see_ca (ex_disk 1 "p")) (ex_disk 1 "p") "ca.pem" "" "" "" false false hot with Ok c => c | _ => None end.

Lemma hot_reload_names_witness :
  exists cfg cfg', ex_config true = Some cfg /\ ex_config false = Some cfg' /\
  client_accepts sni_of (ex_disk 1 "p") (see_ca (ex_disk 1 "p")) (with_ServerName "10.0.0.1" cfg) [toy_cert "router2"] = true /\
  client_accepts sni_of (ex_disk 1 "p") (see_ca (ex_disk 1 "p")) (with_ServerName "10.0.0.1" cfg') [toy_cert "router2"] = false.
Proof.
  eexists _, _. split; [reflexivity|split; [reflexivity|split]].
  - destruct (hot_reload_names (see (ex_disk 1 "p")) (see_ca (ex_disk 1 "p")) (ex_disk 1 "p") "ca.pem" "" "" "" false true
      (mkTlsConfig true RequireAndVerifyClientCert None [] (Some toy_roots) (Some toy_roots) (Some (mkCaReloader toy_roots 1 "ca.pem")) false 0 0 "" [])
      sni_of (ex_disk 1 "p") (see_ca (ex_disk 1 "p")) "10.0.0.1" (toy_cert "router2") []) as (pool & Hp & Ha); [by vm_compute|done|].
    refine (eq_trans Ha _). vm_compute in Hp. injection Hp as <-. by vm_compute.
  - destruct (hot_reload_names (see (ex_disk 1 "p")) (see_ca (ex_disk 1 "p")) (ex_disk 1 "p") "ca.pem" "" "" "" false false
      (mkTlsConfig false RequireAndVerifyClientCert None [] (Some toy_roots) (Some toy_roots) None false 0 0 "" [])
      sni_of (ex_disk 1 "p") (see_ca (ex_disk 1 "p")) "10.0.0.1" (toy_cert "router2") []) as (pool & Hp & Ha); [by vm_compute|done|].
    refine (eq_trans Ha _). vm_compute in Hp. injection Hp as <-. by vm_compute.
Defined.
