(* ===== verification/Target.v ===== *)
(** * Target configurations (pkg/api/types/target.go, connection spec of targets_manager.go)

    The configuration of a target, its deep copy, the equality the targets
    manager uses to ignore an unchanged configuration, and the part of it that
    decides whether the connection must be made again. The integer fields of the
    gRPC sizes are pointers that [Equal] compares by identity, so a pointer is
    its address with its value. *)

From stdpp Require Import strings.
From S2P Require Import Prelude GoStrings Utf8 GoVal Tls.

#[local] Open Scope Z_scope.

Record ClientKeepalive := mkKeepalive { ka_Time : Z; ka_Timeout : Z; ka_PermitWithoutStream : bool }.
#[export] Instance keepalive_eq_dec : EqDecision ClientKeepalive.
Proof. solve_decision. Defined.

(** A pointer to an integer: nil, or an address and the value there. Other
    pointers are compared by their values only. *)
Abbreviation int_ptr := (option (Z * Z)).

Record TargetConfig := mkTargetConfig {
  tc_Name : string;
  tc_Address : string;
  tc_Username : option string;
  tc_Password : option string;
  tc_AuthScheme : string;
  tc_Timeout : Z;
  tc_Insecure : option bool;
  tc_TLSCA : option string;
  tc_TLSCert : option string;
  tc_TLSKey : option string;
  tc_SkipVerify : option bool;
  tc_TLSServerName : string;
  tc_Subscriptions : option (list string);
  tc_Outputs : option (list string);
  tc_BufferSize : Z;
  tc_GRPCReadBufferSize : int_ptr;
  tc_GRPCWriteBufferSize : int_ptr;
  tc_GRPCConnWindowSize : int_ptr;
  tc_GRPCWindowSize : int_ptr;
  tc_GRPCStaticConnWindowSize : int_ptr;
  tc_GRPCStaticStreamWindowSize : int_ptr;
  tc_RetryTimer : Z;
  tc_TLSMinVersion : string;
  tc_TLSMaxVersion : string;
  tc_TLSVersion : string;
  tc_LogTLSSecret : option bool;
  tc_ProtoFiles : option (list string);
  tc_ProtoDirs : option (list string);
  tc_Tags : option (list string);
  tc_EventTags : gomap string;
  tc_Gzip : option bool;
  tc_Token : option string;
  tc_Proxy : string;
  tc_TunnelTargetType : string;
  tc_Encoding : option string;
  tc_Metadata : gomap string;
  tc_CipherSuites : option (list string);
  tc_TCPKeepalive : Z;
  tc_GRPCKeepalive : option ClientKeepalive;
  tc_TLSReload : option bool
}.

Definition zeroTarget : TargetConfig := mkTargetConfig
  "" "" None None "" 0 None None None None None "" None None 0 None None None None None None 0 "" "" "" None None None None None None None "" "" None None None 0 None None.

Definition named_target (name : string) (encoding : option string) : TargetConfig := mkTargetConfig
  name "" None None "" 0 None None None None None "" None None 0 None None None None None None 0 "" "" "" None None None None None None None "" "" encoding None None 0 None None.

(** [clonePtr]: a new address with the same value. *)
Definition clonePtr (addr : Z) (p : int_ptr) : int_ptr :=
  match p with Some (_, v) => Some (addr, v) | None => None end.

(** [append(make([]string, 0, n), l...)], [maps.Copy] into a new map. *)
Definition clone_list (l : option (list string)) : option (list string) := Some (default [] l).
Definition clone_map (m : gomap string) : gomap string := Some (gm_tab m).

(** [DeepCopy]; [next] is the first of six new addresses. *)
Definition DeepCopy (next : Z) (tc : TargetConfig) : TargetConfig := mkTargetConfig
  (tc_Name tc) (tc_Address tc) (tc_Username tc) (tc_Password tc) (tc_AuthScheme tc) (tc_Timeout tc) (tc_Insecure tc)
  (tc_TLSCA tc) (tc_TLSCert tc) (tc_TLSKey tc) (tc_SkipVerify tc) (tc_TLSServerName tc) (clone_list
  (tc_Subscriptions tc)) (clone_list (tc_Outputs tc)) (tc_BufferSize tc) (clonePtr (next + 0) (tc_GRPCReadBufferSize
  tc)) (clonePtr (next + 1) (tc_GRPCWriteBufferSize tc)) (clonePtr (next + 2) (tc_GRPCConnWindowSize tc)) (clonePtr
  (next + 3) (tc_GRPCWindowSize tc)) (clonePtr (next + 4) (tc_GRPCStaticConnWindowSize tc)) (clonePtr (next + 5)
  (tc_GRPCStaticStreamWindowSize tc)) (tc_RetryTimer tc) (tc_TLSMinVersion tc) (tc_TLSMaxVersion tc) (tc_TLSVersion
  tc) (tc_LogTLSSecret tc) (clone_list (tc_ProtoFiles tc)) (clone_list (tc_ProtoDirs tc)) (clone_list (tc_Tags tc))
  (clone_map (tc_EventTags tc)) (tc_Gzip tc) (tc_Token tc) (tc_Proxy tc) (tc_TunnelTargetType tc) (tc_Encoding tc)
  (clone_map (tc_Metadata tc)) (clone_list (tc_CipherSuites tc)) (tc_TCPKeepalive tc) (tc_GRPCKeepalive tc)
  (tc_TLSReload tc).

(** [slices.Equal] and [maps.Equal]: nil is equal to empty. [==] of two
    pointers: the same address. *)
Definition slices_Equal (a b : option (list string)) : bool := bool_decide (default [] a = default [] b).
Definition maps_Equal (a b : gomap string) : bool := bool_decide (gm_tab a = gm_tab b).
Definition same_ptr (a b : int_ptr) : bool :=
  match a, b with
  | None, None => true
  | Some (x, _), Some (y, _) => x =? y
  | _, _ => false
  end.

Definition Equal (tc other : TargetConfig) : bool :=
  String.eqb (tc_Name tc) (tc_Name other)
  && String.eqb (tc_Address tc) (tc_Address other)
  && bool_decide (tc_Username tc = tc_Username other)
  && bool_decide (tc_Password tc = tc_Password other)
  && String.eqb (tc_AuthScheme tc) (tc_AuthScheme other)
  && (tc_Timeout tc =? tc_Timeout other)
  && bool_decide (tc_Insecure tc = tc_Insecure other)
  && bool_decide (tc_TLSCA tc = tc_TLSCA other)
  && bool_decide (tc_TLSCert tc = tc_TLSCert other)
  && bool_decide (tc_TLSKey tc = tc_TLSKey other)
  && bool_decide (tc_SkipVerify tc = tc_SkipVerify other)
  && String.eqb (tc_TLSServerName tc) (tc_TLSServerName other)
  && slices_Equal (tc_Subscriptions tc) (tc_Subscriptions other)
  && slices_Equal (tc_Outputs tc) (tc_Outputs other)
  && (tc_BufferSize tc =? tc_BufferSize other)
  && same_ptr (tc_GRPCReadBufferSize tc) (tc_GRPCReadBufferSize other)
  && same_ptr (tc_GRPCWriteBufferSize tc) (tc_GRPCWriteBufferSize other)
  && same_ptr (tc_GRPCConnWindowSize tc) (tc_GRPCConnWindowSize other)
  && same_ptr (tc_GRPCWindowSize tc) (tc_GRPCWindowSize other)
  && same_ptr (tc_GRPCStaticConnWindowSize tc) (tc_GRPCStaticConnWindowSize other)
  && same_ptr (tc_GRPCStaticStreamWindowSize tc) (tc_GRPCStaticStreamWindowSize other)
  && (tc_RetryTimer tc =? tc_RetryTimer other)
  && String.eqb (tc_TLSMinVersion tc) (tc_TLSMinVersion other)
  && String.eqb (tc_TLSMaxVersion tc) (tc_TLSMaxVersion other)
  && String.eqb (tc_TLSVersion tc) (tc_TLSVersion other)
  && bool_decide (tc_LogTLSSecret tc = tc_LogTLSSecret other)
  && slices_Equal (tc_ProtoFiles tc) (tc_ProtoFiles other)
  && slices_Equal (tc_ProtoDirs tc) (tc_ProtoDirs other)
  && slices_Equal (tc_Tags tc) (tc_Tags other)
  && maps_Equal (tc_EventTags tc) (tc_EventTags other)
  && bool_decide (tc_Gzip tc = tc_Gzip other)
  && bool_decide (tc_Token tc = tc_Token other)
  && String.eqb (tc_Proxy tc) (tc_Proxy other)
  && String.eqb (tc_TunnelTargetType tc) (tc_TunnelTargetType other)
  && bool_decide (tc_Encoding tc = tc_Encoding other)
  && maps_Equal (tc_Metadata tc) (tc_Metadata other)
  && slices_Equal (tc_CipherSuites tc) (tc_CipherSuites other)
  && (tc_TCPKeepalive tc =? tc_TCPKeepalive other)
  && bool_decide (tc_GRPCKeepalive tc = tc_GRPCKeepalive other)
  && bool_decide (tc_TLSReload tc = tc_TLSReload other).

(** ** Updating fields *)

Definition set_subscriptions (l : option (list string)) (tc : TargetConfig) : TargetConfig := mkTargetConfig
  (tc_Name tc) (tc_Address tc) (tc_Username tc) (tc_Password tc) (tc_AuthScheme tc) (tc_Timeout tc) (tc_Insecure tc)
  (tc_TLSCA tc) (tc_TLSCert tc) (tc_TLSKey tc) (tc_SkipVerify tc) (tc_TLSServerName tc) (l) (tc_Outputs tc)
  (tc_BufferSize tc) (tc_GRPCReadBufferSize tc) (tc_GRPCWriteBufferSize tc) (tc_GRPCConnWindowSize tc)
  (tc_GRPCWindowSize tc) (tc_GRPCStaticConnWindowSize tc) (tc_GRPCStaticStreamWindowSize tc) (tc_RetryTimer tc)
  (tc_TLSMinVersion tc) (tc_TLSMaxVersion tc) (tc_TLSVersion tc) (tc_LogTLSSecret tc) (tc_ProtoFiles tc)
  (tc_ProtoDirs tc) (tc_Tags tc) (tc_EventTags tc) (tc_Gzip tc) (tc_Token tc) (tc_Proxy tc) (tc_TunnelTargetType tc)
  (tc_Encoding tc) (tc_Metadata tc) (tc_CipherSuites tc) (tc_TCPKeepalive tc) (tc_GRPCKeepalive tc) (tc_TLSReload
  tc).

Definition set_outputs (l : option (list string)) (tc : TargetConfig) : TargetConfig := mkTargetConfig
  (tc_Name tc) (tc_Address tc) (tc_Username tc) (tc_Password tc) (tc_AuthScheme tc) (tc_Timeout tc) (tc_Insecure tc)
  (tc_TLSCA tc) (tc_TLSCert tc) (tc_TLSKey tc) (tc_SkipVerify tc) (tc_TLSServerName tc) (tc_Subscriptions tc) (l)
  (tc_BufferSize tc) (tc_GRPCReadBufferSize tc) (tc_GRPCWriteBufferSize tc) (tc_GRPCConnWindowSize tc)
  (tc_GRPCWindowSize tc) (tc_GRPCStaticConnWindowSize tc) (tc_GRPCStaticStreamWindowSize tc) (tc_RetryTimer tc)
  (tc_TLSMinVersion tc) (tc_TLSMaxVersion tc) (tc_TLSVersion tc) (tc_LogTLSSecret tc) (tc_ProtoFiles tc)
  (tc_ProtoDirs tc) (tc_Tags tc) (tc_EventTags tc) (tc_Gzip tc) (tc_Token tc) (tc_Proxy tc) (tc_TunnelTargetType tc)
  (tc_Encoding tc) (tc_Metadata tc) (tc_CipherSuites tc) (tc_TCPKeepalive tc) (tc_GRPCKeepalive tc) (tc_TLSReload
  tc).

Definition set_tags (m : gomap string) (tc : TargetConfig) : TargetConfig := mkTargetConfig
  (tc_Name tc) (tc_Address tc) (tc_Username tc) (tc_Password tc) (tc_AuthScheme tc) (tc_Timeout tc) (tc_Insecure tc)
  (tc_TLSCA tc) (tc_TLSCert tc) (tc_TLSKey tc) (tc_SkipVerify tc) (tc_TLSServerName tc) (tc_Subscriptions tc)
  (tc_Outputs tc) (tc_BufferSize tc) (tc_GRPCReadBufferSize tc) (tc_GRPCWriteBufferSize tc) (tc_GRPCConnWindowSize
  tc) (tc_GRPCWindowSize tc) (tc_GRPCStaticConnWindowSize tc) (tc_GRPCStaticStreamWindowSize tc) (tc_RetryTimer tc)
  (tc_TLSMinVersion tc) (tc_TLSMaxVersion tc) (tc_TLSVersion tc) (tc_LogTLSSecret tc) (tc_ProtoFiles tc)
  (tc_ProtoDirs tc) (tc_Tags tc) (m) (tc_Gzip tc) (tc_Token tc) (tc_Proxy tc) (tc_TunnelTargetType tc) (tc_Encoding
  tc) (tc_Metadata tc) (tc_CipherSuites tc) (tc_TCPKeepalive tc) (tc_GRPCKeepalive tc) (tc_TLSReload tc).

(** The fields a loader computes, and those the application fills in. *)
Definition set_source (name address : string) (event_tags : gomap string) (tc : TargetConfig) : TargetConfig := mkTargetConfig
  name address (tc_Username tc) (tc_Password tc) (tc_AuthScheme tc) (tc_Timeout tc) (tc_Insecure tc)
  (tc_TLSCA tc) (tc_TLSCert tc) (tc_TLSKey tc) (tc_SkipVerify tc) (tc_TLSServerName tc) (tc_Subscriptions tc)
  (tc_Outputs tc) (tc_BufferSize tc) (tc_GRPCReadBufferSize tc) (tc_GRPCWriteBufferSize tc) (tc_GRPCConnWindowSize
  tc) (tc_GRPCWindowSize tc) (tc_GRPCStaticConnWindowSize tc) (tc_GRPCStaticStreamWindowSize tc) (tc_RetryTimer tc)
  (tc_TLSMinVersion tc) (tc_TLSMaxVersion tc) (tc_TLSVersion tc) (tc_LogTLSSecret tc) (tc_ProtoFiles tc)
  (tc_ProtoDirs tc) (tc_Tags tc) event_tags (tc_Gzip tc) (tc_Token tc) (tc_Proxy tc) (tc_TunnelTargetType tc)
  (tc_Encoding tc) (tc_Metadata tc) (tc_CipherSuites tc) (tc_TCPKeepalive tc) (tc_GRPCKeepalive tc) (tc_TLSReload tc).

Definition set_timers (buffer retry : Z) (tc : TargetConfig) : TargetConfig := mkTargetConfig
  (tc_Name tc) (tc_Address tc) (tc_Username tc) (tc_Password tc) (tc_AuthScheme tc) (tc_Timeout tc) (tc_Insecure tc)
  (tc_TLSCA tc) (tc_TLSCert tc) (tc_TLSKey tc) (tc_SkipVerify tc) (tc_TLSServerName tc) (tc_Subscriptions tc)
  (tc_Outputs tc) buffer (tc_GRPCReadBufferSize tc) (tc_GRPCWriteBufferSize tc) (tc_GRPCConnWindowSize
  tc) (tc_GRPCWindowSize tc) (tc_GRPCStaticConnWindowSize tc) (tc_GRPCStaticStreamWindowSize tc) retry
  (tc_TLSMinVersion tc) (tc_TLSMaxVersion tc) (tc_TLSVersion tc) (tc_LogTLSSecret tc) (tc_ProtoFiles tc)
  (tc_ProtoDirs tc) (tc_Tags tc) (tc_EventTags tc) (tc_Gzip tc) (tc_Token tc) (tc_Proxy tc) (tc_TunnelTargetType tc)
  (tc_Encoding tc) (tc_Metadata tc) (tc_CipherSuites tc) (tc_TCPKeepalive tc) (tc_GRPCKeepalive tc) (tc_TLSReload tc).

(** ** Redaction *)

Definition redact (p : option string) : option string := match p with Some _ => Some "****" | None => None end.
Definition redacted (tc : TargetConfig) : TargetConfig := mkTargetConfig
  (tc_Name tc) (tc_Address tc) (tc_Username tc) (redact (tc_Password tc)) (tc_AuthScheme tc) (tc_Timeout tc)
  (tc_Insecure tc) (tc_TLSCA tc) (tc_TLSCert tc) (tc_TLSKey tc) (tc_SkipVerify tc) (tc_TLSServerName tc)
  (tc_Subscriptions tc) (tc_Outputs tc) (tc_BufferSize tc) (tc_GRPCReadBufferSize tc) (tc_GRPCWriteBufferSize tc)
  (tc_GRPCConnWindowSize tc) (tc_GRPCWindowSize tc) (tc_GRPCStaticConnWindowSize tc) (tc_GRPCStaticStreamWindowSize
  tc) (tc_RetryTimer tc) (tc_TLSMinVersion tc) (tc_TLSMaxVersion tc) (tc_TLSVersion tc) (tc_LogTLSSecret tc)
  (tc_ProtoFiles tc) (tc_ProtoDirs tc) (tc_Tags tc) (tc_EventTags tc) (tc_Gzip tc) (redact (tc_Token tc)) (tc_Proxy
  tc) (tc_TunnelTargetType tc) (tc_Encoding tc) (tc_Metadata tc) (tc_CipherSuites tc) (tc_TCPKeepalive tc)
  (tc_GRPCKeepalive tc) (tc_TLSReload tc).

Definition RedactedDeepCopy (next : Z) (tc : TargetConfig) : TargetConfig := redacted (DeepCopy next tc).

(** ** Printing *)

(** [json.Marshal] of a configuration. *)
Class TargetJSON : Type := { target_json : TargetConfig -> option string }.

Definition with_secrets (password token : option string) (tc : TargetConfig) : TargetConfig := mkTargetConfig
  (tc_Name tc) (tc_Address tc) (tc_Username tc) password (tc_AuthScheme tc) (tc_Timeout tc)
  (tc_Insecure tc) (tc_TLSCA tc) (tc_TLSCert tc) (tc_TLSKey tc) (tc_SkipVerify tc) (tc_TLSServerName tc)
  (tc_Subscriptions tc) (tc_Outputs tc) (tc_BufferSize tc) (tc_GRPCReadBufferSize tc) (tc_GRPCWriteBufferSize tc)
  (tc_GRPCConnWindowSize tc) (tc_GRPCWindowSize tc) (tc_GRPCStaticConnWindowSize tc) (tc_GRPCStaticStreamWindowSize
  tc) (tc_RetryTimer tc) (tc_TLSMinVersion tc) (tc_TLSMaxVersion tc) (tc_TLSVersion tc) (tc_LogTLSSecret tc)
  (tc_ProtoFiles tc) (tc_ProtoDirs tc) (tc_Tags tc) (tc_EventTags tc) (tc_Gzip tc) token (tc_Proxy
  tc) (tc_TunnelTargetType tc) (tc_Encoding tc) (tc_Metadata tc) (tc_CipherSuites tc) (tc_TCPKeepalive tc)
  (tc_GRPCKeepalive tc) (tc_TLSReload tc).

(** [String] hides the password, and the token unless it is empty. *)
Definition String_ `{TargetJSON} (tc : TargetConfig) : string :=
  let token := match tc_Token tc with Some "" => Some "" | t => redact t end in
  default "" (target_json (with_secrets (redact (tc_Password tc)) token tc)).

Inductive log_value := LogString (s : string) | LogGroup (attrs : list (string * (string + bool))).
Definition opt_attr {A} (key : string) (f : A -> string + bool) (o : option A) : list (string * (string + bool)) :=
  match o with Some a => [(key, f a)] | None => [] end.

Definition LogValue (tc : option TargetConfig) : log_value :=
  match tc with
  | None => LogString "<nil>"
  | Some tc => LogGroup ([("name", inl (tc_Name tc)); ("address", inl (tc_Address tc))]
      ++ opt_attr "username" inl (tc_Username tc)
      ++ opt_attr "insecure" inr (tc_Insecure tc)
      ++ opt_attr "skip-verify" inr (tc_SkipVerify tc))
  end.

Definition notApplicable : string := "NA".
Definition or_NA (p : option string) : string := default notApplicable p.
Definition nonempty_or_NA (p : option string) : string := match p with None | Some "" => notApplicable | Some s => s end.

Definition UsernameString (tc : TargetConfig) : string := or_NA (tc_Username tc).
Definition PasswordString (tc : TargetConfig) : string := or_NA (tc_Password tc).
Definition InsecureString (tc : TargetConfig) : string := or_NA (format_bool <$> tc_Insecure tc).
Definition TLSCAString (tc : TargetConfig) : string := nonempty_or_NA (tc_TLSCA tc).
Definition TLSKeyString (tc : TargetConfig) : string := nonempty_or_NA (tc_TLSKey tc).
Definition TLSCertString (tc : TargetConfig) : string := nonempty_or_NA (tc_TLSCert tc).
Definition SkipVerifyString (tc : TargetConfig) : string := or_NA (format_bool <$> tc_SkipVerify tc).
Definition newline : string := String "010" "".
Definition SubscriptionString (tc : TargetConfig) : string := "- " +:+ sjoin newline (default [] (tc_Subscriptions tc)).
Definition OutputsString (tc : TargetConfig) : string := sjoin newline (default [] (tc_Outputs tc)).
Definition BufferSizeString (tc : TargetConfig) : string := itoa (tc_BufferSize tc).

(** ** TLS *)

Definition VersionTLS10 : Z := 769.
Definition VersionTLS11 : Z := 770.
Definition VersionTLS12 : Z := 771.
Definition VersionTLS13 : Z := 772.

Definition tlsVersionStringToUint (v : string) : Z :=
  if String.eqb v "1.3" then VersionTLS13
  else if String.eqb v "1.2" then VersionTLS12
  else if String.eqb v "1.1" then VersionTLS11
  else if String.eqb v "1.0" || String.eqb v "1" then VersionTLS10
  else 0.
Definition getTLSMinVersion (tc : TargetConfig) : Z :=
  let v := tlsVersionStringToUint (tc_TLSVersion tc) in
  if 0 <? v then v else tlsVersionStringToUint (tc_TLSMinVersion tc).
Definition getTLSMaxVersion (tc : TargetConfig) : Z :=
  let v := tlsVersionStringToUint (tc_TLSVersion tc) in
  if 0 <? v then v else tlsVersionStringToUint (tc_TLSMaxVersion tc).

(** The numbers of the suites in the tls package. *)
Definition ciphersMap : list (string * Z) := [
  ("TLS_RSA_WITH_AES_128_CBC_SHA", 47); ("TLS_RSA_WITH_AES_256_CBC_SHA", 53);
  ("TLS_RSA_WITH_AES_128_GCM_SHA256", 156); ("TLS_RSA_WITH_AES_256_GCM_SHA384", 157);
  ("TLS_AES_128_GCM_SHA256", 4865); ("TLS_AES_256_GCM_SHA384", 4866); ("TLS_CHACHA20_POLY1305_SHA256", 4867);
  ("TLS_ECDHE_ECDSA_WITH_AES_128_CBC_SHA", 49161); ("TLS_ECDHE_ECDSA_WITH_AES_256_CBC_SHA", 49162);
  ("TLS_ECDHE_RSA_WITH_AES_128_CBC_SHA", 49171); ("TLS_ECDHE_RSA_WITH_AES_256_CBC_SHA", 49172);
  ("TLS_ECDHE_ECDSA_WITH_AES_128_GCM_SHA256", 49195); ("TLS_ECDHE_ECDSA_WITH_AES_256_GCM_SHA384", 49196);
  ("TLS_ECDHE_RSA_WITH_AES_128_GCM_SHA256", 49199); ("TLS_ECDHE_RSA_WITH_AES_256_GCM_SHA384", 49200);
  ("TLS_ECDHE_RSA_WITH_CHACHA20_POLY1305_SHA256", 52392); ("TLS_ECDHE_ECDSA_WITH_CHACHA20_POLY1305_SHA256", 52393);
  ("TLS_RSA_WITH_RC4_128_SHA", 5); ("TLS_RSA_WITH_3DES_EDE_CBC_SHA", 10); ("TLS_RSA_WITH_AES_128_CBC_SHA256", 60);
  ("TLS_ECDHE_ECDSA_WITH_RC4_128_SHA", 49159); ("TLS_ECDHE_RSA_WITH_RC4_128_SHA", 49169);
  ("TLS_ECDHE_RSA_WITH_3DES_EDE_CBC_SHA", 49170);
  ("TLS_ECDHE_ECDSA_WITH_AES_128_CBC_SHA256", 49187); ("TLS_ECDHE_RSA_WITH_AES_128_CBC_SHA256", 49191)].

Definition cipherSuitesPreferenceOrder : list Z :=
  [49195; 49199; 49196; 49200; 52393; 52392; 49161; 49171; 49162; 49172; 156; 157; 47; 53; 49170; 10;
   49187; 49191; 60; 49159; 49169; 5].
Definition disabledCipherSuites : list Z := [49187; 49191; 60; 49159; 49169; 5].
Definition defaultCipherSuites : list Z :=
  take (length cipherSuitesPreferenceOrder - length disabledCipherSuites) cipherSuitesPreferenceOrder.
Definition defaultCipherSuitesTLS13 : list Z := [4865; 4866; 4867].

Fixpoint cipher_named (l : list (string * Z)) (name : string) : option Z :=
  match l with
  | [] => None
  | (n, v) :: l => if String.eqb n name then Some v else cipher_named l name
  end.

Section tls.
Context `{TlsLib}.

(** The fields that a target sets on the configuration it got. *)
Definition set_tls (log : bool) (minv maxv : Z) (server : string) (suites : list Z) (c : tls_Config) : tls_Config :=
  mkTlsConfig (t_InsecureSkipVerify c) (t_ClientAuth c) (t_reloader c) (t_Certificates c) (t_RootCAs c) (t_ClientCAs c) (t_verify c)
    (log || t_KeyLogWriter c) minv maxv server suites.

Definition cipher_suites (tc : TargetConfig) : go tls_error (list Z) :=
  match default [] (tc_CipherSuites tc) with
  | [] =>
      let maxv := getTLSMaxVersion tc in
      Ok (defaultCipherSuites ++ if (maxv =? VersionTLS13) || (maxv =? 0) then defaultCipherSuitesTLS13 else [])
  | l => mapE (fun cs => match cipher_named ciphersMap cs with Some v => Ok v | None => Err (errCipherSuite cs) end) l
  end.

(** [tls]: a configuration set by [SetTLSConfig]. [create]: whether the secrets
    file can be created. *)
Definition target_NewTLSConfig (s : pair_seen) (sca : ca_seen) (w : disk) (create : string -> bool) (tls : option tls_Config) (tc : TargetConfig)
    : go tls_error (option tls_Config) :=
  match tls with
  | Some c => Ok (Some c)
  | None =>
      let val := default "" in
      tlsConfig ← NewTLSConfig s sca w (val (tc_TLSCA tc)) (val (tc_TLSCert tc)) (val (tc_TLSKey tc)) ""
        (default false (tc_SkipVerify tc)) false (default false (tc_TLSReload tc));
      match tlsConfig with
      | None => Ok None
      | Some c =>
          let log := default false (tc_LogTLSSecret tc) in
          if log && negb (create (tc_Name tc +:+ ".tlssecret.log")) then Err errKeyLog
          else
            suites ← cipher_suites tc;
            Ok (Some (set_tls log (getTLSMinVersion tc) (getTLSMaxVersion tc) (tc_TLSServerName tc) suites c))
      end
  end.

(** ** Dial options *)

Inductive DialOption :=
| UseGzip | WithKeepaliveParams (k : ClientKeepalive)
| WithReadBufferSize (n : Z) | WithWriteBufferSize (n : Z)
| WithInitialConnWindowSize (n : Z) | WithInitialWindowSize (n : Z)
| WithStaticConnWindowSize (n : Z) | WithStaticStreamWindowSize (n : Z)
| WithInsecure | WithTLS (c : option tls_Config) | WithToken (token : string).

Definition int_opt (f : Z -> DialOption) (p : int_ptr) : list DialOption := match p with Some (_, v) => [f v] | None => [] end.

Definition GrpcDialOptions (s : pair_seen) (sca : ca_seen) (w : disk) (create : string -> bool) (tls : option tls_Config) (tc : TargetConfig)
    : go tls_error (list DialOption) :=
  let tOpts :=
    (if default false (tc_Gzip tc) then [UseGzip] else [])
    ++ (match tc_GRPCKeepalive tc with Some k => [WithKeepaliveParams k] | None => [] end)
    ++ int_opt WithReadBufferSize (tc_GRPCReadBufferSize tc)
    ++ int_opt WithWriteBufferSize (tc_GRPCWriteBufferSize tc)
    ++ int_opt (fun v => WithInitialConnWindowSize (wrap KInt32 v)) (tc_GRPCConnWindowSize tc)
    ++ int_opt (fun v => WithInitialWindowSize (wrap KInt32 v)) (tc_GRPCWindowSize tc)
    ++ int_opt (fun v => WithStaticConnWindowSize (wrap KInt32 v)) (tc_GRPCStaticConnWindowSize tc)
    ++ int_opt (fun v => WithStaticStreamWindowSize (wrap KInt32 v)) (tc_GRPCStaticStreamWindowSize tc) in
  if default false (tc_Insecure tc) then Ok (tOpts ++ [WithInsecure])
  else
    tlsConfig ← target_NewTLSConfig s sca w create tls tc;
    let token := default "" (tc_Token tc) in
    Ok (tOpts ++ [WithTLS tlsConfig] ++ if String.eqb token "" then [] else [WithToken token]).
End tls.

(** ** The connection spec *)

Record connSpec := mkConnSpec {
  cs_Address : string; cs_Username : string; cs_Password : string; cs_AuthScheme : string; cs_Token : string; cs_Proxy : string;
  cs_Timeout : Z; cs_TCPKeepalive : Z; cs_GRPCKeepalive : option ClientKeepalive;
  cs_Insecure : bool; cs_TLSCA : string; cs_TLSCert : string; cs_TLSKey : string; cs_SkipVerify : bool;
  cs_TLSServerName : string; cs_TLSMinVersion : string; cs_TLSMaxVersion : string; cs_TLSVersion : string;
  cs_CipherSuites : list string; cs_Encoding : string; cs_Gzip : bool
}.

Definition connSpecFrom (tc : TargetConfig) : connSpec :=
  let val := default "" in
  mkConnSpec (tc_Address tc) (val (tc_Username tc)) (val (tc_Password tc)) (tc_AuthScheme tc) (val (tc_Token tc)) (tc_Proxy tc)
    (tc_Timeout tc) (tc_TCPKeepalive tc) (tc_GRPCKeepalive tc)
    (default false (tc_Insecure tc)) (val (tc_TLSCA tc)) (val (tc_TLSCert tc)) (val (tc_TLSKey tc)) (default false (tc_SkipVerify tc))
    (tc_TLSServerName tc) (tc_TLSMinVersion tc) (tc_TLSMaxVersion tc) (tc_TLSVersion tc)
    (sort_strings (default [] (tc_CipherSuites tc))) (val (tc_Encoding tc)) (default false (tc_Gzip tc)).

(** [json.Marshal] of a spec. *)
Class SpecJSON : Type := { spec_json : connSpec -> option string }.

(** The hash is 0 when the spec cannot be encoded. *)
Definition hashConnSpec `{SpecJSON} (cfg : TargetConfig) : Z :=
  match spec_json (connSpecFrom cfg) with Some b => fnv1a b | None => 0 end.
Definition shouldReconnect `{SpecJSON} (old new : TargetConfig) : bool := negb (hashConnSpec old =? hashConnSpec new).

(** ** Results *)

Lemma slices_Equal_clone l : slices_Equal (clone_list l) l = true.
Proof. by apply bool_decide_eq_true. Qed.
Lemma maps_Equal_clone m : maps_Equal (clone_map m) m = true.
Proof. by apply bool_decide_eq_true. Qed.
Lemma same_clone addr p : (forall a v, p = Some (a, v) -> a <> addr) -> same_ptr (clonePtr addr p) p = bool_decide (p = None).
Proof.
  destruct p as [[a v]|]; [|done]. intros Ha. cbn.
  apply Z.eqb_neq. specialize (Ha a v eq_refl). lia.
Qed.

Lemma bd_refl {A} `{EqDecision A} (x : A) : bool_decide (x = x) = true.
Proof. by apply bool_decide_eq_true. Qed.

(** The sizes whose equality is that of pointers. *)
Definition sizes (tc : TargetConfig) : list int_ptr :=
  [tc_GRPCReadBufferSize tc; tc_GRPCWriteBufferSize tc; tc_GRPCConnWindowSize tc; tc_GRPCWindowSize tc;
   tc_GRPCStaticConnWindowSize tc; tc_GRPCStaticStreamWindowSize tc].
(** The addresses from [next] on are not in use. *)
Definition fresh_for (next : Z) (tc : TargetConfig) : Prop := Forall (fun p => forall a v, p = Some (a, v) -> a < next) (sizes tc).

(** A deep copy of a target configuration is equal to the original exactly
    when none of its six gRPC sizes is set: these are compared by pointer, so a
    target with one of them never equals its own copy, and the manager, which
    keeps a copy, takes every re-delivery of its unchanged configuration for a
    change. *)
Theorem DeepCopy_Equal next tc :
  fresh_for next tc -> (Equal (DeepCopy next tc) tc = true <-> Forall (fun p => p = None) (sizes tc)).
Proof.
  unfold fresh_for, sizes. rewrite !Forall_cons. intros (H1 & H2 & H3 & H4 & H5 & H6 & _).
  unfold Equal, DeepCopy.
  cbn [tc_Name tc_Address tc_Username tc_Password tc_AuthScheme tc_Timeout tc_Insecure tc_TLSCA tc_TLSCert tc_TLSKey tc_SkipVerify
    tc_TLSServerName tc_Subscriptions tc_Outputs tc_BufferSize tc_GRPCReadBufferSize tc_GRPCWriteBufferSize tc_GRPCConnWindowSize
    tc_GRPCWindowSize tc_GRPCStaticConnWindowSize tc_GRPCStaticStreamWindowSize tc_RetryTimer tc_TLSMinVersion tc_TLSMaxVersion
    tc_TLSVersion tc_LogTLSSecret tc_ProtoFiles tc_ProtoDirs tc_Tags tc_EventTags tc_Gzip tc_Token tc_Proxy tc_TunnelTargetType
    tc_Encoding tc_Metadata tc_CipherSuites tc_TCPKeepalive tc_GRPCKeepalive tc_TLSReload].
  rewrite !String.eqb_refl, !Z.eqb_refl, !slices_Equal_clone, !maps_Equal_clone.
  rewrite !same_clone by (intros a v E; first [specialize (H1 a v E)|specialize (H2 a v E)|specialize (H3 a v E)
    |specialize (H4 a v E)|specialize (H5 a v E)|specialize (H6 a v E)]; lia).
  rewrite !bd_refl. cbn [andb].
  rewrite ?andb_true_r, !andb_true_iff, !bool_decide_eq_true. split.
  - intros ([[[[? ?] ?] ?] ?] & ?). split_and!; done.
  - intros (? & ? & ? & ? & ? & ? & _). done.
Qed.

(** A target with a read buffer size, re-delivered unchanged. *)
Example redelivery_differs :
  let tc := mkTargetConfig "r1" "10.0.0.1:57400" None None "" 0 None None None None None "" None None 0 (Some (1, 65536)) None None None
    None None 0 "" "" "" None None None None None None None "" "" None None None 0 None None in
  Equal (DeepCopy 100 tc) tc = false /\ Equal (DeepCopy 100 zeroTarget) zeroTarget = true.
Proof. by vm_compute. Qed.

Lemma DeepCopy_Equal_witness : Equal (DeepCopy 100 zeroTarget) zeroTarget = true.
Proof. apply (DeepCopy_Equal 100 zeroTarget); repeat constructor; done. Defined.

(** Copies ask for no reconnection. *)
Lemma no_reconnect `{SpecJSON} old new : connSpecFrom old = connSpecFrom new -> shouldReconnect old new = false.
Proof. intros He. unfold shouldReconnect, hashConnSpec. by rewrite He, Z.eqb_refl. Qed.

Section dial.
Context `{TlsLib}.

(** The options before the credentials. *)
Lemma transport_opts (tc : TargetConfig) (o : DialOption) :
  o ∈ (if default false (tc_Gzip tc) then [UseGzip] else [])
    ++ (match tc_GRPCKeepalive tc with Some k => [WithKeepaliveParams k] | None => [] end)
    ++ int_opt WithReadBufferSize (tc_GRPCReadBufferSize tc) ++ int_opt WithWriteBufferSize (tc_GRPCWriteBufferSize tc)
    ++ int_opt (fun v => WithInitialConnWindowSize (wrap KInt32 v)) (tc_GRPCConnWindowSize tc)
    ++ int_opt (fun v => WithInitialWindowSize (wrap KInt32 v)) (tc_GRPCWindowSize tc)
    ++ int_opt (fun v => WithStaticConnWindowSize (wrap KInt32 v)) (tc_GRPCStaticConnWindowSize tc)
    ++ int_opt (fun v => WithStaticStreamWindowSize (wrap KInt32 v)) (tc_GRPCStaticStreamWindowSize tc) ->
  match o with WithToken _ | WithInsecure | WithTLS _ => False | _ => True end.
Proof.
  assert (forall f p, o ∈ int_opt f p -> exists v, o = f v) as Hi.
  { intros f [[a v]|] Hin; [|by apply elem_of_nil in Hin]. apply list_elem_of_singleton in Hin. eauto. }
  rewrite !elem_of_app. intros [Hx|[Hx|Hx]].
  - destruct (default false _); [apply list_elem_of_singleton in Hx as ->; done|by apply elem_of_nil in Hx].
  - destruct (tc_GRPCKeepalive tc); [apply list_elem_of_singleton in Hx as ->; done|by apply elem_of_nil in Hx].
  - by repeat destruct Hx as [(v & ->)%Hi|Hx]; [..|apply Hi in Hx as (v & ->)].
Qed.

(** A token is sent only over TLS: an insecure target never gets one. *)
Lemma token_needs_tls s sca w create tls tc os t :
  GrpcDialOptions s sca w create tls tc = Ok os -> WithToken t ∈ os -> (WithInsecure ∉ os) /\ (exists c, WithTLS c ∈ os).
Proof.
  unfold GrpcDialOptions. intros Hg Ht. destruct (default false (tc_Insecure tc)).
  - injection Hg as <-. apply elem_of_app in Ht as [Ht|Ht]; [by apply transport_opts in Ht|].
    by apply list_elem_of_singleton in Ht.
  - apply bind_ok in Hg as (c & _ & Hg). injection Hg as <-. split.
    + rewrite elem_of_app. intros [Hx|Hx]; [by apply transport_opts in Hx|].
      apply elem_of_cons in Hx as [|Hx]; [done|]. destruct (String.eqb _ ""); [by apply elem_of_nil in Hx|].
      by apply list_elem_of_singleton in Hx.
    + exists c. apply elem_of_app. right. by left.
Qed.
End dial.
