(* ===== verification/Subscribe.v ===== *)
(** * Subscribe requests from subscription configurations (pkg/utils/gnmi.go)

    [CreateSubscribeRequest] validates a subscription configuration, fills in
    its defaults (in the shared configuration itself), turns it into message
    options and builds the request. The functional theorem gives the request of
    every accepted configuration field by field; the error theorem shows the
    encodings that validation accepts and the request builder refuses. *)

From stdpp Require Import strings.
From S2P Require Import Prelude GoStrings Utf8 Path GoVal Event Text Messages Target.

#[local] Open Scope Z_scope.
#[local] Arguments wrap : simpl never.

(** ** Data *)

(** A zero time is [None]. *)
Record HistoryConfig := mkHistory { hc_Snapshot : option Z; hc_Start : option Z; hc_End : option Z }.

Inductive SubscriptionConfig := mkSubConfig {
  sc_Name : string;
  sc_Models : option (list string);
  sc_Prefix : string;
  sc_Target : string;
  sc_SetTarget : bool;
  sc_Paths : list string;
  sc_Mode : string;
  sc_StreamMode : string;
  sc_Encoding : option string;
  sc_Qos : option Z;
  sc_SampleInterval : option Z;
  sc_HeartbeatInterval : option Z;
  sc_SuppressRedundant : bool;
  sc_UpdatesOnly : bool;
  sc_History : option HistoryConfig;
  sc_StreamSubscriptions : option (list SubscriptionConfig);
  sc_Outputs : option (list string);
  sc_Depth : Z
}.

Inductive config_error :=
| errMissingPaths | errPathsAndStreams | errStreamsAndMode | errUnknownMode | errUnknownEncoding | errUnknownStreamMode
| errStreamAttribute (i : nat) (attribute : string) | errStreamPaths (i : nat) | errStreamStreamMode (i : nat).

(** [o != nil]. *)
Definition isset {A} (o : option A) : bool := match o with Some _ => true | None => false end.

Definition streams (sc : SubscriptionConfig) : list SubscriptionConfig := default [] (sc_StreamSubscriptions sc).

Definition SubscriptionMode_STREAM : string := "STREAM".
Definition SubscriptionMode_ONCE : string := "ONCE".
Definition SubscriptionMode_POLL : string := "POLL".
Definition StreamMode_TARGET_DEFINED : string := "TARGET_DEFINED".
Definition StreamMode_ON_CHANGE : string := "ON_CHANGE".
Definition StreamMode_SAMPLE : string := "SAMPLE".

Section subscribe.
Context `{UnicodeCase} `{GnmiEnums}.

(** ** Validation *)

Definition member (l : list string) (s : string) : bool := existsb (String.eqb s) l.

Definition knownStreamMode (m : string) : bool :=
  member ["" ; StreamMode_TARGET_DEFINED; StreamMode_SAMPLE; StreamMode_ON_CHANGE] (ToUpper (replace_byte "-" "_" m)).

(** One stream subscription: the attributes that belong to the whole list must
    not be set. *)
Definition validate_stream (i : nat) (scs : SubscriptionConfig) : go config_error () :=
  if negb (String.eqb (sc_Mode scs) "") then Err (errStreamAttribute i "mode")
  else if negb (String.eqb (sc_Prefix scs) "") then Err (errStreamAttribute i "prefix")
  else if negb (String.eqb (sc_Target scs) "") then Err (errStreamAttribute i "target")
  else if sc_SetTarget scs then Err (errStreamAttribute i "set-target")
  else if isset (sc_Encoding scs) then Err (errStreamAttribute i "encoding")
  else if isset (sc_History scs) then Err (errStreamAttribute i "history")
  else if isset (sc_Models scs) then Err (errStreamAttribute i "models")
  else if sc_UpdatesOnly scs then Err (errStreamAttribute i "updates-only")
  else if isset (sc_StreamSubscriptions scs) then Err (errStreamAttribute i "subscriptions")
  else if isset (sc_Qos scs) then Err (errStreamAttribute i "qos")
  else if nilb (sc_Paths scs) then Err (errStreamPaths i)
  else if negb (knownStreamMode (sc_StreamMode scs)) then Err (errStreamStreamMode i)
  else Ok ().

Fixpoint validate_streams (i : nat) (l : list SubscriptionConfig) : go config_error () :=
  match l with
  | [] => Ok ()
  | scs :: l => _ ← validate_stream i scs; validate_streams (S i) l
  end.

Definition encoding_accepted (e : string) : bool :=
  member [""; "JSON"; "BYTES"; "PROTO"; "ASCII"; "JSON_IETF"] (ToUpper (replace_byte "-" "_" e))
  || match atoi e with Some _ => true | None => false end.

Definition ValidateSubscriptionConfig (sc : SubscriptionConfig) : go config_error () :=
  if String.eqb (sc_Prefix sc) "" && nilb (sc_Paths sc) && nilb (streams sc) then Err errMissingPaths
  else if negb (nilb (sc_Paths sc)) && negb (nilb (streams sc)) then Err errPathsAndStreams
  else
    let mode := ToUpper (sc_Mode sc) in
    mode ← (if String.eqb mode "" then Ok SubscriptionMode_STREAM
            else if member [SubscriptionMode_ONCE; SubscriptionMode_POLL] mode then
              if negb (nilb (streams sc)) then Err errStreamsAndMode else Ok mode
            else if String.eqb mode SubscriptionMode_STREAM then Ok mode
            else Err errUnknownMode);
    _ ← (match sc_Encoding sc with
         | Some e => if encoding_accepted e then Ok () else Err errUnknownEncoding
         | None => Ok ()
         end);
    if negb (String.eqb mode SubscriptionMode_STREAM) then Ok ()
    else if nilb (streams sc) then
      if knownStreamMode (sc_StreamMode sc) then Ok () else Err errUnknownStreamMode
    else validate_streams 0 (streams sc).

(** ** Defaults *)

Definition with_stream_mode (m : string) (sc : SubscriptionConfig) : SubscriptionConfig :=
  mkSubConfig (sc_Name sc) (sc_Models sc) (sc_Prefix sc) (sc_Target sc) (sc_SetTarget sc) (sc_Paths sc) (sc_Mode sc) m
    (sc_Encoding sc) (sc_Qos sc) (sc_SampleInterval sc) (sc_HeartbeatInterval sc) (sc_SuppressRedundant sc) (sc_UpdatesOnly sc)
    (sc_History sc) (sc_StreamSubscriptions sc) (sc_Outputs sc) (sc_Depth sc).
Definition default_stream_mode (sc : SubscriptionConfig) : SubscriptionConfig :=
  if String.eqb (sc_StreamMode sc) "" then with_stream_mode StreamMode_TARGET_DEFINED sc else sc.

Definition setSubscriptionDefaults (sc : SubscriptionConfig) : SubscriptionConfig :=
  let mode := if String.eqb (sc_Mode sc) "" then SubscriptionMode_STREAM else sc_Mode sc in
  let enc := match sc_Encoding sc with Some "" => Some "JSON" | e => e end in
  let set sm ss := mkSubConfig (sc_Name sc) (sc_Models sc) (sc_Prefix sc) (sc_Target sc) (sc_SetTarget sc) (sc_Paths sc) mode sm
    enc (sc_Qos sc) (sc_SampleInterval sc) (sc_HeartbeatInterval sc) (sc_SuppressRedundant sc) (sc_UpdatesOnly sc)
    (sc_History sc) ss (sc_Outputs sc) (sc_Depth sc) in
  if negb (String.eqb (ToUpper mode) SubscriptionMode_STREAM) then set (sc_StreamMode sc) (sc_StreamSubscriptions sc)
  else if nilb (streams sc) then
    set (if String.eqb (sc_StreamMode sc) "" then StreamMode_TARGET_DEFINED else sc_StreamMode sc) (sc_StreamSubscriptions sc)
  else set (sc_StreamMode sc) (map default_stream_mode <$> sc_StreamSubscriptions sc).

Definition validateAndSetDefaults (sc : SubscriptionConfig) : go config_error SubscriptionConfig :=
  _ ← ValidateSubscriptionConfig sc; Ok (setSubscriptionDefaults sc).

(** ** Options *)

(** A lookup in an enum table gives 0 for a missing name. *)
Definition enum (t : string -> option Z) (s : string) : Z := default 0 (t s).
Definition stream_mode (sc : SubscriptionConfig) : Z :=
  enum SubscriptionMode_value (replace_byte "-" "_" (ToUpper (sc_StreamMode sc))).

(** [if o != nil { opts = append(opts, f(o)) }]. *)
Definition opt_if {A} (f : A -> GNMIOption) (o : option A) : list GNMIOption :=
  match o with Some a => [f a] | None => [] end.
Definition when (b : bool) (l : list GNMIOption) : list GNMIOption := if b then l else [].

(** The sample interval, the redundancy flag and the heartbeat of suppressed
    values. *)
Definition sample_opts (sc : SubscriptionConfig) : list GNMIOption :=
  opt_if opt_SampleInterval (sc_SampleInterval sc) ++ [opt_SuppressRedundant (sc_SuppressRedundant sc)]
  ++ when (sc_SuppressRedundant sc) (opt_if opt_HeartbeatInterval (sc_HeartbeatInterval sc)).

Definition stream_path_opts (sc : SubscriptionConfig) (p : string) : go config_error (list GNMIOption) :=
  let mode := opt_SubscriptionMode (sc_StreamMode sc) in
  let heartbeat := opt_if opt_HeartbeatInterval (sc_HeartbeatInterval sc) in
  if stream_mode sc =? 1 then Ok (heartbeat ++ [mode; opt_Path p])
  else if (stream_mode sc =? 2) || (stream_mode sc =? 0) then Ok (sample_opts sc ++ [mode; opt_Path p])
  else Err errUnknownStreamMode.

Definition streamSubscriptionOpts (sc : SubscriptionConfig) : go config_error (list GNMIOption) :=
  mapE (fun p => os ← stream_path_opts sc p; Ok (opt_Subscription os)) (sc_Paths sc).

Definition path_opts (sc : SubscriptionConfig) (p : string) : go config_error (list GNMIOption) :=
  let mode := opt_SubscriptionMode (sc_StreamMode sc) in
  let heartbeat := opt_if opt_HeartbeatInterval (sc_HeartbeatInterval sc) in
  if enum SubscriptionList_Mode_value (ToUpper (sc_Mode sc)) =? 0 then
    if stream_mode sc =? 1 then Ok (heartbeat ++ [mode; opt_Path p])
    else if stream_mode sc =? 0 then Ok (heartbeat ++ sample_opts sc ++ [mode; opt_Path p])
    else if stream_mode sc =? 2 then Ok (sample_opts sc ++ [mode; opt_Path p])
    else Err errUnknownStreamMode
  else Ok [opt_Path p].

Definition history_opts (h : option HistoryConfig) : list GNMIOption :=
  match h with
  | None => []
  | Some h =>
      opt_if opt_Extension_HistorySnapshotTime (hc_Snapshot h)
      ++ match hc_Start h, hc_End h with
         | Some a, Some b => [opt_Extension_HistoryRange a b]
         | _, _ => []
         end
  end.

Definition request_encoding (sc : SubscriptionConfig) (tc : option TargetConfig) (defaultEncoding : string) : string :=
  match sc_Encoding sc with
  | Some e => e
  | None => match (t ← tc; tc_Encoding t) with Some e => e | None => defaultEncoding end
  end.

Definition target_opts (sc : SubscriptionConfig) (tc : option TargetConfig) : go config_error (list GNMIOption) :=
  if negb (String.eqb (sc_Target sc) "") then Ok [opt_Target (sc_Target sc)]
  else if sc_SetTarget sc then match tc with Some t => Ok [opt_Target (tc_Name t)] | None => Panic end
  else Ok [].

Definition SubscriptionOpts (sc : SubscriptionConfig) (tc : option TargetConfig) (defaultEncoding : string)
    : go config_error (list GNMIOption) :=
  let head := [opt_Prefix (sc_Prefix sc); opt_SubscriptionListMode (sc_Mode sc); opt_UpdatesOnly (sc_UpdatesOnly sc);
               opt_Encoding (request_encoding sc tc defaultEncoding)]
    ++ history_opts (sc_History sc) ++ opt_if opt_Qos (sc_Qos sc)
    ++ map (fun m => opt_UseModel m "" "") (default [] (sc_Models sc)) in
  target ← target_opts sc tc;
  streamOpts ← mapE streamSubscriptionOpts (streams sc);
  pathOpts ← mapE (fun p => os ← path_opts sc p; Ok (opt_Subscription os)) (sc_Paths sc);
  Ok (head ++ target ++ concat streamOpts ++ pathOpts ++ when (0 <? sc_Depth sc) [opt_Extension_Depth (sc_Depth sc)]).

(** The configuration after the call, and the request with its error; [Err] is
    a configuration error, without a request. *)
Definition CreateSubscribeRequest (cfg : SubscriptionConfig) (tc : option TargetConfig) (defaultEncoding : string)
    : go config_error (SubscriptionConfig * outcome (msg SubReq)) :=
  cfg ← validateAndSetDefaults cfg;
  gnmiOpts ← SubscriptionOpts cfg tc defaultEncoding;
  Ok (cfg, NewSubscribeRequest gnmiOpts).
End subscribe.

(** ** The request of an accepted configuration *)

(** What gnmi.proto says of the names used here. *)
Class GnmiSpec `{GnmiEnums} : Prop := {
  list_modes : SubscriptionList_Mode_value "STREAM" = Some 0 /\ SubscriptionList_Mode_value "ONCE" = Some 1
    /\ SubscriptionList_Mode_value "POLL" = Some 2;
  stream_modes : SubscriptionMode_value "TARGET_DEFINED" = Some 0 /\ SubscriptionMode_value "ON_CHANGE" = Some 1
    /\ SubscriptionMode_value "SAMPLE" = Some 2
}.

Section spec.
Context `{UpperSpec} `{GnmiSpec}.

(** The mode of the list: ONCE, POLL, or STREAM when nothing is said. *)
Definition spec_mode (sc : SubscriptionConfig) : Z :=
  if String.eqb (ToUpper (sc_Mode sc)) "ONCE" then 1 else if String.eqb (ToUpper (sc_Mode sc)) "POLL" then 2 else 0.
Definition spec_stream_mode (sc : SubscriptionConfig) : Z :=
  let m := ToUpper (undash (sc_StreamMode sc)) in
  if String.eqb m "ON_CHANGE" then 1 else if String.eqb m "SAMPLE" then 2 else 0.

Definition nanos (d : option Z) : Z := match d with Some d => uint64 d | None => 0 end.

(** The subscription of one path of a streaming configuration. [top]: the path
    is listed in the configuration itself, not in a stream subscription. *)
Definition spec_stream (top : bool) (sc : SubscriptionConfig) (p : GPath) : Subscription :=
  let m := spec_stream_mode sc in
  if m =? 1 then mkSubscription (Some p) 1 0 false (nanos (sc_HeartbeatInterval sc))
  else mkSubscription (Some p) m (nanos (sc_SampleInterval sc)) (sc_SuppressRedundant sc)
         (if sc_SuppressRedundant sc || top && (m =? 0) then nanos (sc_HeartbeatInterval sc) else 0).
Definition spec_path (sc : SubscriptionConfig) (p : GPath) : Subscription :=
  if spec_mode sc =? 0 then spec_stream true sc p else mkSubscription (Some p) 0 0 false 0.

Definition spec_prefix (sc : SubscriptionConfig) (tc : option TargetConfig) (pf : option GPath) : option GPath :=
  let target := if negb (String.eqb (sc_Target sc) "") then sc_Target sc
                else if sc_SetTarget sc then from_option tc_Name "" tc else "" in
  if String.eqb target "" then pf else set_target target pf.

Definition history_extensions (h : option HistoryConfig) : list extension :=
  match h with
  | None => []
  | Some h => (match hc_Snapshot h with Some t => [Ext_HistorySnapshot (int64 t)] | None => [] end)
      ++ match hc_Start h, hc_End h with Some a, Some b => [Ext_HistoryRange (int64 a) (int64 b)] | _, _ => [] end
  end.
Definition spec_extensions (sc : SubscriptionConfig) : list extension :=
  history_extensions (sc_History sc) ++ if 0 <? sc_Depth sc then [Ext_Depth (sc_Depth sc)] else [].

Definition spec_request (sc : SubscriptionConfig) (tc : option TargetConfig) (pf : option GPath) (enc : Z)
    (gpss : list (list GPath)) (gps : list GPath) : SubscribeRequest :=
  mkSubReq (Req_Subscribe (Some (mkSubList
    (spec_prefix sc tc pf)
    (concat (zip_with (fun s => map (spec_stream false s)) (streams sc) gpss) ++ map (spec_path sc) gps)
    (sc_Qos sc) (spec_mode sc) false
    (map (fun m => mkModelData m "" "") (default [] (sc_Models sc))) enc (sc_UpdatesOnly sc))))
    (spec_extensions sc).

(** *** Running options *)

Lemma apply_app {k} (m : msg k) o1 o2 :
  apply m (o1 ++ o2) = match apply m o1 with Ran m' None => apply m' o2 | r => r end.
Proof.
  revert m; induction o1 as [|o o1 IH]; intros m; cbn; [done|]. destruct (on o k m) as [m' [e|]|]; done || apply IH.
Qed.

Abbreviation sq l e := (mkSubReq (Req_Subscribe (Some l)) e).
Abbreviation runs l e os l' e' := (apply (k := SubReq) (sq l e) os = Ran (sq l' e') None).

Lemma runs_app l e os1 l1 e1 os2 l2 e2 : runs l e os1 l1 e1 -> runs l1 e1 os2 l2 e2 -> runs l e (os1 ++ os2) l2 e2.
Proof. intros H1' H2'. by rewrite apply_app, H1'. Qed.

Lemma runs_history l e h :
  runs l e (history_opts h) l (e ++ history_extensions h).
Proof.
  destruct h as [[[t|] [a|] [b|]]|]; cbn; rewrite ?app_nil_r, <-?app_assoc; done.
Qed.

Definition with_models (ms : list ModelData) (l : SubscriptionList) : SubscriptionList :=
  mkSubList (sl_Prefix l) (sl_Subscription l) (sl_Qos l) (sl_Mode l) (sl_AllowAggregation l) (sl_UseModels l ++ ms) (sl_Encoding l) (sl_UpdatesOnly l).
Definition with_subs (ss : list Subscription) (l : SubscriptionList) : SubscriptionList :=
  mkSubList (sl_Prefix l) (sl_Subscription l ++ ss) (sl_Qos l) (sl_Mode l) (sl_AllowAggregation l) (sl_UseModels l) (sl_Encoding l) (sl_UpdatesOnly l).

Lemma runs_models ms l e :
  runs l e (map (fun m => opt_UseModel m "" "") ms) (with_models (map (fun m => mkModelData m "" "") ms) l) e.
Proof.
  revert l; induction ms as [|m ms IH]; intros l; cbn.
  - unfold with_models. rewrite app_nil_r. by destruct l.
  - rewrite IH. unfold with_models, add_model. cbn. by rewrite <-app_assoc.
Qed.

Lemma runs_subs oss ss l e :
  Forall2 (fun os s => apply (zero_msg Subn) os = Ran s None) oss ss ->
  runs l e (map opt_Subscription oss) (with_subs ss l) e.
Proof.
  intros Hs. revert l; induction Hs as [|os s oss ss Ho _ IH]; intros l; cbn.
  - unfold with_subs. rewrite app_nil_r. by destruct l.
  - unfold nested. rewrite Ho. cbn. rewrite IH. unfold with_subs, add_subscription. cbn. by rewrite <-app_assoc.
Qed.

(** *** One path *)

(** The stream mode is one the enum knows, and both lookups agree on it. *)
Definition mode_ok (sc : SubscriptionConfig) : Prop :=
  stream_mode sc = spec_stream_mode sc /\
  SubscriptionMode_value (ToUpper (undash (sc_StreamMode sc))) = Some (spec_stream_mode sc).

Lemma spec_stream_mode_cases sc : spec_stream_mode sc = 0 \/ spec_stream_mode sc = 1 \/ spec_stream_mode sc = 2.
Proof. unfold spec_stream_mode. repeat case_match; auto. Qed.

Lemma subn_mode m s g :
  SubscriptionMode_value (ToUpper (undash m)) = Some g ->
  on (opt_SubscriptionMode m) Subn s
  = Ran (mkSubscription (sn_Path s) g (sn_SampleInterval s) (sn_SuppressRedundant s) (sn_HeartbeatInterval s)) None.
Proof. intros Hg. cbn. by rewrite Hg. Qed.

Lemma subn_path p gp s :
  ParsePath p = Ok gp ->
  on (opt_Path p) Subn s
  = Ran (mkSubscription (Some gp) (sn_Mode s) (sn_SampleInterval s) (sn_SuppressRedundant s) (sn_HeartbeatInterval s)) None.
Proof. intros Hg. cbn -[ParsePath]. by rewrite Hg. Qed.

Lemma stream_path sc p gp :
  mode_ok sc -> ParsePath p = Ok gp ->
  exists os, stream_path_opts sc p = Ok os /\ apply (zero_msg Subn) os = Ran (spec_stream false sc gp) None.
Proof.
  intros [Hm Hv] Hp. unfold stream_path_opts, spec_stream, sample_opts. rewrite Hm.
  destruct (spec_stream_mode_cases sc) as [Hs|[Hs|Hs]]; rewrite Hs in *; cbn [Z.eqb orb Pos.eqb andb];
    eexists; (split; [done|]);
    destruct (sc_SampleInterval sc), (sc_HeartbeatInterval sc), (sc_SuppressRedundant sc);
    cbn -[opt_SubscriptionMode opt_Path wrap]; rewrite (subn_mode _ _ _ Hv); cbn -[opt_Path wrap];
    by rewrite (subn_path _ _ _ Hp).
Qed.

Lemma top_path sc p gp :
  SubscriptionList_Mode_value (ToUpper (sc_Mode sc)) = Some (spec_mode sc) ->
  (spec_mode sc = 0 -> mode_ok sc) -> ParsePath p = Ok gp ->
  exists os, path_opts sc p = Ok os /\ apply (zero_msg Subn) os = Ran (spec_path sc gp) None.
Proof.
  intros Hl Hm Hp. unfold path_opts, spec_path, enum. rewrite Hl. cbn [default from_option id].
  destruct (Z.eqb_spec (spec_mode sc) 0) as [H0'|].
  - specialize (Hm H0') as [Hm Hv]. unfold spec_stream, sample_opts. rewrite Hm.
    destruct (spec_stream_mode_cases sc) as [Hs|[Hs|Hs]]; rewrite Hs in *; cbn [Z.eqb orb Pos.eqb andb];
      eexists; (split; [done|]);
      destruct (sc_SampleInterval sc), (sc_HeartbeatInterval sc), (sc_SuppressRedundant sc);
      cbn -[opt_SubscriptionMode opt_Path wrap]; rewrite (subn_mode _ _ _ Hv); cbn -[opt_Path wrap];
      by rewrite (subn_path _ _ _ Hp).
  - eexists. split; [done|]. cbn -[opt_Path]. by rewrite (subn_path _ _ _ Hp).
Qed.

(** *** The whole request *)

Definition ready (sc : SubscriptionConfig) : Prop :=
  SubscriptionList_Mode_value (ToUpper (sc_Mode sc)) = Some (spec_mode sc) /\
  (sc_Paths sc <> [] -> spec_mode sc = 0 -> mode_ok sc) /\
  Forall mode_ok (streams sc).

Lemma mapE_subs (f : string -> go config_error (list GNMIOption)) (g : GPath -> Subscription) ps gps :
  (forall p gp, p ∈ ps -> ParsePath p = Ok gp -> exists os, f p = Ok os /\ apply (zero_msg Subn) os = Ran (g gp) None) ->
  mapE ParsePath ps = Ok gps ->
  exists oss, mapE (fun p => os ← f p; Ok (opt_Subscription os)) ps = Ok (map opt_Subscription oss)
    /\ Forall2 (fun os s => apply (zero_msg Subn) os = Ran s None) oss (map g gps).
Proof.
  intros Hf Hp%mapE_ok. induction Hp as [|p gp ps gps Hp Hps IH]; cbn [mapE map]; [by exists []|].
  destruct IH as (oss & -> & Ho); [intros; apply Hf; [by right|done]|].
  destruct (Hf p gp) as (os & -> & Hos); [by left|done|]. exists (os :: oss). split; [done|by constructor].
Qed.

Lemma mapE_streams ss gpss :
  Forall mode_ok ss -> mapE (fun s => mapE ParsePath (sc_Paths s)) ss = Ok gpss ->
  exists osss, mapE streamSubscriptionOpts ss = Ok (map (map opt_Subscription) osss)
    /\ Forall2 (fun os s => apply (zero_msg Subn) os = Ran s None) (concat osss)
         (concat (zip_with (fun s => map (spec_stream false s)) ss gpss)).
Proof.
  intros Hss Hp%mapE_ok. induction Hp as [|s gps ss gpss Hp Hps IH]; cbn [mapE map]; [by exists []|].
  apply Forall_cons in Hss as [Hs Hss]. destruct (IH Hss) as (osss & -> & Ho).
  destruct (mapE_subs (stream_path_opts s) (spec_stream false s) (sc_Paths s) gps) as (oss & Hoss & Hos);
    [intros; by apply stream_path|done|].
  unfold streamSubscriptionOpts. rewrite Hoss. exists (oss :: osss). cbn. split; [done|]. by apply Forall2_app.
Qed.

Lemma concat_subs (osss : list (list (list GNMIOption))) :
  concat (map (map opt_Subscription) osss) = map opt_Subscription (concat osss).
Proof. by rewrite concat_map. Qed.

Lemma runs_target sc tc l e :
  (sc_SetTarget sc = true -> sc_Target sc = "" -> tc <> None) ->
  exists os, target_opts sc tc = Ok os /\ runs l e os (with_prefix (spec_prefix sc tc (sl_Prefix l)) l) e.
Proof.
  intros Htc. unfold target_opts, spec_prefix.
  assert (with_prefix (sl_Prefix l) l = l) as Hl by (by destruct l).
  assert (forall t, runs l e [opt_Target t]
    (with_prefix (if String.eqb t "" then sl_Prefix l else set_target t (sl_Prefix l)) l) e) as Ht.
  { intros t. cbn. destruct (String.eqb t ""); cbn; by rewrite ?Hl. }
  destruct (String.eqb_spec (sc_Target sc) "") as [Ht0|Ht0]; cbn [negb].
  - destruct (sc_SetTarget sc) eqn:Hs.
    + destruct tc as [tc|]; [|by destruct (Htc eq_refl Ht0)]. eexists. split; [done|]. apply Ht.
    + exists []. split; [done|]. cbn. by rewrite Hl.
  - eexists. split; [done|]. rewrite <-String.eqb_neq in Ht0. specialize (Ht (sc_Target sc)). by rewrite Ht0 in *.
Qed.

Lemma build_ready sc tc d pf enc gpss gps :
  ready sc -> CreatePrefix (sc_Prefix sc) "" = Ok pf ->
  Encoding_value (ToUpper (request_encoding sc tc d)) = Some enc ->
  (sc_SetTarget sc = true -> sc_Target sc = "" -> tc <> None) ->
  mapE ParsePath (sc_Paths sc) = Ok gps -> mapE (fun s => mapE ParsePath (sc_Paths s)) (streams sc) = Ok gpss ->
  exists os, SubscriptionOpts sc tc d = Ok os /\
    NewSubscribeRequest os = Ran (spec_request sc tc pf enc gpss gps) None.
Proof.
  intros (Hm & Ht & Hs) Hpf He Htc Hp Hps. unfold SubscriptionOpts, NewSubscribeRequest.
  set (l0 := mkSubList pf [] (sc_Qos sc) (spec_mode sc) false (map (fun m => mkModelData m "" "") (default [] (sc_Models sc))) enc (sc_UpdatesOnly sc)).
  destruct (runs_target sc tc l0 (history_extensions (sc_History sc)) Htc) as (ot & -> & Hot).
  destruct (mapE_streams (streams sc) gpss Hs Hps) as (osss & -> & Hss).
  destruct (mapE_subs (path_opts sc) (spec_path sc) (sc_Paths sc) gps) as (oss & -> & Hos);
    [intros p gp Hin ?; apply top_path; [done|intros; apply Ht; [by intros E; rewrite E in Hin; apply elem_of_nil in Hin|done]|done]|done|].
  cbn [mbind go_bind]. eexists. split; [done|].
  rewrite <-!app_assoc. cbn [app]. set (rest := history_opts _ ++ _).
  assert (runs newSubList [] [opt_Prefix (sc_Prefix sc); opt_SubscriptionListMode (sc_Mode sc); opt_UpdatesOnly (sc_UpdatesOnly sc);
    opt_Encoding (request_encoding sc tc d)] (mkSubList pf [] None (spec_mode sc) false [] enc (sc_UpdatesOnly sc)) []) as Hh.
  { assert (on (opt_Prefix (sc_Prefix sc)) SubReq (sq newSubList []) = Ran (sq (with_prefix pf newSubList) []) None) as H1'
      by (unfold opt_Prefix; cbn [on checked]; by rewrite Hpf).
    unfold apply. rewrite H1'. unfold opt_SubscriptionListMode, opt_Encoding. cbn [on checked]. unfold on_list.
    cbn [sq_Request default from_option]. rewrite Hm. cbn -[ToUpper]. by rewrite He. }
  refine (runs_app _ _ [_; _; _; _] _ _ rest _ _ Hh _). subst rest.
  eapply runs_app; [apply runs_history|]. cbn [app].
  assert (runs (mkSubList pf [] None (spec_mode sc) false [] enc (sc_UpdatesOnly sc)) (history_extensions (sc_History sc))
    (opt_if opt_Qos (sc_Qos sc)) (mkSubList pf [] (sc_Qos sc) (spec_mode sc) false [] enc (sc_UpdatesOnly sc)) (history_extensions (sc_History sc))) as Hq
    by (destruct (sc_Qos sc); done).
  eapply runs_app; [exact Hq|]. eapply runs_app; [apply runs_models|]. eapply runs_app; [exact Hot|].
  rewrite concat_subs. eapply runs_app; [by apply runs_subs|]. eapply runs_app; [by apply runs_subs|].
  unfold spec_request, spec_extensions. destruct (0 <? sc_Depth sc); cbn; by rewrite ?app_nil_r.
Qed.

(** *** Accepted configurations *)

Lemma runes_nil s : runes_of s = [] -> s = "".
Proof.
  destruct s as [|c s]; [done|]. unfold runes_of, range_string. cbn [String.length runes_from].
  assert (exists p, decode_rune (String c s) = Some p) as [[r w] ->] by (cbn; repeat case_match; eauto). done.
Qed.

Lemma ToUpper_nil s : ToUpper s = "" -> s = "".
Proof.
  unfold ToUpper. intros Hs. apply runes_nil. destruct (runes_of s) as [|r rs]; [done|].
  apply (f_equal String.length) in Hs. cbn [fmap list_fmap encode] in Hs. rewrite slength_app in Hs.
  pose proof (encode_rune_length (rune_upper r)). cbn in *. lia.
Qed.

Lemma undash_nil s : undash s = "" -> s = "".
Proof. by destruct s. Qed.

Lemma member_spec l s : member l s = true <-> s ∈ l.
Proof.
  unfold member. rewrite existsb_exists. setoid_rewrite list_elem_of_In. setoid_rewrite String.eqb_eq.
  split; [by intros (x & ? & ->)|eauto].
Qed.

Lemma known_ok sc : knownStreamMode (sc_StreamMode sc) = true -> sc_StreamMode sc <> "" -> mode_ok sc.
Proof.
  intros Hk%member_spec Hne. unfold mode_ok, stream_mode, spec_stream_mode, enum. rewrite <-ToUpper_undash.
  destruct stream_modes as (H0' & H1' & H2').
  unfold StreamMode_TARGET_DEFINED, StreamMode_SAMPLE, StreamMode_ON_CHANGE in Hk.
  rewrite !elem_of_cons in Hk. destruct Hk as [E|[E|[E|[E|[]%elem_of_nil]]]]; rewrite ?E.
  - by apply ToUpper_nil, undash_nil in E.
  - by rewrite H0'.
  - by rewrite H2'.
  - by rewrite H1'.
Qed.

Lemma spec_stream_default m sc :
  sc_StreamMode sc = "" -> m = StreamMode_TARGET_DEFINED -> spec_stream_mode (with_stream_mode m sc) = spec_stream_mode sc.
Proof. intros Hs ->. unfold spec_stream_mode. rewrite Hs. by vm_compute. Qed.

Lemma default_ok sc : knownStreamMode (sc_StreamMode sc) = true -> mode_ok (default_stream_mode sc).
Proof.
  intros Hk. unfold default_stream_mode. destruct (String.eqb_spec (sc_StreamMode sc) ""); [|by apply known_ok].
  apply known_ok; by vm_compute.
Qed.

Lemma default_spec_stream top sc p : spec_stream top (default_stream_mode sc) p = spec_stream top sc p.
Proof.
  unfold default_stream_mode. destruct (String.eqb_spec (sc_StreamMode sc) "") as [E|]; [|done].
  unfold spec_stream. by rewrite (spec_stream_default _ sc E).
Qed.

Lemma validate_streams_known i l :
  validate_streams i l = Ok () -> Forall (fun s => knownStreamMode (sc_StreamMode s) = true) l.
Proof.
  revert i; induction l as [|s l IH]; intros i Hv; [constructor|]. cbn in Hv. go_inv.
  constructor; [|by eapply IH]. revert H3. unfold validate_stream. repeat (case_match; [done|]).
  destruct (knownStreamMode (sc_StreamMode s)); done.
Qed.

(** What validation establishes. *)
Lemma validated sc :
  ValidateSubscriptionConfig sc = Ok () ->
  ToUpper (sc_Mode sc) ∈ [""; "ONCE"; "POLL"; "STREAM"] /\
  (sc_Paths sc = [] \/ streams sc = []) /\
  (spec_mode sc <> 0 -> streams sc = []) /\
  (spec_mode sc = 0 -> streams sc = [] -> knownStreamMode (sc_StreamMode sc) = true) /\
  Forall (fun s => knownStreamMode (sc_StreamMode s) = true) (streams sc).
Proof.
  unfold ValidateSubscriptionConfig. case_match; [done|]. case_match eqn:Hps; [done|].
  assert (sc_Paths sc = [] \/ streams sc = []) as Hex by (destruct (sc_Paths sc), (streams sc); auto; done).
  intros Hv. go_inv. rename x into mode, H4 into Hmode. clear H5.
  assert (ToUpper (sc_Mode sc) ∈ [""; "ONCE"; "POLL"; "STREAM"] /\
    (spec_mode sc <> 0 -> streams sc = []) /\ (String.eqb mode SubscriptionMode_STREAM = true <-> spec_mode sc = 0)) as (Hin & Hst & Hms).
  { unfold spec_mode. rewrite !elem_of_cons. revert Hmode.
    destruct (String.eqb_spec (ToUpper (sc_Mode sc)) "") as [->|].
    { intros [= <-]. split; [auto|]. cbn. split; [done|split; done]. }
    destruct (member [SubscriptionMode_ONCE; SubscriptionMode_POLL] (ToUpper (sc_Mode sc))) eqn:Hm.
    - apply member_spec in Hm. rewrite !elem_of_cons in Hm.
      destruct (streams sc); [intros [= <-]|done].
      destruct Hm as [->|[->|[]%elem_of_nil]]; (split; [auto|]); cbn; (split; [done|split; done]).
    - destruct (String.eqb_spec (ToUpper (sc_Mode sc)) SubscriptionMode_STREAM) as [->|]; [intros [= <-]|done].
      split; [auto|]. cbn. split; [done|split; done]. }
  split_and!; [done..| |].
  - intros Hs Hn. apply Hms in Hs. rewrite Hs, Hn in H6. cbn [negb nilb] in H6. by destruct (knownStreamMode _).
  - destruct (decide (spec_mode sc = 0)) as [Hs|Hs]; [|by rewrite (Hst Hs)].
    apply Hms in Hs. rewrite Hs in H6. destruct (streams sc) as [|s l]; [constructor|].
    cbn [negb nilb] in H6. by eapply validate_streams_known.
Qed.

Lemma defaults_mode sc :
  spec_mode (setSubscriptionDefaults sc) = spec_mode sc /\ sc_Paths (setSubscriptionDefaults sc) = sc_Paths sc
  /\ sc_Prefix (setSubscriptionDefaults sc) = sc_Prefix sc /\ sc_Target (setSubscriptionDefaults sc) = sc_Target sc
  /\ sc_SetTarget (setSubscriptionDefaults sc) = sc_SetTarget sc.
Proof.
  assert (sc_Mode (setSubscriptionDefaults sc) = if String.eqb (sc_Mode sc) "" then SubscriptionMode_STREAM else sc_Mode sc) as Hm
    by (unfold setSubscriptionDefaults; destruct (negb _); [|destruct (nilb _)]; done).
  split; [|unfold setSubscriptionDefaults; destruct (negb _); [|destruct (nilb _)]; done].
  unfold spec_mode. rewrite Hm. destruct (String.eqb_spec (sc_Mode sc) "") as [->|]; [|done]. by vm_compute.
Qed.

Lemma defaults_streams sc :
  ToUpper (sc_Mode sc) ∈ [""; "ONCE"; "POLL"; "STREAM"] -> (spec_mode sc <> 0 -> streams sc = []) ->
  streams (setSubscriptionDefaults sc) = map default_stream_mode (streams sc).
Proof.
  intros Hin Hst. unfold setSubscriptionDefaults.
  destruct (negb (String.eqb (ToUpper _) _)) eqn:Hm; [|destruct (nilb (streams sc)) eqn:Hn].
  - change (streams sc = map default_stream_mode (streams sc)). rewrite Hst; [done|].
    revert Hm Hin. unfold spec_mode. destruct (String.eqb_spec (sc_Mode sc) "") as [->|Hne]; [by vm_compute|].
    rewrite !elem_of_cons. intros Hm [E|[E|[E|[E|[]%elem_of_nil]]]]; rewrite E in *; try done.
    by apply ToUpper_nil in E.
  - change (streams sc = map default_stream_mode (streams sc)). by destruct (streams sc).
  - unfold streams. by destruct (sc_StreamSubscriptions sc).
Qed.

Lemma defaults_stream_mode sc :
  ToUpper (sc_Mode sc) ∈ [""; "ONCE"; "POLL"; "STREAM"] -> spec_mode sc = 0 -> streams sc = [] ->
  sc_StreamMode (setSubscriptionDefaults sc) = sc_StreamMode (default_stream_mode sc).
Proof.
  intros Hin Hs Hn. unfold setSubscriptionDefaults, default_stream_mode. rewrite Hn.
  destruct (negb (String.eqb (ToUpper _) _)) eqn:Hm; [|by destruct (String.eqb (sc_StreamMode sc) "")].
  exfalso. revert Hm Hin Hs. unfold spec_mode. destruct (String.eqb_spec (sc_Mode sc) "") as [->|Hne]; [by vm_compute|].
  rewrite !elem_of_cons. intros Hm [E|[E|[E|[E|[]%elem_of_nil]]]]; rewrite E in *; try done.
  by apply ToUpper_nil in E.
Qed.

Lemma defaults_ready sc : ValidateSubscriptionConfig sc = Ok () -> ready (setSubscriptionDefaults sc).
Proof.
  intros Hv. destruct (validated sc Hv) as (Hin & Hex & Hst & Hk & Hks).
  destruct (defaults_mode sc) as (Hm & Hp & _). unfold ready. rewrite Hm, Hp, defaults_streams by done. split_and!.
  - destruct list_modes as (H0' & H1' & H2'). 
    assert (ToUpper (sc_Mode (setSubscriptionDefaults sc)) =
      if String.eqb (sc_Mode sc) "" then "STREAM" else ToUpper (sc_Mode sc)) as ->.
    { unfold setSubscriptionDefaults. destruct (String.eqb_spec (sc_Mode sc) ""); [|by repeat case_match].
      repeat case_match; by vm_compute. }
    revert Hin. unfold spec_mode. destruct (String.eqb_spec (sc_Mode sc) "") as [->|Hne]; [by vm_compute|].
    rewrite !elem_of_cons. intros [E|[E|[E|[E|[]%elem_of_nil]]]]; rewrite E in *; try done.
    by apply ToUpper_nil in E.
  - intros Hps Hs. destruct Hex as [|Hn]; [done|]. pose proof (default_ok sc (Hk Hs Hn)) as Hd.
    unfold mode_ok, stream_mode, spec_stream_mode in *. by rewrite (defaults_stream_mode sc Hin Hs Hn).
  - clear -Hks H0 H2. induction Hks as [|s l Hs _ IH]; constructor; [by apply default_ok|done].
Qed.

(** Setting the defaults changes modes and encoding only. *)
Definition frame (sc : SubscriptionConfig) :=
  (sc_Models sc, sc_Qos sc, sc_SampleInterval sc, sc_HeartbeatInterval sc, sc_SuppressRedundant sc, sc_UpdatesOnly sc, sc_History sc, sc_Depth sc).
Lemma defaults_frame sc : frame (setSubscriptionDefaults sc) = frame sc.
Proof. unfold setSubscriptionDefaults. destruct (negb _); [|destruct (nilb _)]; done. Qed.

Lemma defaults_request sc tc pf enc gpss gps :
  ValidateSubscriptionConfig sc = Ok () -> length gps = length (sc_Paths sc) ->
  spec_request (setSubscriptionDefaults sc) tc pf enc gpss gps = spec_request sc tc pf enc gpss gps.
Proof.
  intros Hv Hl. destruct (validated sc Hv) as (Hin & Hex & Hst & Hk & _).
  destruct (defaults_mode sc) as (Hm & Hp & Hpf & Ht & Hset).
  pose proof (defaults_frame sc) as Hf. unfold frame in Hf. injection Hf as F1 F2 F3 F4 F5 F6 F7 F8.
  unfold spec_request, spec_prefix, spec_extensions. rewrite Hm, Ht, Hset, F1, F2, F6, F7, F8, defaults_streams by done.
  do 5 f_equal.
  - f_equal. clear. revert gpss. induction (streams sc) as [|s l IH]; intros [|gps gpss]; cbn; [done..|].
    rewrite IH. f_equal. apply map_ext. intros. apply default_spec_stream.
  - destruct Hex as [Hn|Hn]; [by rewrite Hn in Hl; destruct gps|].
    apply map_ext. intros p. unfold spec_path. rewrite Hm. destruct (Z.eqb_spec (spec_mode sc) 0) as [Hs|]; [|done].
    unfold spec_stream. rewrite F3, F4, F5. 
    assert (spec_stream_mode (setSubscriptionDefaults sc) = spec_stream_mode sc) as ->; [|done].
    unfold spec_stream_mode. rewrite (defaults_stream_mode sc Hin Hs Hn). unfold default_stream_mode.
    destruct (String.eqb_spec (sc_StreamMode sc) "") as [->|]; [by vm_compute|done].
Qed.
End spec.

(** C14: The subscribe request of a configuration: when validation accepts the
    configuration, its prefix and paths are valid xpaths and its encoding (its
    own, else the target's, else the default) is one gNMI knows, the request is
    built without an error and holds exactly what the configuration says: the
    prefix with its target, one subscription per path, in order, with the stream
    mode, intervals and redundancy flag that apply to it, the list mode, QoS,
    models and encoding, and the history and depth extensions. The defaults are
    filled in the configuration the caller holds. *)
Theorem CreateSubscribeRequest_spec `{UpperSpec} `{GnmiSpec} sc tc d pf enc gpss gps :
  ValidateSubscriptionConfig sc = Ok () ->
  CreatePrefix (sc_Prefix sc) "" = Ok pf ->
  mapE ParsePath (sc_Paths sc) = Ok gps ->
  mapE (fun s => mapE ParsePath (sc_Paths s)) (streams sc) = Ok gpss ->
  Encoding_value (ToUpper (request_encoding (setSubscriptionDefaults sc) tc d)) = Some enc ->
  (sc_SetTarget sc = true -> sc_Target sc = "" -> tc <> None) ->
  CreateSubscribeRequest sc tc d
  = Ok (setSubscriptionDefaults sc, Ran (spec_request sc tc pf enc gpss gps) None).
Proof.
  intros Hv Hpf Hp Hps He Htc. destruct (defaults_mode sc) as (Hm & Ep & Epf & Et & Est).
  assert (mapE (fun s => mapE ParsePath (sc_Paths s)) (streams (setSubscriptionDefaults sc)) = Ok gpss) as Hps'.
  { destruct (validated sc Hv) as (Hin & _ & Hst & _). rewrite defaults_streams by done. rewrite <-Hps. clear.
    induction (streams sc) as [|s l IH]; cbn; [done|]. rewrite IH. unfold default_stream_mode. by case_match. }
  destruct (build_ready (setSubscriptionDefaults sc) tc d pf enc gpss gps) as (os & Hos & Hb);
    [by apply defaults_ready|by rewrite Epf|done|by rewrite Est, Et|by rewrite Ep|done|].
  unfold CreateSubscribeRequest, validateAndSetDefaults. rewrite Hv. cbn [mbind go_bind]. rewrite Hos. cbn [mbind go_bind].
  rewrite Hb, defaults_request; [done..|]. apply mapE_ok, Forall2_length in Hp. done.
Qed.

Lemma path_opts_ok `{UpperSpec} `{GnmiSpec} sc p :
  SubscriptionList_Mode_value (ToUpper (sc_Mode sc)) = Some (spec_mode sc) -> (spec_mode sc = 0 -> mode_ok sc) ->
  exists os, path_opts sc p = Ok os.
Proof.
  intros Hl Hm. unfold path_opts, enum. rewrite Hl. cbn [default from_option id].
  destruct (Z.eqb_spec (spec_mode sc) 0) as [E|]; [|eauto]. destruct (Hm E) as [-> _].
  destruct (spec_stream_mode_cases sc) as [-> | [-> | ->]]; cbn; eauto.
Qed.
Lemma stream_opts_ok `{UpperSpec} `{GnmiSpec} sc : mode_ok sc -> exists os, streamSubscriptionOpts sc = Ok os.
Proof.
  intros [Hm _]. unfold streamSubscriptionOpts. induction (sc_Paths sc) as [|p ps [os IH]]; cbn [mapE]; [eauto|].
  rewrite IH. unfold stream_path_opts at 1. rewrite Hm.
  destruct (spec_stream_mode_cases sc) as [-> | [-> | ->]]; cbn; eauto.
Qed.
Lemma mapE_total_ex {A B} (f : A -> go config_error B) l : (forall x, x ∈ l -> exists y, f x = Ok y) -> exists ys, mapE f l = Ok ys.
Proof.
  induction l as [|x l IH]; intros Hf; cbn; [eauto|]. destruct (Hf x) as [y ->]; [by left|].
  destruct IH as [ys ->]; [intros; apply Hf; by right|]. cbn. eauto.
Qed.

(** Validation accepts encodings the request builder refuses: whenever a
    valid configuration asks for an encoding the gNMI enum does not have, such
    as a number, or json-ietf with a dash, which validation accepts explicitly,
    the request fails with [ErrInvalidValue] after the defaults were set. *)
Theorem encoding_refused `{UpperSpec} `{GnmiSpec} sc tc d pf :
  ValidateSubscriptionConfig sc = Ok () -> CreatePrefix (sc_Prefix sc) "" = Ok pf ->
  Encoding_value (ToUpper (request_encoding (setSubscriptionDefaults sc) tc d)) = None ->
  (sc_SetTarget sc = true -> sc_Target sc = "" -> tc <> None) ->
  exists m, CreateSubscribeRequest sc tc d = Ok (setSubscriptionDefaults sc, Ran m (Some (errInvalidValue "Encoding"))).
Proof.
  intros Hv Hpf He Htc. destruct (defaults_mode sc) as (Hm & Ep & Epf & Et & Est).
  destruct (defaults_ready sc Hv) as (Hl & Ht & Hs). unfold CreateSubscribeRequest, validateAndSetDefaults.
  rewrite Hv. cbn [mbind go_bind]. set (sc' := setSubscriptionDefaults sc) in *. unfold SubscriptionOpts.
  destruct (runs_target sc' tc newSubList []) as (ot & -> & _); [by rewrite Est, Et|].
  destruct (mapE_total_ex streamSubscriptionOpts (streams sc')) as [oss ->].
  { intros s Hin. apply stream_opts_ok. by eapply Forall_forall in Hs. }
  destruct (mapE_total_ex (fun p => os ← path_opts sc' p; Ok (opt_Subscription os)) (sc_Paths sc')) as [ops ->].
  { intros p Hin. destruct (path_opts_ok sc' p Hl) as [os ->]; [|by eexists].
    apply Ht. intros E. rewrite E in Hin. by apply elem_of_nil in Hin. }
  cbn [mbind go_bind app]. unfold NewSubscribeRequest.
  assert (on (opt_Prefix (sc_Prefix sc')) SubReq (mkSubReq (Req_Subscribe (Some newSubList)) [])
    = Ran (mkSubReq (Req_Subscribe (Some (with_prefix pf newSubList))) []) None) as H1'
    by (unfold opt_Prefix; cbn [on checked]; by rewrite Epf, Hpf).
  cbn [apply]. rewrite H1'. unfold opt_SubscriptionListMode, opt_Encoding. cbn [on checked]. unfold on_list.
  cbn [sq_Request default from_option]. rewrite Hl. cbn -[ToUpper]. rewrite He. cbn. by eexists.
Qed.

(** ** Witnesses *)

#[local] Instance proto_spec : GnmiSpec (H := proto_enums).
Proof. split; by vm_compute. Qed.
#[local] Instance ascii_spec : UpperSpec (H := case_ascii).
Proof. intros r Hr. cbn. lia. Qed.

Definition ex_sub (mode smode : string) (enc : option string) : SubscriptionConfig :=
  mkSubConfig "sub1" None "oc:/" "" true ["/interfaces/interface[name=e1]"; "/system"] mode smode enc (Some 20)
    (Some 10000000000) (Some (-1)) false true (Some (mkHistory (Some 5) None None)) None None 3.
Definition ex_target : TargetConfig := named_target "router1" (Some "json_ietf").

Example ex_sub_request :
  exists gp1 gp2, CreateSubscribeRequest (H := case_ascii) (H0 := proto_enums) (ex_sub "" "Target-Defined" None) (Some ex_target) "proto"
  = Ok (ex_sub "STREAM" "Target-Defined" None, Ran
      (mkSubReq (Req_Subscribe (Some (mkSubList (Some (mkGPath "oc" [] "router1"))
         [mkSubscription (Some gp1) 0 10000000000 false 18446744073709551615;
          mkSubscription (Some gp2) 0 10000000000 false 18446744073709551615] (Some 20) 0 false [] 4 true)))
         [Ext_HistorySnapshot 5; Ext_Depth 3]) None).
Proof. eexists _, _. vm_compute. reflexivity. Qed.

Lemma CreateSubscribeRequest_spec_witness :
  exists gps, CreateSubscribeRequest (H := case_ascii) (H0 := proto_enums) (ex_sub "stream" "on-change" None) (Some ex_target) "proto"
  = Ok (ex_sub "stream" "on-change" None, Ran
      (spec_request (H := case_ascii) (ex_sub "stream" "on-change" None) (Some ex_target) (Some (mkGPath "oc" [] "")) 4 [] gps) None).
Proof.
  destruct (is_ok_some (mapE ParsePath (sc_Paths (ex_sub "stream" "on-change" None)))) as [gps Hp]; [by vm_compute|]. exists gps.
  apply (CreateSubscribeRequest_spec (H := case_ascii) (H1 := proto_enums) (ex_sub "stream" "on-change" None) (Some ex_target) "proto"
    (Some (mkGPath "oc" [] "")) 4 [] gps); [by vm_compute|by vm_compute|exact Hp|by vm_compute|by vm_compute|done].
Defined.

(** Validation accepts both spellings; gNMI knows neither. *)
Lemma encoding_refused_witness :
  Forall (fun e => exists m, CreateSubscribeRequest (H := case_ascii) (H0 := proto_enums) (ex_sub "once" "" (Some e)) (Some ex_target) "json"
    = Ok (ex_sub "once" "" (Some e), Ran m (Some (errInvalidValue "Encoding")))) ["json-ietf"; "2"].
Proof.
  assert (forall e, encoding_accepted (H := case_ascii) e = true -> e = "json-ietf" \/ e = "2" ->
    exists m, CreateSubscribeRequest (H := case_ascii) (H0 := proto_enums) (ex_sub "once" "" (Some e)) (Some ex_target) "json"
      = Ok (setSubscriptionDefaults (H := case_ascii) (ex_sub "once" "" (Some e)), Ran m (Some (errInvalidValue "Encoding")))) as Hw.
  { intros e _ He. apply (encoding_refused (H := case_ascii) (H1 := proto_enums) _ _ _ (Some (mkGPath "oc" [] "")));
      [by destruct He as [-> | ->]; vm_compute|by vm_compute|by destruct He as [-> | ->]; vm_compute|done]. }
  apply Forall_cons; split; [apply (Hw "json-ietf"); auto|apply Forall_cons; split; [apply (Hw "2"); auto|by apply Forall_nil]].
Defined.
