(* ===== verification/Stream.v ===== *)
(** * Running subscriptions (pkg/api/target/subscribe.go)

    A subscription is a loop of attempts: open a stream, send the request, hand
    the responses on until the stream fails, wait and try again. The device is
    the argument: what each attempt meets ([attempt]). The second part is the
    table of the streams of a target, which the attempts of several goroutines
    share. *)

From stdpp Require Import strings relations.
From S2P Require Import Prelude GoStrings Utf8 Path GoVal Text Event Messages Target Subscribe.

#[local] Open Scope Z_scope.

(** ** Attempts *)

(** Errors of a stream: its end, a status with its code, the cancellation of its
    context, any other. *)
Inductive rpc_error := rpc_EOF | rpc_status (code : Z) | rpc_canceled | rpc_other.
#[export] Instance rpc_error_eq_dec : EqDecision rpc_error.
Proof. solve_decision. Defined.

Definition codes_Canceled : Z := 1.
Definition isCancellationError (e : rpc_error) : bool :=
  match e with rpc_canceled => true | rpc_status c => c =? codes_Canceled | _ => false end.

(** Opening and sending may fail; then responses come, up to an error or
    ([None]) until the context of the attempt is done. *)
Record attempt := mkAttemptScript {
  at_open : option rpc_error; at_send : option rpc_error; at_recv : list SubscribeRsp; at_end : option rpc_error
}.

(** What the caller sees, in order: responses, errors, the delay before another
    attempt, and the closing of the channels. *)
Inductive sub_err := SEOpen (e : rpc_error) | SESend (e : rpc_error) | SERecv (e : rpc_error) | SERetrying.
Inductive out := OResp (r : SubscribeRsp) | OErr (e : sub_err) | OWait | OClose.

Inductive sub_mode := STREAM | ONCE | POLL | UnknownMode.

Definition is_sync (r : SubscribeRsp) : bool := match sp_Rsp r with Rsp_Sync _ => true | _ => false end.

(** ** Receiving *)

(** The responses handed on, and the error. *)
Definition handleStreamSubscriptionRcv (a : attempt) : list SubscribeRsp * option rpc_error := (at_recv a, at_end a).
Definition handlePollSubscriptionRcv (a : attempt) : list SubscribeRsp * option rpc_error := (at_recv a, at_end a).
Fixpoint once_rcv (rs : list SubscribeRsp) (e : option rpc_error) : list SubscribeRsp * option rpc_error :=
  match rs with
  | [] => ([], e)
  | r :: rs => if is_sync r then ([r], None) else let '(l, e) := once_rcv rs e in (r :: l, e)
  end.
Definition handleONCESubscriptionRcv (a : attempt) : list SubscribeRsp * option rpc_error := once_rcv (at_recv a) (at_end a).

(** ** One attempt, with channels *)

(** The trace and whether another attempt is wanted. *)
Definition handleSTREAMMode (a : attempt) : list out * bool :=
  let '(rs, e) := handleStreamSubscriptionRcv a in
  match e with
  | None => (map OResp rs, false)
  | Some e => if isCancellationError e then (map OResp rs, false) else (map OResp rs ++ [OErr (SERecv e)], true)
  end.
Definition handleONCEMode (a : attempt) : list out * bool :=
  let '(rs, e) := handleONCESubscriptionRcv a in
  match e with
  | None => (map OResp rs, false)
  | Some e => if isCancellationError e then (map OResp rs, false)
              else (map OResp rs ++ [OErr (SERecv e)], negb (bool_decide (e = rpc_EOF)))
  end.
Definition handlePOLLMode (a : attempt) : list out * bool :=
  let '(rs, e) := handlePollSubscriptionRcv a in
  match e with
  | None => (map OResp rs, false)
  | Some e => if isCancellationError e then (map OResp rs, false) else (map OResp rs ++ [OErr (SERecv e)], true)
  end.

Definition attemptSubscription (mode : sub_mode) (a : attempt) : list out * bool :=
  match at_open a with
  | Some e => if isCancellationError e then ([], false) else ([OErr (SEOpen e)], true)
  | None =>
      match at_send a with
      | Some e => ([OErr (SESend e)], true)
      | None => match mode with
                | STREAM => handleSTREAMMode a
                | ONCE => handleONCEMode a
                | POLL => handlePOLLMode a
                | UnknownMode => ([], false)
                end
      end
  end.

(** The goroutine of [SubscribeChan]; the context is done after the attempts given. *)
Fixpoint chan_loop (mode : sub_mode) (first : bool) (attempts : list attempt) : list out :=
  match attempts with
  | [] => [OClose]
  | a :: attempts =>
      let '(trace, shouldRetry) := attemptSubscription mode a in
      (if first then [] else [OWait]) ++ trace ++ (if shouldRetry then chan_loop mode false attempts else [OClose])
  end.
Definition SubscribeChan (mode : sub_mode) (attempts : list attempt) : list out := chan_loop mode true attempts.

(** ** One attempt, with the channels of the target *)

(** [Subscribe]: an error is announced with the delay, and a cancellation by the
    device is an error like others. *)
Definition subscribe_attempt (mode : sub_mode) (a : attempt) : list out * bool :=
  match at_open a with
  | Some e => ([OErr (SEOpen e)], true)
  | None =>
      match at_send a with
      | Some e => ([OErr (SESend e)], true)
      | None =>
          let failed rs e := map OResp rs ++ [OErr (SERecv e)] in
          match mode with
          | STREAM => match handleStreamSubscriptionRcv a with
                      | (rs, None) => (map OResp rs, false)
                      | (rs, Some e) => (failed rs e ++ [OErr SERetrying], true)
                      end
          | ONCE => match handleONCESubscriptionRcv a with
                    | (rs, None) => (map OResp rs, false)
                    | (rs, Some e) => if bool_decide (e = rpc_EOF) then (failed rs e, false) else (failed rs e ++ [OErr SERetrying], true)
                    end
          | POLL => match handlePollSubscriptionRcv a with
                    | (rs, None) => (map OResp rs, false)
                    | (rs, Some e) => (failed rs e, true)
                    end
          | UnknownMode => ([], false)
          end
      end
  end.
Fixpoint subscribe_loop (mode : sub_mode) (first : bool) (attempts : list attempt) : list out :=
  match attempts with
  | [] => []
  | a :: attempts =>
      let '(trace, again) := subscribe_attempt mode a in
      (if first then [] else [OWait]) ++ trace ++ (if again then subscribe_loop mode false attempts else [])
  end.
Definition target_Subscribe (mode : sub_mode) (attempts : list attempt) : list out := subscribe_loop mode true attempts.

(** ** One answer *)

(** What the goroutine of [SubscribeOnceChan] sends, on channels without a
    buffer; a context that is done makes the stream fail too. *)
Inductive sent := SentResp (r : SubscribeRsp) | SentErr (e : rpc_error).
Definition SubscribeOnceChan (a : attempt) : list sent :=
  match at_open a, at_send a with
  | Some e, _ | None, Some e => [SentErr e]
  | None, None => map SentResp (at_recv a) ++ [SentErr (default rpc_canceled (at_end a))]
  end.

(** [SubscribeOnce]: the responses or an error, and what it left in the goroutine's hands. *)
Fixpoint once_loop (l : list sent) (acc : list SubscribeRsp) : (rpc_error + list SubscribeRsp) * list sent :=
  match l with
  | [] => (inr acc, [])
  | SentErr e :: l => (if bool_decide (e = rpc_EOF) then inr acc else inl e, l)
  | SentResp r :: l =>
      match sp_Rsp r with
      | Rsp_Update _ => once_loop l (acc ++ [r])
      | Rsp_Sync _ => (inr acc, l)
      | Rsp_none => once_loop l acc
      end
  end.
Definition SubscribeOnce (a : attempt) : (rpc_error + list SubscribeRsp) * list sent := once_loop (SubscribeOnceChan a) [].

Definition NumberOfOnceSubscriptions `{UnicodeCase} (subs : gmap string SubscriptionConfig) : nat :=
  length (filter (fun kv : string * SubscriptionConfig => ToUpper (sc_Mode kv.2) = "ONCE") (map_to_list subs)).

(** ** The table of streams *)

(** Attempts are numbered. [st_clients]: the entries of [SubscribeClients] and
    [subscribeCancelFn]; [st_live]: the attempts between their registration and
    the end of their clean-up. *)
Record streams := mkStreams {
  st_clients : gmap string nat;
  st_cancelled : gset nat;
  st_live : gmap nat string;
  st_next : nat
}.

Definition cancel (id : option nat) (s : gset nat) : gset nat := match id with Some i => {[i]} ∪ s | None => s end.

(** An attempt registers its stream and cancels the one that was registered. *)
Definition register (name : string) (s : streams) : streams :=
  mkStreams (<[name := st_next s]> (st_clients s)) (cancel (st_clients s !! name) (st_cancelled s))
    (<[st_next s := name]> (st_live s)) (S (st_next s)).
Definition StopSubscription (name : string) (s : streams) : streams :=
  mkStreams (delete name (st_clients s)) (cancel (st_clients s !! name) (st_cancelled s)) (st_live s) (st_next s).
(** The deferred calls of an attempt: its clean-up, then its own cancellation. *)
Definition end_attempt (id : nat) (s : streams) : streams :=
  match st_live s !! id with
  | Some name => let s := StopSubscription name s in
                 mkStreams (st_clients s) ({[id]} ∪ st_cancelled s) (delete id (st_live s)) (st_next s)
  | None => s
  end.

(** [one]: an attempt registers only when no attempt of that name is live. *)
Inductive sstep (one : bool) (stopped : gset string) : streams -> streams -> Prop :=
| ss_register s name : (one = true -> forall id, st_live s !! id <> Some name) -> sstep one stopped s (register name s)
| ss_stop s name : name ∈ stopped -> sstep one stopped s (StopSubscription name s)
| ss_end s id : is_Some (st_live s !! id) -> sstep one stopped s (end_attempt id s).

Definition streams0 : streams := mkStreams ∅ ∅ ∅ 0.

(** * Lemmas *)

(** The attempt failed in a way that may pass. *)
Definition retries (mode : sub_mode) (a : attempt) : bool := (attemptSubscription mode a).2.

(** The responses an attempt hands on. *)
Definition received (mode : sub_mode) (a : attempt) : list SubscribeRsp :=
  match at_open a, at_send a, mode with
  | None, None, (STREAM | POLL) => at_recv a
  | None, None, ONCE => (handleONCESubscriptionRcv a).1
  | _, _, _ => []
  end.

(** The shape of an attempt: its responses, then at most one error, and exactly
    one when it is retried. *)
Lemma attempt_shape mode a : exists errs, (attemptSubscription mode a).1 = map OResp (received mode a) ++ map OErr errs
  /\ (length errs <= 1)%nat /\ (retries mode a = true -> length errs = 1%nat).
Proof.
  assert (forall e : sub_err, exists errs, [OErr e] = map OResp [] ++ map OErr errs /\ (length errs <= 1)%nat /\ (true = true -> length errs = 1%nat)) as H1
    by (intros e; exists [e]; by split_and!).
  assert (forall rs e b, exists errs, map OResp rs ++ [OErr e] = map OResp rs ++ map OErr errs /\ (length errs <= 1)%nat /\ (b = true -> length errs = 1%nat)) as H2
    by (intros rs e b; exists [e]; by split_and!).
  assert (forall rs, exists errs, map OResp rs = map OResp rs ++ map OErr errs /\ (length errs <= 1)%nat /\ (false = true -> length errs = 1%nat)) as H3
    by (intros rs; exists []; split_and!; [by rewrite app_nil_r|cbn; lia|done]).
  unfold retries, attemptSubscription, received. destruct (at_open a) as [e|].
  { destruct (isCancellationError e); [apply (H3 [])|apply H1]. }
  destruct (at_send a) as [e|]; [apply H1|].
  destruct mode; [| | |apply (H3 [])].
  - unfold handleSTREAMMode, handleStreamSubscriptionRcv. destruct (at_end a) as [e|]; [destruct (isCancellationError e); [apply H3|apply H2]|apply H3].
  - unfold handleONCEMode. destruct (handleONCESubscriptionRcv a) as [rs [e|]]; [destruct (isCancellationError e); [apply H3|apply H2]|apply H3].
  - unfold handlePOLLMode, handlePollSubscriptionRcv. destruct (at_end a) as [e|]; [destruct (isCancellationError e); [apply H3|apply H2]|apply H3].
Qed.

(** Attempts one after the other, with a delay between. *)
Fixpoint spaced (traces : list (list out)) : list out :=
  match traces with
  | [] => []
  | [t] => t
  | t :: traces => t ++ OWait :: spaced traces
  end.

(** The attempts made: up to the first that is not retried. *)
Fixpoint made (mode : sub_mode) (l : list attempt) : list attempt :=
  match l with [] => [] | a :: l => a :: (if retries mode a then made mode l else []) end.

Lemma chan_loop_made mode l first :
  chan_loop mode first l = (if first || nilb l then [] else [OWait]) ++ spaced (map (fun a => (attemptSubscription mode a).1) (made mode l)) ++ [OClose].
Proof.
  revert first; induction l as [|a l IH]; intros first; cbn [chan_loop made]; [by destruct first|].
  unfold retries. destruct (attemptSubscription mode a) as [t b] eqn:Ha. cbn [snd nilb]. rewrite orb_false_r. destruct b; cbn [map spaced].
  - rewrite IH. cbn [orb]. destruct l as [|b l]; cbn [made map nilb]; rewrite ?Ha; cbn [fst app]; [done|].
    by rewrite <-!app_assoc.
  - by rewrite Ha.
Qed.

Lemma made_prefix mode l : exists rest, l = made mode l ++ rest
  /\ (rest <> [] -> exists m a, made mode l = m ++ [a] /\ retries mode a = false)
  /\ Forall (fun a => retries mode a = true) (removelast (made mode l)).
Proof.
  induction l as [|a l (rest & Hl & Hstop & Hall)]; [by exists []|]. cbn [made]. destruct (retries mode a) eqn:Hr.
  - exists rest. split_and!; [by rewrite <-app_comm_cons, <-Hl| |].
    + intros Hne. destruct (Hstop Hne) as (m & b & -> & Hb). by exists (a :: m), b.
    + cbn [removelast]. destruct (made mode l); [constructor|by constructor].
  - exists l. split_and!; [done| |constructor]. intros _. by exists [], a.
Qed.

(** Why a subscription in a mode ends: its context is done, the stream is
    cancelled or, for a single answer, complete. *)
Definition ends (mode : sub_mode) (a : attempt) : Prop :=
  match at_open a, at_send a with
  | Some e, _ => isCancellationError e = true
  | None, Some _ => False
  | None, None =>
      match mode with
      | STREAM | POLL => at_end a = None \/ exists e, at_end a = Some e /\ isCancellationError e = true
      | ONCE => (exists r, r ∈ at_recv a /\ is_sync r = true) \/ at_end a = None \/ at_end a = Some rpc_EOF
                \/ exists e, at_end a = Some e /\ isCancellationError e = true
      | UnknownMode => True
      end
  end.

Lemma once_rcv_end rs e : (once_rcv rs e).2 = (if existsb is_sync rs then None else e).
Proof. induction rs as [|r rs IH]; cbn [once_rcv existsb]; [done|]. destruct (is_sync r); [done|]. destruct (once_rcv rs e). exact IH. Qed.

Lemma retries_ends mode a : retries mode a = false <-> ends mode a.
Proof.
  unfold retries, attemptSubscription, ends. destruct (at_open a) as [e|]; [by destruct (isCancellationError e)|].
  destruct (at_send a) as [e|]; [done|].
  assert (forall e, (if isCancellationError e then false else true) = false <-> isCancellationError e = true) as Hc by (intros e; by destruct (isCancellationError e)).
  destruct mode; [| | |done].
  - unfold handleSTREAMMode, handleStreamSubscriptionRcv. destruct (at_end a) as [e|]; [|tauto].
    destruct (isCancellationError e) eqn:He; cbn; (split; [|naive_solver congruence]); [right; by exists e|done].
  - unfold handleONCEMode. pose proof (once_rcv_end (at_recv a) (at_end a)) as Hend. unfold handleONCESubscriptionRcv.
    destruct (once_rcv _ _) as [rs e']. cbn [snd] in Hend. subst e'. destruct (existsb is_sync (at_recv a)) eqn:Hs.
    + split; [|done]. intros _. left. apply existsb_exists in Hs as (r & Hr & Hs). exists r. by rewrite list_elem_of_In.
    + assert (~ exists r, r ∈ at_recv a /\ is_sync r = true) as Hno.
      { intros (r & Hr & Hr'). apply not_true_iff_false in Hs. destruct Hs. apply existsb_exists. exists r. by rewrite <-list_elem_of_In. }
      destruct (at_end a) as [e|]; [|tauto]. destruct (isCancellationError e) eqn:He; cbn.
      * split; [|done]. intros _. do 3 right. by exists e.
      * rewrite negb_false_iff, bool_decide_eq_true. split; [intros ->; tauto|]. intros [?|[?|[[= ->]|(e' & [= <-] & ?)]]]; [done..|congruence].
  - unfold handlePOLLMode, handlePollSubscriptionRcv. destruct (at_end a) as [e|]; [|tauto].
    destruct (isCancellationError e) eqn:He; cbn; (split; [|naive_solver congruence]); [right; by exists e|done].
Qed.

(** ** The table of streams *)

Record streams_ok (stopped : gset string) (s : streams) : Prop := {
  so_client : forall name id, st_clients s !! name = Some id -> st_live s !! id = Some name;
  so_unique : forall i j name, st_live s !! i = Some name -> st_live s !! j = Some name -> i = j;
  so_cancelled : forall id name, st_live s !! id = Some name -> id ∈ st_cancelled s -> name ∈ stopped;
  so_fresh : forall id, (is_Some (st_live s !! id) \/ id ∈ st_cancelled s) -> (id < st_next s)%nat
}.

Lemma elem_of_cancel o (c : gset nat) id : id ∈ cancel o c <-> o = Some id \/ id ∈ c.
Proof. destruct o as [i|]; cbn; [rewrite elem_of_union, elem_of_singleton; naive_solver|naive_solver]. Qed.

Lemma register_ok stopped s name : streams_ok stopped s -> (forall id, st_live s !! id <> Some name) -> streams_ok stopped (register name s).
Proof.
  intros [Hc Hu Hx Hf] Hone. assert (st_clients s !! name = None) as Hnone.
  { destruct (st_clients s !! name) as [id|] eqn:E; [|done]. by destruct (Hone id (Hc _ _ E)). }
  assert (st_live s !! st_next s = None) as Hnew.
  { destruct (st_live s !! st_next s) eqn:E; [|done]. assert (st_next s < st_next s)%nat; [|lia]. apply Hf. left. by eexists. }
  unfold register. rewrite Hnone. cbn [cancel]. split; cbn [st_clients st_live st_cancelled st_next].
  - intros n id. destruct (decide (name = n)) as [<-|Hn]; [rewrite lookup_insert_eq; intros [= <-]; apply lookup_insert_eq|].
    rewrite lookup_insert_ne by done. intros Hid. rewrite lookup_insert_ne; [by apply Hc|]. intros <-. by rewrite (Hc _ _ Hid) in Hnew.
  - intros i j n Hi Hj. apply lookup_insert_Some in Hi as [[<- <-]|[Hi' Hi]], Hj as [[<- Hn]|[Hj' Hj]]; try done.
    + by destruct (Hone j).
    + subst. by destruct (Hone i).
    + by eapply Hu.
  - intros id n Hid Hin. apply lookup_insert_Some in Hid as [[<- <-]|[_ Hid]]; [|by eapply Hx].
    assert (st_next s < st_next s)%nat; [|lia]. apply Hf. by right.
  - intros id [[n Hid]|Hin]; [apply lookup_insert_Some in Hid as [[<- _]|[_ Hid]]; [lia|]|].
    + assert (id < st_next s)%nat; [|lia]. apply Hf. left. by eexists.
    + assert (id < st_next s)%nat; [|lia]. apply Hf. by right.
Qed.

Lemma stop_streams_ok stopped s name : streams_ok stopped s -> name ∈ stopped -> streams_ok stopped (StopSubscription name s).
Proof.
  intros [Hc Hu Hx Hf] Hin. split; cbn [StopSubscription st_clients st_live st_cancelled st_next].
  - intros n id Hid. apply lookup_delete_Some in Hid as [_ Hid]. by apply Hc.
  - done.
  - intros id n Hid [Hcl|?]%elem_of_cancel; [|by eapply Hx]. apply Hc in Hcl. congruence.
  - intros id [?|[Hcl|?]%elem_of_cancel]; apply Hf; [by left|left; eexists; by apply Hc|by right].
Qed.

Lemma end_attempt_ok stopped s id : streams_ok stopped s -> streams_ok stopped (end_attempt id s).
Proof.
  intros Hok. unfold end_attempt. destruct (st_live s !! id) as [name|] eqn:Hid; [|done]. cbv zeta. destruct Hok as [Hc Hu Hx Hf].
  assert (forall j, st_clients s !! name = Some j -> j = id) as Hsame by (intros j Hj; apply Hc in Hj; by eapply Hu).
  split; cbn [StopSubscription st_clients st_live st_cancelled st_next].
  - intros n j Hj. apply lookup_delete_Some in Hj as [Hn Hj]. apply Hc in Hj as Hl. rewrite lookup_delete_ne; [done|]. congruence.
  - intros i j n Hi Hj. apply lookup_delete_Some in Hi as [_ Hi], Hj as [_ Hj]. by eapply Hu.
  - intros j n Hj Hin. apply lookup_delete_Some in Hj as [Hne Hj]. apply elem_of_union in Hin as [?%elem_of_singleton|[Hcl|?]%elem_of_cancel].
    + congruence. + apply Hsame in Hcl. congruence. + by eapply Hx.
  - intros j [[n Hj]|[->%elem_of_singleton|[Hcl|?]%elem_of_cancel]%elem_of_union]; apply Hf.
    + apply lookup_delete_Some in Hj as [_ Hj]. left. by eexists.
    + left. by eexists. + left. eexists. by apply Hc. + by right.
Qed.

(** ** One answer *)

Lemma once_loop_spec rs r rest acc : Forall (fun x => is_sync x = false) rs -> is_sync r = true ->
  once_loop (map SentResp rs ++ SentResp r :: rest) acc
  = (inr (acc ++ filter (fun x => match sp_Rsp x with Rsp_Update _ => true | _ => false end = true) rs), rest).
Proof.
  intros Hrs Hr. revert acc; induction Hrs as [|x rs Hx _ IH]; intros acc; cbn [map app once_loop].
  - unfold is_sync in Hr. rewrite app_nil_r. by destruct (sp_Rsp r).
  - rewrite filter_cons. unfold is_sync in Hx. destruct (sp_Rsp x) eqn:E; [|rewrite IH, <-app_assoc; done|done].
    by rewrite IH.
Qed.

(** * Properties *)

(** A running subscription hands on every response of every attempt, in
    order. Attempts follow each other with a delay; each but the last failed,
    with one error on the channel. The last one ended the subscription: for
    STREAM and POLL only a context that is done or a cancellation does, for ONCE
    also a complete answer or the end of the stream; no other failure of the
    device ends it. *)
Theorem SubscribeChan_spec (mode : sub_mode) (attempts : list attempt) :
  exists tried rest, attempts = tried ++ rest
    /\ SubscribeChan mode attempts = spaced (map (fun a => (attemptSubscription mode a).1) tried) ++ [OClose]
    /\ (forall a, a ∈ tried -> exists errs, (attemptSubscription mode a).1 = map OResp (received mode a) ++ map OErr errs
         /\ (length errs <= 1)%nat /\ (~ ends mode a -> length errs = 1%nat))
    /\ Forall (fun a => ~ ends mode a) (removelast tried)
    /\ (rest <> [] -> exists m a, tried = m ++ [a] /\ ends mode a).
Proof.
  destruct (made_prefix mode attempts) as (rest & Hl & Hstop & Hall). exists (made mode attempts), rest. split_and!; [done| | | |].
  - unfold SubscribeChan. by rewrite chan_loop_made.
  - intros a _. destruct (attempt_shape mode a) as (errs & Hs & Hle & Hone). exists errs. split_and!; [done|done|].
    intros Hn. apply Hone. apply not_false_is_true. intros Hr. by apply Hn, retries_ends.
  - eapply Forall_impl; [exact Hall|]. intros a Ha He%retries_ends. congruence.
  - intros Hne. destruct (Hstop Hne) as (m & a & Hm & Ha). exists m, a. split; [done|]. by apply retries_ends.
Qed.

(** As long as a target has one attempt per subscription at a time, the
    context of an attempt is cancelled only for a subscription that was stopped. *)
Theorem cancelled_only_when_stopped (stopped : gset string) (s : streams) (id : nat) (name : string)
    (Hr : rtc (sstep true stopped) streams0 s) (Hl : st_live s !! id = Some name) (Hc : id ∈ st_cancelled s) : name ∈ stopped.
Proof.
  enough (streams_ok stopped s) as Hok by by eapply (so_cancelled _ _ Hok).
  clear Hl Hc. remember streams0 as s0 eqn:E. assert (streams_ok stopped s0) as H0.
  { subst. split; unfold streams0; cbn [st_clients st_live st_cancelled st_next].
    - intros n i. by rewrite lookup_empty. - intros i j n. by rewrite lookup_empty. - intros i n. by rewrite lookup_empty.
    - intros i. rewrite lookup_empty, elem_of_empty. by intros [[]|]. }
  clear E. induction Hr as [s|s0 s1 s2 Hstep _ IH]; [done|]. apply IH. destruct Hstep as [s name' Hone|s name' Hin|s id' Hid].
  - apply register_ok; [done|]. by apply Hone.
  - by apply stop_streams_ok.
  - by apply end_attempt_ok.
Qed.

Lemma cancelled_only_when_stopped_witness :
  let s := StopSubscription "s1" (register "s1" streams0) in
  rtc (sstep true {["s1"]}) streams0 s /\ st_live s !! 0%nat = Some "s1" /\ 0%nat ∈ st_cancelled s /\ "s1" ∈ ({["s1"]} : gset string).
Proof.
  cbv zeta. assert (rtc (sstep true {["s1"]}) streams0 (StopSubscription "s1" (register "s1" streams0))) as Hr.
  { eapply rtc_l; [apply ss_register; intros _ id; discriminate|].
    eapply rtc_l; [apply (ss_stop _ _ _ "s1"); by apply elem_of_singleton|]. apply rtc_refl. }
  assert (0%nat ∈ st_cancelled (StopSubscription "s1" (register "s1" streams0))) as Hc by (apply elem_of_cancel; left; reflexivity).
  split; [exact Hr|]. split; [reflexivity|]. split; [exact Hc|]. exact (cancelled_only_when_stopped _ _ 0 "s1" Hr eq_refl Hc).
Defined.

(** An attempt that replaces another one of the same subscription is
    cancelled by it: registering cancels the older attempt, and that one's
    clean-up then cancels and forgets whatever is registered under the name.
    Nothing was stopped, and the newer subscription ends without an error. *)
Theorem newer_attempt_killed :
  exists s, rtc (sstep false ∅) streams0 s /\ st_live s = {[ 1%nat := "s1" ]} /\ 1%nat ∈ st_cancelled s /\ st_clients s = ∅
    /\ forall e, SubscribeChan STREAM [mkAttemptScript None None [] None; e] = [OClose].
Proof.
  exists (end_attempt 0 (register "s1" (register "s1" streams0))). split_and!; [|by vm_compute..|done].
  - eapply rtc_l; [by apply ss_register|]. eapply rtc_l; [by apply ss_register|]. eapply rtc_l; [|apply rtc_refl].
    apply ss_end. by eexists.
Qed.

(** [SubscribeOnce] returns the updates that came before the end of the
    answer, and leaves the goroutine that reads the stream behind: there is always
    one more thing to send, the end of the stream if nothing else, and nobody to
    receive it. *)
Theorem SubscribeOnce_leaves_goroutine (a : attempt) (before : list SubscribeRsp) (sync : SubscribeRsp) (after : list SubscribeRsp)
    (Ho : at_open a = None) (Hs : at_send a = None) (Hr : at_recv a = before ++ sync :: after)
    (Hb : Forall (fun r => is_sync r = false) before) (Hy : is_sync sync = true) :
  (SubscribeOnce a).1 = inr (filter (fun r => match sp_Rsp r with Rsp_Update _ => true | _ => false end = true) before)
  /\ (SubscribeOnce a).2 <> [].
Proof.
  unfold SubscribeOnce, SubscribeOnceChan. rewrite Ho, Hs, Hr, map_app, <-app_assoc. cbn [map app].
  rewrite once_loop_spec by done. cbn [fst snd]. split; [done|]. by destruct after.
Qed.

Definition an_update : SubscribeRsp := mkSubRsp (Rsp_Update (Some (mkNotif 1 None [] [] false))) [].
Definition a_sync : SubscribeRsp := mkSubRsp (Rsp_Sync true) [].
Lemma SubscribeOnce_leaves_goroutine_witness :
  let a := mkAttemptScript None None [an_update; an_update; a_sync] (Some rpc_EOF) in
  SubscribeOnce a = (inr [an_update; an_update], [SentErr rpc_EOF])
  /\ (SubscribeOnce a).1 = inr (filter (fun r => match sp_Rsp r with Rsp_Update _ => true | _ => false end = true) [an_update; an_update])
  /\ (SubscribeOnce a).2 <> [].
Proof.
  cbv zeta. split; [reflexivity|].
  apply (SubscribeOnce_leaves_goroutine (mkAttemptScript None None [an_update; an_update; a_sync] (Some rpc_EOF)) [an_update; an_update] a_sync []);
    [reflexivity..|repeat constructor|reflexivity].
Defined.

(** A device that cancels the stream itself ends the subscription, without an error and for good; [Subscribe] goes on. *)
Example device_cancel_ends_stream :
  let a := mkAttemptScript None None [an_update] (Some (rpc_status 1)) in
  SubscribeChan STREAM [a; a] = [OResp an_update; OClose]
  /\ target_Subscribe STREAM [a; a] = [OResp an_update; OErr (SERecv (rpc_status 1)); OErr SERetrying; OWait;
                                       OResp an_update; OErr (SERecv (rpc_status 1)); OErr SERetrying].
Proof. by split. Qed.

(** A ONCE subscription that fails before the end of the answer hands the first responses on twice. *)
Example once_repeats :
  SubscribeChan ONCE [mkAttemptScript None None [an_update] (Some rpc_other); mkAttemptScript None None [an_update; a_sync] None]
  = [OResp an_update; OErr (SERecv rpc_other); OWait; OResp an_update; OResp a_sync; OClose].
Proof. reflexivity. Qed.
