(* ===== verification/Targets.v ===== *)
(** * The targets manager (pkg/collector/managers/targets)

    The manager keeps one [ManagedTarget] per target configuration: it connects
    it, starts its subscriptions, follows the changes of its configuration, of
    the subscriptions and of the cluster's assignments, and publishes its state.
    Every handler of its event loop and every call of its API is a function on
    the state of the manager; the interleaving of the retry loops with them is
    in Retry.v. A handler that makes the process panic gives [Panic].

    The answers of the network and of the locker are arguments ([attempt]): one
    per start of a target. A reader whose RPC is established is live until its
    context is cancelled or its client closed. Subscription configurations are
    values: the defaults that a request writes in one are written back to the
    place the manager took it from. *)

From stdpp Require Import strings.
From S2P Require Import Prelude GoStrings Utf8 Path GoVal Event Text Messages Target Subscribe.

#[local] Open Scope Z_scope.

(** ** Data *)

Inductive target_state := StateRunning | StateStopped | StateStarting | StateFailed | StateStopping.
#[export] Instance target_state_eq_dec : EqDecision target_state.
Proof. solve_decision. Defined.

(** The published state of a target; [ts_Intended]: enabled. *)
Record TargetState := mkTargetState {
  ts_Intended : bool; ts_State : target_state; ts_FailedReason : string; ts_Subscriptions : gmap string bool
}.

(** [T.Client]: nil before the first connection. *)
Inductive client := NoClient | Open | Closed.

(** A reader of one subscription: the request it sent, and the outputs of the
    subscription. *)
Record reader := mkReader { rd_request : msg SubReq; rd_outputs : list string }.

(** [mt_cfg] is the configuration the target was made with, [mt_Config] the one
    of its client ([T.Config]). [mt_readers]: the entries of readersCfn and
    readersDone. [mt_live]: the entries of SubscribeClients. [mt_retry]: a retry
    is pending. *)
Record ManagedTarget := mkManaged {
  mt_Name : string;
  mt_cfg : TargetConfig;
  mt_Config : TargetConfig;
  mt_client : client;
  mt_Subscriptions : gmap string SubscriptionConfig;
  mt_readers : gmap string reader;
  mt_live : gmap string reader;
  mt_lastError : string;
  mt_outputs : gset string;
  mt_applied : list string;
  mt_eventTags : gomap string;
  mt_retry : bool
}.

(** Calls of the network and of the locker, in order. *)
Inductive effect :=
| EDial (target : string) (tunnel : bool) | ECapabilities (target : string) | EClose (target : string)
| ELock (key : string) | EUnlock (key : string) | ESubscribe (target sub : string) (request : msg SubReq).

(** [c_targets], [c_subs], [c_outputs], [c_encoding]: the configuration store.
    [tm_cluster]: the cluster name when clustering is on. [tm_next]: the first
    address not in use. *)
Record manager := mkManager {
  tm_targets : gmap string ManagedTarget;
  tm_subscriptions : gmap string SubscriptionConfig;
  tm_assignments : gset string;
  tm_cluster : option string;
  c_targets : gmap string TargetConfig;
  c_subs : gmap string SubscriptionConfig;
  c_outputs : gset string;
  c_encoding : option string;
  s_targets : gmap string TargetState;
  tm_trace : list effect;
  tm_next : Z
}.

(** One start: what dialling, locking and the capabilities request answer. *)
Record attempt := mkAttempt { a_dial : option string; a_lock : string + bool; a_caps : option string }.
Definition reachable_device : attempt := mkAttempt None (inr true) None.

(** ** Updating fields *)

Definition set_mt_config (c : TargetConfig) (mt : ManagedTarget) := mkManaged (mt_Name mt) (mt_cfg mt) c (mt_client mt) (mt_Subscriptions mt)
  (mt_readers mt) (mt_live mt) (mt_lastError mt) (mt_outputs mt) (mt_applied mt) (mt_eventTags mt) (mt_retry mt).
Definition set_mt_client (c : client) (live : gmap string reader) (mt : ManagedTarget) := mkManaged (mt_Name mt) (mt_cfg mt) (mt_Config mt) c
  (mt_Subscriptions mt) (mt_readers mt) live (mt_lastError mt) (mt_outputs mt) (mt_applied mt) (mt_eventTags mt) (mt_retry mt).
Definition set_mt_subs (s : gmap string SubscriptionConfig) (r l : gmap string reader) (mt : ManagedTarget) := mkManaged (mt_Name mt) (mt_cfg mt)
  (mt_Config mt) (mt_client mt) s r l (mt_lastError mt) (mt_outputs mt) (mt_applied mt) (mt_eventTags mt) (mt_retry mt).
Definition setLastError (e : string) (mt : ManagedTarget) := mkManaged (mt_Name mt) (mt_cfg mt) (mt_Config mt) (mt_client mt) (mt_Subscriptions mt)
  (mt_readers mt) (mt_live mt) e (mt_outputs mt) (mt_applied mt) (mt_eventTags mt) (mt_retry mt).
Definition clearLastError : ManagedTarget -> ManagedTarget := setLastError "".
Definition set_mt_outputs (o : gset string) (mt : ManagedTarget) := mkManaged (mt_Name mt) (mt_cfg mt) (mt_Config mt) (mt_client mt)
  (mt_Subscriptions mt) (mt_readers mt) (mt_live mt) (mt_lastError mt) o (mt_applied mt) (mt_eventTags mt) (mt_retry mt).
Definition set_mt_applied (l : list string) (mt : ManagedTarget) := mkManaged (mt_Name mt) (mt_cfg mt) (mt_Config mt) (mt_client mt)
  (mt_Subscriptions mt) (mt_readers mt) (mt_live mt) (mt_lastError mt) (mt_outputs mt) l (mt_eventTags mt) (mt_retry mt).
Definition set_mt_retry (b : bool) (mt : ManagedTarget) := mkManaged (mt_Name mt) (mt_cfg mt) (mt_Config mt) (mt_client mt) (mt_Subscriptions mt)
  (mt_readers mt) (mt_live mt) (mt_lastError mt) (mt_outputs mt) (mt_applied mt) (mt_eventTags mt) b.

(** [setEventTags]: a copy of the tags, in the configuration of the client too. *)
Definition setEventTags (tags : gomap string) (mt : ManagedTarget) : ManagedTarget := mkManaged (mt_Name mt) (mt_cfg mt)
  (set_tags tags (mt_Config mt)) (mt_client mt) (mt_Subscriptions mt) (mt_readers mt) (mt_live mt) (mt_lastError mt) (mt_outputs mt)
  (mt_applied mt) tags (mt_retry mt).

Definition newManagedTarget (name : string) (cfg : TargetConfig) : ManagedTarget :=
  setEventTags (tc_EventTags cfg)
    (mkManaged name cfg cfg NoClient ∅ ∅ ∅ "" (list_to_set (default [] (tc_Outputs cfg))) [] None false).

Definition set_targets (t : gmap string ManagedTarget) (tm : manager) := mkManager t (tm_subscriptions tm) (tm_assignments tm) (tm_cluster tm)
  (c_targets tm) (c_subs tm) (c_outputs tm) (c_encoding tm) (s_targets tm) (tm_trace tm) (tm_next tm).
Definition set_tm_subs (s : gmap string SubscriptionConfig) (tm : manager) := mkManager (tm_targets tm) s (tm_assignments tm) (tm_cluster tm)
  (c_targets tm) (c_subs tm) (c_outputs tm) (c_encoding tm) (s_targets tm) (tm_trace tm) (tm_next tm).
Definition set_c_subs (s : gmap string SubscriptionConfig) (tm : manager) := mkManager (tm_targets tm) (tm_subscriptions tm) (tm_assignments tm)
  (tm_cluster tm) (c_targets tm) s (c_outputs tm) (c_encoding tm) (s_targets tm) (tm_trace tm) (tm_next tm).
Definition set_assignments (a : gset string) (tm : manager) := mkManager (tm_targets tm) (tm_subscriptions tm) a (tm_cluster tm)
  (c_targets tm) (c_subs tm) (c_outputs tm) (c_encoding tm) (s_targets tm) (tm_trace tm) (tm_next tm).
Definition set_states (s : gmap string TargetState) (tm : manager) := mkManager (tm_targets tm) (tm_subscriptions tm) (tm_assignments tm)
  (tm_cluster tm) (c_targets tm) (c_subs tm) (c_outputs tm) (c_encoding tm) s (tm_trace tm) (tm_next tm).
Definition emit (e : effect) (tm : manager) := mkManager (tm_targets tm) (tm_subscriptions tm) (tm_assignments tm) (tm_cluster tm)
  (c_targets tm) (c_subs tm) (c_outputs tm) (c_encoding tm) (s_targets tm) (tm_trace tm ++ [e]) (tm_next tm).
Definition set_next (n : Z) (tm : manager) := mkManager (tm_targets tm) (tm_subscriptions tm) (tm_assignments tm) (tm_cluster tm)
  (c_targets tm) (c_subs tm) (c_outputs tm) (c_encoding tm) (s_targets tm) (tm_trace tm) n.

(** Changing one target. *)
Definition upd (name : string) (f : ManagedTarget -> ManagedTarget) (tm : manager) : manager := set_targets (alter f name (tm_targets tm)) tm.

(** ** The state store *)

Definition GetTargetState (name : string) (tm : manager) : option TargetState := s_targets tm !! name.
Definition getTargetStateStr (name : string) (tm : manager) : option target_state := ts_State <$> GetTargetState name tm.
Definition GetIntendedState (name : string) (tm : manager) : option bool := ts_Intended <$> GetTargetState name tm.

(** [SubscribeClientStates]: every subscription of the target, with whether it
    has a client. *)
Definition SubscribeClientStates (mt : ManagedTarget) : gmap string bool :=
  map_imap (fun name _ => Some (match mt_live mt !! name with Some _ => true | None => false end)) (mt_Subscriptions mt).

Definition setTargetState (name : string) (state : target_state) (tm : manager) : manager :=
  let intended := negb (bool_decide (state = StateStopped)) in
  let ts := match tm_targets tm !! name with
            | Some mt => mkTargetState intended state (mt_lastError mt) (SubscribeClientStates mt)
            | None => mkTargetState intended state "" ∅
            end in
  set_states (<[name := ts]> (s_targets tm)) tm.

(** ** Clients *)

Definition amIAssigned (name : string) (tm : manager) : bool :=
  match tm_cluster tm with None => true | Some _ => bool_decide (name ∈ tm_assignments tm) end.

Definition Targets_targetLockKey (cluster target : string) : string := "gnmic/" +:+ (cluster +:+ ("/targets/" +:+ target)).

Definition set_retry (name : string) (b : bool) : manager -> manager := upd name (set_mt_retry b).
Definition scheduleRetry (name : string) : manager -> manager := set_retry name true.
Definition cancelRetry (name : string) : manager -> manager := set_retry name false.

(** [closeClient]: every subscription context is cancelled and the connection
    closed; the entries of the readers stay. *)
Definition close_mt (mt : ManagedTarget) : ManagedTarget :=
  set_mt_client (match mt_client mt with NoClient => NoClient | _ => Closed end) ∅ mt.
Definition closeClient (name : string) (tm : manager) : manager := emit (EClose name) (upd name close_mt tm).

Definition stop (name : string) (tm : manager) : manager :=
  if bool_decide (getTargetStateStr name tm = Some StateStopped) then tm
  else
    let tm := setTargetState name StateStopping (upd name clearLastError tm) in
    let tm := setTargetState name StateStopped (closeClient name tm) in
    match tm_cluster tm with Some c => emit (EUnlock (Targets_targetLockKey c name)) tm | None => tm end.

(** ** Subscriptions *)

Definition with_name (name : string) (sc : SubscriptionConfig) : SubscriptionConfig :=
  mkSubConfig name (sc_Models sc) (sc_Prefix sc) (sc_Target sc) (sc_SetTarget sc) (sc_Paths sc) (sc_Mode sc) (sc_StreamMode sc)
    (sc_Encoding sc) (sc_Qos sc) (sc_SampleInterval sc) (sc_HeartbeatInterval sc) (sc_SuppressRedundant sc) (sc_UpdatesOnly sc)
    (sc_History sc) (sc_StreamSubscriptions sc) (sc_Outputs sc) (sc_Depth sc).

Section manager.
Context `{UnicodeCase} `{GnmiEnums} `{MapOrder} `{SpecJSON}.

(** No errors of its own: the handlers log theirs. *)
Abbreviation TM := (go Empty_set).

(** The configuration after the request was built, and the request. *)
Definition subscribe_request (tm : manager) (mt : ManagedTarget) (sc : SubscriptionConfig)
    : TM (SubscriptionConfig * option (msg SubReq)) :=
  match CreateSubscribeRequest sc (Some (mt_Config mt)) (default "json" (c_encoding tm)) with
  | Ok (sc', Ran req None) => Ok (sc', Some req)
  | Ok (sc', Ran _ (Some _)) => Ok (sc', None)
  | Err _ => Ok (sc, None)
  | Ok (_, Crashed) | Panic => Panic
  end.

(** The reader of a subscription that starts: its first attempt uses the client
    of the target at once, in a goroutine, where a nil client panics; a closed
    client refuses it for good. *)
Definition start_reader (sc : SubscriptionConfig) (req : msg SubReq) (mt : ManagedTarget) : TM ManagedTarget :=
  let rd := mkReader req (default [] (sc_Outputs sc)) in
  let subs := <[sc_Name sc := sc]> (mt_Subscriptions mt) in
  let readers := <[sc_Name sc := rd]> (mt_readers mt) in
  match mt_client mt with
  | NoClient => Panic
  | Open => Ok (set_mt_subs subs readers (<[sc_Name sc := rd]> (mt_live mt)) mt)
  | Closed => Ok (set_mt_subs subs readers (delete (sc_Name sc) (mt_live mt)) mt)
  end.

(** [startTargetSubscription]: the configuration as the call leaves it. *)
Definition startTargetSubscription (name : string) (sc : SubscriptionConfig) (tm : manager) : TM (manager * SubscriptionConfig) :=
  match tm_targets tm !! name with
  | None => Ok (tm, sc)
  | Some mt =>
      '(sc, req) ← subscribe_request tm mt sc;
      match req with
      | None => Ok (tm, sc)
      | Some req =>
          mt ← start_reader sc req mt;
          Ok (emit (ESubscribe name (sc_Name sc) req) (set_targets (<[name := mt]> (tm_targets tm)) tm), sc)
      end
  end.

(** [stopTargetSubscription], once the reader has exited. *)
Definition stop_reader (sub : string) (mt : ManagedTarget) : ManagedTarget :=
  set_mt_subs (mt_Subscriptions mt) (delete sub (mt_readers mt)) (delete sub (mt_live mt)) mt.
Definition stopTargetSubscription (name sub : string) : manager -> manager := upd name (stop_reader sub).
Definition drop_sub_config (sub : string) (mt : ManagedTarget) : ManagedTarget :=
  set_mt_subs (delete sub (mt_Subscriptions mt)) (mt_readers mt) (mt_live mt) mt.
Definition DeleteSubscriptionConfig (name sub : string) : manager -> manager := upd name (drop_sub_config sub).

(** ** Starting a target *)

(** One subscription of a target that starts: the manager's configuration, or
    the one of the store. The name and the defaults are set where it was. *)
Definition start_sub (name : string) (tm : manager) (sub : string) : TM manager :=
  match tm_subscriptions tm !! sub with
  | Some sc =>
      '(tm, sc) ← startTargetSubscription name (with_name sub sc) tm;
      Ok (set_tm_subs (<[sub := sc]> (tm_subscriptions tm)) tm)
  | None =>
      match c_subs tm !! sub with
      | None => Ok tm
      | Some sc =>
          '(tm, sc) ← startTargetSubscription name (with_name sub sc) tm;
          Ok (set_c_subs (<[sub := sc]> (c_subs tm)) tm)
      end
  end.

Definition fail_target (name e : string) (tm : manager) : manager := setTargetState name StateFailed (upd name (setLastError e) tm).

(** The subscriptions of a target that runs: those it names, or all that the
    manager knows, which are then noted as applied. *)
Definition start_subs (name : string) (mt : ManagedTarget) (tm : manager) : TM manager :=
  let explicit := default [] (tc_Subscriptions (mt_Config mt)) in
  let subs := if nilb explicit then (range (tm_subscriptions tm)).*1 else explicit in
  let tm := if nilb explicit then upd name (fun mt => set_mt_applied (mt_applied mt ++ subs) mt) tm else tm in
  foldM (start_sub name) subs tm.

(** The target once it is locked: its capabilities, then its subscriptions. *)
Definition start_locked (a : attempt) (name : string) (mt : ManagedTarget) (tm : manager) : TM (manager * option string) :=
  let tm := emit (ECapabilities name) tm in
  match a_caps a with
  | Some e => Ok (fail_target name e tm, Some e)
  | None => tm ← start_subs name mt (setTargetState name StateRunning tm); Ok (setTargetState name StateRunning tm, None)
  end.

(** The connected target: in a cluster, its lock. *)
Definition start_connected (a : attempt) (name : string) (mt : ManagedTarget) (tm : manager) : TM (manager * option string) :=
  match tm_cluster tm with
  | None => start_locked a name mt tm
  | Some c =>
      let tm := emit (ELock (Targets_targetLockKey c name)) tm in
      match a_lock a with
      | inl e => Ok (stop name (fail_target name e tm), Some e)
      | inr false => Ok (stop name (fail_target name "lock not acquired" tm), Some ("lock not acquired for target " +:+ name))
      | inr true => start_locked a name mt tm
      end
  end.

(** [start]: the state, and the error. *)
Definition start (a : attempt) (name : string) (tm : manager) : TM (manager * option string) :=
  match tm_targets tm !! name with
  | None => Ok (tm, None)
  | Some mt =>
      if bool_decide (getTargetStateStr name tm = Some StateRunning) then Ok (tm, None)
      else
        let tm := setTargetState name StateStarting (upd name clearLastError tm) in
        let tm := emit (EDial name (negb (String.eqb (tc_TunnelTargetType (mt_cfg mt)) ""))) tm in
        match a_dial a with
        | Some e => Ok (fail_target name e tm, Some e)
        | None => start_connected a name mt (upd name (fun mt => set_mt_client Open (mt_live mt) mt) tm)
        end
  end.

(** ** Changes of a configuration *)

(** [compareSubscriptions], [compareOutputs]: an empty list stands for [all]. *)
Definition compare (all : list string) (old new : list string) : list string * list string :=
  let new := if nilb new then all else new in
  let old := if nilb old then all else old in
  (filter (fun s => s ∉ old) new, filter (fun s => s ∉ new) old).

(** A subscription added to a running target, from the store. *)
Definition add_sub (name : string) (tm : manager) (sub : string) : TM manager :=
  match c_subs tm !! sub with
  | None => Ok tm
  | Some sc =>
      let tm := upd name (fun mt => set_mt_applied (mt_applied mt ++ [sub]) mt) tm in
      '(tm, sc) ← startTargetSubscription name (with_name sub sc) tm;
      Ok (set_c_subs (<[sub := sc]> (c_subs tm)) tm)
  end.
Definition remove_sub (name : string) (tm : manager) (sub : string) : manager :=
  upd name (fun mt => set_mt_applied (filter (fun s => s <> sub) (mt_applied mt)) mt)
    (DeleteSubscriptionConfig name sub (stopTargetSubscription name sub tm)).

Definition update_subs (name : string) (cfg : TargetConfig) (mt : ManagedTarget) (tm : manager) : TM manager :=
  if bool_decide (Some (mt_applied mt) = tc_Subscriptions cfg) then Ok tm
  else
    let '(added, removed) := compare (range (c_subs tm)).*1 (default [] (tc_Subscriptions (mt_Config mt))) (default [] (tc_Subscriptions cfg)) in
    tm ← foldM (add_sub name) added tm;
    let tm := foldl (remove_sub name) tm removed in
    Ok (upd name (fun mt => set_mt_config (set_subscriptions (tc_Subscriptions cfg) (mt_Config mt)) mt) tm).

Definition update_outputs (name : string) (cfg : TargetConfig) (mt : ManagedTarget) (tm : manager) : manager :=
  if bool_decide (tc_Outputs (mt_Config mt) = tc_Outputs cfg) then tm
  else
    let '(added, removed) := compare (elements (c_outputs tm)) (default [] (tc_Outputs (mt_Config mt))) (default [] (tc_Outputs cfg)) in
    upd name (fun mt => set_mt_config (set_outputs (tc_Outputs cfg) (mt_Config mt))
      (set_mt_outputs ((mt_outputs mt ∪ list_to_set added) ∖ list_to_set removed) mt)) tm.

Definition update_tags (name : string) (cfg : TargetConfig) (mt : ManagedTarget) (tm : manager) : manager :=
  if maps_Equal (mt_eventTags mt) (tc_EventTags cfg) then tm else upd name (setEventTags (tc_EventTags cfg)) tm.

(** [apply] *)
Definition apply_target (a : attempt) (name : string) (cfg : TargetConfig) (tm : manager) : TM manager :=
  match tm_targets tm !! name with
  | None =>
      let mt := newManagedTarget name (DeepCopy (tm_next tm) cfg) in
      let tm := set_next (tm_next tm + 6) (set_targets (<[name := mt]> (tm_targets tm)) tm) in
      '(tm, err) ← start a name tm;
      match err with
      | Some e => Ok (scheduleRetry name (fail_target name e tm))
      | None => Ok (setTargetState name StateRunning (upd name clearLastError tm))
      end
  | Some mt =>
      if Equal (mt_Config mt) cfg then Ok tm
      else if negb (shouldReconnect (mt_Config mt) cfg) then
        tm ← update_subs name cfg mt tm;
        Ok (update_tags name cfg mt (update_outputs name cfg mt tm))
      else
        let tm := upd name (fun mt => setEventTags (tc_EventTags cfg) (set_mt_config cfg mt)) (stop name tm) in
        '(tm, err) ← start a name tm;
        match err with
        | Some e => Ok (scheduleRetry name (fail_target name e tm))
        | None => Ok tm
        end
  end.

(** [remove]: the target leaves the map first, so its last states are published
    without its errors, and then deleted. *)
Definition remove (name : string) (tm : manager) : manager :=
  match tm_targets tm !! name with
  | None => set_states (delete name (s_targets tm)) tm
  | Some mt =>
      let tm := stop name (set_targets (delete name (tm_targets tm)) tm) in
      set_states (delete name (s_targets tm)) tm
  end.

(** ** Subscriptions of all targets *)

(** A target that names the subscription, or names none. *)
Definition wants (sub : string) (mt : ManagedTarget) : bool :=
  let l := default [] (tc_Subscriptions (mt_Config mt)) in nilb l || bool_decide (sub ∈ l).

Definition restart_sub (sub : string) (tm : manager) (name : string) : TM manager :=
  match tm_subscriptions tm !! sub with
  | None => Ok tm
  | Some sc =>
      let tm := upd name (fun mt => set_mt_subs (<[sub := sc]> (mt_Subscriptions mt)) (mt_readers mt) (mt_live mt) mt)
                  (stopTargetSubscription name sub tm) in
      '(tm, sc) ← startTargetSubscription name sc tm;
      Ok (set_tm_subs (<[sub := sc]> (tm_subscriptions tm)) tm)
  end.

Definition applySubscription (sub : string) (cfg : SubscriptionConfig) (tm : manager) : TM manager :=
  let tm := set_tm_subs (<[sub := with_name sub cfg]> (tm_subscriptions tm)) tm in
  let targets := (filter (fun e => wants sub e.2 = true) (range (tm_targets tm))).*1 in
  foldM (restart_sub sub) targets tm.

Definition removeSubscription (sub : string) (tm : manager) : manager :=
  foldl (fun tm name => DeleteSubscriptionConfig name sub (stopTargetSubscription name sub tm))
    (set_tm_subs (delete sub (tm_subscriptions tm)) tm) (range (tm_targets tm)).*1.

(** ** Intended states and assignments *)

(** [SetIntendedState], with whether it did something; [enabled] or disabled. *)
Definition SetIntendedState (a : attempt) (name : string) (enabled : bool) (tm : manager) : TM (manager * bool) :=
  match tm_targets tm !! name with
  | None => Ok (tm, false)
  | Some mt =>
      let current := getTargetStateStr name tm in
      if enabled then
        if bool_decide (current = Some StateRunning) || bool_decide (current = Some StateStarting) then Ok (tm, false)
        else
          let tm := if bool_decide (current = Some StateFailed) then closeClient name (cancelRetry name tm) else tm in
          '(tm, err) ← start a name tm;
          match err with
          | Some e => Ok (scheduleRetry name (upd name (setLastError e) tm), true)
          | None => Ok (tm, true)
          end
      else
        let tm := cancelRetry name tm in
        if bool_decide (current = Some StateStopped) || bool_decide (current = Some StateStopping) then Ok (tm, false)
        else Ok (stop name tm, true)
  end.

Definition setAssigned (a : attempt) (name : string) (v : bool) (tm : manager) : TM manager :=
  let tm := set_assignments (if v then {[name]} ∪ tm_assignments tm else tm_assignments tm ∖ {[name]}) tm in
  if v then match c_targets tm !! name with Some cfg => apply_target a name cfg tm | None => Ok tm end
  else Ok (remove name tm).

(** ** The event loop *)

Inductive event_type := Create | Update | Delete.
Inductive tm_event :=
| TargetEvent (name : string) (t : event_type) (cfg : TargetConfig)
| SubscriptionEvent (name : string) (t : event_type) (cfg : SubscriptionConfig)
| AssignmentEvent (name : string) (t : event_type).

Definition handle_event (a : attempt) (tm : manager) (ev : tm_event) : TM manager :=
  match ev with
  | TargetEvent name t cfg =>
      if negb (amIAssigned name tm) then Ok tm
      else match t with Delete => Ok (remove name tm) | _ => apply_target a name cfg tm end
  | SubscriptionEvent name Delete _ => Ok (removeSubscription name tm)
  | SubscriptionEvent name _ cfg => applySubscription name cfg tm
  | AssignmentEvent name t => setAssigned a name (match t with Delete => false | _ => true end) tm
  end.

(** ** Responses *)

(** [pipelineMeta] *)
Definition pipelineMeta (targetName subscriptionName : string) (eventTags : gomap string) : gmap string string :=
  gm_tab eventTags ∪ <["source" := targetName]> {["subscription-name" := subscriptionName]}.

(** The outputs of a response: those of the subscription, or of the target. *)
Definition response_outputs (rd : reader) (mt : ManagedTarget) : gset string :=
  if nilb (rd_outputs rd) then mt_outputs mt else list_to_set (rd_outputs rd).

(** A message for the outputs manager. *)
Record pipeline_msg := mkPipelineMsg { pm_meta : gmap string string; pm_outputs : gset string }.

(** A response of a live reader: the first one of an attempt publishes the
    running state. *)
Definition reader_response (name sub : string) (initial : bool) (tm : manager) : manager * option pipeline_msg :=
  match tm_targets tm !! name with
  | None => (tm, None)
  | Some mt =>
      match mt_live mt !! sub with
      | None => (tm, None)
      | Some rd =>
          let tm := if initial then setTargetState name StateRunning (upd name clearLastError tm) else tm in
          (tm, Some (mkPipelineMsg (pipelineMeta name sub (mt_eventTags mt)) (response_outputs rd mt)))
      end
  end.

(** The state is published again, if there is one. *)
Definition refresh (name : string) (tm : manager) : manager :=
  match getTargetStateStr name tm with Some s => setTargetState name s tm | None => tm end.

(** An error of a reader; the end of one. *)
Definition reader_error (name e : string) (tm : manager) : manager := refresh name (upd name (setLastError e) tm).
Definition reader_exit (name : string) (tm : manager) : manager := refresh name tm.

(** ** The goroutine that keeps the lock *)

(** The locker lost the lock: the target is stopped, then Failed. *)
Definition keepLock_error (name e : string) (tm : manager) : manager := fail_target name e (stop name tm).
(** The context of the start was cancelled: the target is stopped again. *)
Definition keepLock_cancelled (name : string) (tm : manager) : manager := stop name tm.

(** ** Retries *)

(** A retry that finds the target Failed, after its probe answered. *)
Definition retry_start (a : attempt) (name : string) (tm : manager) : TM manager :=
  if negb (bool_decide (getTargetStateStr name tm = Some StateFailed)) then Ok (set_retry name false tm)
  else
    '(tm, err) ← start a name (closeClient name tm);
    match err with
    | Some e => Ok (fail_target name e tm)
    | None => Ok (set_retry name false tm)
    end.

(** [retryWanted], with the target still in the map. *)
Definition retryWanted (name : string) (tm : manager) : bool :=
  match tm_targets tm !! name with
  | None => false
  | Some _ => amIAssigned name tm && bool_decide (getTargetStateStr name tm = Some StateFailed)
  end.

(** One turn of [retryLoop]; [probe]: the error of the probe. *)
Definition retry_turn (probe : option string) (a : attempt) (name : string) (tm : manager) : TM manager :=
  if negb (retryWanted name tm) then Ok (set_retry name false tm)
  else match probe with
       | Some e => Ok (fail_target name e tm)
       | None => retry_start a name tm
       end.

(** [retryDelay], for a jitter below a fifth of the delay. *)
Definition defaultTargetRetryTimer : Z := 10000000000.
Definition base_delay (mt : ManagedTarget) : Z :=
  if 0 <? tc_RetryTimer (mt_Config mt) then tc_RetryTimer (mt_Config mt) else defaultTargetRetryTimer.
Definition retryDelay (jitter : Z -> Z) (mt : ManagedTarget) : Z :=
  int64 (base_delay mt + jitter (base_delay mt / 5 + 1)).
End manager.

(** ** Reachable states *)

Section steps.
Context `{UnicodeCase} `{GnmiEnums} `{MapOrder} `{SpecJSON}.

Definition set_config (t : gmap string TargetConfig) (s : gmap string SubscriptionConfig) (o : gset string) (e : option string) (tm : manager) :=
  mkManager (tm_targets tm) (tm_subscriptions tm) (tm_assignments tm) (tm_cluster tm) t s o e (s_targets tm) (tm_trace tm) (tm_next tm).

(** The steps of the manager, in any order: an event, a call of the API, a turn
    of a pending retry, a reader, or a change of the configuration store. *)
Inductive tm_step : manager -> manager -> Prop :=
| step_event a ev tm tm' : handle_event a tm ev = Ok tm' -> tm_step tm tm'
| step_intended a name b tm tm' r : SetIntendedState a name b tm = Ok (tm', r) -> tm_step tm tm'
| step_retry probe a name mt tm tm' :
    tm_targets tm !! name = Some mt -> mt_retry mt = true -> retry_turn probe a name tm = Ok tm' -> tm_step tm tm'
| step_response name sub initial tm : tm_step tm (reader_response name sub initial tm).1
| step_error name e tm : tm_step tm (reader_error name e tm)
| step_exit name tm : tm_step tm (reader_exit name tm)
| step_config t s o e tm : tm_step tm (set_config t s o e tm).

(** *** What a step does to states and to a part of the targets *)

(** A part of a target that its errors, its client and its subscriptions are
    not. *)
Class Stable {B} (proj : ManagedTarget -> B) : Prop := {
  stable_error e mt : proj (setLastError e mt) = proj mt;
  stable_client c l mt : proj (set_mt_client c l mt) = proj mt;
  stable_subs s r l mt : proj (set_mt_subs s r l mt) = proj mt;
  stable_applied l mt : proj (set_mt_applied l mt) = proj mt
}.
#[export] Instance stable_retry : Stable mt_retry.
Proof. done. Qed.
#[export] Instance stable_outputs : Stable mt_outputs.
Proof. done. Qed.
#[export] Instance stable_config : Stable mt_Config.
Proof. done. Qed.

Section frame.
Context {B : Type} {proj : ManagedTarget -> B} `{!Stable proj}.
#[local] Ltac stable := intros; first [apply stable_error|apply stable_client|apply stable_subs|apply stable_applied].


Definition kept (tm : manager) : gmap string B := proj <$> tm_targets tm.
Definition states (tm : manager) : gmap string target_state := ts_State <$> s_targets tm.
Definition members (tm : manager) : option string * gset string := (tm_cluster tm, tm_assignments tm).

Record same_targets (tm tm' : manager) : Prop := {
  same_kept : kept tm' = kept tm;
  same_members : members tm' = members tm
}.
Record quiet (tm tm' : manager) : Prop := { quiet_targets : same_targets tm tm'; quiet_states : states tm' = states tm }.

#[export] Instance same_targets_po : PreOrder same_targets.
Proof. split; [by split|]. intros ??? [H3 H4] [H5 H6]. split; congruence. Qed.
#[export] Instance quiet_po : PreOrder quiet.
Proof. split; [by split|]. intros ??? [H3 H4] [H5 H6]. split; [by etrans|congruence]. Qed.

Lemma kept_upd name f tm : (forall mt, proj (f mt) = proj mt) -> kept (upd name f tm) = kept tm.
Proof.
  intros Hf. unfold kept, upd, set_targets; cbn. apply map_eq; intros i. rewrite !lookup_fmap.
  destruct (decide (i = name)) as [->|Hn]; [rewrite lookup_alter_eq|by rewrite lookup_alter_ne].
  destruct (tm_targets tm !! name); cbn; [by rewrite Hf|done].
Qed.
Lemma kept_insert name mt tm : (proj <$> tm_targets tm !! name) = Some (proj mt) ->
  kept (set_targets (<[name := mt]> (tm_targets tm)) tm) = kept tm.
Proof. intros Hm. unfold kept; cbn. rewrite fmap_insert. apply insert_id. by rewrite lookup_fmap. Qed.

Lemma quiet_upd name f tm : (forall mt, proj (f mt) = proj mt) -> quiet tm (upd name f tm).
Proof. intros Hf. split; [split|]; [by apply kept_upd|done..]. Qed.
Lemma quiet_emit e tm : quiet tm (emit e tm).
Proof. done. Qed.
Lemma quiet_tm_subs s tm : quiet tm (set_tm_subs s tm).
Proof. done. Qed.
Lemma quiet_c_subs s tm : quiet tm (set_c_subs s tm).
Proof. done. Qed.
Lemma quiet_next n tm : quiet tm (set_next n tm).
Proof. done. Qed.

Lemma states_set name s tm : states (setTargetState name s tm) = <[name := s]> (states tm).
Proof. unfold states, setTargetState; cbn. rewrite fmap_insert. by destruct (tm_targets tm !! name). Qed.
Lemma targets_set name s tm : same_targets tm (setTargetState name s tm).
Proof. done. Qed.
Lemma state_states name tm : getTargetStateStr name tm = states tm !! name.
Proof. unfold states. by rewrite lookup_fmap. Qed.

Lemma same_quiet tm tm' : quiet tm tm' -> same_targets tm tm'.
Proof. by intros []. Qed.

Lemma stop_same name tm : same_targets tm (stop name tm).
Proof.
  unfold stop. case_bool_decide; [done|].
  set (tm1 := upd name clearLastError tm). set (tm2 := closeClient name (setTargetState name StateStopping tm1)).
  assert (same_targets tm tm2) as Hs.
  { trans tm1; [apply same_quiet, quiet_upd; stable|].
    trans (setTargetState name StateStopping tm1); [done|]. unfold tm2, closeClient.
    etrans; [apply same_quiet, (quiet_upd name close_mt); stable|done]. }
  destruct Hs as [Hsr Hsm]. destruct (tm_cluster (setTargetState name StateStopped tm2)); by split.
Qed.
Lemma stop_states name tm : states (stop name tm) = <[name := StateStopped]> (states tm).
Proof.
  unfold stop. case_bool_decide as Hs; [by rewrite state_states in Hs; rewrite insert_id|].
  set (tm1 := setTargetState name StateStopping (upd name clearLastError tm)).
  assert (states (closeClient name tm1) = <[name := StateStopping]> (states tm)) as Ht
    by apply (states_set name StateStopping (upd name clearLastError tm)).
  set (tm2 := closeClient name tm1) in *. clearbody tm2.
  trans (states (setTargetState name StateStopped tm2)); [by destruct (tm_cluster _)|].
  by rewrite states_set, Ht, insert_insert_eq.
Qed.

Lemma fail_states name e tm : states (fail_target name e tm) = <[name := StateFailed]> (states tm).
Proof. unfold fail_target. by rewrite states_set. Qed.
Lemma fail_same name e tm : same_targets tm (fail_target name e tm).
Proof. unfold fail_target. etrans; [apply same_quiet, (quiet_upd name (setLastError e)); stable|done]. Qed.

Lemma start_reader_retry sc req mt mt' : start_reader sc req mt = Ok mt' -> proj mt' = proj mt.
Proof. unfold start_reader. destruct (mt_client mt); [done|intros [= <-]; stable..]. Qed.

Lemma startTargetSubscription_quiet name sc tm tm' sc' : startTargetSubscription name sc tm = Ok (tm', sc') -> quiet tm tm'.
Proof.
  unfold startTargetSubscription. destruct (tm_targets tm !! name) as [mt|] eqn:Ht; [|by intros [= <- _]].
  intros Hs. apply bind_ok in Hs as ([sc1 [req|]] & _ & Hs); [|by injection Hs as <- _].
  apply bind_ok in Hs as (mt' & Hr & Hs). injection Hs as <- _. apply start_reader_retry in Hr.
  split; [split|]; [|done..]. refine (kept_insert name mt' tm _). by rewrite Ht, Hr.
Qed.

Lemma start_sub_quiet name tm sub tm' : start_sub name tm sub = Ok tm' -> quiet tm tm'.
Proof.
  unfold start_sub. destruct (tm_subscriptions tm !! sub); [|destruct (c_subs tm !! sub); [|by intros [= <-]]].
  all: intros Hs; apply bind_ok in Hs as ([tm1 sc] & Hs & He); injection He as <-;
    by etrans; [eapply startTargetSubscription_quiet|].
Qed.
Lemma add_sub_quiet name tm sub tm' : add_sub name tm sub = Ok tm' -> quiet tm tm'.
Proof.
  unfold add_sub. destruct (c_subs tm !! sub); [|by intros [= <-]].
  intros Hs; apply bind_ok in Hs as ([tm1 sc] & Hs & He); injection He as <-.
  etrans; [|etrans; [eapply startTargetSubscription_quiet, Hs|done]]. apply quiet_upd; stable.
Qed.
Lemma restart_sub_quiet sub tm name tm' : restart_sub sub tm name = Ok tm' -> quiet tm tm'.
Proof.
  unfold restart_sub. destruct (tm_subscriptions tm !! sub); [|by intros [= <-]].
  intros Hs; apply bind_ok in Hs as ([tm1 sc] & Hs & He); injection He as <-.
  etrans; [|etrans; [eapply startTargetSubscription_quiet, Hs|done]]. etrans; [apply (quiet_upd name (stop_reader sub)); stable|].
  apply quiet_upd; stable.
Qed.
Lemma foldM_quiet {A} (f : manager -> A -> go Empty_set manager) l tm tm' :
  (forall tm x tm', f tm x = Ok tm' -> quiet tm tm') -> foldM f l tm = Ok tm' -> quiet tm tm'.
Proof.
  intros Hf. revert tm; induction l as [|x l IH]; intros tm; cbn; [by intros [= <-]|].
  intros Hs. apply bind_ok in Hs as (tm1 & H1' & H2'). etrans; [by eapply Hf|by apply IH].
Qed.
Lemma foldl_quiet {A} (f : manager -> A -> manager) l tm : (forall tm x, quiet tm (f tm x)) -> quiet tm (foldl f tm l).
Proof. intros Hf. revert tm; induction l as [|x l IH]; intros tm; cbn; [done|]. etrans; [apply Hf|apply IH]. Qed.

(** What a start may do: the kept stay, and the target is left Running, or
    Failed or Stopped with an error. *)
Definition started (name : string) (tm : manager) (r : manager * option string) : Prop :=
  same_targets tm r.1 /\ exists s, states r.1 = <[name := s]> (states tm) /\ (r.2 = None <-> s = StateRunning).

Lemma started_trans name tm tm1 s r :
  same_targets tm tm1 -> states tm1 = <[name := s]> (states tm) -> started name tm1 r -> started name tm r.
Proof.
  intros Hs Ht [Hs' (s' & Ht' & He)]. split; [by etrans|]. exists s'. by rewrite Ht', Ht, insert_insert_eq.
Qed.
Lemma started_quiet name tm tm1 r : quiet tm tm1 -> started name tm1 r -> started name tm r.
Proof. intros [Hq Hs] [Hs' (s' & Ht' & He)]. split; [by etrans|]. exists s'. by rewrite Ht', Hs. Qed.
Lemma started_fail name tm e : started name tm (fail_target name e tm, Some e).
Proof. split; [apply fail_same|]. exists StateFailed. cbn [fst snd]. by rewrite fail_states. Qed.
Lemma started_stop name tm e e' : started name tm (stop name (fail_target name e tm), Some e').
Proof.
  split; [etrans; [apply fail_same|apply stop_same]|]. exists StateStopped. cbn [fst snd].
  by rewrite stop_states, fail_states, insert_insert_eq.
Qed.

Lemma start_subs_quiet name mt tm tm' : start_subs name mt tm = Ok tm' -> quiet tm tm'.
Proof.
  unfold start_subs. intros Hs. apply foldM_quiet in Hs; [|intros; by eapply start_sub_quiet].
  destruct (nilb _); [|done]. etrans; [|exact Hs]. apply quiet_upd; stable.
Qed.

Lemma start_locked_states a name mt tm r : start_locked a name mt tm = Ok r -> started name tm r.
Proof.
  unfold start_locked. destruct (a_caps a) as [e|].
  - intros [= <-]. by apply (started_quiet _ _ (emit (ECapabilities name) tm)), started_fail.
  - intros Hs. apply bind_ok in Hs as (tm' & Hq & Hs). injection Hs as <-. apply start_subs_quiet in Hq as [Hq Hst].
    split; [by etrans; [|etrans; [exact Hq|]]|]. exists StateRunning. cbn [fst snd].
    by rewrite states_set, Hst, states_set, insert_insert_eq.
Qed.
Lemma start_connected_states a name mt tm r : start_connected a name mt tm = Ok r -> started name tm r.
Proof.
  unfold start_connected. destruct (tm_cluster tm) as [c|]; [|apply start_locked_states].
  intros Hs. apply (started_quiet _ _ (emit (ELock (Targets_targetLockKey c name)) tm)); [done|].
  destruct (a_lock a) as [e|[]]; [injection Hs as <-; apply started_stop|by eapply start_locked_states|injection Hs as <-; apply started_stop].
Qed.

Lemma start_states a name tm r : start a name tm = Ok r -> is_Some (tm_targets tm !! name) -> started name tm r.
Proof.
  unfold start. intros Hs [mt Hmt]. rewrite Hmt in Hs.
  case_bool_decide as Hr.
  { injection Hs as <-. split; [done|]. exists StateRunning. rewrite state_states in Hr. cbn. by rewrite insert_id. }
  set (tm1 := emit _ _) in Hs. apply (started_trans _ _ tm1 StateStarting).
  { etrans; [apply same_quiet, (quiet_upd name clearLastError); stable|done]. }
  { apply (states_set name StateStarting (upd name clearLastError tm)). }
  clearbody tm1. destruct (a_dial a) as [e|]; [injection Hs as <-; apply started_fail|].
  apply start_connected_states in Hs. eapply started_quiet; [|exact Hs]. apply quiet_upd; stable.
Qed.
End frame.

(** *** Failed targets are retried *)

Abbreviation retries := (kept (proj := mt_retry)).
Abbreviation same_retry := (same_targets (proj := mt_retry)).
Abbreviation quiet_retry := (quiet (proj := mt_retry)).

Lemma retries_set name b tm : retries (set_retry name b tm) = alter (fun _ => b) name (retries tm).
Proof.
  unfold set_retry, retries, upd, set_targets; cbn. apply map_eq; intros i. rewrite !lookup_fmap.
  destruct (decide (i = name)) as [->|Hn]; [rewrite !lookup_alter_eq|rewrite !lookup_alter_ne by done]; rewrite lookup_fmap; [|done].
  by destruct (tm_targets tm !! name).
Qed.

Definition assigned (m : option string * gset string) (name : string) : Prop := match m.1 with None => True | Some _ => name ∈ m.2 end.

(** Every target is assigned to this instance, and has a retry pending if it is
    Failed; [inv_but]: but perhaps for one. *)
Definition inv (tm : manager) : Prop :=
  forall name b, retries tm !! name = Some b -> assigned (members tm) name /\ (states tm !! name = Some StateFailed -> b = true).
Definition inv_but (x : string) (tm : manager) : Prop :=
  forall name b, retries tm !! name = Some b -> assigned (members tm) name /\ (name <> x -> states tm !! name = Some StateFailed -> b = true).

Lemma inv_weaken x tm : inv tm -> inv_but x tm.
Proof. intros Hi name b Hb. destruct (Hi name b Hb). auto. Qed.
Lemma inv_close x tm : inv_but x tm -> states tm !! x <> Some StateFailed -> inv tm.
Proof.
  intros Hi Hx name b Hb. destruct (Hi name b Hb) as [Ha Hf]. split; [done|].
  destruct (decide (name = x)) as [->|]; [done|auto].
Qed.
Lemma inv_quiet tm tm' : quiet_retry tm tm' -> inv tm -> inv tm'.
Proof. intros [[Hr Hm] Hs] Hi name b. rewrite Hr, Hm, Hs. apply Hi. Qed.
Lemma inv_but_quiet x tm tm' : quiet_retry tm tm' -> inv_but x tm -> inv_but x tm'.
Proof. intros [[Hr Hm] Hs] Hi name b. rewrite Hr, Hm, Hs. apply Hi. Qed.
Lemma inv_but_state x s tm tm' :
  same_retry tm tm' -> states tm' = <[x := s]> (states tm) -> inv_but x tm -> inv_but x tm'.
Proof.
  intros [Hr Hm] Hs Hi name b. rewrite Hr, Hm, Hs. intros Hb. destruct (Hi name b Hb) as [Ha Hf].
  split; [done|]. intros Hn. rewrite lookup_insert_ne by done. auto.
Qed.
Lemma inv_but_retry x b tm : inv_but x tm -> inv_but x (set_retry x b tm).
Proof.
  intros Hi name b'. rewrite retries_set. change (members (set_retry x b tm)) with (members tm).
  change (states (set_retry x b tm)) with (states tm). destruct (decide (name = x)) as [->|Hn].
  - rewrite lookup_alter_eq. destruct (retries tm !! x) as [b0|] eqn:E; [|done]. intros _. destruct (Hi x b0 E). done.
  - rewrite lookup_alter_ne by done. apply Hi.
Qed.
Lemma inv_schedule x tm : inv_but x tm -> inv (scheduleRetry x tm).
Proof.
  intros Hi name b Hb. destruct (inv_but_retry x true tm Hi name b Hb) as [Ha Hf]. split; [done|].
  destruct (decide (name = x)) as [->|]; [|auto]. intros _. unfold scheduleRetry in Hb. rewrite retries_set, lookup_alter_eq in Hb.
  by destruct (retries tm !! x); simplify_eq/=.
Qed.
Lemma inv_started (proj := mt_retry) x tm r : started (proj := mt_retry) x tm r -> inv_but x tm -> inv_but x r.1 /\ (r.2 = None -> inv r.1).
Proof.
  intros [Hs (s & Ht & He)] Hi. assert (inv_but x r.1) as Hi' by (by eapply inv_but_state). split; [done|].
  intros Hn. apply He in Hn as ->. eapply inv_close; [done|]. by rewrite Ht, lookup_insert_eq.
Qed.

Lemma lookup_target tm tm' name : same_retry tm tm' -> is_Some (tm_targets tm !! name) -> is_Some (tm_targets tm' !! name).
Proof.
  intros [Hr _] Hs. apply (f_equal (lookup name)) in Hr. unfold retries in Hr. rewrite !lookup_fmap in Hr.
  destruct Hs as [mt Hm]. rewrite Hm in Hr. destruct (tm_targets tm' !! name); [eauto|done].
Qed.

(** A start in a handler, with a retry when it fails. *)
Lemma inv_restart a name tm tm1 (r : manager * option string) :
  start a name tm = Ok r -> is_Some (tm_targets tm !! name) -> inv_but name tm ->
  (forall e, r.2 = Some e -> tm1 = scheduleRetry name (fail_target name e r.1)) -> (r.2 = None -> quiet_retry r.1 tm1) -> inv tm1.
Proof.
  intros Hs Hm Hi He Hn. apply (start_states (proj := mt_retry)) in Hs; [|done]. destruct (inv_started _ _ _ Hs Hi) as [Hi1 Hi2].
  destruct r as [tm' [e|]]; cbn in *.
  - rewrite (He e eq_refl). apply inv_schedule. eapply inv_but_state; [apply (fail_same (proj := mt_retry))|apply fail_states|done].
  - eapply inv_quiet; [by apply Hn|by apply Hi2].
Qed.

Lemma update_quiet name cfg mt tm tm1 :
  update_subs name cfg mt tm = Ok tm1 -> quiet_retry tm (update_tags name cfg mt (update_outputs name cfg mt tm1)).
Proof.
  intros Hu. assert (quiet_retry tm tm1) as Hq.
  { revert Hu. unfold update_subs. case_bool_decide; [by intros [= <-]|]. destruct (compare _ _ _) as [added removed].
    intros Hu. apply bind_ok in Hu as (tm2 & Hf & Hu). injection Hu as <-.
    apply (foldM_quiet (proj := mt_retry)) in Hf; [|intros; by eapply add_sub_quiet]. etrans; [exact Hf|].
    etrans; [|by apply quiet_upd]. apply foldl_quiet. intros tm3 sub. unfold remove_sub.
    etrans; [by apply (quiet_upd (proj := mt_retry) name (stop_reader sub))|]. etrans; [by apply (quiet_upd (proj := mt_retry) name (drop_sub_config sub))|by apply quiet_upd]. }
  etrans; [exact Hq|]. clear. trans (update_outputs name cfg mt tm1).
  - unfold update_outputs. case_bool_decide; [done|]. destruct (compare _ _ _). by apply quiet_upd.
  - unfold update_tags. destruct (maps_Equal _ _); [done|by apply quiet_upd].
Qed.

Lemma inv_apply a name cfg tm tm' : assigned (members tm) name -> inv tm -> apply_target a name cfg tm = Ok tm' -> inv tm'.
Proof.
  unfold apply_target. intros Ha Hi. destruct (tm_targets tm !! name) as [mt|] eqn:Hmt.
  - destruct (Equal _ _); [by intros [= <-]|]. destruct (negb (shouldReconnect _ _)).
    + intros Hs. apply bind_ok in Hs as (tm1 & Hu & Hs). injection Hs as <-. eapply inv_quiet; [by eapply update_quiet|done].
    + intros Hs. apply bind_ok in Hs as (r & Hst & Hs).
      set (tm1 := upd name _ (stop name tm)) in Hst.
      assert (same_retry (stop name tm) tm1) as Hq by (by apply same_quiet, quiet_upd).
      assert (same_retry tm tm1) as Hq' by (etrans; [apply (stop_same (proj := mt_retry))|exact Hq]).
      eapply (inv_restart a name tm1); [exact Hst| | | |].
      * eapply lookup_target; [exact Hq'|by rewrite Hmt].
      * eapply inv_but_state; [exact Hq'|exact (stop_states name tm)|by apply inv_weaken].
      * intros e He. destruct r as [tm2 err]. cbn in He. subst err. cbv beta iota in Hs. by injection Hs as <-.
      * intros He. destruct r as [tm2 err]. cbn in He. subst err. cbv beta iota in Hs. by injection Hs as <-.
  - intros Hs. apply bind_ok in Hs as (r & Hst & Hs). set (mt := newManagedTarget name _) in Hst. set (tm1 := set_next _ _) in Hst.
    assert (inv_but name tm1) as Hi1.
    { intros n b. change (members tm1) with (members tm). change (states tm1) with (states tm).
      unfold tm1, retries; cbn. rewrite fmap_insert. destruct (decide (n = name)) as [->|Hn]; [done|].
      rewrite lookup_insert_ne by done. intros Hb. destruct (Hi n b Hb). auto. }
    assert (is_Some (tm_targets tm1 !! name)) as Hm1 by (unfold tm1; cbn; rewrite lookup_insert_eq; eauto).
    destruct r as [tm2 [e|]].
    + cbv beta iota in Hs. injection Hs as <-. eapply (inv_restart a name tm1 _ (tm2, Some e)); [exact Hst|done..| |done].
      intros e' [= <-]. done.
    + cbv beta iota in Hs. injection Hs as <-. apply (start_states (proj := mt_retry)) in Hst; [|done]. destruct (inv_started _ _ _ Hst Hi1) as [Hi2 _].
      eapply inv_close; [|by rewrite states_set, lookup_insert_eq].
      apply (inv_but_state name StateRunning tm2); [|apply (states_set name StateRunning (upd name clearLastError tm2))|exact Hi2].
      etrans; [by apply same_quiet, (quiet_upd (proj := mt_retry) name clearLastError)|done].
Qed.
Lemma remove_view name tm :
  retries (remove name tm) = delete name (retries tm) /\ members (remove name tm) = members tm /\
  (forall n, n <> name -> states (remove name tm) !! n = states tm !! n).
Proof.
  unfold remove. destruct (tm_targets tm !! name) as [mt|] eqn:Hm.
  - set (tm1 := set_targets _ tm). destruct (stop_same (proj := mt_retry) name tm1) as [Hr Hmem]. split_and!.
    + change (retries (stop name tm1) = delete name (retries tm)). rewrite Hr. unfold tm1, retries; cbn. by rewrite fmap_delete.
    + exact Hmem.
    + intros n Hn. trans ((delete name (states (stop name tm1))) !! n); [unfold states; cbn; by rewrite fmap_delete|].
      rewrite stop_states, lookup_delete_ne, lookup_insert_ne by done. done.
  - split_and!; [|done|intros n Hn; unfold states; cbn; by rewrite fmap_delete, lookup_delete_ne].
    change (retries tm = delete name (retries tm)). symmetry. apply delete_id. unfold retries. by rewrite lookup_fmap, Hm.
Qed.

Lemma inv_remove name tm tm1 :
  retries tm1 = retries tm -> states tm1 = states tm -> (forall n, n <> name -> assigned (members tm) n -> assigned (members tm1) n) ->
  inv tm -> inv (remove name tm1).
Proof.
  intros Hr Hs Ha Hi n b. destruct (remove_view name tm1) as (Hvr & Hvm & Hvs). rewrite Hvr, Hvm, Hr.
  destruct (decide (n = name)) as [->|Hn]; [by rewrite lookup_delete_eq|].
  rewrite lookup_delete_ne, Hvs, Hs by done. intros Hb. destruct (Hi n b Hb). auto.
Qed.

Lemma inv_setAssigned a name v tm tm' : inv tm -> setAssigned a name v tm = Ok tm' -> inv tm'.
Proof.
  unfold setAssigned. intros Hi. set (tm1 := set_assignments _ tm). destruct v.
  - assert (inv tm1) as Hi1.
    { intros n b Hb. destruct (Hi n b Hb) as [Ha Hf]. split; [|exact Hf]. unfold assigned, tm1 in *; cbn in *.
      destruct (tm_cluster tm); [set_solver|done]. }
    destruct (c_targets tm1 !! name) as [cfg|]; [|by intros [= <-]]. apply inv_apply; [|done].
    unfold assigned, tm1; cbn. destruct (tm_cluster tm); [set_solver|done].
  - intros [= <-]. eapply (inv_remove name tm tm1); [done..| |done].
    intros n Hn. unfold assigned, tm1; cbn. destruct (tm_cluster tm); [set_solver|done].
Qed.

Lemma inv_SetIntendedState a name b tm tm' r : inv tm -> SetIntendedState a name b tm = Ok (tm', r) -> inv tm'.
Proof.
  unfold SetIntendedState. intros Hi. destruct (tm_targets tm !! name) as [mt|] eqn:Hmt; [|by intros [= <- _]].
  pose proof (inv_but_retry name false tm (inv_weaken name tm Hi)) as Hic. destruct b.
  - destruct (bool_decide _ || bool_decide _); [by intros [= <- _]|]. intros Hs. apply bind_ok in Hs as ([tm2 err] & Hst & Hs).
    set (tm1 := if bool_decide _ then _ else _) in Hst.
    assert (inv_but name tm1 /\ is_Some (tm_targets tm1 !! name)) as [Hi1 Hm1].
    { unfold tm1. case_bool_decide; [|rewrite Hmt; split; [by apply inv_weaken|eauto]]. split.
      - eapply inv_but_quiet; [|exact Hic]. etrans; [by apply (quiet_upd (proj := mt_retry) name close_mt)|done].
      - unfold closeClient, cancelRetry, set_retry, upd; cbn. rewrite !lookup_alter_eq, Hmt. cbn. eauto. }
    apply (start_states (proj := mt_retry)) in Hst; [|done]. destruct (inv_started _ _ _ Hst Hi1) as [Hi2 Hi3].
    destruct err as [e|]; injection Hs as <- _; [|by apply Hi3]. apply inv_schedule.
    eapply inv_but_quiet; [|exact Hi2]. by apply quiet_upd.
  - destruct (_ || _) eqn:Hc; intros [= <- _].
    + eapply inv_close; [exact Hic|]. change (states (cancelRetry name tm)) with (states tm). rewrite state_states in Hc.
      apply orb_true_iff in Hc as [Hc|Hc]; apply bool_decide_eq_true in Hc; by rewrite Hc.
    + eapply inv_close; [|by rewrite stop_states, lookup_insert_eq].
      eapply inv_but_state; [apply (stop_same (proj := mt_retry))|apply stop_states|exact Hic].
Qed.

Lemma inv_retry_turn probe a name mt tm tm' :
  tm_targets tm !! name = Some mt -> mt_retry mt = true -> inv tm -> retry_turn probe a name tm = Ok tm' -> inv tm'.
Proof.
  unfold retry_turn, retryWanted. intros Hmt Hret Hi. rewrite Hmt.
  assert (retries tm !! name = Some true) as Hrt by (unfold retries; by rewrite lookup_fmap, Hmt, <-Hret).
  destruct (Hi name true Hrt) as [Ha _].
  assert (amIAssigned name tm = true) as ->.
  { unfold amIAssigned, assigned, members in *. cbn in Ha. destruct (tm_cluster tm); [by apply bool_decide_eq_true|done]. }
  pose proof (inv_but_retry name false tm (inv_weaken name tm Hi)) as Hic.
  cbn [andb]. case_bool_decide as Hf; cbn [negb].
  - destruct probe as [e|].
    + intros [= <-]. intros n b. rewrite (same_kept _ _ (fail_same (proj := mt_retry) name e tm)), fail_states, (same_members _ _ (fail_same (proj := mt_retry) name e tm)).
      intros Hb. destruct (Hi n b Hb) as [Han Hn]. split; [done|].
      destruct (decide (n = name)) as [->|]; [|by rewrite lookup_insert_ne]. intros _. by rewrite Hrt in Hb; injection Hb.
    + unfold retry_start. rewrite bool_decide_true by done. cbn [negb]. intros Hs. apply bind_ok in Hs as ([tm2 err] & Hst & Hs).
      set (tm1 := closeClient name tm) in Hst.
      assert (quiet_retry tm tm1) as Hq.
      { etrans; [by apply (quiet_upd (proj := mt_retry) name close_mt)|done]. }
      apply (start_states (proj := mt_retry)) in Hst; [|eapply lookup_target; [exact (quiet_targets _ _ Hq)|by rewrite Hmt]].
      destruct Hst as [Hst (s & Hs' & He)]. cbn [fst snd] in Hst, Hs', He.
      assert (same_retry tm tm2) as Hsame by (etrans; [exact (quiet_targets _ _ Hq)|exact Hst]).
      rewrite (quiet_states _ _ Hq) in Hs'. destruct err as [e|]; injection Hs as <-.
      * intros n b. rewrite (same_kept _ _ (fail_same (proj := mt_retry) name e tm2)), (same_members _ _ (fail_same (proj := mt_retry) name e tm2)), fail_states, Hs'.
        rewrite insert_insert_eq, (same_kept _ _ Hsame), (same_members _ _ Hsame). intros Hb. destruct (Hi n b Hb) as [Han Hn].
        split; [done|]. destruct (decide (n = name)) as [->|]; [|by rewrite lookup_insert_ne]. intros _. by rewrite Hrt in Hb; injection Hb.
      * eapply inv_close; [|change (states (set_retry name false tm2)) with (states tm2); rewrite Hs', lookup_insert_eq; intros [= ->]; by destruct He as [He _]; specialize (He eq_refl)].
        apply inv_but_retry. eapply inv_but_state; [exact Hsame|exact Hs'|by apply inv_weaken].
  - intros [= <-]. eapply inv_close; [exact Hic|]. change (states (set_retry name false tm)) with (states tm). by rewrite <-state_states.
Qed.

Lemma quiet_removeSubscription sub tm : quiet_retry tm (removeSubscription sub tm).
Proof.
  unfold removeSubscription. etrans; [apply (quiet_tm_subs (delete sub (tm_subscriptions tm)))|]. apply foldl_quiet.
  intros tm1 name. etrans; [by apply (quiet_upd (proj := mt_retry) name (stop_reader sub))|by apply (quiet_upd (proj := mt_retry) name (drop_sub_config sub))].
Qed.

Lemma inv_event a ev tm tm' : inv tm -> handle_event a tm ev = Ok tm' -> inv tm'.
Proof.
  intros Hi. destruct ev as [name t cfg|name t cfg|name t]; cbn [handle_event]; [| |by apply inv_setAssigned].
  - destruct (amIAssigned name tm) eqn:Ha; cbn [negb]; [|by intros [= <-]].
    assert (assigned (members tm) name) as Has.
    { unfold amIAssigned, assigned, members in *. cbn. destruct (tm_cluster tm); [by apply bool_decide_eq_true in Ha|done]. }
    destruct t; [by apply inv_apply..|]. intros [= <-]. by apply (inv_remove name tm tm).
  - assert (forall r, applySubscription name cfg tm = Ok r -> inv r) as Hsub.
    { intros r Hs. unfold applySubscription in Hs. eapply inv_quiet; [|exact Hi].
      etrans; [|eapply foldM_quiet; [|exact Hs]; intros; by eapply restart_sub_quiet]. done. }
    destruct t; [apply Hsub..|]. intros [= <-]. eapply inv_quiet; [apply quiet_removeSubscription|done].
Qed.

Lemma inv_state x s tm : inv tm -> (s = StateFailed -> states tm !! x = Some StateFailed) -> inv (setTargetState x s tm).
Proof.
  intros Hi Hs n b. change (retries (setTargetState x s tm)) with (retries tm). rewrite states_set. intros Hb. destruct (Hi n b Hb) as [Ha Hf].
  split; [done|]. destruct (decide (n = x)) as [->|]; [rewrite lookup_insert_eq|by rewrite lookup_insert_ne]. intros [= ->]. auto.
Qed.
Lemma inv_refresh name tm : inv tm -> inv (refresh name tm).
Proof.
  intros Hi. unfold refresh. rewrite state_states. destruct (states tm !! name) eqn:E; [|done]. apply inv_state; [done|]. by intros ->.
Qed.

Lemma inv_step tm tm' : tm_step tm tm' -> inv tm -> inv tm'.
Proof.
  intros Hs Hi. destruct Hs as [| | |name sub initial tm| | |]; [by eapply inv_event|by eapply inv_SetIntendedState|by eapply inv_retry_turn|..].
  - unfold reader_response. destruct (tm_targets tm !! name); [|done]. destruct (mt_live _ !! sub); [|done].
    destruct initial; [|done]. cbn [fst]. apply inv_state; [|done]. eapply inv_quiet; [|exact Hi]. by apply quiet_upd.
  - apply inv_refresh. eapply inv_quiet; [|exact Hi]. by apply quiet_upd.
  - by apply inv_refresh.
  - done.
Qed.

Lemma inv_reachable tm tm' : rtc tm_step tm tm' -> inv tm -> inv tm'.
Proof. induction 1; eauto using inv_step. Qed.
Lemma inv_empty tm : tm_targets tm = ∅ -> inv tm.
Proof. intros He n b. unfold kept. by rewrite He, fmap_empty, lookup_empty. Qed.

Lemma start_reachable name tm r : start reachable_device name tm = Ok r -> r.2 = None.
Proof.
  unfold start. destruct (tm_targets tm !! name) as [mt|]; [|by intros [= <-]]. case_bool_decide; [by intros [= <-]|].
  cbn [a_dial reachable_device]. set (tm1 := upd _ _ _). clearbody tm1.
  assert (forall tm, start_locked reachable_device name mt tm = Ok r -> r.2 = None) as Hl.
  { intros tm2. unfold start_locked. cbn [a_caps reachable_device]. intros Hs. apply bind_ok in Hs as (tm3 & _ & Hs). by injection Hs as <-. }
  unfold start_connected. destruct (tm_cluster tm1); [apply Hl|]. apply Hl.
Qed.

Lemma retry_connects name mt tm tm' :
  tm_targets tm !! name = Some mt -> retryWanted name tm = true -> retry_turn None reachable_device name tm = Ok tm' ->
  getTargetStateStr name tm' = Some StateRunning /\ retries tm' !! name = Some false.
Proof.
  intros Hmt Hw. unfold retry_turn. rewrite Hw. cbn [negb]. unfold retryWanted in Hw. rewrite Hmt in Hw.
  apply andb_true_iff in Hw as [_ Hf]. unfold retry_start. rewrite Hf. cbn [negb].
  intros Hs. apply bind_ok in Hs as ([tm2 err] & Hst & Hs). pose proof (start_reachable _ _ _ Hst) as He. cbn in He. subst err.
  injection Hs as <-. set (tm1 := closeClient name tm) in Hst.
  assert (quiet_retry tm tm1) as Hq by (etrans; [by apply (quiet_upd (proj := mt_retry) name close_mt)|done]).
  pose proof (lookup_target tm tm1 name (quiet_targets _ _ Hq)) as Hm1. rewrite Hmt in Hm1. specialize (Hm1 (mk_is_Some _ _ eq_refl)).
  destruct (start_states (proj := mt_retry) _ _ _ _ Hst Hm1) as [Hsame (s & Hss & Hs)]. cbn [fst snd] in *.
  rewrite state_states. change (states (set_retry name false tm2)) with (states tm2).
  rewrite Hss, lookup_insert_eq, (proj1 Hs eq_refl). split; [done|].
  rewrite retries_set, lookup_alter_eq, (same_kept _ _ Hsame), (same_kept _ _ (quiet_targets _ _ Hq)).
  unfold kept. by rewrite lookup_fmap, Hmt.
Qed.
End steps.

(** No target stays Failed: in every state that events, API calls, retries
    and readers can reach, with a cluster or without, a managed target is
    assigned to this instance, and if it is Failed a retry is pending; and a
    turn of that retry with a device that answers leaves the target Running. *)
Theorem failed_is_retried `{UnicodeCase} `{GnmiEnums} `{MapOrder} `{SpecJSON} tm0 tm name mt :
  tm_targets tm0 = ∅ -> rtc tm_step tm0 tm ->
  tm_targets tm !! name = Some mt -> getTargetStateStr name tm = Some StateFailed ->
  amIAssigned name tm = true /\ mt_retry mt = true /\
  (forall tm', retry_turn None reachable_device name tm = Ok tm' -> getTargetStateStr name tm' = Some StateRunning).
Proof.
  intros He Hr Hmt Hf. pose proof (inv_reachable _ _ Hr (inv_empty _ He)) as Hi.
  assert (kept (proj := mt_retry) tm !! name = Some (mt_retry mt)) as Hk by (unfold kept; by rewrite lookup_fmap, Hmt).
  destruct (Hi name _ Hk) as [Ha Hret]. rewrite <-state_states in Hret. specialize (Hret Hf).
  assert (amIAssigned name tm = true) as Has.
  { unfold amIAssigned, assigned, members in *. cbn in Ha. destruct (tm_cluster tm); [by apply bool_decide_eq_true|done]. }
  split_and!; [done..|]. intros tm' Ht. eapply retry_connects; [exact Hmt| |exact Ht].
  unfold retryWanted. rewrite Hmt, Has, Hf. by apply bool_decide_eq_true.
Qed.

Lemma Equal_refl c : Equal c c = true.
Proof.
  unfold Equal. rewrite !String.eqb_refl, !Z.eqb_refl, !bd_refl. unfold slices_Equal, maps_Equal. rewrite !bd_refl.
  assert (forall p, same_ptr p p = true) as Hp by (intros [[a v]|]; [apply Z.eqb_refl|done]). by rewrite !Hp.
Qed.

(** An update that asks for a new connection drops the change of the
    outputs: the target connects with the new configuration, but its responses
    go to the outputs of the old one, and delivering the same configuration
    again changes nothing. *)
Theorem reconnect_keeps_outputs `{UnicodeCase} `{GnmiEnums} `{MapOrder} `{SpecJSON} a name cfg tm mt tm' :
  tm_targets tm !! name = Some mt -> Equal (mt_Config mt) cfg = false -> shouldReconnect (mt_Config mt) cfg = true ->
  apply_target a name cfg tm = Ok tm' ->
  exists mt', tm_targets tm' !! name = Some mt' /\ mt_Config mt' = cfg /\ mt_outputs mt' = mt_outputs mt /\
    (forall rd, rd_outputs rd = [] -> response_outputs rd mt' = mt_outputs mt) /\
    (forall a', apply_target a' name cfg tm' = Ok tm').
Proof.
  intros Hmt He Hr. unfold apply_target at 1. rewrite Hmt, He, Hr. cbn [negb].
  intros Hs. apply bind_ok in Hs as (r & Hst & Hs). set (tm1 := upd name _ (stop name tm)) in Hst.
  assert (kept (proj := mt_outputs) tm1 = kept (proj := mt_outputs) tm /\ tm_targets tm1 !! name <> None /\ kept (proj := mt_Config) tm1 !! name = Some cfg)
    as (Ho & Hn & Hc).
  { pose proof (same_kept _ _ (stop_same (proj := mt_outputs) name tm)) as Hso.
    assert (exists mt1, tm_targets (stop name tm) !! name = Some mt1) as [mt1 Hm1].
    { apply (f_equal (lookup name)) in Hso. unfold kept in Hso. rewrite !lookup_fmap, Hmt in Hso.
      destruct (tm_targets (stop name tm) !! name); [eauto|done]. }
    split_and!; [|unfold tm1, upd, set_targets; cbn; by rewrite lookup_alter_eq, Hm1|].
    - rewrite <-Hso. by apply (kept_upd (proj := mt_outputs)).
    - unfold kept, tm1, upd, set_targets; cbn. rewrite lookup_fmap, lookup_alter_eq, Hm1. cbn. by destruct cfg. }
  assert (is_Some (tm_targets tm1 !! name)) as Hm1 by (destruct (tm_targets tm1 !! name); [eauto|done]).
  assert (forall B (proj : ManagedTarget -> B) `{!Stable proj}, (forall mt, proj (set_mt_retry true mt) = proj mt) ->
    kept (proj := proj) tm' = kept (proj := proj) tm1) as Hk.
  { intros B proj HS Hp. destruct (start_states (proj := proj) _ _ _ _ Hst Hm1) as [[Hk _] _]. rewrite <-Hk.
    destruct r as [tm2 [e|]]; injection Hs as <-; [|done]. cbn [fst].
    rewrite <-(same_kept _ _ (fail_same (proj := proj) name e tm2)).
    by apply (kept_upd (proj := proj)). }
  pose proof (Hk _ mt_outputs _ (fun _ => eq_refl)) as Hk1. pose proof (Hk _ mt_Config _ (fun _ => eq_refl)) as Hk2.
  apply (f_equal (lookup name)) in Hk1, Hk2, Ho. rewrite Hc in Hk2. rewrite Ho in Hk1.
  unfold kept in Hk1, Hk2. rewrite !lookup_fmap, Hmt in Hk1. rewrite lookup_fmap in Hk2.
  destruct (tm_targets tm' !! name) as [mt'|] eqn:Hm'; [|done]. injection Hk1 as Hk1. injection Hk2 as Hk2.
  exists mt'. split_and!; [done..| |].
  - intros rd Hrd. unfold response_outputs. by rewrite Hrd, Hk1.
  - intros a'. unfold apply_target. by rewrite Hm', Hk2, Equal_refl.
Qed.

(** ** Applying a subscription *)

Section subs.
Context `{UnicodeCase} `{GnmiEnums} `{MapOrder} `{SpecJSON}.

(** The request of a configuration for a target, when it builds and leaves the
    configuration as it is. *)
Definition requests (tm : manager) (c : TargetConfig) (sc : SubscriptionConfig) (req : msg SubReq) : Prop :=
  CreateSubscribeRequest sc (Some c) (default "json" (c_encoding tm)) = Ok (sc, Ran req None).

(** A target whose reader of [sc] was started with [req]. *)
Definition reading (sc : SubscriptionConfig) (req : msg SubReq) (mt : ManagedTarget) : ManagedTarget :=
  let rd := mkReader req (default [] (sc_Outputs sc)) in
  set_mt_subs (<[sc_Name sc := sc]> (mt_Subscriptions mt)) (<[sc_Name sc := rd]> (mt_readers mt))
    (match mt_client mt with Open => <[sc_Name sc := rd]> (mt_live mt) | _ => delete (sc_Name sc) (mt_live mt) end) mt.

Lemma start_request name sc req tm mt :
  tm_targets tm !! name = Some mt -> requests tm (mt_Config mt) sc req ->
  startTargetSubscription name sc tm =
    match mt_client mt with
    | NoClient => Panic
    | _ => Ok (emit (ESubscribe name (sc_Name sc) req) (set_targets (<[name := reading sc req mt]> (tm_targets tm)) tm), sc)
    end.
Proof.
  intros Hm Hr. unfold startTargetSubscription, subscribe_request. rewrite Hm, Hr. cbn [mbind go_bind].
  unfold start_reader, reading. by destruct (mt_client mt).
Qed.

Definition restarted (sub : string) (sc : SubscriptionConfig) (req : msg SubReq) (mt : ManagedTarget) : ManagedTarget :=
  let mt := stop_reader sub mt in reading sc req (set_mt_subs (<[sub := sc]> (mt_Subscriptions mt)) (mt_readers mt) (mt_live mt) mt).

Lemma restart_sub_one sub tm name mt sc req :
  tm_subscriptions tm !! sub = Some sc -> tm_targets tm !! name = Some mt -> requests tm (mt_Config mt) sc req ->
  restart_sub sub tm name = match mt_client mt with NoClient => Panic | _ =>
    Ok (emit (ESubscribe name (sc_Name sc) req) (set_targets (<[name := restarted sub sc req mt]> (tm_targets tm)) tm)) end.
Proof.
  intros Hs Hm Hr. unfold restart_sub. rewrite Hs. set (tm1 := upd _ _ _).
  set (mt1 := set_mt_subs (<[sub := sc]> (mt_Subscriptions (stop_reader sub mt))) (mt_readers (stop_reader sub mt)) (mt_live (stop_reader sub mt)) (stop_reader sub mt)).
  assert (tm_targets tm1 = <[name := mt1]> (tm_targets tm)) as Ht.
  { unfold tm1, stopTargetSubscription, upd; cbn. apply map_eq; intros i. destruct (decide (i = name)) as [->|Hn].
    - by rewrite !lookup_alter_eq, Hm, lookup_insert_eq.
    - by rewrite !lookup_alter_ne, lookup_insert_ne. }
  rewrite (start_request name sc req tm1 mt1) by first [exact Hr|by rewrite Ht, lookup_insert_eq].
  change (mt_client mt1) with (mt_client mt). destruct (mt_client mt); [done|..]; cbn [mbind go_bind].
  all: rewrite Ht, insert_insert_eq; unfold emit, set_tm_subs, set_targets; cbn; do 2 f_equal; by apply insert_id.
Qed.

(** The targets after a fold over some of them. *)
Lemma restart_all sub sc l : forall tm,
  NoDup l -> tm_subscriptions tm !! sub = Some sc ->
  (forall name, name ∈ l -> exists mt req, tm_targets tm !! name = Some mt /\ requests tm (mt_Config mt) sc req /\ mt_client mt <> NoClient) ->
  exists tm', foldM (restart_sub sub) l tm = Ok tm' /\ tm_subscriptions tm' = tm_subscriptions tm /\
  forall name, (name ∉ l -> tm_targets tm' !! name = tm_targets tm !! name) /\
    (name ∈ l -> exists mt req, tm_targets tm !! name = Some mt /\ requests tm (mt_Config mt) sc req /\
                  tm_targets tm' !! name = Some (restarted sub sc req mt)).
Proof.
  induction l as [|x l IH]; intros tm Hnd Hs Hl.
  { exists tm. cbn. split_and!; [done..|]. intros name. split; [done|]. by intros ?%elem_of_nil. }
  apply NoDup_cons in Hnd as [Hx Hnd]. destruct (Hl x (list_elem_of_here _ _)) as (mt & req & Hm & Hr & Hc).
  cbn [foldM]. rewrite (restart_sub_one sub tm x mt sc req) by done.
  set (tm1 := emit _ (set_targets _ tm)).
  destruct (IH tm1 Hnd Hs) as (tm' & Hf & Hs' & Ht).
  { intros name Hn. destruct (Hl name (list_elem_of_further _ _ _ Hn)) as (mt' & req' & Hm' & Hr' & Hc').
    exists mt', req'. split_and!; [|done..]. unfold tm1; cbn. rewrite lookup_insert_ne; [done|]. by intros ->. }
  exists tm'. split_and!; [by destruct (mt_client mt)|done|]. intros name. destruct (Ht name) as [Ht1 Ht2]. split.
  - intros [Hn1 Hn2]%not_elem_of_cons. rewrite Ht1 by done. unfold tm1; cbn. by rewrite lookup_insert_ne.
  - intros [->|Hn]%elem_of_cons.
    + exists mt, req. split_and!; [done..|]. destruct (Ht x) as [Ht3 _]. rewrite Ht3 by done. unfold tm1; cbn. by rewrite lookup_insert_eq.
    + destruct (Ht2 Hn) as (mt' & req' & Hm' & Hr' & Hm2). exists mt', req'. split_and!; [|done..].
      revert Hm'. unfold tm1; cbn. rewrite lookup_insert_ne; [done|]. by intros ->.
Qed.

Lemma restart_panics sub sc l : forall tm,
  NoDup l -> tm_subscriptions tm !! sub = Some sc ->
  (forall name, name ∈ l -> exists mt req, tm_targets tm !! name = Some mt /\ requests tm (mt_Config mt) sc req) ->
  (exists name mt, name ∈ l /\ tm_targets tm !! name = Some mt /\ mt_client mt = NoClient) ->
  foldM (restart_sub sub) l tm = Panic.
Proof.
  induction l as [|x l IH]; intros tm Hnd Hs Hl (y & mty & Hy & Hmy & Hcy); [by apply elem_of_nil in Hy|].
  apply NoDup_cons in Hnd as [Hx Hnd]. destruct (Hl x (list_elem_of_here _ _)) as (mt & req & Hm & Hr).
  cbn [foldM]. rewrite (restart_sub_one sub tm x mt sc req) by done.
  assert (mt_client mt = NoClient \/ y ∈ l) as Hcase.
  { apply elem_of_cons in Hy as [->|]; [left; congruence|auto]. }
  set (tm1 := emit _ (set_targets _ tm)).
  destruct (mt_client mt) eqn:Hc; [done|..]; (destruct Hcase as [|Hyl]; [done|]); cbn [mbind go_bind].
  all: apply IH; [done..| |].
  all: assert (forall n, n ∈ l -> tm_targets tm1 !! n = tm_targets tm !! n) as Hsame
    by (intros n Hn; unfold tm1; cbn; rewrite lookup_insert_ne; [done|]; by intros ->).
  1,3: intros name Hn; rewrite Hsame by done; apply Hl; by right.
  all: exists y, mty; by rewrite Hsame.
Qed.

Lemma elem_of_wanting sub tm name :
  name ∈ (filter (fun e : string * ManagedTarget => wants sub e.2 = true) (range (tm_targets tm))).*1
  <-> exists mt, tm_targets tm !! name = Some mt /\ wants sub mt = true.
Proof.
  rewrite list_elem_of_fmap. split.
  - intros ([n mt] & -> & [Hw Hin]%list_elem_of_filter). exists mt. by apply elem_of_range in Hin.
  - intros (mt & Hm & Hw). exists (name, mt). split; [done|]. apply list_elem_of_filter. by rewrite elem_of_range.
Qed.
Lemma NoDup_wanting sub tm : NoDup (filter (fun e : string * ManagedTarget => wants sub e.2 = true) (range (tm_targets tm))).*1.
Proof.
  eapply sublist_NoDup; [apply (NoDup_range_fst (tm_targets tm))|]. apply fmap_sublist, sublist_filter.
Qed.
End subs.

(** A created or updated subscription, when its request builds for every
    target that wants it: if one of these targets never connected (its first
    connection failed), the process panics; otherwise each of them has the
    subscription restarted with its new request, live when the target's client
    is open, and the other targets are untouched. *)
Theorem applySubscription_spec `{UnicodeCase} `{GnmiEnums} `{MapOrder} `{SpecJSON} sub cfg tm :
  let sc := with_name sub cfg in
  (forall name mt, tm_targets tm !! name = Some mt -> wants sub mt = true -> exists req, requests tm (mt_Config mt) sc req) ->
  ((exists name mt, tm_targets tm !! name = Some mt /\ wants sub mt = true /\ mt_client mt = NoClient) ->
    applySubscription sub cfg tm = Panic) /\
  ((forall name mt, tm_targets tm !! name = Some mt -> wants sub mt = true -> mt_client mt <> NoClient) ->
    exists tm', applySubscription sub cfg tm = Ok tm' /\ tm_subscriptions tm' = <[sub := sc]> (tm_subscriptions tm) /\
    forall name mt, tm_targets tm !! name = Some mt ->
      if wants sub mt then exists mt' req, tm_targets tm' !! name = Some mt' /\ requests tm (mt_Config mt) sc req /\
        mt_Subscriptions mt' !! sub = Some sc /\ mt_readers mt' !! sub = Some (mkReader req (default [] (sc_Outputs cfg))) /\
        mt_live mt' !! sub = (match mt_client mt with Open => mt_readers mt' !! sub | _ => None end) /\
        (forall other, other <> sub -> mt_live mt' !! other = mt_live mt !! other)
      else tm_targets tm' !! name = Some mt).
Proof.
  intros sc Hreq. unfold applySubscription. fold sc. set (tm1 := set_tm_subs _ tm). split.
  - intros (name & mt & Hm & Hw & Hc). eapply restart_panics; [apply NoDup_wanting|unfold tm1; cbn; by rewrite lookup_insert_eq|..].
    + intros n Hn%elem_of_wanting. destruct Hn as (mt' & Hm' & Hw'). destruct (Hreq n mt' Hm' Hw') as [req Hr]. by exists mt', req.
    + exists name, mt. split; [|done]. apply elem_of_wanting. by exists mt.
  - intros Hcl. destruct (restart_all sub sc (filter (fun e => wants sub e.2 = true) (range (tm_targets tm1))).*1 tm1) as (tm' & Hf & Hs & Ht).
    + apply NoDup_wanting.
    + unfold tm1; cbn. by rewrite lookup_insert_eq.
    + intros n Hn%elem_of_wanting. destruct Hn as (mt' & Hm' & Hw'). destruct (Hreq n mt' Hm' Hw') as [req Hr].
      exists mt', req. split_and!; [done..|by eapply Hcl].
    + exists tm'. split_and!; [done..|]. intros name mt Hm. destruct (Ht name) as [Ht1 Ht2]. destruct (wants sub mt) eqn:Hw.
      * destruct Ht2 as (mt' & req & Hm' & Hr & Ht'); [apply elem_of_wanting; by exists mt|].
        assert (mt' = mt) as -> by (change (tm_targets tm1) with (tm_targets tm) in Hm'; congruence).
        eexists _, req. split; [exact Ht'|]. split; [exact Hr|]. unfold restarted, reading. cbn.
        split_and!; [by rewrite lookup_insert_eq|by rewrite lookup_insert_eq| |].
        -- destruct (mt_client mt); by rewrite ?lookup_insert_eq, ?lookup_delete_eq.
        -- intros o Ho. destruct (mt_client mt); by rewrite ?lookup_insert_ne, ?lookup_delete_ne by done.
      * rewrite Ht1; [done|]. rewrite elem_of_wanting. intros (mt' & Hm' & Hw').
        change (tm_targets tm1) with (tm_targets tm) in Hm'. rewrite Hm in Hm'. injection Hm' as <-. by rewrite Hw in Hw'.
Qed.

(** ** Updates in place *)

Section update.
Context `{UnicodeCase} `{GnmiEnums} `{MapOrder} `{SpecJSON}.

(** What the subscriptions of a target stand for: all when it names none, and
    only those of the store. *)
Definition effective (tm : manager) (c : TargetConfig) : gset string :=
  let l := default [] (tc_Subscriptions c) in (if nilb l then dom (c_subs tm) else list_to_set l) ∩ dom (c_subs tm).

Context (name : string) (tm0 : manager) (mt0 : ManagedTarget).

(** The state while the subscriptions of the target change: [d] are live. *)
Record changing (d : gset string) (tm : manager) : Prop := {
  ch_target : exists mt, tm_targets tm = <[name := mt]> (tm_targets tm0) /\ dom (mt_live mt) = d /\ mt_client mt = Open /\
    mt_Config mt = mt_Config mt0 /\ mt_outputs mt = mt_outputs mt0 /\ mt_eventTags mt = mt_eventTags mt0;
  ch_store : dom (c_subs tm) = dom (c_subs tm0) /\ c_encoding tm = c_encoding tm0 /\ c_outputs tm = c_outputs tm0;
  ch_requests : forall s sc, c_subs tm !! s = Some sc -> exists req, requests tm (mt_Config mt0) (with_name s sc) req
}.

Lemma changing_add d tm sub :
  changing d tm -> exists tm', add_sub name tm sub = Ok tm' /\ changing (d ∪ ({[sub]} ∩ dom (c_subs tm0))) tm'.
Proof.
  intros [(mt & Ht & Hd & Hc & Hcf & Ho & Htg) (Hs & He & Hco) Hr]. unfold add_sub. destruct (c_subs tm !! sub) as [sc|] eqn:Hsub.
  - destruct (Hr sub sc Hsub) as [req Hreq]. set (mt1 := set_mt_applied (mt_applied mt ++ [sub]) mt). set (tm1 := upd _ _ tm).
    assert (tm_targets tm1 = <[name := mt1]> (tm_targets tm0)) as Ht1.
    { unfold tm1, upd; cbn. rewrite Ht. apply map_eq; intros i. destruct (decide (i = name)) as [->|Hn].
      - by rewrite lookup_alter_eq, !lookup_insert_eq.
      - by rewrite lookup_alter_ne, !lookup_insert_ne. }
    rewrite (start_request name (with_name sub sc) req tm1 mt1)
      by first [by rewrite Ht1, lookup_insert_eq|change (mt_Config mt1) with (mt_Config mt); by rewrite Hcf].
    change (mt_client mt1) with (mt_client mt). rewrite Hc. cbn [mbind go_bind]. eexists. split; [done|].
    assert (sub ∈ dom (c_subs tm0)) as Hin by (rewrite <-Hs; by apply elem_of_dom_2 in Hsub).
    split.
    + exists (reading (with_name sub sc) req mt1). rewrite Ht1. cbn. rewrite insert_insert_eq. split_and!; [done| |done..].
      unfold reading. cbn. rewrite Hc. rewrite dom_insert_L, Hd. set_solver.
    + cbn. split_and!; [|done..]. rewrite dom_insert_L, Hs. set_solver.
    + cbn. intros s sc'. destruct (decide (s = sub)) as [->|Hn]; [|rewrite lookup_insert_ne by done; apply Hr].
      rewrite lookup_insert_eq. intros [= <-]. by exists req.
  - exists tm. split; [done|]. assert (sub ∉ dom (c_subs tm0)) as Hin by (rewrite <-Hs; by apply not_elem_of_dom).
    split; [|done..]. exists mt. split_and!; [done| |done..]. rewrite Hd. set_solver.
Qed.

Lemma changing_adds l : forall d tm,
  changing d tm -> exists tm', foldM (add_sub name) l tm = Ok tm' /\ changing (d ∪ (list_to_set l ∩ dom (c_subs tm0))) tm'.
Proof.
  induction l as [|sub l IH]; intros d tm Hc; cbn [foldM].
  - exists tm. split; [done|]. by replace (d ∪ list_to_set [] ∩ dom (c_subs tm0)) with d by (cbn; set_solver).
  - destruct (changing_add d tm sub Hc) as (tm1 & -> & Hc1). cbn [mbind go_bind].
    destruct (IH _ _ Hc1) as (tm' & -> & Hc'). exists tm'. split; [done|].
    replace (d ∪ list_to_set (sub :: l) ∩ dom (c_subs tm0))
      with (d ∪ {[sub]} ∩ dom (c_subs tm0) ∪ list_to_set l ∩ dom (c_subs tm0)) by (cbn; set_solver). done.
Qed.

Lemma upd_insert f mt tm : tm_targets tm = <[name := mt]> (tm_targets tm0) -> tm_targets (upd name f tm) = <[name := f mt]> (tm_targets tm0).
Proof.
  intros Ht. unfold upd; cbn. rewrite Ht. apply map_eq; intros i. destruct (decide (i = name)) as [->|Hn].
  - by rewrite lookup_alter_eq, !lookup_insert_eq.
  - by rewrite lookup_alter_ne, !lookup_insert_ne.
Qed.

Lemma changing_removes l : forall d tm, changing d tm -> changing (d ∖ list_to_set l) (foldl (remove_sub name) tm l).
Proof.
  induction l as [|sub l IH]; intros d tm Hc; cbn [foldl].
  - by replace (d ∖ list_to_set []) with d by (cbn; set_solver).
  - replace (d ∖ list_to_set (sub :: l)) with (d ∖ {[sub]} ∖ list_to_set l) by (cbn; set_solver). apply IH.
    destruct Hc as [(mt & Ht & Hd & Hcl & Hcf & Ho & Htg) Hs Hr].
    split; [|exact Hs|exact Hr]. eexists. split; [by apply upd_insert, (upd_insert (drop_sub_config sub)), (upd_insert (stop_reader sub))|].
    cbn. split_and!; [|done..]. by rewrite dom_delete_L, Hd.
Qed.

Lemma update_subs_run cfg :
  tm_targets tm0 !! name = Some mt0 -> mt_client mt0 = Open -> Some (mt_applied mt0) <> tc_Subscriptions cfg ->
  (forall s sc, c_subs tm0 !! s = Some sc -> exists req, requests tm0 (mt_Config mt0) (with_name s sc) req) ->
  dom (mt_live mt0) = effective tm0 (mt_Config mt0) ->
  exists tm mt, update_subs name cfg mt0 tm0 = Ok tm /\ tm_targets tm = <[name := mt]> (tm_targets tm0) /\ c_outputs tm = c_outputs tm0 /\
    dom (mt_live mt) = effective tm0 cfg /\ mt_Config mt = set_subscriptions (tc_Subscriptions cfg) (mt_Config mt0) /\
    mt_outputs mt = mt_outputs mt0 /\ mt_eventTags mt = mt_eventTags mt0.
Proof.
  intros Hm Hc Ha Hr Hl. unfold update_subs. rewrite bool_decide_false by done.
  set (olds := default [] (tc_Subscriptions (mt_Config mt0))). set (news := default [] (tc_Subscriptions cfg)).
  assert (changing (dom (mt_live mt0)) tm0) as Hch0.
  { split; [|done..]. exists mt0. split_and!; [by rewrite insert_id|done..]. }
  set (all := (range (c_subs tm0)).*1). assert (list_to_set all = dom (c_subs tm0)) as Hall.
  { unfold all. apply set_eq. intros x. rewrite elem_of_list_to_set, elem_of_dom, list_elem_of_fmap. split.
    - intros ([k v] & -> & Hin). apply elem_of_range in Hin. eauto.
    - intros [v Hv]. exists (x, v). by rewrite elem_of_range. }
  unfold compare. set (o := if nilb olds then all else olds). set (n := if nilb news then all else news).
  destruct (changing_adds (filter (fun s => s ∉ o) n) _ _ Hch0) as (tm1 & -> & Hch1). cbn [mbind go_bind].
  apply (changing_removes (filter (fun s => s ∉ n) o)) in Hch1. destruct Hch1 as [(mt & Ht & Hd & _ & Hcf & Ho & Htg) (_ & _ & Hco) _].
  eexists _, _. split; [done|]. split; [by apply upd_insert|]. cbn. split; [done|]. split_and!; [|by rewrite Hcf|done..].
  rewrite Hd, Hl. unfold effective. fold olds news.
  assert ((if nilb olds then dom (c_subs tm0) else list_to_set olds) = list_to_set o) as -> by (unfold o; destruct (nilb olds); [by rewrite Hall|done]).
  assert ((if nilb news then dom (c_subs tm0) else list_to_set news) = list_to_set n) as -> by (unfold n; destruct (nilb news); [by rewrite Hall|done]).
  apply set_eq. intros x. rewrite elem_of_difference, elem_of_union, !elem_of_intersection, !elem_of_list_to_set, !list_elem_of_filter.
  destruct (decide (x ∈ o)), (decide (x ∈ n)); tauto.
Qed.
End update.

(** An update without a new connection takes effect at once: when the live
    subscriptions of a connected target are those its configuration stands for,
    they are after the update those the new one stands for, and no others; its
    outputs, when both configurations name some, are the new ones; and its
    responses get the new event tags. *)
Theorem update_in_place `{UnicodeCase} `{GnmiEnums} `{MapOrder} `{SpecJSON} a name cfg tm mt :
  tm_targets tm !! name = Some mt -> mt_client mt = Open ->
  Equal (mt_Config mt) cfg = false -> shouldReconnect (mt_Config mt) cfg = false ->
  Some (mt_applied mt) <> tc_Subscriptions cfg ->
  (forall s sc, c_subs tm !! s = Some sc -> exists req, requests tm (mt_Config mt) (with_name s sc) req) ->
  dom (mt_live mt) = effective tm (mt_Config mt) ->
  exists tm' mt', apply_target a name cfg tm = Ok tm' /\ tm_targets tm' = <[name := mt']> (tm_targets tm) /\
    dom (mt_live mt') = effective tm cfg /\
    tc_Subscriptions (mt_Config mt') = tc_Subscriptions cfg /\ tc_Outputs (mt_Config mt') = tc_Outputs cfg /\
    (forall old new, tc_Outputs (mt_Config mt) = Some old -> tc_Outputs cfg = Some new -> old <> [] -> new <> [] ->
      mt_outputs mt = list_to_set old -> mt_outputs mt' = list_to_set new) /\
    (forall sub, pipelineMeta name sub (mt_eventTags mt') = pipelineMeta name sub (tc_EventTags cfg)).
Proof.
  intros Hm Hc He Hr Ha Hreq Hl. unfold apply_target. rewrite Hm, He, Hr. cbn [negb].
  destruct (update_subs_run name tm mt cfg Hm Hc Ha Hreq Hl) as (tm1 & mt1 & -> & Ht1 & Hco & Hd1 & Hcf1 & Ho1 & Htg1). cbn [mbind go_bind].
  set (f := fun m => set_mt_config (set_outputs (tc_Outputs cfg) (mt_Config m)) m).
  assert (exists mt2, tm_targets (update_outputs name cfg mt tm1) = <[name := mt2]> (tm_targets tm) /\ mt_live mt2 = mt_live mt1 /\
    mt_eventTags mt2 = mt_eventTags mt1 /\ tc_Subscriptions (mt_Config mt2) = tc_Subscriptions cfg /\ tc_Outputs (mt_Config mt2) = tc_Outputs cfg /\
    (forall old new, tc_Outputs (mt_Config mt) = Some old -> tc_Outputs cfg = Some new -> old <> [] -> new <> [] ->
      mt_outputs mt = list_to_set old -> mt_outputs mt2 = list_to_set new)) as (mt2 & Ht2 & Hl2 & Htg2 & Hs2 & Hou2 & Hnew).
  { unfold update_outputs. case_bool_decide as Hout.
    - exists mt1. split_and!; [done..|by rewrite Hcf1|by rewrite Hcf1; cbn|].
      intros old new Ho Hn _ _ Hmo. rewrite Hout, Hn in Ho. injection Ho as ->. by rewrite Ho1.
    - destruct (compare _ _ _) as [added removed] eqn:Hcmp. eexists. split; [by apply (upd_insert name tm)|]. cbn.
      split_and!; [done..|by rewrite Hcf1|done|]. intros old new Ho Hn Hne1 Hne2 Hmo. rewrite Ho1, Hmo.
      rewrite Ho, Hn in Hcmp. unfold compare in Hcmp. cbn [default from_option] in Hcmp.
      destruct old as [|o1 old]; [done|]. destruct new as [|n1 new]; [done|]. cbn [nilb] in Hcmp. injection Hcmp as <- <-.
      apply set_eq. intros x. rewrite elem_of_difference, elem_of_union, !elem_of_list_to_set, !list_elem_of_filter.
      destruct (decide (x ∈ o1 :: old)), (decide (x ∈ n1 :: new)); tauto. }
  unfold update_tags. destruct (maps_Equal (mt_eventTags mt) (tc_EventTags cfg)) eqn:Htags.
  - eexists _, mt2. split; [done|]. split_and!; [done|by rewrite Hl2|done..|]. intros sub. unfold pipelineMeta.
    apply bool_decide_eq_true in Htags. by rewrite Htg2, Htg1, Htags.
  - eexists _, (setEventTags (tc_EventTags cfg) mt2). split; [done|]. split; [by apply (upd_insert name tm)|].
    cbn. split_and!; [by rewrite Hl2|done..].
Qed.

(** ** Witnesses *)

#[local] Instance json_address : SpecJSON := {| spec_json c := Some (cs_Address c) |}.
#[local] Existing Instance case_ascii.
#[local] Existing Instance proto_enums.
#[local] Existing Instance order_fwd.

Definition empty_manager (subs : gmap string SubscriptionConfig) : manager := mkManager ∅ ∅ ∅ None ∅ subs ∅ None ∅ [] 1.
Definition ex_cfg (address : string) (subs outs : option (list string)) : TargetConfig :=
  set_outputs outs (set_subscriptions subs (mkTargetConfig
    "r1" address None None "" 0 None None None None None "" None None 0 None None None None None None 0 "" "" "" None None None None None None
    None "" "" None None None 0 None None)).
Definition refused : attempt := mkAttempt (Some "connection refused") (inr true) None.
Definition created (a : attempt) (subs : gmap string SubscriptionConfig) (cfg : TargetConfig) : manager :=
  match handle_event a (empty_manager subs) (TargetEvent "r1" Create cfg) with Ok tm => tm | _ => empty_manager subs end.
Definition settled_sub : SubscriptionConfig := ex_sub "STREAM" "SAMPLE" (Some "json").

Lemma failed_is_retried_witness :
  let tm := created refused ∅ (ex_cfg "10.0.0.1" None None) in
  getTargetStateStr "r1" tm = Some StateFailed /\ exists mt, tm_targets tm !! "r1" = Some mt /\ mt_retry mt = true.
Proof.
  split; [by vm_compute|]. eexists. split; [reflexivity|].
  refine (proj1 (proj2 (failed_is_retried (empty_manager ∅) (created refused ∅ (ex_cfg "10.0.0.1" None None)) "r1" _ eq_refl _ eq_refl eq_refl))).
  apply rtc_once. by apply (step_event refused (TargetEvent "r1" Create (ex_cfg "10.0.0.1" None None))).
Defined.

(** Both the address and the outputs change. *)
Lemma reconnect_keeps_outputs_witness :
  let tm := created reachable_device ∅ (ex_cfg "10.0.0.1" None (Some ["o1"])) in
  exists tm' mt', apply_target reachable_device "r1" (ex_cfg "10.0.0.2" None (Some ["o2"])) tm = Ok tm' /\
    tm_targets tm' !! "r1" = Some mt' /\ tc_Outputs (mt_Config mt') = Some ["o2"] /\ mt_outputs mt' = {["o1"]}.
Proof.
  cbv zeta. set (tm := created _ _ _).
  destruct (is_ok_some (apply_target reachable_device "r1" (ex_cfg "10.0.0.2" None (Some ["o2"])) tm)) as [tm' Ht]; [by vm_compute|].
  destruct (tm_targets tm !! "r1") as [mt|] eqn:Hm; [|by vm_compute in Hm].
  destruct (reconnect_keeps_outputs reachable_device "r1" (ex_cfg "10.0.0.2" None (Some ["o2"])) tm mt tm') as (mt' & Hm' & Hc & Ho & _);
    [exact Hm|vm_compute in Hm; injection Hm as <-; by vm_compute|vm_compute in Hm; injection Hm as <-; by vm_compute|exact Ht|].
  exists tm', mt'. split_and!; [exact Ht|exact Hm'|by rewrite Hc|]. rewrite Ho. vm_compute in Hm. by injection Hm as <-.
Defined.

(** A subscription for a target whose first connection failed. *)
Lemma applySubscription_spec_witness :
  applySubscription "sub1" settled_sub (created refused ∅ (ex_cfg "10.0.0.1" None None)) = Panic.
Proof.
  refine (proj1 (applySubscription_spec "sub1" settled_sub (created refused ∅ (ex_cfg "10.0.0.1" None None)) _) _).
  - intros name mt Hm _. assert (name = "r1") as ->.
    { destruct (decide (name = "r1")) as [|Hn]; [done|]. exfalso.
      assert (tm_targets (created refused ∅ (ex_cfg "10.0.0.1" None None)) !! name = None) as Hnone; [|by rewrite Hnone in Hm].
      apply not_elem_of_dom. assert (dom (tm_targets (created refused ∅ (ex_cfg "10.0.0.1" None None))) = {["r1"]}) as -> by (by vm_compute).
      by apply not_elem_of_singleton. }
    vm_compute in Hm. injection Hm as <-. eexists. by vm_compute.
  - eexists "r1", _. split; [reflexivity|]. by vm_compute.
Defined.

(** One subscription replaced by another. *)
Lemma update_in_place_witness :
  let tm := created reachable_device {["s1" := settled_sub; "s2" := settled_sub]} (ex_cfg "10.0.0.1" (Some ["s1"]) None) in
  exists tm' mt', apply_target reachable_device "r1" (ex_cfg "10.0.0.1" (Some ["s2"]) None) tm = Ok tm' /\
    tm_targets tm' !! "r1" = Some mt' /\ dom (mt_live mt') = {["s2"]}.
Proof.
  cbv zeta. set (tm := created _ _ _). destruct (tm_targets tm !! "r1") as [mt|] eqn:Hm; [|by vm_compute in Hm].
  destruct (update_in_place reachable_device "r1" (ex_cfg "10.0.0.1" (Some ["s2"]) None) tm mt) as (tm' & mt' & Ht & Hm' & Hd & _).
  - exact Hm.
  - vm_compute in Hm. by injection Hm as <-.
  - vm_compute in Hm. injection Hm as <-. by vm_compute.
  - vm_compute in Hm. injection Hm as <-. by vm_compute.
  - vm_compute in Hm. by injection Hm as <-.
  - intros s sc Hs. assert (exists req, requests tm (ex_cfg "10.0.0.1" (Some ["s1"]) None) (with_name "s1" settled_sub) req /\
      requests tm (ex_cfg "10.0.0.1" (Some ["s1"]) None) (with_name "s2" settled_sub) req) as (req & Hr1 & Hr2)
      by (eexists; split; vm_compute; reflexivity).
    assert (c_subs tm = {["s1" := with_name "s1" settled_sub; "s2" := settled_sub]}) as Hcs by (by vm_compute).
    rewrite Hcs in Hs. apply lookup_insert_Some in Hs as [[<- <-]|[_ Hs]].
    + exists req. vm_compute in Hm. injection Hm as <-. exact Hr1.
    + apply lookup_singleton_Some in Hs as [<- <-]. exists req. vm_compute in Hm. injection Hm as <-. exact Hr2.
  - vm_compute in Hm. injection Hm as <-. by vm_compute.
  - exists tm', mt'. split_and!; [exact Ht|by rewrite Hm', lookup_insert_eq|]. rewrite Hd. by vm_compute.
Defined.

(** Naming the subscriptions that were attached to a target that named none is
    ignored: the target still takes every new subscription. *)
Example explicit_list_ignored :
  let tm := match handle_event reachable_device (empty_manager ∅) (SubscriptionEvent "s1" Create settled_sub) with
            | Ok tm => match apply_target reachable_device "r1" (ex_cfg "10.0.0.1" None None) tm with
                       | Ok tm => match apply_target reachable_device "r1" (ex_cfg "10.0.0.1" (Some ["s1"]) None) tm with Ok tm => tm | _ => tm end
                       | _ => tm end
            | _ => empty_manager ∅ end in
  (wants "s2" <$> tm_targets tm !! "r1") = Some true.
Proof. by vm_compute. Qed.

(** A target that lost its lock is Failed without a retry. *)
Example lost_lock_not_retried :
  let tm := keepLock_error "r1" "session lost" (created reachable_device ∅ (ex_cfg "10.0.0.1" None None)) in
  getTargetStateStr "r1" tm = Some StateFailed /\ (mt_retry <$> tm_targets tm !! "r1") = Some false.
Proof. by vm_compute. Qed.
