(* ===== verification/GnmiServer.v ===== *)
(** * The gNMI server (pkg/gnmiserver, pkg/collector/api/gnmi/unary.go,
      pkg/utils/gnmi_notifications.go)

    The server answers Get and Subscribe from a cache of what the targets sent,
    Get requests of the origin [gnmic] from the configuration, and hands Set
    requests on to targets. The cache, the targets and the stream to the client
    are arguments. *)

From stdpp Require Import strings sorting.
From S2P Require Import Targets.
From S2P Require Import Prelude GoStrings Utf8 Path GoVal Text Event Target Subscribe TextProc.

#[local] Open Scope Z_scope.

(** ** Configurations as notifications (utils/gnmi_notifications.go) *)

(** [gnmi.Encoding] *)
Definition Encoding_JSON : Z := 0.
Definition Encoding_BYTES : Z := 1.
Definition Encoding_PROTO : Z := 2.
Definition Encoding_ASCII : Z := 3.
Definition Encoding_JSON_IETF : Z := 4.

(** [Duration.String], the JSON of a subscription, and the clock. *)
Class ServerEnv : Type := {
  dur_String : Z -> string;
  sub_json : SubscriptionConfig -> option string;
  now_unix : Z
}.

Section notifications.
Context `{ServerEnv} `{TargetJSON}.

Definition key_path (elem name : string) : GPath := mkGPath "gnmic" [mkPathElem elem (Some {["name" := name]})] "".
Definition elem_update (elem : string) (v : TypedValue) : Update := mkUpdate (Some (mkGPath "" [mkPathElem elem None] "")) (Some v).

(** A leaf of each field that is set; [leaf] is the kind of value. The
    encodings BYTES and ASCII have a copy each in the code. *)
Definition opt_update (elem : string) (leaf : string -> TypedValue) (v : option string) : list Update :=
  match v with Some s => [elem_update elem (leaf s)] | None => [] end.
Definition nonempty_update (elem : string) (leaf : string -> TypedValue) (v : option string) (text : string) : list Update :=
  match v with None | Some "" => [] | Some _ => [elem_update elem (leaf text)] end.
Definition list_update (elem : string) (leaf : string -> TypedValue) (l : option (list string)) : list Update :=
  match default [] l with [] => [] | l => [elem_update elem (LeaflistVal (leaf <$> l))] end.
Definition leaf_updates (leaf : string -> TypedValue) (tc : TargetConfig) : list Update :=
  elem_update "address" (leaf (tc_Address tc))
  :: opt_update "username" leaf (tc_Username tc)
  ++ opt_update "insecure" leaf (format_bool <$> tc_Insecure tc)
  ++ opt_update "skip-verify" leaf (format_bool <$> tc_SkipVerify tc)
  ++ [elem_update "timeout" (leaf (dur_String (tc_Timeout tc)))]
  ++ nonempty_update "tls-ca" leaf (tc_TLSCA tc) (TLSCAString tc)
  ++ nonempty_update "tls-cert" leaf (tc_TLSCert tc) (TLSCertString tc)
  ++ nonempty_update "tls-key" leaf (tc_TLSKey tc) (TLSKeyString tc)
  ++ list_update "outputs" leaf (tc_Outputs tc)
  ++ list_update "subscriptions" leaf (tc_Subscriptions tc).
Definition leaf_notification (leaf : string -> TypedValue) (tc : TargetConfig) : Notification :=
  mkNotification now_unix (Some (key_path "target" (tc_Name tc))) (leaf_updates leaf tc) [].

Definition TargetConfigToNotification (next : Z) (tc : TargetConfig) (e : Z) : option Notification :=
  if (e =? Encoding_JSON) || (e =? Encoding_JSON_IETF) then
    Some (mkNotification now_unix None
      [mkUpdate (Some (key_path "target" (tc_Name tc))) (Some (JsonVal (default "" (target_json (RedactedDeepCopy next tc)))))] [])
  else if e =? Encoding_BYTES then Some (leaf_notification BytesVal tc)
  else if e =? Encoding_ASCII then Some (leaf_notification AsciiVal tc)
  else None.

Definition SubscriptionConfigToNotification (sub : SubscriptionConfig) (e : Z) : option Notification :=
  if (e =? Encoding_JSON) || (e =? Encoding_JSON_IETF) then
    Some (mkNotification now_unix None
      [mkUpdate (Some (key_path "subscriptions" (sc_Name sub))) (Some (JsonVal (default "" (sub_json sub))))] [])
  else None.
End notifications.

(** ** Get of the configuration (collector/api/gnmi/unary.go) *)

(** [codes.Code] of the status returned; the last is an error of the context. *)
Inductive status := InvalidArgument | Unimplemented | Internal | NotFound | CtxDone.

(** A value of the store; the other types are passed over. *)
Inductive stored (A : Type) := Stored (a : A) | OtherType.
#[global] Arguments Stored {A}. #[global] Arguments OtherType {A}.
Definition stored_value {A} (v : stored A) : option A := match v with Stored a => Some a | OtherType => None end.

(** [sort.Slice] by name: a sorted list of the same elements, in an order of its
    own where names are equal. *)
Class SortByName : Type := {
  sort_by_name : forall {A}, (A -> string) -> list A -> list A;
  sort_by_name_perm : forall {A} (f : A -> string) l, sort_by_name f l ≡ₚ l;
  sort_by_name_sorted : forall {A} (f : A -> string) l, Sorted String.le (f <$> sort_by_name f l)
}.

Definition set_tc_Name (name : string) (tc : TargetConfig) : TargetConfig := mkTargetConfig
  name (tc_Address tc) (tc_Username tc) (tc_Password tc) (tc_AuthScheme tc) (tc_Timeout tc)
  (tc_Insecure tc) (tc_TLSCA tc) (tc_TLSCert tc) (tc_TLSKey tc) (tc_SkipVerify tc) (tc_TLSServerName tc)
  (tc_Subscriptions tc) (tc_Outputs tc) (tc_BufferSize tc) (tc_GRPCReadBufferSize tc) (tc_GRPCWriteBufferSize tc)
  (tc_GRPCConnWindowSize tc) (tc_GRPCWindowSize tc) (tc_GRPCStaticConnWindowSize tc) (tc_GRPCStaticStreamWindowSize
  tc) (tc_RetryTimer tc) (tc_TLSMinVersion tc) (tc_TLSMaxVersion tc) (tc_TLSVersion tc) (tc_LogTLSSecret tc)
  (tc_ProtoFiles tc) (tc_ProtoDirs tc) (tc_Tags tc) (tc_EventTags tc) (tc_Gzip tc) (tc_Token tc) (tc_Proxy
  tc) (tc_TunnelTargetType tc) (tc_Encoding tc) (tc_Metadata tc) (tc_CipherSuites tc) (tc_TCPKeepalive tc)
  (tc_GRPCKeepalive tc) (tc_TLSReload tc).

Record server_store := mkServerStore {
  ss_targets : option (gmap string (stored TargetConfig));
  ss_subscriptions : option (gmap string (stored SubscriptionConfig))
}.

Section internal_get.
Context `{ServerEnv} `{TargetJSON} `{MapOrder} `{SortByName}.

(** [List] of the store fails when the table is [None]. *)
Definition named_values {A} (name_of : A -> string) (set_name : string -> A -> A) (vs : gmap string (stored A)) : list A :=
  sort_by_name name_of (omap (fun kv : string * stored A =>
    a ← stored_value kv.2; Some (if String.eqb (name_of a) "" then set_name kv.1 a else a)) (range vs)).
Definition listTargetConfigs (s : server_store) : go status (list TargetConfig) :=
  match ss_targets s with None => Err Internal | Some vs => Ok (named_values tc_Name set_tc_Name vs) end.
Definition listSubscriptionConfigs (s : server_store) : go status (list SubscriptionConfig) :=
  match ss_subscriptions s with None => Err Internal | Some vs => Ok (named_values sc_Name with_name vs) end.

(** The values an element selects: all, or those of the name its key gives. *)
Definition selected {A} (name_of : A -> string) (e : PathElem) (l : list A) : list A :=
  match gm_get (pe_Key e) "name" with
  | Some name => filter (fun a => name_of a = name) l
  | None => l
  end.
Definition notify {A} (f : A -> option Notification) (l : list A) : go status (list Notification) :=
  mapE (fun a => match f a with Some n => Ok n | None => Err Unimplemented end) l.

Definition handleInternalGetElem (next : Z) (s : server_store) (enc : Z) (e : PathElem) : go status (list Notification) :=
  if String.eqb (pe_Name e) "targets" then
    tcs ← listTargetConfigs s; notify (fun tc => TargetConfigToNotification next tc enc) (selected tc_Name e tcs)
  else if String.eqb (pe_Name e) "subscriptions" then
    subs ← listSubscriptionConfigs s; notify (fun sub => SubscriptionConfigToNotification sub enc) (selected sc_Name e subs)
  else Err InvalidArgument.
Definition handleInternalGetPath (next : Z) (s : server_store) (elems : list PathElem) (enc : Z) : go status (list Notification) :=
  foldM (fun ns e => ns' ← handleInternalGetElem next s enc e; Ok (ns ++ ns')) elems [].

(** [expired n]: the context is over when the n-th path is looked at. *)
Definition handleInternalGet (next : Z) (expired : nat -> bool) (s : server_store) (prefix : option GPath) (paths : list (option GPath))
    (enc : Z) : go status (list Notification) :=
  foldM (fun ns (ip : nat * option GPath) =>
    if expired ip.1 then Err CtxDone
    else ns' ← handleInternalGetPath next s (PathElems prefix ip.2) enc; Ok (ns ++ ns')) (imap pair paths) [].
End internal_get.

(** ** Get from the cache (gnmiserver/unary.go) *)

(** [p.GetOrigin()] and the like of a pointer that may be nil. *)
Definition getOrigin (p : option GPath) : string := from_option p_Origin "" p.
Definition getTarget (p : option GPath) : string := from_option p_Target "" p.

Definition mergedGetPath (prefix p : option GPath) : GPath :=
  mkGPath (if String.eqb (getOrigin p) "" then getOrigin prefix else getOrigin p) (getElem prefix ++ getElem p) "".

Section get.
Context `{MapOrder}.

(** The caches of the subscriptions in the order of their names. *)
Definition cached (notifs : gmap string (list Notification)) : list Notification :=
  mjoin ((fun sub => default [] (notifs !! sub)) <$> sort_strings (range notifs).*1).

(** One read of the cache; [expired n]: the context is over at the n-th read. *)
Definition get_read (read : string -> GPath -> option (gmap string (list Notification))) (expired : nat -> bool)
    (acc : list Notification) (q : nat * (string * GPath)) : go status (list Notification) :=
  if expired q.1 then Err CtxDone
  else match read q.2.1 q.2.2 with None => Err Internal | Some notifs => Ok (acc ++ cached notifs) end.
Definition get_targets (targetName : string) : list string :=
  if String.eqb targetName "" || String.eqb targetName "*" then ["*"] else Split targetName ",".

Definition handlers_Get (cache : option (string -> GPath -> option (gmap string (list Notification)))) (expired : nat -> bool)
    (internalGet : option (go status (list Notification))) (prefix : option GPath) (paths : list (option GPath))
    : go status (list Notification) :=
  match paths, prefix with
  | [], None => Err InvalidArgument
  | _, _ =>
      let origins := getOrigin <$> paths in
      if bool_decide ("gnmic" ∈ origins) then
        if bool_decide (Forall (fun o => o = "gnmic") origins) then
          match internalGet with None => Err Unimplemented | Some r => r end
        else Err InvalidArgument
      else match cache with
      | None => Err Unimplemented
      | Some read =>
          let paths := if nilb paths then [Some (mkGPath "" [] "")] else paths in
          let reads := mjoin ((fun p => (fun tn => (tn, mergedGetPath prefix p)) <$> get_targets (getTarget prefix)) <$> paths) in
          foldM (get_read read expired) (imap pair reads) []
      end
  end.
End get.

(** ** The targets of a request (collector/api/gnmi/unary.go) *)

(** A connection: of a managed target, or dialled for the request; the number
    tells the dials of a request apart. *)
Inductive conn := Managed (name : string) | Dialled (n : nat) (tc : TargetConfig).
Record selection := mkSelection { sl_targets : gmap string conn; sl_temp : list conn }.

Section select.
Context `{MapOrder}.

(** [createTemporaryTarget]; [dial] is the outcome of the n-th dial. *)
Definition createTemporaryTarget (dial : nat -> TargetConfig -> bool) (n : nat) (tc : TargetConfig) : option conn :=
  if negb (String.eqb (tc_TunnelTargetType tc) "") then None else if dial n tc then Some (Dialled n tc) else None.

(** Errors carry the connections [cleanup] closes. *)
Definition select_dial (dial : nat -> TargetConfig -> bool) (sl : selection) (name : string) (tc : TargetConfig) : go (list conn) selection :=
  match createTemporaryTarget dial (length (sl_temp sl)) tc with
  | None => Err (sl_temp sl)
  | Some t => Ok (mkSelection (<[name := t]> (sl_targets sl)) (sl_temp sl ++ [t]))
  end.

Definition select_config (dial : nat -> TargetConfig -> bool) (managed : gset string) (sl : selection) (kv : string * stored TargetConfig)
    : go (list conn) selection :=
  if bool_decide (kv.1 ∈ managed) then Ok (mkSelection (<[kv.1 := Managed kv.1]> (sl_targets sl)) (sl_temp sl))
  else match stored_value kv.2 with None => Ok sl | Some tc => select_dial dial sl kv.1 tc end.

Definition name_matches (name n : string) : bool := String.eqb n name || String.eqb (GetHost n) name.
Definition select_managed (name : string) (managed : list string) (m : gmap string conn) : gmap string conn :=
  foldl (fun m n => if name_matches name n then <[n := Managed n]> m else m) m managed.
(** The first configuration of that name in the order of the map. *)
Fixpoint first_config (name : string) (l : list (string * stored TargetConfig)) : option (string * TargetConfig) :=
  match l with
  | [] => None
  | (n, v) :: l => if name_matches name n then match stored_value v with Some tc => Some (n, tc) | None => first_config name l end
                   else first_config name l
  end.
Definition select_name (dial : nat -> TargetConfig -> bool) (managed : list string) (cfgs : option (gmap string (stored TargetConfig)))
    (sl : selection) (name : string) : go (list conn) selection :=
  if existsb (name_matches name) managed then Ok (mkSelection (select_managed name managed (sl_targets sl)) (sl_temp sl))
  else match cfgs with
  | None => Err (sl_temp sl)
  | Some cfgs => match first_config name (range cfgs) with
                 | None => Ok sl
                 | Some (n, tc) => select_dial dial sl n tc
                 end
  end.

Definition selectTargets (dial : nat -> TargetConfig -> bool) (managed : gset string) (cfgs : option (gmap string (stored TargetConfig)))
    (tn : string) : go (list conn) selection :=
  if String.eqb tn "" || String.eqb tn "*" then
    match cfgs with
    | None => Err []
    | Some cfgs => foldM (select_config dial managed) (range cfgs) (mkSelection ∅ [])
    end
  else foldM (select_name dial (elements managed) cfgs) (Split tn ",") (mkSelection ∅ []).
End select.

(** ** Set, handed on to the targets (gnmiserver/unary.go) *)

(** The prefix of the copy of the request that a target gets. *)
Definition set_prefix (name : string) (prefix : option GPath) : GPath :=
  let p := default (mkGPath "" [] "") prefix in
  if String.eqb (p_Target p) "" || String.eqb (p_Target p) "*" then mkGPath (p_Origin p) (p_Elem p) name else p.
(** The path of a result, with the target when the device left it out. *)
Definition set_result_path (name : string) (path : option GPath) : GPath :=
  let p := default (mkGPath "" [] "") path in
  if String.eqb (p_Target p) "" then mkGPath (p_Origin p) (p_Elem p) name else p.

(** The goroutines of one request: what each target still has to hand over, or
    its error, and the one that gathers. *)
Inductive worker := Sending (results : list GPath) | Failing | Finished.
#[local] Instance elem_eq_dec : EqDecision PathElem.
Proof. solve_decision. Defined.
#[local] Instance path_eq_dec : EqDecision GPath.
Proof. solve_decision. Defined.
#[local] Instance worker_eq_dec : EqDecision worker.
Proof. solve_decision. Defined.
Record set_state := mkSetState {
  st_workers : list worker;
  st_errors : nat;
  st_got : list GPath;
  st_gathering : bool;
  st_closed : bool;
  st_done : bool;
  st_cancelled : bool
}.
Definition set_started (answers : list (option (list GPath))) : set_state :=
  mkSetState ((fun a => match a with Some l => Sending l | None => Failing end) <$> answers) 0 [] true false false false.

Inductive set_step : set_state -> set_state -> Prop :=
| set_handover i r rs s : st_workers s !! i = Some (Sending (r :: rs)) -> st_gathering s = true ->
    set_step s (mkSetState (<[i := Sending rs]> (st_workers s)) (st_errors s) (st_got s ++ [r]) true (st_closed s) (st_done s) (st_cancelled s))
| set_sent i s : st_workers s !! i = Some (Sending []) ->
    set_step s (mkSetState (<[i := Finished]> (st_workers s)) (st_errors s) (st_got s) (st_gathering s) (st_closed s) (st_done s) (st_cancelled s))
| set_fail i s : st_workers s !! i = Some Failing ->
    set_step s (mkSetState (<[i := Finished]> (st_workers s)) (S (st_errors s)) (st_got s) (st_gathering s) (st_closed s) (st_done s) (st_cancelled s))
| set_close s : Forall (eq Finished) (st_workers s) -> st_closed s = false ->
    set_step s (mkSetState (st_workers s) (st_errors s) (st_got s) (st_gathering s) true (st_done s) (st_cancelled s))
| set_gathered s : st_closed s = true -> st_gathering s = true ->
    set_step s (mkSetState (st_workers s) (st_errors s) (st_got s) false true true (st_cancelled s))
| set_cancel s : st_cancelled s = false ->
    set_step s (mkSetState (st_workers s) (st_errors s) (st_got s) (st_gathering s) (st_closed s) (st_done s) true)
| set_leave s : st_cancelled s = true -> st_gathering s = true ->
    set_step s (mkSetState (st_workers s) (st_errors s) (st_got s) false (st_closed s) (st_done s) true).

(** The handler can answer: with an error of a target, or once the results are
    gathered. *)
Definition set_answers (s : set_state) : bool := st_closed s && ((0 <? st_errors s)%nat || st_done s).

(** ** Subscribe (gnmiserver/subscribe.go) *)

Definition mergedPath (prefix : option GPath) (p : option GPath) : GPath :=
  mkGPath (getOrigin prefix) (getElem prefix ++ getElem p) (getTarget prefix).

Inductive ReadMode := ReadMode_Once | ReadMode_StreamOnChange | ReadMode_StreamSample.
Record ReadOpts := mkReadOpts {
  ro_Target : string; ro_Paths : list GPath; ro_Mode : ReadMode; ro_SampleInterval : Z; ro_HeartbeatInterval : Z;
  ro_SuppressRedundant : bool; ro_UpdatesOnly : bool }.
Record server_config := mkServerConfig { DefaultSampleInterval : Z; MinSampleInterval : Z; MinHeartbeatInterval : Z }.
(** A subscription of the request; the intervals are [uint64]. *)
Record sub_item := mkSubItem { si_Path : option GPath; si_Sample : bool; si_SampleInterval : Z; si_HeartbeatInterval : Z; si_SuppressRedundant : bool }.

Definition heartbeat_of (c : server_config) (h : Z) : Z :=
  let h := int64 h in if (0 <? h) && (h <? MinHeartbeatInterval c) then MinHeartbeatInterval c else h.
Definition period_of (c : server_config) (p : Z) : Z :=
  let p := int64 p in if p =? 0 then DefaultSampleInterval c else if p <? MinSampleInterval c then MinSampleInterval c else p.
Definition streamReadOpts (c : server_config) (target : string) (prefix : option GPath) (sub : sub_item) : ReadOpts :=
  let paths := [mergedPath prefix (si_Path sub)] in
  let heartbeat := heartbeat_of c (si_HeartbeatInterval sub) in
  if si_Sample sub then
    mkReadOpts target paths ReadMode_StreamSample (period_of c (si_SampleInterval sub)) heartbeat (si_SuppressRedundant sub) false
  else mkReadOpts target paths ReadMode_StreamOnChange 0 heartbeat false false.

Definition set_read (mode : ReadMode) (updatesOnly : bool) (ro : ReadOpts) : ReadOpts :=
  mkReadOpts (ro_Target ro) (ro_Paths ro) mode (ro_SampleInterval ro) (ro_HeartbeatInterval ro) (ro_SuppressRedundant ro) updatesOnly.

(** A message to the client, and what ends a subscription. *)
Inductive message := MUpdate (n : Notification) | MSync.
Inductive sub_error := CacheError | SendError | Unsupported | RecvError | NotPoll.
(** What the stream has taken, and how many messages it takes still. *)
Record client := mkClient { cl_sent : list message; cl_takes : nat }.
Definition send (m : message) (c : client) : sub_error + client :=
  match cl_takes c with O => inl SendError | S n => inr (mkClient (cl_sent c ++ [m]) n) end.

(** The loop over a one-time read: the client after it, and the error. *)
Fixpoint send_all (l : list (option Notification)) (c : client) : option sub_error * client :=
  match l with
  | [] => (None, c)
  | None :: _ => (Some CacheError, c)
  | Some n :: l => match send (MUpdate n) c with inl e => (Some e, c) | inr c => send_all l c end
  end.

(** The target that is read, and the prefix the paths are joined to. *)
Definition sub_target (prefix : option GPath) : string := if String.eqb (getTarget prefix) "" then "*" else getTarget prefix.
Definition sub_prefix (prefix : option GPath) : GPath :=
  let p := default (mkGPath "" [] "") prefix in if String.eqb (p_Target p) "" then mkGPath (p_Origin p) (p_Elem p) "*" else p.

Section subscribe.
(** A one-time read of the cache: notifications, or an error at the end. *)
Context (read_once : ReadOpts -> list (option Notification)).

Definition once_opts (prefix : option GPath) (subs : list sub_item) (updatesOnly : bool) : ReadOpts :=
  mkReadOpts (sub_target prefix) ((fun s => mergedPath (Some (sub_prefix prefix)) (si_Path s)) <$> subs) ReadMode_Once 0 0 false updatesOnly.
(** [handleONCESubscriptionRequest] and the sync response, which is sent also
    after an error: what goes to the channel of errors, in order. *)
Definition once_and_sync (ro : ReadOpts) (c : client) : list sub_error * client :=
  let '(e, c) := send_all (read_once ro) c in
  let '(e', c) := match send MSync c with inl e' => (Some e', c) | inr c => (None, c) end in
  (option_list e ++ option_list e', c).

(** The reads before the stream: each list item once, in order. *)
Fixpoint initial_reads (ros : list ReadOpts) (c : client) : option sub_error * client :=
  match ros with
  | [] => (None, c)
  | ro :: ros =>
      match send_all (read_once (set_read ReadMode_Once (ro_UpdatesOnly ro) ro)) c with
      | (None, c) => initial_reads ros c
      | r => r
      end
  end.
(** [handleStreamSubscriptionRequest] up to the start of the streams: the error
    that ends it, or the options of the streams. *)
Definition stream_sync (cfg : server_config) (prefix : option GPath) (subs : list sub_item) (updatesOnly : bool) (c : client)
    : (sub_error + list ReadOpts) * client :=
  let ros := (fun s => let ro := streamReadOpts cfg (sub_target prefix) (Some (sub_prefix prefix)) s in set_read (ro_Mode ro) updatesOnly ro) <$> subs in
  let '(e, c) := if updatesOnly then (None, c) else initial_reads ros c in
  match e with
  | Some e => (inl e, c)
  | None =>
      let ros := if updatesOnly then ros else (fun ro => set_read (ro_Mode ro) true ro) <$> ros in
      match send MSync c with inl e => (inl e, c) | inr c => (inr ros, c) end
  end.

(** What the client of a polled subscription sends. *)
Inductive poll_request := PollAgain | PollOther | PollEOF | PollFailed.
Fixpoint handlePolled (ro : ReadOpts) (reqs : list poll_request) (c : client) : list sub_error * client :=
  match reqs with
  | [] | PollEOF :: _ | PollFailed :: _ => ([RecvError], c)
  | PollOther :: _ => ([NotPoll], c)
  | PollAgain :: reqs =>
      let '(es, c) := once_and_sync ro c in
      let '(es', c) := handlePolled ro reqs c in (es ++ es', c)
  end.
Definition handlePolledSubscription (ro : ReadOpts) (reqs : list poll_request) (c : client) : list sub_error * client :=
  let '(es, c) := once_and_sync ro c in let '(es', c) := handlePolled ro reqs c in (es ++ es', c).
End subscribe.

(** ** What the notifications say, and what they hide *)

Section notification_lemmas.
Context `{ServerEnv} `{TargetJSON}.

Lemma DeepCopy_redacted next tc : redacted (DeepCopy next tc) = DeepCopy next (redacted tc).
Proof. by destruct tc. Qed.

(** What a client of the server learns of a target does not depend on its
    password or token. Two configurations that differ in nothing but the text
    of these give the same notification, in every encoding. *)
Theorem notification_hides_secrets next tc p1 p2 t1 t2 e :
  TargetConfigToNotification next (with_secrets (Some p1) (Some t1) tc) e
  = TargetConfigToNotification next (with_secrets (Some p2) (Some t2) tc) e.
Proof. unfold TargetConfigToNotification, RedactedDeepCopy. rewrite !DeepCopy_redacted. by destruct tc. Qed.

Lemma notification_supported next tc e :
  is_Some (TargetConfigToNotification next tc e) <-> e ∈ [Encoding_JSON; Encoding_BYTES; Encoding_ASCII; Encoding_JSON_IETF].
Proof.
  unfold TargetConfigToNotification, Encoding_JSON, Encoding_BYTES, Encoding_ASCII, Encoding_JSON_IETF.
  rewrite !elem_of_cons, elem_of_nil. zcases; cbn; split; try (by eauto); intros Hs; try (by destruct Hs); lia.
Qed.
End notification_lemmas.

Section internal_get_lemmas.
Context `{ServerEnv} `{TargetJSON} `{MapOrder} `{SortByName}.

Lemma named_values_elem {A} (name_of : A -> string) set_name (vs : gmap string (stored A)) a :
  a ∈ named_values name_of set_name vs <->
  exists k b, vs !! k = Some (Stored b) /\ a = if String.eqb (name_of b) "" then set_name k b else b.
Proof.
  unfold named_values. rewrite sort_by_name_perm, list_elem_of_omap. split.
  - intros ([k v] & Hk%elem_of_range & Hv). destruct v as [b|]; [|done]. injection Hv as <-. by exists k, b.
  - intros (k & b & Hk & ->). exists (k, Stored b). split; [by apply elem_of_range|done].
Qed.

Lemma selected_elem {A} (name_of : A -> string) e l a :
  a ∈ selected name_of e l <-> a ∈ l /\ forall name, gm_get (pe_Key e) "name" = Some name -> name_of a = name.
Proof.
  unfold selected. destruct (gm_get (pe_Key e) "name") as [name|]; [|naive_solver].
  rewrite list_elem_of_filter. naive_solver.
Qed.

(** The configurations an element selects. *)
Definition wanted (e : PathElem) (vs : gmap string (stored TargetConfig)) (tc : TargetConfig) : Prop :=
  (exists k b, vs !! k = Some (Stored b) /\ tc = if String.eqb (tc_Name b) "" then set_tc_Name k b else b)
  /\ forall name, gm_get (pe_Key e) "name" = Some name -> tc_Name tc = name.

(** The answer to an element [targets] of a Get of the configuration, when
    the store can be read: a notification for each configuration of the name
    asked for, or for each when none is, in the order of the names and whatever
    the order of the store; unless the encoding is none the server has and
    there is something to encode, which is the only error. *)
Theorem internal_get_targets next s enc e vs :
  pe_Name e = "targets" -> ss_targets s = Some vs ->
  exists tcs, (forall tc, tc ∈ tcs <-> wanted e vs tc) /\ Sorted String.le (tc_Name <$> named_values tc_Name set_tc_Name vs)
    /\ tcs `sublist_of` named_values tc_Name set_tc_Name vs
    /\ match handleInternalGetElem next s enc e with
       | Ok ns => Forall2 (fun tc n => TargetConfigToNotification next tc enc = Some n) tcs ns
       | Err c => c = Unimplemented /\ tcs <> [] /\ enc ∉ [Encoding_JSON; Encoding_BYTES; Encoding_ASCII; Encoding_JSON_IETF]
       | Panic => False
       end.
Proof.
  intros Hn Hs. exists (selected tc_Name e (named_values tc_Name set_tc_Name vs)). split_and!.
  - intros tc. by rewrite selected_elem, named_values_elem.
  - apply sort_by_name_sorted.
  - unfold selected. case_match; [|done]. apply sublist_filter.
  - unfold handleInternalGetElem, listTargetConfigs. rewrite Hn, Hs. cbn [String.eqb Ascii.eqb Bool.eqb mbind go_bind].
    change (String.eqb "targets" "targets") with true. cbn [mbind go_bind].
    set (tcs := selected _ _ _). unfold notify. destruct (mapE _ tcs) as [ns|c|] eqn:Hm.
    + apply mapE_ok in Hm. eapply Forall2_impl; [exact Hm|]. intros tc n. cbn. by destruct (TargetConfigToNotification _ _ _); intros [= <-].
    + destruct tcs as [|tc tcs]; [done|]. cbn in Hm.
      assert (Hnone : TargetConfigToNotification next tc enc = None /\ c = Unimplemented).
      { destruct (TargetConfigToNotification next tc enc) as [n|] eqn:E; [|by injection Hm]. exfalso.
        assert (Hall : forall l, exists ns, mapE (fun tc => match TargetConfigToNotification next tc enc with Some n => Ok n | None => Err Unimplemented end) l = Ok ns).
        { assert (Hsup : enc ∈ [Encoding_JSON; Encoding_BYTES; Encoding_ASCII; Encoding_JSON_IETF]) by (eapply notification_supported; eauto).
          induction l as [|tc' l [ns Hl]]; cbn; [eauto|]. pose proof (proj2 (notification_supported next tc' enc) Hsup) as [n' Hn2].
          cbn. rewrite Hn2. cbn. rewrite Hl. cbn. eauto. }
        destruct (Hall tcs) as [ns Hns]. cbn in Hm. by rewrite Hns in Hm. }
      destruct Hnone as [Hnone ->]. split_and!; [done|done|]. intros Hin. apply (notification_supported next tc) in Hin as [n Hn']. congruence.
    + exfalso. clear -Hm. induction tcs as [|tc tcs IH]; [done|]. cbn in Hm.
      destruct (TargetConfigToNotification next tc enc); [|done]. cbn in Hm. by destruct (mapE _ tcs).
Qed.
End internal_get_lemmas.

(** ** The bounds of a stream's intervals *)

Lemma int64_low z : 0 <= z < 2 ^ 63 -> int64 z = z.
Proof. intros Hz. apply wrap_id. apply in_kind_spec. unfold kind_min, kind_max. cbn. lia. Qed.
Lemma int64_high z : 2 ^ 63 <= z < 2 ^ 64 -> int64 z = z - 2 ^ 64.
Proof.
  intros Hz. unfold wrap, wrap_s. cbn [kind_signed kind_bits].
  replace (z + 2 ^ (64 - 1)) with ((z - 2 ^ 63) + 1 * 2 ^ 64) by lia. rewrite Z.mod_add, Z.mod_small by lia. lia.
Qed.

(** The intervals the server uses, for the 64 unsigned bits a client sends.
    A sample interval is the default one when it is zero and never under the
    minimum otherwise; a heartbeat is zero, or at least the minimum, unless it
    has the highest bit, where it becomes negative and is used as it is. *)
Theorem stream_intervals c target prefix sub :
  0 <= si_SampleInterval sub < 2 ^ 64 -> 0 <= si_HeartbeatInterval sub < 2 ^ 64 -> 0 <= MinSampleInterval c -> 0 <= MinHeartbeatInterval c ->
  let ro := streamReadOpts c target prefix sub in
  let p := si_SampleInterval sub in let h := si_HeartbeatInterval sub in
  ro_SampleInterval ro =
    (if si_Sample sub then if p =? 0 then DefaultSampleInterval c else if p <? 2 ^ 63 then Z.max (MinSampleInterval c) p else MinSampleInterval c
     else 0)
  /\ ro_HeartbeatInterval ro = (if h =? 0 then 0 else if h <? 2 ^ 63 then Z.max (MinHeartbeatInterval c) h else h - 2 ^ 64).
Proof.
  intros Hp Hh Hms Hmh ro p h.
  assert (Hper : period_of c p = if p =? 0 then DefaultSampleInterval c else if p <? 2 ^ 63 then Z.max (MinSampleInterval c) p else MinSampleInterval c).
  { unfold period_of. fold p in Hp. destruct (Z.ltb_spec p (2 ^ 63)).
    - rewrite int64_low by lia. zcases; lia.
    - rewrite int64_high by lia. zcases; lia. }
  assert (Hhb : heartbeat_of c h = if h =? 0 then 0 else if h <? 2 ^ 63 then Z.max (MinHeartbeatInterval c) h else h - 2 ^ 64).
  { unfold heartbeat_of. fold h in Hh. destruct (Z.ltb_spec h (2 ^ 63)).
    - rewrite int64_low by lia. zcases; cbn; lia.
    - rewrite int64_high by lia. zcases; cbn; lia. }
  unfold ro, streamReadOpts. fold p h. destruct (si_Sample sub); cbn; by rewrite ?Hper, Hhb.
Qed.

(** ** Reading the cache *)

Section get_lemmas.
Lemma cached_det `{o1 : MapOrder} (o2 : MapOrder) notifs : cached (H := o1) notifs = cached (H := o2) notifs.
Proof.
  unfold cached. rewrite (sort_strings_det (range (MapOrder := o1) notifs).*1 (range (MapOrder := o2) notifs).*1); [done|].
  by rewrite !range_perm.
Qed.

Lemma get_reads `{MapOrder} read expired l acc ns :
  foldM (get_read read expired) l acc = Ok ns ->
  exists answers, Forall2 (fun q a => expired q.1 = false /\ read q.2.1 q.2.2 = Some a) l answers /\ ns = acc ++ mjoin (cached <$> answers).
Proof.
  revert acc. induction l as [|q l IH]; intros acc; cbn; [intros [= <-]; exists []; split; [constructor|by rewrite app_nil_r]|].
  change (get_read read expired acc q) with
    (if expired q.1 then Err CtxDone else match read q.2.1 q.2.2 with None => Err Internal | Some a => Ok (acc ++ cached a) end : go status (list Notification)).
  destruct (expired q.1) eqn:He; [done|]. destruct (read q.2.1 q.2.2) as [a|] eqn:Hr; [|done]. cbn.
  intros (answers & Hf & ->)%IH. exists (a :: answers). split; [by constructor|]. cbn. by rewrite app_assoc.
Qed.

(** A Get that is answered from the cache. Its notifications are those of
    one read for each path and each target asked for, the paths in the order of
    the request and the targets in theirs within a path, and the subscriptions
    of a read in the order of their names: no order of a map shows. A read has
    the elements of the prefix before those of the path, and the origin of the
    path or else of the prefix. *)
Theorem get_from_cache `{o : MapOrder} read expired internalGet prefix paths ns :
  "gnmic" ∉ getOrigin <$> paths ->
  handlers_Get (Some read) expired internalGet prefix paths = Ok ns ->
  let paths := if nilb paths then [Some (mkGPath "" [] "")] else paths in
  let reads := mjoin ((fun p => (fun tn => (tn, mergedGetPath prefix p)) <$> get_targets (getTarget prefix)) <$> paths) in
  exists answers, Forall2 (fun q a => read q.1 q.2 = Some a) reads answers
    /\ forall o' : MapOrder, ns = mjoin (cached (H := o') <$> answers).
Proof.
  intros Hg Hget. unfold handlers_Get in Hget.
  assert (Hr : foldM (get_read read expired) (imap pair
      (mjoin ((fun p => (fun tn => (tn, mergedGetPath prefix p)) <$> get_targets (getTarget prefix)) <$> (if nilb paths then [Some (mkGPath "" [] "")] else paths)))) [] = Ok ns).
  { destruct paths as [|p paths]; [destruct prefix; [|done]|]; cbn [nilb] in *; by rewrite bool_decide_eq_false_2 in Hget by done. }
  clear Hget. intros paths' reads. fold paths' reads in Hr. apply get_reads in Hr as (answers & Hf & ->). exists answers. split.
  - clear -Hf. revert answers Hf. generalize 0%nat as n, reads as l. intros n l. unfold imap.
    assert (Hm : forall (f : nat -> nat) answers, Forall2 (fun (q : nat * (string * GPath)) a => expired q.1 = false /\ read q.2.1 q.2.2 = Some a) (imap (fun i x => (f i, x)) l) answers ->
      Forall2 (fun q a => read q.1 q.2 = Some a) l answers).
    { induction l as [|q l IH]; intros f answers Hf; [by inversion Hf|]. rewrite imap_cons in Hf. inversion Hf as [|? a ? as' [_ Ha] Hf']; subst.
      constructor; [done|]. by apply (IH (f ∘ S)). }
    intros answers. apply (Hm id).
  - intros o'. cbn. f_equal. apply list_fmap_ext. intros i a _. apply cached_det.
Qed.
End get_lemmas.

(** ** The connections of a selection *)

Section select_lemmas.
Context `{MapOrder} (dial : nat -> TargetConfig -> bool).

(** The connections dialled so far are numbered in order, and the selected
    targets are managed ones or among them. *)
Definition numbered (l : list conn) : Prop := forall i t, l !! i = Some t -> exists tc, t = Dialled i tc /\ dial i tc = true /\ tc_TunnelTargetType tc = "".
Definition sound (managed : gset string) (sl : selection) : Prop :=
  numbered (sl_temp sl) /\ map_Forall (fun n t => (t = Managed n /\ n ∈ managed) \/ t ∈ sl_temp sl) (sl_targets sl).

Lemma select_dial_sound managed sl name tc r :
  sound managed sl -> select_dial dial sl name tc = r ->
  match r with Ok sl' => sound managed sl' | Err l => numbered l | Panic => False end.
Proof.
  intros [Hn Hm] <-. unfold select_dial, createTemporaryTarget. destruct (negb _) eqn:Et; [done|].
  destruct (dial _ tc) eqn:Ed; [|done]. split; cbn.
  - intros i t Hi. apply lookup_app_Some in Hi as [Hi|[Hle Hi]]; [by apply Hn|].
    destruct (i - length (sl_temp sl))%nat eqn:E; [|done]. assert (i = length (sl_temp sl)) as -> by lia. injection Hi as <-.
    exists tc. split_and!; [done|done|]. by apply negb_false_iff, String.eqb_eq in Et.
  - apply map_Forall_insert_2; [right; apply elem_of_app; right; by left|].
    eapply map_Forall_impl; [exact Hm|]. intros n t [?|?]; [by left|right; apply elem_of_app; by left].
Qed.

Lemma foldM_sound {A} managed (f : selection -> A -> go (list conn) selection) l sl :
  (forall sl a, a ∈ l -> sound managed sl -> match f sl a with Ok sl' => sound managed sl' | Err l => numbered l | Panic => False end) ->
  sound managed sl -> match foldM f l sl with Ok sl' => sound managed sl' | Err l => numbered l | Panic => False end.
Proof.
  revert sl. induction l as [|a l IH]; intros sl Hf Hs; cbn; [done|].
  pose proof (Hf sl a ltac:(by left) Hs) as Ha. destruct (f sl a) as [sl'| |]; cbn; [|done..].
  apply IH; [|done]. intros sl0 a0 Hin. apply Hf. by right.
Qed.

Lemma select_managed_lookup name managed m n t :
  select_managed name managed m !! n = Some t ->
  (n ∈ managed /\ name_matches name n = true /\ t = Managed n) \/ m !! n = Some t.
Proof.
  unfold select_managed. revert m. induction managed as [|x managed IH]; intros m; cbn; [by right|].
  intros [(Hin & Hm & ->)|Hl]%IH; [left; split_and!; [by right|done..]|].
  destruct (name_matches name x) eqn:Hx; [|by right].
  destruct (decide (x = n)) as [->|]; [rewrite lookup_insert_eq in Hl; injection Hl as <-; left; split_and!; [by left|done..]|].
  rewrite lookup_insert_ne in Hl by done. by right.
Qed.

(** The connections of a request are neither lost nor shared. The ones that
    are dialled are numbered from zero; when the selection fails all of them
    are closed, and else all are handed to the caller's clean-up; a selected
    target is a managed one, which is not closed, or one of them. A target
    behind a tunnel is never dialled. *)
Theorem selectTargets_sound managed cfgs tn :
  match selectTargets dial managed cfgs tn with
  | Ok sl => sound managed sl
  | Err closed => numbered closed
  | Panic => False
  end.
Proof.
  assert (H0 : sound managed (mkSelection ∅ [])) by (split; [by intros ? ?|apply map_Forall_empty]).
  unfold selectTargets. destruct (_ || _).
  - destruct cfgs as [cfgs|]; [|by intros ? ?]. apply foldM_sound; [|done].
    intros sl [n v] _ [Hn Hm]. unfold select_config. cbn. case_bool_decide as Hin.
    + split; cbn; [done|]. apply map_Forall_insert_2; [by left|done].
    + destruct (stored_value v) as [tc|]; [|done]. by apply (select_dial_sound managed sl n tc).
  - apply foldM_sound; [|done]. intros sl name _ Hs. pose proof Hs as [Hn Hm]. unfold select_name. destruct (existsb _ _).
    + split; cbn; [done|]. intros n t [(Hin & _ & ->)|Hl]%select_managed_lookup; [|by apply Hm].
      left. split; [done|]. by apply elem_of_elements.
    + destruct cfgs as [cfgs|]; [|done]. destruct (first_config _ _) as [[n tc]|]; [|done]. by apply (select_dial_sound managed sl n tc).
Qed.
End select_lemmas.

(** ** The results of a Set *)

Definition out (w : worker) : list GPath := match w with Sending l => l | _ => [] end.
Definition pending (ws : list worker) : list GPath := mjoin (out <$> ws).
#[local] Arguments pending : simpl never.
Definition results (answers : list (option (list GPath))) : list GPath := mjoin (default [] <$> answers).

Lemma set_pending_insert ws i w w' : ws !! i = Some w -> out w ++ pending (<[i := w']> ws) ≡ₚ out w' ++ pending ws.
Proof.
  unfold pending. revert i. induction ws as [|x ws IH]; intros [|i]; cbn; [done|done| |].
  - intros [= ->]. apply Permutation_app_swap_app.
  - intros Hi%IH. rewrite Permutation_app_swap_app, Hi. apply Permutation_app_swap_app.
Qed.
Lemma pending_finished ws : Forall (eq Finished) ws -> pending ws = [].
Proof. induction 1 as [|w ws <- _ IH]; [done|]. exact IH. Qed.
Lemma pending_started answers : pending (st_workers (set_started answers)) = results answers.
Proof.
  unfold pending, results. cbn [st_workers set_started]. rewrite <-list_fmap_compose. f_equal.
  apply list_fmap_ext. by intros _ [l|] _.
Qed.

Definition set_inv (answers : list (option (list GPath))) (s : set_state) : Prop :=
  st_got s ++ pending (st_workers s) ≡ₚ results answers
  /\ (st_closed s = true -> Forall (eq Finished) (st_workers s))
  /\ (st_done s = true -> st_closed s = true /\ st_gathering s = false)
  /\ (st_gathering s = false -> st_done s = true \/ st_cancelled s = true).

Lemma finished_at ws i w : Forall (eq Finished) ws -> ws !! i = Some w -> w = Finished.
Proof. intros Hf Hi. symmetry. by apply (Forall_lookup_1 _ _ _ _ Hf Hi). Qed.

Lemma elem_insert {A} (x y : A) (i : nat) (l : list A) : x ∈ <[i := y]> l -> x = y \/ x ∈ l.
Proof.
  intros (j & Hj)%list_elem_of_lookup. apply list_lookup_insert_Some in Hj as [(_ & -> & _)|[_ Hj]]; [by left|right].
  by eapply list_elem_of_lookup_2.
Qed.

Lemma set_inv_step answers s s' : set_inv answers s -> set_step s s' -> set_inv answers s'.
Proof.
  intros (Hp & Hc & Hd & Hg) Hs. destruct Hs as [i r rs s Hi Hga|i s Hi|i s Hi|s Hall Hcl|s Hcl Hga|s Hca|s Hca Hga];
    unfold set_inv in *; cbn in *; split_and!; try done; try tauto; try (intros; congruence).
  - pose proof (set_pending_insert _ _ _ (Sending rs) Hi) as He. cbn in He.
    rewrite <-app_assoc. cbn. rewrite <-Hp. apply Permutation_app_head.
    apply (Permutation_app_inv_l rs). rewrite <-He. by rewrite Permutation_middle.
  - intros Hcl. by pose proof (finished_at _ _ _ (Hc Hcl) Hi).
  - intros Hdn. destruct (Hd Hdn). congruence.
  - pose proof (set_pending_insert _ _ _ Finished Hi) as He. cbn in He. by rewrite He.
  - intros Hcl. by pose proof (finished_at _ _ _ (Hc Hcl) Hi).
  - pose proof (set_pending_insert _ _ _ Finished Hi) as He. cbn in He. by rewrite He.
  - intros Hcl. by pose proof (finished_at _ _ _ (Hc Hcl) Hi).
Qed.

Lemma set_inv_reachable answers s : rtc set_step (set_started answers) s -> set_inv answers s.
Proof.
  intros Hr. assert (Hs : set_inv answers (set_started answers)).
  { split_and!; [|done..]. rewrite pending_started. done. }
  revert Hs. induction Hr as [s|s s1 s2 Hs _ IH]; [done|]. intros Hi. apply IH. by eapply set_inv_step.
Qed.

(** What is left to do. *)
Definition load (w : worker) : nat := match w with Sending l => S (length l) | Failing => 1 | Finished => 0 end.
#[local] Arguments load : simpl never.
Lemma load_insert ws i w w' : ws !! i = Some w -> (sum_list_with load (<[i := w']> ws) + load w = sum_list_with load ws + load w')%nat.
Proof.
  revert i. induction ws as [|x ws IH]; intros [|i]; cbn; [done|done|intros [= ->]; lia|]. intros Hi%IH. rewrite <-!Nat.add_assoc. f_equal. exact Hi.
Qed.

Lemma set_finishes answers s :
  set_inv answers s -> st_gathering s = true -> exists s', rtc set_step s s' /\ set_answers s' = true.
Proof.
  remember (sum_list_with load (st_workers s)) as n eqn:Hn. revert s Hn. induction n as [n IH] using lt_wf_ind. intros s -> Hi Hg.
  assert (Hgo : forall s1 i w w', st_workers s !! i = Some w -> st_workers s1 = <[i := w']> (st_workers s) -> (load w' < load w)%nat ->
    set_step s s1 -> st_gathering s1 = true -> exists s', rtc set_step s s' /\ set_answers s' = true).
  { intros s1 i w w' Hw Hws Hl Hs Hg1. destruct (IH (sum_list_with load (st_workers s1))) with (s := s1) as (s' & Hr & Ha); [|done|by eapply set_inv_step|done|].
    - rewrite Hws. pose proof (load_insert _ _ _ w' Hw). lia.
    - exists s'. split; [by eapply rtc_l|done]. }
  destruct (decide (Forall (eq Finished) (st_workers s))) as [Hall|Hall].
  - destruct (st_closed s) eqn:Hc.
    + eexists. split; [apply rtc_once, set_gathered; done|]. unfold set_answers. cbn. by rewrite orb_true_r.
    + eexists. split; [eapply rtc_l; [by apply set_close|]; apply rtc_once, set_gathered; done|]. unfold set_answers. cbn. by rewrite orb_true_r.
  - apply not_Forall_Exists, Exists_exists in Hall as (w & Hin & Hw); [|apply _]. apply list_elem_of_lookup in Hin as (i & Hin).
    destruct w as [[|r rs]| |]; [| | |done].
    + refine (Hgo _ i _ Finished Hin _ _ (set_sent i s Hin) _); [reflexivity|unfold load; cbn; lia|done].
    + refine (Hgo _ i _ (Sending rs) Hin _ _ (set_handover i r rs s Hin Hg) _); [reflexivity|unfold load; cbn; lia|done].
    + refine (Hgo _ i _ Finished Hin _ _ (set_fail i s Hin) _); [reflexivity|unfold load; cbn; lia|done].
Qed.

(** C26: The results of a Set, in every interleaving of the goroutines. An answer
    without an error has all the results of all targets, each once. As long as
    the gathering goroutine runs the handler can come to an answer. *)
Theorem set_gathers answers s :
  rtc set_step (set_started answers) s ->
  (set_answers s = true -> st_errors s = 0%nat -> st_got s ≡ₚ results answers)
  /\ (st_gathering s = true -> exists s', rtc set_step s s' /\ set_answers s' = true).
Proof.
  intros Hi%set_inv_reachable. split; [|by apply (set_finishes answers)].
  intros Ha He. destruct Hi as (Hp & Hc & Hd & _). unfold set_answers in Ha. rewrite He in Ha. cbn in Ha.
  apply andb_true_iff in Ha as [Hcl _]. rewrite pending_finished, app_nil_r in Hp by auto. done.
Qed.

(** The gathering goroutine leaves when the context of the request ends,
    also when results are still handed over or all are. From then on the
    handler never answers, unless a target failed: it waits for a goroutine
    that waits for a reader, or for the sign that all was gathered. *)
Theorem set_hangs s s' :
  st_gathering s = false -> st_done s = false -> st_errors s = 0%nat -> Failing ∉ st_workers s ->
  rtc set_step s s' -> set_answers s' = false.
Proof.
  intros Hg Hd He Hf Hr. induction Hr as [s|s s1 s2 Hs _ IH]; [unfold set_answers; rewrite He, Hd; apply andb_false_r|].
  apply IH; destruct Hs as [i r rs s Hi Hga|i s Hi|i s Hi|s Hall Hcl|s Hcl Hga|s Hca|s Hca Hga]; cbn in *; try done; try congruence.
  - by apply list_elem_of_lookup_2 in Hi.
  - by intros [Hin|Hin]%elem_insert.
  - by intros [Hin|Hin]%elem_insert.
Qed.

(** One target with one result, and the client gone while it was sent. *)
Lemma set_hangs_witness :
  let s := mkSetState [Sending [mkGPath "" [] ""]] 0 [] false false false true in
  rtc set_step (set_started [Some [mkGPath "" [] ""]]) s /\ set_answers s = false.
Proof.
  cbn zeta. split.
  - eapply rtc_l; [apply set_cancel; reflexivity|]. apply rtc_once. apply (set_leave (mkSetState _ 0 [] true false false true)); reflexivity.
  - refine (set_hangs (mkSetState [Sending [mkGPath "" [] ""]] 0 [] false false false true) _ eq_refl eq_refl eq_refl _ (rtc_refl _ _)). intros [E|E]%elem_of_cons; [discriminate E|by apply not_elem_of_nil in E].
Defined.

Lemma set_gathers_witness :
  let p := mkGPath "" [mkPathElem "a" None] "r1" in
  let s := mkSetState [Finished] 0 [p] false true true false in
  rtc set_step (set_started [Some [p]]) s /\ set_answers s = true /\ st_got s ≡ₚ results [Some [p]].
Proof.
  cbn zeta. set (p := mkGPath "" [mkPathElem "a" None] "r1").
  assert (Hr : rtc set_step (set_started [Some [p]]) (mkSetState [Finished] 0 [p] false true true false)).
  { eapply rtc_l; [apply (set_handover 0 p []); reflexivity|]. eapply rtc_l; [apply (set_sent 0); reflexivity|].
    eapply rtc_l; [apply set_close; [repeat constructor|reflexivity]|]. apply rtc_once.
    apply (set_gathered (mkSetState [Finished] 0 [p] true true false false)); reflexivity. }
  split; [exact Hr|]. split; [reflexivity|]. exact (proj1 (set_gathers _ _ Hr) eq_refl eq_refl).
Defined.

(** The target in the prefix a device gets with its copy of a Set: its own
    name, when the request names no target or all of them; a request that names
    several keeps its list. *)
Lemma set_prefix_target name prefix :
  p_Target (set_prefix name prefix) = if bool_decide (getTarget prefix ∈ [""; "*"]) then name else getTarget prefix.
Proof.
  unfold set_prefix, getTarget. destruct prefix as [p|]; cbn; [|by rewrite bool_decide_eq_true_2 by left].
  destruct (String.eqb_spec (p_Target p) ""), (String.eqb_spec (p_Target p) "*"); cbn; case_bool_decide as Hin; set_solver.
Qed.
Example list_kept : p_Target (set_prefix "r1" (Some (mkGPath "" [] "r1,r2"))) = "r1,r2".
Proof. reflexivity. Qed.

(** ** The messages of a subscription *)

Section subscribe_lemmas.
Context (read_once : ReadOpts -> list (option Notification)).

(** What a loop over a read sends: updates; all of them when it ends well. *)
Lemma send_all_sent l c e c' : send_all l c = (e, c') ->
  exists ns, cl_sent c' = cl_sent c ++ (MUpdate <$> ns) /\ (e = None -> l = Some <$> ns).
Proof.
  revert c. induction l as [|[n|] l IH]; intros c; cbn.
  - intros [= <- <-]. exists []. split; [by rewrite app_nil_r|done].
  - unfold send. destruct (cl_takes c); [intros [= <- <-]; exists []; split; [by rewrite app_nil_r|done]|].
    intros (ns & Hs & Hl)%IH. exists (n :: ns). split; [rewrite Hs; cbn; by rewrite <-app_assoc|]. intros He. cbn. by rewrite (Hl He).
  - intros [= <- <-]. exists []. split; [by rewrite app_nil_r|done].
Qed.

Definition reads_of (ros : list ReadOpts) (nss : list (list Notification)) : Prop :=
  Forall2 (fun ro ns => read_once (set_read ReadMode_Once (ro_UpdatesOnly ro) ro) = Some <$> ns) ros nss.
Lemma initial_reads_sent ros c e c' : initial_reads read_once ros c = (e, c') ->
  exists ns, cl_sent c' = cl_sent c ++ (MUpdate <$> ns) /\ (e = None -> exists nss, reads_of ros nss /\ ns = mjoin nss).
Proof.
  revert c. induction ros as [|ro ros IH]; intros c; cbn.
  - intros [= <- <-]. exists []. split; [by rewrite app_nil_r|]. intros _. exists []. split; [constructor|done].
  - destruct (send_all _ c) as [[e1|] c1] eqn:Es; apply send_all_sent in Es as (ns1 & Hs1 & Hl1).
    + intros [= <- <-]. exists ns1. split; [done|done].
    + intros (ns & Hs & Hn)%IH. exists (ns1 ++ ns). split; [by rewrite Hs, Hs1, fmap_app, app_assoc|].
      intros He. destruct (Hn He) as (nss & Hr & ->). exists (ns1 :: nss). split; [|done]. constructor; [by apply Hl1|done].
Qed.

(** The start of a streamed subscription. Before the stream the client gets
    the current state, each item of the list in order, and then the sync
    response; the sync response alone when it asked for updates only. The
    streams that follow do not repeat the state and have the mode and intervals
    of their items. When a read or a message fails there is no sync response,
    and what was sent is updates. *)
Theorem stream_sync_spec cfg prefix subs updatesOnly c r c' :
  stream_sync read_once cfg prefix subs updatesOnly c = (r, c') ->
  let opts := streamReadOpts cfg (sub_target prefix) (Some (sub_prefix prefix)) <$> subs in
  match r with
  | inr ros => ros = (fun ro => set_read (ro_Mode ro) true ro) <$> opts /\
      (if updatesOnly then cl_sent c' = cl_sent c ++ [MSync]
       else exists nss, reads_of opts nss /\ cl_sent c' = cl_sent c ++ (MUpdate <$> mjoin nss) ++ [MSync])
  | inl _ => exists ns, cl_sent c' = cl_sent c ++ (MUpdate <$> ns)
  end.
Proof.
  unfold stream_sync. cbn zeta. set (opts := streamReadOpts cfg _ _ <$> subs).
  set (ros := _ <$> subs). assert (Hros : ros = (fun ro => set_read (ro_Mode ro) updatesOnly ro) <$> opts).
  { unfold ros, opts. by rewrite <-list_fmap_compose. }
  assert (Hfalse : updatesOnly = false -> ros = opts).
  { intros ->. rewrite Hros. rewrite <-(list_fmap_id opts) at 2. apply list_fmap_ext. intros i ro Hro.
    unfold opts in Hro. apply list_lookup_fmap_Some in Hro as (s & -> & _).
    unfold streamReadOpts. by destruct (si_Sample s). }
  destruct updatesOnly.
  - unfold send. destruct (cl_takes c); intros [= <- <-]; [exists []; by rewrite app_nil_r|done].
  - rewrite Hfalse by done. destruct (initial_reads read_once opts c) as [e c1] eqn:Ei. apply initial_reads_sent in Ei as (ns & Hs & Hn).
    destruct e as [e|]; [intros [= <- <-]; by exists ns|]. destruct (Hn eq_refl) as (nss & Hr & ->).
    unfold send. destruct (cl_takes c1); intros [= <- <-]; [by exists (mjoin nss)|]. split; [done|].
    exists nss. split; [done|]. cbn. by rewrite Hs, app_assoc.
Qed.
End subscribe_lemmas.

(** A one-time subscription is said to be in sync also after a failed read. *)
Example sync_after_error : once_and_sync (fun _ => [None]) (once_opts None [] false) (mkClient [] 5) = ([CacheError], mkClient [MSync] 4).
Proof. reflexivity. Qed.

(** The origin of a subscription's own path is dropped; a Get keeps it. *)
Example origin_dropped :
  let p := Some (mkGPath "openconfig" [mkPathElem "interfaces" None] "") in
  p_Origin (mergedPath None p) = "" /\ p_Origin (mergedGetPath None p) = "openconfig".
Proof. done. Qed.

Lemma stream_sync_spec_witness :
  let n := mkNotification 7 None [] [] in
  let item := mkSubItem (Some (mkGPath "" [mkPathElem "a" None] "")) true 0 0 false in
  let cfg := mkServerConfig 10 1 1 in
  exists ros c', stream_sync (fun _ => [Some n]) cfg None [item] false (mkClient [] 5) = (inr ros, c')
    /\ exists nss, cl_sent c' = [] ++ (MUpdate <$> mjoin nss) ++ [MSync].
Proof.
  cbn zeta. eexists _, _. split; [reflexivity|].
  destruct (stream_sync_spec (fun _ => [Some (mkNotification 7 None [] [])]) (mkServerConfig 10 1 1) None
    [mkSubItem (Some (mkGPath "" [mkPathElem "a" None] "")) true 0 0 false] false (mkClient [] 5) _ _ eq_refl) as [_ (nss & _ & Hs)].
  exists nss. exact Hs.
Defined.

Lemma stream_intervals_witness :
  ro_SampleInterval (streamReadOpts (mkServerConfig 10 5 7) "*" None (mkSubItem None true 3 2 false)) = 5 /\
  ro_HeartbeatInterval (streamReadOpts (mkServerConfig 10 5 7) "*" None (mkSubItem None true 3 2 false)) = 7.
Proof.
  exact (stream_intervals (mkServerConfig 10 5 7) "*" None (mkSubItem None true 3 2 false)
    ltac:(cbn; lia) ltac:(cbn; lia) ltac:(cbn; lia) ltac:(cbn; lia)).
Defined.
Example heartbeat_wraps : ro_HeartbeatInterval (streamReadOpts (mkServerConfig 10 5 7) "*" None (mkSubItem None true 0 (2 ^ 64 - 1) false)) = -1.
Proof. reflexivity. Qed.

(** ** A configuration to read *)

Definition server_env : ServerEnv := {| dur_String := itoa; sub_json _ := None; now_unix := 7 |}.
Definition target_text : TargetJSON := {| target_json tc := Some (tc_Name tc +:+ default "" (tc_Password tc)) |}.
Definition insertion_sort : SortByName.
Proof.
  refine {| sort_by_name A f l := merge_sort (fun a b => String.le (f a) (f b)) l |}.
  - intros A f l. apply merge_sort_Permutation.
  - intros A f l. assert (Total (fun a b => String.le (f a) (f b))) by (intros a b; apply (total String.le)).
    pose proof (Sorted_merge_sort (fun a b => String.le (f a) (f b)) l) as Hs.
    induction Hs as [|a l' Hs IH Hh]; cbn; [constructor|]. constructor; [exact IH|]. destruct Hh; cbn; by constructor.
Defined.

Lemma get_from_cache_witness :
  let n := mkNotification 7 None [] [] in
  let read := fun (_ : string) (_ : GPath) => Some {["s1" := [n]]} in
  exists answers : list (gmap string (list Notification)), handlers_Get (H := order_fwd) (Some read) (fun _ => false) None None [Some (mkGPath "" [] "")] = Ok [n]
    /\ [n] = mjoin (cached (H := order_bwd) <$> answers).
Proof.
  cbn zeta.
  assert (Hg : handlers_Get (H := order_fwd) (Some (fun _ _ => Some {["s1" := [mkNotification 7 None [] []]]})) (fun _ => false) None None [Some (mkGPath "" [] "")]
    = Ok [mkNotification 7 None [] []]) by (vm_compute; reflexivity).
  assert (Ho : "gnmic" ∉ getOrigin <$> [Some (mkGPath "" [] "")]) by (refine (bool_decide_unpack _ _); vm_compute; exact I).
  destruct (get_from_cache (o := order_fwd) _ (fun _ => false) None None [Some (mkGPath "" [] "")] _ Ho Hg) as (answers & _ & Hall).
  exists answers. split; [exact Hg|]. exact (Hall order_bwd).
Defined.

Definition one_target : gmap string (stored TargetConfig) := {["r1" := Stored (named_target "" None)]}.
Lemma internal_get_targets_witness :
  let e := mkPathElem "targets" None in
  exists tc n, handleInternalGetElem (H := server_env) (H0 := target_text) (H1 := order_fwd) (H2 := insertion_sort) 0
      (mkServerStore (Some one_target) None) Encoding_JSON e = Ok [n]
    /\ wanted e one_target tc /\ TargetConfigToNotification (H := server_env) (H0 := target_text) 0 tc Encoding_JSON = Some n.
Proof.
  cbn zeta. set (e := mkPathElem "targets" None).
  destruct (internal_get_targets (H := server_env) (H0 := target_text) (H1 := order_fwd) (H2 := insertion_sort) 0
    (mkServerStore (Some one_target) None) Encoding_JSON e one_target eq_refl eq_refl) as (tcs & Hw & _ & _ & Hm).
  destruct (handleInternalGetElem (H := server_env) (H0 := target_text) (H1 := order_fwd) (H2 := insertion_sort) 0
    (mkServerStore (Some one_target) None) Encoding_JSON e) as [[|n [|n' ns]]| |] eqn:Hh; try (vm_compute in Hh; discriminate Hh).
  destruct tcs as [|tc tcs]; [apply Forall2_length in Hm; discriminate Hm|]. exists tc, n. split; [reflexivity|]. split.
  - apply Hw. left.
  - apply Forall2_cons in Hm as [Hm _]. exact Hm.
Defined.
