(* ===== verification/Formats.v ===== *)
(** * Output formats (pkg/formatters: msg.go, json.go, flat.go, formats.go)

    A protobuf message becomes bytes in the format of [MarshalOptions]: the
    structures of msg.go given to the JSON encoder, the events of a
    notification, or one line per leaf ("flat"). The messages belong to the
    caller and to every other output: [Marshal] returns the message as it
    leaves it next to the bytes.

    The JSON encoder (over the structure tags), the encoders of protobuf, the
    names of the gNMI enumerations and the descriptors of registered
    extensions are parameters ([FormatEnv]); [now] is the clock: its first reading is
    that of override-timestamps, the others are times of reception.
    A nil byte slice is the empty string, a nil slice of elements the empty
    list (as protobuf decodes it); a message is [None] when the interface is
    nil. *)

From stdpp Require Import strings gmap sorting.
From S2P Require Import Prelude GoStrings GoVal Path Event Tags Messages.

#[local] Open Scope Z_scope.

(** ** The structures of msg.go *)

Definition decodedExtension : Type := gmap string any.
Definition decodedExtensions : Type := gmap Z decodedExtension.

Record syncResponseMsg := mkSyncMsg {
  sm_SyncResponse : bool; sm_Extensions : list extension; sm_DecodedExtensions : decodedExtensions }.
(** One path and its value. *)
Record update := mkUpd { u_Path : string; u_Values : gmap string any }.
(** Times are nanoseconds, [None] for a nil pointer. *)
Record notificationRspMsg := mkNotifMsg {
  nr_Source : string; nr_SystemName : string; nr_SubscriptionName : string;
  nr_Timestamp : Z; nr_Time : option Z; nr_RecvTimestamp : Z; nr_RecvTime : option Z;
  nr_LatencyNano : Z; nr_LatencyMilli : Z; nr_Prefix : string; nr_Target : string;
  nr_Updates : list update; nr_Deletes : list string;
  nr_Extensions : list extension; nr_DecodedExtensions : decodedExtensions }.
Record model := mkModel { m_Name : string; m_Organization : string; m_Version : string }.
Record capResponse := mkCapResponse {
  cp_Version : string; cp_SupportedModels : list model; cp_Encodings : list string; cp_Extensions : list extension }.
Record getRqMsg := mkGetRq {
  gq_Prefix : string; gq_Target : string; gq_Paths : list string; gq_Encoding : string; gq_DataType : string;
  gq_Models : list model; gq_Extensions : list extension }.
Record getRspMsg := mkGetRspMsg {
  gs_Notifications : list notificationRspMsg; gs_Extensions : list extension; gs_DecodedExtensions : decodedExtensions }.
Record updateResultMsg := mkUpdResMsg { ur_Operation : string; ur_Path : string; ur_Target : string }.
Record setRspMsg := mkSetRspMsg {
  st_Source : string; st_Timestamp : Z; st_Time : Z; st_Prefix : string; st_Target : string;
  st_Results : list updateResultMsg; st_Extensions : list extension; st_DecodedExtensions : decodedExtensions }.
Record updateMsg := mkUpdateMsg { um_Path : string; um_Val : string }.
Record setReqMsg := mkSetReqMsg {
  sq_Prefix : string; sq_Target : string; sq_Delete : list string; sq_Replace : list updateMsg;
  sq_Update : list updateMsg; sq_Extensions : list extension }.
Record subscription := mkSub {
  sb_Path : string; sb_Mode : string; sb_SampleInterval : Z; sb_SuppressRedundant : bool; sb_HeartbeatInterval : Z }.
Record subscribe := mkSubscribe {
  ss_Target : string; ss_Prefix : string; ss_Subscriptions : list subscription; ss_Qos : Z; ss_Mode : string;
  ss_AllowAggregation : bool; ss_UseModels : list model; ss_Encoding : string; ss_UpdatesOnly : bool }.
Record subscribeReq := mkSubscribeReq {
  sr_Subscribe : subscribe; sr_Poll : bool; sr_Extensions : list extension }.

(** What is given to the JSON encoder. *)
Inductive view :=
| VCapReq (exts : list extension) | VCapRsp (m : capResponse)
| VGetReq (m : getRqMsg) | VGetRsp (m : getRspMsg) | VNotifications (l : list notificationRspMsg) | VValues (l : list any)
| VSetReq (m : setReqMsg) | VSetRsp (m : setRspMsg)
| VSubReq (m : subscribeReq) | VSync (m : syncResponseMsg) | VNotif (m : notificationRspMsg)
| VEvents (l : list (option EventMsg)) | VEvent (e : option EventMsg).

(** A message of any type. *)
Definition pmsg : Type := {k : kind & msg k}.

Inductive format_error := errFmtEvent (e : event_error) | errFmtEncode | errFmtProto | errFmtExtension | errFmtUnsupported.

Record MarshalOptions := mkMarshalOptions {
  mo_Multiline : bool; mo_Indent : string; mo_Format : string; mo_OverrideTS : bool; mo_ValuesOnly : bool;
  mo_CalculateLatency : bool; mo_RegisteredExtensions : gmap Z string; mo_ProtoFiles : list string; mo_ProtoDir : list string }.

Class FormatEnv : Type := {
  json_encode : option string -> view -> option string;       (** with an indent, or on one line *)
  proto_Marshal : pmsg -> option string;
  protojson_Marshal : bool -> string -> pmsg -> option string;
  prototext_Marshal : bool -> string -> pmsg -> option string;
  Encoding_String : Z -> string;
  DataType_String : Z -> string;
  ListMode_String : Z -> string;
  SubMode_String : Z -> string;
  Operation_String : Z -> string;
  TypedValue_String : option TypedValue -> string;
  proto_source : list string -> list string -> bool;          (** the descriptors of the files can be read *)
  decode_extension : string -> string -> option (gmap string any)
}.

(** ** Paths of files ([path/filepath] on Unix) *)

Definition clean_step (rooted : bool) (out : list string) (e : string) : list string :=
  if String.eqb e "" || String.eqb e "." then out
  else if String.eqb e ".." then
    match out with
    | x :: rest => if String.eqb x ".." then ".." :: out else rest
    | [] => if rooted then [] else [".."]
    end
  else e :: out.

Definition path_Clean (s : string) : string :=
  let rooted := has_prefix "/" s in
  let body := sjoin "/" (rev (foldl (clean_step rooted) [] (split_byte "/" s))) in
  if rooted then "/" +:+ body else if String.eqb body "" then "." else body.

Fixpoint filepath_Join (elem : list string) : string :=
  match elem with
  | [] => ""
  | e :: rest => if String.eqb e "" then filepath_Join rest else path_Clean (sjoin "/" elem)
  end.

Example clean_ex : path_Clean "a//b/./c/../d/" = "a/b/d" /\ path_Clean "/../a" = "/a" /\ path_Clean "../../a" = "../../a"
  /\ path_Clean "" = "." /\ filepath_Join [""; "a"; ""] = "a" /\ filepath_Join ["/"; ""] = "/" /\ filepath_Join [""; ""] = "".
Proof. by vm_compute. Qed.

Section formats.
Context `{MapOrder} `{EventEnv} `{FmtEnv} `{FormatEnv} (now : nat -> Z).

Definition lift {A} (r : go event_error A) : go format_error A :=
  match r with Ok a => Ok a | Err e => Err (errFmtEvent e) | Panic => Panic end.
Definition or_fail {A} (e : format_error) (r : option A) : go format_error A :=
  match r with Some a => Ok a | None => Err e end.

Definition xpath (p : option GPath) : string := GnmiPathToXPath p false.
Definition target_of (p : option GPath) : string := default "" (p_Target <$> p).
Definition elem_names (p : option GPath) : list string := default [] ((fun p => pe_Name <$> p_Elem p) <$> p).

(** ** JSON *)

(** [jsonMarshal] and [jsonMarshalIndent]. *)
Definition jsonMarshal (v : view) : go format_error string :=
  b ← or_fail errFmtEncode (json_encode None v); Ok (trim_right "010" b).
Definition jsonMarshalIndent (indent : string) (v : view) : go format_error string :=
  b ← or_fail errFmtEncode (json_encode (Some indent) v); Ok (trim_right "010" b).
Definition json_text (o : MarshalOptions) (v : view) : go format_error string :=
  if mo_Multiline o then jsonMarshalIndent (mo_Indent o) v else jsonMarshal v.

Definition decode_registered (o : MarshalOptions) (acc : decodedExtensions) (ext : extension) : go format_error decodedExtensions :=
  match ext with
  | Ext_Registered id m =>
      match mo_RegisteredExtensions o !! wrap KInt32 id with
      | None => Ok acc
      | Some name => d ← or_fail errFmtExtension (decode_extension name m); Ok (<[wrap KInt32 id := d]> acc)
      end
  | _ => Ok acc
  end.

Definition formatRegisteredExtensions (o : MarshalOptions) (exts : list extension) : go format_error decodedExtensions :=
  if nilb exts || nilb (mo_ProtoFiles o) then Ok ∅
  else if proto_source (mo_ProtoDir o) (mo_ProtoFiles o) then foldM (decode_registered o) exts ∅
  else Err errFmtExtension.

Definition to_model (m : ModelData) : model := mkModel (md_Name m) (md_Organization m) (md_Version m).

Definition formatCapabilitiesResponse (o : MarshalOptions) (m : CapabilityResponse) : go format_error string :=
  json_text o (VCapRsp (mkCapResponse (cr_GNMIVersion m) (to_model <$> cr_SupportedModels m)
    (Encoding_String <$> cr_SupportedEncodings m) (cr_Extension m))).

Definition formatGetRequest (o : MarshalOptions) (m : GetRequest) : go format_error string :=
  json_text o (VGetReq (mkGetRq (xpath (gr_Prefix m)) (target_of (gr_Prefix m))
    ((fun p => xpath (Some p)) <$> gr_Path m) (Encoding_String (gr_Encoding m)) (DataType_String (gr_Type m))
    (to_model <$> gr_UseModels m) (gr_Extension m))).

(** One update of a notification: its path, and its value under the names of its elements. *)
Definition format_update (u : Update) : go format_error update :=
  value ← lift (getValue (upd_Val u));
  Ok (mkUpd (xpath (upd_Path u)) {[ sjoin "/" (elem_names (upd_Path u)) := value ]}).

(** The times of reception: [at] is the clock's reading. *)
Definition with_latency (o : MarshalOptions) (on : bool) (ts at_ : Z) : Z * option Z * Z * Z :=
  if on then let l := int64 (at_ - ts) in (at_, Some at_, l, Z.quot (Z.quot l 1000) 1000) else (0, None, 0, 0).

Definition format_notification (o : MarshalOptions) (meta : gomap string) (i : nat) (n : NotificationMsg) : go format_error notificationRspMsg :=
  updates ← mapE format_update (nm_Update n);
  let '(rts, rt, ln, lm) := with_latency o (mo_CalculateLatency o && negb (mo_ValuesOnly o)) (nm_Timestamp n) (now i) in
  Ok (mkNotifMsg (default "" (gm_get meta "source")) "" "" (nm_Timestamp n) (Some (nm_Timestamp n)) rts rt ln lm
    (xpath (nm_Prefix n)) (target_of (nm_Prefix n)) updates ((fun p => xpath (Some p)) <$> nm_Delete n) [] ∅).

Fixpoint format_notifications (o : MarshalOptions) (meta : gomap string) (i : nat) (l : list NotificationMsg) : go format_error (list notificationRspMsg) :=
  match l with
  | [] => Ok []
  | n :: l => m ← format_notification o meta i n; ms ← format_notifications o meta (S i) l; Ok (m :: ms)
  end.

(** [values-only]: the values of all updates, in order. *)
Definition values_of (ns : list notificationRspMsg) : list any :=
  concat ((fun n => concat ((fun u => (range (u_Values u)).*2) <$> nr_Updates n)) <$> ns).

Definition formatGetResponse (o : MarshalOptions) (m : GetResponse) (meta : gomap string) : go format_error string :=
  dext ← formatRegisteredExtensions o (gp_Extension m);
  ns ← format_notifications o meta 1 (gp_Notification m);
  if mo_ValuesOnly o then jsonMarshalIndent "  " (VValues (values_of ns))
  else json_text o (if nilb (gp_Extension m) then VNotifications ns else VGetRsp (mkGetRspMsg ns (gp_Extension m) dext)).

Definition update_text (u : Update) : updateMsg := mkUpdateMsg (xpath (upd_Path u)) (TypedValue_String (upd_Val u)).
Definition formatSetRequest (o : MarshalOptions) (m : SetRequest) : go format_error string :=
  json_text o (VSetReq (mkSetReqMsg (xpath (sr_Prefix m)) (target_of (sr_Prefix m)) ((fun p => xpath (Some p)) <$> sr_Delete m)
    (update_text <$> sr_Replace m) (update_text <$> sr_Update m) (sr_Extension m))).

Definition formatSetResponse (o : MarshalOptions) (m : SetResponse) (meta : gomap string) : go format_error string :=
  dext ← formatRegisteredExtensions o (sp_Extension m);
  json_text o (VSetRsp (mkSetRspMsg (default "" (gm_get meta "source")) (sp_Timestamp m) (sp_Timestamp m)
    (xpath (sp_Prefix m)) (target_of (sp_Prefix m))
    ((fun u => mkUpdResMsg (Operation_String (ur_Op u)) (xpath (Messages.ur_Path u)) (target_of (Messages.ur_Path u))) <$> sp_Response m)
    (sp_Extension m) dext)).

(** The models of a subscription list are not copied. *)
Definition subscribe_view (l : option SubscriptionList) : subscribe :=
  match l with
  | None => mkSubscribe "" "" [] 0 "" false [] "" false
  | Some l => mkSubscribe (target_of (sl_Prefix l)) (xpath (sl_Prefix l))
      ((fun s => mkSub (xpath (sn_Path s)) (SubMode_String (sn_Mode s)) (sn_SampleInterval s) (sn_SuppressRedundant s)
        (sn_HeartbeatInterval s)) <$> sl_Subscription l)
      (default 0 (sl_Qos l)) (ListMode_String (sl_Mode l)) (sl_AllowAggregation l) [] (Encoding_String (sl_Encoding l)) (sl_UpdatesOnly l)
  end.
Definition formatSubscribeRequest (o : MarshalOptions) (m : SubscribeRequest) : go format_error string :=
  json_text o (VSubReq (match Messages.sq_Request m with
    | Req_Subscribe l => mkSubscribeReq (subscribe_view l) false (sq_Extension m)
    | Req_Poll => mkSubscribeReq (subscribe_view None) true (sq_Extension m)
    | Req_none => mkSubscribeReq (subscribe_view None) false (sq_Extension m)
    end)).

(** The structure of a notification of a subscription; the first reading of
    the clock is that of override-timestamps. *)
Definition subscribe_notification (o : MarshalOptions) (exts : list extension) (dext : decodedExtensions) (meta : gomap string)
    (n : NotificationMsg) : go format_error notificationRspMsg :=
  updates ← mapE format_update (nm_Update n);
  let '(rts, rt, ln, lm) := with_latency o (mo_CalculateLatency o) (nm_Timestamp n) (now 1) in
  Ok (mkNotifMsg (default "" (gm_get meta "source")) (default "" (gm_get meta "system-name")) (default "" (gm_get meta "subscription-name"))
    (nm_Timestamp n) (Some (nm_Timestamp n)) rts rt ln lm (xpath (nm_Prefix n)) (target_of (nm_Prefix n)) updates
    ((fun p => xpath (Some p)) <$> nm_Delete n) exts (if nilb exts then ∅ else dext)).

(** An update without a path gets an empty one, in the message itself; the
    updates after one whose value cannot be decoded are not reached. *)
Definition fill_path (u : Update) : Update :=
  match upd_Path u with Some _ => u | None => mkUpdate (Some (mkGPath "" [] "")) (upd_Val u) end.
Fixpoint fill_paths (us : list Update) : list Update :=
  match us with
  | [] => []
  | u :: us => fill_path u :: (if is_ok (getValue (upd_Val u)) then fill_paths us else us)
  end.
Definition with_updates (us : list Update) (n : NotificationMsg) : NotificationMsg :=
  mkNotif (nm_Timestamp n) (nm_Prefix n) us (nm_Delete n) (nm_Atomic n).

(** The bytes and the message afterwards; a notification that is nil is dereferenced. *)
Definition formatSubscribeResponse (o : MarshalOptions) (m : SubscribeRsp) (meta : gomap string) : go format_error string * SubscribeRsp :=
  match formatRegisteredExtensions o (sp_Ext m) with
  | Err e => (Err e, m) | Panic => (Panic, m)
  | Ok dext =>
      match sp_Rsp m with
      | Rsp_none =>
          (if nilb (sp_Ext m) then Ok ""
           else json_text o (VNotif (mkNotifMsg "" "" "" 0 None 0 None 0 0 "" "" [] [] (sp_Ext m) dext)), m)
      | Rsp_Sync b => (json_text o (VSync (mkSyncMsg b (sp_Ext m) dext)), m)
      | Rsp_Update None => (Panic, m)
      | Rsp_Update (Some n) =>
          ((v ← subscribe_notification o (sp_Ext m) dext meta (with_updates (fill_path <$> nm_Update n) n);
            json_text o (VNotif v)),
           mkSubRsp (Rsp_Update (Some (with_updates (fill_paths (nm_Update n)) n))) (sp_Ext m))
      end
  end.

(** [FormatJSON]. *)
Definition FormatJSON (o : MarshalOptions) (m : option pmsg) (meta : gomap string) : go format_error string * option pmsg :=
  match m with
  | None => (Ok "", None)
  | Some (existT k m') =>
      match k return msg k -> go format_error string * option pmsg with
      | CapReq => fun exts => (json_text o (VCapReq exts), m)
      | CapRsp => fun r => (formatCapabilitiesResponse o r, m)
      | GetReq => fun r => (formatGetRequest o r, m)
      | GetRsp => fun r => (formatGetResponse o r meta, m)
      | SetReq => fun r => (formatSetRequest o r, m)
      | SetRsp => fun r => (formatSetResponse o r meta, m)
      | SubReq => fun r => (formatSubscribeRequest o r, m)
      | SubRsp => fun r => let '(b, r) := formatSubscribeResponse o r meta in (b, Some (existT SubRsp r))
      | _ => fun _ => (Ok "", m)
      end m'
  end.

(** ** One line per leaf *)

(** One update: [prefix] is rewritten on the way. A value without leaves is
    stored as "{}", under the path without the prefix. *)
Definition flat_update (pre : option GPath) (st : string * gmap string any) (u : Update) : go format_error (string * gmap string any) :=
  let '(prefix, rs) := st in
  let p := xpath (upd_Path u) in
  let p := if String.eqb prefix "" then filepath_Join ["/"; p] else p in
  let rooted := String.eqb (default "" (p_Origin <$> pre)) "" && negb (nilb (elem_names pre)) in
  let prefix := if rooted then filepath_Join ["/"; prefix] else prefix in
  vmap ← lift (getValueFlat (filepath_Join [prefix; p]) (upd_Val u));
  if Nat.eqb (gm_len vmap) 0 then Ok (prefix, <[p := AStr "{}"]> rs) else Ok (prefix, gm_tab vmap ∪ rs).

Definition flat_notification (rs : gmap string any) (n : NotificationMsg) : go format_error (gmap string any) :=
  '(_, rs) ← foldM (flat_update (nm_Prefix n)) (nm_Update n) (xpath (nm_Prefix n), rs); Ok rs.

Definition responseFlat (m : option pmsg) : go format_error (gmap string any) :=
  match m with
  | None => Panic
  | Some (existT k m') =>
      match k return msg k -> go format_error (gmap string any) with
      | GetRsp => fun r => foldM flat_notification (gp_Notification r) ∅
      | SubRsp => fun r => match sp_Rsp r with Rsp_Update (Some n) => flat_notification ∅ n | _ => Ok ∅ end
      | _ => fun _ => Err errFmtUnsupported
      end m'
  end.

Definition ResponsesFlat (ms : list (option pmsg)) : go format_error (gmap string any) :=
  foldM (fun rs m => mr ← responseFlat m; Ok (mr ∪ rs)) ms ∅.

Definition flat_line (kv : string * any) : string := kv.1 +:+ (": " +:+ (Sprint kv.2 +:+ String "010" "")).
Definition flat_text (m : gmap string any) : string :=
  sjoin "" ((fun p => flat_line (p, default ANil (m !! p))) <$> sort_strings (range m).*1).

(** ** Marshal *)

(** Written into the message itself. *)
Definition OverrideTimestamp (o : MarshalOptions) (m : option pmsg) : go format_error (option pmsg) :=
  if mo_OverrideTS o then
    match m with
    | None => Panic
    | Some (existT k m') =>
        match k return msg k -> go format_error (option pmsg) with
        | SubRsp => fun r =>
            match sp_Rsp r with
            | Rsp_Update (Some n) =>
                Ok (Some (existT SubRsp (mkSubRsp (Rsp_Update (Some (mkNotif (now 0) (nm_Prefix n) (nm_Update n) (nm_Delete n) (nm_Atomic n)))) (sp_Ext r))))
            | _ => Ok m
            end
        | _ => fun _ => Ok m
        end m'
    end
  else Ok m.

Definition as_notification (n : NotificationMsg) : Notification := mkNotification (nm_Timestamp n) (nm_Prefix n) (nm_Update n) (Some <$> nm_Delete n).
(** A processor as a function on events. *)
Definition processor_fn : Type := list (option EventMsg) -> go event_error (list (option EventMsg)).
Definition subscription_name (meta : gomap string) : string := default "default" (gm_get meta "subscription-name").

(** The events of a message; a nil notification has none. *)
Definition event_bytes (o : MarshalOptions) (m : option pmsg) (meta : gomap string) (eps : list processor_fn) : go format_error string :=
  match m with
  | None => Panic
  | Some (existT k m') =>
      match k return msg k -> go format_error string with
      | SubRsp => fun r =>
          match sp_Rsp r with
          | Rsp_Update (Some n) =>
              evs ← lift (ResponseToEventMsgs (subscription_name meta) (Some (SR_Update (as_notification n))) meta eps);
              if nilb evs then Ok "" else json_text o (VEvents evs)
          | Rsp_Update None =>
              evs ← lift (ResponseToEventMsgs (subscription_name meta) (Some (SR_Update (mkNotification 0 None [] []))) meta eps);
              if nilb evs then Ok "" else json_text o (VEvents evs)
          | _ => Ok ""
          end
      | GetRsp => fun r =>
          evs ← lift (GetResponseToEventMsgs (Some (as_notification <$> gp_Notification r)) meta eps);
          json_text o (VEvents evs)
      | _ => fun _ => Err errFmtUnsupported
      end m'
  end.

(** [Marshal]: the bytes, and the message as it is left. *)
Definition Marshal (o : MarshalOptions) (m : option pmsg) (meta : gomap string) (eps : list processor_fn) : go format_error string * option pmsg :=
  match OverrideTimestamp o m with
  | Panic => (Panic, m) | Err e => (Err e, m)
  | Ok m =>
      let f := mo_Format o in
      if String.eqb f "proto" then (match m with Some m => or_fail errFmtProto (proto_Marshal m) | None => Ok "" end, m)
      else if String.eqb f "protojson" then
        (match m with Some m => or_fail errFmtProto (protojson_Marshal (mo_Multiline o) (mo_Indent o) m) | None => Ok "{}" end, m)
      else if String.eqb f "prototext" then
        (match m with Some m => or_fail errFmtProto (prototext_Marshal (mo_Multiline o) (mo_Indent o) m) | None => Ok "" end, m)
      else if String.eqb f "event" then (event_bytes o m meta eps, m)
      else if String.eqb f "flat" then ((r ← responseFlat m; Ok (flat_text r)), m)
      else FormatJSON o m meta
  end.
End formats.

(** ** Lemmas on paths of files *)

Lemma split_rooted s : split_byte "/" ("/" +:+ s) = "" :: split_byte "/" s.
Proof. apply (split_byte_app "/" "" s eq_refl). Qed.

(** An element that stays. *)
Definition plain_elem (e : string) : Prop := e <> "" /\ e <> "." /\ e <> ".." /\ snone "/" e = true.

Lemma clean_step_skip rooted out e : e = "" \/ e = "." -> clean_step rooted out e = out.
Proof. unfold clean_step. by intros [-> | ->]. Qed.

Lemma clean_step_plain rooted out e : plain_elem e -> clean_step rooted out e = e :: out.
Proof. intros (H1 & H2 & H3 & _). unfold clean_step. by rewrite !(proj2 (String.eqb_neq _ _)) by done. Qed.

Lemma clean_plain rooted out l : Forall plain_elem l -> foldl (clean_step rooted) out l = rev l ++ out.
Proof.
  revert out. induction l as [|e l IH]; intros out Hl; [done|]. apply Forall_cons in Hl as [He Hl].
  cbn [foldl]. rewrite clean_step_plain by done. rewrite IH by done. cbn [rev]. by rewrite <-app_assoc.
Qed.

Lemma clean_rooted l out : Forall (fun e => snone "/" e = true) l -> Forall plain_elem out ->
  Forall plain_elem (foldl (clean_step true) out l).
Proof.
  intros Hl. revert out. induction Hl as [|e l He Hl IH]; intros out Ho; [done|]. cbn [foldl]. apply IH.
  unfold clean_step. destruct (String.eqb_spec e ""); [done|]. destruct (String.eqb_spec e "."); [done|].
  destruct (String.eqb_spec e ".."); [|by constructor].
  destruct Ho as [|x out (? & ? & Hx & ?) Ho]; [constructor|]. by rewrite (proj2 (String.eqb_neq x "..")).
Qed.

(** The elements of a rooted path. *)
Definition rooted_elems (s : string) : list string := rev (foldl (clean_step true) [] (split_byte "/" s)).

Lemma rooted_elems_plain s : Forall plain_elem (rooted_elems s).
Proof. apply Forall_rev, clean_rooted; [apply split_byte_pieces|constructor]. Qed.

Lemma rooted_elems_slash s : rooted_elems ("/" +:+ s) = rooted_elems s.
Proof. unfold rooted_elems. by rewrite split_rooted. Qed.

Lemma rooted_elems_join l : Forall plain_elem l -> rooted_elems (sjoin "/" l) = l.
Proof.
  intros Hl. unfold rooted_elems. destruct l as [|e l]; [done|].
  rewrite split_join; [|done|eapply Forall_impl; [exact Hl|by intros ? (? & ? & ? & ?)]].
  rewrite clean_plain by done. rewrite app_nil_r. by rewrite rev_involutive.
Qed.

Lemma Clean_rooted s : path_Clean ("/" +:+ s) = "/" +:+ sjoin "/" (rooted_elems s).
Proof. unfold path_Clean. change (has_prefix "/" ("/" +:+ s)) with true. cbn [negb]. by rewrite <-(rooted_elems_slash s). Qed.

(** [filepath.Join("/", s)] *)
Lemma Join_root s : filepath_Join ["/"; s] = "/" +:+ sjoin "/" (rooted_elems s).
Proof.
  cbn [filepath_Join String.eqb]. change (sjoin "/" ["/"; s]) with ("/" +:+ ("/" +:+ s)).
  by rewrite Clean_rooted, rooted_elems_slash.
Qed.

Lemma Join_root_again s : filepath_Join ["/"; filepath_Join ["/"; s]] = filepath_Join ["/"; s].
Proof. rewrite !Join_root, rooted_elems_slash, rooted_elems_join by apply rooted_elems_plain. done. Qed.

Lemma Join_root_nonempty s : filepath_Join ["/"; s] <> "".
Proof. by rewrite Join_root. Qed.

Lemma Join_empty s : filepath_Join [""; s] = if String.eqb s "" then "" else path_Clean s.
Proof. cbn. by destruct (String.eqb s ""). Qed.

(** ** Lemmas on flat messages and on messages left alone *)

Section lemmas.
Context `{MapOrder} `{EventEnv} `{FmtEnv} `{FormatEnv} (now : nat -> Z).

(** The prefix and the path as they are joined for every update. *)
Definition is_rooted (pre : option GPath) : bool :=
  String.eqb (default "" (p_Origin <$> pre)) "" && negb (nilb (elem_names pre)).
Definition flat_root (pre : option GPath) : string :=
  if is_rooted pre then filepath_Join ["/"; xpath pre] else xpath pre.
Definition flat_path (pre : option GPath) (u : Update) : string :=
  if String.eqb (xpath pre) "" then filepath_Join ["/"; xpath (upd_Path u)] else xpath (upd_Path u).
Definition flat_key (pre : option GPath) (u : Update) : string := filepath_Join [flat_root pre; flat_path pre u].

Lemma Join_root_root s : filepath_Join [filepath_Join ["/"; ""]; filepath_Join ["/"; s]] = filepath_Join [filepath_Join ["/"; ""]; s].
Proof. change (filepath_Join ["/"; ""]) with "/". apply Join_root_again. Qed.

Lemma flat_update_eq pre prefix rs u : prefix = xpath pre \/ prefix = flat_root pre ->
  exists p, flat_update pre (prefix, rs) u
  = (vmap ← lift (getValueFlat (flat_key pre u) (upd_Val u));
     Ok (flat_root pre, if Nat.eqb (gm_len vmap) 0 then <[p := AStr "{}"]> rs else gm_tab vmap ∪ rs)).
Proof.
  intros Hp. unfold flat_update. fold (is_rooted pre).
  set (p := if String.eqb prefix "" then _ else _). exists p.
  assert (Hr : (if is_rooted pre then filepath_Join ["/"; prefix] else prefix) = flat_root pre).
  { unfold flat_root in *. destruct Hp as [-> | ->]; [done|]. destruct (is_rooted pre); [apply Join_root_again|done]. }
  rewrite Hr. assert (Hk : filepath_Join [flat_root pre; p] = flat_key pre u).
  { unfold flat_key, flat_path, p. destruct Hp as [-> | ->]; [done|]. unfold flat_root.
    destruct (is_rooted pre).
    - pose proof (Join_root_nonempty (xpath pre)) as Hne. apply String.eqb_neq in Hne. rewrite Hne.
      destruct (String.eqb_spec (xpath pre) "") as [->|]; [|done]. by rewrite Join_root_root.
    - done. }
  rewrite Hk. destruct (lift _) as [vm|e|]; cbn; [|done..]. by destruct (Nat.eqb _ _).
Qed.

(** The value of the last update that has the leaf [k]. *)
Definition last_leaf (pre : option GPath) (us : list Update) (k : string) : option any :=
  foldl (fun acc u => match getValueFlat (flat_key pre u) (upd_Val u) with
    | Ok vm => match gm_get vm k with Some v => Some v | None => acc end
    | _ => acc
    end) None us.

Definition has_leaf (pre : option GPath) (u : Update) : Prop :=
  forall vm, getValueFlat (flat_key pre u) (upd_Val u) = Ok vm -> gm_len vm <> 0%nat.

Lemma last_leaf_snoc pre us u k : last_leaf pre (us ++ [u]) k
  = match getValueFlat (flat_key pre u) (upd_Val u) with
    | Ok vm => match gm_get vm k with Some v => Some v | None => last_leaf pre us k end
    | _ => last_leaf pre us k
    end.
Proof. unfold last_leaf. by rewrite foldl_app. Qed.

Lemma lift_ok {A} (r : go event_error A) a : lift r = Ok a -> r = Ok a.
Proof. destruct r; cbn; congruence. Qed.

Lemma flat_fold pre us rs prefix rs' : Forall (has_leaf pre) us ->
  foldM (flat_update pre) us (xpath pre, rs) = Ok (prefix, rs') ->
  (prefix = xpath pre \/ prefix = flat_root pre)
  /\ forall k, rs' !! k = match last_leaf pre us k with Some v => Some v | None => rs !! k end.
Proof.
  intros Hl. revert prefix rs'. induction us as [|u us IH] using rev_ind; intros prefix rs' Hf.
  - cbn in Hf. injection Hf as <- <-. split; [by left|done].
  - apply Forall_app in Hl as [Hl Hu]; apply Forall_cons in Hu as [Hu _]. rewrite foldM_app in Hf. apply bind_ok in Hf as ([p1 r1] & Hf1 & Hf2).
    destruct (IH Hl _ _ Hf1) as [Hp Hk]. change (foldM (flat_update pre) [u] (p1, r1)) with (x ← flat_update pre (p1, r1) u; Ok x) in Hf2. destruct (flat_update_eq pre p1 r1 u Hp) as [p Hq].
    rewrite Hq in Hf2. apply bind_ok in Hf2 as (x & Hf2 & Hx). injection Hx as ->. apply bind_ok in Hf2 as (vm & Hv & [= <- <-]). apply lift_ok in Hv.
    split; [by right|]. intros k. rewrite last_leaf_snoc, Hv. apply Hu in Hv as Hn.
    rewrite (proj2 (Nat.eqb_neq _ _) Hn). rewrite gm_get_tab, lookup_union, Hk.
    destruct (gm_tab vm !! k); cbn; [by rewrite union_Some_l|]. by rewrite (left_id_L None _).
Qed.

(** ** What is printed and what is left of a notification *)

(** An update as it is printed: its path, and its value under the names of the
    elements of the path; no path is the empty path. *)
Definition printed_update (u : Update) (x : update) : Prop :=
  exists v, getValue (upd_Val u) = Ok v /\ x = mkUpd (xpath (upd_Path u)) {[ sjoin "/" (elem_names (upd_Path u)) := v ]}.

(** The structure printed for the notification [n] with the timestamp [ts],
    field by field. *)
Record printed (o : MarshalOptions) (exts : list extension) (dext : decodedExtensions) (meta : gomap string) (ts : Z)
    (n : NotificationMsg) (v : notificationRspMsg) : Prop := {
  pr_source : nr_Source v = default "" (gm_get meta "source");
  pr_system : nr_SystemName v = default "" (gm_get meta "system-name");
  pr_subscription : nr_SubscriptionName v = default "" (gm_get meta "subscription-name");
  pr_timestamp : nr_Timestamp v = ts;
  pr_time : nr_Time v = Some ts;
  pr_received : (nr_RecvTimestamp v, nr_RecvTime v) = if mo_CalculateLatency o then (now 1, Some (now 1)) else (0, None);
  pr_latency : nr_LatencyNano v = if mo_CalculateLatency o then int64 (now 1 - ts) else 0;
  pr_latency_ms : nr_LatencyMilli v = Z.quot (Z.quot (nr_LatencyNano v) 1000) 1000;
  pr_prefix : nr_Prefix v = xpath (nm_Prefix n);
  pr_target : nr_Target v = target_of (nm_Prefix n);
  pr_updates : Forall2 printed_update (nm_Update n) (nr_Updates v);
  pr_deletes : nr_Deletes v = (fun p => xpath (Some p)) <$> nm_Delete n;
  pr_extensions : nr_Extensions v = exts;
  pr_decoded : nr_DecodedExtensions v = if nilb exts then ∅ else dext
}.

Lemma printed_updates us xs : mapE format_update (fill_path <$> us) = Ok xs <-> Forall2 printed_update us xs.
Proof.
  rewrite mapE_ok, Forall2_fmap_l.
  assert (forall u x, format_update (fill_path u) = Ok x <-> printed_update u x) as Hu.
  { intros u x. unfold format_update, printed_update, fill_path. destruct u as [[p|] tv]; cbn;
      (split; [intros (v & Hv%lift_ok & [= <-])%bind_ok; by exists v|intros (v & Hv & ->); by rewrite Hv]). }
  split; intros Hf; (eapply Forall2_impl; [exact Hf|]); intros u x; apply Hu.
Qed.

Lemma subscribe_notification_spec o exts dext meta ts n v :
  subscribe_notification now o exts dext meta (mkNotif ts (nm_Prefix n) (fill_path <$> nm_Update n) (nm_Delete n) (nm_Atomic n)) = Ok v
  <-> printed o exts dext meta ts n v.
Proof.
  unfold subscribe_notification, with_latency. cbn [nm_Update nm_Timestamp nm_Prefix nm_Delete]. split.
  - intros (xs & Hx%printed_updates & Hv)%bind_ok. destruct (mo_CalculateLatency o) eqn:El; injection Hv as <-; split; cbn; by rewrite ?El.
  - intros [H1' H2' H3' H4 H5 H6 H7 H8 H9 H10 H11%printed_updates H12 H13 H14]. rewrite H11. cbn.
    destruct v; cbn in *. subst. by destruct (mo_CalculateLatency o); injection H6 as -> ->.
Qed.

(** [Marshal] writes JSON: the format is not one of the others. *)
Definition json_format (o : MarshalOptions) : bool :=
  negb (existsb (String.eqb (mo_Format o)) ["proto"; "protojson"; "prototext"; "event"; "flat"]).

(** The JSON format reaches every update up to the first value it cannot
    decode, once it decoded the extensions. *)
Definition reached (o : MarshalOptions) (exts : list extension) (us : list Update) (i : nat) : bool :=
  json_format o && is_ok (formatRegisteredExtensions o exts) && forallb (fun u => is_ok (getValue (upd_Val u))) (take i us).
Definition path_left (o : MarshalOptions) (exts : list extension) (us : list Update) (i : nat) (u : Update) : option GPath :=
  match upd_Path u with
  | Some p => Some p
  | None => if reached o exts us i then Some (mkGPath "" [] "") else None
  end.
Definition updates_left (o : MarshalOptions) (exts : list extension) (us us' : list Update) : Prop :=
  length us' = length us /\ forall i u, us !! i = Some u -> us' !! i = Some (mkUpdate (path_left o exts us i u) (upd_Val u)).

Lemma fill_paths_left us : length (fill_paths us) = length us /\ forall i u, us !! i = Some u ->
  fill_paths us !! i = Some (mkUpdate (match upd_Path u with Some p => Some p | None =>
    if forallb (fun u => is_ok (getValue (upd_Val u))) (take i us) then Some (mkGPath "" [] "") else None end) (upd_Val u)).
Proof.
  induction us as [|x us [Hlen IH]]; [done|]. cbn [fill_paths length]. split.
  - f_equal. by destruct (is_ok _).
  - intros [|i] u; cbn; [intros [= ->]; by destruct u as [[p|] v]|]. intros Hu. destruct (is_ok (getValue (upd_Val x))); cbn; [by apply IH|].
    rewrite Hu. by destruct u as [[p|] v].
Qed.

Lemma updates_left_refl o exts us : json_format o && is_ok (formatRegisteredExtensions o exts) = false -> updates_left o exts us us.
Proof.
  intros Hj. split; [done|]. intros i u Hu. unfold path_left, reached. rewrite Hj, Hu. by destruct u as [[p|] v].
Qed.

(** The message after a subscription's notification [n] was formatted. *)
Definition notif_msg (ts : Z) (n : NotificationMsg) (us : list Update) (exts : list extension) : option pmsg :=
  Some (existT SubRsp (mkSubRsp (Rsp_Update (Some (mkNotif ts (nm_Prefix n) us (nm_Delete n) (nm_Atomic n)))) exts)).

Definition time_left (o : MarshalOptions) (n : NotificationMsg) : Z := if mo_OverrideTS o then now 0 else nm_Timestamp n.

Lemma Override_notif o n exts :
  OverrideTimestamp now o (notif_msg (nm_Timestamp n) n (nm_Update n) exts) = Ok (notif_msg (time_left o n) n (nm_Update n) exts).
Proof. unfold OverrideTimestamp, time_left. by destruct (mo_OverrideTS o). Qed.

(** Formats other than JSON do not write. *)
Lemma Marshal_other o m m' meta eps : OverrideTimestamp now o m = Ok m' -> json_format o = false -> (Marshal now o m meta eps).2 = m'.
Proof.
  intros Ho Hj. unfold Marshal. rewrite Ho. unfold json_format in Hj. apply negb_false_iff in Hj. cbn [existsb] in Hj.
  repeat (destruct (String.eqb (mo_Format o) _); [done|]). done.
Qed.
Lemma Marshal_json o m m' meta eps : OverrideTimestamp now o m = Ok m' -> json_format o = true ->
  Marshal now o m meta eps = FormatJSON now o m' meta.
Proof.
  intros Ho Hj. unfold Marshal. rewrite Ho. unfold json_format in Hj. apply negb_true_iff in Hj. cbn [existsb] in Hj.
  repeat (apply orb_false_elim in Hj as [-> Hj]). done.
Qed.

Lemma Marshal_notif_left o n exts meta eps :
  exists us', updates_left o exts (nm_Update n) us'
    /\ (Marshal now o (notif_msg (nm_Timestamp n) n (nm_Update n) exts) meta eps).2 = notif_msg (time_left o n) n us' exts.
Proof.
  pose proof (Override_notif o n exts) as Ho. destruct (json_format o) eqn:Hj.
  - rewrite (Marshal_json _ _ _ _ _ Ho Hj). cbn [FormatJSON notif_msg]. unfold formatSubscribeResponse. cbn [sp_Ext sp_Rsp].
    destruct (formatRegisteredExtensions o exts) as [dext|e|] eqn:He.
    2,3: exists (nm_Update n); split; [apply updates_left_refl; by rewrite He, andb_false_r|done].
    exists (fill_paths (nm_Update n)). split; [|done]. destruct (fill_paths_left (nm_Update n)) as [Hlen Hus]. split; [done|].
    intros i u Hu. rewrite (Hus i u Hu). unfold path_left, reached. by rewrite Hj, He.
  - rewrite (Marshal_other _ _ _ _ _ Ho Hj). exists (nm_Update n). split; [apply updates_left_refl; by rewrite Hj|done].
Qed.

Lemma Marshal_notif_printed o n exts meta eps text : json_format o = true ->
  (Marshal now o (notif_msg (nm_Timestamp n) n (nm_Update n) exts) meta eps).1 = Ok text <->
  exists dext v, formatRegisteredExtensions o exts = Ok dext /\ printed o exts dext meta (time_left o n) n v /\ json_text o (VNotif v) = Ok text.
Proof.
  intros Hj. rewrite (Marshal_json _ _ _ _ _ (Override_notif o n exts) Hj). cbn [FormatJSON notif_msg]. unfold formatSubscribeResponse.
  cbn [sp_Ext sp_Rsp]. destruct (formatRegisteredExtensions o exts) as [dext|e|]; [|by split; [|intros (? & ? & ? & _)]..].
  cbn [fst]. unfold with_updates. cbn [nm_Timestamp nm_Prefix nm_Update nm_Delete nm_Atomic]. split.
  - intros (v & Hv & Ht)%bind_ok. apply subscribe_notification_spec in Hv. by exists dext, v.
  - intros (d & v & [= <-] & Hv%subscribe_notification_spec & Ht). by rewrite Hv.
Qed.

(** Any other message. *)
Definition a_notification (m : option pmsg) : Prop := exists n exts, m = notif_msg (nm_Timestamp n) n (nm_Update n) exts.
Lemma notification_or_not m : a_notification m \/ forall o r meta, OverrideTimestamp now o m = Ok r -> r = m /\ (FormatJSON now o m meta).2 = m.
Proof.
  destruct m as [[k m]|].
  - destruct k; try (right; intros o r meta; unfold OverrideTimestamp; destruct (mo_OverrideTS o); intros [= <-]; done).
    destruct m as [[|[n|]|b] exts]; [right|left|right|right].
    2: by exists n, exts; destruct n.
    all: intros o r meta; unfold OverrideTimestamp; destruct (mo_OverrideTS o); intros [= <-]; (split; [done|]); cbn; unfold formatSubscribeResponse; cbn;
      destruct (formatRegisteredExtensions o exts); cbn; done.
  - right. intros o r meta. unfold OverrideTimestamp. destruct (mo_OverrideTS o); [done|]. by intros [= <-].
Qed.

Lemma Marshal_not_notif o m meta eps : ~ a_notification m -> (Marshal now o m meta eps).2 = m.
Proof.
  intros Hn. destruct (notification_or_not m) as [|Hm]; [done|]. destruct (OverrideTimestamp now o m) as [r|e|] eqn:Ho;
    [|unfold Marshal; by rewrite Ho..]. destruct (Hm o r meta Ho) as [-> Hf]. destruct (json_format o) eqn:Hj.
  - by rewrite (Marshal_json _ _ _ _ _ Ho Hj).
  - by rewrite (Marshal_other _ _ _ _ _ Ho Hj).
Qed.

(** The value of an update. *)
Definition update_value (u : Update) : go format_error any := lift (getValue (upd_Val u)).

(** Every update has one value, whatever the order of its map. *)
Lemma format_updates_values us :
  (vs ← mapE format_update us; Ok (concat ((fun u => (range (u_Values u)).*2) <$> vs))) = mapE update_value us.
Proof.
  induction us as [|u us IH]; [done|]. rewrite !mapE_cons, <-IH.
  change (format_update u) with (v ← update_value u; Ok (mkUpd (xpath (upd_Path u)) {[ sjoin "/" (elem_names (upd_Path u)) := v ]})).
  destruct (update_value u) as [v|e|]; cbn [mbind go_bind]; [|done..].
  destruct (mapE format_update us) as [vs|e|]; [|done..]. cbn. by rewrite range_singleton.
Qed.

Lemma format_notification_values o meta i n :
  (m ← format_notification now o meta i n; Ok (values_of [m])) = mapE update_value (nm_Update n).
Proof.
  rewrite <-format_updates_values. unfold format_notification. destruct (mapE format_update (nm_Update n)) as [vs|e|]; cbn; [|done..].
  destruct (with_latency _ _ _ _) as [[[a b] c] d]. unfold values_of. cbn. by rewrite app_nil_r.
Qed.

Lemma format_notifications_values o meta i l :
  (ms ← format_notifications now o meta i l; Ok (values_of ms)) = mapE update_value (concat (nm_Update <$> l)).
Proof.
  revert i. induction l as [|n l IH]; intros i; [done|]. cbn [fmap list_fmap concat format_notifications].
  rewrite mapE_app, <-(IH (S i)), <-(format_notification_values o meta i n).
  destruct (format_notification now o meta i n) as [m|e|]; cbn [mbind go_bind]; [|done..].
  destruct (format_notifications now o meta (S i) l) as [ms|e|]; cbn; [|done..].
  unfold values_of. cbn. by rewrite app_nil_r.
Qed.
End lemmas.

(** * Properties *)

Section properties.
Context `{MapOrder} `{EventEnv} `{FmtEnv} `{FormatEnv} (now : nat -> Z).

(** C27: the message an output is given belongs to the other outputs too.
    [Marshal] leaves every message as it was, whatever the format, the options and
    the result, but the notification of a subscription, of which it changes two
    things: override-timestamps sets its timestamp to the time of the call, and the
    JSON format gives the empty path to the updates without a path that it
    reaches; the values, the other paths, the deletes, the prefix and the extensions stay.
    In the JSON format it prints the notification field by field, with one entry
    per update, in order, holding the path and the value of that update; and it
    prints whenever the extensions and all values can be decoded and the
    structure encoded. *)
Theorem marshal_message (o : MarshalOptions) (m : option pmsg) (meta : gomap string) (eps : list processor_fn) :
  (~ a_notification m -> (Marshal now o m meta eps).2 = m)
  /\ forall n exts, m = notif_msg (nm_Timestamp n) n (nm_Update n) exts ->
     (exists us', updates_left o exts (nm_Update n) us' /\ (Marshal now o m meta eps).2 = notif_msg (time_left now o n) n us' exts)
     /\ (json_format o = true -> forall text, (Marshal now o m meta eps).1 = Ok text <->
         exists dext v, formatRegisteredExtensions o exts = Ok dext /\ printed now o exts dext meta (time_left now o n) n v
                        /\ json_text o (VNotif v) = Ok text).
Proof.
  split; [apply Marshal_not_notif|]. intros n exts ->. split; [apply Marshal_notif_left|]. intros Hj text. by apply Marshal_notif_printed.
Qed.

(** A flat message has exactly the leaves of its updates: the rewriting of
    the prefix on the way does not show, every update is flattened under the
    same prefix joined with its path, and of two updates with one leaf the
    later wins. The values are those that have a leaf. *)
Theorem flat_spec (n : NotificationMsg) (exts : list extension) (rs : gmap string any)
    (Hl : Forall (has_leaf (nm_Prefix n)) (nm_Update n))
    (Hr : responseFlat (Some (existT SubRsp (mkSubRsp (Rsp_Update (Some n)) exts))) = Ok rs) :
  forall k, rs !! k = last_leaf (nm_Prefix n) (nm_Update n) k.
Proof.
  cbn in Hr. unfold flat_notification in Hr. apply bind_ok in Hr as ([p rs'] & Hf & [= ->]).
  destruct (flat_fold _ _ _ _ _ Hl Hf) as [_ Hk]. intros k. rewrite Hk, lookup_empty. by destruct (last_leaf _ _ k).
Qed.

(** With values-only a Get response becomes the list of its values, one per
    update, in the order of the notifications and of their updates; the first
    value that cannot be decoded is the error. *)
Theorem values_only_spec (o : MarshalOptions) (m : GetResponse) (meta : gomap string) (Ho : mo_ValuesOnly o = true) :
  formatGetResponse now o m meta
  = (_ ← formatRegisteredExtensions o (gp_Extension m);
     vs ← mapE update_value (concat (nm_Update <$> gp_Notification m));
     jsonMarshalIndent "  " (VValues vs)).
Proof.
  unfold formatGetResponse. destruct (formatRegisteredExtensions o (gp_Extension m)); cbn; [|done..].
  rewrite <-(format_notifications_values now o meta 1). destruct (format_notifications now o meta 1 _); cbn; [|done..]. by rewrite Ho.
Qed.
End properties.

(** ** Witnesses and examples *)

Definition format_toy : FormatEnv := {|
  json_encode ind v := match v with
    | VNotif m => Some (nr_Prefix m +:+ ("@" +:+ (itoa (nr_Timestamp m) +:+ String "010" "")))
    | VValues l => Some (itoa (Z.of_nat (length l))) | _ => Some "" end;
  proto_Marshal _ := Some "p"; protojson_Marshal _ _ _ := Some "{}"; prototext_Marshal _ _ _ := Some "";
  Encoding_String := itoa; DataType_String := itoa; ListMode_String := itoa; SubMode_String := itoa; Operation_String := itoa;
  TypedValue_String _ := "v"; proto_source _ _ := false; decode_extension _ _ := None |}.

Definition plain_options (format : string) (override : bool) : MarshalOptions :=
  mkMarshalOptions false "" format override false false ∅ [] [].
Definition ex_elem (n : string) : PathElem := mkPathElem n None.
Definition ex_notif (us : list Update) : NotificationMsg := mkNotif 7 (Some (mkGPath "" [ex_elem "if"] "")) us [] false.
Definition ex_mtu : Update := mkUpdate (Some (mkGPath "" [ex_elem "e1"; ex_elem "mtu"] "")) (Some (UintVal 9000)).
Definition ex_msg (us : list Update) : option pmsg := Some (existT SubRsp (mkSubRsp (Rsp_Update (Some (ex_notif us))) [])).
Definition ex_now (i : nat) : Z := 1000.

(** An update without a path, and one after a value that cannot be decoded. *)
Definition ex_bare : Update := mkUpdate None (Some (UintVal 1)).
Definition ex_bad : Update := mkUpdate None (Some (JsonVal "{")).
Lemma marshal_message_witness :
  (exists us', updates_left (H0 := env_none) (H2 := format_toy) (plain_options "json" true) [] [ex_mtu; ex_bare; ex_bad; ex_bare] us'
     /\ (Marshal (H := order_fwd) (H0 := env_none) (H1 := fmt_none) (H2 := format_toy) ex_now (plain_options "json" true)
           (ex_msg [ex_mtu; ex_bare; ex_bad; ex_bare]) None []).2 = notif_msg 1000 (ex_notif []) us' []
     /\ upd_Path <$> us' = [upd_Path ex_mtu; Some (mkGPath "" [] ""); Some (mkGPath "" [] ""); None])
  /\ (Marshal (H := order_fwd) (H0 := env_none) (H1 := fmt_none) (H2 := format_toy) ex_now (plain_options "json" true)
      (Some (existT GetRsp (mkGetRsp [ex_notif [ex_bare]] []))) None []).2 = Some (existT GetRsp (mkGetRsp [ex_notif [ex_bare]] [])).
Proof.
  split.
  - destruct (proj2 (marshal_message (H := order_fwd) (H0 := env_none) (H1 := fmt_none) (H2 := format_toy) ex_now (plain_options "json" true)
      (ex_msg [ex_mtu; ex_bare; ex_bad; ex_bare]) None []) (ex_notif [ex_mtu; ex_bare; ex_bad; ex_bare]) [] eq_refl) as [(us' & Hl & Hm) _].
    exists us'. split; [exact Hl|]. split; [exact Hm|]. destruct Hl as [Hlen Hat]. do 4 (destruct us' as [|? us']; [discriminate Hlen|]).
    destruct us'; [|discriminate Hlen].
    pose proof (Hat 0%nat _ eq_refl) as E0. pose proof (Hat 1%nat _ eq_refl) as E1. pose proof (Hat 2%nat _ eq_refl) as E2. pose proof (Hat 3%nat _ eq_refl) as E3.
    cbn in E0, E1, E2, E3. injection E0 as ->. injection E1 as ->. injection E2 as ->. injection E3 as ->. reflexivity.
  - apply (proj1 (marshal_message (H := order_fwd) (H0 := env_none) (H1 := fmt_none) (H2 := format_toy) ex_now (plain_options "json" true)
      (Some (existT GetRsp (mkGetRsp [ex_notif [ex_bare]] []))) None [])). intros (n & exts & Hn). discriminate Hn.
Defined.

Lemma flat_spec_witness :
  exists rs, responseFlat (H := order_fwd) (H0 := env_none) (ex_msg [ex_mtu]) = Ok rs /\ rs !! "/if/e1/mtu" = Some (AInt KUint64 9000).
Proof.
  eexists. split; [reflexivity|].
  rewrite (flat_spec (H := order_fwd) (H0 := env_none) (ex_notif [ex_mtu]) []); [by vm_compute| |reflexivity].
  repeat constructor. intros vm [= <-]. by vm_compute.
Defined.

Lemma values_only_spec_witness :
  formatGetResponse (H := order_fwd) (H0 := env_none) (H2 := format_toy) ex_now
    (mkMarshalOptions false "" "json" false true false ∅ [] []) (mkGetRsp [ex_notif [ex_mtu; ex_mtu]] []) None = Ok "2".
Proof.
  rewrite (values_only_spec (H := order_fwd) (H0 := env_none) (H2 := format_toy)) by reflexivity. by vm_compute.
Defined.

(** Two outputs write one message: the second prints the time the first wrote into it. *)
Example override_is_shared :
  let '(b1, m) := Marshal (H := order_fwd) (H0 := env_none) (H1 := fmt_none) (H2 := format_toy) ex_now (plain_options "json" true) (ex_msg [ex_mtu]) None [] in
  b1 = Ok "if@1000"
  /\ (Marshal (H := order_fwd) (H0 := env_none) (H1 := fmt_none) (H2 := format_toy) ex_now (plain_options "json" false) m None []).1 = Ok "if@1000"
  /\ (Marshal (H := order_fwd) (H0 := env_none) (H1 := fmt_none) (H2 := format_toy) ex_now (plain_options "json" false) (ex_msg [ex_mtu]) None []).1 = Ok "if@7".
Proof. by vm_compute. Qed.

(** A value without leaves is stored under its path alone, so those of two prefixes collide. *)
Example flat_empty_loses_prefix :
  responseFlat (H := order_fwd) (H0 := env_none) (ex_msg [mkUpdate (Some (mkGPath "" [ex_elem "e1"] "")) (Some (JsonVal ""))])
  = Ok {[ "e1" := AStr "{}" ]}.
Proof. by vm_compute. Qed.

(** Keys are joined as paths of files: ".." in the value of a key removes what precedes it. *)
Example flat_key_cleaned :
  responseFlat (H := order_fwd) (H0 := env_none)
    (ex_msg [mkUpdate (Some (mkGPath "" [mkPathElem "e" (Some {[ "n" := "a/../b" ]})] "")) (Some (BoolVal true))])
  = Ok {[ "/if/b]" := ABool true ]}.
Proof. by vm_compute. Qed.

(** What the JSON of a Set request does not show. *)
Example union_replace_not_shown `{MapOrder} `{FormatEnv} o p d r u un un' e :
  formatSetRequest o (mkSetReq p d r u un e) = formatSetRequest o (mkSetReq p d r u un' e).
Proof. reflexivity. Qed.
