(* ===== verification/OutMsg.v ===== *)
(** * What outputs do with a message (pkg/outputs/output.go)

    The fields several outputs share: the validation of add-target, the target
    it puts into a response, the bytes of a message with or without
    split-events, and the message template. A response is never changed in
    place here: [AddSubscribeResponseTarget] works on a clone.

    Templates of text/template are a parameter ([Templates]) but for the
    default target template, whose text is in the source. *)

From stdpp Require Import strings gmap.
From S2P Require Import Prelude GoStrings GoVal Text Path Event Tags Messages Formats.

#[local] Open Scope Z_scope.

(** [Execute] gives the output, or [None] for an error. *)
Class Templates : Type := {
  template : Type;
  CreateTemplate : string -> option template;
  Execute : template -> any -> option string;
  json_Marshal_event : bool -> string -> option EventMsg -> option string   (** encoding/json, with an indent or not *)
}.

Inductive output_error := errAddTarget | errNoTargetTemplate | errTemplate | errTemplateInput.

(** ** add-target *)

Definition AddTargetOverwrite : string := "overwrite".
Definition AddTargetIfNotPresent : string := "if-not-present".

Definition ValidateAddTarget (v : any) : go output_error () :=
  match v with
  | ANil => Ok ()
  | AStr s => if String.eqb s "" || String.eqb s AddTargetOverwrite || String.eqb s AddTargetIfNotPresent then Ok () else Err errAddTarget
  | _ => Err errAddTarget
  end.

(** [DecodeConfig] after [mapstructure], whose result is [decoded]. *)
Definition DecodeConfig {C E} (bad_target : E) (cfg : gmap string any) (decoded : go E C) : go E C :=
  c ← decoded;
  match cfg !! "add-target" with
  | Some v => if is_ok (ValidateAddTarget v) then Ok c else Err bad_target
  | None => Ok c
  end.

(** ** TLS settings of outputs (pkg/api/types/tls.go) *)

Record TLSConfig := mkTLSConfig { CaFile : string; KeyFile : string; CertFile : string; SkipVerify : bool; ClientAuth : string }.
#[export] Instance TLSConfig_eq_dec : EqDecision TLSConfig.
Proof. solve_decision. Defined.

Inductive tls_config_error := errCaRequired (auth : string) | errClientAuth (auth : string).
Definition TLS_Validate (t : option TLSConfig) : go tls_config_error () :=
  match t with
  | None => Ok ()
  | Some t =>
      let a := ClientAuth t in
      if String.eqb a "" || String.eqb a "request" then Ok ()
      else if String.eqb a "require" || String.eqb a "verify-if-given" || String.eqb a "require-verify" then
        (if String.eqb (CaFile t) "" then Err (errCaRequired a) else Ok ())
      else Err (errClientAuth a)
  end.
Definition TLS_Equal (t other : option TLSConfig) : bool :=
  match t, other with
  | None, None => true
  | Some t, Some o => String.eqb (CaFile t) (CaFile o) && String.eqb (CertFile t) (CertFile o) && String.eqb (KeyFile t) (KeyFile o)
      && Bool.eqb (SkipVerify t) (SkipVerify o) && String.eqb (ClientAuth t) (ClientAuth o)
  | _, _ => false
  end.

Lemma TLS_Equal_spec t o : TLS_Equal t o = true <-> t = o.
Proof.
  destruct t as [[a b c d e]|], o as [[a' b' c' d' e']|]; cbn; [|done..].
  rewrite !andb_true_iff, !String.eqb_eq, Bool.eqb_true_iff. split; [by intros ((((-> & ->) & ->) & ->) & ->)|by intros [= -> -> -> -> ->]].
Qed.

(** ** Publishing *)

(** Payloads sent one after the other until one fails; [oks] are the results of
    the calls. Those sent, and whether none failed. *)
Fixpoint deliver {A} (oks : nat -> bool) (l : list A) : list A * bool :=
  match l with
  | [] => ([], true)
  | x :: l => if oks 0%nat then let '(sent, ok) := deliver (fun i => oks (S i)) l in (x :: sent, ok) else ([], false)
  end.

Lemma deliver_prefix {A} oks (l : list A) : exists rest, l = (deliver oks l).1 ++ rest /\ ((deliver oks l).2 = true <-> rest = []).
Proof.
  revert oks. induction l as [|x l IH]; intros oks; cbn; [by exists []|].
  destruct (oks 0%nat); [|by exists (x :: l)]. destruct (IH (fun i => oks (S i))) as (rest & Hl & Hr).
  destruct (deliver _ l) as [sent ok]. cbn in *. exists rest. by rewrite Hl at 1.
Qed.

Section templates.
Context `{Templates}.

(** A target template; a nil one is [None] where it can occur. *)
Inductive target_tpl := DefaultTargetTemplate | TargetText (t : template).

(** [{{ if index . "subscription-target" }}...{{ else }}{{ index . "source" | host }}{{ end }}] *)
Definition default_target (meta : gomap string) : string :=
  let t := default "" (gm_get meta "subscription-target") in
  if String.eqb t "" then GetHost (default "" (gm_get meta "source")) else t.

Definition execute_target (t : target_tpl) (meta : gomap string) : option string :=
  match t with DefaultTargetTemplate => Some (default_target meta) | TargetText t => Execute t (AStrMap meta) end.

(** The target template of [Init] and of [Update]: one that is configured
    without add-target is nil after the first and the default after the second. *)
Definition init_target_tpl {E} (bad : E) (targetTemplate addTarget : string) : go E (option target_tpl) :=
  if String.eqb targetTemplate "" then Ok (Some DefaultTargetTemplate)
  else if String.eqb addTarget "" then Ok None
  else match CreateTemplate targetTemplate with Some t => Ok (Some (TargetText t)) | None => Err bad end.
Definition update_target_tpl {E} (bad : E) (targetTemplate addTarget : string) : go E (option target_tpl) :=
  if String.eqb targetTemplate "" then Ok (Some DefaultTargetTemplate)
  else if String.eqb addTarget "" then Ok (Some DefaultTargetTemplate)
  else match CreateTemplate targetTemplate with Some t => Ok (Some (TargetText t)) | None => Err bad end.
Definition create_msg_tpl {E} (bad : E) (msgTemplate : string) : go E (option template) :=
  if String.eqb msgTemplate "" then Ok None
  else match CreateTemplate msgTemplate with Some t => Ok (Some t) | None => Err bad end.

Definition set_prefix_target (target : string) (n : NotificationMsg) : NotificationMsg :=
  let p := default (mkGPath "" [] "") (nm_Prefix n) in
  mkNotif (nm_Timestamp n) (Some (mkGPath (p_Origin p) (p_Elem p) target)) (nm_Update n) (nm_Delete n) (nm_Atomic n).

(** The response (never nil for a response that is not) and the error. *)
Definition AddSubscribeResponseTarget (rsp : option SubscribeRsp) (meta : gomap string) (addTarget : string) (tpl : option target_tpl)
    : option SubscribeRsp * option output_error :=
  match rsp with
  | None => (rsp, None)
  | Some r =>
      if String.eqb addTarget "" then (rsp, None)
      else match sp_Rsp r with
      | Rsp_Update (Some n) =>
          let render :=
            match tpl with
            | None => (rsp, Some errNoTargetTemplate)
            | Some tpl =>
                match execute_target tpl meta with
                | None => (rsp, Some errTemplate)
                | Some t => (Some (mkSubRsp (Rsp_Update (Some (set_prefix_target t n))) (sp_Ext r)), None)
                end
            end in
          if String.eqb addTarget AddTargetOverwrite then render
          else if String.eqb addTarget AddTargetIfNotPresent then
            (if String.eqb (target_of (nm_Prefix n)) "" then render else (rsp, None))
          else (rsp, None)
      | _ => (rsp, None)
      end
  end.

(** On any message. *)
Definition AddSubscriptionTarget (m : option pmsg) (meta : gomap string) (addTarget : string) (tpl : option target_tpl)
    : option pmsg * option output_error :=
  match m with
  | Some (existT SubRsp r) =>
      match AddSubscribeResponseTarget (Some r) meta addTarget tpl with
      | (Some r, e) => (Some (existT SubRsp r), e)
      | (None, e) => (m, e)
      end
  | _ => (m, None)
  end.

(** ** Bytes *)

Context `{MapOrder} `{EventEnv} `{FmtEnv} `{FormatEnv} (now : nat -> Z).

Definition ExecTemplate (content : string) (tpl : template) : go output_error string :=
  match json_Unmarshal content with
  | None => Err errTemplateInput
  | Some input => match Execute tpl input with Some s => Ok s | None => Err errTemplate end
  end.

(** One JSON document per event. *)
Definition marshalSplit (o : MarshalOptions) (m : option pmsg) (meta : gomap string) (eps : list processor_fn) : go format_error (list string) :=
  match m with
  | Some (existT SubRsp r) =>
      match sp_Rsp r with
      | Rsp_Update n =>
          evs ← lift (ResponseToEventMsgs (subscription_name meta)
            (Some (SR_Update (match n with Some n => as_notification n | None => mkNotification 0 None [] [] end))) meta eps);
          mapE (fun e => or_fail errFmtEncode (json_Marshal_event (mo_Multiline o) (mo_Indent o) e)) evs
      | _ => Err errFmtUnsupported
      end
  | _ => Err errFmtUnsupported
  end.

(** [outputs.Marshal]; the message as it is left. *)
Definition MarshalAll (o : MarshalOptions) (m : option pmsg) (meta : gomap string) (splitEvents : bool) (eps : list processor_fn)
    : go format_error (list string) * option pmsg :=
  if String.eqb (mo_Format o) "event" && splitEvents then (marshalSplit o m meta eps, m)
  else let '(b, m) := Marshal now o m meta eps in
       ((b ← b; Ok (if String.eqb b "" then [] else [b])), m).

(** What a worker of a message bus publishes for a message: the response with
    its target (as it was when that fails), marshalled, each piece through the
    message template; what cannot be encoded is left out. The message as it is left. *)
Definition through_template (tpl : option template) (b : string) : option string :=
  match tpl with None => Some b | Some t => match ExecTemplate b t with Ok b => Some b | _ => None end end.
Definition payloads (addTarget : string) (targetTpl : option target_tpl) (o : MarshalOptions) (split : bool) (eps : list processor_fn)
    (msgTpl : option template) (m : option pmsg) (meta : gomap string) : go () (list string) :=
  let '(pm, _) := AddSubscriptionTarget m meta addTarget targetTpl in
  match (MarshalAll o pm meta split eps).1 with
  | Ok bs => Ok (omap (through_template msgTpl) bs) | Err _ => Ok [] | Panic => Panic
  end.

(** ** Lemmas *)

Lemma set_prefix_target_target t n : target_of (nm_Prefix (set_prefix_target t n)) = t.
Proof. by unfold target_of, set_prefix_target. Qed.

Lemma add_target_cases rsp meta a tpl :
  (exists e, AddSubscribeResponseTarget rsp meta a tpl = (rsp, e))
  \/ exists r n t tp, rsp = Some r /\ sp_Rsp r = Rsp_Update (Some n) /\ tpl = Some tp /\ execute_target tp meta = Some t
     /\ (a = AddTargetOverwrite \/ a = AddTargetIfNotPresent /\ target_of (nm_Prefix n) = "")
     /\ AddSubscribeResponseTarget rsp meta a tpl = (Some (mkSubRsp (Rsp_Update (Some (set_prefix_target t n))) (sp_Ext r)), None).
Proof.
  unfold AddSubscribeResponseTarget. destruct rsp as [r|]; [|left; by eexists].
  destruct (String.eqb_spec a ""); [left; by eexists|].
  destruct (sp_Rsp r) as [|[nm|]|] eqn:Hr; [left; by eexists| |left; by eexists..].
  destruct (String.eqb_spec a AddTargetOverwrite) as [Ha|].
  - destruct tpl as [tp|]; [|left; by eexists]. destruct (execute_target tp meta) as [t|] eqn:Ht; [|left; by eexists].
    right. exists r, nm, t, tp. repeat (split; [done|]). split; [by left|done].
  - destruct (String.eqb_spec a AddTargetIfNotPresent) as [Ha|]; [|left; by eexists].
    destruct (String.eqb_spec (target_of (nm_Prefix nm)) "") as [Hn|]; [|left; by eexists].
    destruct tpl as [tp|]; [|left; by eexists]. destruct (execute_target tp meta) as [t|] eqn:Ht; [|left; by eexists].
    right. exists r, nm, t, tp. repeat (split; [done|]). split; [by right|done].
Qed.

(** What a response says apart from the target of its prefix. *)
Definition without_target (r : SubscribeRsp) : SubscribeRsp :=
  match sp_Rsp r with Rsp_Update (Some n) => mkSubRsp (Rsp_Update (Some (set_prefix_target "" n))) (sp_Ext r) | _ => r end.

Lemma set_prefix_target_again t t' n : set_prefix_target t (set_prefix_target t' n) = set_prefix_target t n.
Proof. by destruct n. Qed.

(** * Properties *)

(** Add-target changes nothing of a response but the target of its prefix,
    returns a response for every response and the response itself with an
    error; "if-not-present" keeps a target that is there, and the target put in
    is the text of the template. *)
Theorem add_target_spec (r : SubscribeRsp) (meta : gomap string) (a : string) (tpl : option target_tpl) :
  exists r' e, AddSubscribeResponseTarget (Some r) meta a tpl = (Some r', e)
  /\ without_target r' = without_target r
  /\ (is_Some e -> r' = r)
  /\ (forall n tp t, sp_Rsp r = Rsp_Update (Some n) -> tpl = Some tp -> execute_target tp meta = Some t ->
       a = AddTargetOverwrite \/ a = AddTargetIfNotPresent /\ target_of (nm_Prefix n) = "" ->
       e = None /\ exists n', sp_Rsp r' = Rsp_Update (Some n') /\ target_of (nm_Prefix n') = t)
  /\ (forall n n', sp_Rsp r = Rsp_Update (Some n) -> sp_Rsp r' = Rsp_Update (Some n') ->
       target_of (nm_Prefix n') <> target_of (nm_Prefix n) ->
       (a = AddTargetIfNotPresent -> target_of (nm_Prefix n) = "")
       /\ exists tp, tpl = Some tp /\ execute_target tp meta = Some (target_of (nm_Prefix n'))).
Proof.
  destruct (add_target_cases (Some r) meta a tpl) as [[e He]|(r0 & n & t & tp & Hr0 & Hn & Htp & Ht & Ha & He)].
  - exists r, e. split; [done|]. split; [done|]. split; [done|]. split.
    + intros n tp t Hn -> Ht Ha. cbn in He. rewrite Hn in He.
      destruct Ha as [->|[-> Ha]]; cbn in He; rewrite ?Ha, ?Ht in He; cbn in He; injection He as <- <-; (split; [done|]; eexists; split; [done|]; apply set_prefix_target_target).
    + intros n n' Hn Hn'. rewrite Hn in Hn'. by injection Hn' as ->.
  - injection Hr0 as <-. eexists _, None. split; [exact He|]. split; [|split; [by intros []|split]].
    + unfold without_target. cbn. by rewrite Hn, set_prefix_target_again.
    + intros n0 tp0 t0 Hn0 Htp0 Ht0 _. simplify_eq. split; [done|]. eexists. split; [done|]. apply set_prefix_target_target.
    + intros n0 n' Hn0 Hn' _. rewrite Hn in Hn0. injection Hn0 as <-. cbn in Hn'. injection Hn' as <-. split.
      * intros ->. by destruct Ha as [|[_ ?]].
      * exists tp. split; [done|]. by rewrite set_prefix_target_target.
Qed.

(** With split-events a subscription update is as many JSON documents as
    the unsplit output would put in one list, the same events in the same order. *)
Theorem split_same_events (o : MarshalOptions) (n : NotificationMsg) (exts : list extension) (meta : gomap string) (eps : list processor_fn) (bs : list string)
    (Ho : mo_Format o = "event") (Ht : mo_OverrideTS o = false)
    (Hb : (MarshalAll o (Some (existT SubRsp (mkSubRsp (Rsp_Update (Some n)) exts))) meta true eps).1 = Ok bs) :
  exists evs, Forall2 (fun e b => json_Marshal_event (mo_Multiline o) (mo_Indent o) e = Some b) evs bs
  /\ (MarshalAll o (Some (existT SubRsp (mkSubRsp (Rsp_Update (Some n)) exts))) meta false eps).1
     = if nilb evs then Ok [] else b ← json_text o (VEvents evs); Ok (if String.eqb b "" then [] else [b]).
Proof.
  unfold MarshalAll in *. rewrite Ho in *. cbn in Hb. apply bind_ok in Hb as (evs & He & Hm). exists evs. split.
  - apply mapE_ok in Hm. eapply Forall2_impl; [exact Hm|]. intros e b Heb. cbn in Heb. by destruct (json_Marshal_event _ _ e); cbn in Heb; [injection Heb as ->|].
  - unfold Marshal, OverrideTimestamp. rewrite Ht, Ho. cbn. rewrite He. cbn. by destruct evs.
Qed.
End templates.

(** ** Witnesses and examples *)

Definition templates_toy : Templates := {|
  template := string; CreateTemplate s := if String.eqb s "{{" then None else Some s;
  Execute t v := if String.eqb t "fail" then None else Some t;
  json_Marshal_event _ _ e := match e with Some e => Some (itoa (ev_Timestamp e)) | None => Some "null" end |}.

Definition format_events : FormatEnv := {|
  json_encode ind v := match v with VEvents l => Some (itoa (Z.of_nat (length l))) | _ => Some "" end;
  proto_Marshal _ := Some "p"; protojson_Marshal _ _ _ := Some "{}"; prototext_Marshal _ _ _ := Some "";
  Encoding_String := itoa; DataType_String := itoa; ListMode_String := itoa; SubMode_String := itoa; Operation_String := itoa;
  TypedValue_String _ := "v"; proto_source _ _ := false; decode_extension _ _ := None |}.

#[local] Existing Instances order_fwd env_none fmt_none format_events templates_toy.

Lemma split_same_events_witness :
  exists evs, Forall2 (fun e b => json_Marshal_event false "" e = Some b) evs ["7"; "7"]
  /\ (MarshalAll ex_now (plain_options "event" false) (ex_msg [ex_mtu; ex_mtu]) None false []).1
     = if nilb evs then Ok [] else b ← json_text (plain_options "event" false) (VEvents evs); Ok (if String.eqb b "" then [] else [b]).
Proof.
  apply (split_same_events ex_now (plain_options "event" false) (ex_notif [ex_mtu; ex_mtu]) [] None []); [reflexivity..|by vm_compute].
Defined.

Example target_ex :
  default_target (Some {[ "source" := "r1:57400" ]}) = "r1"
  /\ default_target (Some {[ "source" := "r1:57400"; "subscription-target" := "leaf1" ]}) = "leaf1"
  /\ (AddSubscribeResponseTarget (Some (mkSubRsp (Rsp_Update (Some (ex_notif []))) [])) None "overwrite" None).2 = Some errNoTargetTemplate.
Proof. by vm_compute. Qed.

(** override-timestamps does nothing for split events. *)
Example split_ignores_override :
  (MarshalAll ex_now (plain_options "event" true) (ex_msg [ex_mtu]) None true []).1 = Ok ["7"].
Proof. by vm_compute. Qed.

(** A sync response has no event: nothing to write, but an error when events are split. *)
Example split_sync_error :
  (MarshalAll ex_now (plain_options "event" false) (Some (existT SubRsp (mkSubRsp (Rsp_Sync true) []))) None false []).1 = Ok []
  /\ (MarshalAll ex_now (plain_options "event" false) (Some (existT SubRsp (mkSubRsp (Rsp_Sync true) []))) None true []).1 = Err errFmtUnsupported.
Proof. by vm_compute. Qed.
