(* ===== verification/Workers.v ===== *)
(** * The workers of an output (the outputs of pkg/outputs that restart them)

    The nats, jetstream, kafka, tcp and udp outputs share one scheme: [Init]
    makes a channel, a cancellable context and a wait group and starts workers;
    [Write] loads the pointer to the channel and sends; [Update] publishes a new
    configuration and, when it has to, starts new workers under a new context,
    with or without a new channel, cancels the old context, waits for the old
    workers and moves what is left in the old channel to the new one. [Close]
    cancels and waits.

    A step is what one goroutine does between two points where others may run.
    [Update] and [Close] leave a program of blocking instructions behind
    ([s_prog]); workers and writers run between them. What differs from one
    output to the next is in its own file: when it restarts, how many workers it
    starts, under which context, and the order of the instructions.

    A context is the list of the [WithCancel] calls it derives from, innermost
    first; cancelling one ends all contexts that have it. The number 0 is the
    context of the application. A context and the wait group made with it have
    the same number. A channel is its place in
    [s_chans]. Ghost lists record the messages accepted by a channel or handed
    over by a writer, those a worker took, and those a drain threw away; the
    outputs keep no count of these. [Close] is not called while an [Update] runs. *)

From stdpp Require Import list relations.
From S2P Require Import Prelude.

#[local] Open Scope nat_scope.

Section workers.
Context {I C M : Type}.

Definition context : Type := list nat.

Record chan := mkChan { ch_cap : nat; ch_buf : list M }.
Record worker := mkWorker { w_ctx : context; w_chans : list nat; w_wg : nat }.

(** The output: its configuration, the context [Update] derives from, the
    context its [cancelFn] cancels (and its wait group), its channels; and the
    number of workers last started. *)
Record out := mkOut { o_cfg : C; o_root : context; o_cancelFn : nat; o_chans : list nat; o_started : nat }.

(** [IDrain ctx old new hand]: messages of the channels [old] are sent to those
    of [new] without blocking, until there are none (or [ctx] is done); [hand]
    is a message received and not yet sent. *)
Inductive instr :=
| ICancel (g : nat)
| IWait (g : nat)
| IDrain (ctx : option context) (moves : list (nat * nat)) (hand : option (nat * M)).

Record sys := mkSys {
  s_out : out; s_next : nat; s_cancelled : list nat; s_chans : list chan; s_workers : list worker;
  s_prog : list instr; s_writers : list (nat * M); s_closed : bool;
  s_accepted : list M; s_taken : list M; s_dropped : list M }.

(** ** Primitives *)

Definition done (s : sys) (c : context) : bool := existsb (fun g => bool_decide (g ∈ s_cancelled s)) c.
Definition live (s : sys) (w : worker) : bool := negb (done s (w_ctx w)).

Definition make_chans (caps : list nat) (s : list chan) : list chan := s ++ ((fun c => mkChan c []) <$> caps).

(** Start [n] workers under a new context derived from [root], with new channels
    of the capacities [swap] or those there are. *)
Definition start (cfg : C) (root : context) (n : nat) (swap : option (list nat)) (prog : out -> out -> list instr) (s : sys) : sys :=
  let o := s_out s in
  let g := s_next s in
  let chans := match swap with Some caps => seq (length (s_chans s)) (length caps) | None => o_chans o end in
  let o' := mkOut cfg (o_root o) g chans n in
  mkSys o' (S g) (s_cancelled s) (match swap with Some caps => make_chans caps (s_chans s) | None => s_chans s end)
    (s_workers s ++ replicate n (mkWorker (g :: root) chans g)) (prog o o') (s_writers s) (s_closed s) (s_accepted s) (s_taken s) (s_dropped s).

(** The output stores its configuration and goes on. *)
Definition keep (cfg : C) (s : sys) : sys :=
  let o := s_out s in
  mkSys (mkOut cfg (o_root o) (o_cancelFn o) (o_chans o) (o_started o)) (s_next s) (s_cancelled s) (s_chans s) (s_workers s)
    (s_prog s) (s_writers s) (s_closed s) (s_accepted s) (s_taken s) (s_dropped s).

(** The end of an [Update] of most outputs: cancel, wait, and drain a channel that was swapped. *)
Definition stop_then_drain (swapped : bool) (o o' : out) : list instr :=
  [ICancel (o_cancelFn o); IWait (o_cancelFn o)] ++ (if swapped then [IDrain None (zip (o_chans o) (o_chans o')) None] else []).
(** That of kafka: drain, whether the channel was swapped or not, then cancel and wait. *)
Definition drain_then_stop (o o' : out) : list instr :=
  [IDrain (Some [0]) (zip (o_chans o) (o_chans o')) None; ICancel (o_cancelFn o); IWait (o_cancelFn o)].

(** After [Init]: [n] workers under a context derived from the application's,
    which is also the root of later contexts when [derived_root]. *)
Definition init (cfg : C) (derived_root : bool) (n : nat) (caps : list nat) : sys :=
  let chans := seq 0 (length caps) in
  mkSys (mkOut cfg (if derived_root then [1; 0] else [0]) 1 chans n) 2 [] (make_chans caps [])
    (replicate n (mkWorker [1; 0] chans 1)) [] [] false [] [] [].

(** [Close] *)
Definition close (s : sys) : sys :=
  mkSys (s_out s) (s_next s) (s_cancelled s) (s_chans s) (s_workers s)
    [ICancel (o_cancelFn (s_out s)); IWait (o_cancelFn (s_out s))] (s_writers s) true (s_accepted s) (s_taken s) (s_dropped s).

(** The end of a call of [Update], up to its first blocking instruction: the
    error next to the state it leaves, or a panic, which ends the program. *)
Inductive result (E : Type) := Updated (s : sys) | Refused (e : E) (s : sys) | Panics.
Definition state_after {E} (s : sys) (r : result E) : sys :=
  match r with Updated _ s' | Refused _ _ s' => s' | Panics _ => s end.

(** ** Channels *)

Definition set_chans (f : list chan -> list chan) (s : sys) : sys :=
  mkSys (s_out s) (s_next s) (s_cancelled s) (f (s_chans s)) (s_workers s) (s_prog s) (s_writers s) (s_closed s) (s_accepted s) (s_taken s) (s_dropped s).
Definition set_writers (w : list (nat * M)) (s : sys) : sys :=
  mkSys (s_out s) (s_next s) (s_cancelled s) (s_chans s) (s_workers s) (s_prog s) w (s_closed s) (s_accepted s) (s_taken s) (s_dropped s).
Definition set_prog (p : list instr) (s : sys) : sys :=
  mkSys (s_out s) (s_next s) (s_cancelled s) (s_chans s) (s_workers s) p (s_writers s) (s_closed s) (s_accepted s) (s_taken s) (s_dropped s).
Definition set_workers (w : list worker) (s : sys) : sys :=
  mkSys (s_out s) (s_next s) (s_cancelled s) (s_chans s) w (s_prog s) (s_writers s) (s_closed s) (s_accepted s) (s_taken s) (s_dropped s).
Definition add_cancelled (g : nat) (s : sys) : sys :=
  mkSys (s_out s) (s_next s) (g :: s_cancelled s) (s_chans s) (s_workers s) (s_prog s) (s_writers s) (s_closed s) (s_accepted s) (s_taken s) (s_dropped s).
Definition accept (m : M) (s : sys) : sys :=
  mkSys (s_out s) (s_next s) (s_cancelled s) (s_chans s) (s_workers s) (s_prog s) (s_writers s) (s_closed s) (m :: s_accepted s) (s_taken s) (s_dropped s).
Definition taken (m : M) (s : sys) : sys :=
  mkSys (s_out s) (s_next s) (s_cancelled s) (s_chans s) (s_workers s) (s_prog s) (s_writers s) (s_closed s) (s_accepted s) (m :: s_taken s) (s_dropped s).
Definition dropped (m : M) (s : sys) : sys :=
  mkSys (s_out s) (s_next s) (s_cancelled s) (s_chans s) (s_workers s) (s_prog s) (s_writers s) (s_closed s) (s_accepted s) (s_taken s) (m :: s_dropped s).

(** A message put into a channel that has room. *)
Definition push (ch : nat) (m : M) (s : sys) : option sys :=
  c ← s_chans s !! ch;
  if length (ch_buf c) <? ch_cap c then Some (set_chans (<[ch := mkChan (ch_cap c) (ch_buf c ++ [m])]>) s) else None.

(** A message received from a channel: the first in its buffer, or that of a
    writer that waits when the buffer is empty. *)
Inductive recv (ch : nat) (m : M) (s : sys) : sys -> Prop :=
| recv_buf c rest : s_chans s !! ch = Some c -> ch_buf c = m :: rest ->
    recv ch m s (set_chans (<[ch := mkChan (ch_cap c) rest]>) s)
| recv_writer c i : s_chans s !! ch = Some c -> ch_buf c = [] -> s_writers s !! i = Some (ch, m) ->
    recv ch m s (accept m (set_writers (delete i (s_writers s)) s)).

(** A receive that would not wait: a drain ends when there is none. A writer that
    loaded the pointer to the channel may not have reached it yet, so the drain may
    end before it. *)
Definition ready (ch : nat) (s : sys) : bool :=
  match s_chans s !! ch with Some c => negb (nilb (ch_buf c)) | None => false end.

(** ** Steps *)

(** One instruction of an [Update] or [Close]. *)
Inductive istep : sys -> sys -> Prop :=
| istep_cancel s g p : s_prog s = ICancel g :: p -> istep s (set_prog p (add_cancelled g s))
| istep_wait s g p : s_prog s = IWait g :: p -> Forall (fun w => w_wg w <> g) (s_workers s) -> istep s (set_prog p s)
| istep_recv s ctx moves p old new m s' : s_prog s = IDrain ctx moves None :: p -> (old, new) ∈ moves ->
    recv old m s s' -> istep s (set_prog (IDrain ctx moves (Some (new, m)) :: p) s')
| istep_send s ctx moves new m p s' : s_prog s = IDrain ctx moves (Some (new, m)) :: p -> push new m s = Some s' ->
    istep s (set_prog (IDrain ctx moves None :: p) s')
| istep_handover s ctx moves new m p w : s_prog s = IDrain ctx moves (Some (new, m)) :: p -> push new m s = None ->
    w ∈ s_workers s -> new ∈ w_chans w -> istep s (set_prog (IDrain ctx moves None :: p) (taken m s))
| istep_drop s ctx moves new m p : s_prog s = IDrain ctx moves (Some (new, m)) :: p -> push new m s = None ->
    istep s (set_prog (IDrain ctx moves None :: p) (dropped m s))
| istep_empty s ctx moves p : s_prog s = IDrain ctx moves None :: p ->
    Forall (fun mv => ready mv.1 s = false) moves -> istep s (set_prog p s)
| istep_ctx s c moves p : s_prog s = IDrain (Some c) moves None :: p -> done s c = true -> istep s (set_prog p s).

(** [upd] is the output's [Update], up to its first blocking instruction. *)
Context (upd : I -> sys -> sys).

Inductive step : sys -> sys -> Prop :=
| step_instr s s' : istep s s' -> step s s'
| step_write s ch m : ch ∈ o_chans (s_out s) -> step s (set_writers (s_writers s ++ [(ch, m)]) s)
| step_send s i ch m s' : s_writers s !! i = Some (ch, m) -> push ch m s = Some s' ->
    step s (accept m (set_writers (delete i (s_writers s)) s'))
| step_expire s i : step s (set_writers (delete i (s_writers s)) s)
| step_take s w ch m s' : w ∈ s_workers s -> ch ∈ w_chans w -> recv ch m s s' -> step s (taken m s')
| step_exit s i w : s_workers s !! i = Some w -> live s w = false -> step s (set_workers (delete i (s_workers s)) s)
| step_update s i : s_prog s = [] -> step s (upd i s)
| step_close s : s_prog s = [] -> step s (close s)
| step_shutdown s : step s (add_cancelled 0 s).

Definition reach : sys -> sys -> Prop := rtc step.

(** What [Update] may do: fail before or after it stores the configuration,
    keep the workers, or restart them. *)
Class Restarts : Prop := restarts : forall i s, s_prog s = [] ->
  upd i s = s \/ (exists cfg, upd i s = keep cfg s)
  \/ exists cfg n swap prog, upd i s = start cfg (o_root (s_out s)) n swap prog s
     /\ (prog = drain_then_stop \/ exists b, prog = stop_then_drain b).

(** The workers that should run. *)
Definition current (s : sys) : worker := mkWorker (o_cancelFn (s_out s) :: o_root (s_out s)) (o_chans (s_out s)) (o_cancelFn (s_out s)).

(** ** Invariants *)

Definition waits (s : sys) (g : nat) : Prop := IWait g ∈ s_prog s.

Record winv (s : sys) : Prop := {
  wi_root : forall g, g ∈ o_root (s_out s) -> g = 0;
  wi_fn : 0 < o_cancelFn (s_out s) < s_next s;
  wi_open : s_closed s = false -> o_cancelFn (s_out s) ∉ s_cancelled s;
  wi_cancelled : forall g, g ∈ s_cancelled s -> g < s_next s;
  wi_prog : forall g, ICancel g ∈ s_prog s -> g < s_next s /\ (s_closed s = false -> g <> o_cancelFn (s_out s));
  wi_workers : forall w, w ∈ s_workers s -> w_wg w < s_next s
    /\ (w = current s \/ waits s (w_wg w) /\ w_wg w <> o_cancelFn (s_out s));
  wi_count : s_closed s = false -> 0 ∉ s_cancelled s ->
    length (filter (fun w => w_wg w = o_cancelFn (s_out s)) (s_workers s)) = o_started (s_out s)
}.
End workers.
Arguments chan M : clear implicits.
Arguments out C : clear implicits.
Arguments sys C M : clear implicits.
Arguments instr M : clear implicits.
Arguments result C M E : clear implicits.
Arguments Updated {C M E} s.
Arguments Refused {C M E} e s.
Arguments Panics {C M E}.

#[local] Ltac core := cbn [s_out s_next s_cancelled s_chans s_workers s_prog s_writers s_closed s_accepted s_taken s_dropped
  set_chans set_writers set_prog set_workers add_cancelled accept taken dropped keep start close o_cfg o_root o_cancelFn o_chans o_started
  w_ctx w_chans w_wg] in *.

Section proofs.
Context {I C M : Type}.
Implicit Types (s : sys C M) (w : worker).

(** Two states with the same output, contexts and workers. *)
Record same s s' : Prop := {
  sm_out : s_out s' = s_out s; sm_next : s_next s' = s_next s; sm_cancelled : s_cancelled s' = s_cancelled s;
  sm_workers : s_workers s' = s_workers s; sm_closed : s_closed s' = s_closed s }.

Lemma recv_same ch m s s' : recv ch m s s' -> same s s' /\ s_prog s' = s_prog s.
Proof. by destruct 1. Qed.

Lemma push_same ch m s s' : push ch m s = Some s' -> same s s' /\ s_prog s' = s_prog s.
Proof.
  unfold push. destruct (s_chans s !! ch) as [c|]; cbn; [|done]. case_match; [|done]. by intros [= <-].
Qed.

Lemma same_current s s' : same s s' -> current s' = current s.
Proof. intros []. unfold current. by rewrite sm_out0. Qed.

Lemma winv_same s s' : winv s -> same s s' ->
  (forall g, ICancel g ∈ s_prog s' -> ICancel g ∈ s_prog s) ->
  (forall g, IWait g ∈ s_prog s -> IWait g ∈ s_prog s' \/ Forall (fun w => w_wg w <> g) (s_workers s)) -> winv s'.
Proof.
  intros [Hr Hf Ho Hc Hp Hw Hn] Hsame Hpc Hpw. pose proof (same_current _ _ Hsame) as Hcur.
  destruct Hsame as [E1 E2 E3 E4 E5]. split; rewrite ?E1, ?E2, ?E3, ?E4, ?E5; [done..| | |done].
  - intros g Hg. by apply Hp, Hpc.
  - intros w Hin. destruct (Hw w Hin) as [Hlt [Hw'|[Hwait Hne]]]; split; [done|left; congruence|done|].
    destruct (Hpw _ Hwait) as [Hwait'|Hall]; [by right|]. rewrite Forall_forall in Hall. by apply Hall in Hin.
Qed.

(** Rewriting the program without adding to it. *)
Lemma winv_prog s s' i p p' : winv s -> same s s' -> s_prog s = i :: p ->
  (forall g, ICancel g ∈ p' -> ICancel g ∈ i :: p) ->
  (forall g, IWait g ∈ i :: p -> IWait g ∈ p' \/ Forall (fun w => w_wg w <> g) (s_workers s)) -> winv (set_prog p' s').
Proof. intros Hinv [] Hp H1 H2. apply (winv_same s); [done|done|..]; cbn; by rewrite Hp. Qed.

Lemma drain_prog (ctx ctx' : option context) (mv mv' : list (nat * nat)) (h h' : option (nat * M)) p :
  (forall g, ICancel g ∈ IDrain ctx' mv' h' :: p -> ICancel g ∈ IDrain ctx mv h :: p)
  /\ (forall g, IWait g ∈ IDrain ctx mv h :: p -> IWait g ∈ IDrain ctx' mv' h' :: p)
  /\ (forall g, ICancel g ∈ p -> ICancel g ∈ IDrain ctx mv h :: p)
  /\ (forall g, IWait g ∈ IDrain ctx mv h :: p -> IWait g ∈ p).
Proof. split_and!; intros g; rewrite ?elem_of_cons; intuition congruence. Qed.

Lemma istep_winv s s' : winv s -> istep s s' -> winv s'.
Proof.
  intros Hinv. destruct 1 as [s g p Hp|s g p Hp Hall|s ctx mv p old new m s' Hp Hin Hr|s ctx mv new m p s' Hp Hs|s ctx mv new m p w Hp Hs Hw Hc
    |s ctx mv new m p Hp Hs|s ctx mv p Hp Hall|s c mv p Hp Hd].
  - destruct Hinv as [Hr Hf Ho Hc Hpr Hw Hn]. assert (Hg : ICancel g ∈ s_prog s) by (rewrite Hp; by left). destruct (Hpr g Hg) as [Hlt Hne].
    split; core; [done|done| | | | |].
    + intros Hcl [He|Hin]%elem_of_cons; [by apply (Hne Hcl)|by apply (Ho Hcl)].
    + intros g' [->|Hin]%elem_of_cons; [done|by apply Hc].
    + intros g' Hg'. apply Hpr. rewrite Hp. by right.
    + intros w Hin. destruct (Hw w Hin) as [Hl [Hw'|[Hwt Hnw]]]; split; [done|by left|done|right; split; [|done]].
      unfold waits in *. core. rewrite Hp in Hwt. by apply elem_of_cons in Hwt as [|].
    + intros Hcl H0. apply Hn; [done|]. intros Hin. apply H0. by right.
  - apply (winv_prog s s _ _ _ Hinv ltac:(done) Hp).
    + intros g' Hg'. by right.
    + intros g' [[= ->]|Hg']%elem_of_cons; [by right|by left].
  - destruct (recv_same _ _ _ _ Hr) as [Hsm _]. apply (winv_prog s s' _ _ _ Hinv Hsm Hp); [apply drain_prog|].
    intros g Hg. left. by eapply (proj1 (proj2 (drain_prog _ _ _ _ _ _ _))).
  - destruct (push_same _ _ _ _ Hs) as [Hsm _]. apply (winv_prog s s' _ _ _ Hinv Hsm Hp); [apply drain_prog|].
    intros g Hg. left. by eapply (proj1 (proj2 (drain_prog _ _ _ _ _ _ _))).
  - apply (winv_prog s (taken m s) _ _ _ Hinv ltac:(done) Hp); [apply drain_prog|].
    intros g Hg. left. by eapply (proj1 (proj2 (drain_prog _ _ _ _ _ _ _))).
  - apply (winv_prog s (dropped m s) _ _ _ Hinv ltac:(done) Hp); [apply drain_prog|].
    intros g Hg. left. by eapply (proj1 (proj2 (drain_prog _ _ _ _ _ _ _))).
  - apply (winv_prog s s _ _ _ Hinv ltac:(done) Hp); [intros g Hg; by right|].
    intros g [[=]|Hg]%elem_of_cons. by left.
  - apply (winv_prog s s _ _ _ Hinv ltac:(done) Hp); [intros g Hg; by right|].
    intros g [[=]|Hg]%elem_of_cons. by left.
Qed.

Lemma filter_delete_other {A} (P : A -> Prop) `{!forall x, Decision (P x)} (l : list A) i x :
  l !! i = Some x -> ~ P x -> filter P (delete i l) = filter P l.
Proof.
  intros Hi HP. rewrite <-(take_drop_middle l i x Hi) at 2. rewrite delete_take_drop, !filter_app. f_equal. cbn. by rewrite decide_False.
Qed.

Lemma elem_delete {A} (l : list A) i x : x ∈ delete i l -> x ∈ l.
Proof. intros Hx. eapply elem_of_submseteq; [exact Hx|]. apply sublist_submseteq, sublist_delete. Qed.

Lemma all_current s : winv s -> s_prog s = [] -> forall w, w ∈ s_workers s -> w = current s.
Proof. intros Hinv Hp w Hw. destruct (wi_workers _ Hinv w Hw) as [_ [|[Hwt _]]]; [done|]. unfold waits in Hwt. rewrite Hp in Hwt. by apply elem_of_nil in Hwt. Qed.

Lemma current_worker_live s : winv s -> s_closed s = false -> 0 ∉ s_cancelled s -> live s (current s) = true.
Proof.
  intros Hinv Hcl H0. unfold live, done. apply negb_true_iff. apply not_true_iff_false. intros (g & Hg & Hd)%existsb_exists.
  apply bool_decide_eq_true in Hd. cbn in Hg. destruct Hg as [<-|Hg]; [by apply (wi_open _ Hinv Hcl)|].
  apply list_elem_of_In in Hg. apply (wi_root _ Hinv) in Hg as ->. done.
Qed.

Lemma exit_winv s i w : winv s -> s_workers s !! i = Some w -> live s w = false -> winv (set_workers (delete i (s_workers s)) s).
Proof.
  intros Hinv Hi Hl. pose proof (wi_workers _ Hinv w (list_elem_of_lookup_2 _ _ _ Hi)) as [_ Hw]. split; core; try apply Hinv.
  - intros w' Hw'%elem_delete. by apply (wi_workers _ Hinv).
  - intros Hcl H0. rewrite <-(wi_count _ Hinv Hcl H0). f_equal. apply (filter_delete_other _ _ i w Hi).
    intros He. destruct Hw as [->|[_ Hne]]; [|done]. by rewrite current_worker_live in Hl.
Qed.

Lemma shutdown_winv s : winv s -> winv (add_cancelled 0 s).
Proof.
  intros Hinv. pose proof (wi_fn _ Hinv) as Hf. split; core; try apply Hinv.
  - intros Hcl [He|Hin]%elem_of_cons; [lia|by apply (wi_open _ Hinv Hcl)].
  - intros g [->|Hg]%elem_of_cons; [lia|by apply (wi_cancelled _ Hinv)].
  - intros _ Hn. exfalso. apply Hn. by left.
Qed.

Lemma close_winv s : winv s -> s_prog s = [] -> winv (close s).
Proof.
  intros Hinv Hp. split; core; try apply Hinv; [done| | |done].
  - intros g [[= ->]|[[=]|[]%elem_of_nil]%elem_of_cons]%elem_of_cons. split; [apply (wi_fn _ Hinv)|done].
  - intros w Hw. split; [by apply (wi_workers _ Hinv)|]. left. by apply (all_current s).
Qed.

Lemma keep_winv cfg s : winv s -> winv (keep cfg s).
Proof. intros Hinv. split; core; apply Hinv. Qed.

Lemma stops_prog (o o' : out C) (prog : out C -> out C -> list (instr M)) :
  prog = drain_then_stop \/ (exists b, prog = stop_then_drain b) ->
  (forall g, ICancel g ∈ prog o o' <-> g = o_cancelFn o) /\ (forall g, IWait g ∈ prog o o' <-> g = o_cancelFn o)
  /\ forall ctx mv h, IDrain ctx mv (Some h) ∉ prog o o'.
Proof.
  intros [-> | [[] ->]]; unfold drain_then_stop, stop_then_drain; cbn; split_and!; intros; rewrite ?elem_of_cons, ?elem_of_nil; intuition congruence.
Qed.

Lemma start_winv cfg n swap prog s : winv s -> s_prog s = [] -> prog = drain_then_stop \/ (exists b, prog = stop_then_drain b) ->
  winv (start cfg (o_root (s_out s)) n swap prog s).
Proof.
  intros Hinv Hp Hprog. pose proof (wi_fn _ Hinv) as Hf.
  set (o' := mkOut cfg (o_root (s_out s)) (s_next s) (match swap with Some caps => seq (length (s_chans s)) (length caps) | None => o_chans (s_out s) end) n).
  destruct (stops_prog (s_out s) o' prog Hprog) as (Hcn & Hwt & _).
  split; core.
  - apply Hinv.
  - lia.
  - intros _ Hin%(wi_cancelled _ Hinv). lia.
  - intros g Hg%(wi_cancelled _ Hinv). lia.
  - intros g Hg%Hcn. subst g. split; [lia|]. intros _. lia.
  - intros w [Hw|Hw]%elem_of_app.
    + pose proof (all_current s Hinv Hp w Hw) as ->. core. split; [unfold current; core; lia|]. right. split; [by apply Hwt|unfold current; core; lia].
    + apply elem_of_replicate in Hw as [-> _]. core. split; [lia|]. by left.
  - intros _ _. rewrite filter_app, length_app.
    rewrite filter_none.
    + rewrite filter_all by by apply Forall_replicate. apply length_replicate.
    + apply Forall_forall. intros w Hw. pose proof (all_current s Hinv Hp w Hw) as ->. unfold current. core. lia.
Qed.

Context (upd : I -> sys C M -> sys C M) `{!Restarts upd}.

Lemma step_winv s s' : winv s -> step upd s s' -> winv s'.
Proof.
  intros Hinv. destruct 1 as [s s' Hi|s ch m Hch|s i ch m s' Hw Hs|s i|s w ch m s' Hw Hch Hr|s i w Hi Hl|s cfg Hp|s Hp|s].
  - by eapply istep_winv.
  - apply (winv_same s); [done..|]. intros g Hg. by left.
  - destruct (push_same _ _ _ _ Hs) as [[] Hp]. apply (winv_same s); [done|by split|..]; cbn; rewrite Hp; [done|by left].
  - apply (winv_same s); [done..|]. intros g Hg. by left.
  - destruct (recv_same _ _ _ _ Hr) as [[] Hp]. apply (winv_same s); [done|by split|..]; cbn; rewrite Hp; [done|by left].
  - by apply (exit_winv s i w).
  - destruct (restarts upd cfg s Hp) as [-> | [[c' ->] | (c' & n & swap & prog & -> & Hprog)]]; [done|by apply keep_winv|by apply start_winv].
  - by apply close_winv.
  - by apply shutdown_winv.
Qed.

Lemma reach_winv s s' : winv s -> reach upd s s' -> winv s'.
Proof. intros Hinv. induction 1 as [|s s1 s2 Hs _ IH]; [done|]. apply IH. by eapply step_winv. Qed.

(** At rest the workers are the current ones, as many as were started. *)
Lemma workers_at_rest s : winv s -> s_prog s = [] -> s_closed s = false -> 0 ∉ s_cancelled s ->
  s_workers s = replicate (o_started (s_out s)) (current s) /\ live s (current s) = true.
Proof.
  intros Hinv Hp Hcl H0. split; [|by apply current_worker_live]. rewrite <-(wi_count _ Hinv Hcl H0).
  pose proof (all_current s Hinv Hp) as Hall. clear Hinv Hp.
  assert (Hf : filter (fun w => w_wg w = o_cancelFn (s_out s)) (s_workers s) = s_workers s).
  { apply filter_all. apply Forall_forall. intros w Hw. by rewrite (Hall w Hw). }
  rewrite Hf. symmetry. by apply replicate_as_elem_of.
Qed.

(** ** Exactly as many workers as configured *)

(** The output starts the configured number, and restarts when it changes. *)
Class ExactCount (workers_of : C -> nat) : Prop := exact_count : forall i s, s_prog s = [] ->
  upd i s = s \/ (exists cfg, upd i s = keep cfg s /\ workers_of cfg = workers_of (o_cfg (s_out s)))
  \/ exists cfg root n swap prog, upd i s = start cfg root n swap prog s /\ n = workers_of cfg.

Definition count_ok (workers_of : C -> nat) s : Prop := o_started (s_out s) = workers_of (o_cfg (s_out s)).

Lemma step_count workers_of `{!ExactCount workers_of} s s' : count_ok workers_of s -> step upd s s' -> count_ok workers_of s'.
Proof.
  unfold count_ok. intros Hc. destruct 1 as [s s' Hi|s ch m Hch|s i ch m s' Hw Hs|s i|s w ch m s' Hw Hch Hr|s i w Hi Hl|s cfg Hp|s Hp|s]; try done.
  - destruct Hi as [s g p Hp|s g p Hp Hall|s ctx mv p old new m s' Hp Hin Hr|s ctx mv new m p s' Hp Hs|s ctx mv new m p w Hp Hs Hw Hch
      |s ctx mv new m p Hp Hs|s ctx mv p Hp Hall|s c mv p Hp Hd]; try done; cbn.
    + destruct (recv_same _ _ _ _ Hr) as [[-> _ _ _ _] _]. done.
    + destruct (push_same _ _ _ _ Hs) as [[-> _ _ _ _] _]. done.
  - cbn. destruct (push_same _ _ _ _ Hs) as [[-> _ _ _ _] _]. done.
  - cbn. destruct (recv_same _ _ _ _ Hr) as [[-> _ _ _ _] _]. done.
  - destruct (exact_count cfg s Hp) as [-> | [(c' & -> & Hk) | (c' & root & n & swap & prog & -> & ->)]]; [done| |done]. cbn. by rewrite Hc.
Qed.

Lemma reach_count workers_of `{!ExactCount workers_of} s s' : count_ok workers_of s -> reach upd s s' -> count_ok workers_of s'.
Proof. intros Hc. induction 1 as [|s s1 s2 Hs _ IH]; [done|]. apply IH. by eapply step_count. Qed.

(** ** A root context that is cancelled with the workers *)

(** Every worker derives from the root, and a context of the root is, or is
    about to be, cancelled. *)
Definition derived s : Prop := Forall (fun w => forall g, g ∈ o_root (s_out s) -> g ∈ w_ctx w) (s_workers s).
Definition doomed s : Prop := exists g, g ∈ o_root (s_out s) /\ (g ∈ s_cancelled s \/ ICancel g ∈ s_prog s).

Lemma derived_same s s' : derived s -> s_out s' = s_out s -> (forall w, w ∈ s_workers s' -> w ∈ s_workers s) -> derived s'.
Proof. unfold derived. rewrite !Forall_forall. intros Hd -> Hw w Hin. by apply Hd, Hw. Qed.

Lemma doomed_same s s' : doomed s -> s_out s' = s_out s -> (forall g, g ∈ s_cancelled s -> g ∈ s_cancelled s') ->
  (forall g, ICancel g ∈ s_prog s -> ICancel g ∈ s_prog s' \/ g ∈ s_cancelled s') -> doomed s'.
Proof.
  intros (g & Hg & Hd) E Hc Hp. exists g. split; [by rewrite E|]. destruct Hd as [Hd%Hc|[|]%Hp]; [by left|by right|by left].
Qed.

Lemma istep_doomed s s' : istep s s' -> derived s /\ doomed s -> derived s' /\ doomed s'.
Proof.
  intros Hi [Hv Hd]. destruct Hi as [s g p Hp|s g p Hp Hall|s ctx mv p old new m s' Hp Hin Hr|s ctx mv new m p s' Hp Hs|s ctx mv new m p w Hp Hs Hw Hch
      |s ctx mv new m p Hp Hs|s ctx mv p Hp Hall|s c mv p Hp Hc].
  - split; [exact Hv|]. apply (doomed_same s); [done|done|by right|]. rewrite Hp. intros g' [[= ->]|Hg]%elem_of_cons; [right; by left|by left].
  - split; [exact Hv|]. apply (doomed_same s); [done..|]. rewrite Hp. intros g' [[=]|Hg]%elem_of_cons. by left.
  - destruct (recv_same _ _ _ _ Hr) as [[E1 E2 E3 E4 E5] E6]. split.
    + apply (derived_same s); [done|done|]. cbn. by rewrite E4.
    + apply (doomed_same s); [done|done|cbn; by rewrite E3|]. rewrite Hp. intros g [[=]|Hg]%elem_of_cons. left. by right.
  - destruct (push_same _ _ _ _ Hs) as [[E1 E2 E3 E4 E5] E6]. split.
    + apply (derived_same s); [done|done|]. cbn. by rewrite E4.
    + apply (doomed_same s); [done|done|cbn; by rewrite E3|]. rewrite Hp. intros g [[=]|Hg]%elem_of_cons. left. by right.
  - split; [exact Hv|]. apply (doomed_same s); [done..|]. rewrite Hp. intros g' [[=]|Hg]%elem_of_cons. left. by right.
  - split; [exact Hv|]. apply (doomed_same s); [done..|]. rewrite Hp. intros g' [[=]|Hg]%elem_of_cons. left. by right.
  - split; [exact Hv|]. apply (doomed_same s); [done..|]. rewrite Hp. intros g' [[=]|Hg]%elem_of_cons. by left.
  - split; [exact Hv|]. apply (doomed_same s); [done..|]. rewrite Hp. intros g' [[=]|Hg]%elem_of_cons. by left.
Qed.

Lemma step_doomed s s' : step upd s s' -> derived s /\ doomed s -> derived s' /\ doomed s'.
Proof.
  intros Hst [Hv Hd]. destruct Hst as [s s' Hi|s ch m Hch|s i ch m s' Hw Hs|s i|s w ch m s' Hw Hch Hr|s i w Hi Hl|s cfg Hp|s Hp|s]; try done.
  - by eapply istep_doomed.
  - destruct (push_same _ _ _ _ Hs) as [[E1 E2 E3 E4 E5] E6]. split.
    + apply (derived_same s); [done|done|]. cbn. by rewrite E4.
    + apply (doomed_same s); [done|done|cbn; by rewrite E3|]. cbn. rewrite E6. by left.
  - destruct (recv_same _ _ _ _ Hr) as [[E1 E2 E3 E4 E5] E6]. split.
    + apply (derived_same s); [done|done|]. cbn. by rewrite E4.
    + apply (doomed_same s); [done|done|cbn; by rewrite E3|]. cbn. rewrite E6. by left.
  - split; [|done]. apply (derived_same s); [done|done|]. intros w'. apply elem_delete.
  - destruct (restarts upd cfg s Hp) as [-> | [[c' ->] | (c' & n & swap & prog & -> & Hprog)]]; [done|done|].
    split.
    + apply Forall_app. split; [exact Hv|]. apply Forall_replicate. cbn. intros g Hg. by right.
    + destruct Hd as (g & Hg & [Hc|Hpr]); [|rewrite Hp in Hpr; by apply elem_of_nil in Hpr]. exists g. split; [done|by left].
  - split; [exact Hv|]. apply (doomed_same s); [done..|]. rewrite Hp. intros g Hg. by apply elem_of_nil in Hg.
  - split; [exact Hv|]. apply (doomed_same s); [done|done|by right|by left].
Qed.

Lemma reach_doomed s s' : reach upd s s' -> derived s -> doomed s -> derived s' /\ doomed s'.
Proof. intros Hr Hv Hd. induction Hr as [|s s1 s2 Hs _ IH]; [done|]. destruct (step_doomed _ _ Hs (conj Hv Hd)). by apply IH. Qed.

Lemma doomed_dead s : derived s -> doomed s -> s_prog s = [] -> Forall (fun w => live s w = false) (s_workers s).
Proof.
  intros Hv (g & Hg & Hd) Hp. destruct Hd as [Hd|Hd]; [|rewrite Hp in Hd; by apply elem_of_nil in Hd].
  eapply Forall_impl; [exact Hv|]. intros w Hw. cbn in Hw. unfold live, done. apply negb_false_iff. apply existsb_exists.
  exists g. split; [by apply list_elem_of_In, Hw|by apply bool_decide_eq_true].
Qed.

(** A restart that cancels a context of the root. *)
Lemma start_doomed cfg n swap prog s : derived s -> o_cancelFn (s_out s) ∈ o_root (s_out s) ->
  prog = drain_then_stop \/ (exists b, prog = stop_then_drain b) ->
  let s' := start cfg (o_root (s_out s)) n swap prog s in derived s' /\ doomed s'.
Proof.
  intros Hv Hg Hprog. cbv zeta. split.
  - apply Forall_app. split; [exact Hv|]. apply Forall_replicate. cbn. intros g Hg'. by right.
  - exists (o_cancelFn (s_out s)). split; [exact Hg|]. right. by apply (proj1 (stops_prog _ _ prog Hprog)).
Qed.

Lemma step_derived s s' : step upd s s' -> derived s -> derived s'.
Proof.
  intros Hst Hv. destruct Hst as [s s' Hi|s ch m Hch|s i ch m s' Hw Hs|s i|s w ch m s' Hw Hch Hr|s i w Hi Hl|s cfg Hp|s Hp|s]; try done.
  - destruct Hi as [s g p Hp|s g p Hp Hall|s ctx mv p old new m s' Hp Hin Hr|s ctx mv new m p s' Hp Hs|s ctx mv new m p w Hp Hs Hw Hch
      |s ctx mv new m p Hp Hs|s ctx mv p Hp Hall|s c mv p Hp Hc]; try done.
    + destruct (recv_same _ _ _ _ Hr) as [[E1 _ _ E4 _] _]. apply (derived_same s); [done|done|]. cbn. by rewrite E4.
    + destruct (push_same _ _ _ _ Hs) as [[E1 _ _ E4 _] _]. apply (derived_same s); [done|done|]. cbn. by rewrite E4.
  - destruct (push_same _ _ _ _ Hs) as [[E1 _ _ E4 _] _]. apply (derived_same s); [done|done|]. cbn. by rewrite E4.
  - destruct (recv_same _ _ _ _ Hr) as [[E1 _ _ E4 _] _]. apply (derived_same s); [done|done|]. cbn. by rewrite E4.
  - apply (derived_same s); [done|done|]. intros w'. apply elem_delete.
  - destruct (restarts upd cfg s Hp) as [-> | [[c' ->] | (c' & n & swap & prog & -> & Hprog)]]; [done|done|].
    apply Forall_app. split; [exact Hv|]. apply Forall_replicate. cbn. intros g Hg. by right.
Qed.

(** The first restart dooms the output. *)
Definition fragile s : Prop := derived s /\ (o_cancelFn (s_out s) ∈ o_root (s_out s) \/ doomed s).

Lemma step_out s s' : step upd s s' -> (o_cancelFn (s_out s') = o_cancelFn (s_out s) /\ o_root (s_out s') = o_root (s_out s))
  \/ exists cfg n swap prog, s' = start cfg (o_root (s_out s)) n swap prog s /\ (prog = drain_then_stop \/ exists b, prog = stop_then_drain b).
Proof.
  destruct 1 as [s s' Hi|s ch m Hch|s i ch m s' Hw Hs|s i|s w ch m s' Hw Hch Hr|s i w Hi Hl|s cfg Hp|s Hp|s]; try by left.
  - left. destruct Hi as [s g p Hp|s g p Hp Hall|s ctx mv p old new m s' Hp Hin Hr|s ctx mv new m p s' Hp Hs|s ctx mv new m p w Hp Hs Hw Hch
      |s ctx mv new m p Hp Hs|s ctx mv p Hp Hall|s c mv p Hp Hc]; try done.
    + destruct (recv_same _ _ _ _ Hr) as [[E1 _ _ _ _] _]. cbn. by rewrite E1.
    + destruct (push_same _ _ _ _ Hs) as [[E1 _ _ _ _] _]. cbn. by rewrite E1.
  - left. destruct (push_same _ _ _ _ Hs) as [[E1 _ _ _ _] _]. cbn. by rewrite E1.
  - left. destruct (recv_same _ _ _ _ Hr) as [[E1 _ _ _ _] _]. cbn. by rewrite E1.
  - destruct (restarts upd cfg s Hp) as [-> | [[c' ->] | (c' & n & swap & prog & -> & Hprog)]]; [by left|by left|].
    right. by exists c', n, swap, prog.
Qed.

Lemma step_fragile s s' : step upd s s' -> fragile s -> fragile s'.
Proof.
  intros Hst [Hv [Hf|Hd]].
  - destruct (step_out _ _ Hst) as [[E1 E2]|(cfg & n & swap & prog & -> & Hprog)].
    + split; [by eapply step_derived|]. left. by rewrite E1, E2.
    + destruct (start_doomed cfg n swap prog s Hv Hf Hprog). split; [done|by right].
  - destruct (step_doomed _ _ Hst (conj Hv Hd)). split; [done|by right].
Qed.

Lemma reach_fragile s s' : reach upd s s' -> fragile s -> fragile s'.
Proof. induction 1 as [|s s1 s2 Hs _ IH]; [done|]. intros Hf. apply IH. by eapply step_fragile. Qed.

(** After a restart no worker is live, ever. *)
Lemma fragile_restart cfg n swap prog s s' : fragile s -> s_prog s = [] -> prog = drain_then_stop \/ (exists b, prog = stop_then_drain b) ->
  reach upd (start cfg (o_root (s_out s)) n swap prog s) s' -> s_prog s' = [] -> Forall (fun w => live s' w = false) (s_workers s').
Proof.
  intros [Hv Hf] Hp Hprog Hr Hp'. set (s1 := start cfg (o_root (s_out s)) n swap prog s) in *.
  assert (derived s1 /\ doomed s1) as [Hv1 Hd1].
  { destruct Hf as [Hf|(g & Hg & Hd)]; [by apply start_doomed|]. split.
    - apply Forall_app. split; [exact Hv|]. apply Forall_replicate. cbn. intros g' Hg'. by right.
    - exists g. split; [done|]. left. destruct Hd as [Hd|Hd]; [done|]. rewrite Hp in Hd. by apply elem_of_nil in Hd. }
  destruct (reach_doomed _ _ Hr Hv1 Hd1). by apply doomed_dead.
Qed.

(** ** Messages *)

Definition hand_of (i : instr M) : list M := match i with IDrain _ _ (Some (_, m)) => [m] | _ => [] end.
Definition hands (p : list (instr M)) : list M := concat (hand_of <$> p).
Definition bufs (cs : list (chan M)) : list M := concat (ch_buf <$> cs).

(** Every message accepted was taken by a worker, was dropped, is in the hands
    of a drain or in a channel: none twice, none elsewhere. *)
Definition conserved s : Prop :=
  s_accepted s ≡ₚ s_taken s ++ s_dropped s ++ hands (s_prog s) ++ bufs (s_chans s).

Lemma bufs_insert cs ch c c' : cs !! ch = Some c ->
  exists rest, bufs cs ≡ₚ ch_buf c ++ rest /\ bufs (<[ch := c']> cs) ≡ₚ ch_buf c' ++ rest.
Proof.
  intros Hc. exists (bufs (take ch cs) ++ bufs (drop (S ch) cs)). unfold bufs. split.
  - rewrite <-(take_drop_middle cs ch c Hc) at 1. rewrite fmap_app, concat_app. cbn. by rewrite Permutation_app_swap_app.
  - rewrite insert_take_drop by by eapply lookup_lt_Some. rewrite fmap_app, concat_app. cbn. by rewrite Permutation_app_swap_app.
Qed.

Lemma push_bufs ch m s s' : push ch m s = Some s' -> bufs (s_chans s') ≡ₚ m :: bufs (s_chans s)
  /\ s_accepted s' = s_accepted s /\ s_taken s' = s_taken s /\ s_dropped s' = s_dropped s /\ s_prog s' = s_prog s /\ s_writers s' = s_writers s.
Proof.
  unfold push. destruct (s_chans s !! ch) as [c|] eqn:Hc; cbn; [|done]. case_match; [|done]. intros [= <-]. split; [|done]. core.
  destruct (bufs_insert _ _ _ (mkChan (ch_cap c) (ch_buf c ++ [m])) Hc) as (rest & -> & ->). cbn. rewrite <-app_assoc. cbn. by rewrite Permutation_middle.
Qed.

Lemma recv_bufs ch m s s' : recv ch m s s' ->
  (forall X, s_accepted s ≡ₚ X ++ bufs (s_chans s) -> s_accepted s' ≡ₚ m :: X ++ bufs (s_chans s'))
  /\ s_taken s' = s_taken s /\ s_dropped s' = s_dropped s /\ s_prog s' = s_prog s.
Proof.
  destruct 1 as [c rest Hc Hb|c i Hc Hb Hw]; core; (split; [|done]); intros X ->.
  - destruct (bufs_insert _ _ _ (mkChan (ch_cap c) rest) Hc) as (r & -> & ->). rewrite Hb. cbn. by rewrite <-Permutation_middle.
  - done.
Qed.

Lemma istep_conserved s s' : conserved s -> istep s s' -> conserved s'.
Proof.
  unfold conserved, hands. intros Hc. destruct 1 as [s g p Hp|s g p Hp Hall|s ctx mv p old new m s' Hp Hin Hr|s ctx mv new m p s' Hp Hs|s ctx mv new m p w Hp Hs Hw Hch
      |s ctx mv new m p Hp Hs|s ctx mv p Hp Hall|s c mv p Hp Hd]; rewrite Hp in Hc; core; cbn [fmap list_fmap concat hand_of app] in Hc |- *; try done.
  - destruct (recv_bufs _ _ _ _ Hr) as (Ha & -> & -> & _). rewrite (Ha (s_taken s ++ s_dropped s ++ concat (hand_of <$> p))).
    2: { rewrite <-!app_assoc. exact Hc. }
    rewrite <-!app_assoc. by rewrite !Permutation_middle.
  - destruct (push_bufs _ _ _ _ Hs) as (-> & -> & -> & -> & _). rewrite Hc. do 2 f_equiv. apply Permutation_middle.
  - rewrite Hc. rewrite !(app_assoc (s_taken s)). symmetry. apply (Permutation_middle (s_taken s ++ s_dropped s)).
  - rewrite Hc. f_equiv. symmetry. apply Permutation_middle.
Qed.

Lemma bufs_make_chans caps cs : bufs (make_chans caps cs) = bufs cs.
Proof. unfold bufs, make_chans. rewrite fmap_app, concat_app. induction caps as [|c caps IH]; cbn; [apply app_nil_r|done]. Qed.

Lemma hands_prog (o o' : out C) prog : prog = drain_then_stop \/ (exists b, prog = stop_then_drain b) -> hands (prog o o') = [].
Proof. by intros [-> | [[] ->]]. Qed.

Lemma step_conserved s s' : conserved s -> step upd s s' -> conserved s'.
Proof.
  intros Hc. destruct 1 as [s s' Hi|s ch m Hch|s i ch m s' Hw Hs|s i|s w ch m s' Hw Hch Hr|s i w Hi Hl|s cfg Hp|s Hp|s]; try done.
  - by eapply istep_conserved.
  - unfold conserved in *. core. destruct (push_bufs _ _ _ _ Hs) as (-> & -> & -> & -> & -> & _). rewrite Hc.
    rewrite !(app_assoc (s_dropped s)), !(app_assoc (s_taken s)). apply Permutation_middle.
  - unfold conserved in *. core. destruct (recv_bufs _ _ _ _ Hr) as (Ha & -> & -> & ->).
    rewrite (Ha (s_taken s ++ s_dropped s ++ hands (s_prog s))); rewrite <-!app_assoc; done.
  - destruct (restarts upd cfg s Hp) as [-> | [[c' ->] | (c' & n & swap & prog & -> & Hprog)]]; [done|done|].
    unfold conserved in *. rewrite Hp in Hc. core. rewrite (hands_prog _ _ prog Hprog). cbn in *.
    destruct swap as [caps|]; [|done]. by rewrite bufs_make_chans.
  - unfold conserved in *. rewrite Hp in Hc. core. done.
Qed.

Lemma reach_conserved s s' : conserved s -> reach upd s s' -> conserved s'.
Proof. intros Hc. induction 1 as [|s s1 s2 Hs _ IH]; [done|]. apply IH. by eapply step_conserved. Qed.
End proofs.

(** ** Drains *)

Section drains.
Context {C M : Type}.
Implicit Types (s : sys C M).

(** A drain of a channel into itself, with [k] messages in the channel and in hand. *)
Definition spinning (ctx : option context) (ch : nat) (p : list (instr M)) s : Prop :=
  exists h c, s_prog s = IDrain ctx [(ch, ch)] h :: p /\ s_chans s !! ch = Some c
  /\ match h with
     | None => ch_buf c <> [] /\ length (ch_buf c) <= ch_cap c
     | Some (ch', _) => ch' = ch /\ length (ch_buf c) < ch_cap c
     end
  /\ match ctx with Some c => done s c = false | None => True end.

Lemma push_room ch s c m : s_chans s !! ch = Some c -> length (ch_buf c) < ch_cap c ->
  push ch m s = Some (set_chans (<[ch := mkChan (ch_cap c) (ch_buf c ++ [m])]>) s).
Proof. intros Hc Hl. apply Nat.ltb_lt in Hl. unfold push. rewrite Hc. cbn [mbind option_bind]. by rewrite Hl. Qed.

Lemma spinning_step ctx ch p s s' : spinning ctx ch p s -> istep s s' -> spinning ctx ch p s'.
Proof.
  intros (h & c & Hp & Hc & Hh & Hd). destruct 1 as [s g p' Hp'|s g p' Hp' Hall|s ctx' mv p' old new m s' Hp' Hin Hr|s ctx' mv new m p' s' Hp' Hs
    |s ctx' mv new m p' w Hp' Hs Hw Hch|s ctx' mv new m p' Hp' Hs|s ctx' mv p' Hp' Hall|s c' mv p' Hp' Hd']; rewrite Hp in Hp'; try done.
  - injection Hp' as <- <- -> <-. apply list_elem_of_singleton in Hin as [= -> ->]. destruct Hh as [Hne Hlen].
    destruct Hr as [c' rest Hc' Hb|c' i Hc' Hb Hw]; rewrite Hc in Hc'; injection Hc' as <-; [|done].
    rewrite Hb in Hlen. cbn in Hlen. exists (Some (ch, m)), (mkChan (ch_cap c) rest). core. split_and!; [done| |done|cbn; lia|done].
    apply list_lookup_insert_eq. by eapply lookup_lt_Some.
  - injection Hp' as <- <- -> <-. destruct Hh as [-> Hlen]. rewrite (push_room ch s c m Hc Hlen) in Hs. injection Hs as <-.
    exists None, (mkChan (ch_cap c) (ch_buf c ++ [m])). core. split_and!; [done| |by destruct (ch_buf c)|cbn; rewrite length_app; cbn; lia|done].
    apply list_lookup_insert_eq. by eapply lookup_lt_Some.
  - injection Hp' as <- <- -> <-. destruct Hh as [-> Hlen]. by rewrite (push_room ch s c m Hc Hlen) in Hs.
  - injection Hp' as <- <- -> <-. destruct Hh as [-> Hlen]. by rewrite (push_room ch s c m Hc Hlen) in Hs.
  - injection Hp' as <- <- -> <-. destruct Hh as [Hne _]. apply Forall_cons in Hall as [Hr _]. cbn in Hr. unfold ready in Hr.
    rewrite Hc in Hr. by destruct (ch_buf c).
  - injection Hp' as -> <- -> <-. by rewrite Hd in Hd'.
Qed.

Lemma spinning_run ctx ch p s s' : spinning ctx ch p s -> rtc istep s s' -> spinning ctx ch p s'.
Proof. intros Hs. induction 1 as [|s s1 s2 Hstep _ IH]; [done|]. apply IH. by eapply spinning_step. Qed.

Lemma spinning_not_done ctx ch p s : spinning ctx ch p s -> s_prog s <> p /\ exists s', istep s s'.
Proof.
  intros (h & c & Hp & Hc & Hh & Hd). split.
  - rewrite Hp. intros E. apply (f_equal length) in E. cbn in E. lia.
  - destruct h as [[ch' m]|].
    + destruct Hh as [-> Hl]. eexists. eapply istep_send; [exact Hp|]. by apply (push_room ch s c m).
    + destruct Hh as [Hne _]. destruct (ch_buf c) as [|m rest] eqn:Hb; [done|]. eexists. eapply istep_recv; [exact Hp|by left|].
      by apply (recv_buf ch m s c rest).
Qed.

(** A drain from one channel to another: what is left to do. *)
Definition draining (ctx : option context) (old new : nat) (p : list (instr M)) (k : nat) s : Prop :=
  exists h c, s_prog s = IDrain ctx [(old, new)] h :: p /\ s_chans s !! old = Some c
  /\ Forall (fun w => w.1 <> old) (s_writers s)
  /\ match h with None => k = 2 * length (ch_buf c) | Some (ch', _) => ch' = new /\ k = S (2 * length (ch_buf c)) end.

Lemma push_other ch m s s' o : push ch m s = Some s' -> o <> ch -> s_chans s' !! o = s_chans s !! o /\ s_writers s' = s_writers s.
Proof.
  unfold push. destruct (s_chans s !! ch) as [c|]; cbn; [|done]. case_match; [|done]. intros [= <-] Hne. core.
  by rewrite list_lookup_insert_ne.
Qed.

Lemma draining_step ctx old new p k s s' : old <> new -> draining ctx old new p k s -> istep s s' ->
  s_prog s' = p \/ exists k', k = S k' /\ draining ctx old new p k' s'.
Proof.
  intros Hne (h & c & Hp & Hc & Hw & Hh). destruct 1 as [s g p' Hp'|s g p' Hp' Hall|s ctx' mv p' old' new' m s' Hp' Hin Hr|s ctx' mv new' m p' s' Hp' Hs
    |s ctx' mv new' m p' w Hp' Hs Hw' Hch|s ctx' mv new' m p' Hp' Hs|s ctx' mv p' Hp' Hall|s c' mv p' Hp' Hd']; rewrite Hp in Hp'; try done.
  - right. injection Hp' as <- <- -> <-. apply list_elem_of_singleton in Hin as [= -> ->].
    destruct Hr as [c' rest Hc' Hb|c' i Hc' Hb Hw'].
    + rewrite Hc in Hc'. injection Hc' as <-. rewrite Hb in Hh. cbn in Hh. exists (S (2 * length rest)). split; [lia|].
      exists (Some (new, m)), (mkChan (ch_cap c) rest). core. split_and!; [done| |done|done|cbn; lia].
      apply list_lookup_insert_eq. by eapply lookup_lt_Some.
    + exfalso. rewrite Forall_forall in Hw. apply list_elem_of_lookup_2 in Hw'. by apply Hw in Hw'.
  - right. injection Hp' as <- <- -> <-. destruct Hh as [-> ->]. eexists. split; [done|].
    destruct (push_other _ _ _ _ old Hs Hne) as [Hl Hwr]. exists None, c. core. by rewrite Hl, Hwr.
  - right. injection Hp' as <- <- -> <-. destruct Hh as [-> ->]. eexists. split; [done|]. by exists None, c.
  - right. injection Hp' as <- <- -> <-. destruct Hh as [-> ->]. eexists. split; [done|]. by exists None, c.
  - left. by injection Hp' as <- <- -> <-.
  - left. by injection Hp' as -> <- -> <-.
Qed.

Lemma draining_progress ctx old new p k s : draining ctx old new p k s -> exists s', istep s s'.
Proof.
  intros (h & c & Hp & Hc & Hw & Hh). destruct h as [[ch m]|].
  - destruct (push ch m s) as [s'|] eqn:Hs; [eexists; by eapply istep_send|eexists; by eapply istep_drop].
  - destruct (ch_buf c) as [|m rest] eqn:Hb.
    + eexists. eapply istep_empty; [exact Hp|]. constructor; [|constructor]. cbn. unfold ready. by rewrite Hc, Hb.
    + eexists. eapply istep_recv; [exact Hp|by left|]. by apply (recv_buf old m s c rest).
Qed.

(** It ends: in as many steps as are left, and one more. *)
Lemma draining_ends ctx old new p k s : old <> new -> draining ctx old new p k s ->
  exists n s', n <= S k /\ nsteps istep n s s' /\ s_prog s' = p.
Proof.
  intros Hne. revert s. induction k as [|k IH]; intros s Hd.
  - destruct (draining_progress _ _ _ _ _ _ Hd) as [s' Hs]. destruct (draining_step _ _ _ _ _ _ _ Hne Hd Hs) as [Hp|(k' & ? & _)]; [|lia].
    exists 1, s'. split; [lia|]. split; [by apply nsteps_once|done].
  - destruct (draining_progress _ _ _ _ _ _ Hd) as [s' Hs]. destruct (draining_step _ _ _ _ _ _ _ Hne Hd Hs) as [Hp|(k' & [= <-] & Hd')].
    + exists 1, s'. split; [lia|]. split; [by apply nsteps_once|done].
    + destruct (IH s' Hd') as (n & s2 & Hn & Hst & Hp2). exists (S n), s2. split; [lia|]. split; [by eapply nsteps_l|done].
Qed.
End drains.

(** ** What a drain leaves behind *)

Section abandoned.
Context {I C M : Type} (upd : I -> sys C M -> sys C M) `{!Restarts upd}.
Implicit Types (s : sys C M).

Definition buf_of s (ch : nat) : list M := match s_chans s !! ch with Some c => ch_buf c | None => [] end.
(** The messages of the writers that loaded the pointer to a channel. *)
Definition pending s (ch : nat) : list M := (filter (fun w => w.1 = ch) (s_writers s)).*2.

Definition targets (i : instr M) : list nat :=
  match i with IDrain _ moves hand => moves.*2 ++ match hand with Some (ch, _) => [ch] | None => [] end | _ => [] end.

(** The channel is not the current one and nothing is moved into it. *)
Record apart (ch : nat) s : Prop := {
  ap_old : ch < length (s_chans s);
  ap_chans : ch ∉ o_chans (s_out s);
  ap_prog : Forall (fun i => ch ∉ targets i) (s_prog s)
}.
(** All it may still get, or hold. *)
Definition late (ch : nat) s : list M := buf_of s ch ++ pending s ch.

Lemma zip_snd_sub {A B} (l : list A) (k : list B) x : x ∈ (zip l k).*2 -> x ∈ k.
Proof. revert k. induction l as [|a l IH]; intros [|b k]; cbn; rewrite ?elem_of_nil, ?elem_of_cons; naive_solver. Qed.

Lemma prog_targets (o o' : out C) (prog : out C -> out C -> list (instr M)) ch :
  prog = drain_then_stop \/ (exists b, prog = stop_then_drain b) -> ch ∉ o_chans o' -> Forall (fun i => ch ∉ targets i) (prog o o').
Proof.
  intros Hprog Hch. destruct Hprog as [-> | [[] ->]]; unfold drain_then_stop, stop_then_drain; cbn [app];
    repeat constructor; cbn [targets]; rewrite ?app_nil_r; try apply not_elem_of_nil; intros Hin%zip_snd_sub; done.
Qed.

Lemma without_writer s i ch m : s_writers s !! i = Some (ch, m) ->
  forall o, (if decide (ch = o) then [m] else []) ++ (filter (fun w => w.1 = o) (delete i (s_writers s))).*2 ≡ₚ pending s o.
Proof.
  intros Hi o. unfold pending. rewrite (delete_Permutation (s_writers s) i (ch, m) Hi) at 2. cbn. by destruct (decide (ch = o)).
Qed.
Lemma pending_delete_sub s i o : (filter (fun w => w.1 = o) (delete i (s_writers s))).*2 ⊆+ pending s o.
Proof.
  destruct (s_writers s !! i) as [[ch m]|] eqn:Hi.
  - rewrite <-(without_writer s i ch m Hi o). by apply submseteq_inserts_l.
  - unfold pending. by rewrite delete_take_drop, take_ge, drop_ge, app_nil_r by (apply lookup_ge_None in Hi; lia).
Qed.

Lemma recv_late old m s s' ch : recv old m s s' -> late ch s' ⊆+ late ch s /\ length (s_chans s') = length (s_chans s).
Proof.
  unfold late. destruct 1 as [c rest Hc Hb|c i Hc Hb Hw]; core.
  - split; [|apply length_insert]. apply submseteq_app; [|done]. unfold buf_of. core. destruct (decide (old = ch)) as [->|Hne].
    + rewrite list_lookup_insert_eq, Hc, Hb by by eapply lookup_lt_Some. cbn. by apply submseteq_cons.
    + by rewrite list_lookup_insert_ne.
  - split; [|done]. apply submseteq_app; [done|]. apply pending_delete_sub.
Qed.
Lemma push_late new m s s' ch : push new m s = Some s' -> new <> ch -> late ch s' = late ch s.
Proof.
  intros Hs Hne. destruct (push_other new m s s' ch Hs ltac:(done)) as [Hl Hw]. unfold late, buf_of, pending. by rewrite Hl, Hw.
Qed.
Lemma push_length new m s s' : push new m s = Some s' -> length (s_chans s') = length (s_chans s).
Proof. unfold push. destruct (s_chans s !! new); cbn; [|done]. case_match; [|done]. intros [= <-]. apply length_insert. Qed.

(** The channels the output has, and those it had. *)
Lemma istep_chans s s' : istep s s' -> s_out s' = s_out s /\ length (s_chans s') = length (s_chans s).
Proof.
  destruct 1 as [| |s ctx mv p old new m s' Hp Hin Hr|s ctx mv new m p s' Hp Hs| | | |]; try done; cbn.
  - destruct (recv_same _ _ _ _ Hr) as [[-> _ _ _ _] _], (recv_late _ _ _ _ 0 Hr) as [_ ->]. done.
  - destruct (push_same _ _ _ _ Hs) as [[-> _ _ _ _] _]. by rewrite (push_length _ _ _ _ Hs).
Qed.

Lemma step_chans s s' : step upd s s' ->
  (o_chans (s_out s') = o_chans (s_out s) /\ length (s_chans s') = length (s_chans s)) \/ exists i, s_prog s = [] /\ s' = upd i s.
Proof.
  destruct 1 as [s s' Hi|s ch' m Hch|s i ch' m s' Hw Hs|s i|s w ch' m s' Hw Hch Hr|s i w Hi Hl|s i Hp|s Hp|s]; try (by left).
  - left. by destruct (istep_chans s s' Hi) as [-> ->].
  - left. destruct (push_same _ _ _ _ Hs) as [[E1 _ _ _ _] _]. core. by rewrite E1, (push_length _ _ _ _ Hs).
  - left. destruct (recv_same _ _ _ _ Hr) as [[E1 _ _ _ _] _]. core. by rewrite E1, (proj2 (recv_late _ _ _ _ 0 Hr)).
  - right. by exists i.
Qed.

(** What becomes of a channel that is apart, step by step: it gets nothing but
    what was pending for it. *)
Lemma istep_apart ch s s' : apart ch s -> istep s s' -> apart ch s' /\ late ch s' ⊆+ late ch s.
Proof.
  intros [Ho Hc Hp] Hi. destruct (istep_chans s s' Hi) as [Eo El].
  assert (Forall (fun i => ch ∉ targets i) (s_prog s') /\ late ch s' ⊆+ late ch s) as [Hp' Hl]; [|by split; [split; rewrite ?El, ?Eo|]].
  destruct Hi as [s g p Hpr|s g p Hpr Hall|s ctx mv p old new m s' Hpr Hin Hr|s ctx mv new m p s' Hpr Hs|s ctx mv new m p w Hpr Hs Hw Hch
      |s ctx mv new m p Hpr Hs|s ctx mv p Hpr Hall|s c mv p Hpr Hd]; rewrite Hpr in Hp; apply Forall_cons in Hp as [Hhd Htl]; cbn [targets] in Hhd; try done.
  - split; [|by apply (recv_late old m s s' ch Hr)]. core. constructor; [|done]. cbn [targets]. rewrite app_nil_r in Hhd.
    rewrite elem_of_app, list_elem_of_singleton. intros [|Hn]; [done|]. subst new. apply Hhd. apply list_elem_of_fmap. by exists (old, ch).
  - rewrite elem_of_app, list_elem_of_singleton in Hhd. split; [core; constructor; [cbn [targets]; rewrite app_nil_r; tauto|done]|].
    change (late ch s' ⊆+ late ch s). rewrite (push_late new m s s') by (done || naive_solver). done.
  - rewrite elem_of_app in Hhd. split; [core; constructor; [cbn [targets]; rewrite app_nil_r; tauto|done]|done].
  - rewrite elem_of_app in Hhd. split; [core; constructor; [cbn [targets]; rewrite app_nil_r; tauto|done]|done].
Qed.

Lemma step_apart ch s s' : apart ch s -> step upd s s' -> apart ch s' /\ late ch s' ⊆+ late ch s.
Proof.
  intros Ha Hst. pose proof Ha as [Ho Hc Hp]. destruct Hst as [s s' Hi|s ch' m Hch|s i ch' m s' Hw Hs|s i|s w ch' m s' Hw Hch Hr|s i w Hi Hl|s cfg Hpr|s Hpr|s].
  - by apply istep_apart.
  - split; [done|]. unfold late, pending. core. rewrite filter_app, fmap_app. cbn. rewrite decide_False by (intros ->; done). by rewrite app_nil_r.
  - destruct (push_same _ _ _ _ Hs) as [[E1 _ _ _ _] E6]. split; [split; core; rewrite ?E1, ?E6, ?(push_length _ _ _ _ Hs); done|].
    unfold late. pose proof (without_writer s i ch' m Hw ch) as Hpd. unfold pending in *. core.
    destruct (decide (ch' = ch)) as [->|Hne].
    + rewrite <-Hpd. unfold push in Hs. unfold buf_of. core. destruct (s_chans s !! ch) as [c|] eqn:Ec; cbn in Hs; [|done]. case_match; [|done].
      injection Hs as <-. core. rewrite list_lookup_insert_eq by by eapply lookup_lt_Some. cbn. by rewrite <-app_assoc.
    + rewrite <-Hpd. cbn. unfold buf_of. core. by rewrite (proj1 (push_other _ _ _ _ ch Hs ltac:(done))).
  - split; [done|]. apply submseteq_app; [done|]. apply pending_delete_sub.
  - destruct (recv_same _ _ _ _ Hr) as [[E1 _ _ _ _] E6], (recv_late _ _ _ _ ch Hr) as [Hl E7].
    split; [split; core; rewrite ?E1, ?E6, ?E7; done|exact Hl].
  - done.
  - destruct (restarts upd cfg s Hpr) as [-> | [[c' ->] | (c' & n & swap & prog & -> & Hprog)]]; [done|done|].
    assert (ch ∉ match swap with Some caps => seq (length (s_chans s)) (length caps) | None => o_chans (s_out s) end) as Hnew.
    { destruct swap as [caps|]; [|done]. rewrite elem_of_seq. lia. }
    split; [split; core|].
    + destruct swap; [unfold make_chans; rewrite length_app; lia|done].
    + exact Hnew.
    + by apply prog_targets.
    + unfold late, buf_of. core. destruct swap; [|done]. unfold make_chans. by rewrite lookup_app_l.
  - split; [split; core; [done|done|repeat constructor; apply not_elem_of_nil]|done].
  - done.
Qed.

Lemma reach_apart ch s s' : apart ch s -> reach upd s s' -> apart ch s' /\ late ch s' ⊆+ late ch s.
Proof.
  intros Ha Hr. induction Hr as [|s s1 s2 Hs _ IH]; [done|]. destruct (step_apart ch s s1 Ha Hs) as [Ha1 Hl1].
  destruct (IH Ha1) as [Ha2 Hl2]. split; [done|]. by etrans.
Qed.

(** The program of an update that swaps its channels, on its way to the end. *)
Definition swapping (g : nat) (moves : list (nat * nat)) (p : list (instr M)) : Prop :=
  (exists h, p = [IDrain None moves h]) \/ p = [IWait g; IDrain None moves None] \/ p = [ICancel g; IWait g; IDrain None moves None].

(** The moment a drain is over. *)
Definition drained (ch : nat) s s' : Prop :=
  exists sd, reach upd s sd /\ reach upd sd s' /\ s_prog sd = [] /\ buf_of sd ch = [] /\ late ch s' ⊆+ pending sd ch.

Lemma step_swapping g moves ch s s' : swapping g moves (s_prog s) -> apart ch s -> ch ∈ moves.*1 -> step upd s s' ->
  swapping g moves (s_prog s') \/ s_prog s' = [] /\ buf_of s' ch = [].
Proof.
  intros Hsw Ha Hin Hst. assert (s_prog s <> []) as Hne by (destruct Hsw as [(h & ->)|[-> | ->]]; done).
  destruct Hst as [s s' Hi|s ch' m Hch|s i ch' m s' Hw Hs|s i|s w ch' m s' Hw Hch Hr|s i w Hi Hl|s cfg Hpr|s Hpr|s]; try (by left); try done.
  - destruct Hi as [s g' p Hpr|s g' p Hpr Hall|s ctx mv p old new m s' Hpr Hin' Hr|s ctx mv new m p s' Hpr Hs|s ctx mv new m p w Hpr Hs Hw Hch
      |s ctx mv new m p Hpr Hs|s ctx mv p Hpr Hall|s c mv p Hpr Hd]; destruct Hsw as [(h & Hsw)|[Hsw|Hsw]]; rewrite Hpr in Hsw; try done; simplify_eq; core.
    + left. by right; left.
    + left. left. by exists None.
    + left. left. by eexists.
    + left. left. by eexists.
    + left. left. by eexists.
    + left. left. by eexists.
    + right. split; [done|]. apply list_elem_of_fmap in Hin as ([o nw] & -> & Hin). rewrite Forall_forall in Hall. specialize (Hall _ Hin).
      unfold ready in Hall. unfold buf_of. core. cbn in *. destruct (s_chans s !! o) as [c|]; [|done]. by destruct (ch_buf c).
  - left. core. by destruct (push_same _ _ _ _ Hs) as [_ ->].
  - left. core. by destruct (recv_same _ _ _ _ Hr) as [_ ->].
Qed.

Lemma swap_drained g moves ch s s' : swapping g moves (s_prog s) -> apart ch s -> ch ∈ moves.*1 -> reach upd s s' -> s_prog s' = [] ->
  drained ch s s'.
Proof.
  intros Hsw Ha Hin Hr Hend. induction Hr as [s|s s1 s2 Hs Hr IH].
  - exfalso. by destruct Hsw as [(h & E)|[E|E]]; rewrite Hend in E.
  - destruct (step_apart ch s s1 Ha Hs) as [Ha1 _]. destruct (step_swapping g moves ch s s1 Hsw Ha Hin Hs) as [Hsw1|[Hp1 Hb1]].
    + destruct (IH Hsw1 Ha1 Hend) as (sd & H1 & H2 & H3). exists sd. split; [by eapply rtc_l|]. done.
    + exists s1. split_and!; [by apply rtc_once|done|done|done|]. destruct (reach_apart ch s1 s2 Ha1 Hr) as [_ Hl].
      unfold late at 2 in Hl. by rewrite Hb1 in Hl.
Qed.

(** A restart with new channels, of an output whose channels there are. *)
Definition chans_ok s : Prop := Forall (fun ch => ch < length (s_chans s)) (o_chans (s_out s)).
Lemma start_swapping cfg n caps s ch : chans_ok s -> length caps = length (o_chans (s_out s)) -> ch ∈ o_chans (s_out s) ->
  let s1 := start cfg (o_root (s_out s)) n (Some caps) (stop_then_drain true) s in
  exists moves, swapping (o_cancelFn (s_out s)) moves (s_prog s1) /\ apart ch s1 /\ ch ∈ moves.*1.
Proof.
  intros Hc Hlen Hch. cbv zeta. eexists. split; [right; right; reflexivity|]. cbn [o_chans].
  assert (ch < length (s_chans s)) as Hlt by (by apply (proj1 (Forall_forall _ _) Hc)).
  assert (ch ∉ seq (length (s_chans s)) (length caps)) as Hnew by (rewrite elem_of_seq; lia). split.
  - split; core; [unfold make_chans; rewrite length_app; lia|done|]. apply (prog_targets (s_out s)); [right; by eexists|done].
  - by rewrite fst_zip by (rewrite length_seq; lia).
Qed.
End abandoned.

Section initial.
Context {C M : Type}.

Lemma init_winv (cfg : C) n caps : winv (init (M := M) cfg false n caps).
Proof.
  split; cbn.
  - by intros g ->%list_elem_of_singleton.
  - lia.
  - intros _ H. by apply elem_of_nil in H.
  - intros g H. by apply elem_of_nil in H.
  - intros g H. by apply elem_of_nil in H.
  - intros w [-> _]%elem_of_replicate. cbn. split; [lia|by left].
  - intros _ _. rewrite filter_all by by apply Forall_replicate. apply length_replicate.
Qed.

Lemma init_derived (cfg : C) n caps : derived (init (M := M) cfg true n caps).
Proof. apply Forall_replicate. cbn. done. Qed.

Lemma init_conserved (cfg : C) b n caps : conserved (init (M := M) cfg b n caps).
Proof. unfold conserved, init. cbn [s_accepted s_taken s_dropped s_prog s_chans]. by rewrite bufs_make_chans. Qed.

Context {I : Type} (upd : I -> sys C M -> sys C M) `{!Restarts upd}.

(** The states an output that was initialised can be in. *)
Definition reachable (derived_root : bool) (caps : C -> list nat) (workers_of : C -> nat) (s : sys C M) : Prop :=
  exists cfg, reach upd (init cfg derived_root (workers_of cfg) (caps cfg)) s.

Lemma reachable_fragile caps wo s : reachable true caps wo s -> fragile s.
Proof. intros (cfg & Hr). eapply (reach_fragile upd); [exact Hr|]. split; [apply init_derived|]. left. by left. Qed.

Lemma reachable_conserved b caps wo s : reachable b caps wo s -> conserved s.
Proof. intros (cfg & Hr). eapply (reach_conserved upd); [apply init_conserved|exact Hr]. Qed.

Lemma reachable_winv caps wo s : reachable false caps wo s -> winv s.
Proof. intros (cfg & Hr). eapply (reach_winv upd); [apply init_winv|exact Hr]. Qed.

Lemma reachable_count caps wo s `{!ExactCount upd wo} : reachable false caps wo s -> count_ok wo s.
Proof. intros (cfg & Hr). by apply (reach_count upd wo _ _) in Hr. Qed.
End initial.
