(* ===== verification/Tcp.v ===== *)
(** * The TCP output (pkg/outputs/tcp_output/tcp_output.go)

    [Init] and [Update] over the workers of Workers.v, the loop of a worker as
    steps on its connection and its pending message, and the loop that writes
    one payload. What the store makes of the names of processors, the outcome
    of decoding a configuration and of registering metrics, of dialling and of
    the calls of [Write] of a connection are arguments. Tickers are numbered;
    a stopped one never fires again and its channel is not closed. *)

From stdpp Require Import strings list.
From S2P Require Import Prelude GoStrings GoVal Text Formats OutMsg Workers.

#[local] Open Scope nat_scope.

Record config := mkConfig {
  c_Address : string; c_Rate : Z; c_BufferSize : nat; c_Format : string; c_AddTarget : string; c_TargetTemplate : string;
  c_OverrideTimestamps : bool; c_SplitEvents : bool; c_Delimiter : string; c_KeepAlive : Z; c_RetryInterval : Z;
  c_MaxRetries : Z; c_NumWorkers : Z; c_EnableMetrics : bool; c_EventProcessors : list string }.

Inductive tcp_error := errDecode | errMetrics | errProcessors | errTemplate | errAddress | errMaxRetries | errNoAddress | errNoTemplate.

Definition defaultRetryTimer : Z := 2000000000.
Definition defaultNumWorkers : Z := 1.
Definition defaultMaxRetries : Z := 3.

Definition setDefaultsFor (c : config) : config :=
  mkConfig (c_Address c) (c_Rate c) (c_BufferSize c) (c_Format c) (c_AddTarget c) (c_TargetTemplate c) (c_OverrideTimestamps c)
    (c_SplitEvents c) (c_Delimiter c) (c_KeepAlive c)
    (if (c_RetryInterval c =? 0)%Z then defaultRetryTimer else c_RetryInterval c)
    (if (c_MaxRetries c =? 0)%Z then defaultMaxRetries else c_MaxRetries c)
    (if (c_NumWorkers c <? 1)%Z then defaultNumWorkers else c_NumWorkers c)
    (c_EnableMetrics c) (c_EventProcessors c).

Definition validate (c : config) : go tcp_error () :=
  if (c_MaxRetries c <? 0)%Z then Err errMaxRetries
  else if String.eqb (c_Address c) "" then Err errNoAddress
  else match SplitHostPort (c_Address c) with
  | None => Err errAddress
  | Some _ => if String.eqb (c_TargetTemplate c) "" then Err errNoTemplate else Ok ()
  end.
Definition Validate (decoded : go tcp_error config) : go tcp_error () := c ← decoded; validate (setDefaultsFor c).

(** [channelNeedsSwap], [needsWorkerRestart] *)
Definition channelNeedsSwap (old nw : config) : bool := negb (Nat.eqb (c_BufferSize old) (c_BufferSize nw)).
Definition needsWorkerRestart (old nw : config) : bool := negb (Z.eqb (c_NumWorkers old) (c_NumWorkers nw)).

Section tcp.
Context `{Templates} (processors : list string -> option (list processor_fn)) (register : bool).

Record dynConfig := mkDyn {
  d_targetTpl : option target_tpl; d_evps : list processor_fn; d_mo : MarshalOptions; d_delimiter : string; d_limiter : option nat }.

(** What [cfg] and [dynCfg] point to, and the tickers. *)
Record state := mkState { t_cfg : config; t_dyn : dynConfig; t_tickers : nat; t_stopped : list nat }.

Definition marshal_options (c : config) : MarshalOptions :=
  mkMarshalOptions false "" (c_Format c) (c_OverrideTimestamps c) false false ∅ [] [].

(** [Init] *)
Definition Init (decoded : go tcp_error config) : go tcp_error (sys state string) :=
  c ← decoded;
  let c := setDefaultsFor c in
  match processors (c_EventProcessors c) with
  | None => Err errProcessors
  | Some evps =>
      tpl ← init_target_tpl errTemplate (c_TargetTemplate c) (c_AddTarget c);
      match SplitHostPort (c_Address c) with
      | None => Err errAddress
      | Some _ =>
          if c_EnableMetrics c && negb register then Err errMetrics
          else
            let limited := (0 <? c_Rate c)%Z in
            let d := mkDyn tpl evps (marshal_options c) (c_Delimiter c) (if limited then Some 0 else None) in
            Ok (init (mkState c d (if limited then 1 else 0) []) false (Z.to_nat (c_NumWorkers c)) [c_BufferSize c])
      end
  end.

(** The rate limiter: the new one, the number of tickers made, those stopped. *)
Definition update_limiter (old nw : config) (st : state) : option nat * nat * list nat :=
  let stopped := match d_limiter (t_dyn st) with Some t => t :: t_stopped st | None => t_stopped st end in
  if (0 <? c_Rate nw)%Z then
    if (c_Rate old =? c_Rate nw)%Z then (d_limiter (t_dyn st), t_tickers st, t_stopped st)
    else (Some (t_tickers st), S (t_tickers st), stopped)
  else (None, t_tickers st, stopped).

(** [Update]: an error of the target template comes after the limiter was stopped. *)
Definition Update (decoded : go tcp_error config) (s : sys state string) : result state string tcp_error :=
  match decoded with
  | Err e => Refused e s
  | Panic => Panics
  | Ok c =>
      let nw := setDefaultsFor c in
      let st := o_cfg (s_out s) in
      let old := t_cfg st in
      if c_EnableMetrics nw && negb (c_EnableMetrics old) && negb register then Refused errMetrics s
      else
        let swapChannel := channelNeedsSwap old nw in
        match (if decide (c_EventProcessors old = c_EventProcessors nw) then Some (d_evps (t_dyn st)) else processors (c_EventProcessors nw)) with
        | None => Refused errProcessors s
        | Some evps =>
            let '(limiter, tickers, stopped) := update_limiter old nw st in
            match update_target_tpl errTemplate (c_TargetTemplate nw) (c_AddTarget nw) with
            | Ok tpl =>
                let st' := mkState nw (mkDyn tpl evps (marshal_options nw) (c_Delimiter nw) limiter) tickers stopped in
                if swapChannel || needsWorkerRestart old nw then
                  Updated (start st' (o_root (s_out s)) (Z.to_nat (c_NumWorkers nw))
                    (if swapChannel then Some [c_BufferSize nw] else None) (stop_then_drain swapChannel) s)
                else Updated (keep st' s)
            | Err e => Refused e (keep (mkState old (t_dyn st) tickers stopped) s)
            | Panic => Panics
            end
        end
  end.

Definition upd (decoded : go tcp_error config) (s : sys state string) : sys state string := state_after s (Update decoded s).
Definition workers_of (st : state) : nat := Z.to_nat (c_NumWorkers (t_cfg st)).

#[export] Instance tcp_restarts : Restarts upd.
Proof.
  intros i s _. unfold upd, Update. destruct i as [c|e|]; [|by left|by left]. cbv zeta.
  destruct (_ && _ && _); [by left|]. destruct (if decide _ then _ else _) as [evps|]; [|by left].
  destruct (update_limiter _ _ _) as [[l n] st]. destruct (update_target_tpl _ _ _) as [tpl|e|]; cbn [state_after].
  - destruct (_ || _); [|right; left; by eexists]. right. right. eexists _, _, _, _. split; [reflexivity|]. right. by eexists.
  - right. left. by eexists.
  - by left.
Qed.

#[export] Instance tcp_exact : ExactCount upd workers_of.
Proof.
  intros i s _. unfold upd, Update. destruct i as [c|e|]; [|by left|by left]. cbv zeta.
  destruct (_ && _ && _); [by left|]. destruct (if decide _ then _ else _) as [evps|]; [|by left].
  destruct (update_limiter _ _ _) as [[l n] st]. destruct (update_target_tpl _ _ _) as [tpl|e|]; cbn [state_after].
  - destruct (channelNeedsSwap _ _ || _) eqn:E.
    + right. right. eexists _, _, _, _, _. split; [reflexivity|done].
    + right. left. eexists. split; [reflexivity|]. apply orb_false_iff in E as [_ E]. unfold needsWorkerRestart in E.
      apply negb_false_iff, Z.eqb_eq in E. unfold workers_of. cbn [t_cfg]. by rewrite E.
  - right. left. eexists. split; [reflexivity|]. done.
  - by left.
Qed.

(** The states of an output that [Init] accepted. *)
Definition running (s : sys state string) : Prop := exists d s0, Init d = Ok s0 /\ reach upd s0 s.

Lemma Init_ok d s : Init d = Ok s -> exists st, s = init st false (workers_of st) [c_BufferSize (t_cfg st)].
Proof.
  unfold Init. intros (c & _ & Hi)%bind_ok. destruct (processors _) as [evps|]; [|done]. apply bind_ok in Hi as (tpl & _ & Hi).
  destruct (SplitHostPort _); [|done]. destruct (_ && _); [done|]. injection Hi as <-. eexists (mkState (setDefaultsFor c) _ _ _). reflexivity.
Qed.

Lemma tcp_running s : running s -> reachable upd false (fun st => [c_BufferSize (t_cfg st)]) workers_of s.
Proof. intros (d & s0 & Hi & Hr). apply Init_ok in Hi as [st ->]. by exists st. Qed.

(** There is one channel. *)
Lemma tcp_channel s : running s -> exists ch, o_chans (s_out s) = [ch] /\ ch < length (s_chans s).
Proof.
  intros (d & s0 & Hi & Hr). apply Init_ok in Hi as [st Hi].
  assert (exists ch, o_chans (s_out s0) = [ch] /\ ch < length (s_chans s0)) as H0 by (exists 0; subst s0; cbn; split; [done|lia]).
  clear Hi. induction Hr as [|s s1 s2 Hs _ IH]; [done|]. apply IH. destruct H0 as (ch & Hch & Hlt).
  destruct (step_chans upd s s1 Hs) as [[-> ->]|(i & _ & ->)]; [by exists ch|]. unfold upd, Update.
  destruct i as [c|e|]; [|by exists ch..]. cbv zeta. destruct (_ && _ && _); [by exists ch|].
  destruct (if decide _ then _ else _) as [evps|]; [|by exists ch]. destruct (update_limiter _ _ _) as [[l n] ts].
  destruct (update_target_tpl _ _ _) as [tpl|e|]; [|by exists ch..]. destruct (_ || _); [|by exists ch].
  cbn [state_after]. destruct (channelNeedsSwap _ _); [|by exists ch].
  exists (length (s_chans s)). split; [done|]. cbn [start s_chans]. unfold make_chans. rewrite length_app. cbn. lia.
Qed.

(** What is left of the messages by an update that swaps the channel, when it
    has returned. *)
Lemma tcp_swap s i s' : running s -> s_prog s = [] -> o_chans (s_out (upd i s)) <> o_chans (s_out s) ->
  reach upd (upd i s) s' -> s_prog s' = [] ->
  exists ch, o_chans (s_out s) = [ch] /\ drained upd ch (upd i s) s'.
Proof.
  intros Hs Hp Hsw Hr Hend. destruct (tcp_channel s Hs) as (ch & Hch & Hlt). exists ch. split; [done|].
  assert (exists cfg n cap, upd i s = start cfg (o_root (s_out s)) n (Some [cap]) (stop_then_drain true) s) as (cfg & n & cap & E).
  { revert Hsw. unfold upd, Update. destruct i as [c|e|]; [|done..]. cbv zeta. destruct (_ && _ && _); [done|].
    destruct (if decide _ then _ else _) as [evps|]; [|done]. destruct (update_limiter _ _ _) as [[l n] ts].
    destruct (update_target_tpl _ _ _) as [tpl|e|]; [|done..]. destruct (_ || _); [|done].
    cbn [state_after]. destruct (channelNeedsSwap _ _); [|done]. intros _. by eexists _, _, _. }
  rewrite E in *. assert (chans_ok s) as Hok by (unfold chans_ok; rewrite Hch; by repeat constructor).
  destruct (start_swapping cfg n [cap] s ch Hok) as (moves & Hm & Ha & Hin); [by rewrite Hch|rewrite Hch; by left|].
  exact (swap_drained upd (o_cancelFn (s_out s)) moves ch _ s' Hm Ha Hin Hr Hend).
Qed.

(** ** A worker *)

(** [startWithDialer]: whether it is connected, the message it holds and how
    often sending that failed. *)
Record wstate := mkW { w_conn : bool; w_pending : option string; w_retries : Z }.
Definition wstate0 : wstate := mkW false None 0.

(** What an iteration of the loop meets: a dial, a message of the channel (and
    the rate limiter let it pass), or the outcome of writing. *)
Inductive wevent := Dialled (ok : bool) | Received (b : string) | Wrote (ok : bool).

(** What became of the pending message. *)
Inductive fate := Nothing | Sent (b : string) | Lost (b : string).

Definition pendingRetryExhausted (c : config) (retries : Z) : bool * Z :=
  let retries := (retries + 1)%Z in (negb (retries <=? c_MaxRetries c)%Z, retries).

(** A failure with or without a message. *)
Definition failed (c : config) (w : wstate) : wstate * fate :=
  match w_pending w with
  | None => (mkW false None (w_retries w), Nothing)
  | Some b =>
      let '(exhausted, retries) := pendingRetryExhausted c (w_retries w) in
      if exhausted then (mkW false None 0, Lost b) else (mkW false (Some b) retries, Nothing)
  end.

Definition worker_step (c : config) (delimiter : string) (w : wstate) (ev : wevent) : option (wstate * fate) :=
  match w_conn w, w_pending w, ev with
  | false, _, Dialled true => Some (mkW true (w_pending w) (w_retries w), Nothing)
  | false, _, Dialled false => Some (failed c w)
  | true, None, Received b => Some (mkW true (Some (b +:+ delimiter)) 0, Nothing)
  | true, Some b, Wrote true => Some (mkW true None 0, Sent b)
  | true, Some b, Wrote false => Some (failed c w)
  | _, _, _ => None
  end.

Fixpoint worker_run (c : config) (delimiter : string) (w : wstate) (evs : list wevent) : option (wstate * list fate) :=
  match evs with
  | [] => Some (w, [])
  | ev :: evs =>
      '(w, f) ← worker_step c delimiter w ev;
      '(w, fs) ← worker_run c delimiter w evs;
      Some (w, f :: fs)
  end.

(** [writeTCPPayload]: [calls] are the results of the calls of [Write], how much
    was written and whether there was an error; [None] when they run out. The
    bytes that reached the connection, and whether the payload counts as sent. *)
Fixpoint writeTCPPayload (calls : list (nat * bool)) (payload : string) : option (go () (string * bool)) :=
  if String.eqb payload "" then Some (Ok ("", true))
  else match calls with
  | [] => None
  | (n, err) :: calls =>
      if String.length payload <? n then Some Panic
      else
        let head := stake n payload in
        let rest := sdrop n payload in
        if err : bool then Some (Ok (head, false))
        else if n =? 0 then Some (Ok (head, false))
        else r ← writeTCPPayload calls rest;
             Some (match r with Ok (bs, ok) => Ok (head +:+ bs, ok) | r => r end)
  end.

(** ** Lemmas *)

Lemma writeTCPPayload_prefix calls payload bs ok : writeTCPPayload calls payload = Some (Ok (bs, ok)) ->
  (exists rest, payload = bs +:+ rest) /\ (ok = true -> bs = payload).
Proof.
  revert payload bs. induction calls as [|[n err] calls IH]; intros payload bs; cbn [writeTCPPayload]; destruct (String.eqb_spec payload "") as [->|Hne].
  - intros [= <- <-]. split; [by exists ""|done].
  - done.
  - intros [= <- <-]. split; [by exists ""|done].
  - destruct (_ <? n); [done|]. destruct err; [intros [= <- <-]; split; [exists (sdrop n payload); by rewrite stake_sdrop|done]|].
    destruct (Nat.eqb_spec n 0) as [->|]; [intros [= <- <-]; split; [by exists payload|done]|].
    destruct (writeTCPPayload calls (sdrop n payload)) as [[[bs' ok']|e|]|] eqn:E; cbn; [|done..]. intros [= <- <-].
    destruct (IH _ _ E) as [[rest Hr] Hok]. split.
    + exists rest. by rewrite sapp_assoc, <-Hr, stake_sdrop.
    + intros Ht. rewrite (Hok Ht). apply stake_sdrop.
Qed.

(** While a message is pending it has failed at most [MaxRetries] times. *)
Definition retries_ok (c : config) (w : wstate) : Prop :=
  match w_pending w with Some _ => (0 <= w_retries w <= Z.max 0 (c_MaxRetries c))%Z | None => True end.

Lemma failed_ok c w w' f : retries_ok c w -> failed c w = (w', f) -> retries_ok c w'.
Proof.
  unfold retries_ok, failed, pendingRetryExhausted. destruct (w_pending w) as [b|] eqn:E; [|by intros _ [= <- <-]].
  intros Hr. destruct (Z.leb_spec (w_retries w + 1) (c_MaxRetries c)); cbn; intros [= <- <-]; cbn; [lia|done].
Qed.

Lemma worker_step_ok c d w ev w' f : retries_ok c w -> worker_step c d w ev = Some (w', f) -> retries_ok c w'.
Proof.
  intros Hr. unfold worker_step. destruct (w_conn w), (w_pending w) as [b|] eqn:E, ev as [[]|b'|[]]; try done; intros Hs; try (injection Hs as Hs).
  all: try (by eapply failed_ok).
  all: try (subst w'; unfold retries_ok in *; cbn; rewrite ?E in *; done).
  subst w'. unfold retries_ok. cbn. lia.
Qed.

Lemma failed_again c x b k : (k + 1 <= c_MaxRetries c)%Z -> failed c (mkW x (Some b) k) = (mkW false (Some b) (k + 1), Nothing).
Proof. intros Hk. unfold failed, pendingRetryExhausted. cbn [w_pending w_retries]. by rewrite (proj2 (Z.leb_le _ _) Hk). Qed.
Lemma failed_last c x b k : (c_MaxRetries c < k + 1)%Z -> failed c (mkW x (Some b) k) = (mkW false None 0, Lost b).
Proof. intros Hk. unfold failed, pendingRetryExhausted. cbn [w_pending w_retries]. by rewrite (proj2 (Z.leb_gt _ _) Hk). Qed.

Lemma worker_run_cons c d w ev evs : worker_run c d w (ev :: evs)
  = ('(w, f) ← worker_step c d w ev; '(w, fs) ← worker_run c d w evs; Some (w, f :: fs)).
Proof. done. Qed.

(** A message whose failures leave [n] retries is lost at the next failure after these. *)
Lemma fails_run c d b n k : Z.of_nat n = (c_MaxRetries c - k)%Z ->
  worker_run c d (mkW false (Some b) k) (replicate (S n) (Dialled false)) = Some (mkW false None 0, replicate n Nothing ++ [Lost b]).
Proof.
  revert k. induction n as [|n IH]; intros k Hn; rewrite replicate_S, worker_run_cons; cbn [worker_step w_conn w_pending].
  - rewrite failed_last by lia. done.
  - rewrite failed_again by lia. cbn [mbind option_bind]. rewrite (IH (k + 1)%Z) by lia. done.
Qed.

Lemma worker_run_ok c d w evs w' fs : retries_ok c w -> worker_run c d w evs = Some (w', fs) -> retries_ok c w'.
Proof.
  revert w fs. induction evs as [|ev evs IH]; intros w fs Hr; [by intros [= <- <-]|]. rewrite worker_run_cons.
  destruct (worker_step c d w ev) as [[w1 f]|] eqn:E1; cbn; [|done].
  destruct (worker_run c d w1 evs) as [[w2 fs2]|] eqn:E2; cbn; [|done]. intros [= <- <-].
  eapply IH; [|exact E2]. by eapply worker_step_ok.
Qed.

(** * Properties *)

(** After any sequence of updates, accepted or refused, and whatever the
    interleaving with writers and workers: once an update has returned, as long
    as the output is not closed, exactly the configured number of workers run,
    all of them under the current context and on the current channel. *)
Theorem tcp_workers_current (s : sys state string) (Hs : running s) (Hp : s_prog s = [])
    (Hc : s_closed s = false) (H0 : 0 ∉ s_cancelled s) :
  s_workers s = replicate (workers_of (o_cfg (s_out s))) (current s) /\ live s (current s) = true.
Proof.
  apply tcp_running in Hs as Hr. pose proof (reachable_winv upd _ _ _ Hr) as Hw.
  rewrite <-(reachable_count upd _ _ _ Hr). by apply workers_at_rest.
Qed.

(** C28: what becomes of the messages when updates restart the workers, whatever
    the interleaving with writers, workers and the end of the application, while
    [Close] is not called during an update. Every message the channels accepted was
    taken by one worker, was thrown away by the drain of an update because the new
    channel was full (nothing logs or counts these), is being moved, or is in a
    channel; none is duplicated. An update that swaps the channel
    empties the old one: by the time it has returned there was a moment when the
    new workers were started, the drain was over and the old channel empty, and
    whatever the old channel gets from then on, which nobody reads, comes from
    writers that had loaded the pointer to it before. *)
Theorem tcp_messages_conserved (s : sys state string) (Hs : running s) :
  s_accepted s ≡ₚ s_taken s ++ s_dropped s ++ hands (s_prog s) ++ bufs (s_chans s)
  /\ forall i s', s_prog s = [] -> o_chans (s_out (upd i s)) <> o_chans (s_out s) -> reach upd (upd i s) s' -> s_prog s' = [] ->
     exists ch sd, o_chans (s_out s) = [ch] /\ reach upd (upd i s) sd /\ reach upd sd s' /\ s_prog sd = []
       /\ buf_of sd ch = [] /\ buf_of s' ch ++ pending s' ch ⊆+ pending sd ch.
Proof.
  split; [apply tcp_running in Hs; by apply (reachable_conserved upd) in Hs|]. intros i s' Hp Hsw Hr Hend.
  destruct (tcp_swap s i s' Hs Hp Hsw Hr Hend) as (ch & Hch & sd & Hd). by exists ch, sd.
Qed.

(** Retries of a worker are bounded: whatever happens, a pending message has
    failed at most max-retries times, and one that keeps failing is given up
    after exactly max-retries + 1 failures. *)
Theorem tcp_retries_bounded (c : config) (delimiter b : string) (Hm : (0 <= c_MaxRetries c)%Z) :
  (forall evs w fs, worker_run c delimiter wstate0 evs = Some (w, fs) -> retries_ok c w)
  /\ let n := Z.to_nat (c_MaxRetries c) in
     worker_run c delimiter (mkW false (Some b) 0) (replicate (S n) (Dialled false)) = Some (wstate0, replicate n Nothing ++ [Lost b]).
Proof.
  split; [intros evs w fs Hr; by apply (worker_run_ok c delimiter wstate0 evs w fs)|].
  cbv zeta. apply fails_run. lia.
Qed.

(** A payload counts as sent exactly when all its bytes, in order, were
    written by the calls of [Write]; after an error a prefix of it was, and the
    whole payload is sent again on the next connection. *)
Theorem tcp_payload_written (calls : list (nat * bool)) (payload bs : string) (ok : bool)
    (Hw : writeTCPPayload calls payload = Some (Ok (bs, ok))) :
  (exists rest, payload = bs +:+ rest) /\ (ok = true -> bs = payload).
Proof. by apply writeTCPPayload_prefix in Hw. Qed.

(** An update that is refused for its target template leaves the
    configuration as it is but has stopped its rate limiter when the rate
    changed: the workers go on with a limiter that never fires again. *)
Theorem refused_update_stops_limiter (c : config) (s : sys state string) (t : nat)
    (Hm : c_EnableMetrics (t_cfg (o_cfg (s_out s))) = true)
    (He : c_EventProcessors c = c_EventProcessors (t_cfg (o_cfg (s_out s))))
    (Hl : d_limiter (t_dyn (o_cfg (s_out s))) = Some t) (Hr : c_Rate c <> c_Rate (t_cfg (o_cfg (s_out s))) \/ (c_Rate c <= 0)%Z)
    (Ht : c_TargetTemplate c <> "") (Ha : c_AddTarget c <> "") (Hb : CreateTemplate (c_TargetTemplate c) = None) :
  exists s', Update (Ok c) s = Refused errTemplate s'
  /\ t_cfg (o_cfg (s_out s')) = t_cfg (o_cfg (s_out s)) /\ t_dyn (o_cfg (s_out s')) = t_dyn (o_cfg (s_out s))
  /\ t ∈ t_stopped (o_cfg (s_out s')).
Proof.
  unfold Update. cbv zeta. rewrite Hm, andb_false_r. cbn [andb]. cbn [setDefaultsFor c_EventProcessors c_TargetTemplate c_AddTarget].
  rewrite decide_True by (by rewrite He). unfold update_target_tpl.
  destruct (String.eqb_spec (c_TargetTemplate c) ""); [done|]. destruct (String.eqb_spec (c_AddTarget c) ""); [done|]. rewrite Hb.
  unfold update_limiter. cbn [c_Rate setDefaultsFor]. rewrite Hl. destruct (Z.ltb_spec 0 (c_Rate c)).
  - rewrite (proj2 (Z.eqb_neq _ _)) by (intros E; destruct Hr; [congruence|lia]).
    eexists. split; [reflexivity|]. cbn. split_and!; [done..|by left].
  - eexists. split; [reflexivity|]. cbn. split_and!; [done..|by left].
Qed.
End tcp.

(** ** Witnesses and examples *)

Definition no_processors (names : list string) : option (list processor_fn) := if nilb names then Some [] else None.
Definition ex_config (workers : Z) (buffer : nat) (rate : Z) (tpl : string) : config :=
  mkConfig "10.0.0.1:9000" rate buffer "json" (if String.eqb tpl "" then "" else "overwrite") tpl false false "" 0 0 0 workers true [].

#[local] Existing Instance templates_toy.

Definition ex_start (rate : Z) : sys state string :=
  match Init no_processors true (Ok (ex_config 2 4 rate "")) with Ok s => s | _ => init (mkState (ex_config 0 0 0 "") (mkDyn None [] (marshal_options (ex_config 0 0 0 "")) "" None) 0 []) false 0 [] end.

(** Three workers instead of two: the old ones are cancelled, leave, and the update returns. *)
Definition ex_updated : sys state string :=
  set_prog [] (set_workers (replicate 3 (mkWorker [2; 0] [0] 2)) (set_prog [IWait 1] (add_cancelled 1 (upd no_processors true (Ok (ex_config 3 4 0 "")) (ex_start 0))))).

Lemma ex_running : running no_processors true ex_updated.
Proof.
  exists (Ok (ex_config 2 4 0 "")), (ex_start 0). split; [reflexivity|].
  eapply rtc_l; [apply (step_update _ _ (Ok (ex_config 3 4 0 ""))); reflexivity|].
  eapply rtc_l; [apply step_instr, (istep_cancel _ 1 [IWait 1]); reflexivity|].
  eapply rtc_l; [apply (step_exit _ _ 0 (mkWorker [1; 0] [0] 1)); [reflexivity|by vm_compute]|].
  eapply rtc_l; [apply (step_exit _ _ 0 (mkWorker [1; 0] [0] 1)); [reflexivity|by vm_compute]|].
  eapply rtc_l; [apply step_instr, (istep_wait _ 1 []); [reflexivity|refine (bool_decide_unpack _ _); vm_compute; exact Logic.I]|].
  reflexivity.
Qed.

Lemma tcp_workers_current_witness :
  s_prog ex_updated = [] /\ s_workers ex_updated = replicate 3 (current ex_updated) /\ live ex_updated (current ex_updated) = true.
Proof.
  split; [reflexivity|]. apply (tcp_workers_current no_processors true ex_updated ex_running); [reflexivity..|].
  intros H. apply list_elem_of_singleton in H. discriminate H.
Defined.

(** A channel of two instead of four, with three messages in the old one and a
    writer that is late: one message does not fit. *)
Definition olds : list worker := replicate 2 (mkWorker [1; 0] [0] 1).
Definition news : list worker := replicate 2 (mkWorker [2; 0] [1] 2).
Definition late_writer : list (nat * string) := [(0, "late")].
Lemma fill_run (upd : go tcp_error config -> sys state string -> sys state string) (o : out state) : o_chans o = [0] ->
  reach upd (mkSys o 2 [] [mkChan 4 []] olds [] [] false [] [] [])
    (mkSys o 2 [] [mkChan 4 ["a"; "b"; "c"]] olds [] late_writer false ["c"; "b"; "a"] [] []).
Proof.
  intros Ho. assert (0 ∈ o_chans o) as Hin by (rewrite Ho; by left).
  set (St buf ws acc := mkSys o 2 [] [mkChan 4 buf] olds [] ws false acc [] [] : sys state string).
  assert (forall buf acc m, length buf < 4 -> rtc (step upd) (St buf [] acc) (St (buf ++ [m]) [] (m :: acc))) as Hone.
  { intros buf acc m Hl. apply (rtc_l _ _ (St buf [(0, m)] acc)); [exact (step_write upd (St buf [] acc) 0 m Hin)|].
    apply (rtc_l _ _ (St (buf ++ [m]) [] (m :: acc))); [|done].
    apply (step_send upd (St buf [(0, m)] acc) 0 0 m (St (buf ++ [m]) [(0, m)] acc)); [done|].
    unfold push. cbn. by rewrite (proj2 (Nat.leb_le _ _)) by (cbn in Hl; lia). }
  etrans; [apply (Hone [] [] "a"); cbn; lia|]. etrans; [apply (Hone ["a"] _ "b"); cbn; lia|].
  etrans; [apply (Hone ["a"; "b"] _ "c"); cbn; lia|]. apply rtc_once. exact (step_write upd (St ["a"; "b"; "c"] [] ["c"; "b"; "a"]) 0 "late" Hin).
Qed.
Lemma move_run (upd : go tcp_error config -> sys state string -> sys state string) (o : out state) :
  reach upd (mkSys o 3 [] [mkChan 4 ["a"; "b"; "c"]; mkChan 2 []] (olds ++ news) [ICancel 1; IWait 1; IDrain None [(0, 1)] None]
               late_writer false ["c"; "b"; "a"] [] [])
    (mkSys o 3 [1] [mkChan 4 []; mkChan 2 ["a"; "b"]] news [] late_writer false ["c"; "b"; "a"] [] ["c"]).
Proof.
  set (St can old new ws p dr := mkSys o 3 can [mkChan 4 old; mkChan 2 new] ws p late_writer false ["c"; "b"; "a"] [] dr : sys state string).
  set (old1 := mkWorker [1; 0] [0] 1). set (drain h := IDrain None [(0, 1)] h : instr string).
  assert (forall m old new, rtc (step upd) (St [1] (m :: old) new news [drain None] []) (St [1] old new news [drain (Some (1, m))] [])) as Hrecv.
  { intros m old new. apply rtc_once, step_instr.
    apply (istep_recv (St [1] (m :: old) new news [drain None] []) None [(0, 1)] [] 0 1 m (St [1] old new news [drain None] [])); [done|by left|].
    exact (recv_buf 0 m (St [1] (m :: old) new news [drain None] []) (mkChan 4 (m :: old)) old eq_refl eq_refl). }
  assert (forall m old new, length new < 2 ->
    rtc (step upd) (St [1] old new news [drain (Some (1, m))] []) (St [1] old (new ++ [m]) news [drain None] [])) as Hsend.
  { intros m old new Hl. apply rtc_once, step_instr.
    apply (istep_send (St [1] old new news [drain (Some (1, m))] []) None [(0, 1)] 1 m [] (St [1] old (new ++ [m]) news [drain (Some (1, m))] [])); [done|].
    unfold push. cbn. by rewrite (proj2 (Nat.leb_le _ _)) by (cbn in Hl; lia). }
  apply (rtc_l _ _ (St [1] ["a"; "b"; "c"] [] (olds ++ news) [IWait 1; drain None] [])); [exact (step_instr upd _ _ (istep_cancel (St [] ["a"; "b"; "c"] [] (olds ++ news) _ []) 1 _ eq_refl))|].
  apply (rtc_l _ _ (St [1] ["a"; "b"; "c"] [] (old1 :: news) [IWait 1; drain None] [])); [by apply (step_exit upd (St [1] ["a"; "b"; "c"] [] (olds ++ news) _ []) 0 old1)|].
  apply (rtc_l _ _ (St [1] ["a"; "b"; "c"] [] news [IWait 1; drain None] [])); [by apply (step_exit upd (St [1] ["a"; "b"; "c"] [] (old1 :: news) _ []) 0 old1)|].
  apply (rtc_l _ _ (St [1] ["a"; "b"; "c"] [] news [drain None] []));
    [apply step_instr, (istep_wait (St [1] ["a"; "b"; "c"] [] news [IWait 1; drain None] []) 1); [done|by repeat constructor]|].
  etrans; [apply Hrecv|]. etrans; [apply Hsend; cbn; lia|]. etrans; [apply Hrecv|]. etrans; [apply Hsend; cbn; lia|]. etrans; [apply Hrecv|].
  apply (rtc_l _ _ (St [1] [] ["a"; "b"] news [drain None] ["c"])); [by apply step_instr, (istep_drop (St [1] [] ["a"; "b"] news [drain (Some (1, "c"))] []) None [(0, 1)] 1 "c" [])|].
  apply rtc_once, step_instr, (istep_empty (St [1] [] ["a"; "b"] news [drain None] ["c"]) None [(0, 1)] []); [done|by repeat constructor].
Qed.

Definition ex_full : sys state string := mkSys (s_out (ex_start 0)) 2 [] [mkChan 4 ["a"; "b"; "c"]] olds [] late_writer false ["c"; "b"; "a"] [] [].
Lemma ex_start_eq : ex_start 0 = mkSys (s_out (ex_start 0)) 2 [] [mkChan 4 []] olds [] [] false [] [] [].
Proof. vm_compute. reflexivity. Qed.
Lemma ex_full_running : running no_processors true ex_full.
Proof.
  exists (Ok (ex_config 2 4 0 "")), (ex_start 0). split; [vm_compute; reflexivity|]. rewrite ex_start_eq. apply fill_run. vm_compute. reflexivity.
Qed.
Definition ex_swap : sys state string := upd no_processors true (Ok (ex_config 2 2 0 "")) ex_full.
Lemma ex_swap_eq : ex_swap = mkSys (s_out ex_swap) 3 [] [mkChan 4 ["a"; "b"; "c"]; mkChan 2 []] (olds ++ news)
  [ICancel 1; IWait 1; IDrain None [(0, 1)] None] late_writer false ["c"; "b"; "a"] [] [].
Proof. vm_compute. reflexivity. Qed.
Definition ex_moved : sys state string :=
  mkSys (s_out ex_swap) 3 [1] [mkChan 4 []; mkChan 2 ["a"; "b"]] news [] late_writer false ["c"; "b"; "a"] [] ["c"].
Lemma ex_moved_reach : reach (upd no_processors true) ex_swap ex_moved.
Proof. unfold ex_moved. rewrite ex_swap_eq at 1. apply move_run. Qed.

Lemma tcp_messages_conserved_witness :
  s_accepted ex_moved ≡ₚ s_taken ex_moved ++ s_dropped ex_moved ++ hands (s_prog ex_moved) ++ bufs (s_chans ex_moved) /\ s_dropped ex_moved = ["c"]
  /\ exists ch sd, o_chans (s_out ex_full) = [ch] /\ reach (upd no_processors true) ex_swap sd /\ reach (upd no_processors true) sd ex_moved
     /\ s_prog sd = [] /\ buf_of sd ch = [] /\ buf_of ex_moved ch ++ pending ex_moved ch ⊆+ pending sd ch.
Proof.
  split; [|split; [reflexivity|]].
  - apply (tcp_messages_conserved no_processors true ex_moved).
    destruct ex_full_running as (d & s0 & Hi & Hr). exists d, s0. split; [exact Hi|].
    etrans; [exact Hr|]. eapply rtc_l; [by apply (step_update _ _ (Ok (ex_config 2 2 0 "")))|]. apply ex_moved_reach.
  - apply (proj2 (tcp_messages_conserved no_processors true ex_full ex_full_running) (Ok (ex_config 2 2 0 "")) ex_moved);
      [reflexivity|vm_compute; discriminate|apply ex_moved_reach|reflexivity].
Defined.

Lemma tcp_retries_bounded_witness :
  worker_run (setDefaultsFor (ex_config 1 1 0 "")) "" (mkW false (Some "m") 0) (replicate 4 (Dialled false))
  = Some (wstate0, [Nothing; Nothing; Nothing; Lost "m"]).
Proof. refine (proj2 (tcp_retries_bounded (setDefaultsFor (ex_config 1 1 0 "")) "" "m" _)). by vm_compute. Defined.

Lemma tcp_payload_written_witness : exists rest, "hello" = "he" +:+ rest.
Proof. apply (tcp_payload_written [(2, false); (0, true)] "hello" "he" false). reflexivity. Defined.

Lemma refused_update_stops_limiter_witness :
  exists s', Update no_processors true (Ok (ex_config 2 4 7 "{{")) (ex_start 5) = Refused errTemplate s'
  /\ t_cfg (o_cfg (s_out s')) = t_cfg (o_cfg (s_out (ex_start 5))) /\ t_dyn (o_cfg (s_out s')) = t_dyn (o_cfg (s_out (ex_start 5)))
  /\ 0 ∈ t_stopped (o_cfg (s_out s')).
Proof. apply (refused_update_stops_limiter no_processors true _ _ 0); [reflexivity|reflexivity|reflexivity|left; discriminate|discriminate|discriminate|reflexivity]. Defined.

(** An update that changes the address alone restarts nothing: the workers keep
    the connections they have. *)
Example address_change_restarts_nothing :
  let nw := mkConfig "10.0.0.2:9000" 0 4 "json" "" "" false false "" 0 0 0 2 true [] in
  let s := upd no_processors true (Ok nw) (ex_start 0) in
  s_workers s = s_workers (ex_start 0) /\ s_prog s = [] /\ c_Address (t_cfg (o_cfg (s_out s))) = "10.0.0.2:9000".
Proof. by vm_compute. Qed.

(** [Validate] asks for a target template, [Init] does not. *)
Example validate_stricter_than_init :
  Validate (Ok (ex_config 2 4 0 "")) = Err errNoTemplate /\ is_ok (Init no_processors true (Ok (ex_config 2 4 0 ""))) = true.
Proof. by vm_compute. Qed.

(** A negative max-retries, refused by [Validate] alone, gives up at the first failure. *)
Example negative_retries : failed (mkConfig "" 0 0 "" "" "" false false "" 0 0 (-1) 0 false []) (mkW true (Some "m") 0) = (mkW false None 0, Lost "m").
Proof. by vm_compute. Qed.
