(* ===== verification/Udp.v ===== *)
(** * The UDP output (pkg/outputs/udp_output/udp_output.go)

    [Init] and [Update] over the workers of Workers.v, with one worker, and the
    worker's use of the rate limiter. [Init] keeps the context it cancels as the
    root of later contexts. Arguments as for the TCP output. *)

From stdpp Require Import strings list.
From S2P Require Import Prelude GoStrings GoVal Text Formats OutMsg Workers.

#[local] Open Scope nat_scope.

Record Config := mkConfig {
  c_Address : string; c_Rate : Z; c_BufferSize : nat; c_Format : string; c_AddTarget : string; c_TargetTemplate : string;
  c_OverrideTimestamps : bool; c_SplitEvents : bool; c_RetryInterval : Z; c_EnableMetrics : bool; c_EventProcessors : list string }.

Inductive udp_error := errDecode | errProcessors | errTemplate | errAddress | errNoAddress.

Definition setDefaultsFor (c : Config) : Config :=
  mkConfig (c_Address c) (c_Rate c) (c_BufferSize c) (c_Format c) (c_AddTarget c) (c_TargetTemplate c) (c_OverrideTimestamps c)
    (c_SplitEvents c) (if (c_RetryInterval c =? 0)%Z then 2000000000%Z else c_RetryInterval c) (c_EnableMetrics c) (c_EventProcessors c).

Definition validate (c : Config) : go udp_error () :=
  if String.eqb (c_Address c) "" then Err errNoAddress
  else match SplitHostPort (c_Address c) with None => Err errAddress | Some _ => Ok () end.
Definition Validate (decoded : go udp_error Config) : go udp_error () := c ← decoded; validate (setDefaultsFor c).

Definition channelNeedsSwap (old nw : Config) : bool := negb (Nat.eqb (c_BufferSize old) (c_BufferSize nw)).
Definition needsWorkerRestart (old nw : Config) : bool := negb (String.eqb (c_Address old) (c_Address nw)).

Section udp.
Context `{Templates} (processors : list string -> option (list processor_fn)).

Record dynConfig := mkDyn {
  d_targetTpl : option target_tpl; d_evps : list processor_fn; d_mo : MarshalOptions; d_limiter : option nat }.
Record state := mkState { u_cfg : Config; u_dyn : dynConfig; u_tickers : nat; u_stopped : list nat }.

Definition marshal_options (c : Config) : MarshalOptions :=
  mkMarshalOptions false "" (c_Format c) (c_OverrideTimestamps c) false false ∅ [] [].

(** [Init]: [u.rootCtx, u.cancelFn = context.WithCancel(u.rootCtx)] *)
Definition Init (decoded : go udp_error Config) : go udp_error (sys state string) :=
  c ← decoded;
  let c := setDefaultsFor c in
  match processors (c_EventProcessors c) with
  | None => Err errProcessors
  | Some evps =>
      match SplitHostPort (c_Address c) with
      | None => Err errAddress
      | Some _ =>
          let limited := (0 <? c_Rate c)%Z in
          tpl ← init_target_tpl errTemplate (c_TargetTemplate c) (c_AddTarget c);
          let d := mkDyn tpl evps (marshal_options c) (if limited then Some 0 else None) in
          Ok (init (mkState c d (if limited then 1 else 0) []) true 1 [c_BufferSize c])
      end
  end.

Definition update_limiter (old nw : Config) (st : state) : option nat * nat * list nat :=
  let stopped := match d_limiter (u_dyn st) with Some t => t :: u_stopped st | None => u_stopped st end in
  if (0 <? c_Rate nw)%Z then
    if (c_Rate old =? c_Rate nw)%Z then (d_limiter (u_dyn st), u_tickers st, u_stopped st)
    else (Some (u_tickers st), S (u_tickers st), stopped)
  else (None, u_tickers st, stopped).

Definition Update (decoded : go udp_error Config) (s : sys state string) : result state string udp_error :=
  match decoded with
  | Err e => Refused e s
  | Panic => Panics
  | Ok c =>
      let nw := setDefaultsFor c in
      let st := o_cfg (s_out s) in
      let old := u_cfg st in
      let swapChannel := channelNeedsSwap old nw in
      match (if decide (c_EventProcessors old = c_EventProcessors nw) then Some (d_evps (u_dyn st)) else processors (c_EventProcessors nw)) with
      | None => Refused errProcessors s
      | Some evps =>
          let '(limiter, tickers, stopped) := update_limiter old nw st in
          match update_target_tpl errTemplate (c_TargetTemplate nw) (c_AddTarget nw) with
          | Ok tpl =>
              let st' := mkState nw (mkDyn tpl evps (marshal_options nw) limiter) tickers stopped in
              if swapChannel || needsWorkerRestart old nw then
                Updated (start st' (o_root (s_out s)) 1 (if swapChannel then Some [c_BufferSize nw] else None) (stop_then_drain swapChannel) s)
              else Updated (keep st' s)
          | Err e => Refused e (keep (mkState old (u_dyn st) tickers stopped) s)
          | Panic => Panics
          end
      end
  end.

Definition upd (decoded : go udp_error Config) (s : sys state string) : sys state string := state_after s (Update decoded s).

#[export] Instance udp_restarts : Restarts upd.
Proof.
  intros i s _. unfold upd, Update. destruct i as [c|e|]; [|by left|by left]. cbv zeta.
  destruct (if decide _ then _ else _) as [evps|]; [|by left].
  destruct (update_limiter _ _ _) as [[l n] st]. destruct (update_target_tpl _ _ _) as [tpl|e|]; cbn [state_after].
  - destruct (_ || _); [|right; left; by eexists]. right. right. eexists _, _, _, _. split; [reflexivity|]. right. by eexists.
  - right. left. by eexists.
  - by left.
Qed.

Definition running (s : sys state string) : Prop := exists d s0, Init d = Ok s0 /\ reach upd s0 s.

Lemma udp_running s : running s -> reachable upd true (fun st => [c_BufferSize (u_cfg st)]) (fun _ => 1) s.
Proof.
  intros (d & s0 & Hi & Hr). unfold Init in Hi. apply bind_ok in Hi as (c & _ & Hi). destruct (processors _) as [evps|]; [|done].
  destruct (SplitHostPort _); [|done]. apply bind_ok in Hi as (tpl & _ & Hi). injection Hi as <-.
  eexists (mkState (setDefaultsFor c) _ _ _). exact Hr.
Qed.

(** ** The worker and the rate limiter *)

(** The worker keeps the limiter it found when it connected, and waits for a
    tick of it before each message. *)
Definition limiter_at_dial (st : state) : option nat := d_limiter (u_dyn st).
Definition may_send (limiter : option nat) (st : state) : bool :=
  match limiter with None => true | Some t => negb (existsb (Nat.eqb t) (u_stopped st)) end.

Lemma update_limiter_stops old nw st t : d_limiter (u_dyn st) = Some t -> c_Rate old <> c_Rate nw \/ (c_Rate nw <= 0)%Z ->
  exists l n, update_limiter old nw st = (l, n, t :: u_stopped st).
Proof.
  intros Hl Hr. unfold update_limiter. rewrite Hl. destruct (Z.ltb_spec 0 (c_Rate nw)); [|by eexists _, _].
  destruct (Z.eqb_spec (c_Rate old) (c_Rate nw)); [destruct Hr; [done|lia]|by eexists _, _].
Qed.

(** * Properties *)

(** The worker an update starts derives from the context the same update
    cancels: once an update that restarts the worker has returned, no worker is
    live, after any further updates too, and nothing that is written is sent. *)
Theorem udp_update_kills_output (c : Config) (s s' s2 : sys state string) (Hs : running s) (Hp : s_prog s = [])
    (Hu : Update (Ok c) s = Updated s')
    (Hr : channelNeedsSwap (u_cfg (o_cfg (s_out s))) (setDefaultsFor c) || needsWorkerRestart (u_cfg (o_cfg (s_out s))) (setDefaultsFor c) = true)
    (Hs2 : reach upd s' s2) (Hp2 : s_prog s2 = []) :
  Forall (fun w => live s2 w = false) (s_workers s2).
Proof.
  apply udp_running in Hs. apply (reachable_fragile upd) in Hs. unfold Update in Hu. cbv zeta in Hu.
  destruct (if decide _ then _ else _) as [evps|]; [|done]. destruct (update_limiter _ _ _) as [[l n] st].
  destruct (update_target_tpl _ _ _) as [tpl|e|]; [|done..]. rewrite Hr in Hu.
  assert (Hi : forall x y : sys state string, Updated (E := udp_error) x = Updated y -> x = y) by congruence.
  apply Hi in Hu as <-. eapply (fragile_restart upd); [exact Hs|exact Hp| |exact Hs2|exact Hp2]. right. by eexists.
Qed.

(** An update that changes the rate and restarts nothing stops the limiter
    its worker keeps waiting for: no message is sent any more. *)
Theorem udp_rate_change_hangs (c : Config) (s s' : sys state string) (t : nat) (Hu : Update (Ok c) s = Updated s')
    (Hl : limiter_at_dial (o_cfg (s_out s)) = Some t)
    (Hc : c_Rate (u_cfg (o_cfg (s_out s))) <> c_Rate c \/ (c_Rate c <= 0)%Z)
    (Hr : channelNeedsSwap (u_cfg (o_cfg (s_out s))) (setDefaultsFor c) || needsWorkerRestart (u_cfg (o_cfg (s_out s))) (setDefaultsFor c) = false) :
  s_workers s' = s_workers s /\ s_prog s' = s_prog s /\ may_send (limiter_at_dial (o_cfg (s_out s))) (o_cfg (s_out s')) = false.
Proof.
  unfold Update in Hu. cbv zeta in Hu. destruct (if decide _ then _ else _) as [evps|]; [|done].
  destruct (update_limiter_stops (u_cfg (o_cfg (s_out s))) (setDefaultsFor c) (o_cfg (s_out s)) t Hl Hc) as (l & n & Hul). rewrite Hul in Hu.
  destruct (update_target_tpl _ _ _) as [tpl|e|]; [|done..]. rewrite Hr in Hu. injection Hu as <-. split_and!; [done..|].
  unfold may_send. rewrite Hl. cbn. by rewrite Nat.eqb_refl.
Qed.
End udp.

(** ** Witnesses and examples *)

#[local] Existing Instance templates_toy.
Definition no_processors (names : list string) : option (list processor_fn) := if nilb names then Some [] else None.
Definition ex_config (address : string) (buffer : nat) (rate : Z) : Config := mkConfig address rate buffer "json" "" "" false false 0 false [].
Definition ex_start (rate : Z) : sys state string :=
  match Init no_processors (Ok (ex_config "10.0.0.1:514" 4 rate)) with Ok s => s
  | _ => init (mkState (ex_config "" 0 0) (mkDyn None [] (marshal_options (ex_config "" 0 0)) None) 0 []) true 0 [] end.
Definition ex_moved : sys state string := upd no_processors (Ok (ex_config "10.0.0.2:514" 4 0)) (ex_start 0).
(** The old worker left; the new one has not yet. *)
Definition ex_after : sys state string :=
  set_prog [] (set_workers [mkWorker [2; 1; 0] [0] 2] (set_prog [IWait 1] (add_cancelled 1 ex_moved))).

Lemma udp_update_kills_output_witness : s_workers ex_after <> [] /\ Forall (fun w => live ex_after w = false) (s_workers ex_after).
Proof.
  split; [done|].
  apply (udp_update_kills_output no_processors (ex_config "10.0.0.2:514" 4 0) (ex_start 0) ex_moved ex_after).
  - exists (Ok (ex_config "10.0.0.1:514" 4 0)), (ex_start 0). split; [reflexivity|]. apply rtc_refl.
  - reflexivity.
  - reflexivity.
  - reflexivity.
  - eapply rtc_l; [apply step_instr, (istep_cancel _ 1 [IWait 1]); reflexivity|].
    eapply rtc_l; [apply (step_exit _ _ 0 (mkWorker [1; 0] [0] 1)); [reflexivity|by vm_compute]|].
    eapply rtc_l; [apply step_instr, (istep_wait _ 1 []); [reflexivity|refine (bool_decide_unpack _ _); vm_compute; exact Logic.I]|].
    apply rtc_refl.
  - reflexivity.
Defined.

Lemma udp_rate_change_hangs_witness :
  exists s', Update no_processors (Ok (ex_config "10.0.0.1:514" 4 9)) (ex_start 5) = Updated s'
  /\ may_send (Some 0) (o_cfg (s_out s')) = false.
Proof.
  eexists. split; [reflexivity|].
  refine (proj2 (proj2 (udp_rate_change_hangs no_processors (ex_config "10.0.0.1:514" 4 9) (ex_start 5) _ 0 eq_refl eq_refl (or_introl _) eq_refl))).
  discriminate.
Defined.
