(* ===== verification/Nats.v ===== *)
(** * The NATS output (pkg/outputs/nats_outputs/nats/nats_output.go)

    The configuration and its defaults, [Init] and [Update] over the workers of
    Workers.v (with a channel of messages and one of events), the subject of a
    message and what a worker publishes for a message or an event. [Init] keeps
    the context it cancels as the root of later contexts. The connection is a
    library's; a worker's calls of [Publish] are their results. *)

From stdpp Require Import strings list.
From S2P Require Import Prelude GoStrings Utf8 GoVal Text Path Event Tags Messages Formats OutMsg Workers.

#[local] Open Scope nat_scope.

Record Config := mkConfig {
  c_Name : string; c_Address : string; c_SubjectPrefix : string; c_Subject : string; c_Username : string; c_Password : string;
  c_ConnectTimeWait : Z; c_TLS : option TLSConfig; c_Format : string; c_SplitEvents : bool; c_AddTarget : string;
  c_TargetTemplate : string; c_MsgTemplate : string; c_OverrideTimestamps : bool; c_NumWorkers : Z; c_WriteTimeout : Z;
  c_BufferSize : nat; c_EnableMetrics : bool; c_EventProcessors : list string }.

Inductive nats_error := errDecode | errMetrics | errProcessors | errTargetTemplate | errMsgTemplate.

Definition or_default (d s : string) : string := if String.eqb s "" then d else s.
Definition or_positive (d z : Z) : Z := if (z <=? 0)%Z then d else z.

(** [setDefaultsFor]; [uuid] is a fresh name. *)
Definition setDefaultsFor (uuid : string) (c : Config) : Config :=
  mkConfig (or_default ("gnmic-" +:+ uuid) (c_Name c)) (or_default "localhost:4222" (c_Address c)) (c_SubjectPrefix c)
    (if String.eqb (c_Subject c) "" && String.eqb (c_SubjectPrefix c) "" then "telemetry" else c_Subject c)
    (c_Username c) (c_Password c) (or_positive 2000000000 (c_ConnectTimeWait c)) (c_TLS c) (or_default "event" (c_Format c)) (c_SplitEvents c)
    (c_AddTarget c) (c_TargetTemplate c) (c_MsgTemplate c) (c_OverrideTimestamps c) (or_positive 1 (c_NumWorkers c))
    (or_positive 5000000000 (c_WriteTimeout c)) (c_BufferSize c) (c_EnableMetrics c) (c_EventProcessors c).

Definition with_name (name : string) (c : Config) : Config :=
  mkConfig name (c_Address c) (c_SubjectPrefix c) (c_Subject c) (c_Username c) (c_Password c) (c_ConnectTimeWait c) (c_TLS c) (c_Format c)
    (c_SplitEvents c) (c_AddTarget c) (c_TargetTemplate c) (c_MsgTemplate c) (c_OverrideTimestamps c) (c_NumWorkers c) (c_WriteTimeout c)
    (c_BufferSize c) (c_EnableMetrics c) (c_EventProcessors c).

Definition channelNeedsSwap (old nw : Config) : bool := negb (Nat.eqb (c_BufferSize old) (c_BufferSize nw)).
Definition needsWorkerRestart (old nw : Config) : bool :=
  negb (Z.eqb (c_NumWorkers old) (c_NumWorkers nw)) || negb (TLS_Equal (c_TLS old) (c_TLS nw))
  || negb (String.eqb (c_Address old) (c_Address nw)) || negb (String.eqb (c_Username old) (c_Username nw))
  || negb (String.eqb (c_Password old) (c_Password nw)).

(** ** Subjects *)

Definition map_runes (f : Z -> Z) (s : string) : string := encode (f <$> runes_of s).
Definition source_rune (r : Z) : Z := if (r =? 46)%Z then 45%Z else if (r =? 32)%Z then 95%Z else r.
Definition subscription_rune (r : Z) : Z := if (r =? 32)%Z then 95%Z else r.

Definition subjectName (c : Config) (meta : gomap string) : string :=
  if String.eqb (c_SubjectPrefix c) "" then replace_byte " " "_" (c_Subject c)
  else c_SubjectPrefix c
    +:+ ((match gm_get meta "source" with Some s => "." +:+ map_runes source_rune s | None => "" end)
    +:+ (match gm_get meta "subscription-name" with Some s => "." +:+ map_runes subscription_rune s | None => "" end)).

Section nats.
Context `{Templates} (processors : list string -> option (list processor_fn)) (register : bool).

Record dynConfig := mkDyn {
  d_targetTpl : option target_tpl; d_msgTpl : option template; d_evps : list processor_fn; d_mo : MarshalOptions }.
Record state := mkState { n_cfg : Config; n_dyn : dynConfig }.

(** A message of one of the two channels. *)
Inductive item := ItemMsg (m : option pmsg) (meta : gomap string) | ItemEvent (e : EventMsg).

Definition marshal_options (c : Config) : MarshalOptions :=
  mkMarshalOptions false "" (c_Format c) (c_OverrideTimestamps c) false false ∅ [] [].

(** ** Init and Update *)

(** [n.ctx, n.cancelFn = context.WithCancel(ctx)] *)
Definition Init (name uuid : string) (decoded : go nats_error Config) : go nats_error (sys state item) :=
  c ← decoded;
  let c := setDefaultsFor uuid (if String.eqb (c_Name c) "" then with_name name c else c) in
  if negb register then Err errMetrics
  else match processors (c_EventProcessors c) with
  | None => Err errProcessors
  | Some evps =>
      ttpl ← init_target_tpl errTargetTemplate (c_TargetTemplate c) (c_AddTarget c);
      mtpl ← create_msg_tpl errMsgTemplate (c_MsgTemplate c);
      Ok (init (mkState c (mkDyn ttpl mtpl evps (marshal_options c))) true (Z.to_nat (c_NumWorkers c)) [c_BufferSize c; c_BufferSize c])
  end.

(** [Validate]: the defaults are not looked at. *)
Definition Validate (decoded : go nats_error Config) : go nats_error () :=
  c ← decoded;
  match CreateTemplate (c_TargetTemplate c), CreateTemplate (c_MsgTemplate c) with
  | None, _ => Err errTargetTemplate | Some _, None => Err errMsgTemplate | Some _, Some _ => Ok ()
  end.

(** The workers are started in the number of the configuration before. *)
Definition Update (uuid : string) (decoded : go nats_error Config) (s : sys state item) : result state item nats_error :=
  match decoded with
  | Err e => Refused e s
  | Panic => Panics
  | Ok c =>
      let nw := setDefaultsFor uuid c in
      let st := o_cfg (s_out s) in
      let old := n_cfg st in
      let swapChannel := channelNeedsSwap old nw in
      match update_target_tpl errTargetTemplate (c_TargetTemplate nw) (c_AddTarget nw), create_msg_tpl errMsgTemplate (c_MsgTemplate nw) with
      | Ok ttpl, Ok mtpl =>
          match (if decide (c_EventProcessors old = c_EventProcessors nw) then Some (d_evps (n_dyn st)) else processors (c_EventProcessors nw)) with
          | None => Refused errProcessors s
          | Some evps =>
              let st' := mkState nw (mkDyn ttpl mtpl evps (marshal_options nw)) in
              if swapChannel || needsWorkerRestart old nw then
                Updated (start st' (o_root (s_out s)) (Z.to_nat (c_NumWorkers old))
                  (if swapChannel then Some [c_BufferSize nw; c_BufferSize nw] else None) (stop_then_drain swapChannel) s)
              else Updated (keep st' s)
          end
      | Err e, _ => Refused e s
      | Ok _, Err e => Refused e s
      | _, _ => Panics
      end
  end.

Definition upd (i : string * go nats_error Config) (s : sys state item) : sys state item := state_after s (Update i.1 i.2 s).

#[export] Instance nats_restarts : Restarts upd.
Proof.
  intros [uuid [c|e|]] s _; unfold upd, Update; cbn [fst snd]; [|by left|by left]. cbv zeta.
  destruct (update_target_tpl _ _ _) as [ttpl|e|]; [|by left|by left]. destruct (create_msg_tpl _ _) as [mtpl|e|]; [|by left|by left].
  destruct (if decide _ then _ else _) as [evps|]; [|by left]. cbn [state_after].
  destruct (_ || needsWorkerRestart _ _); [|right; left; by eexists]. right. right. eexists _, _, _, _. split; [reflexivity|]. right. by eexists.
Qed.

Definition running (s : sys state item) : Prop := exists name uuid d s0, Init name uuid d = Ok s0 /\ reach upd s0 s.

Lemma nats_running s : running s ->
  reachable upd true (fun st => [c_BufferSize (n_cfg st); c_BufferSize (n_cfg st)]) (fun st => Z.to_nat (c_NumWorkers (n_cfg st))) s.
Proof.
  intros (name & uuid & d & s0 & Hi & Hr). unfold Init in Hi. apply bind_ok in Hi as (c & _ & Hi).
  destruct register; [|done]. cbn [negb] in Hi. destruct (processors _) as [evps|]; [|done].
  apply bind_ok in Hi as (ttpl & _ & Hi). apply bind_ok in Hi as (mtpl & _ & Hi).
  assert (Hinj : forall x y : sys state item, Ok (E := nats_error) x = Ok y -> x = y) by congruence. apply Hinj in Hi. subst s0.
  eexists (mkState _ _). exact Hr.
Qed.

(** ** What a worker publishes *)

Context `{MapOrder} `{EventEnv} `{FmtEnv} `{FormatEnv} (now : nat -> Z).

Definition published (st : state) (m : option pmsg) (meta : gomap string) : go () (list (string * string)) :=
  let c := n_cfg st in let d := n_dyn st in
  match payloads now (c_AddTarget c) (d_targetTpl d) (d_mo d) (c_SplitEvents c) (d_evps d) (d_msgTpl d) m meta with
  | Ok bs => Ok ((fun b => (subjectName c meta, b)) <$> bs)
  | Err e => Err e
  | Panic => Panic
  end.

(** [publishEvent]: the subject comes from the tags of the event as it arrived;
    an event that cannot be encoded leaves all unpublished. *)
Definition event_meta (e : EventMsg) : gomap string :=
  let tag k := match gm_get (ev_Tags e) k with Some s => if String.eqb s "" then None else Some s | None => None end in
  Some (match tag "subscription-name" with Some s => <["subscription-name" := s]> | None => id end
        (match tag "source" with Some s => {["source" := s]} | None => ∅ end)).

Context (json_events : list (option EventMsg) -> option string).

Definition event_pieces (split : bool) (evs : list (option EventMsg)) : option (list string) :=
  if split then mapM (json_Marshal_event false "") evs else option_map (fun b => [b]) (json_events evs).
Definition published_event (st : state) (e : EventMsg) : go event_error (list (string * string)) :=
  let c := n_cfg st in let d := n_dyn st in
  evs ← applyAll (d_evps d) [Some e];
  Ok (match event_pieces (c_SplitEvents c) evs with
      | None => []
      | Some bs => map (fun b => (subjectName c (event_meta e), b)) (omap (through_template (d_msgTpl d)) bs)
      end).
End nats.

(** ** Lemmas on subjects *)

Lemma map_runes_none (f : Z -> Z) c s : (byte_z c <= 127)%Z -> (forall r, valid_rune r = true -> valid_rune (f r) = true /\ f r <> byte_z c) ->
  snone c (map_runes f s) = true.
Proof.
  intros Hc Hf. unfold map_runes. pose proof (runes_of_valid s) as Hv. unfold valid_runes in Hv. rewrite forallb_forall in Hv.
  rewrite snone_encode; [|done|].
  - apply forallb_forall. intros r Hx'; apply in_map_iff in Hx' as (x & <- & Hx). apply negb_true_iff, Z.eqb_neq, Hf, Hv, Hx.
  - apply forallb_forall. intros r Hx'; apply in_map_iff in Hx' as (x & <- & Hx). apply Hf, Hv, Hx.
Qed.

Lemma source_token s : snone "." (map_runes source_rune s) = true /\ snone " " (map_runes source_rune s) = true.
Proof.
  split; (apply map_runes_none; [by vm_compute|]); intros r Hr; unfold source_rune; change (byte_z ".") with 46%Z; change (byte_z " ") with 32%Z;
    destruct (Z.eqb_spec r 46), (Z.eqb_spec r 32); split; try done; lia.
Qed.

Lemma subscription_token s : snone " " (map_runes subscription_rune s) = true.
Proof.
  apply map_runes_none; [by vm_compute|]. intros r Hr. unfold subscription_rune. change (byte_z " ") with 32%Z.
  destruct (Z.eqb_spec r 32); split; try done; lia.
Qed.

Section lemmas.
Context `{Templates} (processors : list string -> option (list processor_fn)).

Lemma nats_restart uuid c (s s' : sys state item) : Update processors uuid (Ok c) s = Updated s' ->
  let old := n_cfg (o_cfg (s_out s)) in let nw := setDefaultsFor uuid c in
  channelNeedsSwap old nw || needsWorkerRestart old nw = true ->
  exists st', n_cfg st' = nw /\ s' = start st' (o_root (s_out s)) (Z.to_nat (c_NumWorkers old))
    (if channelNeedsSwap old nw then Some [c_BufferSize nw; c_BufferSize nw] else None) (stop_then_drain (channelNeedsSwap old nw)) s.
Proof.
  intros Hu. cbv zeta. intros Hr. unfold Update in Hu. cbv zeta in Hu.
  destruct (update_target_tpl errTargetTemplate _ _) as [ttpl|e|]; [|done|done]. destruct (create_msg_tpl errMsgTemplate _) as [mtpl|e|]; [|done|done].
  destruct (if decide _ then _ else _) as [evps|]; [|done]. rewrite Hr in Hu.
  assert (Hi : forall x y : sys state item, Updated (E := nats_error) x = Updated y -> x = y) by congruence.
  apply Hi in Hu. eexists. split; [|by symmetry]. done.
Qed.
End lemmas.

(** * Properties *)

Section properties.
Context `{Templates} (processors : list string -> option (list processor_fn)) (register : bool).

(** C29: [Update] derives the context of the new workers from the one the old
    [cancelFn] cancels: once an update that restarts workers has returned, no
    worker is live, and no later update helps. *)
Theorem nats_update_kills_output (uuid : string) (c : Config) (s s' s2 : sys state item) (Hs : running processors register s) (Hp : s_prog s = [])
    (Hu : Update processors uuid (Ok c) s = Updated s')
    (Hr : channelNeedsSwap (n_cfg (o_cfg (s_out s))) (setDefaultsFor uuid c) || needsWorkerRestart (n_cfg (o_cfg (s_out s))) (setDefaultsFor uuid c) = true)
    (Hs2 : reach (upd processors) s' s2) (Hp2 : s_prog s2 = []) :
  Forall (fun w => live s2 w = false) (s_workers s2).
Proof.
  apply nats_running in Hs. apply (reachable_fragile (upd processors)) in Hs.
  destruct (nats_restart _ _ _ _ _ Hu Hr) as (st' & _ & ->).
  eapply (fragile_restart (upd processors)); [exact Hs|exact Hp| |exact Hs2|exact Hp2]. right. by eexists.
Qed.

(** The subject of a message with a subject prefix: the tokens of the
    prefix, then the source as one token whatever dots and spaces it has, then
    the subscription name without spaces. *)
Theorem nats_subject_tokens (c : Config) (meta : gomap string) (Hp : c_SubjectPrefix c <> "") :
  split_byte "." (subjectName c meta)
  = split_byte "." (c_SubjectPrefix c)
    ++ (match gm_get meta "source" with Some s => [map_runes source_rune s] | None => [] end)
    ++ (match gm_get meta "subscription-name" with Some s => split_byte "." (map_runes subscription_rune s) | None => [] end)
  /\ (forall s, gm_get meta "source" = Some s -> snone " " (map_runes source_rune s) = true)
  /\ (forall s, gm_get meta "subscription-name" = Some s -> snone " " (map_runes subscription_rune s) = true).
Proof.
  split; [|split; [intros s _; apply source_token|intros s _; apply subscription_token]].
  unfold subjectName. rewrite (proj2 (String.eqb_neq _ _) Hp).
  assert (Hsub : forall a, split_byte "." (a +:+ match gm_get meta "subscription-name" with Some s => "." +:+ map_runes subscription_rune s | None => "" end)
    = split_byte "." a ++ match gm_get meta "subscription-name" with Some s => split_byte "." (map_runes subscription_rune s) | None => [] end).
  { intros a. destruct (gm_get meta "subscription-name") as [s|]; [apply split_cat|]. by rewrite sapp_nil_r, app_nil_r. }
  destruct (gm_get meta "source") as [s|]; [|apply Hsub].
  change (("." +:+ map_runes source_rune s) +:+ ?t) with (String "." (map_runes source_rune s +:+ t)).
  rewrite split_cat, Hsub, (split_byte_none _ (map_runes source_rune s)) by apply source_token. done.
Qed.

(** An update that changes the number of workers starts as many as there were. *)
Theorem nats_update_old_count (uuid : string) (c : Config) (s s' : sys state item)
    (Hu : Update processors uuid (Ok c) s = Updated s')
    (Hr : channelNeedsSwap (n_cfg (o_cfg (s_out s))) (setDefaultsFor uuid c) || needsWorkerRestart (n_cfg (o_cfg (s_out s))) (setDefaultsFor uuid c) = true) :
  o_started (s_out s') = Z.to_nat (c_NumWorkers (n_cfg (o_cfg (s_out s)))) /\ n_cfg (o_cfg (s_out s')) = setDefaultsFor uuid c.
Proof. by destruct (nats_restart _ _ _ _ _ Hu Hr) as (st' & <- & ->). Qed.
End properties.

(** ** Witnesses and examples *)

#[local] Existing Instance templates_toy.
Definition no_processors (names : list string) : option (list processor_fn) := if nilb names then Some [] else None.
Definition ex_config (workers : Z) (buffer : nat) : Config :=
  mkConfig "out" "nats:4222" "telemetry.lab" "" "" "" 0 None "json" false "" "" "" false workers 0 buffer false [].
Definition ex_start : sys state item :=
  match Init no_processors true "n" "u" (Ok (ex_config 2 4)) with Ok s => s
  | _ => init (mkState (ex_config 0 0) (mkDyn None None [] (marshal_options (ex_config 0 0)))) true 0 [] end.
Definition ex_scaled : sys state item := upd no_processors ("u", Ok (ex_config 3 4)) ex_start.
Definition ex_after : sys state item :=
  set_prog [] (set_workers (replicate 2 (mkWorker [2; 1; 0] [0; 1] 2)) (set_prog [IWait 1] (add_cancelled 1 ex_scaled))).

Lemma nats_update_kills_output_witness : s_workers ex_after <> [] /\ Forall (fun w => live ex_after w = false) (s_workers ex_after).
Proof.
  split; [done|].
  apply (nats_update_kills_output no_processors true "u" (ex_config 3 4) ex_start ex_scaled ex_after).
  - exists "n", "u", (Ok (ex_config 2 4)), ex_start. split; [reflexivity|]. apply rtc_refl.
  - reflexivity.
  - reflexivity.
  - reflexivity.
  - eapply rtc_l; [apply step_instr, (istep_cancel _ 1 [IWait 1]); reflexivity|].
    eapply rtc_l; [apply (step_exit _ _ 0 (mkWorker [1; 0] [0; 1] 1)); [reflexivity|by vm_compute]|].
    eapply rtc_l; [apply (step_exit _ _ 0 (mkWorker [1; 0] [0; 1] 1)); [reflexivity|by vm_compute]|].
    eapply rtc_l; [apply step_instr, (istep_wait _ 1 []); [reflexivity|refine (bool_decide_unpack _ _); vm_compute; exact Logic.I]|].
    apply rtc_refl.
  - reflexivity.
Defined.

Lemma nats_subject_tokens_witness :
  split_byte "." (subjectName (ex_config 1 1) (Some {["source" := "10.0.0.1:57400"; "subscription-name" := "if stats"]}))
  = ["telemetry"; "lab"; "10-0-0-1:57400"; "if_stats"].
Proof.
  rewrite (proj1 (nats_subject_tokens (ex_config 1 1) (Some {["source" := "10.0.0.1:57400"; "subscription-name" := "if stats"]}) ltac:(discriminate))).
  by vm_compute.
Defined.

Lemma nats_update_old_count_witness : o_started (s_out ex_scaled) = 2 /\ c_NumWorkers (n_cfg (o_cfg (s_out ex_scaled))) = 3%Z.
Proof.
  destruct (nats_update_old_count no_processors "u" (ex_config 3 4) ex_start ex_scaled eq_refl eq_refl) as [-> ->]. by vm_compute.
Defined.

(** An update without a name takes a new one: only [Init] falls back on the name of the output. *)
Example update_loses_name :
  let anonymous := with_name "" (ex_config 2 4) in
  c_Name (n_cfg (o_cfg (s_out (upd no_processors ("f3e1", Ok anonymous) ex_start)))) = "gnmic-f3e1"
  /\ match Init no_processors true "out1" "f3e1" (Ok anonymous) with Ok s => c_Name (n_cfg (o_cfg (s_out s))) = "out1" | _ => False end.
Proof. by vm_compute. Qed.
