(* ===== verification/Jetstream.v ===== *)
(** * The JetStream output (pkg/outputs/nats_outputs/jetstream/jetstream_output.go)

    The configuration and its defaults, [Init] and [Update] over the workers of
    Workers.v, the subjects, the splitting of a response into one message per
    path, and what a worker publishes. The connection and the stream manager are
    a library's: what they answer is an argument. *)

From stdpp Require Import strings list gmap.
From S2P Require Import Prelude GoStrings Utf8 GoVal Text Path Event Tags Messages Formats OutMsg Workers Nats.

#[local] Open Scope nat_scope.

Record createStreamConfig := mkCreate {
  cs_Description : string; cs_Subjects : list string; cs_Storage : string; cs_Retention : string;
  cs_MaxMsgs : Z; cs_MaxBytes : Z; cs_MaxAge : Z; cs_MaxMsgSize : Z }.

Record config := mkConfig {
  c_Name : string; c_Address : string; c_Stream : string; c_Subject : string; c_SubjectFormat : string;
  c_CreateStream : option createStreamConfig; c_Username : string; c_Password : string; c_ConnectTimeWait : Z;
  c_TLS : option TLSConfig; c_Format : string; c_SplitEvents : bool; c_AddTarget : string; c_TargetTemplate : string;
  c_MsgTemplate : string; c_OverrideTimestamps : bool; c_NumWorkers : Z; c_WriteTimeout : Z; c_BufferSize : nat;
  c_EnableMetrics : bool; c_EventProcessors : list string }.

Inductive js_error := errDecode | errNoStream | errSubjectFormat | errRetention | errMetrics | errProcessors | errTargetTemplate | errMsgTemplate | errStream.

Definition subjectFormat_Static : string := "static".
Definition subjectFormat_TargetSub : string := "target.subscription".
Definition subjectFormat_SubTarget : string := "subscription.target".
Definition subjectFormat_SubTargetPath : string := "subscription.target.path".
Definition subjectFormat_SubTargetPathWithKeys : string := "subscription.target.pathKeys".

Inductive storage := FileStorage | MemoryStorage.
Inductive retention := LimitsPolicy | WorkQueuePolicy.
#[export] Instance storage_eq_dec : EqDecision storage.
Proof. solve_decision. Defined.

Section streams.
Context `{UnicodeCase}.

Definition storageType (s : string) : storage := if String.eqb (ToLower s) "file" then FileStorage else MemoryStorage.
Definition isValidRetentionPolicy (s : string) : bool := String.eqb (ToLower s) "limits" || String.eqb (ToLower s) "workqueue".
Definition retentionPolicy (s : string) : retention := if String.eqb (ToLower s) "workqueue" then WorkQueuePolicy else LimitsPolicy.

Definition subject_format_ok (f : string) : bool :=
  existsb (String.eqb f) [subjectFormat_Static; subjectFormat_TargetSub; subjectFormat_SubTarget; subjectFormat_SubTargetPath; subjectFormat_SubTargetPathWithKeys].

Definition create_defaults (stream : string) (cs : createStreamConfig) : createStreamConfig :=
  mkCreate (or_default "created by gNMIc" (cs_Description cs)) (if nilb (cs_Subjects cs) then [stream +:+ ".>"] else cs_Subjects cs)
    (or_default "memory" (cs_Storage cs)) (or_default "limits" (cs_Retention cs)) (cs_MaxMsgs cs) (cs_MaxBytes cs) (cs_MaxAge cs) (cs_MaxMsgSize cs).

Definition with_defaults (uuid : string) (c : config) : config :=
  mkConfig (or_default ("gnmic-" +:+ uuid) (c_Name c)) (or_default "localhost:4222" (c_Address c)) (c_Stream c) (or_default "telemetry" (c_Subject c))
    (or_default subjectFormat_Static (c_SubjectFormat c)) (create_defaults (c_Stream c) <$> c_CreateStream c) (c_Username c) (c_Password c)
    (or_positive 2000000000 (c_ConnectTimeWait c)) (c_TLS c) (or_default "event" (c_Format c)) (c_SplitEvents c) (c_AddTarget c)
    (c_TargetTemplate c) (c_MsgTemplate c) (c_OverrideTimestamps c) (or_positive 1 (c_NumWorkers c)) (or_positive 5000000000 (c_WriteTimeout c))
    (c_BufferSize c) (c_EnableMetrics c) (c_EventProcessors c).

Definition setDefaultsFor (uuid : string) (c : config) : go js_error config :=
  if String.eqb (c_Stream c) "" then Err errNoStream
  else if negb (subject_format_ok (or_default subjectFormat_Static (c_SubjectFormat c))) then Err errSubjectFormat
  else let c := with_defaults uuid c in
       match c_CreateStream c with
       | Some cs => if isValidRetentionPolicy (cs_Retention cs) then Ok c else Err errRetention
       | None => Ok c
       end.

Definition with_name (name : string) (c : config) : config :=
  mkConfig name (c_Address c) (c_Stream c) (c_Subject c) (c_SubjectFormat c) (c_CreateStream c) (c_Username c) (c_Password c)
    (c_ConnectTimeWait c) (c_TLS c) (c_Format c) (c_SplitEvents c) (c_AddTarget c) (c_TargetTemplate c) (c_MsgTemplate c)
    (c_OverrideTimestamps c) (c_NumWorkers c) (c_WriteTimeout c) (c_BufferSize c) (c_EnableMetrics c) (c_EventProcessors c).

Definition channelNeedsSwap (old nw : config) : bool := negb (Nat.eqb (c_BufferSize old) (c_BufferSize nw)).
Definition needsWorkerRestart (old nw : config) : bool :=
  negb (Z.eqb (c_NumWorkers old) (c_NumWorkers nw)) || negb (TLS_Equal (c_TLS old) (c_TLS nw))
  || negb (String.eqb (c_Address old) (c_Address nw)) || negb (String.eqb (c_Username old) (c_Username nw))
  || negb (String.eqb (c_Password old) (c_Password nw)).

(** [streamChanged]: the contents compared. *)
Definition create_differs (oc nc : createStreamConfig) : bool :=
  negb (String.eqb (cs_Description oc) (cs_Description nc))
  || negb (bool_decide (cs_Subjects oc = cs_Subjects nc))
  || negb (bool_decide (storageType (cs_Storage oc) = storageType (cs_Storage nc)))
  || negb (Z.eqb (cs_MaxMsgs oc) (cs_MaxMsgs nc)) || negb (Z.eqb (cs_MaxBytes oc) (cs_MaxBytes nc))
  || negb (Z.eqb (cs_MaxAge oc) (cs_MaxAge nc)) || negb (Z.eqb (cs_MaxMsgSize oc) (cs_MaxMsgSize nc)).
Definition streamChanged (old nw : config) : bool :=
  negb (String.eqb (c_Stream old) (c_Stream nw))
  || match c_CreateStream old, c_CreateStream nw with
     | None, None => false
     | Some oc, Some nc => create_differs oc nc
     | _, _ => true
     end.

(** [createStream]: [info] is the answer of [StreamInfo] (an error that is not
    "not found", or whether there is the stream), [add] that of [AddStream]. *)
Record StreamConfig := mkStream {
  sc_Name : string; sc_Description : string; sc_Retention : retention; sc_Subjects : list string; sc_Storage : storage;
  sc_MaxMsgs : Z; sc_MaxBytes : Z; sc_MaxAge : Z; sc_MaxMsgSize : Z }.
Definition createStream (c : config) (info : option bool) (add : StreamConfig -> bool) : go js_error (option StreamConfig) :=
  match c_CreateStream c with
  | None => Ok None
  | Some cs =>
      match info with
      | None => Err errStream
      | Some true => Ok None
      | Some false =>
          let sc := mkStream (c_Stream c) (cs_Description cs) (retentionPolicy (cs_Retention cs)) (cs_Subjects cs) (storageType (cs_Storage cs))
            (cs_MaxMsgs cs) (cs_MaxBytes cs) (cs_MaxAge cs) (cs_MaxMsgSize cs) in
          if add sc then Ok (Some sc) else Err errStream
      end
  end.
End streams.

(** ** Subjects *)

Definition key_rune (r : Z) : Z := if (r =? 46)%Z then 94%Z else if (r =? 32)%Z then 126%Z else r.
(** Without a dot or a space the value stays as it is. *)
Definition sanitizeKey (k : string) : string := if scontains "." k || scontains " " k then map_runes key_rune k else k.

Definition elem_tokens `{MapOrder} (keys : bool) (e : PathElem) : string :=
  pe_Name e +:+
  (if keys then
     sjoin "" ((fun k => ".{" +:+ (k +:+ ("=" +:+ (sanitizeKey (default "" (gm_get (pe_Key e) k)) +:+ "}")))) <$> sort_strings (range (gm_tab (pe_Key e))).*1)
   else "").
Definition gNMIPathToSubject `{MapOrder} (p : option GPath) (keys : bool) : string :=
  match p with
  | None => ""
  | Some p => (if String.eqb (p_Origin p) "" then "" else p_Origin p +:+ ".") +:+ sjoin "." (elem_tokens keys <$> p_Elem p)
  end.

(** [splitSubscribeResponse] *)
Definition splitSubscribeResponse (n : option NotificationMsg) : list (option pmsg) :=
  match n with
  | None => []
  | Some n =>
      let rsp us ds := Some (existT SubRsp (mkSubRsp (Rsp_Update (Some (mkNotif (nm_Timestamp n) (nm_Prefix n) us ds false))) [])) in
      ((fun u => rsp [u] []) <$> nm_Update n) ++ ((fun d => rsp [] [d]) <$> nm_Delete n)
  end.

Section jetstream.
Context `{Templates} `{UnicodeCase} (processors : list string -> option (list processor_fn)) (register : bool).

Record dynConfig := mkDyn {
  d_targetTpl : option target_tpl; d_msgTpl : option template; d_evps : list processor_fn; d_mo : MarshalOptions }.
Record state := mkState { j_cfg : config; j_dyn : dynConfig }.
Definition item : Type := option pmsg * gomap string.

Definition marshal_options (c : config) : MarshalOptions :=
  mkMarshalOptions false "" (c_Format c) (c_OverrideTimestamps c) false false ∅ [] [].

(** ** Init and Update *)

Definition Init (name uuid : string) (decoded : go js_error config) : go js_error (sys state item) :=
  c ← decoded;
  c ← setDefaultsFor uuid (if String.eqb (c_Name c) "" then with_name name c else c);
  if negb register then Err errMetrics
  else match processors (c_EventProcessors c) with
  | None => Err errProcessors
  | Some evps =>
      ttpl ← init_target_tpl errTargetTemplate (c_TargetTemplate c) (c_AddTarget c);
      mtpl ← create_msg_tpl errMsgTemplate (c_MsgTemplate c);
      Ok (init (mkState c (mkDyn ttpl mtpl evps (marshal_options c))) false (Z.to_nat (c_NumWorkers c)) [c_BufferSize c])
  end.

Definition Validate (uuid : string) (decoded : go js_error config) : go js_error () :=
  c ← decoded;
  c ← setDefaultsFor uuid c;
  match CreateTemplate (c_TargetTemplate c), CreateTemplate (c_MsgTemplate c) with
  | None, _ => Err errTargetTemplate | Some _, None => Err errMsgTemplate | Some _, Some _ => Ok ()
  end.

Definition restarts_workers (old nw : config) : bool := channelNeedsSwap old nw || needsWorkerRestart old nw || streamChanged old nw.

Definition Update (uuid : string) (decoded : go js_error config) (s : sys state item) : result state item js_error :=
  match (c ← decoded; setDefaultsFor uuid c) with
  | Err e => Refused e s
  | Panic => Panics
  | Ok nw =>
      let st := o_cfg (s_out s) in
      let old := j_cfg st in
      let swapChannel := channelNeedsSwap old nw in
      match update_target_tpl errTargetTemplate (c_TargetTemplate nw) (c_AddTarget nw), create_msg_tpl errMsgTemplate (c_MsgTemplate nw) with
      | Ok ttpl, Ok mtpl =>
          match (if decide (c_EventProcessors old = c_EventProcessors nw) then Some (d_evps (j_dyn st)) else processors (c_EventProcessors nw)) with
          | None => Refused errProcessors s
          | Some evps =>
              let st' := mkState nw (mkDyn ttpl mtpl evps (marshal_options nw)) in
              if restarts_workers old nw then
                Updated (start st' (o_root (s_out s)) (Z.to_nat (c_NumWorkers old))
                  (if swapChannel then Some [c_BufferSize nw] else None) (stop_then_drain swapChannel) s)
              else Updated (keep st' s)
          end
      | Err e, _ => Refused e s
      | Ok _, Err e => Refused e s
      | _, _ => Panics
      end
  end.

Definition upd (i : string * go js_error config) (s : sys state item) : sys state item := state_after s (Update i.1 i.2 s).

#[export] Instance jetstream_restarts : Restarts upd.
Proof.
  intros [uuid d] s _; unfold upd, Update; cbn [fst snd]. destruct (c ← d; setDefaultsFor uuid c) as [nw|e|]; [|by left|by left]. cbv zeta.
  destruct (update_target_tpl _ _ _) as [ttpl|e|]; [|by left|by left]. destruct (create_msg_tpl _ _) as [mtpl|e|]; [|by left|by left].
  destruct (if decide _ then _ else _) as [evps|]; [|by left]. cbn [state_after].
  destruct (restarts_workers _ _); [|right; left; by eexists]. right. right. eexists _, _, _, _. split; [reflexivity|]. right. by eexists.
Qed.

Definition running (s : sys state item) : Prop := exists name uuid d s0, Init name uuid d = Ok s0 /\ reach upd s0 s.

Lemma jetstream_running s : running s ->
  reachable upd false (fun st => [c_BufferSize (j_cfg st)]) (fun st => Z.to_nat (c_NumWorkers (j_cfg st))) s.
Proof.
  intros (name & uuid & d & s0 & Hi & Hr). unfold Init in Hi. apply bind_ok in Hi as (c & _ & Hi). apply bind_ok in Hi as (c' & _ & Hi).
  destruct register; [|done]. cbn [negb] in Hi. destruct (processors _) as [evps|]; [|done].
  apply bind_ok in Hi as (ttpl & _ & Hi). apply bind_ok in Hi as (mtpl & _ & Hi).
  assert (Hinj : forall x y : sys state item, Ok (E := js_error) x = Ok y -> x = y) by congruence. apply Hinj in Hi. subst s0.
  eexists (mkState _ _). exact Hr.
Qed.

(** ** What a worker publishes *)

Context `{MapOrder} `{EventEnv} `{FmtEnv} `{FormatEnv} (now : nat -> Z).

(** The paths of the prefix and of the first update. *)
Definition path_subject (keys : bool) (m : option pmsg) : string :=
  match m with
  | Some (existT SubRsp r) =>
      match sp_Rsp r with
      | Rsp_Update n =>
          let prefixSubject := gNMIPathToSubject (n ≫= nm_Prefix) keys in
          let pathSubject := match default [] (nm_Update <$> n) with u :: _ => gNMIPathToSubject (upd_Path u) keys | [] => "" end in
          (if String.eqb prefixSubject "" then "" else prefixSubject +:+ ".") +:+ pathSubject
      | _ => ""
      end
  | _ => ""
  end.

(** The target template is called without a test for nil. *)
Definition target_text (tpl : option target_tpl) (meta : gomap string) : go () string :=
  match tpl with
  | None => Panic
  | Some t => match execute_target t meta with Some s => Ok s | None => Err () end
  end.

Definition subjectName (st : state) (m : option pmsg) (meta : gomap string) : go () string :=
  let c := j_cfg st in
  let f := c_SubjectFormat c in
  let stream := c_Stream c +:+ "." in
  let sub := gm_get meta "subscription-name" in
  let before := match sub with Some s => s +:+ "." | None => "" end in
  if String.eqb f subjectFormat_Static then Ok (stream +:+ c_Subject c)
  else if String.eqb f subjectFormat_TargetSub then
    t ← target_text (d_targetTpl (j_dyn st)) meta;
    Ok (stream +:+ (t +:+ match sub with Some s => "." +:+ s | None => "" end))
  else if String.eqb f subjectFormat_SubTarget then
    t ← target_text (d_targetTpl (j_dyn st)) meta; Ok (stream +:+ (before +:+ t))
  else if String.eqb f subjectFormat_SubTargetPath then
    t ← target_text (d_targetTpl (j_dyn st)) meta; Ok (stream +:+ (before +:+ (t +:+ ("." +:+ path_subject false m))))
  else if String.eqb f subjectFormat_SubTargetPathWithKeys then
    t ← target_text (d_targetTpl (j_dyn st)) meta; Ok (stream +:+ (before +:+ (t +:+ ("." +:+ path_subject true m))))
  else Ok stream.

(** One message per path for the subjects with a path; what is not an update has none. *)
Definition messages_of (c : config) (m : option pmsg) : list (option pmsg) :=
  let f := c_SubjectFormat c in
  if String.eqb f subjectFormat_SubTargetPath || String.eqb f subjectFormat_SubTargetPathWithKeys then
    match m with
    | Some (existT SubRsp r) => match sp_Rsp r with Rsp_Update n => splitSubscribeResponse n | _ => [] end
    | _ => []
    end
  else if String.eqb f subjectFormat_Static || String.eqb f subjectFormat_TargetSub || String.eqb f subjectFormat_SubTarget then [m]
  else [].

(** The pieces of one message with their subjects. *)
Definition published_piece (st : state) (r : option pmsg) (meta : gomap string) (b : string) : go () (list (string * string)) :=
  match through_template (d_msgTpl (j_dyn st)) b with
  | None => Ok []
  | Some b => match subjectName st r meta with Ok s => Ok [(s, b)] | Err _ => Ok [] | Panic => Panic end
  end.
Definition published_message (st : state) (meta : gomap string) (r : option pmsg) : go () (list (list (string * string))) :=
  let c := j_cfg st in let d := j_dyn st in
  match (MarshalAll now (d_mo d) r meta (c_SplitEvents c) (d_evps d)).1 with
  | Ok bs => mapE (published_piece st r meta) bs
  | Err _ => Ok []
  | Panic => Panic
  end.
Definition published (st : state) (m : option pmsg) (meta : gomap string) : go () (list (string * string)) :=
  let '(pm, _) := AddSubscriptionTarget m meta (c_AddTarget (j_cfg st)) (d_targetTpl (j_dyn st)) in
  ls ← mapE (published_message st meta) (messages_of (j_cfg st) pm);
  Ok (concat (concat ls)).
End jetstream.

(** ** Lemmas *)

Section lemmas.
Context `{Templates} `{UnicodeCase} (processors : list string -> option (list processor_fn)) (register : bool).

Lemma setDefaultsFor_ok uuid c c' : setDefaultsFor uuid c = Ok c' ->
  c' = with_defaults uuid c /\ subject_format_ok (c_SubjectFormat c') = true.
Proof.
  unfold setDefaultsFor. destruct (String.eqb (c_Stream c) ""); [done|]. destruct (subject_format_ok _) eqn:E; [|done]. cbn [negb].
  destruct (c_CreateStream _) as [cs|]; [destruct (isValidRetentionPolicy _); [|done]|]; by intros [= <-].
Qed.

Lemma Init_dyn name uuid c s : Init processors register name uuid (Ok c) = Ok s ->
  let st := o_cfg (s_out s) in
  c_SubjectFormat (j_cfg st) = or_default subjectFormat_Static (c_SubjectFormat c) /\ subject_format_ok (c_SubjectFormat (j_cfg st)) = true
  /\ (c_TargetTemplate c <> "" -> c_AddTarget c = "" -> d_targetTpl (j_dyn st) = None).
Proof.
  intros Hi. unfold Init in Hi. cbn in Hi. apply bind_ok in Hi as (c' & Hd & Hi).
  destruct register; [|done]. cbn [negb] in Hi. destruct (processors _) as [evps|]; [|done].
  apply bind_ok in Hi as (ttpl & Ht & Hi). apply bind_ok in Hi as (mtpl & _ & Hi).
  assert (Hinj : forall x y : sys state item, Ok (E := js_error) x = Ok y -> x = y) by congruence. apply Hinj in Hi. subst s. cbn.
  apply setDefaultsFor_ok in Hd as [-> Hf]. split_and!; [by destruct (String.eqb (c_Name c) "")|done|].
  intros Hne Ha. unfold init_target_tpl in Ht.
  assert (c_TargetTemplate (with_defaults uuid (if String.eqb (c_Name c) "" then with_name name c else c)) = c_TargetTemplate c) as E1 by by destruct (String.eqb (c_Name c) "").
  assert (c_AddTarget (with_defaults uuid (if String.eqb (c_Name c) "" then with_name name c else c)) = c_AddTarget c) as E2 by by destruct (String.eqb (c_Name c) "").
  rewrite E1, E2, Ha, (proj2 (String.eqb_neq _ _) Hne) in Ht. by injection Ht as <-.
Qed.

Lemma jetstream_restart uuid c (s s' : sys state item) nw : Update processors uuid (Ok c) s = Updated s' -> setDefaultsFor uuid c = Ok nw ->
  let old := j_cfg (o_cfg (s_out s)) in
  restarts_workers old nw = true ->
  exists st', j_cfg st' = nw /\ s' = start st' (o_root (s_out s)) (Z.to_nat (c_NumWorkers old))
    (if channelNeedsSwap old nw then Some [c_BufferSize nw] else None) (stop_then_drain (channelNeedsSwap old nw)) s.
Proof.
  intros Hu Hd. cbv zeta. intros Hr. unfold Update in Hu. cbn [mbind go_bind] in Hu. rewrite Hd in Hu. cbv zeta in Hu.
  destruct (update_target_tpl errTargetTemplate _ _) as [ttpl|e|]; [|done|done]. destruct (create_msg_tpl errMsgTemplate _) as [mtpl|e|]; [|done|done].
  destruct (if decide _ then _ else _) as [evps|]; [|done]. rewrite Hr in Hu.
  assert (Hi : forall x y : sys state item, Updated (E := js_error) x = Updated y -> x = y) by congruence.
  apply Hi in Hu. eexists. split; [|by symmetry]. done.
Qed.

Lemma concat_singletons {A} (l : list A) : concat ((fun x => [x]) <$> l) = l.
Proof. induction l as [|x l IH]; [done|]. cbn. by rewrite IH. Qed.
Lemma concat_nils {A B} (l : list A) : concat ((fun _ => []) <$> l) = ([] : list B).
Proof. by induction l. Qed.
End lemmas.

Definition notification_of (m : option pmsg) : option NotificationMsg :=
  match m with
  | Some (existT SubRsp r) => match sp_Rsp r with Rsp_Update n => n | _ => None end
  | _ => None
  end.

(** * Properties *)

Section properties.
Context `{Templates} `{UnicodeCase} (processors : list string -> option (list processor_fn)) (register : bool).

(** After any sequence of updates, once one has returned and as long as the
    output is open, all workers run under the current context and read the
    current channel, as many as were last started; an update that restarts them
    starts as many as the configuration before it says, not its own. *)
Theorem jetstream_workers (s : sys state item) (Hs : running processors register s) (Hp : s_prog s = []) (Hc : s_closed s = false) (Hz : 0 ∉ s_cancelled s) :
  (s_workers s = replicate (o_started (s_out s)) (current s) /\ live s (current s) = true)
  /\ forall uuid c nw s', Update processors uuid (Ok c) s = Updated s' -> setDefaultsFor uuid c = Ok nw ->
       restarts_workers (j_cfg (o_cfg (s_out s))) nw = true ->
       o_started (s_out s') = Z.to_nat (c_NumWorkers (j_cfg (o_cfg (s_out s)))) /\ j_cfg (o_cfg (s_out s')) = nw.
Proof.
  split.
  - apply jetstream_running in Hs as Hr. apply (reachable_winv (upd processors)) in Hr. by apply workers_at_rest.
  - intros uuid c nw s' Hu Hd Hr. by destruct (jetstream_restart _ _ _ _ _ _ Hu Hd Hr) as (st' & <- & ->).
Qed.

(** Splitting a response loses no path and invents none: one message per
    update and one per delete, in order, each with the timestamp and the prefix
    of the response. *)
Theorem split_response_spec (n : NotificationMsg) :
  let ms := splitSubscribeResponse (Some n) in
  concat ((fun m => default [] (nm_Update <$> notification_of m)) <$> ms) = nm_Update n
  /\ concat ((fun m => default [] (nm_Delete <$> notification_of m)) <$> ms) = nm_Delete n
  /\ Forall (fun m => exists n', notification_of m = Some n' /\ nm_Timestamp n' = nm_Timestamp n /\ nm_Prefix n' = nm_Prefix n
       /\ length (nm_Update n') + length (nm_Delete n') = 1) ms.
Proof.
  cbn. split_and!.
  - rewrite fmap_app, concat_app, <-!list_fmap_compose.
    etransitivity; [exact (f_equal2 app (concat_singletons (nm_Update n)) (concat_nils (nm_Delete n)))|apply app_nil_r].
  - rewrite fmap_app, concat_app, <-!list_fmap_compose.
    exact (f_equal2 app (concat_nils (nm_Update n)) (concat_singletons (nm_Delete n))).
  - apply Forall_app. split; apply Forall_fmap, Forall_true; intros x; by eexists.
Qed.

(** An output initialised with a target template but no add-target has no
    template: with every subject format but "static", the first message to be
    published ends the program. *)
Theorem nil_target_template_panics (name uuid : string) (c : config) (s : sys state item)
    (Hi : Init processors register name uuid (Ok c) = Ok s) (Ht : c_TargetTemplate c <> "") (Ha : c_AddTarget c = "")
    (Hf : or_default subjectFormat_Static (c_SubjectFormat c) <> subjectFormat_Static) `{MapOrder} (m : option pmsg) (meta : gomap string) :
  subjectName (o_cfg (s_out s)) m meta = Panic.
Proof.
  destruct (Init_dyn _ _ _ _ _ _ Hi) as (Hf' & Hok & Hd). unfold subjectName. rewrite (Hd Ht Ha), Hf'.
  rewrite (proj2 (String.eqb_neq _ _) Hf). rewrite Hf' in Hok. unfold subject_format_ok in Hok. cbn [existsb] in Hok.
  rewrite (proj2 (String.eqb_neq _ _) Hf) in Hok. cbn [orb] in Hok.
  repeat (destruct (String.eqb _ _); [done|]). done.
Qed.

(** Without keys, the subject of a path has one token per element, after
    those of the origin. *)
Theorem path_subject_tokens `{MapOrder} (p : GPath) (He : p_Elem p <> []) (Hn : Forall (fun e => snone "." (pe_Name e) = true) (p_Elem p)) :
  split_byte "." (gNMIPathToSubject (Some p) false)
  = (if String.eqb (p_Origin p) "" then [] else split_byte "." (p_Origin p)) ++ (pe_Name <$> p_Elem p).
Proof.
  assert (Ht : elem_tokens false <$> p_Elem p = pe_Name <$> p_Elem p).
  { apply list_fmap_ext. intros i e _. unfold elem_tokens. apply sapp_nil_r. }
  assert (Hs : split_byte "." (sjoin "." (pe_Name <$> p_Elem p)) = pe_Name <$> p_Elem p).
  { apply (split_join "."); [by destruct (p_Elem p)|]. by apply Forall_fmap. }
  cbn [gNMIPathToSubject]. rewrite Ht. destruct (String.eqb_spec (p_Origin p) ""); [exact Hs|].
  rewrite sapp_assoc. change ("." +:+ ?t) with (String "." t). by rewrite split_cat, Hs.
Qed.

(** An update restarts for its stream exactly when the stream's name, or
    what [CreateStream] has apart from the retention policy, changes. *)
Theorem stream_changed_spec (old nw : config) :
  streamChanged old nw = false <->
  c_Stream old = c_Stream nw
  /\ match c_CreateStream old, c_CreateStream nw with
     | None, None => True
     | Some oc, Some nc => cs_Description oc = cs_Description nc /\ cs_Subjects oc = cs_Subjects nc
         /\ storageType (cs_Storage oc) = storageType (cs_Storage nc) /\ cs_MaxMsgs oc = cs_MaxMsgs nc
         /\ cs_MaxBytes oc = cs_MaxBytes nc /\ cs_MaxAge oc = cs_MaxAge nc /\ cs_MaxMsgSize oc = cs_MaxMsgSize nc
     | _, _ => False
     end.
Proof.
  unfold streamChanged, create_differs. rewrite orb_false_iff, negb_false_iff, String.eqb_eq.
  destruct (c_CreateStream old) as [oc|], (c_CreateStream nw) as [nc|]; [|naive_solver..].
  rewrite !orb_false_iff, !negb_false_iff, String.eqb_eq, !bool_decide_eq_true, !Z.eqb_eq. tauto.
Qed.
End properties.

(** ** Witnesses and examples *)

#[local] Existing Instances templates_toy case_ascii order_fwd env_none fmt_none format_toy.
Definition no_processors (names : list string) : option (list processor_fn) := if nilb names then Some [] else None.
Definition ex_config (format tpl : string) (workers : Z) (buffer : nat) (retention : string) : config :=
  mkConfig "js" "nats:4222" "TELEMETRY" "" format (Some (mkCreate "d" [] "" retention 0 0 0 0)) "" "" 0 None "json" false "" tpl "" false workers 0 buffer false [].
Definition ex_start (format tpl : string) : sys state item :=
  match Init no_processors true "n" "u" (Ok (ex_config format tpl 2 4 "")) with Ok s => s
  | _ => init (mkState (ex_config "" "" 0 0 "") (mkDyn None None [] (marshal_options (ex_config "" "" 0 0 "")))) false 0 [] end.

Lemma jetstream_workers_witness :
  s_workers (ex_start "" "") = replicate 2 (current (ex_start "" ""))
  /\ o_started (s_out (upd no_processors ("u", Ok (ex_config "" "" 5 4 "")) (ex_start "" ""))) = 2.
Proof.
  destruct (jetstream_workers no_processors true (ex_start "" "")) as [[Hw _] Hu]; [|reflexivity..|by apply not_elem_of_nil|].
  - exists "n", "u", (Ok (ex_config "" "" 2 4 "")), (ex_start "" ""). split; [reflexivity|]. apply rtc_refl.
  - split; [exact Hw|]. refine (proj1 (Hu "u" (ex_config "" "" 5 4 "") _ _ _ _ _)); reflexivity.
Defined.

Lemma nil_target_template_panics_witness :
  published ex_now (o_cfg (s_out (ex_start subjectFormat_SubTarget "{{.}}"))) (ex_msg [ex_mtu]) None = Panic
  /\ subjectName (o_cfg (s_out (ex_start subjectFormat_SubTarget "{{.}}"))) None None = Panic.
Proof.
  split; [by vm_compute|].
  apply (nil_target_template_panics no_processors true "n" "u" (ex_config subjectFormat_SubTarget "{{.}}" 2 4 "")); [reflexivity|discriminate|reflexivity|discriminate].
Defined.

Lemma path_subject_tokens_witness :
  split_byte "." (gNMIPathToSubject (Some (mkGPath "oc" [mkPathElem "interface" (Some {["name" := "e1"]}); mkPathElem "mtu" None] "")) false) = ["oc"; "interface"; "mtu"].
Proof. rewrite path_subject_tokens; [reflexivity|discriminate|repeat constructor]. Defined.

(** The workqueue policy does not reach a stream that is there, and restarts nothing. *)
Example retention_not_compared : streamChanged (ex_config "" "" 2 4 "limits") (ex_config "" "" 2 4 "workqueue") = false.
Proof. by vm_compute. Qed.

(** The subject of a delete ends with an empty token. *)
Example delete_subject :
  mapE (fun m => subjectName (o_cfg (s_out (ex_start subjectFormat_SubTargetPath ""))) m (Some {["source" := "r1"; "subscription-name" := "s"]}))
    (splitSubscribeResponse (Some (mkNotif 1 None [] [mkGPath "" [ex_elem "a"] ""] false)))
  = Ok ["TELEMETRY.s.r1."].
Proof. by vm_compute. Qed.

Example key_subject :
  gNMIPathToSubject (Some (mkGPath "" [mkPathElem "if" (Some {["name" := "e1/1.100"; "a" := "x y"]})] "")) true = "if.{a=x~y}.{name=e1/1^100}".
Proof. by vm_compute. Qed.
