(* ===== verification/Kafka.v ===== *)
(** * The Kafka output (pkg/outputs/kafka_output/kafka_output.go)

    The configuration, its defaults and the settings of the client made from it,
    [Init] and [Update] over the workers of Workers.v (the old channel is drained
    before the old workers are cancelled, also when it is not swapped), topics,
    keys and headers, what a worker produces, and the loop in which a worker
    makes its producer. The client is a library's: its default settings, the
    parsing of versions, the TLS settings (Tls.v) and the producers are arguments,
    and so is [strings.EqualFold]. *)

From stdpp Require Import strings list gmap.
From S2P Require Import Prelude GoStrings Utf8 GoVal Text Path Event Tags Messages Formats OutMsg Workers.

#[local] Open Scope nat_scope.

Record SASL := mkSASL { sa_User : string; sa_Password : string; sa_Mechanism : string; sa_TokenURL : string }.

Record config := mkConfig {
  c_Address : string; c_Topic : string; c_TopicPrefix : string; c_Name : string; c_SASL : option SASL; c_TLS : option TLSConfig;
  c_MaxRetry : Z; c_Timeout : Z; c_RecoveryWaitTime : Z; c_FlushFrequency : Z; c_SyncProducer : bool; c_RequiredAcks : string;
  c_Format : string; c_InsertKey : bool; c_AddTarget : string; c_TargetTemplate : string; c_MsgTemplate : string;
  c_SplitEvents : bool; c_NumWorkers : Z; c_CompressionCodec : string; c_KafkaVersion : string; c_BufferSize : Z;
  c_OverrideTimestamps : bool; c_EnableMetrics : bool; c_EventProcessors : list string; c_AddHeaders : gmap string string }.

Inductive kafka_error :=
| errDecode | errFormat (f : string) | errTokenURL | errRequiredAcks (a : string) | errMetrics | errProcessors | errTargetTemplate
| errMsgTemplate | errHeader | errVersion | errTLS.

Definition requiredAcksNoResponse : string := "no-response".
Definition requiredAcksWaitForLocal : string := "wait-for-local".
Definition requiredAcksWaitForAll : string := "wait-for-all".

Definition str_or (d s : string) : string := if String.eqb s "" then d else s.
Definition pos_or (d z : Z) : Z := if (z <=? 0)%Z then d else z.

(** ** Defaults *)

Section defaults.
Context `{UnicodeCase}.

Definition format_ok (f : string) : bool := existsb (String.eqb f) ["event"; "protojson"; "prototext"; "proto"; "json"].

Definition sasl_defaults (s : SASL) : go kafka_error SASL :=
  let m := ToUpper (sa_Mechanism s) in
  if String.eqb m "" then Ok (mkSASL (sa_User s) (sa_Password s) "PLAIN" (sa_TokenURL s))
  else if String.eqb m "OAUTHBEARER" && String.eqb (sa_TokenURL s) "" then Err errTokenURL
  else Ok (mkSASL (sa_User s) (sa_Password s) m (sa_TokenURL s)).

Definition acks_default (a : string) : go kafka_error string :=
  if existsb (String.eqb a) [requiredAcksNoResponse; requiredAcksWaitForLocal; requiredAcksWaitForAll] then Ok a
  else if String.eqb a "" then Ok requiredAcksWaitForLocal else Err (errRequiredAcks a).

Definition setDefaultsFor (uuid : string) (c : config) : go kafka_error config :=
  let f := str_or "event" (c_Format c) in
  if negb (format_ok f) then Err (errFormat f)
  else
    sasl ← (match c_SASL c with None => Ok None | Some s => s ← sasl_defaults s; Ok (Some s) end);
    acks ← acks_default (c_RequiredAcks c);
    Ok (mkConfig (str_or "localhost:9092" (c_Address c)) (str_or "telemetry" (c_Topic c)) (c_TopicPrefix c)
      (str_or ("gnmic-" +:+ uuid) (c_Name c)) sasl (c_TLS c) (if (c_MaxRetry c =? 0)%Z then 2%Z else c_MaxRetry c)
      (pos_or 5000000000 (c_Timeout c)) (pos_or 10000000000 (c_RecoveryWaitTime c)) (c_FlushFrequency c) (c_SyncProducer c) acks f
      (c_InsertKey c) (c_AddTarget c) (c_TargetTemplate c) (c_MsgTemplate c) (c_SplitEvents c) (pos_or 1 (c_NumWorkers c))
      (c_CompressionCodec c) (c_KafkaVersion c) (c_BufferSize c) (c_OverrideTimestamps c) (c_EnableMetrics c) (c_EventProcessors c)
      (c_AddHeaders c)).

Definition with_name (name : string) (c : config) : config :=
  mkConfig (c_Address c) (c_Topic c) (c_TopicPrefix c) name (c_SASL c) (c_TLS c) (c_MaxRetry c) (c_Timeout c) (c_RecoveryWaitTime c)
    (c_FlushFrequency c) (c_SyncProducer c) (c_RequiredAcks c) (c_Format c) (c_InsertKey c) (c_AddTarget c) (c_TargetTemplate c)
    (c_MsgTemplate c) (c_SplitEvents c) (c_NumWorkers c) (c_CompressionCodec c) (c_KafkaVersion c) (c_BufferSize c)
    (c_OverrideTimestamps c) (c_EnableMetrics c) (c_EventProcessors c) (c_AddHeaders c).
End defaults.

(** ** Restarts *)

Section restarts.
Context (EqualFold : string -> string -> bool).

Definition saslEq (a b : option SASL) : bool :=
  match a, b with
  | None, None => true
  | Some a, Some b => String.eqb (sa_User a) (sa_User b) && String.eqb (sa_Password a) (sa_Password b)
      && EqualFold (sa_Mechanism a) (sa_Mechanism b) && String.eqb (sa_TokenURL a) (sa_TokenURL b)
  | _, _ => false
  end.
Definition needsProducerRestart (old nw : config) : bool :=
  negb (String.eqb (c_Address old) (c_Address nw)) || negb (TLS_Equal (c_TLS old) (c_TLS nw)) || negb (saslEq (c_SASL old) (c_SASL nw))
  || negb (String.eqb (c_KafkaVersion old) (c_KafkaVersion nw)) || negb (Z.eqb (c_MaxRetry old) (c_MaxRetry nw))
  || negb (Z.eqb (c_Timeout old) (c_Timeout nw)) || negb (Z.eqb (c_FlushFrequency old) (c_FlushFrequency nw))
  || negb (String.eqb (c_RequiredAcks old) (c_RequiredAcks nw)) || negb (String.eqb (c_CompressionCodec old) (c_CompressionCodec nw))
  || negb (Bool.eqb (c_SyncProducer old) (c_SyncProducer nw)) || negb (String.eqb (c_Name old) (c_Name nw)).
Definition needsWorkerRestart (old nw : config) : bool := needsProducerRestart old nw || negb (Z.eqb (c_NumWorkers old) (c_NumWorkers nw)).
Definition channelNeedsSwap (old nw : config) : bool := negb (Z.eqb (c_BufferSize old) (c_BufferSize nw)).
End restarts.

(** ** The settings of the client *)

Inductive acks := WaitForLocal | WaitForAll | NoResponse.
Inductive compression := CompressionNone | CompressionGZIP | CompressionSnappy | CompressionZSTD | CompressionLZ4.
Inductive scram := SCRAM_SHA256 | SCRAM_SHA512.
Record sasl_settings := mkSaslSettings { ss_User : string; ss_Password : string; ss_Mechanism : string; ss_Scram : option scram; ss_TokenURL : option string }.
(** The settings [createConfigFor] decides; [k_Version] is [None] when the library's default stays. *)
Record kafka_settings := mkSettings {
  k_ClientID : string; k_Version : option Z; k_SASL : option sasl_settings; k_TLS : option TLSConfig; k_RetryMax : Z; k_Timeout : Z;
  k_FlushFrequency : Z; k_RequiredAcks : acks; k_Compression : compression }.

(** [default_acks]: what [sarama.NewConfig] sets. *)
Definition createConfigFor (default_acks : acks) (parse_version : string -> option Z) (tls_ok : TLSConfig -> bool) (c : config) : go kafka_error kafka_settings :=
  version ← (if String.eqb (c_KafkaVersion c) "" then Ok None
             else match parse_version (c_KafkaVersion c) with Some v => Ok (Some v) | None => Err errVersion end);
  let sasl := (fun s => mkSaslSettings (sa_User s) (sa_Password s) (sa_Mechanism s)
      (if String.eqb (sa_Mechanism s) "SCRAM-SHA-256" then Some SCRAM_SHA256
       else if String.eqb (sa_Mechanism s) "SCRAM-SHA-512" then Some SCRAM_SHA512 else None)
      (if String.eqb (sa_Mechanism s) "OAUTHBEARER" then Some (sa_TokenURL s) else None)) <$> c_SASL c in
  if negb (match c_TLS c with Some t => tls_ok t | None => true end) then Err errTLS
  else
    let a := c_RequiredAcks c in
    let codec := c_CompressionCodec c in
    Ok (mkSettings (c_Name c) version sasl (c_TLS c) (c_MaxRetry c) (c_Timeout c) (c_FlushFrequency c)
      (if String.eqb a requiredAcksNoResponse then default_acks
       else if String.eqb a requiredAcksWaitForLocal then WaitForLocal
       else if String.eqb a requiredAcksWaitForAll then WaitForAll else default_acks)
      (if String.eqb codec "gzip" then CompressionGZIP else if String.eqb codec "snappy" then CompressionSnappy
       else if String.eqb codec "zstd" then CompressionZSTD else if String.eqb codec "lz4" then CompressionLZ4 else CompressionNone)).

(** ** Topics and keys *)

Definition topic_rune (r : Z) : Z := if (r =? 58)%Z then 95%Z else r.
Definition selectTopic (c : config) (meta : gomap string) : string :=
  if String.eqb (c_TopicPrefix c) "" then c_Topic c
  else c_TopicPrefix c
    +:+ ((match gm_get meta "subscription-name" with Some s => "_" +:+ s | None => "" end)
    +:+ (match gm_get meta "source" with Some s => "_" +:+ encode (topic_rune <$> runes_of s) | None => "" end)).

Definition partitionKey (meta : gomap string) : string :=
  default "" (gm_get meta "source") +:+ (":::" +:+ default "" (gm_get meta "subscription-name")).

Section kafka.
Context `{Templates} `{UnicodeCase} `{MapOrder} (EqualFold : string -> string -> bool).
Context (processors : list string -> option (list processor_fn)) (register : bool) (settings : config -> go kafka_error kafka_settings).

Record dynConfig := mkDyn {
  d_targetTpl : option target_tpl; d_msgTpl : option template; d_evps : list processor_fn; d_mo : MarshalOptions;
  d_headerTpls : gmap string template }.
(** The configuration published and the settings the workers were started with. *)
Record state := mkState { k_cfg : config; k_dyn : dynConfig; k_settings : kafka_settings }.
Definition item : Type := option pmsg * gomap string.

Definition marshal_options (c : config) : MarshalOptions :=
  mkMarshalOptions false "" (c_Format c) (c_OverrideTimestamps c) false false ∅ [] [].

Definition buildKafkaHeaders (headers : gmap string string) : go kafka_error (gmap string template) :=
  foldM (fun r kv => match CreateTemplate kv.2 with Some t => Ok (<[kv.1 := t]> r) | None => Err errHeader end) (range headers) ∅.

(** A header whose template fails is left out. *)
Definition getHeaders (d : dynConfig) (meta : gomap string) : list (string * string) :=
  omap (fun kt => match Execute kt.2 (AMap (Some {["Meta" := AStrMap meta]})) with Some v => Some (kt.1, v) | None => None end) (range (d_headerTpls d)).

(** ** Init and Update *)

Definition Init (name uuid : string) (decoded : go kafka_error config) : go kafka_error (sys state item) :=
  c ← decoded;
  c ← setDefaultsFor uuid (if String.eqb (c_Name c) "" then with_name name c else c);
  if negb register then Err errMetrics
  else match processors (c_EventProcessors c) with
  | None => Err errProcessors
  | Some evps =>
      if (c_BufferSize c <? 0)%Z then Panic
      else
        ttpl ← init_target_tpl errTargetTemplate (c_TargetTemplate c) (c_AddTarget c);
        mtpl ← create_msg_tpl errMsgTemplate (c_MsgTemplate c);
        headers ← buildKafkaHeaders (c_AddHeaders c);
        ks ← settings c;
        Ok (init (mkState c (mkDyn ttpl mtpl evps (marshal_options c) headers) ks) false (Z.to_nat (c_NumWorkers c)) [Z.to_nat (c_BufferSize c)])
  end.

Definition Validate (uuid : string) (decoded : go kafka_error config) : go kafka_error () :=
  c ← decoded;
  c ← setDefaultsFor uuid c;
  match CreateTemplate (c_TargetTemplate c), CreateTemplate (c_MsgTemplate c) with
  | None, _ => Err errTargetTemplate
  | Some _, None => Err errMsgTemplate
  | Some _, Some _ => _ ← buildKafkaHeaders (c_AddHeaders c); Ok ()
  end.

(** The new configuration and dynamic parts, before anything is stored. *)
Definition prepare (uuid : string) (decoded : go kafka_error config) (st : state) : go kafka_error (config * dynConfig) :=
  let old := k_cfg st in
  c ← decoded;
  nw ← setDefaultsFor uuid (if String.eqb (c_Name c) "" then with_name (c_Name old) c else c);
  ttpl ← update_target_tpl errTargetTemplate (c_TargetTemplate nw) (c_AddTarget nw);
  mtpl ← create_msg_tpl errMsgTemplate (c_MsgTemplate nw);
  headers ← buildKafkaHeaders (c_AddHeaders nw);
  match (if decide (c_EventProcessors old = c_EventProcessors nw) then Some (d_evps (k_dyn st)) else processors (c_EventProcessors nw)) with
  | None => Err errProcessors
  | Some evps => Ok (nw, mkDyn ttpl mtpl evps (marshal_options nw) headers)
  end.

Definition Update (uuid : string) (decoded : go kafka_error config) (s : sys state item) : result state item kafka_error :=
  let st := o_cfg (s_out s) in
  let old := k_cfg st in
  match prepare uuid decoded st with
  | Err e => Refused e s
  | Panic => Panics
  | Ok (nw, d) =>
      let stored := mkState nw d (k_settings st) in
      let swapChannel := channelNeedsSwap old nw in
      if swapChannel || needsWorkerRestart EqualFold old nw then
        if swapChannel && (c_BufferSize nw <? 0)%Z then Panics
        else match settings nw with
        | Ok ks => Updated (start (mkState nw d ks) (o_root (s_out s)) (Z.to_nat (c_NumWorkers old))
            (if swapChannel then Some [Z.to_nat (c_BufferSize nw)] else None) drain_then_stop s)
        | Err e => Refused e (keep stored s)
        | Panic => Panics
        end
      else Updated (keep stored s)
  end.

Definition upd (i : string * go kafka_error config) (s : sys state item) : sys state item := state_after s (Update i.1 i.2 s).

#[export] Instance kafka_restarts : Restarts upd.
Proof.
  intros [uuid d] s _; unfold upd, Update; cbn [fst snd]. cbv zeta. destruct (prepare _ _ _) as [[nw dyn]|e|]; [|by left|by left].
  destruct (channelNeedsSwap _ _ || needsWorkerRestart _ _ _); [|right; left; by eexists]. destruct (_ && _); [by left|].
  destruct (settings nw) as [ks|e|]; [|right; left; by eexists|by left]. right. right. eexists _, _, _, _. split; [reflexivity|]. by left.
Qed.

Definition running (s : sys state item) : Prop := exists name uuid d s0, Init name uuid d = Ok s0 /\ reach upd s0 s.

Lemma kafka_running s : running s ->
  reachable upd false (fun st => [Z.to_nat (c_BufferSize (k_cfg st))]) (fun st => Z.to_nat (c_NumWorkers (k_cfg st))) s.
Proof.
  intros (name & uuid & d & s0 & Hi & Hr). unfold Init in Hi. apply bind_ok in Hi as (c & _ & Hi). apply bind_ok in Hi as (c' & _ & Hi).
  destruct register; [|done]. cbn [negb] in Hi. destruct (processors _) as [evps|]; [|done]. destruct (_ <? _)%Z; [done|].
  apply bind_ok in Hi as (ttpl & _ & Hi). apply bind_ok in Hi as (mtpl & _ & Hi). apply bind_ok in Hi as (hs & _ & Hi). apply bind_ok in Hi as (ks & _ & Hi).
  assert (Hinj : forall x y : sys state item, Ok (E := kafka_error) x = Ok y -> x = y) by congruence. apply Hinj in Hi. subst s0.
  eexists (mkState _ _ _). exact Hr.
Qed.

(** ** What a worker produces *)

Context `{EventEnv} `{FmtEnv} `{FormatEnv} (now : nat -> Z).

Record record := mkRecord { r_Topic : string; r_Key : option string; r_Headers : list (string * string); r_Value : string }.
Definition produced (st : state) (m : option pmsg) (meta : gomap string) : go () (list record) :=
  let c := k_cfg st in let d := k_dyn st in
  match payloads now (c_AddTarget c) (d_targetTpl d) (d_mo d) (c_SplitEvents c) (d_evps d) (d_msgTpl d) m meta with
  | Ok bs => Ok ((fun b => mkRecord (selectTopic c meta) (if c_InsertKey c then Some (partitionKey meta) else None) (getHeaders d meta) b) <$> bs)
  | Err e => Err e
  | Panic => Panic
  end.
End kafka.

(** The loop around [NewSyncProducer] and [NewAsyncProducer]: each attempt sees
    whether the context is done and whether the producer can be made; only the
    asynchronous worker looks at the context. *)
Inductive producer_loop := Left | Connected (attempts : nat) | Trying.
Fixpoint make_producer (sync : bool) (n : nat) (attempts : list (bool * bool)) : producer_loop :=
  match attempts with
  | [] => Trying
  | (cancelled, ok) :: attempts =>
      if negb sync && cancelled then Left
      else if ok : bool then Connected n
      else make_producer sync (S n) attempts
  end.

(** ** Lemmas *)

Lemma str_or_ne d s : d <> "" -> str_or d s <> "".
Proof. unfold str_or. by destruct (String.eqb_spec s ""). Qed.
Lemma pos_or_pos d z : (0 < d -> 0 < pos_or d z)%Z.
Proof. unfold pos_or. destruct (Z.leb_spec z 0); lia. Qed.

Lemma sasl_defaults_ok `{UnicodeCase} s s' : sasl_defaults s = Ok s' -> sa_Mechanism s' <> "" /\ (sa_Mechanism s' = "OAUTHBEARER" -> sa_TokenURL s' <> "").
Proof.
  unfold sasl_defaults. destruct (String.eqb_spec (ToUpper (sa_Mechanism s)) "") as [E|E].
  - intros [= <-]. by split.
  - destruct (String.eqb_spec (ToUpper (sa_Mechanism s)) "OAUTHBEARER") as [E1|E1], (String.eqb_spec (sa_TokenURL s) "") as [E2|E2]; try done; by intros [= <-].
Qed.

Lemma acks_default_ok a a' : acks_default a = Ok a' -> a' = requiredAcksNoResponse \/ a' = requiredAcksWaitForLocal \/ a' = requiredAcksWaitForAll.
Proof.
  unfold acks_default. cbn [existsb].
  destruct (String.eqb_spec a requiredAcksNoResponse) as [E1|_], (String.eqb_spec a requiredAcksWaitForLocal) as [E2|_], (String.eqb_spec a requiredAcksWaitForAll) as [E3|_];
    cbn [orb]; try (intros [= <-]; tauto). destruct (String.eqb a ""); [intros [= <-]; tauto|done].
Qed.

Section lemmas.
Context `{Templates} `{UnicodeCase} `{MapOrder} (EqualFold : string -> string -> bool).
Context (processors : list string -> option (list processor_fn)) (register : bool) (settings : config -> go kafka_error kafka_settings).

Lemma kafka_restart uuid c (s s' : sys state item) nw d : prepare processors uuid (Ok c) (o_cfg (s_out s)) = Ok (nw, d) ->
  Update EqualFold processors settings uuid (Ok c) s = Updated s' ->
  let old := k_cfg (o_cfg (s_out s)) in
  channelNeedsSwap old nw || needsWorkerRestart EqualFold old nw = true ->
  exists st', k_cfg st' = nw /\ s' = start st' (o_root (s_out s)) (Z.to_nat (c_NumWorkers old))
    (if channelNeedsSwap old nw then Some [Z.to_nat (c_BufferSize nw)] else None) drain_then_stop s.
Proof.
  intros Hp Hu. cbv zeta. intros Hr. unfold Update in Hu. cbv zeta in Hu. rewrite Hp, Hr in Hu. destruct (_ && _); [done|].
  destruct (settings nw) as [ks|e|]; [|done..].
  assert (Hi : forall x y : sys state item, Updated (E := kafka_error) x = Updated y -> x = y) by congruence.
  apply Hi in Hu. eexists. split; [|by symmetry]. done.
Qed.
End lemmas.

(** * Properties *)

(** A configuration that passes the defaults is usable: a known format and
    acknowledgement, a topic, an address and a name, at least one worker,
    positive times, and a token URL when the SASL mechanism needs one. *)
Theorem kafka_defaults_valid `{UnicodeCase} (uuid : string) (c c' : config) (Hd : setDefaultsFor uuid c = Ok c') :
  format_ok (c_Format c') = true
  /\ (c_RequiredAcks c' = requiredAcksNoResponse \/ c_RequiredAcks c' = requiredAcksWaitForLocal \/ c_RequiredAcks c' = requiredAcksWaitForAll)
  /\ c_Address c' <> "" /\ c_Topic c' <> "" /\ c_Name c' <> "" /\ (0 < c_NumWorkers c')%Z /\ (0 < c_Timeout c')%Z /\ (0 < c_RecoveryWaitTime c')%Z
  /\ c_MaxRetry c' <> 0%Z
  /\ forall s, c_SASL c' = Some s -> sa_Mechanism s <> "" /\ (sa_Mechanism s = "OAUTHBEARER" -> sa_TokenURL s <> "").
Proof.
  unfold setDefaultsFor in Hd. destruct (format_ok _) eqn:Hf; [|done]. cbn [negb] in Hd.
  apply bind_ok in Hd as (sasl & Hs & Hd). apply bind_ok in Hd as (a & Ha & Hd). injection Hd as <-. cbn [c_Format c_RequiredAcks c_Address c_Topic c_Name c_NumWorkers c_Timeout c_RecoveryWaitTime c_MaxRetry c_SASL].
  split_and!; [done|exact (acks_default_ok _ _ Ha)|by apply str_or_ne|by apply str_or_ne|by apply str_or_ne|by apply pos_or_pos|by apply pos_or_pos|by apply pos_or_pos| |].
  - by destruct (Z.eqb_spec (c_MaxRetry c) 0).
  - intros s ->. destruct (c_SASL c) as [s0|]; [|done]. apply bind_ok in Hs as (s1 & Hs & [= ->]). by apply sasl_defaults_ok in Hs.
Qed.

Section properties.
Context `{Templates} `{UnicodeCase} `{MapOrder} (EqualFold : string -> string -> bool).
Context (processors : list string -> option (list processor_fn)) (register : bool) (settings : config -> go kafka_error kafka_settings).

(** An update that restarts the workers without swapping the channel drains
    the channel into itself: while there are messages in it that no worker
    takes (the brokers cannot be reached, say), the update never returns, however
    often it moves them, and the old workers are not cancelled. *)
Theorem kafka_update_spins (uuid : string) (c nw : config) (d : dynConfig) (s s' s2 : sys state item) (ch : nat) (q : chan item)
    (Hp : prepare processors uuid (Ok c) (o_cfg (s_out s)) = Ok (nw, d))
    (Hu : Update EqualFold processors settings uuid (Ok c) s = Updated s')
    (Hsw : channelNeedsSwap (k_cfg (o_cfg (s_out s))) nw = false)
    (Hr : needsWorkerRestart EqualFold (k_cfg (o_cfg (s_out s))) nw = true)
    (Hch : o_chans (s_out s) = [ch]) (Hq : s_chans s !! ch = Some q) (Hne : ch_buf q <> []) (Hl : length (ch_buf q) <= ch_cap q)
    (Hz : done s [0] = false) (Hs2 : rtc istep s' s2) :
  s_prog s2 <> [] /\ (exists s3, istep s2 s3) /\ s_cancelled s2 = s_cancelled s.
Proof.
  destruct (kafka_restart _ _ _ _ _ _ _ _ _ Hp Hu) as (st' & _ & Hs'); [by rewrite Hsw|]. rewrite Hsw in Hs'.
  set (tail := [ICancel (o_cancelFn (s_out s)); IWait (o_cancelFn (s_out s))] : list (instr item)).
  assert (Hsp : spinning (Some [0]) ch tail s').
  { subst s'. exists None, q. split; [unfold start; cbn [s_prog]; unfold drain_then_stop; cbn [o_chans]; by rewrite Hch|]. split; [exact Hq|]. split; [by split|exact Hz]. }
  assert (Hc' : s_cancelled s' = s_cancelled s) by by subst s'.
  assert (Hsp2 : spinning (Some [0]) ch tail s2) by by eapply spinning_run.
  destruct (spinning_not_done _ _ _ _ Hsp2) as [_ [s3 Hs3]]. split_and!.
  - destruct Hsp2 as (h & q' & -> & _). done.
  - by exists s3.
  - rewrite <-Hc'.
    clear -Hs2 Hsp. induction Hs2 as [|x y z Hxy _ IH]; [done|]. assert (spinning (Some [0]) ch tail y) by by eapply spinning_step.
    rewrite IH by done. destruct Hsp as (h & q' & Hp & _).
    destruct Hxy as [x g p Hp'|x g p Hp' Hall|x ctx mv p old new m x' Hp' Hin Hr|x ctx mv new m p x' Hp' Hs|x ctx mv new m p w Hp' Hs Hw Hch
      |x ctx mv new m p Hp' Hs|x ctx mv p Hp' Hall|x c mv p Hp' Hd]; rewrite Hp in Hp'; try done.
    + cbn. by destruct (recv_same _ _ _ _ Hr) as [[_ _ -> _ _] _].
    + cbn. by destruct (push_same _ _ _ _ Hs) as [[_ _ -> _ _] _].
Qed.

(** After any sequence of updates, once one has returned and as long as the
    output is open, all workers run under the current context and read the
    current channel, as many as were last started; an update that restarts them
    starts as many as the configuration before it says. *)
Theorem kafka_workers (s : sys state item) (Hs : running EqualFold processors register settings s) (Hp : s_prog s = [])
    (Hc : s_closed s = false) (Hz : 0 ∉ s_cancelled s) :
  (s_workers s = replicate (o_started (s_out s)) (current s) /\ live s (current s) = true)
  /\ forall uuid c nw d s', prepare processors uuid (Ok c) (o_cfg (s_out s)) = Ok (nw, d) ->
       Update EqualFold processors settings uuid (Ok c) s = Updated s' ->
       channelNeedsSwap (k_cfg (o_cfg (s_out s))) nw || needsWorkerRestart EqualFold (k_cfg (o_cfg (s_out s))) nw = true ->
       o_started (s_out s') = Z.to_nat (c_NumWorkers (k_cfg (o_cfg (s_out s)))) /\ k_cfg (o_cfg (s_out s')) = nw.
Proof.
  split.
  - apply kafka_running in Hs as Hr. apply (reachable_winv (upd EqualFold processors settings)) in Hr. by apply workers_at_rest.
  - intros uuid c nw d s' Hpr Hu Hr. by destruct (kafka_restart _ _ _ _ _ _ _ _ _ Hpr Hu Hr) as (st' & <- & ->).
Qed.

(** An update that keeps the workers running needs no new ones: the client
    settings made from the new configuration would be those of the old one. *)
Theorem kafka_restart_complete (default_acks : acks) (parse_version : string -> option Z) (tls_ok : TLSConfig -> bool) (old nw : config)
    (Hf : forall a b, c_SASL old = Some a -> c_SASL nw = Some b -> EqualFold (sa_Mechanism a) (sa_Mechanism b) = true -> sa_Mechanism a = sa_Mechanism b)
    (Hr : needsWorkerRestart EqualFold old nw = false) :
  createConfigFor default_acks parse_version tls_ok old = createConfigFor default_acks parse_version tls_ok nw
  /\ c_NumWorkers old = c_NumWorkers nw.
Proof.
  unfold needsWorkerRestart, needsProducerRestart in Hr. rewrite !orb_false_iff, !negb_false_iff, !String.eqb_eq, !Z.eqb_eq, Bool.eqb_true_iff in Hr.
  destruct Hr as [[[[[[[[[[[Ea Et] Es] Ev] Em] Eti] Ef] Er] Ec] Esy] En] Ew]. apply TLS_Equal_spec in Et.
  assert (Es' : c_SASL old = c_SASL nw).
  { unfold saslEq in Es. destruct (c_SASL old) as [a|] eqn:E1, (c_SASL nw) as [b|] eqn:E2; [|done..].
    rewrite !andb_true_iff, !String.eqb_eq in Es. destruct Es as [[[Hu Hpw] Hm] Ht]. apply (Hf a b eq_refl eq_refl) in Hm.
    destruct a, b. cbn in *. congruence. }
  split; [|done]. unfold createConfigFor. by rewrite Ev, Es', Et, Er, Ec, En, Em, Eti, Ef.
Qed.

(** An update whose client settings cannot be made is refused after its
    configuration was published: the old workers run on beside it, and the same
    configuration, sent again once it can be used, restarts nothing. *)
Theorem refused_update_published (uuid : string) (c nw : config) (d : dynConfig) (e : kafka_error) (s : sys state item)
    (Hp : prepare processors uuid (Ok c) (o_cfg (s_out s)) = Ok (nw, d))
    (Hr : channelNeedsSwap (k_cfg (o_cfg (s_out s))) nw || needsWorkerRestart EqualFold (k_cfg (o_cfg (s_out s))) nw = true)
    (Hb : channelNeedsSwap (k_cfg (o_cfg (s_out s))) nw && (c_BufferSize nw <? 0)%Z = false) (He : settings nw = Err e)
    (Hf : forall m, EqualFold m m = true) :
  exists s', Update EqualFold processors settings uuid (Ok c) s = Refused e s'
  /\ k_cfg (o_cfg (s_out s')) = nw /\ k_settings (o_cfg (s_out s')) = k_settings (o_cfg (s_out s)) /\ s_workers s' = s_workers s
  /\ channelNeedsSwap (k_cfg (o_cfg (s_out s'))) nw || needsWorkerRestart EqualFold (k_cfg (o_cfg (s_out s'))) nw = false.
Proof.
  unfold Update. cbv zeta. rewrite Hp, Hr, Hb, He. eexists. split; [reflexivity|]. cbn [o_cfg s_out keep k_cfg k_settings s_workers]. split_and!; [done..|].
  unfold channelNeedsSwap, needsWorkerRestart, needsProducerRestart. rewrite !Z.eqb_refl, !String.eqb_refl, Bool.eqb_reflx.
  rewrite (proj2 (TLS_Equal_spec _ _) eq_refl). unfold saslEq. destruct (c_SASL nw) as [a|]; [|done]. by rewrite !String.eqb_refl, Hf.
Qed.

End properties.

(** "no-response" does not reach the client: the settings are those of its default. *)
Theorem no_response_ignored (default_acks : acks) (parse_version : string -> option Z) (tls_ok : TLSConfig -> bool) (c : config) (ks : kafka_settings)
    (Ha : c_RequiredAcks c = requiredAcksNoResponse) (Hc : createConfigFor default_acks parse_version tls_ok c = Ok ks) : k_RequiredAcks ks = default_acks.
Proof.
  unfold createConfigFor in Hc. apply bind_ok in Hc as (v & _ & Hc). destruct (negb _); [done|]. injection Hc as <-. cbn [k_RequiredAcks]. by rewrite Ha.
Qed.

(** A worker of a synchronous producer that cannot be made does not end
    when its context is cancelled, however long [Close] or [Update] waits for
    it; one of an asynchronous producer ends at its next attempt. *)
Theorem sync_worker_ignores_cancel (n : nat) (attempts : list (bool * bool)) (Hf : Forall (fun a => a.2 = false) attempts) :
  make_producer true n attempts = Trying
  /\ forall oks, make_producer false n ((true, oks) :: attempts) = Left.
Proof.
  split; [|done]. revert n. induction Hf as [|[c ok] l Ha Hl IH]; intros n; [done|]. cbn in *. subst ok. apply IH.
Qed.

(** ** Witnesses and examples *)

#[local] Existing Instances templates_toy case_ascii order_fwd.
Definition no_processors (names : list string) : option (list processor_fn) := if nilb names then Some [] else None.
Definition ex_config (address : string) (workers buffer : Z) (acks : string) : config :=
  mkConfig address "" "" "k" None None 0 0 0 0 false acks "json" false "" "" "" false workers "" "" buffer false false [] ∅.
Definition ex_settings : config -> go kafka_error kafka_settings := createConfigFor WaitForLocal (fun _ => None) (fun _ => true).
Definition ex_defaults (c : config) : config := match setDefaultsFor "u" c with Ok c => c | _ => c end.
(** Running on brokers that cannot be reached, with a message waiting. *)
Definition ex_start : sys state item :=
  match Init no_processors true ex_settings "n" "u" (Ok (ex_config "k1:9092" 2 4 "")) with
  | Ok s => set_chans (fun _ => [mkChan 4 [(None, None)]]) s
  | _ => init (mkState (ex_config "" 0 0 "") (mkDyn None None [] (marshal_options (ex_config "" 0 0 "")) ∅)
           (mkSettings "" None None None 0 0 0 WaitForLocal CompressionNone)) false 0 [] end.

Lemma kafka_update_spins_witness :
  let s' := upd String.eqb no_processors ex_settings ("u", Ok (ex_config "k2:9092" 2 4 "")) ex_start in
  s_prog s' <> [] /\ (exists s3, istep s' s3) /\ s_cancelled s' = [].
Proof.
  cbv zeta.
  apply (kafka_update_spins String.eqb no_processors ex_settings "u" (ex_config "k2:9092" 2 4 "") (ex_defaults (ex_config "k2:9092" 2 4 ""))
    (mkDyn (Some DefaultTargetTemplate) None [] (marshal_options (ex_config "" 0 0 "")) ∅) ex_start
    (upd String.eqb no_processors ex_settings ("u", Ok (ex_config "k2:9092" 2 4 "")) ex_start) _ 0 (mkChan 4 [(None, None)]));
    [reflexivity|reflexivity|reflexivity|reflexivity|reflexivity|reflexivity|discriminate|cbn; lia|reflexivity|apply rtc_refl].
Defined.

Definition ex_idle : sys state item := match Init no_processors true ex_settings "n" "u" (Ok (ex_config "k1:9092" 2 4 "")) with Ok s => s | _ => ex_start end.

Lemma kafka_workers_witness :
  s_workers ex_idle = replicate 2 (current ex_idle)
  /\ o_started (s_out (upd String.eqb no_processors ex_settings ("u", Ok (ex_config "k1:9092" 6 4 "")) ex_idle)) = 2.
Proof.
  destruct (kafka_workers String.eqb no_processors true ex_settings ex_idle) as [[Hw _] Hu]; [|reflexivity|reflexivity|by apply not_elem_of_nil|].
  - exists "n", "u", (Ok (ex_config "k1:9092" 2 4 "")), ex_idle. split; [reflexivity|]. apply rtc_refl.
  - split; [exact Hw|]. refine (proj1 (Hu "u" (ex_config "k1:9092" 6 4 "") _ _ _ _ _ _)); reflexivity.
Defined.

Lemma kafka_defaults_valid_witness : c_RequiredAcks (ex_defaults (ex_config "" 0 0 "")) = requiredAcksWaitForLocal /\ (0 < c_NumWorkers (ex_defaults (ex_config "" 0 0 "")))%Z.
Proof.
  split; [reflexivity|].
  destruct (kafka_defaults_valid "u" (ex_config "" 0 0 "") (ex_defaults (ex_config "" 0 0 "")) eq_refl) as (_ & _ & _ & _ & _ & Hw & _). exact Hw.
Defined.

Lemma kafka_restart_complete_witness : ex_settings (ex_config "a" 1 0 "") = ex_settings (ex_config "a" 1 9 "").
Proof.
  refine (proj1 (kafka_restart_complete String.eqb WaitForLocal (fun _ => None) (fun _ => true) (ex_config "a" 1 0 "") (ex_config "a" 1 9 "") _ _)); [done|reflexivity].
Defined.

Lemma no_response_ignored_witness :
  match ex_settings (ex_config "a" 1 0 requiredAcksNoResponse) with Ok ks => k_RequiredAcks ks = WaitForLocal | _ => False end.
Proof. exact (no_response_ignored WaitForLocal (fun _ => None) (fun _ => true) (ex_config "a" 1 0 requiredAcksNoResponse) _ eq_refl eq_refl). Defined.

Definition bad_version (c : config) : config :=
  mkConfig (c_Address c) "" "" "k" None None 0 0 0 0 false "" "json" false "" "" "" false (c_NumWorkers c) "" "9.x" (c_BufferSize c) false false [] ∅.
Lemma refused_update_published_witness :
  exists s', Update String.eqb no_processors ex_settings "u" (Ok (bad_version (ex_config "k1:9092" 2 4 ""))) ex_idle = Refused errVersion s'
  /\ c_KafkaVersion (k_cfg (o_cfg (s_out s'))) = "9.x" /\ s_workers s' = s_workers ex_idle.
Proof.
  destruct (refused_update_published String.eqb no_processors ex_settings "u" (bad_version (ex_config "k1:9092" 2 4 ""))
    (ex_defaults (bad_version (ex_config "k1:9092" 2 4 ""))) (mkDyn (Some DefaultTargetTemplate) None [] (marshal_options (ex_config "" 0 0 "")) ∅)
    errVersion ex_idle) as (s' & Hu & Hc & _ & Hw & _); [reflexivity|reflexivity|reflexivity|reflexivity|apply String.eqb_refl|].
  exists s'. split; [exact Hu|]. split; [|exact Hw]. rewrite Hc. reflexivity.
Defined.

Lemma sync_worker_ignores_cancel_witness : make_producer true 0 (replicate 5 (true, false)) = Trying.
Proof. refine (proj1 (sync_worker_ignores_cancel 0 (replicate 5 (true, false)) _)). repeat constructor. Defined.

(** A topic prefix, and the key of a message. *)
Example topic_ex :
  let c := with_name "k" (mkConfig "" "" "tel" "" None None 0 0 0 0 false "" "" false "" "" "" false 0 "" "" 0 false false [] ∅) in
  selectTopic c (Some {["source" := "r1:57400"; "subscription-name" := "bgp"]}) = "tel_bgp_r1_57400"
  /\ partitionKey (Some {["source" := "r1:57400"; "subscription-name" := "bgp"]}) = "r1:57400:::bgp".
Proof. by vm_compute. Qed.

(** Two different sources and subscriptions with one key. *)
Example partition_keys_collide :
  partitionKey (Some {["source" := "a"; "subscription-name" := ":b"]}) = partitionKey (Some {["source" := "a:"; "subscription-name" := "b"]}).
Proof. by vm_compute. Qed.

(** A negative buffer size ends the program instead of being refused. *)
Example negative_buffer_panics : Init no_processors true ex_settings "n" "u" (Ok (ex_config "k1:9092" 1 (-1) "")) = Panic.
Proof. by vm_compute. Qed.
