(* ===== verification/Inputs.v ===== *)
(** * Inputs (pkg/inputs): their workers, and what they do with a payload

    The nats, jetstream and kafka inputs share one scheme. [Start] adds the
    number of workers to the wait group and starts them under a context it can
    cancel; [Update] publishes a new configuration and, when it has to, makes a
    new context and a new wait group, starts new workers, cancels the old context
    and waits for the old wait group; [Close] cancels and waits. A worker
    evaluates [defer n.wg.Done()] when its goroutine begins to run, so it signs
    off from the wait group the input has at that moment: here a goroutine is
    started first and begins in a later step.

    What differs is in NatsInput.v, KafkaInput.v and JetstreamInput.v. *)

From stdpp Require Import strings list gmap relations.
From S2P Require Import Prelude GoStrings GoVal Text Event Messages Formats.

#[local] Open Scope nat_scope.

(** ** The life of an input *)

Section life.
Context {I C : Type}.

(** Contexts and wait groups are numbered alike, in the order they are made. *)
Record goroutine := mkG { g_ctx : nat; g_wg : option nat }.
Inductive instr := ICancel (g : nat) | IWait (g : nat).

Record sys := mkSys {
  s_cfg : C; s_cur : nat; s_counts : list Z; s_cancelled : list nat; s_shutdown : bool;
  s_workers : list goroutine; s_update : list instr; s_close : list instr; s_closed : bool; s_panic : bool }.

Definition with_counts (f : list Z -> list Z) (s : sys) : sys :=
  mkSys (s_cfg s) (s_cur s) (f (s_counts s)) (s_cancelled s) (s_shutdown s) (s_workers s) (s_update s) (s_close s) (s_closed s) (s_panic s).
Definition with_workers (w : list goroutine) (s : sys) : sys :=
  mkSys (s_cfg s) (s_cur s) (s_counts s) (s_cancelled s) (s_shutdown s) w (s_update s) (s_close s) (s_closed s) (s_panic s).
Definition with_cancelled (l : list nat) (s : sys) : sys :=
  mkSys (s_cfg s) (s_cur s) (s_counts s) l (s_shutdown s) (s_workers s) (s_update s) (s_close s) (s_closed s) (s_panic s).
Definition with_update (p : list instr) (s : sys) : sys :=
  mkSys (s_cfg s) (s_cur s) (s_counts s) (s_cancelled s) (s_shutdown s) (s_workers s) p (s_close s) (s_closed s) (s_panic s).
Definition with_close (p : list instr) (s : sys) : sys :=
  mkSys (s_cfg s) (s_cur s) (s_counts s) (s_cancelled s) (s_shutdown s) (s_workers s) (s_update s) p true (s_panic s).
Definition panicked (s : sys) : sys :=
  mkSys (s_cfg s) (s_cur s) (s_counts s) (s_cancelled s) (s_shutdown s) (s_workers s) (s_update s) (s_close s) (s_closed s) true.

Definition done (s : sys) (g : nat) : bool := s_shutdown s || bool_decide (g ∈ s_cancelled s).

(** After [Start]. *)
Definition start (c : C) (n : nat) : sys := mkSys c 0 [Z.of_nat n] [] false (replicate n (mkG 0 None)) [] [] false false.

(** What [Update] decides: to fail, to keep the workers, or to start so many.
    [WaitGroup.Add] of a negative number panics. *)
Inductive decision := Refuse | Keep (c : C) | Restart (c : C) (workers : Z).
Definition update (d : decision) (s : sys) : sys :=
  match d with
  | Refuse => s
  | Keep c => mkSys c (s_cur s) (s_counts s) (s_cancelled s) (s_shutdown s) (s_workers s) (s_update s) (s_close s) (s_closed s) (s_panic s)
  | Restart c n =>
      if (n <? 0)%Z then panicked s
      else let g := length (s_counts s) in
           mkSys c g (s_counts s ++ [n]) (s_cancelled s) (s_shutdown s) (s_workers s ++ replicate (Z.to_nat n) (mkG g None))
             [ICancel (s_cur s); IWait (s_cur s)] (s_close s) (s_closed s) (s_panic s)
  end.

(** [Done] on a wait group: below zero it panics. *)
Definition sign_off (g : nat) (s : sys) : sys :=
  let s' := with_counts (alter (fun k => k - 1)%Z g) s in
  match s_counts s !! g with Some k => if (k <? 1)%Z then panicked s' else s' | None => s' end.

(** One instruction of [Update] or [Close]. *)
Inductive iexec : sys -> list instr -> sys -> list instr -> Prop :=
| iexec_cancel s g p : iexec s (ICancel g :: p) (with_cancelled (g :: s_cancelled s) s) p
| iexec_wait s g p : s_counts s !! g = Some 0%Z -> iexec s (IWait g :: p) s p.

(** [allowed] restricts when an update may happen; the code has no restriction. *)
Context (decide_update : I -> C -> decision) (allowed : I -> sys -> Prop).

Inductive step : sys -> sys -> Prop :=
| step_begin s i c : s_panic s = false -> s_workers s !! i = Some (mkG c None) ->
    step s (with_workers (<[i := mkG c (Some (s_cur s))]> (s_workers s)) s)
| step_exit s i c g : s_panic s = false -> s_workers s !! i = Some (mkG c (Some g)) -> done s c = true ->
    step s (sign_off g (with_workers (delete i (s_workers s)) s))
| step_update s i : s_panic s = false -> s_update s = [] -> allowed i s -> step s (update (decide_update i (s_cfg s)) s)
| step_update_instr s s' p : s_panic s = false -> iexec s (s_update s) s' p -> step s (with_update p s')
| step_close s : s_panic s = false -> s_closed s = false -> step s (with_close [ICancel (s_cur s); IWait (s_cur s)] s)
| step_close_instr s s' p : s_panic s = false -> iexec s (s_close s) s' p -> step s (with_close p s')
| step_shutdown s : s_panic s = false ->
    step s (mkSys (s_cfg s) (s_cur s) (s_counts s) (s_cancelled s) true (s_workers s) (s_update s) (s_close s) (s_closed s) (s_panic s)).

Definition reach : sys -> sys -> Prop := rtc step.
End life.

#[global] Arguments sys : clear implicits.
#[global] Arguments decision : clear implicits.

Definition begun (w : goroutine) : bool := match g_wg w with Some _ => true | None => false end.

(** A timely update finds the goroutines of the last one begun; and it does not
    ask for a negative number of workers. *)
Definition timely {I C} (decide_update : I -> C -> decision C) (i : I) (s : sys C) : Prop :=
  Forall (fun w => begun w = true) (s_workers s)
  /\ match decide_update i (s_cfg s) with Restart _ n => (0 <= n)%Z | _ => True end.
Definition any_time {I C} (i : I) (s : sys C) : Prop := True.

(** ** Properties of the life of an input *)

Section proofs.
Context {I C : Type} (decide_update : I -> C -> decision C) (workers_of : C -> Z).

(** An update that keeps the workers has as many in its configuration. *)
Class Counts : Prop := counts : forall i c,
  match decide_update i c with Refuse => True | Keep c' => (workers_of c' = workers_of c) | Restart c' n => (n = workers_of c') end.

Definition of_gen (g : nat) (l : list goroutine) : list goroutine := filter (fun w => g_ctx w = g) l.
Definition signing (g : nat) (l : list goroutine) : list goroutine := filter (fun w => g_wg w = Some g) l.

(** Where the workers of a generation are, while updates are timely. *)
Definition own (s : sys C) (w : goroutine) : Prop := match g_wg w with None => g_ctx w = s_cur s | Some g => g = g_ctx w end.
Definition gens (s : sys C) (w : goroutine) : Prop :=
  match s_update s with
  | [] => g_ctx w = s_cur s
  | [ICancel o; IWait o'] => o = o' /\ (g_ctx w = o \/ g_ctx w = s_cur s)
  | [IWait o] => g_ctx w = o \/ g_ctx w = s_cur s
  | _ => False
  end.
Definition updating (s : sys C) : Prop :=
  s_update s = [] \/ exists o, o < s_cur s /\ (s_update s = [ICancel o; IWait o] \/ s_update s = [IWait o] /\ o ∈ s_cancelled s).

Definition closing (s : sys C) : Prop :=
  s_close s = [] \/ exists g, g <= s_cur s /\ (s_close s = [ICancel g; IWait g] \/ s_close s = [IWait g]).

Record calm (s : sys C) : Prop := {
  ca_panic : s_panic s = false;
  ca_cur : S (s_cur s) = length (s_counts s);
  ca_own : Forall (own s) (s_workers s);
  ca_counts : forall g k, s_counts s !! g = Some k -> k = Z.of_nat (length (of_gen g (s_workers s)));
  ca_updating : updating s;
  ca_gens : Forall (gens s) (s_workers s);
  ca_bound : Forall (fun g => g <= s_cur s) (s_cancelled s);
  ca_closing : closing s;
  ca_live : s_closed s = false -> s_shutdown s = false ->
    s_close s = [] /\ (s_cur s ∉ s_cancelled s) /\ Z.of_nat (length (of_gen (s_cur s) (s_workers s))) = workers_of (s_cfg s) }.

Ltac fields := unfold updating, closing in *;
  cbn [with_workers with_counts with_cancelled with_update with_close s_panic s_cur s_counts s_workers s_update s_cancelled s_close s_closed s_shutdown s_cfg] in *.

Lemma replace_at (l : list goroutine) i x y : l !! i = Some x ->
  exists l', l ≡ₚ x :: l' /\ <[i := y]> l ≡ₚ y :: l' /\ delete i l = l'.
Proof.
  intros Hi. apply list_elem_of_split_length in Hi as (l1 & l2 & -> & ->). exists (l1 ++ l2). split_and!.
  - by rewrite Permutation_middle.
  - rewrite insert_app_r_alt, Nat.sub_diag by done. cbn. by rewrite Permutation_middle.
  - rewrite delete_middle. done.
Qed.

Lemma of_gen_perm g l l' : l ≡ₚ l' -> length (of_gen g l) = length (of_gen g l').
Proof. intros Hp. unfold of_gen. by rewrite Hp. Qed.
Lemma of_gen_cons g w l : length (of_gen g (w :: l)) = (if decide (g_ctx w = g) then S (length (of_gen g l)) else length (of_gen g l)).
Proof. unfold of_gen. rewrite filter_cons. by destruct (decide _). Qed.
Lemma of_gen_app g l l' : length (of_gen g (l ++ l')) = length (of_gen g l) + length (of_gen g l').
Proof. unfold of_gen. by rewrite filter_app, length_app. Qed.
Lemma of_gen_fresh g n wg : length (of_gen g (replicate n (mkG g wg))) = n.
Proof. induction n as [|n IH]; [done|]. cbn [replicate]. rewrite of_gen_cons, decide_True by done. by rewrite IH. Qed.
Lemma of_gen_none g l : Forall (fun w => g_ctx w <> g) l -> length (of_gen g l) = 0.
Proof. induction 1 as [|w l Hw Hl IH]; [done|]. by rewrite of_gen_cons, decide_False. Qed.

Lemma gens_bound s w : updating s -> gens s w -> g_ctx w <= s_cur s.
Proof.
  unfold updating, gens. intros [->|(o & Ho & [->|[-> _]])]; [lia|intros [_ [->| ->]]; lia|intros [->| ->]; lia].
Qed.

Lemma calm_start c n : Z.of_nat n = workers_of c -> calm (start c n).
Proof.
  intros Hn. unfold start. split; fields; try done.
  - by apply Forall_replicate.
  - intros [|g] k Hk; [|by destruct g]. injection Hk as <-. by rewrite of_gen_fresh.
  - by left.
  - by apply Forall_replicate.
  - by left.
  - intros _ _. split_and!; [done|set_solver|]. by rewrite of_gen_fresh.
Qed.

Lemma calm_begin s i c : calm s -> s_workers s !! i = Some (mkG c None) ->
  calm (with_workers (<[i := mkG c (Some (s_cur s))]> (s_workers s)) s).
Proof.
  intros [Hp Hc Ho Hk Hu Hg Hb Hcl Hl] Hi. destruct (replace_at _ _ _ (mkG c (Some (s_cur s))) Hi) as (l & Hl1 & Hl2 & _).
  rewrite Hl1 in Ho, Hg. apply Forall_cons in Ho as [Ho1 Ho], Hg as [Hg1 Hg]. cbn in Ho1.
  assert (Hn : forall g, length (of_gen g (<[i := mkG c (Some (s_cur s))]> (s_workers s))) = length (of_gen g (s_workers s))).
  { intros g. rewrite (of_gen_perm _ _ _ Hl1), (of_gen_perm _ _ _ Hl2), !of_gen_cons. done. }
  assert (Ho' : Forall (own s) (<[i := mkG c (Some (s_cur s))]> (s_workers s))) by (rewrite Hl2; by constructor).
  assert (Hg' : Forall (gens s) (<[i := mkG c (Some (s_cur s))]> (s_workers s))) by (rewrite Hl2; by constructor).
  split; fields; try done.
  - intros g k Hgk. rewrite Hn. by apply Hk.
  - intros H1 H2. rewrite Hn. by apply Hl.
Qed.

Lemma calm_exit s i c g : calm s -> s_workers s !! i = Some (mkG c (Some g)) -> done s c = true ->
  calm (sign_off g (with_workers (delete i (s_workers s)) s)).
Proof.
  intros [Hp Hc Ho Hk Hu Hg Hb Hcl Hl] Hi Hd. destruct (replace_at _ _ _ (mkG c None) Hi) as (l & Hl1 & _ & Hl2).
  rewrite Hl1 in Ho, Hg. apply Forall_cons in Ho as [Ho1 Ho], Hg as [Hg1 Hg]. cbn in Ho1. subst g.
  assert (Hlt : c < length (s_counts s)). { rewrite <-Hc. pose proof (gens_bound _ _ Hu Hg1). cbn in *. lia. }
  destruct (lookup_lt_is_Some_2 _ _ Hlt) as [k Hck]. apply Hk in Hck as Hk1. rewrite (of_gen_perm _ _ _ Hl1), of_gen_cons, decide_True in Hk1 by done.
  unfold sign_off. cbn [s_counts with_workers]. rewrite Hck, (proj2 (Z.ltb_ge _ _)) by lia. rewrite Hl2.
  split; fields; try done.
  - by rewrite length_alter.
  - intros g k' Hgk. destruct (decide (g = c)) as [->|Hne].
    + rewrite list_lookup_alter_eq, Hck in Hgk. injection Hgk as <-. lia.
    + rewrite list_lookup_alter_ne in Hgk by done. apply Hk in Hgk. by rewrite (of_gen_perm _ _ _ Hl1), of_gen_cons, decide_False in Hgk by (cbn; congruence).
  - intros H1 H2. destruct (Hl H1 H2) as (H3 & H4 & H5). split_and!; [done..|]. rewrite <-H5.
    rewrite (of_gen_perm _ _ _ Hl1), of_gen_cons. cbn. rewrite decide_False; [done|]. intros ->.
    unfold done in Hd. rewrite H2, bool_decide_eq_false_2 in Hd; done.
Qed.

Lemma calm_update_instr s s' p : calm s -> iexec s (s_update s) s' p -> calm (with_update p s').
Proof.
  intros [Hp Hc Ho Hk Hu Hg Hb Hcl Hl] He. destruct Hu as [Hu|(o & Hlt & [Hu|[Hu Ho']])]; rewrite Hu in He; inversion He; subst; clear He.
  - split; fields; try done.
    + right. exists o. split; [done|right; split; [done|by left]].
    + eapply Forall_impl; [exact Hg|]. unfold gens. rewrite Hu. cbn. by intros w [_ Hw].
    + constructor; [lia|done].
    + intros H1 H2. destruct (Hl H1 H2) as (H3 & H4 & H5). split_and!; [done| |done]. apply not_elem_of_cons. split; [lia|done].
  - split; fields; try done.
    + by left.
    + match goal with H : s_counts _ !! o = Some 0%Z |- _ => apply Hk in H as Hz end.
      apply Forall_forall. intros w Hw. rewrite Forall_forall in Hg. specialize (Hg w Hw). unfold gens in *. rewrite Hu in Hg. cbn.
      destruct Hg as [Hwo|Hg]; [|done]. exfalso.
      assert (w ∈ of_gen o (s_workers s')) as Hin by by apply list_elem_of_filter.
      destruct (of_gen o (s_workers s')); [by apply not_elem_of_nil in Hin|cbn in Hz; lia].
Qed.

Lemma calm_close s : calm s -> s_closed s = false -> calm (with_close [ICancel (s_cur s); IWait (s_cur s)] s).
Proof.
  intros [Hp Hc Ho Hk Hu Hg Hb Hcl Hl] Hclosed. split; fields; try done. right. exists (s_cur s). split; [lia|by left].
Qed.

Lemma updating_cancel s g : updating s -> updating (with_cancelled (g :: s_cancelled s) s).
Proof.
  intros [Hu|(o & Hlt & [Hu|[Hu Ho]])]; [by left|right; exists o; split; [done|by left]|right; exists o; split; [done|right; split; [done|by right]]].
Qed.

Lemma calm_close_instr s s' p : calm s -> iexec s (s_close s) s' p -> calm (with_close p s').
Proof.
  intros [Hp Hc Ho Hk Hu Hg Hb Hcl Hl] He. destruct Hcl as [Hcl|(g & Hlt & [Hcl|Hcl])]; rewrite Hcl in He; inversion He; subst; clear He.
  - split; fields; try done; [by apply updating_cancel|constructor; [lia|done]|]. right. exists g. split; [done|by right].
  - split; fields; try done. by left.
Qed.

Lemma calm_shutdown s : calm s ->
  calm (mkSys (s_cfg s) (s_cur s) (s_counts s) (s_cancelled s) true (s_workers s) (s_update s) (s_close s) (s_closed s) (s_panic s)).
Proof. intros [Hp Hc Ho Hk Hu Hg Hb Hcl Hl]. split; fields; done. Qed.

Lemma calm_update `{!Counts} s i : calm s -> s_update s = [] -> timely decide_update i s -> calm (update (decide_update i (s_cfg s)) s).
Proof.
  intros Hs Hup [Hbegun Hn]. pose proof (counts i (s_cfg s)) as Hcount. destruct (decide_update i (s_cfg s)) as [|c|c n]; [done|..].
  - destruct Hs as [Hp Hc Ho Hk Hu Hg Hb Hcl Hl]. cbn [update]. split; fields; try done. intros Hn1 Hn2. rewrite Hcount. by apply Hl.
  - destruct Hs as [Hp Hc Ho Hk Hu Hg Hb Hcl Hl]. cbn [update]. rewrite (proj2 (Z.ltb_ge _ _)) by done.
    assert (Hold : Forall (fun w => g_ctx w = s_cur s) (s_workers s)).
    { eapply Forall_impl; [exact Hg|]. unfold gens. by rewrite Hup. }
    split; fields; try done.
    + rewrite length_app. cbn. lia.
    + apply Forall_app. split; [|by apply Forall_replicate]. rewrite !Forall_forall in *. intros w Hw. specialize (Ho w Hw). specialize (Hbegun w Hw).
      unfold own, begun in *. by destruct (g_wg w).
    + intros g k Hgk. rewrite of_gen_app. destruct (decide (g = length (s_counts s))) as [->|Hne].
      * rewrite lookup_app_r, Nat.sub_diag in Hgk by done. injection Hgk as <-. rewrite of_gen_none, of_gen_fresh; [lia|].
        eapply Forall_impl; [exact Hold|]. cbn. lia.
      * rewrite lookup_app_l in Hgk by (apply lookup_lt_Some in Hgk; rewrite length_app in Hgk; cbn in Hgk; lia).
        rewrite (of_gen_none g (replicate _ _)) by (apply Forall_replicate; cbn; congruence). rewrite Nat.add_0_r. by apply Hk.
    + right. exists (s_cur s). split; [lia|by left].
    + apply Forall_app. split; [|by apply Forall_replicate; split; [|right]]. eapply Forall_impl; [exact Hold|]. intros w Hw. cbn in Hw. split; [done|by left].
    + eapply Forall_impl; [exact Hb|]. cbn. lia.
    + destruct Hcl as [->|(g & Hlt & Hcl)]; [by left|]. right. exists g. split; [lia|done].
    + intros H1 H2. destruct (Hl H1 H2) as (H3 & H4 & H5). split_and!; [done| |].
      * intros Hin. rewrite Forall_forall in Hb. apply Hb in Hin. lia.
      * rewrite of_gen_app, of_gen_fresh, of_gen_none; [lia|]. eapply Forall_impl; [exact Hold|]. cbn. lia.
Qed.

Lemma calm_step `{!Counts} s s' : calm s -> step decide_update (timely decide_update) s s' -> calm s'.
Proof.
  intros Hs Hst. destruct Hst.
  - by apply calm_begin.
  - by eapply calm_exit.
  - by apply calm_update.
  - by eapply calm_update_instr.
  - by apply calm_close.
  - by eapply calm_close_instr.
  - by apply calm_shutdown.
Qed.

Lemma calm_reach `{!Counts} s s' : calm s -> reach decide_update (timely decide_update) s s' -> calm s'.
Proof. intros Hs Hr. induction Hr as [|x y z Hxy _ IH]; [done|]. apply IH. by eapply calm_step. Qed.

(** What holds between timely updates. *)
Lemma calm_workers s : calm s -> s_update s = [] -> s_closed s = false -> s_shutdown s = false ->
  Z.of_nat (length (s_workers s)) = workers_of (s_cfg s) /\ Forall (fun w => done s (g_ctx w) = false) (s_workers s).
Proof.
  intros [Hp Hc Ho Hk Hu Hg Hb Hcl Hl] Hup H1 H2. destruct (Hl H1 H2) as (_ & Hlive & Hcount).
  assert (Hold : Forall (fun w => g_ctx w = s_cur s) (s_workers s)).
  { eapply Forall_impl; [exact Hg|]. unfold gens. by rewrite Hup. }
  split.
  - unfold of_gen in Hcount. by rewrite filter_all in Hcount.
  - eapply Forall_impl; [exact Hold|]. intros w ->. unfold done. by rewrite H2, bool_decide_eq_false_2.
Qed.

(** ** A goroutine that begins after the next update *)

(** The wait group of the old workers counts one more than sign off from it. *)
Definition stuck (o : nat) (s : sys C) : Prop :=
  o < s_cur s /\ (s_update s = [ICancel o; IWait o] \/ s_update s = [IWait o])
  /\ exists k, s_counts s !! o = Some k /\ (Z.of_nat (length (signing o (s_workers s))) < k)%Z.

Lemma signing_perm g l l' : l ≡ₚ l' -> length (signing g l) = length (signing g l').
Proof. intros Hp. unfold signing. by rewrite Hp. Qed.
Lemma signing_cons g w l : length (signing g (w :: l)) = (if decide (g_wg w = Some g) then S (length (signing g l)) else length (signing g l)).
Proof. unfold signing. rewrite filter_cons. by destruct (decide _). Qed.

Lemma input_stuck_step allowed o s s' : stuck o s -> step decide_update allowed s s' -> stuck o s'.
Proof.
  intros (Hlt & Hup & k & Hk & Hlen) Hst. destruct Hst as [s i c Hp Hi|s i c g Hp Hi Hd|s i Hp Hu _|s s' p Hp He|s Hp Hc|s s' p Hp He|s Hp].
  - destruct (replace_at _ _ _ (mkG c (Some (s_cur s))) Hi) as (l & Hl1 & Hl2 & _). split_and!; [done..|]. exists k. split; [done|]. fields.
    rewrite (signing_perm _ _ _ Hl1), signing_cons, decide_False in Hlen by done.
    rewrite (signing_perm _ _ _ Hl2), signing_cons. cbn [g_wg]. rewrite decide_False by (intros [= Hx]; lia). done.
  - destruct (replace_at _ _ _ (mkG c None) Hi) as (l & Hl1 & _ & Hl2). rewrite (signing_perm _ _ _ Hl1), signing_cons in Hlen. cbn [g_wg] in Hlen.
    assert (Hsame : forall s0 : sys C, s_cur (sign_off g s0) = s_cur s0 /\ s_update (sign_off g s0) = s_update s0 /\ s_workers (sign_off g s0) = s_workers s0
      /\ s_counts (sign_off g s0) = alter (fun k => k - 1)%Z g (s_counts s0)).
    { intros s0. unfold sign_off. destruct (s_counts s0 !! g) as [k0|] eqn:E; [destruct (_ <? _)%Z|]; done. }
    destruct (Hsame (with_workers (delete i (s_workers s)) s)) as (E1 & E2 & E3 & E4). unfold stuck. rewrite E1, E2, E3, E4. fields. rewrite Hl2.
    split_and!; [done..|]. destruct (decide (Some g = Some o)) as [[= ->]|Hne].
    + exists (k - 1)%Z. rewrite list_lookup_alter_eq, Hk. split; [done|lia].
    + exists k. rewrite list_lookup_alter_ne by congruence. done.
  - by destruct Hup as [Hup|Hup]; rewrite Hup in Hu.
  - destruct Hup as [Hup|Hup]; rewrite Hup in He; inversion He; subst; clear He.
    + split_and!; [done|by right|]. by exists k.
    + match goal with H : s_counts _ !! o = Some 0%Z |- _ => rewrite Hk in H; injection H as -> end. lia.
  - split_and!; [done..|]. by exists k.
  - inversion He; subst; (split_and!; [done..|]; by exists k).
  - split_and!; [done..|]. by exists k.
Qed.

Lemma input_stuck_reach allowed o s s' : stuck o s -> reach decide_update allowed s s' -> stuck o s'.
Proof. intros Hs Hr. induction Hr as [|x y z Hxy _ IH]; [done|]. apply IH. by eapply input_stuck_step. Qed.

(** Workers that sign off from a wait group are of its generation. *)
Lemma signing_of_gen g s : calm s -> length (signing g (s_workers s)) + length (filter (fun w => g_ctx w = g /\ g_wg w = None) (s_workers s)) = length (of_gen g (s_workers s)).
Proof.
  intros Hs. pose proof (ca_own _ Hs) as Ho. revert Ho. generalize (s_workers s). intros l Ho.
  induction Ho as [|w l Hw Hl IH]; [done|]. rewrite signing_cons, of_gen_cons, filter_cons. unfold own in Hw.
  destruct w as [c [g'|]]; cbn in *; subst.
  - destruct (decide (Some c = Some g)) as [[= ->]|Hne].
    + rewrite decide_False by (by intros [_ ?]). rewrite decide_True by done. lia.
    + rewrite decide_False by (by intros [_ ?]). rewrite decide_False by congruence. lia.
  - rewrite decide_False by done. destruct (decide (s_cur s = g)) as [->|Hne]; [rewrite decide_True by done; cbn; lia|]. rewrite decide_False by (by intros [? _]). lia.
Qed.

Lemma late_stuck s i j c n : calm s -> s_update s = [] -> s_workers s !! i = Some (mkG (s_cur s) None) ->
  decide_update j (s_cfg s) = Restart c n -> (0 <= n)%Z ->
  let s1 := update (decide_update j (s_cfg s)) s in
  stuck (s_cur s) (with_workers (<[i := mkG (s_cur s) (Some (s_cur s1))]> (s_workers s1)) s1).
Proof.
  intros Hs Hup Hi Hd Hn. cbv zeta. rewrite Hd. cbn [update]. rewrite (proj2 (Z.ltb_ge _ _)) by done. pose proof (ca_cur _ Hs) as Hc.
  assert (Hlt : s_cur s < length (s_counts s)) by lia. destruct (lookup_lt_is_Some_2 _ _ Hlt) as [k Hk].
  split_and!; fields; [lia|by left|]. exists k. split; [by rewrite lookup_app_l|]. apply (ca_counts _ Hs) in Hk as ->.
  pose proof (signing_of_gen (s_cur s) s Hs) as Hsum. destruct (replace_at _ _ _ (mkG (s_cur s) (Some (length (s_counts s)))) Hi) as (l & Hl1 & Hl2 & _).
  rewrite insert_app_l by by eapply lookup_lt_Some.
  assert (Hsig : length (signing (s_cur s) (<[i := mkG (s_cur s) (Some (length (s_counts s)))]> (s_workers s) ++ replicate (Z.to_nat n) (mkG (length (s_counts s)) None)))
    = length (signing (s_cur s) (s_workers s))).
  { unfold signing. rewrite filter_app, length_app. fold (signing (s_cur s) (<[i := mkG (s_cur s) (Some (length (s_counts s)))]> (s_workers s))).
    rewrite (signing_perm _ _ _ Hl2), signing_cons. cbn [g_wg]. rewrite decide_False by (intros [= Hx]; lia).
    fold (signing (s_cur s) (s_workers s)). rewrite (signing_perm _ _ _ Hl1), signing_cons. cbn [g_wg]. rewrite decide_False by done.
    replace (filter _ (replicate _ _)) with (@nil goroutine); [cbn; lia|]. clear. induction (Z.to_nat n) as [|m IH]; [done|]. cbn [replicate]. rewrite filter_cons, decide_False; done. }
  rewrite Hsig. enough (0 < length (filter (fun w => g_ctx w = s_cur s /\ g_wg w = None) (s_workers s))) by lia.
  assert (mkG (s_cur s) None ∈ filter (fun w => g_ctx w = s_cur s /\ g_wg w = None) (s_workers s)) as Hin.
  { apply list_elem_of_filter. split; [done|]. by eapply list_elem_of_lookup_2. }
  destruct (filter _ (s_workers s)); [by apply not_elem_of_nil in Hin|cbn; lia].
Qed.

(** ** Updates that are timely *)

(** The old workers can all end: each has begun, and is cancelled. *)
Lemma old_drain `{!Counts} o m s : calm s -> o < s_cur s -> s_update s = [IWait o] -> done s o = true -> length (of_gen o (s_workers s)) = m ->
  exists s', reach decide_update (timely decide_update) s s' /\ calm s' /\ s_update s' = [IWait o] /\ s_counts s' !! o = Some 0%Z.
Proof.
  revert s. induction m as [|m IH]; intros s Hs Hlt Hup Hd Hm.
  - exists s. split_and!; [apply rtc_refl|done|done|].
    assert (o < length (s_counts s)) as Hl by (rewrite <-(ca_cur _ Hs); lia). destruct (lookup_lt_is_Some_2 _ _ Hl) as [k Hk].
    rewrite Hk. apply (ca_counts _ Hs) in Hk. rewrite Hm in Hk. by rewrite Hk.
  - destruct (of_gen o (s_workers s)) as [|w l] eqn:E; [done|].
    assert (w ∈ of_gen o (s_workers s)) as Hin by (rewrite E; by left). apply list_elem_of_filter in Hin as [Hw Hin].
    pose proof (proj1 (Forall_forall _ _) (ca_own _ Hs) w Hin) as Hown. apply list_elem_of_lookup in Hin as [i Hi].
    destruct w as [c wg]. cbn in Hw. subst c. unfold own in Hown. cbn in Hown. destruct wg as [g|]; [|lia]. subst g.
    pose proof (step_exit decide_update (timely decide_update) s i o o (ca_panic _ Hs) Hi Hd) as Hst.
    set (s1 := sign_off o (with_workers (delete i (s_workers s)) s)) in *. pose proof (calm_step _ _ Hs Hst) as Hs1.
    assert (Hsame : s_cur s1 = s_cur s /\ s_update s1 = s_update s /\ s_workers s1 = delete i (s_workers s) /\ s_cancelled s1 = s_cancelled s /\ s_shutdown s1 = s_shutdown s).
    { unfold s1, sign_off. destruct (_ !! o) as [k0|]; [destruct (_ <? _)%Z|]; done. }
    destruct Hsame as (E1 & E2 & E3 & E4 & E5). destruct (replace_at _ _ _ (mkG 0 None) Hi) as (l' & Hl1 & _ & Hl2).
    destruct (IH s1) as (s' & Hr & Hs' & H1 & H2).
    + done.
    + by rewrite E1.
    + by rewrite E2.
    + unfold done in *. by rewrite E4, E5.
    + rewrite E3, Hl2. rewrite <-E, (of_gen_perm _ _ _ Hl1), of_gen_cons in Hm. cbn in Hm. rewrite decide_True in Hm by done. lia.
    + exists s'. split_and!; [|done|done|done]. by eapply rtc_l.
Qed.

Lemma update_returns `{!Counts} s : calm s -> exists s', reach decide_update (timely decide_update) s s' /\ s_update s' = [].
Proof.
  intros Hs. assert (Hwait : forall o s, calm s -> o < s_cur s -> s_update s = [IWait o] -> done s o = true ->
    exists s', reach decide_update (timely decide_update) s s' /\ s_update s' = []).
  { intros o s0 Hs0 Hlt Hup Hd. destruct (old_drain o _ s0 Hs0 Hlt Hup Hd eq_refl) as (s' & Hr & Hs' & H1 & H2).
    exists (with_update [] s'). split; [|done]. eapply rtc_r; [exact Hr|]. apply step_update_instr; [apply Hs'|]. rewrite H1. by constructor. }
  destruct (ca_updating _ Hs) as [Hu|(o & Hlt & [Hu|[Hu Hin]])]; [exists s; split; [apply rtc_refl|done]| |].
  - assert (step decide_update (timely decide_update) s (with_update [IWait o] (with_cancelled (o :: s_cancelled s) s))) as Hst.
    { apply step_update_instr; [apply Hs|]. rewrite Hu. constructor. }
    destruct (Hwait o _ (calm_step _ _ Hs Hst)) as (s' & Hr & H1); [done|done| |].
    + unfold done. cbn. rewrite bool_decide_eq_true_2 by (by left). by rewrite orb_true_r.
    + exists s'. split; [by eapply rtc_l|done].
  - apply (Hwait o); [done..|]. unfold done. by rewrite bool_decide_eq_true_2, orb_true_r.
Qed.
End proofs.

(** The shape of Lemma [late_stuck], followed to any later state. *)
Lemma late_worker_hangs {I C} (decide_update : I -> C -> decision C) (workers_of : C -> Z) s i j c n s2 :
  calm workers_of s -> s_update s = [] -> s_workers s !! i = Some (mkG (s_cur s) None) ->
  decide_update j (s_cfg s) = Restart c n -> (0 <= n)%Z ->
  let s1 := update (decide_update j (s_cfg s)) s in
  reach decide_update any_time (with_workers (<[i := mkG (s_cur s) (Some (s_cur s1))]> (s_workers s1)) s1) s2 -> IWait (s_cur s) ∈ s_update s2.
Proof.
  intros Hs Hup Hi Hd Hn. cbv zeta. intros Hr. pose proof (late_stuck decide_update workers_of s i j c n Hs Hup Hi Hd Hn) as Hst. cbv zeta in Hst.
  eapply input_stuck_reach in Hst as (_ & [Hu|Hu] & _); [rewrite Hu; by right; left|rewrite Hu; by left|exact Hr].
Qed.

(** ** What an input does with a payload *)

(** Processors and outputs for the messages; [d_outputsMap] names the outputs
    the collector's pipeline is to use, nil for all of them. *)
Record dynConfig := mkDyn { d_evps : list processor_fn; d_outputsMap : option (gset string) }.

(** What the select on the pipeline took. *)
Inductive select := Sent | Full | CtxDone.
Inductive effect (O : Type) :=
| PipeEvents (evs : list (option EventMsg)) (outs : option (gset string))
| PipeMsg (m : msg SubRsp) (meta : gomap string) (outs : option (gset string))
| WriteEvent (o : O) (e : option EventMsg)
| WriteMsg (o : O) (m : msg SubRsp) (meta : gomap string).
Arguments PipeEvents {O}. Arguments PipeMsg {O}. Arguments WriteEvent {O}. Arguments WriteMsg {O}.

Section ingest.
Context {O : Type}.

(** The effects, and whether the worker goes on to the next message. *)
Definition deliver (pipeline : option select) (piped : effect O) (writes : list (effect O)) : list (effect O) * bool :=
  match pipeline with
  | Some CtxDone => ([], false)
  | Some Sent => (piped :: writes, true)
  | Some Full | None => (writes, true)
  end.
Definition deliver_events (pipeline : option select) (dc : dynConfig) (outs : list O) (evs : list (option EventMsg)) : go event_error (list (effect O) * bool) :=
  evs ← applyAll (d_evps dc) evs;
  Ok (deliver pipeline (PipeEvents evs (d_outputsMap dc)) (o ← outs; WriteEvent o <$> evs)).
Definition deliver_msg (pipeline : option select) (dc : dynConfig) (outs : list O) (m : msg SubRsp) (meta : gomap string) : list (effect O) * bool :=
  deliver pipeline (PipeMsg m meta (d_outputsMap dc)) ((fun o => WriteMsg o m meta) <$> outs).

(** [getOutputs]: the outputs to write to, and the names for the pipeline. *)
Definition getOutputs `{MapOrder} (outs : gmap string O) (names : list string) : list O * option (gset string) :=
  if nilb names then ((range outs).*2, None) else (omap (fun name => outs !! name) names, Some (list_to_set names)).

(** What reaches one output. *)
Definition written_events `{EqDecision O} (o : O) (l : list (effect O)) : list (option EventMsg) :=
  omap (fun e => match e with WriteEvent o' ev => if decide (o' = o) then Some ev else None | _ => None end) l.
End ingest.

(** ** Configurations *)

Inductive input_error := errDecode | errProcessors | errFormat | errVersion | errTokenURL.

(** What the common [Start] and [Update] use of an input's configuration.
    [setDefaultsFor uuid c] is what it leaves in the configuration, and its error. *)
Class InputConfig (cfg : Type) : Type := {
  Name : cfg -> string;
  NumWorkers : cfg -> Z;
  Outputs : cfg -> list string;
  EventProcessors : cfg -> list string;
  with_name : string -> cfg -> cfg;
  suffix : string;
  setDefaultsFor : string -> cfg -> cfg * option input_error;
  needsWorkerRestart : cfg -> cfg -> bool }.

Class InputConfigLaws (cfg : Type) `{InputConfig cfg} : Prop := {
  restart_workers old nw : needsWorkerRestart old nw = false -> NumWorkers nw = NumWorkers old;
  defaults_workers uuid c c' : setDefaultsFor uuid c = (c', None) -> (0 < NumWorkers c')%Z }.

Section input.
Context `{InputConfig cfg} {O : Type}.

Record state := mkState { i_cfg : cfg; i_dyn : dynConfig; i_outputs : list O }.

Definition setName (name : string) (c : cfg) : cfg :=
  with_name ((if String.eqb name "" then "" else name +:+ "-") +:+ (Name c +:+ suffix)) c.

(** [Start]: [decoded] is the decoded configuration, [prefix] the name in the
    options, [outs] the outputs in them, [built] what buildEventProcessors returns. *)
Definition Start `{MapOrder} (name prefix uuid : string) (decoded : go input_error cfg) (outs : gmap string O)
    (built : option (list processor_fn)) : go input_error (sys state) :=
  c ← decoded;
  let c := setName prefix (if String.eqb (Name c) "" then with_name name c else c) in
  let '(outputs, outputsMap) := getOutputs outs (Outputs c) in
  match built with
  | None => Err errProcessors
  | Some evps =>
      match setDefaultsFor uuid c with
      | (_, Some e) => Err e
      | (c, None) => Ok (start (mkState c (mkDyn evps outputsMap) outputs) (Z.to_nat (NumWorkers c)))
      end
  end.

Definition Validate (uuid : string) (decoded : go input_error cfg) : go input_error () :=
  c ← decoded;
  match snd (setDefaultsFor uuid c) with Some e => Err e | None => Ok () end.

(** [Update] and [UpdateProcessor]; [made] is what MakeProcessor returns, [None]
    also when the maps of the store cannot be read. *)
Inductive request :=
| ConfigUpdate (uuid : string) (decoded : go input_error cfg) (built : option (list processor_fn))
| ProcessorUpdate (name : string) (maps : bool) (made : option processor_fn).

Fixpoint first_named (name : string) (names : list string) (i : nat) : option nat :=
  match names with
  | [] => None
  | n :: names => if String.eqb n name then Some i else first_named name names (S i)
  end.
(** The processors, and whether one has been replaced. *)
Definition UpdateProcessorInSlice (maps : bool) (names : list string) (current : list processor_fn) (name : string) (made : option processor_fn)
    : option (list processor_fn * bool) :=
  if negb maps then None
  else match first_named name names 0 with
       | None => Some (current, false)
       | Some i =>
           match made with
           | None => None
           | Some ep => if length current <=? i then None else Some (<[i := ep]> current, true)
           end
       end.

Definition decide_config (uuid : string) (decoded : go input_error cfg) (built : option (list processor_fn)) (st : state) : decision state :=
  match decoded with
  | Ok c =>
      let nw := fst (setDefaultsFor uuid c) in
      let old := i_cfg st in
      match (if decide (EventProcessors old = EventProcessors nw) then Some (d_evps (i_dyn st)) else built) with
      | None => Refuse
      | Some evps =>
          let st' := mkState nw (mkDyn evps (Some (list_to_set (Outputs nw)))) (i_outputs st) in
          if needsWorkerRestart old nw then Restart st' (NumWorkers nw) else Keep st'
      end
  | _ => Refuse
  end.
Definition decide_processor (name : string) (maps : bool) (made : option processor_fn) (st : state) : decision state :=
  match UpdateProcessorInSlice maps (EventProcessors (i_cfg st)) (d_evps (i_dyn st)) name made with
  | None => Refuse
  | Some (_, false) => Keep st
  | Some (evps, true) => Keep (mkState (i_cfg st) (mkDyn evps (d_outputsMap (i_dyn st))) (i_outputs st))
  end.
Definition decide_update (r : request) (st : state) : decision state :=
  match r with
  | ConfigUpdate uuid decoded built => decide_config uuid decoded built st
  | ProcessorUpdate name maps made => decide_processor name maps made st
  end.
Definition Update (r : request) (s : sys state) : sys state := update (decide_update r (s_cfg s)) s.

Definition workers_of (st : state) : Z := NumWorkers (i_cfg st).

#[export] Instance input_counts `{!InputConfigLaws cfg} : Counts decide_update workers_of.
Proof.
  intros [uuid [c|e|] built|name maps made] st; cbn [decide_update decide_config]; try done.
  - cbv zeta. destruct (if decide _ then _ else _) as [evps|]; [|done]. destruct (needsWorkerRestart _ _) eqn:E; [done|].
    unfold workers_of. cbn. by apply restart_workers.
  - unfold decide_processor. destruct (UpdateProcessorInSlice _ _ _ _ _) as [[evps [|]]|]; done.
Qed.

Lemma start_calm `{!InputConfigLaws cfg} `{MapOrder} name prefix uuid decoded outs built s :
  Start name prefix uuid decoded outs built = Ok s -> calm workers_of s.
Proof.
  intros Hs. unfold Start in Hs. apply bind_ok in Hs as (c & _ & Hs). cbv zeta in Hs. destruct (getOutputs _ _) as [os om].
  destruct built as [evps|]; [|done]. destruct (setDefaultsFor _ _) as [c' [e|]] eqn:E; [done|].
  assert (Hi : forall x y : sys state, Ok (E := input_error) x = Ok y -> x = y) by congruence. apply Hi in Hs. subst s.
  apply calm_start. unfold workers_of. cbn [i_cfg]. apply defaults_workers in E. lia.
Qed.
End input.

#[global] Arguments state : clear implicits.
#[global] Arguments request : clear implicits.

(** ** Lemmas on deliveries *)

Lemma written_app {O} `{EqDecision O} (o : O) l l' : written_events o (l ++ l') = written_events o l ++ written_events o l'.
Proof. apply omap_app. Qed.

Lemma written_to {O} `{EqDecision O} (o o' : O) evs : written_events o (WriteEvent o' <$> evs) = if decide (o' = o) then evs else [].
Proof.
  unfold written_events. induction evs as [|e evs IH]; [by destruct (decide _)|]. cbn. destruct (decide (o' = o)) as [->|]; [|done]. by rewrite IH.
Qed.

(** Each occurrence of an output in the list gets all the events, in order. *)
Lemma written_all {O} `{EqDecision O} (o : O) (outs : list O) evs :
  written_events o (o' ← outs; WriteEvent o' <$> evs) = mjoin ((fun _ => evs) <$> filter (fun o' => o' = o) outs).
Proof.
  induction outs as [|o' outs IH]; [done|]. cbn [mbind list_bind]. change (list_bind O (effect O)) with (@mbind list _ O (effect O)).
  rewrite written_app, written_to, filter_cons. destruct (decide (o' = o)) as [->|]; cbn [fmap list_fmap mjoin list_join]; by rewrite IH.
Qed.

