(* ===== verification/NatsInput.v ===== *)
(** * The NATS input (pkg/inputs/nats_input/nats_input.go)

    The configuration and its defaults, the instance of the common life of
    Inputs.v, what a worker does with the messages it receives, and the loop in
    which the connection is dialled. The subject of a message is read back into
    its meta data: the inverse of what the NATS output does (Nats.v). *)

From stdpp Require Import strings list gmap relations.
From S2P Require Import Prelude GoStrings Utf8 GoVal Text Event Messages Formats OutMsg Nats Inputs.

#[local] Open Scope nat_scope.

Record config := mkConfig {
  c_Name : string; c_Address : string; c_Subject : string; c_Queue : string; c_Username : string; c_Password : string;
  c_ConnectTimeWait : Z; c_TLS : option TLSConfig; c_Format : string; c_Debug : bool; c_NumWorkers : Z; c_BufferSize : Z;
  c_Outputs : list string; c_EventProcessors : list string }.

Definition rename (name : string) (c : config) : config :=
  mkConfig name (c_Address c) (c_Subject c) (c_Queue c) (c_Username c) (c_Password c) (c_ConnectTimeWait c) (c_TLS c) (c_Format c) (c_Debug c)
    (c_NumWorkers c) (c_BufferSize c) (c_Outputs c) (c_EventProcessors c).
Definition with_format (f : string) (c : config) : config :=
  mkConfig (c_Name c) (c_Address c) (c_Subject c) (c_Queue c) (c_Username c) (c_Password c) (c_ConnectTimeWait c) (c_TLS c) f (c_Debug c)
    (c_NumWorkers c) (c_BufferSize c) (c_Outputs c) (c_EventProcessors c).

Definition needsWorkerRestart (old nw : config) : bool :=
  negb (Z.eqb (c_NumWorkers old) (c_NumWorkers nw)) || negb (Z.eqb (c_BufferSize old) (c_BufferSize nw))
  || negb (String.eqb (c_Address old) (c_Address nw)) || negb (String.eqb (c_Subject old) (c_Subject nw))
  || negb (String.eqb (c_Queue old) (c_Queue nw)) || negb (String.eqb (c_Username old) (c_Username nw))
  || negb (String.eqb (c_Password old) (c_Password nw)) || negb (TLS_Equal (c_TLS old) (c_TLS nw))
  || negb (Z.eqb (c_ConnectTimeWait old) (c_ConnectTimeWait nw)).

Section defaults.
Context `{UnicodeCase}.

(** The formats an input takes. *)
Definition format_ok (f : string) : bool := String.eqb (ToLower f) "event" || String.eqb (ToLower f) "proto".

Definition with_defaults (uuid : string) (c : config) : config :=
  let name := or_default ("gnmic-" +:+ uuid) (c_Name c) in
  mkConfig name (or_default "localhost:4222" (c_Address c)) (or_default "telemetry" (c_Subject c)) (or_default name (c_Queue c))
    (c_Username c) (c_Password c) (or_positive 2000000000 (c_ConnectTimeWait c)) (c_TLS c) (ToLower (or_default "event" (c_Format c))) (c_Debug c)
    (or_positive 1 (c_NumWorkers c)) (or_positive 100 (c_BufferSize c)) (c_Outputs c) (c_EventProcessors c).
(** An unsupported format ends the defaults before any other is set. *)
Definition setDefaultsFor (uuid : string) (c : config) : config * option input_error :=
  let f := or_default "event" (c_Format c) in
  if format_ok f then (with_defaults uuid c, None) else (with_format f c, Some errFormat).

#[export] Instance nats_input : InputConfig config := {
  Name := c_Name; NumWorkers := c_NumWorkers; Outputs := c_Outputs; EventProcessors := c_EventProcessors;
  with_name := rename; suffix := "-nats-sub"; Inputs.setDefaultsFor := setDefaultsFor; Inputs.needsWorkerRestart := needsWorkerRestart }.

#[export] Instance nats_input_laws : InputConfigLaws config.
Proof.
  split.
  - intros old nw. cbn. unfold needsWorkerRestart. rewrite !orb_false_iff, !negb_false_iff, Z.eqb_eq. by intros ((((((((-> & _) & _) & _) & _) & _) & _) & _) & _).
  - intros uuid c c'. cbn. unfold setDefaultsFor. destruct (format_ok _); [|done]. intros Hd.
    assert (Hi : forall x y : config, (x, None (A := input_error)) = (y, None) -> x = y) by congruence. apply Hi in Hd. subst c'. cbn.
    unfold or_positive. destruct (Z.leb_spec (c_NumWorkers c) 0); lia.
Qed.
End defaults.

(** ** Messages *)

(** The meta data of a subject of three or more tokens. *)
Definition subject_meta (subject : string) : gomap string :=
  match SplitN subject "." 2 with
  | [_; source; sub] => Some {["source" := replace_byte "-" "." source; "subscription-name" := sub]}
  | _ => Some ∅
  end.

Section messages.
Context (json_events : string -> option (list (option EventMsg))) (proto_Unmarshal : string -> option (msg SubRsp)) {O : Type}.

Definition ingestEventPayload (pipeline : option select) (dc : dynConfig) (outs : list O) (data : string) : go event_error (list (effect O)) :=
  match json_events data with
  | None => Ok []
  | Some evs => r ← deliver_events pipeline dc outs evs; Ok (fst r)
  end.

(** One message: the configuration and the processors are those of the moment.
    A context that ends while events are handed on is seen in the next turn. *)
Definition handle (pipeline : option select) (st : state config O) (subject data : string) : go event_error (list (effect O) * bool) :=
  if String.eqb data "" then Ok ([], true)
  else if String.eqb (c_Format (i_cfg st)) "event" then
    es ← ingestEventPayload pipeline (i_dyn st) (i_outputs st) data; Ok (es, true)
  else if String.eqb (c_Format (i_cfg st)) "proto" then
    match proto_Unmarshal data with
    | None => Ok ([], true)
    | Some m => Ok (deliver_msg pipeline (i_dyn st) (i_outputs st) m (subject_meta subject))
    end
  else Ok ([], true).

(** What a worker's select takes: the end of its context, the end of the
    channel, or a message, with what the select on the pipeline will take. *)
Inductive event := CtxEnd | ChanClosed | Message (st : state config O) (pipeline : option select) (subject data : string).
Inductive outcome := Waiting | Returned (error : bool).

Fixpoint doWork (l : list event) : go event_error (list (effect O) * outcome) :=
  match l with
  | [] => Ok ([], Waiting)
  | CtxEnd :: _ => Ok ([], Returned false)
  | ChanClosed :: _ => Ok ([], Returned true)
  | Message st pipeline subject data :: l =>
      '(es, more) ← handle pipeline st subject data;
      if more : bool then '(es', o) ← doWork l; Ok (es ++ es', o) else Ok (es, Returned false)
  end.

(** The events of a payload, after the processors. *)
Definition received (st : state config O) (data : string) : go event_error (list (option EventMsg)) :=
  if String.eqb data "" then Ok []
  else match json_events data with None => Ok [] | Some evs => applyAll (d_evps (i_dyn st)) evs end.
End messages.

(** ** The connection *)

Record connection (T : Type) := mkConn { n_Name : string; n_ReconnectWait : Z; n_UserInfo : option (string * string); n_TLS : option T; n_Address : string }.

(** [createNATSConn] up to the call of the library, and the name the worker
    gives the client. [NewTLSConfig] (Tls.v) is an argument. *)
Definition createNATSConn {T} (NewTLSConfig : TLSConfig -> option (option T)) (worker : nat) (c : config) : option (connection T) :=
  let conn tls := mkConn _ (c_Name c +:+ ("-" +:+ itoa (Z.of_nat worker))) (c_ConnectTimeWait c)
      (if String.eqb (c_Username c) "" || String.eqb (c_Password c) "" then None else Some (c_Username c, c_Password c)) tls (c_Address c) in
  match c_TLS c with
  | None => Some (conn None)
  | Some t => match NewTLSConfig t with None => None | Some tls => Some (conn tls) end
  end.

(** One turn of the loop of [dial]: whether the worker's context and the root
    context have ended, whether the connection is made, and whether the worker's
    context ends before the wait does. *)
Record attempt := mkAttempt { a_run : bool; a_root : bool; a_connects : bool; a_run_wait : bool }.

(** [None]: still at it after these turns. *)
Fixpoint dial (l : list attempt) : option bool :=
  match l with
  | [] => None
  | a :: l => if a_run a then Some false else if a_connects a then Some true else if a_run_wait a then Some false else dial l
  end.

(** ** Lemmas *)

Lemma cut_token a b : snone "." a = true -> cut_string "." (a +:+ String "." b) = Some (a, b).
Proof.
  induction a as [|c a IH]; [done|]. unfold snone. cbn [sall]. intros [Hc Ha]%andb_true_iff.
  rewrite sapp_cons. cbn [cut_string]. cbn [has_prefix]. apply negb_true_iff in Hc. rewrite Ascii.eqb_sym, Hc. cbn [andb]. by rewrite IH.
Qed.

Lemma replace_byte_app a b s t : replace_byte a b (s +:+ t) = replace_byte a b s +:+ replace_byte a b t.
Proof. induction s as [|c s IH]; cbn; [done|]. by rewrite IH. Qed.

Lemma replace_byte_none a b s : snone a s = true -> replace_byte a b s = s.
Proof.
  unfold snone. induction s as [|c s IH]; [done|]. cbn [sall replace_byte]. intros [Hc Hs]%andb_true_iff.
  apply negb_true_iff in Hc. by rewrite Hc, IH.
Qed.

Section replace.
#[local] Open Scope Z_scope.
Definition sub_rune (a b : ascii) (r : Z) : Z := if r =? byte_z a then byte_z b else r.

Lemma replace_rune a b r : byte_z a <= 127 -> byte_z b <= 127 -> valid_rune r = true -> replace_byte a b (encode_rune r) = encode_rune (sub_rune a b r).
Proof.
  intros Ha Hb Hv. pose proof (byte_z_range a). pose proof (byte_z_range b). unfold sub_rune. destruct (Z.eqb_spec r (byte_z a)) as [->|Hr].
  - rewrite !encode_ascii by lia. cbn. by rewrite eqb_byte_z, byte_z_byte, Z.eqb_refl, z_byte_z by lia.
  - apply replace_byte_none. pose proof (snone_encode a [r] Ha) as Hn. cbn in Hn. rewrite sapp_nil_r, Hv, andb_true_r in Hn.
    rewrite Hn, andb_true_r by done. by apply negb_true_iff, Z.eqb_neq.
Qed.

Lemma replace_encode a b rs : byte_z a <= 127 -> byte_z b <= 127 -> valid_runes rs = true -> replace_byte a b (encode rs) = encode (sub_rune a b <$> rs).
Proof.
  intros Ha Hb. induction rs as [|r rs IH]; cbn; [done|]. intros [Hr Hrs]%andb_true_iff. by rewrite replace_byte_app, replace_rune, IH.
Qed.
End replace.

(** The tokens of a subject the NATS output makes. *)
Lemma subject_meta_tokens p a b : snone "." p = true -> snone "." a = true ->
  subject_meta (p +:+ (String "." (a +:+ String "." b))) = Some {["source" := replace_byte "-" "." a; "subscription-name" := b]}.
Proof. intros Hp Ha. unfold subject_meta, SplitN. cbn [String.eqb andb splitn]. by rewrite (cut_token _ _ Hp), (cut_token _ _ Ha). Qed.

Lemma source_rune_valid rs : valid_runes rs = true -> valid_runes (source_rune <$> rs) = true.
Proof.
  unfold valid_runes. rewrite !forallb_forall. intros Hv r Hr. apply in_map_iff in Hr as (r0 & <- & Hr). apply Hv in Hr.
  unfold source_rune. by destruct (r0 =? 46)%Z, (r0 =? 32)%Z.
Qed.

Lemma undo_source_rune rs : forallb (fun r => negb (r =? 45)%Z) rs = true -> forallb (fun r => negb (r =? 32)%Z) rs = true ->
  sub_rune "-" "." <$> (source_rune <$> rs) = rs.
Proof.
  induction rs as [|r rs IH]; [done|]. cbn. intros [H1 H2]%andb_true_iff [H3 H4]%andb_true_iff. f_equal; [|by apply IH].
  apply negb_true_iff, Z.eqb_neq in H1, H3. unfold sub_rune, source_rune. change (byte_z "-") with 45%Z. change (byte_z ".") with 46%Z.
  destruct (Z.eqb_spec r 46) as [->|]; [done|]. destruct (Z.eqb_spec r 32); [lia|]. by destruct (Z.eqb_spec r 45).
Qed.

Lemma source_token_back rs : valid_runes rs = true -> snone "-" (encode rs) = true -> snone " " (encode rs) = true ->
  replace_byte "-" "." (map_runes source_rune (encode rs)) = encode rs.
Proof.
  intros Hv H1 H2. rewrite snone_encode in H1, H2 by done. unfold map_runes. rewrite runes_of_encode by done.
  rewrite replace_encode; [|done|done|by apply source_rune_valid]. by rewrite undo_source_rune.
Qed.

Lemma subscription_back rs : valid_runes rs = true -> snone " " (encode rs) = true -> map_runes subscription_rune (encode rs) = encode rs.
Proof.
  intros Hv Hs. rewrite snone_encode in Hs by done. unfold map_runes. rewrite runes_of_encode by done. f_equal.
  revert Hs. clear. induction rs as [|r rs IH]; [done|]. cbn. intros [Hr Hs]%andb_true_iff. f_equal; [|by apply IH].
  unfold subscription_rune. apply negb_true_iff in Hr. change (byte_z " ") with 32%Z in Hr. by rewrite Hr.
Qed.

Lemma dial_cancelled l : Exists (fun a => a_run a = true) l -> dial l <> None.
Proof. induction 1 as [a l Ha|a l _ IH]; cbn; [by rewrite Ha|]. by destruct (a_run a), (a_connects a), (a_run_wait a). Qed.

Lemma queue_restart old nw : c_Queue old <> c_Queue nw -> needsWorkerRestart old nw = true.
Proof. intros Hq. unfold needsWorkerRestart. rewrite (proj2 (String.eqb_neq _ _) Hq). cbn. by rewrite !orb_true_r. Qed.

Lemma nats_input_defaults `{UnicodeCase} uuid c : format_ok (or_default "event" (c_Format c)) = true -> setDefaultsFor uuid c = (with_defaults uuid c, None).
Proof. intros Hf. unfold setDefaultsFor. by rewrite Hf. Qed.

Section consume.
Context (json_events : string -> option (list (option EventMsg))) (proto_Unmarshal : string -> option (msg SubRsp)) {O : Type} `{EqDecision O}.

Lemma deliver_written (pipeline : option select) (dc : dynConfig) (outs : list O) evs evs' (o : O) :
  applyAll (d_evps dc) evs = Ok evs' -> pipeline <> Some CtxDone -> NoDup outs -> o ∈ outs ->
  exists es, deliver_events pipeline dc outs evs = Ok (es, true) /\ written_events o es = evs'.
Proof.
  intros Ha Hp Hnd Ho. unfold deliver_events. rewrite Ha. cbn [mbind go_bind].
  assert (Hw : written_events o (o' ← outs; WriteEvent o' <$> evs') = evs').
  { rewrite written_all. apply list_elem_of_split in Ho as (l1 & l2 & ->). apply NoDup_app in Hnd as (_ & H1 & [H2 _]%NoDup_cons).
    rewrite filter_app, filter_cons, decide_True by done. rewrite !filter_none; [cbn; by rewrite app_nil_r| |].
    - apply Forall_forall. intros x Hx ->. done.
    - apply Forall_forall. intros x Hx ->. apply (H1 o Hx). by left. }
  destruct pipeline as [[| |]|]; [| |done|]; (eexists; split; [reflexivity|exact Hw]).
Qed.

(** One message of the event format. *)
Lemma handle_written pipeline (st : state config O) subject data evs (o : O) :
  c_Format (i_cfg st) = "event" -> received json_events st data = Ok evs -> pipeline <> Some CtxDone -> NoDup (i_outputs st) -> o ∈ i_outputs st ->
  exists es, handle json_events proto_Unmarshal pipeline st subject data = Ok (es, true) /\ written_events o es = evs.
Proof.
  intros Hf Hr Hp Hnd Ho. unfold received in Hr. unfold handle. destruct (String.eqb data ""); [injection Hr as <-; by exists []|].
  rewrite Hf. cbn [String.eqb]. change (String.eqb "event" "event") with true. cbv iota. unfold ingestEventPayload.
  destruct (json_events data) as [evs0|]; [|injection Hr as <-; by exists []].
  destruct (deliver_written pipeline (i_dyn st) (i_outputs st) evs0 evs o Hr Hp Hnd Ho) as (es & Hd & Hw). rewrite Hd. by exists es.
Qed.

End consume.

(** * Properties *)

Section properties.
Context `{UnicodeCase} {O : Type}.

(** The input reads back the meta data the NATS output put into the subject,
    when the output's prefix is one token, the source has neither dashes nor
    spaces and the subscription name no spaces; in general a dash in the source
    comes back as a dot. *)
Theorem nats_meta_roundtrip (c : Config) (meta : gomap string) (source sub : list Z)
    (Hp : c_SubjectPrefix c <> "") (Hpd : snone "." (c_SubjectPrefix c) = true)
    (Hsrc : gm_get meta "source" = Some (encode source)) (Hsub : gm_get meta "subscription-name" = Some (encode sub))
    (Hv : valid_runes source = true) (Hv' : valid_runes sub = true)
    (H1 : snone "-" (encode source) = true) (H2 : snone " " (encode source) = true) (H3 : snone " " (encode sub) = true) :
  subject_meta (subjectName c meta) = Some {["source" := encode source; "subscription-name" := encode sub]}.
Proof.
  unfold subjectName. rewrite (proj2 (String.eqb_neq _ _) Hp), Hsrc, Hsub.
  change (c_SubjectPrefix c +:+ _) with (c_SubjectPrefix c +:+ String "." (map_runes source_rune (encode source) +:+ String "." (map_runes subscription_rune (encode sub)))).
  rewrite subject_meta_tokens; [|done|apply source_token]. by rewrite source_token_back, subscription_back.
Qed.

(** Only an unsupported format keeps a negative number of workers from its default. *)
Definition negative_workers (r : request config) : Prop :=
  exists uuid c built, r = ConfigUpdate uuid (Ok c) built /\ format_ok (or_default "event" (c_Format c)) = false /\ (c_NumWorkers c < 0)%Z.

Lemma asks_negative r (st st' : state config O) n : decide_update r st = Restart st' n -> (n < 0)%Z -> negative_workers r.
Proof.
  destruct r as [uuid [c|e|] built|name maps made]; cbn [decide_update decide_config]; try done.
  - cbv zeta. destruct (if decide _ then _ else _) as [evps|]; [|done]. destruct (Inputs.needsWorkerRestart _ _); [|done].
    intros [= _ <-] Hn. exists uuid, c, built. split; [done|]. cbn in Hn. unfold setDefaultsFor in Hn.
    destruct (format_ok (or_default "event" (c_Format c))) eqn:Ef; cbn in Hn; [|done]. unfold or_positive in Hn.
    destruct (Z.leb_spec (c_NumWorkers c) 0); lia.
  - unfold decide_processor. destruct (UpdateProcessorInSlice _ _ _ _ _) as [[evps [|]]|]; done.
Qed.

(** C30: while each update finds the workers of the one before begun and asks for
    no negative number of workers, no wait group goes below zero; between updates
    the workers are as many as the configuration says, all of them live; and
    every update can return. An update asks for a negative number only with an
    unsupported format and a negative num-workers: the default of num-workers is
    not set then. Such an update panics if it restarts the workers. *)
Theorem nats_input_updates (name prefix uuid : string) (decoded : go input_error config) `{MapOrder} (outs : gmap string O)
    (built : option (list processor_fn)) (s0 s : sys (state config O))
    (Hs : Start name prefix uuid decoded outs built = Ok s0) (Hr : reach decide_update (timely decide_update) s0 s) :
  s_panic s = false
  /\ (s_update s = [] -> s_closed s = false -> s_shutdown s = false ->
      Z.of_nat (length (s_workers s)) = c_NumWorkers (i_cfg (s_cfg s)) /\ Forall (fun w => done s (g_ctx w) = false) (s_workers s))
  /\ (exists s', reach decide_update (timely decide_update) s s' /\ s_update s' = [])
  /\ forall r st n, decide_update r (s_cfg s) = Restart st n -> (n < 0)%Z -> negative_workers r /\ s_panic (Update r s) = true.
Proof.
  apply start_calm in Hs. pose proof (calm_reach _ _ _ _ Hs Hr) as Hc. split_and!.
  - apply Hc.
  - intros H1 H2 H3. exact (calm_workers workers_of s Hc H1 H2 H3).
  - exact (update_returns decide_update workers_of s Hc).
  - intros r st n Hd Hn. split; [by eapply asks_negative|]. unfold Update. rewrite Hd. cbn [update]. by rewrite (proj2 (Z.ltb_lt _ _) Hn).
Qed.

(** A worker's goroutine that begins only after the next restarting update
    has swapped the wait group signs off from the new one: that update never
    returns, whatever happens. *)
Theorem nats_late_worker_hangs (name prefix uuid : string) (decoded : go input_error config) `{MapOrder} (outs : gmap string O)
    (built : option (list processor_fn)) (s0 s s2 : sys (state config O)) (i : nat) (r : request config) (st : state config O) (n : Z)
    (Hs : Start name prefix uuid decoded outs built = Ok s0) (Hr : reach decide_update (timely decide_update) s0 s)
    (Hup : s_update s = []) (Hi : s_workers s !! i = Some (mkG (s_cur s) None))
    (Hd : decide_update r (s_cfg s) = Restart st n) (Hn : (0 <= n)%Z)
    (H2 : let s1 := Update r s in
          reach decide_update any_time (with_workers (<[i := mkG (s_cur s) (Some (s_cur s1))]> (s_workers s1)) s1) s2) :
  IWait (s_cur s) ∈ s_update s2.
Proof.
  apply start_calm in Hs. pose proof (calm_reach _ _ _ _ Hs Hr) as Hc. by eapply (late_worker_hangs decide_update workers_of s i r st n s2).
Qed.

(** An input started from a configuration with a name and without a queue
    leaves its queue group on an update with the very same configuration: the
    queue of [Start] is the name with its prefix and suffix, that of [Update]
    the bare name, and the workers restart. *)
Theorem nats_update_leaves_queue (name prefix uuid uuid' : string) (c : config) `{MapOrder} (outs : gmap string O)
    (built built' : option (list processor_fn)) (s : sys (state config O)) (Hname : c_Name c <> "") (Hq : c_Queue c = "")
    (Hs : Start name prefix uuid (Ok c) outs built = Ok s) :
  c_Queue (i_cfg (s_cfg s)) = (if String.eqb prefix "" then "" else prefix +:+ "-") +:+ (c_Name c +:+ "-nats-sub")
  /\ exists st, decide_update (ConfigUpdate uuid' (Ok c) built') (s_cfg s) = Restart st (c_NumWorkers (i_cfg (s_cfg s))) /\ c_Queue (i_cfg st) = c_Name c.
Proof.
  unfold Start in Hs. cbn [mbind go_bind] in Hs. cbv zeta in Hs. cbn [Name with_name suffix nats_input] in Hs.
  rewrite (proj2 (String.eqb_neq _ _) Hname) in Hs. destruct (getOutputs _ _) as [os om]. destruct built as [evps|]; [|done].
  set (full := (if String.eqb prefix "" then "" else prefix +:+ "-") +:+ (c_Name c +:+ "-nats-sub")).
  assert (Hfull : full <> "" /\ full <> c_Name c).
  { assert (String.length full > String.length (c_Name c)) as Hlen.
    { unfold full. rewrite !slength_app. cbn. lia. }
    split; intros Heq; rewrite Heq in Hlen; cbn in Hlen; lia. }
  destruct Hfull as [Hne Hnew]. unfold setName in Hs. cbn [Name with_name suffix nats_input Inputs.setDefaultsFor] in Hs. fold full in Hs.
  assert (Ef : format_ok (or_default "event" (c_Format c)) = true) by (unfold setDefaultsFor in Hs; cbn [c_Format rename] in Hs; by destruct (format_ok _)).
  rewrite nats_input_defaults in Hs by done. assert (Hi : forall x y : sys (state config O), Ok (E := input_error) x = Ok y -> x = y) by congruence.
  apply Hi in Hs. subst s. cbn [start s_cfg i_cfg].
  assert (Hold : forall u, c_Queue (with_defaults u (rename full c)) = full).
  { intros u. cbn. rewrite Hq. cbn. unfold or_default. by rewrite (proj2 (String.eqb_neq _ _) Hne). }
  assert (Hnw : forall u, c_Queue (with_defaults u c) = c_Name c).
  { intros u. cbn. rewrite Hq. cbn. unfold or_default. by rewrite (proj2 (String.eqb_neq _ _) Hname). }
  split; [apply Hold|]. cbn [decide_update decide_config Inputs.setDefaultsFor Inputs.needsWorkerRestart EventProcessors NumWorkers nats_input].
  rewrite nats_input_defaults by done. cbv zeta. cbn [fst i_cfg i_dyn]. rewrite decide_True by done. rewrite queue_restart by by rewrite Hold, Hnw.
  eexists. split; [reflexivity|]. apply Hnw.
Qed.

(** Each output gets the events of each payload, through the processors, in
    order, whether the pipeline takes them or is full; payloads that cannot be
    decoded are skipped and the worker waits for the next. *)
Theorem nats_input_delivers `{EqDecision O} (json_events : string -> option (list (option EventMsg))) (proto_Unmarshal : string -> option (msg SubRsp))
    (st : state config O) (o : O) (l : list (option select * (string * string))) (evss : list (list (option EventMsg)))
    (Hf : c_Format (i_cfg st) = "event") (Hnd : NoDup (i_outputs st)) (Ho : o ∈ i_outputs st) (Hl : Forall (fun x => x.1 <> Some CtxDone) l)
    (Hm : mapE (fun x => received json_events st x.2.2) l = Ok evss) :
  exists es, doWork json_events proto_Unmarshal ((fun x => Message st x.1 x.2.1 x.2.2) <$> l) = Ok (es, Waiting) /\ written_events o es = concat evss.
Proof.
  revert evss Hm. induction Hl as [|[p [subject data]] l Hp Hl IH]; intros evss Hm; [injection Hm as <-; by exists []|].
  cbn [mapE fst snd] in Hm. apply bind_ok in Hm as (evs & He & Hm). apply bind_ok in Hm as (evss' & Hm & Hi).
  assert (evss = evs :: evss') as -> by congruence. destruct (IH _ Hm) as (es' & Hd & Hw).
  destruct (handle_written json_events proto_Unmarshal p st subject data evs o Hf He Hp Hnd Ho) as (es & Hh & Hw1).
  exists (es ++ es'). rewrite fmap_cons. cbn [doWork fst snd]. rewrite Hh. cbn [mbind go_bind]. rewrite Hd. cbn [mbind go_bind].
  split; [done|]. rewrite written_app, Hw1, Hw. done.
Qed.

(** The loop of the dialler ends in any turn that finds the worker's context ended. *)
Theorem nats_dial_cancelled (l : list attempt) (Hc : Exists (fun a => a_run a = true) l) : exists connected, dial l = Some connected.
Proof. apply dial_cancelled in Hc. destruct (dial l) as [b|]; [by exists b|done]. Qed.
End properties.

(** ** Witnesses and examples *)

#[local] Existing Instance case_ascii.
#[local] Existing Instance order_fwd.

Definition ex_out (prefix : string) : Config := Nats.mkConfig "out" "" prefix "" "" "" 0 None "proto" false "" "" "" false 1 0 0 false [].
Definition ex_meta (source : string) : gomap string := Some {["source" := source; "subscription-name" := "if.stats"]}.

Lemma nats_meta_roundtrip_witness : subject_meta (subjectName (ex_out "telemetry") (ex_meta "leaf1.lab:57400")) = ex_meta "leaf1.lab:57400".
Proof.
  pose proof (nats_meta_roundtrip (ex_out "telemetry") (ex_meta "leaf1.lab:57400") (runes_of "leaf1.lab:57400") (runes_of "if.stats")
    ltac:(discriminate) eq_refl eq_refl eq_refl eq_refl eq_refl eq_refl eq_refl eq_refl) as Hx.
  rewrite Hx. by vm_compute.
Defined.

(** A dash in the source comes back as a dot; a prefix of two tokens shifts them. *)
Example nats_meta_not_back :
  subject_meta (subjectName (ex_out "telemetry") (ex_meta "leaf-1.lab")) = ex_meta "leaf.1.lab"
  /\ subject_meta (subjectName (ex_out "telemetry.lab") (ex_meta "leaf1"))
     = Some {["source" := "lab"; "subscription-name" := "leaf1.if.stats"]}.
Proof. by vm_compute. Qed.

Definition ex_config (queue format : string) (workers : Z) : config :=
  mkConfig "in" "nats:4222" "telemetry.>" queue "" "" 0 None format false workers 0 [] [].
Definition started (c : config) : sys (state config string) :=
  match Start "in1" "gnmic" "u" (Ok c) (∅ : gmap string string) (Some []) with Ok s => s | _ => start (mkState c (mkDyn [] None) []) 0 end.
Definition to (workers : Z) : request config := ConfigUpdate "v" (Ok (ex_config "q" "" workers)) None.

Definition ex_begun : sys (state config string) := let s := started (ex_config "q" "" 1) in with_workers [mkG 0 (Some 0)] s.
Definition ex_scaled : sys (state config string) := Update (to 2) ex_begun.
Definition ex_cancelled : sys (state config string) := with_update [IWait 0] (with_cancelled [0] ex_scaled).
Definition ex_drained : sys (state config string) := sign_off 0 (with_workers (delete 0 (s_workers ex_cancelled)) ex_cancelled).
Definition ex_after : sys (state config string) := with_update [] ex_drained.

Definition bad_update : request config := ConfigUpdate "v" (Ok (ex_config "q" "xml" (-1))) None.
Lemma nats_input_updates_witness : length (s_workers ex_after) = 2 /\ Forall (fun w => done ex_after (g_ctx w) = false) (s_workers ex_after)
  /\ s_panic ex_after = false /\ negative_workers bad_update /\ s_panic (Update bad_update ex_after) = true.
Proof.
  destruct (nats_input_updates "in1" "gnmic" "u" (Ok (ex_config "q" "" 1)) (∅ : gmap string string) (Some []) (started (ex_config "q" "" 1)) ex_after) as (H1 & H2 & _ & H4).
  - reflexivity.
  - eapply rtc_l; [apply (step_begin _ _ (started (ex_config "q" "" 1)) 0 0); reflexivity|].
    eapply rtc_l; [apply (step_update _ _ ex_begun (to 2)); [reflexivity|reflexivity|]|].
    { split; [by apply Forall_singleton|]. refine (bool_decide_unpack _ _). vm_compute. exact Logic.I. }
    eapply rtc_l; [apply (step_update_instr _ _ ex_scaled (with_cancelled [0] ex_scaled) [IWait 0]); [reflexivity|]; apply (iexec_cancel ex_scaled 0 [IWait 0])|].
    eapply rtc_l; [apply (step_exit _ _ ex_cancelled 0 0 0); reflexivity|].
    eapply rtc_l; [apply (step_update_instr _ _ ex_drained ex_drained []); [reflexivity|]; apply (iexec_wait ex_drained 0 []); reflexivity|].
    apply rtc_refl.
  - destruct (H2 eq_refl eq_refl eq_refl) as [_ Hl]. split; [reflexivity|]. split; [exact Hl|]. split; [exact H1|].
    apply (H4 bad_update (mkState (fst (setDefaultsFor "v" (ex_config "q" "xml" (-1)))) (mkDyn [] (Some ∅)) []) (-1)%Z); [reflexivity|lia].
Defined.

Lemma nats_late_worker_hangs_witness :
  let s := started (ex_config "q" "" 1) in let s1 := Update (to 2) s in
  IWait 0 ∈ s_update (with_update [IWait 0] (with_cancelled [0] (with_workers (<[0 := mkG 0 (Some 1)]> (s_workers s1)) s1))).
Proof.
  cbv zeta. set (s := started (ex_config "q" "" 1)).
  apply (nats_late_worker_hangs "in1" "gnmic" "u" (Ok (ex_config "q" "" 1)) (∅ : gmap string string) (Some []) s s
    (with_update [IWait 0] (with_cancelled [0] (with_workers (<[0 := mkG 0 (Some 1)]> (s_workers (Update (to 2) s))) (Update (to 2) s))))
    0 (to 2) (mkState (fst (setDefaultsFor "v" (ex_config "q" "" 2))) (mkDyn [] (Some ∅)) []) 2).
  - reflexivity.
  - apply rtc_refl.
  - reflexivity.
  - reflexivity.
  - reflexivity.
  - lia.
  - cbv zeta. eapply rtc_l; [|apply rtc_refl]. apply step_update_instr; [reflexivity|]. apply iexec_cancel.
Defined.

Lemma nats_update_leaves_queue_witness :
  c_Queue (i_cfg (s_cfg (started (ex_config "" "" 1)))) = "gnmic-in-nats-sub"
  /\ c_Queue (i_cfg (s_cfg (Update (ConfigUpdate "v" (Ok (ex_config "" "" 1)) None) (started (ex_config "" "" 1))))) = "in".
Proof.
  destruct (nats_update_leaves_queue "in1" "gnmic" "u" "v" (ex_config "" "" 1) (∅ : gmap string string) (Some []) None (started (ex_config "" "" 1))
    ltac:(discriminate) eq_refl eq_refl) as (H1 & st & H2 & H3).
  rewrite H1. split; [reflexivity|]. unfold Update. rewrite H2. exact H3.
Defined.

(** Payloads that are one letter: one event of that name. *)
Definition ex_json (s : string) : option (list (option EventMsg)) :=
  if String.eqb s "x" then None else Some [Some (mkEvent s 0 None None None)].
Definition ex_state : state config string := mkState (ex_config "q" "event" 1) (mkDyn [] None) ["file"; "prom"].

Lemma nats_input_delivers_witness :
  exists es, doWork ex_json (fun _ => None) [Message ex_state None "s" "a"; Message ex_state (Some Full) "s" "x"; Message ex_state (Some Full) "s" "b"] = Ok (es, Waiting)
  /\ written_events "prom" es = [Some (mkEvent "a" 0 None None None); Some (mkEvent "b" 0 None None None)].
Proof.
  apply (nats_input_delivers ex_json (fun _ => None) ex_state "prom" [(None, ("s", "a")); (Some Full, ("s", "x")); (Some Full, ("s", "b"))]
    [[Some (mkEvent "a" 0 None None None)]; []; [Some (mkEvent "b" 0 None None None)]]).
  - reflexivity.
  - refine (bool_decide_unpack _ _). vm_compute. exact Logic.I.
  - refine (bool_decide_unpack _ _). vm_compute. exact Logic.I.
  - repeat constructor; discriminate.
  - reflexivity.
Defined.

Lemma nats_dial_cancelled_witness : exists connected, dial [mkAttempt false false false false; mkAttempt true false false false] = Some connected.
Proof. apply nats_dial_cancelled. apply Exists_cons. right. apply Exists_cons. by left. Defined.

(** An update does not look at the error of the defaults: with a format that is
    not supported the other defaults are not set, the number of workers is zero,
    and the input keeps none. *)
Example nats_update_bad_format :
  decide_update (ConfigUpdate "v" (Ok (ex_config "q" "json" 0)) None) (s_cfg ex_begun)
  = Restart (mkState (ex_config "q" "json" 0) (mkDyn [] (Some ∅)) []) 0
  /\ Validate (cfg := config) "v" (Ok (ex_config "q" "json" 0)) = Err errFormat.
Proof. by vm_compute. Qed.

(** The worker of an input begins after an update to one worker has swapped the
    wait group; when it ends, [Close] returns though the new worker runs, and the
    end of that one panics. *)
Example negative_wait_group :
  let s := Update (ConfigUpdate "v" (Ok (ex_config "other" "" 1)) None) (started (ex_config "q" "" 1)) in
  let s := with_workers [mkG 0 (Some 1); mkG 1 (Some 1)] s in
  let s := sign_off 1 (with_workers [mkG 1 (Some 1)] (with_cancelled [0] s)) in
  s_counts s !! 1 = Some 0%Z /\ s_panic (sign_off 1 (with_workers [] s)) = true.
Proof. by vm_compute. Qed.
