(* ===== verification/KafkaInput.v ===== *)
(** * The Kafka input (pkg/inputs/kafka_input/kafka_input.go)

    The configuration and its defaults, the instance of the common life of
    Inputs.v, the settings of the client, what a worker does with a record, and
    the consumers a worker has after errors of its consumer group. The key of a
    record is read back into its meta data: the inverse of what the Kafka output
    does (Kafka.v). *)

From stdpp Require Import strings list gmap relations.
From S2P Require Import Prelude GoStrings Utf8 GoVal Text Event Messages Formats OutMsg Kafka Inputs.

#[local] Open Scope nat_scope.

(** The client library's versions and [strings.EqualFold]; a version that
    cannot be parsed still leaves a value. *)
Class KafkaEnv : Type := { parse_version : string -> Z * bool; default_version : Z; equal_fold : string -> string -> bool }.

Record config := mkConfig {
  c_Name : string; c_Address : string; c_Topics : string; c_SASL : option SASL; c_TLS : option TLSConfig; c_GroupID : string;
  c_SessionTimeout : Z; c_HeartbeatInterval : Z; c_RecoveryWaitTime : Z; c_Version : string; c_Format : string; c_Debug : bool;
  c_NumWorkers : Z; c_Outputs : list string; c_EventProcessors : list string; c_kafkaVersion : Z }.

Definition rename (name : string) (c : config) : config :=
  mkConfig name (c_Address c) (c_Topics c) (c_SASL c) (c_TLS c) (c_GroupID c) (c_SessionTimeout c) (c_HeartbeatInterval c) (c_RecoveryWaitTime c)
    (c_Version c) (c_Format c) (c_Debug c) (c_NumWorkers c) (c_Outputs c) (c_EventProcessors c) (c_kafkaVersion c).
Definition with_version_format (v : Z) (f : string) (c : config) : config :=
  mkConfig (c_Name c) (c_Address c) (c_Topics c) (c_SASL c) (c_TLS c) (c_GroupID c) (c_SessionTimeout c) (c_HeartbeatInterval c) (c_RecoveryWaitTime c)
    (c_Version c) f (c_Debug c) (c_NumWorkers c) (c_Outputs c) (c_EventProcessors c) v.
Definition with_sasl (s : option SASL) (c : config) : config :=
  mkConfig (c_Name c) (c_Address c) (c_Topics c) s (c_TLS c) (c_GroupID c) (c_SessionTimeout c) (c_HeartbeatInterval c) (c_RecoveryWaitTime c)
    (c_Version c) (c_Format c) (c_Debug c) (c_NumWorkers c) (c_Outputs c) (c_EventProcessors c) (c_kafkaVersion c).

Section defaults.
Context `{UnicodeCase} `{KafkaEnv}.

Definition saslEq (a b : option SASL) : bool :=
  match a, b with
  | None, None => true
  | Some a, Some b => String.eqb (sa_User a) (sa_User b) && String.eqb (sa_Password a) (sa_Password b)
      && equal_fold (sa_Mechanism a) (sa_Mechanism b) && String.eqb (sa_TokenURL a) (sa_TokenURL b)
  | _, _ => false
  end.
Definition needsWorkerRestart (old nw : config) : bool :=
  negb (Z.eqb (c_NumWorkers old) (c_NumWorkers nw)) || negb (String.eqb (c_Address old) (c_Address nw))
  || negb (String.eqb (c_Topics old) (c_Topics nw)) || negb (String.eqb (c_GroupID old) (c_GroupID nw))
  || negb (Z.eqb (c_SessionTimeout old) (c_SessionTimeout nw)) || negb (Z.eqb (c_HeartbeatInterval old) (c_HeartbeatInterval nw))
  || negb (Z.eqb (c_RecoveryWaitTime old) (c_RecoveryWaitTime nw)) || negb (Z.eqb (c_kafkaVersion old) (c_kafkaVersion nw))
  || negb (TLS_Equal (c_TLS old) (c_TLS nw)) || negb (saslEq (c_SASL old) (c_SASL nw)).

(** The formats an input takes. *)
Definition format_ok (f : string) : bool := String.eqb (ToLower f) "event" || String.eqb (ToLower f) "proto".
Definition version_of (v : string) : Z * bool := if String.eqb v "" then (default_version, true) else parse_version v.

Definition with_defaults (uuid : string) (c : config) : config :=
  mkConfig (str_or ("gnmic-" +:+ uuid) (c_Name c)) (str_or "localhost:9092" (c_Address c)) (str_or "telemetry" (c_Topics c)) (c_SASL c) (c_TLS c)
    (str_or "gnmic-consumers" (c_GroupID c)) (if (c_SessionTimeout c <=? 2000000)%Z then 10000000000%Z else c_SessionTimeout c)
    (if (c_HeartbeatInterval c <=? 1000000)%Z then 3000000000%Z else c_HeartbeatInterval c) (pos_or 2000000000 (c_RecoveryWaitTime c))
    (c_Version c) (ToLower (c_Format c)) (c_Debug c) (pos_or 1 (c_NumWorkers c)) (c_Outputs c) (c_EventProcessors c) (c_kafkaVersion c).

(** The mechanism, and whether a token URL is missing. *)
Definition sasl_defaults (s : SASL) : SASL * bool :=
  let m := ToUpper (sa_Mechanism s) in
  (mkSASL (sa_User s) (sa_Password s) (if String.eqb m "" then "PLAIN" else m) (sa_TokenURL s),
   negb (String.eqb m "OAUTHBEARER" && String.eqb (sa_TokenURL s) "")).

(** A version that cannot be parsed or an unsupported format ends the defaults
    before any other is set. *)
Definition setDefaultsFor (uuid : string) (c : config) : config * option input_error :=
  let '(v, ok) := version_of (c_Version c) in
  let f := str_or "event" (c_Format c) in
  if negb ok then (with_version_format v (c_Format c) c, Some errVersion)
  else if negb (format_ok f) then (with_version_format v f c, Some errFormat)
  else
    let c := with_defaults uuid (with_version_format v f c) in
    match c_SASL c with
    | None => (c, None)
    | Some s => let '(s, ok) := sasl_defaults s in (with_sasl (Some s) c, if ok then None else Some errTokenURL)
    end.

#[export] Instance kafka_input : InputConfig config := {
  Name := c_Name; NumWorkers := c_NumWorkers; Outputs := c_Outputs; EventProcessors := c_EventProcessors;
  with_name := rename; suffix := "-kafka-cons"; Inputs.setDefaultsFor := setDefaultsFor; Inputs.needsWorkerRestart := needsWorkerRestart }.

(** The number of workers and the format the defaults leave, when they succeed. *)
Lemma kafka_defaults_ok uuid c c' : setDefaultsFor uuid c = (c', None) ->
  c_NumWorkers c' = pos_or 1 (c_NumWorkers c) /\ c_Format c' = ToLower (str_or "event" (c_Format c)) /\ format_ok (str_or "event" (c_Format c)) = true
  /\ snd (version_of (c_Version c)) = true /\ c_kafkaVersion c' = fst (version_of (c_Version c)).
Proof.
  assert (Hi : forall (x y : config) (o : option input_error), (x, o) = (y, None) -> x = y /\ o = None) by (intros x y o Hx; split; congruence).
  unfold setDefaultsFor. destruct (version_of _) as [v ok]. destruct ok; [|done]. cbn [negb]. destruct (format_ok _) eqn:Ef; [|done]. cbn [negb].
  cbv zeta. destruct (c_SASL _) as [s|].
  - destruct (sasl_defaults s) as [s' ok]. by intros [<- _]%Hi.
  - by intros [<- _]%Hi.
Qed.

#[export] Instance kafka_input_laws : InputConfigLaws config.
Proof.
  split.
  - intros old nw. cbn. unfold needsWorkerRestart. rewrite !orb_false_iff, !negb_false_iff, Z.eqb_eq.
    by intros (((((((((-> & _) & _) & _) & _) & _) & _) & _) & _) & _).
  - intros uuid c c'. cbn. intros (-> & _)%kafka_defaults_ok. unfold pos_or. destruct (Z.leb_spec (c_NumWorkers c) 0); lia.
Qed.

(** [Start], [Validate], [Update] and [UpdateProcessor] are those of the NATS
    input over this configuration. *)
Section life.
Context `{MapOrder} {O : Type}.
Definition kafka_Start (name prefix uuid : string) (decoded : go input_error config) (outs : gmap string O) (built : option (list processor_fn))
    : go input_error (sys (state config O)) := Start name prefix uuid decoded outs built.
Definition kafka_Validate (uuid : string) (decoded : go input_error config) : go input_error () := Validate uuid decoded.
Definition kafka_Update (uuid : string) (decoded : go input_error config) (built : option (list processor_fn)) (s : sys (state config O)) : sys (state config O) :=
  update (decide_config uuid decoded built (s_cfg s)) s.
Definition kafka_UpdateProcessor (name : string) (maps : bool) (made : option processor_fn) (s : sys (state config O)) : sys (state config O) :=
  update (decide_processor name maps made (s_cfg s)) s.
End life.
End defaults.

(** ** The settings of the client *)

Record settings := mkSettings {
  k_ClientID : string; k_Version : Z; k_SessionTimeout : Z; k_HeartbeatInterval : Z; k_SASL : option sasl_settings; k_TLS : option TLSConfig }.

(** [createConfig] and the client's name for worker [idx]: [wCfg]'s name has the
    number of the worker already. *)
Definition createConfig (tls_ok : TLSConfig -> bool) (idx : nat) (c : config) : option settings :=
  let sasl := (fun s => mkSaslSettings (sa_User s) (sa_Password s) (sa_Mechanism s)
      (if String.eqb (sa_Mechanism s) "SCRAM-SHA-256" then Some SCRAM_SHA256
       else if String.eqb (sa_Mechanism s) "SCRAM-SHA-512" then Some SCRAM_SHA512 else None)
      (if String.eqb (sa_Mechanism s) "OAUTHBEARER" then Some (sa_TokenURL s) else None)) <$> c_SASL c in
  if match c_TLS c with Some t => tls_ok t | None => true end
  then Some (mkSettings (c_Name c +:+ ("-" +:+ itoa (Z.of_nat idx))) (c_kafkaVersion c) (c_SessionTimeout c) (c_HeartbeatInterval c) sasl (c_TLS c))
  else None.

(** ** Records *)

Definition partitionKeyToMeta (key : string) : gomap string :=
  if String.eqb key "" then Some ∅
  else match SplitN key ":::" 1 with
       | [source; sub] => Some {["source" := source; "subscription-name" := sub]}
       | _ => Some ∅
       end.

Section records.
Context (json_events : string -> option (list (option EventMsg))) (json_event : string -> option EventMsg)
  (proto_Unmarshal : string -> option (msg SubRsp)) {O : Type}.

(** An array of events or one event; any other text leaves the slice as it was
    made, with one nil event. *)
Definition decode_events (value : string) : option (list (option EventMsg)) :=
  match value with
  | String "["%char _ => json_events value
  | String "{"%char _ => (fun e => [Some e]) <$> json_event value
  | _ => Some [None]
  end.

Definition handle (pipeline : option select) (st : state config O) (key value : string) : go event_error (list (effect O) * bool) :=
  if String.eqb value "" then Ok ([], true)
  else if String.eqb (c_Format (i_cfg st)) "event" then
    let value := trim_space value in
    if String.eqb value "" then Ok ([], true)
    else match decode_events value with
         | None => Ok ([], true)
         | Some evs => deliver_events pipeline (i_dyn st) (i_outputs st) evs
         end
  else if String.eqb (c_Format (i_cfg st)) "proto" then
    match proto_Unmarshal value with
    | None => Ok ([], true)
    | Some m => Ok (deliver_msg pipeline (i_dyn st) (i_outputs st) m (partitionKeyToMeta key))
    end
  else Ok ([], true).

(** What a worker's select takes: the end of its context, a record, or an error
    of the consumer group and whether the context ends in the wait after it. *)
Inductive event := CtxEnd | Record_ (st : state config O) (pipeline : option select) (key value : string) | GroupError (ctx_ends : bool).
(** [Replaced]: another [doWork] has been started, and this one returned. *)
Inductive outcome := Waiting | Returned | Replaced.

Fixpoint doWork (l : list event) : go event_error (list (effect O) * outcome) :=
  match l with
  | [] => Ok ([], Waiting)
  | CtxEnd :: _ => Ok ([], Returned)
  | GroupError ctx_ends :: _ => Ok ([], if ctx_ends then Returned else Replaced)
  | Record_ st pipeline key value :: l =>
      '(es, more) ← handle pipeline st key value;
      if more : bool then '(es', o) ← doWork l; Ok (es ++ es', o) else Ok (es, Returned)
  end.
End records.

(** ** The consumers of one worker *)

(** Whether the worker itself is in [doWork], and how many other [doWork] of this
    worker run, which nothing waits for. *)
Record consumers := mkConsumers { k_own : bool; k_others : nat }.
Inductive consumer_event :=
| Enter                  (* the worker's loop enters doWork again *)
| OwnReturns             (* its doWork returns with an error of the client or of its context *)
| OwnReplaced            (* its doWork ends after an error of the consumer group *)
| OtherReplaced          (* one of the others does *)
| OtherReturns.          (* one of the others returns: its client cannot be made, or its context ends *)
#[export] Instance consumer_event_eq_dec : EqDecision consumer_event.
Proof. solve_decision. Defined.
Definition consume (k : consumers) (e : consumer_event) : option consumers :=
  match e with
  | Enter => if k_own k then None else Some (mkConsumers true (k_others k))
  | OwnReturns => if k_own k then Some (mkConsumers false (k_others k)) else None
  | OwnReplaced => if k_own k then Some (mkConsumers false (S (k_others k))) else None
  | OtherReplaced => match k_others k with O => None | S _ => Some k end
  | OtherReturns => match k_others k with O => None | S n => Some (mkConsumers (k_own k) n) end
  end.
Fixpoint consume_all (k : consumers) (l : list consumer_event) : option consumers :=
  match l with [] => Some k | e :: l => k ← consume k e; consume_all k l end.
Definition running (k : consumers) : nat := (if k_own k then 1 else 0) + k_others k.

(** ** Lemmas *)

(** Where the separator first occurs, when it does not begin inside [s]. *)
Lemma cut_separator s b : cut_string ":::" (s +:+ "::") = None -> cut_string ":::" (s +:+ (":::" +:+ b)) = Some (s, b).
Proof.
  induction s as [|c s IH]; [done|]. intros Hc.
  change (cut_string ":::" (String c (s +:+ "::")) = None) in Hc. change (cut_string ":::" (String c (s +:+ (":::" +:+ b))) = Some (String c s, b)).
  cbn [cut_string] in Hc |- *.
  assert (Hp : has_prefix ":::" (String c (s +:+ (":::" +:+ b))) = has_prefix ":::" (String c (s +:+ "::"))) by by destruct s as [|d [|e s]].
  rewrite Hp. destruct (has_prefix _ _); [done|]. destruct (cut_string ":::" (s +:+ "::")) as [[x y]|]; [done|]. by rewrite IH.
Qed.

Lemma consume_counts k l k' : consume_all k l = Some k' ->
  (k_others k' + length (filter (fun e => e = OtherReturns) l) = k_others k + length (filter (fun e => e = OwnReplaced) l)).
Proof.
  revert k. induction l as [|e l IH]; intros k; cbn [consume_all]; [by intros [= ->]|].
  destruct (consume k e) as [k1|] eqn:E; [|done]. cbn [mbind option_bind]. intros Hl%IH. rewrite !filter_cons.
  destruct k as [own others], e; cbn in E.
  - destruct own; [done|]. injection E as <-. rewrite !decide_False by done. done.
  - destruct own; [|done]. injection E as <-. rewrite !decide_False by done. done.
  - destruct own; [|done]. injection E as <-. rewrite decide_False, decide_True by done. cbn [length k_others] in *. lia.
  - destruct others; [done|]. injection E as <-. rewrite !decide_False by done. done.
  - destruct others; [done|]. injection E as <-. rewrite decide_True, decide_False by done. cbn [length k_others] in *. lia.
Qed.

Lemma consume_all_app k l l' : consume_all k (l ++ l') = (k1 ← consume_all k l; consume_all k1 l').
Proof. revert k. induction l as [|e l IH]; intros k; cbn; [done|]. destruct (consume k e) as [k1|]; [apply IH|done]. Qed.

(** * Properties *)

Section properties.
Context `{UnicodeCase} `{KafkaEnv} {O : Type}.

(** The input reads back the source and the subscription name that the Kafka
    output put into the key, unless a separator begins inside the source (a
    source that ends in a colon, for one). *)
Theorem kafka_meta_roundtrip (meta : gomap string) (Hs : cut_string ":::" (default "" (gm_get meta "source") +:+ "::") = None) :
  partitionKeyToMeta (partitionKey meta)
  = Some {["source" := default "" (gm_get meta "source"); "subscription-name" := default "" (gm_get meta "subscription-name")]}.
Proof.
  unfold partitionKeyToMeta. destruct (String.eqb_spec (partitionKey meta) "") as [He|_].
  - unfold partitionKey in He. by destruct (default "" (gm_get meta "source")).
  - unfold SplitN. cbn [String.eqb andb splitn]. unfold partitionKey. by rewrite (cut_separator _ _ Hs).
Qed.

(** Each error of the consumer group leaves the worker with one consumer
    more, for the one that is started in its place runs beside the worker's own
    loop; they end only with the context or when their client cannot be made. *)
Theorem kafka_consumers_grow (k k' : consumers) (l : list consumer_event) (Hl : consume_all k l = Some k') :
  k_others k' + length (filter (fun e => e = OtherReturns) l) = k_others k + length (filter (fun e => e = OwnReplaced) l)
  /\ forall n, exists l', consume_all (mkConsumers true 0) l' = Some (mkConsumers true n) /\ length (filter (fun e => e = OwnReplaced) l') = n.
Proof.
  split; [by apply consume_counts|]. induction n as [|n (l' & Hn & Hc)]; [by exists []|].
  exists (l' ++ [OwnReplaced; Enter]). rewrite consume_all_app, Hn, filter_app, length_app, Hc. split; [done|]. by rewrite Nat.add_1_r.
Qed.

(** A record of the event format that is neither an array nor an object is
    not refused: one nil event goes through the processors to the pipeline and
    to every output. *)
Theorem kafka_text_is_nil_event (json_events : string -> option (list (option EventMsg))) (json_event : string -> option EventMsg)
    (proto_Unmarshal : string -> option (msg SubRsp)) (pipeline : option select) (st : state config O) (key value : string) (a : ascii) (v : string)
    (Hf : c_Format (i_cfg st) = "event") (Hv : value <> "") (Ht : trim_space value = String a v) (Ha : a <> "["%char) (Ha' : a <> "{"%char)
    (He : d_evps (i_dyn st) = []) (Hp : pipeline <> Some CtxDone) :
  exists es, handle json_events json_event proto_Unmarshal pipeline st key value = Ok (es, true)
  /\ forall o, o ∈ i_outputs st -> WriteEvent o None ∈ es.
Proof.
  unfold handle. rewrite (proj2 (String.eqb_neq _ _) Hv), Hf. change (String.eqb "event" "event") with true. cbv iota zeta. rewrite Ht. cbn [String.eqb].
  assert (Hd : decode_events json_events json_event (String a v) = Some [None]).
  { unfold decode_events. destruct a as [[] [] [] [] [] [] [] []]; try done. }
  rewrite Hd. unfold deliver_events, applyAll. rewrite He. cbn [foldM mbind go_bind].
  assert (Hw : forall o, o ∈ i_outputs st -> WriteEvent o None ∈ (o' ← i_outputs st; WriteEvent o' <$> [None])).
  { intros o Ho. apply list_elem_of_bind. exists o. split; [by left|done]. }
  destruct pipeline as [[| |]|]; [| |done|]; cbn [deliver]; (eexists; split; [reflexivity|]); intros o Ho; [right|..]; by apply Hw.
Qed.

(** A configuration that passes the defaults has workers, a format the
    worker handles and a version that could be parsed. *)
Theorem kafka_input_defaults (uuid : string) (c c' : config) (Hd : setDefaultsFor uuid c = (c', None)) :
  (0 < c_NumWorkers c')%Z /\ (c_Format c' = "event" \/ c_Format c' = "proto") /\ snd (version_of (c_Version c)) = true
  /\ c_kafkaVersion c' = fst (version_of (c_Version c)).
Proof.
  apply kafka_defaults_ok in Hd as (-> & -> & Hf & Hv & Hk). split_and!; [|..|done|done].
  - unfold pos_or. destruct (Z.leb_spec (c_NumWorkers c) 0); lia.
  - unfold format_ok in Hf. apply orb_true_iff in Hf as [Hf|Hf]; apply String.eqb_eq in Hf; tauto.
Qed.
End properties.

(** ** Witnesses and examples *)

#[local] Existing Instance case_ascii.
#[local] Existing Instance order_fwd.
#[local] Instance ex_env : KafkaEnv := {| parse_version v := if String.eqb v "2.5.0" then (250%Z, true) else (100%Z, false); default_version := 250%Z; equal_fold := String.eqb |}.

Definition ex_meta (source : string) : gomap string := Some {["source" := source; "subscription-name" := "port:::stats"]}.

Lemma kafka_meta_roundtrip_witness : partitionKeyToMeta (partitionKey (ex_meta "[2001:db8::1]:57400")) = ex_meta "[2001:db8::1]:57400".
Proof. rewrite (kafka_meta_roundtrip (ex_meta "[2001:db8::1]:57400") eq_refl). by vm_compute. Defined.

Example kafka_meta_not_back : partitionKeyToMeta (partitionKey (ex_meta "leaf1:")) = Some {["source" := "leaf1"; "subscription-name" := ":port:::stats"]}.
Proof. by vm_compute. Qed.

Lemma kafka_consumers_grow_witness : k_others (mkConsumers true 2) + 0 = k_others (mkConsumers true 0) + 2.
Proof.
  exact (proj1 (kafka_consumers_grow (mkConsumers true 0) (mkConsumers true 2) [OwnReplaced; Enter; OtherReplaced; OwnReplaced; Enter] eq_refl)).
Defined.

Definition ex_config (version : string) (workers : Z) : config :=
  mkConfig "in" "" "" (Some (mkSASL "u" "p" "scram-sha-512" "")) None "" 0 0 0 version "" false workers [] [] 0.
Definition ex_state : state config string := mkState (fst (setDefaultsFor "u" (ex_config "" 1))) (mkDyn [] None) ["file"].

Lemma kafka_text_is_nil_event_witness :
  exists es, handle (O := string) (fun _ => None) (fun _ => None) (fun _ => None) None ex_state "k" " hello" = Ok (es, true)
  /\ forall o, o ∈ i_outputs ex_state -> WriteEvent o None ∈ es.
Proof.
  apply (kafka_text_is_nil_event (fun _ => None) (fun _ => None) (fun _ => None) None ex_state "k" " hello" "h"%char "ello"); reflexivity || discriminate.
Defined.

Lemma kafka_input_defaults_witness : (0 < c_NumWorkers (fst (setDefaultsFor "u" (ex_config "2.5.0" 0))))%Z.
Proof. exact (proj1 (kafka_input_defaults "u" (ex_config "2.5.0" 0) (fst (setDefaultsFor "u" (ex_config "2.5.0" 0))) eq_refl)). Defined.

(** An update does not look at the error of the defaults: with a version that
    cannot be parsed the input keeps no worker, or panics on a negative number. *)
Example kafka_update_bad_version :
  let s0 := match kafka_Start "in1" "" "u" (Ok (ex_config "" 2)) (∅ : gmap string string) (Some []) with Ok s => s | _ => start ex_state 0 end in
  let s w := kafka_Update "v" (Ok (ex_config "2.x" w)) None s0 in
  s_counts (s 0%Z) = [2%Z; 0%Z] /\ length (s_workers (s 0%Z)) = 2 /\ s_panic (s (-1)%Z) = true.
Proof. by vm_compute. Qed.
