(* ===== verification/JetstreamInput.v ===== *)
(** * The JetStream input (pkg/inputs/jetstream_input/jetstream_input.go)

    The configuration and its defaults, the instance of the common life of
    Inputs.v, the consumer it creates, the messages a worker fetches and
    acknowledges, and the loop in which the connection is dialled. The subject
    of a message is read back into its meta data: the inverse of what the
    JetStream output does (Jetstream.v). *)

From stdpp Require Import strings list gmap relations.
From S2P Require Import Prelude GoStrings Utf8 GoVal Text Event Messages Formats OutMsg Nats Jetstream Inputs NatsInput.

#[local] Open Scope nat_scope.

(** ** Policies *)

Definition deliverPolicyAll : string := "all".
Definition deliverPolicyLast : string := "last".
Definition deliverPolicyNew : string := "new".
Definition deliverPolicyLastPerSubject : string := "last-per-subject".
Inductive DeliverPolicy := DeliverAllPolicy | DeliverLastPolicy | DeliverNewPolicy | DeliverLastPerSubjectPolicy.
#[export] Instance DeliverPolicy_eq_dec : EqDecision DeliverPolicy.
Proof. solve_decision. Defined.

(** The zero value, for any other text, is to deliver all. *)
Definition toJSDeliverPolicy (dp : string) : DeliverPolicy :=
  if String.eqb dp deliverPolicyAll then DeliverAllPolicy
  else if String.eqb dp deliverPolicyLast then DeliverLastPolicy
  else if String.eqb dp deliverPolicyNew then DeliverNewPolicy
  else if String.eqb dp deliverPolicyLastPerSubject then DeliverLastPerSubjectPolicy
  else DeliverAllPolicy.

(** ** The configuration *)

Record config := mkConfig {
  c_Name : string; c_Address : string; c_Stream : string; c_Subjects : list string; c_SubjectFormat : string; c_DeliverPolicy : string;
  c_Username : string; c_Password : string; c_ConnectTimeWait : Z; c_TLS : option TLSConfig; c_Format : string; c_Debug : bool;
  c_NumWorkers : Z; c_BufferSize : Z; c_FetchBatchSize : Z; c_MaxAckPending : option Z; c_Outputs : list string; c_EventProcessors : list string }.

Definition rename (name : string) (c : config) : config :=
  mkConfig name (c_Address c) (c_Stream c) (c_Subjects c) (c_SubjectFormat c) (c_DeliverPolicy c) (c_Username c) (c_Password c) (c_ConnectTimeWait c)
    (c_TLS c) (c_Format c) (c_Debug c) (c_NumWorkers c) (c_BufferSize c) (c_FetchBatchSize c) (c_MaxAckPending c) (c_Outputs c) (c_EventProcessors c).
Definition with_format (f : string) (c : config) : config :=
  mkConfig (c_Name c) (c_Address c) (c_Stream c) (c_Subjects c) (c_SubjectFormat c) (c_DeliverPolicy c) (c_Username c) (c_Password c) (c_ConnectTimeWait c)
    (c_TLS c) f (c_Debug c) (c_NumWorkers c) (c_BufferSize c) (c_FetchBatchSize c) (c_MaxAckPending c) (c_Outputs c) (c_EventProcessors c).

Definition maxAckPendingEqual (a b : option Z) : bool :=
  match a, b with None, None => true | Some a, Some b => Z.eqb a b | _, _ => false end.
Definition needsWorkerRestart (old nw : config) : bool :=
  negb (Z.eqb (c_NumWorkers old) (c_NumWorkers nw)) || negb (Z.eqb (c_BufferSize old) (c_BufferSize nw))
  || negb (Z.eqb (c_FetchBatchSize old) (c_FetchBatchSize nw)) || negb (String.eqb (c_Address old) (c_Address nw))
  || negb (String.eqb (c_Stream old) (c_Stream nw)) || negb (bool_decide (c_Subjects old = c_Subjects nw))
  || negb (String.eqb (c_DeliverPolicy old) (c_DeliverPolicy nw)) || negb (String.eqb (c_Username old) (c_Username nw))
  || negb (String.eqb (c_Password old) (c_Password nw)) || negb (TLS_Equal (c_TLS old) (c_TLS nw))
  || negb (Z.eqb (c_ConnectTimeWait old) (c_ConnectTimeWait nw)) || negb (maxAckPendingEqual (c_MaxAckPending old) (c_MaxAckPending nw)).

Section defaults.
Context `{UnicodeCase}.

(** The formats an input takes. *)
Definition format_ok (f : string) : bool := String.eqb (ToLower f) "event" || String.eqb (ToLower f) "proto".

Definition ack_pending (m : option Z) : option Z :=
  match m with Some z => if (z <=? -2)%Z then Some 1000%Z else Some z | None => Some 1000%Z end.
Definition with_defaults (uuid : string) (c : config) : config :=
  mkConfig (or_default ("gnmic-jetstream-consumer" +:+ uuid) (c_Name c)) (or_default "localhost:4222" (c_Address c)) (c_Stream c) (c_Subjects c)
    (or_default subjectFormat_Static (c_SubjectFormat c)) (or_default deliverPolicyAll (c_DeliverPolicy c)) (c_Username c) (c_Password c)
    (or_positive 2000000000 (c_ConnectTimeWait c)) (c_TLS c) (ToLower (or_default "event" (c_Format c))) (c_Debug c) (or_positive 1 (c_NumWorkers c))
    (or_positive 500 (c_BufferSize c)) (or_positive 500 (c_FetchBatchSize c)) (ack_pending (c_MaxAckPending c)) (c_Outputs c) (c_EventProcessors c).
(** An unsupported format ends the defaults before any other is set. *)
Definition setDefaultsFor (uuid : string) (c : config) : config * option input_error :=
  let f := or_default "event" (c_Format c) in
  if format_ok f then (with_defaults uuid c, None) else (with_format f c, Some errFormat).

#[export] Instance jetstream_input : InputConfig config := {
  Name := c_Name; NumWorkers := c_NumWorkers; Outputs := c_Outputs; EventProcessors := c_EventProcessors;
  with_name := rename; suffix := "-jetstream-consumer"; Inputs.setDefaultsFor := setDefaultsFor; Inputs.needsWorkerRestart := needsWorkerRestart }.

Lemma jetstream_input_defaults uuid c c' : setDefaultsFor uuid c = (c', None) -> c' = with_defaults uuid c /\ format_ok (or_default "event" (c_Format c)) = true.
Proof.
  unfold setDefaultsFor. destruct (format_ok _); [|done]. intros Hd. split; [|done].
  assert (Hi : forall x y : config, (x, None (A := input_error)) = (y, None) -> y = x) by congruence. by apply Hi in Hd.
Qed.

#[export] Instance jetstream_input_laws : InputConfigLaws config.
Proof.
  split.
  - intros old nw. cbn. unfold needsWorkerRestart. rewrite !orb_false_iff, !negb_false_iff, Z.eqb_eq.
    by intros (((((((((((-> & _) & _) & _) & _) & _) & _) & _) & _) & _) & _) & _).
  - intros uuid c c'. cbn. intros [-> _]%jetstream_input_defaults. cbn. unfold or_positive. destruct (Z.leb_spec (c_NumWorkers c) 0); lia.
Qed.

(** [Start], [Validate], [Update] and [UpdateProcessor] are those of the NATS
    input over this configuration. *)
Section life.
Context `{MapOrder} {O : Type}.
Definition jetstream_Start (name prefix uuid : string) (decoded : go input_error config) (outs : gmap string O) (built : option (list processor_fn))
    : go input_error (sys (state config O)) := Start name prefix uuid decoded outs built.
Definition jetstream_Validate (uuid : string) (decoded : go input_error config) : go input_error () := Validate uuid decoded.
Definition jetstream_Update (uuid : string) (decoded : go input_error config) (built : option (list processor_fn)) (s : sys (state config O)) : sys (state config O) :=
  update (decide_config uuid decoded built (s_cfg s)) s.
Definition jetstream_UpdateProcessor (name : string) (maps : bool) (made : option processor_fn) (s : sys (state config O)) : sys (state config O) :=
  update (decide_processor name maps made (s_cfg s)) s.
End life.
End defaults.

(** ** The consumer *)

Inductive AckPolicy := AckAllPolicy | AckExplicitPolicy.
Record ConsumerConfig := mkConsumer {
  cc_Name : string; cc_Durable : string; cc_DeliverPolicy : DeliverPolicy; cc_AckPolicy : AckPolicy; cc_MemoryStorage : bool;
  cc_FilterSubjects : list string; cc_MaxAckPending : Z }.

(** What [doWork] asks of the stream, of which [workqueue] tells the retention;
    [MaxAckPending] is dereferenced without a test. *)
Definition consumer_config (workqueue : bool) (workerIdx : nat) (wCfg : config) : go () ConsumerConfig :=
  let dp := toJSDeliverPolicy (c_DeliverPolicy wCfg) in
  let name := if workqueue then c_Name wCfg else c_Name wCfg +:+ ("-" +:+ itoa (Z.of_nat workerIdx)) in
  match c_MaxAckPending wCfg with
  | None => Panic
  | Some z =>
      Ok (mkConsumer name name
        (if workqueue && negb (bool_decide (dp = DeliverAllPolicy)) && negb (bool_decide (dp = DeliverNewPolicy)) then DeliverAllPolicy else dp)
        (if workqueue then AckExplicitPolicy else AckAllPolicy) true (c_Subjects wCfg) z)
  end.

(** ** Messages *)

Definition getMetaFromSubject (subject : string) (subjectFormat : string) : gomap string :=
  match SplitN subject "." 2 with
  | [_; a; b] =>
      if String.eqb subjectFormat subjectFormat_SubTarget then Some {["subscription-name" := a; "source" := b]}
      else if String.eqb subjectFormat subjectFormat_TargetSub then Some {["subscription-name" := b; "source" := a]}
      else Some ∅
  | _ => Some ∅
  end.

Section messages.
Context (json_events : string -> option (list (option EventMsg))) (proto_Unmarshal : string -> option (msg SubRsp)) {O : Type}.

Inductive js_effect := Ack (seq : nat) | Effect (e : effect O).
Record js_msg := mkMsg { m_seq : nat; m_subject : string; m_data : string; m_pipeline : option select }.

(** The message is acknowledged first. [cfg] is the configuration when the batch
    was fetched, the processors are those of the moment. *)
Definition msgHandler (cfg : config) (st : state config O) (m : js_msg) : go event_error (list js_effect) :=
  es ← (if String.eqb (c_Format cfg) "event" then
          match json_events (m_data m) with
          | None => Ok []
          | Some evs => r ← deliver_events (m_pipeline m) (i_dyn st) (i_outputs st) evs; Ok (fst r)
          end
        else if String.eqb (c_Format cfg) "proto" then
          match proto_Unmarshal (m_data m) with
          | None => Ok []
          | Some msg => Ok (fst (deliver_msg (m_pipeline m) (i_dyn st) (i_outputs st) msg (getMetaFromSubject (m_subject m) (c_SubjectFormat cfg))))
          end
        else Ok []);
  Ok (Ack (m_seq m) :: (Effect <$> es)).

(** What one turn of the loop of [doWork] meets: the end of the context, an error
    of the fetch, or a batch with the states its messages are handled in, and
    whether the batch ends in an error. *)
Inductive turn := CtxEnd | FetchError | Batch (cfg : config) (msgs : list (state config O * js_msg)) (error : bool).
Inductive outcome := Fetching | Returned (error : bool).

(** The error of a batch is not the one returned, which is nil here. *)
Fixpoint fetch_loop (l : list turn) : go event_error (list js_effect * outcome) :=
  match l with
  | [] => Ok ([], Fetching)
  | CtxEnd :: _ => Ok ([], Returned false)
  | FetchError :: _ => Ok ([], Returned true)
  | Batch cfg msgs error :: l =>
      es ← mapE (fun x => msgHandler cfg x.1 x.2) msgs;
      if error then Ok (concat es, Returned false)
      else '(es', o) ← fetch_loop l; Ok (concat es ++ es', o)
  end.
End messages.
Arguments Ack {O}. Arguments Effect {O}. Arguments CtxEnd {O}. Arguments FetchError {O}. Arguments Batch {O}.

(** The messages acknowledged. *)
Definition acked {O} (l : list (js_effect (O := O))) : list nat := omap (fun e => match e with Ack n => Some n | Effect _ => None end) l.
(** The messages of the turns up to the one that ends the worker's loop. *)
Fixpoint fetched {O} (l : list (turn (O := O))) : list nat :=
  match l with
  | Batch _ msgs error :: l => ((fun x => m_seq x.2) <$> msgs) ++ (if error then [] else fetched l)
  | _ => []
  end.

(** ** The connection *)

(** The dialler looks at the root context of the input, not at the one [Close]
    and [Update] cancel; [time.Sleep] is not cut short. *)
Fixpoint Dial (l : list attempt) : option bool :=
  match l with
  | [] => None
  | a :: l => if a_root a then Some false else if a_connects a then Some true else Dial l
  end.

(** ** Lemmas *)

Lemma acked_app {O} (l l' : list (js_effect (O := O))) : acked (l ++ l') = acked l ++ acked l'.
Proof. apply omap_app. Qed.
Lemma acked_effects {O} (es : list (effect O)) : acked (Effect <$> es) = [].
Proof. unfold acked. by induction es. Qed.

Lemma msgHandler_acked {O} json_events proto_Unmarshal cfg (st : state config O) m es :
  msgHandler json_events proto_Unmarshal cfg st m = Ok es -> acked es = [m_seq m].
Proof.
  unfold msgHandler. intros He. apply bind_ok in He as (r & _ & He).
  assert (Hi : forall x y : list (js_effect (O := O)), Ok (E := event_error) x = Ok y -> x = y) by congruence. apply Hi in He. subst es.
  change (Ack (m_seq m) :: ?l) with ([Ack (O := O) (m_seq m)] ++ l). by rewrite acked_app, acked_effects.
Qed.

Lemma batch_acked {O} json_events proto_Unmarshal cfg (msgs : list (state config O * js_msg)) ess :
  mapE (fun x => msgHandler json_events proto_Unmarshal cfg x.1 x.2) msgs = Ok ess -> acked (concat ess) = (fun x => m_seq x.2) <$> msgs.
Proof.
  intros Hm. apply mapE_ok in Hm. induction Hm as [|x es msgs ess Hx Hm IH]; [done|]. cbn [concat]. rewrite acked_app, IH.
  by rewrite (msgHandler_acked _ _ _ _ _ _ Hx).
Qed.

Lemma fetch_loop_acked {O} json_events proto_Unmarshal (l : list (turn (O := O))) es o :
  fetch_loop json_events proto_Unmarshal l = Ok (es, o) -> acked es = fetched l.
Proof.
  assert (Hi : forall (x y : list (js_effect (O := O))) (o o' : outcome), Ok (E := event_error) (x, o) = Ok (y, o') -> x = y) by (intros x y o1 o2 Hx; congruence).
  revert es o. induction l as [|[| |cfg msgs error] l IH]; intros es o; cbn [fetch_loop fetched]; try (by intros <-%Hi).
  intros He. apply bind_ok in He as (ess & Hm & He). apply batch_acked in Hm. destruct error.
  - apply Hi in He. subst es. by rewrite Hm, app_nil_r.
  - apply bind_ok in He as ([es' o'] & Hl & He). apply Hi in He. subst es. rewrite acked_app, Hm. f_equal. by eapply IH.
Qed.

Lemma subject_tokens p a b f : snone "." p = true -> snone "." a = true ->
  getMetaFromSubject (p +:+ (String "." (a +:+ String "." b))) f
  = (if String.eqb f subjectFormat_SubTarget then Some {["subscription-name" := a; "source" := b]}
     else if String.eqb f subjectFormat_TargetSub then Some {["subscription-name" := b; "source" := a]} else Some ∅).
Proof. intros Hp Ha. unfold getMetaFromSubject, SplitN. cbn [String.eqb andb splitn]. by rewrite (cut_token _ _ Hp), (cut_token _ _ Ha). Qed.

(** The name after [Start] and after an update with the same name. *)
Lemma started_name `{UnicodeCase} `{MapOrder} {O} name prefix uuid c (outs : gmap string O) built (s : sys (state config O)) :
  Start name prefix uuid (Ok c) outs built = Ok s -> c_Name c <> "" -> String.length (c_Name c) < String.length (c_Name (i_cfg (s_cfg s))).
Proof.
  intros Hs Hne. unfold Start in Hs. cbn [mbind go_bind] in Hs. cbv zeta in Hs. cbn [Name jetstream_input] in Hs.
  rewrite (proj2 (String.eqb_neq _ _) Hne) in Hs. destruct (getOutputs _ _) as [os om]. destruct built as [evps|]; [|done].
  destruct (Inputs.setDefaultsFor _ _) as [c' [e|]] eqn:Ed; [done|]. apply jetstream_input_defaults in Ed as [-> _].
  assert (Hi : forall x y : sys (state config O), Ok (E := input_error) x = Ok y -> x = y) by congruence. apply Hi in Hs. subst s.
  cbn [start s_cfg i_cfg with_defaults c_Name setName with_name rename suffix Name jetstream_input]. unfold or_default.
  destruct (String.eqb_spec ((if String.eqb prefix "" then "" else prefix +:+ "-") +:+ (c_Name c +:+ "-jetstream-consumer")) "") as [E|_].
  - apply (f_equal String.length) in E. rewrite !slength_app in E. cbn in E. lia.
  - rewrite !slength_app. cbn. lia.
Qed.

Lemma defaults_name `{UnicodeCase} uuid c : c_Name c <> "" -> c_Name (fst (setDefaultsFor uuid c)) = c_Name c.
Proof.
  intros Hne. unfold setDefaultsFor. destruct (format_ok _); [|done]. cbn. unfold or_default. by rewrite (proj2 (String.eqb_neq _ _) Hne).
Qed.

Lemma consumer_durable workqueue idx c k : consumer_config workqueue idx c = Ok k ->
  cc_Durable k = if workqueue then c_Name c else c_Name c +:+ ("-" +:+ itoa (Z.of_nat idx)).
Proof. unfold consumer_config. destruct (c_MaxAckPending c); [|done]. by intros [= <-]. Qed.

(** * Properties *)

Section properties.
Context `{UnicodeCase} `{Templates} `{MapOrder} {O : Type}.

(** The input reads back the source and the subscription name of the
    subjects the JetStream output makes, when the stream and the token that
    comes first have no dots; the source is the text of the target template. *)
Theorem jetstream_meta_roundtrip (st : Jetstream.state) (m : option pmsg) (meta : gomap string) (target sub : string) (f : string)
    (Hf : Jetstream.c_SubjectFormat (j_cfg st) = f) (Hff : f = subjectFormat_TargetSub \/ f = subjectFormat_SubTarget)
    (Hs : snone "." (Jetstream.c_Stream (j_cfg st)) = true) (Hsub : gm_get meta "subscription-name" = Some sub)
    (Ht : target_text (d_targetTpl (j_dyn st)) meta = Ok target)
    (Hd : snone "." (if String.eqb f subjectFormat_TargetSub then target else sub) = true) :
  exists s, subjectName st m meta = Ok s /\ getMetaFromSubject s f = Some {["subscription-name" := sub; "source" := target]}.
Proof.
  unfold subjectName. cbv zeta. rewrite Hf, Hsub, Ht. destruct Hff as [-> | ->]; cbn [mbind go_bind String.eqb] in Hd |- *.
  - change (String.eqb subjectFormat_TargetSub subjectFormat_Static) with false. change (String.eqb subjectFormat_TargetSub subjectFormat_TargetSub) with true in *.
    cbv iota in *. eexists. split; [reflexivity|]. rewrite sapp_assoc.
    change ("." +:+ (target +:+ ("." +:+ sub))) with (String "." (target +:+ String "." sub)). by rewrite subject_tokens.
  - change (String.eqb subjectFormat_SubTarget subjectFormat_Static) with false. change (String.eqb subjectFormat_SubTarget subjectFormat_TargetSub) with false in *.
    change (String.eqb subjectFormat_SubTarget subjectFormat_SubTarget) with true. cbv iota in *. eexists. split; [reflexivity|].
    rewrite !sapp_assoc. change ("." +:+ (sub +:+ ("." +:+ target))) with (String "." (sub +:+ String "." target)). by rewrite subject_tokens.
Qed.

(** C31: each message a worker fetches is acknowledged once, in order, whatever
    becomes of it: also when it cannot be decoded, when the pipeline is full and
    when the worker is being stopped. *)
Theorem jetstream_acks_all (json_events : string -> option (list (option EventMsg))) (proto_Unmarshal : string -> option (msg SubRsp))
    (l : list (turn (O := O))) (es : list (js_effect (O := O))) (o : outcome) (He : fetch_loop json_events proto_Unmarshal l = Ok (es, o)) :
  acked es = fetched l.
Proof. by eapply fetch_loop_acked. Qed.

(** While no connection can be made and the root context lives, the dialler
    goes on, though the worker's context has ended in every turn; the loop of
    the NATS input ends in the first. *)
Theorem jetstream_dial_ignores_cancel (l : list attempt) (Hl : Forall (fun a => a_root a = false /\ a_connects a = false /\ a_run a = true) l) (Hne : l <> []) :
  Dial l = None /\ NatsInput.dial l = Some false.
Proof.
  split; [|by destruct Hl as [|a l (_ & _ & Ha) _]; [|cbn; rewrite Ha]]. clear Hne.
  induction Hl as [|a l (Hr & Hc & _) _ IH]; [done|]. cbn. by rewrite Hr, Hc.
Qed.

(** The workers an update restarts use another durable consumer than those
    [Start] made, though the configuration keeps its name: what was delivered
    before is forgotten, and "all" delivers the whole stream again. *)
Theorem jetstream_update_new_consumer (name prefix uuid uuid' : string) (c c' : config) (outs : gmap string O)
    (built built' : option (list processor_fn)) (s : sys (state config O)) (st : state config O) (n : Z) (workqueue : bool) (idx : nat) (k k' : ConsumerConfig)
    (Hs : Start name prefix uuid (Ok c) outs built = Ok s) (Hname : c_Name c <> "") (Hsame : c_Name c' = c_Name c)
    (Hd : decide_update (ConfigUpdate uuid' (Ok c') built') (s_cfg s) = Restart st n)
    (Hk : consumer_config workqueue idx (i_cfg (s_cfg s)) = Ok k) (Hk' : consumer_config workqueue idx (i_cfg st) = Ok k') :
  cc_Durable k <> cc_Durable k'.
Proof.
  apply started_name in Hs as Hlen; [|done].
  assert (Hst : i_cfg st = fst (setDefaultsFor uuid' c')).
  { cbn [decide_update decide_config] in Hd. cbv zeta in Hd. destruct (if decide _ then _ else _) as [evps|]; [|done]. destruct (Inputs.needsWorkerRestart _ _); [|done].
    assert (Hi : forall (x y : state config O) (a b : Z), Restart x a = Restart y b -> x = y) by (intros; congruence). by apply Hi in Hd as <-. }
  apply consumer_durable in Hk as ->. apply consumer_durable in Hk' as ->. rewrite Hst, defaults_name, Hsame by (by rewrite Hsame).
  intros He. apply (f_equal String.length) in He. destruct workqueue; [lia|]. rewrite !slength_app in He. lia.
Qed.

(** With a configuration that passes the defaults the consumer can be asked
    for: nothing nil is dereferenced, its policy is one the retention allows, and
    workers of a stream that is no work queue have consumers of their own. *)
Theorem jetstream_consumers (uuid : string) (c c' : config) (Hd : setDefaultsFor uuid c = (c', None)) (workqueue : bool) (i j : nat) :
  exists k k', consumer_config workqueue i c' = Ok k /\ consumer_config workqueue j c' = Ok k'
  /\ (-1 <= cc_MaxAckPending k)%Z
  /\ (workqueue = true -> cc_Durable k = cc_Durable k' /\ (cc_DeliverPolicy k = DeliverAllPolicy \/ cc_DeliverPolicy k = DeliverNewPolicy))
  /\ (workqueue = false -> i <> j -> cc_Durable k <> cc_Durable k').
Proof.
  apply jetstream_input_defaults in Hd as [-> _].
  assert (Hm : exists z, c_MaxAckPending (with_defaults uuid c) = Some z /\ (-1 <= z)%Z).
  { cbn. unfold ack_pending. destruct (c_MaxAckPending c) as [z|]; [destruct (Z.leb_spec z (-2))|]; (eexists; split; [reflexivity|lia]). }
  destruct Hm as (z & Hz & Hge). unfold consumer_config. rewrite Hz. do 2 eexists. split_and!; [reflexivity|reflexivity|exact Hge|..]; cbn [cc_Durable cc_DeliverPolicy].
  - intros ->. split; [done|]. destruct (toJSDeliverPolicy _); cbn; tauto.
  - intros -> Hne He. apply Hne. apply (inj (append (c_Name (with_defaults uuid c)))) in He. apply (inj (append "-")) in He.
    unfold itoa in He. apply (inj pretty) in He. lia.
Qed.
End properties.

(** ** Witnesses and examples *)

#[local] Existing Instances templates_toy case_ascii order_fwd.

Definition ex_out (stream format : string) : Jetstream.state :=
  let c := Jetstream.mkConfig "js" "" stream "" format None "" "" 0 None "proto" false "" "" "" false 1 0 0 false [] in
  Jetstream.mkState c (Jetstream.mkDyn (Some DefaultTargetTemplate) None [] (marshal_options c)).
Definition ex_meta (source sub : string) : gomap string := Some {["source" := source; "subscription-name" := sub]}.

Lemma jetstream_meta_roundtrip_witness :
  exists s, subjectName (ex_out "TELEMETRY" subjectFormat_SubTarget) None (ex_meta "leaf1.lab:57400" "ports") = Ok s
  /\ getMetaFromSubject s subjectFormat_SubTarget = ex_meta "leaf1.lab" "ports".
Proof.
  destruct (jetstream_meta_roundtrip (ex_out "TELEMETRY" subjectFormat_SubTarget) None (ex_meta "leaf1.lab:57400" "ports") "leaf1.lab" "ports" subjectFormat_SubTarget
    eq_refl (or_intror eq_refl) eq_refl eq_refl eq_refl eq_refl) as (s & H1 & H2).
  exists s. split; [exact H1|]. rewrite H2. by vm_compute.
Defined.

(** A target with dots in a subject that begins with it: its first label is the
    source and the rest joins the subscription. *)
Example jetstream_meta_not_back :
  exists s, subjectName (ex_out "TELEMETRY" subjectFormat_TargetSub) None (ex_meta "10.0.0.1:57400" "ports") = Ok s
  /\ getMetaFromSubject s subjectFormat_TargetSub = ex_meta "10" "0.0.1.ports".
Proof. eexists. split; by vm_compute. Qed.

Definition ex_config (format : string) (workers : Z) (batch : Z) : config :=
  mkConfig "in" "" "TELEMETRY" [] "" "" "" "" 0 None format false workers 0 batch None [] [].
Definition started (c : config) : sys (state config string) :=
  match Start "in1" "gnmic" "u" (Ok c) (∅ : gmap string string) (Some []) with Ok s => s | _ => start (mkState c (mkDyn [] None) []) 0 end.
Definition ex_json (s : string) : option (list (option EventMsg)) :=
  if String.eqb s "x" then None else Some [Some (mkEvent s 0 None None None)].
Definition ex_state : state config string := mkState (fst (setDefaultsFor "u" (ex_config "event" 1 0))) (mkDyn [] None) ["file"].
Definition ex_turns : list (turn (O := string)) :=
  [Batch (i_cfg ex_state) [(ex_state, mkMsg 1 "s" "a" None); (ex_state, mkMsg 2 "s" "x" None)] false;
   Batch (i_cfg ex_state) [(ex_state, mkMsg 3 "s" "c" (Some CtxDone))] true].

Lemma jetstream_acks_all_witness :
  exists es, fetch_loop ex_json (fun _ => None) ex_turns = Ok (es, Returned false) /\ acked es = [1; 2; 3].
Proof.
  destruct (fetch_loop ex_json (fun _ => None) ex_turns) as [[es o]| |] eqn:E; [|vm_compute in E; discriminate..].
  exists es. assert (o = Returned false) as -> by (vm_compute in E; congruence). split; [reflexivity|].
  exact (jetstream_acks_all ex_json (fun _ => None) ex_turns es (Returned false) E).
Defined.

Lemma jetstream_dial_ignores_cancel_witness :
  Dial (replicate 3 (mkAttempt true false false true)) = None /\ NatsInput.dial (replicate 3 (mkAttempt true false false true)) = Some false.
Proof. apply jetstream_dial_ignores_cancel; [by repeat constructor|discriminate]. Defined.

Lemma jetstream_update_new_consumer_witness : "gnmic-in-jetstream-consumer-0" <> "in-0".
Proof.
  destruct (consumer_config false 0 (i_cfg (s_cfg (started (ex_config "" 1 0))))) as [k| |] eqn:Ek; [|vm_compute in Ek; discriminate..].
  set (c' := fst (setDefaultsFor "v" (ex_config "" 1 100))).
  destruct (consumer_config false 0 c') as [k'| |] eqn:Ek'; [|vm_compute in Ek'; discriminate..].
  pose proof (jetstream_update_new_consumer "in1" "gnmic" "u" "v" (ex_config "" 1 0) (ex_config "" 1 100) (∅ : gmap string string) (Some []) None
    (started (ex_config "" 1 0)) (mkState c' (mkDyn [] (Some ∅)) []) 1 false 0 k k' eq_refl ltac:(discriminate) eq_refl eq_refl Ek Ek') as Hne.
  vm_compute in Ek, Ek'. injection Ek as <-. injection Ek' as <-. exact Hne.
Defined.

Lemma jetstream_consumers_witness :
  exists k k', consumer_config false 0 (fst (setDefaultsFor "u" (ex_config "" 2 0))) = Ok k
  /\ consumer_config false 1 (fst (setDefaultsFor "u" (ex_config "" 2 0))) = Ok k' /\ cc_Durable k <> cc_Durable k'.
Proof.
  destruct (jetstream_consumers "u" (ex_config "" 2 0) (fst (setDefaultsFor "u" (ex_config "" 2 0))) eq_refl false 0 1) as (k & k' & H1 & H2 & _ & _ & H3).
  exists k, k'. split; [exact H1|]. split; [exact H2|]. apply H3; [reflexivity|discriminate].
Defined.

(** An update with an unsupported format leaves [MaxAckPending] nil and starts
    the workers the configuration has: they panic. *)
Example jetstream_update_bad_format :
  match decide_update (ConfigUpdate "v" (Ok (ex_config "json" 2 0)) None) (s_cfg (started (ex_config "" 1 0))) with
  | Restart st n => n = 2%Z /\ consumer_config false 0 (i_cfg st) = Panic
  | _ => False
  end.
Proof. by vm_compute. Qed.
