(* ===== verification/ClickhouseRows.v ===== *)
(** * The ClickHouse output: configuration, table and rows
    (pkg/outputs/clickhouse_output: clickhouse_output.go, ddl.go, rows.go)

    Defaults, the statement that creates the table, the shorthand for its
    retention, and the rows of an event. [encoding/json], [%v] of package fmt
    and [time.Now] are arguments. The life of the output is in Clickhouse.v. *)

From Stdlib Require Import Floats.SpecFloat.
From stdpp Require Import strings list gmap.
From S2P Require Import Prelude GoStrings Utf8 GoVal Text Event Tags Messages Processor Formats OutMsg Convert Prom.

#[local] Open Scope nat_scope.

Inductive ch_error := errIdentEmpty (label : string) | errIdent (label name : string) | errForbidden (label : string)
| errDecode | errTargetTemplate | errProcessors | errMetrics.

(** ** Configuration *)

Record config := mkConfig {
  c_Name : string; c_Address : string; c_Database : string; c_Table : string; c_Username : string; c_Password : string;
  c_TLS : option TLSConfig; c_AddTarget : string; c_TargetTemplate : string; c_OverrideTimestamps : bool; c_EventProcessors : list string;
  c_BatchSize : Z; c_FlushTimer : Z; c_MaxInFlight : Z; c_NumWorkers : Z; c_BufferSize : Z; c_Timeout : Z; c_RecoveryWaitTime : Z;
  c_CreateTable : bool; c_TableEngine : string; c_PartitionBy : string; c_TTL : string; c_Debug : bool; c_EnableMetrics : bool }.

Definition str_default (d s : string) : string := if String.eqb s "" then d else s.
Definition pos_default (d z : Z) : Z := if (z <=? 0)%Z then d else z.
Definition blank (s : string) : bool := String.eqb (trim_space s) "".

Definition setDefaults (c : config) : config :=
  mkConfig (c_Name c) (str_default "localhost:9000" (c_Address c)) (str_default "default" (c_Database c)) (str_default "gnmic_telemetry" (c_Table c))
    (str_default "default" (c_Username c)) (c_Password c) (c_TLS c) (c_AddTarget c) (c_TargetTemplate c) (c_OverrideTimestamps c) (c_EventProcessors c)
    (pos_default 1000 (c_BatchSize c)) (pos_default 5000000000 (c_FlushTimer c)) (pos_default 1 (c_MaxInFlight c)) (pos_default 1 (c_NumWorkers c))
    (pos_default 10000 (c_BufferSize c)) (pos_default 5000000000 (c_Timeout c)) (pos_default 10000000000 (c_RecoveryWaitTime c))
    (c_CreateTable c) (str_default "MergeTree" (c_TableEngine c)) (if blank (c_PartitionBy c) then "toYYYYMMDD(timestamp)" else c_PartitionBy c)
    (c_TTL c) (c_Debug c) (c_EnableMetrics c).

Definition with_table (create : bool) (ttl : string) (c : config) : config :=
  mkConfig (c_Name c) (c_Address c) (c_Database c) (c_Table c) (c_Username c) (c_Password c) (c_TLS c) (c_AddTarget c) (c_TargetTemplate c)
    (c_OverrideTimestamps c) (c_EventProcessors c) (c_BatchSize c) (c_FlushTimer c) (c_MaxInFlight c) (c_NumWorkers c) (c_BufferSize c)
    (c_Timeout c) (c_RecoveryWaitTime c) create (c_TableEngine c) (c_PartitionBy c) ttl (c_Debug c) (c_EnableMetrics c).
Definition with_name (name : string) (c : config) : config :=
  mkConfig name (c_Address c) (c_Database c) (c_Table c) (c_Username c) (c_Password c) (c_TLS c) (c_AddTarget c) (c_TargetTemplate c)
    (c_OverrideTimestamps c) (c_EventProcessors c) (c_BatchSize c) (c_FlushTimer c) (c_MaxInFlight c) (c_NumWorkers c) (c_BufferSize c)
    (c_Timeout c) (c_RecoveryWaitTime c) (c_CreateTable c) (c_TableEngine c) (c_PartitionBy c) (c_TTL c) (c_Debug c) (c_EnableMetrics c).

(** [raw] is the configuration before it is decoded: a "ttl" there that is blank
    turns the retention off, and a "create-table" there is taken. *)
Definition has_key (raw : gomap any) (k : string) : bool := match gm_get raw k with Some _ => true | None => false end.
Definition applyTTLDefault (raw : gomap any) (c : config) : config :=
  if has_key raw "ttl" && blank (c_TTL c) then c
  else if blank (c_TTL c) then with_table (c_CreateTable c) "30 DAY" c else c.
Definition applyCreateTableDefault (raw : gomap any) (c : config) : config :=
  if has_key raw "create-table" then c else with_table true (c_TTL c) c.

Definition tlsEqual (a b : option TLSConfig) : bool :=
  match a, b with
  | None, None => true
  | Some a, Some b => String.eqb (CaFile a) (CaFile b) && String.eqb (CertFile a) (CertFile b) && String.eqb (KeyFile a) (KeyFile b)
      && Bool.eqb (SkipVerify a) (SkipVerify b)
  | _, _ => false
  end.
(** What [Update] calls [swapChan] and [restart]. *)
Definition swapChan (old nw : config) : bool := negb (Z.eqb (c_BufferSize old) (c_BufferSize nw)).
Definition restart (old nw : config) : bool :=
  negb (String.eqb (c_Address old) (c_Address nw)) || negb (String.eqb (c_Database old) (c_Database nw))
  || negb (String.eqb (c_Table old) (c_Table nw)) || negb (String.eqb (c_Username old) (c_Username nw))
  || negb (String.eqb (c_Password old) (c_Password nw)) || negb (tlsEqual (c_TLS old) (c_TLS nw))
  || negb (Z.eqb (c_NumWorkers old) (c_NumWorkers nw)) || swapChan old nw
  || negb (Bool.eqb (c_CreateTable old) (c_CreateTable nw)) || negb (String.eqb (c_TableEngine old) (c_TableEngine nw))
  || negb (String.eqb (c_PartitionBy old) (c_PartitionBy nw)) || negb (String.eqb (c_TTL old) (c_TTL nw)).

(** [openConn]: the options of the client; TLS settings that amount to nothing are an error. *)
Record options := mkOptions {
  op_Addr : string; op_DialTimeout : Z; op_MaxOpenConns : Z; op_Database : string; op_Username : string; op_Password : string; op_TLS : bool }.
Definition conn_options {T} (NewTLSConfig : TLSConfig -> option (option T)) (c : config) : option (options * option T) :=
  let opt tls := (mkOptions (c_Address c) (c_Timeout c) (c_MaxInFlight c + 2) (c_Database c) (c_Username c) (c_Password c)
      (match tls with Some _ => true | None => false end), tls) in
  match c_TLS c with
  | None => Some (opt None)
  | Some t => match NewTLSConfig t with Some (Some tls) => Some (opt (Some tls)) | _ => None end
  end.

(** ** The statement that creates the table *)

Definition is_letter (c : ascii) : bool := let z := byte_z c in ((65 <=? z) && (z <=? 90) || (97 <=? z) && (z <=? 122) || (z =? 95))%Z.
(** [identRe] *)
Definition identRe (s : string) : bool :=
  match s with EmptyString => false | String c s => is_letter c && sall (fun c => is_letter c || is_digit c) s end.
Definition validateIdent (label name : string) : go ch_error () :=
  if String.eqb name "" then Err (errIdentEmpty label) else if identRe name then Ok () else Err (errIdent label name).

Definition forbidden (c : ascii) : bool := existsb (Ascii.eqb c) ["`"; ";"; "010"; "013"]%char.
Definition validateSQLExpr (label expr : string) : go ch_error () :=
  if blank expr then Ok () else if sall (fun c => negb (forbidden c)) expr then Ok () else Err (errForbidden label).

Definition str_contains (sub s : string) : bool := match cut_string sub s with Some _ => true | None => false end.

(** One letter of [(?i)]: a rune that folds to the (lower-case) letter [l]; the
    long s and the Kelvin sign fold to s and k. *)
Definition folds (l : ascii) (r : Z) : bool :=
  let z := byte_z l in ((r =? z) || (r =? z - 32) || ((z =? 115) && (r =? 383)) || ((z =? 107) && (r =? 8490)))%Z.
Fixpoint fold_match (word : string) (rs : list Z) : bool :=
  match word, rs with
  | EmptyString, [] => true
  | String l word, r :: rs => folds l r && fold_match word rs
  | _, _ => false
  end.
Definition ttl_units : list string :=
  ["day"; "days"; "week"; "weeks"; "month"; "months"; "year"; "years"; "hour"; "hours"; "minute"; "minutes"; "second"; "seconds"].
Fixpoint span (p : ascii -> bool) (s : string) : string * string :=
  match s with
  | EmptyString => ("", "")
  | String c t => if p c then let '(a, b) := span p t in (String c a, b) else ("", s)
  end.
(** [\s] of the regular expression. *)
Definition re_space (c : ascii) : bool := existsb (Ascii.eqb c) ["009"; "010"; "012"; "013"; " "]%char.
(** The two groups of the shorthand: digits, and the unit after white space. *)
Definition ttl_match (s : string) : option (string * string) :=
  let '(n, rest) := span is_digit s in
  let '(sp, u) := span re_space rest in
  if negb (String.eqb n "") && negb (String.eqb sp "") && existsb (fun w => fold_match w (runes_of u)) ttl_units then Some (n, u) else None.

Section ddl.
Context `{UnicodeCase}.

Definition ttl_unit (u : string) : option string := find (fun w => has_prefix w u) ["DAY"; "WEEK"; "MONTH"; "YEAR"; "HOUR"; "MINUTE"; "SECOND"].
Definition expandTelemetryTTL (ttl : string) : string :=
  let ttl := trim_space ttl in
  if String.eqb ttl "" then ""
  else
    let lower := ToLower ttl in
    if str_contains "timestamp" lower || str_contains "(" ttl || str_contains "+" ttl || str_contains "tointerval" lower then ttl
    else match ttl_match ttl with
         | None => ttl
         | Some (n, u) => match ttl_unit (ToUpper u) with
                          | None => ttl
                          | Some unit => "toDateTime(timestamp) + INTERVAL " +:+ (n +:+ (" " +:+ unit))
                          end
         end.

(** [strings.ReplaceAll(s, "`", "``")] *)
Fixpoint double_backticks (s : string) : string :=
  match s with EmptyString => "" | String c s => if Ascii.eqb c "`" then String c (String c (double_backticks s)) else String c (double_backticks s) end.
Definition quoteIdent (s : string) : string := "`" +:+ (double_backticks s +:+ "`").

Definition table_columns : string := " (
    timestamp     DateTime64(9, 'UTC') CODEC(Delta, ZSTD),
    ingest_ts     DateTime64(9, 'UTC') DEFAULT now64(9) CODEC(Delta, ZSTD),

    target        LowCardinality(String),
    source        LowCardinality(String),
    subscription  LowCardinality(String),
    name          LowCardinality(String),

    path          String CODEC(ZSTD(3)),
    tags          Map(String, String),

    value_type    LowCardinality(String),
    value_int     Nullable(Int64)   CODEC(DoubleDelta, ZSTD),
    value_uint    Nullable(UInt64)  CODEC(DoubleDelta, ZSTD),
    value_float   Nullable(Float64) CODEC(Gorilla, ZSTD),
    value_bool    Nullable(Bool),
    value_string  String CODEC(ZSTD(3)),

    is_delete     Bool DEFAULT false,

    INDEX idx_path     path          TYPE bloom_filter(0.01) GRANULARITY 4,
    INDEX idx_tag_keys mapKeys(tags) TYPE bloom_filter(0.01) GRANULARITY 4
)
ENGINE = ".
Definition newline (s : string) : string := String "010" s.

Definition buildCreateTableSQL (c : config) : go ch_error string :=
  validateIdent "database" (c_Database c) ;;
  validateIdent "table" (c_Table c) ;;
  validateIdent "table-engine" (c_TableEngine c) ;;
  validateSQLExpr "partition-by" (c_PartitionBy c) ;;
  let ttlExpr := expandTelemetryTTL (c_TTL c) in
  validateSQLExpr "ttl" ttlExpr ;;
  Ok ("CREATE TABLE IF NOT EXISTS " +:+ (quoteIdent (c_Database c) +:+ ("." +:+ (quoteIdent (c_Table c) +:+ (table_columns +:+ (c_TableEngine c
      +:+ (newline "PARTITION BY " +:+ (c_PartitionBy c +:+ (newline "ORDER BY (`target`, `path`, `timestamp`)"
      +:+ (if blank ttlExpr then "" else newline "TTL " +:+ trim_space ttlExpr)))))))))).
End ddl.

(** ** Rows *)

Record telemetryRow := mkRow {
  r_timestamp : Z; r_target : string; r_source : string; r_subscription : string; r_name : string; r_path : string; r_tags : gomap string;
  r_valueType : string; r_valueInt : option Z; r_valueUint : option Z; r_valueFloat : option spec_float; r_valueBool : option bool;
  r_valueString : string; r_isDelete : bool }.

(** The columns of the value, as [mapValue] sets them. *)
Record value_columns := mkColumns {
  v_type : string; v_int : option Z; v_uint : option Z; v_float : option spec_float; v_bool : option bool; v_string : string }.
Definition col_int (z : Z) : value_columns := mkColumns "int" (Some z) None None None "".
Definition col_uint (z : Z) : value_columns := mkColumns "uint" None (Some z) None None "".
Definition col_float (f : spec_float) : value_columns := mkColumns "float" None None (Some f) None "".
Definition col_bool (b : bool) : value_columns := mkColumns "bool" None None None (Some b) "".
Definition col_text (t s : string) : value_columns := mkColumns t None None None None s.

Definition copyTags (src : gomap string) : gomap string :=
  match src with Some m => if bool_decide (m = ∅) then None else Some m | None => None end.

(** The value of a Go map at a key, the zero value when it is not there. *)
Definition at_key (m : gomap string) (k : string) : string := default "" (gm_get m k).
Definition first_set (l : list string) : string := default "" (find (fun s => negb (String.eqb s "")) l).
Definition metaString (meta tags : gomap string) (key : string) : string := first_set [at_key meta key; at_key tags key].

(** [resolveTarget] *)
Definition resolveTarget (tags meta : gomap string) : string :=
  if negb (String.eqb (at_key tags "target") "") then at_key tags "target"
  else if negb (String.eqb (at_key meta "subscription-target") "") then at_key meta "subscription-target"
  else if negb (String.eqb (at_key meta "source") "") then GetHost (at_key meta "source")
  else if negb (String.eqb (at_key tags "subscription-target") "") then at_key tags "subscription-target"
  else if negb (String.eqb (at_key tags "source") "") then GetHost (at_key tags "source")
  else "".

Section rows.
Context `{FloatText} `{MapOrder} (json_Marshal : any -> option string) (fmt_v : any -> string) (now : Z).

(** [json.Number], which the code also takes. *)
Definition map_number (s : string) : value_columns :=
  match ParseInt 64 s with
  | Some i => col_int i
  | None => match ParseUint s with
            | Some u => col_uint u
            | None => match ParseFloat s with Some f => col_float f | None => col_text "string" s end
            end
  end.
Definition mapValue (raw : any) : value_columns :=
  match raw with
  | AInt (KInt | KInt8 | KInt16 | KInt32 | KInt64) z => col_int z
  | AInt (KUint | KUint8 | KUint16 | KUint32 | KUint64) z => col_uint z
  | AF32 f => col_float (f64_of_f32 f)
  | AF64 f => col_float f
  | ABool b => col_bool b
  | AStr s => col_text "string" s
  | ABytes b => col_text "bytes" (base64 (default "" b))
  | ADecimal d p => col_float (f64_div (f64_of_Z d) (pow10 p))
  | _ => col_text "json" (match json_Marshal raw with Some b => b | None => fmt_v raw end)
  end.

Definition eventTimestamp (ev : EventMsg) (overrideTS : bool) : Z :=
  if overrideTS || (ev_Timestamp ev =? 0)%Z then now else ev_Timestamp ev.

Definition row_of (ev : EventMsg) (meta : gomap string) (overrideTS : bool) (path : string) (v : value_columns) (isDelete : bool) : telemetryRow :=
  mkRow (eventTimestamp ev overrideTS) (resolveTarget (ev_Tags ev) meta) (metaString meta (ev_Tags ev) "source")
    (metaString meta (ev_Tags ev) "subscription-name") (ev_Name ev) path (copyTags (ev_Tags ev))
    (v_type v) (v_int v) (v_uint v) (v_float v) (v_bool v) (v_string v) isDelete.

Definition eventToRows (ev : option EventMsg) (meta : gomap string) (overrideTS : bool) : list telemetryRow :=
  match ev with
  | None => []
  | Some ev =>
      map (fun path => row_of ev meta overrideTS path (col_text "" "") true) (default [] (ev_Deletes ev))
      ++ map (fun kv => row_of ev meta overrideTS kv.1 (mapValue kv.2) false) (range (gm_tab (ev_Values ev)))
  end.
End rows.

(** ** Lemmas *)


Lemma ParseInt_bounds s z : ParseInt 64 s = Some z -> (-2 ^ 63 <= z < 2 ^ 63)%Z.
Proof.
  unfold ParseInt. destruct (match s with String "+" t => (false, t) | String "-" t => (true, t) | _ => (false, s) end) as [neg body].
  destruct (String.eqb body ""); [done|]. destruct (atoi_digits 0 body) as [n|]; [|done]. cbn [mbind option_bind]. cbv zeta.
  destruct ((_ <=? _)%Z && _) eqn:E; [|done]. apply andb_true_iff in E as [H1 H2]. apply Z.leb_le in H1. apply Z.ltb_lt in H2. intros [= <-].
  change (2 ^ (64 - 1))%Z with (2 ^ 63)%Z in *. lia.
Qed.

Lemma ParseUint_bounds s z : ParseUint s = Some z -> (0 <= z < 2 ^ 64)%Z.
Proof.
  unfold ParseUint. destruct (String.eqb s ""); [done|]. destruct (atoi_digits 0 s) as [n|] eqn:E; [|done]. cbn [mbind option_bind].
  destruct (n <? 2 ^ 64)%Z eqn:En; [|done]. apply Z.ltb_lt in En. intros [= <-]. split; [|done].
  enough (forall s acc n, (0 <= acc)%Z -> atoi_digits acc s = Some n -> (0 <= n)%Z) as Hg by by eapply (Hg s 0%Z).
  clear. induction s as [|c s IH]; intros acc n Ha; cbn [atoi_digits]; [by intros [= <-]|].
  unfold digit_val. destruct ((0 <=? byte_z c - 48)%Z && _) eqn:Ed; [|done]. cbn [mbind option_bind]. apply andb_true_iff in Ed as [Hd _].
  apply Z.leb_le in Hd. intros Hn. eapply IH; [|exact Hn]. lia.
Qed.

(** The columns of a value: one typed column, or the text. *)
Definition columns_ok (v : value_columns) : Prop :=
  (exists z, v = col_int z /\ (-2 ^ 63 <= z < 2 ^ 63)%Z) \/ (exists z, v = col_uint z /\ (0 <= z < 2 ^ 64)%Z)
  \/ (exists f, v = col_float f) \/ (exists b, v = col_bool b) \/ exists t s, v = col_text t s /\ t ∈ ["string"; "bytes"; "json"].
Definition any_in_kind (v : any) : bool := match v with AInt k z => in_kind k z | _ => true end.

Lemma in_kind_bounds k z : in_kind k z = true ->
  match k with KInt | KInt8 | KInt16 | KInt32 | KInt64 => (-2 ^ 63 <= z < 2 ^ 63)%Z | _ => (0 <= z < 2 ^ 64)%Z end.
Proof. unfold in_kind. rewrite andb_true_iff, !Z.leb_le. destruct k; cbv [kind_min kind_max kind_bits kind_signed]; lia. Qed.

(** ** How the server reads a statement *)

(** Where a reader of the statement is, character by character, as the syntax of
    ClickHouse has it: in code (after a slash or a dash, which may open a comment),
    in a name in backticks, in a literal in single or double quotes (after a
    backslash), in a comment to the end of the line or between slashes and stars,
    past a semicolon, or, after a dollar sign that may open a heredoc, anywhere. *)
Inductive reading := Code | Slash | Dash | Name (n : string) | Single | SingleEsc | Double | DoubleEsc | Line | Block | Star | Past | Anywhere.

(** In code, or where code goes on. *)
Definition read_code (c : ascii) : reading :=
  (if Ascii.eqb c "/" then Slash else if Ascii.eqb c "-" then Dash else if Ascii.eqb c "`" then Name ""
   else if Ascii.eqb c "'" then Single else if Ascii.eqb c "034" then Double else if Ascii.eqb c "#" then Line
   else if Ascii.eqb c ";" then Past else if Ascii.eqb c "$" then Anywhere else Code)%char.
(** The next state, and the name that ends here. *)
Definition read1 (m : reading) (c : ascii) : reading * option string :=
  (match m with
   | Code => (read_code c, None)
   | Slash => if Ascii.eqb c "*" then (Block, None) else (read_code c, None)
   | Dash => if Ascii.eqb c "-" then (Line, None) else (read_code c, None)
   | Name n => if Ascii.eqb c "`" then (Code, Some n) else (Name (n +:+ String c ""), None)
   | Single => (if Ascii.eqb c "'" then Code else if Ascii.eqb c "\" then SingleEsc else Single, None)
   | SingleEsc => (Single, None)
   | Double => (if Ascii.eqb c "034" then Code else if Ascii.eqb c "\" then DoubleEsc else Double, None)
   | DoubleEsc => (Double, None)
   | Line => (if Ascii.eqb c "010" then Code else Line, None)
   | Block => (if Ascii.eqb c "*" then Star else Block, None)
   | Star => (if Ascii.eqb c "/" then Code else if Ascii.eqb c "*" then Star else Block, None)
   | Past | Anywhere => (m, None)
   end)%char.
Fixpoint read (m : reading) (s : string) : reading * list string :=
  match s with
  | EmptyString => (m, [])
  | String c s => let '(m, n) := read1 m c in let '(m, ns) := read m s in (m, match n with Some n => n :: ns | None => ns end)
  end.









(** * Properties *)

Section properties.
Context `{UnicodeCase} `{FloatText} `{MapOrder} (json_Marshal : any -> option string) (fmt_v : any -> string) (now : Z).

(** ** What the columns of a row should be *)

(** The value of a key that is set, and a key that is not. *)
Definition is_set (m : gomap string) (k v : string) : Prop := gm_get m k = Some v /\ v <> "".
Definition unset (m : gomap string) (k : string) : Prop := gm_get m k = None \/ gm_get m k = Some "".

Inductive row_target (tags meta : gomap string) : string -> Prop :=
| rt_tag t : is_set tags "target" t -> row_target tags meta t
| rt_meta t : unset tags "target" -> is_set meta "subscription-target" t -> row_target tags meta t
| rt_meta_source s : unset tags "target" -> unset meta "subscription-target" -> is_set meta "source" s -> row_target tags meta (GetHost s)
| rt_tag_subscription t : unset tags "target" -> unset meta "subscription-target" -> unset meta "source" ->
    is_set tags "subscription-target" t -> row_target tags meta t
| rt_tag_source s : unset tags "target" -> unset meta "subscription-target" -> unset meta "source" -> unset tags "subscription-target" ->
    is_set tags "source" s -> row_target tags meta (GetHost s)
| rt_none : unset tags "target" -> unset meta "subscription-target" -> unset meta "source" -> unset tags "subscription-target" ->
    unset tags "source" -> row_target tags meta "".

Inductive row_meta (tags meta : gomap string) (k : string) : string -> Prop :=
| rm_meta v : is_set meta k v -> row_meta tags meta k v
| rm_tag v : unset meta k -> is_set tags k v -> row_meta tags meta k v
| rm_none : unset meta k -> unset tags k -> row_meta tags meta k "".

Inductive row_time (ev : EventMsg) : bool -> Z -> Prop :=
| rtm_override : row_time ev true now
| rtm_none : ev_Timestamp ev = 0%Z -> row_time ev false now
| rtm_event : ev_Timestamp ev <> 0%Z -> row_time ev false (ev_Timestamp ev).

(** The columns of a value, all others being empty. *)
Definition signed_kind (k : int_kind) : bool := match k with KInt | KInt8 | KInt16 | KInt32 | KInt64 => true | _ => false end.
Definition unsigned_kind (k : int_kind) : bool := match k with KUint | KUint8 | KUint16 | KUint32 | KUint64 => true | _ => false end.
Definition as_json (v : any) : Prop :=
  match v with ABool _ | AStr _ | AF64 _ | AF32 _ | ABytes _ | ADecimal _ _ => False | AInt k _ => k = KUintptr | _ => True end.
Inductive value_in (v : any) : string -> option Z -> option Z -> option spec_float -> option bool -> string -> Prop :=
| vi_int k z : v = AInt k z -> signed_kind k = true -> value_in v "int" (Some z) None None None ""
| vi_uint k z : v = AInt k z -> unsigned_kind k = true -> value_in v "uint" None (Some z) None None ""
| vi_float f : v = AF64 f -> value_in v "float" None None (Some f) None ""
| vi_float32 f : v = AF32 f -> value_in v "float" None None (Some (f64_of_f32 f)) None ""
| vi_decimal d p : v = ADecimal d p -> value_in v "float" None None (Some (f64_div (f64_of_Z d) (pow10 p))) None ""
| vi_bool b : v = ABool b -> value_in v "bool" None None None (Some b) ""
| vi_string s : v = AStr s -> value_in v "string" None None None None s
| vi_bytes b : v = ABytes b -> value_in v "bytes" None None None None (base64 (default "" b))
| vi_json t : as_json v -> json_Marshal v = Some t -> value_in v "json" None None None None t
| vi_text : as_json v -> json_Marshal v = None -> value_in v "json" None None None None (fmt_v v).

Record row_fields (ev : EventMsg) (meta : gomap string) (override : bool) (path : string) (r : telemetryRow) : Prop := {
  rf_time : row_time ev override (r_timestamp r);
  rf_target : row_target (ev_Tags ev) meta (r_target r);
  rf_source : row_meta (ev_Tags ev) meta "source" (r_source r);
  rf_subscription : row_meta (ev_Tags ev) meta "subscription-name" (r_subscription r);
  rf_name : r_name r = ev_Name ev;
  rf_path : r_path r = path;
  rf_tags : gm_tab (r_tags r) = gm_tab (ev_Tags ev)
}.
Definition delete_row (r : telemetryRow) : Prop :=
  r_isDelete r = true /\ r_valueType r = "" /\ r_valueInt r = None /\ r_valueUint r = None /\ r_valueFloat r = None /\ r_valueBool r = None
  /\ r_valueString r = "".
Definition value_row (v : any) (r : telemetryRow) : Prop :=
  value_in v (r_valueType r) (r_valueInt r) (r_valueUint r) (r_valueFloat r) (r_valueBool r) (r_valueString r) /\ r_isDelete r = false.

Lemma key_cases m k : (at_key m k = "" /\ unset m k) \/ (at_key m k <> "" /\ is_set m k (at_key m k)).
Proof.
  unfold at_key, unset, is_set. destruct (gm_get m k) as [v|]; cbn; [|by left; split; [|left]].
  destruct (String.eqb_spec v "") as [->|Hv]; [by left; split; [|right]|by right].
Qed.

Lemma resolveTarget_spec tags meta : row_target tags meta (resolveTarget tags meta).
Proof.
  unfold resolveTarget.
  destruct (key_cases tags "target") as [[Eq1 K1]|[Eq1 K1]]; [rewrite Eq1; cbn [String.eqb negb]|rewrite (proj2 (String.eqb_neq _ _) Eq1); by apply rt_tag].
  destruct (key_cases meta "subscription-target") as [[Eq2 K2]|[Eq2 K2]]; [rewrite Eq2; cbn [String.eqb negb]|rewrite (proj2 (String.eqb_neq _ _) Eq2); by apply rt_meta].
  destruct (key_cases meta "source") as [[Eq3 K3]|[Eq3 K3]]; [rewrite Eq3; cbn [String.eqb negb]|rewrite (proj2 (String.eqb_neq _ _) Eq3); by apply rt_meta_source].
  destruct (key_cases tags "subscription-target") as [[Eq4 K4]|[Eq4 K4]];
    [rewrite Eq4; cbn [String.eqb negb]|rewrite (proj2 (String.eqb_neq _ _) Eq4); by apply rt_tag_subscription].
  destruct (key_cases tags "source") as [[Eq5 K5]|[Eq5 K5]]; [rewrite Eq5; cbn [String.eqb negb]|rewrite (proj2 (String.eqb_neq _ _) Eq5); by apply rt_tag_source].
  by apply rt_none.
Qed.

Lemma metaString_spec meta tags k : row_meta tags meta k (metaString meta tags k).
Proof.
  unfold metaString, first_set. cbn [find].
  destruct (key_cases meta k) as [[Eq1 K1]|[Eq1 K1]]; [rewrite Eq1; cbn [String.eqb negb]|rewrite (proj2 (String.eqb_neq _ _) Eq1); by apply rm_meta].
  destruct (key_cases tags k) as [[Eq2 K2]|[Eq2 K2]]; [rewrite Eq2; cbn; by apply rm_none|rewrite (proj2 (String.eqb_neq _ _) Eq2); by apply rm_tag].
Qed.

Lemma eventTimestamp_spec ev override : row_time ev override (eventTimestamp now ev override).
Proof.
  unfold eventTimestamp. destruct override; [constructor|]. cbn. destruct (Z.eqb_spec (ev_Timestamp ev) 0); by constructor.
Qed.

Lemma mapValue_spec v : let c := mapValue json_Marshal fmt_v v in value_in v (v_type c) (v_int c) (v_uint c) (v_float c) (v_bool c) (v_string c).
Proof.
  assert (as_json v -> value_in v "json" None None None None (match json_Marshal v with Some b => b | None => fmt_v v end)) as Hj.
  { intros Ha. destruct (json_Marshal v) eqn:E; [by apply vi_json|by apply vi_text]. }
  destruct v as [|b|x|k z|f|f|b|l|l|m|m|d p|t]; cbn; try (by apply Hj); try (by econstructor).
  destruct k; try (by eapply vi_int); try (by eapply vi_uint); by apply Hj.
Qed.

Lemma row_of_fields ev meta override path v d : row_fields ev meta override path (row_of now ev meta override path v d).
Proof.
  split; cbn [row_of r_timestamp r_target r_source r_subscription r_name r_path r_tags]; try done.
  - apply eventTimestamp_spec.
  - apply resolveTarget_spec.
  - apply metaString_spec.
  - apply metaString_spec.
  - unfold copyTags. destruct (ev_Tags ev) as [m|]; [|done]. by case_bool_decide as Hm; [subst|].
Qed.

(** What the configuration may hold: names of letters, digits and
    underscores, and expressions without backticks, semicolons and line ends. *)
Definition clean_expr (e : string) : bool := blank e || sall (fun c => negb (forbidden c)) e.
Definition accepted (c : config) : bool :=
  identRe (c_Database c) && identRe (c_Table c) && identRe (c_TableEngine c) && clean_expr (c_PartitionBy c) && clean_expr (expandTelemetryTTL (c_TTL c)).

(** The statement, written out. *)
Definition create_table_text (c : config) : string :=
  "CREATE TABLE IF NOT EXISTS `" +:+ (c_Database c +:+ ("`.`" +:+ (c_Table c +:+ ("`" +:+ (table_columns +:+ (c_TableEngine c
    +:+ (newline "PARTITION BY " +:+ (c_PartitionBy c +:+ (newline "ORDER BY (`target`, `path`, `timestamp`)"
    +:+ (if blank (expandTelemetryTTL (c_TTL c)) then "" else newline "TTL " +:+ trim_space (expandTelemetryTTL (c_TTL c)))))))))))).






(** An update that keeps the workers leaves the table, the address, the
    credentials, the number of workers and the buffer as they were. *)
Theorem clickhouse_restart_complete (old nw : config) (Hr : restart old nw = false) :
  buildCreateTableSQL old = buildCreateTableSQL nw /\ c_CreateTable old = c_CreateTable nw /\ c_Address old = c_Address nw
  /\ c_Username old = c_Username nw /\ c_Password old = c_Password nw /\ tlsEqual (c_TLS old) (c_TLS nw) = true
  /\ c_NumWorkers old = c_NumWorkers nw /\ c_BufferSize old = c_BufferSize nw.
Proof.
  unfold restart, swapChan in Hr. rewrite !orb_false_iff, !negb_false_iff, !String.eqb_eq, !Z.eqb_eq, !Bool.eqb_true_iff in Hr.
  destruct Hr as (((((((((((Ha & Hd) & Ht) & Hu) & Hp) & Htls) & Hn) & Hb) & Hc) & He) & Hpb) & Httl).
  split_and!; try done. unfold buildCreateTableSQL. by rewrite Hd, Ht, He, Hpb, Httl.
Qed.

(** The defaults leave sizes and times that are positive, names that are not
    empty and a partition that is not blank; applied again they change nothing. *)
Theorem clickhouse_defaults (c : config) :
  let d := setDefaults c in
  setDefaults d = d /\ (0 < c_BatchSize d)%Z /\ (0 < c_FlushTimer d)%Z /\ (0 < c_NumWorkers d)%Z /\ (0 < c_BufferSize d)%Z /\ (0 < c_MaxInFlight d)%Z
  /\ (0 < c_Timeout d)%Z /\ (0 < c_RecoveryWaitTime d)%Z /\ c_Database d <> "" /\ c_Table d <> "" /\ c_TableEngine d <> "" /\ blank (c_PartitionBy d) = false.
Proof.
  assert (Hpos : forall d z, (0 < d)%Z -> (0 < pos_default d z)%Z).
  { intros d z Hd. unfold pos_default. destruct (Z.leb_spec z 0); lia. }
  assert (Hpos2 : forall d z, (0 < d)%Z -> pos_default d (pos_default d z) = pos_default d z).
  { intros d z Hd. unfold pos_default at 1. by rewrite (proj2 (Z.leb_gt _ _)) by (by apply Hpos). }
  assert (Hstr : forall d s, d <> "" -> str_default d s <> "").
  { intros d s Hd. unfold str_default. by destruct (String.eqb_spec s ""). }
  assert (Hstr2 : forall d s, d <> "" -> str_default d (str_default d s) = str_default d s).
  { intros d s Hd. unfold str_default at 1. by rewrite (proj2 (String.eqb_neq _ _)) by (by apply Hstr). }
  assert (Hblank : blank "toYYYYMMDD(timestamp)" = false) by by vm_compute.
  cbv zeta. split; [|split_and!; cbn; try (by apply Hpos); try (by apply Hstr); destruct (blank (c_PartitionBy c)) eqn:E; done].
  unfold setDefaults. cbn [c_Name c_Address c_Database c_Table c_Username c_Password c_TLS c_AddTarget c_TargetTemplate c_OverrideTimestamps c_EventProcessors
    c_BatchSize c_FlushTimer c_MaxInFlight c_NumWorkers c_BufferSize c_Timeout c_RecoveryWaitTime c_CreateTable c_TableEngine c_PartitionBy c_TTL c_Debug c_EnableMetrics].
  rewrite !Hpos2 by lia. rewrite !Hstr2 by done. f_equal. by destruct (blank (c_PartitionBy c)) eqn:E; rewrite ?Hblank, ?E.
Qed.

(** C35: the rows of an event: first one per delete, in their order, then one
    per value, in some order, and no others. Each has the path of its delete or
    value, the name and the tags of the event, the time of the event, or the
    current time when the configuration overrides timestamps or the event has
    none; its target is the first that is set of the tag "target", the meta data
    "subscription-target", the host of the meta data "source", and the tags
    "subscription-target" and "source" (its host); its source and its
    subscription come from the meta data or else from the tags. A delete has no
    value; a value is in the column of its type, exactly as it is. *)
Theorem clickhouse_rows (ev : EventMsg) (meta : gomap string) (override : bool) :
  exists deletes values kvs, eventToRows json_Marshal fmt_v now (Some ev) meta override = deletes ++ values
  /\ Forall2 (fun path r => row_fields ev meta override path r /\ delete_row r) (default [] (ev_Deletes ev)) deletes
  /\ kvs ≡ₚ map_to_list (gm_tab (ev_Values ev))
  /\ Forall2 (fun kv r => row_fields ev meta override kv.1 r /\ value_row kv.2 r) kvs values.
Proof.
  cbn [eventToRows]. eexists _, _, (range (gm_tab (ev_Values ev))). split; [reflexivity|]. split_and!.
  - apply Forall2_fmap_r, Forall_Forall2_diag, Forall_forall. intros path _. split; [apply row_of_fields|done].
  - apply range_perm.
  - apply Forall2_fmap_r, Forall_Forall2_diag, Forall_forall. intros kv _. split; [apply row_of_fields|].
    split; [apply mapValue_spec|done].
Qed.

(** Of the typed columns at most one is set, the one the type names, with a
    number the column holds; other values are text. *)
Theorem clickhouse_columns (v : any) (s : string) (Hv : any_in_kind v = true) :
  columns_ok (mapValue json_Marshal fmt_v v) /\ columns_ok (map_number s).
Proof.
  assert (Htext : forall t x, t ∈ ["string"; "bytes"; "json"] -> columns_ok (col_text t x)) by (intros t x Ht; unfold columns_ok; eauto 10).
  assert (Hfloat : forall f, columns_ok (col_float f)) by (intros f; unfold columns_ok; eauto 10).
  split.
  - destruct v as [|b|x|k z|f|f|b|l|l|m|m|d p|t]; cbn [mapValue]; try (apply Htext; set_solver); try apply Hfloat.
    + unfold columns_ok. eauto 10.
    + cbn in Hv. pose proof (in_kind_bounds k z Hv) as Hb. destruct k; unfold columns_ok; eauto 10; apply Htext; set_solver.
  - unfold map_number. destruct (ParseInt 64 s) as [i|] eqn:Ei; [apply ParseInt_bounds in Ei; unfold columns_ok; eauto 10|].
    destruct (ParseUint s) as [u|] eqn:Eu; [apply ParseUint_bounds in Eu; unfold columns_ok; eauto 10|].
    destruct (ParseFloat s); [apply Hfloat|apply Htext; set_solver].
Qed.
End properties.

(** ** Witnesses and examples *)

#[local] Existing Instances case_ascii float_text_none order_fwd.

Definition ex_config (table engine ttl : string) (workers flush : Z) : config :=
  setDefaults (mkConfig "ch" "" "" table "" "" None "" "" false [] 0 flush 0 workers 0 0 0 true engine "" ttl false false).


(** The last condition is needed: a partition that opens a comment is accepted,
    and the server no longer reads the order. *)
Definition commented : config :=
  let c := ex_config "t" "" "" 0 0 in
  mkConfig (c_Name c) (c_Address c) (c_Database c) (c_Table c) (c_Username c) (c_Password c) (c_TLS c) (c_AddTarget c) (c_TargetTemplate c)
    (c_OverrideTimestamps c) (c_EventProcessors c) (c_BatchSize c) (c_FlushTimer c) (c_MaxInFlight c) (c_NumWorkers c) (c_BufferSize c)
    (c_Timeout c) (c_RecoveryWaitTime c) (c_CreateTable c) (c_TableEngine c) "toYYYYMMDD(timestamp) /*" (c_TTL c) (c_Debug c) (c_EnableMetrics c).
Example partition_comments_order_out :
  accepted commented = true /\ buildCreateTableSQL commented = Ok (create_table_text commented)
  /\ read Code (create_table_text commented) = (Block, ["default"; "t"]).
Proof. by vm_compute. Qed.

(** The interval of the flush timer restarts nothing: a worker keeps the one it has. *)
Lemma clickhouse_restart_complete_witness :
  buildCreateTableSQL (ex_config "t" "" "" 2 1000) = buildCreateTableSQL (ex_config "t" "" "" 2 5000) /\ restart (ex_config "t" "" "" 2 1000) (ex_config "t" "" "" 2 5000) = false.
Proof. split; [exact (proj1 (clickhouse_restart_complete (ex_config "t" "" "" 2 1000) (ex_config "t" "" "" 2 5000) eq_refl))|reflexivity]. Defined.

Lemma clickhouse_columns_witness : columns_ok (mapValue (fun _ => None) (fun _ => "") (AInt KUint64 18446744073709551615)) /\ columns_ok (map_number "18446744073709551615").
Proof. exact (clickhouse_columns (fun _ => None) (fun _ => "") (AInt KUint64 18446744073709551615) "18446744073709551615" eq_refl). Defined.

Example ttl_examples :
  expandTelemetryTTL " 30 DAY" = "toDateTime(timestamp) + INTERVAL 30 DAY" /\ expandTelemetryTTL "2 weeks" = "toDateTime(timestamp) + INTERVAL 2 WEEK"
  /\ expandTelemetryTTL "timestamp + INTERVAL 1 DAY" = "timestamp + INTERVAL 1 DAY" /\ expandTelemetryTTL "1 decade" = "1 decade" /\ expandTelemetryTTL " " = "".
Proof. by vm_compute. Qed.

(** Only names are engines: one with arguments is refused. *)
Example engine_without_arguments :
  match buildCreateTableSQL (ex_config "t" "ReplacingMergeTree(ingest_ts)" "" 0 0) with Err e => e = errIdent "table-engine" "ReplacingMergeTree(ingest_ts)" | _ => False end.
Proof. by vm_compute. Qed.

Example target_order :
  resolveTarget (Some {["target" := ""; "subscription-target" := "s"]}) (Some {["source" := "r1:57400"]}) = "r1"
  /\ resolveTarget (Some {["target" := "t"]}) (Some {["source" := "r1:57400"]}) = "t" /\ resolveTarget (Some {["source" := "[::1]:80"]}) None = "::1".
Proof. by vm_compute. Qed.
