(* ===== verification/Clickhouse.v ===== *)
(** * The ClickHouse output: its life (pkg/outputs/clickhouse_output/clickhouse_output.go)

    The channel of rows, the workers that gather and insert them in batches, the
    goroutine that makes the first connection, and [Update] and [Close], as one
    step relation. Rows are followed from the call that enqueues them to the
    database or to the place where they are dropped. [Update] stops the workers
    before it moves the rows of the channel and before it starts new ones; an
    [Update] or a [Close] is under way at a time. The database and the clock are
    what the steps leave open: whether an insert succeeds, when a timer fires. *)

From stdpp Require Import strings list relations.
From S2P Require Import Prelude GoStrings GoVal Text Event Tags Processor Messages Formats OutMsg Convert Prom ClickhouseRows.

#[local] Open Scope nat_scope.

(** Where a row that is not inserted is given up, and whether a metric counts it. *)
Inductive reason := NoConnection | ShutdownChunk | ShutdownRest | EnqueueTimeout | EnqueueAbandoned | DrainOverflow | DrainStopped.
Definition counted (r : reason) : bool :=
  match r with NoConnection | ShutdownChunk | EnqueueTimeout | DrainOverflow => true | ShutdownRest | EnqueueAbandoned | DrainStopped => false end.

(** What a worker does after a flush: read on, read what is left, or return. *)
Inductive mode := Running | Draining | Leaving.
(** Gathering a batch; waiting for a connection; between two chunks of [size]
    rows, the batch size when the flush began; about to insert a chunk; inserting it. *)
Inductive phase {R : Type} :=
| Reading (batch : list R)
| Waiting (size : nat) (batch : list R)
| Flushing (size : nat) (rest : list R)
| Trying (size : nat) (chunk rest : list R)
| Inserting (size : nat) (chunk rest : list R).
Arguments phase : clear implicits.

Section life.
Context {R : Type} `{UnicodeCase}.

Record worker := mkW { w_gen : nat; w_mode : mode; w_phase : phase R }.
Definition resume (g : nat) (m : mode) : option worker := match m with Leaving => None | _ => Some (mkW g m (Reading [])) end.

(** A step of one worker: whether its context has ended, whether there is a
    connection, the batch size, the channel before and after, the worker after
    ([None] when it has returned), the rows inserted and those given up. *)
Inductive wstep (ended conn : bool) (size : nat) : list R -> worker -> list R -> option worker -> list R -> list (reason * R) -> Prop :=
| w_take g m b r ch : m <> Leaving ->
    wstep ended conn size (r :: ch) (mkW g m (Reading b)) ch
      (Some (mkW g m (if size <=? length (b ++ [r]) then Waiting size (b ++ [r]) else Reading (b ++ [r])))) [] []
| w_tick g b ch : wstep ended conn size ch (mkW g Running (Reading b)) ch (Some (mkW g Running (Waiting size b))) [] []
| w_end g b ch : ended = true -> wstep ended conn size ch (mkW g Running (Reading b)) ch (Some (mkW g Draining (Reading b))) [] []
| w_leave g b : wstep ended conn size [] (mkW g Draining (Reading b)) [] (Some (mkW g Leaving (Waiting size b))) [] []
| w_nothing g m n ch : wstep ended conn size ch (mkW g m (Waiting n [])) ch (resume g m) [] []
| w_connected g m n b ch : b <> [] -> conn = true -> wstep ended conn size ch (mkW g m (Waiting n b)) ch (Some (mkW g m (Flushing n b))) [] []
| w_no_connection g m n b ch : b <> [] -> conn = false -> ended = true ->
    wstep ended conn size ch (mkW g m (Waiting n b)) ch (resume g m) [] (pair NoConnection <$> b)
| w_flushed g m n ch : wstep ended conn size ch (mkW g m (Flushing n [])) ch (resume g m) [] []
| w_stop g m n b ch : b <> [] -> ended = true -> wstep ended conn size ch (mkW g m (Flushing n b)) ch (resume g m) [] (pair ShutdownRest <$> b)
| w_chunk g m n b ch : b <> [] -> ended = false ->
    wstep ended conn size ch (mkW g m (Flushing n b)) ch (Some (mkW g m (Trying n (firstn n b) (skipn n b)))) [] []
| w_give_up g m n c b ch : ended = true ->
    wstep ended conn size ch (mkW g m (Trying n c b)) ch (resume g m) [] ((pair ShutdownChunk <$> c) ++ (pair ShutdownRest <$> b))
| w_try g m n c b ch : ended = false -> wstep ended conn size ch (mkW g m (Trying n c b)) ch (Some (mkW g m (Inserting n c b))) [] []
| w_inserted g m n c b ch : wstep ended conn size ch (mkW g m (Inserting n c b)) ch (Some (mkW g m (Flushing n b))) c []
| w_failed g m n c b ch : wstep ended conn size ch (mkW g m (Inserting n c b)) ch (Some (mkW g m (Trying n c b))) [] [].

(** [Update] and [Close] after their configuration. *)
Inductive instr := ICancel | IWait | ISwap (cap : nat) | IStart | ICloseSig.

(** Contexts below [s_dead] have ended; [s_boot] is the context of the goroutine
    that dials; [s_conn] whether a connection is stored. *)
Record sys := mkSys {
  s_cfg : config; s_ch : list R; s_cap : nat; s_gen : nat; s_dead : nat; s_root : bool; s_workers : list worker; s_boot : option nat; s_conn : bool;
  s_prog : list instr; s_closed : bool; s_received : list R; s_inserted : list R; s_lost : list (reason * R) }.

Definition ended (s : sys) (g : nat) : bool := s_root s || (g <? s_dead s).
Definition batch_size (s : sys) : nat := Z.to_nat (c_BatchSize (s_cfg s)).
Definition workers_of (g : nat) (c : config) : list worker := replicate (Z.to_nat (c_NumWorkers c)) (mkW g Running (Reading [])).

(** After [Init]. *)
Definition init (c : config) : sys :=
  mkSys c [] (Z.to_nat (c_BufferSize c)) 0 0 false (workers_of 0 c) (Some 0) false [] false [] [] [].

Definition with_rows (ch received inserted : list R) (lost : list (reason * R)) (s : sys) : sys :=
  mkSys (s_cfg s) ch (s_cap s) (s_gen s) (s_dead s) (s_root s) (s_workers s) (s_boot s) (s_conn s) (s_prog s) (s_closed s) received inserted lost.
Definition with_workers (ws : list worker) (s : sys) : sys :=
  mkSys (s_cfg s) (s_ch s) (s_cap s) (s_gen s) (s_dead s) (s_root s) ws (s_boot s) (s_conn s) (s_prog s) (s_closed s) (s_received s) (s_inserted s) (s_lost s).
Definition with_prog (p : list instr) (s : sys) : sys :=
  mkSys (s_cfg s) (s_ch s) (s_cap s) (s_gen s) (s_dead s) (s_root s) (s_workers s) (s_boot s) (s_conn s) p (s_closed s) (s_received s) (s_inserted s) (s_lost s).
Definition with_boot (b : option nat) (conn : bool) (s : sys) : sys :=
  mkSys (s_cfg s) (s_ch s) (s_cap s) (s_gen s) (s_dead s) (s_root s) (s_workers s) b conn (s_prog s) (s_closed s) (s_received s) (s_inserted s) (s_lost s).
Definition with_root (s : sys) : sys :=
  mkSys (s_cfg s) (s_ch s) (s_cap s) (s_gen s) (s_dead s) true (s_workers s) (s_boot s) (s_conn s) (s_prog s) (s_closed s) (s_received s) (s_inserted s) (s_lost s).

(** [Update] of a decoded configuration with its defaults; the configuration is
    stored first. *)
Definition update (nw : config) (s : sys) : sys :=
  mkSys nw (s_ch s) (s_cap s) (s_gen s) (s_dead s) (s_root s) (s_workers s) (s_boot s) (s_conn s)
    (if restart (s_cfg s) nw then ICancel :: IWait :: (if swapChan (s_cfg s) nw then [ISwap (Z.to_nat (c_BufferSize nw))] else []) ++ [IStart] else [])
    (s_closed s) (s_received s) (s_inserted s) (s_lost s).

(** [drainRowChan]: [k] rows are taken from the old channel, all of them unless
    the root context has ended; those the new one has no room for are dropped. *)
Definition swap (cap k : nat) (s : sys) : sys :=
  mkSys (s_cfg s) (firstn cap (firstn k (s_ch s))) cap (s_gen s) (s_dead s) (s_root s) (s_workers s) (s_boot s) (s_conn s) (s_prog s) (s_closed s)
    (s_received s) (s_inserted s)
    (s_lost s ++ (pair DrainOverflow <$> skipn cap (firstn k (s_ch s))) ++ (pair DrainStopped <$> skipn k (s_ch s))).

Inductive iexec : sys -> instr -> sys -> Prop :=
| i_cancel s : iexec s ICancel
    (mkSys (s_cfg s) (s_ch s) (s_cap s) (s_gen s) (S (s_gen s)) (s_root s) (s_workers s) (s_boot s) (s_conn s) (s_prog s) (s_closed s)
      (s_received s) (s_inserted s) (s_lost s))
| i_wait s : s_workers s = [] -> s_boot s = None -> iexec s IWait s
| i_swap s cap k : (s_root s = false -> k = length (s_ch s)) -> iexec s (ISwap cap) (swap cap k s)
| i_start s : let g := S (s_gen s) in iexec s IStart
    (mkSys (s_cfg s) (s_ch s) (s_cap s) g (s_dead s) (s_root s) (workers_of g (s_cfg s)) (Some g) false (s_prog s) (s_closed s)
      (s_received s) (s_inserted s) (s_lost s))
| i_close_sig s : iexec s ICloseSig
    (mkSys (s_cfg s) (s_ch s) (s_cap s) (s_gen s) (s_dead s) (s_root s) (s_workers s) (s_boot s) (s_conn s) (s_prog s) true
      (s_received s) (s_inserted s) (s_lost s)).

Definition apply_worker (i : nat) (w : option worker) (ch inserted : list R) (lost : list (reason * R)) (s : sys) : sys :=
  with_rows ch (s_received s) (s_inserted s ++ inserted) (s_lost s ++ lost)
    (with_workers (match w with Some w => <[i := w]> (s_workers s) | None => delete i (s_workers s) end) s).

Inductive step : sys -> sys -> Prop :=
| step_enqueue s r : length (s_ch s) < s_cap s -> step s (with_rows (s_ch s ++ [r]) (s_received s ++ [r]) (s_inserted s) (s_lost s) s)
| step_timeout s r : s_cap s <= length (s_ch s) -> step s (with_rows (s_ch s) (s_received s ++ [r]) (s_inserted s) (s_lost s ++ [(EnqueueTimeout, r)]) s)
| step_abandon s r : step s (with_rows (s_ch s) (s_received s ++ [r]) (s_inserted s) (s_lost s ++ [(EnqueueAbandoned, r)]) s)
| step_worker s i w ch w' ins lost : s_workers s !! i = Some w ->
    wstep (ended s (w_gen w)) (s_conn s) (batch_size s) (s_ch s) w ch w' ins lost -> step s (apply_worker i w' ch ins lost s)
| step_dialled s g : s_boot s = Some g -> step s (with_boot None true s)
| step_dial_ends s g : s_boot s = Some g -> ended s g = true \/ (exists e, c_CreateTable (s_cfg s) = true /\ buildCreateTableSQL (s_cfg s) = Err e) ->
    step s (with_boot None (s_conn s) s)
| step_update s nw : s_prog s = [] -> step s (update nw s)
| step_close s : s_prog s = [] -> step s (with_prog [ICancel; IWait; ICloseSig] s)
| step_instr s s' i p : s_prog s = i :: p -> iexec s i s' -> step s (with_prog p s')
| step_shutdown s : step s (with_root s).

Definition reach : sys -> sys -> Prop := rtc step.

(** The rows a worker holds, and those of them that are being inserted. *)
Definition held (w : worker) : list R :=
  match w_phase w with Reading b => b | Waiting _ b | Flushing _ b => b | Trying _ c b | Inserting _ c b => c ++ b end.
Definition flight (w : worker) : list R := match w_phase w with Inserting _ c _ => c | _ => [] end.
Definition all_held (s : sys) : list R := concat (held <$> s_workers s).
Definition in_flight (s : sys) : list R := concat (flight <$> s_workers s).
Definition accounted (s : sys) : list R := s_ch s ++ all_held s ++ s_inserted s ++ (s_lost s).*2.
End life.

#[global] Arguments worker : clear implicits.
#[global] Arguments sys : clear implicits.

(** ** Init, Update and Write *)

Section operations.
Context `{Templates} `{UnicodeCase}.

Record dynConfig := mkDyn { d_targetTpl : option target_tpl; d_evps : list processor_fn }.

(** [name] is the name of the output, [built] what buildEventProcessors returns. *)
Definition Init {R} (name : string) (raw : gomap any) (decoded : go ch_error config) (register : bool) (built : option (list processor_fn))
    : go ch_error (dynConfig * sys R) :=
  c ← decoded;
  let c := if String.eqb (c_Name c) "" then with_name name c else c in
  let c := setDefaults (applyCreateTableDefault raw (applyTTLDefault raw c)) in
  if negb register then Err errMetrics
  else match built with
  | None => Err errProcessors
  | Some evps => tpl ← init_target_tpl errTargetTemplate (c_TargetTemplate c) (c_AddTarget c); Ok (mkDyn tpl evps, init c)
  end.

Definition Validate (raw : gomap any) (decoded : go ch_error config) : go ch_error () :=
  c ← decoded;
  let c := setDefaults (applyCreateTableDefault raw (applyTTLDefault raw c)) in
  buildCreateTableSQL c ;;
  if String.eqb (c_TargetTemplate c) "" then Ok ()
  else match CreateTemplate (c_TargetTemplate c) with Some _ => Ok () | None => Err errTargetTemplate end.

(** What [Update] publishes before it restarts anything. *)
Definition Update {R} (raw : gomap any) (decoded : go ch_error config) (built : option (list processor_fn)) (d : dynConfig) (s : sys R)
    : go ch_error (dynConfig * sys R) :=
  c ← decoded;
  let c := applyCreateTableDefault raw (applyTTLDefault raw c) in
  let nw := setDefaults (if String.eqb (c_Name c) "" then with_name (c_Name (s_cfg s)) c else c) in
  tpl ← update_target_tpl errTargetTemplate (c_TargetTemplate nw) (c_AddTarget nw);
  match (if decide (c_EventProcessors (s_cfg s) = c_EventProcessors nw) then Some (d_evps d) else built) with
  | None => Err errProcessors
  | Some evps => Ok (mkDyn tpl evps, update nw s)
  end.

Context `{MapOrder} `{EventEnv} `{FmtEnv} `{FormatEnv} `{FloatText} (clock : nat -> Z) (json_Marshal : any -> option string) (fmt_v : any -> string).

(** The events of a message; a message that is no response has none, and an
    error of the conversion drops it. *)
Definition message_events (c : config) (d : dynConfig) (m : option pmsg) (meta : gomap string) : go format_error (list (option EventMsg)) :=
  match m with
  | None => Ok []
  | Some _ =>
      let '(m, _) := AddSubscriptionTarget m meta (c_AddTarget c) (d_targetTpl d) in
      m ← (if c_OverrideTimestamps c
           then OverrideTimestamp clock (mkMarshalOptions false "" "" true false false ∅ [] []) m else Ok m);
      let events (r : go event_error (list (option EventMsg))) := match r with Ok es => Ok es | Err _ => Ok [] | Panic => Panic end in
      match m with
      | Some (existT SubRsp r) =>
          events (ResponseToEventMsgs (subscription_name meta)
            (Some (match sp_Rsp r with
                   | Rsp_Update (Some n) => SR_Update (as_notification n)
                   | Rsp_Update None => SR_Update (mkNotification 0 None [] [])
                   | _ => SR_Other
                   end)) meta (d_evps d))
      | Some (existT GetRsp r) => events (GetResponseToEventMsgs (Some (as_notification <$> gp_Notification r)) meta (d_evps d))
      | _ => Ok []
      end
  end.

(** The rows [Write] and [WriteEvent] hand to the channel, in order. *)
Definition Write (c : config) (d : dynConfig) (m : option pmsg) (meta : gomap string) : go format_error (list telemetryRow) :=
  evs ← message_events c d m meta;
  Ok (concat (map (fun e => eventToRows json_Marshal fmt_v (clock 0) e meta (c_OverrideTimestamps c)) evs)).
Definition WriteEvent (c : config) (d : dynConfig) (e : option EventMsg) : go event_error (list telemetryRow) :=
  match e with
  | None => Ok []
  | Some _ => evs ← applyAll (d_evps d) [e];
              Ok (concat (map (fun e => eventToRows json_Marshal fmt_v (clock 0) e None (c_OverrideTimestamps c)) evs))
  end.
End operations.

(** One turn of [dialUntilReady]: the configuration of the moment, whether the
    context has ended, the answers of the client, and whether the context ends in
    the wait before the next turn. *)
Record dial_turn := mkTurn { t_cfg : config; t_ended : bool; t_opens : bool; t_pings : bool; t_creates : bool; t_ended_wait : bool }.
Inductive dial_result := Ready | Cancelled | BadTable (e : ch_error).
Fixpoint dialUntilReady `{UnicodeCase} (l : list dial_turn) : option dial_result :=
  match l with
  | [] => None
  | t :: l =>
      let again := if t_ended_wait t then Some Cancelled else dialUntilReady l in
      if t_ended t then Some Cancelled
      else if negb (t_opens t && t_pings t) then again
      else if c_CreateTable (t_cfg t) then
        match buildCreateTableSQL (t_cfg t) with
        | Ok _ => if t_creates t then Some Ready else again
        | Err e => Some (BadTable e)
        | Panic => None
        end
      else Some Ready
  end.

(** [connPollInterval] *)
Definition connPollInterval (c : config) : Z :=
  let d := Z.quot (c_RecoveryWaitTime c) 10 in
  if (d <? 100000000)%Z then 100000000%Z else if (1000000000 <? d)%Z then 1000000000%Z else d.

Lemma restart_refl c : restart c c = false.
Proof.
  unfold restart, swapChan. rewrite !String.eqb_refl, !Z.eqb_refl, !Bool.eqb_reflx. cbn [negb orb].
  unfold tlsEqual. destruct (c_TLS c) as [t|]; [|done]. by rewrite !String.eqb_refl, !Bool.eqb_reflx.
Qed.
Lemma named_defaults raw name c : applyCreateTableDefault raw (applyTTLDefault raw (with_name name c)) = with_name name (applyCreateTableDefault raw (applyTTLDefault raw c)).
Proof.
  unfold applyCreateTableDefault, applyTTLDefault. cbn [with_name c_TTL]. destruct (has_key raw "ttl"), (blank (c_TTL c)), (has_key raw "create-table"); done.
Qed.
Lemma defaults_keep_name raw c : c_Name (setDefaults (applyCreateTableDefault raw (applyTTLDefault raw c))) = c_Name c
  /\ c_Name (applyCreateTableDefault raw (applyTTLDefault raw c)) = c_Name c.
Proof.
  unfold applyCreateTableDefault, applyTTLDefault. destruct (has_key raw "ttl"), (blank (c_TTL c)), (has_key raw "create-table"); done.
Qed.

Lemma create_table_no_panic `{UnicodeCase} c : buildCreateTableSQL c <> Panic.
Proof.
  unfold buildCreateTableSQL, validateIdent, validateSQLExpr.
  repeat match goal with |- context [if ?b then _ else _] => destruct b; cbn [mbind go_bind]; [done || idtac|done || idtac] end; done.
Qed.

(** ** Lemmas on one worker *)

Section proofs.
Context {R : Type} `{UnicodeCase}.

Definition of_worker {A} (f : worker R -> list A) (w : option (worker R)) : list A := match w with Some w => f w | None => [] end.

Lemma snd_pair (r : reason) (l : list R) : (pair r <$> l).*2 = l.
Proof. rewrite <-list_fmap_compose. apply list_fmap_id. Qed.

Lemma resume_held g m : of_worker held (resume (R := R) g m) = [].
Proof. by destruct m. Qed.
Lemma resume_flight g m : of_worker flight (resume (R := R) g m) = [].
Proof. by destruct m. Qed.

(** A step moves rows and loses none without a note. *)
Lemma wstep_conserves e conn n ch w ch' w' ins lost : wstep (R := R) e conn n ch w ch' w' ins lost ->
  ch ++ held w ≡ₚ ch' ++ of_worker held w' ++ ins ++ lost.*2.
Proof.
  destruct 1; rewrite ?resume_held, ?fmap_app, ?snd_pair; cbn [of_worker]; unfold held; cbn [w_phase]; rewrite ?app_nil_r, ?app_nil_l, ?firstn_skipn; try done.
  - replace (match _ with Waiting _ _ => _ | _ => _ end) with (b ++ [r]) by by destruct (n <=? _). cbn.
    rewrite (app_assoc ch). by rewrite (Permutation_app_comm (ch ++ b) [r]).
  - by rewrite (Permutation_app_comm c).
Qed.

(** Once its context has ended a worker begins no insert. *)
Lemma wstep_ended conn n ch w ch' w' ins lost : wstep (R := R) true conn n ch w ch' w' ins lost ->
  ins ++ of_worker flight w' ⊆+ flight w /\ (forall x, w' = Some x -> w_gen x = w_gen w).
Proof.
  inversion 1; subst; (split; [|try (destruct m; cbn); intros x [= <-]; done]); rewrite ?resume_flight; unfold flight; cbn [of_worker w_phase app]; try done;
    try apply submseteq_nil_l; try (by rewrite ?app_nil_r).
  destruct (n <=? _); done.
Qed.

(** ** The workers together *)

Lemma concat_delete {A} (f : worker R -> list A) ws i w : ws !! i = Some w -> concat (f <$> ws) ≡ₚ f w ++ concat (f <$> delete i ws).
Proof. intros Hi. rewrite (delete_Permutation ws i w Hi) at 1. done. Qed.

Lemma concat_replace {A} (f : worker R -> list A) ws i w (w' : option (worker R)) : ws !! i = Some w ->
  concat (f <$> match w' with Some x => <[i := x]> ws | None => delete i ws end) ≡ₚ of_worker f w' ++ concat (f <$> delete i ws).
Proof.
  intros Hi. destruct w' as [x|]; [|done]. cbn [of_worker]. assert (Hx : <[i := x]> ws !! i = Some x) by (apply list_lookup_insert_eq; by eapply lookup_lt_Some).
  rewrite (concat_delete f _ i x Hx). f_equiv. f_equiv. f_equiv. apply list_elem_of_split_length in Hi as (l1 & l2 & -> & ->).
  rewrite insert_app_r_alt, Nat.sub_diag by done. cbn. by rewrite !delete_middle.
Qed.

Lemma fresh_none {A} (f : worker R -> list A) g c : (forall m, f (mkW g m (Reading [])) = []) -> concat (f <$> workers_of g c) = [].
Proof. intros Hf. unfold workers_of. induction (Z.to_nat _) as [|n IH]; [done|]. cbn. by rewrite Hf. Qed.

Definition conserved (s : sys R) : Prop := s_received s ≡ₚ accounted s.

Ltac rows := unfold conserved, accounted, all_held in *;
  cbn [with_rows with_workers with_prog with_boot with_root apply_worker swap update s_ch s_workers s_inserted s_lost s_received] in *.

Lemma swap_rows (cap k : nat) (l : list R) :
  l ≡ₚ firstn cap (firstn k l) ++ skipn cap (firstn k l) ++ skipn k l.
Proof. by rewrite app_assoc, !firstn_skipn. Qed.

Lemma conserved_worker (s : sys R) i w ch w' ins lost : conserved s -> s_workers s !! i = Some w ->
  wstep (ended s (w_gen w)) (s_conn s) (batch_size s) (s_ch s) w ch w' ins lost -> conserved (apply_worker i w' ch ins lost s).
Proof.
  intros Hs Hi Hw. apply wstep_conserves in Hw. rows. rewrite Hs, (concat_replace held _ i w w' Hi), (concat_delete held _ i w Hi), fmap_app.
  rewrite !(app_assoc (s_ch s)), Hw. rewrite <-!app_assoc. f_equiv. f_equiv. rewrite (Permutation_app_comm ins), (Permutation_app_comm (s_lost s).*2).
  rewrite <-!app_assoc. rewrite (Permutation_app_comm (lost.*2)). rewrite <-!app_assoc.
  rewrite (Permutation_app_comm (concat _) (s_inserted s ++ _)), (Permutation_app_comm _ (concat _)). do 2 f_equiv.
  rewrite (Permutation_app_comm (s_lost s).*2). by rewrite <-app_assoc.
Qed.

(** Where the instructions of an operation are, and that there is nobody left
    after the wait. *)
Inductive tail_ok : list instr -> Prop := t_swap c : tail_ok [ISwap c; IStart] | t_start : tail_ok [IStart] | t_close : tail_ok [ICloseSig].
Definition alone (s : sys R) : Prop := s_workers s = [] /\ s_boot s = None.
Definition staged (s : sys R) : Prop :=
  s_prog s = [] \/ exists q, tail_ok q /\ (s_prog s = ICancel :: IWait :: q \/ (s_prog s = IWait :: q /\ s_dead s = S (s_gen s)) \/ (s_prog s = q /\ alone s)).
Definition sane (w : worker R) : Prop := w_mode w = Leaving -> match w_phase w with Reading _ => False | _ => True end.

Record inv (s : sys R) : Prop := {
  inv_rows : conserved s;
  inv_staged : staged s;
  inv_gens : Forall (fun w => w_gen w = s_gen s) (s_workers s);
  inv_boot : forall g, s_boot s = Some g -> g = s_gen s;
  inv_cap : length (s_ch s) <= s_cap s;
  inv_sane : Forall sane (s_workers s) }.

Lemma inv_init c : inv (init c).
Proof.
  split; cbn; try done.
  - rows. cbn. by rewrite fresh_none.
  - by left.
  - by apply Forall_replicate.
  - by intros g [= <-].
  - lia.
  - by apply Forall_replicate.
Qed.

Lemma staged_alone (s : sys R) i p : staged s -> s_prog s = i :: p -> match i with ISwap _ | IStart | ICloseSig => alone s | _ => True end.
Proof.
  intros [Hs|(q & Hq & [Hs|[[Hs _]|[Hs Ha]]])] Hp; rewrite Hs in Hp; [done|by injection Hp as <- _|by injection Hp as <- _|].
  destruct Hq; injection Hp as <- _; done.
Qed.

Lemma conserved_instr (s s' : sys R) i : conserved s -> iexec s i s' -> match i with IStart => alone s | _ => True end -> conserved s'.
Proof.
  intros Hs He. destruct He as [s|s Hw Hb|s cap k Hk|s|s]; intros Ha; rows; try done.
  - rewrite Hs, !fmap_app, !snd_pair, (swap_rows cap k (s_ch s)) at 1. rewrite <-!app_assoc. f_equiv.
    rewrite (app_assoc (skipn cap _)), (Permutation_app_comm (skipn cap _ ++ _)). rewrite <-!app_assoc. done.
  - destruct Ha as [Hw _]. rewrite Hw in Hs. rewrite fresh_none by done. exact Hs.
Qed.

Lemma staged_instr (s s' : sys R) i p : staged s -> s_prog s = i :: p -> iexec s i s' -> staged (with_prog p s').
Proof.
  intros [Hs|(q & Hq & [Hs|[[Hs Hd]|[Hs Ha]]])] Hp He; rewrite Hs in Hp; [done|..].
  - injection Hp as <- <-. inversion He; subst. right. exists q. split; [done|]. right. left. done.
  - injection Hp as <- <-. inversion He; subst. right. exists q. split; [done|]. right. right. done.
  - destruct Hq as [c| |]; injection Hp as <- <-; [|by left|by left]. inversion He; subst. right. exists [IStart]. split; [constructor|]. right. right. done.
Qed.

Lemma inv_instr (s s' : sys R) i p : inv s -> s_prog s = i :: p -> iexec s i s' -> inv (with_prog p s').
Proof.
  intros [Hr Hs Hg Hb Hc Hn] Hp He. pose proof (staged_alone _ _ _ Hs Hp) as Ha.
  split; [|by eapply staged_instr|..].
  - assert (conserved s') as Hs' by (eapply conserved_instr; [done..|by destruct i]). exact Hs'.
  - destruct He; cbn; try done. by apply Forall_replicate.
  - destruct He; cbn; try done. by intros g0 [= <-].
  - destruct He as [s|s Hw Hbt|s cap k Hk|s|s]; cbn; try done. rewrite length_take. lia.
  - destruct He; cbn; try done. by apply Forall_replicate.
Qed.

Lemma wstep_sane (e conn : bool) n ch w ch' w' ins lost : wstep (R := R) e conn n ch w ch' w' ins lost -> sane w ->
  (forall x, w' = Some x -> sane x /\ w_gen x = w_gen w) /\ length ch' <= length ch.
Proof.
  intros Hw Hs. split; [|by destruct Hw; cbn; lia]. intros x Hx. unfold sane in *.
  destruct Hw; try (injection Hx as <-; cbn; split; [|done]; intros Hm; try done; by destruct (n <=? _)); destruct m; cbn in Hx; try done; by injection Hx as <-.
Qed.

Lemma inv_worker (s : sys R) i w ch w' ins lost : inv s -> s_workers s !! i = Some w ->
  wstep (ended s (w_gen w)) (s_conn s) (batch_size s) (s_ch s) w ch w' ins lost -> inv (apply_worker i w' ch ins lost s).
Proof.
  intros [Hr Hs Hg Hb Hc Hn] Hi Hw. assert (Hwn : sane w) by by eapply Forall_lookup_1.
  assert (Hwg : w_gen w = s_gen s) by by eapply (Forall_lookup_1 (fun w => w_gen w = s_gen s)).
  destruct (wstep_sane _ _ _ _ _ _ _ _ _ Hw Hwn) as [Hx Hl].
  split; [by eapply conserved_worker| | |done| |].
  - destruct Hs as [Hs|(q & Hq & Hs)]; [by left|]. right. exists q. split; [done|]. destruct Hs as [Hs|[Hs|[Hs [Ha _]]]]; [by left|by right; left|].
    by rewrite Ha in Hi.
  - cbn. destruct w' as [x|]; [|by apply Forall_delete]. apply Forall_insert; [done|]. destruct (Hx x eq_refl) as [_ Hxg]. congruence.
  - cbn. lia.
  - cbn. destruct w' as [x|]; [|by apply Forall_delete]. apply Forall_insert; [done|]. by destruct (Hx x eq_refl).
Qed.

Lemma inv_frame (s s' : sys R) : inv s -> conserved s' -> length (s_ch s') <= s_cap s' -> s_workers s' = s_workers s ->
  s_gen s' = s_gen s -> s_dead s' = s_dead s -> s_prog s' = s_prog s -> (s_boot s' = s_boot s \/ s_boot s' = None) -> inv s'.
Proof.
  intros [Hr Hs Hg Hb Hc Hn] Hr' Hc' Hw Hgen Hd Hp Hbt. split; [done| | | |done|].
  - destruct Hs as [Hs|(q & Hq & Hs)]; [left; by rewrite Hp|]. right. exists q. split; [done|]. rewrite Hp, Hd, Hgen. unfold alone in *. rewrite Hw.
    destruct Hs as [Hs|[Hs|[Hs [H1 H2]]]]; [by left|by right; left|]. right. right. split; [done|]. split; [done|]. destruct Hbt; congruence.
  - by rewrite Hw, Hgen.
  - intros g Hg'. rewrite Hgen. apply Hb. destruct Hbt; congruence.
  - by rewrite Hw.
Qed.

Lemma inv_op (s s' : sys R) q : inv s -> s_prog s = [] -> (s_prog s' = [] \/ (tail_ok q /\ s_prog s' = ICancel :: IWait :: q)) -> conserved s' ->
  s_ch s' = s_ch s -> s_cap s' = s_cap s -> s_workers s' = s_workers s -> s_gen s' = s_gen s -> s_boot s' = s_boot s -> inv s'.
Proof.
  intros [Hr Hs Hg Hb Hc Hn] Hp Hp' Hr' Hch Hcap Hw Hgen Hbt. split; [done| | | | |].
  - destruct Hp' as [Hp'|[Hq Hp']]; [by left|]. right. exists q. split; [done|by left].
  - by rewrite Hw, Hgen.
  - by rewrite Hbt, Hgen.
  - by rewrite Hch, Hcap.
  - by rewrite Hw.
Qed.

Lemma perm_outer (a b c d : list R) : a ++ b ++ c ++ d ≡ₚ (a ++ d) ++ (b ++ c).
Proof. by rewrite (app_assoc b c d), (Permutation_app_comm (b ++ c) d), (app_assoc a d). Qed.

Lemma conserved_add (s : sys R) ch' lost' r : conserved s -> ch' ++ lost'.*2 ≡ₚ (s_ch s ++ (s_lost s).*2) ++ [r] ->
  conserved (with_rows ch' (s_received s ++ [r]) (s_inserted s) lost' s).
Proof.
  intros Hs He. rows. rewrite Hs, !perm_outer, He. rewrite <-(app_assoc _ [r]), <-(app_assoc _ _ [r]). f_equiv. by rewrite Permutation_app_comm.
Qed.

Lemma clickhouse_inv_step (s s' : sys R) : inv s -> step s s' -> inv s'.
Proof.
  intros Hs Hst. pose proof (inv_rows _ Hs) as Hr. destruct Hst as [s r Hlt|s r Hle|s r|s i w ch w' ins lost Hi Hw|s g Hb|s g Hb He|s nw Hp|s Hp|s s' i p Hp He|s].
  - apply (inv_frame s); try done; [|cbn; rewrite length_app; cbn; lia|by left]. apply conserved_add; [done|]. rewrite <-!app_assoc. f_equiv. by rewrite Permutation_app_comm.
  - apply (inv_frame s); try done; [|apply Hs|by left]. apply conserved_add; [done|]. rewrite fmap_app. by rewrite app_assoc.
  - apply (inv_frame s); try done; [|apply Hs|by left]. apply conserved_add; [done|]. rewrite fmap_app. by rewrite app_assoc.
  - by eapply inv_worker.
  - apply (inv_frame s); try done; [apply Hs|by right].
  - apply (inv_frame s); try done; [apply Hs|by right].
  - destruct (restart (s_cfg s) nw) eqn:E.
    + eapply (inv_op s _ ((if swapChan (s_cfg s) nw then [ISwap (Z.to_nat (c_BufferSize nw))] else []) ++ [IStart])); try done.
      right. unfold update. rewrite E. split; [|done]. destruct (swapChan _ _); constructor.
    + eapply (inv_op s _ []); try done. left. unfold update. by rewrite E.
  - eapply (inv_op s _ [ICloseSig]); try done. right. split; [constructor|done].
  - by eapply inv_instr.
  - apply (inv_frame s); try done; [apply Hs|by left].
Qed.

Lemma inv_reach (s s' : sys R) : inv s -> reach s s' -> inv s'.
Proof. intros Hs Hr. induction Hr as [|x y z Hxy _ IH]; [done|]. apply IH. by eapply clickhouse_inv_step. Qed.

(** ** After the cancel *)

Definition dead (s : sys R) : Prop := Forall (fun w => ended s (w_gen w) = true) (s_workers s).

Lemma step_gen (s s' : sys R) : step s s' -> s_gen s <= s_gen s'.
Proof. destruct 1 as [| | | | | | | |s s' i p Hp He|]; cbn; try lia. destruct He; cbn; lia. Qed.
Lemma reach_gen (s s' : sys R) : reach s s' -> s_gen s <= s_gen s'.
Proof. induction 1 as [|x y z Hxy _ IH]; [lia|]. apply step_gen in Hxy. lia. Qed.

Lemma dead_step (s s' : sys R) : inv s -> dead s -> step s s' -> s_gen s' = s_gen s ->
  dead s' /\ s_inserted s' ++ in_flight s' ⊆+ s_inserted s ++ in_flight s.
Proof.
  intros Hinv Hd Hst Hg. unfold dead, in_flight in *. destruct Hst as [s r Hlt|s r Hle|s r|s i w ch w' ins lost Hi Hw|s g Hb|s g Hb He|s nw Hp|s Hp|s s' i p Hp He|s]; try done.
  - assert (He : ended s (w_gen w) = true) by by eapply (Forall_lookup_1 (fun w => ended s (w_gen w) = true)).
    rewrite He in Hw. apply wstep_ended in Hw as [Hi' Hg']. cbn. split.
    + destruct w' as [x|]; [|by apply Forall_delete]. apply Forall_insert; [exact Hd|]. change (ended s (w_gen x) = true). by rewrite (Hg' x eq_refl).
    + rewrite (concat_replace flight _ i w w' Hi), (concat_delete flight _ i w Hi). rewrite <-app_assoc. apply submseteq_app; [done|].
      rewrite app_assoc. apply submseteq_app; [exact Hi'|done].
  - destruct He; cbn in *; try done; [|lia]. split; [|done].
    eapply Forall_impl; [apply (inv_gens _ Hinv)|]. intros w Hw. unfold ended. cbn [s_root s_dead]. rewrite Hw. apply orb_true_iff. right. apply Nat.ltb_lt. cbn. lia.
  - split; [|done]. eapply Forall_impl; [exact Hd|]. intros w _. done.
Qed.

Lemma dead_reach (s s' : sys R) : inv s -> dead s -> reach s s' -> s_gen s' = s_gen s -> s_inserted s' ++ in_flight s' ⊆+ s_inserted s ++ in_flight s.
Proof.
  intros Hi Hd Hr. induction Hr as [|x y z Hxy Hyz IH]; intros Hg; [done|]. pose proof (step_gen _ _ Hxy). pose proof (reach_gen _ _ Hyz).
  destruct (dead_step x y Hi Hd Hxy) as [Hd' Hs]; [lia|]. etrans; [|exact Hs]. apply IH; [by eapply clickhouse_inv_step|done|lia].
Qed.

(** ** The wait ends *)

(** Steps of one worker whose context has ended, on the channel. *)
Inductive wruns (conn : bool) (n : nat) : list R -> option (worker R) -> Prop :=
| wr_gone ch : wruns conn n ch None
| wr_step ch w ch' w' ins lost : wstep true conn n ch w ch' w' ins lost -> wruns conn n ch' w' -> wruns conn n ch (Some w).

Lemma flush_ends conn n ch w : (forall b, w_phase w <> Reading b) -> wruns conn n ch (resume (w_gen w) (w_mode w)) -> wruns conn n ch (Some w).
Proof.
  intros Hw Hr. destruct w as [g m p]. cbn in *. assert (Hf : forall k b, wruns conn n ch (Some (mkW g m (Flushing k b)))).
  { intros k [|x b]; (eapply wr_step; [|exact Hr]); [apply w_flushed|by apply w_stop]. }
  assert (Ht : forall k c b, wruns conn n ch (Some (mkW g m (Trying k c b)))) by (intros k c b; eapply wr_step; [by apply w_give_up|exact Hr]).
  destruct p as [b|k b|k b|k c b|k c b]; [by destruct (Hw b)| |apply Hf|apply Ht|eapply wr_step; [apply w_failed|apply Ht]].
  destruct b as [|x b]; [eapply wr_step; [apply w_nothing|exact Hr]|]. destruct conn eqn:E.
  - eapply wr_step; [by apply w_connected|apply Hf].
  - eapply wr_step; [by apply w_no_connection|exact Hr].
Qed.

Lemma clickhouse_draining_ends conn n ch g b : wruns conn n ch (Some (mkW g Draining (Reading b))).
Proof.
  revert b. induction ch as [|r ch IH]; intros b.
  - eapply wr_step; [apply w_leave|]. apply flush_ends; [done|]. constructor.
  - eapply wr_step; [by apply w_take|]. destruct (n <=? _); [|apply IH]. apply flush_ends; [done|]. apply IH.
Qed.

Lemma worker_ends conn n ch w : sane w -> wruns conn n ch (Some w).
Proof.
  intros Hs. assert (Hread : forall g m b, m <> Leaving -> wruns conn n ch (Some (mkW g m (Reading b)))).
  { intros g [| |] b Hm; [|apply clickhouse_draining_ends|done]. eapply wr_step; [by apply w_end|apply clickhouse_draining_ends]. }
  destruct w as [g m p]. destruct p as [b|k b|k b|k c b|k c b].
  - apply Hread. intros ->. by apply Hs.
  - apply flush_ends; [done|]. destruct m; cbn; [by apply Hread..|constructor].
  - apply flush_ends; [done|]. destruct m; cbn; [by apply Hread..|constructor].
  - apply flush_ends; [done|]. destruct m; cbn; [by apply Hread..|constructor].
  - apply flush_ends; [done|]. destruct m; cbn; [by apply Hread..|constructor].
Qed.

(** The first worker of the list ends; the rest and the operation are untouched. *)
Lemma first_ends (s : sys R) w ws : s_workers s = w :: ws -> sane w -> ended s (w_gen w) = true ->
  exists s', reach s s' /\ s_workers s' = ws /\ s_boot s' = s_boot s /\ s_dead s' = s_dead s /\ s_root s' = s_root s /\ s_prog s' = s_prog s /\ s_gen s' = s_gen s.
Proof.
  intros Hw Hs. pose proof (worker_ends (s_conn s) (batch_size s) (s_ch s) w Hs) as Hr. clear Hs.
  remember (s_ch s) as ch eqn:Hch. remember (Some w) as ow eqn:How. remember (s_conn s) as cn eqn:Hcn. remember (batch_size s) as n eqn:Hn.
  revert s w Hw Hch How Hcn Hn. induction Hr as [ch|ch w0 ch' w' ins lost Hst Hr IH]; intros s w Hw -> How -> -> He; [done|].
  injection How as ->. set (s1 := apply_worker 0 w' ch' ins lost s).
  assert (Hst1 : step s s1) by (apply (step_worker s 0 w); [by rewrite Hw|by rewrite He]).
  destruct w' as [x|].
  - destruct (IH s1 x) as (s' & Hr' & H1 & H2 & H3 & H4 & H5 & H6); [cbn; by rewrite Hw|done..| |].
    + change (ended s (w_gen x) = true). apply wstep_ended in Hst as [_ Hg]. by rewrite (Hg x eq_refl).
    + exists s'. split_and!; [by eapply rtc_l|done..].
  - exists s1. split_and!; [by apply rtc_once|cbn; by rewrite Hw|done..].
Qed.

Lemma wait_ends (s : sys R) : Forall sane (s_workers s) -> dead s -> (forall g, s_boot s = Some g -> ended s g = true) ->
  exists s', reach s s' /\ s_workers s' = [] /\ s_boot s' = None /\ s_prog s' = s_prog s /\ s_gen s' = s_gen s.
Proof.
  unfold dead. remember (s_workers s) as ws eqn:Hws. revert s Hws. induction ws as [|w ws IH]; intros s Hws Hs Hd Hb.
  - destruct (s_boot s) as [g|] eqn:E; [|exists s; by split_and!; [apply rtc_refl|..]].
    exists (with_boot None (s_conn s) s). split_and!; [apply rtc_once; eapply step_dial_ends; [exact E|left; by apply Hb]|done..].
  - apply Forall_cons in Hs as [Hs1 Hs], Hd as [Hd1 Hd]. destruct (first_ends s w ws) as (s1 & Hr & H1 & H2 & H3 & H4 & H5 & H6); [done..|].
    assert (Hsame : forall g, ended s1 g = ended s g) by (intros g; unfold ended; by rewrite H3, H4).
    destruct (IH s1) as (s2 & Hr2 & K1 & K2 & K3 & K4); [done..| | |].
    + eapply Forall_impl; [exact Hd|]. intros x Hx. by rewrite Hsame.
    + intros g Hg. rewrite Hsame. apply Hb. by rewrite <-H2.
    + exists s2. split_and!; [by etrans|done|done|congruence|congruence].
Qed.
End proofs.

(** * Properties *)

Section properties.
Context {R : Type} `{UnicodeCase}.

(** C32: every row handed to the output is in the channel, with a worker,
    inserted, or given up at a known place, once; and the channel holds no more
    than its capacity. *)
Theorem clickhouse_conserved (c : config) (s : sys R) (Hr : reach (init c) s) :
  s_received s ≡ₚ s_ch s ++ all_held s ++ s_inserted s ++ (s_lost s).*2 /\ length (s_ch s) <= s_cap s.
Proof. pose proof (inv_reach _ _ (inv_init c) Hr) as Hs. split; [exact (inv_rows _ Hs)|exact (inv_cap _ Hs)]. Qed.

(** C33: once [Update] or [Close] has cancelled the workers nothing is inserted
    but the chunks that were being inserted: the batches of the workers and the
    rows they still take from the channel are given up, although the workers read
    the channel to its end. *)
Theorem clickhouse_stop_loses (c : config) (s s' : sys R) (p : list instr) (Hr : reach (init c) s) (Hp : s_prog s = IWait :: p)
    (Hr' : reach s s') (Hg : s_gen s' = s_gen s) :
  s_inserted s' ⊆+ s_inserted s ++ in_flight s.
Proof.
  pose proof (inv_reach _ _ (inv_init c) Hr) as Hs. assert (dead s) as Hd.
  { destruct (inv_staged _ Hs) as [He|(q & Hq & [He|[[He Hd]|[He Ha]]])]; rewrite He in Hp; [done|done| |].
    - eapply Forall_impl; [apply (inv_gens _ Hs)|]. intros w Hw. unfold ended. apply orb_true_iff. right. apply Nat.ltb_lt. rewrite Hw, Hd. lia.
    - destruct Hq; done. }
  etrans; [|exact (dead_reach s s' Hs Hd Hr' Hg)]. apply submseteq_inserts_r. done.
Qed.

(** An [Update] or a [Close] that waits for the workers can go on: there is a
    run in which all of them and the goroutine that dials end. *)
Theorem clickhouse_stop_ends (c : config) (s : sys R) (p : list instr) (Hr : reach (init c) s) (Hp : s_prog s = IWait :: p) :
  exists s', reach s s' /\ s_prog s' = p /\ s_workers s' = [] /\ s_boot s' = None.
Proof.
  pose proof (inv_reach _ _ (inv_init c) Hr) as Hs.
  assert (s_dead s = S (s_gen s)) as Hd.
  { destruct (inv_staged _ Hs) as [He|(q & Hq & [He|[[He Hd]|[He Ha]]])]; rewrite He in Hp; [done|done|done|]. destruct Hq; done. }
  destruct (wait_ends s) as (s1 & Hr1 & H1 & H2 & H3 & _).
  - apply Hs.
  - eapply Forall_impl; [apply (inv_gens _ Hs)|]. intros w Hw. unfold ended. apply orb_true_iff. right. apply Nat.ltb_lt. rewrite Hw, Hd. lia.
  - intros g Hg. apply (inv_boot _ Hs) in Hg as ->. unfold ended. apply orb_true_iff. right. apply Nat.ltb_lt. rewrite Hd. lia.
  - exists (with_prog p s1). split_and!; [|done..]. eapply rtc_r; [exact Hr1|]. eapply step_instr; [by rewrite H3|]. by apply i_wait.
Qed.
(** The goroutine that dials ends when its context does; it comes back with
    a connection exactly in a turn in which the client connects, answers and, if
    it is to create the table, does so. *)
Theorem clickhouse_dial (l : list dial_turn) (Hl : Exists (fun t => t_ended t = true) l) :
  exists r, dialUntilReady l = Some r
  /\ (r = Ready -> Exists (fun t => t_opens t = true /\ t_pings t = true /\ (c_CreateTable (t_cfg t) = true -> t_creates t = true)) l).
Proof.
  induction l as [|t l IH]; [by apply Exists_nil in Hl|]. cbn [dialUntilReady]. destruct (t_ended t) eqn:Ee; [eexists; split; [reflexivity|done]|].
  apply Exists_cons in Hl as [Hl|Hl]; [congruence|]. destruct (IH Hl) as (r & Hr & Hready). clear IH.
  assert (Hagain : exists r, (if t_ended_wait t then Some Cancelled else dialUntilReady l) = Some r
    /\ (r = Ready -> Exists (fun t => t_opens t = true /\ t_pings t = true /\ (c_CreateTable (t_cfg t) = true -> t_creates t = true)) (t :: l))).
  { destruct (t_ended_wait t); [by exists Cancelled|]. exists r. split; [done|]. intros Hx. right. by apply Hready. }
  destruct (t_opens t) eqn:Eo; [|exact Hagain]. destruct (t_pings t) eqn:Ep; [|exact Hagain]. cbn [andb negb].
  destruct (c_CreateTable (t_cfg t)) eqn:Ec.
  - destruct (buildCreateTableSQL (t_cfg t)) as [sql|e|] eqn:Es; [|by eexists|].
    + destruct (t_creates t) eqn:Et; [|exact Hagain]. exists Ready. split; [done|]. intros _. left. cbn. done.
    + by apply create_table_no_panic in Es.
  - exists Ready. split; [done|]. intros _. left. cbn. split; [done|]. split; [done|]. congruence.
Qed.

(** An update with the configuration the output was made from restarts
    nothing and keeps the processors. *)
Theorem clickhouse_same_update `{Templates} (raw : gomap any) (c : config) (name : string) (register : bool) (built built' : option (list processor_fn))
    (d : dynConfig) (s : sys R) (Hi : Init name raw (Ok c) register built = Ok (d, s)) :
  exists d', Update raw (Ok c) built' d s = Ok (d', s) /\ d_evps d' = d_evps d.
Proof.
  unfold Init in Hi. cbn [mbind go_bind] in Hi. destruct register; [|done]. cbn [negb] in Hi. destruct built as [evps|]; [|done].
  apply bind_ok in Hi as (tpl & Ht & Hi). assert (Hinj : forall x y : dynConfig * sys R, Ok (E := ch_error) x = Ok y -> y = x) by congruence.
  apply Hinj in Hi. injection Hi as -> ->. clear Hinj.
  set (c0 := if String.eqb (c_Name c) "" then with_name name c else c) in *.
  set (nw := setDefaults (applyCreateTableDefault raw (applyTTLDefault raw c0))) in *.
  assert (Hsame : setDefaults (let c := applyCreateTableDefault raw (applyTTLDefault raw c) in
    if String.eqb (c_Name c) "" then with_name (c_Name nw) c else c) = nw).
  { cbv zeta. rewrite (proj2 (defaults_keep_name raw c)). unfold nw. rewrite (proj1 (defaults_keep_name raw c0)). unfold c0.
    destruct (String.eqb (c_Name c) ""); [|done]. by rewrite named_defaults. }
  unfold Update. cbn [mbind go_bind]. cbv zeta in Hsame |- *. cbn [init s_cfg]. rewrite Hsame.
  assert (Htpl : exists tpl', update_target_tpl errTargetTemplate (c_TargetTemplate nw) (c_AddTarget nw) = Ok tpl').
  { unfold init_target_tpl in Ht. unfold update_target_tpl. destruct (String.eqb (c_TargetTemplate nw) ""); [by eexists|].
    destruct (String.eqb (c_AddTarget nw) ""); [by eexists|]. destruct (CreateTemplate _); [by eexists|done]. }
  destruct Htpl as [tpl' ->]. rewrite decide_True by done. exists (mkDyn tpl' evps). split; [|reflexivity]. unfold update.
  change (s_cfg (init nw)) with nw. rewrite restart_refl. reflexivity.
Qed.
End properties.

(** ** Witnesses and examples *)

#[local] Existing Instance case_ascii.

Definition ex_config : config := setDefaults (mkConfig "ch" "" "" "" "" "" None "" "" false [] 10 0 0 1 4 0 0 true "" "" "30 DAY" false true).
(** One row in the batch of the worker, one in the channel, a live connection. *)
Definition ex_busy : sys nat :=
  mkSys ex_config [2] 4 0 0 false [mkW 0 Running (Reading [1])] None true [] false [1; 2] [] [].
Definition ex_waiting : sys nat := mkSys ex_config [2] 4 0 1 false [mkW 0 Running (Reading [1])] None true [IWait; ICloseSig] false [1; 2] [] [].
Definition ex_stopped : sys nat := mkSys ex_config [] 4 0 1 false [] None true [IWait; ICloseSig] false [1; 2] [] [(ShutdownRest, 1); (ShutdownRest, 2)].

Lemma ex_busy_reached : reach (init ex_config) ex_busy.
Proof.
  eapply rtc_l; [apply (step_dialled _ 0); reflexivity|].
  eapply rtc_l; [apply (step_enqueue _ 1); by apply Nat.ltb_lt|].
  eapply rtc_l; [eapply (step_worker _ 0); [reflexivity|by apply w_take]|].
  eapply rtc_l; [apply (step_enqueue _ 2); by apply Nat.ltb_lt|]. apply rtc_refl.
Qed.
Lemma ex_waiting_reached : reach (init ex_config) ex_waiting.
Proof.
  etrans; [apply ex_busy_reached|]. eapply rtc_l; [by apply step_close|].
  eapply rtc_l; [eapply (step_instr _ _ ICancel); [reflexivity|apply i_cancel]|]. apply rtc_refl.
Qed.
Lemma ex_stopped_reached : reach ex_waiting ex_stopped.
Proof.
  eapply rtc_l; [eapply (step_worker _ 0); [reflexivity|by apply w_end]|].
  eapply rtc_l; [eapply (step_worker _ 0); [reflexivity|by apply w_take]|].
  eapply rtc_l; [eapply (step_worker _ 0); [reflexivity|by apply w_leave]|].
  eapply rtc_l; [eapply (step_worker _ 0); [reflexivity|by apply w_connected]|].
  eapply rtc_l; [eapply (step_worker _ 0); [reflexivity|by apply w_stop]|]. apply rtc_refl.
Qed.

Lemma clickhouse_conserved_witness : s_received ex_busy ≡ₚ [2] ++ [1] ++ [] ++ [].
Proof. exact (proj1 (clickhouse_conserved ex_config ex_busy ex_busy_reached)). Defined.

(** Both rows are lost on [Close], with a live connection, and no metric counts them. *)
Lemma clickhouse_stop_loses_witness : s_inserted ex_stopped ⊆+ [] /\ (s_lost ex_stopped).*2 = [1; 2] /\ Forall (fun l => counted l.1 = false) (s_lost ex_stopped).
Proof.
  split; [|by repeat constructor].
  exact (clickhouse_stop_loses ex_config ex_waiting ex_stopped [ICloseSig] ex_waiting_reached eq_refl ex_stopped_reached eq_refl).
Defined.

Lemma clickhouse_stop_ends_witness : exists s', reach ex_waiting s' /\ s_prog s' = [ICloseSig] /\ s_workers s' = [] /\ s_boot s' = None.
Proof. exact (clickhouse_stop_ends ex_config ex_waiting [ICloseSig] ex_waiting_reached eq_refl). Defined.

(** Without a usable name of the table, which only [Validate] looks at, the
    goroutine that dials ends and no connection is ever made. *)
Example bad_table_never_connects :
  let c := setDefaults (mkConfig "ch" "" "" "my-table" "" "" None "" "" false [] 0 0 0 0 0 0 0 true "" "" "" false false) in
  dialUntilReady [mkTurn c false true true true false] = Some (BadTable (errIdent "table" "my-table")).
Proof. by vm_compute. Qed.

Lemma clickhouse_dial_witness : exists r, dialUntilReady [mkTurn ex_config false false true true false; mkTurn ex_config true true true true false] = Some r.
Proof.
  destruct (clickhouse_dial [mkTurn ex_config false false true true false; mkTurn ex_config true true true true false]) as (r & Hr & _).
  - apply Exists_cons. right. apply Exists_cons. by left.
  - by exists r.
Defined.

#[local] Existing Instance templates_toy.
Definition ex_raw_config : config := mkConfig "" "" "" "" "" "" None "" "" false [] 10 0 0 1 4 0 0 false "" "" "" false true.
Definition ex_inited : dynConfig * sys nat :=
  match Init "ch" (Some {["ttl" := AStr ""]}) (Ok ex_raw_config) true (Some []) with Ok x => x | _ => (mkDyn None [], init ex_config) end.

Definition ex_raw : gomap any := Some {["ttl" := AStr ""]}.
Lemma ex_inited_ok : Init (R := nat) "ch" ex_raw (Ok ex_raw_config) true (Some []) = Ok (fst ex_inited, snd ex_inited).
Proof. reflexivity. Qed.

Lemma clickhouse_same_update_witness :
  exists d', Update ex_raw (Ok ex_raw_config) None (fst ex_inited) (snd ex_inited) = Ok (d', snd ex_inited) /\ d_evps d' = [].
Proof.
  destruct (clickhouse_same_update ex_raw ex_raw_config "ch" true (Some []) None (fst ex_inited) (snd ex_inited) ex_inited_ok) as (d' & H1 & H2).
  exists d'. split; [exact H1|]. rewrite H2. reflexivity.
Defined.
