(* ===== verification/InfluxPoints.v ===== *)
(** * The InfluxDB output: configuration and points
    (pkg/outputs/influxdb_output/influxdb_output.go)

    Defaults and the options of the client; the points a worker makes of an
    event, which it changes in place; the limit on the log of values that are not
    finite. The client (a library) and the clock are arguments. The life of the
    output is in Influx.v. *)

From Stdlib Require Import Floats.SpecFloat.
From stdpp Require Import strings list gmap.
From S2P Require Import Prelude GoStrings Utf8 GoVal Text Event Tags Messages Processor Formats OutMsg Convert Prom ClickhouseRows.

#[local] Open Scope Z_scope.

Inductive influx_error := errInfluxDecode | errInfluxURL | errInfluxTemplate | errInfluxProcessors | errInfluxMetrics | errInfluxCache | errInfluxTLS | errInfluxCtx.

(** ** Configuration *)

(** [cache.Config] *)
Record cache_config := mkCacheConfig {
  cc_Type : string; cc_Address : string; cc_Timeout : Z; cc_Expiration : Z; cc_Debug : bool; cc_Username : string; cc_Password : string;
  cc_MaxBytes : Z; cc_MaxMsgsPerSubscription : Z; cc_FetchBatchSize : Z; cc_FetchWaitTime : Z }.

Record Config := mkInflux {
  i_Name : string; i_URL : string; i_Org : string; i_Bucket : string; i_Token : string; i_BatchSize : Z; i_FlushTimer : Z; i_UseGzip : bool;
  i_EnableTLS : bool; i_TLS : option TLSConfig; i_HealthCheckPeriod : Z; i_Debug : bool; i_AddTarget : string; i_TargetTemplate : string;
  i_EventProcessors : list string; i_EnableMetrics : bool; i_OverrideTimestamps : bool; i_TimestampPrecision : string;
  i_CacheConfig : option cache_config; i_CacheFlushTimer : Z; i_DeleteTag : string }.

Definition ms : Z := 1000000.
Definition minHealthCheckPeriod : Z := 30000 * ms.

Definition setDefaultsFor (c : Config) : Config :=
  mkInflux (i_Name c) (str_default "http://localhost:8086" (i_URL c)) (i_Org c) (i_Bucket c) (i_Token c)
    (if i_BatchSize c =? 0 then 1000 else i_BatchSize c) (if i_FlushTimer c =? 0 then 10000 * ms else i_FlushTimer c) (i_UseGzip c)
    (i_EnableTLS c) (i_TLS c)
    (if negb (i_HealthCheckPeriod c =? 0) && (i_HealthCheckPeriod c <? minHealthCheckPeriod) then minHealthCheckPeriod else i_HealthCheckPeriod c)
    (i_Debug c) (i_AddTarget c) (i_TargetTemplate c) (i_EventProcessors c) (i_EnableMetrics c) (i_OverrideTimestamps c) (i_TimestampPrecision c)
    (i_CacheConfig c)
    (match i_CacheConfig c with Some _ => if i_CacheFlushTimer c =? 0 then 5000 * ms else i_CacheFlushTimer c | None => i_CacheFlushTimer c end)
    (i_DeleteTag c).
Definition with_name (name : string) (c : Config) : Config :=
  mkInflux name (i_URL c) (i_Org c) (i_Bucket c) (i_Token c) (i_BatchSize c) (i_FlushTimer c) (i_UseGzip c) (i_EnableTLS c) (i_TLS c)
    (i_HealthCheckPeriod c) (i_Debug c) (i_AddTarget c) (i_TargetTemplate c) (i_EventProcessors c) (i_EnableMetrics c) (i_OverrideTimestamps c)
    (i_TimestampPrecision c) (i_CacheConfig c) (i_CacheFlushTimer c) (i_DeleteTag c).

(** What the client is given: the TLS settings are those of the files, or the
    one that verifies nothing. *)
Inductive tls_setting := Verified (t : TLSConfig) | InsecureSkipVerify.
Record Options := mkOptions {
  o_UseGzip : bool; o_BatchSize : Z; o_FlushInterval : Z; o_TLS : option tls_setting; o_Precision : Z; o_LogLevel : option Z }.

(** [uint(d.Milliseconds())]: a negative timer wraps. *)
Definition flush_interval (d : Z) : Z := wrap KUint (Z.quot d ms).

(** [tls_files] is whether the files of a TLS configuration can be read. *)
Definition clientOptsFor (tls_files : TLSConfig -> bool) (c : Config) : go influx_error Options :=
  tls ← match i_TLS c with
        | None => Ok None
        | Some t => if tls_files t then Ok (Some (Verified t)) else Err errInfluxTLS
        end;
  Ok (mkOptions (i_UseGzip c) (i_BatchSize c) (flush_interval (i_FlushTimer c))
        (if i_EnableTLS c then Some InsecureSkipVerify else tls)
        (if String.eqb (i_TimestampPrecision c) "s" then 1000 * ms else if String.eqb (i_TimestampPrecision c) "ms" then ms
         else if String.eqb (i_TimestampPrecision c) "us" then 1000 else 1)
        (if i_Debug c then Some 3 else None)).

(** [clientNeedsRebuild], [cacheCfgEqual] *)
Definition clientNeedsRebuild (old nw : Config) : bool :=
  negb (String.eqb (i_URL old) (i_URL nw)) || negb (String.eqb (i_Org old) (i_Org nw)) || negb (String.eqb (i_Bucket old) (i_Bucket nw))
  || negb (String.eqb (i_Token old) (i_Token nw)) || negb (i_BatchSize old =? i_BatchSize nw) || negb (i_FlushTimer old =? i_FlushTimer nw)
  || negb (Bool.eqb (i_UseGzip old) (i_UseGzip nw)) || negb (Bool.eqb (i_EnableTLS old) (i_EnableTLS nw)) || negb (TLS_Equal (i_TLS old) (i_TLS nw))
  || negb (String.eqb (i_TimestampPrecision old) (i_TimestampPrecision nw)) || negb (Bool.eqb (i_Debug old) (i_Debug nw)).
Definition cacheCfgEqual (a b : option cache_config) : bool :=
  match a, b with
  | None, None => true
  | Some a, Some b =>
      String.eqb (cc_Type a) (cc_Type b) && (cc_Expiration a =? cc_Expiration b) && Bool.eqb (cc_Debug a) (cc_Debug b)
      && String.eqb (cc_Address a) (cc_Address b) && (cc_Timeout a =? cc_Timeout b) && String.eqb (cc_Username a) (cc_Username b)
      && String.eqb (cc_Password a) (cc_Password b) && (cc_MaxBytes a =? cc_MaxBytes b)
      && (cc_MaxMsgsPerSubscription a =? cc_MaxMsgsPerSubscription b) && (cc_FetchBatchSize a =? cc_FetchBatchSize b)
      && (cc_FetchWaitTime a =? cc_FetchWaitTime b)
  | _, _ => false
  end.

(** ** Points *)

Record point := mkPoint { pt_Measurement : string; pt_Tags : gmap string string; pt_Fields : gmap string any; pt_Time : Z }.

Definition decimal_value (v : any) : any := match v with ADecimal d p => AF64 (f64_div (f64_of_Z d) (pow10 p)) | _ => v end.
Definition non_finite (v : any) : bool := match v with AF64 f | AF32 f => is_nan f || is_inf f | _ => false end.

(** [strings.TrimPrefix] *)
Definition trim_prefix (p s : string) : string := if has_prefix p s then sdrop (String.length p) s else s.
Definition isInfluxDB1 (version : string) : bool :=
  let v := trim_prefix "V" (trim_prefix "v" (trim_space version)) in String.eqb v "1" || has_prefix "1." v.

(** [int(v)] of an unsigned value. *)
Definition unsigned_value (v : any) : any :=
  match v with AInt (KUint | KUint8 | KUint16 | KUint32 | KUint64) z => AInt KInt (wrap KInt z) | _ => v end.
(** [version] is what the health check stored, if it did. *)
Definition convertUints (version : option string) (values : gomap any) : gomap any :=
  match version with Some v => if isInfluxDB1 v then fmap (M := gmap string) unsigned_value <$> values else values | None => values end.

Section points.
Context `{MapOrder}.

Definition dropNonFinite (values : gomap any) : gomap any * list string :=
  (filter (fun kv => non_finite kv.2 = false) <$> values, (filter (fun kv => non_finite kv.2 = true) (range (gm_tab values))).*1).

Definition stamp (c : Config) (now : Z) (ev : EventMsg) : Z := if (ev_Timestamp ev =? 0) || i_OverrideTimestamps c then now else ev_Timestamp ev.
Definition named_by_subscription (ev : EventMsg) : string * gomap string :=
  match gm_get (ev_Tags ev) "subscription-name" with Some s => (s, gm_del "subscription-name" (ev_Tags ev)) | None => (ev_Name ev, ev_Tags ev) end.

(** The body of a worker for an event that is not nil: the event as it leaves it,
    the points it writes and the fields it dropped. *)
Definition worker_event (c : Config) (version : option string) (now : Z) (ev : EventMsg) : EventMsg * list point * list string :=
  let deletes := default [] (ev_Deletes ev) in
  let has_deletes := negb (Nat.eqb (length deletes) 0) in
  let has (m : gomap any) := negb (Nat.eqb (gm_len m) 0) in
  if negb (has (ev_Values ev)) && (negb has_deletes || String.eqb (i_DeleteTag c) "") then (ev, [], [])
  else
    let '(values, dropped) := dropNonFinite (fmap (M := gmap string) decimal_value <$> ev_Values ev) in
    if negb (has values) && negb has_deletes
    then (mkEvent (ev_Name ev) (ev_Timestamp ev) (ev_Tags ev) values (ev_Deletes ev), [], dropped)
    else
      let t := stamp c now ev in
      let '(name, tags) := named_by_subscription ev in
      let values := convertUints version values in
      (mkEvent name t tags values (ev_Deletes ev),
       (if has values then [mkPoint name (gm_tab tags) (gm_tab values) t] else [])
       ++ (if has_deletes && negb (String.eqb (i_DeleteTag c) "")
           then [mkPoint name (<[i_DeleteTag c := "true"]> (gm_tab tags)) (list_to_map ((fun d => (d, AStr "")) <$> deletes)) t] else []),
       dropped).
End points.

(** ** The log of dropped fields *)

Record nonFiniteLogState := mkLog { l_first : bool; l_nextLog : Z; l_suppressed : Z; l_fields : gset string }.
Definition nonFiniteLogInterval : Z := 300000 * ms.
Inductive log_line := FirstDrop (measurement : string) (fields : list string) | DropSummary (fields : list string) (count : Z).

Definition logNonFinite (now : Z) (measurement : string) (dropped : list string) (st : nonFiniteLogState) : nonFiniteLogState * option log_line :=
  let fields := l_fields st ∪ list_to_set ((fun f => measurement +:+ ("/" +:+ f)) <$> dropped) in
  let suppressed := l_suppressed st + Z.of_nat (length dropped) in
  if l_first st && (now <? l_nextLog st) then (mkLog (l_first st) (l_nextLog st) suppressed fields, None)
  else (mkLog true (now + nonFiniteLogInterval) 0 ∅,
        Some (if l_first st then DropSummary (sort_strings (elements fields)) suppressed else FirstDrop measurement dropped)).

Fixpoint run_log (l : list (Z * string * list string)) (st : nonFiniteLogState) : nonFiniteLogState * list (Z * log_line) :=
  match l with
  | [] => (st, [])
  | (now, m, d) :: l =>
      let '(st, line) := logNonFinite now m d st in
      let '(st, lines) := run_log l st in
      (st, match line with Some x => (now, x) :: lines | None => lines end)
  end.

(** ** Configuration: properties *)

Theorem influx_defaults_again c : setDefaultsFor (setDefaultsFor c) = setDefaultsFor c.
Proof.
  destruct c as [n u o b tk bs ft gz et tls hc d at_ tt ep em ot tp cc cft dt]. unfold setDefaultsFor. cbn. f_equal.
  - unfold str_default. destruct (String.eqb u "") eqn:E; [done|by rewrite E].
  - destruct (bs =? 0) eqn:E; [done|by rewrite E].
  - destruct (ft =? 0) eqn:E; [done|by rewrite E].
  - destruct (negb (hc =? 0) && (hc <? minHealthCheckPeriod)) eqn:E; [done|by rewrite E].
  - destruct cc; [|done]. destruct (cft =? 0) eqn:E; [done|by rewrite E].
Qed.

(** When the client is kept, the one in use is the one the new configuration
    would make. *)
Theorem influx_rebuild_exact tls_files old nw : clientNeedsRebuild old nw = false ->
  clientOptsFor tls_files old = clientOptsFor tls_files nw /\
  i_URL old = i_URL nw /\ i_Org old = i_Org nw /\ i_Bucket old = i_Bucket nw /\ i_Token old = i_Token nw.
Proof.
  unfold clientNeedsRebuild. rewrite !orb_false_iff, !negb_false_iff, !String.eqb_eq, !Z.eqb_eq, !Bool.eqb_true_iff, TLS_Equal_spec.
  intros ((((((((((H1 & H2) & H3) & H4) & H5) & H6) & H7) & H8) & H9) & H10) & H11). unfold clientOptsFor. rewrite H5, H6, H7, H8, H9, H10, H11. done.
Qed.

(** [enable-tls] replaces the TLS configuration: nothing is verified, whatever
    certificates are configured. *)
Theorem influx_enable_tls tls_files c o : i_EnableTLS c = true -> clientOptsFor tls_files c = Ok o -> o_TLS o = Some InsecureSkipVerify.
Proof.
  intros He Ho. unfold clientOptsFor in Ho. apply bind_ok in Ho as (tls & _ & Ho). rewrite He in Ho.
  assert (Hi : forall x y : Options, Ok (E := influx_error) x = Ok y -> x = y) by congruence. by apply Hi in Ho as <-.
Qed.

Lemma cacheCfgEqual_spec a b : cacheCfgEqual a b = true <-> a = b.
Proof.
  destruct a as [[t a to e d u p mb mm fb fw]|], b as [[t' a' to' e' d' u' p' mb' mm' fb' fw']|]; cbn; try done.
  rewrite !andb_true_iff, !String.eqb_eq, !Z.eqb_eq, !Bool.eqb_true_iff. split.
  - by intros ((((((((((-> & ->) & ->) & ->) & ->) & ->) & ->) & ->) & ->) & ->) & ->).
  - by intros [= -> -> -> -> -> -> -> -> -> -> ->].
Qed.

(** ** Points: properties *)

Section points_facts.
Context `{MapOrder}.

(** The fields that can be written, with their numbers as the server takes them. *)
Definition finite_fields (ev : EventMsg) : gmap string any := filter (fun kv => non_finite kv.2 = false) (decimal_value <$> gm_tab (ev_Values ev)).
Definition server_fields (version : option string) (m : gmap string any) : gmap string any :=
  match version with Some v => if isInfluxDB1 v then unsigned_value <$> m else m | None => m end.

Lemma gm_tab_fmap {A B} (f : A -> B) (m : gomap A) : gm_tab (fmap (M := gmap string) f <$> m) = f <$> gm_tab m.
Proof. destruct m; [done|]. cbn. by rewrite fmap_empty. Qed.
Lemma gm_tab_drop values : gm_tab (dropNonFinite values).1 = filter (fun kv => non_finite kv.2 = false) (gm_tab values).
Proof. destruct values; [done|]. cbn. by rewrite map_filter_empty. Qed.
Lemma gm_tab_uints v m : gm_tab (convertUints v m) = server_fields v (gm_tab m).
Proof. unfold convertUints, server_fields. destruct v as [v|]; [|done]. destruct (isInfluxDB1 v); [apply gm_tab_fmap|done]. Qed.

Lemma has_spec (m : gomap any) : negb (Nat.eqb (gm_len m) 0) = negb (bool_decide (gm_tab m = ∅)).
Proof. unfold gm_len. f_equal. destruct (Nat.eqb_spec (size (gm_tab m)) 0) as [E|E]; symmetry; [apply bool_decide_eq_true_2|apply bool_decide_eq_false_2]; by rewrite <-map_size_empty_iff. Qed.
Lemma server_fields_empty v m : server_fields v m = ∅ <-> m = ∅.
Proof. unfold server_fields. destruct v as [v|]; [|done]. destruct (isInfluxDB1 v); [apply fmap_empty_iff|done]. Qed.
Lemma finite_fields_empty ev : gm_tab (ev_Values ev) = ∅ -> finite_fields ev = ∅.
Proof. intros E. unfold finite_fields. by rewrite E, fmap_empty, map_filter_empty. Qed.
Lemma unsigned_finite v : non_finite (unsigned_value v) = non_finite v.
Proof. by destruct v as [| | |[]| | | | | | | | |]. Qed.

(** The points of an event: one with its finite fields when there are any, one
    with its deletes when there are any and a tag for them is configured. *)
Definition event_points (c : Config) (version : option string) (now : Z) (ev : EventMsg) : list point :=
  let '(name, tags) := named_by_subscription ev in
  let deletes := default [] (ev_Deletes ev) in
  (if decide (finite_fields ev = ∅) then [] else [mkPoint name (gm_tab tags) (server_fields version (finite_fields ev)) (stamp c now ev)])
  ++ (if decide (deletes = [] \/ i_DeleteTag c = "") then []
      else [mkPoint name (<[i_DeleteTag c := "true"]> (gm_tab tags)) (list_to_map ((fun d => (d, AStr "")) <$> deletes)) (stamp c now ev)]).

Lemma dropped_spec ev k : k ∈ (dropNonFinite (fmap (M := gmap string) decimal_value <$> ev_Values ev)).2 <->
  exists v, gm_tab (ev_Values ev) !! k = Some v /\ non_finite (decimal_value v) = true.
Proof.
  unfold dropNonFinite. cbn [snd]. rewrite gm_tab_fmap, list_elem_of_fmap. split.
  - intros ([k' v'] & -> & [Hn Hin]%list_elem_of_filter). apply elem_of_range in Hin. rewrite lookup_fmap in Hin.
    destruct (gm_tab (ev_Values ev) !! k') as [v|] eqn:E; cbn in *; [|congruence]. exists v. split; [done|]. by simplify_eq/=.
  - intros (v & Hk & Hn). exists (k, decimal_value v). split; [done|]. apply list_elem_of_filter. split; [done|]. apply elem_of_range. by rewrite lookup_fmap, Hk.
Qed.

Lemma drop_values ev values dropped : dropNonFinite (fmap (M := gmap string) decimal_value <$> ev_Values ev) = (values, dropped) ->
  gm_tab values = finite_fields ev /\ (gm_tab (ev_Values ev) = ∅ -> dropped = []).
Proof.
  intros Ed. split.
  - replace values with (dropNonFinite (fmap (M := gmap string) decimal_value <$> ev_Values ev)).1 by by rewrite Ed. by rewrite gm_tab_drop, gm_tab_fmap.
  - intros E. apply elem_of_nil_inv. intros k Hk. replace dropped with (dropNonFinite (fmap (M := gmap string) decimal_value <$> ev_Values ev)).2 in Hk by by rewrite Ed.
    apply dropped_spec in Hk as (v & Hv & _). by rewrite E in Hv.
Qed.

Lemma no_deletes (l : list string) : negb (Nat.eqb (length l) 0) = negb (bool_decide (l = [])).
Proof. by destruct l. Qed.

(** A worker writes them and drops the fields that are NaN or infinite. *)
Lemma worker_event_points c version now ev :
  (worker_event c version now ev).1.2 = event_points c version now ev /\
  (worker_event c version now ev).2 = (dropNonFinite (fmap (M := gmap string) decimal_value <$> ev_Values ev)).2.
Proof.
  unfold worker_event, event_points. cbv zeta. destruct (named_by_subscription ev) as [name tags]. destruct (dropNonFinite _) as [values dropped] eqn:Ed.
  destruct (drop_values _ _ _ Ed) as [Hval Hnil]. rewrite !has_spec, no_deletes, gm_tab_uints, Hval. cbn [snd fst].
  rewrite (bool_decide_ext _ _ (server_fields_empty version (finite_fields ev))).
  set (deletes := default [] (ev_Deletes ev)).
  destruct (bool_decide_reflect (gm_tab (ev_Values ev) = ∅)) as [Hv|Hv].
  - rewrite (finite_fields_empty ev Hv), (bool_decide_eq_true_2 _ eq_refl), decide_True by done. rewrite (Hnil Hv).
    destruct (bool_decide_reflect (deletes = [])) as [Hl|Hl]; destruct (String.eqb_spec (i_DeleteTag c) "") as [Ht|Ht]; cbn [negb andb orb fst snd app];
      first [rewrite decide_True by tauto; done|rewrite decide_False by tauto; done].
  - cbn [negb andb]. destruct (bool_decide_reflect (finite_fields ev = ∅)) as [Hf|Hf]; [rewrite (decide_True (P := finite_fields ev = ∅)) by done|rewrite (decide_False (P := finite_fields ev = ∅)) by done];
    destruct (bool_decide_reflect (deletes = [])) as [Hl|Hl]; destruct (String.eqb_spec (i_DeleteTag c) "") as [Ht|Ht]; cbn [negb andb orb fst snd app];
      first [rewrite decide_True by tauto; done|rewrite decide_False by tauto; done].
Qed.

Definition writable (p : point) : Prop := map_Forall (fun _ v => non_finite v = false) (pt_Fields p) /\ pt_Fields p <> ∅.

Lemma server_fields_finite version ev : map_Forall (fun _ v => non_finite v = false) (server_fields version (finite_fields ev)).
Proof.
  assert (Hf : map_Forall (fun _ v => non_finite v = false) (finite_fields ev)) by (intros k v [_ Hv]%map_lookup_filter_Some; exact Hv).
  unfold server_fields. destruct version as [v|]; [|done]. destruct (isInfluxDB1 v); [|done]. intros k x Hk. rewrite lookup_fmap in Hk.
  destruct (finite_fields ev !! k) as [y|] eqn:E; [|done]. injection Hk as <-. rewrite unsigned_finite. by eapply Hf.
Qed.
Lemma deletes_writable (l : list string) : l <> [] ->
  map_Forall (fun _ v => non_finite v = false) (list_to_map (M := gmap string any) ((fun d => (d, AStr "")) <$> l)) /\
  list_to_map (M := gmap string any) ((fun d => (d, AStr "")) <$> l) <> ∅.
Proof.
  intros Hl. split.
  - intros k v Hk. apply elem_of_list_to_map_2, list_elem_of_fmap in Hk as (d & [= _ ->] & _). done.
  - destruct l; [done|]. cbn. apply insert_non_empty.
Qed.
Lemma event_points_writable c version now ev : Forall writable (event_points c version now ev).
Proof.
  unfold event_points. destruct (named_by_subscription ev) as [name tags]. apply Forall_app. split.
  - destruct (decide _) as [|Hf]; [constructor|]. repeat constructor; cbn; [apply server_fields_finite|by rewrite server_fields_empty].
  - destruct (decide _) as [|Hd]; [constructor|]. repeat constructor; apply deletes_writable; tauto.
Qed.

(** C40: What a worker makes of an event: the points above, none of whose fields is
    NaN or infinite and none of which is empty; the fields it drops are those whose
    value is NaN or infinite, and no other. *)
Theorem influx_points_spec c version now ev :
  let '(ev', pts, dropped) := worker_event c version now ev in
  pts = event_points c version now ev /\ Forall writable pts /\
  (forall k, k ∈ dropped <-> exists v, gm_tab (ev_Values ev) !! k = Some v /\ non_finite (decimal_value v) = true).
Proof.
  destruct (worker_event_points c version now ev) as [Hp Hd]. destruct (worker_event c version now ev) as [[ev' pts] dropped]. cbn [fst snd] in *.
  split; [done|]. split; [rewrite Hp; apply event_points_writable|]. intros k. rewrite Hd. apply dropped_spec.
Qed.

(** A 1.x server gets no unsigned field; a number that fits in an int keeps its
    value there, a larger one wraps to a negative. *)
Theorem influx_unsigned version fields k v : isInfluxDB1 version = true -> server_fields (Some version) fields !! k = Some v ->
  match v with
  | AInt (KUint | KUint8 | KUint16 | KUint32 | KUint64) _ => False
  | AInt KInt z => fields !! k = Some v \/ exists u z', kind_signed u = false /\ fields !! k = Some (AInt u z') /\ z = wrap KInt z' /\ (in_kind KInt z' = true -> z = z')
  | _ => fields !! k = Some v
  end.
Proof.
  intros Hv Hk. unfold server_fields in Hk. rewrite Hv, lookup_fmap in Hk. destruct (fields !! k) as [w|]; [|done]. injection Hk as <-.
  destruct w as [| | |[] z| | | | | | | | |]; cbn; try done; try (by left);
    right; eexists _, z; (split; [|split; [reflexivity|split; [reflexivity|apply wrap_id]]]); reflexivity.
Qed.

Definition clean (v : any) : Prop := decimal_value v = v /\ non_finite v = false.
Lemma drop_clean (m : gomap any) : map_Forall (fun _ v => clean v) (gm_tab m) -> dropNonFinite (fmap (M := gmap string) decimal_value <$> m) = (m, []).
Proof.
  intros Hc. assert (Hm : fmap (M := gmap string) decimal_value <$> m = m).
  { destruct m as [m|]; [|done]. cbn in *. f_equal. apply map_eq. intros k. rewrite lookup_fmap. destruct (m !! k) as [v|] eqn:E; [|done]. cbn. f_equal. by apply (Hc k). }
  unfold dropNonFinite. rewrite Hm. f_equal.
  - destruct m as [m|]; [|done]. cbn. f_equal. apply map_filter_id. intros k v Hk. by apply (Hc k).
  - apply elem_of_nil_inv. intros k Hk. apply list_elem_of_fmap in Hk as ([k' v] & -> & [Hn Hin]%list_elem_of_filter). apply elem_of_range in Hin.
    cbn in *. destruct (Hc _ _ Hin). congruence.
Qed.

Lemma values_clean version ev values : gm_tab values = finite_fields ev -> map_Forall (fun _ v => clean v) (gm_tab (convertUints version values)).
Proof.
  intros Hv. rewrite gm_tab_uints, Hv. intros k v Hk. split; [|by eapply server_fields_finite].
  assert (Hu : forall w, decimal_value (unsigned_value (decimal_value w)) = unsigned_value (decimal_value w)) by by intros [| | |[]| | | | | | | | |].
  assert (Hd : forall w, decimal_value (decimal_value w) = decimal_value w) by by intros [].
  assert (Hf : forall w, finite_fields ev !! k = Some w -> exists x, w = decimal_value x).
  { intros w [Hw _]%map_lookup_filter_Some. rewrite lookup_fmap in Hw. destruct (gm_tab (ev_Values ev) !! k) as [x|]; [|done]. injection Hw as <-. by exists x. }
  unfold server_fields in Hk. destruct version as [n|]; [|by destruct (Hf _ Hk) as [x ->]]. destruct (isInfluxDB1 n); [|by destruct (Hf _ Hk) as [x ->]].
  rewrite lookup_fmap in Hk. destruct (finite_fields ev !! k) as [w|] eqn:E; [|done]. injection Hk as <-. destruct (Hf _ eq_refl) as [x ->]. apply Hu.
Qed.

Lemma convertUints_again version m : convertUints version (convertUints version m) = convertUints version m.
Proof.
  unfold convertUints. destruct version as [v|]; [|done]. destruct (isInfluxDB1 v); [|done]. destruct m as [m|]; [|done]. cbn. f_equal.
  rewrite <-map_fmap_compose. apply map_fmap_ext. intros k x _. by destruct x as [| | |[]| | | | | | | | |].
Qed.

Lemma named_again ev name tags t values d : named_by_subscription ev = (name, tags) ->
  named_by_subscription (mkEvent name t tags values d) = (name, tags).
Proof.
  unfold named_by_subscription. destruct (gm_get (ev_Tags ev) "subscription-name") as [s|] eqn:E; intros [= <- <-]; cbn [ev_Tags ev_Name].
  - assert (Hg : gm_get (gm_del "subscription-name" (ev_Tags ev)) "subscription-name" = None) by (destruct (ev_Tags ev) as [m|]; [apply lookup_delete_eq|done]).
    by rewrite Hg.
  - by rewrite E.
Qed.

(** The event is changed in place; the same event handled again, by another output
    with the same configuration, gives the same points. *)
Theorem influx_points_again c version now now' ev : i_OverrideTimestamps c = false -> now <> 0 ->
  let '(ev', pts, _) := worker_event c version now ev in worker_event c version now' ev' = (ev', pts, []).
Proof.
  intros Ho Hnow. destruct (worker_event c version now ev) as [[ev' pts] dr] eqn:E. pose proof E as E0. unfold worker_event in E. cbv zeta in E.
  destruct (negb _ && _) eqn:Hskip; [injection E as <- <- <-; unfold worker_event; cbv zeta; by rewrite Hskip|].
  destruct (dropNonFinite _) as [values dropped] eqn:Ed. destruct (drop_values _ _ _ Ed) as [Hval _].
  destruct (negb _ && negb _) eqn:Hnone.
  - injection E as <- <- <-. apply andb_true_iff in Hnone as [Hn1 Hn2]. unfold worker_event. cbv zeta. cbn [ev_Values ev_Deletes]. by rewrite Hn1, Hn2.
  - destruct (named_by_subscription ev) as [name tags] eqn:En. injection E as <- <- <-.
    assert (Ht : stamp c now' (mkEvent name (stamp c now ev) tags (convertUints version values) (ev_Deletes ev)) = stamp c now ev).
    { unfold stamp. rewrite Ho, !orb_false_r. cbn. destruct (Z.eqb_spec (ev_Timestamp ev) 0) as [E|E]; [destruct (Z.eqb_spec now 0); [done|done]|]. by destruct (Z.eqb_spec (ev_Timestamp ev) 0). }
    unfold worker_event. cbv zeta. rewrite (named_again ev), Ht by done. cbn [ev_Values ev_Deletes]. rewrite (drop_clean _ (values_clean _ _ _ Hval)), convertUints_again.
    destruct (Nat.eqb (gm_len (convertUints version values)) 0), (Nat.eqb (length (default [] (ev_Deletes ev))) 0), (String.eqb (i_DeleteTag c) ""); done.
Qed.
End points_facts.

(** ** The log: properties *)

Definition reported (line : log_line) : Z := match line with FirstDrop _ fields => Z.of_nat (length fields) | DropSummary _ n => n end.
Definition total (l : list (Z * string * list string)) : Z := foldr Z.add 0 ((fun x => Z.of_nat (length x.2)) <$> l).
Definition total_reported (lines : list (Z * log_line)) : Z := foldr Z.add 0 ((fun x => reported x.2) <$> lines).

(** Lines are at least the interval apart. *)
Fixpoint spaced (lines : list (Z * log_line)) : Prop :=
  match lines with
  | (t, _) :: ((t', _) :: _) as rest => t + nonFiniteLogInterval <= t' /\ spaced rest
  | _ => True
  end.
Definition log_ok (st : nonFiniteLogState) : Prop := l_first st = false -> l_suppressed st = 0 /\ l_fields st = ∅.

Lemma run_log_ok l st : log_ok st -> let '(st', lines) := run_log l st in
  total_reported lines + l_suppressed st' = l_suppressed st + total l /\ log_ok st' /\ spaced lines /\
  (l_first st = true -> match lines with (t, _) :: _ => l_nextLog st <= t | [] => True end).
Proof.
  revert st. induction l as [|[[now m] d] l IH]; intros st Hst; cbn [run_log]; [split; [unfold total, total_reported; cbn; lia|done]|].
  unfold logNonFinite. cbv zeta. destruct (l_first st && (now <? l_nextLog st)) eqn:E.
  - apply andb_true_iff in E as [Hf _]. set (st1 := mkLog _ _ _ _). assert (Hok : log_ok st1) by (unfold log_ok, st1; cbn; congruence).
    specialize (IH st1 Hok). destruct (run_log l st1) as [st' lines]. destruct IH as (H1 & H2 & H3 & H4). split; [|split; [done|split; [done|]]].
    + unfold total in *. cbn [fmap list_fmap foldr snd]. rewrite H1. unfold st1. cbn. lia.
    + intros _. by apply H4.
  - set (st1 := mkLog _ _ _ _). assert (Hok : log_ok st1) by (unfold log_ok, st1; cbn; congruence).
    specialize (IH st1 Hok). destruct (run_log l st1) as [st' lines]. destruct IH as (H1 & H2 & H3 & H4).
    assert (Hrep : reported (if l_first st then DropSummary (sort_strings (elements (l_fields st ∪ list_to_set ((fun f => m +:+ ("/" +:+ f)) <$> d)))) (l_suppressed st + Z.of_nat (length d)) else FirstDrop m d) = l_suppressed st + Z.of_nat (length d)).
    { destruct (l_first st) eqn:Ef; [done|]. destruct (Hst Ef) as [-> _]. cbn. lia. }
    split; [|split; [done|split]].
    + unfold total, total_reported in *. cbn [fmap list_fmap foldr snd]. rewrite Hrep. unfold st1 in H1. cbn in H1. lia.
    + destruct lines as [|[t x] lines]; [done|]. split; [|done]. apply (H4 eq_refl).
    + intros Hf. rewrite Hf in E. cbn in E. by apply Z.ltb_ge in E.
Qed.

(** The log counts every dropped field once and writes at most one line in each
    interval; what it has not written is in its state. *)
Theorem influx_log_counts l : let '(st, lines) := run_log l (mkLog false 0 0 ∅) in
  total_reported lines + l_suppressed st = total l /\ spaced lines.
Proof.
  pose proof (run_log_ok l (mkLog false 0 0 ∅) (fun _ => conj eq_refl eq_refl)) as H. destruct (run_log l _) as [st lines]. destruct H as (H1 & _ & H3 & _).
  split; [cbn in H1; lia|done].
Qed.
