(* ===== verification/Influx.v ===== *)
(** * The InfluxDB output: its life (pkg/outputs/influxdb_output)

    The worker with the client it was bound to and the reset channel it listens
    on, the health check that closes the reset channel and the start signal, and
    [Update] and [Close], as one step relation; then the cache of the output with
    its goroutine and its ticker. Whether a probe succeeds and when tickers fire is
    what the steps leave open. Updates follow one another, since the manager makes
    them under the lock of the output; [Close], which the manager and the goroutine
    of [Init] call without it, may begin at any time, and [step] has the flag
    [overlap] for the runs in which it does begin during an [Update], or an [Update]
    after it. A channel that is closed a second time panics and ends the program. *)

From stdpp Require Import strings list gmap relations.
From S2P Require Import Prelude GoStrings GoVal Text Event Tags Processor Messages Formats OutMsg Convert Prom ClickhouseRows InfluxPoints.

#[local] Open Scope nat_scope.

(** An atomic pointer to a channel or a client: which one is stored, how many were
    made, those that are closed. *)
Record cell := mkCell { c_cur : nat; c_made : nat; c_closed : list nat }.
Definition fresh (x : cell) : cell := mkCell (c_made x) (S (c_made x)) (c_closed x).
Definition close_in (k : nat) (x : cell) : cell := mkCell (c_cur x) (c_made x) (k :: c_closed x).
Definition is_closed (k : nat) (x : cell) : bool := bool_decide (k ∈ c_closed x).

(** A worker: at [START] (for the first time or not), waiting for the start
    signal, about to take the client, with a client, in its loop. *)
Inductive phase := WStart (first : bool) | WPark (sig : nat) | WBind | WGot (c : nat) | WRun (c r : nat).
Record worker := mkWorker { w_gen : nat; w_phase : phase }.

(** A health check: between two probes, in a probe, and swapping one of the two
    channels before it closes the old one. *)
Inductive hphase := HTick | HProbe | HErr | HErrStore (old : nat) | HErrClose (old : nat) | HOk | HOkStore (old : nat) | HOkClose (old : nat).
(** [h_gen]: the one of [Init] runs under the context of the first workers;
    [h_once]: the probe that [Update] makes itself. *)
Record health := mkHealth { h_id : nat; h_gen : option nat; h_once : bool; h_phase : hphase }.

(** [ICancel g] and [IWait g]: cancel and wait for the workers of generation [g];
    [ICancelCur] and [IWaitCur] read which is the current one. *)
Inductive instr := ICfg (c : Config) | IClient | IStart | ICancel (g : nat) | IWait (g : nat) | ICloseClient (c : nat)
| IHCancel | IProbe | IProbed | IHStart | ICancelCur | IReset | IResetClose (r : nat) | IWaitCur | ICloseCur.

(** [s_gen]: the generation whose cancel function and wait group the fields hold;
    [s_dead]: those cancelled; [s_prog] and [s_close]: what [Update] and [Close]
    have left to do. *)
Record sys := mkSys {
  s_cfg : Config; s_client : cell; s_reset : cell; s_sig : cell; s_gen : nat; s_dead : list nat; s_root : bool; s_done : bool;
  s_workers : list worker; s_health : list health; s_hmade : nat; s_hcur : option nat; s_hdead : list nat; s_prog : list instr; s_close : list instr;
  s_writes : list nat; s_panic : bool }.

Definition with_cells (client reset sig : cell) (s : sys) : sys :=
  mkSys (s_cfg s) client reset sig (s_gen s) (s_dead s) (s_root s) (s_done s) (s_workers s) (s_health s) (s_hmade s) (s_hcur s) (s_hdead s) (s_prog s) (s_close s) (s_writes s) (s_panic s).
Definition with_workers (l : list worker) (s : sys) : sys :=
  mkSys (s_cfg s) (s_client s) (s_reset s) (s_sig s) (s_gen s) (s_dead s) (s_root s) (s_done s) l (s_health s) (s_hmade s) (s_hcur s) (s_hdead s) (s_prog s) (s_close s) (s_writes s) (s_panic s).
Definition with_health (l : list health) (made : nat) (cur : option nat) (dead : list nat) (s : sys) : sys :=
  mkSys (s_cfg s) (s_client s) (s_reset s) (s_sig s) (s_gen s) (s_dead s) (s_root s) (s_done s) (s_workers s) l made cur dead (s_prog s) (s_close s) (s_writes s) (s_panic s).
Definition with_prog (p : list instr) (s : sys) : sys :=
  mkSys (s_cfg s) (s_client s) (s_reset s) (s_sig s) (s_gen s) (s_dead s) (s_root s) (s_done s) (s_workers s) (s_health s) (s_hmade s) (s_hcur s) (s_hdead s) p (s_close s) (s_writes s) (s_panic s).
Definition with_close (p : list instr) (s : sys) : sys :=
  mkSys (s_cfg s) (s_client s) (s_reset s) (s_sig s) (s_gen s) (s_dead s) (s_root s) (s_done s) (s_workers s) (s_health s) (s_hmade s) (s_hcur s) (s_hdead s) (s_prog s) p (s_writes s) (s_panic s).
Definition with_gen (gen : nat) (dead : list nat) (s : sys) : sys :=
  mkSys (s_cfg s) (s_client s) (s_reset s) (s_sig s) gen dead (s_root s) (s_done s) (s_workers s) (s_health s) (s_hmade s) (s_hcur s) (s_hdead s) (s_prog s) (s_close s) (s_writes s) (s_panic s).
Definition with_cfg (c : Config) (s : sys) : sys :=
  mkSys c (s_client s) (s_reset s) (s_sig s) (s_gen s) (s_dead s) (s_root s) (s_done s) (s_workers s) (s_health s) (s_hmade s) (s_hcur s) (s_hdead s) (s_prog s) (s_close s) (s_writes s) (s_panic s).
Definition with_flags (root done panic : bool) (s : sys) : sys :=
  mkSys (s_cfg s) (s_client s) (s_reset s) (s_sig s) (s_gen s) (s_dead s) root done (s_workers s) (s_health s) (s_hmade s) (s_hcur s) (s_hdead s) (s_prog s) (s_close s) (s_writes s) panic.
Definition with_writes (l : list nat) (s : sys) : sys :=
  mkSys (s_cfg s) (s_client s) (s_reset s) (s_sig s) (s_gen s) (s_dead s) (s_root s) (s_done s) (s_workers s) (s_health s) (s_hmade s) (s_hcur s) (s_hdead s) (s_prog s) (s_close s) l (s_panic s).
Definition panicked (s : sys) : sys := with_flags (s_root s) (s_done s) true s.

Definition ended (s : sys) (g : nat) : bool := s_root s || bool_decide (g ∈ s_dead s).
Definition h_ended (s : sys) (h : health) : bool :=
  s_root s || bool_decide (h_id h ∈ s_hdead s) || match h_gen h with Some g => bool_decide (g ∈ s_dead s) | None => false end.
Definition checks (c : Config) : bool := (0 <? i_HealthCheckPeriod c)%Z.

(** [worker]: the client of a write, if the step is one. *)
Inductive wstep (s : sys) (end_ : bool) : phase -> option phase -> option nat -> Prop :=
| w_start_end first : end_ = true -> wstep s end_ (WStart first) None None
| w_start first : end_ = false -> wstep s end_ (WStart first) (Some (if negb first && checks (s_cfg s) then WPark (c_cur (s_sig s)) else WBind)) None
| w_park_end sig : end_ = true -> wstep s end_ (WPark sig) None None
| w_wake sig : is_closed sig (s_sig s) = true -> wstep s end_ (WPark sig) (Some WBind) None
| w_bind : wstep s end_ WBind (Some (WGot (c_cur (s_client s)))) None
| w_listen c : wstep s end_ (WGot c) (Some (WRun c (c_cur (s_reset s)))) None
| w_event c r : wstep s end_ (WRun c r) (Some (WRun c r)) None
| w_write c r : wstep s end_ (WRun c r) (Some (WRun c r)) (Some c)
| w_reset c r : is_closed r (s_reset s) = true -> wstep s end_ (WRun c r) (Some (WStart false)) None
| w_end c r : end_ = true -> wstep s end_ (WRun c r) None None.

Definition put_worker (i g : nat) (p : option phase) (l : list worker) : list worker :=
  match p with Some p => <[i := mkWorker g p]> l | None => delete i l end.
Definition put_health (i : nat) (h : option health) (l : list health) : list health := match h with Some h => <[i := h]> l | None => delete i l end.
Definition at_phase (p : hphase) (h : health) : health := mkHealth (h_id h) (h_gen h) (h_once h) p.
Definition finished (h : health) : option health := if h_once h then None else Some (at_phase HTick h).
Definition set_health (i : nat) (h : option health) (s : sys) : sys := with_health (put_health i h (s_health s)) (s_hmade s) (s_hcur s) (s_hdead s) s.

(** [healthCheck] and [health], by goroutine [i]. The output was up once [Init]
    returned, so a failed probe always swaps the reset channel. *)
Inductive hstep (s : sys) (i : nat) (h : health) : hphase -> sys -> Prop :=
| h_leave : h_ended s h = true -> hstep s i h HTick (set_health i None s)
| h_tick : hstep s i h HTick (set_health i (Some (at_phase HProbe h)) s)
| h_fails : hstep s i h HProbe (set_health i (Some (at_phase HErr h)) s)
| h_succeeds : hstep s i h HProbe (set_health i (Some (at_phase HOk h)) s)
| h_err_load : hstep s i h HErr (set_health i (Some (at_phase (HErrStore (c_cur (s_reset s))) h)) s)
| h_err_store old : hstep s i h (HErrStore old) (with_cells (s_client s) (fresh (s_reset s)) (s_sig s) (set_health i (Some (at_phase (HErrClose old) h)) s))
| h_err_close old : hstep s i h (HErrClose old)
    (if is_closed old (s_reset s) then panicked s else with_cells (s_client s) (close_in old (s_reset s)) (s_sig s) (set_health i (finished h) s))
| h_ok_load : hstep s i h HOk (set_health i (Some (at_phase (HOkStore (c_cur (s_sig s))) h)) s)
| h_ok_store old : hstep s i h (HOkStore old) (with_cells (s_client s) (s_reset s) (fresh (s_sig s)) (set_health i (Some (at_phase (HOkClose old) h)) s))
| h_ok_close old : hstep s i h (HOkClose old)
    (if is_closed old (s_sig s) then panicked s else with_cells (s_client s) (s_reset s) (close_in old (s_sig s)) (set_health i (finished h) s)).

(** What [Update] does once the new configuration is accepted. *)
Definition period_prog (old nw : Config) : list instr :=
  if (i_HealthCheckPeriod old =? i_HealthCheckPeriod nw)%Z then []
  else IHCancel :: (if checks nw then [IProbe; IProbed; IHStart] else []).
Definition rebuild_prog (old nw : Config) (client : nat) : list instr :=
  if clientNeedsRebuild old nw then [IClient; IStart; ICloseClient client] else [].
Definition update_prog (old nw : Config) (client : nat) : list instr := ICfg nw :: rebuild_prog old nw client ++ period_prog old nw.
(** One that fails: at the options of the client ([late] is false), or after the
    client at the cache. *)
Definition failed_prog (late : bool) (old nw : Config) (client : nat) : list instr := ICfg nw :: (if late then rebuild_prog old nw client else []).
Definition close_prog : list instr := [IHCancel; ICancelCur; IReset; IWaitCur; ICloseCur].

Definition cancel_health (s : sys) : list nat := match s_hcur s with Some k => k :: s_hdead s | None => s_hdead s end.

Inductive iexec : sys -> instr -> list instr -> sys -> list instr -> Prop :=
| i_cfg s c p : iexec s (ICfg c) p (with_cfg c s) p
| i_client s p : iexec s IClient p (with_cells (fresh (s_client s)) (s_reset s) (s_sig s) s) p
| i_start s p : iexec s IStart p (with_gen (S (s_gen s)) (s_dead s) (with_workers (s_workers s ++ [mkWorker (S (s_gen s)) (WStart true)]) s))
    (ICancel (s_gen s) :: IWait (s_gen s) :: p)
| i_cancel s g p : iexec s (ICancel g) p (with_gen (s_gen s) (g :: s_dead s) s) p
| i_wait s g p : Forall (fun w => w_gen w <> g) (s_workers s) -> iexec s (IWait g) p s p
| i_close_client s c p : iexec s (ICloseClient c) p (with_cells (close_in c (s_client s)) (s_reset s) (s_sig s) s) p
| i_hcancel s p : iexec s IHCancel p (with_health (s_health s) (s_hmade s) None (cancel_health s) s) p
| i_probe s p : iexec s IProbe p (with_health (s_health s ++ [mkHealth (s_hmade s) None true HProbe]) (S (s_hmade s)) (s_hcur s) (s_hdead s) s) p
| i_probed s p : Forall (fun h => h_once h = false) (s_health s) -> iexec s IProbed p s p
| i_hstart s p : iexec s IHStart p (with_health (s_health s ++ [mkHealth (s_hmade s) None false HTick]) (S (s_hmade s)) (Some (s_hmade s)) (s_hdead s) s) p
| i_cancel_cur s p : iexec s ICancelCur p (with_gen (s_gen s) (s_gen s :: s_dead s) s) p
| i_reset s p : iexec s IReset p s (if is_closed (c_cur (s_reset s)) (s_reset s) then p else IResetClose (c_cur (s_reset s)) :: p)
| i_reset_close s r p : iexec s (IResetClose r) p
    (if is_closed r (s_reset s) then panicked s else with_cells (s_client s) (close_in r (s_reset s)) (s_sig s) s) p
| i_wait_cur s p : iexec s IWaitCur p s (IWait (s_gen s) :: p)
| i_close_cur s p : iexec s ICloseCur p (with_cells (close_in (c_cur (s_client s)) (s_client s)) (s_reset s) (s_sig s) s) p.

(** After [Init]: one worker, and a health check under its context. *)
Definition init (c : Config) : sys :=
  mkSys c (mkCell 0 1 []) (mkCell 0 1 []) (mkCell 0 1 []) 0 [] false false [mkWorker 0 (WStart true)]
    (if checks c then [mkHealth 0 (Some 0) false HTick] else []) 1 (if checks c then Some 0 else None) [] [] [] [] false.

(** [overlap]: [Close] may begin during an [Update], and an [Update] once [Close]
    has begun. *)
Inductive step (overlap : bool) : sys -> sys -> Prop :=
| step_worker s i g p p' c : s_panic s = false -> s_workers s !! i = Some (mkWorker g p) -> wstep s (ended s g) p p' c ->
    step overlap s (with_writes (match c with Some c => s_writes s ++ [c] | None => s_writes s end) (with_workers (put_worker i g p' (s_workers s)) s))
| step_health s i h s' : s_panic s = false -> s_health s !! i = Some h -> hstep s i h (h_phase h) s' -> step overlap s s'
| step_update s nw : s_panic s = false -> s_prog s = [] -> s_done s = false \/ overlap = true ->
    step overlap s (with_prog (update_prog (s_cfg s) nw (c_cur (s_client s))) s)
| step_update_fails s nw late : s_panic s = false -> s_prog s = [] -> s_done s = false \/ overlap = true ->
    step overlap s (with_prog (failed_prog late (s_cfg s) nw (c_cur (s_client s))) s)
| step_close s : s_panic s = false -> s_prog s = [] \/ overlap = true -> s_done s = false ->
    step overlap s (with_close close_prog (with_flags (s_root s) true (s_panic s) s))
| step_instr s s' i p p' : s_panic s = false -> s_prog s = i :: p -> iexec s i p s' p' -> step overlap s (with_prog p' s')
| step_closing s s' i p p' : s_panic s = false -> s_close s = i :: p -> iexec s i p s' p' -> step overlap s (with_close p' s')
| step_shutdown s : s_panic s = false -> step overlap s (with_flags true (s_done s) (s_panic s) s).
Definition reach (overlap : bool) : sys -> sys -> Prop := rtc (step overlap).

(** ** No client is used after it is closed *)

Definition refc (P : nat -> Prop) (p : phase) : Prop := match p with WGot c | WRun c _ => P c | _ => True end.
Definition opt_ok (Q : phase -> Prop) (p : option phase) : Prop := match p with Some p => Q p | None => True end.
Definition cell_ok (x : cell) : Prop := c_cur x < c_made x /\ Forall (fun k => k < c_made x) (c_closed x).
Definition open (x : cell) (k : nat) : Prop := k ∉ c_closed x.

Definition h_instr (i : instr) : Prop := match i with IHCancel | IProbe | IProbed | IHStart => True | _ => False end.
Definition htail (p : list instr) : Prop := Forall h_instr p.

(** Instructions that find one generation of workers, on the client in use. *)
Inductive calm (cur gen : nat) (dead : list nat) : list instr -> Prop :=
| calm_health p : htail p -> calm cur gen dead p
| calm_cfg c p : htail p -> calm cur gen dead (ICfg c :: p)
| calm_cfg_swap c p : htail p -> calm cur gen dead (ICfg c :: IClient :: IStart :: ICloseClient cur :: p)
| calm_swap p : htail p -> calm cur gen dead (IClient :: IStart :: ICloseClient cur :: p)
| calm_close : calm cur gen dead close_prog
| calm_close2 : calm cur gen dead [ICancelCur; IReset; IWaitCur; ICloseCur]
| calm_close3 : gen ∈ dead -> calm cur gen dead [IReset; IWaitCur; ICloseCur]
| calm_close4 r : gen ∈ dead -> calm cur gen dead [IResetClose r; IWaitCur; ICloseCur]
| calm_close5 : gen ∈ dead -> calm cur gen dead [IWaitCur; ICloseCur]
| calm_close6 : gen ∈ dead -> calm cur gen dead [IWait gen; ICloseCur].

Definition two (a b k : nat) : Prop := a = k \/ b = k.
Definition normal (s : sys) : Prop := Forall (fun w => w_gen w = s_gen s /\ refc (eq (c_cur (s_client s))) (w_phase w)) (s_workers s).
Definition swapped (s : sys) (o : nat) : Prop := Forall (fun w => w_gen w = s_gen s /\ refc (two (c_cur (s_client s)) o) (w_phase w)) (s_workers s).
Definition mixed (s : sys) (g o : nat) : Prop :=
  Forall (fun w => w_gen w = s_gen s /\ refc (eq (c_cur (s_client s))) (w_phase w) \/ w_gen w = g /\ refc (two (c_cur (s_client s)) o) (w_phase w)) (s_workers s).

(** With [q] left to do. *)
Inductive staged (q : list instr) (s : sys) : Prop :=
| st_calm : calm (c_cur (s_client s)) (s_gen s) (s_dead s) q -> normal s -> open (s_client s) (c_cur (s_client s)) -> staged q s
| st_swap o p : q = IStart :: ICloseClient o :: p -> htail p -> swapped s o ->
    open (s_client s) (c_cur (s_client s)) -> open (s_client s) o -> o <> c_cur (s_client s) -> staged q s
| st_mid o g p : q = ICancel g :: IWait g :: ICloseClient o :: p \/ q = IWait g :: ICloseClient o :: p /\ g ∈ s_dead s -> htail p -> mixed s g o ->
    open (s_client s) (c_cur (s_client s)) -> open (s_client s) o -> o <> c_cur (s_client s) -> staged q s
| st_old o p : q = ICloseClient o :: p -> htail p -> normal s -> open (s_client s) (c_cur (s_client s)) -> o <> c_cur (s_client s) -> staged q s
| st_last : q = [ICloseCur] \/ q = [] /\ s_done s = true -> s_workers s = [] -> staged q s.

Lemma refc_mono (P Q : nat -> Prop) p : (forall k, P k -> Q k) -> refc P p -> refc Q p.
Proof. intros HPQ. destruct p; cbn; auto. Qed.

Lemma wstep_refc (P : nat -> Prop) s e p p' c : wstep s e p p' c -> refc P p -> P (c_cur (s_client s)) -> opt_ok (refc P) p'.
Proof. destruct 1; cbn; intros; try done. by destruct (_ && _). Qed.

Lemma put_worker_Forall (Q : worker -> Prop) l i g p' : Forall Q l -> opt_ok (fun p => Q (mkWorker g p)) p' -> Forall Q (put_worker i g p' l).
Proof. intros Hl Hp. destruct p' as [p'|]; cbn in *; [by apply Forall_insert|by apply Forall_delete]. Qed.

Lemma staged_worker q (s : sys) i g p p' c : staged q s -> s_workers s !! i = Some (mkWorker g p) -> wstep s (ended s g) p p' c ->
  staged q (with_writes (match c with Some c => s_writes s ++ [c] | None => s_writes s end) (with_workers (put_worker i g p' (s_workers s)) s)).
Proof.
  intros Hs Hi Hw. destruct Hs as [Hc Hn Ho|o r Hq Hh Hn Ho Hoo Hne|o g' r Hq Hh Hn Ho Hoo Hne|o r Hq Hh Hn Ho Hne|Hq Hn].
  - destruct (Forall_lookup_1 _ _ _ _ Hn Hi) as [Hg Hr]. apply st_calm; [done| |done]. apply put_worker_Forall; [done|].
    pose proof (wstep_refc (eq (c_cur (s_client s))) _ _ _ _ _ Hw Hr eq_refl). by destruct p'.
  - destruct (Forall_lookup_1 _ _ _ _ Hn Hi) as [Hg Hr]. apply (st_swap _ _ o r); try done. apply put_worker_Forall; [done|].
    pose proof (wstep_refc (two (c_cur (s_client s)) o) _ _ _ _ _ Hw Hr (or_introl eq_refl)). by destruct p'.
  - apply (st_mid _ _ o g' r); try done. apply put_worker_Forall; [done|]. destruct (Forall_lookup_1 _ _ _ _ Hn Hi) as [[Hg Hr]|[Hg Hr]].
    + pose proof (wstep_refc (eq (c_cur (s_client s))) _ _ _ _ _ Hw Hr eq_refl). destruct p'; [by left|done].
    + pose proof (wstep_refc (two (c_cur (s_client s)) o) _ _ _ _ _ Hw Hr (or_introl eq_refl)). destruct p'; [by right|done].
  - destruct (Forall_lookup_1 _ _ _ _ Hn Hi) as [Hg Hr]. apply (st_old _ _ o r); try done. apply put_worker_Forall; [done|].
    pose proof (wstep_refc (eq (c_cur (s_client s))) _ _ _ _ _ Hw Hr eq_refl). by destruct p'.
  - by rewrite Hn in Hi.
Qed.

(** What the stages look at. *)
Lemma staged_frame q (s s' : sys) : staged q s -> s_client s' = s_client s -> s_gen s' = s_gen s -> s_dead s' = s_dead s ->
  s_workers s' = s_workers s -> s_done s' = s_done s -> staged q s'.
Proof.
  intros Hs Hc Hg Hd Hw Hdn. destruct Hs as [Hk Hn Ho|o r Hq Hh Hn Ho Hoo Hne|o g r Hq Hh Hn Ho Hoo Hne|o r Hq Hh Hn Ho Hne|Hq Hn].
  - apply st_calm; unfold normal; by rewrite ?Hc, ?Hg, ?Hw, ?Hd.
  - apply (st_swap _ _ o r); unfold swapped; by rewrite ?Hc, ?Hg, ?Hw.
  - apply (st_mid _ _ o g r); unfold mixed; by rewrite ?Hc, ?Hg, ?Hw, ?Hd.
  - apply (st_old _ _ o r); unfold normal; by rewrite ?Hc, ?Hg, ?Hw.
  - apply st_last; by rewrite ?Hw, ?Hdn.
Qed.

Lemma hstep_frame s i h p s' : hstep s i h p s' -> s_prog s' = s_prog s /\ s_close s' = s_close s /\ s_client s' = s_client s /\ s_gen s' = s_gen s /\
  s_dead s' = s_dead s /\ s_workers s' = s_workers s /\ s_done s' = s_done s.
Proof. destruct 1; try done; by destruct (is_closed _ _). Qed.

Lemma fresh_open (x : cell) k : cell_ok x -> open x k -> open (fresh x) k.
Proof. done. Qed.
Lemma fresh_cur_open (x : cell) : cell_ok x -> open (fresh x) (c_cur (fresh x)).
Proof. intros [_ Hc] Hin. cbn in Hin. rewrite Forall_forall in Hc. specialize (Hc _ Hin). lia. Qed.

Lemma htail_cons i p : htail (i :: p) -> h_instr i /\ htail p.
Proof. apply Forall_cons. Qed.

Lemma period_htail old nw : htail (period_prog old nw).
Proof. unfold period_prog. destruct (_ =? _)%Z; [constructor|]. destruct (checks nw); by repeat constructor. Qed.
Lemma influx_calm_update old nw cur gen dead : calm cur gen dead (update_prog old nw cur).
Proof. unfold update_prog, rebuild_prog. destruct (clientNeedsRebuild old nw); [apply calm_cfg_swap|apply calm_cfg]; apply period_htail. Qed.
Lemma calm_failed late old nw cur gen dead : calm cur gen dead (failed_prog late old nw cur).
Proof. unfold failed_prog, rebuild_prog. destruct late; [destruct (clientNeedsRebuild old nw)|]; [apply calm_cfg_swap|apply calm_cfg..]; constructor. Qed.

Lemma calm_instr (s s' : sys) i p p' : calm (c_cur (s_client s)) (s_gen s) (s_dead s) (i :: p) -> normal s -> open (s_client s) (c_cur (s_client s)) ->
  cell_ok (s_client s) -> iexec s i p s' p' -> staged p' s'.
Proof.
  intros Hk Hn Ho Hok He. inversion Hk as [q Hh Hq|c q Hh Hq|c q Hh Hq|q Hh Hq|Hq|Hq|Hd Hq|r Hd Hq|Hd Hq|Hd Hq]; subst.
  - apply htail_cons in Hh as [Hi Hh]. destruct i; try done; inversion He; subst; (apply st_calm; [by apply calm_health|done|done]).
  - inversion He; subst. apply st_calm; [by apply calm_health|done|done].
  - inversion He; subst. apply st_calm; [by apply calm_swap|done|done].
  - inversion He; subst. apply (st_swap _ _ (c_cur (s_client s)) q); cbn [with_cells s_client]; [done|done| |by apply fresh_cur_open|done|cbn; destruct Hok; lia].
    eapply Forall_impl; [exact Hn|]. intros w [Hg Hr]. split; [done|]. eapply refc_mono; [|exact Hr]. by right.
  - inversion He; subst. apply st_calm; [apply calm_close2|done|done].
  - inversion He; subst. apply st_calm; [apply calm_close3; cbn; left|done|done].
  - inversion He; subst. apply st_calm; [destruct (is_closed _ _); [by apply calm_close5|by apply calm_close4]|done|done].
  - inversion He; subst. destruct (is_closed r (s_reset s)); apply st_calm; by try apply calm_close5.
  - inversion He; subst. apply st_calm; [by apply calm_close6|done|done].
  - inversion He; subst. rename select (Forall (fun w => w_gen w <> _) _) into Hall. apply st_last; [by left|].
    destruct (s_workers s') as [|w l] eqn:E; [done|]. unfold normal in Hn. rewrite E in Hn. apply Forall_cons in Hn as [[Hg _] _].
    by apply Forall_cons in Hall as [? _].
Qed.

Lemma influx_staged_instr (s s' : sys) i p p' : staged (i :: p) s -> cell_ok (s_client s) -> (i = ICloseCur -> s_done s = true) -> iexec s i p s' p' -> staged p' s'.
Proof.
  intros Hs Hok Hdone He. destruct Hs as [Hk Hn Ho|o q Hq Hh Hn Ho Hoo Hne|o g q Hq Hh Hn Ho Hoo Hne|o q Hq Hh Hn Ho Hne|Hq Hn].
  - by eapply calm_instr.
  - injection Hq as -> ->. inversion He; subst. apply (st_mid _ _ o (s_gen s) q); cbn; [by left|done| |done|done|done].
    apply Forall_app. split; [|repeat constructor; by left]. eapply Forall_impl; [exact Hn|]. intros w [Hg Hr]. by right.
  - destruct Hq as [Hq|[Hq Hd]]; injection Hq as -> ->; inversion He; subst.
    + apply (st_mid _ _ o g q); cbn; [right; split; [done|left]|done..].
    + rename select (Forall (fun w => w_gen w <> _) _) into Hall. apply (st_old _ _ o q); [done|done| |done|done]. unfold normal. rewrite Forall_forall. intros w Hw.
      pose proof (proj1 (Forall_forall _ _) Hall w Hw) as Hg. by destruct (proj1 (Forall_forall _ _) Hn w Hw) as [?|[? _]].
  - injection Hq as -> ->. inversion He; subst. apply st_calm; [by apply calm_health|done|]. cbn. unfold open in *. cbn. set_solver.
  - destruct Hq as [Hq|[Hq _]]; [|done]. injection Hq as -> ->. inversion He; subst. apply st_last; [|done]. right. split; [done|]. by apply Hdone.
Qed.

(** ** The invariant *)

(** What is left to do, when [Close] and [Update] do not overlap. *)
Definition todo (s : sys) : list instr := s_prog s ++ s_close s.

Record inv (s : sys) : Prop := {
  inv_cell : cell_ok (s_client s);
  inv_alone : if s_done s then s_prog s = [] else s_close s = [];
  inv_old : forall c, ICloseClient c ∈ todo s -> c < c_made (s_client s);
  inv_done : ICloseCur ∈ todo s -> s_done s = true;
  inv_staged : staged (todo s) s }.

Lemma influx_inv_init c : inv (init c).
Proof.
  split; cbn; [split; cbn; [lia|constructor]|done|by intros k ?%elem_of_nil|by intros ?%elem_of_nil|].
  apply st_calm; [apply calm_health; constructor|repeat constructor|]. cbn. apply not_elem_of_nil.
Qed.

Lemma cell_ok_close x k : cell_ok x -> k < c_made x -> cell_ok (close_in k x).
Proof. intros [H1 H2] Hk. split; [done|by constructor]. Qed.
Lemma cell_ok_fresh x : cell_ok x -> cell_ok (fresh x).
Proof. intros [H1 H2]. split; cbn; [lia|]. eapply Forall_impl; [exact H2|]. cbn. lia. Qed.

(** Instructions that another leaves behind. *)
Definition added (i : instr) : Prop := match i with ICancel _ | IWait _ | IResetClose _ => True | _ => False end.

Lemma iexec_frame s i p s' p' : iexec s i p s' p' -> cell_ok (s_client s) -> (forall c, i = ICloseClient c -> c < c_made (s_client s)) ->
  cell_ok (s_client s') /\ c_made (s_client s) <= c_made (s_client s') /\ s_done s' = s_done s /\ s_prog s' = s_prog s /\ s_close s' = s_close s.
Proof.
  destruct 1; intros Hok Hc; cbn; try done; try by destruct (is_closed _ _).
  - split; [by apply cell_ok_fresh|]. split; [lia|done].
  - split; [|done]. apply cell_ok_close; [done|by apply Hc].
  - split; [|done]. apply cell_ok_close; [done|apply Hok].
Qed.
Lemma iexec_added s i p s' p' j : iexec s i p s' p' -> j ∈ p' -> j ∈ p \/ added j.
Proof.
  destruct 1; intros Hj; try (by left); try destruct (is_closed _ _); repeat (apply elem_of_cons in Hj as [-> |Hj]; [by right|]); by left.
Qed.

Lemma elem_update i old nw cur : i ∈ update_prog old nw cur \/ (exists late, i ∈ failed_prog late old nw cur) ->
  i <> ICloseCur /\ forall c, i = ICloseClient c -> c = cur.
Proof.
  assert (Hf : forall l, Forall (fun i => i <> ICloseCur /\ forall c, i = ICloseClient c -> c = cur) l -> i ∈ l ->
    i <> ICloseCur /\ forall c, i = ICloseClient c -> c = cur) by (intros l Hl Hi; by apply (proj1 (Forall_forall _ _) Hl)).
  intros [Hi|[late Hi]]; (eapply Hf; [|exact Hi]); unfold update_prog, failed_prog, rebuild_prog, period_prog.
  - destruct (clientNeedsRebuild old nw), (_ =? _)%Z, (checks nw); cbn; repeat constructor; try done; by intros c [= <-].
  - destruct late, (clientNeedsRebuild old nw); cbn; repeat constructor; try done; by intros c [= <-].
Qed.

(** A state with nothing left to do, before [Close]. *)
Lemma staged_idle (s : sys) : staged [] s -> s_done s = false -> normal s /\ open (s_client s) (c_cur (s_client s)).
Proof. intros Hs Hd. by destruct Hs as [Hk Hn Hop|o q Hq|o g q [Hq|[Hq _]]|o q Hq|[Hq|[_ Hq]] _]; try congruence. Qed.

Lemma inv_begin (s : sys) q : inv s -> s_prog s = [] -> s_done s = false -> calm (c_cur (s_client s)) (s_gen s) (s_dead s) q ->
  (forall i, i ∈ q -> i <> ICloseCur /\ forall c, i = ICloseClient c -> c = c_cur (s_client s)) -> inv (with_prog q s).
Proof.
  intros [Hok Ha Ho Hd Hs] Hp Hdn Hk Hq. unfold todo in *. rewrite Hdn in Ha. rewrite Hp, Ha in Hs. destruct (staged_idle s Hs Hdn) as [Hn Hop].
  split; unfold todo; cbn; rewrite ?Ha, ?app_nil_r; [done|by rewrite Hdn| | |by apply st_calm].
  - intros c Hc. destruct (Hq _ Hc) as [_ Hcc]. rewrite (Hcc c eq_refl). apply Hok.
  - intros Hc. by destruct (Hq _ Hc).
Qed.

Lemma inv_exec (s s' t : sys) i p p' : inv s -> todo s = i :: p -> iexec s i p s' p' -> todo t = p' ->
  s_client t = s_client s' -> s_gen t = s_gen s' -> s_dead t = s_dead s' -> s_workers t = s_workers s' -> s_done t = s_done s' ->
  (if s_done t then s_prog t = [] else s_close t = []) -> inv t.
Proof.
  intros [Hok Ha Ho Hd Hs] Hp He Ht Hc Hg Hde Hw Hdn Hal. rewrite Hp in *.
  destruct (iexec_frame _ _ _ _ _ He Hok) as (H1 & H2 & H3 & _); [intros c ->; apply Ho; left|].
  split; rewrite ?Ht, ?Hc; [done|done| | |].
  - intros c Hin. destruct (iexec_added _ _ _ _ _ _ He Hin) as [Hi|Hi]; [|done]. eapply Nat.lt_le_trans; [|exact H2]. apply Ho. by right.
  - intros Hin. destruct (iexec_added _ _ _ _ _ _ He Hin) as [Hi|Hi]; [|done]. rewrite Hdn, H3. apply Hd. by right.
  - apply (staged_frame p' s'); [|done..]. eapply influx_staged_instr; [exact Hs|exact Hok| |exact He]. intros ->. apply Hd. left.
Qed.

Lemma influx_inv_step (s s' : sys) : inv s -> step false s s' -> inv s'.
Proof.
  intros Hinv Hst. pose proof Hinv as [Hok Ha Ho Hd Hs].
  destruct Hst as [s i g p p' c Hp Hi Hw|s i h s' Hp Hi Hh|s nw Hpn Hp Hdn|s nw late Hpn Hp Hdn|s Hpn Hp Hdn|s s' i p p' Hpn Hp He|s s' i p p' Hpn Hp He|s Hpn].
  - split; try done. by eapply staged_worker.
  - destruct (hstep_frame _ _ _ _ _ Hh) as (H1 & H2 & H3 & H4 & H5 & H6 & H7).
    split; unfold todo in *; rewrite ?H1, ?H2, ?H3, ?H7; try done. by apply (staged_frame _ s).
  - destruct Hdn as [Hdn|?]; [|done]. apply inv_begin; [done..|apply influx_calm_update|]. intros i Hi. apply (elem_update i (s_cfg s) nw). by left.
  - destruct Hdn as [Hdn|?]; [|done]. apply inv_begin; [done..|apply calm_failed|]. intros i Hi. apply (elem_update i (s_cfg s) nw). right. by exists late.
  - destruct Hp as [Hp|?]; [|done]. unfold todo in *. rewrite Hdn in Ha. rewrite Hp, Ha in Hs. destruct (staged_idle s Hs Hdn) as [Hn Hop].
    split; unfold todo; cbn; rewrite ?Hp; cbn; [done|done| |done|apply st_calm; [apply calm_close|done|done]].
    intros c Hc. repeat (apply elem_of_cons in Hc as [Hc|Hc]; [done|]). by apply elem_of_nil in Hc.
  - rewrite Hp in Ha. destruct (s_done s) eqn:Hdn; [done|]. assert (Ht : todo s = i :: p) by (unfold todo; by rewrite Hp, Ha, app_nil_r).
    destruct (iexec_frame _ _ _ _ _ He Hok) as (_ & _ & H3 & H4 & H5); [intros c ->; apply Ho; rewrite Ht; left|].
    eapply (inv_exec s s' _ i p p'); try done; unfold todo; cbn; rewrite H5, Ha; [apply app_nil_r|by rewrite H3, Hdn].
  - destruct (s_done s) eqn:Hdn; [|congruence]. assert (Ht : todo s = i :: p) by (unfold todo; by rewrite Hp, Ha).
    destruct (iexec_frame _ _ _ _ _ He Hok) as (_ & _ & H3 & H4 & H5); [intros c ->; apply Ho; rewrite Ht; left|].
    eapply (inv_exec s s' _ i p p'); try done; unfold todo; cbn; rewrite H4, Ha; [done|by rewrite H3, Hdn].
  - split; try done. by apply (staged_frame _ s).
Qed.

Lemma influx_inv_run c s : reach false (init c) s -> inv s.
Proof.
  intros Hr. assert (Hg : forall a b, inv a -> reach false a b -> inv b) by (intros a b Ha Hab; induction Hab; eauto using influx_inv_step).
  by eapply Hg; [apply influx_inv_init|].
Qed.

Lemma staged_open q (s : sys) : staged q s -> Forall (fun w => refc (open (s_client s)) (w_phase w)) (s_workers s).
Proof.
  intros Hs. destruct Hs as [_ Hn Ho|o p _ _ Hn Ho Hoo _|o g p _ _ Hn Ho Hoo _|o p _ _ Hn Ho _|_ ->]; [..|constructor]; (eapply Forall_impl; [exact Hn|]).
  - intros w [_ Hr]. eapply refc_mono; [|exact Hr]. by intros k <-.
  - intros w [_ Hr]. eapply refc_mono; [|exact Hr]. by intros k [<-|<-].
  - intros w [[_ Hr]|[_ Hr]]; (eapply refc_mono; [|exact Hr]); [by intros k <-|by intros k [<-|<-]].
  - intros w [_ Hr]. eapply refc_mono; [|exact Hr]. by intros k <-.
Qed.

(** C39: When [Close] does not begin during an [Update] and no [Update] begins once
    [Close] has, no worker is bound to a client that is closed, through every
    interleaving of the worker's resets and the probes with updates that replace
    the client and with [Close]. (When they overlap a worker can be:
    [influx_close_overlaps].) *)
Theorem influx_no_use_after_close c s i w : reach false (init c) s -> s_workers s !! i = Some w ->
  match w_phase w with WGot k | WRun k _ => k ∉ c_closed (s_client s) | _ => True end.
Proof.
  intros Hr Hi. pose proof (staged_open _ _ (inv_staged _ (influx_inv_run c s Hr))) as Ho. pose proof (Forall_lookup_1 _ _ _ _ Ho Hi) as Hw.
  cbn in Hw. by destruct (w_phase w).
Qed.

(** ** The waits end *)

Inductive wruns (s : sys) : option phase -> Prop :=
| wr_gone : wruns s None
| wr_step p p' c : wstep s true p p' c -> wruns s p' -> wruns s (Some p).

Lemma phase_ends s p : wruns s (Some p).
Proof.
  assert (Hr : forall c r, wruns s (Some (WRun c r))) by (intros c r; eapply wr_step; [by apply w_end|constructor]).
  assert (Hg : forall c, wruns s (Some (WGot c))) by (intros c; eapply wr_step; [apply w_listen|apply Hr]).
  destruct p as [first|sig| |c|c r]; [..|apply Hg|apply Hr].
  - eapply wr_step; [by apply w_start_end|constructor].
  - eapply wr_step; [by apply w_park_end|constructor].
  - eapply wr_step; [apply w_bind|apply Hg].
Qed.

(** What a worker's steps do not change. *)
Definition worker_frame (s s' : sys) : Prop :=
  s_prog s' = s_prog s /\ s_close s' = s_close s /\ s_dead s' = s_dead s /\ s_root s' = s_root s /\ s_panic s' = s_panic s.

Lemma delete_insert' {A} (l : list A) i x : delete i (<[i := x]> l) = delete i l.
Proof. revert i. induction l as [|y l IH]; intros [|i]; [done..|]. cbn. f_equal. apply IH. Qed.

Lemma wstep_env s s' e p p' c : s_cfg s' = s_cfg s -> s_sig s' = s_sig s -> s_client s' = s_client s -> s_reset s' = s_reset s ->
  wstep s e p p' c -> wstep s' e p p' c.
Proof.
  intros H1 H2 H3 H4 Hw. destruct Hw; try (by constructor).
  - rewrite <-H1, <-H2. by constructor.
  - constructor. by rewrite H2.
  - rewrite <-H3. constructor.
  - rewrite <-H4. constructor.
  - constructor. by rewrite H4.
Qed.

Lemma influx_worker_ends (s0 : sys) p0 : wruns s0 p0 -> forall s i g p, p0 = Some p -> s_panic s = false ->
  s_cfg s = s_cfg s0 -> s_sig s = s_sig s0 -> s_client s = s_client s0 -> s_reset s = s_reset s0 ->
  s_workers s !! i = Some (mkWorker g p) -> ended s g = true ->
  exists s', reach false s s' /\ s_workers s' = delete i (s_workers s) /\ worker_frame s s'.
Proof.
  induction 1 as [|p1 p' c Hw Hr IH]; intros s i g p Hp Hpn H1 H2 H3 H4 Hi He; [done|]. injection Hp as ->.
  assert (Hw' : wstep s (ended s g) p p' c) by (rewrite He; by eapply wstep_env; [..|exact Hw]).
  pose proof (step_worker false s i g p p' c Hpn Hi Hw') as Hst. destruct p' as [p'|].
  - assert (Hi' : put_worker i g (Some p') (s_workers s) !! i = Some (mkWorker g p')) by (apply list_lookup_insert_eq; by eapply lookup_lt_Some).
    match type of Hst with step _ _ ?s1 => destruct (IH s1 i g p' eq_refl Hpn H1 H2 H3 H4 Hi' He) as (s' & Hr' & Hws & Hf) end.
    exists s'. split; [by eapply rtc_l|]. split; [|done]. rewrite Hws. cbn. apply delete_insert'.
  - eexists. split; [by apply rtc_once|]. split; [done|]. repeat split.
Qed.

Lemma workers_leave (s : sys) : s_panic s = false ->
  exists s', reach false s s' /\ worker_frame s s' /\ Forall (fun w => ended s' (w_gen w) = false) (s_workers s').
Proof.
  remember (length (s_workers s)) as n eqn:Hn. revert s Hn. induction n as [n IH] using lt_wf_ind. intros s Hn Hpn.
  destruct (decide (Forall (fun w => ended s (w_gen w) = false) (s_workers s))) as [Hall|Hex]; [exists s; split; [apply rtc_refl|repeat split; done]|].
  apply not_Forall_Exists, Exists_exists in Hex as ([g p] & Hin & Hg); [|apply _]. apply list_elem_of_lookup in Hin as [i Hlk].
  apply not_false_is_true in Hg. cbn in Hg.
  destruct (influx_worker_ends s _ (phase_ends s p) s i g p eq_refl Hpn eq_refl eq_refl eq_refl eq_refl Hlk Hg) as (s1 & Hr1 & Hws & (F1 & F2 & F3 & F4 & F5)).
  destruct (IH (length (s_workers s1))) with (s := s1) as (s2 & Hr2 & (G1 & G2 & G3 & G4 & G5) & Hall); [|done|congruence|].
  - rewrite Hws, length_delete by by eexists. apply lookup_lt_Some in Hlk. lia.
  - exists s2. split; [by etrans|]. split; [repeat split; congruence|done].
Qed.

(** A wait is for workers that were cancelled. *)
Lemma staged_wait (s : sys) g p : staged (IWait g :: p) s -> g ∈ s_dead s.
Proof.
  intros Hs. destruct Hs as [Hk _ _|o q Hq|o k q [Hq|[Hq Hd]]|o q Hq|[Hq|[Hq _]] _]; try congruence.
  inversion Hk as [q Hh Hq|c0 q Hh Hq|c0 q Hh Hq|q Hh Hq|Hq|Hq|Hd Hq|r Hd Hq|Hd Hq|Hd Hq]; subst; [|done]. by apply htail_cons in Hh as [Hh _].
Qed.

(** The waits of [Update] and of [Close] end, wherever the workers are: in the
    wait for the start signal too. *)
Theorem influx_wait_ends c s g p : reach false (init c) s -> s_panic s = false -> s_prog s = IWait g :: p \/ s_close s = IWait g :: p ->
  exists s', reach false s s' /\ (s_prog s = IWait g :: p -> s_prog s' = p) /\ (s_close s = IWait g :: p -> s_close s' = p).
Proof.
  intros Hr Hpn Hp. pose proof (influx_inv_run _ _ Hr) as Hinv. pose proof (inv_alone _ Hinv) as Ha.
  assert (Hd : g ∈ s_dead s).
  { pose proof (inv_staged _ Hinv) as Hs. unfold todo in Hs. apply (staged_wait _ g p). destruct (s_done s), Hp as [Hp|Hp]; try congruence; by rewrite Hp, Ha, ?app_nil_r in Hs. }
  destruct (workers_leave s Hpn) as (s1 & Hr1 & (F1 & F2 & F3 & F4 & F5) & Hall).
  assert (Hw : Forall (fun w => w_gen w <> g) (s_workers s1)).
  { eapply Forall_impl; [exact Hall|]. intros w Hw Hg. unfold ended in Hw. rewrite F3, Hg, (bool_decide_true _ Hd), orb_true_r in Hw. done. }
  destruct Hp as [Hp|Hp]; [exists (with_prog p s1)|exists (with_close p s1)]; (split; [eapply rtc_r; [exact Hr1|]|]).
  - rewrite <-F1 in Hp. apply (step_instr _ _ _ _ _ _ (eq_trans F5 Hpn) Hp). by apply i_wait.
  - split; [done|]. cbn. rewrite F2. intros E. rewrite Hp, E in Ha. by destruct (s_done s).
  - rewrite <-F2 in Hp. apply (step_closing _ _ _ _ _ _ (eq_trans F5 Hpn) Hp). by apply i_wait.
  - split; [|done]. cbn. rewrite F1. intros E. rewrite Hp, E in Ha. by destruct (s_done s).
Qed.

(** ** Runs in which the output fails *)

Ltac norm :=
  cbv [with_cells with_workers with_health with_prog with_close with_gen with_cfg with_flags with_writes panicked set_health put_health put_worker finished at_phase cancel_health fresh];
  cbn [s_cfg s_client s_reset s_sig s_gen s_dead s_root s_done s_workers s_health s_hmade s_hcur s_hdead s_prog s_close s_writes s_panic
       c_cur c_made c_closed h_id h_gen h_once h_phase insert list_insert delete list_delete app negb andb];
  repeat match goal with |- context [is_closed ?a ?b] => let v := eval vm_compute in (is_closed a b) in change (is_closed a b) with v end;
  cbv [close_in]; cbn [c_cur c_made c_closed].
Ltac by_worker t := eapply rtc_l; [eapply (step_worker _ _ 0); [reflexivity|reflexivity|t]|]; norm.
Ltac by_health t := eapply rtc_l; [eapply (step_health _ _ 0); [reflexivity|reflexivity|cbn [h_phase at_phase]; t]|]; norm.
Ltac by_instr t := eapply rtc_l; [eapply step_instr; [reflexivity|reflexivity|t]|]; norm.
Ltac by_close t := eapply rtc_l; [eapply step_closing; [reflexivity|reflexivity|t]|]; norm.

(** [Close] while a probe is under way: [Close] closes the reset channel, the probe
    fails, because its context has ended, and closes the same channel again. *)
Theorem influx_close_panics c : checks c = true -> exists s, reach false (init c) s /\ s_panic s = true.
Proof.
  intros Hc. eexists. unfold init. rewrite Hc. split.
  - by_health ltac:(apply h_tick). eapply rtc_l; [apply step_close; [reflexivity|by left|reflexivity]|]. norm.
    by_close ltac:(apply i_hcancel). by_close ltac:(apply i_cancel_cur). by_close ltac:(apply i_reset). by_close ltac:(apply i_reset_close).
    by_health ltac:(apply h_fails). by_health ltac:(apply h_err_load). by_health ltac:(apply h_err_store). by_health ltac:(apply h_err_close).
    apply rtc_refl.
  - reflexivity.
Qed.

(** [Close] during an [Update] that replaces the client: [Close] waits for the old
    workers, [Update] starts one on the new client, and [Close] closes that client,
    on which the worker still writes. *)
Theorem influx_close_overlaps c nw : clientNeedsRebuild c nw = true -> exists s s' g k r, reach true (init c) s /\ s_root s = false /\
  s_workers s = [mkWorker g (WRun k r)] /\ k ∈ c_closed (s_client s) /\ step true s s' /\ s_writes s' = s_writes s ++ [k].
Proof.
  intros Hn. assert (Hprog : exists p, update_prog c nw 0 = ICfg nw :: IClient :: IStart :: p).
  { unfold update_prog, rebuild_prog. rewrite Hn. by eexists. }
  destruct Hprog as [p Hprog]. eexists _, _, _, _, _. split.
  - unfold init. eapply rtc_l; [apply (step_update _ _ nw); [reflexivity|reflexivity|by left]|]. norm. rewrite Hprog.
    by_instr ltac:(apply i_cfg). eapply rtc_l; [apply step_close; [reflexivity|by right|reflexivity]|]. norm.
    by_close ltac:(apply i_hcancel). by_close ltac:(apply i_cancel_cur). by_close ltac:(apply i_reset). by_close ltac:(apply i_reset_close). by_close ltac:(apply i_wait_cur).
    by_worker ltac:(apply w_start_end; reflexivity). by_close ltac:(apply i_wait; constructor).
    by_instr ltac:(apply i_client). by_instr ltac:(apply i_start).
    by_worker ltac:(apply w_start; reflexivity). by_worker ltac:(apply w_bind). by_worker ltac:(apply w_listen). by_close ltac:(apply i_close_cur). apply rtc_refl.
  - split; [reflexivity|]. split; [reflexivity|]. split; [left|]. split; [eapply (step_worker _ _ 0); [reflexivity|reflexivity|apply w_write]|reflexivity].
Qed.

(** An [Update] that replaces the client ends the context of the health check of
    [Init] and, with the same period, starts no other: the output runs on without
    one. *)
Theorem influx_health_lost c nw : checks c = true -> i_HealthCheckPeriod nw = i_HealthCheckPeriod c -> clientNeedsRebuild c nw = true ->
  exists s, reach false (init c) s /\ s_cfg s = nw /\ s_prog s = [] /\ s_done s = false /\ s_root s = false /\ s_health s = [] /\ checks nw = true /\
    exists g k r, s_workers s = [mkWorker g (WRun k r)].
Proof.
  intros Hc Hp Hn. assert (Hprog : update_prog c nw 0 = [ICfg nw; IClient; IStart; ICloseClient 0]).
  { unfold update_prog, rebuild_prog, period_prog. rewrite Hn, Hp, Z.eqb_refl. done. }
  eexists. split.
  - unfold init. rewrite Hc. eapply rtc_l; [apply (step_update _ _ nw); [reflexivity|reflexivity|by left]|]. norm. rewrite Hprog.
    by_instr ltac:(apply i_cfg). by_instr ltac:(apply i_client). by_instr ltac:(apply i_start). by_instr ltac:(apply i_cancel).
    by_worker ltac:(apply w_start_end; reflexivity). by_health ltac:(apply h_leave; reflexivity).
    by_instr ltac:(apply i_wait; constructor; [done|constructor]). by_instr ltac:(apply i_close_client).
    by_worker ltac:(apply w_start; reflexivity). by_worker ltac:(apply w_bind). by_worker ltac:(apply w_listen). apply rtc_refl.
  - cbn. repeat (split; [reflexivity|]). split; [unfold checks in *; by rewrite Hp|]. by eexists _, _, _.
Qed.

(** A failed probe parks the worker until a probe succeeds; an [Update] that turns
    the checks off then leaves it there: no step is left but those of the next
    operation. *)
Theorem influx_disable_health_hangs c nw : checks c = true -> i_HealthCheckPeriod nw = 0%Z -> clientNeedsRebuild c nw = false ->
  exists s, reach false (init c) s /\ s_cfg s = nw /\ s_prog s = [] /\ (exists g k, s_workers s = [mkWorker g (WPark k)]) /\
    forall s', step false s s' -> s_prog s' <> [] \/ s_close s' <> [] \/ s_root s' = true.
Proof.
  intros Hc Hp Hn. assert (Hprog : update_prog c nw 0 = [ICfg nw; IHCancel]).
  { unfold update_prog, rebuild_prog, period_prog. unfold checks in *. rewrite Hn, Hp. destruct (Z.eqb_spec (i_HealthCheckPeriod c) 0) as [E|E]; [by rewrite E in Hc|done]. }
  eexists. split; [|split; [|split; [|split]]].
  - unfold init. rewrite Hc. by_worker ltac:(apply w_start; reflexivity). by_worker ltac:(apply w_bind). by_worker ltac:(apply w_listen).
    by_health ltac:(apply h_tick). by_health ltac:(apply h_fails). by_health ltac:(apply h_err_load). by_health ltac:(apply h_err_store). by_health ltac:(apply h_err_close).
    by_worker ltac:(apply w_reset; reflexivity). by_worker ltac:(apply w_start; reflexivity). rewrite Hc. norm.
    eapply rtc_l; [apply (step_update _ _ nw); [reflexivity|reflexivity|by left]|]. norm. rewrite Hprog.
    by_instr ltac:(apply i_cfg). by_instr ltac:(apply i_hcancel). by_health ltac:(apply h_leave; reflexivity). apply rtc_refl.
  - reflexivity.
  - reflexivity.
  - by eexists _, _.
  - intros s' Hst. inversion Hst as [s i g p p' k Hpn Hi Hw|s i h s1 Hpn Hi Hh|s nw' Hpn Hpr Hd|s nw' late Hpn Hpr Hd|s Hpn Hpr Hd|s s1 i p p' Hpn Hpr He|s s1 i p p' Hpn Hpr He|s Hpn]; subst; try done.
    + cbn in Hi. destruct i as [|i]; [|done]. injection Hi as <- <-. inversion Hw; subst; done.
    + by left.
    + by left.
    + by right; left.
    + by right; right.
Qed.

(** ** The cache (influxdb_cache.go)

    The caches made, which one the output holds, those stopped; the ticker and the
    [done] channel in the fields of the output; the goroutines of [runCache], each
    on the ticker and the channel it found when its select began. *)

Inductive runner := Selecting (ticker done : nat) | ReadingCache.
Record cache_state := mkCacheState {
  k_cache : option nat; k_made : nat; k_stopped : list nat; k_ticker : nat; k_tickers : nat; k_tstopped : list nat; k_dones : cell;
  k_runners : list runner; k_flushes : nat }.

(** [stopCache] closes the channel a second time when it is called twice. *)
Definition initCache (k : cache_state) : cache_state :=
  let t := k_tickers k in let d := fresh (k_dones k) in
  mkCacheState (Some (k_made k)) (S (k_made k)) (k_stopped k) t (S t) (k_tstopped k) d (k_runners k ++ [Selecting t (c_cur d)]) (k_flushes k).
Definition stopCache (k : cache_state) : go Empty_set cache_state :=
  if is_closed (c_cur (k_dones k)) (k_dones k) then Panic
  else Ok (mkCacheState (k_cache k) (k_made k) (match k_cache k with Some c => c :: k_stopped k | None => k_stopped k end) (k_ticker k) (k_tickers k)
             (k_ticker k :: k_tstopped k) (close_in (c_cur (k_dones k)) (k_dones k)) (k_runners k) (k_flushes k)).
Definition new_ticker (k : cache_state) : cache_state :=
  mkCacheState (k_cache k) (k_made k) (k_stopped k) (k_tickers k) (S (k_tickers k)) (k_ticker k :: k_tstopped k) (k_dones k) (k_runners k) (k_flushes k).

(** The cache part of [Update]. [made] is whether a cache of the new configuration
    can be made. *)
Definition update_cache (made : bool) (old nw : Config) (k : cache_state) : go influx_error cache_state :=
  let init k := if made then Ok (initCache k) else Err errInfluxCache in
  let stop k := match stopCache k with Ok k => Ok k | _ => Panic end in
  match i_CacheConfig old, i_CacheConfig nw with
  | Some _, None => stop k
  | None, Some _ => init k
  | Some a, Some b =>
      if cacheCfgEqual (Some a) (Some b)
      then Ok (if (i_CacheFlushTimer old =? i_CacheFlushTimer nw)%Z then k else new_ticker k)
      else k ← stop k; init k
  | None, None => Ok k
  end.

(** [runCache]: a stopped ticker does not fire, and a select goes on with the
    channels it began with. *)
Inductive cstep : cache_state -> cache_state -> Prop :=
| c_tick k i t d : k_runners k !! i = Some (Selecting t d) -> t ∉ k_tstopped k ->
    cstep k (mkCacheState (k_cache k) (k_made k) (k_stopped k) (k_ticker k) (k_tickers k) (k_tstopped k) (k_dones k) (<[i := ReadingCache]> (k_runners k)) (S (k_flushes k)))
| c_again k i : k_runners k !! i = Some ReadingCache ->
    cstep k (mkCacheState (k_cache k) (k_made k) (k_stopped k) (k_ticker k) (k_tickers k) (k_tstopped k) (k_dones k)
      (<[i := Selecting (k_ticker k) (c_cur (k_dones k))]> (k_runners k)) (k_flushes k))
| c_done k i t d : k_runners k !! i = Some (Selecting t d) -> is_closed d (k_dones k) = true ->
    cstep k (mkCacheState (k_cache k) (k_made k) (k_stopped k) (k_ticker k) (k_tickers k) (k_tstopped k) (k_dones k) (delete i (k_runners k)) (k_flushes k)).

Definition cache_none : cache_state := mkCacheState None 0 [] 0 0 [] (mkCell 0 1 []) [] 0.

(** Every goroutine waits for a ticker that will not fire. *)
Definition mute (k : cache_state) : Prop := Forall (fun r => match r with Selecting t _ => t ∈ k_tstopped k | ReadingCache => False end) (k_runners k).
Lemma mute_step k k' : mute k -> cstep k k' -> mute k' /\ k_flushes k' = k_flushes k.
Proof.
  intros Hm Hs. destruct Hs as [k i t d Hi Ht|k i Hi|k i t d Hi Hd].
  - pose proof (Forall_lookup_1 _ _ _ _ Hm Hi) as Hin. by destruct Ht.
  - by pose proof (Forall_lookup_1 _ _ _ _ Hm Hi) as Hin.
  - split; [|done]. unfold mute. cbn. by apply Forall_delete.
Qed.

(** An [Update] that changes only the flush timer of the cache, while its goroutine
    waits, leaves the goroutine on the stopped ticker: the cache is not read again
    before another [Update]. *)
Theorem influx_flush_timer_stops made old nw k k' cc : i_CacheConfig old = Some cc -> i_CacheConfig nw = Some cc -> i_CacheFlushTimer old <> i_CacheFlushTimer nw ->
  Forall (fun r => exists d, r = Selecting (k_ticker k) d) (k_runners k) -> update_cache made old nw k = Ok k' ->
  forall k'', rtc cstep k' k'' -> k_flushes k'' = k_flushes k.
Proof.
  intros Ho Hn Ht Hr Hu. unfold update_cache in Hu. rewrite Ho, Hn, (proj2 (cacheCfgEqual_spec _ _) eq_refl) in Hu.
  destruct (Z.eqb_spec (i_CacheFlushTimer old) (i_CacheFlushTimer nw)) as [|_]; [done|]. assert (k' = new_ticker k) as -> by congruence.
  assert (Hm : mute (new_ticker k)) by (eapply Forall_impl; [exact Hr|]; intros r [d ->]; cbn; left).
  intros k'' Hrun. change (k_flushes k'' = k_flushes (new_ticker k)). induction Hrun as [|x y z Hxy _ IH]; [done|].
  destruct (mute_step _ _ Hm Hxy) as [Hm' <-]. by apply IH.
Qed.

(** ** The operations *)

Section operations.
Context `{Templates} `{MapOrder} `{EventEnv} (url_ok : string -> bool) (tls_files : TLSConfig -> bool) (make_cache : cache_config -> bool)
  (processors : list string -> option (list processor_fn)).

Record dynConfig := mkInfluxDyn { d_targetTpl : option target_tpl; d_evps : list processor_fn }.

Definition cache_made (c : Config) : bool := match i_CacheConfig c with Some cc => make_cache cc | None => true end.

Definition Init (name : string) (decoded : go influx_error Config) (register ctx_ended : bool) : go influx_error (dynConfig * cache_state * sys) :=
  c ← decoded;
  let c := setDefaultsFor (if String.eqb (i_Name c) "" then with_name name c else c) in
  if negb (url_ok (i_URL c)) then Err errInfluxURL
  else if negb register then Err errInfluxMetrics
  else match processors (i_EventProcessors c) with
  | None => Err errInfluxProcessors
  | Some evps =>
      tpl ← init_target_tpl errInfluxTemplate (i_TargetTemplate c) (i_AddTarget c);
      if negb (cache_made c) then Err errInfluxCache
      else
        clientOptsFor tls_files c ;;
        if ctx_ended then Err errInfluxCtx
        else Ok (mkInfluxDyn tpl evps, match i_CacheConfig c with Some _ => initCache cache_none | None => cache_none end, init c)
  end.

Definition Validate (decoded : go influx_error Config) : go influx_error () :=
  c ← decoded;
  if negb (url_ok (i_URL c)) then Err errInfluxURL
  else match CreateTemplate (i_TargetTemplate c) with Some _ => Ok () | None => Err errInfluxTemplate end.

(** What [Update] stores and starts, with the error it returns: once the
    configuration is stored an error does not take it back. *)
Definition Update (decoded : go influx_error Config) (old : Config) (d : dynConfig) (k : cache_state) (client : nat)
    : go influx_error (dynConfig * cache_state * list instr * option influx_error) :=
  c ← decoded;
  let nw := setDefaultsFor (if String.eqb (i_Name c) "" then with_name (i_Name old) c else c) in
  tpl ← update_target_tpl errInfluxTemplate (i_TargetTemplate nw) (i_AddTarget nw);
  match (if decide (i_EventProcessors old = i_EventProcessors nw) then Some (d_evps d) else processors (i_EventProcessors nw)) with
  | None => Err errInfluxProcessors
  | Some evps =>
      let d' := mkInfluxDyn tpl evps in
      match (if clientNeedsRebuild old nw then clientOptsFor tls_files nw ;; Ok () else Ok ()) with
      | Err e => Ok (d', k, failed_prog false old nw client, Some e)
      | Panic => Panic
      | Ok _ =>
          match update_cache (cache_made nw) old nw k with
          | Ok k => Ok (d', k, update_prog old nw client, None)
          | Err e => Ok (d', k, failed_prog true old nw client, Some e)
          | Panic => Panic
          end
      end
  end.

(** Where [Write] puts a message: in the cache, stopped or not, when there is one
    in the field; on the event channel otherwise. *)
Inductive written := ToCache (c : nat) (measName : string) (r : SubscribeRsp) | ToWorker (evs : list (option EventMsg)).
Definition Write (c : Config) (d : dynConfig) (cache : option nat) (m : option pmsg) (meta : gomap string) : go event_error written :=
  let '(m, _) := AddSubscriptionTarget m meta (i_AddTarget c) (d_targetTpl d) in
  match m with
  | Some (existT SubRsp r) =>
      match cache with
      | Some k => Ok (ToCache k (subscription_name meta) r)
      | None =>
          match ResponseToEventMsgs (subscription_name meta)
                  (Some (match sp_Rsp r with
                         | Rsp_Update (Some n) => SR_Update (as_notification n)
                         | Rsp_Update None => SR_Update (mkNotification 0 None [] [])
                         | _ => SR_Other
                         end)) meta (d_evps d) with
          | Ok evs => Ok (ToWorker evs)
          | Err _ => Ok (ToWorker [])
          | Panic => Panic
          end
      end
  | _ => Ok (ToWorker [])
  end.
Definition WriteEvent (d : dynConfig) (ev : option EventMsg) : go event_error (list (option EventMsg)) := applyAll (d_evps d) [ev].

(** [readCache]: the notifications of each subscription, as the cache gives them. *)
Definition notification_events (sub : string) (n : NotificationMsg) : go event_error (list (option EventMsg)) :=
  ResponseToEventMsgs sub (Some (SR_Update (as_notification n))) (Some {["subscription-name" := sub]}) [].
Definition readCache (d : dynConfig) (notifications : gmap string (list NotificationMsg)) : go event_error (list (option EventMsg)) :=
  events ← foldM (fun evs (sn : string * NotificationMsg) => l ← notification_events sn.1 sn.2; Ok (evs ++ l))
             (concat (map (fun kv => pair kv.1 <$> kv.2) (range notifications))) [];
  applyAll (d_evps d) events.

(** After an [Update] that removes the cache no message reaches the server. *)
Theorem influx_removed_cache_swallows made old nw k k' c d r meta : i_CacheConfig old <> None -> i_CacheConfig nw = None ->
  update_cache made old nw k = Ok k' -> k_cache k = Some c -> exists r', Write nw d (k_cache k') (Some (existT SubRsp r)) meta = Ok (ToCache c (subscription_name meta) r') /\ c ∈ k_stopped k'.
Proof.
  intros Ho Hn Hu Hk. assert (Hc : k_cache k' = Some c /\ c ∈ k_stopped k').
  { unfold update_cache in Hu. rewrite Hn in Hu. destruct (i_CacheConfig old); [|done]. unfold stopCache in Hu. destruct (is_closed _ _); [done|].
    match type of Hu with Ok ?x = _ => assert (k' = x) as -> by congruence end. cbn. rewrite Hk. split; [done|left]. }
  destruct Hc as [Hc Hs]. rewrite Hc. unfold Write, AddSubscriptionTarget. destruct (AddSubscribeResponseTarget _ _ _ _) as [[r'|] e]; by eexists.
Qed.
End operations.

(** ** A concrete output *)

Definition influx_checked : Config :=
  setDefaultsFor (mkInflux "i" "" "o" "b" "t" 0 0 false false None 30000000000 false "" "" [] false false "" None 0 "").

Definition influx_moved : Config :=
  setDefaultsFor (mkInflux "i" "http://other:8086" "o" "b" "t" 0 0 false false None 30000000000 false "" "" [] false false "" None 0 "").

(** After an [Update] that replaced the client. *)
Definition influx_swapped : sys :=
  mkSys influx_moved (mkCell 1 2 [0]) (mkCell 0 1 []) (mkCell 0 1 []) 1 [0] false false [mkWorker 1 (WRun 1 0)] [mkHealth 0 (Some 0) false HTick] 1 (Some 0) [] [] [] [] false.
Lemma influx_swapped_reached : reach false (init influx_checked) influx_swapped.
Proof.
  unfold init. change (checks influx_checked) with true. by_worker ltac:(apply w_start; reflexivity). by_worker ltac:(apply w_bind). by_worker ltac:(apply w_listen).
  eapply rtc_l; [apply (step_update _ _ influx_moved); [reflexivity|reflexivity|by left]|]. norm.
  change (update_prog influx_checked influx_moved 0) with [ICfg influx_moved; IClient; IStart; ICloseClient 0].
  by_instr ltac:(apply i_cfg). by_instr ltac:(apply i_client). by_instr ltac:(apply i_start). by_instr ltac:(apply i_cancel).
  by_worker ltac:(apply w_end; reflexivity). by_worker ltac:(apply w_start; reflexivity). by_worker ltac:(apply w_bind). by_worker ltac:(apply w_listen).
  by_instr ltac:(apply i_wait; constructor; [done|constructor]). by_instr ltac:(apply i_close_client). apply rtc_refl.
Qed.
Lemma influx_no_use_after_close_witness :
  reach false (init influx_checked) influx_swapped /\ s_workers influx_swapped !! 0 = Some (mkWorker 1 (WRun 1 0)) /\ 0 ∈ c_closed (s_client influx_swapped) /\
  1 ∉ c_closed (s_client influx_swapped).
Proof.
  split; [exact influx_swapped_reached|]. split; [reflexivity|]. split; [left|].
  exact (influx_no_use_after_close influx_checked influx_swapped 0 (mkWorker 1 (WRun 1 0)) influx_swapped_reached eq_refl).
Defined.
