(* ===== verification/PromWrite.v ===== *)
(** * The Prometheus remote write output: configuration and requests
    (pkg/outputs/prometheus_output/prometheus_write_output)

    Defaults and what a new configuration restarts; the request of a chunk of
    series, its headers and its retries; the loop that cuts the series of a
    buffer into chunks and the one that does it for the metadata. Encoding a
    request (gogo/protobuf, snappy), parsing its URL and the answers of the
    remote are arguments. The life of the output is in PromWriteLife.v. *)

From Stdlib Require Import Floats.SpecFloat.
From stdpp Require Import strings list gmap sorting.
From S2P Require Import Prelude GoStrings Utf8 GoVal Text Event Tags Messages Processor Formats OutMsg Convert Prom ClickhouseRows.

#[local] Open Scope Z_scope.

Inductive pw_error := errDecode | errMissingURL | errURL | errBufferSize | errTemplate | errProcessors | errMetrics | errTLS
| errMarshal | errRequest | errClient | errStatus (code : Z).

(** ** Configuration *)

Record auth := mkAuth { au_Username : string; au_Password : string }.
Record authorization := mkAuthz { az_Type : string; az_Credentials : string }.
Record metadata := mkMetadata { md_Include : bool; md_Interval : Z; md_MaxEntriesPerWrite : Z }.

Record config := mkPwConfig {
  w_Name : string; w_URL : string; w_Timeout : Z; w_Headers : gmap string string; w_Authentication : option auth; w_Authorization : option authorization;
  w_TLS : option TLSConfig; w_Interval : Z; w_BufferSize : Z; w_InputBufferSize : Z; w_MaxTimeSeriesPerWrite : Z; w_MaxRetries : Z;
  w_Metadata : option metadata; w_Debug : bool; w_MetricPrefix : string; w_AppendSubscriptionName : bool; w_AddTarget : string;
  w_TargetTemplate : string; w_StringsAsLabels : bool; w_EventProcessors : list string; w_NumWorkers : Z; w_NumWriters : Z; w_EnableMetrics : bool }.

Definition second : Z := 1000000000.
Definition defaultMetadataWriteInterval : Z := 60 * second.
Definition defaultMaxMetaDataEntriesPerWrite : Z := 500.

Definition metadata_defaults (m : option metadata) : option metadata :=
  match m with
  | None => Some (mkMetadata true defaultMetadataWriteInterval defaultMaxMetaDataEntriesPerWrite)
  | Some m => if md_Include m
      then Some (mkMetadata true (pos_default defaultMetadataWriteInterval (md_Interval m)) (pos_default defaultMaxMetaDataEntriesPerWrite (md_MaxEntriesPerWrite m)))
      else Some m
  end.
Definition setDefaultsFor (c : config) : config :=
  mkPwConfig (w_Name c) (w_URL c) (pos_default (10 * second) (w_Timeout c)) (w_Headers c) (w_Authentication c) (w_Authorization c) (w_TLS c)
    (pos_default (10 * second) (w_Interval c)) (pos_default 1000 (w_BufferSize c)) (pos_default 1 (w_InputBufferSize c))
    (pos_default 500 (w_MaxTimeSeriesPerWrite c)) (w_MaxRetries c) (metadata_defaults (w_Metadata c)) (w_Debug c) (w_MetricPrefix c)
    (w_AppendSubscriptionName c) (w_AddTarget c) (w_TargetTemplate c) (w_StringsAsLabels c) (w_EventProcessors c)
    (pos_default 1 (w_NumWorkers c)) (pos_default 1 (w_NumWriters c)) (w_EnableMetrics c).

Definition with_name_and_input (name : string) (input : Z) (c : config) : config :=
  mkPwConfig name (w_URL c) (w_Timeout c) (w_Headers c) (w_Authentication c) (w_Authorization c) (w_TLS c) (w_Interval c) (w_BufferSize c) input
    (w_MaxTimeSeriesPerWrite c) (w_MaxRetries c) (w_Metadata c) (w_Debug c) (w_MetricPrefix c) (w_AppendSubscriptionName c) (w_AddTarget c)
    (w_TargetTemplate c) (w_StringsAsLabels c) (w_EventProcessors c) (w_NumWorkers c) (w_NumWriters c) (w_EnableMetrics c).

(** [channelNeedsSwap], [metadataChanged], [needsWorkerRestart], [authEq],
    [authzEq], [needsClientRebuild], of configurations that are there *)
Definition channelNeedsSwap (old nw : config) : bool := negb (w_BufferSize old =? w_BufferSize nw).
Definition metadataChanged (old nw : option metadata) : bool :=
  match old, nw with
  | Some o, Some n => negb (Bool.eqb (md_Include o) (md_Include n)) || negb (md_Interval o =? md_Interval n)
      || negb (md_MaxEntriesPerWrite o =? md_MaxEntriesPerWrite n)
  | _, _ => true
  end.
Definition needsWorkerRestart (old nw : config) : bool :=
  negb (w_NumWorkers old =? w_NumWorkers nw) || negb (w_NumWriters old =? w_NumWriters nw) || negb (w_Interval old =? w_Interval nw)
  || metadataChanged (w_Metadata old) (w_Metadata nw).
Definition authEq (a b : option auth) : bool :=
  match a, b with
  | None, None => true
  | Some a, Some b => String.eqb (au_Username a) (au_Username b) && String.eqb (au_Password a) (au_Password b)
  | _, _ => false
  end.
Definition authzEq (a b : option authorization) : bool :=
  match a, b with
  | None, None => true
  | Some a, Some b => String.eqb (az_Type a) (az_Type b) && String.eqb (az_Credentials a) (az_Credentials b)
  | _, _ => false
  end.
Definition needsClientRebuild (old nw : config) : bool :=
  negb (String.eqb (w_URL old) (w_URL nw)) || negb (w_Timeout old =? w_Timeout nw) || negb (TLS_Equal (w_TLS old) (w_TLS nw))
  || negb (authEq (w_Authentication old) (w_Authentication nw)) || negb (authzEq (w_Authorization old) (w_Authorization nw)).

(** ** Requests *)

Record MetricMetadata := mkMeta { mm_MetricFamilyName : string; mm_Help : string }.
Record WriteRequest := mkWriteRequest { wr_Timeseries : list TimeSeries; wr_Metadata : list MetricMetadata }.

(** [textproto.CanonicalMIMEHeaderKey]: a key with a character that is not of a
    token stays as it is. *)
Definition upper_letter (c : ascii) : bool := (65 <=? Z.of_nat (nat_of_ascii c)) && (Z.of_nat (nat_of_ascii c) <=? 90).
Definition lower_letter (c : ascii) : bool := (97 <=? Z.of_nat (nat_of_ascii c)) && (Z.of_nat (nat_of_ascii c) <=? 122).
Definition digit_char (c : ascii) : bool := (48 <=? Z.of_nat (nat_of_ascii c)) && (Z.of_nat (nat_of_ascii c) <=? 57).
Definition token_char (c : ascii) : bool :=
  upper_letter c || lower_letter c || digit_char c || existsb (Ascii.eqb c) (list_ascii_of_string "!#$%&'*+-.^_`|~").
Fixpoint canonical_from (upper : bool) (s : string) : string :=
  match s with
  | "" => ""
  | String c s =>
      let c := if upper && lower_letter c then ascii_of_nat (nat_of_ascii c - 32)
               else if negb upper && upper_letter c then ascii_of_nat (nat_of_ascii c + 32) else c in
      String c (canonical_from (Ascii.eqb c "-") s)
  end.
Definition CanonicalHeaderKey (s : string) : string := if sall token_char s then canonical_from true s else s.

Abbreviation Header := (gmap string (list string)).
Definition header_Set (k v : string) (h : Header) : Header := <[CanonicalHeaderKey k := [v]]> h.
Definition header_Add (h : Header) (kv : string * string) : Header :=
  <[CanonicalHeaderKey kv.1 := default [] (h !! CanonicalHeaderKey kv.1) ++ [kv.2]]> h.

Record Request := mkRequest { rq_URL : string; rq_Header : Header; rq_Body : string }.

Section requests.
Context `{MapOrder} (Marshal : WriteRequest -> option string) (snappy : string -> string) (url_ok : string -> bool).

Definition fixed_headers : Header :=
  header_Set "Content-Type" "application/x-protobuf" (header_Set "User-Agent" "gNMIc prometheus write"
    (header_Set "Content-Encoding" "snappy" (header_Set "X-Prometheus-Remote-Write-Version" "0.1.0" ∅))).
Definition auth_headers (c : config) (h : Header) : Header :=
  let h := match w_Authentication c with
           | Some a => header_Set "Authorization" ("Basic " +:+ base64 (au_Username a +:+ (":" +:+ au_Password a))) h
           | None => h
           end in
  match w_Authorization c with
  | Some a => if String.eqb (az_Type a) "" then h else header_Set "Authorization" (az_Type a +:+ (" " +:+ az_Credentials a)) h
  | None => h
  end.
Definition makeHTTPRequest (c : config) (wr : WriteRequest) : go pw_error Request :=
  match Marshal wr with
  | None => Err errMarshal
  | Some b =>
      if negb (url_ok (w_URL c)) then Err errRequest
      else Ok (mkRequest (w_URL c) (foldl header_Add (auth_headers c fixed_headers) (range (w_Headers c))) (snappy b))
  end.
End requests.

(** What the remote makes of one attempt: how much of the body is read, and the
    status of the answer, if there is one, with whether its body can be read. *)
Record attempt := mkAttempt { at_read : nat; at_status : option Z }.

Definition answered (n : nat) (code : Z) : attempt := mkAttempt n (Some code).

(** [writeRequest] from its [RETRY] label: the body of the request, attempts that
    failed so far, and the attempts to come, which the list must be long enough
    for. The requests that were sent are returned with what was left of the body
    when each began. *)
Fixpoint attempts (maxRetries : Z) (retries : Z) (body : string) (l : list attempt) : option (list string * go pw_error ()) :=
  match l with
  | [] => None
  | a :: l =>
      match at_status a with
      | Some code => Some ([body], if 300 <=? code then Err (errStatus code) else Ok ())
      | None =>
          if retries + 1 <? maxRetries
          then '(sent, r) ← attempts maxRetries (retries + 1) (sdrop (at_read a) body) l; Some (body :: sent, r)
          else Some ([body], Err errClient)
      end
  end.

(** ** Chunks *)

(** The loop of [write] over the sorted series: [oks n] is whether request [n]
    succeeds; a chunk whose request failed is not emptied. The requests are
    returned in order, each with its success. *)
Fixpoint write_chunks {A} (max : Z) (oks : nat -> bool) (n : nat) (chunk pts : list A) : list (list A * bool) :=
  match pts with
  | [] => []
  | pt :: pts =>
      let chunk := chunk ++ [pt] in
      if (Z.of_nat (length chunk) =? max) || (match pts with [] => true | _ => false end)
      then (chunk, oks n) :: write_chunks max oks (S n) (if oks n then [] else chunk) pts
      else write_chunks max oks n chunk pts
  end.

(** The loop of [writeMetadata] and what it does after the loop: an entry that
    finds the batch full is not appended to the next. *)
Fixpoint write_metadata {A} (max : Z) (oks : nat -> bool) (n : nat) (mds cache : list A) : list (list A * bool) :=
  match cache with
  | [] => match mds with [] => [] | _ => [(mds, oks n)] end
  | md :: cache =>
      if Z.of_nat (length mds) <? max then write_metadata max oks n (mds ++ [md]) cache
      else (mds, oks n) :: (if oks n then write_metadata max oks (S n) [] cache else [])
  end.

Definition ts_before (a b : TimeSeries) : Prop := ts_Timestamp a <= ts_Timestamp b.
(** [write] of the series it gathered: [sort.Slice] gives some sorted order of them. *)
Definition write (c : config) (oks : nat -> bool) (pts : list TimeSeries) (requests : list (list TimeSeries * bool)) : Prop :=
  exists sorted, sorted ≡ₚ pts /\ Sorted ts_before sorted /\ requests = write_chunks (w_MaxTimeSeriesPerWrite c) oks 0 [] sorted.
(** [writeMetadata]: an empty cache is looked at before the configuration, and a
    slice of a negative capacity cannot be made. *)
Definition writeMetadata `{MapOrder} (c : config) (oks : nat -> bool) (cache : gmap string MetricMetadata) : go pw_error (list (list MetricMetadata * bool)) :=
  if decide (cache = ∅) then Ok []
  else match w_Metadata c with
  | None => Panic
  | Some m => if md_MaxEntriesPerWrite m <? 0 then Panic else Ok (write_metadata (md_MaxEntriesPerWrite m) oks 0 [] (snd <$> range cache))
  end.

(** ** Configuration: properties *)

Lemma pos_default_pos d z : 0 < d -> 0 < pos_default d z.
Proof. unfold pos_default. destruct (Z.leb_spec z 0); lia. Qed.
Lemma pos_default_idem d z : 0 < d -> pos_default d (pos_default d z) = pos_default d z.
Proof. intros Hd. pose proof (pos_default_pos d z Hd). unfold pos_default at 1. destruct (Z.leb_spec (pos_default d z) 0); lia. Qed.

Definition usable (c : config) : Prop :=
  0 < w_Timeout c /\ 0 < w_Interval c /\ 0 < w_BufferSize c /\ 0 < w_InputBufferSize c /\ 0 < w_MaxTimeSeriesPerWrite c /\ 0 < w_NumWorkers c /\ 0 < w_NumWriters c /\
  exists m, w_Metadata c = Some m /\ (md_Include m = true -> 0 < md_Interval m /\ 0 < md_MaxEntriesPerWrite m).

Lemma prom_write_defaults_usable c : usable (setDefaultsFor c).
Proof.
  unfold usable, setDefaultsFor. cbn. repeat (split; [by apply pos_default_pos|]). destruct (w_Metadata c) as [[[] i n]|]; cbn; eexists; (split; [reflexivity|]); cbn; try done.
  split; by apply pos_default_pos.
Qed.

(** Defaults make every period, capacity and count usable, and setting them again
    changes nothing. *)
Theorem prom_write_defaults c : usable (setDefaultsFor c) /\ setDefaultsFor (setDefaultsFor c) = setDefaultsFor c.
Proof.
  split; [apply prom_write_defaults_usable|].
  unfold setDefaultsFor. cbn. rewrite !pos_default_idem by done. f_equal. destruct (w_Metadata c) as [[[] i n]|]; cbn; [|done..]. by rewrite !pos_default_idem.
Qed.

Lemma authEq_spec a b : authEq a b = true <-> a = b.
Proof.
  destruct a as [[u p]|], b as [[u' p']|]; cbn; try done. rewrite andb_true_iff, !String.eqb_eq. split; [by intros [-> ->]|]. by intros [= -> ->].
Qed.
Lemma authzEq_spec a b : authzEq a b = true <-> a = b.
Proof.
  destruct a as [[u p]|], b as [[u' p']|]; cbn; try done. rewrite andb_true_iff, !String.eqb_eq. split; [by intros [-> ->]|]. by intros [= -> ->].
Qed.

(** The client is kept exactly when what it is built from is the same. *)
Theorem prom_write_client old nw : needsClientRebuild old nw = false <->
  w_URL old = w_URL nw /\ w_Timeout old = w_Timeout nw /\ w_TLS old = w_TLS nw /\ w_Authentication old = w_Authentication nw /\ w_Authorization old = w_Authorization nw.
Proof.
  unfold needsClientRebuild. rewrite !orb_false_iff, !negb_false_iff, String.eqb_eq, Z.eqb_eq, TLS_Equal_spec, authEq_spec, authzEq_spec. tauto.
Qed.

(** The goroutines are kept exactly when their number, the periods and the
    metadata settings are the same. *)
Theorem prom_write_restart old nw : usable old -> usable nw -> (needsWorkerRestart old nw = false <->
  w_NumWorkers old = w_NumWorkers nw /\ w_NumWriters old = w_NumWriters nw /\ w_Interval old = w_Interval nw /\ w_Metadata old = w_Metadata nw).
Proof.
  intros (_ & _ & _ & _ & _ & _ & _ & [[i1 t1 n1] [Ho _]]) (_ & _ & _ & _ & _ & _ & _ & [[i2 t2 n2] [Hn _]]). unfold needsWorkerRestart. rewrite Ho, Hn. cbn.
  rewrite !orb_false_iff, !negb_false_iff, !Z.eqb_eq, Bool.eqb_true_iff. split; [by intros (((-> & ->) & ->) & ((-> & ->) & ->))|]. by intros (-> & -> & -> & [= -> -> ->]).
Qed.

(** ** Headers: properties *)

Lemma canonical_from_idem u s : canonical_from u (canonical_from u s) = canonical_from u s.
Proof.
  revert u. induction s as [|c s IH]; intros u; [done|]. cbn [canonical_from].
  set (d := if u && lower_letter c then _ else _).
  assert (Hd : (if u && lower_letter d then ascii_of_nat (nat_of_ascii d - 32)
                else if negb u && upper_letter d then ascii_of_nat (nat_of_ascii d + 32) else d) = d).
  { subst d. destruct u, c as [[] [] [] [] [] [] [] []]; reflexivity. }
  by rewrite Hd, IH.
Qed.
Lemma canonical_token u s : sall token_char s = true -> sall token_char (canonical_from u s) = true.
Proof.
  revert u. induction s as [|c s IH]; intros u; [done|]. cbn [canonical_from sall]. rewrite !andb_true_iff. intros [Hc Hs]. split; [|by apply IH].
  destruct u, c as [[] [] [] [] [] [] [] []]; try exact Hc; reflexivity.
Qed.
(** A canonical key is its own canonical form. *)
Theorem CanonicalHeaderKey_idem s : CanonicalHeaderKey (CanonicalHeaderKey s) = CanonicalHeaderKey s.
Proof.
  unfold CanonicalHeaderKey. destruct (sall token_char s) eqn:E; [|by rewrite E]. rewrite canonical_token by done. apply canonical_from_idem.
Qed.

(** The values that configured headers give to a key. *)
Definition added_values (k : string) (l : list (string * string)) : list string :=
  snd <$> filter (fun kv => CanonicalHeaderKey kv.1 = k) l.

Lemma header_adds l h k : default [] (foldl header_Add h l !! k) = default [] (h !! k) ++ added_values k l.
Proof.
  revert h. induction l as [|[k' v] l IH]; intros h; cbn [foldl]; [by rewrite app_nil_r|]. rewrite IH. unfold header_Add, added_values. cbn [fst snd].
  rewrite filter_cons. cbn [fst]. destruct (decide (CanonicalHeaderKey k' = k)) as [<-|Hk].
  - rewrite lookup_insert_eq. cbn. by rewrite <-app_assoc.
  - by rewrite lookup_insert_ne.
Qed.

(** The request of a [WriteRequest]: it is posted to the configured URL with the
    compressed encoding as its body; the fixed headers come first, an
    authorization with a type replaces basic authentication, and configured
    headers are added to what is there and replace nothing. *)
Theorem prom_write_headers `{MapOrder} Marshal snappy url_ok c wr r k : makeHTTPRequest Marshal snappy url_ok c wr = Ok r ->
  rq_URL r = w_URL c /\ (exists b, Marshal wr = Some b /\ rq_Body r = snappy b) /\
  default [] (rq_Header r !! k) = default [] (auth_headers c fixed_headers !! k) ++ added_values k (range (w_Headers c)) /\
  auth_headers c fixed_headers !! "Content-Encoding" = Some ["snappy"] /\
  auth_headers c fixed_headers !! "Authorization" =
    match w_Authorization c, w_Authentication c with
    | Some (mkAuthz (String _ _ as t) cr), _ => Some [t +:+ (" " +:+ cr)]
    | _, Some a => Some ["Basic " +:+ base64 (au_Username a +:+ (":" +:+ au_Password a))]
    | _, None => None
    end.
Proof.
  unfold makeHTTPRequest. destruct (Marshal wr) as [b|] eqn:Eb; [|done]. destruct (negb _); [done|]. intros Hr.
  assert (r = mkRequest (w_URL c) (foldl header_Add (auth_headers c fixed_headers) (range (w_Headers c))) (snappy b)) as -> by congruence. cbn [rq_URL rq_Header rq_Body].
  split; [done|]. split; [by exists b|]. split; [apply header_adds|]. unfold auth_headers.
  destruct (w_Authorization c) as [[[|a t] cr]|], (w_Authentication c) as [[u p]|]; split; reflexivity.
Qed.

(** ** Attempts: properties *)

Lemma attempts_enough m n body l : (Z.to_nat (Z.max 1 (m - n)) <= length l)%nat ->
  exists sent r, attempts m n body l = Some (sent, r) /\ (1 <= length sent <= Z.to_nat (Z.max 1 (m - n)))%nat /\
    head sent = Some body /\ (Forall (fun a => at_status a = None -> at_read a = 0%nat) l -> Forall (eq body) sent) /\
    (forall u, r = Ok u -> exists a code, a ∈ l /\ at_status a = Some code /\ code < 300).
Proof.
  revert n body. induction l as [|[rd [code|]] l IH]; intros n body Hl; [cbn in Hl; lia|..]; cbn [attempts at_status].
  - eexists _, _. split; [reflexivity|]. cbn [length head]. split; [lia|]. split; [done|]. split; [intros _; by repeat constructor|].
    intros u Hu. exists (mkAttempt rd (Some code)), code. split; [left|]. split; [done|]. destruct (Z.leb_spec 300 code); [done|lia].
  - destruct (Z.ltb_spec (n + 1) m) as [Hm|Hm].
    + destruct (IH (n + 1) (sdrop rd body)) as (sent & r & Ha & Hn & Hh & Hf & Hr); [cbn in Hl; lia|]. cbn [at_read]. rewrite Ha. cbn.
      eexists _, _. split; [reflexivity|]. cbn [length head]. split; [lia|]. split; [done|]. split.
      * intros [Hrd Hall]%Forall_cons. cbn in Hrd. rewrite (Hrd eq_refl) in Hf. constructor; [done|]. by apply Hf.
      * intros u Hu. destruct (Hr u Hu) as (a & code & Hal & Hc). exists a, code. split; [by right|done].
    + eexists _, _. split; [reflexivity|]. cbn [length head]. split; [lia|]. split; [done|]. split; [intros _; by repeat constructor|done].
Qed.

(** A request is tried at least once and at most [MaxRetries] times; when the
    attempts that fail read nothing of the body every attempt sends all of it, and
    the request succeeds only on an answer below 300. *)
Theorem prom_write_attempts (maxRetries : Z) (body : string) (l : list attempt) : (Z.to_nat (Z.max 1 maxRetries) <= length l)%nat ->
  exists sent r, attempts maxRetries 0 body l = Some (sent, r) /\ (1 <= length sent <= Z.to_nat (Z.max 1 maxRetries))%nat /\
    (Forall (fun a => at_status a = None -> at_read a = 0%nat) l -> Forall (eq body) sent) /\
    (r = Ok () -> exists a code, a ∈ l /\ at_status a = Some code /\ code < 300).
Proof.
  intros Hl. destruct (attempts_enough maxRetries 0 body l) as (sent & r & Ha & Hn & _ & Hf & Hr); [by rewrite Z.sub_0_r|].
  rewrite Z.sub_0_r in Hn. exists sent, r. repeat (split; [done|]). apply Hr.
Qed.
Lemma prom_write_attempts_witness :
  (Z.to_nat (Z.max 1 3) <= length [mkAttempt 0 None; mkAttempt 0 None; answered 4 204])%nat /\
  exists sent r, attempts 3 0 "body" [mkAttempt 0 None; mkAttempt 0 None; answered 4 204] = Some (sent, r) /\
    (1 <= length sent <= Z.to_nat (Z.max 1 3))%nat /\
    (Forall (fun a => at_status a = None -> at_read a = 0%nat) [mkAttempt 0 None; mkAttempt 0 None; answered 4 204] -> Forall (eq "body") sent) /\
    (r = Ok () -> exists a code, a ∈ [mkAttempt 0 None; mkAttempt 0 None; answered 4 204] /\ at_status a = Some code /\ code < 300).
Proof. split; [vm_compute; lia|]. apply (prom_write_attempts 3 "body"). vm_compute. lia. Defined.

(** The request object is used again as it is: a retry after an attempt that read
    the body sends an empty one; two retries configured give one; an answer of the
    500s is not retried. *)
Example attempts_consumed : attempts 3 0 "body" [mkAttempt 4 None; answered 0 204] = Some (["body"; ""], Ok ()).
Proof. reflexivity. Qed.
Example attempts_two : attempts 2 0 "body" [mkAttempt 0 None; mkAttempt 0 None; answered 4 204] = Some (["body"; "body"], Err errClient).
Proof. reflexivity. Qed.
Example attempts_unavailable : attempts 3 0 "body" [answered 4 503; answered 4 204] = Some (["body"], Err (errStatus 503)).
Proof. reflexivity. Qed.

(** ** Chunks: properties *)

Section chunks.
Context {A : Type} (max : Z) (oks : nat -> bool).

(** What all requests carried, and what those that succeeded carried. *)
Definition carried (rs : list (list A * bool)) : list A := concat rs.*1.
Definition acked (rs : list (list A * bool)) : list A := concat (filter (fun r => r.2 = true) rs).*1.
Definition good (cs : list (list A)) : list (list A * bool) := (fun c => (c, true)) <$> cs.

Lemma acked_good cs l : acked (good cs ++ l) = concat cs ++ acked l.
Proof. unfold acked, good. induction cs as [|c cs IH]; [done|].
  rewrite fmap_cons, <-app_comm_cons, filter_cons_True, fmap_cons by done. cbn [concat fst]. by rewrite IH, app_assoc.
Qed.

Lemma acked_two (c d : list A) b : acked [(c, false); (d, b)] = if b then d else [].
Proof.
  unfold acked. rewrite filter_cons_False by done. destruct b; [rewrite filter_cons_True by done|by rewrite filter_cons_False].
  apply app_nil_r.
Qed.

(** A chunk that is full and was not sent takes everything that is left. *)
Lemma chunks_stuck (pts : list A) n (chunk : list A) : max <= Z.of_nat (length chunk) -> pts <> [] -> write_chunks max oks n chunk pts = [(chunk ++ pts, oks n)].
Proof.
  revert chunk. induction pts as [|pt pts IH]; intros chunk Hc Hne; [done|]. cbn [write_chunks].
  destruct (Z.eqb_spec (Z.of_nat (length (chunk ++ [pt]))) max) as [He|_]; [rewrite length_app in He; cbn in He; lia|]. cbn [orb].
  destruct pts as [|pt' pts]; [reflexivity|]. rewrite (IH (chunk ++ [pt])); [by rewrite <-app_assoc|rewrite length_app; cbn; lia|done].
Qed.

(** The requests of a run: chunks that succeed; then at most one that fails, and
    after it at most one with all that had not been acknowledged. *)
Definition run_shape (chunk pts : list A) (rs : list (list A * bool)) : Prop :=
  exists cs, Forall (fun c => c <> [] /\ Z.of_nat (length c) <= max) cs /\
    ((rs = good cs /\ concat cs = chunk ++ pts) \/
     (exists c, rs = good cs ++ [(c, false)] /\ c <> [] /\ Z.of_nat (length c) <= max /\ concat cs ++ c = chunk ++ pts) \/
     (exists c rest b, rs = good cs ++ [(c, false); (c ++ rest, b)] /\ rest <> [] /\ Z.of_nat (length c) = max /\ concat cs ++ c ++ rest = chunk ++ pts)).

Lemma shape_cons (c chunk pts : list A) rs : c <> [] -> Z.of_nat (length c) <= max -> run_shape [] pts rs -> c = chunk -> run_shape chunk pts ((c, true) :: rs).
Proof.
  intros Hc Hl (cs & Hcs & Hr) <-. exists (c :: cs). split; [by constructor|]. cbn [good fmap list_fmap concat app].
  destruct Hr as [(-> & He)|[(d & -> & Hd & Hdl & He)|(d & rest & b & -> & Hrest & Hd & He)]]; cbn [app] in He.
  - left. by rewrite He.
  - right; left. exists d. by rewrite <-app_assoc, He.
  - right; right. exists d, rest, b. by rewrite <-app_assoc, He.
Qed.

Lemma chunks_shape (pts : list A) n (chunk : list A) : Z.of_nat (length chunk) < max -> (chunk <> [] -> pts <> []) -> run_shape chunk pts (write_chunks max oks n chunk pts).
Proof.
  revert n chunk. induction pts as [|pt pts IH]; intros n chunk Hc Hne.
  - destruct chunk; [|by destruct Hne]. exists []. split; [constructor|]. by left.
  - cbn [write_chunks]. assert (Hl : Z.of_nat (length (chunk ++ [pt])) <= max) by (rewrite length_app; cbn; lia).
    assert (Hn : chunk ++ [pt] <> []) by by destruct chunk.
    replace (run_shape chunk (pt :: pts)) with (run_shape (chunk ++ [pt]) pts) by (unfold run_shape; by rewrite <-app_assoc).
    destruct (Z.eqb_spec (Z.of_nat (length (chunk ++ [pt]))) max) as [He|He].
    + cbn [orb]. destruct (oks n).
      * apply shape_cons; [done..| |done]. apply IH; [cbn; destruct chunk; cbn in *; lia|done].
      * exists []. split; [constructor|]. cbn [good fmap list_fmap concat app]. right. destruct pts as [|pt' pts].
        -- left. exists (chunk ++ [pt]). by rewrite app_nil_r.
        -- right. exists (chunk ++ [pt]), (pt' :: pts), (oks (S n)). rewrite chunks_stuck by (done || lia). done.
    + cbn [orb]. destruct pts as [|pt' pts].
      * exists (if oks n then [chunk ++ [pt]] else []). destruct (oks n); (split; [by repeat constructor|]).
        -- left. cbn. by rewrite !app_nil_r.
        -- right; left. exists (chunk ++ [pt]). by rewrite app_nil_r.
      * apply IH; [lia|done].
Qed.

Lemma shape_acked (pts : list A) rs : pts <> [] -> run_shape [] pts rs -> acked rs `prefix_of` pts /\ (acked rs = pts <-> exists c, last rs = Some (c, true)).
Proof.
  intros Hne (cs & Hcs & Hr). cbn [app] in Hr. destruct Hr as [(-> & He)|[(c & -> & Hc & _ & He)|(c & rest & b & -> & Hrest & _ & He)]].
  - rewrite <-(app_nil_r (good cs)), acked_good, He, !app_nil_r. split; [done|]. split; [intros _|done].
    destruct (exists_last (l := cs)) as (cs' & c & ->); [by intros ->; subst|]. exists c. unfold good. rewrite fmap_app. apply last_snoc.
  - rewrite acked_good, app_nil_r, last_snoc, <-He. split; [by apply prefix_app_r|]. split; [|by intros [? [=]]].
    intros Ha. rewrite <-(app_nil_r (concat cs)) in Ha at 1. by apply app_inv_head in Ha as <-.
  - rewrite acked_good, <-He. replace (good cs ++ [(c, false); (c ++ rest, b)]) with ((good cs ++ [(c, false)]) ++ [(c ++ rest, b)]) by by rewrite <-app_assoc.
    rewrite last_snoc, acked_two. destruct b.
    + split; [done|]. split; [by eexists|done].
    + rewrite app_nil_r. split; [by apply prefix_app_r|]. split; [|by intros [? [=]]].
      intros Ha. rewrite <-(app_nil_r (concat cs)) in Ha at 1. apply app_inv_head in Ha. destruct c, rest; done.
Qed.
End chunks.

(** ** Metadata: properties *)

Section metadata.
Context {A : Type} (max : Z) (oks : nat -> bool).

Lemma metadata_sublist (cache mds : list A) n : carried (write_metadata max oks n mds cache) `sublist_of` mds ++ cache.
Proof.
  revert mds n. induction cache as [|md cache IH]; intros mds n; cbn [write_metadata].
  - destruct mds; [done|]. unfold carried. cbn. by rewrite !app_nil_r.
  - destruct (_ <? _).
    + etrans; [apply IH|]. by rewrite <-app_assoc.
    + unfold carried in *. cbn [fmap list_fmap concat fst]. apply sublist_app; [done|]. destruct (oks n); [|apply sublist_nil_l]. apply sublist_cons, (IH []).
Qed.

Lemma metadata_sizes (cache mds : list A) n : Z.of_nat (length mds) <= max ->
  Forall (fun r => Z.of_nat (length r.1) <= max) (write_metadata max oks n mds cache).
Proof.
  revert mds n. induction cache as [|md cache IH]; intros mds n Hm; cbn [write_metadata].
  - destruct mds; by repeat constructor.
  - destruct (Z.ltb_spec (Z.of_nat (length mds)) max) as [Hlt|Hge].
    + apply IH. rewrite length_app. cbn. lia.
    + constructor; [done|]. destruct (oks n); [|constructor]. apply IH. cbn. lia.
Qed.

Lemma metadata_count (cache mds : list A) n : (forall k, oks k = true) -> Z.of_nat (length mds) <= max ->
  let total := Z.of_nat (length mds + length cache) in
  Z.of_nat (length (carried (write_metadata max oks n mds cache))) = total - total / (max + 1).
Proof.
  intros Hok. revert mds n. induction cache as [|md cache IH]; intros mds n Hm; cbn [write_metadata]; cbv zeta.
  - rewrite Nat.add_0_r, Z.div_small, Z.sub_0_r by lia. destruct mds as [|x l]; [done|]. unfold carried. cbn [fmap list_fmap concat fst]. by rewrite app_nil_r.
  - destruct (Z.ltb_spec (Z.of_nat (length mds)) max) as [Hlt|Hge].
    + rewrite IH by (rewrite length_app; cbn; lia). cbv zeta. rewrite length_app. cbn [length]. by replace (length mds + 1 + length cache)%nat with (length mds + S (length cache))%nat by lia.
    + rewrite Hok. unfold carried in *. cbn [fmap list_fmap concat fst]. rewrite length_app, Nat2Z.inj_add, IH by (cbn; lia). cbv zeta. cbn [length Nat.add].
      replace (Z.of_nat (length mds + S (length cache))) with (Z.of_nat (length cache) + 1 * (max + 1)) by lia. rewrite Z.div_add by lia. lia.
Qed.
End metadata.

(** ** What [write] and [writeMetadata] send *)

(** C36: [write] cuts the series, oldest first, into requests. What the remote
    acknowledged is the oldest of them; it is all of them exactly when the last
    request succeeded. At most one request fails before the last; the last then
    carries everything that was not acknowledged, whatever its size. *)
Theorem prom_write_chunks (c : config) oks (pts : list TimeSeries) rs : usable c -> pts <> [] -> write c oks pts rs ->
  exists sorted, sorted ≡ₚ pts /\ Sorted ts_before sorted /\ acked rs `prefix_of` sorted /\
    (acked rs = sorted <-> exists l, last rs = Some (l, true)) /\
    forall before l b, rs = before ++ [(l, b)] ->
      Forall (fun r => Z.of_nat (length r.1) <= w_MaxTimeSeriesPerWrite c) before /\
      (Forall (fun r => r.2 = true) before /\ Z.of_nat (length l) <= w_MaxTimeSeriesPerWrite c \/
       exists ok d, before = good ok ++ [(d, false)] /\ d `prefix_of` l /\ sorted = concat ok ++ l).
Proof.
  intros (_ & _ & _ & _ & Hm & _) Hne (sorted & Hp & Hs & ->). exists sorted. split; [done|]. split; [done|].
  set (max := w_MaxTimeSeriesPerWrite c) in *. assert (Hne' : sorted <> []) by (intros ->; by apply Permutation_nil_l in Hp).
  assert (Hsh : run_shape max [] sorted (write_chunks max oks 0 [] sorted)) by (apply chunks_shape; [cbn; lia|done]).
  destruct (shape_acked max sorted _ Hne' Hsh) as [Hpre Hall]. split; [done|]. split; [done|].
  intros before l b Hrs. rewrite Hrs in Hsh. destruct Hsh as (cs & Hcs & Hr). cbn [app] in Hr.
  assert (Hg : forall ds : list (list TimeSeries), Forall (fun d => d <> [] /\ Z.of_nat (length d) <= max) ds ->
    Forall (fun r => Z.of_nat (length r.1) <= max) (good ds) /\ Forall (fun r => r.2 = true) (good ds)).
  { intros ds Hds. unfold good. rewrite !Forall_fmap. split; [|by apply Forall_true]. eapply Forall_impl; [exact Hds|]. by intros d [_ ?]. }
  destruct Hr as [(He & _)|[(d & He & _ & Hd & _)|(d & rest & b' & He & Hrest & Hd & Hc)]].
  - destruct cs as [|x cs' _] using rev_ind; [by destruct before|]. unfold good in He. rewrite fmap_app in He. apply app_inj_tail in He as [-> [= -> ->]].
    apply Forall_app in Hcs as [Hcs' [[_ Hx] _]%Forall_cons]. destruct (Hg _ Hcs'). split; [done|by left].
  - apply app_inj_tail in He as [-> [= -> ->]]. destruct (Hg _ Hcs). split; [done|by left].
  - replace (good cs ++ [(d, false); (d ++ rest, b')]) with ((good cs ++ [(d, false)]) ++ [(d ++ rest, b')]) in He by by rewrite <-app_assoc.
    apply app_inj_tail in He as [-> [= -> ->]]. destruct (Hg _ Hcs). split; [apply Forall_app; split; [done|constructor; [cbn; lia|constructor]]|].
    right. exists cs, d. split; [done|]. split; [by apply prefix_app_r|done].
Qed.

(** C37: [writeMetadata] when every request succeeds: requests of at most the configured
    size carry each entry at most once, and one entry of every [max + 1] is left
    out. *)
Theorem prom_write_metadata `{MapOrder} (c : config) oks (cache : gmap string MetricMetadata) m rs :
  w_Metadata c = Some m -> 0 < md_MaxEntriesPerWrite m -> (forall n, oks n = true) -> writeMetadata c oks cache = Ok rs ->
  carried rs `sublist_of` snd <$> range cache /\ Forall (fun r => Z.of_nat (length r.1) <= md_MaxEntriesPerWrite m) rs /\
  Z.of_nat (length (carried rs)) = Z.of_nat (size cache) - Z.of_nat (size cache) / (md_MaxEntriesPerWrite m + 1).
Proof.
  intros Hm Hpos Hok Hw. unfold writeMetadata in Hw. rewrite Hm in Hw. destruct (decide (cache = ∅)) as [->|_].
  - assert (rs = []) as -> by congruence. rewrite map_size_empty, Z.div_small by lia. repeat split; [apply sublist_nil_l|constructor].
  - destruct (Z.ltb_spec (md_MaxEntriesPerWrite m) 0) as [|_]; [lia|].
    assert (rs = write_metadata (md_MaxEntriesPerWrite m) oks 0 [] (snd <$> range cache)) as -> by congruence.
    split; [apply (metadata_sublist _ _ _ [])|]. split; [apply metadata_sizes; cbn; lia|].
    rewrite metadata_count by (done || (cbn; lia)). cbv zeta. cbn [length Nat.add]. rewrite length_fmap, (Permutation_length (range_perm cache)). by rewrite length_map_to_list.
Qed.

Example chunks_all_good : write_chunks 2 (fun _ => true) 0 [] [1; 2; 3; 4; 5] = [([1; 2], true); ([3; 4], true); ([5], true)].
Proof. reflexivity. Qed.
(** The second request of three fails: the third has the four series that are left. *)
Example chunks_grow : write_chunks 2 (fun n => negb (Nat.eqb n 1)) 0 [] [1; 2; 3; 4; 5; 6] = [([1; 2], true); ([3; 4], false); ([3; 4; 5; 6], true)].
Proof. reflexivity. Qed.
Example metadata_lost : write_metadata 2 (fun _ => true) 0 [] [1; 2; 3; 4; 5; 6; 7] = [([1; 2], true); ([4; 5], true); ([7], true)].
Proof. reflexivity. Qed.

Definition config_none : config := mkPwConfig "" "" 0 ∅ None None None 0 0 0 2 0 None false "" false "" "" false [] 0 0 false.
Definition config_two : config := setDefaultsFor config_none.
Definition series_at (t : Z) : TimeSeries := mkSeries "up" [] S754_nan t.
Definition series_five : list TimeSeries := series_at <$> [3; 1; 5; 2; 4].
Definition sorted_five : list TimeSeries := series_at <$> [1; 2; 3; 4; 5].
Definition fail_first (n : nat) : bool := negb (Nat.eqb n 0).

Lemma series_five_sorted : sorted_five ≡ₚ series_five /\ Sorted ts_before sorted_five.
Proof.
  split; [|repeat constructor; unfold ts_before; cbn; lia]. unfold sorted_five, series_five. apply fmap_Permutation.
  transitivity ([1; 3; 5; 2; 4]); [|constructor]. constructor. transitivity ([2; 3; 5; 4]); [|etransitivity; [constructor|constructor; constructor]].
  constructor. constructor. constructor.
Qed.

Lemma prom_write_chunks_witness :
  usable config_two /\ series_five <> [] /\ write config_two fail_first series_five (write_chunks 2 fail_first 0 [] sorted_five) /\
  exists sorted, sorted ≡ₚ series_five /\ Sorted ts_before sorted /\ acked (write_chunks 2 fail_first 0 [] sorted_five) `prefix_of` sorted /\
    (acked (write_chunks 2 fail_first 0 [] sorted_five) = sorted <-> exists l, last (write_chunks 2 fail_first 0 [] sorted_five) = Some (l, true)) /\
    forall before l b, write_chunks 2 fail_first 0 [] sorted_five = before ++ [(l, b)] ->
      Forall (fun r => Z.of_nat (length r.1) <= w_MaxTimeSeriesPerWrite config_two) before /\
      (Forall (fun r => r.2 = true) before /\ Z.of_nat (length l) <= w_MaxTimeSeriesPerWrite config_two \/
       exists ok d, before = good ok ++ [(d, false)] /\ d `prefix_of` l /\ sorted = concat ok ++ l).
Proof.
  assert (Hu : usable config_two) by apply prom_write_defaults_usable.
  assert (Hw : write config_two fail_first series_five (write_chunks 2 fail_first 0 [] sorted_five)) by (exists sorted_five; repeat split; apply series_five_sorted).
  split; [exact Hu|]. split; [discriminate|]. split; [exact Hw|].
  apply (prom_write_chunks config_two fail_first series_five); [exact Hu|discriminate|exact Hw].
Defined.

(** The first request of two fails: the second has all five series. *)
Example chunks_five : map (fun r => (map ts_Timestamp r.1, r.2)) (write_chunks 2 fail_first 0 [] sorted_five) = [([1; 2], false); ([1; 2; 3; 4; 5], true)].
Proof. reflexivity. Qed.

Definition meta_up (n : string) : MetricMetadata := mkMeta n "gNMIc generated metric".
Definition cache_four : gmap string MetricMetadata := {["a" := meta_up "a"; "b" := meta_up "b"; "c" := meta_up "c"; "d" := meta_up "d"]}.
Definition config_meta : config :=
  setDefaultsFor (mkPwConfig "" "" 0 ∅ None None None 0 0 0 2 0 (Some (mkMetadata true 0 3)) false "" false "" "" false [] 0 0 false).

Lemma prom_write_metadata_witness :
  exists rs, @writeMetadata order_fwd config_meta (fun _ => true) cache_four = Ok rs /\
    carried rs `sublist_of` snd <$> @range order_fwd _ _ _ _ cache_four /\ Forall (fun r => Z.of_nat (length r.1) <= 3) rs /\
    Z.of_nat (length (carried rs)) = Z.of_nat (size cache_four) - Z.of_nat (size cache_four) / (3 + 1).
Proof.
  eexists. split; [vm_compute; reflexivity|].
  apply (@prom_write_metadata order_fwd config_meta (fun _ => true) cache_four (mkMetadata true defaultMetadataWriteInterval 3));
    [reflexivity|reflexivity|reflexivity|vm_compute; reflexivity].
Defined.
