(* ===== verification/PromWriteLife.v ===== *)
(** * The Prometheus remote write output: its life
    (pkg/outputs/prometheus_output/prometheus_write_output)

    Workers turn messages and events into series and put them in a channel,
    writers empty it when a ticker fires or a worker finds it full, a goroutine
    sends the metadata, and [Update] and [Close] replace or stop them all: one step
    relation, in which a step is a select that fires, a load of an atomic pointer or
    a request loop. Series are followed from the event to the remote or to where
    they are dropped. One [Update] or [Close] is under way at a time and none
    begins after a [Close]; the lock of the metadata cache, held for as long as its
    requests last, is not modelled. *)

From Stdlib Require Import Floats.SpecFloat.
From stdpp Require Import strings list gmap relations.
From AAC_tactics Require Import AAC.
From AAC_tactics Require Instances.
From S2P Require Import Prelude GoStrings GoVal Text Event Tags Processor Messages Formats OutMsg Convert Prom ClickhouseRows PromWrite.

Import Instances.Lists.
#[local] Instance perm_lift {A} : AAC_lift (@Permutation A) (@Permutation A) := Build_AAC_lift (@Permutation.Permutation_Equivalence A) _.

#[local] Open Scope nat_scope.

(** Where a series that is not acknowledged is given up. *)
Inductive reason := WriteFailed | Abandoned | DrainOverflow.

Section life.
Context `{FloatText} `{MapOrder} {M D : Type} (events_of : config -> D -> M -> option (list EventMsg)) (builder : D -> MetricBuilder).

(** A worker; a writer; the metadata writer. A worker works on a channel, the
    buffer size it read, the series left of an event and the events left of a
    message; a writer gathers [n] series for requests of [max]. *)
Inductive task :=
| Idle | Busy (evs : list EventMsg) | Loading (bs : Z) (ev : EventMsg) (evs : list EventMsg)
| Handling (ch : nat) (bs : Z) (tss : list TimeSeries) (evs : list EventMsg)
| Asking (ch : nat) (bs : Z) (ts : TimeSeries) (tss : list TimeSeries) (evs : list EventMsg)
| Pushing (ch : nat) (bs : Z) (ts : TimeSeries) (tss : list TimeSeries) (evs : list EventMsg)
| WStart | WWait (ch : nat) | WGather (ch : nat) (c : config) (n : nat) (batch : list TimeSeries) | WSend (c : config) (batch : list TimeSeries)
| MStart | MLoop.
Record gor := mkG { g_gen : nat; g_task : task }.

(** What they share: the channels of series ever made, with their capacities; the
    token of [buffDrainCh]; the queue of messages; the names in the metadata cache;
    the series made, acknowledged and given up. *)
Record shared := mkSh {
  h_chans : list (nat * list TimeSeries); h_token : bool; h_in : list M; h_cache : gset string;
  h_made : list TimeSeries; h_sent : list TimeSeries; h_lost : list (reason * TimeSeries) }.

Definition set_buf (ch : nat) (buf : list TimeSeries) (h : shared) : shared :=
  mkSh (alter (fun c => (c.1, buf)) ch (h_chans h)) (h_token h) (h_in h) (h_cache h) (h_made h) (h_sent h) (h_lost h).
Definition set_token (t : bool) (h : shared) : shared := mkSh (h_chans h) t (h_in h) (h_cache h) (h_made h) (h_sent h) (h_lost h).
Definition set_in (q : list M) (h : shared) : shared := mkSh (h_chans h) (h_token h) q (h_cache h) (h_made h) (h_sent h) (h_lost h).
Definition cached (ts : TimeSeries) (h : shared) : shared :=
  mkSh (h_chans h) (h_token h) (h_in h) ({[ts_Name ts]} ∪ h_cache h) (h_made h) (h_sent h) (h_lost h).
Definition made (l : list TimeSeries) (h : shared) : shared := mkSh (h_chans h) (h_token h) (h_in h) (h_cache h) (h_made h ++ l) (h_sent h) (h_lost h).
Definition sent (l : list TimeSeries) (h : shared) : shared := mkSh (h_chans h) (h_token h) (h_in h) (h_cache h) (h_made h) (h_sent h ++ l) (h_lost h).
Definition lost (r : reason) (l : list TimeSeries) (h : shared) : shared :=
  mkSh (h_chans h) (h_token h) (h_in h) (h_cache h) (h_made h) (h_sent h) (h_lost h ++ (pair r <$> l)).
Definition add_chan (cap : nat) (h : shared) : shared :=
  mkSh (h_chans h ++ [(cap, [])]) (h_token h) (h_in h) (h_cache h) (h_made h) (h_sent h) (h_lost h).

(** What a goroutine reads and does not change: the configuration, the channel
    pointer, whether its context has ended, whether [done] is closed. *)
Record env := mkEnv { e_cfg : config; e_dyn : D; e_cur : nat; e_ended : bool; e_done : bool }.
Definition stop (e : env) : bool := e_ended e || e_done e.

(** The start of [write]: nothing to do for an empty channel. *)
Definition triggered (c : config) (ch len : nat) : task := if Nat.eqb len 0 then WStart else WGather ch c len [].
Definition includes (c : config) : bool := match w_Metadata c with Some m => md_Include m | None => false end.

(** [worker], [workerHandleProto], [workerHandleEvent]; [writer], [write];
    [metadataWriter] *)
Inductive gstep (e : env) : shared -> task -> shared -> option task -> Prop :=
| g_message h m q evs : h_in h = m :: q -> events_of (e_cfg e) (e_dyn e) m = Some evs -> gstep e h Idle (set_in q h) (Some (Busy evs))
| g_event h ev : gstep e h Idle h (Some (Busy [ev]))
| g_stop h : e_ended e = true -> gstep e h Idle h None
| g_done h : gstep e h (Busy []) h (Some Idle)
| g_config h ev evs : gstep e h (Busy (ev :: evs)) h (Some (Loading (w_BufferSize (e_cfg e)) ev evs))
| g_series h bs ev evs tss : tss = TimeSeriesFromEvent (builder (e_dyn e)) ev ->
    gstep e h (Loading bs ev evs) (made tss h) (Some (Handling (e_cur e) bs tss evs))
| g_handled h ch bs evs : gstep e h (Handling ch bs [] evs) h (Some (Busy evs))
| g_room h ch bs ts tss evs cap buf : h_chans h !! ch = Some (cap, buf) -> (Z.of_nat (length buf) < bs)%Z ->
    gstep e h (Handling ch bs (ts :: tss) evs) (cached ts h) (Some (Pushing ch bs ts tss evs))
| g_full h ch bs ts tss evs cap buf : h_chans h !! ch = Some (cap, buf) -> (bs <= Z.of_nat (length buf))%Z ->
    gstep e h (Handling ch bs (ts :: tss) evs) h (Some (Asking ch bs ts tss evs))
| g_ask h ch bs ts tss evs : h_token h = false -> gstep e h (Asking ch bs ts tss evs) (cached ts (set_token true h)) (Some (Pushing ch bs ts tss evs))
| g_ask_stop h ch bs ts tss evs : stop e = true -> gstep e h (Asking ch bs ts tss evs) (lost Abandoned (ts :: tss) h) (Some (Busy evs))
| g_push h ch bs ts tss evs cap buf : h_chans h !! ch = Some (cap, buf) -> length buf < cap ->
    gstep e h (Pushing ch bs ts tss evs) (set_buf ch (buf ++ [ts]) h) (Some (Handling ch bs tss evs))
| g_push_stop h ch bs ts tss evs : stop e = true -> gstep e h (Pushing ch bs ts tss evs) (lost Abandoned (ts :: tss) h) (Some (Busy evs))
| g_reload h : gstep e h WStart h (Some (WWait (e_cur e)))
| g_tick h ch cap buf : h_chans h !! ch = Some (cap, buf) -> gstep e h (WWait ch) h (Some (triggered (e_cfg e) ch (length buf)))
| g_drain h ch cap buf : h_token h = true -> h_chans h !! ch = Some (cap, buf) ->
    gstep e h (WWait ch) (set_token false h) (Some (triggered (e_cfg e) ch (length buf)))
| g_writer_stop h ch : e_ended e = true -> gstep e h (WWait ch) h None
| g_take h ch c n batch cap ts buf : h_chans h !! ch = Some (cap, ts :: buf) ->
    gstep e h (WGather ch c n batch) (set_buf ch buf h)
      (Some (if Nat.eqb (length (batch ++ [ts])) n then WSend c (batch ++ [ts]) else WGather ch c n (batch ++ [ts])))
| g_second h ch c n batch : gstep e h (WGather ch c n batch) h (Some (match batch with [] => WStart | _ => WSend c batch end))
| g_send h c batch oks rs failed : write c oks batch rs -> acked rs ++ failed ≡ₚ batch ->
    gstep e h (WSend c batch) (lost WriteFailed failed (sent (acked rs) h)) (Some WStart)
| g_meta_off h : includes (e_cfg e) = false -> gstep e h MStart h None
| g_meta_on h : includes (e_cfg e) = true -> gstep e h MStart h (Some MLoop)
| g_meta_stop h : e_ended e = true -> gstep e h MLoop h None.

(** [Update] and [Close] after their configuration. *)
Inductive instr := IDyn (d : D) | ICfg (c : config) | IStart (swap : option nat) | ICancel | IWait | IDrain (old : nat)
| IDone | ICancelAll | IWaitAll.

(** Contexts of generations below [s_dead] have ended. *)
Record sys := mkPw {
  s_cfg : config; s_dyn : D; s_cur : nat; s_gen : nat; s_dead : nat; s_root : bool; s_done : bool; s_prog : list instr;
  s_gos : list gor; s_sh : shared }.

Definition ended (s : sys) (g : nat) : bool := s_root s || (g <? s_dead s).
Definition env_of (s : sys) (g : nat) : env := mkEnv (s_cfg s) (s_dyn s) (s_cur s) (ended s g) (s_done s).
Definition start_gos (g : nat) (c : config) : list gor :=
  mkG g <$> replicate (Z.to_nat (w_NumWorkers c)) Idle ++ replicate (Z.to_nat (w_NumWriters c)) WStart ++ [MStart].

(** After [Init]. *)
Definition init (c : config) (d : D) : sys :=
  mkPw c d 0 0 0 false false [] (start_gos 0 c) (mkSh [(Z.to_nat (w_BufferSize c), [])] false [] ∅ [] [] []).

Definition with_prog (p : list instr) (s : sys) : sys :=
  mkPw (s_cfg s) (s_dyn s) (s_cur s) (s_gen s) (s_dead s) (s_root s) (s_done s) p (s_gos s) (s_sh s).
Definition with_sh (h : shared) (s : sys) : sys :=
  mkPw (s_cfg s) (s_dyn s) (s_cur s) (s_gen s) (s_dead s) (s_root s) (s_done s) (s_prog s) (s_gos s) h.
Definition with_gos (l : list gor) (s : sys) : sys :=
  mkPw (s_cfg s) (s_dyn s) (s_cur s) (s_gen s) (s_dead s) (s_root s) (s_done s) (s_prog s) l (s_sh s).
Definition with_dead (n : nat) (s : sys) : sys :=
  mkPw (s_cfg s) (s_dyn s) (s_cur s) (s_gen s) n (s_root s) (s_done s) (s_prog s) (s_gos s) (s_sh s).

(** [Update] of a decoded configuration with its defaults; [step_refused] is that
    of one whose client cannot be made, which is found out once the processors and
    the builder of the new configuration are stored. *)
Definition update_prog (old nw : config) (d : D) (cur : nat) : list instr :=
  let swap := channelNeedsSwap old nw in
  IDyn d :: ICfg nw ::
  (if swap || needsWorkerRestart old nw
   then [IStart (if swap then Some (Z.to_nat (w_BufferSize nw)) else None); ICancel; IWait] ++ (if swap then [IDrain cur] else [])
   else []).

Definition put_gor (i g : nat) (t : option task) (l : list gor) : list gor :=
  match t with Some t => <[i := mkG g t]> l | None => delete i l end.

(** One instruction, and what is left to do. The old context ends and its wait
    group empties before the old channel is drained, one series at a time. *)
Inductive iexec : sys -> instr -> list instr -> sys -> list instr -> Prop :=
| i_dyn s d p : iexec s (IDyn d) p (mkPw (s_cfg s) d (s_cur s) (s_gen s) (s_dead s) (s_root s) (s_done s) (s_prog s) (s_gos s) (s_sh s)) p
| i_cfg s c p : iexec s (ICfg c) p (mkPw c (s_dyn s) (s_cur s) (s_gen s) (s_dead s) (s_root s) (s_done s) (s_prog s) (s_gos s) (s_sh s)) p
| i_start s swap p : iexec s (IStart swap) p
    (mkPw (s_cfg s) (s_dyn s) (match swap with Some _ => length (h_chans (s_sh s)) | None => s_cur s end) (S (s_gen s)) (s_dead s) (s_root s)
      (s_done s) (s_prog s) (s_gos s ++ start_gos (S (s_gen s)) (s_cfg s))
      (match swap with Some cap => add_chan cap (s_sh s) | None => s_sh s end)) p
| i_cancel s p : iexec s ICancel p (with_dead (s_gen s) s) p
| i_wait s p : Forall (fun g => g_gen g = s_gen s) (s_gos s) -> iexec s IWait p s p
| i_move s o p co ts buf cap b : h_chans (s_sh s) !! o = Some (co, ts :: buf) -> h_chans (s_sh s) !! s_cur s = Some (cap, b) -> length b < cap ->
    iexec s (IDrain o) p (with_sh (set_buf (s_cur s) (b ++ [ts]) (set_buf o buf (s_sh s))) s) (IDrain o :: p)
| i_drop s o p co ts buf cap b : h_chans (s_sh s) !! o = Some (co, ts :: buf) -> h_chans (s_sh s) !! s_cur s = Some (cap, b) -> cap <= length b ->
    iexec s (IDrain o) p (with_sh (lost DrainOverflow [ts] (set_buf o buf (s_sh s))) s) (IDrain o :: p)
| i_drained s o p co : h_chans (s_sh s) !! o = Some (co, []) -> iexec s (IDrain o) p s p
| i_done s p : iexec s IDone p (mkPw (s_cfg s) (s_dyn s) (s_cur s) (s_gen s) (s_dead s) (s_root s) true (s_prog s) (s_gos s) (s_sh s)) p
| i_cancel_all s p : iexec s ICancelAll p (with_dead (S (s_gen s)) s) p
| i_wait_all s p : s_gos s = [] -> iexec s IWaitAll p s p.

Inductive step : sys -> sys -> Prop :=
| step_write s m : (Z.of_nat (length (h_in (s_sh s))) < w_InputBufferSize (s_cfg s))%Z -> s_done s = false ->
    step s (with_sh (set_in (h_in (s_sh s) ++ [m]) (s_sh s)) s)
| step_gor s i g t h t' : s_gos s !! i = Some (mkG g t) -> gstep (env_of s g) (s_sh s) t h t' -> step s (with_sh h (with_gos (put_gor i g t' (s_gos s)) s))
| step_update s nw d : s_prog s = [] -> s_done s = false -> usable nw -> w_InputBufferSize nw = w_InputBufferSize (s_cfg s) ->
    step s (with_prog (update_prog (s_cfg s) nw d (s_cur s)) s)
| step_refused s d : s_prog s = [] -> s_done s = false -> step s (with_prog [IDyn d] s)
| step_close s : s_prog s = [] -> step s (with_prog (if s_done s then [IWaitAll] else [IDone; ICancelAll; IWaitAll]) s)
| step_instr s s' i p p' : s_prog s = i :: p -> iexec s i p s' p' -> step s (with_prog p' s')
| step_shutdown s : step s (mkPw (s_cfg s) (s_dyn s) (s_cur s) (s_gen s) (s_dead s) true (s_done s) (s_prog s) (s_gos s) (s_sh s)).

Definition reach : sys -> sys -> Prop := rtc step.

(** The series a goroutine holds, and all series there are. *)
Definition held (t : task) : list TimeSeries :=
  match t with
  | Handling _ _ tss _ => tss
  | Asking _ _ ts tss _ | Pushing _ _ ts tss _ => ts :: tss
  | WGather _ _ _ b | WSend _ b => b
  | _ => []
  end.
Definition buffered (h : shared) : list TimeSeries := concat (snd <$> h_chans h).
Definition accounted (s : sys) : list TimeSeries :=
  buffered (s_sh s) ++ concat ((fun g => held (g_task g)) <$> s_gos s) ++ h_sent (s_sh s) ++ (h_lost (s_sh s)).*2.

(** ** Series are conserved *)

Ltac sh := cbn [set_buf set_token set_in cached made sent lost add_chan h_chans h_token h_in h_cache h_made h_sent h_lost fst snd] in *.

Lemma snd_pairs (r : reason) (l : list TimeSeries) : (pair r <$> l).*2 = l.
Proof. rewrite <-list_fmap_compose. apply list_fmap_id. Qed.


Lemma buffered_set h ch cap buf : h_chans h !! ch = Some (cap, buf) ->
  exists rest, buffered h ≡ₚ buf ++ rest /\ forall buf', buffered (set_buf ch buf' h) ≡ₚ buf' ++ rest.
Proof.
  intros Hc. unfold buffered. sh. apply list_elem_of_split_length in Hc as (l1 & l2 & -> & ->).
  exists (concat (snd <$> l1) ++ concat (snd <$> l2)). split; [|intros buf'].
  - rewrite fmap_app, concat_app. cbn [fmap list_fmap concat snd].
    aac_reflexivity.
  - rewrite alter_app_r_alt, Nat.sub_diag by done. cbn [alter list_alter fst]. rewrite fmap_app, concat_app. cbn [fmap list_fmap concat snd]. aac_reflexivity.
Qed.

Definition of_task (t : option task) : list TimeSeries := match t with Some t => held t | None => [] end.

(** What a goroutine and the shared state account for. *)
Definition local (h : shared) (l : list TimeSeries) : list TimeSeries := buffered h ++ l ++ h_sent h ++ (h_lost h).*2.

Lemma local_lost r h l b : local (lost r l h) b ≡ₚ local h (l ++ b).
Proof. unfold local. change (buffered (lost r l h)) with (buffered h). sh. rewrite fmap_app, snd_pairs. aac_reflexivity. Qed.
Lemma local_sent h l b : local (sent l h) b ≡ₚ local h (l ++ b).
Proof. unfold local. change (buffered (sent l h)) with (buffered h). sh. aac_reflexivity. Qed.
Lemma local_set h ch cap buf buf' a b : h_chans h !! ch = Some (cap, buf) -> buf' ++ a ≡ₚ buf ++ b -> local (set_buf ch buf' h) a ≡ₚ local h b.
Proof.
  intros Hc Hab. destruct (buffered_set h ch cap buf Hc) as (rest & H1 & H2). unfold local. sh. rewrite H1, H2.
  transitivity ((buf' ++ a) ++ rest ++ h_sent h ++ (h_lost h).*2); [aac_reflexivity|]. rewrite Hab. aac_reflexivity.
Qed.
Lemma local_perm h a b : a ≡ₚ b -> local h a ≡ₚ local h b.
Proof. intros Hab. unfold local. by rewrite Hab. Qed.

Lemma gstep_conserves e h t h' t' : gstep e h t h' t' ->
  exists new, h_made h' = h_made h ++ new /\ local h' (of_task t') ≡ₚ local h (held t ++ new).
Proof.
  destruct 1; cbn [of_task held]; try (exists []; sh; rewrite ?app_nil_r; split; [done|done]).
  - by exists tss.
  - exists []. rewrite !app_nil_r. split; [done|]. rewrite local_lost. by rewrite app_nil_r.
  - exists []. rewrite !app_nil_r. split; [done|]. apply (local_set _ _ _ _ _ _ _ ltac:(eassumption)). by rewrite <-app_assoc.
  - exists []. rewrite !app_nil_r. split; [done|]. rewrite local_lost. by rewrite app_nil_r.
  - exists []. rewrite !app_nil_r. split; [done|]. unfold triggered. by destruct (_ =? _).
  - exists []. rewrite !app_nil_r. split; [done|]. unfold triggered. by destruct (_ =? _).
  - exists []. rewrite !app_nil_r. split; [done|]. apply (local_set _ _ _ _ _ _ _ ltac:(eassumption)).
    transitivity (buf ++ batch ++ [ts]); [by destruct (_ =? _)|]. change (ts :: buf) with ([ts] ++ buf). aac_reflexivity.
  - exists []. rewrite !app_nil_r. split; [done|]. by destruct batch.
  - exists []. rewrite !app_nil_r. split; [done|]. rewrite local_lost, local_sent. apply local_perm. rewrite app_nil_r. done.
Qed.

Definition gheld (l : list gor) : list TimeSeries := concat ((fun g => held (g_task g)) <$> l).

Lemma gheld_put (l : list gor) i g : l !! i = Some g -> exists rest, gheld l ≡ₚ held (g_task g) ++ rest /\
  forall n t', gheld (put_gor i n t' l) ≡ₚ of_task t' ++ rest.
Proof.
  intros Hi. apply list_elem_of_split_length in Hi as (l1 & l2 & -> & ->). exists (gheld l1 ++ gheld l2). unfold gheld. split; [|intros n t'].
  - rewrite fmap_app, concat_app. cbn [fmap list_fmap concat]. aac_reflexivity.
  - destruct t' as [t'|]; cbn [put_gor of_task].
    + rewrite insert_app_r_alt, Nat.sub_diag by done. cbn [insert list_insert]. rewrite fmap_app, concat_app. cbn [fmap list_fmap concat g_task]. aac_reflexivity.
    + rewrite delete_middle, fmap_app, concat_app. aac_reflexivity.
Qed.

Lemma gheld_start n c : gheld (start_gos n c) = [].
Proof.
  unfold gheld, start_gos. rewrite <-list_fmap_compose, !fmap_app, !concat_app, !fmap_replicate. cbn [compose g_task held fmap list_fmap concat].
  assert (Hr : forall k, concat (replicate k ([] : list TimeSeries)) = []) by (induction k; done). by rewrite !Hr.
Qed.

Definition conserved (s : sys) : Prop := h_made (s_sh s) ≡ₚ local (s_sh s) (gheld (s_gos s)).

Lemma local_app h a b : local h (a ++ b) ≡ₚ local h a ++ b.
Proof. unfold local. aac_reflexivity. Qed.

Lemma conserved_gor (s : sys) i g t h t' : conserved s -> s_gos s !! i = Some (mkG g t) -> gstep (env_of s g) (s_sh s) t h t' ->
  conserved (with_sh h (with_gos (put_gor i g t' (s_gos s)) s)).
Proof.
  intros Hs Hi Hg. apply gstep_conserves in Hg as (new & Hn & Hl). destruct (gheld_put _ _ _ Hi) as (rest & H1 & H2).
  unfold conserved in *. cbn [with_sh with_gos s_sh s_gos g_task] in *. rewrite Hn, Hs, (local_perm _ _ _ H1), (local_perm _ _ _ (H2 g t')).
  rewrite local_app, (local_app h), Hl, (local_app _ _ new). aac_reflexivity.
Qed.

(** ** Where goroutines look, and what they leave alone *)

Definition ref_ok (P : nat -> Prop) (t : task) : Prop :=
  match t with Handling ch _ _ _ | Asking ch _ _ _ _ | Pushing ch _ _ _ _ | WWait ch | WGather ch _ _ _ => P ch | _ => True end.
Definition opt_ok (Q : task -> Prop) (t : option task) : Prop := match t with Some t => Q t | None => True end.

Lemma ref_ok_mono (P Q : nat -> Prop) t : (forall k, P k -> Q k) -> ref_ok P t -> ref_ok Q t.
Proof. intros HPQ. destruct t; cbn; auto. Qed.

Lemma gstep_refs (P : nat -> Prop) e h t h' t' : gstep e h t h' t' -> ref_ok P t -> P (e_cur e) -> opt_ok (ref_ok P) t'.
Proof.
  destruct 1; cbn; intros HP Hcur; try done; unfold triggered; try (by destruct (_ =? _)). by destruct batch.
Qed.

Lemma chans_set h ch buf k : k <> ch -> h_chans (set_buf ch buf h) !! k = h_chans h !! k.
Proof. intros Hk. sh. by rewrite list_lookup_alter_ne. Qed.
Lemma chans_set_eq h ch buf cap buf0 : h_chans h !! ch = Some (cap, buf0) -> h_chans (set_buf ch buf h) !! ch = Some (cap, buf).
Proof. intros Hc. sh. by rewrite list_lookup_alter_eq, Hc. Qed.

Lemma gstep_frame (P : nat -> Prop) e h t h' t' k : gstep e h t h' t' -> ref_ok P t -> ~ P k -> h_chans h' !! k = h_chans h !! k.
Proof. destruct 1; intros HP Hk; try done; cbn in HP; apply chans_set; by intros ->. Qed.

(** Capacities stay, buffers stay within them. *)
Definition bounded (h : shared) : Prop := Forall (fun c => length c.2 <= c.1) (h_chans h).
Lemma bounded_set h ch buf cap buf0 : bounded h -> h_chans h !! ch = Some (cap, buf0) -> length buf <= cap -> bounded (set_buf ch buf h).
Proof.
  intros Hb Hc Hl. unfold bounded. rewrite Forall_lookup. intros k [c b] Hk. destruct (decide (k = ch)) as [->|Hne].
  - rewrite (chans_set_eq _ _ _ _ _ Hc) in Hk. by injection Hk as <- <-.
  - rewrite chans_set in Hk by done. by apply (Forall_lookup_1 _ _ _ _ Hb Hk).
Qed.
Lemma bounded_buf h ch cap buf : bounded h -> h_chans h !! ch = Some (cap, buf) -> length buf <= cap.
Proof. intros Hb Hc. apply (Forall_lookup_1 _ _ _ _ Hb Hc). Qed.

Lemma gstep_bounded e h t h' t' : gstep e h t h' t' -> bounded h -> bounded h'.
Proof.
  destruct 1; intros Hb; try done.
  - eapply bounded_set; [done..|]. rewrite length_app. cbn. lia.
  - eapply bounded_set; [done..|]. pose proof (bounded_buf _ _ _ _ Hb ltac:(eassumption)) as Hl. cbn in Hl. lia.
Qed.
Lemma gstep_length e h t h' t' : gstep e h t h' t' -> length (h_chans h') = length (h_chans h).
Proof. destruct 1; try done; sh; by rewrite length_alter. Qed.

(** ** The stages of an operation *)

Definition normal (s : sys) : Prop := Forall (fun g => g_gen g = s_gen s /\ ref_ok (eq (s_cur s)) (g_task g)) (s_gos s).
Definition empty_but (P : nat -> Prop) (h : shared) : Prop := forall k c, h_chans h !! k = Some c -> ~ P k -> c.2 = [].
Definition two (cur o k : nat) : Prop := cur = k \/ o = k.

(** Instructions that do not find two generations. *)
Inductive restarting (cur : nat) : list instr -> Prop :=
| rs_nil : restarting cur []
| rs_start : restarting cur [IStart None; ICancel; IWait]
| rs_swap cap : restarting cur [IStart (Some cap); ICancel; IWait; IDrain cur].
Inductive calm (cur : nat) : list instr -> Prop :=
| calm_start p : restarting cur p -> calm cur p
| calm_cfg c p : restarting cur p -> calm cur (ICfg c :: p)
| calm_dyn d c p : restarting cur p -> calm cur (IDyn d :: ICfg c :: p)
| calm_refused d : calm cur [IDyn d]
| calm_done : calm cur [IDone; ICancelAll; IWaitAll]
| calm_cancel : calm cur [ICancelAll; IWaitAll]
| calm_wait : calm cur [IWaitAll].

Lemma pw_calm_update old nw d cur : calm cur (update_prog old nw d cur).
Proof. unfold update_prog. apply calm_dyn. destruct (channelNeedsSwap old nw), (needsWorkerRestart old nw); constructor. Qed.

(** What follows the wait: the old channel is another one and is drained, or the
    channel was kept. *)
Definition after_wait (cur o : nat) (q : list instr) : Prop := q = [] /\ o = cur \/ q = [IDrain o] /\ o <> cur.

Definition mid_gor (s : sys) (o : nat) (g : gor) : Prop :=
  g_gen g = s_gen s /\ ref_ok (eq (s_cur s)) (g_task g) \/ g_gen g < s_gen s /\ ref_ok (two (s_cur s) o) (g_task g).

Inductive staged (s : sys) : Prop :=
| st_calm : calm (s_cur s) (s_prog s) -> normal s -> empty_but (eq (s_cur s)) (s_sh s) -> staged s
| st_mid o q : s_prog s = ICancel :: IWait :: q \/ s_prog s = IWait :: q /\ s_dead s = s_gen s -> after_wait (s_cur s) o q ->
    Forall (mid_gor s o) (s_gos s) -> empty_but (two (s_cur s) o) (s_sh s) -> is_Some (h_chans (s_sh s) !! o) -> staged s
| st_drain o : s_prog s = [IDrain o] -> o <> s_cur s -> normal s -> empty_but (two (s_cur s) o) (s_sh s) -> is_Some (h_chans (s_sh s) !! o) -> staged s.

Lemma empty_frame (P : nat -> Prop) h h' : empty_but P h -> (forall k, ~ P k -> h_chans h' !! k = h_chans h !! k) -> empty_but P h'.
Proof. intros He Hf k c Hk HP. rewrite Hf in Hk by done. by eapply He. Qed.

Lemma put_gor_Forall (Q : gor -> Prop) l i g t' : Forall Q l -> opt_ok (fun t => Q (mkG g t)) t' -> Forall Q (put_gor i g t' l).
Proof. intros Hl Ht. destruct t' as [t'|]; cbn in *; [by apply Forall_insert|by apply Forall_delete]. Qed.

Lemma is_Some_length {A} (l l' : list A) k : length l = length l' -> is_Some (l !! k) -> is_Some (l' !! k).
Proof. rewrite !lookup_lt_is_Some. congruence. Qed.

Lemma staged_gor (s : sys) i g t h t' : staged s -> s_gos s !! i = Some (mkG g t) -> gstep (env_of s g) (s_sh s) t h t' ->
  staged (with_sh h (with_gos (put_gor i g t' (s_gos s)) s)).
Proof.
  intros Hs Hi Hg. pose proof (gstep_length _ _ _ _ _ Hg) as Hlen. symmetry in Hlen. destruct Hs as [Hc Hn He|o q Hp Hq Hn He Ho|o Hp Hne Hn He Ho].
  - assert (Hw : g = s_gen s /\ ref_ok (eq (s_cur s)) t) by exact (Forall_lookup_1 _ _ _ _ Hn Hi). destruct Hw as [Hgen Href].
    apply st_calm; cbn; [done| |].
    + apply put_gor_Forall; [done|]. pose proof (gstep_refs (eq (s_cur s)) _ _ _ _ _ Hg Href eq_refl). by destruct t'.
    + eapply empty_frame; [exact He|]. intros k Hk. by eapply gstep_frame.
  - assert (Hw : mid_gor s o (mkG g t)) by exact (Forall_lookup_1 _ _ _ _ Hn Hi).
    apply (st_mid _ o q); cbn; [done|done| | |by eapply is_Some_length].
    + apply put_gor_Forall; [done|]. destruct Hw as [[Hgen Href]|[Hgen Href]].
      * pose proof (gstep_refs (eq (s_cur s)) _ _ _ _ _ Hg Href eq_refl). destruct t'; [|done]. by left.
      * pose proof (gstep_refs (two (s_cur s) o) _ _ _ _ _ Hg Href (or_introl eq_refl)). destruct t'; [|done]. by right.
    + eapply empty_frame; [exact He|]. intros k Hk. eapply (gstep_frame (two (s_cur s) o)); [done| |done].
      destruct Hw as [[_ Href]|[_ Href]]; [|done]. eapply ref_ok_mono; [|exact Href]. by left.
  - assert (Hw : g = s_gen s /\ ref_ok (eq (s_cur s)) t) by exact (Forall_lookup_1 _ _ _ _ Hn Hi). destruct Hw as [Hgen Href].
    apply (st_drain _ o); cbn; [done|done| | |by eapply is_Some_length].
    + apply put_gor_Forall; [done|]. pose proof (gstep_refs (eq (s_cur s)) _ _ _ _ _ Hg Href eq_refl). by destruct t'.
    + eapply empty_frame; [exact He|]. intros k Hk. eapply (gstep_frame (eq (s_cur s))); [done|done|]. intros <-. apply Hk. by left.
Qed.

Lemma start_gos_fresh (Q : gor -> Prop) n c : (forall t, held t = [] -> ref_ok (fun _ => False) t -> Q (mkG n t)) -> Forall Q (start_gos n c).
Proof.
  intros HQ. unfold start_gos. rewrite Forall_fmap. apply Forall_app. split; [by apply Forall_replicate, HQ|].
  apply Forall_app. split; [by apply Forall_replicate, HQ|]. by repeat constructor; apply HQ.
Qed.

Lemma pw_staged_instr (s s' : sys) i p p' : staged s -> is_Some (h_chans (s_sh s) !! s_cur s) -> s_prog s = i :: p -> iexec s i p s' p' ->
  staged (with_prog p' s').
Proof.
  intros Hs Hcur Hp He. destruct Hs as [Hc Hn Hem|o q Hq Ha Hn Hem Ho|o Hq Hne Hn Hem Ho].
  - rewrite Hp in Hc. inversion Hc as [q Hr1 Hq1|c1 q Hr1 Hq1|d1 c1 q Hr1 Hq1|d1 Hq1|Hq1|Hq1|Hq1]; subst; try (inversion Hr1; subst); inversion He; subst; try (apply st_calm; [by repeat constructor|done|done]).
    + apply (st_mid _ (s_cur s) []); cbn; [by left|by left| |eapply empty_frame; [|done]; intros k c Hk Hnk; eapply Hem; [done|]; intros <-; apply Hnk; by left|done].
      apply Forall_app. split; [|apply start_gos_fresh; intros t _ Ht; left; split; [done|]; eapply ref_ok_mono; [|exact Ht]; done].
      eapply Forall_impl; [exact Hn|]. intros g [Hg Hr]. right. cbn. split; [lia|]. eapply ref_ok_mono; [|exact Hr]. by left.
    + assert (Hlt : s_cur s < length (h_chans (s_sh s))) by by apply lookup_lt_is_Some.
      apply (st_mid _ (s_cur s) [IDrain (s_cur s)]); cbn; [by left|right; split; [done|lia]| | |rewrite lookup_app_l by done; done].
      * apply Forall_app. split; [|apply start_gos_fresh; intros t _ Ht; left; split; [done|]; eapply ref_ok_mono; [|exact Ht]; done].
        eapply Forall_impl; [exact Hn|]. intros g [Hg Hr]. right. cbn. split; [lia|]. eapply ref_ok_mono; [|exact Hr]. by right.
      * intros k c Hk Hnk. cbn in Hk. destruct (decide (k < length (h_chans (s_sh s)))) as [Hl|Hl].
        -- rewrite lookup_app_l in Hk by done. eapply Hem; [done|]. intros <-. apply Hnk. by right.
        -- rewrite lookup_app_r in Hk by lia. destruct (k - length (h_chans (s_sh s))) as [|n] eqn:E; [|by destruct n]. exfalso. apply Hnk. left. lia.
  - destruct Hq as [Hq|[Hq Hd]]; rewrite Hp in Hq; injection Hq as -> ->; inversion He; subst.
    + apply (st_mid _ o q); cbn; [by right|done..].
    + assert (Hn' : normal s').
      { match goal with Hw : Forall (fun g => g_gen g = _) _ |- _ => rename Hw into Hall end. unfold normal. rewrite Forall_forall. intros g Hg.
        pose proof (proj1 (Forall_forall _ _) Hall g Hg) as Heq. cbn in Heq. destruct (proj1 (Forall_forall _ _) Hn g Hg) as [?|[Hlt _]]; [done|lia]. }
      destruct Ha as [[-> ->]|[-> Ha]]; [|by apply (st_drain _ o)]. apply st_calm; [by repeat constructor|done|].
      intros k c Hk Hnk. eapply Hem; [done|]. by intros [?|?].
  - rewrite Hp in Hq. injection Hq as -> ->. inversion He; subst.
    + apply (st_drain _ o); cbn; [done|done|done| |eapply is_Some_length; [|exact Ho]; by rewrite !length_alter].
      eapply empty_frame; [exact Hem|]. intros k Hk. rewrite !chans_set; [done|..]; intros ->; apply Hk; [by right|by left].
    + apply (st_drain _ o); cbn; [done|done|done| |eapply is_Some_length; [|exact Ho]; by rewrite length_alter].
      eapply empty_frame; [exact Hem|]. intros k Hk. change (h_chans (set_buf o buf (s_sh s)) !! k = h_chans (s_sh s) !! k). rewrite chans_set; [done|]. intros ->. apply Hk. by right.
    + apply st_calm; [by repeat constructor|done|]. intros k c Hk Hnk. destruct (decide (k = o)) as [->|Hko]; [by simplify_eq/=; congruence|].
      eapply Hem; [done|]. intros [?|?]; [done|congruence].
Qed.

(** ** Instructions keep the series *)

Lemma pw_conserved_instr (s s' : sys) i p p' : conserved s -> (forall o, i = IDrain o -> o <> s_cur s) -> iexec s i p s' p' -> conserved (with_prog p' s').
Proof.
  intros Hs Ho He. unfold conserved in *.
  destruct He as [s d p|s c p|s sw p|s p|s p|s o p co ts buf cap b H1 H2|s o p co ts buf cap b H1 H2|s o p co H1|s p|s p|s p]; cbn [with_prog with_sh with_dead s_sh s_gos] in *; try done.
  - unfold gheld. rewrite fmap_app, concat_app. change (concat (_ <$> start_gos _ _)) with (gheld (start_gos (S (s_gen s)) (s_cfg s))). rewrite gheld_start, app_nil_r.
    destruct sw as [cap|]; [|done]. unfold local, buffered in *. sh. rewrite fmap_app, concat_app. cbn [fmap list_fmap concat snd]. by rewrite !app_nil_r.
  - change (h_made (set_buf _ _ _)) with (h_made (s_sh s)). rewrite Hs. symmetry. specialize (Ho o eq_refl).
    transitivity (local (set_buf o buf (s_sh s)) ([ts] ++ gheld (s_gos s))).
    + eapply local_set; [|rewrite <-app_assoc; reflexivity]. by rewrite chans_set by done.
    + apply (local_set _ _ co (ts :: buf)); [done|]. symmetry. apply Permutation_middle.
  - change (h_made (lost _ _ _)) with (h_made (s_sh s)). rewrite Hs. symmetry. rewrite local_lost. apply (local_set _ _ co (ts :: buf)); [done|]. symmetry. apply Permutation_middle.
Qed.

(** ** Names in the metadata cache *)

Definition named (h : shared) (l : list TimeSeries) : Prop := Forall (fun ts => ts_Name ts ∈ h_cache h) l.
Definition stored (t : task) : list TimeSeries := match t with Pushing _ _ ts _ _ => [ts] | WGather _ _ _ b | WSend _ b => b | _ => [] end.
Definition all_named (h : shared) : Prop := Forall (fun c => named h c.2) (h_chans h) /\ named h (h_sent h).

Lemma named_mono h h' l : h_cache h ⊆ h_cache h' -> named h l -> named h' l.
Proof. intros Hc Hl. eapply Forall_impl; [exact Hl|]. intros ts Ht. by apply Hc. Qed.

Lemma gstep_cache e h t h' t' : gstep e h t h' t' -> h_cache h ⊆ h_cache h'.
Proof. destruct 1; sh; set_solver. Qed.

Lemma all_named_set h ch buf : all_named h -> named h buf -> all_named (set_buf ch buf h).
Proof.
  intros [Hc Hs] Hb. split; [|done]. unfold set_buf. sh. apply Forall_lookup. intros k c Hk. rewrite list_lookup_alter in Hk.
  destruct (decide (ch = k)) as [->|]; [|by apply (Forall_lookup_1 _ _ _ _ Hc Hk)]. destruct (h_chans h !! k); [|done]. by injection Hk as <-.
Qed.
Lemma all_named_buf h ch cap buf : all_named h -> h_chans h !! ch = Some (cap, buf) -> named h buf.
Proof. intros [Hc _] Hk. apply (Forall_lookup_1 _ _ _ _ Hc Hk). Qed.
Lemma all_named_mono h h' : h_cache h ⊆ h_cache h' -> h_chans h' = h_chans h -> h_sent h' = h_sent h -> all_named h -> all_named h'.
Proof.
  intros Hc Hch Hs [H1 H2]. split; [rewrite Hch|rewrite Hs; by eapply named_mono]. eapply Forall_impl; [exact H1|]. intros c. by apply named_mono.
Qed.

Lemma gstep_named e h t h' t' : gstep e h t h' t' -> all_named h -> named h (stored t) -> all_named h' /\ opt_ok (fun t => named h' (stored t)) t'.
Proof.
  intros Hg Ha Hs. pose proof (gstep_cache _ _ _ _ _ Hg) as Hc. destruct Hg; cbn [stored opt_ok] in *;
    try (split; [by eapply all_named_mono|try done; unfold triggered; try (by constructor); by destruct (_ =? _)]).
  - split; [by eapply all_named_mono|]. repeat constructor. sh. set_solver.
  - split; [by eapply all_named_mono|]. repeat constructor. sh. set_solver.
  - split; [|constructor]. apply all_named_set; [done|]. apply Forall_app. split; [by eapply all_named_buf|done].
  - assert (Hb : named h (ts :: buf)) by by eapply all_named_buf. apply Forall_cons in Hb as [Ht Hb]. split; [by apply all_named_set|].
    assert (named h (batch ++ [ts])) by (apply Forall_app; split; [done|by constructor]). by destruct (_ =? _).
  - split; [done|]. by destruct batch.
  - split; [|constructor]. destruct Ha as [Ha1 Ha2]. split; [done|]. sh. apply Forall_app. split; [done|].
    rename select (_ ≡ₚ batch) into Hp. unfold named in Hs. rewrite <-Hp in Hs. by apply Forall_app in Hs as [Hs _].
Qed.

(** ** The invariant *)

(** What a closed output may still have to do. *)
Definition closing (s : sys) : Prop :=
  if s_done s then s_prog s = [ICancelAll; IWaitAll] \/ s_dead s = S (s_gen s) /\ (s_prog s = [IWaitAll] \/ s_prog s = [] /\ s_gos s = [])
  else s_prog s <> [ICancelAll; IWaitAll] /\ s_prog s <> [IWaitAll].

Record inv (s : sys) : Prop := {
  inv_rows : conserved s;
  inv_bounded : bounded (s_sh s);
  inv_cur : is_Some (h_chans (s_sh s) !! s_cur s);
  inv_staged : staged s;
  inv_named : all_named (s_sh s);
  inv_stored : Forall (fun g => named (s_sh s) (stored (g_task g))) (s_gos s);
  inv_closing : closing s }.

Lemma stored_start h n c : Forall (fun g => named h (stored (g_task g))) (start_gos n c).
Proof.
  unfold start_gos. rewrite Forall_fmap. apply Forall_app. split; [by apply Forall_replicate; constructor|].
  apply Forall_app. split; [by apply Forall_replicate; constructor|]. by repeat constructor.
Qed.

Lemma pw_inv_init c d : inv (init c d).
Proof.
  split; cbn.
  - unfold conserved, local, init. cbn [s_sh s_gos h_made]. by rewrite gheld_start.
  - repeat constructor. cbn. lia.
  - by eexists.
  - apply st_calm; [by repeat constructor| |].
    + apply start_gos_fresh. intros t _ Ht. split; [done|]. by eapply ref_ok_mono; [|exact Ht].
    + intros [|k] [cap b] Hk Hn; [done|by destruct k].
  - by repeat constructor.
  - apply stored_start.
  - by split.
Qed.

Lemma closing_instr (s s' : sys) i p p' : staged s -> closing s -> s_prog s = i :: p -> iexec s i p s' p' -> closing (with_prog p' s').
Proof.
  intros Hs Hc Hp He. unfold closing in *. rewrite Hp in Hc. destruct (s_done s) eqn:Ed.
  - destruct Hc as [Hc|[Hd [Hc|[Hc _]]]]; [..|done]; injection Hc as -> ->; inversion He; subst; cbn; rewrite Ed; right; [by split; [|left]|]. split; [done|by right].
  - destruct Hc as [Hc1 Hc2]. inversion Hs as [Hk _ _|o q Hq Ha _ _ _|o Hq _ _ _ _].
    + rewrite Hp in Hk. inversion Hk as [q Hr1 Hq1|c1 q Hr1 Hq1|d1 c1 q Hr1 Hq1|d1 Hq1|Hq1|Hq1|Hq1]; subst; try done; [..|inversion He; subst; cbn; by left];
        try (inversion Hr1; subst); inversion He; subst; cbn; by rewrite ?Ed.
    + destruct Hq as [Hq|[Hq _]]; rewrite Hp in Hq; injection Hq as -> ->; inversion He; subst; cbn; rewrite Ed; [done|]. by destruct Ha as [[-> _]|[-> _]].
    + rewrite Hp in Hq. injection Hq as -> ->. inversion He; subst; cbn; by rewrite Ed.
Qed.

Lemma iexec_shared (s s' : sys) i p p' : iexec s i p s' p' -> inv s -> (forall o, i = IDrain o -> o <> s_cur s) ->
  bounded (s_sh s') /\ is_Some (h_chans (s_sh s') !! s_cur s') /\ all_named (s_sh s') /\ Forall (fun g => named (s_sh s') (stored (g_task g))) (s_gos s').
Proof.
  intros He [_ Hb Hc _ Hn Hst _] Ho.
  destruct He as [s d p|s c p|s [cap|] p|s p|s p|s o p co ts buf cap b H1 H2 H3|s o p co ts buf cap b H1 H2 H3|s o p co H1|s p|s p|s p]; cbn [with_sh with_dead s_sh s_cur s_gos] in *; try done.
  - destruct Hn as [Hn1 Hn2]. split; [apply Forall_app; split; [done|repeat constructor; cbn; lia]|]. split; [sh; rewrite lookup_app_r, Nat.sub_diag by done; by eexists|].
    split; [split; [apply Forall_app; split; [done|by repeat constructor]|done]|]. apply Forall_app. split; [done|apply stored_start].
  - split; [done|]. split; [done|]. split; [done|]. apply Forall_app. split; [done|apply stored_start].
  - specialize (Ho o eq_refl). assert (Hnb : named (s_sh s) (ts :: buf)) by by eapply all_named_buf. apply Forall_cons in Hnb as [Ht Hnb].
    assert (H2' : h_chans (set_buf o buf (s_sh s)) !! s_cur s = Some (cap, b)) by by rewrite chans_set.
    split; [|split; [|split; [|done]]].
    + eapply bounded_set; [|exact H2'|rewrite length_app; cbn; lia]. eapply bounded_set; [done|exact H1|]. pose proof (bounded_buf _ _ _ _ Hb H1) as Hl. cbn in Hl. lia.
    + rewrite (chans_set_eq _ _ _ _ _ H2'). by eexists.
    + apply all_named_set; [by apply all_named_set|]. apply Forall_app. split; [by apply (all_named_buf (s_sh s) (s_cur s) cap b)|by constructor].
  - specialize (Ho o eq_refl). assert (Hnb : named (s_sh s) (ts :: buf)) by by eapply all_named_buf. apply Forall_cons in Hnb as [Ht Hnb].
    split; [|split; [|split; [|done]]].
    + eapply (bounded_set (s_sh s)); [done|exact H1|]. pose proof (bounded_buf _ _ _ _ Hb H1) as Hl. cbn in Hl. lia.
    + change (is_Some (h_chans (set_buf o buf (s_sh s)) !! s_cur s)). by rewrite chans_set.
    + by apply (all_named_set (s_sh s) o buf).
Qed.

Lemma drain_other (s : sys) o p : staged s -> s_prog s = IDrain o :: p -> o <> s_cur s.
Proof.
  intros Hs Hp. inversion Hs as [Hk _ _|o' q Hq Ha _ _ _|o' Hq Hne _ _ _].
  - rewrite Hp in Hk. inversion Hk as [q Hr1 Hq1| | | | | |]. inversion Hr1.
  - destruct Hq as [Hq|[Hq _]]; congruence.
  - rewrite Hp in Hq. by injection Hq as -> ->.
Qed.

Lemma inv_gor (s : sys) i g t h t' : inv s -> s_gos s !! i = Some (mkG g t) -> gstep (env_of s g) (s_sh s) t h t' ->
  inv (with_sh h (with_gos (put_gor i g t' (s_gos s)) s)).
Proof.
  intros [Hr Hb Hc Hs Hn Hst Hcl] Hi Hg. assert (Ht : named (s_sh s) (stored t)) by exact (Forall_lookup_1 _ _ _ _ Hst Hi).
  destruct (gstep_named _ _ _ _ _ Hg Hn Ht) as [Hn' Ht']. split.
  - by eapply conserved_gor.
  - by eapply gstep_bounded.
  - cbn. eapply is_Some_length; [|exact Hc]. symmetry. by eapply gstep_length.
  - by eapply staged_gor.
  - done.
  - cbn. apply put_gor_Forall; [|by destruct t']. eapply Forall_impl; [exact Hst|]. intros g'. apply named_mono. by eapply gstep_cache.
  - unfold closing in *. cbn. destruct (s_done s); [|done]. destruct Hcl as [?|[? [?|[? Hnil]]]]; [by left|by right; split; [|left]|]. by rewrite Hnil in Hi.
Qed.

Lemma pw_inv_step (s s' : sys) : inv s -> step s s' -> inv s'.
Proof.
  intros Hi Hst. pose proof Hi as [Hr Hb Hc Hs Hn Hsto Hcl].
  destruct Hst as [s m Hm Hd|s i g t h t' Hg Hgs|s nw d Hp Hd Hu Hin|s d Hp Hd|s Hp|s s' i p p' Hp He|s].
  - split; try done. destruct Hs as [? ? ?|o q ? ? ? ? ?|o ? ? ? ? ?]; [by apply st_calm|by apply (st_mid _ o q)|by apply (st_drain _ o)].
  - by eapply inv_gor.
  - split; try done; [|unfold closing; cbn; rewrite Hd; done]. destruct Hs as [Hk Hnm Hem|o q [Hq|[Hq _]]|o Hq]; [|congruence..].
    apply st_calm; [apply pw_calm_update|done|done].
  - split; try done; [|unfold closing; cbn; rewrite Hd; done]. destruct Hs as [Hk Hnm Hem|o q [Hq|[Hq _]]|o Hq]; [|congruence..].
    apply st_calm; [apply calm_refused|done|done].
  - split; try done.
    + destruct Hs as [Hk Hnm Hem|o q [Hq|[Hq _]]|o Hq]; [|congruence..]. apply st_calm; [cbn; destruct (s_done s); [apply calm_wait|apply calm_done]|done|done].
    + unfold closing in *. cbn. destruct (s_done s); [|done]. right. destruct Hcl as [Hcl|[Hdd _]]; [congruence|]. split; [done|by left].
  - assert (Ho : forall o, i = IDrain o -> o <> s_cur s) by (intros o ->; by eapply drain_other).
    destruct (iexec_shared _ _ _ _ _ He Hi Ho) as (H1 & H2 & H3 & H4). split; [by eapply pw_conserved_instr|done|done|by eapply pw_staged_instr|done|done|by eapply closing_instr].
  - split; try done. destruct Hs as [? ? ?|o q ? ? ? ? ?|o ? ? ? ? ?]; [by apply st_calm|by apply (st_mid _ o q)|by apply (st_drain _ o)].
Qed.

Lemma pw_inv_reach (s s' : sys) : inv s -> reach s s' -> inv s'.
Proof. intros Hs Hr. induction Hr as [|x y z Hxy _ IH]; [done|]. apply IH. by eapply pw_inv_step. Qed.

(** ** The wait ends *)

(** Steps of one goroutine whose context has ended, among unmoving neighbours. *)
Inductive gruns (e : env) : shared -> option task -> Prop :=
| gr_gone h : gruns e h None
| gr_step h t h' t' : gstep e h t h' t' -> gruns e h' t' -> gruns e h (Some t).

Lemma acked_none {A} max n (chunk pts : list A) : acked (write_chunks max (fun _ => false) n chunk pts) = [].
Proof.
  revert n chunk. induction pts as [|pt pts IH]; intros n chunk; [done|]. cbn [write_chunks]. destruct (_ || _); [|apply IH].
  unfold acked. rewrite filter_cons_False by done. apply IH.
Qed.

#[local] Instance ts_before_dec a b : Decision (ts_before a b).
Proof. unfold ts_before. apply _. Defined.
#[local] Instance ts_before_total : Total ts_before.
Proof. intros a b. unfold ts_before. lia. Qed.

Lemma writer_ends e h t : e_ended e = true -> is_Some (h_chans h !! e_cur e) ->
  match t with WStart | WWait _ | WGather _ _ _ _ | WSend _ _ => True | _ => False end -> gruns e h (Some t).
Proof.
  intros He Hc Ht. assert (Hw : forall h ch, gruns e h (Some (WWait ch))) by (intros h' ch; eapply gr_step; [by apply g_writer_stop|constructor]).
  assert (Hs : forall h, gruns e h (Some WStart)) by (intros h'; eapply gr_step; [apply g_reload|apply Hw]).
  assert (Hsd : forall c b, gruns e h (Some (WSend c b))).
  { intros c b. eapply gr_step; [eapply (g_send _ _ _ _ (fun _ => false) _ b)|apply Hs].
    - exists (merge_sort ts_before b). split; [apply merge_sort_Permutation|]. split; [apply (Sorted_merge_sort _)|reflexivity].
    - by rewrite acked_none. }
  destruct t as [| | | | | | |ch|ch c n b|c b| |]; try done; [].
  eapply gr_step; [apply g_second|]. destruct b; [apply Hs|apply Hsd].
Qed.

Section one_event.
Context (e : env) (Hstop : stop e = true) (evs : list EventMsg)
  (K : forall h, is_Some (h_chans h !! e_cur e) -> gruns e h (Some (Busy evs))).

Lemma pushing_ends h ch bs ts tss : is_Some (h_chans h !! e_cur e) -> gruns e h (Some (Pushing ch bs ts tss evs)).
Proof. intros Hc. eapply gr_step; [by apply g_push_stop|by apply K]. Qed.
Lemma asking_ends h ch bs ts tss : is_Some (h_chans h !! e_cur e) -> gruns e h (Some (Asking ch bs ts tss evs)).
Proof. intros Hc. eapply gr_step; [by apply g_ask_stop|by apply K]. Qed.
Lemma handling_ends h ch bs tss : is_Some (h_chans h !! e_cur e) -> is_Some (h_chans h !! ch) -> gruns e h (Some (Handling ch bs tss evs)).
Proof.
  intros Hc [[cap buf] Hch]. destruct tss as [|ts tss]; [eapply gr_step; [apply g_handled|by apply K]|].
  destruct (Z.ltb_spec (Z.of_nat (length buf)) bs).
  - eapply gr_step; [by eapply g_room|by apply pushing_ends].
  - eapply gr_step; [by eapply g_full|by apply asking_ends].
Qed.
Lemma loading_ends h bs ev : is_Some (h_chans h !! e_cur e) -> gruns e h (Some (Loading bs ev evs)).
Proof. intros Hc. eapply gr_step; [by apply g_series|by apply handling_ends]. Qed.
End one_event.

Lemma busy_ends e evs h : e_ended e = true -> is_Some (h_chans h !! e_cur e) -> gruns e h (Some (Busy evs)).
Proof.
  intros He. assert (Hstop : stop e = true) by (unfold stop; by rewrite He). revert h. induction evs as [|ev evs IH]; intros h Hc.
  - eapply gr_step; [apply g_done|]. eapply gr_step; [by apply g_stop|constructor].
  - eapply gr_step; [apply g_config|apply loading_ends; auto].
Qed.

Lemma task_ends e h t : e_ended e = true -> is_Some (h_chans h !! e_cur e) -> ref_ok (fun k => is_Some (h_chans h !! k)) t -> gruns e h (Some t).
Proof.
  intros He Hc Hr. assert (Hstop : stop e = true) by (unfold stop; by rewrite He).
  assert (K : forall evs h, is_Some (h_chans h !! e_cur e) -> gruns e h (Some (Busy evs))) by (intros; by apply busy_ends).
  assert (Hl : gruns e h (Some MLoop)) by (eapply gr_step; [by apply g_meta_stop|constructor]).
  destruct t; cbn in Hr; try by apply writer_ends.
  - eapply gr_step; [by apply g_stop|constructor].
  - by apply K.
  - apply loading_ends; auto.
  - apply handling_ends; auto.
  - apply asking_ends; auto.
  - apply pushing_ends; auto.
  - destruct (includes (e_cfg e)) eqn:E; [by eapply gr_step; [apply g_meta_on|]|eapply gr_step; [by apply g_meta_off|constructor]].
  - done.
Qed.

Lemma delete_insert {A} (l : list A) i x : delete i (<[i := x]> l) = delete i l.
Proof. revert i. induction l as [|y l IH]; intros [|i]; [done..|]. cbn. f_equal. apply IH. Qed.

Lemma gor_ends (s : sys) i g t : s_gos s !! i = Some (mkG g t) -> gruns (env_of s g) (s_sh s) (Some t) ->
  exists h, reach s (with_sh h (with_gos (delete i (s_gos s)) s)).
Proof.
  intros Hi Hr. remember (env_of s g) as e eqn:He. remember (s_sh s) as h0 eqn:Hh. remember (Some t) as ot eqn:Ht. revert s t Hi He Hh Ht.
  induction Hr as [h|h t0 h' t' Hg Hr IH]; intros s t Hi He Hh Ht; [done|]. injection Ht as <-. subst e h.
  pose proof (step_gor _ _ _ _ _ _ Hi Hg) as Hst. destruct t' as [t'|]; [|exists h'; by apply rtc_once].
  destruct (IH (with_sh h' (with_gos (put_gor i g (Some t') (s_gos s)) s)) t') as [h'' Hr'']; [|done|done|done|].
  - cbn. apply list_lookup_insert_eq. by eapply lookup_lt_Some.
  - exists h''. eapply rtc_l; [exact Hst|]. cbn in Hr''. by rewrite delete_insert in Hr''.
Qed.

Lemma refs_exist (s : sys) i g t : inv s -> s_gos s !! i = Some (mkG g t) -> ref_ok (fun k => is_Some (h_chans (s_sh s) !! k)) t.
Proof.
  intros [_ _ Hc Hs _ _ _] Hi.
  assert (H1 : ref_ok (eq (s_cur s)) t -> ref_ok (fun k => is_Some (h_chans (s_sh s) !! k)) t) by (apply ref_ok_mono; by intros k <-).
  destruct Hs as [_ Hn _|o q _ _ Hn _ Ho|o _ _ Hn _ Ho]; [..|].
  - apply H1, (Forall_lookup_1 _ _ _ _ Hn Hi).
  - destruct (Forall_lookup_1 _ _ _ _ Hn Hi) as [[_ Hr]|[_ Hr]]; [by apply H1|]. eapply ref_ok_mono; [|exact Hr]. by intros k [<-|<-].
  - apply H1, (Forall_lookup_1 _ _ _ _ Hn Hi).
Qed.

(** Everyone whose context has ended can leave. *)
Lemma all_leave (s : sys) : inv s -> exists s', reach s s' /\ s_prog s' = s_prog s /\ s_gen s' = s_gen s /\ s_dead s' = s_dead s /\ s_root s' = s_root s /\
  Forall (fun g => ended s (g_gen g) = false) (s_gos s').
Proof.
  remember (length (s_gos s)) as n eqn:Hn. revert s Hn. induction n as [n IH] using lt_wf_ind. intros s Hn Hi.
  destruct (decide (Forall (fun g => ended s (g_gen g) = false) (s_gos s))) as [Hall|Hex]; [exists s; split; [by apply rtc_refl|done]|].
  apply not_Forall_Exists, Exists_exists in Hex as ([g t] & Hin & Hg); [|apply _]. apply list_elem_of_lookup in Hin as [i Hlk].
  apply not_false_is_true in Hg. cbn in Hg.
  destruct (gor_ends s i g t Hlk) as [h Hr]; [apply task_ends; [done|apply (inv_cur _ Hi)|by eapply refs_exist]|].
  destruct (IH (length (delete i (s_gos s)))) with (s := with_sh h (with_gos (delete i (s_gos s)) s)) as (s' & Hr' & H1 & H2 & H3 & H4 & H5).
  - rewrite length_delete by by eexists. apply lookup_lt_Some in Hlk. lia.
  - done.
  - by eapply pw_inv_reach.
  - exists s'. split; [by etrans|]. done.
Qed.

Lemma mid_gens (s : sys) : staged s -> Forall (fun g => g_gen g <= s_gen s) (s_gos s).
Proof.
  intros Hs. destruct Hs as [Hk Hn He|o q Hp Ha Hn He Ho|o Hp Ha Hn He Ho]; (eapply Forall_impl; [exact Hn|]).
  - intros g [-> _]. done.
  - intros g [[-> _]|[? _]]; lia.
  - intros g [-> _]. done.
Qed.

(** The waits of [Update] and of [Close] end: whatever the goroutines they wait
    for are doing, they can all return. *)
Lemma pw_wait_ends (s : sys) i p : inv s -> s_prog s = i :: p -> i = IWait \/ i = IWaitAll -> exists s', reach s s' /\ s_prog s' = p.
Proof.
  intros Hi Hp Hw. destruct (all_leave s Hi) as (s' & Hr & Hp' & Hg & Hd & Hrt & Hall).
  assert (Hi' : inv s') by by eapply pw_inv_reach. rewrite Hp in Hp'. exists (with_prog p s'). split; [|done].
  eapply rtc_r; [exact Hr|]. apply (step_instr _ _ _ _ _ Hp'). pose proof (inv_staged _ Hi') as Hs'.
  destruct Hw as [-> | ->].
  - apply i_wait. destruct Hs' as [Hk _ _|o q Hq Ha Hn _ _|o Hq _ _ _ _].
    + rewrite Hp' in Hk. inversion Hk as [q Hr1 Hq1| | | | | |]. inversion Hr1.
    + destruct Hq as [Hq|[_ Hdd]]; [congruence|]. rewrite Forall_forall in *. intros g Hin. specialize (Hall g Hin). destruct (Hn g Hin) as [[? _]|[Hlt _]]; [done|].
      unfold ended in Hall. rewrite <-Hd, Hdd in Hall. apply orb_false_iff in Hall as [_ Hall]. apply Nat.ltb_ge in Hall. lia.
    + congruence.
  - apply i_wait_all. pose proof (inv_closing _ Hi') as Hc. unfold closing in Hc.
    assert (Hpp : p = []).
    { destruct Hs' as [Hk _ _|o q Hq _ _ _ _|o Hq _ _ _ _]; [|destruct Hq as [Hq|[Hq _]]; congruence|congruence].
      rewrite Hp' in Hk. inversion Hk as [q Hr1 Hq1| | | | | |]; [inversion Hr1|done]. }
    rewrite Hpp in Hp'. destruct (s_done s'); [|by destruct Hc]. destruct Hc as [Hc|[Hdd _]]; [congruence|].
    pose proof (mid_gens _ Hs') as Hm. destruct (s_gos s') as [|g l]; [done|]. exfalso. apply Forall_cons in Hm as [Hm _]. apply Forall_cons in Hall as [Hall _].
    unfold ended in Hall. rewrite <-Hd, Hdd in Hall. apply orb_false_iff in Hall as [_ Hall]. apply Nat.ltb_ge in Hall. lia.
Qed.

(** An output whose [Close] has returned does nothing more. *)
Definition closed (s : sys) : Prop := s_done s = true /\ s_gos s = [] /\ (s_prog s = [] \/ s_prog s = [IWaitAll]).
Lemma closed_step (s s' : sys) : closed s -> step s s' -> closed s' /\ s_sh s' = s_sh s.
Proof.
  intros (Hd & Hg & Hp) Hst. destruct Hst as [s m Hm Hd'|s i g t h t' Hi Hgs|s nw d Hp' Hd'|s d Hp' Hd'|s Hp'|s s' i p p' Hp' He|s]; try congruence.
  - by rewrite Hg in Hi.
  - split; [|done]. split; [done|]. split; [done|]. cbn. rewrite Hd. by right.
  - destruct Hp as [Hp|Hp]; rewrite Hp in Hp'; [done|]. injection Hp' as <- <-. inversion He; subst. split; [|done]. split; [done|]. split; [done|]. by left.
  - split; [|done]. by split.
Qed.
Lemma closed_reach (s s' : sys) : closed s -> reach s s' -> s_sh s' = s_sh s.
Proof. intros Hc Hr. induction Hr as [|x y z Hxy _ IH]; [done|]. destruct (closed_step _ _ Hc Hxy) as [Hc' <-]. by apply IH. Qed.

(** ** What holds of every run *)

(** A series that an event gave is in a channel, with a goroutine, acknowledged
    by the remote or given up for a reason. *)
Theorem prom_write_conserves c d s : reach (init c d) s -> h_made (s_sh s) ≡ₚ accounted s.
Proof. intros Hr. apply (inv_rows _ (pw_inv_reach _ _ (pw_inv_init c d) Hr)). Qed.

(** C38: Between operations every goroutine is of the last generation and works on the
    channel in use, every other channel is empty, and no buffer is over its
    capacity: [Update] strands nothing in the channel it replaces. *)
Theorem prom_write_one_channel c d s : reach (init c d) s -> s_prog s = [] ->
  Forall (fun g => g_gen g = s_gen s /\ ref_ok (eq (s_cur s)) (g_task g)) (s_gos s) /\
  forall k cap buf, h_chans (s_sh s) !! k = Some (cap, buf) -> length buf <= cap /\ (k <> s_cur s -> buf = []).
Proof.
  intros Hr Hp. pose proof (pw_inv_reach _ _ (pw_inv_init c d) Hr) as [_ Hb _ Hs _ _ _].
  destruct Hs as [_ Hn He|o q [Hq|[Hq _]]|o Hq]; [|congruence..]. split; [done|]. intros k cap buf Hk. split; [by eapply bounded_buf|].
  intros Hne. apply (He k (cap, buf) Hk). by intros <-.
Qed.

(** The metadata of a series is in the cache before the series is in a channel. *)
Theorem prom_write_cached c d s ts : reach (init c d) s -> ts ∈ buffered (s_sh s) ++ h_sent (s_sh s) -> ts_Name ts ∈ h_cache (s_sh s).
Proof.
  intros Hr Hin. pose proof (inv_named _ (pw_inv_reach _ _ (pw_inv_init c d) Hr)) as [Hc Hs]. apply elem_of_app in Hin as [Hin|Hin].
  - apply list_elem_of_In, in_concat in Hin as (buf & Hbuf%list_elem_of_In & Hts%list_elem_of_In). apply list_elem_of_fmap in Hbuf as ([cap b] & -> & Hcb).
    rewrite Forall_forall in Hc. specialize (Hc _ Hcb). unfold named in Hc. rewrite Forall_forall in Hc. by apply Hc.
  - unfold named in Hs. rewrite Forall_forall in Hs. by apply Hs.
Qed.

(** [Update] and [Close] get past their waits. *)
Theorem prom_write_wait_ends c d s i p : reach (init c d) s -> s_prog s = i :: p -> i = IWait \/ i = IWaitAll -> exists s', reach s s' /\ s_prog s' = p.
Proof. intros Hr. apply pw_wait_ends, (pw_inv_reach _ _ (pw_inv_init c d) Hr). Qed.

(** After [Close] nothing is sent, and what was in the channel stays there. *)
Theorem prom_write_closed c d s s' : reach (init c d) s -> s_done s = true -> s_prog s = [] -> reach s s' ->
  s_gos s = [] /\ h_sent (s_sh s') = h_sent (s_sh s) /\ buffered (s_sh s') = buffered (s_sh s).
Proof.
  intros Hr Hd Hp Hr'. pose proof (inv_closing _ (pw_inv_reach _ _ (pw_inv_init c d) Hr)) as Hc. unfold closing in Hc. rewrite Hd in Hc.
  destruct Hc as [Hc|[_ [Hc|[_ Hg]]]]; [congruence..|]. split; [done|]. rewrite (closed_reach s s'); [done| |done]. split; [done|]. split; [done|by left].
Qed.
End life.

(** A run that adds a worker. *)
Section example.
Definition no_events (c : config) (u : unit) (m : nat) : option (list EventMsg) := Some [].
Definition no_builder (u : unit) : MetricBuilder := mkBuilder "" false false false false.
Definition two_workers : config :=
  setDefaultsFor (mkPwConfig "" "" 0 ∅ None None None 0 0 0 2 0 None false "" false "" "" false [] 2 0 false).

Definition updating : sys (M := nat) (D := unit) :=
  mkPw two_workers tt 0 1 1 false false [IWait] (start_gos 0 config_two ++ start_gos 1 two_workers) (mkSh [(1000, [])] false [7] ∅ [] [] []).

Lemma updating_reached : @reach float_text_none order_fwd nat unit no_events no_builder (init config_two tt) updating.
Proof.
  eapply rtc_l; [apply (step_write _ _ _ 7); [vm_compute; reflexivity|reflexivity]|].
  eapply rtc_l; [apply (step_update _ _ _ two_workers tt); [reflexivity|reflexivity|apply prom_write_defaults_usable|reflexivity]|].
  eapply rtc_l; [eapply step_instr; [reflexivity|apply i_dyn]|]. eapply rtc_l; [eapply step_instr; [reflexivity|apply i_cfg]|].
  eapply rtc_l; [eapply step_instr; [reflexivity|apply i_start]|]. eapply rtc_l; [eapply step_instr; [reflexivity|apply i_cancel]|].
  apply rtc_refl.
Qed.

Lemma prom_write_one_channel_witness :
  exists s, @reach float_text_none order_fwd nat unit no_events no_builder (init config_two tt) s /\ s_prog s = [] /\
    Forall (fun g => g_gen g = s_gen s /\ ref_ok (eq (s_cur s)) (g_task g)) (s_gos s) /\
    forall k cap buf, h_chans (s_sh s) !! k = Some (cap, buf) -> length buf <= cap /\ (k <> s_cur s -> buf = []).
Proof.
  destruct (@pw_wait_ends float_text_none order_fwd nat unit no_events no_builder updating IWait []) as (s & Hr & Hp);
    [eapply pw_inv_reach; [apply pw_inv_init|exact updating_reached]|reflexivity|left; reflexivity|].
  assert (Hs : @reach float_text_none order_fwd nat unit no_events no_builder (init config_two tt) s) by (etransitivity; [exact updating_reached|exact Hr]).
  exists s. split; [exact Hs|]. split; [exact Hp|].
  apply (@prom_write_one_channel float_text_none order_fwd nat unit no_events no_builder config_two tt s Hs Hp).
Defined.
End example.

(** ** The operations *)

Section operations.
Context `{Templates} `{FloatText} `{MapOrder} `{EventEnv} (url_ok : string -> bool) (client_ok : option TLSConfig -> bool)
  (processors : list string -> option (list processor_fn)).

Record dynConfig := mkPwDyn { d_targetTpl : option target_tpl; d_evps : list processor_fn; d_mb : MetricBuilder }.
Definition builder_of (c : config) : MetricBuilder := mkBuilder (w_MetricPrefix c) (w_AppendSubscriptionName c) (w_StringsAsLabels c) false false.

Definition message : Type := pmsg * gomap string.

(** [workerHandleProto]: the events of a message, [None] when one of them is nil
    or making them panics; an error drops the message. *)
Definition workerHandleProto (c : config) (d : dynConfig) (m : message) : option (list EventMsg) :=
  let '(p, meta) := m in
  match p with
  | existT SubRsp r =>
      match (AddSubscribeResponseTarget (Some r) meta (w_AddTarget c) (d_targetTpl d)).1 with
      | None => Some []
      | Some r =>
          match ResponseToEventMsgs (subscription_name meta)
                  (Some (match sp_Rsp r with
                         | Rsp_Update (Some n) => SR_Update (as_notification n)
                         | Rsp_Update None => SR_Update (mkNotification 0 None [] [])
                         | _ => SR_Other
                         end)) meta (d_evps d) with
          | Ok evs => mapM id evs
          | Err _ => Some []
          | Panic => None
          end
      end
  | _ => Some []
  end.

Definition check_url (c : config) : go pw_error () :=
  if String.eqb (w_URL c) "" then Err errMissingURL else if url_ok (w_URL c) then Ok () else Err errURL.

(** [createHTTPClientFor] fails when the files of the TLS configuration do. *)
Definition createHTTPClientFor (c : config) : go pw_error () :=
  match w_TLS c with Some t => if client_ok (Some t) then Ok () else Err errTLS | None => Ok () end.

Definition Init (name : string) (decoded : go pw_error config) (register : bool) : go pw_error (sys (M := message) (D := dynConfig)) :=
  c ← decoded;
  check_url c ;;
  let c := setDefaultsFor (if String.eqb (w_Name c) "" then with_name_and_input name (w_InputBufferSize c) c else c) in
  if negb register then Err errMetrics
  else match processors (w_EventProcessors c) with
  | None => Err errProcessors
  | Some evps =>
      tpl ← init_target_tpl errTemplate (w_TargetTemplate c) (w_AddTarget c);
      createHTTPClientFor c ;;
      Ok (init c (mkPwDyn tpl evps (builder_of c)))
  end.

(** What [Update] starts, and the error it returns at its end, if any. *)
Definition Update (decoded : go pw_error config) (old : config) (d : dynConfig) (cur : nat) : go pw_error (list (instr (D := dynConfig)) * option pw_error) :=
  c ← decoded;
  check_url c ;;
  let nw := setDefaultsFor (with_name_and_input (if String.eqb (w_Name c) "" then w_Name old else w_Name c)
              (if (w_InputBufferSize c <=? 0)%Z then w_InputBufferSize old else w_InputBufferSize c) c) in
  if negb (w_InputBufferSize nw =? w_InputBufferSize old)%Z then Err errBufferSize
  else
    tpl ← update_target_tpl errTemplate (w_TargetTemplate nw) (w_AddTarget nw);
    match (if decide (w_EventProcessors old = w_EventProcessors nw) then Some (d_evps d) else processors (w_EventProcessors nw)) with
    | None => Err errProcessors
    | Some evps =>
        let d' := mkPwDyn tpl evps (builder_of nw) in
        match (if needsClientRebuild old nw then createHTTPClientFor nw else Ok ()) with
        | Ok _ => Ok (update_prog old nw d' cur, None)
        | Err e => Ok ([IDyn d'], Some e)
        | Panic => Panic
        end
    end.

Definition Validate (decoded : go pw_error config) : go pw_error () :=
  c ← decoded;
  check_url c ;;
  match CreateTemplate (w_TargetTemplate c) with Some _ => Ok () | None => Err errTemplate end.

(** [WriteEvent]: the events handed to the workers. *)
Definition WriteEvent (d : dynConfig) (ev : option EventMsg) : go event_error (list (option EventMsg)) := applyAll (d_evps d) [ev].

(** The program that [Update] starts is one of the steps of the output. *)
Theorem prom_write_update_steps decoded (s : sys (M := message) (D := dynConfig)) prog e : s_prog s = [] -> s_done s = false ->
  Update decoded (s_cfg s) (s_dyn s) (s_cur s) = Ok (prog, e) -> step workerHandleProto d_mb s (with_prog prog s).
Proof.
  intros Hp Hd Hu. unfold Update in Hu. apply bind_ok in Hu as (c & _ & Hu). apply bind_ok in Hu as (u & _ & Hu). cbv zeta in Hu.
  set (nw := setDefaultsFor _) in Hu. destruct (Z.eqb_spec (w_InputBufferSize nw) (w_InputBufferSize (s_cfg s))) as [Hb|]; [|done]. cbn [negb] in Hu.
  apply bind_ok in Hu as (tpl & _ & Hu). destruct (if decide _ then _ else _) as [evps|]; [|done].
  destruct (if needsClientRebuild _ _ then _ else _) as [[]|e'|] eqn:E; [| |done].
  - assert (prog = update_prog (s_cfg s) nw (mkPwDyn tpl evps (builder_of nw)) (s_cur s)) as -> by congruence.
    apply step_update; [done|done|apply prom_write_defaults_usable|done].
  - assert (prog = [IDyn (mkPwDyn tpl evps (builder_of nw))]) as -> by congruence. by apply step_refused.
Qed.
End operations.
