(* ===== verification/Defaults.v ===== *)
(** * Targets from the configuration (pkg/config/targets.go)

    [GetTargets] builds the target configurations of the flags and of the
    configuration file: each gets the defaults of the global flags, its
    certificate paths and the environment variables in it are expanded.

    A string option that a target leaves out becomes a pointer to the field of
    the global flags, shared by all such targets: the expansion of one target
    writes the flag that the others point to. Pointers are modelled as such
    ([sptr]); the fields of the flags they may point to are the cells. What
    cobra, viper and mapstructure decode is an argument, and so is the
    environment. *)

From stdpp Require Import strings.
From S2P Require Import Prelude GoStrings Utf8 GoVal Text Processor Tls Target.

#[local] Open Scope nat_scope.

(** ** Expansion of variables ([os.Expand]) *)

Definition special_var (c : ascii) : bool :=
  existsb (Ascii.eqb c) ["*"; "#"; "$"; "@"; "!"; "?"; "-"; "0"; "1"; "2"; "3"; "4"; "5"; "6"; "7"; "8"; "9"]%char.
Definition between (lo hi c : ascii) : bool := (nat_of_ascii lo <=? nat_of_ascii c) && (nat_of_ascii c <=? nat_of_ascii hi).
Definition alpha_num (c : ascii) : bool :=
  Ascii.eqb c "_" || between "0" "9" c || between "a" "z" c || between "A" "Z" c.

Fixpoint take_while (p : ascii -> bool) (s : string) : string :=
  match s with EmptyString => "" | String c s => if p c then String c (take_while p s) else "" end.

(** The name after a dollar sign, and the number of bytes it takes. *)
Definition getShellName (s : string) : string * nat :=
  match s with
  | String "{" rest =>
      match rest with
      | String c (String "}" _) =>
          if special_var c then (String c "", 3)
          else if Ascii.eqb c "}" then ("", 2) else (String c "", 3)
      | _ => match sindex "}" rest with
             | Some O => ("", 2)
             | Some i => (stake i rest, i + 2)
             | None => ("", 1)
             end
      end
  | String c _ => if special_var c then (String c "", 1)
                  else let name := take_while alpha_num s in (name, String.length name)
  | EmptyString => ("", 0)
  end.

Fixpoint expand_from (mapping : string -> string) (skip : nat) (s : string) : string :=
  match s with
  | EmptyString => ""
  | String c rest =>
      match skip with
      | S skip => expand_from mapping skip rest
      | O =>
          if Ascii.eqb c "$" && negb (String.eqb rest "") then
            let '(name, w) := getShellName rest in
            (if String.eqb name "" then (if w =? 0 then "$" else "") else mapping name) +:+ expand_from mapping w rest
          else String c (expand_from mapping 0 rest)
      end
  end.

(** The environment: unset variables are empty. *)
Class Environ : Type := { getenv : string -> string }.
Definition ExpandEnv `{Environ} (s : string) : string := expand_from getenv 0 s.

(** ** Addresses *)

(** The text of the error of [net.SplitHostPort]. *)
Definition addr_error (hostport why : string) : string :=
  (if String.eqb hostport "" then "" else "address " +:+ hostport +:+ ": ") +:+ why.
Definition split_message (hostport : string) : option string :=
  match SplitHostPort hostport with
  | Some _ => None
  | None => Some (addr_error hostport
      match last_index ":" hostport with
      | None => "missing port in address"
      | Some i =>
          match hostport with
          | String "[" rest =>
              match sindex "]" rest with
              | None => "missing ']' in address"
              | Some e =>
                  if S (S e) =? String.length hostport then "missing port in address"
                  else if S (S e) =? i then
                    (if scontains "[" rest then "unexpected '[' in address" else "unexpected ']' in address")
                  else if has_prefix ":" (sdrop (S e) rest) then "too many colons in address"
                  else "missing port in address"
              end
          | _ => if scontains ":" (stake i hostport) then "too many colons in address"
                 else if scontains "[" hostport then "unexpected '[' in address" else "unexpected ']' in address"
          end
      end)
  end.

Inductive config_error := errAddress | errNoTargets | errFormat | errDecode | errPath.

Definition with_port (tunnel : bool) (port addr : string) : go config_error string :=
  let addr := trim_space addr in
  if tunnel then Ok addr
  else match split_message addr with
       | None => Ok addr
       | Some msg => if has_sub "missing port in address" msg || has_sub "too many colons in address" msg
                     then Ok (JoinHostPort addr port) else Err errAddress
       end.

Definition set_ports (tunnel : bool) (port address : string) : go config_error string :=
  if has_prefix "unix://" address then Ok address
  else addrs ← mapE (with_port tunnel port) (split_byte "," address); mret (sjoin "," addrs).

(** ** Flags and pointers to them *)

Inductive cell := CUsername | CPassword | CToken | CTLSCa | CTLSCert | CTLSKey.
#[export] Instance cell_eq_dec : EqDecision cell.
Proof. solve_decision. Defined.

(** A pointer to a string: nil, to a string of its own, to a field of the flags. *)
Inductive sptr := PNil | POwn (s : string) | PFlag (c : cell).

Record cells {A} := mkCells { c_Username : A; c_Password : A; c_Token : A; c_TLSCa : A; c_TLSCert : A; c_TLSKey : A }.
Arguments cells : clear implicits.
Arguments mkCells {A} _ _ _ _ _ _.
Definition get_cell {A} (c : cell) (s : cells A) : A :=
  match c with CUsername => c_Username s | CPassword => c_Password s | CToken => c_Token s
             | CTLSCa => c_TLSCa s | CTLSCert => c_TLSCert s | CTLSKey => c_TLSKey s end.
Definition set_cell {A} (c : cell) (v : A) (s : cells A) : cells A :=
  let f d a := if decide (c = d) then v else a in
  mkCells (f CUsername (c_Username s)) (f CPassword (c_Password s)) (f CToken (c_Token s))
    (f CTLSCa (c_TLSCa s)) (f CTLSCert (c_TLSCert s)) (f CTLSKey (c_TLSKey s)).

(** The other fields of the global flags that a target inherits. *)
Record GlobalFlags := mkFlags {
  gf_cells : cells string;
  gf_Port : string;
  gf_UseTunnelServer : bool;
  gf_AuthScheme : string;
  gf_Timeout : Z;
  gf_Insecure : bool;
  gf_SkipVerify : bool;
  gf_Retry : Z;
  gf_TLSVersion : string;
  gf_TLSMinVersion : string;
  gf_TLSMaxVersion : string;
  gf_TLSServerName : string;
  gf_LogTLSSecret : bool;
  gf_TLSReload : bool;
  gf_Gzip : bool;
  gf_Metadata : gomap string
}.
Definition set_flag (c : cell) (v : string) (g : GlobalFlags) : GlobalFlags :=
  mkFlags (set_cell c v (gf_cells g)) (gf_Port g) (gf_UseTunnelServer g) (gf_AuthScheme g) (gf_Timeout g) (gf_Insecure g)
    (gf_SkipVerify g) (gf_Retry g) (gf_TLSVersion g) (gf_TLSMinVersion g) (gf_TLSMaxVersion g) (gf_TLSServerName g)
    (gf_LogTLSSecret g) (gf_TLSReload g) (gf_Gzip g) (gf_Metadata g).
Definition set_port (port : string) (g : GlobalFlags) : GlobalFlags :=
  mkFlags (gf_cells g) port (gf_UseTunnelServer g) (gf_AuthScheme g) (gf_Timeout g) (gf_Insecure g)
    (gf_SkipVerify g) (gf_Retry g) (gf_TLSVersion g) (gf_TLSMinVersion g) (gf_TLSMaxVersion g) (gf_TLSServerName g)
    (gf_LogTLSSecret g) (gf_TLSReload g) (gf_Gzip g) (gf_Metadata g).

(** A target as [GetTargets] holds it: its six string options are in [t_ptrs],
    the other fields in [t_conf], whose own six are not used. *)
Record target := mkTgt { t_conf : TargetConfig; t_ptrs : cells sptr }.

Definition read_ptr (g : GlobalFlags) (p : sptr) : option string :=
  match p with PNil => None | POwn s => Some s | PFlag c => Some (get_cell c (gf_cells g)) end.

(** [*p = v] *)
Definition write_ptr (c : cell) (v : string) (s : GlobalFlags * target) : GlobalFlags * target :=
  let '(g, t) := s in
  match get_cell c (t_ptrs t) with
  | PNil => s
  | POwn _ => (g, mkTgt (t_conf t) (set_cell c (POwn v) (t_ptrs t)))
  | PFlag d => (set_flag d v g, t)
  end.
Definition load_ptr (c : cell) (s : GlobalFlags * target) : option string := read_ptr s.1 (get_cell c (t_ptrs s.2)).

(** ** Defaults *)

Definition or_string (s d : string) : string := if String.eqb s "" then d else s.
Definition or_zero (z d : Z) : Z := if (z =? 0)%Z then d else z.
Definition or_flag (o : option bool) (b : bool) : option bool := match o with None => Some b | Some _ => o end.

Definition defaultTargetBufferSize : Z := 100.

(** The fields of [t_conf]; [address] has its ports. *)
Definition default_conf (g : GlobalFlags) (address : string) (tc : TargetConfig) : TargetConfig := mkTargetConfig
  (tc_Name tc) address (tc_Username tc) (tc_Password tc) (or_string (tc_AuthScheme tc) (gf_AuthScheme g))
  (or_zero (tc_Timeout tc) (gf_Timeout g)) (or_flag (tc_Insecure tc) (gf_Insecure g)) (tc_TLSCA tc) (tc_TLSCert tc)
  (tc_TLSKey tc) (or_flag (tc_SkipVerify tc) (gf_SkipVerify g)) (or_string (tc_TLSServerName tc) (gf_TLSServerName g))
  (tc_Subscriptions tc) (tc_Outputs tc) (or_zero (tc_BufferSize tc) defaultTargetBufferSize) (tc_GRPCReadBufferSize tc)
  (tc_GRPCWriteBufferSize tc) (tc_GRPCConnWindowSize tc) (tc_GRPCWindowSize tc) (tc_GRPCStaticConnWindowSize tc)
  (tc_GRPCStaticStreamWindowSize tc) (or_zero (tc_RetryTimer tc) (gf_Retry g)) (or_string (tc_TLSMinVersion tc)
  (gf_TLSMinVersion g)) (or_string (tc_TLSMaxVersion tc) (gf_TLSMaxVersion g)) (or_string (tc_TLSVersion tc)
  (gf_TLSVersion g)) (or_flag (tc_LogTLSSecret tc) (gf_LogTLSSecret g)) (tc_ProtoFiles tc) (tc_ProtoDirs tc) (tc_Tags tc)
  (tc_EventTags tc) (or_flag (tc_Gzip tc) (gf_Gzip g)) (tc_Token tc) (tc_Proxy tc) (tc_TunnelTargetType tc)
  (tc_Encoding tc) (match tc_Metadata tc with None => gf_Metadata g | m => m end) (tc_CipherSuites tc) (tc_TCPKeepalive
  tc) (tc_GRPCKeepalive tc) (or_flag (tc_TLSReload tc) (gf_TLSReload g)).

Definition or_ptr (p : sptr) (c : cell) : sptr := match p with PNil => PFlag c | _ => p end.

(** The TLS files are inherited by a target that is not insecure; the CA only
    when the flag is set. *)
Definition default_ptrs (g : GlobalFlags) (insecure : option bool) (ps : cells sptr) : cells sptr :=
  let tls := match insecure with Some b => negb b | None => false end in
  mkCells (or_ptr (c_Username ps) CUsername) (or_ptr (c_Password ps) CPassword) (or_ptr (c_Token ps) CToken)
    (if tls && negb (String.eqb (c_TLSCa (gf_cells g)) "") then or_ptr (c_TLSCa ps) CTLSCa else c_TLSCa ps)
    (if tls then or_ptr (c_TLSCert ps) CTLSCert else c_TLSCert ps)
    (if tls then or_ptr (c_TLSKey ps) CTLSKey else c_TLSKey ps).

(** [setTargetConfigDefaultsFromGlobalFlags]: the port flag is set on the way. *)
Definition SetTargetConfigDefaults (port : string) (s : GlobalFlags * target) : go config_error (GlobalFlags * target) :=
  let '(g, t) := s in
  let g := if String.eqb (gf_Port g) "" then set_port port g else g in
  address ← set_ports (gf_UseTunnelServer g) (gf_Port g) (tc_Address (t_conf t));
  let conf := default_conf g address (t_conf t) in
  mret (g, mkTgt conf (default_ptrs g (tc_Insecure conf) (t_ptrs t))).

(** ** Paths and variables *)

(** [homedir.Expand], made absolute, if it exists: [None] for an error. *)
Class PathEnv : Type := { home_path : string -> option string }.
Definition expandOSPath `{PathEnv} (p : string) : option string :=
  if String.eqb p "-" || String.eqb p "" || has_prefix "http://" p || has_prefix "https://" p || has_prefix "sftp://" p
     || has_prefix "ftp://" p then Some p
  else home_path p.

(** [*tc.F, err = expandOSPath( *tc.F )]: on an error the field is emptied. *)
Definition expand_path `{PathEnv} (c : cell) (s : GlobalFlags * target) : (GlobalFlags * target) * bool :=
  match load_ptr c s with
  | None | Some "" => (s, true)
  | Some p => match expandOSPath p with Some p => (write_ptr c p s, true) | None => (write_ptr c "" s, false) end
  end.
Definition expandCertPaths `{PathEnv} (s : GlobalFlags * target) : (GlobalFlags * target) * bool :=
  match tc_Insecure (t_conf s.2) with
  | Some false =>
      let '(s, ok) := expand_path CTLSCa s in
      if ok : bool then let '(s, ok) := expand_path CTLSCert s in
                        if ok : bool then expand_path CTLSKey s else (s, false)
      else (s, false)
  | _ => (s, true)
  end.

(** A password is expanded only when it starts with a dollar sign. *)
Definition expand_value `{Environ} (c : cell) (v : string) : string :=
  match c with CPassword => if has_prefix "$" v then ExpandEnv v else v | _ => ExpandEnv v end.
Definition expand_cell `{Environ} (s : GlobalFlags * target) (c : cell) : GlobalFlags * target :=
  match load_ptr c s with Some v => write_ptr c (expand_value c v) s | None => s end.

Definition expand_list `{Environ} (l : option (list string)) : option (list string) := (fun xs : list string => ExpandEnv <$> xs) <$> l.
Definition expand_conf `{Environ} (tc : TargetConfig) : TargetConfig := mkTargetConfig
  (ExpandEnv (tc_Name tc)) (ExpandEnv (tc_Address tc)) (tc_Username tc) (tc_Password tc) (tc_AuthScheme tc) (tc_Timeout
  tc) (tc_Insecure tc) (tc_TLSCA tc) (tc_TLSCert tc) (tc_TLSKey tc) (tc_SkipVerify tc) (tc_TLSServerName tc) (expand_list
  (tc_Subscriptions tc)) (expand_list (tc_Outputs tc)) (tc_BufferSize tc) (tc_GRPCReadBufferSize tc)
  (tc_GRPCWriteBufferSize tc) (tc_GRPCConnWindowSize tc) (tc_GRPCWindowSize tc) (tc_GRPCStaticConnWindowSize tc)
  (tc_GRPCStaticStreamWindowSize tc) (tc_RetryTimer tc) (ExpandEnv (tc_TLSMinVersion tc)) (ExpandEnv (tc_TLSMaxVersion
  tc)) (ExpandEnv (tc_TLSVersion tc)) (tc_LogTLSSecret tc) (expand_list (tc_ProtoFiles tc)) (expand_list (tc_ProtoDirs
  tc)) (expand_list (tc_Tags tc)) (tc_EventTags tc) (tc_Gzip tc) (tc_Token tc) (tc_Proxy tc) (tc_TunnelTargetType tc)
  (tc_Encoding tc) (tc_Metadata tc) (tc_CipherSuites tc) (tc_TCPKeepalive tc) (tc_GRPCKeepalive tc) (tc_TLSReload tc).

Definition expandTargetEnv `{Environ} (s : GlobalFlags * target) : GlobalFlags * target :=
  let s := (s.1, mkTgt (expand_conf (t_conf s.2)) (t_ptrs s.2)) in
  foldl expand_cell s [CUsername; CPassword; CToken; CTLSCa; CTLSCert; CTLSKey].

Definition SetTargetConfigDefaultsExpandEnv `{Environ} (port : string) (s : GlobalFlags * target)
    : go config_error (GlobalFlags * target) :=
  expandTargetEnv <$> SetTargetConfigDefaults port s.

(** ** GetTargets *)

Definition named_tgt (name address : string) (t : target) : target :=
  mkTgt (set_source name address (tc_EventTags (t_conf t)) (t_conf t)) (t_ptrs t).
Definition empty_tgt : target := mkTgt zeroTarget (mkCells PNil PNil PNil PNil PNil PNil).

(** What the file says of a target: a table (decoded, or not), nothing, or
    something else. *)
Inductive entry := EntryMap (t : option target) | EntryNil | EntryOther.

Definition decode_entry (e : entry) : go config_error target :=
  match e with
  | EntryMap (Some t) => Ok t
  | EntryMap None => Err errDecode
  | EntryNil => Ok empty_tgt
  | EntryOther => Err errFormat
  end.

(** The file's targets: a list in one string, a table, nothing, or something else. *)
Inductive file_targets := TargetsString (s : string) | TargetsMap (m : gmap string entry) | TargetsNil | TargetsOther.

Definition targets_map (f : file_targets) : go config_error (gmap string entry) :=
  match f with
  | TargetsString s => Ok (list_to_map ((fun a => (a, EntryNil)) <$> split_byte " " s))
  | TargetsMap m => if size m =? 0 then Err errNoTargets else Ok m
  | TargetsNil => Err errNoTargets
  | TargetsOther => Err errFormat
  end.

Section get_targets.
Context `{MapOrder} `{Environ} `{PathEnv}.

(** One target of the file; [password] is what the configuration has under its
    password key, read as a string. *)
Definition get_target (port : string) (password : string -> string) (name : string) (e : entry) (g : GlobalFlags)
    : go config_error (GlobalFlags * target) :=
  t ← decode_entry e;
  let t := named_tgt (or_string (tc_Name (t_conf t)) name) (or_string (tc_Address (t_conf t)) name) t in
  s ← SetTargetConfigDefaults port (g, t);
  let '(s, ok) := expandCertPaths s in
  if ok : bool then
    let s := if String.eqb (password name) "" then s else write_ptr CPassword (password name) s in
    mret (expandTargetEnv s)
  else Err errPath.

Definition file_step (port : string) (password : string -> string) (s : GlobalFlags * gmap string target) (kv : string * entry)
    : go config_error (GlobalFlags * gmap string target) :=
  '(g, t) ← get_target port password kv.1 kv.2 s.1;
  mret (g, <[kv.1 := t]> s.2).

Definition set_names (names : option (list string)) (t : target) : target := mkTgt (set_subscriptions names (t_conf t)) (t_ptrs t).

Definition with_names (subNames : list string) (ts : gmap string target) : gmap string target :=
  if nilb subNames then ts else set_names (Some subNames) <$> ts.

Definition targets_from_file (port : string) (password : string -> string) (subNames : list string) (f : file_targets) (g : GlobalFlags)
    : go config_error (GlobalFlags * gmap string target) :=
  m ← targets_map f;
  s ← foldM (file_step port password) (range m) (g, ∅);
  mret (s.1, with_names subNames s.2).

(** The addresses of the command line, added to the targets there are. *)
Definition address_step (port : string) (s : GlobalFlags * gmap string target) (addr : string)
    : go config_error (GlobalFlags * gmap string target) :=
  '(g, t) ← SetTargetConfigDefaults port (s.1, named_tgt addr addr empty_tgt);
  mret (g, <[addr := t]> s.2).

Definition GetTargets (port : string) (password : string -> string) (subNames : list string) (addresses : list string)
    (f : file_targets) (s : GlobalFlags * gmap string target) : go config_error (GlobalFlags * gmap string target) :=
  if nilb addresses then targets_from_file port password subNames f s.1
  else foldM (address_step port) addresses s.

(** [GetDiffTargets]: the reference and the targets compared with it, by name;
    a name that is no target is an address. *)
Definition diff_target (port : string) (ts : gmap string target) (name : string) (g : GlobalFlags)
    : go config_error (GlobalFlags * target) :=
  match ts !! name with
  | Some t => Ok (g, t)
  | None => SetTargetConfigDefaults port (g, named_tgt name name empty_tgt)
  end.
Definition diff_step (port : string) (ts : gmap string target) (s : GlobalFlags * gmap string target) (name : string)
    : go config_error (GlobalFlags * gmap string target) :=
  '(g, t) ← diff_target port ts name s.1;
  mret (g, <[name := t]> s.2).
Definition GetDiffTargets (port : string) (got : go config_error (GlobalFlags * gmap string target)) (g : GlobalFlags)
    (ref : string) (compare : list string) : go config_error (GlobalFlags * target * gmap string target) :=
  '(g, ts) ← match got with Err errNoTargets => Ok (g, ∅) | r => r end;
  '(g, t) ← diff_target port ts ref g;
  '(g, cs) ← foldM (diff_step port ts) compare (g, ∅);
  mret (g, t, cs).
End get_targets.

(** ** Cells and pointers *)

Lemma get_set_cell {A} c d (v : A) s : get_cell c (set_cell d v s) = if decide (d = c) then v else get_cell c s.
Proof. by destruct c, d. Qed.

(** A field of a target points to the flag of the same name, if to any. *)
Definition wf_ptrs (ps : cells sptr) : Prop := forall c d, get_cell c ps = PFlag d -> d = c.
(** A decoded target has strings of its own only. *)
Definition own_ptrs (ps : cells sptr) : Prop := forall c d, get_cell c ps <> PFlag d.

(** The effect of a write through a field on every cell and every pointer. *)
Definition wrote (c : cell) (v : string) (s s' : GlobalFlags * target) : Prop :=
  wf_ptrs (t_ptrs s'.2) /\ t_conf s'.2 = t_conf s.2
  /\ (forall d, get_cell d (gf_cells s'.1) =
        match get_cell c (t_ptrs s.2) with PFlag _ => if decide (c = d) then v else get_cell d (gf_cells s.1) | _ => get_cell d (gf_cells s.1) end)
  /\ (forall d, get_cell d (t_ptrs s'.2) =
        match get_cell c (t_ptrs s.2) with POwn _ => if decide (c = d) then POwn v else get_cell d (t_ptrs s.2) | _ => get_cell d (t_ptrs s.2) end).

Lemma write_ptr_wrote c v s : wf_ptrs (t_ptrs s.2) -> wrote c v s (write_ptr c v s).
Proof.
  destruct s as [g t]. unfold write_ptr, wrote. cbn. intros Hwf.
  destruct (get_cell c (t_ptrs t)) as [|o|d] eqn:E; cbn.
  - split_and!; done.
  - split_and!; [|done|done|intros d; apply get_set_cell].
    intros a b. rewrite get_set_cell. case_decide; [done|apply Hwf].
  - apply Hwf in E as ->. split_and!; [done|done|intros d; apply get_set_cell|done].
Qed.

Section expansion.
Context `{Environ} `{PathEnv}.

(** What happens to the fields of one kind: the flag and the pointer. *)
Definition expanded (c : cell) (done : bool) (f : string * sptr) : string * sptr :=
  if done then match f.2 with
               | PNil => f
               | POwn v => (f.1, POwn (expand_value c v))
               | PFlag d => (expand_value c f.1, PFlag d)
               end
  else f.
Definition field (c : cell) (s : GlobalFlags * target) : string * sptr := (get_cell c (gf_cells s.1), get_cell c (t_ptrs s.2)).

Lemma expand_cell_field s c d :
  wf_ptrs (t_ptrs s.2) ->
  wf_ptrs (t_ptrs (expand_cell s c).2) /\ field d (expand_cell s c) = expanded d (bool_decide (c = d)) (field d s).
Proof.
  intros Hwf. unfold expand_cell, load_ptr, field, expanded.
  destruct (get_cell c (t_ptrs s.2)) as [|v|e] eqn:E; cbn.
  - split; [done|]. case_bool_decide as Hcd; [subst c; by rewrite E|done].
  - destruct (write_ptr_wrote c (expand_value c v) s Hwf) as (Hwf' & _ & Hf & Hp). split; [done|].
    rewrite Hf, Hp, E. case_bool_decide as Hcd; [subst c|by rewrite decide_False].
    by rewrite decide_True, E.
  - pose proof (Hwf c e E) as ->.
    destruct (write_ptr_wrote c (expand_value c (get_cell c (gf_cells s.1))) s Hwf) as (Hwf' & _ & Hf & Hp). split; [done|].
    rewrite Hf, Hp, E. case_bool_decide as Hcd; [subst c|by rewrite decide_False].
    by rewrite decide_True, E.
Qed.

Lemma expandTargetEnv_field s c :
  wf_ptrs (t_ptrs s.2) ->
  wf_ptrs (t_ptrs (expandTargetEnv s).2) /\ field c (expandTargetEnv s) = expanded c true (field c s).
Proof.
  intros Hwf. unfold expandTargetEnv. set (s0 := (s.1, _)).
  assert (Hl : forall l s0, NoDup l -> wf_ptrs (t_ptrs s0.2) ->
    wf_ptrs (t_ptrs (foldl expand_cell s0 l).2) /\ field c (foldl expand_cell s0 l) = expanded c (bool_decide (c ∈ l)) (field c s0)).
  { induction l as [|d l IH]; intros s1 Hnd Hw; [done|]. apply NoDup_cons in Hnd as [Hd Hnd].
    destruct (expand_cell_field s1 d c Hw) as [Hw1 Hf1]. destruct (IH (expand_cell s1 d) Hnd Hw1) as [Hw2 Hf2].
    split; [done|]. cbn. rewrite Hf2, Hf1. destruct (decide (d = c)) as [->|Hne].
    - rewrite (bool_decide_eq_false_2 (c ∈ l)), (bool_decide_eq_true_2 (c ∈ c :: l)), (bool_decide_eq_true_2 (c = c)) by (done || left). done.
    - rewrite (bool_decide_eq_false_2 (d = c)) by done. cbn. f_equal. apply bool_decide_ext. rewrite elem_of_cons. naive_solver. }
  destruct (Hl [CUsername; CPassword; CToken; CTLSCa; CTLSCert; CTLSKey] s0) as [H1 H2].
  - by apply (bool_decide_unpack _).
  - done.
  - split; [done|]. rewrite H2. by rewrite (bool_decide_eq_true_2 (c ∈ _)) by (destruct c; repeat constructor).
Qed.

Lemma expand_path_field s c d :
  c <> d -> wf_ptrs (t_ptrs s.2) ->
  wf_ptrs (t_ptrs (expand_path c s).1.2) /\ t_conf (expand_path c s).1.2 = t_conf s.2 /\ field d (expand_path c s).1 = field d s.
Proof.
  intros Hcd Hwf. unfold expand_path.
  assert (Hw : forall v, wf_ptrs (t_ptrs (write_ptr c v s).2) /\ t_conf (write_ptr c v s).2 = t_conf s.2 /\ field d (write_ptr c v s) = field d s).
  { intros v. destruct (write_ptr_wrote c v s Hwf) as (H1 & H2 & Hf & Hp). split; [done|]. split; [done|].
    unfold field. rewrite Hf, Hp. by destruct (get_cell c (t_ptrs s.2)); rewrite ?decide_False. }
  destruct (load_ptr c s) as [[|a p]|]; [done| |done]. destruct (expandOSPath (String a p)); cbn; apply Hw.
Qed.

Lemma expandCertPaths_field s d :
  d ∉ [CTLSCa; CTLSCert; CTLSKey] -> wf_ptrs (t_ptrs s.2) ->
  wf_ptrs (t_ptrs (expandCertPaths s).1.2) /\ field d (expandCertPaths s).1 = field d s.
Proof.
  intros Hd Hwf. rewrite !not_elem_of_cons in Hd. destruct Hd as (H1 & H2 & H3 & _). unfold expandCertPaths.
  destruct (tc_Insecure (t_conf s.2)) as [[]|]; [done| |done].
  destruct (expand_path_field s CTLSCa d (not_eq_sym H1) Hwf) as (Hw1 & _ & Hf1).
  destruct (expand_path CTLSCa s) as [s1 []]; cbn in *; [|done].
  destruct (expand_path_field s1 CTLSCert d (not_eq_sym H2) Hw1) as (Hw2 & _ & Hf2).
  destruct (expand_path CTLSCert s1) as [s2 []]; cbn in *; [|by rewrite Hf2].
  destruct (expand_path_field s2 CTLSKey d (not_eq_sym H3) Hw2) as (Hw3 & _ & Hf3).
  split; [done|]. by rewrite Hf3, Hf2.
Qed.

Lemma SetTargetConfigDefaults_field port g t g' t' c :
  c ∉ [CTLSCa; CTLSCert; CTLSKey] -> own_ptrs (t_ptrs t) ->
  SetTargetConfigDefaults port (g, t) = Ok (g', t') ->
  wf_ptrs (t_ptrs t') /\ field c (g', t') = (get_cell c (gf_cells g), or_ptr (get_cell c (t_ptrs t)) c).
Proof.
  intros Hc Hown Hs. cbn in Hs. apply bind_ok in Hs as (addr & _ & [= <- <-]).
  assert (Hg : gf_cells (if String.eqb (gf_Port g) "" then set_port port g else g) = gf_cells g) by by destruct (String.eqb _ _).
  split.
  - intros a b Hab. destruct a; cbn in Hab; repeat case_match; try by (apply Hown in Hab || (destruct (Hown _ _ Hab))).
    all: try (match goal with H : or_ptr ?p _ = _ |- _ => destruct p as [| |x] eqn:Ep; cbn in H; try congruence end).
    all: try congruence.
    all: exfalso; first [by apply (Hown CUsername x) | by apply (Hown CPassword x) | by apply (Hown CToken x)
      | by apply (Hown CTLSCa x) | by apply (Hown CTLSCert x) | by apply (Hown CTLSKey x)
      | by apply (Hown CTLSCa b) | by apply (Hown CTLSCert b) | by apply (Hown CTLSKey b)].
  - unfold field. cbn. rewrite Hg. rewrite !not_elem_of_cons in Hc. by destruct c; naive_solver.
Qed.
End expansion.

(** ** The shared flags *)

Section shared.
Context `{MapOrder} `{Environ} `{PathEnv}.

Definition entry_ptr (c : cell) (e : entry) : sptr :=
  match e with EntryMap (Some t) => get_cell c (t_ptrs t) | _ => PNil end.
Definition inherits (c : cell) (e : entry) : bool := match entry_ptr c e with PNil => true | _ => false end.
Definition own_entry (e : entry) : Prop := match e with EntryMap (Some t) => own_ptrs (t_ptrs t) | _ => True end.

Definition final_ptr (c : cell) (e : entry) : sptr :=
  match entry_ptr c e with POwn v => POwn (expand_value c v) | _ => PFlag c end.

Lemma get_target_field port password name e g g' t c :
  c ∉ [CTLSCa; CTLSCert; CTLSKey] -> (c = CPassword -> password name = "") -> own_entry e ->
  get_target port password name e g = Ok (g', t) ->
  field c (g', t) = (if inherits c e then expand_value c (get_cell c (gf_cells g)) else get_cell c (gf_cells g), final_ptr c e).
Proof.
  intros Hc Hpw Hown Hg. unfold get_target in Hg. apply bind_ok in Hg as (t0 & Hd & Hg).
  assert (Hp : forall c, get_cell c (t_ptrs t0) = entry_ptr c e).
  { intros d. destruct e as [[te|]| |]; try done; injection Hd as <-; [done|by destruct d]. }
  assert (Ho : own_ptrs (t_ptrs t0)).
  { intros a b. rewrite Hp. destruct e as [[te|]| |]; cbn in *; done. }
  apply bind_ok in Hg as ([g1 t1] & Hs & Hg).
  eapply SetTargetConfigDefaults_field in Hs as [Hwf Hf]; [|exact Hc|exact Ho].
  destruct (expandCertPaths_field (g1, t1) c Hc Hwf) as [Hwf2 Hf2].
  destruct (expandCertPaths (g1, t1)) as [s2 ok]. destruct ok; [|done]. cbn in Hwf2, Hf2.
  injection Hg as Hg.
  set (s3 := if String.eqb (password name) "" then s2 else write_ptr CPassword (password name) s2) in Hg.
  assert (Hs3 : wf_ptrs (t_ptrs s3.2) /\ field c s3 = field c s2).
  { unfold s3. destruct (String.eqb_spec (password name) "") as [|Hne]; [done|].
    destruct (write_ptr_wrote CPassword (password name) s2 Hwf2) as (Hw & _ & Hff & Hfp). split; [done|].
    unfold field. rewrite Hff, Hfp. destruct (decide (CPassword = c)) as [<-|Hcp]; [by destruct (Hne (Hpw eq_refl))|].
    by destruct (get_cell CPassword (t_ptrs s2.2)). }
  destruct Hs3 as [Hwf3 Hf3]. destruct (expandTargetEnv_field s3 c Hwf3) as [_ Hf4].
  rewrite <-Hg, Hf4, Hf3, Hf2, Hf. cbn. rewrite Hp. unfold expanded, inherits, final_ptr, or_ptr.
  destruct (entry_ptr c e) as [| |d] eqn:Ee; cbn; try done. by destruct (Ho c d); rewrite Hp.
Qed.

Lemma file_steps_field port password c l s0 s1 :
  c ∉ [CTLSCa; CTLSCert; CTLSKey] -> (c = CPassword -> forall n, password n = "") ->
  (forall n e, (n, e) ∈ l -> own_entry e) ->
  foldM (file_step port password) l s0 = Ok s1 ->
  get_cell c (gf_cells s1.1) = Nat.iter (length (List.filter (fun kv => inherits c kv.2) l)) (expand_value c) (get_cell c (gf_cells s0.1))
  /\ (forall n t, s1.2 !! n = Some t ->
        (exists e, (n, e) ∈ l /\ get_cell c (t_ptrs t) = final_ptr c e) \/ s0.2 !! n = Some t).
Proof.
  intros Hc Hpw. revert s0. induction l as [|[n e] l IH]; intros [g ts] Hown Hf; cbn in Hf.
  - injection Hf as <-. split; [done|]. by right.
  - apply bind_ok in Hf as ([g1 ts1] & Hst & Hf). unfold file_step in Hst. cbn in Hst.
    apply bind_ok in Hst as ([g2 t2] & Hgt & [= <- <-]).
    pose proof (get_target_field port password n e g g2 t2 c Hc (fun E => Hpw E n) (Hown n e (list_elem_of_here _ _)) Hgt) as Hfield.
    injection Hfield as Hcell Hptr.
    destruct (IH _ (fun n' e' Hin => Hown n' e' (list_elem_of_further _ _ _ Hin)) Hf) as [Hc1 Ht1]. cbn in Hc1, Ht1.
    split.
    + rewrite Hc1. cbn. rewrite Hcell. destruct (inherits c e); cbn; [|done]. by rewrite <-Nat.iter_succ_r.
    + intros n' t Hn'. destruct (Ht1 n' t Hn') as [(e' & Hin & Hp)|Hold].
      * left. exists e'. split; [by right|done].
      * destruct (decide (n' = n)) as [->|Hne].
        -- rewrite lookup_insert_eq in Hold. injection Hold as <-. left. exists e. split; [by left|done].
        -- right. by rewrite lookup_insert_ne in Hold.
Qed.

(** A user name, token or password that targets of the file leave out is the
    field of the global flags, shared by them, and every such target expands
    the variables in it: when [k] targets leave it out, the flag is expanded [k]
    times, one time in the value of the previous, whatever the order of the
    targets, and all of them read the result. A value of a target's own is
    expanded once. (For the password, when the configuration has no password
    under the targets' keys besides.) *)
Theorem GetTargets_shared_flags (c : cell) port password subNames (m : gmap string entry) g g' ts :
  c ∈ [CUsername; CToken; CPassword] -> (c = CPassword -> forall n, password n = "") ->
  map_Forall (fun _ e => own_entry e) m ->
  targets_from_file port password subNames (TargetsMap m) g = Ok (g', ts) ->
  let k := size (filter (fun kv => inherits c kv.2 = true) m) in
  get_cell c (gf_cells g') = Nat.iter k (expand_value c) (get_cell c (gf_cells g))
  /\ (forall n t, ts !! n = Some t -> exists e, m !! n = Some e
        /\ load_ptr c (g', t) = Some (match entry_ptr c e with
             | POwn v => expand_value c v
             | _ => Nat.iter k (expand_value c) (get_cell c (gf_cells g)) end)).
Proof.
  intros Hc Hpw Hown Hg k. unfold targets_from_file in Hg. apply bind_ok in Hg as (m' & Hm & Hg).
  cbn in Hm. destruct (size m =? 0); [done|]. injection Hm as <-.
  apply bind_ok in Hg as ([g1 ts1] & Hf & [= <- <-]). cbn.
  assert (Hc' : c ∉ [CTLSCa; CTLSCert; CTLSKey]).
  { rewrite !elem_of_cons in Hc. rewrite !not_elem_of_cons. destruct Hc as [->|[->|[->|Hc]]]; try by repeat split; (done || apply not_elem_of_nil). by apply elem_of_nil in Hc. }
  destruct (file_steps_field port password c (range m) (g, ∅) (g1, ts1) Hc' Hpw) as [Hcell Hts]; [|done|].
  { intros n e Hin%elem_of_range. by apply (Hown n e). }
  assert (Hk : k = length (List.filter (fun kv => inherits c kv.2) (range m))).
  { unfold k. rewrite <-(length_range (filter _ m)).
    assert (Hperm : range (filter (fun kv => inherits c kv.2 = true) m) ≡ₚ List.filter (fun kv => inherits c kv.2) (range m)).
    { apply NoDup_Permutation.
      - eapply NoDup_fmap_1, NoDup_range_fst.
      - apply NoDup_ListNoDup, List.NoDup_filter, NoDup_ListNoDup. eapply NoDup_fmap_1, NoDup_range_fst.
      - intros [n e]. rewrite elem_of_range, map_lookup_filter_Some, list_elem_of_In, filter_In, <-list_elem_of_In, elem_of_range. done. }
    by rewrite Hperm. }
  cbn in Hcell. rewrite <-Hk in Hcell. split; [done|].
  intros n t Ht.
  assert (exists t0, ts1 !! n = Some t0 /\ t_ptrs t = t_ptrs t0) as (t0 & Ht0 & Hptr).
  { unfold with_names in Ht. destruct (nilb subNames); [by exists t|]. rewrite lookup_fmap in Ht.
    destruct (ts1 !! n) as [t0|]; [|done]. injection Ht as <-. by exists t0. }
  destruct (Hts n t0 Ht0) as [(e & Hin%elem_of_range & Hp)|Hno]; [|by cbn in Hno; rewrite lookup_empty in Hno].
  exists e. split; [done|]. unfold load_ptr. cbn. rewrite Hptr, Hp. unfold final_ptr.
  destruct (entry_ptr c e); cbn; by rewrite ?Hcell.
Qed.
End shared.

(** ** Setting the defaults again *)

(** Visible ASCII, and without brackets. *)
Definition graphic (c : ascii) : bool := between "!" "~" c.
Definition plain (c : ascii) : bool := graphic c && negb (Ascii.eqb c "[") && negb (Ascii.eqb c "]").

Lemma graphic_byte c : graphic c = true -> ((byte_z c <? 128)%Z = true) /\ is_space (byte_z c) = false.
Proof. destruct c as [[] [] [] [] [] [] [] []]; by vm_compute. Qed.

Lemma runes_graphic c s off : graphic c = true ->
  runes_from (String.length (String c s)) off (String c s) = (off, byte_z c) :: runes_from (String.length s) (off + 1) s.
Proof. intros [Hb _]%graphic_byte. cbn -[byte_z Z.ltb]. by rewrite Hb. Qed.

Lemma last_graphic s off acc len :
  sall graphic s = true -> s <> "" -> off + String.length s = len ->
  last_non_space len acc (runes_from (String.length s) off s) = len.
Proof.
  revert off acc. induction s as [|c s IH]; intros off acc; [done|]. intros [Hc Hs]%andb_true_iff _ Hlen.
  rewrite runes_graphic by done. cbn [last_non_space]. destruct (graphic_byte c Hc) as [_ ->].
  destruct s as [|c' s].
  - cbn in *. lia.
  - apply IH; [done|done|]. cbn in *. lia.
Qed.

Lemma trim_graphic s : sall graphic s = true -> trim_space s = s.
Proof.
  intros Hs. destruct s as [|c s]; [done|]. unfold trim_space, range_string.
  rewrite (last_graphic (String c s) 0 0 _ Hs) by done.
  pose proof Hs as [Hc _]%andb_true_iff. rewrite runes_graphic by done. cbn [first_non_space].
  destruct (graphic_byte c Hc) as [_ ->]. rewrite Nat.max_r by lia.
  unfold sslice. rewrite Nat.sub_0_r. apply stake_all.
Qed.

Lemma last_index_none c s : snone c s = true -> last_index c s = None.
Proof. induction s as [|x s IH]; cbn; [done|]. intros [Hx Hs]%andb_true_iff. rewrite IH by done. by apply negb_true_iff in Hx as ->. Qed.

Lemma last_index_app c a b : snone c b = true -> last_index c (a +:+ String c b) = Some (String.length a).
Proof.
  intros Hb. induction a as [|x a IH]; cbn; [by rewrite last_index_none, Ascii.eqb_refl|]. by rewrite IH.
Qed.

Lemma last_index_some c s i : last_index c s = Some i -> snone c s = false.
Proof.
  intros Hi. apply not_true_iff_false. intros Hn. by rewrite last_index_none in Hi.
Qed.

(** An address that does not start with a bracket. *)
Lemma split_unbracketed hp i :
  snone "[" hp = true -> last_index ":" hp = Some i ->
  SplitHostPort hp = if scontains ":" (stake i hp) || scontains "]" hp then None else Some (stake i hp, sdrop (S i) hp).
Proof.
  intros Hb Hi. unfold SplitHostPort. rewrite Hi. cbn [mbind option_bind].
  rewrite (scontains_snone "[" hp), Hb. cbn [negb].
  destruct hp as [|c hp]; [done|].
  destruct c as [[] [] [] [] [] [] [] []]; by (rewrite orb_false_r || discriminate).
Qed.

Lemma message_unbracketed hp :
  snone "[" hp = true -> snone "]" hp = true -> SplitHostPort hp = None ->
  split_message hp = Some (addr_error hp (match last_index ":" hp with None => "missing port in address" | Some _ => "too many colons in address" end)).
Proof.
  intros Hb Hb' Hs. unfold split_message. rewrite Hs. destruct (last_index ":" hp) as [i|] eqn:Hi; [|done].
  rewrite (split_unbracketed hp i Hb Hi) in Hs. rewrite (scontains_snone "]" hp), Hb', orb_false_r in Hs.
  destruct (scontains ":" (stake i hp)) eqn:Hc; [|done].
  destruct hp as [|c hp]; [done|].
  destruct c as [[] [] [] [] [] [] [] []]; by (reflexivity || discriminate).
Qed.

Lemma has_sub_self p b : has_sub p (p +:+ b) = true.
Proof.
  assert (Hp : has_prefix p (p +:+ b) = true).
  { induction p as [|x p IH]; [done|]. cbn. by rewrite Ascii.eqb_refl. }
  revert Hp. generalize (p +:+ b). intros [|c s] Hp; cbn [has_sub]; by rewrite Hp.
Qed.
Lemma has_sub_app p a b : has_sub p (a +:+ (p +:+ b)) = true.
Proof.
  induction a as [|x a IH]; [change (has_sub p (p +:+ b) = true); apply has_sub_self|]. cbn. by rewrite IH, orb_true_r.
Qed.

Lemma addr_error_sub hp why : has_sub why (addr_error hp why) = true.
Proof. unfold addr_error. rewrite <-(sapp_nil_r why) at 2. apply has_sub_app. Qed.

Lemma sdrop_plus a k b : sdrop (String.length a + k) (a +:+ b) = sdrop k b.
Proof. induction a as [|x a IH]; [done|]. exact IH. Qed.

Lemma snone_app c a b : snone c (a +:+ b) = snone c a && snone c b.
Proof. apply sall_app. Qed.

Lemma plain_parts s : sall plain s = true -> sall graphic s = true /\ snone "[" s = true /\ snone "]" s = true.
Proof.
  induction s as [|c s IH]; [done|]. cbn. unfold plain. intros [[[Hg Hb]%andb_true_iff Hb']%andb_true_iff Hs]%andb_true_iff.
  destruct (IH Hs) as (H1 & H2 & H3). by rewrite Hg, Hb, Hb', H1, H2, H3.
Qed.

(** What an address without brackets becomes: the second time it is as it is. *)
Lemma with_port_again tunnel port a r :
  sall plain a = true -> sall plain port = true -> snone ":" port = true ->
  snone "," a = true -> snone "," port = true ->
  with_port tunnel port a = Ok r -> with_port tunnel port r = Ok r /\ snone "," r = true.
Proof.
  intros Ha Hp Hpc Hac Hpk Hr.
  destruct (plain_parts a Ha) as (Hg & Hb & Hb'), (plain_parts port Hp) as (Hpg & Hpb & Hpb').
  unfold with_port in Hr. rewrite (trim_graphic a Hg) in Hr. destruct tunnel.
  { injection Hr as <-. unfold with_port. by rewrite (trim_graphic a Hg). }
  destruct (split_message a) as [msg|] eqn:Hm.
  2:{ injection Hr as <-. unfold with_port. by rewrite (trim_graphic a Hg), Hm. }
  assert (Hs : SplitHostPort a = None) by (unfold split_message in Hm; by destruct (SplitHostPort a)).
  destruct (has_sub _ _ || has_sub _ _); [|done]. injection Hr as <-.
  assert (Hok : forall r h, SplitHostPort r = Some (h, port) -> sall graphic r = true -> with_port false port r = Ok r).
  { intros r h Hsp Hrg. unfold with_port. rewrite (trim_graphic r Hrg). unfold split_message. by rewrite Hsp. }
  unfold JoinHostPort. rewrite (scontains_snone ":" a). destruct (snone ":" a) eqn:Hcol; cbn [negb].
  - split; [|by rewrite !snone_app, Hac, Hpk].
    apply (Hok _ a); [|by rewrite !sall_app, Hg, Hpg].
    rewrite (split_unbracketed _ (String.length a)).
    + rewrite stake_app, (scontains_snone ":" a), Hcol, (scontains_snone "]"). cbn [negb orb].
      rewrite !snone_app, Hb', Hpb'. cbn [negb andb].
      replace (S (String.length a)) with (String.length a + 1) by lia. by rewrite sdrop_plus.
    + by rewrite !snone_app, Hb, Hpb.
    + by apply last_index_app.
  - split; [|by rewrite !snone_app, Hac, Hpk].
    apply (Hok _ a); [|by rewrite !sall_app, Hg, Hpg].
    unfold SplitHostPort.
    assert (Hli : last_index ":" ("[" +:+ a +:+ "]:" +:+ port) = Some (String.length a + 2)).
    { change ("[" +:+ a +:+ "]:" +:+ port) with (String "[" (a +:+ (String "]" (String ":" port)))).
      replace (String "[" (a +:+ String "]" (String ":" port))) with (("[" +:+ a +:+ "]") +:+ String ":" port).
      - rewrite last_index_app by done. f_equal. rewrite slength_app. cbn. rewrite slength_app. cbn. lia.
      - cbn. f_equal. by rewrite sapp_assoc. }
    rewrite Hli. cbn [mbind option_bind]. change ("[" +:+ a +:+ "]:" +:+ port) with (String "[" (a +:+ (String "]" (String ":" port)))).
    cbv beta iota. rewrite (sindex_app "]" a (String ":" port) Hb'). cbn [mbind option_bind].
    replace (S (S (String.length a))) with (String.length a + 2) by lia. rewrite Nat.eqb_refl. cbn [andb].
    rewrite (scontains_snone "["), (scontains_snone "]"), snone_app, Hb. cbn [andb].
    replace (S (String.length a)) with (String.length a + 1) by lia. rewrite sdrop_plus.
    change (snone "]" (sdrop 1 (String "]" (String ":" port)))) with (true && snone "]" port).
    change (snone "[" (String "]" (String ":" port))) with (true && snone "[" port).
    rewrite Hpb, Hpb'. cbn [negb andb]. rewrite stake_app.
    change (sdrop (S (String.length a + 2)) (String "[" (a +:+ String "]" (String ":" port))))
      with (sdrop (String.length a + 2) (a +:+ String "]" (String ":" port))). by rewrite sdrop_plus.
Qed.

Lemma split_byte_all (p : ascii -> bool) c s : sall p s = true -> Forall (fun w => sall p w = true) (split_byte c s).
Proof.
  intros Hs. assert (Ha : sall p (sjoin (String c "") (split_byte c s)) = true) by by rewrite join_split.
  revert Ha. generalize (split_byte c s) as l. induction l as [|w l IH]; [by constructor|].
  destruct l as [|w' l]; [by repeat constructor|]. rewrite sjoin_cons2, sall_app.
  intros [Hw Hr]%andb_true_iff. constructor; [done|]. apply IH. cbn [String.append sall] in Hr. by apply andb_true_iff in Hr as [_ Hr].
Qed.

Lemma set_ports_again tunnel port a r :
  sall plain a = true -> sall plain port = true -> snone ":" port = true -> snone "," port = true ->
  set_ports tunnel port a = Ok r -> set_ports tunnel port r = Ok r.
Proof.
  intros Ha Hp Hpc Hpk Hr. unfold set_ports at 1. destruct (has_prefix "unix://" r) eqn:Hu; [done|].
  unfold set_ports in Hr. destruct (has_prefix "unix://" a) eqn:Hua; [injection Hr as <-; congruence|].
  apply bind_ok in Hr as (rs & Hm & [= <-]).
  pose proof (proj1 (mapE_ok _ _ _) Hm) as Hf.
  assert (Hall : Forall (fun x => with_port tunnel port x = Ok x /\ snone "," x = true) rs).
  { pose proof (split_byte_all plain "," a Ha) as H1. pose proof (split_byte_pieces "," a) as H2.
    revert H1 H2 Hf. clear Hm Hu. generalize (split_byte "," a) as l. intros l H1 H2 Hf.
    induction Hf as [|x y l rs Hxy _ IH]; [constructor|].
    apply Forall_cons in H1 as [Hx1 H1], H2 as [Hx2 H2]. constructor; [|exact (IH H1 H2)].
    by apply (with_port_again tunnel port x y). }
  assert (Hne : rs <> []).
  { intros ->. apply Forall2_nil_inv_r in Hf. by apply split_byte_nonempty in Hf. }
  change (sjoin "," rs) with (sjoin (String "," "") rs).
  rewrite split_join; [|done|by eapply Forall_impl; [exact Hall|intros x []]].
  assert (Hrs : mapE (with_port tunnel port) rs = Ok rs).
  { clear -Hall. induction Hall as [|x rs [Hx _] _ IH]; [done|]. cbn. by rewrite Hx, IH. }
  by rewrite Hrs.
Qed.

Lemma or_string_again s d : or_string (or_string s d) d = or_string s d.
Proof. unfold or_string. destruct (String.eqb_spec s "") as [|Hs]; [by destruct (String.eqb d "")|]. by apply String.eqb_neq in Hs as ->. Qed.
Lemma or_zero_again z d : or_zero (or_zero z d) d = or_zero z d.
Proof. unfold or_zero. destruct (Z.eqb_spec z 0) as [|Hz]; [by destruct (d =? 0)%Z|]. by apply Z.eqb_neq in Hz as ->. Qed.
Lemma or_flag_again o b : or_flag (or_flag o b) b = or_flag o b.
Proof. by destruct o. Qed.

Lemma or_ptr_again p c : or_ptr (or_ptr p c) c = or_ptr p c.
Proof. by destruct p. Qed.

(** Setting the defaults is idempotent: a target that has its defaults, from the
    flags as they are after, is left as it is, and so are the flags; for
    addresses of visible ASCII characters without brackets. The loaders and the
    programs that receive their targets both set the defaults. *)
Theorem SetTargetConfigDefaults_again port g t g' t' :
  SetTargetConfigDefaults port (g, t) = Ok (g', t') ->
  sall plain (tc_Address (t_conf t)) = true ->
  sall plain (gf_Port g') = true -> snone ":" (gf_Port g') = true -> snone "," (gf_Port g') = true ->
  SetTargetConfigDefaults port (g', t') = Ok (g', t').
Proof.
  intros Hs Ha Hp Hpc Hpk. cbn in Hs. set (g1 := if String.eqb (gf_Port g) "" then set_port port g else g) in Hs.
  apply bind_ok in Hs as (addr & Hports & [= <- <-]).
  assert (Hg1 : (if String.eqb (gf_Port g1) "" then set_port port g1 else g1) = g1).
  { destruct (String.eqb_spec (gf_Port g1) "") as [He|]; [|done]. unfold g1 in *.
    destruct (String.eqb_spec (gf_Port g) "") as [|Hn]; [by destruct g|]. by destruct (Hn He). }
  cbn [SetTargetConfigDefaults]. rewrite Hg1. cbn [t_conf t_ptrs tc_Address default_conf].
  rewrite (set_ports_again _ _ _ _ Ha Hp Hpc Hpk Hports). cbn. f_equal. f_equal. f_equal.
  - unfold default_conf. cbn. rewrite !or_string_again, !or_zero_again, !or_flag_again.
    by destruct (tc_Metadata (t_conf t)), (gf_Metadata g1).
  - unfold default_ptrs. cbn. rewrite or_flag_again.
    destruct (or_flag (tc_Insecure (t_conf t)) (gf_Insecure g1)) as [[]|]; cbn; rewrite !or_ptr_again; [done| |done].
    by destruct (String.eqb (c_TLSCa (gf_cells g1)) ""); cbn; rewrite ?or_ptr_again.
Qed.

(** *** A concrete configuration *)

#[local] Existing Instance order_fwd.
#[local] Instance ex_environ : Environ := {| getenv n := if String.eqb n "PW" then "$ecret" else if String.eqb n "USER" then "admin" else "" |}.
#[local] Instance ex_paths : PathEnv := {| home_path p := Some p |}.

Definition ex_flags : GlobalFlags := mkFlags (mkCells "$USER" "$PW" "" "" "" "") "57400" false "" 10 false true 10 "" "" "" "" false true false None.
Definition ex_entries (l : list string) : gmap string entry := list_to_map ((fun n => (n, EntryNil)) <$> l).
Definition ex_own : target := mkTgt zeroTarget (mkCells (POwn "root") (POwn "$PW") PNil PNil PNil PNil).

(** The password of the flags is "$PW", which is "$ecret": with one target it is
    used as meant, with two it is expanded to nothing. *)
Example expand_ex : ExpandEnv "a${PW}b$USER-$" = "a$ecretbadmin-$" /\ ExpandEnv "${}x${" = "x".
Proof. by vm_compute. Qed.

Lemma GetTargets_shared_flags_witness :
  exists g ts, targets_from_file "" (fun _ => "") [] (TargetsMap (<["c" := EntryMap (Some ex_own)]> (ex_entries ["a"; "b"]))) ex_flags = Ok (g, ts)
    /\ get_cell CPassword (gf_cells g) = "" /\ get_cell CUsername (gf_cells g) = "admin"
    /\ (load_ptr CPassword ∘ pair g) <$> ts !! "c" = Some (Some "$ecret").
Proof.
  destruct (targets_from_file "" (fun _ => "") [] (TargetsMap (<["c" := EntryMap (Some ex_own)]> (ex_entries ["a"; "b"]))) ex_flags)
    as [[g ts]| |] eqn:E; [|by vm_compute in E..].
  exists g, ts. split; [done|].
  assert (Hown : map_Forall (fun _ e => own_entry e) (<["c" := EntryMap (Some ex_own)]> (ex_entries ["a"; "b"]))).
  { apply map_Forall_insert_2; [intros [] d; discriminate|].
    intros n e He%elem_of_list_to_map_2. apply list_elem_of_fmap in He as (? & [= -> ->] & _). done. }
  destruct (GetTargets_shared_flags CPassword "" (fun _ => "") [] _ ex_flags g ts ltac:(by repeat constructor) (fun _ _ => eq_refl) Hown E) as [Hp _].
  destruct (GetTargets_shared_flags CUsername "" (fun _ => "") [] _ ex_flags g ts ltac:(by repeat constructor) ltac:(discriminate) Hown E) as [Hu _].
  split; [rewrite Hp; by vm_compute|]. split; [rewrite Hu; by vm_compute|].
  vm_compute in E. injection E as <- <-. by vm_compute.
Defined.

Definition ex_tgt : target := named_tgt "r1" "10.0.0.1, ::1,r1:80" empty_tgt.
Lemma SetTargetConfigDefaults_again_witness :
  exists s, SetTargetConfigDefaults "" (ex_flags, named_tgt "r1" "10.0.0.1,::1,r1:80" empty_tgt) = Ok s
            /\ tc_Address (t_conf s.2) = "10.0.0.1:57400,[::1]:57400,r1:80" /\ SetTargetConfigDefaults "" s = Ok s.
Proof.
  eexists (_, _). split; [by vm_compute|]. split; [done|].
  by apply (SetTargetConfigDefaults_again "" ex_flags (named_tgt "r1" "10.0.0.1,::1,r1:80" empty_tgt)).
Defined.

(** A bracketed IPv6 address without a port gets a second pair of brackets, and
    another one each time. *)
Example bracketed_address :
  with_port false "57400" "[::1]" = Ok "[[::1]]:57400"
  /\ with_port false "57400" "[[::1]]:57400" = Ok "[[[::1]]:57400]:57400".
Proof. by vm_compute. Qed.
