(* ===== verification/Loaders.v ===== *)
(** * Target loaders (pkg/loaders, and the receivers in pkg/app/loaders.go and
      pkg/collector/managers/targets/loader.go)

    A loader reads target configurations from a file, an HTTP server, the
    containers of a docker host or the services of consul, compares them with
    those it reported last and sends the difference: the targets to add and the
    names to delete; a changed target is in both. Actions may run first for each
    of them, and decide whether it is reported. The theorems follow a difference
    from the source to the table of targets of the program that receives it.

    What a read gives is an argument, as are the outcomes of the actions;
    [targetConfigFn] is the callback that sets the defaults. *)

From stdpp Require Import strings.
From S2P Require Import Prelude GoStrings Utf8 GoVal Text Tls Target.

#[local] Open Scope nat_scope.

(** ** The difference of two readings *)

Abbreviation configs := (gmap string TargetConfig).

Record TargetOperation := mkOp { op_Add : configs; op_Del : list string }.

(** [reflect.DeepEqual] follows the pointers; a nil slice or map is not an
    empty one. *)
Definition deref (tc : TargetConfig) : TargetConfig := mkTargetConfig
  (tc_Name tc) (tc_Address tc) (tc_Username tc) (tc_Password tc) (tc_AuthScheme tc) (tc_Timeout tc) (tc_Insecure tc)
  (tc_TLSCA tc) (tc_TLSCert tc) (tc_TLSKey tc) (tc_SkipVerify tc) (tc_TLSServerName tc) (tc_Subscriptions tc)
  (tc_Outputs tc) (tc_BufferSize tc) (clonePtr 0 (tc_GRPCReadBufferSize tc)) (clonePtr 0 (tc_GRPCWriteBufferSize tc))
  (clonePtr 0 (tc_GRPCConnWindowSize tc)) (clonePtr 0 (tc_GRPCWindowSize tc)) (clonePtr 0 (tc_GRPCStaticConnWindowSize
  tc)) (clonePtr 0 (tc_GRPCStaticStreamWindowSize tc)) (tc_RetryTimer tc) (tc_TLSMinVersion tc) (tc_TLSMaxVersion tc)
  (tc_TLSVersion tc) (tc_LogTLSSecret tc) (tc_ProtoFiles tc) (tc_ProtoDirs tc) (tc_Tags tc) (tc_EventTags tc)
  (tc_Gzip tc) (tc_Token tc) (tc_Proxy tc) (tc_TunnelTargetType tc) (tc_Encoding tc) (tc_Metadata tc) (tc_CipherSuites
  tc) (tc_TCPKeepalive tc) (tc_GRPCKeepalive tc) (tc_TLSReload tc).

#[export] Instance target_config_eq_dec : EqDecision TargetConfig.
Proof. solve_decision. Defined.

Definition DeepEqual (a b : TargetConfig) : bool := bool_decide (deref a = deref b).

Section loaders.
Context `{MapOrder}.

(** The three loops of [Diff] after its two special cases. *)
Definition diff_added (current new : configs) : configs :=
  foldl (fun r (kv : string * TargetConfig) =>
           match current !! kv.1 with None => <[kv.1 := kv.2]> r | Some _ => r end) ∅ (range new).
Definition diff_removed (current new : configs) : list string :=
  foldl (fun r (kv : string * TargetConfig) =>
           match new !! kv.1 with None => r ++ [kv.1] | Some _ => r end) [] (range current).
Definition diff_change (new : configs) (op : TargetOperation) (kv : string * TargetConfig) : TargetOperation :=
  match new !! kv.1 with
  | None => op
  | Some newVal => if DeepEqual kv.2 newVal then op
                   else mkOp (<[kv.1 := newVal]> (op_Add op)) (op_Del op ++ [kv.1])
  end.

Definition Diff (current new : configs) : TargetOperation :=
  if size current =? 0 then mkOp new []
  else if size new =? 0 then mkOp ∅ (range current).*1
  else foldl (diff_change new) (mkOp (diff_added current new) (diff_removed current new)) (range current).

(** ** Reading targets *)

Inductive load_error := errLoad | errNoMatch.

(** The names and addresses left out in the file; the table may hold nil. *)
Definition name_target (n : string) (t : option TargetConfig) : go load_error TargetConfig :=
  match t with
  | None => if String.eqb n "" then Panic else Ok (set_source n n None zeroTarget)
  | Some t => Ok (set_source (if String.eqb (tc_Name t) "" then n else tc_Name t)
                    (if String.eqb (tc_Address t) "" then n else tc_Address t) (tc_EventTags t) t)
  end.

Definition name_targets (m : gmap string (option TargetConfig)) : go load_error configs :=
  foldM (fun r (kv : string * option TargetConfig) => t ← name_target kv.1 kv.2; mret (<[kv.1 := t]> r)) (range m) ∅.

(** [input] is nil when the template is set: [json.Unmarshal(b, input)] always
    fails on it. [parsed] is what the YAML decoder makes of the file. *)
Definition file_getTargets (has_template : bool) (read : option string)
    (parse : string -> option (gmap string (option TargetConfig))) : go load_error configs :=
  match read with
  | None => Err errLoad
  | Some b => if has_template then Err errLoad
              else match parse b with None => Err errLoad | Some m => name_targets m end
  end.

(** The HTTP loader: [execute] is the template on the decoded body. *)
Definition http_getTargets (template : option (string -> option string)) (response : option (Z * string))
    (parse : string -> option (gmap string (option TargetConfig))) : go load_error configs :=
  match response with
  | None => Err errLoad
  | Some (code, b) =>
      if negb (code =? 200)%Z then Err errLoad
      else match (match template with None => Some b | Some t => t b end) with
           | None => Err errLoad
           | Some b => match parse b with None => Err errLoad | Some m => name_targets m end
           end
  end.

(** ** Actions *)

(** The actions of a loader by their outcomes: which additions and deletions
    get through all of them. An addition is named to them by the name in its
    configuration, and its failure makes the loader forget that name. *)
Record Actions := mkActions { on_add : string -> bool; on_delete : string -> bool }.

Definition forget_failed (acts : Actions) (op : TargetOperation) (last : configs) : configs :=
  foldl (fun m t => if on_add acts (tc_Name t) then m else delete (tc_Name t) m) last (range (op_Add op)).*2.

Definition passed (acts : Actions) (op : TargetOperation) : TargetOperation :=
  mkOp (filter (fun kv => on_add acts (tc_Name kv.2) = true) (op_Add op))
       (filter (fun n => on_delete acts n = true) (op_Del op)).

Definition runActions (acts : option Actions) (last : configs) (op : TargetOperation) : configs * TargetOperation :=
  match acts with
  | None => (last, op)
  | Some acts => (forget_failed acts op last, passed acts op)
  end.

(** ** What the loaders remember *)

Definition forget_deleted (op : TargetOperation) (last : configs) : configs :=
  foldl (fun m n => delete n m) last (op_Del op).
Definition remember_by_name (op : TargetOperation) (last : configs) : configs :=
  foldl (fun m t => <[tc_Name t := t]> m) last (range (op_Add op)).*2.
Definition remember_new (op : TargetOperation) (last : configs) : configs :=
  foldl (fun m (kv : string * TargetConfig) => match m !! kv.1 with None => <[kv.1 := kv.2]> m | Some _ => m end)
    last (range (op_Add op)).

Definition empty_op (op : TargetOperation) : bool := size (op_Add op) + length (op_Del op) =? 0.

(** [targetConfigFn] changes a configuration in place; its error is logged. *)
Definition with_defaults (fn : option (TargetConfig -> TargetConfig)) (tcs : configs) : configs :=
  match fn with None => tcs | Some f => f <$> tcs end.

(** One update: the new memory, and the operation sent, if any. *)
Definition file_updateTargets (fn : option (TargetConfig -> TargetConfig)) (acts : option Actions) (last tcs : configs)
    : configs * option TargetOperation :=
  let '(last, op) := runActions acts last (Diff last (with_defaults fn tcs)) in
  if empty_op op then (last, None)
  else (remember_by_name op (forget_deleted op last), Some op).

Definition http_updateTargets (fn : TargetConfig -> TargetConfig) (acts : option Actions) (last tcs : configs)
    : configs * option TargetOperation :=
  let '(last, op) := runActions acts last (Diff last (with_defaults (Some fn) tcs)) in
  if empty_op op then (last, None)
  else (remember_new op (forget_deleted op last), Some op).

(** The docker loader also remembers before it runs the actions. *)
Definition docker_remember (op : TargetOperation) (last : configs) : configs :=
  foldl (fun m t => match m !! tc_Name t with None => <[tc_Name t := t]> m | Some _ => m end) last (range (op_Add op)).*2.
Definition docker_diff (last m : configs) : configs * TargetOperation :=
  let op := Diff last m in (forget_deleted op (docker_remember op last), op).
Definition docker_updateTargets (fn : TargetConfig -> TargetConfig) (acts : option Actions) (last tcs : configs)
    : configs * option TargetOperation :=
  let '(last, op) := docker_diff last (with_defaults (Some fn) tcs) in
  let '(last, op) := runActions acts last op in
  if empty_op op then (last, None)
  else (remember_by_name op (forget_deleted op last), Some op).

(** ** The receivers *)

(** The application, not in a cluster, with the buffer size and the retry timer
    of its configuration: deletions first; an addition whose defaults fail is
    dropped, and one whose name is in use is ignored. Only the table of
    configurations is followed here. *)
Definition DeleteTarget (targets : configs) (name : string) : configs := delete name targets.
Definition AddTargetConfig (buffer retry : Z) (targets : configs) (tc : TargetConfig) : configs :=
  match targets !! tc_Name tc with
  | Some _ => targets
  | None => <[tc_Name tc := set_timers (if (tc_BufferSize tc <=? 0)%Z then buffer else tc_BufferSize tc)
                              (if (tc_RetryTimer tc <=? 0)%Z then retry else tc_RetryTimer tc) tc]> targets
  end.
Definition app_receive (fn : TargetConfig -> option TargetConfig) (buffer retry : Z) (targets : configs)
    (op : TargetOperation) : configs :=
  foldl (fun ts add => match fn add with None => ts | Some add => AddTargetConfig buffer retry ts add end)
    (foldl DeleteTarget targets (op_Del op)) (range (op_Add op)).*2.

(** The targets manager of the collector: additions first. *)
Definition tm_receive (targets : configs) (op : TargetOperation) : configs :=
  foldl (fun ts del => delete del ts) (foldl (fun ts add => <[tc_Name add := add]> ts) targets (range (op_Add op)).*2)
    (op_Del op).
End loaders.

(** ** Running the actions: the goroutines *)

(** The file and docker loaders (and, with one difference, the consul loader)
    run the actions of every addition and deletion in a goroutine of its own,
    which hands its outcome to a gatherer over an unbuffered channel. The
    gatherer ends when the time of the actions is over; the loader waits for
    every goroutine, then for the gatherer. *)
Inductive item := Addition (n : string) (tc : TargetConfig) | Deletion (n : string).
Inductive worker_phase := Running | Sending | Finished.
Record gather_state := mkGather {
  g_workers : list (item * worker_phase);
  g_expired : bool;
  g_stopped : bool;
  g_result : TargetOperation
}.

Definition items `{MapOrder} (op : TargetOperation) : list item :=
  ((fun kv => Addition kv.1 kv.2) <$> range (op_Add op)) ++ (Deletion <$> op_Del op).
Definition start_actions `{MapOrder} (op : TargetOperation) : gather_state :=
  mkGather ((fun i => (i, Running)) <$> items op) false false (mkOp ∅ []).

Definition gathered (i : item) (r : TargetOperation) : TargetOperation :=
  match i with
  | Addition n tc => mkOp (<[n := tc]> (op_Add r)) (op_Del r)
  | Deletion n => mkOp (op_Add r) (op_Del r ++ [n])
  end.

Inductive gather_event := EvActed (w : nat) (ok : bool) | EvHandOn (w : nat) | EvExpire | EvStop.

Definition gather_exec (s : gather_state) (e : gather_event) : option gather_state :=
  match e with
  | EvActed w ok =>
      match g_workers s !! w with
      | Some (i, Running) => Some (mkGather (<[w := (i, if ok then Sending else Finished)]> (g_workers s))
                                     (g_expired s) (g_stopped s) (g_result s))
      | _ => None
      end
  | EvHandOn w =>
      match g_workers s !! w with
      | Some (i, Sending) => if g_stopped s then None
                             else Some (mkGather (<[w := (i, Finished)]> (g_workers s)) (g_expired s) false (gathered i (g_result s)))
      | _ => None
      end
  | EvExpire => Some (mkGather (g_workers s) true (g_stopped s) (g_result s))
  | EvStop => if g_expired s && negb (g_stopped s)
              then Some (mkGather (g_workers s) true true (g_result s)) else None
  end.

Definition all_finished (s : gather_state) : bool :=
  forallb (fun w => match w.2 with Finished => true | _ => false end) (g_workers s).

(** ** Services of consul *)

Record AgentService := mkService { sv_Service : string; sv_ID : string; sv_Address : string; sv_Port : Z; sv_Tags : list string }.
Record ServiceEntry := mkEntry { se_Service : option AgentService; se_Node : option string }.

(** [sd_Config] is the decoding of the definition's configuration into the
    target's, [sd_nameTemplate] and [sd_tagTemplates] are its templates. *)
Record serviceDef := mkServiceDef {
  sd_Name : string;
  sd_tags : list string;
  sd_Config : option (TargetConfig -> option TargetConfig);
  sd_nameTemplate : option (AgentService -> option string);
  sd_tagTemplates : gmap string (AgentService -> option string)
}.

Definition required_tags (sd : serviceDef) (sv : AgentService) : bool :=
  forallb (fun t => bool_decide (t ∈ sv_Tags sv)) (sd_tags sd).

Definition event_tags `{MapOrder} (sd : serviceDef) (sv : AgentService) (tc : TargetConfig) : go load_error (gomap string) :=
  if size (sd_tagTemplates sd) =? 0 then Ok (tc_EventTags tc)
  else m ← foldM (fun m (kv : string * (AgentService -> option string)) =>
                    match kv.2 sv with None => Err errLoad | Some v => Ok (<[kv.1 := v]> m) end)
                 (range (sd_tagTemplates sd)) ∅;
       mret (Some m).

(** One pass over the definitions: it returns, finds no match, or meets the
    [goto], which starts the loop again with the configuration as it is. *)
Inductive pass := Return (r : go load_error TargetConfig) | Again (tc : TargetConfig).

Definition service_address (sv : AgentService) (node : option string) : option string :=
  host ← (if String.eqb (sv_Address sv) "" then node else Some (sv_Address sv));
  Some (JoinHostPort host (itoa (sv_Port sv))).

Fixpoint services_pass `{MapOrder} (sds : list serviceDef) (sv : AgentService) (node : option string) (tc : TargetConfig) : pass :=
  match sds with
  | [] => Return (Err errNoMatch)
  | sd :: rest =>
      if negb (String.eqb (sv_Service sv) (sd_Name sd)) then services_pass rest sv node tc
      else if negb (required_tags sd sv) then Again tc
      else match (match sd_Config sd with None => Some tc | Some decode => decode tc end) with
           | None => Return (Err errLoad)
           | Some tc =>
               match service_address sv node with
               | None => Return Panic
               | Some addr =>
                   let tc := set_source (sv_ID sv) addr (tc_EventTags tc) tc in
                   match (match sd_nameTemplate sd with None => Some (sv_ID sv) | Some t => t sv end) with
                   | None => services_pass rest sv node tc
                   | Some name => Return (tags ← event_tags sd sv tc; mret (set_source name addr tags tc))
                   end
               end
           end
  end.

(** [fuel] passes; [None]: still in the loop. *)
Fixpoint services_loop `{MapOrder} (fuel : nat) (sds : list serviceDef) (sv : AgentService) (node : option string)
    (tc : TargetConfig) : option (go load_error TargetConfig) :=
  match fuel with
  | O => None
  | S fuel => match services_pass sds sv node tc with
              | Return r => Some r
              | Again tc => services_loop fuel sds sv node tc
              end
  end.

Definition serviceEntryToTargetConfig `{MapOrder} (fuel : nat) (sds : list serviceDef) (se : ServiceEntry)
    : option (go load_error TargetConfig) :=
  match se_Service se with
  | None => Some (Ok zeroTarget)
  | Some sv => services_loop fuel sds sv (se_Node se) zeroTarget
  end.

(** The entries of a service, as the watch sends them: those that cannot be
    converted are left out. *)
Definition add_entry `{MapOrder} (fuel : nat) (sds : list serviceDef) (r : option (go load_error configs)) (se : ServiceEntry)
    : option (go load_error configs) :=
  r ← r; e ← serviceEntryToTargetConfig fuel sds se;
  Some (m ← r; match e with Panic => Panic | Err _ => Ok m | Ok tc => Ok (<[tc_Name tc := tc]> m) end).
Definition service_targets `{MapOrder} (fuel : nat) (sds : list serviceDef) (ses : list ServiceEntry) : option (go load_error configs) :=
  foldl (add_entry fuel sds) (Some (Ok ∅)) ses.

(** The callback runs only when there are actions, on the readings, then again
    on the additions, which are the same objects; an error of the second run is
    returned. [fn] gives the changed configuration, and whether it succeeded. *)
Definition consul_additions `{MapOrder} (fn : TargetConfig -> TargetConfig * bool) (op : TargetOperation) : go load_error TargetOperation :=
  adds ← mapE (fun kv : string * TargetConfig =>
                 let '(tc, ok) := fn (fn kv.2).1 in if ok : bool then Ok (kv.1, tc) else Err errLoad) (range (op_Add op));
  mret (mkOp (list_to_map adds) (op_Del op)).

Definition consul_runActions `{MapOrder} (fn : TargetConfig -> TargetConfig * bool) (acts : option Actions)
    (op : TargetOperation) : go load_error TargetOperation :=
  match acts with
  | None => Ok op
  | Some acts => passed acts <$> consul_additions fn op
  end.

(** [c.lastTargets] has a table per service name. *)
Definition consul_updateTargets `{MapOrder} (fn : TargetConfig -> TargetConfig * bool) (acts : option Actions)
    (last : gmap string configs) (srv : string) (tcs : configs) : gmap string configs * option TargetOperation :=
  let mem := default ∅ (last !! srv) in
  match consul_runActions fn acts (Diff mem tcs) with
  | Ok op => if empty_op op then (last, None)
             else (<[srv := remember_by_name op (forget_deleted op mem)]> last, Some op)
  | _ => (last, None)
  end.

(** The configurations sent are those remembered, the same objects: what the
    receiver changes in them ([touch]: the defaults of the application) the
    loader remembers too. *)
Definition receiver_touches `{MapOrder} (touch : TargetConfig -> TargetConfig) (op : TargetOperation) (last : configs) : configs :=
  foldl (fun m t => <[tc_Name t := touch t]> m) last (range (op_Add op)).*2.

(** ** The difference *)

Section diff.
Context `{MapOrder}.
Implicit Types cur new : configs.

Definition changed_in new (kv : string * TargetConfig) : bool :=
  match new !! kv.1 with Some nv => negb (DeepEqual kv.2 nv) | None => false end.
Definition gone_in new (kv : string * TargetConfig) : bool :=
  match new !! kv.1 with Some _ => false | None => true end.

Lemma diff_change_del new l op :
  op_Del (foldl (diff_change new) op l) = op_Del op ++ (List.filter (changed_in new) l).*1.
Proof.
  revert op. induction l as [|kv l IH]; intros op; cbn; [by rewrite app_nil_r|].
  rewrite IH. unfold diff_change, changed_in.
  destruct (new !! kv.1) as [nv|]; [|done]. destruct (DeepEqual kv.2 nv); [done|].
  cbn. by rewrite <-app_assoc.
Qed.

Lemma diff_change_add new l op n :
  op_Add (foldl (diff_change new) op l) !! n =
  if existsb (fun kv => String.eqb kv.1 n && changed_in new kv) l then new !! n else op_Add op !! n.
Proof.
  revert op. induction l as [|kv l IH]; intros op; cbn; [done|].
  rewrite IH. unfold diff_change, changed_in.
  destruct (String.eqb_spec kv.1 n) as [<-|Hne]; cbn.
  - destruct (new !! kv.1) as [nv|] eqn:E; cbn; [|done].
    destruct (DeepEqual kv.2 nv); cbn; [done|].
    rewrite lookup_insert_eq. by destruct (existsb _ l).
  - destruct (existsb _ l); [done|].
    destruct (new !! kv.1) as [nv|]; [|done]. destruct (DeepEqual kv.2 nv); [done|].
    cbn. by rewrite lookup_insert_ne.
Qed.

Lemma diff_removed_filter cur new : diff_removed cur new = (List.filter (gone_in new) (range cur)).*1.
Proof.
  unfold diff_removed.
  assert (Hl : forall l r, foldl (fun r (kv : string * TargetConfig) =>
             match new !! kv.1 with None => r ++ [kv.1] | Some _ => r end) r l = r ++ (List.filter (gone_in new) l).*1).
  { induction l as [|kv l IH]; intros r; cbn; [by rewrite app_nil_r|].
    rewrite IH. unfold gone_in. destruct (new !! kv.1); cbn; [done|]. by rewrite <-app_assoc. }
  apply Hl.
Qed.

Lemma diff_added_lookup cur new n :
  diff_added cur new !! n = match cur !! n with Some _ => None | None => new !! n end.
Proof.
  unfold diff_added.
  assert (Hl : forall (l : list (string * TargetConfig)) (r : configs), NoDup l.*1 -> foldl (fun r (kv : string * TargetConfig) =>
             match cur !! kv.1 with None => <[kv.1 := kv.2]> r | Some _ => r end) r l !! n
           = match cur !! n with Some _ => r !! n | None => match (list_to_map l : configs) !! n with Some v => Some v | None => r !! n end end).
  { induction l as [|[k v] l IH]; intros r Hnd; cbn; [by destruct (cur !! n)|].
    apply NoDup_cons in Hnd as [Hk Hnd]. rewrite (IH _ Hnd).
    destruct (decide (k = n)) as [->|Hne].
    - rewrite lookup_insert_eq. destruct (cur !! n) eqn:E; [done|].
      rewrite (not_elem_of_list_to_map_1 l n Hk). by rewrite lookup_insert_eq.
    - rewrite lookup_insert_ne by done. destruct (cur !! k), (cur !! n); try done; by rewrite lookup_insert_ne. }
  rewrite Hl by apply NoDup_range_fst. rewrite range_list_to_map, lookup_empty.
  destruct (cur !! n); [done|]. by destruct (new !! n).
Qed.

(** What a difference adds: the new configurations and the changed ones. *)
Lemma Diff_Add cur new n :
  op_Add (Diff cur new) !! n =
  match new !! n, cur !! n with
  | Some nv, Some cv => if DeepEqual cv nv then None else Some nv
  | o, _ => o
  end.
Proof.
  unfold Diff. destruct (Nat.eqb_spec (size cur) 0) as [->%map_size_empty_inv|_].
  { cbn. rewrite lookup_empty. by destruct (new !! n). }
  destruct (Nat.eqb_spec (size new) 0) as [->%map_size_empty_inv|_]; [by cbn; rewrite !lookup_empty|].
  rewrite diff_change_add. cbn. rewrite diff_added_lookup.
  destruct (existsb _ _) eqn:Hex.
  - apply existsb_exists in Hex as ([k v] & Hin%list_elem_of_In & [<-%String.eqb_eq Hc]%andb_true_iff).
    apply elem_of_range in Hin. cbn in *. unfold changed_in in Hc. cbn in Hc. rewrite Hin.
    destruct (new !! k) as [nv|]; [|done]. by apply negb_true_iff in Hc as ->.
  - destruct (cur !! n) as [cv|] eqn:Hcv; [|by destruct (new !! n)].
    destruct (new !! n) as [nv|] eqn:Hnv; [|done]. destruct (DeepEqual cv nv) eqn:Hd; [done|].
    enough (existsb (fun kv => String.eqb kv.1 n && changed_in new kv) (range cur) = true) by congruence.
    apply existsb_exists. exists (n, cv). split; [by apply list_elem_of_In, elem_of_range|].
    cbn. rewrite String.eqb_refl. unfold changed_in. cbn. by rewrite Hnv, Hd.
Qed.

(** What it deletes: the names that are gone and those of the changed ones, once each. *)
Lemma Diff_Del cur new n :
  n ∈ op_Del (Diff cur new) <->
  exists cv, cur !! n = Some cv /\ match new !! n with Some nv => DeepEqual cv nv = false | None => True end.
Proof.
  unfold Diff. destruct (Nat.eqb_spec (size cur) 0) as [->%map_size_empty_inv|_].
  { cbn. split; [by intros ?%not_elem_of_nil|]. intros (cv & Hcv & _). by rewrite lookup_empty in Hcv. }
  destruct (Nat.eqb_spec (size new) 0) as [->%map_size_empty_inv|_].
  { cbn. rewrite list_elem_of_fmap. setoid_rewrite lookup_empty. split.
    - intros ([k v] & -> & Hin%elem_of_range). eauto.
    - intros (cv & Hcv & _). exists (n, cv). split; [done|]. by apply elem_of_range. }
  rewrite diff_change_del. cbn. rewrite diff_removed_filter, elem_of_app, !list_elem_of_fmap. split.
  - intros [([k v] & -> & Hin)|([k v] & -> & Hin)]; apply list_elem_of_In, filter_In in Hin as [Hin%list_elem_of_In Hc];
      apply elem_of_range in Hin; cbn in *; exists v; (split; [done|]); unfold gone_in, changed_in in Hc; cbn in Hc;
      destruct (new !! k) as [nv|]; try done. by apply negb_true_iff in Hc.
  - intros (cv & Hcv & Hn). assert (Hin : (n, cv) ∈ range cur) by by apply elem_of_range.
    destruct (new !! n) as [nv|] eqn:Hnv; [right|left]; exists (n, cv); (split; [done|]);
      apply list_elem_of_In, filter_In; (split; [by apply list_elem_of_In|]); unfold gone_in, changed_in; cbn; rewrite Hnv;
      [by rewrite Hn|done].
Qed.

Lemma NoDup_filter_fst (f : string * TargetConfig -> bool) l : NoDup l.*1 -> NoDup (List.filter f l).*1.
Proof.
  induction l as [|kv l IH]; cbn; [done|]. intros [Hk Hl]%NoDup_cons.
  destruct (f kv); cbn; [|auto]. apply NoDup_cons. split; [|auto].
  contradict Hk. apply list_elem_of_fmap in Hk as (x & -> & Hx%list_elem_of_In%filter_In).
  apply list_elem_of_fmap. exists x. split; [done|]. apply list_elem_of_In, Hx.
Qed.

Lemma Diff_Del_NoDup cur new : NoDup (op_Del (Diff cur new)).
Proof.
  unfold Diff. destruct (size cur =? 0); [constructor|].
  destruct (size new =? 0); [apply NoDup_range_fst|].
  rewrite diff_change_del. cbn. rewrite diff_removed_filter.
  apply NoDup_app. split_and!; try apply NoDup_filter_fst, NoDup_range_fst.
  intros n (x & -> & Hx%list_elem_of_In%filter_In)%list_elem_of_fmap (y & Hxy & Hy%list_elem_of_In%filter_In)%list_elem_of_fmap.
  destruct Hx as [_ Hx], Hy as [_ Hy]. unfold gone_in, changed_in in Hx, Hy. rewrite <-Hxy in Hy.
  by destruct (new !! x.1).
Qed.
End diff.

(** ** What a loader remembers and a receiver holds *)

Section memory.
Context `{MapOrder}.
Implicit Types last tcs targets : configs.

Lemma DeepEqual_refl a : DeepEqual a a = true.
Proof. by apply bool_decide_eq_true. Qed.

Definition named (m : configs) : Prop := map_Forall (fun n t => tc_Name t = n) m.

Lemma range_values (f : configs -> TargetConfig -> configs) (g : configs -> string * TargetConfig -> configs) (m : configs) acc :
  (forall a n t, m !! n = Some t -> f a t = g a (n, t)) -> foldl f acc (range m).*2 = foldl g acc (range m).
Proof.
  intros Hfg. assert (Hin : forall kv, kv ∈ range m -> m !! kv.1 = Some kv.2) by (intros [k v]; apply elem_of_range).
  revert acc. induction (range m) as [|[n t] l IH]; intros acc; cbn; [done|].
  rewrite (Hfg acc n t) by (apply (Hin (n, t)); left). apply IH. intros kv Hkv. apply Hin. by right.
Qed.

Lemma insert_range (m acc : configs) : foldl (fun a (kv : string * TargetConfig) => <[kv.1 := kv.2]> a) acc (range m) = m ∪ acc.
Proof. rewrite foldl_insert_list_to_map by apply NoDup_range_fst. by rewrite range_list_to_map. Qed.

Lemma remember_named op last : named (op_Add op) -> remember_by_name op last = op_Add op ∪ last.
Proof.
  intros Hn. rewrite <-insert_range. unfold remember_by_name. apply range_values.
  intros a n t Ht. cbn. by rewrite (Hn n t Ht).
Qed.

Lemma delete_all (l : list string) (m : configs) n : foldl (fun m k => delete k m) m l !! n = if bool_decide (n ∈ l) then None else m !! n.
Proof.
  revert m. induction l as [|k l IH]; intros m; cbn; [done|]. rewrite IH.
  destruct (decide (n = k)) as [->|Hne].
  - rewrite lookup_delete_eq. rewrite (bool_decide_eq_true_2 (k ∈ k :: l)) by left. by destruct (bool_decide _).
  - rewrite lookup_delete_ne by done.
    by rewrite (bool_decide_ext (n ∈ k :: l) (n ∈ l)) by (rewrite elem_of_cons; naive_solver).
Qed.

Lemma forget_deleted_lookup op last n : forget_deleted op last !! n = if bool_decide (n ∈ op_Del op) then None else last !! n.
Proof. apply delete_all. Qed.

Lemma forget_failed_lookup acts op last n :
  named (op_Add op) ->
  forget_failed acts op last !! n =
    if bool_decide (is_Some (op_Add op !! n)) && negb (on_add acts n) then None else last !! n.
Proof.
  intros Hn. unfold forget_failed.
  rewrite (range_values _ (fun m (kv : string * TargetConfig) => if on_add acts kv.1 then m else delete kv.1 m)).
  2:{ intros a k t Ht. cbn. by rewrite (Hn k t Ht). }
  assert (Hl : forall (l : list (string * TargetConfig)) m,
     foldl (fun m (kv : string * TargetConfig) => if on_add acts kv.1 then m else delete kv.1 m) m l !! n
     = if bool_decide (n ∈ l.*1) && negb (on_add acts n) then None else (m : configs) !! n).
  { induction l as [|[k t] l IH]; intros m; cbn; [done|]. rewrite IH. cbn.
    destruct (decide (n = k)) as [->|Hne].
    - rewrite (bool_decide_eq_true_2 (k ∈ k :: l.*1)) by left. cbn. destruct (on_add acts k); cbn.
      + by rewrite andb_false_r.
      + rewrite lookup_delete_eq. by destruct (_ && _).
    - rewrite (bool_decide_ext (n ∈ k :: l.*1) (n ∈ l.*1)) by (rewrite elem_of_cons; naive_solver).
      destruct (_ && _); [done|]. destruct (on_add acts k); [done|]. by rewrite lookup_delete_ne. }
  rewrite Hl. rewrite (bool_decide_ext _ (is_Some (op_Add op !! n))); [done|]. rewrite list_elem_of_fmap. split.
  - intros ([k t] & -> & Hin%elem_of_range). cbn in *. eauto.
  - intros (t & Ht). exists (n, t). split; [done|]. by apply elem_of_range.
Qed.

Lemma named_filter (P : string * TargetConfig -> Prop) `{!forall x, Decision (P x)} (m : configs) : named m -> named (filter P m).
Proof. intros Hm n t [Ht _]%map_lookup_filter_Some. by apply Hm. Qed.

Lemma Diff_named last tcs : named tcs -> named (op_Add (Diff last tcs)).
Proof.
  intros Hn n t. rewrite Diff_Add. destruct (tcs !! n) as [nv|] eqn:E; [|done].
  destruct (last !! n) as [cv|]; [destruct (DeepEqual cv nv); [done|]|]; intros [= <-]; by apply Hn.
Qed.

(** The memory a loader should have of a name: the configuration read, if its
    actions passed. *)
Definition remembered (add del : bool) (cur new : option TargetConfig) : option TargetConfig :=
  match new, cur with
  | Some nv, Some cv => if DeepEqual cv nv then Some cv else if add then Some nv else None
  | Some nv, None => if add then Some nv else None
  | None, Some cv => if del then None else Some cv
  | None, None => None
  end.

Definition adds (acts : option Actions) (n : string) : bool := match acts with None => true | Some a => on_add a n end.
Definition dels (acts : option Actions) (n : string) : bool := match acts with None => true | Some a => on_delete a n end.

(** What is sent. *)
Definition sent_add (add : bool) (cur new : option TargetConfig) : option TargetConfig :=
  match new, cur with
  | Some nv, Some cv => if DeepEqual cv nv then None else if add then Some nv else None
  | Some nv, None => if add then Some nv else None
  | None, _ => None
  end.
Definition sent_del (del : bool) (cur new : option TargetConfig) : bool :=
  match cur with
  | None => false
  | Some cv => del && match new with Some nv => negb (DeepEqual cv nv) | None => true end
  end.

Lemma run_spec acts last tcs mem op :
  named tcs -> runActions acts last (Diff last tcs) = (mem, op) ->
  named (op_Add op)
  /\ (forall n, op_Add op !! n = sent_add (adds acts n) (last !! n) (tcs !! n))
  /\ (forall n, bool_decide (n ∈ op_Del op) = sent_del (dels acts n) (last !! n) (tcs !! n))
  /\ (forall n, mem !! n = if bool_decide (is_Some (op_Add (Diff last tcs) !! n)) && negb (adds acts n) then None else last !! n).
Proof.
  intros Hn Hr. pose proof (Diff_named last tcs Hn) as Hnd.
  assert (Hdel : forall n, bool_decide (n ∈ op_Del (Diff last tcs)) = sent_del true (last !! n) (tcs !! n)).
  { intros n. destruct (sent_del true (last !! n) (tcs !! n)) eqn:Es; [apply bool_decide_eq_true|apply bool_decide_eq_false];
      rewrite Diff_Del; destruct (last !! n) as [cv|]; cbn in *; try done.
    - exists cv. split; [done|]. destruct (tcs !! n); [|done]. by apply negb_true_iff in Es.
    - intros (cv' & [= <-] & Hc). destruct (tcs !! n); [|done]. by rewrite Hc in Es.
    - by intros (? & ? & _). }
  destruct acts as [acts|]; cbn in Hr; injection Hr as <- <-; cbn [adds dels].
  - split_and!; [by apply named_filter| | |by intros n; apply forget_failed_lookup].
    + intros n. cbn. rewrite map_lookup_filter, Diff_Add.
      destruct (tcs !! n) as [nv|] eqn:E1; cbn; [|done]. pose proof (Hn n nv E1) as Hname.
      destruct (last !! n) as [cv|]; cbn; [destruct (DeepEqual cv nv); cbn; [done|]|];
        rewrite Hname; case_guard as Hg; destruct (on_add acts n); cbn; congruence.
    + intros n. cbn. rewrite (bool_decide_ext _ (on_delete acts n = true /\ n ∈ op_Del (Diff last tcs))) by (by rewrite list_elem_of_filter).
      rewrite bool_decide_and, Hdel. unfold sent_del.
      destruct (last !! n); [|by rewrite andb_false_r]. cbn. f_equal. by destruct (on_delete acts n).
  - split_and!; [done| |done|].
    + intros n. rewrite Diff_Add. unfold sent_add. by destruct (tcs !! n), (last !! n).
    + intros n. cbn. by rewrite andb_false_r.
Qed.

Lemma empty_op_spec op : empty_op op = true -> op_Add op = ∅ /\ op_Del op = [].
Proof.
  unfold empty_op. intros [H1 H2]%Nat.eqb_eq%Nat.eq_add_0. split; [by apply map_size_empty_inv|by apply nil_length_inv].
Qed.

(** An update of the file loader: what it sends and what it remembers. *)
Lemma file_update_lookup fn acts last tcs last' sent :
  named (with_defaults fn tcs) -> file_updateTargets fn acts last tcs = (last', sent) ->
  (forall n, last' !! n = remembered (adds acts n) (dels acts n) (last !! n) (with_defaults fn tcs !! n))
  /\ match sent with
     | Some op => named (op_Add op)
                  /\ (forall n, op_Add op !! n = sent_add (adds acts n) (last !! n) (with_defaults fn tcs !! n))
                  /\ (forall n, bool_decide (n ∈ op_Del op) = sent_del (dels acts n) (last !! n) (with_defaults fn tcs !! n))
     | None => forall n, sent_add (adds acts n) (last !! n) (with_defaults fn tcs !! n) = None
                         /\ sent_del (dels acts n) (last !! n) (with_defaults fn tcs !! n) = false
     end.
Proof.
  set (new := with_defaults fn tcs). intros Hn Hu. unfold file_updateTargets in Hu. fold new in Hu.
  destruct (runActions acts last (Diff last new)) as [mem op] eqn:Hr.
  destruct (run_spec acts last new mem op Hn Hr) as (Hno & Ha & Hd & Hm).
  assert (Hmem : forall n, mem !! n = match new !! n with
       | Some nv => match last !! n with
                    | Some cv => if DeepEqual cv nv then Some cv else if adds acts n then Some cv else None
                    | None => None end
       | None => last !! n end).
  { intros n. rewrite Hm, Diff_Add. destruct (new !! n) as [nv|]; [|done].
    destruct (last !! n) as [cv|]; [|by destruct (_ && _)].
    destruct (DeepEqual cv nv); [done|]. by destruct (adds acts n). }
  destruct (empty_op op) eqn:He; injection Hu as <- <-.
  - apply empty_op_spec in He as [Ea Ed].
    assert (Hnone : forall n, sent_add (adds acts n) (last !! n) (new !! n) = None
                              /\ sent_del (dels acts n) (last !! n) (new !! n) = false).
    { intros n. rewrite <-Ha, <-Hd, Ea, Ed. split; [apply lookup_empty|]. apply bool_decide_eq_false, not_elem_of_nil. }
    split; [|done]. intros n. destruct (Hnone n) as [Hsa Hsd]. rewrite Hmem.
    unfold sent_add, sent_del, remembered in *.
    destruct (new !! n) as [nv|], (last !! n) as [cv|]; try done.
    + destruct (DeepEqual cv nv); [done|]. by destruct (adds acts n).
    + by destruct (dels acts n).
  - split; [|done]. intros n. rewrite remember_named by done. rewrite lookup_union, forget_deleted_lookup, Hd, Ha, Hmem.
    unfold sent_add, sent_del, remembered.
    destruct (new !! n) as [nv|], (last !! n) as [cv|]; cbn; try done.
    + destruct (DeepEqual cv nv); cbn; [by rewrite andb_false_r|].
      destruct (adds acts n); [by destruct (_ && _)|by destruct (_ && _)].
    + by destruct (adds acts n).
    + by destruct (dels acts n).
Qed.
End memory.

(** ** From the source to the program *)

Section receivers.
Context `{MapOrder}.
Implicit Types last tcs targets : configs.

Lemma insert_absent (l : list (string * TargetConfig)) (m : configs) :
  foldl (fun m (kv : string * TargetConfig) => match m !! kv.1 with None => <[kv.1 := kv.2]> m | Some _ => m end) m l
  = m ∪ list_to_map l.
Proof.
  revert m. induction l as [|[k v] l IH]; intros m; cbn; [by rewrite (right_id_L ∅ (∪))|].
  rewrite IH. destruct (m !! k) as [x|] eqn:E; apply map_eq; intros n; rewrite !lookup_union.
  - destruct (decide (n = k)) as [->|]; [by rewrite E, lookup_insert_eq; cbn; destruct (list_to_map l !! k)|].
    by rewrite lookup_insert_ne.
  - destruct (decide (n = k)) as [->|]; [rewrite !lookup_insert_eq, E; by destruct (list_to_map l !! k)|].
    by rewrite !lookup_insert_ne.
Qed.

Lemma app_receive_lookup fn buffer retry targets op n :
  named (op_Add op) ->
  (forall k t, op_Add op !! k = Some t -> fn t = Some t /\ (0 < tc_BufferSize t)%Z /\ (0 < tc_RetryTimer t)%Z) ->
  app_receive fn buffer retry targets op !! n =
    (if bool_decide (n ∈ op_Del op) then None else targets !! n) ∪ op_Add op !! n.
Proof.
  intros Hn Hfn. unfold app_receive.
  rewrite (range_values _ (fun m (kv : string * TargetConfig) => match m !! kv.1 with None => <[kv.1 := kv.2]> m | Some _ => m end)).
  2:{ intros a k t Ht. destruct (Hfn k t Ht) as (-> & Hb & Hr). unfold AddTargetConfig. cbn. rewrite (Hn k t Ht).
      destruct (a !! k); [done|]. f_equal. apply Z.leb_gt in Hb as ->. apply Z.leb_gt in Hr as ->. by destruct t. }
  rewrite insert_absent, lookup_union, range_list_to_map. f_equal. apply delete_all.
Qed.

Lemma tm_receive_lookup targets op n :
  named (op_Add op) ->
  tm_receive targets op !! n = if bool_decide (n ∈ op_Del op) then None else op_Add op !! n ∪ targets !! n.
Proof.
  intros Hn. unfold tm_receive. rewrite delete_all. destruct (bool_decide _); [done|].
  rewrite (range_values _ (fun a (kv : string * TargetConfig) => <[kv.1 := kv.2]> a)).
  2:{ intros a k t Ht. cbn. by rewrite (Hn k t Ht). }
  by rewrite insert_range, lookup_union.
Qed.

(** A second update with the same reading sends nothing. *)
Lemma file_update_stable fn last tcs last' sent :
  named (with_defaults fn tcs) -> file_updateTargets fn None last tcs = (last', sent) ->
  file_updateTargets fn None last' tcs = (last', None).
Proof.
  intros Hn Hu. destruct (file_update_lookup _ _ _ _ _ _ Hn Hu) as [Hl _].
  unfold file_updateTargets. cbn. set (new := with_defaults fn tcs) in *.
  assert (Hsame : forall n, match last' !! n, new !! n with
     | Some a, Some b => DeepEqual a b = true | None, None => True | _, _ => False end).
  { intros n. rewrite Hl. unfold remembered. cbn.
    destruct (new !! n) as [nv|], (last !! n) as [cv|]; cbn; try done; try apply DeepEqual_refl.
    destruct (DeepEqual cv nv) eqn:E; [done|apply DeepEqual_refl]. }
  assert (Ha : op_Add (Diff last' new) = ∅).
  { apply map_eq. intros n. rewrite Diff_Add, lookup_empty. specialize (Hsame n).
    destruct (new !! n), (last' !! n); try done. by rewrite Hsame. }
  assert (Hd : op_Del (Diff last' new) = []).
  { apply elem_of_nil_inv. intros n (cv & Hcv & Hc)%Diff_Del. specialize (Hsame n). rewrite Hcv in Hsame.
    destruct (new !! n); [congruence|done]. }
  unfold empty_op. by rewrite Ha, Hd, map_size_empty.
Qed.

(** The same configuration, or none on both sides. *)
Definition same_config (a b : option TargetConfig) : Prop :=
  match a, b with Some a, Some b => DeepEqual a b = true | None, None => True | _, _ => False end.

Definition received_by (receive : configs -> TargetOperation -> configs) targets (sent : option TargetOperation) : configs :=
  match sent with Some op => receive targets op | None => targets end.

(** C24: A poll of the file loader, end to end, when names are the keys of the
    file, its configurations have their defaults, and no deletion action fails.
    The application's table of targets follows what the loader remembers; it
    keeps its other targets; and when the addition actions pass too, it holds
    exactly the configurations of the file. A target whose addition action
    failed is forgotten, so the next poll reports it again. *)
Theorem app_follows_source fn fnapp buffer retry acts last tcs targets last' sent :
  named (with_defaults fn tcs) ->
  (forall n t, with_defaults fn tcs !! n = Some t -> fnapp t = Some t /\ (0 < tc_BufferSize t)%Z /\ (0 < tc_RetryTimer t)%Z) ->
  (forall n, dels acts n = true) ->
  (forall n, n ∈ dom last ∪ dom (with_defaults fn tcs) -> targets !! n = last !! n) ->
  file_updateTargets fn acts last tcs = (last', sent) ->
  let targets' := received_by (app_receive fnapp buffer retry) targets sent in
  (forall n, n ∈ dom last ∪ dom (with_defaults fn tcs) -> targets' !! n = last' !! n)
  /\ (forall n, n ∉ dom last ∪ dom (with_defaults fn tcs) -> targets' !! n = targets !! n)
  /\ (forall n, adds acts n = true -> same_config (last' !! n) (with_defaults fn tcs !! n))
  /\ (forall n, adds acts n = false -> last' !! n <> last !! n -> last' !! n = None).
Proof.
  intros Hn Hfn Hdels Hag Hu targets'. destruct (file_update_lookup _ _ _ _ _ _ Hn Hu) as [Hl Hs].
  set (new := with_defaults fn tcs) in *.
  assert (Ht : forall n, targets' !! n = match sent with
     | Some op => (if bool_decide (n ∈ op_Del op) then None else targets !! n) ∪ op_Add op !! n
     | None => targets !! n end).
  { intros n. unfold targets'. destruct sent as [op|]; [|done]. cbn. destruct Hs as (Hno & Ha & _).
    apply app_receive_lookup; [done|]. intros k t Hk. apply (Hfn k).
    rewrite Ha in Hk. unfold sent_add in Hk. destruct (new !! k), (last !! k); try done;
      repeat case_match; by simplify_eq. }
  split_and!.
  - intros n Hin. rewrite Ht, Hl. specialize (Hag n Hin). rewrite Hag. destruct sent as [op|].
    + destruct Hs as (_ & Ha & Hd). rewrite Hd, Ha. unfold sent_del, sent_add, remembered. rewrite Hdels. cbn.
      destruct (new !! n) as [nv|], (last !! n) as [cv|]; cbn; try done; [|by destruct (adds acts n)].
      destruct (DeepEqual cv nv); cbn; [done|]. by destruct (adds acts n).
    + destruct (Hs n) as [Hsa Hsd]. unfold sent_add, sent_del, remembered in *. rewrite Hdels in *. cbn in Hsd.
      destruct (new !! n) as [nv|], (last !! n) as [cv|]; try done. by destruct (DeepEqual cv nv).
  - intros n Hout. rewrite Ht. apply not_elem_of_union in Hout as [H1%not_elem_of_dom H2%not_elem_of_dom].
    destruct sent as [op|]; [|done]. destruct Hs as (_ & Ha & Hd). rewrite Hd, Ha, H1, H2. cbn. by destruct (targets !! n).
  - intros n Hadd. rewrite Hl, Hadd, Hdels. unfold remembered.
    destruct (new !! n) as [nv|], (last !! n) as [cv|]; cbn; try done; try apply DeepEqual_refl.
    destruct (DeepEqual cv nv) eqn:E; [done|apply DeepEqual_refl].
  - intros n Hadd. rewrite Hl, Hadd, Hdels. unfold remembered.
    destruct (new !! n) as [nv|], (last !! n) as [cv|]; cbn; try done. by destruct (DeepEqual cv nv).
Qed.

(** The collector handles the additions of an operation before its
    deletions, and a changed target is in both: a target whose configuration
    changes is deleted, while the loader remembers the new configuration, and
    the next poll of the same file sends nothing. New and removed targets are
    handled as they should be. *)
Theorem collector_loses_changed fn last tcs targets last' op :
  named (with_defaults fn tcs) ->
  file_updateTargets fn None last tcs = (last', Some op) ->
  (forall n cv nv, last !! n = Some cv -> with_defaults fn tcs !! n = Some nv -> DeepEqual cv nv = false ->
     tm_receive targets op !! n = None /\ last' !! n = Some nv)
  /\ (forall n nv, last !! n = None -> with_defaults fn tcs !! n = Some nv -> tm_receive targets op !! n = Some nv)
  /\ (forall n, is_Some (last !! n) -> with_defaults fn tcs !! n = None -> tm_receive targets op !! n = None)
  /\ file_updateTargets fn None last' tcs = (last', None).
Proof.
  intros Hn Hu. destruct (file_update_lookup _ _ _ _ _ _ Hn Hu) as [Hl (Hno & Ha & Hd)]. cbn in Ha, Hd.
  split_and!.
  - intros n cv nv Hcv Hnv Hc. rewrite tm_receive_lookup, Hd, Hl by done. unfold sent_del, remembered. cbn.
    by rewrite Hcv, Hnv, Hc.
  - intros n nv Hcv Hnv. rewrite tm_receive_lookup, Hd, Ha by done. unfold sent_del, sent_add. rewrite Hcv, Hnv. cbn.
    by destruct (targets !! n).
  - intros n [cv Hcv] Hnv. rewrite tm_receive_lookup, Hd by done. unfold sent_del. by rewrite Hcv, Hnv.
  - by eapply file_update_stable.
Qed.
End receivers.

(** *** Concrete readings *)

#[local] Existing Instance order_fwd.

Definition ex_target (name address : string) : TargetConfig := set_timers 100 10 (set_source name address None zeroTarget).
Definition ex_last : configs := {["a" := ex_target "a" "10.0.0.1:57400"; "b" := ex_target "b" "10.0.0.2:57400"]}.
Definition ex_file : configs := {["a" := ex_target "a" "10.0.0.9:57400"; "c" := ex_target "c" "10.0.0.3:57400"]}.
Definition ex_update := file_updateTargets None None ex_last ex_file.

Lemma ex_named : named ex_file.
Proof. unfold named. by apply (bool_decide_unpack _). Qed.

Lemma app_follows_source_witness :
  let targets' := received_by (app_receive Some 100 10) ex_last ex_update.2 in
  targets' !! "a" = Some (ex_target "a" "10.0.0.9:57400") /\ targets' !! "b" = None
  /\ (forall n, n ∈ dom ex_last ∪ dom ex_file -> targets' !! n = ex_update.1 !! n).
Proof.
  split; [by vm_compute|]. split; [by vm_compute|].
  refine (proj1 (app_follows_source None Some 100 10 None ex_last ex_file ex_last ex_update.1 ex_update.2
                   ex_named _ _ _ (surjective_pairing _))).
  - assert (Hall : map_Forall (fun _ t => (tc_BufferSize t = 100 /\ tc_RetryTimer t = 10)%Z) ex_file)
      by by apply (bool_decide_unpack _).
    intros n t Ht. destruct (Hall n t Ht) as [-> ->]. done.
  - done.
  - done.
Defined.

Lemma collector_loses_changed_witness :
  exists op, ex_update = (ex_file, Some op) /\ tm_receive ex_last op !! "a" = None
             /\ file_updateTargets None None ex_file ex_file = (ex_file, None).
Proof.
  eexists. split; [by vm_compute|].
  split; [|by vm_compute].
  exact (proj1 (proj1 (collector_loses_changed None ex_last ex_file ex_last ex_file _ ex_named (eq_refl ex_update))
    "a" (ex_target "a" "10.0.0.1:57400") (ex_target "a" "10.0.0.9:57400") eq_refl eq_refl eq_refl)).
Defined.

(** A target whose name is not its key in the file is deleted and added again
    at every poll. *)
Definition ex_renamed : configs := {["k" := ex_target "n" "10.0.0.1:57400"]}.
Example renamed_target_flaps :
  let '(last1, sent1) := file_updateTargets None None ∅ ex_renamed in
  let '(last2, sent2) := file_updateTargets None None last1 ex_renamed in
  last2 = last1 /\ sent2 = Some (mkOp ex_renamed ["n"]).
Proof. by vm_compute. Qed.

(** A removed target whose deletion action fails: the file loader reports it
    again at the next poll, the docker loader never does. *)
Definition no_deletes : Actions := mkActions (fun _ => true) (fun _ => false).
Example docker_forgets_deletion :
  file_updateTargets None (Some no_deletes) {["a" := ex_target "a" "x"]} ∅ = ({["a" := ex_target "a" "x"]}, None)
  /\ docker_updateTargets (fun t => t) (Some no_deletes) {["a" := ex_target "a" "x"]} ∅ = (∅, None).
Proof. by vm_compute. Qed.

(** ** The goroutines of the actions *)

Section gather.
Context `{MapOrder}.

(** A run in which the actions of an item pass when [ok] says so. *)
Inductive gather_step (ok : item -> bool) : gather_state -> gather_state -> Prop :=
| gather_acted s s' w i : g_workers s !! w = Some (i, Running) -> gather_exec s (EvActed w (ok i)) = Some s' -> gather_step ok s s'
| gather_other s s' e : (forall w b, e <> EvActed w b) -> gather_exec s e = Some s' -> gather_step ok s s'.

(** What a step does to the workers. *)
Lemma gather_step_inv ok s s' :
  gather_step ok s s' ->
  (exists w i, g_workers s !! w = Some (i, Running)
     /\ s' = mkGather (<[w := (i, if ok i then Sending else Finished)]> (g_workers s)) (g_expired s) (g_stopped s) (g_result s))
  \/ (exists w i, g_workers s !! w = Some (i, Sending) /\ g_stopped s = false
     /\ s' = mkGather (<[w := (i, Finished)]> (g_workers s)) (g_expired s) false (gathered i (g_result s)))
  \/ (g_workers s' = g_workers s /\ g_result s' = g_result s /\ (g_stopped s = true -> g_stopped s' = true)
     /\ (g_expired s' = false -> g_expired s = false)).
Proof.
  intros [s1 s2 w i Hw He|s1 s2 e Hne He].
  - left. exists w, i. split; [done|]. cbn in He. rewrite Hw in He. by injection He as <-.
  - destruct e as [w b|w| |]; cbn in He.
    + by destruct (Hne w b).
    + right; left. destruct (g_workers s1 !! w) as [[i []]|] eqn:Hw; try done.
      destruct (g_stopped s1) eqn:Hst; [done|]. injection He as <-. eauto 10.
    + right; right. injection He as <-. by cbn.
    + right; right. destruct (g_expired s1 && negb (g_stopped s1)) eqn:E; [|done]. injection He as <-. by cbn.
Qed.

Definition stuck_at (s : gather_state) (w : nat) : Prop :=
  g_stopped s = true /\ exists i, g_workers s !! w = Some (i, Sending).

Lemma stuck_step ok s s' w : stuck_at s w -> gather_step ok s s' -> stuck_at s' w.
Proof.
  intros (Hst & i & Hw) Hs. apply gather_step_inv in Hs as [(w' & i' & Hw' & ->)|[(w' & i' & _ & Hf & _)|(Hsame & _ & Hk & _)]].
  - split; [done|]. exists i. cbn. destruct (decide (w' = w)) as [->|]; [congruence|]. by rewrite list_lookup_insert_ne.
  - congruence.
  - split; [by apply Hk|]. exists i. by rewrite Hsame.
Qed.

Lemma stuck_steps ok s s' w : stuck_at s w -> rtc (gather_step ok) s s' -> stuck_at s' w.
Proof. intros Hst Hr. induction Hr; eauto using stuck_step. Qed.

Lemma all_finished_spec s : all_finished s = true <-> forall w i ph, g_workers s !! w = Some (i, ph) -> ph = Finished.
Proof.
  unfold all_finished. rewrite forallb_forall. split.
  - intros Hf w i ph Hw. specialize (Hf (i, ph)). rewrite <-list_elem_of_In in Hf.
    specialize (Hf (list_elem_of_lookup_2 _ _ _ Hw)). by destruct ph.
  - intros Hf [i ph] Hin%list_elem_of_In. apply list_elem_of_lookup in Hin as [w Hw]. by rewrite (Hf w i ph Hw).
Qed.

Lemma unfinished s : all_finished s = false -> exists w i p, g_workers s !! w = Some (i, p) /\ p <> Finished.
Proof.
  unfold all_finished. generalize (g_workers s) as l. induction l as [|[i p] l IH]; cbn; [done|].
  destruct p; cbn; [by exists 0, i, Running|by exists 0, i, Sending|].
  intros (w & i' & p' & Hw & Hp)%IH. by exists (S w), i', p'.
Qed.

(** The work left: an item that runs has two steps to go, one that sends has one. *)
Definition phase_work (p : worker_phase) : nat := match p with Running => 2 | Sending => 1 | Finished => 0 end.
Definition work (l : list (item * worker_phase)) : nat := foldr (fun x n => phase_work x.2 + n) 0 l.

Lemma work_insert l w i p q : l !! w = Some (i, p) -> phase_work q < phase_work p -> work (<[w := (i, q)]> l) < work l.
Proof.
  revert w. induction l as [|x l IH]; intros [|w] Hw Hlt; [done..| |].
  - cbn in Hw. injection Hw as ->. change (phase_work q + work l < phase_work p + work l). lia.
  - specialize (IH w Hw Hlt). change (phase_work x.2 + work (<[w := (i, q)]> l) < phase_work x.2 + work l). lia.
Qed.

Lemma gather_can_finish ok s : g_stopped s = false -> exists s', rtc (gather_step ok) s s' /\ all_finished s' = true.
Proof.
  remember (work (g_workers s)) as n eqn:Hn. revert s Hn.
  induction (lt_wf n) as [n _ IH]. intros s -> Hst.
  destruct (all_finished s) eqn:Hf; [by exists s|].
  destruct (unfinished s Hf) as (w & i & p & Hw & Hp).
  destruct p; [| |done].
  - destruct (IH (work (<[w := (i, if ok i then Sending else Finished)]> (g_workers s)))
      ltac:(eapply work_insert; [done|destruct (ok i); cbn; lia])
      (mkGather (<[w := (i, if ok i then Sending else Finished)]> (g_workers s)) (g_expired s) (g_stopped s) (g_result s))
      eq_refl Hst) as (s' & Hr & Hd).
    exists s'. split; [|done]. eapply rtc_l; [|done]. eapply gather_acted; [done|]. cbn. by rewrite Hw.
  - destruct (IH (work (<[w := (i, Finished)]> (g_workers s)))
      ltac:(eapply work_insert; [done|cbn; lia])
      (mkGather (<[w := (i, Finished)]> (g_workers s)) (g_expired s) false (gathered i (g_result s)))
      eq_refl eq_refl) as (s' & Hr & Hd).
    exists s'. split; [|done]. eapply rtc_l; [|done]. eapply (gather_other _ _ _ (EvHandOn w)); [done|]. cbn. by rewrite Hw, Hst.
Qed.

(** The loader waits for every goroutine of the actions. It can still return
    exactly when it is not the case that the gatherer has stopped, because the
    time of the actions was over, while a goroutine whose actions passed (or
    will pass) has not handed its outcome on: that goroutine then waits for a
    receiver that is gone, and the loader for it, forever. *)
Theorem actions_can_return (ok : item -> bool) (s : gather_state) :
  (exists s', rtc (gather_step ok) s s' /\ all_finished s' = true)
  <-> ~ (g_stopped s = true
         /\ exists w i p, g_workers s !! w = Some (i, p) /\ (p = Sending \/ p = Running /\ ok i = true)).
Proof.
  split.
  - intros (s' & Hr & Hf) (Hst & w & i & p & Hw & Hp).
    assert (Hinv : forall s1 s2, rtc (gather_step ok) s1 s2 -> g_stopped s1 = true ->
       (exists p, g_workers s1 !! w = Some (i, p) /\ (p = Sending \/ p = Running /\ ok i = true)) ->
       exists p, g_workers s2 !! w = Some (i, p) /\ (p = Sending \/ p = Running /\ ok i = true)).
    { intros s1 s2 Hr'. induction Hr' as [|s1 s2 s3 Hs _ IH]; [done|]. intros Hst1 (p1 & Hw1 & Hp1). apply IH.
      - by apply gather_step_inv in Hs as [(w' & i' & _ & ->)|[(w' & i' & _ & ? & _)|(_ & _ & Hk & _)]]; [|congruence|apply Hk].
      - apply gather_step_inv in Hs as [(w' & i' & Hw' & ->)|[(w' & i' & _ & ? & _)|(Hsame & _)]]; [|congruence|].
        + cbn. destruct (decide (w' = w)) as [->|]; [|rewrite list_lookup_insert_ne by done; eauto].
          rewrite list_lookup_insert_eq by by eapply lookup_lt_Some. rewrite Hw' in Hw1. injection Hw1 as <- <-.
          destruct Hp1 as [|[_ ->]]; [done|]. eauto.
        + rewrite Hsame. eauto. }
    destruct (Hinv s s' Hr Hst) as (p' & Hw' & Hp'); [eauto|].
    rewrite all_finished_spec in Hf. specialize (Hf w i p' Hw') as ->. by destruct Hp' as [|[]].
  - intros Hno. destruct (g_stopped s) eqn:Hst; [|by apply gather_can_finish].
    (* every worker that runs will fail *)
    assert (Hall : forall w i p, g_workers s !! w = Some (i, p) -> p = Finished \/ p = Running /\ ok i = false).
    { intros w i p Hw. destruct p; [right|exfalso|by left].
      - split; [done|]. apply not_true_iff_false. intros Hok. apply Hno. split; [done|]. by exists w, i, Running; eauto.
      - apply Hno. split; [done|]. exists w, i, Sending. eauto. }
    clear Hno. remember (work (g_workers s)) as n eqn:Hn. revert s Hn Hst Hall.
    induction (lt_wf n) as [n _ IH]. intros s -> Hst Hall.
    destruct (all_finished s) eqn:Hf; [by exists s|].
    destruct (unfinished s Hf) as (w & i & p & Hw & Hp). destruct (Hall w i p Hw) as [->|[-> Hok]]; [done|].
    destruct (IH (work (<[w := (i, Finished)]> (g_workers s)))
      ltac:(eapply work_insert; [done|cbn; lia])
      (mkGather (<[w := (i, Finished)]> (g_workers s)) (g_expired s) (g_stopped s) (g_result s)) eq_refl Hst) as (s' & Hr & Hd).
    { cbn. intros w' i' p' Hw'. destruct (decide (w = w')) as [->|].
      - rewrite list_lookup_insert_eq in Hw' by by eapply lookup_lt_Some. injection Hw' as <- <-. by left.
      - rewrite list_lookup_insert_ne in Hw' by done. eauto. }
    exists s'. split; [|done]. eapply rtc_l; [|done]. eapply gather_acted; [done|]. cbn. by rewrite Hw, Hok.
Qed.
End gather.

Section refine.
Context `{MapOrder}.

Definition item_passes (acts : Actions) (i : item) : bool :=
  match i with Addition _ tc => on_add acts (tc_Name tc) | Deletion n => on_delete acts n end.

(** The items whose outcome was handed on. *)
Definition handed_on (ok : item -> bool) (l : list (item * worker_phase)) : list item :=
  (List.filter (fun x => match x.2 with Finished => ok x.1 | _ => false end) l).*1.

Lemma handed_on_insert (l : list (item * worker_phase)) w i p q :
  l !! w = Some (i, p) ->
  exists a b, l = a ++ (i, p) :: b /\ <[w := (i, q)]> l = a ++ (i, q) :: b.
Proof.
  intros Hw. exists (take w l), (drop (S w) l). split; [by rewrite take_drop_middle|].
  apply insert_take_drop. by eapply lookup_lt_Some.
Qed.

Definition gather_inv (ok : item -> bool) (its : list item) (s : gather_state) : Prop :=
  (g_workers s).*1 = its
  /\ (forall i, (i, Sending) ∈ g_workers s -> ok i = true)
  /\ exists gs, g_result s = foldl (fun r i => gathered i r) (mkOp ∅ []) gs /\ gs ≡ₚ handed_on ok (g_workers s).

Lemma gather_inv_step ok its s s' : gather_inv ok its s -> gather_step ok s s' -> gather_inv ok its s'.
Proof.
  intros (Hits & Hok & gs & Hres & Hgs) Hs.
  apply gather_step_inv in Hs as [(w & i & Hw & ->)|[(w & i & Hw & _ & ->)|(Hsame & Hr & _)]].
  - destruct (handed_on_insert _ w i Running (if ok i then Sending else Finished) Hw) as (a & b & Hl & Hl').
    unfold gather_inv. cbn. rewrite Hl'. rewrite Hl in Hits, Hok, Hgs. rewrite fmap_app in *. cbn in *. split_and!; [done| |].
    + intros j [Hj|[Hj|Hj]%elem_of_cons]%elem_of_app; [apply Hok; set_solver| |apply Hok; set_solver].
      by destruct (ok i) eqn:E; injection Hj as ->.
    + exists gs. split; [done|]. rewrite Hgs. unfold handed_on. rewrite !List.filter_app. cbn. by destruct (ok i) eqn:E; cbn; rewrite ?E.
  - destruct (handed_on_insert _ w i Sending Finished Hw) as (a & b & Hl & Hl').
    unfold gather_inv. cbn. rewrite Hl'. rewrite Hl in Hits, Hok, Hgs. rewrite fmap_app in *. cbn in *. split_and!; [done| |].
    + intros j [Hj|[Hj|Hj]%elem_of_cons]%elem_of_app; [apply Hok; set_solver|done|apply Hok; set_solver].
    + exists (gs ++ [i]). split; [by rewrite foldl_app, <-Hres|]. rewrite Hgs. unfold handed_on.
      rewrite !List.filter_app, !fmap_app. cbn. rewrite (Hok i) by set_solver. cbn.
      rewrite <-app_assoc. apply Permutation_app_head. symmetry. apply Permutation_cons_append.
  - unfold gather_inv. by rewrite Hsame, Hr; eauto.
Qed.

Lemma gathered_results (M : configs) gs r :
  op_Add r ⊆ M -> (forall n tc, Addition n tc ∈ gs -> M !! n = Some tc) ->
  let r' := foldl (fun r i => gathered i r) r gs in
  op_Add r' ⊆ M
  /\ (forall n, n ∈ dom (op_Add r') <-> n ∈ dom (op_Add r) \/ exists tc, Addition n tc ∈ gs)
  /\ op_Del r' = op_Del r ++ omap (fun i => match i with Deletion n => Some n | _ => None end) gs.
Proof.
  revert r. induction gs as [|i gs IH]; intros r Hr HM; cbn.
  - split_and!; [done| |by rewrite app_nil_r]. intros n. split; [by left|]. by intros [?|(? & ?%not_elem_of_nil)].
  - destruct (IH (gathered i r)) as (H1 & H2 & H3).
    + destruct i as [n tc|n]; [|done]. cbn. apply insert_subseteq_l; [apply HM; left|done].
    + intros n tc Hin. apply HM. by right.
    + split_and!; [done| |rewrite H3; destruct i; cbn; [done|by rewrite <-app_assoc]].
      intros n. rewrite H2. setoid_rewrite elem_of_cons. destruct i as [k tc|k]; cbn; [rewrite dom_insert, elem_of_union, elem_of_singleton|]; naive_solver.
Qed.

Lemma filter_List {A} (f : A -> bool) (l : list A) : filter (fun x => f x = true) l = List.filter f l.
Proof. induction l as [|x l IH]; [done|]. rewrite filter_cons. cbn. by destruct (f x); cbn; rewrite IH. Qed.

Lemma filter_additions acts (l : list (string * TargetConfig)) :
  omap (fun i => match i with Deletion n => Some n | _ => None end)
    (List.filter (item_passes acts) ((fun kv => Addition kv.1 kv.2) <$> l)) = [].
Proof. induction l as [|kv l IH]; cbn; [done|]. by destruct (on_add acts (tc_Name kv.2)). Qed.

(** When every goroutine of the actions has ended, in whatever order they ran
    and handed on their outcomes, the gatherer holds exactly the additions and
    the deletions whose actions passed, even if the time of the actions was
    over in between. *)
Theorem actions_gathered (acts : Actions) (op : TargetOperation) (s : gather_state) :
  rtc (gather_step (item_passes acts)) (start_actions op) s -> all_finished s = true ->
  op_Add (g_result s) = op_Add (passed acts op) /\ op_Del (g_result s) ≡ₚ op_Del (passed acts op).
Proof.
  intros Hr Hf. assert (Hinv : gather_inv (item_passes acts) (items op) s).
  { assert (H0 : gather_inv (item_passes acts) (items op) (start_actions op)).
    { unfold gather_inv, start_actions. cbn. split_and!.
      - rewrite <-list_fmap_compose. apply list_fmap_id.
      - by intros i (? & [= <- <-] & _)%list_elem_of_fmap.
      - exists []. split; [done|]. unfold handed_on. induction (items op); by cbn. }
    revert H0. induction Hr; eauto using gather_inv_step. }
  destruct Hinv as (Hits & _ & gs & Hres & Hgs). rewrite all_finished_spec in Hf.
  assert (Hh : gs ≡ₚ List.filter (item_passes acts) (items op)).
  { rewrite Hgs, <-Hits. unfold handed_on. assert (Hall : Forall (fun x => x.2 = Finished) (g_workers s)).
    { apply Forall_lookup. intros w [i p] Hw. exact (Hf w i p Hw). }
    apply Permutation_refl'. revert Hall. generalize (g_workers s) as l. induction l as [|[i p] l IH]; cbn; [done|].
    intros [Hp Hl]%Forall_cons. cbn in Hp. subst p. destruct (item_passes acts i); cbn; [f_equal|]; auto. }
  assert (Hadd : forall n tc, Addition n tc ∈ gs <-> op_Add op !! n = Some tc /\ on_add acts (tc_Name tc) = true).
  { intros n tc. rewrite Hh, list_elem_of_In, filter_In, <-list_elem_of_In. unfold items.
    rewrite elem_of_app, !list_elem_of_fmap. cbn. rewrite <-elem_of_range. split.
    - intros [[([k v] & [= -> ->] & Hin)|(? & ? & _)] Hp]; done.
    - intros [Hin Hp]. split; [|done]. left. by exists (n, tc). }
  destruct (gathered_results (op_Add op) gs (mkOp ∅ [])) as (H1 & H2 & H3); [apply map_empty_subseteq|by intros n tc [? _]%Hadd|].
  rewrite <-Hres in H1, H2, H3. split.
  - apply map_eq. intros n. apply option_eq. intros tc. unfold passed. cbn. rewrite map_lookup_filter_Some. cbn. rewrite <-Hadd. split.
    + intros Hn. assert (Hd : n ∈ dom (op_Add (g_result s))) by by eapply elem_of_dom_2.
      apply H2 in Hd as [Hd|(tc' & Hd)]; [by cbn in Hd; rewrite dom_empty in Hd; apply not_elem_of_empty in Hd|].
      pose proof (proj1 (Hadd _ _) Hd) as [Hd' _]. rewrite (lookup_weaken _ _ _ _ Hn H1) in Hd'. by injection Hd' as ->.
    + intros Hin. assert (Hd : n ∈ dom (op_Add (g_result s))) by (apply H2; right; by exists tc).
      apply elem_of_dom in Hd as [tc' Hd]. rewrite Hd. f_equal. apply Hadd in Hin as [Hin _].
      pose proof (lookup_weaken _ _ _ _ Hd H1). congruence.
  - rewrite H3. change (op_Del (passed acts op)) with (filter (fun n => on_delete acts n = true) (op_Del op)).
    rewrite filter_List, Hh. unfold items. rewrite List.filter_app, omap_app, filter_additions. apply Permutation_refl'.
    induction (op_Del op) as [|n l IH]; [done|]. cbn. destruct (on_delete acts n); cbn; [by f_equal|done].
Qed.
End refine.

(** ** Services of consul *)

Section consul.
Context `{MapOrder}.

Lemma pass_restarts pre sd post sv node tc :
  Forall (fun sd => String.eqb (sv_Service sv) (sd_Name sd) = false) pre ->
  String.eqb (sv_Service sv) (sd_Name sd) = true -> required_tags sd sv = false ->
  services_pass (pre ++ sd :: post) sv node tc = Again tc.
Proof.
  intros Hpre Hn Ht. induction Hpre as [|x pre Hx _ IH]; cbn; [by rewrite Hn, Ht|]. by rewrite Hx.
Qed.

Lemma pass_returns sds sv node tc :
  Forall (fun sd => String.eqb (sv_Service sv) (sd_Name sd) = true -> required_tags sd sv = true) sds ->
  exists r, services_pass sds sv node tc = Return r.
Proof.
  intros Hall. revert tc. induction Hall as [|sd sds Hsd _ IH]; intros tc; cbn; [by eexists|].
  destruct (String.eqb _ _) eqn:E; cbn; [|apply IH]. rewrite (Hsd eq_refl). cbn.
  destruct (match sd_Config sd with Some d => _ | None => _ end); [|by eexists].
  destruct (service_address sv node); [|by eexists].
  destruct (match sd_nameTemplate sd with Some t => _ | None => _ end); [by eexists|apply IH].
Qed.

(** The conversion of a consul entry. It returns, after one pass over the
    service definitions, when every definition with the entry's service name
    has its tags among the entry's. When the first such definition requires a
    tag that the entry does not have, the [goto] starts the same pass again and
    the conversion never returns, whatever definitions follow. *)
Theorem consul_entry_terminates (sds : list serviceDef) (sv : AgentService) (node : option string) :
  (Forall (fun sd => String.eqb (sv_Service sv) (sd_Name sd) = true -> required_tags sd sv = true) sds ->
     exists r, serviceEntryToTargetConfig 1 sds (mkEntry (Some sv) node) = Some r)
  /\ (forall pre sd post, sds = pre ++ sd :: post ->
        Forall (fun sd => String.eqb (sv_Service sv) (sd_Name sd) = false) pre ->
        String.eqb (sv_Service sv) (sd_Name sd) = true -> required_tags sd sv = false ->
        forall fuel, serviceEntryToTargetConfig fuel sds (mkEntry (Some sv) node) = None).
Proof.
  split.
  - intros Hall. destruct (pass_returns sds sv node zeroTarget Hall) as [r Hr]. exists r. cbn. by rewrite Hr.
  - intros pre sd post -> Hpre Hn Ht fuel. cbn.
    induction fuel as [|fuel IH]; cbn; [done|]. by rewrite (pass_restarts pre sd post sv node zeroTarget Hpre Hn Ht).
Qed.

Lemma consul_update_none fn last srv mem (tcs : configs) :
  default ∅ (last !! srv) = mem -> tcs <> ∅ -> named tcs ->
  (forall n t, tcs !! n = Some t -> match mem !! n with Some c => DeepEqual c t = false | None => True end) ->
  dom mem ⊆ dom tcs ->
  exists op last', consul_updateTargets fn None last srv tcs = (last', Some op)
    /\ op_Add op = tcs /\ (forall n, n ∈ op_Del op <-> n ∈ dom mem) /\ NoDup (op_Del op) /\ last' !! srv = Some tcs.
Proof.
  intros Hmem Hne Hn Hdiff Hdom. exists (Diff mem tcs).
  assert (Ha : op_Add (Diff mem tcs) = tcs).
  { apply map_eq. intros n. rewrite Diff_Add. destruct (tcs !! n) as [t|] eqn:E; [|done].
    specialize (Hdiff n t E). destruct (mem !! n) as [c|]; [by rewrite Hdiff|done]. }
  assert (Hd : forall n, n ∈ op_Del (Diff mem tcs) <-> n ∈ dom mem).
  { intros n. rewrite Diff_Del, elem_of_dom. split; [intros (c & ? & _); eauto|]. intros [c Hc]. exists c. split; [done|].
    assert (is_Some (tcs !! n)) as [t Ht] by by apply elem_of_dom, Hdom, elem_of_dom.
    specialize (Hdiff n t Ht). by rewrite Ht; rewrite Hc in Hdiff. }
  unfold consul_updateTargets. rewrite Hmem. cbn.
  assert (He : empty_op (Diff mem tcs) = false).
  { apply not_true_iff_false. intros [He _]%empty_op_spec. congruence. }
  rewrite He. eexists. split_and!; [done|done|done|apply Diff_Del_NoDup|].
  rewrite lookup_insert_eq. f_equal. rewrite remember_named by by rewrite Ha. rewrite Ha. apply map_eq. intros n.
  rewrite lookup_union, forget_deleted_lookup. destruct (tcs !! n) as [t|] eqn:E; [by case_bool_decide; [|destruct (mem !! n)]|].
  case_bool_decide as Hin; [done|]. rewrite Hd in Hin. apply not_elem_of_dom in Hin as ->. done.
Qed.

(** Without actions the consul loader sends configurations as it made them, and
    the objects it sends are those it remembers. When the receiver sets the
    defaults in them ([touch]), the next reading of the same services differs
    from every one of them: all the targets of the service are deleted and
    added again. *)
Theorem consul_reports_again fn touch last srv (tcs : configs) :
  last !! srv = None -> tcs <> ∅ -> named tcs ->
  (forall n t, tcs !! n = Some t -> tc_Name (touch t) = tc_Name t /\ DeepEqual (touch t) t = false) ->
  exists last1 op1 last2 op2,
    consul_updateTargets fn None last srv tcs = (last1, Some op1) /\ op_Add op1 = tcs /\ op_Del op1 = []
    /\ consul_updateTargets fn None (alter (receiver_touches touch op1) srv last1) srv tcs = (last2, Some op2)
    /\ op_Add op2 = tcs /\ op_Del op2 ≡ₚ elements (dom tcs).
Proof.
  intros Hl Hne Hn Ht.
  destruct (consul_update_none fn last srv ∅ tcs) as (op1 & last1 & Hu1 & Ha1 & Hd1 & _ & Hl1);
    [by rewrite Hl|done|done|by intros; rewrite lookup_empty|by rewrite dom_empty_L|].
  exists last1, op1.
  assert (Hmem : receiver_touches touch op1 tcs = touch <$> tcs).
  { unfold receiver_touches. rewrite Ha1.
    rewrite (range_values _ (fun m (kv : string * TargetConfig) => <[kv.1 := touch kv.2]> m)).
    2:{ intros a n t Hnt. cbn. by rewrite (Hn n t Hnt). }
    assert (Hf : forall (l : list (string * TargetConfig)) (m : configs),
      foldl (fun m kv => <[kv.1 := touch kv.2]> m) m l = foldl (fun m kv => <[kv.1 := kv.2]> m) m (prod_map id touch <$> l)).
    { induction l as [|kv l IH]; intros m; cbn; [done|]. apply IH. }
    rewrite Hf, foldl_insert_list_to_map.
    2:{ assert (Hk : (prod_map id touch <$> range tcs).*1 = (range tcs).*1).
        { induction (range tcs) as [|kv l IH]; cbn; [done|by f_equal]. }
        rewrite Hk. apply NoDup_range_fst. }
    rewrite list_to_map_fmap, range_list_to_map. apply map_eq. intros n. rewrite lookup_union, lookup_fmap.
    by destruct (tcs !! n). }
  destruct (consul_update_none fn (alter (receiver_touches touch op1) srv last1) srv (touch <$> tcs) tcs)
    as (op2 & last2 & Hu2 & Ha2 & Hd2 & Hnd & _); [|done|done| |by rewrite dom_fmap_L|].
  - by rewrite lookup_alter_eq, Hl1; cbn.
  - intros n t Hnt. rewrite lookup_fmap, Hnt. apply (Ht n t Hnt).
  - exists last2, op2. split; [exact Hu1|]. split; [exact Ha1|]. split; [|split; [exact Hu2|split; [exact Ha2|]]].
    + apply elem_of_nil_inv. intros n Hin. apply Hd1 in Hin. by rewrite dom_empty_L in Hin; apply not_elem_of_empty in Hin.
    + apply NoDup_Permutation; [done|apply NoDup_elements|]. intros n. by rewrite Hd2, elem_of_elements, dom_fmap_L.
Qed.
End consul.

(** *** Concrete services and actions *)

Definition ex_service : AgentService := mkService "router" "r1" "10.0.0.1" 57400 ["spine"].
Definition ex_def (tags : list string) : serviceDef := mkServiceDef "router" tags None None ∅.

Example consul_entry_converted :
  serviceEntryToTargetConfig 1 [ex_def ["spine"]; ex_def ["leaf"]] (mkEntry (Some ex_service) None)
  = Some (Ok (set_source "r1" "10.0.0.1:57400" None zeroTarget)).
Proof. by vm_compute. Qed.

Lemma consul_entry_terminates_witness :
  serviceEntryToTargetConfig 1000 [ex_def ["leaf"]; ex_def ["spine"]] (mkEntry (Some ex_service) None) = None.
Proof.
  exact (proj2 (consul_entry_terminates [ex_def ["leaf"]; ex_def ["spine"]] ex_service None)
    [] (ex_def ["leaf"]) [ex_def ["spine"]] eq_refl (List.Forall_nil _) eq_refl eq_refl 1000).
Defined.

Definition ex_services : configs := {["r1" := set_source "r1" "10.0.0.1:57400" None zeroTarget]}.
Lemma consul_reports_again_witness :
  exists last1 op1 last2 op2,
    consul_updateTargets (fun t => (t, true)) None ∅ "router" ex_services = (last1, Some op1)
    /\ op_Add op1 = ex_services /\ op_Del op1 = []
    /\ consul_updateTargets (fun t => (t, true)) None (alter (receiver_touches (set_timers 100 10) op1) "router" last1)
         "router" ex_services = (last2, Some op2)
    /\ op_Add op2 = ex_services /\ op_Del op2 ≡ₚ elements (dom ex_services).
Proof.
  apply (consul_reports_again (fun t => (t, true)) (set_timers 100 10) ∅ "router" ex_services).
  - done.
  - by vm_compute.
  - unfold named. by apply (bool_decide_unpack _).
  - assert (Hall : map_Forall (fun _ t => tc_Name (set_timers 100 10 t) = tc_Name t /\ DeepEqual (set_timers 100 10 t) t = false) ex_services)
      by by apply (bool_decide_unpack _).
    exact Hall.
Defined.

(** Both actions of an operation pass, one before the time is over, one after:
    the loader never returns. *)
Definition ex_op : TargetOperation := mkOp ∅ ["a"; "b"].
Definition run_events (s : gather_state) (es : list gather_event) : option gather_state :=
  foldl (fun s e => s ← s; gather_exec s e) (Some s) es.
Example late_action_hangs :
  exists s, run_events (start_actions ex_op) [EvActed 0 true; EvHandOn 0; EvExpire; EvStop; EvActed 1 true] = Some s
            /\ ~ exists s', rtc (gather_step (fun _ => true)) s s' /\ all_finished s' = true.
Proof.
  eexists. split; [by vm_compute|]. intros Hr. apply actions_can_return in Hr. apply Hr.
  split; [done|]. exists 1, (Deletion "b"), Sending. split; [done|by left].
Qed.

Definition ex_acts : Actions := mkActions (fun _ => true) (fun n => String.eqb n "a").
Lemma actions_gathered_witness :
  exists s, rtc (gather_step (item_passes ex_acts)) (start_actions ex_op) s /\ all_finished s = true /\ op_Del (g_result s) ≡ₚ ["a"].
Proof.
  assert (Hr : rtc (gather_step (item_passes ex_acts)) (start_actions ex_op)
                 (mkGather [(Deletion "a", Finished); (Deletion "b", Finished)] false false (mkOp ∅ ["a"]))).
  { eapply rtc_l; [by apply (gather_acted _ _ _ 1 (Deletion "b"))|].
    eapply rtc_l; [by apply (gather_acted _ _ _ 0 (Deletion "a"))|].
    eapply rtc_l; [by apply (gather_other _ _ _ (EvHandOn 0))|]. apply rtc_refl. }
  exists (mkGather [(Deletion "a", Finished); (Deletion "b", Finished)] false false (mkOp ∅ ["a"])).
  split; [exact Hr|]. split; [done|].
  exact (proj2 (actions_gathered ex_acts ex_op _ Hr eq_refl)).
Defined.
