(* ===== verification/Retry.v ===== *)
(** * The retry loops of a target, interleaved (pkg/collector/managers/targets/targets_manager.go)

    A target whose start failed is retried by a goroutine that probes the device
    without the target's lock and takes it to end or to start the target, while
    the event loop and the API restart, enable, disable and remove it under the
    lock. In a cluster the goroutine that keeps the target's lock in the locker
    stops the target when its lock is lost or its context cancelled, and the
    goroutine that watches the connection publishes the state it has read
    again, neither with the target's lock. This file follows one target through
    the interleavings of these threads: a start, which waits on the network
    with the lock held, begins and ends in two steps, and so do the turns of a
    retry loop, the stop of a keeper and the refresh of a watcher. *)

From S2P Require Import Prelude Text Targets.

(** ** States *)

(** Where a retry loop is: waiting for its timer, decided that it is not wanted
    ([endRetry]), probing the device, probed and about to lock, or starting the
    target with the lock. *)
Inductive loop_pc := LWaiting | LEnding | LProbing | LProbed | LStarting.
(** Its context may have been cancelled. *)
Record loop := mkLoop { l_pc : loop_pc; l_cancelled : bool }.

(** Who has the target's lock: the event loop or a call of the API in the
    middle of a start, or a retry loop. *)
Inductive holder_of_lock := HMain | HApi | HLoop (n : nat).

(** Where the keeper of a start is: keeping the lock, or in the stop that
    follows its end, before the client is closed, before Stopped is published,
    and, after an error, before Failed is. *)
Inductive keeper_pc := KKeeping | KClosing (err : bool) | KClosed (err : bool) | KStopped.
Record keeper := mkKeeper { k_pc : keeper_pc; k_cancelled : bool }.

(** What runs without the lock: the keepers, and the one whose context the
    client of the target has; the states that watchers have read and not
    written yet; the calls of the API that looked the target up and do not have
    the lock yet; and whether the target is assigned to this member. *)
Record env := mkEnv {
  e_keepers : gmap nat keeper; e_knext : nat; e_ctx : option nat;
  e_reads : list target_state; e_calls : list bool; e_assigned : bool
}.

(** [rs_state]: the published state, none once removed. [rs_up]: the target is
    connected and its subscriptions started. [rs_retry]: retryCancel, by the
    number of its loop. *)
Record rstate := mkR {
  rs_state : option target_state; rs_present : bool; rs_up : bool;
  rs_lock : option holder_of_lock; rs_retry : option nat; rs_loops : gmap nat loop; rs_next : nat; rs_env : env
}.

Definition set_state (o : option target_state) (up : bool) (s : rstate) : rstate :=
  mkR o (rs_present s) up (rs_lock s) (rs_retry s) (rs_loops s) (rs_next s) (rs_env s).
Definition set_lock (h : option holder_of_lock) (s : rstate) : rstate :=
  mkR (rs_state s) (rs_present s) (rs_up s) h (rs_retry s) (rs_loops s) (rs_next s) (rs_env s).
Definition set_loops (r : option nat) (l : gmap nat loop) (s : rstate) : rstate :=
  mkR (rs_state s) (rs_present s) (rs_up s) (rs_lock s) r l (rs_next s) (rs_env s).
Definition set_env (e : env) (s : rstate) : rstate :=
  mkR (rs_state s) (rs_present s) (rs_up s) (rs_lock s) (rs_retry s) (rs_loops s) (rs_next s) e.
Definition set_pc (n : nat) (pc : loop_pc) (s : rstate) : rstate :=
  set_loops (rs_retry s) (alter (fun l => mkLoop pc (l_cancelled l)) n (rs_loops s)) s.
(** The loop returns; [clear]: it sets retryCancel to nil. *)
Definition exit_loop (n : nat) (clear : bool) (s : rstate) : rstate :=
  set_loops (if clear then None else rs_retry s) (delete n (rs_loops s)) s.

Definition with_keepers (ks : gmap nat keeper) (ctx : option nat) (e : env) : env :=
  mkEnv ks (e_knext e) ctx (e_reads e) (e_calls e) (e_assigned e).
Definition set_keeper (k : nat) (pc : keeper_pc) (s : rstate) : rstate :=
  set_env (with_keepers (alter (fun x => mkKeeper pc (k_cancelled x)) k (e_keepers (rs_env s))) (e_ctx (rs_env s)) (rs_env s)) s.
Definition exit_keeper (k : nat) (s : rstate) : rstate :=
  set_env (with_keepers (delete k (e_keepers (rs_env s))) (e_ctx (rs_env s)) (rs_env s)) s.

(** ** Operations *)

(** [scheduleRetry]: a loop, unless retryCancel is set. *)
Definition schedule_retry (s : rstate) : rstate :=
  match rs_retry s with
  | Some _ => s
  | None => mkR (rs_state s) (rs_present s) (rs_up s) (rs_lock s) (Some (rs_next s))
              (<[rs_next s := mkLoop LWaiting false]> (rs_loops s)) (S (rs_next s)) (rs_env s)
  end.

(** [cancelRetry] *)
Definition cancel_retry (s : rstate) : rstate :=
  match rs_retry s with
  | None => s
  | Some n => set_loops None (alter (fun l => mkLoop (l_pc l) true) n (rs_loops s)) s
  end.

(** [closeClient]: the context of the last start is cancelled, and its keeper
    with it; the target is not connected. *)
Definition close_client (s : rstate) : rstate :=
  let e := rs_env s in
  let ks := match e_ctx e with Some k => alter (fun x => mkKeeper (k_pc x) true) k (e_keepers e) | None => e_keepers e end in
  set_state (rs_state s) false (set_env (with_keepers ks (e_ctx e) e) s).

(** A start that begins, with the lock taken: the client of the target is
    closed or replaced. *)
Definition begin_start (h : holder_of_lock) (s : rstate) : rstate :=
  set_lock (Some h) (set_state (Some StateStarting) false (close_client s)).

(** How a start ends: connected; failed before the lock of the locker was
    taken, or after it, at the capabilities; or the lock was not got, and the
    target stopped. A start that got the lock leaves a keeper, whose context
    may be cancelled already. *)
Inductive start_result := Started | StartFailed | LockFailed.
Definition add_keeper (kept : option bool) (s : rstate) : rstate :=
  let e := rs_env s in
  match kept with
  | None => set_env (with_keepers (e_keepers e) None e) s
  | Some c => set_env (mkEnv (<[e_knext e := mkKeeper KKeeping c]> (e_keepers e)) (S (e_knext e)) (Some (e_knext e))
                        (e_reads e) (e_calls e) (e_assigned e)) s
  end.

(** The start of the event loop or of the API ends. The event loop publishes
    Failed after any error, the API leaves a target stopped for its lock
    Stopped; both schedule a retry. *)
Definition main_started (h : holder_of_lock) (res : start_result) (kept : option bool) (s : rstate) : rstate :=
  let s := add_keeper kept s in
  set_lock None
    match res, h with
    | Started, _ => set_state (Some StateRunning) true s
    | LockFailed, HApi => schedule_retry (set_state (Some StateStopped) false s)
    | _, _ => schedule_retry (set_state (Some StateFailed) false s)
    end.

(** The start of a retry loop ends. *)
Definition loop_started (n : nat) (res : start_result) (kept : option bool) (s : rstate) : rstate :=
  let s := add_keeper kept s in
  set_lock None
    match res with
    | Started => exit_loop n true (set_state (Some StateRunning) true s)
    | _ => set_pc n LWaiting (set_state (Some StateFailed) false s)
    end.

(** [SetIntendedState] before its start: nothing for a target that runs or
    starts; a pending retry of a Failed one is cancelled. *)
Definition enable (s : rstate) : rstate :=
  match rs_state s with
  | Some StateRunning | Some StateStarting => s
  | Some StateFailed => begin_start HApi (cancel_retry s)
  | _ => begin_start HApi s
  end.
Definition disable (s : rstate) : rstate :=
  let s := cancel_retry s in
  match rs_state s with
  | Some StateStopped | Some StateStopping => s
  | _ => set_state (Some StateStopped) false (close_client s)
  end.
Definition call (enables : bool) (s : rstate) : rstate := if enables then enable s else disable s.
(** [remove] *)
Definition remove_target (s : rstate) : rstate :=
  let s := set_state None false (close_client (cancel_retry s)) in
  mkR (rs_state s) false (rs_up s) (rs_lock s) (rs_retry s) (rs_loops s) (rs_next s) (rs_env s).

(** The timer of a loop fires: it returns when it is cancelled; [retryWanted],
    which takes no lock, decides. *)
Definition retry_wanted (s : rstate) : bool :=
  rs_present s && e_assigned (rs_env s) && bool_decide (rs_state s = Some StateFailed).
Definition timer (n : nat) (l : loop) (s : rstate) : rstate :=
  if l_cancelled l then exit_loop n false s
  else set_pc n (if retry_wanted s then LProbing else LEnding) s.

(** [endRetry], with the lock. *)
Definition end_retry (n : nat) (l : loop) (s : rstate) : rstate := exit_loop n (negb (l_cancelled l)) s.

(** The probe answers. An error is published at once, without the lock. *)
Definition probed (n : nat) (l : loop) (ok : bool) (s : rstate) : rstate :=
  if ok then set_pc n LProbed s
  else if l_cancelled l then exit_loop n false s
  else set_pc n LWaiting (set_state (Some StateFailed) (rs_up s) s).

(** The loop takes the lock after its probe. *)
Definition lock_probed (n : nat) (l : loop) (s : rstate) : rstate :=
  if l_cancelled l then exit_loop n false s
  else if bool_decide (rs_state s = Some StateFailed) then begin_start (HLoop n) (set_pc n LStarting s)
  else exit_loop n true s.

(** *** The keeper of a lock

    It calls [stop] when the lock is lost ([err]) or its context cancelled:
    nothing for a Stopped target, else Stopping is published, the client of the
    moment closed and Stopped published; after an error Failed is, and no retry
    is scheduled. *)
Definition keeper_woken (k : nat) (err : bool) (s : rstate) : rstate :=
  if bool_decide (rs_state s = Some StateStopped) then if err then set_keeper k KStopped s else exit_keeper k s
  else set_keeper k (KClosing err) (set_state (Some StateStopping) (rs_up s) s).
Definition keeper_closes (k : nat) (err : bool) (s : rstate) : rstate := set_keeper k (KClosed err) (close_client s).
Definition keeper_stops (k : nat) (err : bool) (s : rstate) : rstate :=
  let s := set_state (Some StateStopped) (rs_up s) s in
  if err then set_keeper k KStopped s else exit_keeper k s.
Definition keeper_fails (k : nat) (s : rstate) : rstate := exit_keeper k (set_state (Some StateFailed) (rs_up s) s).

(** [watchConnState] publishes the state it has read again. *)
Definition with_reads (rs : list target_state) (e : env) : env :=
  mkEnv (e_keepers e) (e_knext e) (e_ctx e) rs (e_calls e) (e_assigned e).
Definition with_calls (cs : list bool) (e : env) : env :=
  mkEnv (e_keepers e) (e_knext e) (e_ctx e) (e_reads e) cs (e_assigned e).
Definition unassign (e : env) : env := mkEnv (e_keepers e) (e_knext e) (e_ctx e) (e_reads e) (e_calls e) false.

(** ** Steps

    By the thread that takes them. A change of the assignment to another member
    is followed by the removal of the target, in the event loop; the target of
    a later assignment is a new one. *)
Inductive thread := TMain | TApi | TLoop | TKeeper | TWatcher.

Inductive rstep : thread -> rstate -> rstate -> Prop :=
| r_restart s : rs_lock s = None -> rs_present s = true -> e_assigned (rs_env s) = true -> rstep TMain s (begin_start HMain s)
| r_started res kept s : rs_lock s = Some HMain -> rstep TMain s (main_started HMain res kept s)
| r_api_started res kept s : rs_lock s = Some HApi -> rstep TApi s (main_started HApi res kept s)
| r_lookup b s : rs_present s = true -> rstep TApi s (set_env (with_calls (b :: e_calls (rs_env s)) (rs_env s)) s)
| r_call b cs s : rs_lock s = None -> e_calls (rs_env s) ≡ₚ b :: cs -> rstep TApi s (call b (set_env (with_calls cs (rs_env s)) s))
| r_unassign s : rs_present s = true -> rs_lock s <> Some HMain -> rstep TMain s (set_env (unassign (rs_env s)) s)
| r_remove s : rs_lock s = None -> rs_present s = true -> rstep TMain s (remove_target s)
| r_timer n l s : rs_loops s !! n = Some l -> l_pc l = LWaiting -> rstep TLoop s (timer n l s)
| r_end n l s : rs_loops s !! n = Some l -> l_pc l = LEnding -> rs_lock s = None -> rstep TLoop s (end_retry n l s)
| r_probed n l ok s : rs_loops s !! n = Some l -> l_pc l = LProbing -> rstep TLoop s (probed n l ok s)
| r_locked n l s : rs_loops s !! n = Some l -> l_pc l = LProbed -> rs_lock s = None -> rstep TLoop s (lock_probed n l s)
| r_loop_started n res kept s : rs_lock s = Some (HLoop n) -> rstep TLoop s (loop_started n res kept s)
| r_lock_lost k x s : e_keepers (rs_env s) !! k = Some x -> k_pc x = KKeeping -> rstep TKeeper s (keeper_woken k true s)
| r_context_done k x s : e_keepers (rs_env s) !! k = Some x -> k_pc x = KKeeping -> k_cancelled x = true -> rstep TKeeper s (keeper_woken k false s)
| r_released k x s : e_keepers (rs_env s) !! k = Some x -> k_pc x = KKeeping -> rstep TKeeper s (exit_keeper k s)
| r_keeper_closes k x err s : e_keepers (rs_env s) !! k = Some x -> k_pc x = KClosing err -> rstep TKeeper s (keeper_closes k err s)
| r_keeper_stops k x err s : e_keepers (rs_env s) !! k = Some x -> k_pc x = KClosed err -> rstep TKeeper s (keeper_stops k err s)
| r_keeper_fails k x s : e_keepers (rs_env s) !! k = Some x -> k_pc x = KStopped -> rstep TKeeper s (keeper_fails k s)
| r_watch_read st s : rs_state s = Some st -> rstep TWatcher s (set_env (with_reads (st :: e_reads (rs_env s)) (rs_env s)) s)
| r_watch_write st rs s : e_reads (rs_env s) ≡ₚ st :: rs ->
    rstep TWatcher s (set_state (Some st) (rs_up s) (set_env (with_reads rs (rs_env s)) s)).

Definition any_step (s s' : rstate) : Prop := exists t, rstep t s s'.

(** A target in the middle of its first start. *)
Definition no_threads : env := mkEnv ∅ 0 None [] [] true.
Definition first_start : rstate := mkR (Some StateStarting) true false (Some HMain) None ∅ 0 no_threads.

(** ** One loop at a time *)




















(** ** Removed targets *)







(** ** A Failed target and its loop *)















(** A retry can be lost: a loop that wakes up while the event loop restarts
    the target sees it Starting, decides to end, and ends after the start
    failed, when the failed start has already found retryCancel set. The target
    is then Failed with no loop left, so no step leaves that state but one of
    the event loop or of the API. *)
Ltac go := eapply rtc_l; [eexists|].
Theorem retry_can_be_lost :
  exists s, rtc any_step first_start s /\ rs_state s = Some StateFailed /\ rs_present s = true /\ rs_lock s = None /\ rs_loops s = ∅ /\
    rs_env s = no_threads /\ forall t s', rstep t s s' -> t = TMain \/ t = TApi \/ t = TWatcher.
Proof.
  set (s := mkR (Some StateFailed) true false None None ∅ 1 no_threads). exists s. split_and!; [|done..|].
  - go; [by apply (r_started StartFailed None)|]. go; [by apply r_restart|].
    go; [by eapply (r_timer 0 (mkLoop LWaiting false))|]. go; [by apply (r_started StartFailed None)|].
    go; [by eapply (r_end 0 (mkLoop LEnding false))|]. apply rtc_refl.
  - intros t s' Hst. inversion Hst; subst; auto; cbn in *; try done;
      match goal with Hn : _ = Some _ |- _ => by rewrite lookup_empty in Hn end.
Qed.

(** A target whose lock is lost is stopped, and Failed without a loop. *)
Theorem lost_lock_no_loop :
  exists s, rtc any_step first_start s /\ rs_state s = Some StateFailed /\ rs_present s = true /\ e_assigned (rs_env s) = true /\
    rs_lock s = None /\ rs_loops s = ∅ /\ rs_up s = false.
Proof.
  eexists. split.
  { go; [by apply (r_started Started (Some false))|]. go; [by eapply (r_lock_lost 0 (mkKeeper KKeeping false))|].
    go; [by eapply (r_keeper_closes 0 (mkKeeper (KClosing true) false))|]. go; [by eapply (r_keeper_stops 0 (mkKeeper (KClosed true) true))|].
    go; [by eapply (r_keeper_fails 0 (mkKeeper KStopped true))|]. apply rtc_refl. }
  done.
Qed.

(** A watcher that read Failed before a retry connected the target publishes
    it again, and nothing corrects it: the target is connected, and its loop
    has ended. *)
Theorem failed_again_not_retried :
  exists s, rtc any_step first_start s /\ rs_state s = Some StateFailed /\ rs_up s = true /\ rs_lock s = None /\ rs_loops s = ∅.
Proof.
  eexists. split.
  { go; [by apply (r_started StartFailed None)|]. go; [by apply (r_watch_read StateFailed)|].
    go; [by eapply (r_timer 0 (mkLoop LWaiting false))|]. go; [by eapply (r_probed 0 (mkLoop LProbing false) true)|].
    go; [by eapply (r_locked 0 (mkLoop LProbed false))|]. go; [by apply (r_loop_started 0 Started None)|].
    go; [by apply (r_watch_write StateFailed [])|]. apply rtc_refl. }
  done.
Qed.

(** In a cluster a restart can be undone: it cancels the context of the old
    keeper, whose own stop, without the lock, closes the client of the new
    start. The target is Stopped with its new configuration, and no loop and
    no keeper is left to start it. *)
Theorem restart_undone_by_keeper :
  exists s s', rtc any_step first_start s /\ rs_state s = Some StateRunning /\ rtc any_step (begin_start HMain s) s' /\
    rs_state s' = Some StateStopped /\ rs_present s' = true /\ rs_up s' = false /\ rs_loops s' = ∅ /\ e_keepers (rs_env s') = ∅.
Proof.
  eexists _, _. split.
  { go; [by apply (r_started Started (Some false))|]. apply rtc_refl. }
  split; [done|]. split.
  { go; [by eapply (r_context_done 0 (mkKeeper KKeeping true))|]. go; [by apply (r_started Started (Some false))|].
    go; [by eapply (r_keeper_closes 0 (mkKeeper (KClosing false) true))|]. go; [by eapply (r_keeper_stops 0 (mkKeeper (KClosed false) true))|].
    go; [by eapply (r_context_done 1 (mkKeeper KKeeping true))|]. apply rtc_refl. }
  done.
Qed.

(** A call of the API that looked the target up before its removal starts the
    removed target. *)
Theorem removed_target_started :
  exists s, rtc any_step first_start s /\ rs_present s = false /\ rs_up s = true.
Proof.
  eexists. split.
  { go; [by apply (r_started Started None)|]. go; [by apply (r_lookup true)|]. go; [by apply r_remove|].
    go; [by apply (r_call true [])|]. go; [by apply (r_api_started Started None)|]. apply rtc_refl. }
  done.
Qed.

(** A probe of the old configuration that fails after a restart with the new
    one succeeded publishes a connected target as Failed, and the next turn of
    its loop disconnects it. *)
Theorem probe_fails_running_target :
  exists s s', rtc any_step first_start s /\ rs_state s = Some StateFailed /\ rs_up s = true /\ rs_lock s = None /\
    rtc any_step s s' /\ rs_state s' = Some StateStarting /\ rs_up s' = false.
Proof.
  eexists _, _. split.
  { go; [by apply (r_started StartFailed None)|]. go; [by eapply (r_timer 0 (mkLoop LWaiting false))|].
    go; [by apply r_restart|]. go; [by apply (r_started Started None)|].
    go; [by eapply (r_probed 0 (mkLoop LProbing false) false)|]. apply rtc_refl. }
  split_and!; [done..| | |].
  - go; [by eapply (r_timer 0 (mkLoop LWaiting false))|]. go; [by eapply (r_probed 0 (mkLoop LProbing false) true)|].
    go; [by eapply (r_locked 0 (mkLoop LProbed false))|]. apply rtc_refl.
  - done.
  - done.
Qed.

