(* ===== verification/Api.v ===== *)
(** * The configuration API of the collector (pkg/collector/api/server)

    The handlers that change the configuration store: applying a whole
    configuration, creating and deleting targets, subscriptions, outputs, inputs
    and processors, and replacing the subscriptions and outputs of a target. A
    handler answers with an HTTP status. Decoded bodies are arguments; the n-th
    call of the store in a request fails when [fails n] says so. *)

From stdpp Require Import strings.
From S2P Require Import Prelude GoStrings Utf8 Path GoVal Text Event Messages Outputs Target Subscribe Targets.

#[local] Open Scope Z_scope.

(** ** The store *)

Section api.
(** Tunnel target matches are stored as they are. *)
Context {TunnelTargetMatch : Type} `{MapOrder} (fails : nat -> bool).

Record cstore := mkStore {
  cs_targets : gmap string TargetConfig;
  cs_subscriptions : gmap string SubscriptionConfig;
  cs_outputs : gmap string config;
  cs_inputs : gmap string config;
  cs_processors : gmap string config;
  cs_matches : gmap string TunnelTargetMatch
}.

(** One kind of object: its entries and their replacement. *)
Record section (V : Type) := mkSection { sec_get : cstore -> gmap string V; sec_set : gmap string V -> cstore -> cstore }.
Arguments sec_get {V}.
Arguments sec_set {V}.
Definition targets := mkSection _ cs_targets (fun x s => mkStore x (cs_subscriptions s) (cs_outputs s) (cs_inputs s) (cs_processors s) (cs_matches s)).
Definition subscriptions := mkSection _ cs_subscriptions (fun x s => mkStore (cs_targets s) x (cs_outputs s) (cs_inputs s) (cs_processors s) (cs_matches s)).
Definition outputs := mkSection _ cs_outputs (fun x s => mkStore (cs_targets s) (cs_subscriptions s) x (cs_inputs s) (cs_processors s) (cs_matches s)).
Definition inputs := mkSection _ cs_inputs (fun x s => mkStore (cs_targets s) (cs_subscriptions s) (cs_outputs s) x (cs_processors s) (cs_matches s)).
Definition processors := mkSection _ cs_processors (fun x s => mkStore (cs_targets s) (cs_subscriptions s) (cs_outputs s) (cs_inputs s) x (cs_matches s)).
Definition matches := mkSection _ cs_matches (fun x s => mkStore (cs_targets s) (cs_subscriptions s) (cs_outputs s) (cs_inputs s) (cs_processors s) x).

(** The store and the number of calls made; a call that fails changes nothing. *)
Definition cstate : Type := cstore * nat.
Definition call (f : cstore -> cstore) (st : cstate) : cstate * bool :=
  if fails st.2 then ((st.1, S st.2), false) else ((f st.1, S st.2), true).

Definition sec_delete {V} (sec : section V) (name : string) (s : cstore) : cstore := sec_set sec (delete name (sec_get sec s)) s.
Definition sec_insert {V} (sec : section V) (name : string) (v : V) (s : cstore) : cstore := sec_set sec (<[name := v]> (sec_get sec s)) s.

(** Calls in sequence, up to the first that fails. *)
Fixpoint calls (fs : list (cstore -> cstore)) (st : cstate) : cstate * bool :=
  match fs with
  | [] => (st, true)
  | f :: fs => let '(st, ok) := call f st in if ok then calls fs st else (st, false)
  end.

(** ** Applying a configuration (apply.go) *)

Definition ConfigApplyRequest : Type := cstore.

Definition empty_section {V} (m : gmap string V) : bool := bool_decide (m = ∅).
Inductive apply_error := errTargetsNoSubs | errMatchesNoSubs | errInputsNoOutputs.
Definition validateApplyRequest (req : ConfigApplyRequest) : option apply_error :=
  if bool_decide (size (cs_targets req) = 0%nat) && bool_decide (size (cs_subscriptions req) = 0%nat) && bool_decide (size (cs_outputs req) = 0%nat)
     && bool_decide (size (cs_inputs req) = 0%nat) && bool_decide (size (cs_processors req) = 0%nat) && bool_decide (size (cs_matches req) = 0%nat)
  then None
  else if negb (bool_decide (size (cs_targets req) = 0%nat)) && bool_decide (size (cs_subscriptions req) = 0%nat) then Some errTargetsNoSubs
  else if negb (bool_decide (size (cs_matches req) = 0%nat)) && bool_decide (size (cs_subscriptions req) = 0%nat) then Some errMatchesNoSubs
  else if negb (bool_decide (size (cs_inputs req) = 0%nat)) && bool_decide (size (cs_outputs req) = 0%nat) then Some errInputsNoOutputs
  else None.

(** The entries of a section that are listed for deletion: tunnel targets are not. *)
Definition listed_target (tc : TargetConfig) : bool := String.eqb (tc_TunnelTargetType tc) "".

(** The pass that lists a section, and deletes what the request does not have. *)
Definition delete_pass {V} (sec : section V) (listed : V -> bool) (req : gmap string V) (st : cstate) : cstate * bool :=
  let '(st, ok) := call id st in
  if ok then
    calls (map (fun kv => sec_delete sec kv.1)
             (filter (fun kv => listed kv.2 && negb (bool_decide (is_Some (req !! kv.1))) = true) (range (sec_get sec st.1)))) st
  else (st, false).
Definition set_pass {V} (sec : section V) (req : gmap string V) (st : cstate) : cstate * bool :=
  calls (map (fun kv => sec_insert sec kv.1 kv.2) (range req)) st.

Fixpoint passes (ps : list (cstate -> cstate * bool)) (st : cstate) : cstate * bool :=
  match ps with
  | [] => (st, true)
  | p :: ps => let '(st, ok) := p st in if ok then passes ps st else (st, false)
  end.

Definition always {V} (v : V) : bool := true.
Definition apply_passes (req : ConfigApplyRequest) : list (cstate -> cstate * bool) :=
  [delete_pass subscriptions always (cs_subscriptions req); delete_pass targets listed_target (cs_targets req);
   delete_pass inputs always (cs_inputs req); delete_pass outputs always (cs_outputs req);
   delete_pass processors always (cs_processors req); delete_pass matches always (cs_matches req);
   set_pass subscriptions (cs_subscriptions req); set_pass processors (cs_processors req); set_pass outputs (cs_outputs req);
   set_pass targets (cs_targets req); set_pass inputs (cs_inputs req); set_pass matches (cs_matches req)].

(** The status and the store; [None]: the body cannot be decoded. *)
Definition handleConfigApply (body : option ConfigApplyRequest) (s : cstore) : Z * cstore :=
  match body with
  | None => (400, s)
  | Some req =>
      match validateApplyRequest req with
      | Some _ => (400, s)
      | None => let '(st, ok) := passes (apply_passes req) (s, 0%nat) in (if ok then 200 else 500, st.1)
      end
  end.

(** ** Creating and deleting objects *)

(** A body that cannot be read, is not JSON, or is. *)
Inductive body (A : Type) := Unreadable | NotJson | Decoded (a : A).
Arguments Unreadable {A}.
Arguments NotJson {A}.
Arguments Decoded {A}.
Definition with_body {A} (b : body A) (s : cstore) (f : A -> Z * cstore) : Z * cstore :=
  match b with Unreadable => (500, s) | NotJson => (400, s) | Decoded a => f a end.

Definition finish (r : cstate * bool) : Z * cstore := (if r.2 then 200 else 500, r.1.1).

(** Every name has an entry: the first that has none answers 404. *)
Fixpoint check_names {V} (sec : section V) (names : list string) (st : cstate) : cstate * option Z :=
  match names with
  | [] => (st, None)
  | n :: names =>
      let '(st, ok) := call id st in
      if negb ok then (st, Some 500)
      else match sec_get sec st.1 !! n with None => (st, Some 404) | Some _ => check_names sec names st end
  end.

(** [cfg[key].([]string)]: the names are checked only when the value is a slice of strings. *)
Definition checked_names (cfg : config) (key : string) : list string :=
  match cfg !! key with Some (AStrs l) => default [] l | _ => [] end.

(** What the registry of outputs, or of inputs, knows of a type, and its own validation. *)
Class Registry : Type := { known_type : string -> bool; Validate : string -> config -> bool }.

(** [None]: the body is [null]. *)
Definition handleConfigOutputsPost `{Registry} (b : body (option config)) (s : cstore) : Z * cstore :=
  with_body b s (fun cfg =>
    match cfg with
    | None => (400, s)
    | Some cfg =>
        let name := default "" (cfg !! "name" ≫= as_string) in
        let typ := default "" (cfg !! "type" ≫= as_string) in
        if String.eqb name "" || String.eqb typ "" || negb (known_type typ) || negb (Validate typ cfg) then (400, s)
        else match check_names processors (checked_names cfg "event-processors") (s, 0%nat) with
             | (_, Some status) => (status, s)
             | (st, None) => finish (call (sec_insert outputs name cfg) st)
             end
    end).

Definition handleConfigInputsPost `{Registry} (b : body (option config)) (s : cstore) : Z * cstore :=
  with_body b s (fun cfg =>
    match cfg with
    | None => (400, s)
    | Some cfg =>
        let name := default "" (cfg !! "name" ≫= as_string) in
        let typ := default "" (cfg !! "type" ≫= as_string) in
        if negb (known_type typ) || String.eqb name "" || negb (Validate typ cfg) then (400, s)
        else match check_names processors (checked_names cfg "event-processors") (s, 0%nat) with
             | (_, Some status) => (status, s)
             | (st, None) =>
                 match check_names outputs (checked_names cfg "outputs") st with
                 | (_, Some status) => (status, s)
                 | (st, None) => finish (call (sec_insert inputs name cfg) st)
                 end
             end
    end).

Record ProcessorConfigRequest := mkProcReq { pr_Name : string; pr_Type : string; pr_Config : any }.
Definition handleConfigProcessorsPost (b : body (option ProcessorConfigRequest)) (s : cstore) : Z * cstore :=
  with_body b s (fun cfg =>
    match cfg with
    | None => (400, s)
    | Some r => if String.eqb (pr_Name r) "" || String.eqb (pr_Type r) "" then (400, s)
                else finish (call (sec_insert processors (pr_Name r) {[ pr_Type r := pr_Config r ]}) (s, 0%nat))
    end).

(** Deleting a processor asks both managers first. The managers go on working
    meanwhile: [om] is the outputs manager when it is asked, [im] the inputs
    manager when it is asked, later, and [s] the store still later. *)
Definition handleConfigProcessorsDelete {O I : ComponentImpl} (om : @cmanager O) (im : @cmanager I) (id : string) (s : cstore) : Z * cstore :=
  if ProcessorInUse om id || ProcessorInUse im id then (400, s) else finish (call (sec_delete processors id) (s, 0%nat)).

(** [None]: the body does not fit the type. *)
Definition handleConfigSubscriptionsPost `{UnicodeCase} (b : body (option SubscriptionConfig)) (s : cstore) : Z * cstore :=
  with_body b s (fun sub =>
    match sub with
    | None => (400, s)
    | Some sub => if String.eqb (sc_Name sub) "" then (400, s)
                  else match ValidateSubscriptionConfig sub with
                       | Ok _ => finish (call (sec_insert subscriptions (sc_Name sub) sub) (s, 0%nat))
                       | _ => (400, s)
                       end
    end).

Definition handleConfigTargetsPost (b : body (option TargetConfig)) (s : cstore) : Z * cstore :=
  with_body b s (fun tc =>
    match tc with
    | None => (400, s)
    | Some tc =>
        if String.eqb (tc_Name tc) "" || String.eqb (tc_Address tc) "" then (400, s)
        else match check_names subscriptions (default [] (tc_Subscriptions tc)) (s, 0%nat) with
             | (_, Some status) => (status, s)
             | (st, None) =>
                 match check_names outputs (default [] (tc_Outputs tc)) st with
                 | (_, Some status) => (status, s)
                 | (st, None) => finish (call (sec_insert targets (tc_Name tc) tc) st)
                 end
             end
    end).

Definition handleConfigTargetsDelete (id : string) (s : cstore) : Z * cstore := finish (call (sec_delete targets id) (s, 0%nat)).
(** These two answer 404 when there was nothing to delete. *)
Definition delete_or_404 {V} (sec : section V) (id : string) (s : cstore) : Z * cstore :=
  let '(st, ok) := call (sec_delete sec id) (s, 0%nat) in
  (if ok then if bool_decide (is_Some (sec_get sec s !! id)) then 200 else 404 else 500, st.1).
Definition handleConfigSubscriptionsDelete := delete_or_404 subscriptions.
Definition handleConfigInputsDelete := delete_or_404 inputs.

(** Replacing a list of a target; [None] is the body [null]. The new names are checked first. *)
Definition patch_target {V} (sec : section V) (set : option (list string) -> TargetConfig -> TargetConfig)
    (id : string) (b : body (option (list string))) (s : cstore) : Z * cstore :=
  with_body b s (fun names =>
    match check_names sec (default [] names) (s, 0%nat) with
    | (_, Some status) => (status, s)
    | (st, None) =>
        match cs_targets s !! id with
        | None => (if fails st.2 then 500 else 404, s)
        | Some tc => finish (call (sec_insert targets id (set names tc)) st)
        end
    end).
Definition handleConfigTargetsSubscriptionsPatch := patch_target subscriptions set_subscriptions.
Definition handleConfigTargetsOutputsPatch := patch_target outputs set_outputs.

(** * Lemmas *)

Record section_laws {V} (sec : section V) : Prop := {
  law_get : forall x s, sec_get sec (sec_set sec x s) = x;
  law_set : forall x y s, sec_set sec x (sec_set sec y s) = sec_set sec x s;
  law_same : forall s, sec_set sec (sec_get sec s) s = s
}.

Lemma calls_prefix fs st st' ok : calls fs st = (st', ok) ->
  exists n, st'.1 = foldl (fun s f => f s) st.1 (take n fs) /\ (ok = true -> n = length fs).
Proof.
  revert st; induction fs as [|f fs IH]; intros st; cbn [calls].
  - intros [= <- <-]. by exists 0%nat.
  - unfold call. destruct (fails st.2).
    + intros [= <- <-]. by exists 0%nat.
    + intros Hc. destruct (IH _ Hc) as (n & Hn & Hok). exists (S n). cbn [take foldl length]. split; [done|]. intros Ht. by rewrite (Hok Ht).
Qed.
Lemma calls_ok fs st st' : calls fs st = (st', true) -> st'.1 = foldl (fun s f => f s) st.1 fs.
Proof. intros Hc. destruct (calls_prefix _ _ _ _ Hc) as (n & -> & Hn). by rewrite (Hn eq_refl), firstn_all. Qed.

Section one_section.
Context {V : Type} (sec : section V) (laws : section_laws sec).

Lemma foldl_deletes (l : list (string * V)) s :
  foldl (fun s f => f s) s (map (fun kv => sec_delete sec kv.1) l) = sec_set sec (foldl (fun m kv => delete kv.1 m) (sec_get sec s) l) s.
Proof.
  revert s; induction l as [|kv l IH]; intros s; cbn; [by rewrite (law_same _ laws)|].
  rewrite IH. unfold sec_delete. by rewrite (law_get _ laws), (law_set _ laws).
Qed.

Lemma foldl_inserts (l : list (string * V)) s :
  foldl (fun s f => f s) s (map (fun kv => sec_insert sec kv.1 kv.2) l) = sec_set sec (foldl (fun m kv => <[kv.1 := kv.2]> m) (sec_get sec s) l) s.
Proof.
  revert s; induction l as [|kv l IH]; intros s; cbn; [by rewrite (law_same _ laws)|].
  rewrite IH. unfold sec_insert. by rewrite (law_get _ laws), (law_set _ laws).
Qed.

Lemma lookup_deletes (l : list (string * V)) (m : gmap string V) k :
  foldl (fun m kv => delete kv.1 m) m l !! k = if decide (k ∈ l.*1) then None else m !! k.
Proof.
  revert m; induction l as [|kv l IH]; intros m; cbn [foldl fmap list_fmap].
  { destruct (decide (k ∈ [])) as [Hn|]; [by apply elem_of_nil in Hn|done]. }
  rewrite IH. destruct (decide (k = kv.1)) as [->|Hk].
  - rewrite lookup_delete_eq. destruct (decide (kv.1 ∈ kv.1 :: l.*1)) as [|Hn]; [by destruct (decide _)|]. destruct Hn. constructor.
  - rewrite lookup_delete_ne by done.
    destruct (decide (k ∈ l.*1)) as [Hin|Hin], (decide (k ∈ kv.1 :: l.*1)) as [Hin'|Hin']; try done.
    + destruct Hin'. by constructor.
    + by apply elem_of_cons in Hin' as [?|?].
Qed.

(** What deleting leaves: what is not listed or is in the request. *)
Definition kept (listed : V -> bool) (req m : gmap string V) : gmap string V :=
  filter (fun kv => listed kv.2 && negb (bool_decide (is_Some (req !! kv.1))) = false) m.

Lemma delete_pass_ok listed req st st' : delete_pass sec listed req st = (st', true) ->
  st'.1 = sec_set sec (kept listed req (sec_get sec st.1)) st.1.
Proof.
  unfold delete_pass, call. destruct (fails st.2); [done|]. intros Hc. apply calls_ok in Hc. cbn [fst] in Hc. unfold id in Hc.
  rewrite Hc, foldl_deletes. f_equal. apply map_eq. intros k. rewrite lookup_deletes. unfold kept. rewrite map_lookup_filter.
  set (l := filter _ _). assert (k ∈ l.*1 <-> exists v, sec_get sec st.1 !! k = Some v /\ listed v && negb (bool_decide (is_Some (req !! k))) = true) as Hin.
  { rewrite list_elem_of_fmap. split.
    - intros ([k' v] & -> & Hkv). apply list_elem_of_filter in Hkv as [Hd Hkv]. apply elem_of_range in Hkv. by exists v.
    - intros (v & Hv & Hd). exists (k, v). split; [done|]. apply list_elem_of_filter. split; [done|]. by apply elem_of_range. }
  destruct (decide (k ∈ l.*1)) as [Hk|Hk]; destruct (sec_get sec st.1 !! k) as [v|] eqn:Hv; cbn.
  - apply Hin in Hk as (v' & [= <-] & Hd). case_guard as Hg; [by rewrite Hg in Hd|done].
  - done.
  - case_guard as Hg; [done|]. destruct Hg. apply not_true_is_false. intros Hd. apply Hk, Hin. by exists v.
  - done.
Qed.

Lemma set_pass_ok req st st' : set_pass sec req st = (st', true) -> st'.1 = sec_set sec (req ∪ sec_get sec st.1) st.1.
Proof.
  unfold set_pass. intros Hc. apply calls_ok in Hc. rewrite Hc, foldl_inserts. f_equal.
  rewrite foldl_insert_list_to_map by apply NoDup_range_fst. by rewrite range_list_to_map.
Qed.
End one_section.

Lemma passes_cons p ps st st' : passes (p :: ps) st = (st', true) -> exists st1, p st = (st1, true) /\ passes ps st1 = (st', true).
Proof. cbn [passes]. destruct (p st) as [st1 []]; [|done]. intros Hp. by exists st1. Qed.

Lemma all_laws : section_laws targets /\ section_laws subscriptions /\ section_laws outputs /\ section_laws inputs
  /\ section_laws processors /\ section_laws matches.
Proof. split_and!; split; try done; by intros []. Qed.

Lemma kept_always {V} (req m : gmap string V) : req ∪ kept always req m = req.
Proof.
  apply map_eq. intros k. rewrite lookup_union. unfold kept. rewrite map_lookup_filter. unfold always. cbn [andb].
  destruct (req !! k) as [v|] eqn:Hr; cbn; [by destruct (m !! k); cbn; [case_guard|]|].
  destruct (m !! k) as [w|]; cbn; [|done]. case_guard as Hg; [|done]. exfalso. rewrite Hr in Hg. rewrite bool_decide_false in Hg by by intros []. done.
Qed.

Lemma apply_lemma req s st : passes (apply_passes req) (s, 0%nat) = (st, true) ->
  st.1 = mkStore (cs_targets req ∪ kept listed_target (cs_targets req) (cs_targets s)) (cs_subscriptions req) (cs_outputs req) (cs_inputs req)
           (cs_processors req) (cs_matches req).
Proof.
  intros Hp. unfold apply_passes in Hp. destruct all_laws as (Lt & Ls & Lo & Li & Lp & Lm).
  repeat (let st1 := fresh "st" in let Hd := fresh "Hd" in apply passes_cons in Hp as (st1 & Hd & Hp);
    first [apply delete_pass_ok in Hd; [|assumption] | apply set_pass_ok in Hd; [|assumption]]).
  cbn [passes] in Hp. injection Hp as <-.
  repeat match goal with H : ?x.1 = _ |- context [?x.1] => rewrite H; clear H end.
  cbn. by rewrite !kept_always.
Qed.
End api.

(** ** What an apply that fails leaves *)

Section partial.
Context {TunnelTargetMatch : Type} `{MapOrder} (fails : nat -> bool).
Implicit Types (old req s : @cstore TunnelTargetMatch).

(** Every entry is an old one or one of the request. *)
Definition mixes {V} (old req cur : gmap string V) : Prop := forall k v, cur !! k = Some v -> old !! k = Some v \/ req !! k = Some v.
Record partial old req s : Prop := {
  part_targets : mixes (cs_targets old) (cs_targets req) (cs_targets s);
  part_subscriptions : mixes (cs_subscriptions old) (cs_subscriptions req) (cs_subscriptions s);
  part_outputs : mixes (cs_outputs old) (cs_outputs req) (cs_outputs s);
  part_inputs : mixes (cs_inputs old) (cs_inputs req) (cs_inputs s);
  part_processors : mixes (cs_processors old) (cs_processors req) (cs_processors s);
  part_matches : mixes (cs_matches old) (cs_matches req) (cs_matches s)
}.

Lemma mixes_delete {V} (old req cur : gmap string V) k : mixes old req cur -> mixes old req (delete k cur).
Proof. intros Hm j v Hj. apply lookup_delete_Some in Hj as [_ Hj]. by apply Hm. Qed.
Lemma mixes_insert {V} (old req cur : gmap string V) k v : mixes old req cur -> req !! k = Some v -> mixes old req (<[k := v]> cur).
Proof. intros Hm Hr j w Hj. apply lookup_insert_Some in Hj as [[<- <-]|[_ Hj]]; [by right|by apply Hm]. Qed.

(** A section whose deletions and insertions from the request keep [partial]. *)
Definition keeps old req {V} (sec : @section TunnelTargetMatch V) : Prop :=
  (forall s k, partial old req s -> partial old req (sec_delete sec k s))
  /\ (forall s k v, partial old req s -> sec_get _ sec req !! k = Some v -> partial old req (sec_insert sec k v s)).
Lemma all_keep old req : keeps old req targets /\ keeps old req subscriptions /\ keeps old req outputs /\ keeps old req inputs
  /\ keeps old req processors /\ keeps old req matches.
Proof.
  split_and!; (split; [intros s k []; split; try assumption; by apply mixes_delete|intros s k v [] Hv; split; try assumption; by apply mixes_insert]).
Qed.

Lemma calls_keep (P : cstore -> Prop) fs st st' ok : calls fails fs st = (st', ok) -> P st.1 ->
  (forall f s, f ∈ fs -> P s -> P (f s)) -> P st'.1.
Proof.
  intros Hc HP Hf. apply calls_prefix in Hc as (n & -> & _).
  assert (forall f, f ∈ take n fs -> f ∈ fs) as Hin by (intros f Hin; eapply elem_of_submseteq; [exact Hin|]; apply sublist_submseteq, sublist_take).
  revert Hin HP. generalize (take n fs), st.1. intros l. induction l as [|f l IH]; intros s Hin HP; [done|]. cbn [foldl].
  apply IH; [intros g Hg; apply Hin; by constructor|]. apply Hf; [apply Hin; constructor|done].
Qed.

Lemma delete_pass_keeps old req {V} (sec : @section TunnelTargetMatch V) listed rm st : keeps old req sec ->
  partial old req st.1 -> partial old req (delete_pass fails sec listed rm st).1.1.
Proof.
  intros [Hd _] Hp. unfold delete_pass, call. destruct (fails st.2); [done|].
  destruct (calls _ _ _) as [st' ok] eqn:Hc. eapply (calls_keep (partial old req)); [exact Hc|done|].
  intros f s Hf Hs. apply list_elem_of_In, in_map_iff in Hf as (kv & <- & _). by apply Hd.
Qed.
Lemma set_pass_keeps old req {V} (sec : @section TunnelTargetMatch V) st : keeps old req sec ->
  partial old req st.1 -> partial old req (set_pass fails sec (sec_get _ sec req) st).1.1.
Proof.
  intros [_ Hi] Hp. unfold set_pass. destruct (calls _ _ _) as [st' ok] eqn:Hc. eapply (calls_keep (partial old req)); [exact Hc|done|].
  intros f s Hf Hs. apply list_elem_of_In, in_map_iff in Hf as ([k v] & <- & Hkv%list_elem_of_In). apply Hi; [done|]. by apply elem_of_range in Hkv.
Qed.

Lemma passes_keep (P : cstore -> Prop) (ps : list (cstate -> cstate * bool)) (st : @cstate TunnelTargetMatch) :
  Forall (fun p => forall st, P st.1 -> P (p st).1.1) ps -> P st.1 -> P (passes ps st).1.1.
Proof.
  intros Hps. revert st; induction Hps as [|p ps Hp _ IH]; intros st HP; cbn [passes]; [done|].
  specialize (Hp st HP). destruct (p st) as [st1 []]; [by apply IH|done].
Qed.

Lemma apply_partial req s : partial s req (passes (apply_passes fails req) (s, 0%nat)).1.1.
Proof.
  destruct (all_keep s req) as (Kt & Ks & Ko & Ki & Kp & Km). apply (passes_keep (partial s req)).
  - unfold apply_passes. repeat apply Forall_cons_2; try apply Forall_nil_2; intros st;
      first [by apply delete_pass_keeps | by apply (set_pass_keeps _ _ subscriptions) | by apply (set_pass_keeps _ _ targets)
            | by apply (set_pass_keeps _ _ outputs) | by apply (set_pass_keeps _ _ inputs)
            | by apply (set_pass_keeps _ _ processors) | by apply (set_pass_keeps _ _ matches)].
  - split; intros k v Hk; by left.
Qed.
End partial.

(** * Properties *)

(** C22: when applying a configuration answers 200, every section of the store is
    that of the request, except that targets made by tunnels that the request does
    not name stay; a request that is accepted gets this answer unless the store
    fails. A request that is refused changes nothing; one that fails on the way
    leaves old entries and entries of the request, and no others. *)
Theorem apply_spec {M : Type} `{MapOrder} (fails : nat -> bool) (req s : @cstore M) :
  let '(status, s') := handleConfigApply fails (Some req) s in
  (status = 200 -> s' = mkStore (cs_targets req ∪ kept listed_target (cs_targets req) (cs_targets s)) (cs_subscriptions req) (cs_outputs req)
                          (cs_inputs req) (cs_processors req) (cs_matches req))
  /\ (status = 400 -> s' = s) /\ (status = 500 -> partial s req s')
  /\ (status = 200 \/ status = 400 \/ status = 500)
  /\ (validateApplyRequest req = None -> (forall n, fails n = false) -> status = 200).
Proof.
  unfold handleConfigApply. destruct (validateApplyRequest req); [split_and!; auto; done|].
  pose proof (apply_lemma fails req s) as Hok. pose proof (apply_partial fails req s) as Hpart.
  assert ((forall n, fails n = false) -> (passes (apply_passes fails req) (s, 0%nat)).2 = true) as Hno.
  { intros Hf. assert (forall fs (st : @cstate M), (calls fails fs st).2 = true) as Hcalls.
    { induction fs as [|f fs IH]; intros st; cbn [calls]; [done|]. unfold call. rewrite Hf. apply IH. }
    assert (forall ps (st : @cstate M), Forall (fun p => forall st, (p st).2 = true) ps -> (passes ps st).2 = true) as Hpasses.
    { induction ps as [|p ps IH]; intros st Hps; cbn [passes]; [done|]. apply Forall_cons in Hps as [Hp Hps]. specialize (Hp st).
      destruct (p st) as [st1 b]. cbn in Hp. subst b. by apply IH. }
    apply Hpasses. unfold apply_passes. repeat apply Forall_cons_2; try apply Forall_nil_2; intros st;
      first [apply Hcalls | unfold delete_pass, call; rewrite Hf; apply Hcalls]. }
  destruct (passes _ _) as [st ok]. cbn [fst snd] in *. destruct ok.
  - split_and!; [intros _; by apply Hok|done|done|by left|done].
  - split_and!; [done|done|intros _; exact Hpart|by right; right|]. intros _ Hf. by apply Hno in Hf.
Qed.


(** An output "o" that was started with the processor "p1". *)
Definition started_p1 : @cmanager toy_impl := create_component "" true "o" (file_cfg ["p1"]) cm0.
Definition p1_output : @managed toy_impl := @mkManagedComp toy_impl ["p1"] (file_cfg ["p1"]).
Lemma started_p1_run : @mrun toy_impl "" (cm0, Waiting) [Began (file_cfg ["p1"])] (started_p1, Waiting).
Proof.
  eapply (mrun_step _ _ [] _ [_]); [|apply ms_runs]. eapply (mrun_step _ _ [] _ [_]); [|apply ms_adds].
  eapply (mrun_step _ _ [_] _ []); [|by apply (ms_starts _ cm0 "o" (file_cfg ["p1"]) true)]. apply mrun_refl.
Qed.
Lemma p1_looked_up cfg : @mrun toy_impl "" (started_p1, Waiting) [Began cfg] (started_p1, LookedUp "o" p1_output cfg).
Proof. eapply (mrun_step _ _ [_] _ []); [apply mrun_refl|]. apply ms_looks_up. by vm_compute. Qed.

(** The conditions are needed. An output that updated itself runs with its new
    processors before they are recorded, one whose update failed may run with them
    for good, unrecorded, and one may be updated after its manager was asked: each
    time the processor is deleted while a running output uses it. *)
Definition deleted_in_use (m m' : @cmanager toy_impl) : Prop :=
  (@handleConfigProcessorsDelete unit (fun _ => false) toy_impl toy_impl m cm0 "p2" (mkStore ∅ ∅ ∅ ∅ {[ "p2" := ∅ ]} ∅)).1 = 200
  /\ exists mc, cm_comps m' !! "o" = Some mc /\ "p2" ∈ uses_procs (mc_impl mc).
Theorem processor_deleted_while_used :
  let cfg := file_cfg ["p2"] in let bad := delete "type" cfg in
  (exists m ls, mrun "" (cm0, Waiting) ls (m, Updated "o" p1_output cfg) /\ deleted_in_use m m)
  /\ (exists m ls, mrun "" (cm0, Waiting) ls (m, Waiting) /\ Refused bad ∈ ls /\ deleted_in_use m m)
  /\ (exists m ls m' ls', mrun "" (cm0, Waiting) ls (m, Waiting) /\ mrun "" (m, Waiting) ls' (m', Waiting) /\ deleted_in_use m m').
Proof.
  cbv zeta.
  set (m1 := (@run_update toy_impl "o" p1_output (file_cfg ["p2"]) started_p1).2).
  set (m2 := (@run_update toy_impl "o" p1_output (delete "type" (file_cfg ["p2"])) started_p1).2).
  assert (@mrun toy_impl "" (started_p1, Waiting) [Began (file_cfg ["p2"])] (m1, Updated "o" p1_output (file_cfg ["p2"]))) as H1.
  { eapply (mrun_step _ _ [] _ [_]); [apply p1_looked_up|]. apply ms_updates. by vm_compute. }
  split_and!.
  - exists m1, ([Began (file_cfg ["p1"])] ++ [Began (file_cfg ["p2"])]). split; [by eapply mrun_trans, H1; apply started_p1_run|].
    split; [by vm_compute|]. eexists. split; [by vm_compute|]. by apply (bool_decide_unpack _).
  - exists m2, ([Began (file_cfg ["p1"])] ++ [Began (delete "type" (file_cfg ["p2"]))] ++ [Refused (delete "type" (file_cfg ["p2"]))]).
    split_and!; [|by do 2 right; left|split; [by vm_compute|]].
    + eapply mrun_trans; [apply started_p1_run|]. eapply mrun_step; [apply p1_looked_up|]. eapply ms_update_fails. by vm_compute.
    + eexists. split; [by vm_compute|]. by apply (bool_decide_unpack _).
  - exists started_p1, [Began (file_cfg ["p1"])]. eexists _, [Began (file_cfg ["p2"])]. split_and!; [apply started_p1_run| |].
    + eapply (mrun_step _ _ [] _ [_]); [|apply ms_sets]. eapply (mrun_step _ _ [] _ [_]); [apply H1|apply ms_tracks].
    + split; [by vm_compute|]. eexists. split; [by vm_compute|]. by apply (bool_decide_unpack _).
Qed.

(** Creating an output never checks its event processors when the body is
    JSON, where a list is not a slice of strings: the answer is the same whatever
    processors are configured, also with none. *)
Theorem json_processors_unchecked {M : Type} `{Registry} (fails : nat -> bool) (cfg : config) (procs : gmap string config) (s : @cstore M)
    (Hjson : forall k l, cfg !! k <> Some (AStrs l)) :
  (handleConfigOutputsPost fails (Decoded _ (Some cfg)) (sec_set _ processors procs s)).1 = (handleConfigOutputsPost fails (Decoded _ (Some cfg)) s).1.
Proof.
  unfold handleConfigOutputsPost, with_body. destruct (_ || _); [done|].
  assert (checked_names cfg "event-processors" = []) as ->.
  { unfold checked_names. destruct (cfg !! "event-processors") as [v|] eqn:E; [|done]. destruct v; try done. by destruct (Hjson _ _ E). }
  cbn [check_names]. unfold call. by destruct (fails _).
Qed.


Definition any_registry : Registry := {| known_type _ := true; Validate _ _ := true |}.
Lemma json_processors_unchecked_witness :
  let cfg : config := <["name" := AStr "o"]> (file_cfg ["missing"]) in
  let s : @cstore unit := mkStore ∅ ∅ ∅ ∅ {[ "missing" := ∅ ]} ∅ in
  (@handleConfigOutputsPost unit (fun _ => false) any_registry (Decoded _ (Some cfg)) (sec_set _ processors ∅ s)).1 = 200
  /\ (@handleConfigOutputsPost unit (fun _ => false) any_registry (Decoded _ (Some cfg)) (sec_set _ processors ∅ s)).1
     = (@handleConfigOutputsPost unit (fun _ => false) any_registry (Decoded _ (Some cfg)) s).1.
Proof.
  cbv zeta. split; [vm_compute; reflexivity|].
  apply (@json_processors_unchecked unit any_registry (fun _ => false) (<["name" := AStr "o"]> (file_cfg ["missing"])) ∅).
  intros k l Hk. unfold file_cfg in Hk. apply lookup_insert_Some in Hk as [[_ Hk]|[_ Hk]]; [discriminate|].
  apply lookup_insert_Some in Hk as [[_ Hk]|[_ Hk]]; [discriminate|]. apply lookup_singleton_Some in Hk as [_ Hk]. discriminate.
Defined.
