(* ===== verification/Requests.v ===== *)
(** * Get and set requests from flags and files (pkg/config/config.go, set.go, gnmi_ext.go, gnmi_set template files)

    The request builders of the configuration: command-line flags, files and
    request templates become message options (Messages.v). What the code reads
    (files, templates, YAML and protobuf text, descriptors) is a parameter,
    [RequestEnv]; indexing a list of values or files by the position of a path
    panics out of range. The theorems give the set request field by field, show
    that the checks of [ValidateSetInput] rule the panics out, and that the
    sanitising of bracketed flag values ends. *)

From stdpp Require Import strings.
From S2P Require Import Prelude GoStrings Utf8 Path GoVal Event Text Messages Subscribe.

#[local] Open Scope Z_scope.
#[local] Arguments wrap : simpl never.

(** ** Data *)

Record SetFlags := mkSetFlags {
  SetPrefix : string; SetTarget : string;
  SetDelete : list string; SetUpdate : list string; SetReplace : list string; SetUnionReplace : list string;
  SetUpdatePath : list string; SetReplacePath : list string; SetUnionReplacePath : list string;
  SetUpdateValue : list string; SetReplaceValue : list string; SetUnionReplaceValue : list string;
  SetUpdateFile : list string; SetReplaceFile : list string; SetUnionReplaceFile : list string;
  SetDelimiter : string;
  SetUpdateCli : list string; SetReplaceCli : list string;
  SetUpdateCliFile : string; SetReplaceCliFile : string;
  SetNoTrim : bool;
  SetRequestFile : list string; SetRequestProtoFile : list string; SetRequestVars : string;
  SetCommitId : string; SetCommitRollbackDuration : Z;
  SetCommitRequest : bool; SetCommitConfirm : bool; SetCommitCancel : bool
}.

Record GetFlags := mkGetFlags {
  GetPath : list string; GetPrefix : string; GetTarget : string; GetType : string; GetDepth : Z
}.

Record GlobalFlags := mkGlobal {
  g_Encoding : string; RequestExtensions : string; RegisteredExtensions : list string; ProtoFile : list string
}.

(** A YAML value: maps have keys of any type ([None] is a key that is not a
    string). *)
Inductive yval :=
| YScalar (v : any)
| YMap (l : list (option string * yval))
| YStrMap (l : list (string * yval))
| YSlice (l : list yval).

Record UpdateItem := mkUpdItem { ui_Path : string; ui_Value : yval; ui_Encoding : string }.
Record SetRequestFileT := mkSetFile {
  sf_Updates : list UpdateItem; sf_Replaces : list UpdateItem; sf_UnionReplaces : list UpdateItem;
  sf_Deletes : list string; sf_CommitID : string; sf_CommitAction : string; sf_RollbackDuration : Z
}.

Inductive req_error :=
| errSetFormat | errRead | errProto | errTemplateExec | errNoTemplate | errNotString | errEncodeValue
| errCommitAction (a : string) | errExtFormat | errExtId | errExtJSON | errExtUnknown | errExtMessage | errDescriptors
| errNoInput | errFileAndValue | errMissingValue | errExpand
| errOption (e : opt_error).

(** What is read from outside. [load_template] is one set-request template
    executed for a target and decoded from YAML. *)
Class RequestEnv : Type := {
  read_data : string -> option string;            (* gfile.ReadFile *)
  yaml_to_json : string -> option string;         (* toJSONBytes *)
  read_proto_request : string -> option SetRequest;
  load_template : nat -> string -> option SetRequestFileT;
  json_Encode_html : any -> option string;
  descriptors : list string -> bool;
  extensions_json : string -> option (gmap string any);
  encode_extension : string -> any -> option string;  (* the message, as protobuf bytes *)
  expandOSPath : string -> option string
}.

(** ** Sanitising flag values *)

Definition bracketed (s : string) : bool := has_prefix "[" s && has_suffix "]" s.
Definition strip (s : string) : string := sslice 1 (String.length s - 1) s.
(** [for HasPrefix(s, "[") && HasSuffix(s, "]") { s = s[1:len(s)-1] }]. *)
Fixpoint strip_loop (fuel : nat) (s : string) : option string :=
  if bracketed s then match fuel with O => None | S fuel => strip_loop fuel (strip s) end else Some s.
Definition strip_all (s : string) : string := default "" (strip_loop (String.length s) s).

Definition SanitizeArrayFlagValue (ls : list string) : list string :=
  map strip_all (filter (fun s => s <> "[]") ls).

(** [ParseAddressField]: the pieces are also split at commas. *)
Definition ParseAddressField (addr : list string) : list string :=
  concat (map (fun s => split_byte "," (strip_all s)) (filter (fun s => s <> "[]") addr)).

(** ** Reading *)

(** [convert_yaml]: the assertion that a key is a string panics on another key. *)
Fixpoint convert_yaml (y : yval) : go req_error any :=
  match y with
  | YScalar v => Ok v
  | YMap l =>
      es ← (fix entries (l : list (option string * yval)) : go req_error (list (string * any)) :=
        match l with
        | [] => Ok []
        | (k, v) :: l =>
            match k with
            | None => Panic
            | Some k => v ← convert_yaml v; es ← entries l; Ok ((k, v) :: es)
            end
        end) l;
      Ok (AMap (Some (list_to_map es)))
  | YStrMap l =>
      es ← (fix entries (l : list (string * yval)) : go req_error (list (string * any)) :=
        match l with
        | [] => Ok []
        | (k, v) :: l => v ← convert_yaml v; es ← entries l; Ok ((k, v) :: es)
        end) l;
      Ok (AMap (Some (list_to_map es)))
  | YSlice l =>
      vs ← (fix items (l : list yval) : go req_error (list any) :=
        match l with
        | [] => Ok []
        | v :: l => v ← convert_yaml v; vs ← items l; Ok (v :: vs)
        end) l;
      Ok (ASlice (Some vs))
  end.

(** [filepath.Ext]. *)
Fixpoint file_ext (s : string) : string :=
  match s with
  | EmptyString => ""
  | String c t =>
      if scontains "/" t then file_ext t
      else if Ascii.eqb c "." && negb (scontains "." t) then s
      else file_ext t
  end.

Definition or_err {A} (e : req_error) (o : option A) : go req_error A :=
  match o with Some a => Ok a | None => Err e end.

Section requests.
Context `{MapOrder} `{UnicodeCase} `{GnmiEnums} `{ValueEnv} `{RequestEnv}.

Definition readFile (name : string) : go req_error string :=
  data ← or_err errRead (read_data name);
  if String.eqb (file_ext name) ".yaml" || String.eqb (file_ext name) ".yml"
  then or_err errRead (yaml_to_json data) else Ok data.

(** ** Additional extensions *)

Definition parse_registered (m : gmap Z string) (p : string) : go req_error (gmap Z string) :=
  match split_byte ":" p with
  | id :: name :: _ => match ParseInt 32 id with Some i => Ok (<[i := name]> m) | None => Err errExtId end
  | _ => Err errExtFormat
  end.
Definition ParseRegisteredExtensions (pairs : list string) : go req_error (gmap Z string) :=
  foldM parse_registered pairs ∅.

Definition one_extension (extensionDecodeMap : gmap Z string) (kv : string * any) : go req_error extension :=
  id ← or_err errExtId (ParseInt 32 kv.1);
  name ← or_err errExtUnknown (extensionDecodeMap !! id);
  b ← or_err errExtMessage (encode_extension name kv.2);
  Ok (Ext_Registered id b).

(** The extensions are in the order the runtime visits the JSON object. *)
Definition createAdditionalRequestExtensions (extensions : string) (protoFiles : list string)
    (extensionDecodeMap : gmap Z string) : go req_error (list extension) :=
  if nilb protoFiles then Ok []
  else if negb (descriptors protoFiles) then Err errDescriptors
  else
    exts ← or_err errExtJSON (extensions_json extensions);
    mapE (one_extension extensionDecodeMap) (range exts).

Definition parseAdditionalRequestExtensions (g : GlobalFlags) : go req_error (list GNMIOption) :=
  if String.eqb (RequestExtensions g) "" then Ok []
  else
    registered ← ParseRegisteredExtensions (RegisteredExtensions g);
    exts ← createAdditionalRequestExtensions (RequestExtensions g) (ProtoFile g) registered;
    Ok (map opt_Extension exts).

(** ** Get requests *)

Definition lift_req {A} (r : go opt_error A) : go req_error A :=
  match r with Ok a => Ok a | Err e => Err (errOption e) | Panic => Panic end.

Definition CreateGetRequest (g : GlobalFlags) (f : GetFlags) (tc_Encoding : option string) : go req_error GetRequest :=
  let enc := default (g_Encoding g) tc_Encoding in
  exts ← parseAdditionalRequestExtensions g;
  lift_req (NewGetRequest
    ([opt_Encoding enc; opt_DataType (GetType f); opt_Prefix (GetPrefix f); opt_Target (GetTarget f)]
     ++ map (fun p => opt_Path (trim_space p)) (GetPath f)
     ++ when (0 <? GetDepth f) [opt_Extension_Depth (GetDepth f)] ++ exts)).

(** ** Set requests from flags *)

Definition trimChars : list ascii := [" "%char; "013"%char; "010"%char; "009"%char].

(** The three ways to add an update. *)
Inductive set_op := OpUpdate | OpReplace | OpUnionReplace.
Definition op_option (o : set_op) : list GNMIOption -> GNMIOption :=
  match o with OpUpdate => opt_Update | OpReplace => opt_Replace | OpUnionReplace => opt_UnionReplace end.
(** A path, a value as text and its encoding, and how it is set. *)
Record item := mkSetItem { it_op : set_op; it_path : string; it_val : string; it_enc : string }.
Definition set_item (it : item) : GNMIOption :=
  op_option (it_op it) [opt_Path (it_path it); opt_Value (VAny (AStr (it_val it))) (it_enc it)].

(** An inline flag: path, encoding and value between delimiters. *)
Definition inline_item (f : SetFlags) (o : set_op) (u : string) : go req_error item :=
  match SplitN u (SetDelimiter f) 2 with
  | p :: enc :: val :: _ => Ok (mkSetItem o (trim_space p) val enc)
  | _ => Err errSetFormat
  end.

(** The path at position [i], with the value or file at the same position. *)
Definition path_item (g : GlobalFlags) (f : SetFlags) (o : set_op) (useFiles : bool) (files values : list string)
    (ip : nat * string) : go req_error item :=
  let '(i, p) := ip in
  if useFiles then
    match files !! i with
    | None => Panic
    | Some file =>
        data ← readFile file;
        let data := if SetNoTrim f then bytes_Trim [] data else bytes_Trim trimChars data in
        Ok (mkSetItem o (trim_space p) data (g_Encoding g))
    end
  else match values !! i with
       | None => Panic
       | Some v => Ok (mkSetItem o (trim_space p) v (g_Encoding g))
       end.

Definition use_files (files values : list string) : bool := negb (nilb files) && nilb values.
Definition path_items (g : GlobalFlags) (f : SetFlags) (o : set_op) (paths files values : list string)
    : go req_error (list item) :=
  mapE (path_item g f o (use_files files values) files values) (imap pair paths).

Definition newline : string := String "010" "".
Definition cli_item (o : set_op) (val : string) : item := mkSetItem o "cli:/" val "ascii".
Definition cli_items (o : set_op) (cmds : list string) : list item :=
  if nilb cmds then [] else [cli_item o (sjoin newline cmds)].
Definition cli_file (o : set_op) (file : string) : go req_error (list item) :=
  if String.eqb file "" then Ok [] else data ← readFile file; Ok [cli_item o data].

Definition commit_option (f : SetFlags) : list GNMIOption :=
  if String.eqb (SetCommitId f) "" then []
  else if SetCommitRequest f then [opt_Extension_CommitRequest (SetCommitId f) (SetCommitRollbackDuration f)]
  else if SetCommitConfirm f then [opt_Extension_CommitConfirm (SetCommitId f)]
  else if SetCommitCancel f then [opt_Extension_CommitCancel (SetCommitId f)]
  else [opt_Extension_CommitSetRollbackDuration (SetCommitId f) (SetCommitRollbackDuration f)].

(** What is set, in the order the code appends it. *)
Definition set_items (g : GlobalFlags) (f : SetFlags) : go req_error (list item) :=
  updates ← mapE (inline_item f OpUpdate) (SetUpdate f);
  replaces ← mapE (inline_item f OpReplace) (SetReplace f);
  unions ← mapE (inline_item f OpUnionReplace) (SetUnionReplace f);
  updatePaths ← path_items g f OpUpdate (SetUpdatePath f) (SetUpdateFile f) (SetUpdateValue f);
  replacePaths ← path_items g f OpReplace (SetReplacePath f) (SetReplaceFile f) (SetReplaceValue f);
  unionPaths ← path_items g f OpUnionReplace (SetUnionReplacePath f) (SetUnionReplaceFile f) (SetUnionReplaceValue f);
  updateCliFile ← cli_file OpUpdate (SetUpdateCliFile f);
  replaceCliFile ← cli_file OpReplace (SetReplaceCliFile f);
  Ok (updates ++ replaces ++ unions ++ updatePaths ++ replacePaths ++ unionPaths
      ++ cli_items OpUpdate (SetUpdateCli f) ++ cli_items OpReplace (SetReplaceCli f)
      ++ updateCliFile ++ replaceCliFile).

Definition set_options (g : GlobalFlags) (f : SetFlags) : go req_error (list GNMIOption) :=
  items ← set_items g f;
  exts ← parseAdditionalRequestExtensions g;
  Ok ([opt_Prefix (SetPrefix f); opt_Target (SetTarget f)] ++ map (fun p => opt_Delete (trim_space p)) (SetDelete f)
      ++ map set_item items ++ commit_option f ++ exts).

(** ** Set requests from files *)

Definition CreateSetRequestFromProtoFile (files : list string) : go req_error (list SetRequest) :=
  mapE (fun r => or_err errProto (read_proto_request r)) files.

(** The items of a template: an update whose path starts with [cli:/] is sent
    as text; a replace or union-replace only when its path is [cli:/]. *)
Definition is_cli (o : set_op) (path : string) : bool :=
  match o with OpUpdate => has_prefix "cli:/" path | _ => String.eqb path "cli:/" end.
Definition file_item (g : GlobalFlags) (o : set_op) (upd : UpdateItem) : go req_error item :=
  let path := if String.eqb (ui_Path upd) "" then "/" else ui_Path upd in
  let enc := if String.eqb (ui_Encoding upd) "" then g_Encoding g else ui_Encoding upd in
  text ← (if is_cli o path then
            match ui_Value upd with YScalar (AStr s) => Ok s | _ => Err errNotString end
          else v ← convert_yaml (ui_Value upd); or_err errEncodeValue (json_Encode_html v));
  Ok (mkSetItem o (trim_space path) (trim_space text) enc).

(** The commit action is the file's; the id and the duration are the flags'. *)
Definition file_commit (f : SetFlags) (r : SetRequestFileT) : go req_error (list GNMIOption) :=
  if String.eqb (sf_CommitID r) "" then Ok []
  else if String.eqb (sf_CommitAction r) "request" then
    Ok [opt_Extension_CommitRequest (SetCommitId f) (SetCommitRollbackDuration f)]
  else if String.eqb (sf_CommitAction r) "cancel" then Ok [opt_Extension_CommitCancel (SetCommitId f)]
  else if String.eqb (sf_CommitAction r) "confirm" then Ok [opt_Extension_CommitConfirm (SetCommitId f)]
  else if String.eqb (sf_CommitAction r) "set-rollback-duration" then
    Ok [opt_Extension_CommitSetRollbackDuration (SetCommitId f) (SetCommitRollbackDuration f)]
  else Err (errCommitAction (sf_CommitAction r)).

Definition file_items (g : GlobalFlags) (r : SetRequestFileT) : go req_error (list item) :=
  updates ← mapE (file_item g OpUpdate) (sf_Updates r);
  replaces ← mapE (file_item g OpReplace) (sf_Replaces r);
  unions ← mapE (file_item g OpUnionReplace) (sf_UnionReplaces r);
  Ok (updates ++ replaces ++ unions).
Definition file_options (g : GlobalFlags) (f : SetFlags) (r : SetRequestFileT) : go req_error (list GNMIOption) :=
  items ← file_items g r;
  commit ← file_commit f r;
  Ok (map set_item items ++ map (fun s => opt_Delete (trim_space s)) (sf_Deletes r) ++ commit).

Definition file_request (g : GlobalFlags) (f : SetFlags) (targetName : string) (i : nat) : go req_error SetRequest :=
  r ← or_err errTemplateExec (load_template i targetName);
  opts ← file_options g f r;
  lift_req (or_nil (NewSetRequest opts)).

(** One request per template; [n] templates were read. *)
Definition CreateSetRequestFromFile (g : GlobalFlags) (f : SetFlags) (n : nat) (targetName : string)
    : go req_error (list SetRequest) :=
  match n with O => Err errNoTemplate | _ => mapE (file_request g f targetName) (seq 0 n) end.

(** The request built from flags is returned with its error. *)
Definition CreateSetRequest (g : GlobalFlags) (f : SetFlags) (n : nat) (targetName : string)
    : go req_error (list SetRequest * option opt_error) :=
  if negb (nilb (SetRequestProtoFile f)) then (fun rs => (rs, None)) <$> CreateSetRequestFromProtoFile (SetRequestProtoFile f)
  else if negb (nilb (SetRequestFile f)) then (fun rs => (rs, None)) <$> CreateSetRequestFromFile g f n targetName
  else
    opts ← set_options g f;
    match NewSetRequest opts with
    | Ran m e => Ok ([m], e)
    | Crashed => Panic
    end.

(** ** Validation of the input *)

Definition expand_paths (l : list string) : go req_error (list string) :=
  mapE (fun p => or_err errExpand (expandOSPath p)) l.

Definition sanitized (f : SetFlags) : SetFlags :=
  let z := SanitizeArrayFlagValue in
  mkSetFlags (SetPrefix f) (SetTarget f) (z (SetDelete f)) (z (SetUpdate f)) (z (SetReplace f)) (SetUnionReplace f)
    (z (SetUpdatePath f)) (z (SetReplacePath f)) (SetUnionReplacePath f) (z (SetUpdateValue f)) (z (SetReplaceValue f))
    (SetUnionReplaceValue f) (z (SetUpdateFile f)) (z (SetReplaceFile f)) (SetUnionReplaceFile f) (SetDelimiter f)
    (SetUpdateCli f) (SetReplaceCli f) (SetUpdateCliFile f) (SetReplaceCliFile f) (SetNoTrim f) (z (SetRequestFile f))
    (SetRequestProtoFile f) (SetRequestVars f) (SetCommitId f) (SetCommitRollbackDuration f) (SetCommitRequest f)
    (SetCommitConfirm f) (SetCommitCancel f).

Definition with_files (uf rf req : list string) (vars : string) (f : SetFlags) : SetFlags :=
  mkSetFlags (SetPrefix f) (SetTarget f) (SetDelete f) (SetUpdate f) (SetReplace f) (SetUnionReplace f)
    (SetUpdatePath f) (SetReplacePath f) (SetUnionReplacePath f) (SetUpdateValue f) (SetReplaceValue f)
    (SetUnionReplaceValue f) uf rf (SetUnionReplaceFile f) (SetDelimiter f)
    (SetUpdateCli f) (SetReplaceCli f) (SetUpdateCliFile f) (SetReplaceCliFile f) (SetNoTrim f) req
    (SetRequestProtoFile f) vars (SetCommitId f) (SetCommitRollbackDuration f) (SetCommitRequest f)
    (SetCommitConfirm f) (SetCommitCancel f).

Definition no_input (f : SetFlags) : bool :=
  nilb (SetDelete f) && nilb (SetUpdate f) && nilb (SetReplace f) && nilb (SetUnionReplace f)
  && nilb (SetUpdatePath f) && nilb (SetReplacePath f) && nilb (SetUnionReplacePath f)
  && nilb (SetRequestFile f) && nilb (SetReplaceCli f) && nilb (SetUpdateCli f)
  && String.eqb (SetReplaceCliFile f) "" && String.eqb (SetUpdateCliFile f) "" && nilb (SetRequestProtoFile f)
  && String.eqb (SetCommitId f) "".

Definition both (files values : list string) : bool := negb (nilb files) && negb (nilb values).
Definition mismatch (paths values files : list string) : bool :=
  negb (length paths =? length values)%nat && negb (length paths =? length files)%nat.

(** The flags after the call: sanitised, with the paths expanded. *)
Definition ValidateSetInput (f : SetFlags) : go req_error SetFlags :=
  let f := sanitized f in
  uf ← expand_paths (SetUpdateFile f);
  rf ← expand_paths (SetReplaceFile f);
  req ← expand_paths (SetRequestFile f);
  vars ← or_err errExpand (expandOSPath (SetRequestVars f));
  let f := with_files uf rf req vars f in
  if no_input f then Err errNoInput
  else if both (SetUpdateFile f) (SetUpdateValue f) then Err errFileAndValue
  else if both (SetReplaceFile f) (SetReplaceValue f) then Err errFileAndValue
  else if both (SetUnionReplaceFile f) (SetUnionReplaceValue f) then Err errFileAndValue
  else if mismatch (SetUpdatePath f) (SetUpdateValue f) (SetUpdateFile f) then Err errMissingValue
  else if mismatch (SetReplacePath f) (SetReplaceValue f) (SetReplaceFile f) then Err errMissingValue
  else if mismatch (SetUnionReplacePath f) (SetUnionReplaceValue f) (SetUnionReplaceFile f) then Err errMissingValue
  else Ok f.
End requests.

(** ** Sanitising ends *)

Fixpoint wrapped (n : nat) (s : string) : string :=
  match n with O => s | S n => String "[" (wrapped n s +:+ "]") end.

Lemma has_suffix_split (p s : string) : has_suffix p s = true -> exists t, s = t +:+ p.
Proof.
  induction s as [|c s IH]; cbn.
  - rewrite orb_false_r. intros ->%String.eqb_eq. by exists "".
  - intros [->%String.eqb_eq|Hs]%orb_true_iff; [by exists ""|].
    destruct (IH Hs) as [t ->]. by exists (String c t).
Qed.

Lemma bracketed_split s : bracketed s = true -> exists t, s = String "[" (t +:+ "]").
Proof.
  unfold bracketed. intros [Hp (t & Ht)%has_suffix_split]%andb_true_iff. destruct t as [|c t]; [by subst s|].
  rewrite sapp_cons in Ht. subst s. cbn [has_prefix] in Hp. apply andb_true_iff in Hp as [<-%Ascii.eqb_eq _]. by exists t.
Qed.

Lemma strip_wrap t : strip (String "[" (t +:+ "]")) = t.
Proof.
  unfold strip, sslice. change (sdrop 1 (String "[" (t +:+ "]"))) with (sdrop 0 (t +:+ "]")). rewrite sdrop_0.
  cbn [String.length]. rewrite slength_app. cbn [String.length].
  replace (S (String.length t + 1) - 1 - 1)%nat with (String.length t) by lia. apply stake_app.
Qed.

Lemma strip_loop_spec fuel s :
  (String.length s <= fuel)%nat -> exists n t, strip_loop fuel s = Some t /\ s = wrapped n t /\ bracketed t = false.
Proof.
  revert s; induction fuel as [|fuel IH]; intros s Hl; cbn [strip_loop]; destruct (bracketed s) eqn:Hb;
    try (by exists 0%nat, s).
  - apply bracketed_split in Hb as [t ->]. cbn in Hl. lia.
  - apply bracketed_split in Hb as [t ->]. rewrite strip_wrap.
    destruct (IH t) as (n & u & -> & -> & Hu); [cbn in Hl; rewrite slength_app in Hl; lia|].
    by exists (S n), u.
Qed.

Lemma strip_all_spec s : exists n t, strip_all s = t /\ s = wrapped n t /\ bracketed t = false.
Proof.
  destruct (strip_loop_spec (String.length s) s (Nat.le_refl _)) as (n & t & E & ? & ?).
  exists n, t. unfold strip_all. by rewrite E.
Qed.

(** Sanitising a flag value ends: the loop that strips brackets stops after
    at most as many rounds as the value has bytes, every result is the value
    with as many brackets removed at its front as at its back, no result is
    still bracketed, and the values kept are those other than the empty list
    []. *)
Theorem sanitize_terminates ls :
  Forall2 (fun s t => exists n, s = wrapped n t /\ bracketed t = false)
    (filter (fun s => s <> "[]") ls) (SanitizeArrayFlagValue ls)
  /\ Forall (fun s => is_Some (strip_loop (String.length s) s)) ls.
Proof.
  split.
  - unfold SanitizeArrayFlagValue. induction (filter _ ls) as [|s l IH]; cbn; constructor; [|done].
    destruct (strip_all_spec s) as (n & t & -> & ? & ?). eauto.
  - apply Forall_forall. intros s _. destruct (strip_loop_spec (String.length s) s (Nat.le_refl _)) as (n & t & -> & _). by eexists.
Qed.

(** ** The set request of valid flags *)

Section set_spec.
Context `{MapOrder} `{UnicodeCase} `{GnmiEnums} `{ValueEnv} `{RequestEnv}.

(** The update of an item. *)
Definition make (it : item) : go opt_error Update :=
  match ParsePath (it_path it) with
  | Ok gp => tv ← value (VAny (AStr (it_val it))) (it_enc it); Ok (mkUpdate (Some gp) tv)
  | _ => Err (errInvalidValue "")
  end.

Definition op_eqb (a b : set_op) : bool :=
  match a, b with
  | OpUpdate, OpUpdate | OpReplace, OpReplace | OpUnionReplace, OpUnionReplace => true
  | _, _ => false
  end.
Fixpoint select (o : set_op) (items : list item) (us : list Update) : list Update :=
  match items, us with
  | it :: items, u :: us => if op_eqb (it_op it) o then u :: select o items us else select o items us
  | _, _ => []
  end.

Definition add_items (items : list item) (us : list Update) (m : SetRequest) : SetRequest :=
  mkSetReq (sr_Prefix m) (sr_Delete m) (sr_Replace m ++ select OpReplace items us) (sr_Update m ++ select OpUpdate items us)
    (sr_UnionReplace m ++ select OpUnionReplace items us) (sr_Extension m).

Abbreviation set_runs m os m' := (apply (k := SetReq) m os = Ran m' None).

Lemma set_runs_app m os1 m1 os2 m2 : set_runs m os1 m1 -> set_runs m1 os2 m2 -> set_runs m (os1 ++ os2) m2.
Proof. intros H1' H2'. by rewrite apply_app, H1'. Qed.

Lemma nested_item {A} it u (a : A) add :
  make it = Ok u -> nested Upd [opt_Path (it_path it); opt_Value (VAny (AStr (it_val it))) (it_enc it)] a add = Ran (add u) None.
Proof.
  unfold make. destruct (ParsePath (it_path it)) as [gp| |] eqn:Hp; [|done..]. intros Hm. go_inv.
  unfold nested. cbn [apply]. unfold opt_Path, opt_Value. cbn [on checked]. rewrite Hp. cbn [parsed]. by rewrite H4.
Qed.

Lemma set_item_run m it u : make it = Ok u -> on (set_item it) SetReq m = Ran (add_items [it] [u] m) None.
Proof.
  intros Hm. unfold set_item. destruct (it_op it) eqn:Ho; cbn [op_option on checked opt_Update opt_Replace opt_UnionReplace];
    rewrite (nested_item it u) by done; unfold add_items; cbn [select]; rewrite Ho; cbn; by rewrite !app_nil_r.
Qed.

Lemma add_items_cons it items u us m : add_items items us (add_items [it] [u] m) = add_items (it :: items) (u :: us) m.
Proof.
  unfold add_items. cbn [select sr_Prefix sr_Delete sr_Replace sr_Update sr_UnionReplace sr_Extension].
  destruct (it_op it); cbn [op_eqb]; by rewrite <-?app_assoc, ?app_nil_r.
Qed.

Lemma set_items_run m items us : mapE make items = Ok us -> set_runs m (map set_item items) (add_items items us m).
Proof.
  intros Hm%mapE_ok. revert m; induction Hm as [|it u items us Hu _ IH]; intros m; cbn [map apply].
  - unfold add_items. cbn. rewrite !app_nil_r. by destruct m.
  - rewrite (set_item_run m it u Hu). by rewrite IH, add_items_cons.
Qed.

Definition add_deletes (ps : list GPath) (m : SetRequest) : SetRequest :=
  mkSetReq (sr_Prefix m) (sr_Delete m ++ ps) (sr_Replace m) (sr_Update m) (sr_UnionReplace m) (sr_Extension m).
Lemma deletes_run m ds ps :
  mapE ParsePath (map trim_space ds) = Ok ps -> set_runs m (map (fun p => opt_Delete (trim_space p)) ds) (add_deletes ps m).
Proof.
  intros Hm%mapE_ok. revert m ps Hm; induction ds as [|d ds IH]; intros m ps Hm; inversion Hm as [|? p ? ps' Hp Hps]; subst; cbn [map apply].
  - unfold add_deletes. rewrite app_nil_r. by destruct m.
  - unfold opt_Delete at 1. cbn [on checked]. rewrite Hp. cbn [parsed].
    rewrite (IH _ ps') by done. unfold add_deletes. cbn. by rewrite <-app_assoc.
Qed.

Definition add_extensions (es : list extension) (m : SetRequest) : SetRequest :=
  mkSetReq (sr_Prefix m) (sr_Delete m) (sr_Replace m) (sr_Update m) (sr_UnionReplace m) (sr_Extension m ++ es).
Lemma extensions_run m es : set_runs m (map opt_Extension es) (add_extensions es m).
Proof.
  revert m; induction es as [|e es IH]; intros m; cbn [map apply].
  - unfold add_extensions. rewrite app_nil_r. by destruct m.
  - cbn [on checked opt_Extension done_with]. rewrite IH. unfold add_extensions. cbn. by rewrite <-app_assoc.
Qed.

Definition commit_extensions (f : SetFlags) : list extension :=
  if String.eqb (SetCommitId f) "" then []
  else if SetCommitRequest f then [Ext_CommitRequest (SetCommitId f) (SetCommitRollbackDuration f)]
  else if SetCommitConfirm f then [Ext_CommitConfirm (SetCommitId f)]
  else if SetCommitCancel f then [Ext_CommitCancel (SetCommitId f)]
  else [Ext_CommitSetRollback (SetCommitId f) (SetCommitRollbackDuration f)].
Lemma commit_run m f : set_runs m (commit_option f) (add_extensions (commit_extensions f) m).
Proof.
  unfold commit_option, commit_extensions. repeat case_match; try done.
  unfold add_extensions. cbn. rewrite app_nil_r. by destruct m.
Qed.

Definition spec_set_request (f : SetFlags) (pf : option GPath) (ps : list GPath) (items : list item) (us : list Update)
    (exts : list extension) : SetRequest :=
  mkSetReq (if String.eqb (SetTarget f) "" then pf else set_target (SetTarget f) pf) ps
    (select OpReplace items us) (select OpUpdate items us) (select OpUnionReplace items us) (commit_extensions f ++ exts).

Lemma set_request_spec g f n target pf ps items us exts :
  SetRequestProtoFile f = [] -> SetRequestFile f = [] ->
  set_items g f = Ok items -> parseAdditionalRequestExtensions g = Ok (map opt_Extension exts) ->
  CreatePrefix (SetPrefix f) "" = Ok pf -> mapE ParsePath (map trim_space (SetDelete f)) = Ok ps -> mapE make items = Ok us ->
  CreateSetRequest g f n target = Ok ([spec_set_request f pf ps items us exts], None).
Proof.
  intros Hp Hf Hi He Hpf Hps Hus. unfold CreateSetRequest. rewrite Hp, Hf. cbn [nilb negb].
  unfold set_options. rewrite Hi, He. cbn [mbind go_bind]. unfold NewSetRequest.
  assert (set_runs (zero_msg SetReq) [opt_Prefix (SetPrefix f); opt_Target (SetTarget f)]
    (mkSetReq (if String.eqb (SetTarget f) "" then pf else set_target (SetTarget f) pf) [] [] [] [] [])) as Hh.
  { cbn [apply]. unfold opt_Prefix, opt_Target. cbn [on checked]. rewrite Hpf. cbn. by destruct (String.eqb (SetTarget f) ""). }
  erewrite (set_runs_app _ [_; _]); [reflexivity|exact Hh|].
  eapply set_runs_app; [by apply deletes_run|]. eapply set_runs_app; [by apply set_items_run|].
  eapply set_runs_app; [apply commit_run|]. rewrite extensions_run. done.
Qed.
End set_spec.

(** The set request of the command line: when every inline item, file and
    value is read, every path parses and every value converts, the request holds
    exactly what the flags say: the prefix with the target, the deletes in order,
    the updates, replaces and union-replaces each in the order inline items, path
    items, CLI text, CLI file, and the commit extension followed by the
    registered ones. *)
Theorem CreateSetRequest_spec `{MapOrder} `{UnicodeCase} `{ValueEnv} `{RequestEnv}
    g f n target pf ps items us exts :
  SetRequestProtoFile f = [] -> SetRequestFile f = [] ->
  set_items g f = Ok items -> parseAdditionalRequestExtensions g = Ok (map opt_Extension exts) ->
  CreatePrefix (SetPrefix f) "" = Ok pf -> mapE ParsePath (map trim_space (SetDelete f)) = Ok ps -> mapE make items = Ok us ->
  CreateSetRequest g f n target = Ok ([spec_set_request f pf ps items us exts], None).
Proof. apply set_request_spec. Qed.

(** ** Accepted flags never panic *)

Lemma foldM_no_panic {E S A} (f : S -> A -> go E S) l s : (forall s x, f s x <> Panic) -> foldM f l s <> Panic.
Proof.
  intros Hf. revert s; induction l as [|x l IH]; intros s; cbn; [done|].
  specialize (Hf s x). destruct (f s x); cbn; [apply IH|done|done].
Qed.

Lemma bind_no_panic {E A B} (m : go E A) (f : A -> go E B) :
  m <> Panic -> (forall a, m = Ok a -> f a <> Panic) -> (m ≫= f) <> Panic.
Proof. destruct m; cbn; auto. Qed.

Lemma or_err_no_panic {A} e (o : option A) : or_err e o <> Panic.
Proof. by destruct o. Qed.

#[local] Hint Resolve or_err_no_panic : core.

Section no_panic.
Context `{MapOrder} `{UnicodeCase} `{GnmiEnums} `{ValueEnv} `{RequestEnv}.

Lemma readFile_no_panic name : readFile name <> Panic.
Proof. apply bind_no_panic; [auto|]. intros a _. by case_match; auto. Qed.

Lemma extensions_no_panic g : parseAdditionalRequestExtensions g <> Panic.
Proof.
  unfold parseAdditionalRequestExtensions. case_match; [done|]. apply bind_no_panic.
  - apply foldM_no_panic. intros m p. unfold parse_registered. by repeat case_match.
  - intros m _. apply bind_no_panic; [|done]. unfold createAdditionalRequestExtensions. repeat case_match; try done.
    apply bind_no_panic; [auto|]. intros exts _. apply mapE_no_panic. intros kv _.
    repeat (apply bind_no_panic; [auto|intros ? _]). done.
Qed.

(** Every path has its value or file. *)
Definition matched (paths files values : list string) : Prop :=
  if use_files files values then (length paths <= length files)%nat else (length paths <= length values)%nat.

Lemma path_items_no_panic g f o paths files values : matched paths files values -> path_items g f o paths files values <> Panic.
Proof.
  intros Hm. apply mapE_no_panic. intros [i p] Hin.
  apply list_elem_of_lookup in Hin as [j Hj]. rewrite list_lookup_imap in Hj.
  destruct (paths !! j) as [q|] eqn:Hq; [|done]. injection Hj as <- <-.
  apply lookup_lt_Some in Hq. unfold path_item. unfold matched in Hm. destruct (use_files files values).
  - destruct (lookup_lt_is_Some_2 files j) as [x ->]; [lia|]. apply bind_no_panic; [apply readFile_no_panic|done].
  - destruct (lookup_lt_is_Some_2 values j) as [x ->]; [lia|]. done.
Qed.

Lemma cli_file_no_panic o file : cli_file o file <> Panic.
Proof. unfold cli_file. case_match; [done|]. apply bind_no_panic; [apply readFile_no_panic|done]. Qed.

Lemma set_items_no_panic g f :
  matched (SetUpdatePath f) (SetUpdateFile f) (SetUpdateValue f) ->
  matched (SetReplacePath f) (SetReplaceFile f) (SetReplaceValue f) ->
  matched (SetUnionReplacePath f) (SetUnionReplaceFile f) (SetUnionReplaceValue f) -> set_items g f <> Panic.
Proof.
  intros Hu Hr Hx. assert (forall o l, mapE (inline_item f o) l <> Panic) as Hi.
  { intros o l. apply mapE_no_panic. intros u _. unfold inline_item. by repeat case_match. }
  unfold set_items.
  repeat (apply bind_no_panic; [(apply Hi || by apply path_items_no_panic || apply cli_file_no_panic)|intros ? _]). done.
Qed.

Lemma set_options_total g f os : set_options g f = Ok os -> Forall total os.
Proof.
  unfold set_options. intros Ho. go_inv.
  assert (forall o, (exists a, built a o) -> total o) as Hb by (intros o [a Ha]; by eapply built_total).
  assert (total (opt_Target (SetTarget f))) as Ht.
  { destruct (String.eqb_spec (SetTarget f) "") as [->|Hne]; [by intros k m; cbn; eauto|].
    apply Hb. eexists. by constructor. }
  assert (forall it, total (set_item it)) as Hs.
  { intros [o p v e]. apply Hb. destruct o; eexists; constructor; repeat constructor; eexists; constructor. }
  assert (Forall total x0) as Hx.
  { revert H5. unfold parseAdditionalRequestExtensions. case_match; [intros [= <-]; constructor|]. intros He. go_inv.
    apply Forall_forall. intros o (e & <- & _)%list_elem_of_In%in_map_iff. apply Hb. eexists. constructor. }
  assert (Forall total (commit_option f)) as Hc.
  { unfold commit_option. repeat case_match; repeat constructor; apply Hb; eexists; constructor. }
  assert (Forall total (map (fun p => opt_Delete (trim_space p)) (SetDelete f))) as Hd.
  { apply Forall_forall. intros o (p & <- & _)%list_elem_of_In%in_map_iff. apply Hb. eexists. constructor. }
  assert (Forall total (map set_item x)) as Hit.
  { apply Forall_forall. by intros o (p & <- & _)%list_elem_of_In%in_map_iff. }
  cbn [app]. repeat (apply Forall_cons; split); [apply Hb; eexists; constructor|done|].
  by repeat (apply Forall_app; split).
Qed.

Lemma validated_matched (paths files values : list string) :
  both files values = false -> mismatch paths values files = false -> matched paths files values.
Proof.
  unfold both, mismatch, matched, use_files. intros Hb Hm.
  rewrite andb_false_iff, !negb_false_iff, !Nat.eqb_eq in Hm.
  destruct files, values; cbn in *; done || lia.
Qed.

Lemma set_input_checked f0 f :
  ValidateSetInput f0 = Ok f ->
  matched (SetUpdatePath f) (SetUpdateFile f) (SetUpdateValue f) /\
  matched (SetReplacePath f) (SetReplaceFile f) (SetReplaceValue f) /\
  matched (SetUnionReplacePath f) (SetUnionReplaceFile f) (SetUnionReplaceValue f).
Proof.
  unfold ValidateSetInput. intros Hv. apply bind_ok in Hv as (uf & _ & Hv). apply bind_ok in Hv as (rf & _ & Hv).
  apply bind_ok in Hv as (req & _ & Hv). apply bind_ok in Hv as (vars & _ & Hv).
  revert Hv. generalize (with_files uf rf req vars (sanitized f0)) as f1. intros f1.
  do 7 (case_match; [done|]). intros [= <-]. split_and!; by apply validated_matched.
Qed.
End no_panic.

(** The checks of [ValidateSetInput] are enough: a set request built from
    the flags it accepts never panics, although values and files are indexed by
    the position of their path and nested options run on new messages; it is a
    request, with an error or not, or a reading or format error. *)
Theorem accepted_flags_never_panic `{MapOrder} `{UnicodeCase} `{GnmiEnums} `{ValueEnv} `{RequestEnv} g f0 f n target :
  ValidateSetInput f0 = Ok f -> SetRequestFile f = [] -> CreateSetRequest g f n target <> Panic.
Proof.
  intros Hv Hf. destruct (set_input_checked f0 f Hv) as (Hu & Hr & Hx). unfold CreateSetRequest. rewrite Hf. cbn [nilb negb].
  case_match.
  { unfold CreateSetRequestFromProtoFile.
    assert (mapE (fun r => or_err errProto (read_proto_request r)) (SetRequestProtoFile f) <> Panic)
      by (apply mapE_no_panic; auto). by destruct (mapE _ _). }
  apply bind_no_panic.
  - unfold set_options. apply bind_no_panic; [by apply set_items_no_panic|]. intros its _.
    apply bind_no_panic; [apply extensions_no_panic|done].
  - intros os Ho%set_options_total. unfold NewSetRequest.
    by destruct (apply_total (zero_msg SetReq) os Ho) as (m & e & ->).
Qed.

Section commit.
Context `{MapOrder} `{UnicodeCase} `{GnmiEnums} `{ValueEnv} `{RequestEnv}.

(** An option that leaves the extensions of a set request alone. *)
Definition keeps_extensions (o : GNMIOption) : Prop :=
  forall m m' e, on o SetReq m = Ran m' e -> sr_Extension m' = sr_Extension m.

Lemma apply_split {k} (m m' : msg k) a b :
  apply m (a ++ b) = Ran m' None -> exists m1, apply m a = Ran m1 None /\ apply m1 b = Ran m' None.
Proof. rewrite apply_app. destruct (apply m a) as [m1 [e|]|]; intros Ha; [done|eauto|done]. Qed.

Lemma apply_keeps os (m m' : msg SetReq) e :
  Forall keeps_extensions os -> apply m os = Ran m' e -> sr_Extension m' = sr_Extension m.
Proof.
  intros Hos. revert m; induction Hos as [|o os Ho _ IH]; intros m; cbn; [by intros [= ->]|].
  destruct (on o SetReq m) as [m1 [e1|]|] eqn:E; [|intros Ha|done].
  - intros [= -> _]. by eapply Ho.
  - rewrite (IH m1 Ha). by eapply Ho.
Qed.

Lemma set_item_keeps it : keeps_extensions (set_item it).
Proof.
  intros m m' e. unfold set_item. destruct (it_op it); cbn [op_option on checked opt_Update opt_Replace opt_UnionReplace];
    unfold nested; case_match; try done; case_match; by intros [= <- _].
Qed.
Lemma delete_keeps p : keeps_extensions (opt_Delete p).
Proof. intros m m' e. unfold opt_Delete. cbn [on checked]. destruct (parsed _) as [[gp|] err]; by intros [= <- _]. Qed.

Lemma file_commit_extension f r os m m' :
  sf_CommitID r <> "" -> file_commit f r = Ok os -> apply (k := SetReq) m os = Ran m' None ->
  exists e, sr_Extension m' = sr_Extension m ++ [e] /\
    (e = Ext_CommitRequest (SetCommitId f) (SetCommitRollbackDuration f) \/ e = Ext_CommitCancel (SetCommitId f) \/
     e = Ext_CommitConfirm (SetCommitId f) \/ e = Ext_CommitSetRollback (SetCommitId f) (SetCommitRollbackDuration f)).
Proof.
  unfold file_commit. intros Hne%String.eqb_neq. rewrite Hne.
  repeat case_match; intros [= <-] [= <-]; cbn; eauto 7.
Qed.
End commit.

(** A request template names a commit id and a rollback duration, and the
    request does not carry them: its commit extension is built from the command
    line's id and duration, whatever the file says. *)
Theorem file_commit_ignored `{UnicodeCase} `{ValueEnv} `{RequestEnv} g f r opts m :
  sf_CommitID r <> "" -> file_options g f r = Ok opts -> NewSetRequest opts = Ran m None ->
  exists e, sr_Extension m = [e] /\
    (e = Ext_CommitRequest (SetCommitId f) (SetCommitRollbackDuration f) \/ e = Ext_CommitCancel (SetCommitId f) \/
     e = Ext_CommitConfirm (SetCommitId f) \/ e = Ext_CommitSetRollback (SetCommitId f) (SetCommitRollbackDuration f)).
Proof.
  intros Hid Ho Hm. unfold file_options in Ho. apply bind_ok in Ho as (its & _ & Ho).
  apply bind_ok in Ho as (cm & Hcm & [= <-]). unfold NewSetRequest in Hm.
  apply apply_split in Hm as (m1 & Hm1 & Hm). apply apply_split in Hm as (m2 & Hm2 & Hm).
  destruct (file_commit_extension f r _ m2 m Hid Hcm Hm) as (e & He & Hc). exists e. split; [|done].
  rewrite He, (apply_keeps _ _ _ _ ltac:(apply Forall_forall; intros o (p & <- & _)%list_elem_of_In%in_map_iff; apply delete_keeps) Hm2).
  by rewrite (apply_keeps _ _ _ _ ltac:(apply Forall_forall; intros o (p & <- & _)%list_elem_of_In%in_map_iff; apply set_item_keeps) Hm1).
Qed.

(** ** Witnesses *)

(** Files hold their own name; templates name the commit "7". *)
Definition ex_env : RequestEnv := {|
  read_data f := Some f; yaml_to_json s := Some s; read_proto_request _ := None;
  load_template _ t := Some (mkSetFile [mkUpdItem "/a" (YScalar (AStr "v")) "string"] [] [] ["/b"] "7" "request" 60);
  json_Encode_html v := match v with AStr s => Some s | _ => None end;
  descriptors _ := false; extensions_json _ := None; encode_extension _ _ := None; expandOSPath p := Some p |}.
Definition ex_flags : SetFlags :=
  mkSetFlags "oc:/" "r1" [" /x "] ["[/a:::uint:::1:::2]"; "[]"; "/c:::string:::1:::2"] [] [] ["/d"] [] [] ["on"] [] [] [] [] []
    ":::" [] ["l1"; "l2"] "" "" false [] [] "" "9" 0 false true false.
Definition ex_global : GlobalFlags := mkGlobal "ascii" "" [] [].

Lemma accepted_flags_never_panic_witness :
  exists f, ValidateSetInput (H3 := ex_env) ex_flags = Ok f /\
    CreateSetRequest (H := order_bwd) (H0 := case_ascii) (H2 := plain_values) (H3 := ex_env) ex_global f 0 "r1" <> Panic.
Proof.
  eexists. split; [vm_compute; reflexivity|].
  apply (accepted_flags_never_panic (H := order_bwd) (H0 := case_ascii) (H1 := proto_enums) (H2 := plain_values) (H3 := ex_env)
    ex_global ex_flags); by vm_compute.
Defined.

(** The flags of the example and the request they make. *)
Definition ex_flags2 : SetFlags :=
  mkSetFlags "oc:/" "r1" [" /x "] ["/a:::int:::-1"] ["/c:::string:::1:::2"] [] ["/d"] [] [] ["on"] [] [] [] [] []
    ":::" [] ["l1"; "l2"] "" "" false [] [] "" "9" 0 false true false.
Definition a_path (n : string) : GPath := mkGPath "" [mkPathElem n None] "".

Lemma CreateSetRequest_spec_witness :
  CreateSetRequest (H := order_bwd) (H0 := case_ascii) (H2 := plain_values) (H3 := ex_env) ex_global ex_flags2 0 "r1"
  = Ok ([mkSetReq (Some (mkGPath "oc" [] "r1")) [a_path "x"]
           [mkUpdate (Some (a_path "c")) (Some (StringVal "1:::2")); mkUpdate (Some (mkGPath "cli" [] "")) (Some (AsciiVal ("l1" +:+ newline +:+ "l2")))]
           [mkUpdate (Some (a_path "a")) (Some (IntVal (-1))); mkUpdate (Some (a_path "d")) (Some (AsciiVal "on"))] [] [Ext_CommitConfirm "9"]], None).
Proof.
  set (items := [mkSetItem OpUpdate "/a" "-1" "int"; mkSetItem OpReplace "/c" "1:::2" "string"; mkSetItem OpUpdate "/d" "on" "ascii";
    mkSetItem OpReplace "cli:/" ("l1" +:+ newline +:+ "l2") "ascii"]).
  apply (CreateSetRequest_spec (H := order_bwd) (H0 := case_ascii) (H1 := plain_values) (H2 := ex_env) ex_global ex_flags2 0 "r1"
    (Some (mkGPath "oc" [] "")) [a_path "x"] items
    [mkUpdate (Some (a_path "a")) (Some (IntVal (-1))); mkUpdate (Some (a_path "c")) (Some (StringVal "1:::2"));
     mkUpdate (Some (a_path "d")) (Some (AsciiVal "on")); mkUpdate (Some (mkGPath "cli" [] "")) (Some (AsciiVal ("l1" +:+ newline +:+ "l2")))] []);
    by vm_compute.
Defined.

(** The template names the commit "7" for 60 ns, the command line "9". *)
Lemma file_commit_ignored_witness :
  exists r m, load_template (RequestEnv := ex_env) 0 "r1" = Some r /\ sf_CommitID r = "7" /\
    (exists e, sr_Extension m = [e] /\
    (e = Ext_CommitRequest "9" 0 \/ e = Ext_CommitCancel "9" \/ e = Ext_CommitConfirm "9" \/ e = Ext_CommitSetRollback "9" 0)).
Proof.
  destruct (is_ok_some (r ← or_err errTemplateExec (load_template (RequestEnv := ex_env) 0 "r1");
    file_options (H0 := case_ascii) (H2 := plain_values) (H3 := ex_env) ex_global ex_flags2 r)) as [opts Ho]; [by vm_compute|].
  eexists _, _. split; [reflexivity|]. split; [reflexivity|].
  apply (file_commit_ignored (H := case_ascii) (H0 := plain_values) (H1 := ex_env) ex_global ex_flags2
    (mkSetFile [mkUpdItem "/a" (YScalar (AStr "v")) "string"] [] [] ["/b"] "7" "request" 60)
    opts (mkSetReq None [a_path "b"] [] [mkUpdate (Some (a_path "a")) (Some (StringVal "v"))] [] [Ext_CommitRequest "9" 0]));
    [done|exact Ho|]. vm_compute in Ho. injection Ho as <-. by vm_compute.
Defined.

(** A YAML map with a key that is not a string stops the program. *)
Example convert_yaml_panics : convert_yaml (YMap [(None, YScalar ANil)]) = Panic.
Proof. reflexivity. Qed.
