(* ===== verification/AppCluster.v ===== *)
(** * The cluster of the application (pkg/app/clustering.go)

    The leader of a cluster of [gnmic subscribe] processes hands each target to a
    member: it keeps the table of the members' API services, picks the member
    whose tags match a target best and that holds the fewest targets, posts the
    target to it, and waits for its lock. This is the cluster of the
    application; the collector has its own (Placement.v and the files after
    it).

    The locks are read from the locker: an argument, as are the answers of the
    members. Loops over maps take any order. *)

From stdpp Require Import strings.
From S2P Require Import Prelude GoStrings.

#[local] Open Scope nat_scope.

Record Service := mkSvc { sv_ID : string; sv_Address : string; sv_Tags : list string }.
#[export] Instance service_eq_dec : EqDecision Service.
Proof. solve_decision. Defined.
Abbreviation services := (gmap string Service).

Inductive cluster_error := errNotFound | errNoMoreSuitableServices | errLocker | errAssign | errDone | errRequests (n : nat).

(** [strings.TrimSuffix(n, "-api")] *)
Definition api_suffix : string := "-api".
Definition TrimSuffix (suffix s : string) : string :=
  if has_suffix suffix s then stake (String.length s - String.length suffix) s else s.
Definition instance_of (id : string) : string := TrimSuffix api_suffix id.
Definition api_id (instance : string) : string := instance +:+ api_suffix.

(** ** The table of members *)

Definition updateServices (srvs : list Service) (current : services) : services :=
  if nilb srvs then ∅
  else if size current =? 0 then foldl (fun m s => <[sv_ID s := s]> m) current srvs
  else
    let new := foldl (fun m s => <[sv_ID s := s]> m) (∅ : services) srvs in
    new ∪ filter (fun kv => is_Some (new !! kv.1)) current.

Definition serviceDenied (id : string) (denied : list string) : bool := existsb (String.eqb id) denied.

(** The number of leading tags of a service that are those of the target. *)
Fixpoint tag_match (stags tags : list string) : nat :=
  match stags, tags with
  | s :: stags, t :: tags => if String.eqb s t then S (tag_match stags tags) else 0
  | _, _ => 0
  end.

(** Minus the loops over maps, below. *)
Section clustering.
Context `{MapOrder}.

Definition getInstancesTagsMatches (srvs : services) (tags : list string) : gmap string nat :=
  if nilb tags then ∅
  else foldl (fun m (kv : string * Service) => <[instance_of kv.1 := tag_match (sv_Tags kv.2) tags]> m) ∅ (range srvs).

(** [high] is -1 at first, [None] here. *)
Definition highest_step (st : list string * option nat) (kv : string * nat) : list string * option nat :=
  match st.2 with
  | None => ([instance_of kv.1], Some kv.2)
  | Some high => if high <? kv.2 then ([instance_of kv.1], Some kv.2)
                 else if high =? kv.2 then (st.1 ++ [instance_of kv.1], Some high) else st
  end.
Definition getHighestTagsMatches (tagsCount : gmap string nat) : list string :=
  (foldl highest_step ([], None) (range tagsCount)).1.

(** [locks] maps the lock of each target to the instance that holds it. *)
Definition count_lock (load : gmap string nat) (kv : string * string) : gmap string nat :=
  <[kv.2 := S (default 0 (load !! kv.2))]> load.
Definition add_idle (load : gmap string nat) (kv : string * Service) : gmap string nat :=
  match load !! instance_of (sv_ID kv.2) with None => <[instance_of (sv_ID kv.2) := 0]> load | Some _ => load end.
Definition getInstancesLoad (srvs : services) (locks : option (gmap string string)) (instances : list string)
    : go cluster_error (gmap string nat) :=
  match locks with
  | None => Err errLocker
  | Some locks =>
      let load := foldl add_idle (foldl count_lock ∅ (range locks)) (range srvs) in
      Ok (if nilb instances then load
          else foldl (fun m i => <[i := default 0 (load !! i)]> m) ∅ instances)
  end.

Definition low_step (st : string * option nat) (kv : string * nat) : string * option nat :=
  match st.2 with
  | None => (kv.1, Some kv.2)
  | Some low => if kv.2 <? low then (kv.1, Some kv.2) else st
  end.
Definition getLowLoadInstance (load : gmap string nat) : string := (foldl low_step ("", None) (range load)).1.

Definition high_step (st : string * option nat) (kv : string * nat) : string * option nat :=
  match st.2 with
  | None => (kv.1, Some kv.2)
  | Some high => if high <? kv.2 then (kv.1, Some kv.2) else st
  end.
Definition getHighAndLowInstance (load : gmap string nat) : string * string :=
  ((foldl high_step ("", None) (range load)).1, (foldl low_step ("", None) (range load)).1).

(** The lock keys end in the target's name. *)
Definition getTargetToInstanceMapping (locks : option (gmap string string)) : go cluster_error (gmap string string) :=
  match locks with
  | None => Err errLocker
  | Some locks => Ok (foldl (fun m (kv : string * string) => <[path_Base kv.1 := kv.2]> m) ∅ (range locks))
  end.
Definition getInstanceTargets (locks : option (gmap string string)) (instance : string) : go cluster_error (list string) :=
  match locks with
  | None => Err errLocker
  | Some locks =>
      Ok (sort_strings (omap (fun kv : string * string => if String.eqb kv.2 instance then Some (path_Base kv.1) else None) (range locks)))
  end.

(** ** Choosing a member *)

(** The first instance that is not denied, when no load is known. *)
Fixpoint first_allowed (srvs : services) (denied : list string) (l : list string) : go cluster_error (option Service) :=
  match l with
  | [] => Err errNoMoreSuitableServices
  | n :: l => if serviceDenied (api_id n) denied then first_allowed srvs denied l else Ok (srvs !! api_id n)
  end.

Definition matching_instances (srvs : services) (tags : list string) : list string :=
  let tagCount := getInstancesTagsMatches srvs tags in
  if size tagCount =? 0 then instance_of <$> (range srvs).*1 else getHighestTagsMatches tagCount.

Definition select_by_load (srvs : services) (denied matching : list string) (load : gmap string nat)
    : go cluster_error (option Service) :=
  if size load =? 0 then first_allowed srvs denied matching
  else
    let load := foldl (fun m d => delete (instance_of d) m) load denied in
    if size load =? 0 then Err errNoMoreSuitableServices
    else
      let ss := getLowLoadInstance load in
      Ok (match srvs !! api_id ss with Some srv => Some srv | None => srvs !! ss end).

Definition selectService (srvs : services) (locks : option (gmap string string)) (tags denied : list string)
    : go cluster_error (option Service) :=
  match range srvs with
  | [] => Err errNotFound
  | [(id, s)] => if serviceDenied id denied then Err errNoMoreSuitableServices else Ok (Some s)
  | _ =>
      match matching_instances srvs tags with
      | [i] => if serviceDenied (api_id i) denied then Err errNoMoreSuitableServices else Ok (srvs !! api_id i)
      | matching => load ← getInstancesLoad srvs locks matching; select_by_load srvs denied matching load
      end
  end.

(** ** Handing a target to a member *)

(** The world of one call, by moments: one per choice of a member and one per
    look at the lock of the target. The context is over by the end of the n-th
    when [w_expired n] says so; [w_locks n] are the locks read for the load of the
    members and [w_values n] those read for the target's key, [None] when they
    cannot be read; a member takes the target when [w_assign n] says so.
    [w_timeout] is [target-assignment-timeout], in nanoseconds. *)
Record world := mkWorld {
  w_expired : nat -> bool;
  w_locks : nat -> option (gmap string string);
  w_values : nat -> option (gmap string string);
  w_assign : nat -> Service -> bool;
  w_timeout : Z
}.
Definition lockWaitTime : Z := 100000000.

(** Where [dispatchTarget] is, once the target was found not to be locked: at
    [SELECTSERVICE], or at [WAIT] for the lock of a member that took the target. *)
Inductive dispatching := Selecting (denied : list string) | Waiting (denied : list string) (s : Service) (retries : nat).

Definition too_long (w : world) (retries : nat) : bool := (w_timeout w <=? (Z.of_nat retries + 1) * lockWaitTime)%Z.

(** One moment. An erring look at the lock is not counted; the target is
    withdrawn from a member that waited too long, and [unassignTarget]'s error is
    only logged. *)
Definition select_step (n : nat) (srvs : services) (w : world) (tags denied : list string) : dispatching + go cluster_error (Service * nat) :=
  if w_expired w n then inr (Err errDone)
  else match selectService srvs (w_locks w n) tags denied with
  | Err e => inr (Err e)
  | Panic => inr Panic
  | Ok None => inl (Selecting denied)
  | Ok (Some s) => inl (if w_assign w n s then Waiting denied s 0 else Selecting (denied ++ [sv_ID s]))
  end.
Definition wait_step (n : nat) (w : world) (key : string) (denied : list string) (s : Service) (retries : nat)
    : dispatching + go cluster_error (Service * nat) :=
  let pause retries := if w_expired w n then inr (Err errDone) else inl (Waiting denied s retries) in
  match w_values w n with
  | None => pause retries
  | Some values =>
      if String.eqb (default "" (values !! key)) ""
      then if too_long w (S retries) then inl (Selecting denied) else pause (S retries)
      else inr (Ok (s, n))
  end.
Definition dispatch_step (n : nat) (srvs : services) (w : world) (key : string) (tags : list string) (st : dispatching)
    : dispatching + go cluster_error (Service * nat) :=
  match st with
  | Selecting denied => select_step n srvs w tags denied
  | Waiting denied s retries => wait_step n w key denied s retries
  end.

(** [None]: the moments given are over. *)
Fixpoint dispatch_loop (fuel n : nat) (srvs : services) (w : world) (key : string) (tags : list string) (st : dispatching)
    : option (go cluster_error (Service * nat)) :=
  match fuel with
  | O => None
  | S fuel => match dispatch_step n srvs w key tags st with
              | inr r => Some r
              | inl st => dispatch_loop fuel (S n) srvs w key tags st
              end
  end.

(** [dispatchTarget]; [locked] is the locker's answer for the target. *)
Definition dispatchTarget (fuel : nat) (srvs : services) (locked : option bool) (w : world) (key : string) (tags denied : list string)
    : option (go cluster_error (option (Service * nat))) :=
  match locked with
  | None => Some (Err errLocker)
  | Some true => Some (Ok None)
  | Some false => (fun r : go cluster_error (Service * nat) => Some <$> r) <$> dispatch_loop fuel 0 srvs w key tags (Selecting denied)
  end.

(** [deleteTarget]: [Do] gives no response with an error, and the code closes
    the body of the response it did not get. *)
Definition deleteTarget (reachable : Service -> bool) (srvs : services) : go cluster_error () :=
  foldM (fun _ (kv : string * Service) => if reachable kv.2 then Ok () else Panic) (range srvs) ().

(** ** Rebalancing *)

(** One turn of the loop of [clusterRebalanceTargets] on the locks: [None] when
    it ends there, the locks after it and whether it goes on otherwise. The
    target moved is the first one of the most loaded instance that has a
    configuration; it is unassigned, and dispatched again to the member [pick]
    gives for it then. When the dispatch fails the turn is the last one. *)
Definition rebalance_turn (srvs : services) (known : string -> bool)
    (pick : gmap string string -> string -> option string) (key : string -> string) (locks : gmap string string)
    : option (gmap string string * bool) :=
  match getInstancesLoad srvs (Some locks) [] with
  | Ok load =>
      let '(highest, lowest) := getHighAndLowInstance load in
      let delta := default 0 (load !! highest) - default 0 (load !! lowest) in
      if delta <? 2 then None
      else match getInstanceTargets (Some locks) highest with
           | Ok names =>
               match List.find known names with
               | None => None
               | Some name =>
                   let locks := delete (key name) locks in
                   match pick locks name with None => Some (locks, false) | Some i => Some (<[key name := i]> locks, true) end
               end
           | _ => None
           end
  | _ => None
  end.

Definition max_iter (srvs : services) (locks : gmap string string) : nat :=
  match getInstancesLoad srvs (Some locks) [] with
  | Ok load => let '(highest, lowest) := getHighAndLowInstance load in
               Nat.min 100 ((default 0 (load !! highest) - default 0 (load !! lowest)) / 2)
  | _ => 0
  end.

Fixpoint rebalance_loop (turns : nat) (srvs : services) (known : string -> bool)
    (pick : gmap string string -> string -> option string) (key : string -> string) (locks : gmap string string)
    : gmap string string :=
  match turns with
  | O => locks
  | S turns => match rebalance_turn srvs known pick key locks with
               | None => locks
               | Some (locks, false) => locks
               | Some (locks, true) => rebalance_loop turns srvs known pick key locks
               end
  end.
Definition clusterRebalanceTargets (srvs : services) (known : string -> bool)
    (pick : gmap string string -> string -> option string) (key : string -> string) (locks : gmap string string)
    : gmap string string :=
  rebalance_loop (max_iter srvs locks) srvs known pick key locks.

(** ** Draining an instance *)

(** [handleClusteringDrainInstance], on each target of the instance: it is
    unassigned, which fails when [unassigned] says so, and dispatched again,
    the drained member being denied. *)
Definition drain_target (unassigned known : string -> bool) (pick : gmap string string -> string -> option string)
    (key : string -> string) (locks : gmap string string) (t : string) : gmap string string :=
  if negb (unassigned t) then locks
  else
    let locks := delete (key t) locks in
    if known t then match pick locks t with None => locks | Some i => <[key t := i]> locks end else locks.
Definition drain_instance (unassigned known : string -> bool) (pick : gmap string string -> string -> option string)
    (key : string -> string) (id : string) (locks : gmap string string) : go cluster_error (gmap string string) :=
  names ← getInstanceTargets (Some locks) id; Ok (foldl (drain_target unassigned known pick key) locks names).
End clustering.

(** ** Lemmas *)

Lemma TrimSuffix_app suffix s : TrimSuffix suffix (s +:+ suffix) = s.
Proof.
  unfold TrimSuffix. rewrite has_suffix_app, slength_app.
  replace (String.length s + String.length suffix - String.length suffix) with (String.length s) by lia. apply stake_app.
Qed.
Lemma instance_api_id n : instance_of (api_id n) = n.
Proof. apply TrimSuffix_app. Qed.
#[export] Instance api_id_inj : Inj (=) (=) api_id.
Proof. intros a b Hab. by rewrite <-(instance_api_id a), Hab, instance_api_id. Qed.

(** The services as they are registered: under their identifier, which is the
    name of the instance and "-api"; the name has no such ending itself. *)
Definition registered (srvs : services) : Prop :=
  map_Forall (fun id s => sv_ID s = id /\ exists n, id = api_id n /\ has_suffix api_suffix n = false) srvs.

Section clustering_lemmas.
Context `{MapOrder}.

Lemma registered_id srvs id s : registered srvs -> srvs !! id = Some s ->
  sv_ID s = id /\ api_id (instance_of id) = id /\ instance_of (instance_of id) = instance_of id.
Proof.
  intros Hr Hs. destruct (Hr id s Hs) as (Hid & n & -> & Hn). rewrite instance_api_id. split_and!; [done|done|].
  unfold instance_of, TrimSuffix. by rewrite Hn.
Qed.

Lemma fill_lookup {A B} `{Countable K} (f : A -> K) (g : A -> B) (l : list A) (k : K) (b : B) :
  NoDup (f <$> l) ->
  foldl (fun m x => <[f x := g x]> m) (∅ : gmap K B) l !! k = Some b <-> exists x, x ∈ l /\ k = f x /\ b = g x.
Proof.
  intros Hnd. assert (Hf : forall m : gmap K B, foldl (fun m x => <[f x := g x]> m) m l = list_to_map ((fun x => (f x, g x)) <$> l) ∪ m).
  { intros m. rewrite <-foldl_insert_list_to_map by by rewrite <-list_fmap_compose.
    revert m. clear Hnd. induction l as [|x l IH]; intros m; cbn; [done|]. apply IH. }
  rewrite Hf, (right_id_L ∅ (∪)), <-elem_of_list_to_map by by rewrite <-list_fmap_compose.
  rewrite list_elem_of_fmap. split; [intros (x & [= -> ->] & Hx)|intros (x & Hx & -> & ->)]; eauto.
Qed.

Lemma instances_NoDup srvs : registered srvs -> NoDup ((fun kv : string * Service => instance_of kv.1) <$> range srvs).
Proof.
  intros Hr. apply NoDup_fmap_2_strong.
  - intros [a s] [b t] Ha%elem_of_range Hb%elem_of_range Hab. cbn in Hab.
    destruct (registered_id srvs a s Hr Ha) as (_ & Ea & _), (registered_id srvs b t Hr Hb) as (_ & Eb & _).
    assert (a = b) as -> by congruence. congruence.
  - eapply NoDup_fmap_1, NoDup_range_fst.
Qed.

Lemma tags_matches_lookup srvs tags i c :
  registered srvs -> tags <> [] ->
  getInstancesTagsMatches srvs tags !! i = Some c <->
  exists id s, srvs !! id = Some s /\ i = instance_of id /\ c = tag_match (sv_Tags s) tags.
Proof.
  intros Hr Ht. unfold getInstancesTagsMatches. destruct tags; [done|]. cbn [nilb].
  rewrite (fill_lookup (fun kv : string * Service => instance_of kv.1) (fun kv => tag_match (sv_Tags kv.2) (s :: tags)))
    by by apply instances_NoDup.
  split.
  - intros ([id v] & Hin%elem_of_range & -> & ->). by exists id, v.
  - intros (id & v & Hv & -> & ->). exists (id, v). split; [by apply elem_of_range|done].
Qed.

Lemma highest_spec (l : list (string * nat)) :
  l <> [] ->
  exists h, (foldl highest_step ([], None) l).2 = Some h /\ (exists kv, kv ∈ l /\ kv.2 = h) /\ (forall kv, kv ∈ l -> kv.2 <= h)
    /\ forall i, i ∈ (foldl highest_step ([], None) l).1 <-> exists kv, kv ∈ l /\ kv.2 = h /\ i = instance_of kv.1.
Proof.
  induction l as [|[k c] l IH] using rev_ind; [done|]. intros _. rewrite foldl_snoc.
  destruct (decide (l = [])) as [->|Hne].
  { exists c. cbn. split_and!; [done|exists (k, c); split; [by left|done]|intros kv ->%list_elem_of_singleton; cbn; lia|].
    intros i. rewrite list_elem_of_singleton. split.
    - intros ->. exists (k, c). split; [by left|done].
    - intros (kv & Hkv%list_elem_of_singleton & _ & ->). by subst kv. }
  destruct (IH Hne) as (h & Hh & (kv0 & Hkv0 & Hkh) & Hmax & Hin). unfold highest_step at 1 3. rewrite Hh. cbn [fst snd].
  destruct (Nat.ltb_spec h c) as [Hlt|Hge]; [|destruct (Nat.eqb_spec h c) as [->|Hneq]].
  - exists c. cbn. split_and!; [done|exists (k, c); split; [apply elem_of_app; right; by left|done]| |].
    + intros kv [Hkv|Hkv%list_elem_of_singleton]%elem_of_app; [specialize (Hmax kv Hkv); lia|subst kv; done].
    + intros i. rewrite list_elem_of_singleton. split.
      * intros ->. exists (k, c). split; [apply elem_of_app; right; by left|done].
      * intros (kv & [Hkv|Hkv%list_elem_of_singleton]%elem_of_app & Hc & ->); [specialize (Hmax kv Hkv); lia|subst kv; done].
  - exists c. cbn. split_and!; [done|exists kv0; split; [apply elem_of_app; by left|done]| |].
    + intros kv [Hkv|Hkv%list_elem_of_singleton]%elem_of_app; [by apply Hmax|subst kv; done].
    + intros i. rewrite elem_of_app, Hin, list_elem_of_singleton. split.
      * intros [(kv & Hkv & Hc & ->)| ->]; [exists kv|exists (k, c)]; (split; [apply elem_of_app|done]); [by left|right; by left].
      * intros (kv & [Hkv|Hkv%list_elem_of_singleton]%elem_of_app & Hc & ->); [left; by exists kv|subst kv; by right].
  - exists h. cbn. split_and!; [done|exists kv0; split; [apply elem_of_app; by left|done]| |].
    + intros kv [Hkv|Hkv%list_elem_of_singleton]%elem_of_app; [by apply Hmax|subst kv; cbn; lia].
    + intros i. rewrite Hin. split.
      * intros (kv & Hkv & Hc & ->). exists kv. split; [apply elem_of_app; by left|done].
      * intros (kv & [Hkv|Hkv%list_elem_of_singleton]%elem_of_app & Hc & ->); [by exists kv|subst kv; cbn in Hc; lia].
Qed.

Lemma low_spec (l : list (string * nat)) :
  l <> [] ->
  exists low, foldl low_step ("", None) l = ((foldl low_step ("", None) l).1, Some low)
    /\ ((foldl low_step ("", None) l).1, low) ∈ l /\ forall kv, kv ∈ l -> low <= kv.2.
Proof.
  induction l as [|[k c] l IH] using rev_ind; [done|]. intros _. rewrite foldl_snoc.
  destruct (decide (l = [])) as [->|Hne].
  { exists c. cbn. split_and!; [done|by left|by intros kv ->%list_elem_of_singleton]. }
  destruct (IH Hne) as (low & Hl & Hin & Hmin). rewrite Hl. unfold low_step. cbn [fst snd].
  destruct (Nat.ltb_spec c low); cbn; eexists; (split; [done|]); (split; [apply elem_of_app|]).
  - right. by left.
  - intros kv [Hkv|Hkv%list_elem_of_singleton]%elem_of_app; [specialize (Hmin kv Hkv); lia|subst kv; done].
  - by left.
  - intros kv [Hkv|Hkv%list_elem_of_singleton]%elem_of_app; [by apply Hmin|subst kv; done].
Qed.

(** The members whose tags match best. *)
Definition best (srvs : services) (tags : list string) (s : Service) : Prop :=
  srvs !! sv_ID s = Some s /\ forall id s', srvs !! id = Some s' -> tag_match (sv_Tags s') tags <= tag_match (sv_Tags s) tags.

Lemma tag_match_nil l : tag_match l [] = 0.
Proof. by destruct l. Qed.

Lemma best_exists srvs tags : registered srvs -> srvs <> ∅ -> exists s, best srvs tags s.
Proof.
  intros Hr Hne. destruct (map_choose srvs Hne) as (k0 & s0 & Hk0).
  assert (Hl : exists kv, kv ∈ range srvs /\ forall kv', kv' ∈ range srvs -> tag_match (sv_Tags kv'.2) tags <= tag_match (sv_Tags kv.2) tags).
  { assert (Hn : range srvs <> []) by (intros E; apply elem_of_range in Hk0; rewrite E in Hk0; by apply not_elem_of_nil in Hk0).
    revert Hn. generalize (range srvs) as l. induction l as [|kv l IH]; [done|]. intros _. destruct (decide (l = [])) as [->|Hl].
    - exists kv. split; [by left|]. by intros kv' ->%list_elem_of_singleton.
    - destruct (IH Hl) as (kv0 & Hkv0 & Hmax).
      destruct (Nat.le_ge_cases (tag_match (sv_Tags kv.2) tags) (tag_match (sv_Tags kv0.2) tags)).
      + exists kv0. split; [by right|]. intros kv' [->|Hin]%elem_of_cons; [done|by apply Hmax].
      + exists kv. split; [by left|]. intros kv' [->|Hin]%elem_of_cons; [done|]. specialize (Hmax kv' Hin). lia. }
  destruct Hl as ([k s] & Hks%elem_of_range & Hmax). exists s. destruct (registered_id srvs k s Hr Hks) as (Hid & _ & _).
  split; [by rewrite Hid|]. intros id s' Hs'. exact (Hmax (id, s') (proj2 (elem_of_range _ _ _) Hs')).
Qed.

Lemma matching_spec srvs tags i :
  registered srvs -> srvs <> ∅ ->
  i ∈ matching_instances srvs tags <-> exists s, best srvs tags s /\ i = instance_of (sv_ID s).
Proof.
  intros Hr Hne. unfold matching_instances. destruct (decide (tags = [])) as [->|Ht].
  { cbn. rewrite map_size_empty. cbn. rewrite list_elem_of_fmap. split.
    - intros (id & -> & Hid). apply list_elem_of_fmap in Hid as ([k s] & -> & Hs%elem_of_range). exists s.
      destruct (registered_id srvs k s Hr Hs) as (Hid & _). split; [|by rewrite Hid]. split; [by rewrite Hid|].
      intros. by rewrite !tag_match_nil.
    - intros (s & [Hs _] & ->). exists (sv_ID s). split; [done|]. apply list_elem_of_fmap. exists (sv_ID s, s).
      split; [done|]. by apply elem_of_range. }
  assert (Hlook := fun i c => tags_matches_lookup srvs tags i c Hr Ht).
  set (m := getInstancesTagsMatches srvs tags) in *.
  assert (Hm : range m <> []).
  { intros E. destruct (best_exists srvs tags Hr Hne) as (s & Hs & _).
    pose proof (proj2 (Hlook (instance_of (sv_ID s)) (tag_match (sv_Tags s) tags)) ltac:(by exists (sv_ID s), s)) as Hl.
    apply elem_of_range in Hl. rewrite E in Hl. by apply not_elem_of_nil in Hl. }
  destruct (Nat.eqb_spec (size m) 0) as [Hz%map_size_empty_inv|_].
  { by rewrite Hz, range_empty in Hm. }
  destruct (highest_spec (range m) Hm) as (h & _ & ([k0 c0] & Hkv0 & <-) & Hmax & Hin). unfold getHighestTagsMatches. rewrite Hin.
  apply elem_of_range, Hlook in Hkv0 as (id0 & s0 & Hs0 & -> & ->). cbn [snd] in *. split.
  - intros ([k c] & Hkv%elem_of_range & Hc & ->). cbn in *. apply Hlook in Hkv as (id & s & Hs & -> & ->).
    destruct (registered_id srvs id s Hr Hs) as (Hid & _ & Hii). exists s. split; [|by rewrite Hii, Hid].
    split; [by rewrite Hid|]. intros id' s' Hs'. rewrite Hc.
    refine (Hmax (instance_of id', _) _). apply elem_of_range, Hlook. by exists id', s'.
  - intros (s & [Hs Hb] & ->). destruct (registered_id srvs _ s Hr Hs) as (_ & _ & Hii).
    exists (instance_of (sv_ID s), tag_match (sv_Tags s) tags). cbn. split; [apply elem_of_range, Hlook; by exists (sv_ID s), s|].
    split; [|done]. apply Nat.le_antisymm; [|by eapply Hb].
    refine (Hmax (instance_of (sv_ID s), _) _). apply elem_of_range, Hlook. by exists (sv_ID s), s.
Qed.

(** The number of locks an instance holds. *)
Definition held (locks : gmap string string) (i : string) : nat :=
  List.length (List.filter (fun kv : string * string => String.eqb kv.2 i) (map_to_list locks)).

Lemma count_lock_fold (l : list (string * string)) load i :
  default 0 (foldl count_lock load l !! i) = default 0 (load !! i) + List.length (List.filter (fun kv : string * string => String.eqb kv.2 i) l).
Proof.
  revert load. induction l as [|kv l IH]; intros load; cbn; [lia|]. rewrite IH. unfold count_lock.
  destruct (String.eqb_spec kv.2 i) as [<-|Hne]; cbn; [rewrite lookup_insert_eq; cbn; lia|by rewrite lookup_insert_ne].
Qed.

Lemma idle_load (l : list (string * Service)) load i : default 0 (foldl add_idle load l !! i) = default 0 (load !! i).
Proof.
  revert load. induction l as [|kv l IH]; intros load; cbn; [done|]. rewrite IH. unfold add_idle.
  destruct (load !! instance_of (sv_ID kv.2)) eqn:E; [done|].
  destruct (decide (instance_of (sv_ID kv.2) = i)) as [<-|]; [by rewrite lookup_insert_eq, E|by rewrite lookup_insert_ne].
Qed.

Lemma held_perm locks i (l : list (string * string)) :
  l ≡ₚ map_to_list locks -> List.length (List.filter (fun kv : string * string => String.eqb kv.2 i) l) = held locks i.
Proof.
  unfold held. intros Hp. induction Hp; cbn; try (by repeat case_match; cbn; congruence).
Qed.

Lemma load_lookup srvs locks instances load i :
  instances <> [] -> getInstancesLoad srvs (Some locks) instances = Ok load ->
  load !! i = if bool_decide (i ∈ instances) then Some (held locks i) else None.
Proof.
  intros Hne Hl. unfold getInstancesLoad in Hl. injection Hl as <-. destruct instances as [|x instances]; [done|]. cbn [nilb].
  set (full := foldl add_idle _ _).
  assert (Hfull : forall j, default 0 (full !! j) = held locks j).
  { intros j. unfold full. rewrite idle_load, count_lock_fold, lookup_empty. cbn. apply held_perm, range_perm. }
  assert (Hl : forall l m, foldl (fun m i => <[i := default 0 (full !! i)]> m) m l !! i
                           = if bool_decide (i ∈ l) then Some (held locks i) else (m : gmap string nat) !! i).
  { induction l as [|j l IH]; intros m; cbn; [done|]. rewrite IH.
    destruct (decide (i = j)) as [->|Hij].
    - rewrite lookup_insert_eq, Hfull, (bool_decide_eq_true_2 (j ∈ j :: l)) by left. by case_bool_decide.
    - rewrite lookup_insert_ne by done.
      by rewrite (bool_decide_ext (i ∈ j :: l) (i ∈ l)) by (rewrite elem_of_cons; naive_solver). }
  rewrite Hl. by rewrite lookup_empty.
Qed.

Lemma denied_lookup (denied : list string) (load : gmap string nat) i :
  foldl (fun m d => delete (instance_of d) m) load denied !! i =
  if bool_decide (i ∈ instance_of <$> denied) then None else load !! i.
Proof.
  revert load. induction denied as [|d denied IH]; intros load; cbn; [done|]. rewrite IH.
  destruct (decide (i = instance_of d)) as [->|Hne].
  - rewrite lookup_delete_eq, (bool_decide_eq_true_2 (_ ∈ _ :: _)) by left. by case_bool_decide.
  - rewrite lookup_delete_ne by done.
    by rewrite (bool_decide_ext (i ∈ instance_of d :: _) (i ∈ instance_of <$> denied)) by (rewrite elem_of_cons; naive_solver).
Qed.

Lemma serviceDenied_spec id denied : serviceDenied id denied = true <-> id ∈ denied.
Proof.
  unfold serviceDenied. rewrite existsb_exists. setoid_rewrite <-list_elem_of_In. split.
  - by intros (d & Hd & ->%String.eqb_eq).
  - intros Hd. exists id. by rewrite String.eqb_refl.
Qed.

(** What a choice should be. *)
Definition good_choice (srvs : services) (locks : gmap string string) (tags denied : list string) (s : Service) : Prop :=
  best srvs tags s /\ (sv_ID s ∉ denied)
  /\ forall s', best srvs tags s' -> sv_ID s' ∉ denied -> held locks (instance_of (sv_ID s)) <= held locks (instance_of (sv_ID s')).

Lemma best_instance srvs tags s s' :
  registered srvs -> best srvs tags s -> best srvs tags s' -> instance_of (sv_ID s) = instance_of (sv_ID s') -> s = s'.
Proof.
  intros Hr [Hs _] [Hs' _] He. destruct (registered_id _ _ _ Hr Hs) as (_ & E & _), (registered_id _ _ _ Hr Hs') as (_ & E' & _).
  assert (sv_ID s = sv_ID s') as Hid by congruence. congruence.
Qed.

Lemma select_by_load_spec srvs locks tags denied matching load :
  registered srvs -> srvs <> ∅ -> Forall (fun d => api_id (instance_of d) = d) denied ->
  matching = matching_instances srvs tags -> matching <> [] ->
  getInstancesLoad srvs (Some locks) matching = Ok load ->
  match select_by_load srvs denied matching load with
  | Ok (Some s) => good_choice srvs locks tags denied s
  | Err errNoMoreSuitableServices => forall s, best srvs tags s -> sv_ID s ∈ denied
  | _ => False
  end.
Proof.
  intros Hr Hne Hden -> Hm Hload. pose proof (fun i => load_lookup srvs locks _ load i Hm Hload) as Hlook.
  assert (Hdenied : forall s, best srvs tags s -> instance_of (sv_ID s) ∈ instance_of <$> denied <-> sv_ID s ∈ denied).
  { intros s [Hs _]. destruct (registered_id _ _ _ Hr Hs) as (_ & E & _). rewrite list_elem_of_fmap. split.
    - intros (d & Hd & Hin). rewrite <-E, Hd. rewrite Forall_forall in Hden. by rewrite (Hden d Hin).
    - intros Hin. by exists (sv_ID s). }
  unfold select_by_load. destruct (Nat.eqb_spec (size load) 0) as [Hz%map_size_empty_inv|_].
  { destruct (matching_instances srvs tags) as [|i l] eqn:E; [done|]. specialize (Hlook i).
    rewrite Hz, lookup_empty, (bool_decide_eq_true_2 (i ∈ i :: l)) in Hlook by left. done. }
  set (load' := foldl _ load denied).
  assert (Hlook' : forall s, best srvs tags s -> load' !! instance_of (sv_ID s) =
    if bool_decide (sv_ID s ∈ denied) then None else Some (held locks (instance_of (sv_ID s)))).
  { intros s Hs. unfold load'. rewrite denied_lookup, Hlook, (bool_decide_ext _ _ (Hdenied s Hs)).
    rewrite (bool_decide_eq_true_2 (_ ∈ matching_instances _ _)); [done|]. apply matching_spec; eauto. }
  destruct (Nat.eqb_spec (size load') 0) as [Hz%map_size_empty_inv|Hz].
  - intros s Hs. specialize (Hlook' s Hs). rewrite Hz, lookup_empty in Hlook'. by case_bool_decide.
  - assert (Hn : range load' <> []) by (intros E; apply Hz; by rewrite <-length_range, E).
    destruct (low_spec (range load') Hn) as (low & Hlow & Hin%elem_of_range & Hmin).
    unfold getLowLoadInstance. set (ss := (foldl low_step ("", None) (range load')).1) in *.
    assert (exists s, best srvs tags s /\ ss = instance_of (sv_ID s)) as (s & Hs & Hss).
    { unfold load' in Hin. rewrite denied_lookup, Hlook in Hin. case_bool_decide; [done|]. case_bool_decide as Hmi; [|done].
      by apply matching_spec in Hmi. }
    pose proof Hs as [Hsid _]. destruct (registered_id _ _ _ Hr Hsid) as (_ & E & _). rewrite Hss, E, Hsid.
    rewrite Hss, (Hlook' s Hs) in Hin. case_bool_decide as Hnd; [done|]. injection Hin as Hin. split_and!; [done|done|].
    intros s' Hs' Hnd'. rewrite Hin. refine (Hmin (instance_of (sv_ID s'), _) _). apply elem_of_range.
    rewrite (Hlook' s' Hs'), bool_decide_eq_false_2 by done. done.
Qed.

Lemma selectService_cases srvs locks tags denied :
  registered srvs -> Forall (fun d => api_id (instance_of d) = d) denied ->
  match selectService srvs (Some locks) tags denied with
  | Ok (Some s) => good_choice srvs locks tags denied s
  | Err errNotFound => srvs = ∅
  | Err errNoMoreSuitableServices => srvs <> ∅ /\ forall s, best srvs tags s -> sv_ID s ∈ denied
  | _ => False
  end.
Proof.
  intros Hr Hden. unfold selectService. destruct (decide (srvs = ∅)) as [->|Hne]; [by rewrite range_empty|].
  assert (Hone : forall s, best srvs tags s -> (forall s', best srvs tags s' -> s' = s) ->
    if serviceDenied (sv_ID s) denied then forall s', best srvs tags s' -> sv_ID s' ∈ denied else good_choice srvs locks tags denied s).
  { intros s Hs Huniq. destruct (serviceDenied (sv_ID s) denied) eqn:E.
    - intros s' Hs'. rewrite (Huniq s' Hs'). by apply serviceDenied_spec.
    - split_and!; [done| |by intros s' ->%Huniq]. intros Hd%serviceDenied_spec. congruence. }
  destruct (best_exists srvs tags Hr Hne) as (s0 & Hs0).
  destruct (range srvs) as [|[id s] [|kv l]] eqn:Er.
  - destruct Hne. apply map_size_empty_inv. by rewrite <-length_range, Er.
  - assert (Hall : forall k t, srvs !! k = Some t -> k = id /\ t = s).
    { intros k t Hk%elem_of_range. rewrite Er in Hk. apply list_elem_of_singleton in Hk. by injection Hk. }
    pose proof Hs0 as [Hs0' _]. destruct (Hall _ _ Hs0') as [Hid ->].
    specialize (Hone s Hs0 (fun s' Hs' => proj2 (Hall _ _ (proj1 Hs')))). rewrite <-Hid.
    by destruct (serviceDenied (sv_ID s) denied).
  - assert (Hmatch := fun i => matching_spec srvs tags i Hr Hne).
    assert (Hmne : matching_instances srvs tags <> []).
    { intros E. apply (not_elem_of_nil (instance_of (sv_ID s0))). rewrite <-E. apply Hmatch. by exists s0. }
    destruct (getInstancesLoad srvs (Some locks) (matching_instances srvs tags)) as [load| |] eqn:Hload; [|done..].
    pose proof (select_by_load_spec srvs locks tags denied _ load Hr Hne Hden eq_refl Hmne Hload) as Hby.
    destruct (matching_instances srvs tags) as [|i [|j ms]] eqn:Em; [done| |].
    + assert (Huniq : forall s', best srvs tags s' -> s' = s0).
      { intros s' Hs'. apply (best_instance srvs tags); [done..|].
        pose proof (proj2 (Hmatch _) (ex_intro _ s' (conj Hs' eq_refl))) as H1.
        pose proof (proj2 (Hmatch _) (ex_intro _ s0 (conj Hs0 eq_refl))) as H2.
        apply list_elem_of_singleton in H1, H2. congruence. }
      pose proof (proj2 (Hmatch _) (ex_intro _ s0 (conj Hs0 eq_refl))) as Hi%list_elem_of_singleton.
      pose proof Hs0 as [Hs0' _]. destruct (registered_id _ _ _ Hr Hs0') as (_ & E & _). rewrite <-Hi, E, Hs0'.
      specialize (Hone s0 Hs0 Huniq). by destruct (serviceDenied (sv_ID s0) denied).
    + rewrite Hload. cbn. destruct (select_by_load _ _ _ _) as [[]|[]|]; done.
Qed.

(** The member chosen for a target, when the locks can be read. Its leading
    tags match the target's best among all members; it was not tried before
    ([denied]); and among those members it holds the fewest targets. The choice
    fails only when there is no member at all, or when every best matching
    member was tried; it never comes back without a member and without an
    error. *)
Theorem selectService_spec srvs locks tags denied :
  registered srvs -> Forall (fun d => api_id (instance_of d) = d) denied ->
  match selectService srvs (Some locks) tags denied with
  | Ok (Some s) => good_choice srvs locks tags denied s
  | Err errNotFound => srvs = ∅
  | Err errNoMoreSuitableServices => srvs <> ∅ /\ forall s, best srvs tags s -> sv_ID s ∈ denied
  | _ => False
  end.
Proof. apply selectService_cases. Qed.

(** *** Handing a target over *)

Lemma selectService_unreadable srvs tags denied :
  selectService srvs None tags denied = Err errLocker \/ selectService srvs None tags denied = selectService srvs (Some ∅) tags denied.
Proof.
  unfold selectService. destruct (range srvs) as [|[id s] [|kv l]]; [by right..|].
  destruct (matching_instances srvs tags) as [|i [|j ms]]; [by left|by right|by left].
Qed.

(** The lock of the target can be read and is held. *)
Definition lock_shown (w : world) (key : string) (n : nat) : Prop :=
  exists values i, w_values w n = Some values /\ values !! key = Some i /\ i <> "".
(** It shows while the member may still be waited for, if no look errs. *)
Definition lock_in_time (w : world) (key : string) (n : nat) : Prop :=
  exists k, lock_shown w key (n + k) /\ too_long w k = false.

Lemma shown_read w key n : lock_shown w key n ->
  exists values, w_values w n = Some values /\ String.eqb (default "" (values !! key)) "" = false.
Proof. intros (values & i & Hv & Hi & Hne). exists values. split; [done|]. rewrite Hi. by apply String.eqb_neq. Qed.
Lemma read_shown w key n values : w_values w n = Some values -> String.eqb (default "" (values !! key)) "" = false -> lock_shown w key n.
Proof.
  intros Hv He. apply String.eqb_neq in He. destruct (values !! key) as [i|] eqn:E; [|done]. by exists values, i.
Qed.
Lemma too_long_mono w j k : j <= k -> too_long w k = false -> too_long w j = false.
Proof. unfold too_long. rewrite !Z.leb_gt. unfold lockWaitTime. lia. Qed.

Lemma loop_more fuel n srvs w key tags st r :
  dispatch_loop fuel n srvs w key tags st = Some r -> forall more, dispatch_loop (fuel + more) n srvs w key tags st = Some r.
Proof.
  revert n st. induction fuel as [|fuel IH]; intros n st; [done|]. cbn. destruct (dispatch_step _ _ _ _ _ _) as [st'|r']; [|done].
  intros Hl more. by apply IH.
Qed.

(** A context that is over ends it at the next choice or look at the lock; one
    choice may come after the last look. *)
Lemma loop_deadline fuel n srvs w key tags st D :
  (forall n, D <= n -> w_expired w n = true) -> D + 2 <= n + fuel -> 2 <= fuel ->
  exists r, dispatch_loop fuel n srvs w key tags st = Some r.
Proof.
  intros HD. revert n st. induction fuel as [|fuel IH]; intros n st Hf Hf2; [lia|]. cbn.
  destruct (dispatch_step n srvs w key tags st) as [st'|r] eqn:Es; [|eauto].
  destruct (decide (2 <= fuel)) as [Hge|Hlt]; [apply IH; lia|]. assert (fuel = 1) as -> by lia. cbn.
  assert (forall st, w_expired w (S n) = true -> dispatch_step n srvs w key tags st = inl st' -> w_expired w n = true ->
    exists d, st' = Selecting d) as Hsel.
  { intros [d|d s k] _ H1 H2; cbn in H1; unfold select_step, wait_step in H1; rewrite H2 in H1; [done|].
    repeat case_match; try done. injection H1 as <-. eauto. }
  destruct (Hsel st (HD (S n) ltac:(lia)) Es (HD n ltac:(lia))) as (d & ->). cbn. unfold select_step. rewrite (HD (S n)) by lia. eauto.
Qed.

(** A member that took the target and gets the lock in time is the last. *)
Lemma lock_wait_ends w srvs key tags denied s k : forall n retries, lock_shown w key (n + k) -> too_long w (retries + k) = false ->
  exists r, dispatch_loop (S k) n srvs w key tags (Waiting denied s retries) = Some r.
Proof.
  induction k as [|k IH]; intros n retries Hs Hl; cbn [dispatch_loop dispatch_step]; unfold wait_step.
  - rewrite Nat.add_0_r in Hs. destruct (shown_read _ _ _ Hs) as (values & -> & ->). eauto.
  - assert (Hnext : forall retries', retries' <= S retries ->
      exists r, dispatch_loop (S k) (S n) srvs w key tags (Waiting denied s retries') = Some r).
    { intros j Hj. apply IH; [by rewrite Nat.add_succ_r in Hs|]. eapply too_long_mono, Hl. lia. }
    destruct (w_values w n) as [values|].
    + destruct (String.eqb _ _); [|eauto]. rewrite (too_long_mono w (S retries) (retries + S k)) by (done || lia).
      destruct (w_expired w n); [eauto|]. by apply Hnext.
    + destruct (w_expired w n); [eauto|]. apply Hnext. lia.
Qed.

Definition most_waits (w : world) : nat := Z.to_nat (w_timeout w / lockWaitTime).
Lemma few_waits w k : too_long w k = false -> S k <= most_waits w.
Proof.
  unfold too_long, most_waits. rewrite Z.leb_gt. intros Hl. apply Nat2Z.inj_le.
  rewrite Z2Nat.id by (apply Z.div_pos; unfold lockWaitTime in *; lia). apply Z.div_le_lower_bound; unfold lockWaitTime in *; lia.
Qed.

(** Every member that failed is one that was chosen: registered, and not denied
    before. *)
Lemma select_ends fuel n srvs w key tags denied :
  registered srvs -> NoDup denied -> (forall d, d ∈ denied -> d ∈ dom srvs) ->
  (forall n s, w_assign w n s = true -> lock_in_time w key (S n)) -> size srvs < fuel + List.length denied ->
  exists r, dispatch_loop (fuel + most_waits w) n srvs w key tags (Selecting denied) = Some r.
Proof.
  intros Hr. revert n denied. induction fuel as [|fuel IH]; intros n denied Hnd Hdom Hw Hf.
  { exfalso. assert (size (list_to_set denied : gset string) <= size (dom srvs)) as Hle.
    - apply subseteq_size. intros d. rewrite elem_of_list_to_set. apply Hdom.
    - rewrite size_list_to_set, size_dom in Hle by done. exact (Nat.lt_irrefl _ (Nat.lt_le_trans _ _ _ Hf Hle)). }
  cbn. unfold select_step. destruct (w_expired w n); [eauto|].
  assert (Hden : Forall (fun d => api_id (instance_of d) = d) denied).
  { apply Forall_forall. intros d Hd%Hdom. apply elem_of_dom in Hd as (s & Hs). by apply registered_id in Hs as (_ & E & _). }
  assert (Hc : selectService srvs (w_locks w n) tags denied = Err errLocker \/
    exists locks, selectService srvs (w_locks w n) tags denied = selectService srvs (Some locks) tags denied).
  { destruct (w_locks w n); [by right; eauto|]. destruct (selectService_unreadable srvs tags denied); eauto. }
  destruct Hc as [->|(locks & ->)]; [eauto|].
  pose proof (selectService_cases srvs locks tags denied Hr Hden) as Hc.
  destruct (selectService srvs (Some locks) tags denied) as [[s|]|e|]; [|done|eauto|done].
  destruct Hc as ([Hs _] & Hn & _). destruct (w_assign w n s) eqn:Ea.
  - destruct (Hw n s Ea) as (k & Hk & Hlong). destruct (lock_wait_ends w srvs key tags denied s k (S n) 0 Hk Hlong) as (r & Hl).
    exists r. pose proof (few_waits w k Hlong). replace (fuel + most_waits w) with (S k + (fuel + most_waits w - S k)) by lia.
    by apply loop_more.
  - apply IH; [| |done|].
    + apply NoDup_app. split_and!; [done| |apply NoDup_singleton]. by intros d Hd ->%list_elem_of_singleton.
    + intros d [Hd|Hd]%elem_of_app; [by apply Hdom|]. apply list_elem_of_singleton in Hd as ->. apply elem_of_dom. by exists s.
    + rewrite length_app. cbn. lia.
Qed.

(** What a success means. *)
Lemma loop_ok fuel n srvs w key tags st s m :
  dispatch_loop fuel n srvs w key tags st = Some (Ok (s, m)) ->
  lock_shown w key m /\ ((exists d k, st = Waiting d s k) \/ exists j, j < m /\ w_assign w j s = true) /\ n <= m.
Proof.
  revert n st. induction fuel as [|fuel IH]; intros n st; [done|]. cbn. destruct (dispatch_step n srvs w key tags st) as [st'|r] eqn:Es.
  - intros (Hl & Ha & Hnm)%IH. split_and!; [done| |lia]. destruct Ha as [(d & k & ->)|]; [|by right].
    destruct st as [d'|d' s' k']; cbn in Es; unfold select_step, wait_step in Es; repeat case_match; try done; injection Es as ?;
      simplify_eq; [|left; eauto|left; eauto]. right. exists n. split; [lia|done].
  - intros [= ->]. destruct st as [d'|d' s' k']; cbn in Es; unfold select_step, wait_step in Es; repeat case_match; try done.
    injection Es as <- <-. split_and!; [by eapply read_shown|left; eauto|done].
Qed.

(** C25: Handing a target over ends when the context it is given ends: at most
    two more choices of a member or looks at the lock are made then (the leader's
    turns give it a context with a deadline). It also ends, whatever the context
    does, when every member that takes the target shows its lock in time: each
    member is then chosen at most once, and the lock is looked at no more often
    than the assignment timeout has waits in it. It ends without an error only
    when the target was locked before, or a member took it and its lock is held. *)
Theorem dispatch_ends srvs locked w key tags :
  (forall D, (forall n, D <= n -> w_expired w n = true) -> exists r, dispatchTarget (D + 2) srvs locked w key tags [] = Some r)
  /\ (registered srvs -> (forall n s, w_assign w n s = true -> lock_in_time w key (S n)) ->
      exists r, dispatchTarget (S (size srvs) + most_waits w) srvs locked w key tags [] = Some r)
  /\ (forall fuel r, dispatchTarget fuel srvs locked w key tags [] = Some (Ok r) ->
      (locked = Some true /\ r = None)
      \/ exists s n, r = Some (s, n) /\ lock_shown w key n /\ exists m, m < n /\ w_assign w m s = true).
Proof.
  destruct locked as [[]|]; cbn [dispatchTarget].
  - split_and!; [eauto..|]. intros fuel r [= <-]. by left.
  - split_and!.
    + intros D HD. destruct (loop_deadline (D + 2) 0 srvs w key tags (Selecting []) D HD) as (r & ->); [lia..|]. cbn. eauto.
    + intros Hr Hw. destruct (select_ends (S (size srvs)) 0 srvs w key tags [] Hr) as (r & ->);
        [constructor|by intros d ?%not_elem_of_nil|done|cbn; lia|cbn; eauto].
    + intros fuel r Hd. destruct (dispatch_loop _ _ _ _ _ _ _) as [[[s n]| |]|] eqn:El; try done. injection Hd as <-. right.
      apply loop_ok in El as (Hl & [(d & k & Hst)|Ha] & _); [done|]. by exists s, n.
  - split_and!; [eauto..|]. intros fuel r [=].
Qed.

(** A member that takes a target and never gets its lock is chosen again and
    again: only a failed assignment denies a member, a missed lock withdraws
    the target and chooses among the same members. As long as the context goes
    on and no lock shows up, handing the target over does not end, however long
    it is let run and although another member would do. *)
Theorem lock_missing_again fuel n srvs locks w key tags :
  registered srvs -> srvs <> ∅ ->
  (forall n, w_expired w n = false /\ w_locks w n = Some locks /\ w_values w n = Some ∅ /\ forall s, w_assign w n s = true) ->
  dispatch_loop fuel n srvs w key tags (Selecting []) = None.
Proof.
  intros Hr Hne Hw.
  assert (forall n st, match st with Selecting d | Waiting d _ _ => d = [] end -> dispatch_loop fuel n srvs w key tags st = None) as Hall;
    [|by apply Hall].
  clear n. induction fuel as [|fuel IH]; intros n st Hst; [done|]. cbn. destruct (Hw n) as (He & Hl & Hv & Ha).
  destruct st as [d|d s k]; subst d; cbn; unfold select_step, wait_step.
  - rewrite He, Hl. pose proof (selectService_cases srvs locks tags [] Hr (Forall_nil_2 _)) as Hc.
    destruct (best_exists srvs tags Hr Hne) as (s0 & Hs0).
    destruct (selectService srvs (Some locks) tags []) as [[s|]|[]|]; try done; [rewrite Ha; by apply IH|].
    destruct Hc as [_ Hc]. by apply Hc, not_elem_of_nil in Hs0.
  - rewrite Hv, lookup_empty. cbn. destruct (too_long w (S k)); [by apply IH|]. rewrite He. by apply IH.
Qed.

(** An erring look at the lock counts for nothing: while they err and the
    context goes on, the member is waited for, however long the assignment timeout
    is over. *)
Theorem erring_locker_waits fuel n srvs w key tags denied s retries :
  (forall n, w_expired w n = false /\ w_values w n = None) ->
  dispatch_loop fuel n srvs w key tags (Waiting denied s retries) = None.
Proof.
  intros Hw. revert n. induction fuel as [|fuel IH]; intros n; [done|]. cbn. unfold wait_step. destruct (Hw n) as [-> ->]. apply IH.
Qed.

(** The target is withdrawn from all the members: the deletion ends without
    a panic exactly when every member answers. A member that cannot be reached
    leaves no response, whose body the code closes. *)
Theorem deleteTarget_panics reachable srvs :
  deleteTarget reachable srvs = if bool_decide (map_Forall (fun _ s => reachable s = true) srvs) then Ok () else Panic.
Proof.
  unfold deleteTarget.
  assert (Hl : forall l : list (string * Service),
    foldM (fun _ (kv : string * Service) => if reachable kv.2 then Ok () else Panic) l ()
    = if forallb (fun kv : string * Service => reachable kv.2) l then Ok () else (Panic : go cluster_error ())).
  { induction l as [|kv l IH]; [done|]. cbn. by destruct (reachable kv.2). }
  rewrite Hl. case_bool_decide as Hall.
  - rewrite (proj2 (forallb_forall _ _)); [done|]. intros [k s] Hin%list_elem_of_In%elem_of_range. exact (Hall k s Hin).
  - destruct (forallb _ _) eqn:E; [|done]. destruct Hall. intros k s Hs. rewrite forallb_forall in E.
    exact (E (k, s) ltac:(by apply list_elem_of_In, elem_of_range)).
Qed.
End clustering_lemmas.

(** ** Rebalancing keeps the targets *)

Section rebalance_lemmas.
Context `{MapOrder}.
Variables (srvs : services) (known : string -> bool) (pick : gmap string string -> string -> option string) (key : string -> string).

(** The locks are those of the targets' names. *)
Definition keyed (locks : gmap string string) : Prop := forall k i, locks !! k = Some i -> key (path_Base k) = k.

Lemma rebalance_turn_locks locks locks' again :
  keyed locks -> rebalance_turn srvs known pick key locks = Some (locks', again) ->
  exists k, k ∈ dom locks /\ (locks' = delete k locks /\ again = false \/ again = true /\ exists i, locks' = <[k := i]> locks).
Proof.
  intros Hk. unfold rebalance_turn. destruct (getInstancesLoad _ _ _) as [load| |]; [|done..].
  destruct (getHighAndLowInstance load) as [highest lowest]. case_match; [done|].
  destruct (getInstanceTargets _ _) as [names| |] eqn:En; [|done..]. injection En as En.
  destruct (List.find known names) as [name|] eqn:Ef; [|done]. apply find_some in Ef as [Hin _].
  assert (exists i, locks !! key name = Some i) as (i & Hi).
  { apply list_elem_of_In in Hin. rewrite <-En in Hin. rewrite sort_strings_perm in Hin.
    apply list_elem_of_omap in Hin as ([k i] & Hki%elem_of_range & Hn). cbn in Hn. destruct (String.eqb i highest); [|done].
    injection Hn as <-. exists i. by rewrite (Hk k i Hki). }
  intros Hr. exists (key name). split; [by apply elem_of_dom_2 in Hi|].
  destruct (pick _ _) as [j|]; injection Hr as <- <-; [right|by left].
  split; [done|]. exists j. by rewrite insert_delete_eq.
Qed.

(** Rebalancing loses at most one target. When every target that is
    withdrawn finds a member, the targets that are locked are the ones that were
    and their number is the same; a dispatch that fails ends the rebalancing,
    with the target it withdrew left to no one. *)
Theorem rebalance_keeps_targets locks :
  keyed locks ->
  dom (clusterRebalanceTargets srvs known pick key locks) = dom locks
  \/ exists k, k ∈ dom locks /\ dom (clusterRebalanceTargets srvs known pick key locks) = dom locks ∖ {[k]}
               /\ exists locks' name, pick locks' name = None.
Proof.
  unfold clusterRebalanceTargets. generalize (max_iter srvs locks) as turns. intros turns. revert locks.
  induction turns as [|turns IH]; intros locks Hk; cbn [rebalance_loop]; [by left|].
  destruct (rebalance_turn srvs known pick key locks) as [[locks' again]|] eqn:Et; [|by left].
  pose proof Et as Hl. apply rebalance_turn_locks in Hl as (k & Hkin & [[-> ->]|(-> & i & ->)]); [| |done].
  - right. exists k. split_and!; [done|by rewrite dom_delete_L|].
    revert Et. unfold rebalance_turn. repeat (case_match; try done). intros _. eauto.
  - assert (Hk' : keyed (<[k := i]> locks)).
    { intros k' i' Hi. destruct (decide (k = k')) as [<-|Hne].
      - apply elem_of_dom in Hkin as (j & Hj). by apply (Hk k j).
      - rewrite lookup_insert_ne in Hi by done. by apply (Hk k' i'). }
    assert (Hd : dom (<[k := i]> locks) = dom locks) by (rewrite dom_insert_L; set_solver).
    destruct (IH _ Hk') as [->|(k' & Hin & -> & Hp)]; rewrite Hd in *; [by left|]. right. by exists k'.
Qed.

Lemma drain_names locks id :
  exists names, getInstanceTargets (Some locks) id = Ok names
  /\ forall t, t ∈ names <-> exists k, locks !! k = Some id /\ t = path_Base k.
Proof.
  eexists. split; [reflexivity|]. intros t. rewrite sort_strings_perm, list_elem_of_omap. split.
  - intros ([k i] & Hk%elem_of_range & Ht). cbn in Ht. destruct (String.eqb_spec i id) as [->|]; [|done]. injection Ht as <-. by exists k.
  - intros (k & Hk & ->). exists (k, id). split; [by apply elem_of_range|]. cbn. by rewrite String.eqb_refl.
Qed.

Lemma drain_fold id names locks :
  (forall locks t, pick locks t <> Some id) -> 
  let locks' := foldl (drain_target (fun _ => true) known pick key) locks names in
  (forall k, k ∉ key <$> names -> locks' !! k = locks !! k) /\
  (forall k, k ∈ key <$> names -> locks' !! k <> Some id /\
     ((forall t, t ∈ names -> k = key t -> known t = false) -> locks' !! k = None)).
Proof.
  intros Hp. revert locks. induction names as [|t names IH] using rev_ind; intros locks; cbn; [split; [done|by intros k ?%not_elem_of_nil]|].
  rewrite foldl_snoc. destruct (IH locks) as [Hout Hin]. set (l := foldl _ locks names) in *.
  rewrite fmap_app. cbn. setoid_rewrite elem_of_app. setoid_rewrite list_elem_of_singleton. unfold drain_target. cbn [negb]. split.
  - intros k Hk. assert (k <> key t) by tauto. rewrite <-Hout by tauto. repeat case_match; by simplify_map_eq.
  - intros k Hk. destruct (decide (k = key t)) as [->|Hne].
    + split.
      * repeat case_match; simplify_map_eq; try done. by intros [= ->]; eapply Hp.
      * intros Hun. rewrite (Hun t) by auto. by rewrite lookup_delete_eq.
    + assert (E : (if known t then match pick (delete (key t) l) t with Some i => <[key t:=i]> (delete (key t) l) | None => delete (key t) l end
                   else delete (key t) l) !! k = l !! k) by (repeat case_match; by simplify_map_eq).
      rewrite E. destruct Hk as [Hk|]; [|done]. destruct (Hin k Hk) as [Hid Hnone]. split; [done|]. intros Hun. apply Hnone. eauto.
Qed.

(** What draining an instance does to the locks, when its targets can be
    withdrawn: the instance holds none afterwards, the locks of the others are
    as they were, and a target of the instance without a configuration, which
    is withdrawn before its configuration is looked up, is left to no one. *)
Theorem drain_empties id locks locks' :
  keyed locks -> (forall locks t, pick locks t <> Some id) ->
  drain_instance (fun _ => true) known pick key id locks = Ok locks' ->
  forall k, locks' !! k <> Some id
    /\ (locks !! k <> Some id -> locks' !! k = locks !! k)
    /\ (locks !! k = Some id -> known (path_Base k) = false -> locks' !! k = None).
Proof.
  intros Hk Hp. unfold drain_instance. destruct (drain_names locks id) as (names & -> & Hnames). cbn. intros [= <-] k.
  destruct (drain_fold id names locks Hp) as [Hout Hin].
  assert (Hkey : k ∈ key <$> names <-> locks !! k = Some id).
  { rewrite list_elem_of_fmap. setoid_rewrite Hnames. split.
    - intros (t & -> & k' & Hk' & ->). by rewrite (Hk k' id Hk').
    - intros Hl. exists (path_Base k). split; [by rewrite (Hk k id Hl)|by exists k]. }
  destruct (decide (locks !! k = Some id)) as [Hl|Hl].
  - destruct (Hin k (proj2 Hkey Hl)) as [Hid Hnone]. split_and!; [done|done|]. intros _ Hun. apply Hnone.
    intros t (k' & Hk' & ->)%Hnames ->. by rewrite (Hk k' id Hk') in Hun.
  - assert (Hno : k ∉ key <$> names) by (intros H1%Hkey; done). rewrite (Hout k Hno). done.
Qed.
End rebalance_lemmas.

(** ** On concrete clusters *)

Definition member (n : string) (tags : list string) : Service := mkSvc (api_id n) (n +:+ ":7890") tags.
Definition cluster_of (ms : list Service) : services := list_to_map ((fun s => (sv_ID s, s)) <$> ms).
Definition three : services := cluster_of [member "a" ["dc=1"]; member "b" ["dc=1"]; member "c" ["dc=2"]].
Definition target_key (n : string) : string := "gnmic/c1/targets/" +:+ n.
Definition locks_of (l : list (string * string)) : gmap string string := list_to_map ((fun kv => (target_key kv.1, kv.2)) <$> l).
Definition three_locks : gmap string string := locks_of [("r1", "a"); ("r2", "a"); ("r3", "b")].

Lemma registered_list srvs :
  Forall (fun kv : string * Service => sv_ID kv.2 = kv.1 /\ kv.1 = api_id (instance_of kv.1) /\ has_suffix api_suffix (instance_of kv.1) = false)
    (map_to_list srvs) -> registered srvs.
Proof.
  intros Hf. apply map_Forall_to_list. eapply Forall_impl; [exact Hf|]. intros [id s] (Hid & Ha & Hn). split; [done|].
  by exists (instance_of id).
Qed.
Lemma three_registered : registered three.
Proof. refine (registered_list _ (bool_decide_unpack _ _)). vm_compute. exact I. Qed.

(** The target wants [dc=1]: [a] and [b] match and [b] holds less; when [b] was
    tried it is [a], and no one once both were. *)
Lemma selectService_spec_witness :
  registered three /\ Forall (fun d => api_id (instance_of d) = d) ["b-api"] /\
  selectService (H := order_fwd) three (Some three_locks) ["dc=1"] [] = Ok (Some (member "b" ["dc=1"])) /\
  selectService (H := order_fwd) three (Some three_locks) ["dc=1"] ["b-api"] = Ok (Some (member "a" ["dc=1"])) /\
  selectService (H := order_fwd) three (Some three_locks) ["dc=1"] ["b-api"; "a-api"] = Err errNoMoreSuitableServices /\
  good_choice three three_locks ["dc=1"] ["b-api"] (member "a" ["dc=1"]).
Proof.
  assert (Hd : Forall (fun d => api_id (instance_of d) = d) ["b-api"]) by (repeat constructor).
  split_and!; [apply three_registered|exact Hd|reflexivity..|].
  exact (selectService_spec (H := order_fwd) three three_locks ["dc=1"] ["b-api"] three_registered Hd).
Defined.

(** A second to wait, no end of the context, and a lock for [r9] from a moment on. *)
Definition world_of (from : nat) (takes : Service -> bool) : world :=
  mkWorld (fun _ => false) (fun _ => Some three_locks)
    (fun n => Some (if n <? from then three_locks else <[target_key "r9" := "a"]> three_locks)) (fun _ => takes) 1000000000.
Definition takes_a (s : Service) : bool := String.eqb (sv_ID s) "a-api".

Lemma dispatch_ends_witness :
  (forall D, (forall n, D <= n -> w_expired (world_of 5 takes_a) n = true) ->
     exists r, dispatchTarget (H := order_fwd) (D + 2) three (Some false) (world_of 5 takes_a) (target_key "r9") ["dc=1"] [] = Some r)
  /\ registered three /\ (forall n s, w_assign (world_of 5 takes_a) n s = true -> lock_in_time (world_of 5 takes_a) (target_key "r9") (S n))
  /\ (exists r, dispatchTarget (H := order_fwd) 14 three (Some false) (world_of 5 takes_a) (target_key "r9") ["dc=1"] [] = Some r)
  /\ dispatchTarget (H := order_fwd) 14 three (Some false) (world_of 5 takes_a) (target_key "r9") ["dc=1"] []
     = Some (Ok (Some (member "a" ["dc=1"], 5))).
Proof.
  assert (Ht : forall n s, w_assign (world_of 5 takes_a) n s = true -> lock_in_time (world_of 5 takes_a) (target_key "r9") (S n)).
  { intros n s _. exists 5. split; [|reflexivity]. exists (<[target_key "r9" := "a"]> three_locks), "a".
    split; [|split; [apply lookup_insert_eq|done]]. unfold world_of, w_values.
    by rewrite (proj2 (Nat.ltb_ge (S n + 5) 5)) by lia. }
  destruct (dispatch_ends (H := order_fwd) three (Some false) (world_of 5 takes_a) (target_key "r9") ["dc=1"]) as (H1 & H2 & _).
  split_and!; [exact H1|apply three_registered|exact Ht|exact (H2 three_registered Ht)|vm_compute; reflexivity].
Defined.

(** [b] is the least loaded and never locks the target; [a], which would, is
    never asked. *)
Lemma lock_missing_again_witness :
  registered three /\ three <> ∅ /\
  dispatch_loop (H := order_fwd) 50 0 three
    (mkWorld (fun _ => false) (fun _ => Some three_locks) (fun _ => Some ∅) (fun _ _ => true) 1000000000) (target_key "r9") ["dc=1"] (Selecting []) = None.
Proof.
  assert (Hne : three <> ∅) by (refine (bool_decide_unpack _ _); vm_compute; exact I).
  split_and!; [apply three_registered|exact Hne|].
  refine (lock_missing_again (H := order_fwd) _ _ _ three_locks _ _ _ three_registered Hne _). intros n. by split_and!.
Defined.
Lemma erring_locker_waits_witness :
  dispatch_loop (H := order_fwd) 500 0 three
    (mkWorld (fun _ => false) (fun _ => None) (fun _ => None) (fun _ _ => true) 1000000000) (target_key "r9") ["dc=1"]
    (Waiting [] (member "b" ["dc=1"]) 0) = None.
Proof. apply erring_locker_waits. intros n. by split. Defined.

Lemma three_keyed : keyed target_key three_locks.
Proof.
  assert (H : map_Forall (fun k _ => target_key (path_Base k) = k) three_locks) by (refine (bool_decide_unpack _ _); vm_compute; exact I).
  exact (fun k i Hi => H k i Hi).
Qed.
Lemma rebalance_keeps_targets_witness :
  keyed target_key three_locks /\
  dom (clusterRebalanceTargets (H := order_fwd) three (fun _ => true) (fun _ _ => Some "c") target_key three_locks) = dom three_locks.
Proof.
  pose proof three_keyed as Hk.
  split; [exact Hk|].
  destruct (rebalance_keeps_targets (H := order_fwd) three (fun _ => true) (fun _ _ => Some "c") target_key three_locks Hk)
    as [E|(k & _ & _ & l & n & [=])]. exact E.
Defined.

(** The number of turns is fixed by the first spread: with loads 4, 4, 4 and 0
    two targets are moved, and the spread is still two. *)
Definition four : services := cluster_of ((fun n => member n []) <$> ["a"; "b"; "c"; "d"]).
Definition four_locks : gmap string string := locks_of
  [("r1", "a"); ("r2", "a"); ("r3", "a"); ("r4", "a"); ("s1", "b"); ("s2", "b"); ("s3", "b"); ("s4", "b");
   ("t1", "c"); ("t2", "c"); ("t3", "c"); ("t4", "c")].
Definition least_loaded (locks : gmap string string) (_ : string) : option string :=
  match getInstancesLoad (H := order_fwd) four (Some locks) [] with Ok load => Some (getLowLoadInstance (H := order_fwd) load) | _ => None end.
Example rebalance_ends_early :
  let locks := clusterRebalanceTargets (H := order_fwd) four (fun _ => true) least_loaded target_key four_locks in
  (held locks <$> ["a"; "b"; "c"; "d"]) = [3; 4; 3; 2].
Proof. vm_compute. reflexivity. Qed.

Lemma drain_empties_witness :
  keyed target_key three_locks /\
  exists locks', drain_instance (H := order_fwd) (fun _ => true) (String.eqb "r1") (fun _ _ => Some "c") target_key "a" three_locks = Ok locks'
    /\ locks' !! target_key "r1" = Some "c" /\ locks' !! target_key "r2" = None /\ locks' !! target_key "r1" <> Some "a".
Proof.
  pose proof three_keyed as Hk.
  split; [exact Hk|]. eexists. split; [reflexivity|]. split; [reflexivity|]. split; [reflexivity|].
  refine (proj1 (drain_empties (H := order_fwd) (String.eqb "r1") (fun _ _ => Some "c") target_key "a" three_locks _ Hk _ eq_refl _)).
  intros l t [=].
Defined.
