(* ===== verification/Placement.v ===== *)
(** * Cluster placement (pkg/collector/managers/cluster/placement.go,
      membership.go, and the quotas of rebalance.go)

    The leader of a cluster spreads the targets over the members: each member
    has a quota, the targets divided evenly, and a target goes to the member
    with the most room left, ties broken by a hash. Both range over maps of
    members, and both are proved independent of the order. A map of members is
    keyed by member ID. *)

From S2P Require Import Prelude GoStrings Utf8 GoVal.
From stdpp Require Import strings.

#[local] Open Scope Z_scope.

(** ** Members *)

Record Member := mkMember {
  m_ID : string;
  m_Address : string;
  m_Labels : list string;
  m_Load : Z;
  m_Targets : list string
}.
#[export] Instance Member_eq_dec : EqDecision Member.
Proof. solve_decision. Defined.

(** Every member is under its own, non-empty ID. *)
Definition keyed (members : gmap string Member) : Prop :=
  map_Forall (fun id m => m_ID m = id /\ id <> "") members.

(** [SplitN(lb, "=", 2)] and the scheme a member's labels ask for. *)
Definition protocolLabel : string := "__protocol".

Fixpoint scheme_of (labels : list string) : string :=
  match labels with
  | [] => "http"
  | lb :: labels =>
      let '(k, v, found) := cut_byte "=" lb in
      if found && String.eqb k protocolLabel then (if String.eqb v "https" then "https" else "http")
      else scheme_of labels
  end.
Definition GetAPIScheme (member : option Member) : string :=
  match member with None => "http" | Some m => scheme_of (m_Labels m) end.
Definition getMemberAddress (m : Member) : string := GetAPIScheme (Some m) +:+ ("://" +:+ m_Address m).

(** ** Placement *)

Definition fnv64 (s : string) : Z := fnv1a s.

(** [memberA < memberB], byte by byte. *)
Definition slt (a b : string) : bool := bool_decide (String.le a b) && negb (String.eqb a b).

Definition tieBreak (targetName memberA memberB : string) : bool :=
  if String.eqb memberB "" then true
  else
    let ha := fnv64 (targetName +:+ memberA) in
    let hb := fnv64 (targetName +:+ memberB) in
    if ha =? hb then slt memberA memberB else ha <? hb.

(** [m[k]] of a map of integers, and [m[k]++]. *)
Definition zget (m : gmap string Z) (k : string) : Z := default 0 (m !! k).
Definition zincr (k : string) (m : gmap string Z) : gmap string Z := <[k := int64 (zget m k + 1)]> m.

Inductive cluster_error :=
| errNoMembers | errLocker | errNotFound | errNoLeast | errNotAssigned | errAssign | errUnassign | errDelete | errStore | errTooFew.

Definition lowest : Z := - 2 ^ 62.

Section pick.
Context (targetName : string) (quotas membersLoad : gmap string Z).

Definition freeQuota (m : Member) : Z := int64 (zget quotas (m_ID m) - zget membersLoad (m_ID m)).

(** The loop over the members: the pick so far, nil before any, and its free
    quota. *)
Definition pick_step (st : option Member * Z) (m : Member) : go cluster_error (option Member * Z) :=
  let '(pick, highest) := st in
  let s := freeQuota m in
  if highest <? s then Ok (Some m, s)
  else if s =? highest then
    match pick with
    | None => Panic
    | Some p => if tieBreak targetName (m_ID m) (m_ID p) then Ok (Some m, s) else Ok st
    end
  else Ok st.

Definition pickAssignee `{MapOrder} (members : gmap string Member)
    : go cluster_error (option Member * gmap string Z) :=
  if (size members =? 0)%nat then Ok (None, membersLoad)
  else
    '(pick, _) ← foldM pick_step (range members).*2 (None, lowest);
    match pick with
    | None => Panic
    | Some p => Ok (Some p, zincr (m_ID p) membersLoad)
    end.

(** [m1] is preferred to [m2]. *)
Definition preferred (m1 m2 : Member) : Prop :=
  freeQuota m2 < freeQuota m1 \/
  (freeQuota m1 = freeQuota m2 /\ tieBreak targetName (m_ID m1) (m_ID m2) = true).

Lemma slt_trichotomy a b : a <> b -> slt a b = negb (slt b a).
Proof.
  intros Hab. unfold slt. rewrite !(proj2 (String.eqb_neq _ _)) by done. rewrite !andb_true_r.
  destruct (total String.le a b) as [Hle|Hle].
  - rewrite (bool_decide_eq_true_2 _ Hle), bool_decide_eq_false_2; [done|]. intros Hle'. by apply Hab, (anti_symm String.le).
  - rewrite (bool_decide_eq_true_2 _ Hle), bool_decide_eq_false_2; [done|]. intros Hle'. by apply Hab, (anti_symm String.le).
Qed.

Lemma slt_trans a b c : slt a b = true -> slt b c = true -> slt a c = true.
Proof.
  unfold slt. rewrite !andb_true_iff, !negb_true_iff, !String.eqb_neq, !bool_decide_eq_true.
  intros [H1 N1] [H2 N2]. split; [by etrans|]. intros ->. by apply N1, (anti_symm String.le).
Qed.

(** For two different, non-empty IDs the tie goes to exactly one, and ties are
    transitive. *)
Lemma tieBreak_total a b : a <> "" -> b <> "" -> a <> b -> tieBreak targetName a b = negb (tieBreak targetName b a).
Proof.
  intros Ha Hb Hab. unfold tieBreak. rewrite !(proj2 (String.eqb_neq _ "")) by done.
  rewrite (Z.eqb_sym (fnv64 (targetName +:+ b))).
  destruct (Z.eqb_spec (fnv64 (targetName +:+ a)) (fnv64 (targetName +:+ b))) as [E|E]; [by apply slt_trichotomy|].
  zcases; done.
Qed.

Lemma tieBreak_trans a b c :
  b <> "" -> c <> "" -> tieBreak targetName a b = true -> tieBreak targetName b c = true -> tieBreak targetName a c = true.
Proof.
  intros Hb Hc. unfold tieBreak. rewrite !(proj2 (String.eqb_neq _ "")) by done.
  zcases; try done. apply slt_trans.
Qed.

Lemma preferred_trans m1 m2 m3 :
  m_ID m2 <> "" -> m_ID m3 <> "" -> preferred m1 m2 -> preferred m2 m3 -> preferred m1 m3.
Proof.
  intros H2 H3 [A|[A TA]] [B|[B TB]]; unfold preferred; [left; lia|left; lia|left; lia|right].
  split; [lia|]. by apply (tieBreak_trans _ (m_ID m2)).
Qed.

(** The loop keeps the preferred one of the members seen. *)
Lemma pick_loop l p :
  NoDup (m_ID <$> p :: l) -> Forall (fun m => m_ID m <> "") (p :: l) ->
  exists q, foldM pick_step l (Some p, freeQuota p) = Ok (Some q, freeQuota q) /\ q ∈ p :: l /\
    forall m, m ∈ p :: l -> m <> q -> preferred q m.
Proof.
  revert p; induction l as [|m l IH]; intros p Hnd Hne.
  { exists p. split; [done|]. split; [by left|]. intros m ->%list_elem_of_singleton. done. }
  cbn [foldM]. apply Forall_cons in Hne as [Hp [Hm Hl]%Forall_cons].
  cbn [fmap list_fmap] in Hnd. apply NoDup_cons in Hnd as [Hpn [Hmn Hnd]%NoDup_cons].
  assert (m_ID p <> m_ID m) as Hpm by (intros E; apply Hpn; rewrite E; by left).
  assert (exists q0 o, (q0 = p /\ o = m \/ q0 = m /\ o = p) /\ pick_step (Some p, freeQuota p) m = Ok (Some q0, freeQuota q0)
    /\ preferred q0 o) as (q0 & o & Hq0 & -> & Hpref).
  { unfold pick_step. destruct (Z.ltb_spec (freeQuota p) (freeQuota m)) as [Hlt|Hge].
    { exists m, p. split; [by right|]. split; [done|by left]. }
    destruct (Z.eqb_spec (freeQuota m) (freeQuota p)) as [He|Hne].
    - destruct (tieBreak targetName (m_ID m) (m_ID p)) eqn:Et.
      + exists m, p. split; [by right|]. split; [done|by right].
      + exists p, m. split; [by left|]. split; [done|]. right. split; [done|].
        rewrite tieBreak_total by done. by rewrite Et.
    - exists p, m. split; [by left|]. split; [done|]. left. lia. }
  cbn [mbind go_bind].
  destruct (IH q0) as (q & Hq & Hin & Hpq).
  - cbn. apply NoDup_cons. split; [|done]. destruct Hq0 as [[-> _]|[-> _]]; [|done].
    intros Hin. apply Hpn. by right.
  - apply Forall_cons. split; [by destruct Hq0 as [[-> _]|[-> _]]|done].
  - exists q. split; [done|]. split; [destruct Hq0 as [[-> _]|[-> _]]; rewrite !elem_of_cons in *; naive_solver|].
    intros x Hx Hxq.
    assert (x = o \/ x ∈ q0 :: l) as [->|Hx'] by (rewrite !elem_of_cons in *; naive_solver); [|by apply Hpq].
    destruct (decide (q0 = q)) as [<-|Hq0q]; [done|].
    apply (preferred_trans q q0 o); [by destruct Hq0 as [[-> ->]|[-> ->]]|by destruct Hq0 as [[-> ->]|[-> ->]]| |done].
    apply Hpq; [by left|done].
Qed.
End pick.

Lemma preferred_asym t q l m1 m2 :
  m_ID m1 <> "" -> m_ID m2 <> "" -> m_ID m1 <> m_ID m2 -> preferred t q l m1 m2 -> ~ preferred t q l m2 m1.
Proof.
  intros H1 H2 Hne [A|[A TA]] [B|[B TB]]; try lia. rewrite (tieBreak_total t) in TB by done. by rewrite TA in TB.
Qed.

(** Any order picks a member preferred to every other. *)
Lemma pickAssignee_pick (o : MapOrder) (t : string) (quotas loads : gmap string Z) (members : gmap string Member) :
  keyed members -> members <> ∅ ->
  map_Forall (fun _ m => lowest < freeQuota quotas loads m) members ->
  exists q, pickAssignee t quotas loads members = Ok (Some q, zincr (m_ID q) loads) /\
    members !! m_ID q = Some q /\
    (forall id m, members !! id = Some m -> m <> q -> preferred t quotas loads q m).
Proof.
  intros Hkey Hne Hlow. unfold pickAssignee. rewrite (proj2 (Nat.eqb_neq _ _)) by (by rewrite map_size_empty_iff).
    assert (forall m, m ∈ (range members).*2 <-> members !! m_ID m = Some m) as Hin.
    { intros m. rewrite list_elem_of_fmap. split.
      - intros ([id m'] & -> & Hm%elem_of_range). cbn. destruct (Hkey _ _ Hm) as [Hid _]. by rewrite Hid.
      - intros Hm. exists (m_ID m, m). by rewrite elem_of_range. }
    assert (NoDup (m_ID <$> (range members).*2)) as Hnd.
    { replace (m_ID <$> (range members).*2) with ((range members).*1); [apply NoDup_range_fst|].
      rewrite <-list_fmap_compose. apply list_fmap_ext. intros i [id m] Hi%list_elem_of_lookup_2%elem_of_range.
      cbn. symmetry. apply (Hkey _ _ Hi). }
    assert (Forall (fun m => m_ID m <> "") (range members).*2) as Hids.
    { apply Forall_forall. intros m Hm%Hin. by destruct (Hkey _ _ Hm). }
    destruct ((range members).*2) as [|p l] eqn:Er.
    { exfalso. apply Hne. apply map_size_empty_inv. rewrite <-length_range, <-(length_fmap snd), Er. done. }
    cbn [foldM].
    assert (members !! m_ID p = Some p) as Hp by (apply Hin; by left).
    assert (pick_step t quotas loads (None, lowest) p = Ok (Some p, freeQuota quotas loads p)) as ->.
    { unfold pick_step. by rewrite (proj2 (Z.ltb_lt _ _) (Hlow _ _ Hp)). }
    cbn [mbind go_bind].
    destruct (pick_loop t quotas loads l p Hnd Hids) as (q & -> & Hq & Hpref). cbn [mbind go_bind].
    exists q. split; [done|]. split; [by apply Hin|]. intros id m Hm Hmq. apply Hpref; [|done].
    apply Hin. destruct (Hkey _ _ Hm) as [-> _]. done.
Qed.

(** C9: picking the member a target goes to, with members under their own
    IDs: it succeeds, the pick does not depend on the map iteration order, no
    member has more free quota, among those with as much it wins the tie-break,
    and exactly its load goes up by one. *)
Theorem pickAssignee_spec (o : MapOrder) (t : string) (quotas loads : gmap string Z) (members : gmap string Member) :
  keyed members -> members <> ∅ ->
  map_Forall (fun _ m => lowest < freeQuota quotas loads m) members ->
  exists q, pickAssignee t quotas loads members = Ok (Some q, zincr (m_ID q) loads) /\
    members !! m_ID q = Some q /\
    (forall id m, members !! id = Some m -> m <> q -> preferred t quotas loads q m) /\
    (forall o' : MapOrder, pickAssignee (H := o') t quotas loads members = pickAssignee (H := o) t quotas loads members).
Proof.
  intros Hkey Hne Hlow.
  pose proof (fun o' => pickAssignee_pick o' t quotas loads members Hkey Hne Hlow) as Hpick.
  destruct (Hpick o) as (q & Hq & Hmem & Hpref). exists q. split; [done|]. split; [done|]. split; [done|].
  intros o'. destruct (Hpick o') as (q' & Hq' & Hmem' & Hpref'). rewrite Hq, Hq'.
  destruct (decide (q = q')) as [->|Hqq]; [done|]. exfalso.
  destruct (Hkey _ _ Hmem) as [_ Hn], (Hkey _ _ Hmem') as [_ Hn'].
  refine (preferred_asym t quotas loads q q' Hn Hn' _ (Hpref _ _ Hmem' _) (Hpref' _ _ Hmem _)); [|done..].
  intros E. rewrite E in Hmem. congruence.
Qed.

Definition ex_member (id : string) (targets : list string) : Member :=
  mkMember id (id +:+ ":7890") [] (Z.of_nat (length targets)) targets.
Definition ex_members : gmap string Member :=
  {["a" := ex_member "a" []; "b" := ex_member "b" []; "c" := ex_member "c" []]}.

Lemma pickAssignee_spec_witness :
  let quotas := {["a" := 2; "b" := 2; "c" := 1]} in
  let loads := {["a" := 1; "c" := 1]} in
  exists q, pickAssignee (H := order_fwd) "router1" quotas loads ex_members = Ok (Some q, zincr (m_ID q) loads) /\
    m_ID q = "b" /\
    pickAssignee (H := order_bwd) "router1" quotas loads ex_members
      = pickAssignee (H := order_fwd) "router1" quotas loads ex_members.
Proof.
  cbn zeta.
  assert (keyed ex_members) as Hk.
  { unfold ex_members, keyed. repeat (apply map_Forall_insert_2; [split; [reflexivity|discriminate]|]).
    apply map_Forall_empty. }
  destruct (pickAssignee_spec order_fwd "router1" {["a" := 2; "b" := 2; "c" := 1]} {["a" := 1; "c" := 1]} ex_members)
    as (q & Hq & Hm & Hpref & Hdet).
  - exact Hk.
  - intros E. apply (f_equal (fun m => m !! "a")) in E. vm_compute in E. discriminate E.
  - unfold ex_members. repeat (apply map_Forall_insert_2; [vm_compute; reflexivity|]).
    apply map_Forall_empty.
  - exists q. split; [exact Hq|]. split; [|apply Hdet].
    assert (fst <$> pickAssignee (H := order_fwd) "router1" {["a" := 2; "b" := 2; "c" := 1]}
      {["a" := 1; "c" := 1]} ex_members = Ok (Some (ex_member "b" []))) as Hb by (vm_compute; reflexivity).
    rewrite Hq in Hb. injection Hb as ->. reflexivity.
Defined.

(** ** Quotas *)

Section quota.
Context `{MapOrder}.

(** [total / n] and [total % n] truncate; the first [rem] members in ID order
    get one more. *)
Definition calculateMembersQuota {V} (members : gmap string V) (total : Z) : gomap Z :=
  if total =? 0 then Some ((fun _ => 0) <$> members)
  else if (size members =? 0)%nat then None
  else
    let n := Z.of_nat (size members) in
    let base := Z.quot total n in
    let rem := Z.rem total n in
    let ids := sort_strings (range members).*1 in
    Some (list_to_map (imap (fun i id => (id, if Z.of_nat i <? rem then base + 1 else base)) ids)).

Lemma quota_sum_from (base rem : Z) (ids : list string) (k : nat) :
  0 <= rem ->
  zsum (imap (fun i _ => if Z.of_nat (k + i) <? rem then base + 1 else base) ids)
  = base * Z.of_nat (length ids) + Z.min (Z.of_nat (length ids)) (Z.max 0 (rem - Z.of_nat k)).
Proof.
  intros Hr. revert k; induction ids as [|id ids IH]; intros k; cbn [imap]; [cbn; lia|].
  change (zsum (?x :: ?l)) with (x + zsum l). cbn [length].
  rewrite (imap_ext _ (fun i _ => if Z.of_nat (S k + i) <? rem then base + 1 else base)).
  2: { intros i x _. cbn. by rewrite Nat.add_succ_r. }
  rewrite IH. zcases.
Qed.

End quota.

Lemma quota_shape (o : MapOrder) {V} (members : gmap string V) (total : Z) :
  members <> ∅ -> 0 <= total ->
  exists q, calculateMembersQuota members total = Some q /\ dom q = dom members /\ gsum q = total /\
    (forall id v, q !! id = Some v -> total / Z.of_nat (size members) <= v <= total / Z.of_nat (size members) + 1).
Proof.
  intros Hne Ht. assert (0 < Z.of_nat (size members)) as Hn.
  { destruct (size members) eqn:E; [by apply map_size_empty_inv in E|lia]. }
  set (n := Z.of_nat (size members)) in *. unfold calculateMembersQuota. fold n.
  destruct (Z.eqb_spec total 0) as [->|Ht0].
  - eexists. split; [done|]. split; [by rewrite dom_fmap_L|]. split.
    + unfold gsum. rewrite map_to_list_fmap, <-list_fmap_compose. cbn.
      induction (map_to_list members); [done|]. done.
    + intros id v. rewrite lookup_fmap. destruct (members !! id); [|done]. intros [= <-]. rewrite Z.div_0_l by lia. lia.
  - rewrite (proj2 (Nat.eqb_neq _ _)) by lia.
    set (ids := sort_strings (range members).*1).
    assert (ids ≡ₚ (map_to_list members).*1) as Hids.
    { unfold ids. rewrite sort_strings_perm. by rewrite range_perm. }
    assert (length ids = size members) as Hlen by (by rewrite Hids, length_fmap, length_map_to_list).
    rewrite Z.quot_div_nonneg, Z.rem_mod_nonneg by lia.
    set (l := imap (fun i id => (id, if Z.of_nat i <? total mod n then total / n + 1 else total / n)) ids).
    assert (l.*1 = ids) as Hl1.
    { unfold l. rewrite fmap_imap. transitivity (imap (fun _ (x : string) => x) ids).
      - apply imap_ext. done.
      - apply list_eq. intros i. rewrite list_lookup_imap. by destruct (ids !! i). }
    assert (NoDup l.*1) as Hnd by (rewrite Hl1, Hids; apply NoDup_fst_map_to_list).
    eexists. split; [done|]. split; [|split].
    + rewrite dom_list_to_map_L, Hl1, Hids. apply set_eq. intros id.
      rewrite elem_of_list_to_set, elem_of_dom, list_elem_of_fmap. split.
      * intros ([i m] & -> & Hm%elem_of_map_to_list). eauto.
      * intros [m Hm]. exists (id, m). by rewrite elem_of_map_to_list.
    + rewrite gsum_list_to_map by done. unfold l. rewrite fmap_imap.
      pose proof (quota_sum_from (total / n) (total mod n) ids 0) as Hs. cbn [Nat.add] in Hs.
      rewrite (imap_ext _ (fun i _ => if Z.of_nat i <? total mod n then total / n + 1 else total / n)) by done.
      rewrite Hs by (apply Z.mod_pos_bound; lia). rewrite Hlen. fold n.
      pose proof (Z.mod_pos_bound total n Hn). pose proof (Z.div_mod total n). lia.
    + intros id v Hv. apply elem_of_list_to_map_2, list_elem_of_lookup_1 in Hv as [i Hi].
      unfold l in Hi. rewrite list_lookup_imap in Hi. destruct (ids !! i); [|done]. cbn in Hi.
      injection Hi as _ <-. zcases.
Qed.

Lemma quota_det (o o' : MapOrder) {V} (members : gmap string V) (total : Z) :
  calculateMembersQuota (H := o') members total = calculateMembersQuota (H := o) members total.
Proof.
  unfold calculateMembersQuota. destruct (total =? 0), (size members =? 0)%nat; [done..|]. cbn zeta. do 3 f_equal. apply sort_strings_det.
  by rewrite !range_perm.
Qed.

(** The quotas of a non-empty cluster for a number of targets: every
    member has one, they add up to the number of targets, any two differ by at
    most one, and they do not depend on the map iteration order. *)
Theorem quota_spec (o : MapOrder) {V} (members : gmap string V) (total : Z) :
  members <> ∅ -> 0 <= total ->
  exists q, calculateMembersQuota members total = Some q /\ dom q = dom members /\ gsum q = total /\
    (forall id v, q !! id = Some v -> total / Z.of_nat (size members) <= v <= total / Z.of_nat (size members) + 1) /\
    (forall o' : MapOrder, calculateMembersQuota (H := o') members total = calculateMembersQuota (H := o) members total).
Proof.
  intros Hne Ht. destruct (quota_shape o members total Hne Ht) as (q & Hq & Hd & Hs & Hb).
  exists q. do 4 (split; [done|]). intros o'. apply quota_det.
Qed.

Lemma quota_spec_witness :
  ex_members <> ∅ /\ 0 <= 5 /\
  calculateMembersQuota (H := order_bwd) ex_members 5 = Some {["a" := 2; "b" := 2; "c" := 1]} /\
  exists q, calculateMembersQuota (H := order_bwd) ex_members 5 = Some q /\ gsum q = 5.
Proof.
  assert (ex_members <> ∅) as Hne.
  { intros E. apply (f_equal (fun m => m !! "a")) in E. vm_compute in E. discriminate E. }
  split; [exact Hne|]. split; [lia|]. split; [vm_compute; reflexivity|].
  destruct (quota_spec order_bwd ex_members 5 Hne ltac:(lia)) as (q & Hq & _ & Hs & _).
  exists q. split; [exact Hq|exact Hs].
Defined.
