(* ===== verification/Rebalance.v ===== *)
(** * Cluster rebalancing (pkg/collector/managers/cluster/rebalance.go)

    [rebalance] compares each member's load with its quota, and moves targets
    from the members above it to the members below it. The main theorem: when
    a member's load is the number of its targets and a target has one holder,
    the plan terminates and, once carried out, every member has exactly its
    quota. The inner loop has no such bound in general; [donor_loop] takes fuel
    and the theorem gives how much is enough. Receivers' needs are behind
    pointers in the code: they are kept in a table by ID. *)

From S2P Require Import Prelude GoStrings Utf8 GoVal Placement.
From stdpp Require Import strings.

#[local] Open Scope Z_scope.

(** [rand.Shuffle] of a copy of a member's targets. *)
Class Shuffle : Type := {
  shuffle : string -> list string -> list string;
  shuffle_perm : forall id l, shuffle id l ≡ₚ l
}.
Definition no_shuffle : Shuffle := {| shuffle _ l := l; shuffle_perm _ l := Permutation_refl l |}.

Record donor := mkDonor { d_id : string; d_surplus : Z; d_pool : list string }.

(** The receivers still in the queue, what each needs, and the plan: the new
    owner of each target that moves. *)
Record rstate := mkRstate {
  r_queue : list string;
  r_need : gmap string Z;
  r_moves : gmap string string
}.

(** The scan of the donor's pool: the first [k] targets go to [r], the rest is
    kept. *)
Definition scan_step (r : string) (k : Z) (st : gmap string string * Z * list string) (t : string)
    : gmap string string * Z * list string :=
  let '(moves, taken, kept) := st in
  if taken <? k then (<[t := r]> moves, taken + 1, kept) else (moves, taken, kept ++ [t]).
Definition scan_pool (r : string) (k : Z) (pool : list string) (moves : gmap string string)
    : gmap string string * Z * list string :=
  foldl (scan_step r k) (moves, 0, []) pool.

(** [for d.surplus > 0 && len(receivers) > 0]. When nothing was taken the code
    drops the head of the already rotated queue and appends the receiver
    again. *)
Fixpoint donor_loop (fuel : nat) (surplus : Z) (pool : list string) (st : rstate) : option rstate :=
  match fuel with
  | O => None
  | S fuel =>
      if surplus <=? 0 then Some st
      else match r_queue st with
      | [] => Some st
      | r :: rest =>
          let need := zget (r_need st) r in
          if need =? 0 then donor_loop fuel surplus pool (mkRstate rest (r_need st) (r_moves st))
          else
            let k := Z.min surplus need in
            let '(moves, taken, kept) := scan_pool r k pool (r_moves st) in
            let surplus := surplus - taken in
            let need := need - taken in
            let queue := if need =? 0 then rest else rest ++ [r] in
            let needs := <[r := need]> (r_need st) in
            if taken =? 0 then
              let queue := tail queue ++ [r] in
              if (length queue =? 1)%nat then Some (mkRstate queue needs moves)
              else donor_loop fuel surplus kept (mkRstate queue needs moves)
            else donor_loop fuel surplus kept (mkRstate queue needs moves)
      end
  end.

Fixpoint donors_loop (fuel : nat) (ds : list donor) (st : rstate) : option rstate :=
  match ds with
  | [] => Some st
  | d :: ds => st ← donor_loop fuel (d_surplus d) (d_pool d) st; donors_loop fuel ds st
  end.

Section rebalance.
Context `{MapOrder} `{Shuffle}.

(** The switch over the members in ID order. *)
Definition donors_of (members : gmap string Member) (q : gmap string Z) (ids : list string) : list donor :=
  omap (fun id =>
    m ← members !! id;
    if zget q id <? m_Load m then Some (mkDonor id (m_Load m - zget q id) (shuffle id (m_Targets m))) else None) ids.
Definition receivers_of (members : gmap string Member) (q : gmap string Z) (ids : list string) : list (string * Z) :=
  omap (fun id =>
    m ← members !! id;
    if m_Load m <? zget q id then Some (id, zget q id - m_Load m) else None) ids.

(** [rebalance]: no plan when there is nothing to move; the outer option is the
    fuel. *)
Definition rebalance (fuel : nat) (members : gmap string Member) : option (gomap string) :=
  let total := zsum (m_Load <$> (range members).*2) in
  match calculateMembersQuota members total with
  | None => Some None
  | Some q =>
      if (size q =? 0)%nat then Some None
      else
        let ids := sort_strings (range members).*1 in
        let donors := donors_of members q ids in
        let receivers := receivers_of members q ids in
        if nilb donors || nilb receivers then Some None
        else
          st ← donors_loop fuel donors (mkRstate receivers.*1 (list_to_map receivers) ∅);
          Some (Some (r_moves st))
  end.
End rebalance.

(** ** The scan *)

Definition move_all (r : string) (ts : list string) (moves : gmap string string) : gmap string string :=
  foldl (fun m t => <[t := r]> m) moves ts.

Lemma scan_pool_spec r k pool moves :
  0 <= k <= Z.of_nat (length pool) ->
  scan_pool r k pool moves = (move_all r (take (Z.to_nat k) pool) moves, k, drop (Z.to_nat k) pool).
Proof.
  intros Hk. unfold scan_pool, move_all.
  assert (forall l moves taken kept, foldl (scan_step r k) (moves, taken, kept) l =
    (foldl (fun m t => <[t := r]> m) moves (take (Z.to_nat (k - taken)) l),
     taken + Z.min (Z.max 0 (k - taken)) (Z.of_nat (length l)),
     kept ++ drop (Z.to_nat (k - taken)) l)) as Hl.
  { induction l as [|t l IH]; intros mv taken kept; cbn [foldl scan_step].
    - rewrite take_nil, drop_nil, app_nil_r. cbn [foldl length]. f_equal. f_equal. lia.
    - destruct (Z.ltb_spec taken k).
      + rewrite IH. replace (Z.to_nat (k - taken)) with (S (Z.to_nat (k - (taken + 1)))) by lia.
        cbn [take drop foldl length]. f_equal. f_equal. lia.
      + rewrite IH. replace (Z.to_nat (k - taken)) with 0%nat by lia. cbn [take drop foldl length].
        rewrite <-app_assoc. f_equal. f_equal. lia. }
  rewrite Hl, Z.sub_0_r. f_equal. f_equal. lia.
Qed.

Lemma move_all_lookup r ts moves t :
  move_all r ts moves !! t = if decide (t ∈ ts) then Some r else moves !! t.
Proof.
  unfold move_all. revert moves; induction ts as [|x ts IH]; intros moves; cbn [foldl].
  - rewrite decide_False; [done|]. by intros ?%elem_of_nil.
  - rewrite IH. destruct (decide (t = x)) as [->|Hne].
    + rewrite (decide_True (P := x ∈ x :: ts)) by (by left). case_decide; [done|]. apply lookup_insert_eq.
    + rewrite lookup_insert_ne by done.
      destruct (decide (t ∈ ts)); [rewrite decide_True by (by right)|rewrite decide_False]; try done.
      by intros [|]%elem_of_cons.
Qed.

(** How many targets the plan moves to a member. *)
Definition arrivals (dst : string) (moves : gmap string string) : Z :=
  Z.of_nat (size (filter (fun kv => kv.2 = dst) moves)).

Lemma arrivals_insert dst t r moves :
  moves !! t = None -> arrivals dst (<[t := r]> moves) = arrivals dst moves + (if decide (r = dst) then 1 else 0).
Proof.
  intros Ht. unfold arrivals. case_decide as Hr.
  - rewrite map_filter_insert_True by done. rewrite map_size_insert_None; [lia|].
    apply map_lookup_filter_None_2. by left.
  - rewrite map_filter_insert_False by done. rewrite delete_id by done. lia.
Qed.

Lemma arrivals_move_all dst r ts moves :
  NoDup ts -> (forall t, t ∈ ts -> moves !! t = None) ->
  arrivals dst (move_all r ts moves) = arrivals dst moves + (if decide (r = dst) then Z.of_nat (length ts) else 0).
Proof.
  intros Hnd. revert moves; induction Hnd as [|t ts Ht Hnd IH]; intros moves Hn; unfold move_all; cbn [foldl length].
  - case_decide; lia.
  - change (foldl _ ?m ts) with (move_all r ts m). rewrite IH.
    + rewrite arrivals_insert by (apply Hn; by left). case_decide; lia.
    + intros t' Ht'. rewrite lookup_insert_ne; [apply Hn; by right|]. by intros ->.
Qed.

(** ** One donor *)

Definition total_need (st : rstate) : Z := zsum (zget (r_need st) <$> r_queue st).

Record rinv (st : rstate) : Prop := {
  ri_nodup : NoDup (r_queue st);
  ri_pos : forall r, r ∈ r_queue st -> 0 < zget (r_need st) r;
  ri_zero : forall r, r ∉ r_queue st -> zget (r_need st) r = 0
}.

(** [ts] were moved to receivers of the queue, and nothing else. *)
Record moved (st st' : rstate) (ts : list string) : Prop := {
  mv_inv : rinv st';
  mv_need : total_need st' = total_need st - Z.of_nat (length ts);
  mv_cnt : forall r, arrivals r (r_moves st') + zget (r_need st') r = arrivals r (r_moves st) + zget (r_need st) r;
  mv_in : forall t, t ∈ ts -> exists r, r_moves st' !! t = Some r /\ r ∈ r_queue st;
  mv_out : forall t, t ∉ ts -> r_moves st' !! t = r_moves st !! t;
  mv_queue : forall r, r ∈ r_queue st' -> r ∈ r_queue st;
  mv_len : (length (r_queue st') <= length (r_queue st))%nat
}.

Lemma moved_nil st : rinv st -> moved st st [].
Proof.
  intros Hi. split; cbn; [done|lia|done|by intros t ?%elem_of_nil|done|done|done].
Qed.

Lemma moved_app st1 st2 st3 ts1 ts2 :
  (forall t, t ∈ ts1 -> t ∉ ts2) -> moved st1 st2 ts1 -> moved st2 st3 ts2 -> moved st1 st3 (ts1 ++ ts2).
Proof.
  intros Hd [I1 N1 C1 In1 O1 Q1 L1] [I2 N2 C2 In2 O2 Q2 L2]. split; [done| | | | | |lia].
  - rewrite length_app. lia.
  - intros r. rewrite C2. apply C1.
  - intros t [Ht|Ht]%elem_of_app.
    + destruct (In1 t Ht) as (r & Hr & Hq). exists r. split; [|done]. rewrite O2 by auto. done.
    + destruct (In2 t Ht) as (r & Hr & Hq). eauto.
  - intros t Ht. rewrite elem_of_app in Ht. rewrite O2, O1 by tauto. done.
  - auto.
Qed.

Lemma zget_insert_eq m k v : zget (<[k := v]> m) k = v.
Proof. unfold zget. by rewrite lookup_insert_eq. Qed.
Lemma zget_insert_ne m k k' v : k <> k' -> zget (<[k := v]> m) k' = zget m k'.
Proof. intros. unfold zget. by rewrite lookup_insert_ne. Qed.

Lemma needs_other m k v (l : list string) : k ∉ l -> zget (<[k := v]> m) <$> l = zget m <$> l.
Proof.
  intros Hk. apply list_fmap_ext. intros i x Hx%list_elem_of_lookup_2. apply zget_insert_ne. by intros ->.
Qed.

(** One round: the receiver at the head takes [k] targets. *)
Lemma round_moved r rest needs moves k pool :
  let st := mkRstate (r :: rest) needs moves in
  let need := zget needs r - k in
  let st' := mkRstate (if need =? 0 then rest else rest ++ [r]) (<[r := need]> needs)
               (move_all r (take (Z.to_nat k) pool) moves) in
  rinv st -> 0 < k <= zget needs r -> k <= Z.of_nat (length pool) -> NoDup pool ->
  (forall t, t ∈ pool -> moves !! t = None) ->
  moved st st' (take (Z.to_nat k) pool).
Proof.
  intros st need st' [Hnd Hpos Hzero] Hk Hlen Hpool Hfresh. cbn in Hnd, Hpos, Hzero.
  apply NoDup_cons in Hnd as [Hr Hnd].
  assert (length (take (Z.to_nat k) pool) = Z.to_nat k) as Htake by (rewrite length_take; lia).
  assert (forall x, x ∈ (if need =? 0 then rest else rest ++ [r]) <-> x ∈ rest \/ (need <> 0 /\ x = r)) as Hq.
  { intros x. destruct (Z.eqb_spec need 0); [naive_solver|]. rewrite elem_of_app, list_elem_of_singleton. naive_solver. }
  split.
  - split; cbn.
    + destruct (need =? 0); [done|]. apply NoDup_app. split; [done|]. split; [|by apply NoDup_singleton].
      intros x Hx ->%list_elem_of_singleton. done.
    + intros x [Hx|[Hn ->]]%Hq.
      * rewrite zget_insert_ne by (by intros ->). apply Hpos. by right.
      * rewrite zget_insert_eq. lia.
    + intros x Hx. rewrite Hq in Hx. destruct (decide (r = x)) as [<-|Hne].
      * rewrite zget_insert_eq. destruct (decide (need = 0)); [done|]. destruct Hx. by right.
      * rewrite zget_insert_ne by done. apply Hzero. rewrite elem_of_cons. naive_solver.
  - rewrite Htake. unfold total_need, st', st; cbn [r_queue r_need].
    assert (zsum (zget (<[r := need]> needs) <$> (if need =? 0 then rest else rest ++ [r]))
      = zsum (zget needs <$> rest) + need) as ->.
    { destruct (Z.eqb_spec need 0) as [E|E]; [|rewrite fmap_app, zsum_app]; rewrite needs_other by done; [lia|].
      cbn. rewrite zget_insert_eq. lia. }
    cbn [fmap list_fmap]. rewrite zsum_cons. unfold need. rewrite Z2Nat.id by lia.
    change (list_fmap string Z (zget needs) rest) with (zget needs <$> rest). lia.
  - intros x. cbn. rewrite arrivals_move_all.
    + rewrite Htake. case_decide as Hx; [subst x; rewrite zget_insert_eq; lia|].
      rewrite zget_insert_ne by done. lia.
    + eapply sublist_NoDup; [done|]. apply sublist_take.
    + intros t Ht. apply Hfresh. eapply elem_of_sublist; [done|apply sublist_take].
  - intros t Ht. exists r. cbn. rewrite move_all_lookup, decide_True by done. split; [done|by left].
  - intros t Ht. cbn. by rewrite move_all_lookup, decide_False.
  - intros x Hx. cbn in *. apply Hq in Hx. rewrite elem_of_cons. naive_solver.
  - cbn. destruct (need =? 0); rewrite ?length_app; cbn; lia.
Qed.

Lemma donor_loop_done fuel s pool st : (0 < fuel)%nat -> s <= 0 -> donor_loop fuel s pool st = Some st.
Proof. destruct fuel; [lia|]. intros _ Hs. cbn. by rewrite (proj2 (Z.leb_le _ _) Hs). Qed.

Lemma donor_loop_moved fuel s pool st :
  rinv st -> 0 <= s <= Z.of_nat (length pool) -> s <= total_need st -> NoDup pool ->
  (forall t, t ∈ pool -> r_moves st !! t = None) -> (length (r_queue st) < fuel)%nat ->
  exists st', donor_loop fuel s pool st = Some st' /\ moved st st' (take (Z.to_nat s) pool).
Proof.
  revert s pool st; induction fuel as [|fuel IH]; intros s pool st Hi Hs Hn Hnd Hfresh Hf; [lia|].
  destruct (decide (s = 0)) as [->|Hs0].
  { exists st. split; [apply donor_loop_done; lia|]. by apply moved_nil. }
  cbn [donor_loop]. rewrite (proj2 (Z.leb_gt _ _)) by lia.
  destruct st as [[|r rest] needs moves]; cbn [r_queue r_need r_moves] in *.
  { unfold total_need in Hn; cbn in Hn. lia. }
  pose proof (ri_pos _ Hi r ltac:(by left)) as Hr. cbn in Hr.
  rewrite (proj2 (Z.eqb_neq _ _)) by lia.
  set (k := Z.min s (zget needs r)). rewrite scan_pool_spec by (subst k; lia).
  rewrite (proj2 (Z.eqb_neq k 0)) by (subst k; lia).
  pose proof (round_moved r rest needs moves k pool Hi ltac:(subst k; lia) ltac:(subst k; lia) Hnd Hfresh) as Hm.
  cbn zeta in Hm. set (st1 := mkRstate _ _ (move_all _ _ _)) in *.
  assert (exists st', donor_loop fuel (s - k) (drop (Z.to_nat k) pool) st1 = Some st' /\
    moved st1 st' (take (Z.to_nat (s - k)) (drop (Z.to_nat k) pool))) as (st' & Hst' & Hm').
  { destruct (decide (s - k = 0)) as [E|E].
    - rewrite E. exists st1. split; [|apply moved_nil, Hm]. apply donor_loop_done; cbn in Hf; lia.
    - apply IH; [apply Hm|rewrite length_drop; subst k; lia| | | |].
      + rewrite (mv_need _ _ _ Hm), length_take. subst k. lia.
      + eapply sublist_NoDup; [exact Hnd|]. apply sublist_drop.
      + intros t Ht. rewrite (mv_out _ _ _ Hm); [apply Hfresh; eapply elem_of_sublist; [done|apply sublist_drop]|].
        intros Ht'. rewrite <-(take_drop (Z.to_nat k) pool) in Hnd. apply NoDup_app in Hnd as (_ & Hd & _).
        by apply (Hd t).
      + subst st1. cbn. rewrite (proj2 (Z.eqb_eq _ 0)) by (subst k; lia). cbn in Hf. lia. }
  exists st'. split; [exact Hst'|].
  replace (take (Z.to_nat s) pool) with (take (Z.to_nat k) pool ++ take (Z.to_nat (s - k)) (drop (Z.to_nat k) pool)).
  2: { rewrite take_take_drop. f_equal. subst k. lia. }
  eapply moved_app; [|exact Hm|exact Hm'].
  intros t Ht Ht'. rewrite <-(take_drop (Z.to_nat k) pool) in Hnd. apply NoDup_app in Hnd as (_ & Hd & _).
  apply (Hd t Ht). eapply elem_of_sublist; [exact Ht'|apply sublist_take].
Qed.

(** ** All donors *)

Definition given (d : donor) : list string := take (Z.to_nat (d_surplus d)) (d_pool d).

Lemma donors_loop_moved fuel ds st :
  rinv st -> Forall (fun d => 0 <= d_surplus d <= Z.of_nat (length (d_pool d))) ds ->
  zsum (d_surplus <$> ds) <= total_need st -> NoDup (ds ≫= d_pool) ->
  (forall t, t ∈ ds ≫= d_pool -> r_moves st !! t = None) -> (length (r_queue st) < fuel)%nat ->
  exists st', donors_loop fuel ds st = Some st' /\ moved st st' (ds ≫= given).
Proof.
  revert st; induction ds as [|d ds IH]; intros st Hi Hs Hn Hnd Hfresh Hf; cbn [donors_loop].
  { exists st. split; [done|]. by apply moved_nil. }
  apply Forall_cons in Hs as [Hd Hs]. cbn [fmap list_fmap] in Hn. rewrite zsum_cons in Hn.
  assert (0 <= zsum (d_surplus <$> ds)) as Hpos.
  { apply zsum_le, Forall_fmap. eapply Forall_impl; [exact Hs|]. cbn. lia. }
  change ((d :: ds) ≫= d_pool) with (d_pool d ++ (ds ≫= d_pool)) in *.
  apply NoDup_app in Hnd as (Hnd1 & Hdis & Hnd2).
  destruct (donor_loop_moved fuel (d_surplus d) (d_pool d) st) as (st1 & Hst1 & Hm1); [done|done|lia|done| |done|].
  { intros t Ht. apply Hfresh, elem_of_app. by left. }
  rewrite Hst1. cbn [mbind option_bind].
  assert (forall t, t ∈ given d -> t ∈ d_pool d) as Hgiven.
  { intros t Ht. eapply elem_of_sublist; [exact Ht|apply sublist_take]. }
  destruct (IH st1) as (st' & Hst' & Hm').
  - apply Hm1.
  - done.
  - rewrite (mv_need _ _ _ Hm1), length_take. lia.
  - done.
  - intros t Ht. rewrite (mv_out _ _ _ Hm1); [apply Hfresh, elem_of_app; by right|].
    intros Ht'. by apply (Hdis t (Hgiven t Ht')).
  - pose proof (mv_len _ _ _ Hm1). lia.
  - exists st'. split; [done|]. change ((d :: ds) ≫= given) with (given d ++ (ds ≫= given)).
    eapply moved_app; [|exact Hm1|exact Hm'].
    intros t Ht Ht'. apply (Hdis t (Hgiven t Ht)). apply list_elem_of_bind in Ht' as (d' & Ht' & Hd').
    apply list_elem_of_bind. exists d'. split; [|done]. eapply elem_of_sublist; [exact Ht'|apply sublist_take].
Qed.

(** ** The plan *)

(** Loads count targets, and a target has one holder. *)
Record holders_ok (members : gmap string Member) : Prop := {
  ho_load : forall id m, members !! id = Some m -> m_Load m = Z.of_nat (length (m_Targets m));
  ho_nodup : forall id m, members !! id = Some m -> NoDup (m_Targets m);
  ho_one : forall id1 id2 m1 m2 t, members !! id1 = Some m1 -> members !! id2 = Some m2 ->
    t ∈ m_Targets m1 -> t ∈ m_Targets m2 -> id1 = id2
}.

(** It is enough that no target appears twice in all the members' lists. *)
Definition all_targets (l : list (string * Member)) : list string := l ≫= fun im => m_Targets im.2.

Lemma bind_once {A B} (f : A -> list B) (l : list A) x y b :
  NoDup (l ≫= f) -> x ∈ l -> y ∈ l -> b ∈ f x -> b ∈ f y -> x = y.
Proof.
  induction l as [|z l IH]; [by intros _ ?%elem_of_nil|].
  change ((z :: l) ≫= f) with (f z ++ (l ≫= f)). intros (_ & Hdis & Hl)%NoDup_app.
  assert (forall u, u ∈ l -> b ∈ f u -> b ∈ l ≫= f) as Hin by (intros u Hu Hb; apply list_elem_of_bind; eauto).
  intros [->|Hx]%elem_of_cons [->|Hy]%elem_of_cons Hbx Hby; [done| | |by apply IH].
  - destruct (Hdis b Hbx). by apply (Hin y).
  - destruct (Hdis b Hby). by apply (Hin x).
Qed.

Lemma holders_ok_flat (members : gmap string Member) :
  map_Forall (fun _ m => m_Load m = Z.of_nat (length (m_Targets m))) members ->
  NoDup (all_targets (map_to_list members)) -> holders_ok members.
Proof.
  intros Hl Hnd. split.
  - intros id m Hm. by apply (Hl id m).
  - intros id m Hm%elem_of_map_to_list. unfold all_targets in Hnd.
    apply list_elem_of_split in Hm as (l1 & l2 & Heq). rewrite Heq, bind_app in Hnd.
    apply NoDup_app in Hnd as (_ & _ & Hnd).
    change (NoDup (m_Targets m ++ all_targets l2)) in Hnd. by apply NoDup_app in Hnd as [? _].
  - intros id1 id2 m1 m2 t H1%elem_of_map_to_list H2%elem_of_map_to_list Ht1 Ht2.
    pose proof (bind_once (fun im : string * Member => m_Targets im.2) _ (id1, m1) (id2, m2) t Hnd H1 H2 Ht1 Ht2). congruence.
Qed.

Section plan.
Context `{MapOrder} `{Shuffle} (members : gmap string Member) (q : gmap string Z).

Definition load_of (i : string) : Z := default 0 (m_Load <$> members !! i).

Lemma elem_of_donors d ids :
  d ∈ donors_of members q ids <->
  exists m, d_id d ∈ ids /\ members !! d_id d = Some m /\ zget q (d_id d) < m_Load m /\
    d = mkDonor (d_id d) (m_Load m - zget q (d_id d)) (shuffle (d_id d) (m_Targets m)).
Proof.
  unfold donors_of. rewrite list_elem_of_omap. split.
  - intros (id & Hid & (m & Hm & Hd)%bind_Some). destruct (Z.ltb_spec (zget q id) (m_Load m)); [|done].
    injection Hd as <-. cbn. eauto.
  - intros (m & Hid & Hm & Hlt & Hd). exists (d_id d). split; [done|]. rewrite Hm. cbn.
    rewrite (proj2 (Z.ltb_lt _ _) Hlt). by rewrite <-Hd.
Qed.

Lemma elem_of_receivers r n ids :
  (r, n) ∈ receivers_of members q ids <->
  exists m, r ∈ ids /\ members !! r = Some m /\ m_Load m < zget q r /\ n = zget q r - m_Load m.
Proof.
  unfold receivers_of. rewrite list_elem_of_omap. split.
  - intros (id & Hid & (m & Hm & Hd)%bind_Some). destruct (Z.ltb_spec (m_Load m) (zget q id)); [|done].
    injection Hd as <- <-. eauto.
  - intros (m & Hid & Hm & Hlt & ->). exists r. split; [done|]. rewrite Hm. cbn.
    by rewrite (proj2 (Z.ltb_lt _ _) Hlt).
Qed.

Lemma donors_cons id ids :
  donors_of members q (id :: ids) =
  match members !! id with
  | Some m => if zget q id <? m_Load m then [mkDonor id (m_Load m - zget q id) (shuffle id (m_Targets m))] else []
  | None => []
  end ++ donors_of members q ids.
Proof. unfold donors_of. cbn. destruct (members !! id); cbn; [|done]. by destruct (_ <? _). Qed.

Lemma receivers_cons id ids :
  receivers_of members q (id :: ids) =
  match members !! id with
  | Some m => if m_Load m <? zget q id then [(id, zget q id - m_Load m)] else []
  | None => []
  end ++ receivers_of members q ids.
Proof. unfold receivers_of. cbn. destruct (members !! id); cbn; [|done]. by destruct (_ <? _). Qed.

Lemma receivers_nodup ids : NoDup ids -> NoDup (receivers_of members q ids).*1.
Proof.
  induction 1 as [|id ids Hid Hnd IH]; [constructor|]. rewrite receivers_cons.
  destruct (members !! id) as [m|]; [|done]. destruct (_ <? _); [|done]. cbn. apply NoDup_cons. split; [|done].
  intros ([r n] & -> & Hr)%list_elem_of_fmap. apply elem_of_receivers in Hr as (? & ? & _). done.
Qed.

(** What the donors have too much, less what the receivers need. *)
Lemma surplus_need ids :
  (forall id, id ∈ ids -> is_Some (members !! id)) ->
  zsum (d_surplus <$> donors_of members q ids) - zsum (receivers_of members q ids).*2
  = zsum (load_of <$> ids) - zsum (zget q <$> ids).
Proof.
  induction ids as [|id ids IH]; intros Hin; [done|]. rewrite donors_cons, receivers_cons, !fmap_app, !zsum_app.
  rewrite !fmap_cons, !zsum_cons.
  destruct (Hin id) as [m Hm]; [by left|].
  assert (load_of id = m_Load m) as -> by (unfold load_of; by rewrite Hm). rewrite Hm.
  specialize (IH ltac:(intros; apply Hin; by right)).
  destruct (Z.ltb_spec (zget q id) (m_Load m)), (Z.ltb_spec (m_Load m) (zget q id));
    rewrite ?fmap_cons, ?fmap_nil, ?zsum_cons; cbn [zsum foldr snd d_surplus]; lia.
Qed.

Lemma donors_pools ids : holders_ok members -> NoDup ids -> NoDup (donors_of members q ids ≫= d_pool).
Proof.
  intros [_ Hnd Hone]. induction 1 as [|id ids Hid Hids IH]; [constructor|].
  rewrite donors_cons, bind_app. destruct (members !! id) as [m|] eqn:Hm; [|done].
  destruct (_ <? _); [|done]. cbn. rewrite app_nil_r. apply NoDup_app. split; [|split; [|done]].
  - rewrite shuffle_perm. by eapply Hnd.
  - intros t Ht (d & Htd & (m' & Hd & Hm' & _ & Heq)%elem_of_donors)%list_elem_of_bind.
    rewrite shuffle_perm in Ht. rewrite Heq in Htd. cbn in Htd. rewrite shuffle_perm in Htd.
    apply Hid. by rewrite (Hone _ _ _ _ _ Hm Hm' Ht Htd).
Qed.
End plan.

Lemma length_omap_le {A B} (f : A -> option B) l : (length (omap f l) <= length l)%nat.
Proof. induction l as [|x l IH]; [done|]. cbn. destruct (f x); cbn; lia. Qed.

(** How many of its targets a member keeps under a plan. *)
Definition kept_by (plan : gmap string string) (m : Member) : Z :=
  Z.of_nat (length (filter (fun t => plan !! t = None) (m_Targets m))).

Section outcome.
Context `{MapOrder} `{Shuffle} (members : gmap string Member) (q : gmap string Z) (ids : list string).
Hypothesis Hok : holders_ok members.
Hypothesis Hnd : NoDup ids.
Hypothesis Hids : forall id, id ∈ ids <-> is_Some (members !! id).

Let ds := donors_of members q ids.
Let rs := receivers_of members q ids.
Let st0 := mkRstate rs.*1 (list_to_map rs) ∅.

Lemma need_of_receiver r n : (r, n) ∈ rs -> zget (r_need st0) r = n.
Proof.
  intros Hr. unfold zget; cbn. apply elem_of_list_to_map_1 in Hr; [by rewrite Hr|]. by apply receivers_nodup.
Qed.

Lemma need_of_other r : r ∉ rs.*1 -> zget (r_need st0) r = 0.
Proof. intros Hr. unfold zget; cbn. by rewrite not_elem_of_list_to_map_1. Qed.

Lemma init_rinv : rinv st0.
Proof.
  split; [by apply receivers_nodup| |apply need_of_other].
  intros r ([r' n] & -> & Hr)%list_elem_of_fmap. cbn [fst]. rewrite (need_of_receiver _ _ Hr).
  apply elem_of_receivers in Hr as (m & _ & _ & ? & ->). lia.
Qed.

Lemma init_need : total_need st0 = zsum rs.*2.
Proof.
  unfold total_need, st0; cbn [r_queue]. f_equal. rewrite <-list_fmap_compose. apply list_fmap_ext.
  intros i [r n] Hi%list_elem_of_lookup_2. cbn. by apply need_of_receiver.
Qed.

Lemma donors_bounds : Forall (fun d => 0 < d_surplus d <= Z.of_nat (length (d_pool d)) \/ zget q (d_id d) < 0) ds.
Proof.
  apply Forall_forall. intros d (m & _ & Hm & Hlt & ->)%elem_of_donors. cbn. rewrite shuffle_perm.
  rewrite (ho_load _ Hok _ _ Hm) in *. lia.
Qed.

Lemma given_length l :
  Forall (fun d => 0 <= d_surplus d <= Z.of_nat (length (d_pool d))) l ->
  Z.of_nat (length (l ≫= given)) = zsum (d_surplus <$> l).
Proof.
  induction 1 as [|d l Hd Hl IH]; [done|]. rewrite fmap_cons, zsum_cons.
  change ((d :: l) ≫= given) with (given d ++ (l ≫= given)). rewrite length_app. unfold given at 1.
  rewrite length_take. lia.
Qed.

Lemma given_holder t :
  t ∈ ds ≫= given -> exists id m, members !! id = Some m /\ t ∈ m_Targets m /\ zget q id < m_Load m /\
    t ∈ take (Z.to_nat (m_Load m - zget q id)) (shuffle id (m_Targets m)).
Proof.
  intros (d & Ht & (m & _ & Hm & Hlt & Hd)%elem_of_donors)%list_elem_of_bind.
  exists (d_id d), m. rewrite Hd in Ht. unfold given in Ht; cbn in Ht. split; [done|].
  split; [|done]. rewrite <-(shuffle_perm (d_id d)). eapply elem_of_sublist; [exact Ht|apply sublist_take].
Qed.

Section moved.
Context (st' : rstate) (Hm : moved st0 st' (ds ≫= given)) (Hneed : total_need st' = 0).

Lemma all_needs_met r : zget (r_need st') r = 0.
Proof.
  apply (ri_zero _ (mv_inv _ _ _ Hm)). intros Hr.
  pose proof (ri_pos _ (mv_inv _ _ _ Hm)) as Hpos.
  assert (zget (r_need st') r <= total_need st').
  { apply zsum_elem_le; [|by apply list_elem_of_fmap_2].
    apply Forall_fmap, Forall_forall. intros x Hx. specialize (Hpos x Hx). cbn. lia. }
  specialize (Hpos r Hr). lia.
Qed.

Lemma arrivals_need r : arrivals r (r_moves st') = zget (r_need st0) r.
Proof.
  pose proof (mv_cnt _ _ _ Hm r) as Hc. rewrite all_needs_met in Hc. unfold st0 in Hc at 1. cbn in Hc.
  assert (arrivals r ∅ = 0) as E0 by (unfold arrivals; by rewrite map_filter_empty, map_size_empty).
  rewrite E0 in Hc. unfold st0; cbn [r_need]. lia.
Qed.

Lemma moved_iff t : r_moves st' !! t = None <-> t ∉ ds ≫= given.
Proof.
  split.
  - intros Hn Ht. destruct (mv_in _ _ _ Hm t Ht) as (r & Hr & _). congruence.
  - intros Ht. rewrite (mv_out _ _ _ Hm t Ht). apply lookup_empty.
Qed.

Lemma quota_met id m : members !! id = Some m -> 0 <= zget q id ->
  kept_by (r_moves st') m + arrivals id (r_moves st') = zget q id.
Proof.
  intros Hmem Hq. rewrite arrivals_need. unfold kept_by. pose proof (ho_load _ Hok _ _ Hmem) as Hl.
  destruct (Z.lt_ge_cases (zget q id) (m_Load m)) as [Hlt|Hge].
  - set (s := Z.to_nat (m_Load m - zget q id)).
    assert (m_Targets m ≡ₚ take s (shuffle id (m_Targets m)) ++ drop s (shuffle id (m_Targets m))) as Hsplit.
    { by rewrite take_drop, shuffle_perm. }
    assert (NoDup (take s (shuffle id (m_Targets m)) ++ drop s (shuffle id (m_Targets m)))) as Hnd2.
    { rewrite <-Hsplit. by eapply ho_nodup. }
    apply NoDup_app in Hnd2 as (_ & Hdis & _).
    rewrite Hsplit at 1. rewrite filter_app, filter_none, filter_all.
    + cbn [app]. rewrite length_drop, (Permutation_length (shuffle_perm _ _)). rewrite need_of_other; [clear Hsplit Hdis; subst s; lia|].
      intros ([r n] & -> & (m' & _ & Hm' & ? & _)%elem_of_receivers)%list_elem_of_fmap. cbn in *. simplify_eq. lia.
    + apply Forall_forall. intros t Ht. apply moved_iff. intros (id' & m' & Hm' & Ht' & _ & Htk)%given_holder.
      assert (t ∈ m_Targets m) as Htm by (rewrite Hsplit; apply elem_of_app; by right).
      assert (id' = id) as -> by (by eapply (ho_one _ Hok)). simplify_eq. by apply (Hdis t Htk).
    + apply Forall_forall. intros t Ht Hn. apply moved_iff in Hn. apply Hn.
      apply list_elem_of_bind. exists (mkDonor id (m_Load m - zget q id) (shuffle id (m_Targets m))).
      split; [done|]. apply elem_of_donors. exists m. cbn. split; [by apply Hids|done].
  - rewrite filter_all.
    + rewrite <-Hl. destruct (Z.lt_ge_cases (m_Load m) (zget q id)) as [Hlt|Hge2].
      * assert ((id, zget q id - m_Load m) ∈ rs) as Hr.
        { apply elem_of_receivers. exists m. split; [by apply Hids|done]. }
        rewrite (need_of_receiver _ _ Hr). lia.
      * rewrite need_of_other; [lia|].
        intros ([r n] & -> & (m' & _ & Hm' & ? & _)%elem_of_receivers)%list_elem_of_fmap. cbn in *. simplify_eq. lia.
    + apply Forall_forall. intros t Ht. apply moved_iff. intros (id' & m' & Hm' & Ht' & Hlt' & _)%given_holder.
      assert (id' = id) as -> by (by eapply (ho_one _ Hok)). simplify_eq. lia.
Qed.

Lemma move_sound t dst : r_moves st' !! t = Some dst ->
  exists src m, members !! src = Some m /\ t ∈ m_Targets m /\ src <> dst /\ is_Some (members !! dst).
Proof.
  intros Ht. assert (t ∈ ds ≫= given) as Hg.
  { destruct (decide (t ∈ ds ≫= given)); [done|]. apply moved_iff in n. congruence. }
  destruct (mv_in _ _ _ Hm t Hg) as (r & Hr & Hq). rewrite Ht in Hr. injection Hr as <-.
  apply given_holder in Hg as (src & m & Hm' & Htm & Hlt & _). exists src, m. split; [done|]. split; [done|].
  cbn in Hq. apply list_elem_of_fmap in Hq as ([d n] & -> & (m2 & _ & Hm2 & Hlt2 & _)%elem_of_receivers).
  cbn. split; [|by eexists]. intros ->. simplify_eq. lia.
Qed.
End moved.
End outcome.

(** The members in ID order: their loads and their quotas add up to the same
    total. *)
Section members_in_order.
Context `{MapOrder} (members : gmap string Member).
Let ids := sort_strings (range members).*1.

Lemma ids_perm : ids ≡ₚ (range members).*1.
Proof. apply sort_strings_perm. Qed.
Lemma ids_nodup : NoDup ids.
Proof. rewrite ids_perm. apply NoDup_range_fst. Qed.
Lemma ids_length : length ids = size members.
Proof. by rewrite ids_perm, length_fmap, length_range. Qed.

Lemma ids_members id : id ∈ ids <-> is_Some (members !! id).
Proof.
  rewrite ids_perm, list_elem_of_fmap. split.
  - intros ([i m] & -> & Hm%elem_of_range). eauto.
  - intros [m Hm]. exists (id, m). by rewrite elem_of_range.
Qed.

Lemma ids_loads : zsum (load_of members <$> ids) = zsum (m_Load <$> (range members).*2).
Proof.
  rewrite ids_perm. f_equal. rewrite <-!list_fmap_compose. apply list_fmap_ext.
  intros i [id m] Hi%list_elem_of_lookup_2%elem_of_range. cbn. unfold load_of. by rewrite Hi.
Qed.

Lemma ids_quotas (q : gmap string Z) : dom q = dom members -> zsum (zget q <$> ids) = gsum q.
Proof.
  intros Hdom. unfold gsum. assert (ids ≡ₚ (map_to_list q).*1) as ->.
  { apply NoDup_Permutation; [apply ids_nodup|apply NoDup_fst_map_to_list|]. intros id.
    rewrite ids_members, <-elem_of_dom, <-Hdom, elem_of_dom, list_elem_of_fmap. split.
    - intros [v Hv]. exists (id, v). by rewrite elem_of_map_to_list.
    - intros ([i v] & -> & Hv%elem_of_map_to_list). eauto. }
  f_equal. rewrite <-list_fmap_compose. apply list_fmap_ext.
  intros i [id v] Hi%list_elem_of_lookup_2%elem_of_map_to_list. cbn. unfold zget. by rewrite Hi.
Qed.

Lemma loads_nonneg : holders_ok members -> 0 <= zsum (m_Load <$> (range members).*2).
Proof.
  intros Hok. apply zsum_le, Forall_fmap, Forall_fmap, Forall_forall. intros [id m] Hm%elem_of_range. cbn.
  rewrite (ho_load _ Hok _ _ Hm). lia.
Qed.
End members_in_order.

Lemma surplus_nil (ds : list donor) :
  Forall (fun d => 0 < d_surplus d <= Z.of_nat (length (d_pool d))) ds -> zsum (d_surplus <$> ds) = 0 -> ds = [].
Proof.
  destruct ds as [|d l]; [done|]. intros [Hd Hl]%Forall_cons. rewrite fmap_cons, zsum_cons.
  assert (0 <= zsum (d_surplus <$> l)); [|lia].
  apply zsum_le, Forall_fmap. eapply Forall_impl; [exact Hl|]. cbn. lia.
Qed.

Lemma receivers_short `{MapOrder} (members : gmap string Member) q ids :
  (length (receivers_of members q ids).*1 <= length ids)%nat.
Proof. rewrite length_fmap. apply length_omap_le. Qed.

Lemma rebalance_plan `{MapOrder} `{Shuffle} (members : gmap string Member) (fuel : nat) :
  members <> ∅ -> holders_ok members -> (S (size members) < fuel)%nat ->
  exists q plan, calculateMembersQuota members (zsum (m_Load <$> (range members).*2)) = Some q /\
    rebalance fuel members = Some plan /\
    (forall id m, members !! id = Some m ->
       kept_by (gm_tab plan) m + arrivals id (gm_tab plan) = zget q id) /\
    (forall t dst, gm_tab plan !! t = Some dst ->
       exists src m, members !! src = Some m /\ t ∈ m_Targets m /\ src <> dst /\ is_Some (members !! dst)).
Proof.
  intros Hne Hok Hfuel. set (total := zsum (m_Load <$> (range members).*2)).
  destruct (quota_shape H members total Hne (loads_nonneg members Hok)) as (q & Hq & Hdom & Hsum & Hbound).
  assert (forall id, 0 <= zget q id) as Hqpos.
  { intros id. unfold zget. destruct (q !! id) as [v|] eqn:E; cbn; [|lia]. apply Hbound in E.
    pose proof (Z.div_pos total (Z.of_nat (size members)) (loads_nonneg members Hok)).
    destruct (size members) eqn:Es; [by apply map_size_empty_inv in Es|lia]. }
  pose proof (ids_nodup members) as Hnd. pose proof (ids_members members) as Hids.
  set (ids := sort_strings (range members).*1) in *.
  set (ds := donors_of members q ids). set (rs := receivers_of members q ids).
  set (st0 := mkRstate rs.*1 (list_to_map rs) ∅).
  assert (zsum (d_surplus <$> ds) = total_need st0) as Hbal.
  { unfold st0, rs. rewrite (init_need members q ids Hnd).
    pose proof (surplus_need members q ids (fun id Hid => proj1 (Hids id) Hid)) as Hsn.
    unfold ids in Hsn. rewrite ids_loads, ids_quotas in Hsn by done. unfold ds, ids. lia. }
  assert (Forall (fun d => 0 < d_surplus d <= Z.of_nat (length (d_pool d))) ds) as Hds.
  { eapply Forall_impl; [apply (donors_bounds members q ids Hok)|]. cbn. intros d [?|Hn]; [done|].
    specialize (Hqpos (d_id d)). lia. }
  assert (Forall (fun d => 0 <= d_surplus d <= Z.of_nat (length (d_pool d))) ds) as Hds0.
  { eapply Forall_impl; [exact Hds|]. cbn. lia. }
  destruct (donors_loop_moved fuel ds st0) as (st' & Hst' & Hmoved);
    [by apply init_rinv|done|lia|by apply donors_pools|intros t _; apply lookup_empty| |].
  { cbn. pose proof (receivers_short members q ids). pose proof (ids_length members) as Hlen. fold ids in Hlen. unfold rs. lia. }
  assert (total_need st' = 0) as Hzero by (rewrite (mv_need _ _ _ Hmoved), given_length by done; lia).
  assert (exists plan, rebalance fuel members = Some plan /\ gm_tab plan = r_moves st') as (plan & Hplan & Htab).
  { unfold rebalance. fold total. rewrite Hq. rewrite (proj2 (Nat.eqb_neq _ _)).
    2: { rewrite map_size_empty_iff. intros ->. apply Hne, dom_empty_inv_L. by rewrite <-Hdom, dom_empty_L. }
    fold ids ds rs st0. destruct (nilb ds || nilb rs) eqn:En; [|rewrite Hst'; by eexists].
    exists None. split; [done|]. assert (ds = []) as Hnil.
    { destruct ds as [|d l] eqn:Ed; [done|]. rewrite <-Ed in *. apply surplus_nil; [done|].
      assert (rs = []) as Er by (subst ds; destruct rs; [done|by rewrite Ed in En]).
      rewrite Hbal. unfold st0. by rewrite Er. }
    rewrite Hnil in Hst'. cbn in Hst'. by injection Hst' as <-. }
  exists q, plan. do 2 (split; [done|]). rewrite Htab. split.
  - intros id m Hm. by apply (quota_met members q ids Hok Hnd Hids st' Hmoved Hzero).
  - intros t dst. by apply (move_sound members q ids st' Hmoved).
Qed.

(** C8: rebalancing a cluster whose loads count the targets of its members,
    each target with one holder: with fuel above the number of members plus one
    the plan is computed, every target it moves goes from its holder to another
    member, and after the moves every member has exactly its quota. *)
Theorem rebalance_reaches_quota `{MapOrder} `{Shuffle} (members : gmap string Member) (fuel : nat) :
  members <> ∅ -> holders_ok members -> (S (size members) < fuel)%nat ->
  exists q plan, calculateMembersQuota members (zsum (m_Load <$> (range members).*2)) = Some q /\
    rebalance fuel members = Some plan /\
    (forall id m, members !! id = Some m ->
       kept_by (gm_tab plan) m + arrivals id (gm_tab plan) = zget q id) /\
    (forall t dst, gm_tab plan !! t = Some dst ->
       exists src m, members !! src = Some m /\ t ∈ m_Targets m /\ src <> dst /\ is_Some (members !! dst)).
Proof. apply rebalance_plan. Qed.

Definition ex_unbalanced : gmap string Member :=
  {["a" := ex_member "a" ["t1"; "t2"; "t3"; "t4"]; "b" := ex_member "b" []; "c" := ex_member "c" ["t5"]]}.

Lemma rebalance_reaches_quota_witness :
  rebalance (H := order_bwd) (H0 := no_shuffle) 5 ex_unbalanced = Some (Some {["t1" := "b"; "t2" := "b"]}) /\
  exists q plan, calculateMembersQuota (H := order_bwd) ex_unbalanced 5 = Some q /\
    rebalance (H := order_bwd) (H0 := no_shuffle) 5 ex_unbalanced = Some plan /\
    forall id m, ex_unbalanced !! id = Some m -> kept_by (gm_tab plan) m + arrivals id (gm_tab plan) = zget q id.
Proof.
  split; [vm_compute; reflexivity|].
  destruct (rebalance_reaches_quota (H := order_bwd) (H0 := no_shuffle) ex_unbalanced 5) as (q & plan & Hq & Hp & Hm & _).
  - intros E. apply (f_equal (fun m => m !! "a")) in E. vm_compute in E. discriminate E.
  - apply holders_ok_flat; [|apply (bool_decide_unpack _); vm_compute; exact I].
    unfold ex_unbalanced. repeat (apply map_Forall_insert_2; [reflexivity|]). apply map_Forall_empty.
  - vm_compute. lia.
  - exists q, plan. split; [exact Hq|]. split; [exact Hp|exact Hm].
Defined.

