(* ===== verification/Manager.v ===== *)
(** * The cluster manager (pkg/collector/managers/cluster/cluster_manager.go,
      assigner.go, utils.go, and the callers of rebalance.go)

    The leader's operations: reading who holds which target from the locker,
    reconciling the assignments, placing a new target, withdrawing a deleted
    one, draining a member, rebalancing. What they do to the outside is a
    sequence of calls (locker lists, REST requests), so an operation is a
    computation that extends the history of calls; the answers come from an
    oracle that may depend on the whole history. [members] is the field
    [c.members], which an operation does not change. Logging, and
    [asyncVerifyLock], which only reads a lock and logs, are left out. *)

From S2P Require Import Prelude GoStrings Utf8 GoVal Placement Rebalance.
From stdpp Require Import strings.

#[local] Open Scope Z_scope.

(** ** The outside *)

Record assignmentConfig := mkAssignment {
  Assignments : list (string * string);  (* target, member *)
  Unassignments : list string
}.

Inductive call :=
| CallKeys
| CallList (prefix : string)
| CallPost (url : string) (body : assignmentConfig)
| CallDelete (url : string).

(** The configuration store, the locker and the HTTP client: [None] is an
    error, an HTTP answer is its status code. *)
Class Outside : Type := {
  Config_Keys : list call -> option (list string);
  Locker_List : list call -> string -> option (gmap string string);
  Client_Do : list call -> call -> option Z
}.

(** A computation that makes calls. *)
Definition cm (A : Type) : Type := list call -> go cluster_error A * list call.

#[export] Instance cm_ret : MRet cm := fun A a h => (Ok a, h).
#[export] Instance cm_bind : MBind cm := fun A B f m h =>
  match m h with
  | (Ok a, h) => f a h
  | (Err e, h) => (Err e, h)
  | (Panic, h) => (Panic, h)
  end.
Definition cm_err {A} (e : cluster_error) : cm A := fun h => (Err e, h).
Definition cm_lift {A} (g : go cluster_error A) : cm A := fun h => (g, h).
(** Log the error and go on. *)
Definition cm_try {A} (m : cm A) : cm (go cluster_error A) := fun h =>
  match m h with
  | (Ok a, h) => (Ok (Ok a), h)
  | (Err e, h) => (Ok (Err e), h)
  | (Panic, h) => (Panic, h)
  end.

(** [for _, x := range l { if err := f(x); err != nil { return err } }]. *)
Fixpoint cm_each {A} (f : A -> cm ()) (l : list A) : cm () :=
  match l with
  | [] => mret ()
  | x :: l => f x ≫= fun _ => cm_each f l
  end.

(** ** Names (utils.go) *)

Definition targetsLockPrefix (clusterName : string) : string := "gnmic/" +:+ (clusterName +:+ "/targets").
Definition targetLockKey (target clusterName : string) : string :=
  "gnmic/" +:+ (clusterName +:+ ("/targets/" +:+ target)).

Definition AssignmentsAPIv1URL : string := "/api/v1/assignments".
Definition TargetsConfigAPIv1URL : string := "/api/v1/config/targets".

Section manager.
Context `{MapOrder} `{Outside}.

Definition locker_List (prefix : string) : cm (gmap string string) := fun h =>
  (match Locker_List h prefix with Some m => Ok m | None => Err errLocker end, h ++ [CallList prefix]).
Definition config_Keys : cm (list string) := fun h =>
  (match Config_Keys h with Some l => Ok l | None => Err errStore end, h ++ [CallKeys]).
(** A request and the test of its answer: [resp.StatusCode/100 != 2]. *)
Definition request (c : call) (e : cluster_error) : cm () := fun h =>
  (match Client_Do h c with
   | Some status => if Z.quot status 100 =? 2 then Ok () else Err e
   | None => Err e
   end, h ++ [c]).

(** ** The assigner (assigner.go) *)

Definition assign_url (m : Member) : string :=
  GetAPIScheme (Some m) +:+ ("://" +:+ (m_Address m +:+ AssignmentsAPIv1URL)).
Definition assignOne (address : string) (l : list (string * string)) : cm () :=
  request (CallPost address (mkAssignment l [])) errAssign.
Definition Assign_one (tm : string * Member) : cm () :=
  if String.eqb (m_Address tm.2) "" then mret ()
  else assignOne (assign_url tm.2) [(tm.1, m_ID tm.2)].
Definition Assign (targetToMember : gmap string Member) : cm () :=
  cm_each Assign_one (range targetToMember).
Definition Unassign (m : Member) (targets : list string) : cm () :=
  if String.eqb (m_Address m) "" then cm_err errUnassign
  else request (CallPost (assign_url m) (mkAssignment [] targets)) errUnassign.

(** ** Reading the cluster *)

Section cluster.
Context (clusterName : string) (members : gmap string Member).

Definition seed (m : Member) : Member := mkMember (m_ID m) (m_Address m) (m_Labels m) 0 [].
(** One lock: its holder has one more target. *)
Definition populate_step (ms res : gmap string Member) (lock : string * string) : gmap string Member :=
  let targetName := path_Base lock.1 in
  match ms !! lock.2 with
  | None => res
  | Some m =>
      match res !! lock.2 with
      | Some am =>
          <[lock.2 := mkMember (m_ID am) (m_Address am) (m_Labels am) (int64 (m_Load am + 1)) (m_Targets am ++ [targetName])]> res
      | None => <[lock.2 := mkMember (m_ID m) (m_Address m) (m_Labels m) 1 [targetName]]> res
      end
  end.
Definition populateLoads (ms : gmap string Member) (locks : list (string * string)) : gmap string Member :=
  foldl (populate_step ms) (foldl (fun res m => <[m_ID m := seed m]> res) ∅ (range ms).*2) locks.
Definition populateMemberLoad (ms : gmap string Member) : cm (gmap string Member) :=
  locks ← locker_List (targetsLockPrefix clusterName);
  mret (populateLoads ms (range locks)).

(** [GetMembers] of the manager: no members is an error. *)
Definition GetMembers : cm (gmap string Member) :=
  if (size members =? 0)%nat then cm_err errNoMembers else populateMemberLoad members.

Definition loads_of (locks : list (string * string)) : gmap string Z :=
  foldl (fun res kv => zincr kv.2 res) ∅ locks.
Definition getMembersLoad : cm (gmap string Z) :=
  locks ← locker_List (targetsLockPrefix clusterName);
  mret (loads_of (range locks)).

(** Target to holder, for holders that are members. *)
Definition holders_step (res : gmap string Member) (lock : string * string) : gmap string Member :=
  match members !! lock.2 with
  | Some m => <[path_Base lock.1 := m]> res
  | None => res
  end.
Definition getAssignments : cm (gmap string Member) :=
  locks ← locker_List (targetsLockPrefix clusterName);
  mret (foldl holders_step ∅ (range locks)).

(** [holder], from election.go: an error reads as not held. *)
Definition holder (key : string) : cm (option string) := fun h =>
  (Ok (match Locker_List h key with Some m => m !! key | None => None end), h ++ [CallList key]).
Definition targetLockHolder (target : string) : cm (option Member) :=
  h ← holder (targetLockKey target clusterName);
  mret (match h with
        | Some h => if String.eqb h "" then None else members !! h
        | None => None
        end).

Definition least_step (least : option Member) (m : Member) : option Member :=
  match least with
  | None => Some m
  | Some l => if m_Load m <? m_Load l then Some m else least
  end.
Definition getLeastLoadedMember (ms : gmap string Member) : option Member := foldl least_step None (range ms).*2.
Definition most_step (most : option Member) (m : Member) : option Member :=
  match most with
  | None => Some m
  | Some l => if m_Load l <? m_Load m then Some m else most
  end.
Definition getMostLoadedMember (ms : gmap string Member) : option Member := foldl most_step None (range ms).*2.

(** ** Reconciling *)

Definition reconcile_step (holders ms : gmap string Member) (quotas : gmap string Z)
    (st : gmap string Member * gmap string Z) (tName : string) : go cluster_error (gmap string Member * gmap string Z) :=
  let '(assignments, loads) := st in
  match (h ← holders !! tName; ms !! m_ID h) with
  | Some m => Ok (<[tName := m]> assignments, loads)
  | None =>
      '(assigned, loads) ← pickAssignee tName quotas loads ms;
      match assigned with
      | None => Ok (assignments, loads)
      | Some a => Ok (<[tName := a]> assignments, loads)
      end
  end.
Definition decideAssignments (holders ms : gmap string Member) (loads : gmap string Z) (targets : list string)
    : go cluster_error (gmap string Member) :=
  let quotas := gm_tab (calculateMembersQuota ms (Z.of_nat (length targets))) in
  fst <$> foldM (reconcile_step holders ms quotas) targets (∅, loads).

(** [reconcileAssignments]; the assignments it decided are the result (none
    when there are no targets). *)
Definition reconcileAssignments (ms : gmap string Member) : cm (gmap string Member) :=
  targets ← config_Keys;
  if nilb targets then mret ∅
  else
    currentAssignments ← getAssignments;
    membersLoad ← getMembersLoad;
    assignments ← cm_lift (decideAssignments currentAssignments ms membersLoad targets);
    _ ← cm_try (Assign assignments);
    mret assignments.

(** ** Targets created and deleted *)

(** [assignTarget]: the least loaded member gets the target, and counts it. *)
Definition assignTarget (target : string) (ms : gmap string Member) : cm (gmap string Member) :=
  match getLeastLoadedMember ms with
  | None => cm_err errNoLeast
  | Some m =>
      _ ← Assign {[target := m]};
      mret (<[m_ID m := mkMember (m_ID m) (m_Address m) (m_Labels m) (int64 (m_Load m + 1)) (m_Targets m)]> ms)
  end.
Definition handleTargetCreate (target : string) (deniedMembers : list string) : cm () :=
  currentMembers ← GetMembers;
  _ ← assignTarget target (foldl (fun ms id => delete id ms) currentMembers deniedMembers);
  mret ().

Definition delete_url (m : Member) (target : string) : string :=
  getMemberAddress m +:+ (TargetsConfigAPIv1URL +:+ ("/" +:+ target)).
Definition deleteTargetFromMembers (target : string) (ms : gmap string Member) : cm () :=
  cm_each (fun m => request (CallDelete (delete_url m target)) errDelete) (range ms).*2.
Definition handleTargetDelete (target : string) : cm () :=
  assignedTo ← targetLockHolder target;
  match assignedTo with
  | None => cm_err errNotAssigned
  | Some m =>
      _ ← Unassign m [target];
      deleteTargetFromMembers target (delete (m_ID m) members)
  end.

(** ** Draining *)

(** The loop of [DrainMember]: the error of [assignTarget] is dropped. *)
Fixpoint reassign (targets : list string) (ms : gmap string Member) : cm () :=
  match targets with
  | [] => mret ()
  | t :: targets =>
      r ← cm_try (assignTarget t ms);
      reassign targets (match r with Ok ms' => ms' | _ => ms end)
  end.
Definition DrainMember (toBeDrained : string) : cm () :=
  ms ← GetMembers;
  match ms !! toBeDrained with
  | None => cm_err errNotFound
  | Some m =>
      if nilb (m_Targets m) then mret ()
      else
        _ ← Unassign m (m_Targets m);
        reassign (m_Targets m) (delete toBeDrained ms)
  end.

(** ** Rebalancing (rebalance.go) *)

Section rebalancing.
Context `{Shuffle}.

(** The loop that unassigns: a target whose unassignment fails stays. *)
Fixpoint move_from (most least : Member) (targets : list string) (assignments : gmap string Member)
    : cm (gmap string Member) :=
  match targets with
  | [] => mret assignments
  | t :: targets =>
      r ← cm_try (Unassign most [t]);
      move_from most least targets (if is_ok r then <[t := least]> assignments else assignments)
  end.
Definition moveCount (most least : Member) : Z := Z.max (Z.quot (m_Load most - m_Load least) 2) (m_Load least).
Definition RebalanceTargets : cm () :=
  ms ← GetMembers;
  if (size ms <? 2)%nat then cm_err errTooFew
  else
    match getMostLoadedMember ms, getLeastLoadedMember ms with
    | Some most, Some least =>
        if m_Load most - m_Load least <? 2 then mret ()
        else
          let candidates := shuffle (m_ID most) (m_Targets most) in
          if Z.of_nat (length candidates) <? moveCount most least then cm_lift Panic
          else
            assignments ← move_from most least (take (Z.to_nat (moveCount most least)) candidates) ∅;
            Assign assignments
    | _, _ => cm_err errTooFew
    end.

Definition owners (ms : gmap string Member) : gmap string string :=
  foldl (fun owner im => foldl (fun owner t => <[t := im.1]> owner) owner (m_Targets im.2)) ∅ (range ms).
Definition group_add (k t : string) (g : gmap string (list string)) : gmap string (list string) :=
  <[k := default [] (g !! k) ++ [t]]> g.
Definition delta_step (ms : gmap string Member) (owner : gmap string string)
    (st : gmap string (list string) * gmap string (list string)) (td : string * string)
    : gmap string (list string) * gmap string (list string) :=
  let dst := from_option m_ID "" (ms !! td.2) in
  match owner !! td.1 with
  | Some src => if negb (String.eqb src dst) then (group_add src td.1 st.1, group_add dst td.1 st.2) else st
  | None => st
  end.

(** The body of [RebalanceTargetsV2]'s goroutine; the fuel is for the plan.
    When the members cannot be read it goes on without any. *)
Definition RebalanceTargetsV2 (fuel : nat) : cm (option ()) :=
  r ← cm_try GetMembers;
  let ms := match r with Ok ms => ms | _ => ∅ end in
  match rebalance fuel ms with
  | None => mret None
  | Some plan =>
      if (gm_len plan =? 0)%nat then mret (Some ())
      else
        let '(removeBySrc, addByDst) := foldl (delta_step ms (owners ms)) (∅, ∅) (range (gm_tab plan)) in
        _ ← cm_each (fun st => match ms !! st.1 with
                               | Some m => cm_try (Unassign m st.2) ≫= fun _ => mret ()
                               | None => mret ()
                               end) (range removeBySrc);
        _ ← cm_each (fun dt => match ms !! dt.1 with
                               | Some m => cm_try (Assign (list_to_map ((fun t => (t, m)) <$> dt.2))) ≫= fun _ => mret ()
                               | None => mret ()
                               end) (range addByDst);
        mret (Some ())
  end.
End rebalancing.

(** ** What the API reads *)

Definition GetInstanceToTargetsMapping : cm (gmap string (list string)) :=
  locks ← locker_List (targetsLockPrefix clusterName);
  mret (sort_strings <$> foldl (fun rs kv => group_add kv.2 (path_Base kv.1) rs) ∅ (range locks)).
Definition leaderKey : string := "gnmic/" +:+ (clusterName +:+ "/leader").
Definition GetLeaderName : cm string :=
  leader ← locker_List leaderKey;
  mret (default "" (leader !! leaderKey)).
Definition IsLeader (instance : string) : cm bool :=
  leader ← GetLeaderName;
  mret (String.eqb leader instance).
End cluster.
End manager.

(** ** Facts about the reads *)

(** A name a lock key is normalised back to. *)
Definition plain (t : string) : Prop := t <> "" /\ snone "/" t = true.

Lemma path_Base_piece (a t : string) : plain t -> path_Base (a +:+ String "/" t) = t.
Proof.
  intros [Hne Ht]. unfold path_Base.
  assert (String.eqb (a +:+ String "/" t) "" = false) as -> by (by destruct a).
  assert (a +:+ String "/" t = (a +:+ "/") +:+ t) as Ha by (rewrite sapp_assoc; done).
  rewrite Ha, trim_right_piece, <-Ha by done. rewrite split_byte_last by done.
  by rewrite (proj2 (String.eqb_neq _ _)).
Qed.

Lemma path_Base_lock t c : plain t -> path_Base (targetLockKey t c) = t.
Proof.
  intros Ht. unfold targetLockKey.
  assert ("gnmic/" +:+ (c +:+ ("/targets/" +:+ t)) = ("gnmic/" +:+ (c +:+ "/targets")) +:+ String "/" t) as ->.
  { by rewrite !sapp_assoc. }
  by apply path_Base_piece.
Qed.

#[export] Instance targetLockKey_inj c : Inj eq eq (fun t => targetLockKey t c).
Proof.
  intros t1 t2. unfold targetLockKey. intros E. apply (f_equal (sdrop (String.length "gnmic/"))) in E.
  rewrite !sdrop_app in E. apply (f_equal (sdrop (String.length c))) in E. rewrite !sdrop_app in E.
  apply (f_equal (sdrop (String.length "/targets/"))) in E. by rewrite !sdrop_app in E.
Qed.

(** What the locker lists when [asg] says who holds each target. *)
Definition lock_table (c : string) (asg : gmap string string) : gmap string string :=
  kmap (fun t => targetLockKey t c) asg.

Definition base_lock (kv : string * string) : string * string := (path_Base kv.1, kv.2).

Lemma range_locks `{MapOrder} c asg :
  (forall t, t ∈ dom asg -> plain t) -> base_lock <$> range (lock_table c asg) ≡ₚ map_to_list asg.
Proof.
  intros Hp. rewrite range_perm. unfold lock_table. rewrite map_to_list_kmap by apply _.
  rewrite <-list_fmap_compose. apply Permutation_refl'. etrans; [|apply list_fmap_id].
  apply list_fmap_ext. intros i [t v] Ht%list_elem_of_lookup_2%elem_of_map_to_list. 
  change ((path_Base (targetLockKey t c), v) = (t, v)). rewrite path_Base_lock; [done|]. apply Hp, elem_of_dom. eauto.
Qed.

(** How many of the pairs have [id] second. *)
Definition count_of (id : string) (l : list (string * string)) : Z :=
  Z.of_nat (length (filter (fun kv => kv.2 = id) l)).

Lemma count_of_cons id t v l : count_of id ((t, v) :: l) = (if decide (v = id) then 1 else 0) + count_of id l.
Proof. unfold count_of. rewrite filter_cons. cbn. case_decide; cbn [length]; lia. Qed.

#[export] Instance count_of_perm id : Proper (Permutation ==> eq) (count_of id).
Proof. intros l1 l2 Hp. unfold count_of. by rewrite Hp. Qed.

Lemma count_of_bound id l : 0 <= count_of id l <= Z.of_nat (length l).
Proof. unfold count_of. pose proof (length_filter (fun kv : string * string => kv.2 = id) l). lia. Qed.

Lemma arrivals_count id asg : arrivals id asg = count_of id (map_to_list asg).
Proof.
  induction asg as [|t v asg Ht IH] using map_ind.
  - unfold arrivals, count_of. by rewrite map_filter_empty, map_size_empty, map_to_list_empty.
  - rewrite arrivals_insert by done. rewrite map_to_list_insert by done. rewrite count_of_cons. lia.
Qed.

Lemma count_of_base id l : count_of id (base_lock <$> l) = count_of id l.
Proof.
  induction l as [|[t v] l IH]; [done|]. rewrite fmap_cons. unfold base_lock at 1; cbn [fst snd].
  rewrite !count_of_cons. by rewrite IH.
Qed.

#[local] Arguments wrap : simpl never.

(** A number of locks or targets that fits an [int64] with room to spare. *)
Definition few (n : nat) : Prop := Z.of_nat n < 2 ^ 60.

Lemma int64_small z : - 2 ^ 62 <= z <= 2 ^ 62 -> int64 z = z.
Proof. intros Hz. apply wrap_id, in_kind_spec. unfold kind_min, kind_max; cbn. lia. Qed.

Lemma loads_fold l (L : gmap string Z) id :
  (forall i, 0 <= zget L i) -> (forall i, zget L i + Z.of_nat (length l) <= 2 ^ 62) ->
  zget (foldl (fun res kv => zincr kv.2 res) L l) id = zget L id + count_of id l.
Proof.
  revert L; induction l as [|[t v] l IH]; intros L Hpos Hmax; cbn [foldl length] in *; [unfold count_of; cbn; lia|].
  assert (forall i, zget (zincr v L) i = zget L i + if decide (v = i) then 1 else 0) as Hz.
  { intros i. specialize (Hpos v). specialize (Hmax v). unfold zincr. rewrite int64_small by lia. case_decide as Hv.
    - subst i. apply zget_insert_eq.
    - rewrite zget_insert_ne by done. lia. }
  cbn [snd]. rewrite IH.
  - rewrite Hz, count_of_cons. lia.
  - intros i. rewrite Hz. specialize (Hpos i). case_decide; lia.
  - intros i. rewrite Hz. specialize (Hmax i). case_decide; lia.
Qed.

Lemma loads_of_count l id : few (length l) -> zget (loads_of l) id = count_of id l.
Proof.
  unfold few. intros Hl. unfold loads_of. rewrite loads_fold.
  - unfold zget. rewrite lookup_empty. cbn. lia.
  - intros i. unfold zget. by rewrite lookup_empty.
  - intros i. unfold zget. rewrite lookup_empty. cbn. lia.
Qed.

(** The targets a list of locks gives to [id], in its order. *)
Definition held (id : string) (l : list (string * string)) : list string := (filter (fun kv => kv.2 = id) l).*1.

Lemma held_cons id t v l : held id ((t, v) :: l) = if decide (v = id) then t :: held id l else held id l.
Proof. unfold held. rewrite filter_cons. cbn. by case_decide. Qed.

Lemma length_held id l : Z.of_nat (length (held id l)) = count_of id l.
Proof. unfold held, count_of. by rewrite length_fmap. Qed.

Lemma elem_of_held id t l : t ∈ held id l <-> (t, id) ∈ l.
Proof.
  unfold held. rewrite list_elem_of_fmap. split.
  - intros ([t' v] & -> & [Hv Hin]%list_elem_of_filter). cbn in *. by subst.
  - intros Hin. exists (t, id). by rewrite list_elem_of_filter.
Qed.

(** A member with some locks added. *)
Definition with_locks (m : Member) (ts : list string) : Member :=
  mkMember (m_ID m) (m_Address m) (m_Labels m) (Z.of_nat (length ts)) ts.

Lemma seeds_lookup `{MapOrder} (ms : gmap string Member) i :
  keyed ms -> foldl (fun (res : gmap string Member) m => <[m_ID m := seed m]> res) ∅ (range ms).*2 !! i = seed <$> ms !! i.
Proof.
  intros Hk.
  assert ((fun m => (m_ID m, seed m)) <$> (range ms).*2 = prod_map id seed <$> range ms) as Hl.
  { rewrite <-list_fmap_compose. apply list_fmap_ext. intros ? [k m] Hm%list_elem_of_lookup_2%elem_of_range.
    cbn. f_equal. apply (Hk _ _ Hm). }
  assert (foldl (fun (res : gmap string Member) m => <[m_ID m := seed m]> res) ∅ (range ms).*2
    = foldl (fun (res : gmap string Member) kv => <[kv.1 := kv.2]> res) ∅ ((fun m => (m_ID m, seed m)) <$> (range ms).*2)) as ->
    by (symmetry; exact (foldl_fmap (fun (res : gmap string Member) kv => <[kv.1 := kv.2]> res) ∅ (range ms).*2 (fun m => (m_ID m, seed m)))).
  assert ((prod_map id seed <$> range ms).*1 = (range ms).*1) as Hfst.
  { rewrite <-list_fmap_compose. by apply list_fmap_ext. }
  rewrite Hl, foldl_insert_list_to_map by (rewrite Hfst; apply NoDup_range_fst).
  rewrite (right_id_L ∅ (∪)), list_to_map_fmap, lookup_fmap. by rewrite range_list_to_map.
Qed.

Lemma populate_fold (ms : gmap string Member) l (res : gmap string Member) (pre : list (string * string)) :
  few (length pre + length l) ->
  (forall id, res !! id = (fun m => with_locks m (held id pre)) <$> ms !! id) ->
  forall id, foldl (populate_step ms) res l !! id = (fun m => with_locks m (held id (pre ++ (base_lock <$> l)))) <$> ms !! id.
Proof.
  unfold few. revert res pre; induction l as [|[t v] l IH]; intros res pre Hf Hr id; cbn [foldl length] in *.
  { by rewrite fmap_nil, app_nil_r. }
  rewrite (IH _ (pre ++ [(path_Base t, v)])).
  - by rewrite <-app_assoc.
  - rewrite length_app. cbn. lia.
  - intros i. unfold populate_step. cbn [fst snd]. pose proof (Hr v) as Hv.
    assert (held i (pre ++ [(path_Base t, v)]) = held i pre ++ if decide (v = i) then [path_Base t] else []) as Hh.
    { unfold held. rewrite filter_app, fmap_app. f_equal. rewrite filter_cons. cbn. by case_decide. }
    rewrite Hh. destruct (ms !! v) as [m|] eqn:Hm.
    + rewrite Hv. cbn. case_decide as Hvi.
      * subst i. rewrite lookup_insert_eq, Hm. cbn. unfold with_locks. f_equal. f_equal.
        rewrite int64_small; [rewrite length_app; cbn; lia|].
        pose proof (count_of_bound v pre). rewrite <-length_held in *. lia.
      * rewrite lookup_insert_ne by done. rewrite Hr, app_nil_r. done.
    + rewrite Hr. case_decide as Hvi; [subst i; by rewrite Hm|]. by rewrite app_nil_r.
Qed.

(** [populateMemberLoad] on any list of locks. *)
Lemma populate_lookup `{MapOrder} (ms : gmap string Member) l id :
  keyed ms -> few (length l) ->
  populateLoads ms l !! id = (fun m => with_locks m (held id (base_lock <$> l))) <$> ms !! id.
Proof.
  intros Hk Hl. unfold populateLoads. rewrite (populate_fold ms l _ []); [done|done|].
  intros i. by rewrite seeds_lookup.
Qed.

(** Who holds what, for the locks of distinct targets. *)
Lemma holders_fold (members : gmap string Member) l (res : gmap string Member) t :
  NoDup (base_lock <$> l).*1 ->
  foldl (holders_step members) res l !! t =
  match (v ← (list_to_map (base_lock <$> l) : gmap string string) !! t; members !! v) with Some m => Some m | None => res !! t end.
Proof.
  revert res; induction l as [|[k v] l IH]; intros res Hnd; cbn [foldl].
  { rewrite fmap_nil; cbn. by rewrite lookup_empty. }
  rewrite !fmap_cons in *. unfold base_lock at 1 in Hnd. cbn in Hnd. apply NoDup_cons in Hnd as [Hk Hnd].
  rewrite IH by done. unfold base_lock at 2. cbn [list_to_map foldr uncurry fst snd]. unfold holders_step at 1; cbn [fst snd].
  destruct (decide (path_Base k = t)) as [<-|Hne].
  - rewrite lookup_insert_eq. rewrite (not_elem_of_list_to_map_1 _ _ Hk). cbn.
    destruct (members !! v); [by rewrite lookup_insert_eq|done].
  - rewrite lookup_insert_ne by done. destruct (list_to_map (base_lock <$> l) !! t ≫= (members !!.)); [done|].
    destruct (members !! v); [by rewrite lookup_insert_ne|done].
Qed.

(** ** The locks of a cluster *)

Section locks.
Context `{MapOrder} (c : string) (asg : gmap string string).
Hypothesis Hplain : forall t, t ∈ dom asg -> plain t.
Hypothesis Hfew : few (size asg).

Let locks := range (lock_table c asg).

Lemma length_locks : length locks = size asg.
Proof.
  rewrite <-(length_fmap base_lock locks). unfold locks. by rewrite range_locks, length_map_to_list.
Qed.

Lemma bases_nodup : NoDup (base_lock <$> locks).*1.
Proof. unfold locks. rewrite range_locks by done. apply NoDup_fst_map_to_list. Qed.

Lemma elem_of_bases t v : (t, v) ∈ base_lock <$> locks <-> asg !! t = Some v.
Proof. unfold locks. rewrite range_locks by done. apply elem_of_map_to_list. Qed.

Lemma table_lookup t : (list_to_map (base_lock <$> locks) : gmap string string) !! t = asg !! t.
Proof.
  apply option_eq. intros v. rewrite <-elem_of_bases. symmetry. apply elem_of_list_to_map, bases_nodup.
Qed.

Lemma count_locks id : count_of id locks = arrivals id asg.
Proof. rewrite <-count_of_base, arrivals_count. unfold locks. by rewrite range_locks. Qed.

Lemma loads_locks id : zget (loads_of locks) id = arrivals id asg.
Proof. rewrite loads_of_count by (by rewrite length_locks). apply count_locks. Qed.

Lemma holders_locks members t :
  foldl (holders_step members) ∅ locks !! t = (v ← asg !! t; members !! v).
Proof.
  rewrite holders_fold by apply bases_nodup. rewrite table_lookup, lookup_empty.
  by destruct (asg !! t ≫= (members !!.)).
Qed.

Definition held_now (id : string) : list string := held id (base_lock <$> locks).

Lemma elem_of_held_now id t : t ∈ held_now id <-> asg !! t = Some id.
Proof. unfold held_now. rewrite elem_of_held. apply elem_of_bases. Qed.

Lemma held_now_nodup id : NoDup (held_now id).
Proof.
  unfold held_now, held. eapply sublist_NoDup; [apply bases_nodup|].
  apply fmap_sublist, sublist_filter.
Qed.

Lemma length_held_now id : Z.of_nat (length (held_now id)) = arrivals id asg.
Proof. unfold held_now. rewrite length_held, count_of_base. apply count_locks. Qed.

Lemma populate_locks (ms : gmap string Member) id :
  keyed ms -> populateLoads ms locks !! id = (fun m => with_locks m (held_now id)) <$> ms !! id.
Proof. intros Hk. apply populate_lookup; [done|]. by rewrite length_locks. Qed.

Lemma populate_keyed (ms : gmap string Member) : keyed ms -> keyed (populateLoads ms locks).
Proof.
  intros Hk id m. rewrite populate_locks by done. destruct (ms !! id) as [m'|] eqn:Hm; [|done].
  intros [= <-]. apply (Hk _ _ Hm).
Qed.

Lemma populate_ok (ms : gmap string Member) : keyed ms -> holders_ok (populateLoads ms locks).
Proof.
  intros Hk. split.
  - intros id m. rewrite populate_locks by done. destruct (ms !! id); [|done]. by intros [= <-].
  - intros id m. rewrite populate_locks by done. destruct (ms !! id); [|done]. intros [= <-]. apply held_now_nodup.
  - intros id1 id2 m1 m2 t. rewrite !populate_locks by done. destruct (ms !! id1), (ms !! id2); [|done..].
    intros [= <-] [= <-] H1%elem_of_held_now H2%elem_of_held_now. congruence.
Qed.

Lemma populate_dom (ms : gmap string Member) : keyed ms -> dom (populateLoads ms locks) = dom ms.
Proof.
  intros Hk. apply set_eq. intros id. rewrite !elem_of_dom, populate_locks, fmap_is_Some by done. done.
Qed.
End locks.

Section reads.
Context `{MapOrder} `{Outside} (c : string) (members : gmap string Member).

Lemma GetMembers_run h asg :
  members <> ∅ -> Locker_List h (targetsLockPrefix c) = Some (lock_table c asg) ->
  GetMembers c members h
  = (Ok (populateLoads members (range (lock_table c asg))), h ++ [CallList (targetsLockPrefix c)]).
Proof.
  intros Hne Hl. unfold GetMembers. rewrite (proj2 (Nat.eqb_neq _ _)) by (by rewrite map_size_empty_iff).
  unfold populateMemberLoad, locker_List, mbind, cm_bind. by rewrite Hl.
Qed.
End reads.

(** Reading the members of a cluster whose locks are [asg], a table of
    holders by target: every member comes back with exactly the targets it
    holds, each once, and its load is their number; a target has one holder;
    and only the locks were listed. *)
Theorem GetMembers_spec `{MapOrder} `{Outside} (c : string) (members : gmap string Member) (asg : gmap string string) h :
  keyed members -> members <> ∅ -> few (size asg) -> (forall t, t ∈ dom asg -> plain t) ->
  Locker_List h (targetsLockPrefix c) = Some (lock_table c asg) ->
  exists ms, GetMembers c members h = (Ok ms, h ++ [CallList (targetsLockPrefix c)]) /\
    keyed ms /\ holders_ok ms /\ dom ms = dom members /\
    forall id m, ms !! id = Some m -> m_Load m = arrivals id asg /\ forall t, t ∈ m_Targets m <-> asg !! t = Some id.
Proof.
  intros Hk Hne Hf Hp Hl. exists (populateLoads members (range (lock_table c asg))).
  split; [by apply GetMembers_run|]. split; [by apply populate_keyed|]. split; [by apply populate_ok|].
  split; [by apply populate_dom|]. intros id m. rewrite populate_locks by done.
  destruct (members !! id); [|done]. intros [= <-]. cbn [m_Load m_Targets with_locks].
  split; [by apply length_held_now|]. intros t. by apply elem_of_held_now.
Qed.

(** ** Requests in sequence *)

(** The request that assigns one target; none without an address. *)
Definition post_of (tm : string * Member) : option call :=
  if String.eqb (m_Address tm.2) "" then None
  else Some (CallPost (assign_url tm.2) (mkAssignment [(tm.1, m_ID tm.2)] [])).

Section sending.
Context `{MapOrder} `{Outside}.

Definition accepted (h : list call) (c : call) : bool :=
  match Client_Do h c with Some status => Z.quot status 100 =? 2 | None => false end.

(** Send requests until one is refused. *)
Fixpoint send_all (e : cluster_error) (cs : list call) : cm () :=
  match cs with
  | [] => mret ()
  | c :: cs => request c e ≫= fun _ => send_all e cs
  end.

Lemma request_run c e h : request c e h = ((if accepted h c then Ok () else Err e), h ++ [c]).
Proof. unfold request, accepted. by destruct (Client_Do h c). Qed.

Lemma bind_run {A B} (m : cm A) (f : A -> cm B) h :
  (m ≫= f) h = match m h with (Ok a, h) => f a h | (Err e, h) => (Err e, h) | (Panic, h) => (Panic, h) end.
Proof. done. Qed.

Lemma Assign_send a h : Assign a h = send_all errAssign (omap post_of (range a)) h.
Proof.
  unfold Assign. generalize (range a). intros l. revert h; induction l as [|tm l IH]; intros h; [done|].
  cbn [cm_each omap list_omap]. unfold Assign_one, post_of, assignOne.
  destruct (String.eqb _ _); [apply IH|]. cbn [send_all]. rewrite !bind_run.
  destruct (request _ _ h) as [[] h']; [apply IH|done..].
Qed.

Lemma delete_send t ms h :
  deleteTargetFromMembers t ms h = send_all errDelete ((fun m => CallDelete (delete_url m t)) <$> (range ms).*2) h.
Proof.
  unfold deleteTargetFromMembers. generalize (range ms).*2. intros l. revert h; induction l as [|m l IH]; intros h; [done|].
  cbn [cm_each fmap list_fmap send_all]. rewrite !bind_run.
  destruct (request _ _ h) as [[] h']; [apply IH|done..].
Qed.

(** They are sent in order; all of them when each is accepted, else up to and
    including the first that is refused, which is the error. *)
Lemma send_all_run e cs h :
  exists sent rest, cs = sent ++ rest /\
    (send_all e cs h = (Ok (), h ++ sent) /\ rest = [] \/
     exists pre c, sent = pre ++ [c] /\ send_all e cs h = (Err e, h ++ sent) /\ accepted (h ++ pre) c = false).
Proof.
  revert h; induction cs as [|c cs IH]; intros h.
  { exists [], []. split; [done|]. left. by rewrite app_nil_r. }
  cbn [send_all]. rewrite bind_run, request_run. destruct (accepted h c) eqn:Hc.
  - destruct (IH (h ++ [c])) as (sent & rest & -> & Hrun). exists (c :: sent), rest. split; [done|].
    destruct Hrun as [[-> ->]|(pre & c' & -> & -> & Hr)]; [left|right].
    + by rewrite <-app_assoc.
    + exists (c :: pre), c'. split; [done|]. rewrite <-!app_assoc in *. done.
  - exists [c], cs. split; [done|]. right. exists [], c. split; [done|]. split; [done|]. by rewrite app_nil_r.
Qed.

Lemma send_all_prefix e cs h : exists r sent, send_all e cs h = (r, h ++ sent) /\ sent `prefix_of` cs /\ r <> Panic.
Proof.
  destruct (send_all_run e cs h) as (sent & rest & Hcs & [[-> _]|(pre & c & Hs & -> & _)]);
    eexists _, sent; (split; [done|]); (split; [by exists rest|done]).
Qed.
End sending.

(** An outside that always gives the same answers. *)
Definition steady (keys : list string) (locks : gmap string string) (status : Z) : Outside := {|
  Config_Keys _ := Some keys;
  Locker_List _ _ := Some locks;
  Client_Do _ _ := Some status
|}.

(** Proves [keyed], or any property of all members, of a concrete map. *)
Ltac map_all :=
  repeat (apply map_Forall_insert_2; [vm_compute; (reflexivity || (split; [reflexivity|discriminate]))|]);
  apply map_Forall_empty.

Definition ex_cluster : gmap string Member := {["a" := ex_member "a" []; "b" := ex_member "b" []]}.
Definition ex_locks : gmap string string := {["r1" := "a"; "r2" := "a"; "r3" := "gone"]}.

Lemma ex_cluster_keyed : keyed ex_cluster.
Proof. unfold keyed, ex_cluster. map_all. Defined.
Lemma ex_cluster_nonempty : ex_cluster <> ∅.
Proof. intros E. apply (f_equal (fun m => m !! "a")) in E. vm_compute in E. discriminate E. Defined.
Lemma ex_locks_plain t : t ∈ dom ex_locks -> plain t.
Proof.
  intros [v Hv]%elem_of_dom. unfold ex_locks in Hv.
  repeat (apply lookup_insert_Some in Hv as [[<- _]|[_ Hv]]; [split; [discriminate|reflexivity]|]).
  apply lookup_singleton_Some in Hv as [<- _]. split; [discriminate|reflexivity].
Defined.

Lemma GetMembers_spec_witness :
  exists ms, GetMembers (H := order_bwd) (H0 := steady [] (lock_table "c1" ex_locks) 200) "c1" ex_cluster []
    = (Ok ms, [CallList "gnmic/c1/targets"]) /\ holders_ok ms /\
  ms = {["a" := with_locks (ex_member "a" []) ["r2"; "r1"]; "b" := ex_member "b" []]}.
Proof.
  destruct (GetMembers_spec (H := order_bwd) (H0 := steady [] (lock_table "c1" ex_locks) 200) "c1" ex_cluster ex_locks [])
    as (ms & Hrun & _ & Hok & _).
  - exact ex_cluster_keyed.
  - exact ex_cluster_nonempty.
  - vm_compute. reflexivity.
  - exact ex_locks_plain.
  - reflexivity.
  - exists ms. split; [exact Hrun|]. split; [exact Hok|].
    assert (fst (GetMembers (H := order_bwd) (H0 := steady [] (lock_table "c1" ex_locks) 200) "c1" ex_cluster [])
      = Ok {["a" := with_locks (ex_member "a" []) ["r2"; "r1"]; "b" := ex_member "b" []]}) as E by (vm_compute; reflexivity).
    rewrite Hrun in E. injection E as ->. reflexivity.
Defined.

(** A target whose name has a slash is normalised to another name: two targets
    with one base name are one to the manager. *)
Example slash_collision :
  path_Base (targetLockKey "site1/r1" "c1") = "r1" /\ path_Base (targetLockKey "site2/r1" "c1") = "r1".
Proof. split; vm_compute; reflexivity. Qed.
