(* ===== verification/Reconcile.v ===== *)
(** * Reconciling the assignments (pkg/collector/managers/cluster/cluster_manager.go)

    What [reconcileAssignments] decides: every target goes to a live member,
    the targets a live member holds stay with it, and the others fill the
    members up to their quotas. *)

From S2P Require Import Prelude GoStrings Utf8 GoVal Placement Rebalance Manager.
From stdpp Require Import strings.

#[local] Open Scope Z_scope.
#[local] Arguments wrap : simpl never.

Section decide.
Context `{MapOrder} (ms holders : gmap string Member) (q : gmap string Z).
Hypothesis Hkey : keyed ms.
Hypothesis Hne : ms <> ∅.
Hypothesis Hq : forall id, 0 <= zget q id <= 2 ^ 61.

(** The live member a target stays with. *)
Definition current (t : string) : option Member := h ← holders !! t; ms !! m_ID h.
Definition unheld (ts : list string) : list string := filter (fun t => current t = None) ts.
Definition kept_for (id : string) (ts : list string) : Z :=
  Z.of_nat (length (filter (fun t => m_ID <$> current t = Some id) ts)).
Definition live_ids : list string := (range ms).*1.
(** The room left in the quotas of the members. *)
Definition free (L : gmap string Z) : Z := zsum ((fun id => zget q id - zget L id) <$> live_ids).

Lemma elem_of_live_ids id : id ∈ live_ids <-> is_Some (ms !! id).
Proof.
  unfold live_ids. rewrite list_elem_of_fmap. split.
  - intros ([i m] & -> & Hm%elem_of_range). eauto.
  - intros [m Hm]. exists (id, m). by rewrite elem_of_range.
Qed.

Lemma current_live t m : current t = Some m -> ms !! m_ID m = Some m.
Proof.
  unfold current. intros (h & _ & Hm)%bind_Some. destruct (Hkey _ _ Hm) as [Hid _]. by rewrite Hid.
Qed.

Lemma kept_for_cons id t ts :
  kept_for id (t :: ts) = (if decide (m_ID <$> current t = Some id) then 1 else 0) + kept_for id ts.
Proof. unfold kept_for. rewrite filter_cons. case_decide; cbn [length]; lia. Qed.

(** Every target is kept by one live member or unheld. *)
Lemma kept_total ts :
  zsum ((fun id => kept_for id ts) <$> live_ids) + Z.of_nat (length (unheld ts)) = Z.of_nat (length ts).
Proof.
  induction ts as [|t ts IH].
  - assert (forall l, zsum ((fun id => kept_for id []) <$> l) = 0) as ->; [|done].
    induction l as [|id l IH]; [done|]. by rewrite fmap_cons, zsum_cons, IH.
  - unfold unheld in *. rewrite filter_cons. destruct (current t) as [m|] eqn:Hc.
    + rewrite decide_False by done. cbn [length].
      pose proof (zsum_upd (fun id => kept_for id (t :: ts)) (fun id => kept_for id ts) live_ids (m_ID m)) as Hu.
      cbn beta in Hu. rewrite kept_for_cons, Hc, decide_True in Hu by done.
      assert (zsum ((fun id => kept_for id (t :: ts)) <$> live_ids) = zsum ((fun id => kept_for id ts) <$> live_ids) + 1); [|lia].
      enough (zsum ((fun id => kept_for id (t :: ts)) <$> live_ids) - (1 + kept_for (m_ID m) ts)
              = zsum ((fun id => kept_for id ts) <$> live_ids) - kept_for (m_ID m) ts) by lia.
      apply Hu; [apply NoDup_range_fst| |].
      * apply elem_of_live_ids. rewrite (current_live t m) by done. eauto.
      * intros y Hy. rewrite kept_for_cons, Hc, decide_False; [lia|]. cbn. congruence.
    + rewrite decide_True by done. cbn [length]. rewrite (list_fmap_ext _ (fun id => kept_for id ts)); [lia|].
      intros i id _. rewrite kept_for_cons, Hc, decide_False by done. lia.
Qed.

Lemma freeQuota_exact L m : 0 <= zget L (m_ID m) <= 2 ^ 61 -> freeQuota q L m = zget q (m_ID m) - zget L (m_ID m).
Proof. intros HL. unfold freeQuota. specialize (Hq (m_ID m)). apply int64_small. lia. Qed.

(** With room left, the pick has room. *)
Lemma pick_with_room L t :
  0 < free L -> (forall id, 0 <= zget L id <= 2 ^ 61) ->
  exists p, pickAssignee t q L ms = Ok (Some p, <[m_ID p := zget L (m_ID p) + 1]> L) /\
    ms !! m_ID p = Some p /\ zget L (m_ID p) < zget q (m_ID p).
Proof.
  intros Hfree HL.
  destruct (pickAssignee_pick _ t q L ms Hkey Hne) as (p & Hp & Hmp & Hpref).
  { intros id m Hm. rewrite freeQuota_exact by done. unfold lowest. specialize (Hq (m_ID m)). specialize (HL (m_ID m)). lia. }
  exists p. split.
  { rewrite Hp. unfold zincr. rewrite int64_small; [done|]. specialize (HL (m_ID p)). lia. }
  split; [done|]. apply zsum_pos in Hfree as (id & Hid%elem_of_live_ids & Hroom). destruct Hid as [m Hm].
  destruct (Hkey _ _ Hm) as [Hmid _]. destruct (decide (m = p)) as [->|Hmp'].
  - rewrite Hmid in *. lia.
  - assert (freeQuota q L m <= freeQuota q L p) as Hle by (destruct (Hpref id m Hm Hmp') as [?|[? _]]; lia).
    rewrite !freeQuota_exact in Hle by done. rewrite Hmid in Hle. lia.
Qed.

Lemma free_incr L p : is_Some (ms !! p) -> free (<[p := zget L p + 1]> L) = free L - 1.
Proof.
  intros Hp%elem_of_live_ids. unfold free.
  pose proof (zsum_upd (fun id => zget q id - zget (<[p := zget L p + 1]> L) id) (fun id => zget q id - zget L id) live_ids p) as Hu.
  cbn beta in Hu. rewrite zget_insert_eq in Hu. specialize (Hu (NoDup_range_fst _) Hp).
  enough (forall y, y <> p -> zget q y - zget (<[p := zget L p + 1]> L) y = zget q y - zget L y) as He by (specialize (Hu He); lia).
  intros y Hy. by rewrite zget_insert_ne by done.
Qed.

(** What the loop over [todo] does. *)
Record decided (todo : list string) (a a' : gmap string Member) (L L' : gmap string Z) : Prop := {
  de_out : forall t, t ∉ todo -> a' !! t = a !! t;
  de_in : forall t, t ∈ todo -> exists m, a' !! t = Some m /\ ms !! m_ID m = Some m /\ forall m', current t = Some m' -> m = m';
  de_cnt : forall id, arrivals id (m_ID <$> a') = arrivals id (m_ID <$> a) + kept_for id todo + (zget L' id - zget L id);
  de_load : forall id, zget L id <= zget L' id <= Z.max (zget L id) (zget q id);
  de_free : free L' = 0
}.

Lemma decided_cons t todo a m L L1 a' L' :
  t ∉ todo -> a !! t = None -> ms !! m_ID m = Some m ->
  (forall m', current t = Some m' -> m = m') ->
  (forall id, (if decide (m_ID m = id) then 1 else 0) = (if decide (m_ID <$> current t = Some id) then 1 else 0) + (zget L1 id - zget L id)) ->
  (forall id, zget L id <= zget L1 id <= Z.max (zget L id) (zget q id)) ->
  decided todo (<[t := m]> a) a' L1 L' -> decided (t :: todo) a a' L L'.
Proof.
  intros Ht Ha Hm Hcur Hcnt Hload [Hout Hin Hc Hl Hf]. split; [..|done].
  - intros t' Hn. rewrite Hout by (intros ?; apply Hn; by right). apply lookup_insert_ne. intros ->. apply Hn. by left.
  - intros t' [->|Ht']%elem_of_cons; [|by apply Hin]. exists m. rewrite Hout by done. by rewrite lookup_insert_eq.
  - intros id. rewrite Hc, kept_for_cons, fmap_insert, arrivals_insert by (by rewrite lookup_fmap, Ha).
    specialize (Hcnt id). lia.
  - intros id. specialize (Hload id). specialize (Hl id). lia.
Qed.

Lemma decide_loop todo a L :
  NoDup todo -> (forall t, t ∈ todo -> a !! t = None) ->
  free L = Z.of_nat (length (unheld todo)) ->
  (forall id, 0 <= zget L id /\ zget L id + Z.of_nat (length todo) <= 2 ^ 61) ->
  exists a' L', foldM (reconcile_step holders ms q) todo (a, L) = Ok (a', L') /\ decided todo a a' L L'.
Proof.
  revert a L; induction todo as [|t todo IH]; intros a L Hnd Ha Hfree HL.
  { exists a, L. split; [done|]. split; [done| |intros id; unfold kept_for; cbn; lia|lia|done]. by intros t ?%elem_of_nil. }
  apply NoDup_cons in Hnd as [Ht Hnd]. cbn [foldM]. cbn [length] in HL.
  assert (forall m t', t' ∈ todo -> <[t := m]> a !! t' = None) as Ha'.
  { intros m t' Ht'. rewrite lookup_insert_ne by (by intros ->). apply Ha. by right. }
  assert (reconcile_step holders ms q (a, L) t = match current t with
    | Some m => Ok (<[t := m]> a, L)
    | None => '(o, L1) ← pickAssignee t q L ms; match o with Some p => Ok (<[t := p]> a, L1) | None => Ok (a, L1) end
    end) as -> by done.
  unfold unheld in Hfree. rewrite filter_cons in Hfree.
  destruct (current t) as [m|] eqn:Hc.
  - rewrite decide_False in Hfree by done. cbn [mbind go_bind].
    destruct (IH (<[t := m]> a) L) as (a' & L' & Hrun & Hd); [done|by apply Ha'|done|intros id; specialize (HL id); lia|].
    exists a', L'. split; [done|]. eapply decided_cons; [done|apply Ha; by left|by eapply current_live| | | |exact Hd].
    + rewrite Hc. congruence.
    + intros id. rewrite Hc. cbn. do 2 case_decide; try lia; congruence.
    + intros id. specialize (HL id). specialize (Hq id). lia.
  - rewrite decide_True in Hfree by done. cbn [length] in Hfree.
    destruct (pick_with_room L t) as (p & Hp & Hmp & Hroom); [lia|intros id; specialize (HL id); lia|].
    rewrite Hp. cbn [mbind go_bind]. set (L1 := <[m_ID p := zget L (m_ID p) + 1]> L).
    assert (forall id, zget L1 id = zget L id + if decide (m_ID p = id) then 1 else 0) as HL1.
    { intros id. unfold L1. case_decide as Hid; [subst id; by rewrite zget_insert_eq|]. rewrite zget_insert_ne by done. lia. }
    destruct (IH (<[t := p]> a) L1) as (a' & L' & Hrun & Hd); [done|by apply Ha'| | |].
    + unfold L1. rewrite free_incr by (by eexists). unfold unheld. lia.
    + intros id. rewrite HL1. specialize (HL id). case_decide; lia.
    + exists a', L'. split; [done|]. eapply decided_cons; [done|apply Ha; by left|done| | | |exact Hd].
      * by rewrite Hc.
      * intros id. rewrite Hc, HL1. rewrite (decide_False (P := m_ID <$> None = Some id)) by done. lia.
      * intros id. rewrite HL1. case_decide as Hid; [subst id|]; lia.
Qed.
End decide.

(** ** Deciding from the locks *)

Section from_locks.
Context `{MapOrder} (c : string) (members : gmap string Member) (asg : gmap string string) (targets : list string).
Hypothesis Hkey : keyed members.
Hypothesis Hplain : forall t, t ∈ dom asg -> plain t.
Hypothesis Hfew : few (size asg + length targets).
Hypothesis Hnd : NoDup targets.
(** A lock a live member holds is for a configured target. *)
Hypothesis Hconf : forall t id, asg !! t = Some id -> is_Some (members !! id) -> t ∈ targets.

Let locks := range (lock_table c asg).
Let holders := foldl (holders_step members) ∅ locks.

Lemma few_locks : few (size asg).
Proof. revert Hfew. unfold few. lia. Qed.

Lemma current_asg t : current members holders t = (id ← asg !! t; members !! id).
Proof.
  unfold current, holders, locks. rewrite holders_locks by done. destruct (asg !! t) as [id|]; [|done]. cbn.
  destruct (members !! id) as [m|] eqn:Hm; [|done]. cbn. destruct (Hkey _ _ Hm) as [-> _]. done.
Qed.

Lemma kept_arrivals id : is_Some (members !! id) -> kept_for members holders id targets = arrivals id asg.
Proof.
  intros Hid. rewrite <-(length_held_now c asg Hplain). unfold kept_for. f_equal. apply Permutation_length.
  apply NoDup_Permutation; [by apply NoDup_filter|by apply held_now_nodup|]. intros t.
  rewrite list_elem_of_filter, elem_of_held_now, current_asg by done. split.
  - intros [Ht _]. destruct (asg !! t) as [i|]; [|done]. cbn in Ht. destruct (members !! i) as [m|] eqn:Hm; [|done].
    destruct (Hkey _ _ Hm) as [Hmid _]. cbn in Ht. congruence.
  - intros Ht. split; [|by eapply Hconf]. rewrite Ht. cbn. destruct Hid as [m Hm]. rewrite Hm. cbn.
    f_equal. apply (Hkey _ _ Hm).
Qed.

Lemma zsum_live (q : gmap string Z) :
  dom q = dom members -> zsum (zget q <$> live_ids members) = gsum q.
Proof. intros Hd. rewrite <-(ids_quotas members q Hd). unfold live_ids. by rewrite ids_perm. Qed.

Lemma free_locks (q : gmap string Z) :
  dom q = dom members -> gsum q = Z.of_nat (length targets) ->
  free members q (loads_of locks) = Z.of_nat (length (unheld members holders targets)).
Proof.
  intros Hd Hs. unfold free. rewrite zsum_minus. rewrite zsum_live, Hs by done.
  pose proof (kept_total members holders Hkey targets) as Ht.
  enough (zsum ((fun id => zget (loads_of locks) id) <$> live_ids members)
    = zsum ((fun id => kept_for members holders id targets) <$> live_ids members)) as E.
  { change (zget (loads_of locks) <$> live_ids members) with ((fun id => zget (loads_of locks) id) <$> live_ids members). lia. }
  f_equal. apply list_fmap_ext. intros i id Hid%list_elem_of_lookup_2%elem_of_live_ids.
  rewrite kept_arrivals by done. apply loads_locks; [done|apply few_locks].
Qed.

Lemma arrivals_small id : 0 <= arrivals id asg <= Z.of_nat (size asg).
Proof. rewrite arrivals_count. pose proof (count_of_bound id (map_to_list asg)). rewrite length_map_to_list in *. lia. Qed.

Lemma decide_locks :
  members <> ∅ -> exists q a, calculateMembersQuota members (Z.of_nat (length targets)) = Some q /\
    decideAssignments holders members (loads_of locks) targets = Ok a /\
    dom a = list_to_set targets /\
    (forall t m, a !! t = Some m -> members !! m_ID m = Some m) /\
    (forall t id m, asg !! t = Some id -> members !! id = Some m -> a !! t = Some m) /\
    (forall id, is_Some (members !! id) -> arrivals id (m_ID <$> a) <= Z.max (arrivals id asg) (zget q id)) /\
    ((forall id, is_Some (members !! id) -> arrivals id asg <= zget q id) ->
     forall id, is_Some (members !! id) -> arrivals id (m_ID <$> a) = zget q id).
Proof.
  intros Hne. destruct (quota_shape _ members (Z.of_nat (length targets)) Hne ltac:(lia)) as (q & Hq & Hdom & Hsum & Hb).
  assert (forall id, 0 <= zget q id <= 2 ^ 61) as Hqb.
  { intros id. unfold zget. destruct (q !! id) as [v|] eqn:E; cbn; [|lia]. apply Hb in E. unfold few in Hfew.
    destruct (size members) as [|n] eqn:Es; [by apply map_size_empty_inv in Es|].
    pose proof (Z.div_pos (Z.of_nat (length targets)) (Z.of_nat (S n))).
    pose proof (Z.div_le_upper_bound (Z.of_nat (length targets)) (Z.of_nat (S n)) (Z.of_nat (length targets))). nia. }
  assert (forall id, zget (loads_of locks) id = arrivals id asg) as HL.
  { intros id. apply loads_locks; [done|apply few_locks]. }
  destruct (decide_loop members holders q Hkey Hne Hqb targets ∅ (loads_of locks)) as (a & L & Hrun & [Hout Hin Hcnt Hload Hfree]);
    [done|done|by apply free_locks| |].
  { intros id. rewrite HL. pose proof (arrivals_small id). unfold few in Hfew. lia. }
  exists q, a. split; [done|]. split; [unfold decideAssignments; rewrite Hq; cbn; by rewrite Hrun|].
  assert (forall id, is_Some (members !! id) -> arrivals id (m_ID <$> a) = zget L id) as Hfinal.
  { intros id Hid. rewrite Hcnt, kept_arrivals, HL by done. rewrite fmap_empty.
    unfold arrivals at 1. rewrite map_filter_empty, map_size_empty. lia. }
  split; [|split; [|split; [|split]]].
  - apply set_eq. intros t. rewrite elem_of_dom, elem_of_list_to_set. split.
    + intros Ht. destruct (decide (t ∈ targets)); [done|]. rewrite Hout in Ht by done. by destruct Ht.
    + intros Ht. destruct (Hin t Ht) as (m & Hm & _). eauto.
  - intros t m Hm. destruct (decide (t ∈ targets)) as [Ht|Ht]; [|by rewrite Hout in Hm].
    destruct (Hin t Ht) as (m' & Hm' & ? & _). congruence.
  - intros t id m Ht Hm. destruct (Hin t) as (m' & Hm' & _ & Hcur); [by eapply Hconf; eauto|].
    rewrite Hm'. f_equal. apply Hcur. rewrite current_asg, Ht. done.
  - intros id Hid. rewrite Hfinal by done. specialize (Hload id). rewrite HL in Hload. lia.
  - intros Hall id Hid. rewrite Hfinal by done. apply (zsum_tight (zget L) (zget q) (live_ids members)).
    + intros y Hy%elem_of_live_ids. specialize (Hload y). specialize (Hall y Hy). rewrite HL in Hload. lia.
    + unfold free in Hfree. rewrite zsum_minus in Hfree. change (fun id => zget q id) with (zget q) in Hfree.
      change (fun id => zget L id) with (zget L) in Hfree. lia.
    + by apply elem_of_live_ids.
Qed.
End from_locks.

(** C5: a reconciliation by the leader, with locks [asg] of which a live
    member's are all for configured targets: it succeeds whatever the members
    answer; every configured target, and no other, is assigned, to a live
    member; a target a live member holds stays with it, one whose holder is
    gone does not stay unassigned; no member gets more than the larger of its
    quota and what it held, and when none holds more than its quota each gets
    exactly its quota; the requests are those of the assignments, up to the
    first refused. *)
Theorem reconcile_spec `{MapOrder} `{Outside} (c : string) (members : gmap string Member)
    (asg : gmap string string) (targets : list string) h :
  let lists := CallList (targetsLockPrefix c) in
  keyed members -> members <> ∅ -> (forall t, t ∈ dom asg -> plain t) -> few (size asg + length targets) ->
  NoDup targets -> targets <> [] ->
  (forall t id, asg !! t = Some id -> is_Some (members !! id) -> t ∈ targets) ->
  Config_Keys h = Some targets ->
  Locker_List (h ++ [CallKeys]) (targetsLockPrefix c) = Some (lock_table c asg) ->
  Locker_List (h ++ [CallKeys; lists]) (targetsLockPrefix c) = Some (lock_table c asg) ->
  exists q a posts, calculateMembersQuota members (Z.of_nat (length targets)) = Some q /\
    reconcileAssignments c members members h = (Ok a, h ++ [CallKeys; lists; lists] ++ posts) /\
    posts `prefix_of` omap post_of (range a) /\
    dom a = list_to_set targets /\
    (forall t m, a !! t = Some m -> members !! m_ID m = Some m) /\
    (forall t id m, asg !! t = Some id -> members !! id = Some m -> a !! t = Some m) /\
    (forall id, is_Some (members !! id) -> arrivals id (m_ID <$> a) <= Z.max (arrivals id asg) (zget q id)) /\
    ((forall id, is_Some (members !! id) -> arrivals id asg <= zget q id) ->
     forall id, is_Some (members !! id) -> arrivals id (m_ID <$> a) = zget q id).
Proof.
  intros lists Hkey Hne Hplain Hfew Hnd Hts Hconf Hkeys Hl1 Hl2.
  destruct (decide_locks c members asg targets Hkey Hplain Hfew Hnd Hconf Hne)
    as (q & a & Hq & Ha & Hdom & Hlive & Hkept & Hmax & Hexact).
  destruct (send_all_prefix errAssign (omap post_of (range a)) (h ++ [CallKeys; lists; lists])) as (r & posts & Hsend & Hpre & Hr).
  exists q, a, posts. split; [done|]. split; [|done].
  unfold reconcileAssignments. rewrite bind_run. unfold config_Keys. rewrite Hkeys.
  destruct targets as [|t0 ts]; [done|]. cbn [nilb].
  rewrite bind_run. unfold getAssignments. rewrite bind_run. unfold locker_List at 1. rewrite Hl1. cbn [mret cm_ret].
  rewrite bind_run. unfold getMembersLoad. rewrite bind_run. unfold locker_List at 1.
  rewrite <-(app_assoc h [CallKeys] [_]). cbn [app]. fold lists. rewrite Hl2. cbn [mret cm_ret].
  rewrite bind_run. unfold cm_lift. rewrite Ha. rewrite bind_run. unfold cm_try. rewrite Assign_send.
  rewrite <-app_assoc. cbn [app]. rewrite Hsend, <-app_assoc. cbn [app]. by destruct r.
Qed.

(** The lock of a member that left does not keep a target from being assigned. *)
Lemma reconcile_spec_witness :
  let O := steady ["r1"; "r2"; "r3"; "r4"] (lock_table "c1" ex_locks) 200 in
  exists q a posts, calculateMembersQuota (H := order_bwd) ex_cluster 4 = Some q /\
    reconcileAssignments (H := order_bwd) (H0 := O) "c1" ex_cluster ex_cluster [] =
      (Ok a, [CallKeys; CallList "gnmic/c1/targets"; CallList "gnmic/c1/targets"] ++ posts) /\
    m_ID <$> a = {["r1" := "a"; "r2" := "a"; "r3" := "b"; "r4" := "b"]} /\
    (forall id, is_Some (ex_cluster !! id) -> arrivals id (m_ID <$> a) <= Z.max (arrivals id ex_locks) (zget q id)).
Proof.
  cbn zeta. set (O := steady _ _ _).
  destruct (reconcile_spec (H := order_bwd) (H0 := O) "c1" ex_cluster ex_locks ["r1"; "r2"; "r3"; "r4"] [])
    as (q & a & posts & Hq & Hrun & _ & _ & _ & _ & Hmax & _).
  - exact ex_cluster_keyed.
  - exact ex_cluster_nonempty.
  - exact ex_locks_plain.
  - vm_compute. reflexivity.
  - apply (bool_decide_unpack _). vm_compute. exact I.
  - discriminate.
  - intros t id Ht _. unfold ex_locks in Ht.
    repeat (apply lookup_insert_Some in Ht as [[<- _]|[_ Ht]]; [apply (bool_decide_unpack _); vm_compute; exact I|]).
    apply lookup_singleton_Some in Ht as [<- _]. apply (bool_decide_unpack _). vm_compute. exact I.
  - reflexivity.
  - reflexivity.
  - reflexivity.
  - exists q, a, posts. split; [exact Hq|]. split; [exact Hrun|]. split; [|exact Hmax].
    assert (fmap (M := go cluster_error) (fmap m_ID) (fst (reconcileAssignments (H := order_bwd) (H0 := O) "c1" ex_cluster ex_cluster []))
      = Ok {["r1" := "a"; "r2" := "a"; "r3" := "b"; "r4" := "b"]}) as E by (vm_compute; reflexivity).
    rewrite Hrun in E. injection E as E. exact E.
Defined.
