(* ===== verification/Follower.v ===== *)
(** * A member's assignments (pkg/collector/api/server/assignment.go)

    The receiving side of the leader's requests: the handlers over the
    [assignments] table of the member's configuration store, an in-memory table
    whose reads and writes do not fail. A response is its status code. The
    handlers' own [assignmentConfig] has pointers, so a JSON [null] is a nil
    entry. *)

From S2P Require Import Prelude GoStrings Utf8 GoVal Placement Rebalance Manager.
From stdpp Require Import strings.

#[local] Open Scope Z_scope.

Record assignement := mkAssignement { a_Target : string; a_Member : string }.

Record assignmentBody := mkBody {
  b_Assignments : list (option assignement);
  b_Unassignments : list string
}.

Abbreviation assignments := (gmap string assignement).

Definition validate_assignment (a : option assignement) : go () () :=
  match a with
  | None => Panic
  | Some a => if String.eqb (a_Target a) "" || String.eqb (a_Member a) "" then Err () else Ok ()
  end.
Definition validate (cfg : assignmentBody) : go () () :=
  if nilb (b_Assignments cfg) && nilb (b_Unassignments cfg) then Err ()
  else
    _ ← foldM (fun _ a => validate_assignment a) (b_Assignments cfg) ();
    if existsb (fun t => String.eqb t "") (b_Unassignments cfg) then Err () else Ok ().

Definition set_assignment (t : assignments) (a : option assignement) : assignments :=
  match a with Some a => <[a_Target a := a]> t | None => t end.

(** [body] is [None] when the JSON does not decode or is [null]. *)
Definition handleAssignmentPost (body : option assignmentBody) (t : assignments) : go () (Z * assignments) :=
  match body with
  | None => Ok (400, t)
  | Some cfg =>
      match validate cfg with
      | Panic => Panic
      | Err _ => Ok (400, t)
      | Ok _ =>
          Ok (200, foldl (fun t x => delete x t) (foldl set_assignment t (b_Assignments cfg)) (b_Unassignments cfg))
      end
  end.

Definition handleAssignmentDelete (id : string) (t : assignments) : Z * assignments :=
  match t !! id with Some _ => (200, delete id t) | None => (404, t) end.

Record assignmentResponse := mkResponse { ar_Member : string; ar_Targets : list string }.

Definition list_step (ar : assignmentResponse) (kv : string * assignement) : assignmentResponse :=
  mkResponse (if String.eqb (ar_Member ar) "" then a_Member kv.2 else ar_Member ar) (ar_Targets ar ++ [kv.1]).
(** The listing, and the lookup of one assignment. *)
Definition handleAssignmentGet `{MapOrder} (id : string) (t : assignments)
    : assignmentResponse + (Z * option assignement) :=
  if String.eqb id "" then
    let ar := foldl list_step (mkResponse "" []) (range t) in
    inl (mkResponse (ar_Member ar) (sort_strings (ar_Targets ar)))
  else
    match t !! id with
    | Some a => inr (200, Some a)
    | None => inr (404, None)
    end.

(** ** What a request does *)

(** The body the leader sends, as the handler decodes it. *)
Definition received (body : assignmentConfig) : assignmentBody :=
  mkBody ((fun tm => Some (mkAssignement tm.1 tm.2)) <$> Assignments body) (Unassignments body).

(** A non-empty request with non-empty names. *)
Definition well_formed (body : assignmentConfig) : Prop :=
  (Assignments body <> [] \/ Unassignments body <> []) /\
  Forall (fun tm => tm.1 <> "" /\ tm.2 <> "") (Assignments body) /\ Forall (fun t => t <> "") (Unassignments body).

Lemma validate_received body : well_formed body -> validate (received body) = Ok ().
Proof.
  intros (Hne & Ha & Hu). unfold validate, received; cbn [b_Assignments b_Unassignments].
  assert (nilb ((fun tm => Some (mkAssignement tm.1 tm.2)) <$> Assignments body) && nilb (Unassignments body) = false) as ->.
  { destruct Hne as [Hne|Hne]; [by destruct (Assignments body)|]. destruct (Unassignments body); [done|]. apply andb_false_r. }
  assert (foldM (fun _ a => validate_assignment a) ((fun tm => Some (mkAssignement tm.1 tm.2)) <$> Assignments body) () = Ok ()) as ->.
  { clear Hne. induction Ha as [|[t m] l [Ht Hm] Hl IH]; [done|]. cbn in *. rewrite !(proj2 (String.eqb_neq _ _)) by done. apply IH. }
  cbn. assert (existsb (fun t => String.eqb t "") (Unassignments body) = false) as ->; [|done].
  clear -Hu. induction Hu as [|t l Ht Hl IH]; [done|]. cbn. by rewrite (proj2 (String.eqb_neq _ _)).
Qed.

Lemma foldl_delete_lookup {V} (l : list string) (t : gmap string V) x :
  foldl (fun t x => delete x t) t l !! x = if decide (x ∈ l) then None else t !! x.
Proof.
  revert t; induction l as [|y l IH]; intros t; cbn [foldl]; [done|]. rewrite IH.
  destruct (decide (x ∈ l)).
  - by rewrite decide_True by (by right).
  - destruct (decide (x = y)) as [->|Hne].
    + rewrite lookup_delete_eq, decide_True by (by left). done.
    + rewrite lookup_delete_ne, decide_False by (done || by intros [|]%elem_of_cons). done.
Qed.

Lemma set_assignments_lookup (l : list (string * string)) (t : assignments) x :
  NoDup l.*1 ->
  foldl set_assignment t ((fun tm => Some (mkAssignement tm.1 tm.2)) <$> l) !! x =
  match (list_to_map l : gmap string string) !! x with Some m => Some (mkAssignement x m) | None => t !! x end.
Proof.
  revert t; induction l as [|[y m] l IH]; intros t Hnd; [done|].
  rewrite fmap_cons in *. cbn [foldl set_assignment a_Target fst snd]. cbn in Hnd. apply NoDup_cons in Hnd as [Hy Hnd].
  rewrite IH by done. cbn [list_to_map foldr uncurry fst snd]. destruct (decide (y = x)) as [->|Hne].
  - rewrite (not_elem_of_list_to_map_1 _ _ Hy). by rewrite !lookup_insert_eq.
  - by rewrite !lookup_insert_ne by done.
Qed.

Lemma post_effect (body : assignmentConfig) (t : assignments) :
  well_formed body -> NoDup (Assignments body).*1 ->
  exists t', handleAssignmentPost (Some (received body)) t = Ok (200, t') /\
    forall x, t' !! x =
      if decide (x ∈ Unassignments body) then None
      else match (list_to_map (Assignments body) : gmap string string) !! x with
           | Some m => Some (mkAssignement x m)
           | None => t !! x
           end.
Proof.
  intros Hw Hnd. eexists. split; [unfold handleAssignmentPost; by rewrite validate_received|].
  intros x. cbn [received b_Assignments b_Unassignments]. rewrite foldl_delete_lookup. case_decide; [done|].
  by apply set_assignments_lookup.
Qed.

(** A well-formed request is accepted and changes exactly the targets it
    names: one it unassigns is gone, one it assigns (each once) is there under
    the given member unless it is unassigned too, and every other is as it was. *)
Theorem handleAssignmentPost_spec (body : assignmentConfig) (t : assignments) :
  well_formed body -> NoDup (Assignments body).*1 ->
  exists t', handleAssignmentPost (Some (received body)) t = Ok (200, t') /\
    forall x, t' !! x =
      if decide (x ∈ Unassignments body) then None
      else match (list_to_map (Assignments body) : gmap string string) !! x with
           | Some m => Some (mkAssignement x m)
           | None => t !! x
           end.
Proof. apply post_effect. Qed.

Lemma handleAssignmentPost_spec_witness :
  let body := mkAssignment [("r1", "a")] ["r2"] in
  exists t', handleAssignmentPost (Some (received body)) {["r2" := mkAssignement "r2" "a"]} = Ok (200, t') /\
    t' !! "r1" = Some (mkAssignement "r1" "a") /\ t' !! "r2" = None.
Proof.
  cbn zeta. destruct (handleAssignmentPost_spec (mkAssignment [("r1", "a")] ["r2"]) {["r2" := mkAssignement "r2" "a"]}) as (t' & Hr & Hl).
  - split; [left; discriminate|]. split; repeat constructor; discriminate.
  - apply (bool_decide_unpack _). vm_compute. exact I.
  - exists t'. split; [exact Hr|]. split; rewrite Hl; vm_compute; reflexivity.
Defined.

(** A [null] among the assignments is dereferenced. *)
Example null_assignment : handleAssignmentPost (Some (mkBody [None] [])) ∅ = Panic.
Proof. reflexivity. Qed.
