(* ===== verification/Leader.v ===== *)
(** * What the leader's operations do to the members

    The requests of an operation (Manager.v) are delivered to the members'
    tables of assignments through their handlers (Follower.v). An assignment
    table [asg] (target to member ID) is what the members' tables agree with;
    draining a member and rebalancing are stated as what they make of it, when
    every request is accepted. *)

From S2P Require Import Prelude GoStrings Utf8 GoVal Placement Rebalance Manager Follower.
From stdpp Require Import strings.

#[local] Open Scope Z_scope.
#[local] Arguments wrap : simpl never.

(** ** Delivery *)

Section delivery.
Context (members : gmap string Member).

Definition serves (url id : string) : bool :=
  match members !! id with Some m => String.eqb (assign_url m) url | None => false end.
Definition apply_body (body : assignmentConfig) (t : assignments) : assignments :=
  match handleAssignmentPost (Some (received body)) t with Ok (_, t') => t' | _ => t end.
(** A request reaches the member it is addressed to. *)
Definition deliver (W : gmap string assignments) (r : call) : gmap string assignments :=
  match r with
  | CallPost url body => map_imap (fun id t => Some (if serves url id then apply_body body t else t)) W
  | _ => W
  end.

(** The members' tables are those of [asg]. *)
Definition agrees (W : gmap string assignments) (asg : gmap string string) : Prop :=
  forall id, is_Some (members !! id) -> exists tbl, W !! id = Some tbl /\
    forall t, tbl !! t = if decide (asg !! t = Some id) then Some (mkAssignement t id) else None.

(** Members have addresses, different ones, and are under their IDs. *)
Record reachable : Prop := {
  re_keyed : keyed members;
  re_addr : forall id m, members !! id = Some m -> m_Address m <> "";
  re_url : forall id1 id2 m1 m2, members !! id1 = Some m1 -> members !! id2 = Some m2 ->
    assign_url m1 = assign_url m2 -> id1 = id2
}.
Hypothesis Hre : reachable.

Lemma serves_iff id m i : members !! id = Some m -> serves (assign_url m) i = true <-> i = id.
Proof.
  intros Hm. unfold serves. destruct (members !! i) as [mi|] eqn:Hi.
  - rewrite String.eqb_eq. split; [by apply (re_url Hre i id)|]. intros ->. congruence.
  - split; [done|]. intros ->. congruence.
Qed.

Lemma deliver_lookup W url body id m tbl :
  members !! id = Some m -> W !! id = Some tbl ->
  deliver W (CallPost url body) !! id = Some (if String.eqb (assign_url m) url then apply_body body tbl else tbl).
Proof. intros Hm Hw. cbn. rewrite map_lookup_imap, Hw. cbn. unfold serves. by rewrite Hm. Qed.

Lemma apply_body_lookup body t x :
  well_formed body -> NoDup (Assignments body).*1 ->
  apply_body body t !! x =
    if decide (x ∈ Unassignments body) then None
    else match (list_to_map (Assignments body) : gmap string string) !! x with
         | Some m => Some (mkAssignement x m)
         | None => t !! x
         end.
Proof.
  intros Hw Hnd. destruct (post_effect body t Hw Hnd) as (t' & Hr & Hl). unfold apply_body. rewrite Hr. apply Hl.
Qed.

Lemma deliver_assign W asg id m t :
  members !! id = Some m -> t <> "" -> asg !! t = None -> agrees W asg ->
  agrees (deliver W (CallPost (assign_url m) (mkAssignment [(t, id)] []))) (<[t := id]> asg).
Proof.
  intros Hm Ht Hn Hag i [mi Hi]. destruct (Hag i) as (tbl & Hw & Htbl); [by eexists|].
  eexists. split; [by apply deliver_lookup|]. intros x.
  destruct (re_keyed Hre _ _ Hm) as [_ Hid].
  assert (well_formed (mkAssignment [(t, id)] [])) as Hwf.
  { split; [by left|]. split; cbn; [|done]. by repeat constructor. }
  destruct (String.eqb_spec (assign_url mi) (assign_url m)) as [He|He].
  - assert (i = id) as -> by (by eapply (re_url Hre)).
    rewrite apply_body_lookup by (done || apply NoDup_singleton). cbn.
    rewrite decide_False by apply not_elem_of_nil. destruct (decide (t = x)) as [->|Hne].
    + rewrite !lookup_insert_eq, decide_True by done. done.
    + rewrite !lookup_insert_ne, lookup_empty, Htbl by done. done.
  - rewrite Htbl. assert (i <> id) as Hne by (intros ->; congruence).
    destruct (decide (t = x)) as [->|?]; [|by rewrite lookup_insert_ne].
    rewrite lookup_insert_eq, !decide_False; [done| |]; congruence.
Qed.

Lemma deliver_unassign W asg id m ts :
  members !! id = Some m -> ts <> [] -> Forall (fun t => t <> "") ts -> (forall t, t ∈ ts -> asg !! t = Some id) ->
  agrees W asg ->
  agrees (deliver W (CallPost (assign_url m) (mkAssignment [] ts))) (foldl (fun a t => delete t a) asg ts).
Proof.
  intros Hm Hts Hne Hheld Hag i [mi Hi]. destruct (Hag i) as (tbl & Hw & Htbl); [by eexists|].
  eexists. split; [by apply deliver_lookup|]. intros x. rewrite foldl_delete_lookup.
  assert (well_formed (mkAssignment [] ts)) as Hwf by (split; [by right|done]).
  destruct (String.eqb_spec (assign_url mi) (assign_url m)) as [He|He].
  - assert (i = id) as -> by (by eapply (re_url Hre)).
    rewrite apply_body_lookup by (done || apply NoDup_nil_2). cbn. rewrite lookup_empty, Htbl.
    by destruct (decide (x ∈ ts)).
  - rewrite Htbl. destruct (decide (x ∈ ts)) as [Hx|Hx]; [|done].
    rewrite decide_False; [by rewrite decide_False|]. rewrite (Hheld x Hx). intros [= ->]. congruence.
Qed.

(** A member as the leader reads it: same ID, address and labels. *)
Definition known (m : Member) : Prop :=
  exists m0, members !! m_ID m = Some m0 /\ m_Address m = m_Address m0 /\ m_Labels m = m_Labels m0.

Lemma known_url m : known m -> exists m0, members !! m_ID m = Some m0 /\ assign_url m = assign_url m0 /\ m_Address m <> "".
Proof.
  intros (m0 & Hm & Ha & Hl). exists m0. split; [done|]. split; [unfold assign_url; cbn; by rewrite Ha, Hl|].
  rewrite Ha. by eapply (re_addr Hre).
Qed.

Definition assign_table (asg : gmap string string) (tm : string * Member) : gmap string string := <[tm.1 := m_ID tm.2]> asg.

Lemma deliver_posts W asg (placed : list (string * Member)) :
  NoDup placed.*1 -> (forall t m, (t, m) ∈ placed -> t <> "" /\ known m /\ asg !! t = None) ->
  agrees W asg -> agrees (foldl deliver W (omap post_of placed)) (foldl assign_table asg placed).
Proof.
  revert W asg; induction placed as [|[t m] l IH]; intros W asg Hnd Hall Hag; [done|].
  cbn in Hnd. apply NoDup_cons in Hnd as [Ht Hnd].
  destruct (Hall t m) as (Htn & Hk & Hno); [by left|].
  destruct (known_url m Hk) as (m0 & Hm0 & Hurl & Haddr).
  cbn [omap list_omap]. unfold post_of at 1; cbn [fst snd]. rewrite (proj2 (String.eqb_neq _ _)) by done. cbn [foldl].
  apply IH; [done| |].
  - intros t' m' Hin. destruct (Hall t' m') as (? & ? & ?); [by right|]. split; [done|]. split; [done|].
    unfold assign_table; cbn [fst snd]. rewrite lookup_insert_ne; [done|]. intros <-. apply Ht.
    apply list_elem_of_fmap. by exists (t, m').
  - rewrite Hurl. by apply deliver_assign.
Qed.

Lemma assign_tables_lookup asg (placed : list (string * Member)) t :
  NoDup placed.*1 ->
  foldl assign_table asg placed !! t =
  match (list_to_map placed : gmap string Member) !! t with Some m => Some (m_ID m) | None => asg !! t end.
Proof.
  revert asg; induction placed as [|[x m] l IH]; intros asg Hnd; [done|]. cbn in Hnd. apply NoDup_cons in Hnd as [Hx Hnd].
  cbn [foldl]. rewrite IH by done. unfold assign_table; cbn [fst snd]. cbn [list_to_map foldr uncurry fst snd].
  destruct (decide (x = t)) as [->|Hne].
  - rewrite (not_elem_of_list_to_map_1 _ _ Hx). by rewrite !lookup_insert_eq.
  - by rewrite !lookup_insert_ne by done.
Qed.
End delivery.

(** ** Placing targets one by one *)

Lemma least_fold l acc :
  match foldl least_step acc l with
  | Some m => (m ∈ l \/ acc = Some m) /\ (forall x, x ∈ l \/ acc = Some x -> m_Load m <= m_Load x)
  | None => l = [] /\ acc = None
  end.
Proof.
  revert acc; induction l as [|x l IH]; intros acc; cbn [foldl].
  - destruct acc as [m|]; [|done]. split; [by right|]. intros x [?%elem_of_nil|[= ->]]; done || lia.
  - specialize (IH (least_step acc x)). destruct (foldl least_step (least_step acc x) l) as [m|].
    + destruct IH as [Hin Hmin]. unfold least_step in *. destruct acc as [a|].
      * destruct (Z.ltb_spec (m_Load x) (m_Load a)).
        -- split; [left; destruct Hin as [?|[= <-]]; [by right|by left]|].
           intros y [[->|Hy]%elem_of_cons|[= <-]]; [apply Hmin; by right|apply Hmin; by left|].
           specialize (Hmin x ltac:(by right)). lia.
        -- split; [destruct Hin as [?|[= <-]]; [left; by right|by right]|].
           intros y [[->|Hy]%elem_of_cons|[= <-]]; [|apply Hmin; by left|apply Hmin; by right].
           specialize (Hmin a ltac:(by right)). lia.
      * split; [left; destruct Hin as [?|[= <-]]; [by right|by left]|].
        intros y [[->|Hy]%elem_of_cons|?]; [apply Hmin; by right|apply Hmin; by left|done].
    + destruct IH as [_ Hs]. unfold least_step in Hs. destruct acc; [by destruct (_ <? _)|done].
Qed.

(** The least loaded member: one of the members, with no larger load than any;
    none only when there are no members. *)
Lemma least_loaded `{MapOrder} (ms : gmap string Member) :
  match getLeastLoadedMember ms with
  | Some m => (exists id, ms !! id = Some m) /\ forall id m', ms !! id = Some m' -> m_Load m <= m_Load m'
  | None => ms = ∅
  end.
Proof.
  unfold getLeastLoadedMember. pose proof (least_fold (range ms).*2 None) as Hf.
  destruct (foldl least_step None (range ms).*2) as [m|].
  - destruct Hf as [[Hin|?] Hmin]; [|done]. split.
    + apply list_elem_of_fmap in Hin as ([id m'] & -> & Hm%elem_of_range). eauto.
    + intros id m' Hm. apply Hmin. left. apply list_elem_of_fmap. exists (id, m'). by rewrite elem_of_range.
  - destruct Hf as [Hnil _]. apply map_size_empty_inv. rewrite <-length_range, <-(length_fmap snd). by rewrite Hnil.
Qed.

(** [leastLoadedMember.Load++]. *)
Definition bump (m : Member) : Member := mkMember (m_ID m) (m_Address m) (m_Labels m) (int64 (m_Load m + 1)) (m_Targets m).

(** Where a run of placements puts the targets when each request is accepted. *)
Fixpoint place `{MapOrder} (ts : list string) (ms : gmap string Member) : list (string * Member) :=
  match ts with
  | [] => []
  | t :: ts =>
      match getLeastLoadedMember ms with
      | Some m => (t, m) :: place ts (<[m_ID m := bump m]> ms)
      | None => []
      end
  end.

Section placing.
Context `{MapOrder} `{Outside}.

Lemma send_all_accepted e cs h :
  (forall h c, accepted h c = true) -> send_all e cs h = (Ok (), h ++ cs).
Proof.
  intros Hall. revert h; induction cs as [|c cs IH]; intros h; cbn [send_all]; [by rewrite app_nil_r|].
  rewrite bind_run, request_run, Hall, IH, <-app_assoc. done.
Qed.

Lemma reassign_run ts ms h :
  (forall h c, accepted h c = true) -> reassign ts ms h = (Ok (), h ++ omap post_of (place ts ms)).
Proof.
  intros Hall. revert ms h; induction ts as [|t ts IH]; intros ms h; cbn [reassign place]; [by rewrite app_nil_r|].
  rewrite bind_run. unfold cm_try, assignTarget. pose proof (least_loaded ms) as Hl.
  destruct (getLeastLoadedMember ms) as [m|] eqn:Hm.
  - rewrite bind_run, Assign_send, range_singleton, send_all_accepted by done.
    cbn [mret cm_ret]. rewrite IH, <-app_assoc. do 2 f_equal. cbn [omap list_omap].
    by destruct (post_of (t, m)).
  - cbn. rewrite IH. subst ms. destruct ts; cbn; [done|]. by rewrite Hm.
Qed.

(** Members under their IDs, with loads far from the bounds of [int64]. *)
Definition placeable (n : nat) (ms : gmap string Member) : Prop :=
  ms <> ∅ /\ forall id m, ms !! id = Some m -> m_ID m = id /\ 0 <= m_Load m /\ m_Load m + Z.of_nat n <= 2 ^ 61.

Lemma least_bump n ms m :
  placeable (S n) ms -> getLeastLoadedMember ms = Some m ->
  ms !! m_ID m = Some m /\ placeable n (<[m_ID m := bump m]> ms) /\ m_Load (bump m) = m_Load m + 1.
Proof.
  intros [Hne Hp] Hm. pose proof (least_loaded ms) as Hl. rewrite Hm in Hl. destruct Hl as [[id Hid] _].
  destruct (Hp _ _ Hid) as (Hmid & H1 & H2).
  assert (m_Load (bump m) = m_Load m + 1) as Hb by (cbn; apply int64_small; lia).
  split; [by rewrite Hmid|]. split; [|done]. split; [apply insert_non_empty|]. intros i m'.
  destruct (decide (m_ID m = i)) as [<-|Hne'].
  - rewrite lookup_insert_eq. intros [= <-]. rewrite Hb. split; [done|]. lia.
  - rewrite lookup_insert_ne by done. intros Hi. destruct (Hp _ _ Hi) as (? & ? & ?). split; [done|]. lia.
Qed.

Lemma place_spec ts ms :
  placeable (length ts) ms ->
  (place ts ms).*1 = ts /\
  (forall t m, (t, m) ∈ place ts ms -> exists m0, ms !! m_ID m = Some m0 /\ m_Address m = m_Address m0 /\ m_Labels m = m_Labels m0).
Proof.
  revert ms; induction ts as [|t ts IH]; intros ms Hp; cbn [place]; [split; [done|by intros ? ? ?%elem_of_nil]|].
  destruct (getLeastLoadedMember ms) as [m|] eqn:Hm.
  2: { pose proof (least_loaded ms) as Hl. rewrite Hm in Hl. by destruct Hp. }
  destruct (least_bump _ _ _ Hp Hm) as (Hin & Hp' & _). destruct (IH _ Hp') as [Hfst Hall]. split.
  - rewrite fmap_cons. cbn. by rewrite Hfst.
  - intros t' m' [[= -> ->]|Hm']%elem_of_cons; [by eauto|]. destruct (Hall _ _ Hm') as (m0 & Hm0 & Ha & Hl).
    destruct (decide (m_ID m = m_ID m')) as [He|He].
    + rewrite He, lookup_insert_eq in Hm0. injection Hm0 as <-. exists m. rewrite <-He. done.
    + rewrite lookup_insert_ne in Hm0 by done. eauto.
Qed.

(** How many of the placements go to a member. *)
Definition placed_on (id : string) (l : list (string * Member)) : Z := count_of id (prod_map (fun t => t) m_ID <$> l).

Lemma place_balanced D ts ms :
  1 <= D -> placeable (length ts) ms ->
  (forall i j mi mj, ms !! i = Some mi -> ms !! j = Some mj -> m_Load mi <= m_Load mj + D) ->
  forall i j mi mj, ms !! i = Some mi -> ms !! j = Some mj ->
    m_Load mi + placed_on i (place ts ms) <= m_Load mj + placed_on j (place ts ms) + D.
Proof.
  intros HD. revert ms; induction ts as [|t ts IH]; intros ms Hp Hs i j mi mj Hi Hj; cbn [place].
  { unfold placed_on, count_of. cbn. specialize (Hs _ _ _ _ Hi Hj). lia. }
  pose proof (least_loaded ms) as Hl. destruct (getLeastLoadedMember ms) as [m|] eqn:Hm; [|by destruct Hp].
  destruct Hl as [_ Hmin]. destruct (least_bump _ _ _ Hp Hm) as (Hin & Hp' & Hb).
  set (ms1 := <[m_ID m := bump m]> ms) in *.
  assert (forall k mk, ms !! k = Some mk -> exists mk', ms1 !! k = Some mk' /\
    m_Load mk' = m_Load mk + if decide (m_ID m = k) then 1 else 0) as Hms1.
  { intros k mk Hk. unfold ms1. case_decide as Hd.
    - subst k. exists (bump m). rewrite lookup_insert_eq. split; [done|]. rewrite Hb. congruence.
    - exists mk. rewrite lookup_insert_ne by done. split; [done|lia]. }
  assert (forall i j mi mj, ms1 !! i = Some mi -> ms1 !! j = Some mj -> m_Load mi <= m_Load mj + D) as Hs1.
  { intros i' j' mi' mj' Hi' Hj'. unfold ms1 in Hi', Hj'.
    apply lookup_insert_Some in Hi' as [[<- <-]|[_ Hi']], Hj' as Hj''; apply lookup_insert_Some in Hj' as [[<- <-]|[_ Hj']];
      rewrite ?Hb; [lia| | |by eapply Hs].
    - specialize (Hmin _ _ Hj'). lia.
    - specialize (Hs _ _ _ _ Hi' Hin). lia. }
  destruct (Hms1 _ _ Hi) as (mi1 & Hi1 & Hli), (Hms1 _ _ Hj) as (mj1 & Hj1 & Hlj).
  pose proof (IH ms1 Hp' Hs1 i j mi1 mj1 Hi1 Hj1) as Hrec.
  unfold placed_on in *. rewrite !fmap_cons. unfold prod_map at 1 3; cbn [fst snd]. rewrite !count_of_cons. lia.
Qed.
End placing.

(** ** Counting after a change of table *)

Lemma arrivals_ext i (a b : gmap string string) :
  (forall t, a !! t = Some i <-> b !! t = Some i) -> arrivals i a = arrivals i b.
Proof.
  intros Hab. unfold arrivals. do 2 f_equal. apply map_eq. intros t. apply option_eq. intros v.
  rewrite !map_lookup_filter_Some. cbn. split; intros [Ht ->]; (split; [|done]); by apply Hab.
Qed.

Lemma arrivals_placed i asg (placed : list (string * Member)) :
  NoDup placed.*1 -> (forall t, t ∈ placed.*1 -> asg !! t = None) ->
  arrivals i (foldl assign_table asg placed) = arrivals i asg + placed_on i placed.
Proof.
  revert asg; induction placed as [|[t m] l IH]; intros asg Hnd Hno; [unfold placed_on, count_of; cbn; lia|].
  cbn in Hnd. apply NoDup_cons in Hnd as [Ht Hnd]. cbn [foldl]. rewrite IH; [|done|].
  - unfold assign_table; cbn [fst snd]. rewrite arrivals_insert by (apply Hno; by left).
    unfold placed_on. rewrite fmap_cons. unfold prod_map at 2; cbn [fst snd]. rewrite count_of_cons. lia.
  - intros x Hx. unfold assign_table; cbn [fst snd]. rewrite lookup_insert_ne by (by intros ->). apply Hno. by right.
Qed.

Section drained.
Context `{MapOrder} `{Outside} (c : string) (members : gmap string Member) (asg : gmap string string) (d : string) (m : Member).
Hypothesis Hre : reachable members.
Hypothesis Hfew : few (size asg).
Hypothesis Hplain : forall t, t ∈ dom asg -> plain t.
Hypothesis Hm : members !! d = Some m.

Let ts := held_now c asg d.
Let ms := populateLoads members (range (lock_table c asg)).
Let others := delete d ms.
Let placed := place ts others.
Let asg1 := foldl (fun a t => delete t a) asg ts.
Let asg2 := foldl assign_table asg1 placed.

Lemma elem_of_ts t : t ∈ ts <-> asg !! t = Some d.
Proof. by apply elem_of_held_now. Qed.

Lemma asg1_lookup t : asg1 !! t = if decide (asg !! t = Some d) then None else asg !! t.
Proof.
  unfold asg1. rewrite foldl_delete_lookup. destruct (decide (t ∈ ts)) as [Ht|Ht]; rewrite elem_of_ts in Ht.
  - by rewrite decide_True.
  - by rewrite decide_False.
Qed.

Lemma others_lookup id : others !! id = if decide (id = d) then None else (fun x => with_locks x (held_now c asg id)) <$> members !! id.
Proof.
  unfold others, ms. case_decide as Hid; [subst; apply lookup_delete_eq|].
  rewrite lookup_delete_ne by done. apply populate_locks; [done..|]. apply (re_keyed _ Hre).
Qed.

Lemma arrivals_le id : arrivals id asg <= Z.of_nat (size asg).
Proof. rewrite arrivals_count. pose proof (count_of_bound id (map_to_list asg)). rewrite length_map_to_list in *. lia. Qed.

Lemma others_load id x : others !! id = Some x -> m_ID x = id /\ m_Load x = arrivals id asg.
Proof.
  rewrite others_lookup. case_decide; [done|]. destruct (members !! id) as [x0|] eqn:Hx; [|done]. intros [= <-]. cbn.
  split; [apply (re_keyed _ Hre _ _ Hx)|]. by apply length_held_now.
Qed.

Lemma others_placeable : (exists id, id <> d /\ is_Some (members !! id)) -> placeable (length ts) others.
Proof.
  intros (id & Hid & [x Hx]). split.
  - intros He. pose proof (others_lookup id) as Hl. rewrite He, lookup_empty, decide_False, Hx in Hl by done. done.
  - intros i y Hy. destruct (others_load i y Hy) as [Hi Hl]. split; [done|]. rewrite Hl.
    pose proof (length_held_now c asg Hplain d) as Hd. fold ts in Hd. pose proof (arrivals_le i). pose proof (arrivals_le d).
    unfold few in Hfew. split; [unfold arrivals; lia|lia].
Qed.

Hypothesis Hother : exists id, id <> d /\ is_Some (members !! id).

Lemma placed_fst : placed.*1 = ts.
Proof. apply (place_spec ts others). by apply others_placeable. Qed.

Lemma placed_nodup : NoDup placed.*1.
Proof. rewrite placed_fst. by apply held_now_nodup. Qed.

Lemma placed_known t x : (t, x) ∈ placed -> known members x /\ m_ID x <> d.
Proof.
  intros Hx. destruct (proj2 (place_spec ts others (others_placeable Hother)) _ _ Hx) as (x0 & Hx0 & Ha & Hl).
  rewrite others_lookup in Hx0. case_decide; [done|]. split; [|done].
  destruct (members !! m_ID x) as [y|] eqn:Hy; [|done]. injection Hx0 as <-. exists y. done.
Qed.

Lemma placed_on_spec t : t ∈ ts -> exists x, (t, x) ∈ placed.
Proof. rewrite <-placed_fst. intros ([t' x] & -> & Hx)%list_elem_of_fmap. eauto. Qed.

Lemma asg2_lookup t :
  (asg !! t <> Some d -> asg2 !! t = asg !! t) /\
  (asg !! t = Some d -> exists id, asg2 !! t = Some id /\ id <> d /\ is_Some (members !! id)).
Proof.
  unfold asg2. rewrite assign_tables_lookup by apply placed_nodup. split; intros Ht.
  - rewrite not_elem_of_list_to_map_1, asg1_lookup, decide_False; [done..|]. rewrite placed_fst. by rewrite elem_of_ts.
  - destruct (placed_on_spec t) as [x Hx]; [by apply elem_of_ts|].
    rewrite (elem_of_list_to_map_1 _ _ _ placed_nodup Hx). exists (m_ID x).
    destruct (placed_known t x Hx) as [(x0 & Hx0 & _) Hd]. eauto.
Qed.

Lemma asg2_arrivals i : i <> d -> arrivals i asg2 = arrivals i asg + placed_on i placed.
Proof.
  intros Hi. unfold asg2. rewrite arrivals_placed; [|apply placed_nodup|].
  - f_equal. apply arrivals_ext. intros t. rewrite asg1_lookup. case_decide as Ht; [rewrite Ht|done]. split; [done|congruence].
  - intros t. rewrite placed_fst, elem_of_ts, asg1_lookup. intros Ht. by rewrite decide_True.
Qed.

Lemma ts_named : Forall (fun t => t <> "") ts.
Proof. apply Forall_forall. intros t Ht%elem_of_ts. apply Hplain, elem_of_dom. eauto. Qed.

Lemma drain_delivered W :
  ts <> [] -> agrees members W asg ->
  agrees members (foldl (deliver members) W (CallPost (assign_url m) (mkAssignment [] ts) :: omap post_of placed)) asg2.
Proof.
  intros Hts Hag. cbn [foldl]. apply deliver_posts; [done|apply placed_nodup| |].
  - intros t x Hx. split; [|split].
    + assert (t ∈ ts) as Ht by (rewrite <-placed_fst; apply list_elem_of_fmap; by exists (t, x)).
      by apply (proj1 (Forall_forall _ _) ts_named).
    + by destruct (placed_known t x Hx).
    + assert (t ∈ ts) as Ht%elem_of_ts by (rewrite <-placed_fst; apply list_elem_of_fmap; by exists (t, x)).
      rewrite asg1_lookup. by rewrite decide_True.
  - apply (deliver_unassign members Hre W asg d m ts Hm Hts ts_named); [|done]. intros t. apply elem_of_ts.
Qed.
End drained.

(** C7: draining a member that holds targets, with another member to take
    them and every request accepted: once the requests are delivered the
    members' tables are those of a table in which each of its targets is on
    another live member and no other target has moved; and the others end up
    as evenly loaded as they were, or within one of each other. *)
Theorem drain_spec `{MapOrder} `{Outside} (c : string) (members : gmap string Member) (asg : gmap string string)
    (d t0 : string) h :
  reachable members -> few (size asg) -> (forall t, t ∈ dom asg -> plain t) ->
  is_Some (members !! d) -> asg !! t0 = Some d -> (exists id, id <> d /\ is_Some (members !! id)) ->
  Locker_List h (targetsLockPrefix c) = Some (lock_table c asg) -> (forall h r, accepted h r = true) ->
  exists calls asg', DrainMember c members d h = (Ok (), h ++ CallList (targetsLockPrefix c) :: calls) /\
    (forall W, agrees members W asg -> agrees members (foldl (deliver members) W calls) asg') /\
    (forall t, asg !! t <> Some d -> asg' !! t = asg !! t) /\
    (forall t, asg !! t = Some d -> exists id, asg' !! t = Some id /\ id <> d /\ is_Some (members !! id)) /\
    forall D, 1 <= D ->
      (forall i j, i <> d -> j <> d -> is_Some (members !! i) -> is_Some (members !! j) -> arrivals i asg <= arrivals j asg + D) ->
      forall i j, i <> d -> j <> d -> is_Some (members !! i) -> is_Some (members !! j) -> arrivals i asg' <= arrivals j asg' + D.
Proof.
  intros Hre Hfew Hplain [m Hm] Ht0 Hother Hlocks Hacc.
  set (ts := held_now c asg d). set (ms := populateLoads members (range (lock_table c asg))).
  set (placed := place ts (delete d ms)).
  exists (CallPost (assign_url m) (mkAssignment [] ts) :: omap post_of placed).
  exists (foldl assign_table (foldl (fun a t => delete t a) asg ts) placed).
  assert (ts <> []) as Hts.
  { assert (t0 ∈ ts) as Hin by (by apply elem_of_held_now). by destruct ts; [apply elem_of_nil in Hin|]. }
  assert (ms !! d = Some (with_locks m ts)) as Hmsd.
  { unfold ms. rewrite populate_locks by (done || apply (re_keyed _ Hre)). by rewrite Hm. }
  split; [|split; [|split; [|split]]].
  - unfold DrainMember. rewrite bind_run, (GetMembers_run c members h asg) by (done || intros ->; done).
    fold ms. rewrite Hmsd. cbn [m_Targets with_locks]. replace (nilb ts) with false by (by destruct ts).
    rewrite bind_run. unfold Unassign. cbn [m_Address with_locks].
    rewrite (proj2 (String.eqb_neq _ _)) by (by eapply re_addr).
    rewrite request_run, Hacc, reassign_run by done. by rewrite <-!app_assoc.
  - intros W Hag. by apply drain_delivered.
  - intros t. by apply asg2_lookup.
  - intros t. by apply asg2_lookup.
  - intros D HD Hs i j Hi Hj [mi Hmi] [mj Hmj].
    pose proof (asg2_arrivals c members asg d Hre Hfew Hplain Hother) as Ha.
    fold ts ms placed in Ha. rewrite !Ha by done.
    pose proof (others_lookup c members asg d Hre Hfew Hplain) as Hol.
    assert (forall k mk, k <> d -> members !! k = Some mk -> delete d ms !! k = Some (with_locks mk (held_now c asg k))) as Hk.
    { intros k mk Hk Hmk. unfold ms. rewrite Hol, decide_False, Hmk by done. done. }
    pose proof (place_balanced D ts (delete d ms) HD) as Hb.
    rewrite <-(length_held_now c asg Hplain i), <-(length_held_now c asg Hplain j).
    refine (Hb _ _ i j _ _ (Hk i mi Hi Hmi) (Hk j mj Hj Hmj)); [by apply others_placeable|].
    intros i' j' mi' mj' Hi' Hj'.
    assert (forall k mk, delete d ms !! k = Some mk -> k <> d /\ is_Some (members !! k) /\ m_Load mk = arrivals k asg) as Hback.
    { intros k mk Hmk. destruct (others_load c members asg d Hre Hfew Hplain k mk Hmk) as [_ Hl].
      unfold ms in Hmk. rewrite Hol in Hmk. case_decide; [done|]. destruct (members !! k); [by eauto|done]. }
    destruct (Hback _ _ Hi') as (? & ? & ->), (Hback _ _ Hj') as (? & ? & ->). by apply Hs.
Qed.

(** Members with pairwise different addresses are reachable. *)
Lemma reachable_flat (members : gmap string Member) :
  keyed members -> map_Forall (fun _ m => negb (String.eqb (m_Address m) "") = true) members ->
  NoDup ((fun im => assign_url im.2) <$> map_to_list members) -> reachable members.
Proof.
  intros Hk Ha Hnd. split; [done| |].
  - intros id m Hm. specialize (Ha id m Hm). by apply negb_true_iff, String.eqb_neq in Ha.
  - intros id1 id2 m1 m2 H1%elem_of_map_to_list H2%elem_of_map_to_list Hu.
    apply list_elem_of_lookup in H1 as [i1 Hi1], H2 as [i2 Hi2].
    assert (i1 = i2) as ->; [|congruence].
    apply (NoDup_lookup _ _ _ (assign_url m1) Hnd).
    + by rewrite list_lookup_fmap, Hi1.
    + rewrite list_lookup_fmap, Hi2. change (Some (assign_url m2) = Some (assign_url m1)). by rewrite Hu.
Qed.

Definition ex_three : gmap string Member := {["a" := ex_member "a" []; "b" := ex_member "b" []; "c" := ex_member "c" []]}.
Definition ex_three_locks : gmap string string := {["r1" := "a"; "r2" := "a"; "r3" := "a"; "r4" := "b"]}.

Lemma ex_three_reachable : reachable ex_three.
Proof.
  apply reachable_flat.
  - unfold keyed, ex_three. map_all.
  - unfold ex_three. map_all.
  - apply (bool_decide_unpack _). vm_compute. exact I.
Defined.
Lemma ex_three_plain t : t ∈ dom ex_three_locks -> plain t.
Proof.
  intros [v Hv]%elem_of_dom. unfold ex_three_locks in Hv.
  repeat (apply lookup_insert_Some in Hv as [[<- _]|[_ Hv]]; [split; [discriminate|reflexivity]|]).
  apply lookup_singleton_Some in Hv as [<- _]. split; [discriminate|reflexivity].
Defined.

Lemma drain_spec_witness :
  let O := steady [] (lock_table "c1" ex_three_locks) 200 in
  exists calls asg', DrainMember (H := order_bwd) (H0 := O) "c1" ex_three "a" [] = (Ok (), CallList "gnmic/c1/targets" :: calls) /\
    (forall W, agrees ex_three W ex_three_locks -> agrees ex_three (foldl (deliver ex_three) W calls) asg') /\
    (exists id, asg' !! "r1" = Some id /\ id <> "a") /\ asg' !! "r4" = Some "b" /\
    length calls = 4%nat.
Proof.
  cbn zeta. set (O := steady _ _ _).
  destruct (drain_spec (H := order_bwd) (H0 := O) "c1" ex_three ex_three_locks "a" "r1" [])
    as (calls & asg' & Hrun & Hdel & Hkeep & Hmove & _).
  - exact ex_three_reachable.
  - vm_compute. reflexivity.
  - exact ex_three_plain.
  - eexists. vm_compute. reflexivity.
  - vm_compute. reflexivity.
  - exists "b". split; [discriminate|]. eexists. vm_compute. reflexivity.
  - reflexivity.
  - reflexivity.
  - exists calls, asg'. split; [exact Hrun|]. split; [exact Hdel|]. split; [|split].
    + destruct (Hmove "r1") as (id & Hid & Hd & _); [vm_compute; reflexivity|]. exists id. split; [exact Hid|exact Hd].
    + rewrite Hkeep; [vm_compute; reflexivity|vm_compute; discriminate].
    + assert (length (snd (DrainMember (H := order_bwd) (H0 := O) "c1" ex_three "a" [])) = 5%nat) as E by (vm_compute; reflexivity).
      rewrite Hrun in E. cbn in E. lia.
Defined.

(** ** A deleted target *)

(** The member the target's lock names, if any. *)
Definition lock_holder `{Outside} (c : string) (members : gmap string Member) (target : string) (h : list call) : option Member :=
  locks ← Locker_List h (targetLockKey target c);
  id ← locks !! targetLockKey target c;
  if String.eqb id "" then None else members !! id.

Lemma targetLockHolder_run `{Outside} c members t h :
  targetLockHolder c members t h = (Ok (lock_holder c members t h), h ++ [CallList (targetLockKey t c)]).
Proof.
  unfold targetLockHolder, lock_holder. rewrite bind_run. unfold holder.
  destruct (Locker_List h (targetLockKey t c)) as [l|]; [|done]. cbn [mbind option_bind mret cm_ret]. by destruct (l !! targetLockKey t c).
Qed.

(** Deleting a target: when no member holds its lock that is the error and
    nothing is sent; otherwise the holder is asked to give it up and then every
    other member, and not the holder, to delete it; the requests stop at the
    first refused, which is the error, and the call succeeds exactly when all
    were sent and accepted. *)
Theorem handleTargetDelete_spec `{MapOrder} `{Outside} (c : string) (members : gmap string Member) (t : string) h :
  keyed members ->
  let list := CallList (targetLockKey t c) in
  (lock_holder c members t h = None ->
   handleTargetDelete c members t h = (Err errNotAssigned, h ++ [list])) /\
  (forall m, lock_holder c members t h = Some m -> m_Address m <> "" ->
   exists dels sent rest r,
     dels ≡ₚ (fun im : string * Member => CallDelete (delete_url im.2 t)) <$> map_to_list (delete (m_ID m) members) /\
     CallPost (assign_url m) (mkAssignment [] [t]) :: dels = sent ++ rest /\
     handleTargetDelete c members t h = (r, h ++ list :: sent) /\
     (r = Ok () /\ rest = [] \/
      exists e pre last, r = Err e /\ sent = pre ++ [last] /\ accepted (h ++ list :: pre) last = false)).
Proof.
  intros Hk list. split.
  - intros Hn. unfold handleTargetDelete. by rewrite bind_run, targetLockHolder_run, Hn.
  - intros m Hm Ha. set (dels := (fun m => CallDelete (delete_url m t)) <$> (range (delete (m_ID m) members)).*2).
    assert (handleTargetDelete c members t h = match request (CallPost (assign_url m) (mkAssignment [] [t])) errUnassign (h ++ [list]) with
      | (Ok _, h') => send_all errDelete dels h' | (Err e, h') => (Err e, h') | (Panic, h') => (Panic, h') end) as Hrun.
    { unfold handleTargetDelete. rewrite bind_run, targetLockHolder_run, Hm. rewrite bind_run. unfold Unassign.
      rewrite (proj2 (String.eqb_neq _ _)) by done. destruct (request _ _ _) as [[[]| |] h']; [by rewrite delete_send|done..]. }
    assert (dels ≡ₚ (fun im : string * Member => CallDelete (delete_url im.2 t)) <$> map_to_list (delete (m_ID m) members)) as Hd.
    { unfold dels. rewrite <-list_fmap_compose, range_perm. done. }
    rewrite request_run in Hrun. destruct (accepted (h ++ [list]) _) eqn:Hacc.
    + destruct (send_all_run errDelete dels ((h ++ [list]) ++ [CallPost (assign_url m) (mkAssignment [] [t])]))
        as (sent & rest & Hs & [[Hr Hnil]|(pre & last & Hsent & Hr & Hl)]); rewrite Hr, <-!app_assoc in Hrun.
      * exists dels, (CallPost (assign_url m) (mkAssignment [] [t]) :: sent), rest. eexists. split; [done|].
        split; [by rewrite Hs|]. split; [exact Hrun|]. by left.
      * exists dels, (CallPost (assign_url m) (mkAssignment [] [t]) :: sent), rest. eexists. split; [done|].
        split; [by rewrite Hs|]. split; [exact Hrun|]. right.
        exists errDelete, (CallPost (assign_url m) (mkAssignment [] [t]) :: pre), last. split; [done|].
        split; [by rewrite Hsent|]. by rewrite <-!app_assoc in Hl.
    + exists dels, [CallPost (assign_url m) (mkAssignment [] [t])], dels. eexists. split; [done|]. split; [done|].
      rewrite <-app_assoc in Hrun. split; [exact Hrun|]. right.
      exists errUnassign, [], (CallPost (assign_url m) (mkAssignment [] [t])). split; [done|]. split; [done|]. done.
Qed.

Lemma handleTargetDelete_spec_witness :
  let O := steady [] (lock_table "c1" ex_three_locks) 200 in
  exists dels sent rest r,
    dels ≡ₚ (fun im : string * Member => CallDelete (delete_url im.2 "r4")) <$> map_to_list (delete "b" ex_three) /\
    handleTargetDelete (H := order_fwd) (H0 := O) "c1" ex_three "r4" []
      = (r, CallList "gnmic/c1/targets/r4" :: sent) /\
    CallPost "http://b:7890/api/v1/assignments" (mkAssignment [] ["r4"]) :: dels = sent ++ rest /\ r = Ok ().
Proof.
  cbn zeta. set (O := steady _ _ _).
  destruct (handleTargetDelete_spec (H := order_fwd) (H0 := O) "c1" ex_three "r4" []) as [_ Hheld].
  - exact (re_keyed _ ex_three_reachable).
  - destruct (Hheld (ex_member "b" [])) as (dels & sent & rest & r & Hd & Hs & Hrun & _).
    + vm_compute. reflexivity.
    + discriminate.
    + exists dels, sent, rest, r. split; [exact Hd|]. split; [exact Hrun|]. split; [exact Hs|].
      assert (fst (handleTargetDelete (H := order_fwd) (H0 := O) "c1" ex_three "r4" []) = Ok ()) as E by (vm_compute; reflexivity).
      rewrite Hrun in E. exact E.
Defined.
