(* ===== verification/Spread.v ===== *)
(** * Rebalancing, end to end (pkg/collector/managers/cluster/rebalance.go)

    [RebalanceTargetsV2] reads the members, computes the plan (Rebalance.v) and
    carries it out by unassigning each moved target from its owner and
    assigning it to its new member. Delivered to the members (Leader.v), the
    requests leave every live member with exactly its quota. *)

From S2P Require Import Prelude GoStrings Utf8 GoVal Placement Rebalance Manager Follower Leader.
From stdpp Require Import strings.

#[local] Open Scope Z_scope.
#[local] Arguments wrap : simpl never.

(** ** Owners and groups *)

Definition owned (im : string * Member) : list (string * string) := (fun t => (t, im.1)) <$> m_Targets im.2.

Lemma owners_flat `{MapOrder} (ms : gmap string Member) :
  owners ms = foldl (fun (a : gmap string string) kv => <[kv.1 := kv.2]> a) ∅ (range ms ≫= owned).
Proof.
  unfold owners. generalize (∅ : gmap string string) as acc. generalize (range ms) as l.
  induction l as [|im l IH]; intros acc; [done|]. cbn [foldl].
  change ((im :: l) ≫= owned) with (owned im ++ (l ≫= owned)). rewrite foldl_app, IH. f_equal.
  unfold owned. by rewrite foldl_fmap.
Qed.

Lemma owned_fst l : (l ≫= owned).*1 = all_targets l.
Proof.
  induction l as [|im l IH]; [done|].
  change ((im :: l) ≫= owned) with (owned im ++ (l ≫= owned)). rewrite fmap_app, IH.
  change (all_targets (im :: l)) with (m_Targets im.2 ++ all_targets l). f_equal.
  unfold owned. rewrite <-list_fmap_compose. cbn. apply list_fmap_id.
Qed.

Lemma all_targets_nodup (ms : gmap string Member) (l : list (string * Member)) :
  holders_ok ms -> NoDup l.*1 -> (forall id m, (id, m) ∈ l -> ms !! id = Some m) -> NoDup (all_targets l).
Proof.
  intros [_ Hnd Hone]. induction l as [|[id m] l IH]; intros Hl Hin; [constructor|].
  change (all_targets ((id, m) :: l)) with (m_Targets m ++ all_targets l). cbn in Hl. apply NoDup_cons in Hl as [Hid Hl].
  apply NoDup_app. split; [|split].
  - eapply Hnd. apply Hin. by left.
  - intros t Ht ([id' m'] & Ht' & Hm')%list_elem_of_bind. apply Hid. apply list_elem_of_fmap. exists (id', m').
    split; [|done]. cbn in *. eapply Hone; [..|exact Ht|exact Ht']; apply Hin; [by left|by right].
  - apply IH; [done|]. intros id' m' Hm'. apply Hin. by right.
Qed.

Lemma owners_lookup `{MapOrder} (ms : gmap string Member) t id :
  holders_ok ms -> owners ms !! t = Some id <-> exists m, ms !! id = Some m /\ t ∈ m_Targets m.
Proof.
  intros Hok. assert (NoDup (range ms ≫= owned).*1) as Hnd.
  { rewrite owned_fst. apply (all_targets_nodup ms); [done|apply NoDup_range_fst|]. intros i m. apply elem_of_range. }
  rewrite owners_flat, foldl_insert_list_to_map, (right_id_L ∅ (∪)) by done.
  rewrite <-elem_of_list_to_map by done. rewrite list_elem_of_bind. split.
  - intros ([i m] & (t' & [= -> ->] & Ht)%list_elem_of_fmap & Hm%elem_of_range). eauto.
  - intros (m & Hm & Ht). exists (id, m). rewrite elem_of_range. split; [|done].
    apply list_elem_of_fmap. eauto.
Qed.

(** Grouping a list by a key. *)
Lemma group_lookup {A} (key val : A -> string) (l : list A) (g : gmap string (list string)) k :
  foldl (fun g x => group_add (key x) (val x) g) g l !! k =
  let f := val <$> filter (fun x => key x = k) l in
  if nilb f then g !! k else Some (default [] (g !! k) ++ f).
Proof.
  revert g; induction l as [|x l IH]; intros g; cbn [foldl]; [done|]. rewrite IH, filter_cons. unfold group_add.
  destruct (decide (key x = k)) as [<-|Hne].
  - rewrite lookup_insert_eq. cbv zeta. rewrite fmap_cons. cbn [nilb from_option id].
    destruct (val <$> filter (fun y => key y = key x) l); cbn [nilb]; [done|]. by rewrite <-app_assoc.
  - by rewrite lookup_insert_ne by done.
Qed.

Lemma group_elem {A} (key val : A -> string) (l : list A) k ts :
  foldl (fun g x => group_add (key x) (val x) g) ∅ l !! k = Some ts ->
  ts <> [] /\ ts = val <$> filter (fun x => key x = k) l.
Proof.
  rewrite group_lookup, lookup_empty. cbn. destruct (val <$> filter (fun x => key x = k) l) eqn:E; cbn; [done|].
  by intros [= <-].
Qed.

(** ** Delivering unassignments *)

Lemma deliver_unassigns members W asg (l : list (string * list string)) :
  reachable members -> NoDup l.*1 ->
  (forall src ts, (src, ts) ∈ l -> is_Some (members !! src) /\ ts <> [] /\ Forall (fun t => t <> "") ts /\
    forall t, t ∈ ts -> asg !! t = Some src) ->
  agrees members W asg ->
  agrees members
    (foldl (deliver members) W ((fun st => CallPost (from_option assign_url "" (members !! st.1)) (mkAssignment [] st.2)) <$> l))
    (foldl (fun a st => foldl (fun a t => delete t a) a st.2) asg l).
Proof.
  intros Hre. revert W asg; induction l as [|[src ts] l IH]; intros W asg Hnd Hall Hag; [done|].
  cbn in Hnd. apply NoDup_cons in Hnd as [Hsrc Hnd]. rewrite fmap_cons. cbn [foldl fst snd].
  destruct (Hall src ts) as ([m Hm] & Hts & Hne & Hheld); [by left|]. rewrite Hm. cbn [from_option].
  apply IH; [done| |by apply (deliver_unassign members Hre W asg src m ts)].
  intros src' ts' Hin. destruct (Hall src' ts') as (? & ? & ? & Hheld'); [by right|]. do 3 (split; [done|]).
  intros t Ht. rewrite foldl_delete_lookup, decide_False; [by apply Hheld'|].
  intros Ht'. apply Hsrc. rewrite list_elem_of_fmap. exists (src', ts'). split; [|done]. cbn.
  apply Hheld in Ht'. apply Hheld' in Ht. congruence.
Qed.

Lemma unassigns_lookup (asg : gmap string string) (l : list (string * list string)) t :
  foldl (fun (a : gmap string string) st => foldl (fun a t => delete t a) a st.2) asg l !! t =
  if decide (t ∈ l ≫= snd) then None else asg !! t.
Proof.
  revert asg; induction l as [|[src ts] l IH]; intros asg; [done|]. cbn [foldl fst snd].
  rewrite IH, foldl_delete_lookup. change (((src, ts) :: l) ≫= snd) with (ts ++ (l ≫= snd)).
  destruct (decide (t ∈ l ≫= snd)), (decide (t ∈ ts)); rewrite ?decide_True by (rewrite elem_of_app; tauto); try done.
  rewrite decide_False; [done|]. rewrite elem_of_app. tauto.
Qed.

(** ** The table after a plan *)

Lemma arrivals_moved id (plan asg : gmap string string) m :
  (forall t, t ∈ m_Targets m <-> asg !! t = Some id) -> NoDup (m_Targets m) ->
  arrivals id (plan ∪ asg) = kept_by plan m + arrivals id plan.
Proof.
  intros Hm Hnd. unfold kept_by. rewrite !arrivals_count, <-!length_held.
  rewrite <-Nat2Z.inj_add, <-length_app. f_equal. apply Permutation_length, NoDup_Permutation.
  - unfold held. eapply sublist_NoDup; [apply (NoDup_fst_map_to_list (plan ∪ asg))|]. apply fmap_sublist, sublist_filter.
  - apply NoDup_app. split; [by apply NoDup_filter|]. split.
    + intros t [Ht _]%list_elem_of_filter. rewrite elem_of_held, elem_of_map_to_list. by rewrite Ht.
    + unfold held. eapply sublist_NoDup; [apply (NoDup_fst_map_to_list plan)|]. apply fmap_sublist, sublist_filter.
  - intros t. rewrite elem_of_app, !elem_of_held, !elem_of_map_to_list, list_elem_of_filter, Hm, lookup_union_Some_raw.
    tauto.
Qed.

Lemma quota_keys `{MapOrder} {V W} (m1 : gmap string V) (m2 : gmap string W) total :
  dom m1 = dom m2 -> calculateMembersQuota m1 total = calculateMembersQuota m2 total.
Proof.
  intros Hd.
  assert ((range m1).*1 ≡ₚ (range m2).*1) as Hp.
  { apply NoDup_Permutation; [apply NoDup_range_fst..|]. intros x.
    assert (forall {U} (m : gmap string U), x ∈ (range m).*1 <-> x ∈ dom m) as He.
    { intros U m. rewrite list_elem_of_fmap, elem_of_dom. split.
      - intros ([k v] & -> & Hk%elem_of_range). eauto.
      - intros [v Hv]. exists (x, v). by rewrite elem_of_range. }
    by rewrite !He, Hd. }
  assert (size m1 = size m2) as Hs by (by rewrite <-!length_range, <-!(length_fmap fst), Hp).
  unfold calculateMembersQuota. rewrite Hs. destruct (total =? 0).
  - f_equal. apply map_eq. intros x. rewrite !lookup_fmap.
    pose proof (elem_of_dom m1 x) as H1. pose proof (elem_of_dom m2 x) as H2.
    destruct (m1 !! x), (m2 !! x); try done; exfalso; rewrite Hd in H1; naive_solver.
  - destruct (size m2 =? 0)%nat; [done|]. cbn zeta. do 3 f_equal. by apply sort_strings_det.
Qed.

(** ** Carrying out a plan *)

Section carried.
Context `{MapOrder} `{Outside} `{Shuffle} (c : string) (members : gmap string Member) (asg plan : gmap string string).
Hypothesis Hre : reachable members.
Hypothesis Hfew : few (size asg).
Hypothesis Hplain : forall t, t ∈ dom asg -> plain t.

Let ms := populateLoads members (range (lock_table c asg)).

Hypothesis Hsound : forall t dst, plan !! t = Some dst ->
  exists src m, ms !! src = Some m /\ t ∈ m_Targets m /\ src <> dst /\ is_Some (ms !! dst).

Let removeBySrc := foldl (fun g td => group_add (default "" (owners ms !! td.1)) td.1 g) ∅ (range plan).
Let addByDst := foldl (fun g td => group_add td.2 td.1 g) ∅ (range plan).

Lemma ms_lookup id : ms !! id = (fun m => with_locks m (held_now c asg id)) <$> members !! id.
Proof. apply populate_locks; [done..|apply (re_keyed _ Hre)]. Qed.

Lemma ms_member id m : ms !! id = Some m ->
  m_ID m = id /\ known members m /\ forall t, t ∈ m_Targets m <-> asg !! t = Some id.
Proof.
  rewrite ms_lookup. destruct (members !! id) as [m0|] eqn:Hm; [|done]. intros [= <-].
  destruct (re_keyed _ Hre _ _ Hm) as [Hid _]. split; [done|]. split; [exists m0; cbn; by rewrite Hid|].
  intros t. by apply elem_of_held_now.
Qed.

Lemma owners_asg t id : owners ms !! t = Some id <-> asg !! t = Some id /\ is_Some (members !! id).
Proof.
  rewrite owners_lookup by (apply populate_ok; [done..|apply (re_keyed _ Hre)]). split.
  - intros (m & Hm & Ht). split; [by apply (ms_member id m Hm)|]. rewrite ms_lookup in Hm. by destruct (members !! id).
  - intros [Ht [m Hm]]. exists (with_locks m (held_now c asg id)). rewrite ms_lookup, Hm. split; [done|].
    by apply elem_of_held_now.
Qed.

Lemma plan_owner t dst : plan !! t = Some dst ->
  exists src x, owners ms !! t = Some src /\ src <> dst /\ ms !! dst = Some x /\ m_ID x = dst.
Proof.
  intros Ht. destruct (Hsound t dst Ht) as (src & m & Hm & Htm & Hne & [x Hx]). exists src, x.
  split; [|split; [done|split; [done|by apply (ms_member dst x)]]].
  apply owners_asg. split; [by apply (ms_member src m Hm)|]. rewrite ms_lookup in Hm. by destruct (members !! src).
Qed.

Lemma deltas : foldl (delta_step ms (owners ms)) (∅, ∅) (range plan) = (removeBySrc, addByDst).
Proof.
  unfold removeBySrc, addByDst.
  rewrite <-(foldl_pair (fun g td => group_add (default "" (owners ms !! td.1)) td.1 g) (fun g td => group_add td.2 td.1 g)
    (fun st (td : string * string) => (group_add (default "" (owners ms !! td.1)) td.1 st.1, group_add td.2 td.1 st.2))) by done.
  assert (forall t dst, (t, dst) ∈ range plan -> plan !! t = Some dst) as Hin by (intros t dst; apply elem_of_range).
  revert Hin. generalize (range plan). generalize (∅ : gmap string (list string)) at 1 3 as g1.
  generalize (∅ : gmap string (list string)) as g2.
  intros g2 g1 l. revert g1 g2; induction l as [|[t dst] l IH]; intros g1 g2 Hin; [done|]. cbn [foldl].
  destruct (plan_owner t dst) as (src & x & Ho & Hne & Hx & Hid); [apply Hin; by left|].
  assert (delta_step ms (owners ms) (g1, g2) (t, dst) = (group_add src t g1, group_add dst t g2)) as ->.
  { unfold delta_step; cbn [fst snd]. rewrite Ho, Hx. cbn [from_option]. rewrite Hid.
    by rewrite (proj2 (String.eqb_neq _ _)). }
  cbn [fst snd]. rewrite Ho. cbn [default from_option id]. apply IH. intros t' dst' Hin'. apply Hin. by right.
Qed.

(** What is removed from each member. *)
Lemma removed_entry src ts : (src, ts) ∈ range removeBySrc ->
  is_Some (members !! src) /\ ts <> [] /\ Forall (fun t => t <> "") ts /\
  forall t, t ∈ ts -> asg !! t = Some src /\ is_Some (plan !! t).
Proof.
  intros [Hts ->]%elem_of_range%group_elem.
  assert (forall t, t ∈ fst <$> filter (fun td : string * string => default "" (owners ms !! td.1) = src) (range plan) ->
    asg !! t = Some src /\ is_Some (members !! src) /\ is_Some (plan !! t)) as Hall.
  { intros t ([t' dst] & -> & [Ho Hp%elem_of_range]%list_elem_of_filter)%list_elem_of_fmap. cbn in *.
    destruct (plan_owner t' dst Hp) as (src' & _ & Ho' & _). rewrite Ho' in Ho. cbn in Ho. subst src'.
    apply owners_asg in Ho' as [? ?]. eauto. }
  split; [|split; [done|split]].
  - destruct (fst <$> _) as [|t l]; [done|]. apply (Hall t). by left.
  - apply Forall_forall. intros t [Ht _]%Hall. apply Hplain, elem_of_dom. eauto.
  - intros t (? & _ & ?)%Hall. done.
Qed.

Lemma removed_all t : t ∈ range removeBySrc ≫= snd <-> is_Some (plan !! t).
Proof.
  rewrite list_elem_of_bind. split.
  - intros ([src ts] & Ht & Hin). by apply (removed_entry src ts Hin).
  - intros [dst Ht]. destruct (plan_owner t dst Ht) as (src & _ & Ho & _).
    set (ts := fst <$> filter (fun td : string * string => default "" (owners ms !! td.1) = src) (range plan)).
    assert (t ∈ ts) as Hts.
    { apply list_elem_of_fmap. exists (t, dst). split; [done|]. apply list_elem_of_filter. cbn. rewrite Ho.
      split; [done|]. by apply elem_of_range. }
    exists (src, ts). split; [done|]. apply elem_of_range. unfold removeBySrc. rewrite group_lookup, lookup_empty. cbn.
    fold ts. destruct ts; [by apply elem_of_nil in Hts|done].
Qed.

(** What is added to each member. *)
Definition adds (dt : string * list string) : list (string * Member) :=
  match ms !! dt.1 with
  | Some m => range (list_to_map ((fun t => (t, m)) <$> dt.2) : gmap string Member)
  | None => []
  end.

Lemma elem_of_adds dst ts t x : (t, x) ∈ adds (dst, ts) <-> ms !! dst = Some x /\ t ∈ ts.
Proof.
  unfold adds; cbn. destruct (ms !! dst) as [m|].
  - rewrite elem_of_range. assert (forall l : list string, (list_to_map ((fun t => (t, m)) <$> l) : gmap string Member) !! t
      = if decide (t ∈ l) then Some m else None) as ->.
    { induction l as [|y l IH]; [cbn; by rewrite lookup_empty|]. rewrite fmap_cons.
      cbn [list_to_map foldr uncurry fst snd]. destruct (decide (y = t)) as [->|Hne].
      - rewrite lookup_insert_eq, decide_True by (by left). done.
      - rewrite lookup_insert_ne by done. rewrite IH. destruct (decide (t ∈ l)).
        + by rewrite decide_True by (by right).
        + rewrite decide_False; [done|]. by intros [|]%elem_of_cons. }
    case_decide; split; [intros [= ->]; done|intros [[= ->] _]; done|done|by intros [_ ?]].
  - split; [by intros ?%elem_of_nil|by intros [? _]].
Qed.

Let placed := range addByDst ≫= adds.

Lemma elem_of_placed t x : (t, x) ∈ placed <-> exists dst, plan !! t = Some dst /\ ms !! dst = Some x.
Proof.
  unfold placed. rewrite list_elem_of_bind. split.
  - intros ([dst ts] & [Hx Ht]%elem_of_adds & [_ ->]%elem_of_range%group_elem).
    apply list_elem_of_fmap in Ht as ([t' dst'] & -> & [Hd Hp%elem_of_range]%list_elem_of_filter). cbn in *. subst. eauto.
  - intros (dst & Hp & Hx). set (ts := fst <$> filter (fun td : string * string => td.2 = dst) (range plan)).
    assert (t ∈ ts) as Ht.
    { apply list_elem_of_fmap. exists (t, dst). split; [done|]. apply list_elem_of_filter. split; [done|]. by apply elem_of_range. }
    exists (dst, ts). rewrite elem_of_adds, elem_of_range. split; [done|].
    unfold addByDst. rewrite group_lookup, lookup_empty. cbn. fold ts. destruct ts; [by apply elem_of_nil in Ht|done].
Qed.

Lemma placed_once : NoDup placed.*1.
Proof.
  assert (NoDup placed) as Hnd.
  { unfold placed. apply NoDup_bind.
    - intros [d1 t1] [d2 t2] [t x] Hin1 Hin2 [Hx1 _]%elem_of_adds [Hx2 _]%elem_of_adds.
      destruct (ms_member _ _ Hx1) as [E1 _], (ms_member _ _ Hx2) as [E2 _].
      assert (d1 = d2) as -> by congruence. apply elem_of_range in Hin1, Hin2. congruence.
    - intros [dst ts] _. unfold adds; cbn. destruct (ms !! dst); [|constructor].
      apply (NoDup_fmap_1 fst), NoDup_range_fst.
    - apply (NoDup_fmap_1 fst), NoDup_range_fst. }
  apply (NoDup_fmap_2_strong fst); [|done].
  intros [t1 x1] [t2 x2] (d1 & Hp1 & Hx1)%elem_of_placed (d2 & Hp2 & Hx2)%elem_of_placed. cbn. intros ->. congruence.
Qed.

Let asg1 := foldl (fun (a : gmap string string) st => foldl (fun a t => delete t a) a st.2) asg (range removeBySrc).

Lemma carried_table : foldl assign_table asg1 placed = plan ∪ asg.
Proof.
  apply map_eq. intros t. rewrite assign_tables_lookup by apply placed_once.
  destruct (plan !! t) as [dst|] eqn:Hp.
  - destruct (plan_owner t dst Hp) as (_ & x & _ & _ & Hx & Hid).
    rewrite (elem_of_list_to_map_1 _ t x placed_once) by (apply elem_of_placed; eauto).
    rewrite Hid. symmetry. by apply lookup_union_Some_l.
  - rewrite not_elem_of_list_to_map_1.
    + unfold asg1. rewrite unassigns_lookup, decide_False by (rewrite removed_all, Hp; by intros []).
      symmetry. by apply lookup_union_r.
    + intros ([t' x] & -> & (dst & Hp' & _)%elem_of_placed)%list_elem_of_fmap. cbn in *. congruence.
Qed.

Definition carry_calls : list call :=
  ((fun st => CallPost (from_option assign_url "" (members !! st.1)) (mkAssignment [] st.2)) <$> range removeBySrc)
  ++ omap post_of placed.

Lemma carry_delivered W : agrees members W asg -> agrees members (foldl (deliver members) W carry_calls) (plan ∪ asg).
Proof.
  intros Hag. unfold carry_calls. rewrite foldl_app, <-carried_table. apply deliver_posts; [done|apply placed_once| |].
  - intros t x Hx. apply elem_of_placed in Hx as (dst & Hp & Hx). destruct (plan_owner t dst Hp) as (src & _ & Ho & _).
    apply owners_asg in Ho as [Ht _]. split; [apply Hplain, elem_of_dom; eauto|]. split; [by apply (ms_member dst x Hx)|].
    unfold asg1. rewrite unassigns_lookup, decide_True; [done|]. apply removed_all. eauto.
  - apply deliver_unassigns; [done|apply NoDup_range_fst| |done]. intros src ts Hin.
    destruct (removed_entry src ts Hin) as (? & ? & ? & Hall). do 3 (split; [done|]). intros t Ht. by apply Hall.
Qed.
End carried.

Section running.
Context `{MapOrder} `{Outside} `{Shuffle} (c : string) (members : gmap string Member) (asg : gmap string string).
Hypothesis Hre : reachable members.
Hypothesis Hfew : few (size asg).
Hypothesis Hplain : forall t, t ∈ dom asg -> plain t.
Hypothesis Hacc : forall h r, accepted h r = true.

Let ms := populateLoads members (range (lock_table c asg)).

Lemma each_unassign (l : list (string * list string)) h :
  (forall src ts, (src, ts) ∈ l -> is_Some (members !! src)) ->
  cm_each (fun st => match ms !! st.1 with
                     | Some m => cm_try (Unassign m st.2) ≫= fun _ => mret ()
                     | None => mret ()
                     end) l h
  = (Ok (), h ++ ((fun st => CallPost (from_option assign_url "" (members !! st.1)) (mkAssignment [] st.2)) <$> l)).
Proof.
  revert h; induction l as [|[src ts] l IH]; intros h Hin; [cbn; by rewrite app_nil_r|].
  destruct (Hin src ts) as [m Hm]; [by left|]. cbn [cm_each fst snd]. rewrite bind_run.
  unfold ms at 1. rewrite (ms_lookup c members asg Hre Hfew Hplain src), Hm. cbn [fmap option_fmap option_map].
  rewrite bind_run. unfold cm_try, Unassign. cbn [m_Address with_locks].
  rewrite (proj2 (String.eqb_neq _ _)) by (by eapply re_addr). rewrite request_run, Hacc. cbn [mret cm_ret].
  rewrite IH by (intros; eapply Hin; by right). rewrite fmap_cons, <-app_assoc. cbn. by rewrite Hm.
Qed.

Lemma each_assign (l : list (string * list string)) h :
  cm_each (fun dt => match ms !! dt.1 with
                     | Some m => cm_try (Assign (list_to_map ((fun t => (t, m)) <$> dt.2))) ≫= fun _ => mret ()
                     | None => mret ()
                     end) l h
  = (Ok (), h ++ omap post_of (l ≫= adds c members asg)).
Proof.
  revert h; induction l as [|[dst ts] l IH]; intros h; [cbn; by rewrite app_nil_r|].
  cbn [cm_each fst snd]. rewrite bind_run.
  change (((dst, ts) :: l) ≫= adds c members asg) with (adds c members asg (dst, ts) ++ (l ≫= adds c members asg)).
  rewrite omap_app. unfold adds at 1; cbn [fst snd]. fold ms.
  destruct (ms !! dst) as [m|]; [|cbn [mret cm_ret omap list_omap app]; apply IH].
  rewrite bind_run. unfold cm_try. rewrite Assign_send, send_all_accepted by done. cbn [mret cm_ret].
  rewrite IH. by rewrite <-app_assoc.
Qed.

Lemma rebalance_run (plan : gomap string) fuel h :
  members <> ∅ -> Locker_List h (targetsLockPrefix c) = Some (lock_table c asg) ->
  rebalance fuel ms = Some plan ->
  (forall t dst, gm_tab plan !! t = Some dst -> exists src m, ms !! src = Some m /\ t ∈ m_Targets m /\ src <> dst /\ is_Some (ms !! dst)) ->
  RebalanceTargetsV2 c members fuel h
  = (Ok (Some ()), h ++ CallList (targetsLockPrefix c) :: carry_calls c members asg (gm_tab plan)).
Proof.
  intros Hne Hl Hplan Hsound. unfold RebalanceTargetsV2. rewrite bind_run. unfold cm_try at 1.
  rewrite (GetMembers_run c members h asg) by done. fold ms. rewrite Hplan.
  pose proof (deltas c members asg (gm_tab plan) Hre Hfew Hplain Hsound) as Hd. fold ms in Hd.
  pose proof (removed_entry c members asg (gm_tab plan) Hre Hfew Hplain Hsound) as Hrem. fold ms in Hrem.
  destruct (gm_len plan =? 0)%nat eqn:E.
  - apply Nat.eqb_eq in E. unfold gm_len in E. apply map_size_empty_inv in E. rewrite E. unfold carry_calls.
    rewrite range_empty. cbn. by rewrite !range_empty.
  - rewrite Hd. rewrite bind_run, each_unassign; [|intros src ts Hin; by apply (Hrem src ts)].
    rewrite bind_run, each_assign. unfold carry_calls. fold ms. cbn [mret cm_ret]. by rewrite <-!app_assoc.
Qed.
End running.

(** C3: rebalancing a cluster whose locks are [asg], every request accepted,
    with fuel above the number of members plus one: it terminates, and once the
    requests are delivered the members' tables are those of a table with the
    same targets, in which every live member has exactly its quota of the
    targets live members hold, and the targets of members that left are as
    they were. *)
Theorem rebalanceV2_spec `{MapOrder} `{Outside} `{Shuffle} (c : string) (members : gmap string Member)
    (asg : gmap string string) (fuel : nat) h :
  reachable members -> members <> ∅ -> few (size asg) -> (forall t, t ∈ dom asg -> plain t) ->
  (S (size members) < fuel)%nat ->
  Locker_List h (targetsLockPrefix c) = Some (lock_table c asg) -> (forall h r, accepted h r = true) ->
  exists q calls asg',
    calculateMembersQuota members (zsum ((fun id => arrivals id asg) <$> (range members).*1)) = Some q /\
    RebalanceTargetsV2 c members fuel h = (Ok (Some ()), h ++ CallList (targetsLockPrefix c) :: calls) /\
    (forall W, agrees members W asg -> agrees members (foldl (deliver members) W calls) asg') /\
    dom asg' = dom asg /\
    (forall t id, asg !! t = Some id -> members !! id = None -> asg' !! t = Some id) /\
    (forall id, is_Some (members !! id) -> arrivals id asg' = zget q id).
Proof.
  intros Hre Hne Hfew Hplain Hfuel Hl Hacc.
  set (ms := populateLoads members (range (lock_table c asg))).
  pose proof (re_keyed _ Hre) as Hkey.
  assert (dom ms = dom members) as Hdom by (by apply populate_dom).
  assert (size ms = size members) as Hsize by (by rewrite <-!size_dom, Hdom).
  assert (ms <> ∅) as Hmsne by (intros E; apply Hne, dom_empty_inv_L; by rewrite <-Hdom, E, dom_empty_L).
  assert (holders_ok ms) as Hok by (by apply populate_ok).
  destruct (rebalance_plan ms fuel Hmsne Hok) as (q & plan & Hq & Hplan & Hquota & Hsound); [by rewrite Hsize|].
  pose proof (ms_member c members asg Hre Hfew Hplain) as Hmem. fold ms in Hmem.
  exists q, (carry_calls c members asg (gm_tab plan)), (gm_tab plan ∪ asg).
  split; [|split; [|split; [|split; [|split]]]].
  - rewrite <-Hq, (quota_keys ms members _ Hdom). f_equal.
    rewrite <-(ids_loads ms), <-(ids_perm members).
    assert (sort_strings (range ms).*1 = sort_strings (range members).*1) as ->.
    { apply sort_strings_det, NoDup_Permutation; [apply NoDup_range_fst..|]. intros x.
      rewrite <-(ids_perm ms), <-(ids_perm members), !ids_members, <-!elem_of_dom. by rewrite Hdom. }
    f_equal. apply list_fmap_ext. intros i id Hid%list_elem_of_lookup_2%ids_members. destruct Hid as [m Hm].
    unfold load_of, ms. rewrite populate_locks, Hm by done. cbn. symmetry. by apply length_held_now.
  - by apply rebalance_run.
  - intros W. by apply carry_delivered.
  - rewrite dom_union_L. apply subseteq_union_1_L. intros t [dst Ht]%elem_of_dom.
    destruct (Hsound t dst Ht) as (src & m & Hm & Htm & _). apply elem_of_dom. exists src. by apply (Hmem src m Hm).
  - intros t id Ht Hgone. rewrite lookup_union_r; [done|]. destruct (gm_tab plan !! t) as [dst|] eqn:Hp; [|done].
    destruct (Hsound t dst Hp) as (src & m & Hm & Htm & _). destruct (Hmem src m Hm) as (_ & _ & Hheld).
    apply Hheld in Htm. assert (src = id) as -> by congruence.
    assert (id ∈ dom members) as Hd by (rewrite <-Hdom; apply elem_of_dom; eauto).
    apply elem_of_dom in Hd as [? ?]. congruence.
  - intros id [m0 Hm0]. assert (id ∈ dom ms) as [m Hm]%elem_of_dom by (rewrite Hdom; apply elem_of_dom; eauto).
    destruct (Hmem id m Hm) as (_ & _ & Hheld). rewrite (arrivals_moved id _ asg m Hheld); [by apply Hquota|].
    by apply (ho_nodup _ Hok id m).
Qed.

Lemma rebalanceV2_spec_witness :
  let O := steady [] (lock_table "c1" ex_three_locks) 200 in
  exists calls asg', RebalanceTargetsV2 (H := order_bwd) (H0 := O) (H1 := no_shuffle) "c1" ex_three 5 []
      = (Ok (Some ()), CallList "gnmic/c1/targets" :: calls) /\
    (forall W, agrees ex_three W ex_three_locks -> agrees ex_three (foldl (deliver ex_three) W calls) asg') /\
    arrivals "a" asg' = 2 /\ arrivals "b" asg' = 1 /\ arrivals "c" asg' = 1 /\ length calls = 2%nat.
Proof.
  cbn zeta. set (O := steady _ _ _).
  destruct (rebalanceV2_spec (H := order_bwd) (H0 := O) (H1 := no_shuffle) "c1" ex_three ex_three_locks 5 [])
    as (q & calls & asg' & Hq & Hrun & Hdel & _ & _ & Hquota).
  - exact ex_three_reachable.
  - intros E. apply (f_equal (fun m => m !! "a")) in E. vm_compute in E. discriminate E.
  - vm_compute. reflexivity.
  - exact ex_three_plain.
  - vm_compute. lia.
  - reflexivity.
  - reflexivity.
  - exists calls, asg'. split; [exact Hrun|]. split; [exact Hdel|].
    assert (calculateMembersQuota (H := order_bwd) ex_three (zsum ((fun id => arrivals id ex_three_locks) <$> (@range order_bwd _ _ _ _ ex_three).*1))
      = Some {["a" := 2; "b" := 1; "c" := 1]}) as E by (vm_compute; reflexivity).
    rewrite Hq in E. injection E as ->.
    assert (length (snd (RebalanceTargetsV2 (H := order_bwd) (H0 := O) (H1 := no_shuffle) "c1" ex_three 5 [])) = 3%nat) as El
      by (vm_compute; reflexivity).
    rewrite Hrun in El. cbn in El.
    repeat split; try (rewrite Hquota; [vm_compute; reflexivity|eexists; vm_compute; reflexivity]). lia.
Defined.

(** The first version of the operation can leave the cluster less balanced
    than it was: with 5 and 3 targets it moves 3, not 1. *)
Example rebalance_v1_overshoots :
  moveCount (ex_member "a" ["1"; "2"; "3"; "4"; "5"]) (ex_member "b" ["6"; "7"; "8"]) = 3.
Proof. reflexivity. Qed.
