(* ===== verification/Election.v ===== *)
(** * Leader election (pkg/collector/managers/cluster/election.go, and
      [runCampaign] of cluster_manager.go)

    A node campaigns for the leader lock, keeps it alive from a goroutine per
    leadership, and loses it when the lock cannot be renewed or the API asks it
    to withdraw. The goroutines share the fields of one [election] object, some
    behind its mutex, some not; the model interleaves their atomic steps: a
    section under the mutex, an atomic store, a call to the locker, a
    [loseOnce.Do]. An event is one such step; [exec] says what it does, or that
    it cannot happen. Theorems: the loss channel is never closed twice; the
    lock never lacks someone who will release it; a loss is reported only once
    the release is under way, as long as the goroutines of a term end before
    the next campaign; and, when one does not, a run in which the node holds
    the lock for good without leading. *)

From S2P Require Import Prelude.

#[local] Open Scope nat_scope.

(** The fields of [election] that change. [loseCh] is nil, open or closed;
    [cancelKeepAlive] and [releaseFn] belong to the session of the lock they
    were made for. *)
Record election := mkElection {
  term : nat;
  e_held : bool;
  loseOnce : bool;
  loseCh : option bool;
  cancelKeepAlive : option nat;
  releaseFn : option nat
}.

(** Where the campaigning goroutine is. *)
Inductive phase :=
| Idle                  (* before [Campaign], or backing off after a loss *)
| Trying                (* in the loop around [tryAcquire] *)
| Acquired (s : nat)    (* the lock is taken *)
| Releasable (s : nat)  (* [e.releaseFn = release] *)
| Held (s : nat)        (* [e.held.Store(true)] *)
| Termed (s : nat)      (* [e.term.Add(1)] *)
| Leading.              (* waiting on the loss channel *)

(** Where another goroutine is: [keepalive], in its loop or in [signalLoss],
    and [Withdraw]. *)
Inductive actor :=
| Keeping (s : nat)
| Losing_take
| Losing_release (r : option nat)
| Losing_cancel
| Losing_once
| Withdraw_take
| Withdraw_cancel (r c : option nat)
| Withdraw_release (r : option nat)
| Withdraw_once.

#[export] Instance actor_eq_dec : EqDecision actor.
Proof. solve_decision. Defined.

(** [owner]: the session through which this node has the lock; [other]: another
    node has it. *)
Record world := mkWorld {
  w_el : election;
  w_phase : phase;
  w_acts : gmap nat actor;
  w_owner : option nat;
  w_other : bool;
  w_next : nat;
  w_cancelled : gset nat;
  w_panic : bool
}.

Definition init_election : election := mkElection 0 false false None None None.
Definition init_world : world := mkWorld init_election Idle ∅ None false 0 ∅ false.

Inductive event :=
| EBegin | EBusy | ELock | ERelease | EHeld | ETerm | EKeep (i : nat) | EObserve
| ERenewed (i : nat) | EStopped (i : nat) | EFailed (i : nat)
| EWithdraw (i : nat)
| EAct (i : nat)
| EExpire | EOther (b : bool).

Definition set_el (e : election) (w : world) : world :=
  mkWorld e (w_phase w) (w_acts w) (w_owner w) (w_other w) (w_next w) (w_cancelled w) (w_panic w).
Definition set_phase (p : phase) (w : world) : world :=
  mkWorld (w_el w) p (w_acts w) (w_owner w) (w_other w) (w_next w) (w_cancelled w) (w_panic w).
Definition set_acts (a : gmap nat actor) (w : world) : world :=
  mkWorld (w_el w) (w_phase w) a (w_owner w) (w_other w) (w_next w) (w_cancelled w) (w_panic w).
Definition set_owner (o : option nat) (w : world) : world :=
  mkWorld (w_el w) (w_phase w) (w_acts w) o (w_other w) (w_next w) (w_cancelled w) (w_panic w).
Definition cancel (c : option nat) (w : world) : world :=
  mkWorld (w_el w) (w_phase w) (w_acts w) (w_owner w) (w_other w) (w_next w)
    (match c with Some s => {[s]} ∪ w_cancelled w | None => w_cancelled w end) (w_panic w).
(** [release()]: it unlocks the lock of its session. *)
Definition unlock (r : option nat) (w : world) : world :=
  match r with
  | Some s => if decide (w_owner w = Some s) then set_owner None w else w
  | None => w
  end.

(** [loseOnce.Do]: closing a nil or closed channel panics. [Withdraw] tests for
    nil first. *)
Definition do_once (guarded : bool) (w : world) : world :=
  let e := w_el w in
  if loseOnce e then w
  else
    let e' := mkElection (term e) false true (match loseCh e with Some _ => Some true | None => None end) (cancelKeepAlive e) (releaseFn e) in
    let bad := match loseCh e with Some closed => closed | None => negb guarded end in
    mkWorld e' (w_phase w) (w_acts w) (w_owner w) (w_other w) (w_next w) (w_cancelled w) (w_panic w || bad).

(** ** Campaign and runCampaign *)

(** A fresh [loseOnce] and [loseCh] for the term. *)
Definition begin_campaign (w : world) : world :=
  let e := w_el w in
  set_phase Trying (set_el (mkElection (term e) (e_held e) false (Some false) (cancelKeepAlive e) (releaseFn e)) w).
Definition campaign (ev : event) (w : world) : option world :=
  let e := w_el w in
  match ev, w_phase w with
  | EBegin, Idle => Some (begin_campaign w)
  | EBusy, Trying => Some w
  | ELock, Trying =>
      match w_owner w with
      | None => if w_other w then None
                else Some (set_phase (Acquired (w_next w))
                       (mkWorld e (w_phase w) (w_acts w) (Some (w_next w)) false (S (w_next w)) (w_cancelled w) (w_panic w)))
      | Some _ => None
      end
  | ERelease, Acquired s =>
      Some (set_phase (Releasable s) (set_el (mkElection (term e) (e_held e) (loseOnce e) (loseCh e) (cancelKeepAlive e) (Some s)) w))
  | EHeld, Releasable s =>
      Some (set_phase (Held s) (set_el (mkElection (term e) true (loseOnce e) (loseCh e) (cancelKeepAlive e) (releaseFn e)) w))
  | ETerm, Held s =>
      Some (set_phase (Termed s) (set_el (mkElection (S (term e)) (e_held e) (loseOnce e) (loseCh e) (cancelKeepAlive e) (releaseFn e)) w))
  | EKeep i, Termed s =>
      match w_acts w !! i with
      | Some _ => None
      | None => Some (set_phase Leading (set_acts (<[i := Keeping s]> (w_acts w))
                  (set_el (mkElection (term e) (e_held e) (loseOnce e) (loseCh e) (Some s) (releaseFn e)) w)))
      end
  | EObserve, Leading => match loseCh e with Some true => Some (set_phase Idle w) | _ => None end
  | _, _ => None
  end.

(** ** keepalive, signalLoss and Withdraw *)

Definition act (i : nat) (w : world) : option world :=
  let e := w_el w in
  a ← w_acts w !! i;
  match a with
  | Keeping _ => None
  | Losing_take =>
      Some (set_acts (<[i := Losing_release (releaseFn e)]> (w_acts w))
        (set_el (mkElection (term e) (e_held e) (loseOnce e) (loseCh e) (cancelKeepAlive e) None) w))
  | Losing_release r => Some (set_acts (<[i := Losing_cancel]> (w_acts w)) (unlock r w))
  | Losing_cancel => Some (set_acts (<[i := Losing_once]> (w_acts w)) (cancel (cancelKeepAlive e) w))
  | Losing_once => Some (set_acts (delete i (w_acts w)) (do_once false w))
  | Withdraw_take =>
      Some (set_acts (<[i := Withdraw_cancel (releaseFn e) (cancelKeepAlive e)]> (w_acts w))
        (set_el (mkElection (term e) (e_held e) (loseOnce e) (loseCh e) None None) w))
  | Withdraw_cancel r c => Some (set_acts (<[i := Withdraw_release r]> (w_acts w)) (cancel c w))
  | Withdraw_release r => Some (set_acts (<[i := Withdraw_once]> (w_acts w)) (unlock r w))
  | Withdraw_once => Some (set_acts (delete i (w_acts w)) (do_once true w))
  end.

(** The keepalive loop: its context is done, the lock is still ours, or it is
    not (a backend error, a lock lost, another holder). *)
Definition keepalive (ev : event) (w : world) : option world :=
  match ev with
  | ERenewed i => match w_acts w !! i with Some (Keeping s) => Some w | _ => None end
  | EStopped i =>
      match w_acts w !! i with
      | Some (Keeping s) => if decide (s ∈ w_cancelled w) then Some (set_acts (delete i (w_acts w)) w) else None
      | _ => None
      end
  | EFailed i => match w_acts w !! i with Some (Keeping s) => Some (set_acts (<[i := Losing_take]> (w_acts w)) w) | _ => None end
  | _ => None
  end.
(** A call of [Withdraw]: nothing to do when the leadership is not held. *)
Definition withdraw (i : nat) (w : world) : option world :=
  match w_acts w !! i with
  | Some _ => None
  | None => if e_held (w_el w) then Some (set_acts (<[i := Withdraw_take]> (w_acts w)) w) else Some w
  end.

Definition exec (ev : event) (w : world) : option world :=
  match ev with
  | ERenewed _ | EStopped _ | EFailed _ => keepalive ev w
  | EWithdraw i => withdraw i w
  | EAct i => act i w
  | EExpire => Some (set_owner None w)
  | EOther b => match w_owner w with
                | Some _ => None
                | None => Some (mkWorld (w_el w) (w_phase w) (w_acts w) None b (w_next w) (w_cancelled w) (w_panic w))
                end
  | _ => campaign ev w
  end.
Fixpoint run (evs : list event) (w : world) : option world :=
  match evs with
  | [] => Some w
  | ev :: evs => w ← exec ev w; run evs w
  end.

Definition reached (w : world) : Prop := exists evs, run evs init_world = Some w.

(** ** Invariants of every run *)

(** Someone will release session [s]. *)
Definition pending (w : world) (s : nat) : Prop :=
  exists i a, w_acts w !! i = Some a /\
    (a = Losing_release (Some s) \/ (exists c, a = Withdraw_cancel (Some s) c) \/ a = Withdraw_release (Some s)).
Definition releaser (w : world) (s : nat) : Prop :=
  w_phase w = Acquired s \/ releaseFn (w_el w) = Some s \/ pending w s.

Record einv (w : world) : Prop := {
  ei_once : loseOnce (w_el w) = true <-> loseCh (w_el w) = Some true;
  ei_nil : loseCh (w_el w) = None -> w_phase w = Idle /\ w_acts w = ∅ /\ e_held (w_el w) = false;
  ei_panic : w_panic w = false;
  ei_acq : forall s s', w_phase w = Acquired s -> w_owner w = Some s' -> s' = s;
  ei_owner : forall s, w_owner w = Some s -> releaser w s
}.

Lemma init_einv : einv init_world.
Proof. split; cbn; done. Qed.

Lemma pending_insert w w' i a s :
  w_acts w' = <[i := a]> (w_acts w) -> pending w s ->
  (forall a0, w_acts w !! i = Some a0 -> a0 <> Losing_release (Some s) /\ (forall c, a0 <> Withdraw_cancel (Some s) c) /\ a0 <> Withdraw_release (Some s)) ->
  pending w' s.
Proof.
  intros Ha (j & b & Hj & Hb) Hi. exists j, b. split; [|done]. rewrite Ha, lookup_insert_ne; [done|].
  intros <-. destruct (Hi b Hj) as (H1 & H2 & H3). destruct Hb as [-> | [[c ->] | ->]]; [done|by eapply H2|done].
Qed.

Lemma pending_delete w w' i s :
  w_acts w' = delete i (w_acts w) -> pending w s ->
  (forall a0, w_acts w !! i = Some a0 -> a0 <> Losing_release (Some s) /\ (forall c, a0 <> Withdraw_cancel (Some s) c) /\ a0 <> Withdraw_release (Some s)) ->
  pending w' s.
Proof.
  intros Ha (j & b & Hj & Hb) Hi. exists j, b. split; [|done]. rewrite Ha, lookup_delete_ne; [done|].
  intros <-. destruct (Hi b Hj) as (H1 & H2 & H3). destruct Hb as [-> | [[c ->] | ->]]; [done|by eapply H2|done].
Qed.

Lemma acts_not_nil w i a : einv w -> w_acts w !! i = Some a -> loseCh (w_el w) <> None.
Proof. intros Hi Ha Hn. destruct (ei_nil _ Hi Hn) as (_ & He & _). by rewrite He in Ha. Qed.

(** [loseOnce.Do] closes an open channel. *)
Lemma do_once_inv g w : einv w -> loseCh (w_el w) <> None ->
  loseOnce (w_el (do_once g w)) = true /\ loseCh (w_el (do_once g w)) = Some true /\ w_panic (do_once g w) = false /\
  releaseFn (w_el (do_once g w)) = releaseFn (w_el w) /\ w_phase (do_once g w) = w_phase w /\
  w_owner (do_once g w) = w_owner w /\ (loseOnce (w_el w) = false -> e_held (w_el (do_once g w)) = false).
Proof.
  intros [Ho Hn Hp _ Hw] Hne. unfold do_once. destruct (loseOnce (w_el w)) eqn:E.
  - split; [done|]. split; [by apply Ho|]. done.
  - destruct (loseCh (w_el w)) as [[]|] eqn:El; [|cbn; rewrite Hp; done|done].
    destruct Ho as [_ Ho]. by specialize (Ho eq_refl).
Qed.

Lemma campaign_inv ev w w' : einv w -> campaign ev w = Some w' -> einv w'.
Proof.
  intros Hi Hc. pose proof Hi as [Ho Hn Hp Ha Hw]. unfold campaign in Hc. destruct ev; try done; destruct (w_phase w) eqn:Eph; try done.
  - injection Hc as <-. split; cbn; try done. intros s Hs. destruct (Hw s Hs) as [?|[?|?]]; [congruence|right; by left|by right; right].
  - injection Hc as <-. exact Hi.
  - destruct (w_owner w) eqn:Eo, (w_other w); try done. injection Hc as <-. split; cbn; try done.
    + intros E. destruct (Hn E) as [? _]. congruence.
    + intros s s' [= <-] [= <-]. done.
    + intros s' [= <-]. by left.
  - injection Hc as <-. split; cbn; try done.
    + intros E. destruct (Hn E) as [? _]. congruence.
    + intros s' Hs. rewrite (Ha s s' eq_refl Hs). right. by left.
  - injection Hc as <-. split; cbn; try done.
    + intros E. destruct (Hn E) as [? _]. congruence.
    + intros s' Hs. destruct (Hw s' Hs) as [?|[?|?]]; [congruence|right; by left|by right; right].
  - injection Hc as <-. split; cbn; try done.
    + intros E. destruct (Hn E) as [? _]. congruence.
    + intros s' Hs. destruct (Hw s' Hs) as [?|[?|?]]; [congruence|right; by left|by right; right].
  - destruct (w_acts w !! i) eqn:Ei; [done|]. injection Hc as <-. split; cbn; try done.
    + intros E. destruct (Hn E) as [? _]. congruence.
    + intros s' Hs. destruct (Hw s' Hs) as [?|[?|Hpend]]; [congruence|right; by left|right; right].
      eapply pending_insert; [done|exact Hpend|]. intros a0 Ha0. cbn in Ha0. congruence.
  - destruct (loseCh (w_el w)) as [[]|] eqn:El; try done. injection Hc as <-. split; cbn; try done.
    + by rewrite El.
    + by rewrite El.
    + intros s Hs. destruct (Hw s Hs) as [?|[?|?]]; [congruence|right; by left|by right; right].
Qed.

(** The step of an actor that does not touch the once or the lock. *)
Lemma acts_step w w' i a b :
  einv w -> w_acts w !! i = Some a -> w_acts w' = <[i := b]> (w_acts w) ->
  w_phase w' = w_phase w -> w_owner w' = w_owner w -> w_panic w' = w_panic w ->
  loseOnce (w_el w') = loseOnce (w_el w) -> loseCh (w_el w') = loseCh (w_el w) ->
  (forall s, w_owner w = Some s -> releaseFn (w_el w) = Some s \/ pending w s ->
     releaseFn (w_el w') = Some s \/ pending w' s) -> einv w'.
Proof.
  intros Hi Ha Hacts Hph Hown Hpan Hon Hch Hrel. pose proof (acts_not_nil w i a Hi Ha) as Hnn. destruct Hi as [Ho Hn Hp Hacq Hw].
  split.
  - by rewrite Hon, Hch.
  - rewrite Hch. done.
  - by rewrite Hpan.
  - intros s s'. rewrite Hph, Hown. apply Hacq.
  - intros s. rewrite Hown. intros Hs. destruct (Hw s Hs) as [?|Hr]; [left; by rewrite Hph|right]. by apply Hrel.
Qed.

Lemma once_step g w w' i a :
  einv w -> w_acts w !! i = Some a -> (a = Losing_once \/ a = Withdraw_once) ->
  w' = set_acts (delete i (w_acts w)) (do_once g w) -> einv w'.
Proof.
  intros Hi Ha Hab ->. pose proof (acts_not_nil w i a Hi Ha) as Hnn.
  destruct (do_once_inv g w Hi Hnn) as (H1 & H2 & H3 & H4 & H5 & H6 & _). split; cbn.
  - by rewrite H1, H2.
  - by rewrite H2.
  - done.
  - intros s s'. rewrite H5, H6. apply (ei_acq _ Hi).
  - intros s. rewrite H6. intros Hs. destruct (ei_owner _ Hi s Hs) as [?|[?|Hpend]].
    + left. cbn. by rewrite H5.
    + right. left. cbn. by rewrite H4.
    + right. right. eapply pending_delete; [done|exact Hpend|]. intros a0 Ha0. rewrite Ha in Ha0. injection Ha0 as <-.
      by destruct Hab as [-> | ->].
Qed.

Lemma unlock_step w i a b r :
  einv w -> w_acts w !! i = Some a ->
  (a = Losing_release r \/ a = Withdraw_release r) -> einv (set_acts (<[i := b]> (w_acts w)) (unlock r w)).
Proof.
  intros Hi Ha Hab. pose proof (acts_not_nil w i a Hi Ha) as Hnn. destruct Hi as [Ho Hn Hp Hacq Hw].
  assert (w_el (unlock r w) = w_el w /\ w_phase (unlock r w) = w_phase w /\ w_panic (unlock r w) = w_panic w) as (E1 & E2 & E3).
  { unfold unlock. destruct r; [case_decide|]; done. }
  assert (forall s, w_owner (unlock r w) = Some s -> w_owner w = Some s /\ r <> Some s) as Eo.
  { intros s. unfold unlock. destruct r as [x|]; [|done]. case_decide as Hd; [done|]. intros Hs. split; [done|]. congruence. }
  split; cbn; rewrite ?E1, ?E2, ?E3; try done.
  - intros s s' Hph [Hs _]%Eo. by eapply Hacq.
  - intros s [Hs Hr]%Eo. destruct (Hw s Hs) as [?|[?|Hpend]].
    + left. cbn. by rewrite E2.
    + right. left. cbn. by rewrite E1.
    + right. right. eapply pending_insert; [done|exact Hpend|]. intros a0 Ha0. rewrite Ha in Ha0. injection Ha0 as <-.
      destruct Hab as [-> | ->]; split; try split; congruence.
Qed.

Lemma pending_here w i a s :
  w_acts w !! i = Some a ->
  (a = Losing_release (Some s) \/ (exists c, a = Withdraw_cancel (Some s) c) \/ a = Withdraw_release (Some s)) -> pending w s.
Proof. intros Hi Ha. by exists i, a. Qed.

(** The pending sessions of the others stay when [i] moves on. *)
Lemma pending_moves w w' i a b s :
  w_acts w !! i = Some a -> w_acts w' = <[i := b]> (w_acts w) ->
  ((a = Losing_release (Some s) \/ (exists c, a = Withdraw_cancel (Some s) c) \/ a = Withdraw_release (Some s)) ->
   (b = Losing_release (Some s) \/ (exists c, b = Withdraw_cancel (Some s) c) \/ b = Withdraw_release (Some s))) ->
  pending w s -> pending w' s.
Proof.
  intros Ha Hacts Hab (j & x & Hj & Hx). destruct (decide (i = j)) as [<-|Hne].
  - exists i, b. rewrite Hacts, lookup_insert_eq. split; [done|]. apply Hab. by simplify_eq.
  - exists j, x. by rewrite Hacts, lookup_insert_ne.
Qed.

Lemma act_inv i w w' : einv w -> act i w = Some w' -> einv w'.
Proof.
  intros Hi Hact. unfold act in Hact. destruct (w_acts w !! i) as [a|] eqn:Ha; [|done]. cbn in Hact.
  destruct a as [s| |r| | | |r c|r|]; try done; injection Hact as <-.
  - eapply (acts_step w _ i _ (Losing_release (releaseFn (w_el w)))); try done. cbn. intros s Hs [Hr|Hp]; right.
    + rewrite Hr. eapply (pending_here _ i); cbn; [apply lookup_insert_eq|by left].
    + eapply (pending_moves w _ i); [done|done| |done]. by intros [?|[[? ?]|?]].
  - by eapply unlock_step; [|done|left].
  - eapply (acts_step w _ i _ Losing_once); try done. cbn. intros s Hs [Hr|Hp]; [by left|right].
    eapply (pending_moves w _ i); [done|done| |done]. by intros [?|[[? ?]|?]].
  - by eapply once_step; [|done|left|].
  - eapply (acts_step w _ i _ (Withdraw_cancel (releaseFn (w_el w)) (cancelKeepAlive (w_el w)))); try done. cbn. intros s Hs [Hr|Hp]; right.
    + rewrite Hr. eapply (pending_here _ i); cbn; [apply lookup_insert_eq|right; left; by eexists].
    + eapply (pending_moves w _ i); [done|done| |done]. by intros [?|[[? ?]|?]].
  - eapply (acts_step w _ i _ (Withdraw_release r)); try done. cbn. intros s Hs [Hr|Hp]; [by left|right].
    eapply (pending_moves w _ i); [done|done| |done]. intros [?|[[? [= -> _]]|?]]; [done|by right; right|done].
  - by eapply unlock_step; [|done|right].
  - by eapply once_step; [|done|right|].
Qed.

Lemma keepalive_inv ev w w' : einv w -> keepalive ev w = Some w' -> einv w'.
Proof.
  intros Hi Hk. destruct ev as [| | | | | | | |i|i|i| | | |]; try done; cbn in Hk; destruct (w_acts w !! i) as [[s| | | | | | | |]|] eqn:Ha; try done.
  - by injection Hk as <-.
  - case_decide; [|done]. injection Hk as <-. pose proof (acts_not_nil w i _ Hi Ha). destruct Hi as [Ho Hn Hp Hacq Hw].
    split; cbn; try done. intros s' Hs'. destruct (Hw s' Hs') as [?|[?|Hpend]]; [by left|right; by left|right; right].
    eapply pending_delete; [done|exact Hpend|]. intros a0 Ha0. rewrite Ha in Ha0. by injection Ha0 as <-.
  - injection Hk as <-. eapply (acts_step w _ i _ Losing_take); try done. cbn. intros s' Hs [Hr|Hp]; [by left|right].
    eapply (pending_moves w _ i); [done|done| |done]. by intros [?|[[? ?]|?]].
Qed.

Lemma withdraw_inv i w w' : einv w -> withdraw i w = Some w' -> einv w'.
Proof.
  intros Hi Hw. unfold withdraw in Hw. destruct (w_acts w !! i) eqn:Ha; [done|]. destruct (e_held (w_el w)) eqn:Eh.
  - injection Hw as <-. destruct Hi as [Ho Hn Hp Hacq Hown]. split; cbn; try done.
    + intros E. destruct (Hn E) as (_ & _ & ?). congruence.
    + intros s Hs. destruct (Hown s Hs) as [?|[?|Hpend]]; [by left|right; by left|right; right].
      eapply pending_insert; [done|exact Hpend|]. intros a0 Ha0. congruence.
  - by injection Hw as <-.
Qed.

Lemma exec_inv ev w w' : einv w -> exec ev w = Some w' -> einv w'.
Proof.
  intros Hi. destruct ev as [| | | | | | | |i|i|i|i|i| |b]; cbn [exec]; try by apply campaign_inv.
  - by apply keepalive_inv.
  - by apply keepalive_inv.
  - by apply keepalive_inv.
  - by apply withdraw_inv.
  - by apply act_inv.
  - intros [= <-]. destruct Hi as [Ho Hn Hp Hacq Hown]. by split.
  - destruct (w_owner w) eqn:Eo; [done|]. intros [= <-]. destruct Hi as [Ho Hn Hp Hacq Hown]. by split.
Qed.

Lemma run_inv evs w w' : einv w -> run evs w = Some w' -> einv w'.
Proof.
  revert w; induction evs as [|ev evs IH]; intros w Hi; cbn [run]; [by intros [= <-]|].
  destruct (exec ev w) as [w1|] eqn:E; [|done]. cbn. apply IH. by eapply exec_inv.
Qed.

(** C4: in every interleaving of the campaign, the keepalives and any number
    of withdrawals, with a lock that can be lost at any time: no channel is
    closed twice, nor a nil one (no panic); the loss channel is closed exactly
    when its once is done; and while this node owns the lock some step that
    releases it is at hand: the campaign is about to record the release, it is
    recorded, or someone has taken it and is about to call it. *)
Theorem election_safe (evs : list event) (w : world) :
  run evs init_world = Some w ->
  w_panic w = false /\
  (loseOnce (w_el w) = true <-> loseCh (w_el w) = Some true) /\
  (forall s, w_owner w = Some s -> releaser w s).
Proof.
  intros Hr. destruct (run_inv evs _ _ init_einv Hr) as [Ho _ Hp _ Hw]. done.
Qed.

(** A leadership, its loss to another node and the withdrawal of the next. *)
Definition ex_events : list event :=
  [EBegin; EBusy; ELock; ERelease; EHeld; ETerm; EKeep 0; ERenewed 0; EExpire; EOther true; EFailed 0;
   EAct 0; EAct 0; EAct 0; EAct 0; EObserve; EBegin; EBusy; EOther false; ELock; ERelease; EHeld; ETerm; EKeep 1; EWithdraw 2; EAct 2].

Lemma election_safe_witness :
  exists w, run ex_events init_world = Some w /\ w_owner w = Some 1 /\ releaser w 1 /\ w_panic w = false.
Proof.
  destruct (run ex_events init_world) as [w|] eqn:Hr; [|vm_compute in Hr; discriminate Hr].
  destruct (election_safe ex_events w Hr) as (Hp & _ & Hrel).
  assert (w_owner w = Some 1) as Ho.
  { assert (w_owner <$> run ex_events init_world = Some (Some 1)) as E by (vm_compute; reflexivity).
    rewrite Hr in E. injection E as E. exact E. }
  exists w. split; [reflexivity|]. split; [exact Ho|]. split; [exact (Hrel 1 Ho)|exact Hp].
Defined.

(** ** Runs in which a term's goroutines end before the next campaign *)

Definition orderly (ev : event) (w : world) : Prop := match ev with EBegin => w_acts w = ∅ | _ => True end.

Inductive orderly_run : list event -> world -> Prop :=
| orderly_init : orderly_run [] init_world
| orderly_snoc evs ev w w' : orderly_run evs w -> orderly ev w -> exec ev w = Some w' -> orderly_run (evs ++ [ev]) w'.

(** Past the point where it took the release. *)
Definition took (a : actor) : Prop :=
  match a with Keeping _ | Losing_take | Withdraw_take => False | _ => True end.
(** The release of the term has not been taken before its leadership is held. *)
Definition preparing (p : phase) : Prop :=
  match p with Trying | Acquired _ | Releasable _ => True | _ => False end.

Record oinv (w : world) : Prop := {
  oi_einv : einv w;
  oi_prep : preparing (w_phase w) -> w_acts w = ∅ /\ e_held (w_el w) = false /\ loseOnce (w_el w) = false;
  oi_once : loseOnce (w_el w) = true -> e_held (w_el w) = false /\ releaseFn (w_el w) = None;
  oi_took : forall i a, w_acts w !! i = Some a -> took a -> releaseFn (w_el w) = None;
  oi_idle : w_phase w = Idle -> e_held (w_el w) = false /\ releaseFn (w_el w) = None
}.

Lemma init_oinv : oinv init_world.
Proof. split; [apply init_einv|done..]. Qed.

Lemma campaign_oinv ev w w' : oinv w -> orderly ev w -> campaign ev w = Some w' -> oinv w'.
Proof.
  intros [Hi Hp Ho Ht Hid] Hord Hc. pose proof (campaign_inv ev w w' Hi Hc) as Hi'. unfold campaign in Hc.
  destruct ev; try done; destruct (w_phase w) eqn:Eph; try done.
  - injection Hc as <-. cbn in Hord. destruct (Hid eq_refl) as [Hh Hr]. split; cbn; try done.
  - injection Hc as <-. split; rewrite ?Eph; done.
  - destruct (w_owner w), (w_other w); try done. injection Hc as <-. destruct (Hp I) as (Ha & Hh & Hl).
    split; cbn; try done.
  - injection Hc as <-. destruct (Hp I) as (Ha & Hh & Hl). split; cbn; try (done || congruence).
    intros i a. by rewrite Ha.
  - injection Hc as <-. destruct (Hp I) as (Ha & Hh & Hl). split; cbn; done || congruence.
  - injection Hc as <-. split; cbn; done.
  - destruct (w_acts w !! i) eqn:Ei; [done|]. injection Hc as <-. split; cbn; try done.
    intros j a [[<- <-]|[_ Hj]]%lookup_insert_Some; [done|by eapply Ht].
  - destruct (loseCh (w_el w)) as [[]|] eqn:El; try done. injection Hc as <-. split; cbn; try done.
    intros _. apply Ho. by apply (ei_once _ Hi).
Qed.

(** No goroutine of the term exists while its campaign is on. *)
Lemma acts_past w (i : nat) (a : actor) : oinv w -> w_acts w !! i = Some a -> ~ preparing (w_phase w).
Proof. intros Hi Ha Hp. destruct (oi_prep _ Hi Hp) as [E Hx]. by rewrite E in Ha. Qed.

Lemma do_once_oinv (g : bool) (w : world) (i : nat) : oinv w -> w_acts w !! i = Some (if g then Withdraw_once else Losing_once) ->
  einv (set_acts (delete i (w_acts w)) (do_once g w)) -> oinv (set_acts (delete i (w_acts w)) (do_once g w)).
Proof.
  intros Hi Ha He. pose proof (acts_past w i _ Hi Ha) as Hnp.
  assert (releaseFn (w_el w) = None) as Hr by (eapply (oi_took _ Hi); [exact Ha|by destruct g]).
  destruct (do_once_inv g w (oi_einv _ Hi) (acts_not_nil w i _ (oi_einv _ Hi) Ha)) as (H1 & H2 & H3 & H4 & H5 & H6 & H7).
  assert (e_held (w_el (do_once g w)) = false) as Hh.
  { destruct (loseOnce (w_el w)) eqn:E; [|by apply H7]. unfold do_once. rewrite E. by apply (oi_once _ Hi). }
  split; cbn; [done|by rewrite H5|by rewrite H4|by rewrite H4|by rewrite H4].
Qed.

Lemma act_oinv i w w' : oinv w -> act i w = Some w' -> oinv w'.
Proof.
  intros Hi Hact. pose proof (act_inv i w w' (oi_einv _ Hi) Hact) as He. unfold act in Hact.
  destruct (w_acts w !! i) as [a|] eqn:Ha; [|done]. cbn in Hact. pose proof (acts_past w i a Hi Ha) as Hnp.
  destruct Hi as [Hei Hp Ho Ht Hid] eqn:HI. clear HI.
  assert (forall r w1, w_el (unlock r w1) = w_el w1 /\ w_phase (unlock r w1) = w_phase w1) as Hu.
  { intros r w1. unfold unlock. destruct r; [case_decide|]; done. }
  destruct a as [s| |r| | | |r c|r|]; try done; injection Hact as <-.
  - split; cbn; try done; [by intros [? _]%Ho|by intros [? _]%Hid].
  - destruct (Hu r w) as [E1 E2]. split; cbn; rewrite ?E1, ?E2; try done.
    intros j b [[<- <-]|[_ Hj]]%lookup_insert_Some; [intros _; by eapply Ht|by eapply Ht].
  - split; cbn; try done. intros j b [[<- <-]|[_ Hj]]%lookup_insert_Some; [intros _; by eapply Ht|by eapply Ht].
  - by apply do_once_oinv.
  - split; cbn; try done; [by intros [? _]%Ho|by intros [? _]%Hid].
  - split; cbn; try done. intros j b [[<- <-]|[_ Hj]]%lookup_insert_Some; [intros _; by eapply Ht|by eapply Ht].
  - destruct (Hu r w) as [E1 E2]. split; cbn; rewrite ?E1, ?E2; try done.
    intros j b [[<- <-]|[_ Hj]]%lookup_insert_Some; [intros _; by eapply Ht|by eapply Ht].
  - by apply do_once_oinv.
Qed.

Lemma keepalive_oinv ev w w' : oinv w -> keepalive ev w = Some w' -> oinv w'.
Proof.
  intros Hi Hk. pose proof (keepalive_inv ev w w' (oi_einv _ Hi) Hk) as He.
  destruct ev as [| | | | | | | |i|i|i| | | |]; try done; cbn in Hk; destruct (w_acts w !! i) as [[s| | | | | | | |]|] eqn:Ha; try done;
    pose proof (acts_past w i _ Hi Ha) as Hnp.
  - by injection Hk as <-.
  - case_decide; [|done]. injection Hk as <-. destruct Hi as [Hei Hp Ho Ht Hid]. split; cbn; try done.
    intros j b [_ Hj]%lookup_delete_Some. by eapply Ht.
  - injection Hk as <-. destruct Hi as [Hei Hp Ho Ht Hid]. split; cbn; try done.
    intros j b [[<- <-]|[_ Hj]]%lookup_insert_Some; [done|by eapply Ht].
Qed.

Lemma exec_oinv ev w w' : oinv w -> orderly ev w -> exec ev w = Some w' -> oinv w'.
Proof.
  intros Hi Hord. destruct ev as [| | | | | | | |i|i|i|i|i| |b]; cbn [exec]; try by apply campaign_oinv.
  - by apply keepalive_oinv.
  - by apply keepalive_oinv.
  - by apply keepalive_oinv.
  - intros Hw. pose proof (withdraw_inv i w w' (oi_einv _ Hi) Hw) as He. unfold withdraw in Hw.
    destruct (w_acts w !! i) eqn:Ha; [done|]. destruct (e_held (w_el w)) eqn:Eh; [|by injection Hw as <-].
    injection Hw as <-. destruct Hi as [Hei Hp Ho Ht Hid]. split; cbn; try done.
    + intros Hpr. destruct (Hp Hpr) as (_ & ? & _). congruence.
    + intros j b [[<- <-]|[_ Hj]]%lookup_insert_Some; [done|by eapply Ht].
  - by apply act_oinv.
  - intros Hw. pose proof (exec_inv EExpire w w' (oi_einv _ Hi) Hw) as He. injection Hw as <-.
    destruct Hi as [Hei Hp Ho Ht Hid]. by split.
  - intros Hw. pose proof (exec_inv (EOther b) w w' (oi_einv _ Hi) Hw) as He.
    destruct (w_owner w) eqn:Eo; [done|]. injection Hw as <-. destruct Hi as [Hei Hp Ho Ht Hid]. by split.
Qed.

Lemma orderly_oinv evs w : orderly_run evs w -> oinv w.
Proof. induction 1; [apply init_oinv|]. by eapply exec_oinv. Qed.

(** When the goroutines of a term end before the next campaign begins, a
    loss is never reported while the lock is kept: once the loss channel is
    closed, this node is not marked as holding, the release has been taken,
    and if the node still owns the lock some goroutine is about to release it;
    so when they are done the lock is free for another node. *)
Theorem loss_reported (evs : list event) (w : world) :
  orderly_run evs w -> loseCh (w_el w) = Some true ->
  e_held (w_el w) = false /\ releaseFn (w_el w) = None /\
  (forall s, w_owner w = Some s -> pending w s) /\ (w_acts w = ∅ -> w_owner w = None).
Proof.
  intros Hr Hl. pose proof (orderly_oinv evs w Hr) as Hi.
  assert (loseOnce (w_el w) = true) as Ho by (by apply (ei_once _ (oi_einv _ Hi))).
  destruct (oi_once _ Hi Ho) as [Hh Hrel].
  assert (forall s, w_owner w = Some s -> pending w s) as Hp.
  { intros s Hs. destruct (ei_owner _ (oi_einv _ Hi) s Hs) as [Ha|[?|?]]; [|congruence|done].
    destruct (oi_prep _ Hi) as (_ & _ & ?); [by rewrite Ha|congruence]. }
  do 3 (split; [done|]). intros He. destruct (w_owner w) as [s|] eqn:Es; [|done].
  destruct (Hp s eq_refl) as (i & a & Ha & _). by rewrite He in Ha.
Qed.

Definition ex_orderly : list event :=
  [EBegin; ELock; ERelease; EHeld; ETerm; EKeep 0; EWithdraw 1; EAct 1; EAct 1; EAct 1; EAct 1; EStopped 0].

(** A run with one campaign is orderly. *)
Lemma one_campaign evs pre w0 w :
  orderly_run pre w0 -> Forall (fun ev => ev <> EBegin) evs -> run evs w0 = Some w -> orderly_run (pre ++ evs) w.
Proof.
  revert pre w0; induction evs as [|ev evs IH]; intros pre w0 Hp Hf Hr; [injection Hr as <-; by rewrite app_nil_r|].
  apply Forall_cons in Hf as [Hev Hf]. cbn [run] in Hr. destruct (exec ev w0) as [w2|] eqn:E; [|done].
  replace (pre ++ ev :: evs) with ((pre ++ [ev]) ++ evs) by (by rewrite <-app_assoc).
  eapply IH; [|done|exact Hr]. eapply orderly_snoc; [exact Hp| |exact E]. by destruct ev.
Qed.

Lemma first_campaign evs w :
  Forall (fun ev => ev <> EBegin) evs -> run (EBegin :: evs) init_world = Some w -> orderly_run (EBegin :: evs) w.
Proof.
  intros Hf Hr. apply (one_campaign evs [EBegin] (begin_campaign init_world)); [|done|done].
  by apply (orderly_snoc [] EBegin init_world); [constructor|..].
Qed.

Lemma ex_orderly_tail : Forall (fun ev => ev <> EBegin) (tail ex_orderly).
Proof. repeat constructor; discriminate. Qed.

Lemma loss_reported_witness :
  exists w, run ex_orderly init_world = Some w /\ loseCh (w_el w) = Some true /\ w_owner w = None.
Proof.
  destruct (run ex_orderly init_world) as [w|] eqn:Hr; [|vm_compute in Hr; discriminate Hr].
  assert ((fun w => (loseCh (w_el w), bool_decide (w_acts w = ∅))) <$> run ex_orderly init_world = Some (Some true, true)) as E by (vm_compute; reflexivity).
  rewrite Hr in E. injection E as El Ea. apply bool_decide_eq_true in Ea.
  destruct (loss_reported ex_orderly w (first_campaign _ w ex_orderly_tail Hr) El) as (_ & _ & _ & Hown).
  exists w. split; [reflexivity|]. split; [exact El|exact (Hown Ea)].
Defined.

(** ** A keepalive that outlives its term *)

(** Events with which nothing fails and nobody asks for a withdrawal. *)
Definition undisturbed (ev : event) : Prop :=
  match ev with EFailed _ | EWithdraw _ | EExpire => False | _ => True end.

(** A withdrawal cancels a keepalive that is renewing; the renewal fails after
    the next campaign has begun, and closes the new term's channel. *)
Definition stale_events : list event :=
  [EBegin; ELock; ERelease; EHeld; ETerm; EKeep 0; EWithdraw 1; EAct 1; EAct 1; EAct 1; EAct 1; EObserve;
   EBegin; EFailed 0; EAct 0; EAct 0; EAct 0; EAct 0; ELock; ERelease; EHeld; ETerm; EKeep 2; EObserve; EBegin].

Definition stalled (w : world) : Prop :=
  w_phase w = Trying /\ w_owner w = Some 1 /\ w_acts w = {[2 := Keeping 1]} /\ 1 ∉ w_cancelled w.

Lemma stalled_exec ev w w' : stalled w -> undisturbed ev -> exec ev w = Some w' -> stalled w'.
Proof.
  intros (Hp & Ho & Ha & Hc) Hu. destruct ev as [| | | | | | | |i|i|i|i|i| |b]; try done; cbn [exec campaign]; rewrite ?Hp; try done.
  - by intros [= <-].
  - by rewrite Ho.
  - cbn. destruct (w_acts w !! i) as [[]|]; try done. by intros [= <-].
  - cbn. rewrite Ha. destruct (decide (i = 2)) as [->|Hi].
    + rewrite lookup_singleton_eq. by rewrite decide_False.
    + by rewrite lookup_singleton_ne.
  - unfold act. rewrite Ha. destruct (decide (i = 2)) as [->|Hi].
    + by rewrite lookup_singleton_eq.
    + by rewrite lookup_singleton_ne.
  - by rewrite Ho.
Qed.

(** A keepalive of an earlier term can close the loss channel of the next
    term before it has begun: the node then takes the lock, sees at once that
    it lost, and campaigns again for a lock it holds itself. From there, as long as no
    renewal fails and nobody withdraws, it holds the lock and never leads. *)
Theorem election_can_stall :
  exists w, run stale_events init_world = Some w /\ w_owner w = Some 1 /\ w_phase w = Trying /\
    forall evs w', Forall undisturbed evs -> run evs w = Some w' -> w_owner w' = Some 1 /\ w_phase w' = Trying.
Proof.
  destruct (run stale_events init_world) as [w|] eqn:Hr; [|vm_compute in Hr; discriminate Hr].
  assert ((fun w => (bool_decide (w_owner w = Some 1), w_phase w, bool_decide (w_acts w = {[2 := Keeping 1]}), bool_decide (1 ∉ w_cancelled w)))
    <$> run stale_events init_world = Some (true, Trying, true, true)) as E by (vm_compute; reflexivity).
  rewrite Hr in E. injection E as Eo Ep Ea Ec. apply bool_decide_eq_true in Eo, Ea, Ec.
  exists w. split; [reflexivity|]. assert (stalled w) as Hs by exact (conj Ep (conj Eo (conj Ea Ec))). clear Hr.
  split; [exact Eo|]. split; [exact Ep|]. clear -Hs. intros evs. revert w Hs; induction evs as [|ev evs IH]; intros w Hs w' Hf Hr'.
  { injection Hr' as <-. by destruct Hs as (? & ? & _). }
  apply Forall_cons in Hf as [Hev Hf]. cbn [run] in Hr'. destruct (exec ev w) as [w1|] eqn:E; [|done].
  eapply IH; [by eapply stalled_exec|done|exact Hr'].
Qed.
