(* ===== verification/Pipeline.v ===== *)
(** * Building and running pipelines of processors
      (pkg/formatters/processors.go, pkg/outputs/output.go)

    Processors are made from their configurations by name and run in order. A
    combine processor makes the processors it names, which may be combine
    processors again: [procN n] are the processors nested at most [n] deep, and
    making one takes the depth it may use. The processor types whose packages
    are not modelled are the parameter [others]. The main theorem: a pipeline of
    modelled processors never fails nor panics on the events of notifications,
    but for the two configurations that can make one panic: an event-date-string
    with expressions for tags, and an event-strings with a split that ignores a
    negative number of items. *)

From stdpp Require Import strings.
From S2P Require Import Prelude GoStrings Utf8 GoVal Text Event Processor Filters Tags Group Control Convert TextProc.

#[local] Open Scope Z_scope.

(** ** Processors nested in combine processors *)

Section nested.
Context `{Gojq} `{SortSlice}.

Fixpoint procN (n : nat) : Type :=
  match n with
  | O => processor
  | S n => (processor + list (procseq (procN n)))%type
  end.

Definition proc_ep : EventProcessor processor := {| Apply := runProc |}.

Fixpoint procN_ep (n : nat) : EventProcessor (procN n) :=
  match n with
  | O => proc_ep
  | S n => {| Apply p es :=
      match p with
      | inl p => '(p, es) ← runProc p es; Ok (inl p, es)
      | inr l => '(l, es) ← combine_Apply (procN_ep n) l es; Ok (inr l, es)
      end |}
  end.

Definition leafN (n : nat) : processor -> procN n :=
  match n with O => fun p => p | S _ => inl end.

(** Safe all the way down. *)
Fixpoint procN_safe (n : nat) : procN n -> Prop :=
  match n with
  | O => safe_proc
  | S n => fun p =>
      match p with
      | inl p => safe_proc p
      | inr l => Forall (fun s => procN_safe n (ps_proc s)) l
      end
  end.

Lemma runProc_safe : SafeProcessor proc_ep safe_proc.
Proof.
  split. intros [P ep p] es (inv & Hs & Hp) Hes. cbn.
  destruct (safe_apply p es Hp Hes) as (p' & es' & -> & Hp' & Hes'). cbn.
  do 2 eexists. split; [done|]. split; [by exists inv|done].
Qed.

Lemma procN_ep_safe n : SafeProcessor (procN_ep n) (procN_safe n).
Proof.
  induction n as [|n IH]; [apply runProc_safe|]. split. intros [p|l] es Hp Hes; cbn in *.
  - destruct (safe_apply (SafeProcessor := runProc_safe) p es Hp Hes) as (p' & es' & Hr & Hp' & Hes').
    cbn in Hr. rewrite Hr. cbn. by do 2 eexists.
  - destruct (safe_apply (SafeProcessor := combine_safe (procN_ep n) (procN_safe n)) l es Hp Hes) as (l' & es' & Hr & Hl' & Hes').
    cbn in Hr. rewrite Hr. cbn. by do 2 eexists.
Qed.

Lemma leafN_safe n p : safe_proc p -> procN_safe n (leafN n p).
Proof. by destruct n. Qed.
End nested.

(** ** Making processors *)

Section make.
Context `{Gojq} `{SortSlice} `{MapOrder} `{RegexpPkg} `{FmtEnv} `{Clock} `{LRU} `{SHA256} `{FloatConv} `{FloatText} `{TimeParse} `{UnitsPkg} `{TimeFormat} `{UnicodeCase} `{TitleCase}.
Context `{Decode filterConfig} `{Decode deletepConfig} `{Decode keepConfig} `{Decode addTagConfig} `{Decode extractTagsConfig}
  `{Decode toTagConfig} `{Decode valueTag} `{Decode (list rule)} `{Decode merge} `{Decode groupBy} `{Decode overrideTS}
  `{Decode (list (option procseqConfig))} `{Decode triggerConfig} `{Decode rateLimitConfig} `{Decode convertConfig}
  `{Decode durationConfig} `{Decode epochConfig} `{Decode ieeeConfig} `{Decode dataConfig} `{Decode dateConfig} `{Decode stringsConfig}.
Context (initAction : string -> go init_error Action).
Context (others : string -> option (any -> go init_error processor)).

(** A processor type that is its own state, as [Register] has it. *)
Definition leaf_of {P} (ep : EventProcessor P) (init : any -> go init_error P) : any -> go init_error processor :=
  fun cfg => p ← init cfg; Ok (Proc ep p).

(** [EventProcessors]: what the packages registered, event-combine apart. *)
Definition registered : list (string * (any -> go init_error processor)) :=
  [("event-add-tag", leaf_of addTag_proc addTag_Init);
   ("event-allow", leaf_of allow_proc allow_Init);
   ("event-convert", leaf_of convert_proc convert_Init);
   ("event-data-convert", leaf_of dataConvert_proc dataConvert_Init);
   ("event-date-string", leaf_of dateString_proc dateString_Init);
   ("event-delete", leaf_of delete_proc delete_Init);
   ("event-drop", leaf_of drop_proc drop_Init);
   ("event-duration-convert", leaf_of duration_proc duration_Init);
   ("event-extract-tags", leaf_of extract_proc extract_Init);
   ("event-group-by", leaf_of groupBy_proc groupBy_Init);
   ("event-ieeefloat32", leaf_of ieee_proc ieee_Init);
   ("event-keep", leaf_of keep_proc keep_Init);
   ("event-merge", leaf_of merge_proc merge_Init);
   ("event-override-ts", leaf_of override_proc override_Init);
   ("event-rate-limit", leaf_of rateLimit_proc rateLimit_Init);
   ("event-strings", leaf_of strings_proc strings_Init);
   ("event-time-epoch", leaf_of epoch_proc epoch_Init);
   ("event-to-tag", leaf_of toTag_proc toTag_Init);
   ("event-trigger", leaf_of trigger_proc (fun cfg => p ← trigger_Init initAction cfg; Ok (p, 0%nat)));
   ("event-value-tag", leaf_of valueTag_proc valueTag_Init);
   ("event-value-tag-v2", leaf_of valueTagV2_proc valueTagV2_Init)].

Fixpoint assoc {A} (k : string) (l : list (string * A)) : option A :=
  match l with
  | [] => None
  | (k', a) :: l => if String.eqb k k' then Some a else assoc k l
  end.

Definition initializer (epType : string) : option (any -> go init_error processor) :=
  match assoc epType registered with Some f => Some f | None => others epType end.

(** [for k := range cfg { epType = k; break }]. *)
Definition epType_of (cfg : gmap string any) : string :=
  match range cfg with [] => "" | (k, _) :: _ => k end.

Definition definitions := gmap string (gmap string any).

(** [MakeProcessor]; [n] is how deep combine processors may nest. *)
Fixpoint MakeProcessor (n : nat) (ps : definitions) (cfg : gmap string any) : go init_error (procN n) :=
  let epType := epType_of cfg in
  let c := default ANil (cfg !! epType) in
  if String.eqb epType "event-combine" then
    match n with
    | O => Err (errConfig "nested too deep")
    | S n =>
        l ← combine_Init (fun name =>
              match ps !! name with
              | Some cfg => MakeProcessor n ps cfg
              | None => Err (errConfig "event processor not found")
              end) c;
        Ok (inr l)
    end
  else
    match initializer epType with
    | Some f => p ← f c; Ok (leafN n p)
    | None => Err (errConfig "event processor has an unknown type")
    end.

Definition MakeEventProcessors (n : nat) (processorNames : list string) (ps : definitions) : go init_error (list (procN n)) :=
  mapE (fun epName => match ps !! epName with
                      | Some cfg => MakeProcessor n ps cfg
                      | None => Err (errConfig "event processor not found")
                      end) processorNames.

(** [UpdateProcessorInSlice]: the first processor of the name is made anew;
    [false] when there is none. [ps] is [None] when the store fails. *)
Fixpoint update_at (n : nat) (ps : definitions) (name : string) (pcfg : gmap string any)
    (names : list string) (i : nat) (current : list (procN n)) : go init_error (list (procN n) * bool) :=
  match names with
  | [] => Ok (current, false)
  | epName :: names =>
      if String.eqb epName name then
        ep ← MakeProcessor n ps pcfg;
        if (length current <=? i)%nat then Err (errConfig "output processors are not properly initialized")
        else Ok (<[i := ep]> current, true)
      else update_at n ps name pcfg names (S i) current
  end.
Definition UpdateProcessorInSlice (n : nat) (ps : option definitions) (eventProcessors : list string)
    (currentEvps : list (procN n)) (processorName : string) (pcfg : gmap string any) : go init_error (list (procN n) * bool) :=
  match ps with
  | None => Err (errConfig "store")
  | Some ps => update_at n ps processorName pcfg eventProcessors 0 currentEvps
  end.

(** ** Running *)

(** One batch through every processor, in order. *)
Fixpoint run_pipeline {n} (prs : list (procN n)) (es : events) : go event_error (list (procN n) * events) :=
  match prs with
  | [] => Ok ([], es)
  | p :: prs =>
      '(p, es) ← Apply (EventProcessor := procN_ep n) p es;
      '(prs, es) ← run_pipeline prs es;
      Ok (p :: prs, es)
  end.
(** Batch after batch: the processors keep their state. *)
Fixpoint run_batches {n} (prs : list (procN n)) (batches : list events) : go event_error (list events) :=
  match batches with
  | [] => Ok []
  | es :: batches =>
      '(prs, out) ← run_pipeline prs es;
      outs ← run_batches prs batches;
      Ok (out :: outs)
  end.

(** ** Safety *)

Lemma run_pipeline_safe n (prs : list (procN n)) es :
  Forall (procN_safe n) prs -> Forall ok_event es ->
  exists prs' out, run_pipeline prs es = Ok (prs', out) /\ Forall (procN_safe n) prs' /\ Forall ok_event out.
Proof.
  intros Hp. revert es; induction Hp as [|p prs Hp Hps IH]; intros es Hes; cbn [run_pipeline]; [by do 2 eexists|].
  destruct (safe_apply (SafeProcessor := procN_ep_safe n) p es Hp Hes) as (p' & es' & -> & Hp' & Hes'). cbn [mbind go_bind].
  destruct (IH es' Hes') as (prs' & out & -> & Hps' & Hout). cbn [mbind go_bind].
  do 2 eexists. split; [done|]. split; [by constructor|done].
Qed.

Lemma run_batches_safe n (prs : list (procN n)) batches :
  Forall (procN_safe n) prs -> Forall (Forall ok_event) batches ->
  exists outs, run_batches prs batches = Ok outs /\ Forall (Forall ok_event) outs /\ length outs = length batches.
Proof.
  intros Hp Hb. revert prs Hp; induction Hb as [|es batches Hes Hb IH]; intros prs Hp; cbn [run_batches]; [by exists []|].
  destruct (run_pipeline_safe n prs es Hp Hes) as (prs' & out & -> & Hp' & Hout). cbn [mbind go_bind].
  destruct (IH prs' Hp') as (outs & -> & Houts & Hl). cbn [mbind go_bind]. exists (out :: outs). split; [done|].
  split; [by constructor|]. cbn. by rewrite Hl.
Qed.

Lemma leaf_of_safe {P} (ep : EventProcessor P) init cfg pr (inv : P -> Prop) :
  SafeProcessor ep inv -> (forall p, init cfg = Ok p -> inv p) -> leaf_of ep init cfg = Ok pr -> safe_proc pr.
Proof. intros Hs Hi (p & Hp & [= <-])%bind_ok. exists inv. split; [done|by apply Hi]. Qed.

(** The configurations of the two types that can panic: event-date-string
    selects no tags, as the date of a tag needs a table of values, and the
    splits of event-strings ignore no negative number of items. *)
Definition tame (epType : string) (c : any) : Prop :=
  (epType = "event-date-string" -> forall d, DecodeConfig (C := dateConfig) c = Some d -> dsc_Tags d = []) /\
  (epType = "event-strings" -> forall d, DecodeConfig (C := stringsConfig) c = Some d -> splits_ok d).

Lemma dateString_Init_tags cfg p :
  (forall d, DecodeConfig (C := dateConfig) cfg = Some d -> dsc_Tags d = []) -> dateString_Init cfg = Ok p -> ds_tags p = [].
Proof.
  unfold dateString_Init, decode. destruct (DecodeConfig cfg) as [c|]; [|done]. intros Hc. cbn [mbind go_bind].
  rewrite (Hc c eq_refl). intros (vs & _ & (ts & [= <-] & (loc & _ & [= <-])%bind_ok)%bind_ok)%bind_ok. done.
Qed.

Lemma strings_Init_tame cfg p :
  (forall d, DecodeConfig (C := stringsConfig) cfg = Some d -> splits_ok d) -> strings_Init cfg = Ok p -> strings_inv p.
Proof.
  intros Hc Hp. destruct (DecodeConfig (C := stringsConfig) cfg) as [c|] eqn:Hd.
  - eapply strings_Init_inv; [exact Hd|by apply Hc|exact Hp].
  - unfold strings_Init, decode in Hp. by rewrite Hd in Hp.
Qed.

(** Every registered type makes safe processors of tame configurations. *)
Lemma registered_safe epType f cfg p : tame epType cfg -> assoc epType registered = Some f -> f cfg = Ok p -> safe_proc p.
Proof.
  intros [Hdate Hstr]. unfold registered. cbn [assoc].
  repeat (match goal with |- context [String.eqb epType ?o] => destruct (String.eqb_spec epType o) as [Hty|_] end;
    [intros [= <-]; first
      [ apply (leaf_of_safe _ _ _ _ v2_inv valueTagV2_safe); intros ?; apply valueTagV2_Init_inv
      | apply (leaf_of_safe _ _ _ _ _ dateString_safe); intros ?; apply dateString_Init_tags, Hdate, Hty
      | apply (leaf_of_safe _ _ _ _ _ strings_safe); intros ?; apply strings_Init_tame, Hstr, Hty
      | apply (leaf_of_safe _ _ _ _ always); [first [apply addTag_safe|apply allow_safe|apply convert_safe|apply dataConvert_safe|apply delete_safe
          |apply drop_safe|apply duration_safe|apply extract_safe|apply groupBy_safe|apply ieee_safe|apply keep_safe|apply merge_safe
          |apply override_safe|apply rateLimit_safe|apply epoch_safe|apply toTag_safe|apply trigger_safe|apply valueTag_safe]|done]]|]).
  done.
Qed.

(** The definitions are all of types the development models, and tame. *)
Definition modelled_cfg (cfg : gmap string any) : Prop :=
  epType_of cfg = "event-combine" \/
  is_Some (assoc (epType_of cfg) registered) /\ tame (epType_of cfg) (default ANil (cfg !! epType_of cfg)).
Definition modelled (ps : definitions) : Prop := map_Forall (fun _ => modelled_cfg) ps.

Lemma MakeProcessor_safe n ps cfg p :
  modelled ps -> modelled_cfg cfg ->
  MakeProcessor n ps cfg = Ok p -> procN_safe n p.
Proof.
  intros Hm. revert cfg p; induction n as [|n IH]; intros cfg p Hc Hmk; cbn [MakeProcessor] in Hmk;
    destruct (String.eqb_spec (epType_of cfg) "event-combine") as [He|He].
  - done.
  - destruct Hc as [?|[[f Hf] Ht]]; [done|]. unfold initializer in Hmk. rewrite Hf in Hmk.
    apply bind_ok in Hmk as (p0 & Hp0 & [= <-]). by eapply registered_safe.
  - apply bind_ok in Hmk as (l & Hl & [= <-]). cbn [procN_safe]. unfold combine_Init in Hl.
    apply bind_ok in Hl as (cs & _ & Hl). destruct (nilb cs); [done|].
    apply mapE_ok in Hl. apply Forall_forall. intros s (i & Hi)%list_elem_of_lookup.
    destruct (Forall2_lookup_r _ _ _ _ _ Hl Hi) as (c & _ & Hs). unfold combine_Init1 in Hs.
    destruct c as [c|]; [|done]. destruct (String.eqb _ _); [done|].
    apply bind_ok in Hs as (code & _ & (q & Hq & [= <-])%bind_ok). cbn [ps_proc].
    destruct (ps !! psc_Name c) as [cfg'|] eqn:Hps; [|done]. eapply IH; [|exact Hq]. by apply (Hm (psc_Name c)).
  - destruct Hc as [?|[[f Hf] Ht]]; [done|]. unfold initializer in Hmk. rewrite Hf in Hmk.
    apply bind_ok in Hmk as (p0 & Hp0 & [= <-]). by eapply registered_safe.
Qed.

Lemma MakeEventProcessors_safe n names ps prs :
  modelled ps -> MakeEventProcessors n names ps = Ok prs -> Forall (procN_safe n) prs.
Proof.
  intros Hm Hmk. apply mapE_ok in Hmk. apply Forall_forall. intros p (i & Hi)%list_elem_of_lookup.
  destruct (Forall2_lookup_r _ _ _ _ _ Hmk Hi) as (name & _ & Hp). cbn in Hp.
  destruct (ps !! name) as [cfg|] eqn:Hps; [|done]. eapply MakeProcessor_safe; [done| |exact Hp]. by apply (Hm name).
Qed.

Lemma response_ok `{EventEnv} name rsp meta es :
  ResponseToEventMsgs name rsp meta [] = Ok es -> Forall ok_event es.
Proof.
  destruct rsp as [[n|]|]; cbn [ResponseToEventMsgs]; [|by intros [= <-]..].
  unfold notificationToEvents. destruct (tagsFromGNMIPath (n_Prefix n)) as [np pt].
  intros (evs & (uevs & Hu & (devs & Hd & [= <-])%bind_ok)%bind_ok & [= <-])%bind_ok.
  apply Forall_fmap, Forall_app. split; apply Forall_forall; intros e (i & Hi)%list_elem_of_lookup; cbn.
  - apply mapE_ok in Hu. destruct (Forall2_lookup_r _ _ _ _ _ Hu Hi) as (upd & _ & (e0 & He & Hm)%bind_ok).
    apply updateToEvent_event in He as (He & _ & _). by destruct (addMetaTags_event _ _ _ _ _ He Hm) as ((_ & _ & ?) & _).
  - destruct (deletesToEvent_total name np (n_Timestamp n) (n_Delete n) pt meta) as (evs & E & HF).
    rewrite Hd in E. injection E as <-. by destruct (Forall2_lookup_r _ _ _ _ _ HF Hi) as (del & _ & (_ & _ & ?) & _).
Qed.

(** Updating a processor replaces the first one of its name, and only it. *)
Lemma update_at_spec n ps name pcfg names i (current prs : list (procN n)) b :
  update_at n ps name pcfg names i current = Ok (prs, b) ->
  if b then exists k ep, names !! k = Some name /\ (forall j, (j < k)%nat -> names !! j <> Some name) /\
              (MakeProcessor n ps pcfg = Ok ep) /\ (i + k < length current)%nat /\ prs = (<[(i + k)%nat := ep]> current)
  else (name ∉ names) /\ prs = current.
Proof.
  revert i; induction names as [|x names IH]; intros i; cbn [update_at].
  { intros [= <- <-]. split; [apply not_elem_of_nil|done]. }
  destruct (String.eqb_spec x name) as [->|Hne].
  - intros (ep & Hep & Hu)%bind_ok. destruct (Nat.leb_spec (length current) i); [done|]. injection Hu as <- <-.
    exists 0%nat, ep. rewrite Nat.add_0_r. split; [done|]. split; [lia|]. done.
  - intros Hu. specialize (IH _ Hu). destruct b.
    + destruct IH as (k & ep & Hk & Hlt & Hep & Hlen & ->). exists (S k), ep. split; [done|]. split.
      * intros [|j] Hj; cbn; [congruence|]. apply Hlt. lia.
      * replace (i + S k)%nat with (S i + k)%nat by lia. done.
    + destruct IH as [Hn ->]. split; [|done]. by intros [|]%elem_of_cons.
Qed.

(** A combine processor that names itself is never made, at any depth: the code
    calls itself without end. *)
Lemma combine_of_itself n ps name cfg c l :
  ps !! name = Some cfg -> epType_of cfg = "event-combine" ->
  DecodeConfig (C := list (option procseqConfig)) (default ANil (cfg !! "event-combine")) = Some l ->
  Some c ∈ l -> psc_Name c = name -> is_ok (MakeProcessor n ps cfg) = false.
Proof.
  intros Hps Hty Hdec Hc Hname. induction n as [|n IH]; cbn [MakeProcessor]; rewrite Hty; cbn [String.eqb Ascii.eqb Bool.eqb].
  - done.
  - match goal with |- is_ok ?m = false => destruct m as [p| |] eqn:Hm; [|done..] end.
    exfalso. apply bind_ok in Hm as (lp & Hl & _). unfold combine_Init, decode in Hl. rewrite Hdec in Hl. cbn [mbind go_bind] in Hl.
    destruct l as [|c0 l0]; [by apply elem_of_nil in Hc|]. cbn [nilb] in Hl. apply mapE_ok in Hl.
    apply list_elem_of_lookup in Hc as (i & Hi). destruct (Forall2_lookup_l _ _ _ _ _ Hl Hi) as (s & _ & Hs).
    unfold combine_Init1 in Hs. destruct (String.eqb _ _); [done|]. apply bind_ok in Hs as (code & _ & (q & Hq & _)%bind_ok).
    rewrite Hname, Hps in Hq. by rewrite Hq in IH.
Qed.

(** C6: a pipeline made from definitions of the registered types the
    development models (all but event-jq, event-plugin, event-starlark and
    event-write), combine processors nested in one another included, of which
    no event-date-string selects tags and no split of an event-strings ignores
    a negative number of items, and fed the events of any number of decoded
    notifications, batch after batch with whatever state the processors keep:
    no call returns an error or panics, there is an output per batch, and every
    event of it is a present event with a tag table. Both conditions are
    needed: [date_string_delete] is the event of a delete on which the first
    panics, [negative_ignore] a text on which the second does. *)
Theorem pipeline_never_fails `{EventEnv} (n : nat) (names : list string) (ps : definitions) (prs : list (procN n))
    (batches : list events) :
  modelled ps -> MakeEventProcessors n names ps = Ok prs ->
  Forall (fun es => exists name rsp meta, ResponseToEventMsgs name rsp meta [] = Ok es) batches ->
  exists outs, run_batches prs batches = Ok outs /\ length outs = length batches /\ Forall (Forall ok_event) outs.
Proof.
  intros Hm Hmk Hb. destruct (run_batches_safe n prs batches) as (outs & Hrun & Hok & Hlen); [|..|by exists outs].
  - by eapply MakeEventProcessors_safe.
  - eapply Forall_impl; [exact Hb|]. intros es (name & rsp & meta & Hes). by eapply response_ok.
Qed.
End make.

(** ** A pipeline for the witness: a combine of a drop, and an event-date-string *)

Module Example.
#[local] Existing Instance jq_tag.
#[local] Existing Instance sort_stable.
#[local] Existing Instance order_bwd.
#[local] Existing Instance lit_pkg.
#[local] Existing Instance fmt_none.
#[local] Existing Instance lru_map.
#[local] Existing Instance sha_id.
#[local] Existing Instance conv_amd64.
#[local] Existing Instance float_text_none.
#[local] Existing Instance decimal_units.
#[local] Existing Instance env_none.
#[local] Existing Instance layout_only.
#[local] Existing Instance case_ascii.
#[local] Existing Instance title_none.
#[local] Instance clock_zero : Clock := {| now _ := 0 |}.
#[local] Instance time_none : TimeParse := {| time_Parse _ _ := None |}.

(** Configurations are strings; only three types are used. *)
#[local] Instance dec_none C : Decode C | 10 := {| DecodeConfig _ := None |}.
#[local] Instance dec_filter : Decode filterConfig :=
  {| DecodeConfig a := match a with AStr s => Some (mkFilterConfig "" [] [] [s] []) | _ => None end |}.
#[local] Instance dec_combine : Decode (list (option procseqConfig)) :=
  {| DecodeConfig a := match a with AStr s => Some [Some (mkProcseqConfig "" s)] | _ => None end |}.

#[local] Instance dec_date : Decode dateConfig :=
  {| DecodeConfig a := match a with AStr s => Some (mkDateConfig [] [s] "s" "" "") | _ => None end |}.

Definition ex_action (s : string) : go init_error Action := Err (errConfig s).
Definition ex_definitions : definitions :=
  {["outer" := {["event-combine" := AStr "inner"]}; "inner" := {["event-drop" := AStr "x"]}; "dates" := {["event-date-string" := AStr "a"]}]}.
Definition ex_names : list string := ["outer"; "dates"].

Lemma pipeline_never_fails_witness :
  let n := mkNotification 7 None [mkUpdate (Some ex_path) (Some (UintVal 3))] [] in
  exists prs es outs, MakeEventProcessors ex_action (fun _ => None) 1 ex_names ex_definitions = Ok prs /\
    ResponseToEventMsgs "sub1" (Some (SR_Update n)) None [] = Ok es /\
    run_batches prs [es; es] = Ok outs /\ length outs = 2%nat.
Proof.
  cbn zeta. set (m := mkNotification _ _ _ _).
  destruct (is_ok_some (MakeEventProcessors ex_action (fun _ => None) 1 ex_names ex_definitions)) as [prs Hmk];
    [vm_compute; reflexivity|].
  destruct (is_ok_some (ResponseToEventMsgs "sub1" (Some (SR_Update m)) None [])) as [es Hes]; [vm_compute; reflexivity|].
  destruct (pipeline_never_fails ex_action (fun _ => None) 1 ex_names ex_definitions prs [es; es]) as (outs & Hrun & Hlen & _).
  - unfold modelled, ex_definitions. apply map_Forall_insert_2; [left; vm_compute; reflexivity|].
    apply map_Forall_insert_2; [|apply map_Forall_insert_2; [|apply map_Forall_empty]]; right.
    + replace (epType_of {["event-drop" := AStr "x"]}) with "event-drop" by (vm_compute; reflexivity).
      split; [eexists; reflexivity|]. split; discriminate.
    + replace (epType_of {["event-date-string" := AStr "a"]}) with "event-date-string" by (vm_compute; reflexivity).
      rewrite lookup_singleton_eq. split; [eexists; reflexivity|]. split; [|discriminate]. intros _ d [= <-]. reflexivity.
  - exact Hmk.
  - apply Forall_cons. split; [|apply Forall_singleton]; exists "sub1", (Some (SR_Update m)), None; exact Hes.
  - exists prs, es, outs. split; [exact Hmk|]. split; [exact Hes|]. split; [exact Hrun|exact Hlen].
Defined.
End Example.
